(* ===== verification/_CoqProject ===== *)
-Q . S2P
Prelude.v
Octets.v
Serial.v
Symbol.v
BaseCodec.v
CharStr.v
Label.v
Traits.v
Name.v
NameBuilder.v
Chain.v
ParsedName.v
Header.v
Compressor.v
MessageBuilder.v
Message.v
Record.v
Scanner.v
Iana.v
IpText.v
Ttl.v
Opt.v
Options.v
Layout.v
Rdata.v
Bitmap.v
Txt.v
Dnssec.v
Nsec3.v
ZoneData.v
Flatten.v
ScanData.v
SourceBuf.v
Lex.v
Inplace.v
EntryTokens.v
ZonefileFmt.v
ZoneText.v
ScanTokens.v
ZoneRoundtrip.v
ZoneEntries.v
Typed.v
Canonical.v
Xfr.v
HashMap.v
ZoneSet.v
Versioned.v
ZoneStore.v
ZoneBuilder.v
ParsedZone.v
ZoneFromFile.v
ZoneWrite.v
Answer.v
