(* ===== verification/Prelude.v ===== *)
(** * Verification of the [domain] DNS crate

    The crate [domain] (under [src/]) is a toolkit for the Domain Name System.
    This library verifies its foundation, the module [base] ([src/src/base/]):
    domain names in all their representations, the wire format and its name
    compression, the reading and the building of DNS messages, EDNS options and
    the presentation format; the text encodings of [src/src/utils/]; the
    record data types of zones ([src/src/rdata/]); and three parts written on top of
    these: the reading and writing of zone files ([src/src/zonefile/inplace.rs],
    [src/src/base/zonefile_fmt.rs]), the interpretation of zone transfers
    ([src/src/net/xfr/protocol/]) and the zone tree with its in-memory zones
    ([src/src/zonetree/]).
    Everything else in the crate (clients, servers, the resolver, signing) builds
    on them.

    ** The program and the files

    - [Prelude.v] (this file): results, panics and their notations, machine
      integers as [Z] with their ranges and wrap-around, ASCII case, the
      tactics [ulia], [inv_result], [by_decide] and the hint database [octets],
      and the lemmas on lists of octets that the components share.
    - [Octets.v]: the interface to the external crate [octseq].  Builders and
      parsers are parameters of the model: the classes [OctetsBuilder],
      [OctetsParser], [OctetsParserRef] list the operations the crate calls,
      [OctetsBuilderOk], [InfallibleBuilder], [OctetsParserOk] and
      [OctetsParserRefOk] what their documentation promises.  [vec_builder],
      [array_builder] and [slice_parser] are instances; the witnesses compute
      with them.  The file also models the primitives of [base/wire.rs].
      [Reads f g] says that the parser function [f] is the function [g] of the
      octets that are left, and comes with one rule per primitive: with it the
      composite parsers are reasoned about as functions on lists.
    - [Serial.v]: [base/serial.rs], RFC 1982 serial numbers.
    - [Symbol.v]: the symbols and escapes of the presentation format
      ([base/scan.rs]), and the class [ConvertSymbols].
    - [BaseCodec.v]: [utils/base16.rs], [base32.rs] and [base64.rs]: decoders,
      encoders and the symbol converters zone file scanning uses.
    - [CharStr.v]: [base/charstr.rs], character strings.
    - [Label.v]: [base/name/label.rs].
    - [Traits.v]: [base/name/traits.rs].  The class [LabelIter] is the double
      ended label iterator every kind of name has and [LabelIterOk] its promise.
      [denotes n ls] says that the name [n] has the labels [ls]; all operations
      of [ToLabelIter], [ToName] and [ToRelativeName] are proved against it.
    - [Name.v]: [base/name/absolute.rs] and [relative.rs], flat names.
    - [NameBuilder.v]: [base/name/builder.rs] and the functions that read names
      from text and build reverse names.
    - [Chain.v]: [base/name/chain.rs] and [uncertain.rs].
    - [ParsedName.v]: [base/name/parsed.rs], compressed names in messages.
    - [Header.v]: [base/header.rs] and the codes of [base/iana/rcode.rs] that
      the header holds.
    - [Compressor.v]: the [StaticCompressor] of [base/message_builder.rs].
    - [MessageBuilder.v]: the message builder, the four section builders and
      [StreamTarget] of [base/message_builder.rs].
    - [Message.v]: [base/message.rs] with the parsing parts of
      [base/question.rs] and [base/record.rs].
    - [Record.v]: the composing parts of [base/question.rs], [base/record.rs]
      and [base/rdata.rs], and the [Composer] of [base/wire.rs].
    - [Scanner.v]: the trait [Scanner] of [base/scan.rs] as a class and the
      [IterScanner], the scanning of integers, and the text of unknown record data
      ([base/rdata.rs]).
    - [Iana.v]: the numbers with mnemonics of [base/iana/] ([macros.rs],
      [rtype.rs], [class.rs], [secalg.rs], [digestalg.rs], [nsec3.rs]) as text.
    - [IpText.v]: the text of addresses as the standard library reads and writes
      it, with the round trips.
    - [Ttl.v]: [Ttl] of [base/record.rs].
    - [Opt.v]: [base/opt/mod.rs] and the [OptBuilder] of
      [base/message_builder.rs].  The classes [OptData], [ParseOptData] and
      [ComposeOptData] are the crate's traits; [ParseOptDataOk] and
      [ComposeOptDataOk] are what an option type promises, and the theorems on
      [Opt] are proved against them.
    - [Options.v]: the option types of [base/opt/], one by one, which discharge
      these promises, and [AllOptData].
    - [Layout.v]: how record data is laid out, as relations between the octets of
      a message, a position, a value and the position where it ends.
      [Finds parse at_ is_] says that a parser finds exactly what is laid out,
      [Lays at_ x w] that the octets [w] are a layout of [x]; each has a rule for
      sequences and one per primitive field.
    - [Rdata.v]: the record data types of RFC 1035 ([rdata/rfc1035/]) except TXT,
      [rdata/aaaa.rs], [srv.rs] and the types that are a name
      ([rdata/macros.rs]).  The class [RecordDataOk] is what a type of record data
      promises of its wire format.
    - [Txt.v]: [rdata/rfc1035/txt.rs], TXT data and its builder.
    - [Bitmap.v]: the record type bitmaps of [rdata/dnssec.rs], their builder and
      iterator.
    - [Dnssec.v]: the other types of [rdata/dnssec.rs] and [rdata/cds.rs].
    - [Nsec3.v]: [rdata/nsec3.rs] and [rdata/zonemd.rs].
    - [ZoneData.v]: [ZoneRecordData], the sum of the types that can be in a zone,
      which the macros of [rdata/macros.rs] write.
    - [Flatten.v]: [FlattenInto], which makes record data with flat names from record
      data with any kind of names ([base/name/traits.rs], [rdata/]).
    - [ScanData.v]: the [scan] functions of the types of record data, over any
      [Scanner].  The conversion of a calendar date, which the crate [time] does,
      is the parameter [unix_time].
    - [SourceBuf.v]: the buffer of [zonefile/inplace.rs] with its items and
      symbols.
    - [Lex.v]: the grammar of zone files, as relations: [Lex p t toks p' t'] says
      that the text [t] consists of the tokens [toks] and then [t'], the nesting of
      parentheses going from [p] to [p']; and [next_item] follows it.
    - [Inplace.v]: the scanner of an entry, which converts the text in place, with
      all methods of [Scanner], and the entries of a zone file.
    - [EntryTokens.v]: what each method of that scanner does with the tokens it
      stands before.
    - [ZonefileFmt.v]: [base/zonefile_fmt.rs], the writers as instances of the
      class [FormatWriter], the output of records and record data.
      [FormatWriterOk] is what a writer promises: the tokens that were written can
      be found in its text by [Lex].
    - [ZoneText.v], [ScanTokens.v], [ZoneRoundtrip.v], [ZoneEntries.v]: the two
      directions put together, for texts, for the methods of the scanner on the
      level of zone files, for each type of record data, and for whole zone files.
    - [Typed.v]: reading the records of a message with typed data
      ([base/record.rs], [base/message.rs]).  The class [ParseDataOk] is what a
      type of record data promises to the iterators.
    - [Canonical.v]: the canonical name of an answer.
    - [Xfr.v]: [net/xfr/protocol/], the interpreter that turns the messages of an
      AXFR or IXFR response into updates of a zone.
    - [HashMap.v]: the hash maps of the standard library as association lists
      with distinct keys, where the order of iteration is not determined: code
      that iterates takes a function [order] as an argument, any permutation.
    - [ZoneSet.v]: [zonetree/tree.rs], the tree of all the zones of a server.
    - [Versioned.v]: [zonetree/in_memory/versioned.rs], values with the versions
      in which they changed.
    - [ZoneStore.v]: the nodes of a zone and the queries on them
      ([zonetree/in_memory/nodes.rs], [read.rs], [zonetree/types.rs],
      [answer.rs]), and the specification [resolves] of what a zone answers, in
      the terms of RFC 1034, RFC 2308 and RFC 4592.
    - [ZoneBuilder.v]: [zonetree/in_memory/builder.rs].
    - [ParsedZone.v]: [zonetree/parsed.rs] and [error.rs], the classification of the
      records of a zone file and the zone builder made from them.
    - [ZoneFromFile.v]: the zone that records describe ([zone_of]), and that the
      builder made from them holds it.
    - [ZoneWrite.v]: [zonetree/in_memory/write.rs], the writer of a zone with its
      transactions, and the diffs it makes.
    - [Answer.v]: the answer of a zone as a message ([Answer::to_message]), with
      [start_answer] and [start_error] of [base/message_builder.rs].

    ** How the code is modelled

    A struct is a [Record], an enum an [Inductive], a function a [Definition] or
    [Fixpoint] of the same name, prefixed with its type where names would clash
    ([name_split] is [Name::split], [rel_split] is [RelativeName::split]).
    Octets are [Z] between 0 and 255 ([wf_octets]), [Result] is [result], and a
    function that can panic (an index out of range, [unwrap], [expect],
    [assert!], arithmetic overflow) returns an [outcome], so that the absence of
    panics is part of what is proved.  A method with [&mut self] returns the new
    state also on failure, so what a failed call leaves behind is modelled.
    Where the behaviour depends on overflow checks a parameter [oc] tells whether
    the crate was compiled with them, and theorems hold for both.

    ** Loops and fuel

    A loop that is not structural takes fuel, and every theorem says that the
    fuel is enough: running out of it is a panic or [None], which the theorems
    exclude.
    - [name_fuel] and [run_fuel] are 256: a name has at most 255 octets, so at
      most 128 labels, and every round consumes at least one octet.
    - [jump_fuel] bounds the compression pointers followed: every jump leads to a
      lower position, or the name has grown since the last one, so 256 jumps per
      position of the message are enough.
    - [section_fuel] is 65537: the counts of the header are 16 bits wide, and a
      section loop takes one off the count per round.
    - [iter_fuel] is 4: [MessageIter::next] calls itself once for each of the
      three record sections at most.
    - [Message::canonical_name] bounds its own steps; the loops over the records of
      a section take [section_fuel].
    - the loops over the options of OPT data take one more round than there are
      octets: every option has at least four.
    - [sb_fuel], for the loops over a zone file, is one more than there are octets
      in the buffer: every round takes at least one.  [convert_entry_diverges]
      shows the one loop where the code does not.
    - [fmt_dec] has room for 40 digits, more than any integer of 128 bits has.

    ** What the theorems show

    - Compressed names: [parsed_parse] ends, accepts exactly the names whose
      pointers lead backwards and whose length is at most 255, moves the parser
      behind the name, says of it that it is compressed exactly if a pointer was
      followed, and [parsed_skip] ends at the same place
      ([parsed_parse_correct]); what it returns keeps the promise of names
      although its iterator checks nothing ([parsed_name_denotes],
      [parsed_split_first_correct]).
    - Messages: a builder driven through any sequence of calls refines an
      abstract message ([message_builder_refines], which leaves open what happens
      to an item that reaches the push limit exactly); the compressor writes names
      that read back, in any state it can come into, within the range that
      pointers have ([static_compressor_correct]); reading never panics or
      loops on any octets ([message_reading_safe]); a message that holds items
      reads as these ([message_sections_correct]); a message built from
      questions and records reads back as them ([message_roundtrip]);
      [message_is_answer_correct] characterises [Message::is_answer].
    - Names: the checks accept exactly the wire formats of valid label lists
      ([name_from_octets_correct], [rel_from_octets_correct],
      [uncertain_from_octets_correct]); comparisons, orders, prefix and suffix
      tests agree with the labels, compared without regard to case, for any two
      kinds of names ([name_eq_correct],
      [name_cmp_correct], [composed_cmp_correct], [starts_ends_with_correct]);
      splitting, stripping, chaining, composing and converting give the right
      labels; [builder_calls_refine] relates the name builder to an abstract
      label list that grows within the documented limits; text round trips ([name_text_roundtrip],
      [owned_label_roundtrip], [symbols_roundtrip]).
    - Header and numbers: every header setter changes its own field only
      ([header_setters_correct]), counters neither wrap nor underflow
      ([count_inc_dec_correct]), serial numbers follow RFC 1982.

    - EDNS: [Opt::from_octets] accepts exactly the sequences of complete options
      ([opt_from_octets_correct]); iterating is the same as filtering and parsing
      the list of options ([opt_iter_correct]); what the builder writes is the
      OPT record its calls describe, and at most 65535 octets of it
      ([opt_builder_refines]); options of all types, written one after the other,
      read back, with the exceptions of [options_not_read_back]
      ([edns_options_roundtrip]);
      a server cookie is accepted where it was made for
      ([cookie_response_checks], the hash function being a parameter).
    - Presentation format: character strings, strings, integers and unknown
      record data scan as what their text means ([charstr_text_correct],
      [scan_charstr_entry_correct], [scan_string_correct], [scan_uint_correct],
      [unknown_text_roundtrip]); the three text encodings round trip
      ([base_encodings_roundtrip]), errors are exactly those of the specification
      ([base16_decode_correct]), and the incremental converters agree with the
      decoders ([converters_equivalent]).
    - Record data: the parsers of the types of zone data find exactly the data
      that is laid out as the RFCs say, compressed names included
      ([zone_parse_correct]); what is composed reads back and has the length that
      is announced ([zone_roundtrip]); the canonical order is the order of the
      canonical wire formats ([zone_canonical_order]; NSEC is left out, see [nsec_types_ignored]);
      bitmaps and TXT data are sets of types and sequences of strings however they
      are built ([bitmap_builder_correct], [bitmap_from_octets_correct],
      [txt_builder_correct], [txt_from_octets_correct]); key tags are those of RFC
      4034 ([dnskey_key_tag_correct]); salts and hashes round trip as text
      ([nsec3_text_correct]).
    - Zone files: a list of records, each written in the simple or in the pretty
      form with comments and parentheses, reads back as these records and nothing
      else, for all types of record data ([zonefile_roundtrip]), if they are
      [readable_record]s.
    - Typed records: the iterators give each record of the wanted types once, with
      its data or an error ([typed_records_correct]); a message of typed records
      reads back as these ([typed_message_roundtrip]); the canonical name is the
      end of the chain of aliases ([canonical_name_correct]).
    - Zone transfers: the messages of a complete transfer, cut where one likes,
      give the updates that the sequence of records stands for
      ([xfr_transfer_correct]); the interpreter keeps its invariant on any
      octets, does not panic and ends ([xfr_interpreter_safe]).
    - Zones: the zone tree is a map from classes and names to zones, and finding a
      zone finds the one with the longest matching name ([zone_tree_correct]); a
      versioned value is a history, and a rolled back transaction leaves no trace
      ([versioned_transaction_correct]); a zone answers queries as [resolves] says
      of what was put into its builder ([zone_builder_correct]); the records of a
      zone file make the zone they describe, or exactly the errors that are in them
      ([zone_of_records_correct]); a transaction of
      the writer is invisible to readers until it is committed and gone when it is
      dropped, and a committed one is what its steps describe
      ([zone_write_correct]); the answer written into a message reads back as it
      ([to_message_correct]).
    - TTLs: [ttl_arithmetic_correct] gives the exact range of every operation.

    Some theorems show what the code does in corners where it does not do what
    it means to, for instance [slice_iter_self_pointer_diverges],
    [name_from_chars_too_long], [nb_append_name_loses_label],
    [nb_append_slice_full_label], [compressor_pointer_wraps],
    [opt_rcode_checked_from_int_wrong], [uncertain_root_text],
    [b64_push_after_error], [scan_uint_overflow], [unknown_marker_stays],
    [bad_escape_truncates], [ttl_pretty_no_separator], [opt_push_overflows],
    [options_not_read_back], [nsec_types_ignored], [txt_parse_empty],
    [nsec3_orders_differ], [salt_too_long], [zonemd_reserved_lost],
    [zone_order_unknown_variant], [canonical_name_overflow],
    [other_question_panics], [fallback_keeps_records], [records_after_end],
    [unused_iterator_loses_record], [removing_a_loses_b], [any_misses_types],
    [new_name_leaks], [name_below_empty_lost], [removed_name_exists],
    [cut_keeps_records], [diff_unchanged_is_added], [diff_misses_ttl],
    [diff_keeps_addition], [diff_misses_remove_all], [long_answer_panics],
    [txt_without_strings_panics], [empty_label_accepted], [quote_kept],
    [hinfo_not_read_back], [semicolon_not_escaped], [empty_unknown_not_read_back],
    [marker_swallows_paren], [missing_line_feed], [unbalanced_forever],
    [convert_entry_diverges], [iter_slice_beyond_end],
    [origin_without_class_panics] and [glue_class_in].

    ** What is not modelled

    Of [base]: [TreeCompressor] and [HashCompressor], record comparison, the
    mnemonics in [base/iana/] of numbers that do not occur in zone files.
    Of [rdata]: SVCB and TSIG data and [AllRecordData], which contains them, and
    the [Display] of record data, which is not the zone file form.  Of
    [zonetree]: walking over a zone, and the loop that inserts the entries of a text
    into a zone file has no theorem of its own.  The locks around a zone are left
    out: there is one writer at a time, as the code has it, and an operation of a reader sees the zone between two operations of
    the writer.  Network transports ([net/]), the
    resolver, the validator and signing are asynchronous I/O or calls into
    cryptographic libraries and stay outside.  Debug output, [serde] support and
    conversions between octets types carry no logic of their own. *)

From Stdlib Require Export ZArith Lia.
From stdpp Require Export base tactics list numbers option.

(** ** Scopes and global settings *)

Declare Scope rust_scope.
Delimit Scope rust_scope with rust.
#[global] Open Scope rust_scope.
#[global] Open Scope Z_scope.

(** ** Rust's [Result] and panics

    [result A E] is [core::result::Result].  [outcome A] is a computation that
    either returns or panics (an index out of range, a failed [assert!], an
    [unwrap] on the wrong variant, an arithmetic overflow with overflow checks
    on). *)

Inductive result (A E : Type) : Type :=
  | Ok (a : A)
  | Err (e : E).
Arguments Ok {A E} a.
Arguments Err {A E} e.

Inductive outcome (A : Type) : Type :=
  | Ret (a : A)
  | Panic.
Arguments Ret {A} a.
Arguments Panic {A}.

#[export] Instance result_eq_dec {A E} `{EqDecision A, EqDecision E} :
  EqDecision (result A E).
Proof. solve_decision. Defined.
#[export] Instance outcome_eq_dec {A} `{EqDecision A} : EqDecision (outcome A).
Proof. solve_decision. Defined.

(** The [?] operator: an error returns from the enclosing function. *)
Notation "'let?' x := c 'in' k" :=
  (match c with Ok x => k | Err err => Err err end)
  (at level 10, x pattern, c at level 100, k at level 200) : rust_scope.

(** Sequencing of computations that may panic. *)
Notation "'let!' x := c 'in' k" :=
  (match c with Ret x => k | Panic => Panic end)
  (at level 10, x pattern, c at level 100, k at level 200) : rust_scope.

Definition map_err {A E F} (f : E -> F) (r : result A E) : result A F :=
  match r with Ok a => Ok a | Err e => Err (f e) end.

Definition result_map {A B E} (f : A -> B) (r : result A E) : result B E :=
  match r with Ok a => Ok (f a) | Err e => Err e end.

Definition ok_or {A E} (o : option A) (e : E) : result A E :=
  match o with Some a => Ok a | None => Err e end.

Lemma Ok_pair_inj {A B E} (a c : A) (b d : B) : @Ok _ E (a, b) = Ok (c, d) -> a = c /\ b = d.
Proof. intros H. inversion H. by split. Qed.

(** ** Machine integers *)

Definition is_u8 (z : Z) : Prop := 0 <= z < 2 ^ 8.
Definition is_u16 (z : Z) : Prop := 0 <= z < 2 ^ 16.
Definition is_u32 (z : Z) : Prop := 0 <= z < 2 ^ 32.

#[export] Instance is_u8_dec z : Decision (is_u8 z).
Proof. unfold is_u8; apply _. Defined.
#[export] Instance is_u16_dec z : Decision (is_u16 z).
Proof. unfold is_u16; apply _. Defined.
#[export] Instance is_u32_dec z : Decision (is_u32 z).
Proof. unfold is_u32; apply _. Defined.

(** [z as u8], [z as u16], [z as u32] for an unsigned [z]. *)
Definition as_u8 (z : Z) : Z := z mod 2 ^ 8.
Definition as_u16 (z : Z) : Z := z mod 2 ^ 16.
Definition as_u32 (z : Z) : Z := z mod 2 ^ 32.

(** [a - b] on [usize]: an underflow panics with overflow checks on (a debug
    build) and wraps around without them. *)
Definition usize_sub (overflow_checks : bool) (a b : Z) : outcome Z :=
  if a <? b then if overflow_checks then Panic else Ret ((a - b) mod 2 ^ 64)
  else Ret (a - b).

Lemma usize_sub_ok oc a b : b <= a -> usize_sub oc a b = Ret (a - b).
Proof. intros. unfold usize_sub. by destruct (Z.ltb_spec a b); [lia|]. Qed.

(** The length of a slice as an integer. *)
Definition zlen {A} (l : list A) : Z := Z.of_nat (length l).

Definition wf_octets (s : list Z) : Prop := Forall is_u8 s.

#[export] Instance wf_octets_dec s : Decision (wf_octets s).
Proof. unfold wf_octets; apply _. Defined.

(** ** Octets as ASCII *)

Definition is_ascii_uppercase (b : Z) : bool := (65 <=? b) && (b <=? 90).
Definition is_ascii_digit (b : Z) : bool := (48 <=? b) && (b <=? 57).

(** [u8::to_ascii_lowercase]. *)
Definition to_ascii_lowercase (b : Z) : Z :=
  if is_ascii_uppercase b then b + 32 else b.

(** [<[u8]>::eq_ignore_ascii_case]. *)
Fixpoint eq_ignore_ascii_case (s t : list Z) : bool :=
  match s, t with
  | [], [] => true
  | a :: s', b :: t' =>
      (to_ascii_lowercase a =? to_ascii_lowercase b) && eq_ignore_ascii_case s' t'
  | _, _ => false
  end.

(** [Iterator::cmp] on iterators of octets; also the [Ord] of slices. *)
Fixpoint iter_cmp (s t : list Z) : comparison :=
  match s, t with
  | [], [] => Eq
  | [], _ :: _ => Lt
  | _ :: _, [] => Gt
  | a :: s', b :: t' => match a ?= b with Eq => iter_cmp s' t' | c => c end
  end.

(** ** Tactics *)

(** Case analysis on the scrutinee of a [match] or an [if] in the goal or in
    the hypotheses. *)
Ltac case_scrut :=
  match goal with
  | |- context [match ?x with _ => _ end] => destruct x eqn:?
  | H : context [match ?x with _ => _ end] |- _ => destruct x eqn:?
  end.

(** Turns boolean comparisons on [Z] and [nat] into propositions. *)
Ltac breflect :=
  repeat match goal with
  | H : (_ && _) = true |- _ => apply andb_true_iff in H; destruct H
  | H : (_ || _) = false |- _ => apply orb_false_iff in H; destruct H
  | H : (_ && _) = false |- _ => apply andb_false_iff in H
  | H : (_ || _) = true |- _ => apply orb_true_iff in H
  | H : negb _ = true |- _ => apply negb_true_iff in H
  | H : negb _ = false |- _ => apply negb_false_iff in H
  | H : (_ =? _)%Z = true |- _ => apply Z.eqb_eq in H
  | H : (_ =? _)%Z = false |- _ => apply Z.eqb_neq in H
  | H : (_ <? _)%Z = true |- _ => apply Z.ltb_lt in H
  | H : (_ <? _)%Z = false |- _ => apply Z.ltb_ge in H
  | H : (_ <=? _)%Z = true |- _ => apply Z.leb_le in H
  | H : (_ <=? _)%Z = false |- _ => apply Z.leb_gt in H
  | H : (_ =? _)%nat = true |- _ => apply Nat.eqb_eq in H
  | H : (_ =? _)%nat = false |- _ => apply Nat.eqb_neq in H
  | H : (_ <? _)%nat = true |- _ => apply Nat.ltb_lt in H
  | H : (_ <? _)%nat = false |- _ => apply Nat.ltb_ge in H
  | H : (_ <=? _)%nat = true |- _ => apply Nat.leb_le in H
  | H : (_ <=? _)%nat = false |- _ => apply Nat.leb_gt in H
  end.

(** Unfolds the integer widths and calls [lia]. *)
Ltac ulia := unfold is_u8, is_u16, is_u32, as_u8, as_u16, as_u32, zlen in *; lia.

(** Destructs every match in a hypothesis, closing impossible branches. *)
Ltac inv_result :=
  repeat (simplify_eq/=; try case_scrut; breflect); simplify_eq/=.

(** Proves a closed decidable proposition by evaluating its decision. *)
Ltac by_decide :=
  match goal with |- ?P => refine (bool_decide_unpack P _); vm_compute; exact I end.

Create HintDb octets.

(** ** Lists *)

Lemma take_app_le {A} (l1 l2 : list A) n :
  (n <= length l1)%nat -> take n (l1 ++ l2) = take n l1.
Proof. intros; by rewrite take_app, (proj2 (Nat.sub_0_le _ _)), take_0, app_nil_r. Qed.

Lemma drop_app_le {A} (l1 l2 : list A) n :
  (n <= length l1)%nat -> drop n (l1 ++ l2) = drop n l1 ++ l2.
Proof. intros. rewrite drop_app. by replace (n - length l1)%nat with 0%nat by lia. Qed.

Lemma Forall_uncons {A} (P : A -> Prop) x l : Forall P (x :: l) -> P x /\ Forall P l.
Proof. by inversion 1. Qed.

Lemma wf_octets_app s t : wf_octets (s ++ t) <-> wf_octets s /\ wf_octets t.
Proof. apply Forall_app. Qed.

Lemma wf_octets_take s n : wf_octets s -> wf_octets (take n s).
Proof. apply Forall_take. Qed.

Lemma wf_octets_drop s n : wf_octets s -> wf_octets (drop n s).
Proof. apply Forall_drop. Qed.

Lemma wf_octets_lookup s i b : wf_octets s -> s !! i = Some b -> is_u8 b.
Proof. intros H Hi. exact (Forall_lookup_1 _ _ _ _ H Hi). Qed.

#[export] Hint Resolve wf_octets_take wf_octets_drop : octets.

Lemma as_u8_id b : is_u8 b -> as_u8 b = b.
Proof. intros; by apply Z.mod_small. Qed.

Lemma as_u16_id v : is_u16 v -> as_u16 v = v.
Proof. intros; by apply Z.mod_small. Qed.

Lemma as_u8_range z : is_u8 (as_u8 z).
Proof. by apply Z.mod_pos_bound. Qed.

#[export] Hint Resolve as_u8_range : octets.

(** ** ASCII case *)

Lemma to_ascii_lowercase_idemp b :
  to_ascii_lowercase (to_ascii_lowercase b) = to_ascii_lowercase b.
Proof.
  unfold to_ascii_lowercase, is_ascii_uppercase.
  repeat case_scrut; breflect; destruct_or?; breflect; lia.
Qed.

Lemma to_ascii_lowercase_u8 b : is_u8 b -> is_u8 (to_ascii_lowercase b).
Proof. unfold to_ascii_lowercase, is_ascii_uppercase. case_scrut; breflect; ulia. Qed.

(** Octets below the letters are their own lower case, and nothing else maps
    to them. *)
Lemma to_ascii_lowercase_small b c :
  0 <= b < 65 -> to_ascii_lowercase b = to_ascii_lowercase c -> b = c.
Proof.
  unfold to_ascii_lowercase, is_ascii_uppercase.
  repeat case_scrut; breflect; destruct_or?; breflect; lia.
Qed.

Lemma eq_ignore_ascii_case_spec s t :
  eq_ignore_ascii_case s t = true <->
  map to_ascii_lowercase s = map to_ascii_lowercase t.
Proof.
  revert t; induction s as [|a s IH]; intros [|b t]; simpl; try (split; congruence).
  rewrite andb_true_iff, Z.eqb_eq, IH. split; [intros [-> ->]|intros [= ? ?]]; auto.
Qed.

(** ** The lexicographic order on octets *)

Lemma iter_cmp_refl s : iter_cmp s s = Eq.
Proof. induction s as [|a s IH]; simpl; [done|]. by rewrite Z.compare_refl. Qed.

Lemma iter_cmp_eq s t : iter_cmp s t = Eq <-> s = t.
Proof.
  split; [|intros ->; apply iter_cmp_refl].
  revert t; induction s as [|a s IH]; intros [|b t]; simpl; try done.
  destruct (Z.compare_spec a b); try done. intros ?%IH. congruence.
Qed.

Lemma iter_cmp_opp s t : iter_cmp t s = CompOpp (iter_cmp s t).
Proof.
  revert t; induction s as [|a s IH]; intros [|b t]; simpl; try done.
  rewrite (Z.compare_antisym a b). destruct (a ?= b); simpl; auto.
Qed.

Lemma iter_cmp_lt_trans s t u :
  iter_cmp s t = Lt -> iter_cmp t u = Lt -> iter_cmp s u = Lt.
Proof.
  revert t u; induction s as [|a s IH]; intros [|b t] [|c u]; simpl; try done.
  destruct (Z.compare_spec a b), (Z.compare_spec b c), (Z.compare_spec a c);
    try done; try lia; eauto.
Qed.

Lemma iter_cmp_app_prefix p s t : iter_cmp (p ++ s) (p ++ t) = iter_cmp s t.
Proof. induction p as [|a p IH]; simpl; [done|]. by rewrite Z.compare_refl. Qed.

(** ** Bits *)

Lemma testbit_high b n i : 0 <= n <= i -> 0 <= b < 2 ^ n -> Z.testbit b i = false.
Proof.
  intros Hn Hb. rewrite <- (Z.mod_small b (2 ^ n)) by done. apply Z.mod_pow2_bits_high; lia.
Qed.

Lemma land_disjoint a b n : 0 <= n -> 0 <= b < 2 ^ n -> Z.land (a * 2 ^ n) b = 0.
Proof.
  intros Hn Hb. apply Z.bits_inj'; intros i Hi. rewrite Z.land_spec, Z.bits_0.
  destruct (Z.lt_ge_cases i n).
  - by rewrite Z.mul_pow2_bits_low.
  - rewrite (testbit_high b n i) by lia. apply andb_false_r.
Qed.

(** A shifted value and a value below the shift add up. *)
Lemma lor_shiftl_add a b n :
  0 <= n -> 0 <= b < 2 ^ n -> Z.lor (Z.shiftl a n) b = a * 2 ^ n + b.
Proof.
  intros Hn Hb. rewrite Z.shiftl_mul_pow2 by done.
  rewrite <- Z.lxor_lor, <- Z.add_nocarry_lxor by (by apply land_disjoint). done.
Qed.

Lemma iter_cmp_app s t s' t' :
  length s = length t ->
  iter_cmp (s ++ s') (t ++ t') = match iter_cmp s t with Eq => iter_cmp s' t' | c => c end.
Proof.
  revert t; induction s as [|a s IH]; intros [|b t]; simpl; try done.
  intros [= Hl]. destruct (a ?= b); auto.
Qed.

(** Sequences of which neither is a proper prefix of the other. *)
Definition apart (s t : list Z) : Prop := s `prefix_of` t \/ t `prefix_of` s -> s = t.

Lemma apart_length s t : length s = length t -> apart s t.
Proof.
  intros Hl [[u ->]|[u ->]]; rewrite length_app in Hl; (destruct u; [by rewrite app_nil_r|simpl in Hl; lia]).
Qed.

(** Such sequences are told apart before what follows them is looked at. *)
Lemma iter_cmp_app_apart s t s' t' :
  apart s t -> iter_cmp (s ++ s') (t ++ t') = match iter_cmp s t with Eq => iter_cmp s' t' | c => c end.
Proof.
  unfold apart. revert t; induction s as [|a s IH]; intros [|b t] Ha; simpl.
  - done.
  - discriminate Ha. left. apply prefix_nil.
  - discriminate Ha. right. apply prefix_nil.
  - destruct (Z.compare_spec a b) as [->|?|?]; [|done..]. apply IH.
    intros [Hp|Hp]; [specialize (Ha (or_introl (prefix_cons _ _ _ Hp)))|specialize (Ha (or_intror (prefix_cons _ _ _ Hp)))];
      by injection Ha.
Qed.
