(* ===== verification/Octets.v ===== *)
(** * The octseq interface and the wire-format primitives

    The crate composes into an [OctetsBuilder] and parses from a [Parser], both
    of the external crate [octseq].  They are parameters here: the classes
    [OctetsBuilder] and [OctetsParser] list the operations the crate calls, the
    classes [OctetsBuilderOk] and [OctetsParserOk] state what their
    documentation promises.  [vec_builder], [array_builder] and [slice_parser]
    are instances that satisfy the promises; witnesses compute with them.

    The second half models [src/src/base/wire.rs]: the error types, the
    integers in network byte order and [parse_slice]. *)

From S2P Require Import Prelude.
From stdpp Require Import strings.
#[local] Open Scope Z_scope.

(** ** Octets builders *)

(** [append_slice] returns [None] for an append error, which leaves the
    builder alone; [set_octet b i v] is [b.as_mut()[i] = v]. *)
Class OctetsBuilder (B : Type) : Type := {
  builder_empty : B;
  as_ref : B -> list Z;
  append_slice : B -> list Z -> option B;
  set_octet : B -> nat -> Z -> B;
  builder_truncate : B -> nat -> B;
  freeze : B -> list Z
}.

Class OctetsBuilderOk (B : Type) `{OctetsBuilder B} : Prop := {
  as_ref_empty : as_ref (builder_empty : B) = [];
  as_ref_append (b b' : B) s :
    append_slice b s = Some b' -> as_ref b' = as_ref b ++ s;
  as_ref_set_octet (b : B) i v :
    (i < length (as_ref b))%nat -> as_ref (set_octet b i v) = <[i:=v]> (as_ref b);
  as_ref_truncate (b : B) n : as_ref (builder_truncate b n) = take n (as_ref b);
  freeze_as_ref (b : B) : freeze b = as_ref b
}.

(** Builders with [AppendError = Infallible], such as [Vec<u8>]. *)
Class InfallibleBuilder (B : Type) `{OctetsBuilder B} : Prop :=
  append_slice_total (b : B) s : is_Some (append_slice b s).

(** ** Integers in network byte order *)

(** [uN::from_be_bytes]. *)
Fixpoint from_be_bytes (s : list Z) (acc : Z) : Z :=
  match s with
  | [] => acc
  | b :: s' => from_be_bytes s' (acc * 2 ^ 8 + b)
  end.

(** [uN::to_be_bytes] for an integer of [n] octets. *)
Fixpoint to_be_bytes (n : nat) (v : Z) : list Z :=
  match n with
  | O => []
  | S n' => to_be_bytes n' (v / 2 ^ 8) ++ [v mod 2 ^ 8]
  end.

Lemma length_to_be_bytes n v : length (to_be_bytes n v) = n.
Proof.
  revert v; induction n as [|n IH]; intros v; simpl; [done|].
  rewrite length_app, IH; simpl; lia.
Qed.

Lemma to_be_bytes_wf n v : wf_octets (to_be_bytes n v).
Proof.
  revert v; induction n as [|n IH]; intros v; simpl; [constructor|].
  apply wf_octets_app; split; [apply IH|]. constructor; [|constructor].
  apply Z.mod_pos_bound; lia.
Qed.

Lemma from_be_bytes_app s t acc :
  from_be_bytes (s ++ t) acc = from_be_bytes t (from_be_bytes s acc).
Proof. revert acc; induction s as [|b s IH]; intros acc; simpl; auto. Qed.

Lemma from_to_be_bytes n v acc :
  0 <= v < 2 ^ (8 * Z.of_nat n) ->
  from_be_bytes (to_be_bytes n v) acc = acc * 2 ^ (8 * Z.of_nat n) + v.
Proof.
  revert v; induction n as [|n IH]; intros v Hv; [simpl in *; lia|].
  cbn [to_be_bytes]. rewrite from_be_bytes_app.
  replace (8 * Z.of_nat (S n)) with (8 * Z.of_nat n + 8) in * by lia.
  rewrite Z.pow_add_r in * by lia.
  rewrite IH; cbn [from_be_bytes].
  - pose proof (Z.div_mod v (2 ^ 8)). lia.
  - split; [apply Z.div_pos; lia|apply Z.div_lt_upper_bound; lia].
Qed.

(** A round trip the other way: octets are the encoding of their value. *)
Lemma from_be_bytes_nonneg s acc : wf_octets s -> 0 <= acc -> 0 <= from_be_bytes s acc.
Proof.
  intros Hs. revert acc. induction Hs as [|b s Hb _ IH]; intros acc Ha; cbn [from_be_bytes]; [done|]. unfold is_u8 in Hb. apply IH. lia.
Qed.

Lemma to_from_be_bytes s acc :
  wf_octets s -> to_be_bytes (length s) (from_be_bytes s acc) = s.
Proof.
  revert acc; induction s as [|b s IH] using rev_ind; intros acc Hs; [done|].
  apply wf_octets_app in Hs as [Hs Hb]. apply Forall_inv in Hb.
  rewrite length_app, Nat.add_comm; simpl. rewrite from_be_bytes_app; simpl.
  replace ((from_be_bytes s acc * 2 ^ 8 + b) / 2 ^ 8) with (from_be_bytes s acc).
  - rewrite IH by done. f_equal. f_equal.
    rewrite Z.add_comm, Z.mod_add by lia. apply Z.mod_small. exact Hb.
  - rewrite Z.div_add_l by lia. rewrite Z.div_small by exact Hb. lia.
Qed.

(** ** Octets parsers *)

(** [None] is [Err(ShortInput)].  A parser looks at the octets [p_octets] up to
    index [p_len] and stands at [p_pos]. *)
Class OctetsParser (P : Type) : Type := {
  p_octets : P -> list Z;
  p_len : P -> nat;
  p_pos : P -> nat;
  p_seek : P -> nat -> option P;
  p_advance : P -> nat -> option P;
  p_peek : P -> nat -> option (list Z);
  p_peek_all : P -> list Z;
  p_parse_octets : P -> nat -> option (list Z * P);
  p_parse_u8 : P -> option (Z * P);
  p_parse_u16_be : P -> option (Z * P);
  p_parse_u32_be : P -> option (Z * P)
}.

Definition p_remaining {P} `{OctetsParser P} (p : P) : nat := (p_len p - p_pos p)%nat.

(** The parsers that differ from [p] in their position only. *)
Definition moved {P} `{OctetsParser P} (p p' : P) (n : nat) : Prop :=
  p_octets p' = p_octets p /\ p_len p' = p_len p /\ p_pos p' = n.

Class OctetsParserOk (P : Type) `{OctetsParser P} : Prop := {
  p_bounds (p : P) : (p_pos p <= p_len p <= length (p_octets p))%nat;
  p_seek_ok (p : P) n : (n <= p_len p)%nat -> exists p', p_seek p n = Some p' /\ moved p p' n;
  p_seek_short (p : P) n : (p_len p < n)%nat -> p_seek p n = None;
  p_advance_ok (p : P) n : (n <= p_remaining p)%nat ->
    exists p', p_advance p n = Some p' /\ moved p p' (p_pos p + n);
  p_advance_short (p : P) n : (p_remaining p < n)%nat -> p_advance p n = None;
  p_peek_all_spec (p : P) : p_peek_all p = take (p_remaining p) (drop (p_pos p) (p_octets p));
  p_peek_spec (p : P) n : p_peek p n =
    if decide (n <= p_remaining p)%nat then Some (take n (drop (p_pos p) (p_octets p))) else None;
  p_parse_octets_ok (p : P) n : (n <= p_remaining p)%nat ->
    exists p', p_parse_octets p n = Some (take n (drop (p_pos p) (p_octets p)), p') /\
      moved p p' (p_pos p + n);
  p_parse_octets_short (p : P) n : (p_remaining p < n)%nat -> p_parse_octets p n = None;
  p_parse_u8_ok (p : P) b : (0 < p_remaining p)%nat -> p_octets p !! p_pos p = Some b ->
    exists p', p_parse_u8 p = Some (b, p') /\ moved p p' (p_pos p + 1);
  p_parse_u8_short (p : P) : p_remaining p = 0%nat -> p_parse_u8 p = None;
  p_parse_u16_be_spec (p : P) : p_parse_u16_be p =
    match p_parse_octets p 2 with Some (s, p') => Some (from_be_bytes s 0, p') | None => None end;
  p_parse_u32_be_spec (p : P) : p_parse_u32_be p =
    match p_parse_octets p 4 with Some (s, p') => Some (from_be_bytes s 0, p') | None => None end
}.

(** [Parser::from_ref]: a parser at the start of all the octets. *)
Class OctetsParserRef (P : Type) : Type := p_from_ref : list Z -> P.

Class OctetsParserRefOk (P : Type) `{OctetsParser P} `{!OctetsParserRef P} : Prop :=
  p_from_ref_spec s : p_octets (p_from_ref s : P) = s /\ p_len (p_from_ref s : P) = length s /\
    p_pos (p_from_ref s : P) = 0%nat.

(** ** Instances *)

Definition vec_append (b s : list Z) : option (list Z) := Some (b ++ s).

(** [Vec<u8>]. *)
#[export] Instance vec_builder : OctetsBuilder (list Z) := {|
  builder_empty := [];
  as_ref := fun b => b;
  append_slice := vec_append;
  set_octet := fun b i v => <[i:=v]> b;
  builder_truncate := fun b n => take n b;
  freeze := fun b => b
|}.

#[export] Instance vec_builder_ok : OctetsBuilderOk (list Z).
Proof. split; try done. intros b b' s [= <-]; done. Qed.

#[export] Instance vec_builder_infallible : InfallibleBuilder (list Z).
Proof. intros b s. by exists (b ++ s). Qed.

(** A builder atop an array of [cap] octets. *)
Record array_buf (cap : nat) := ArrayBuf { array_octets : list Z }.
Arguments ArrayBuf {cap} array_octets.
Arguments array_octets {cap} _.

#[export] Instance array_builder cap : OctetsBuilder (array_buf cap) := {|
  builder_empty := ArrayBuf [];
  as_ref := array_octets;
  append_slice := fun b s =>
    if decide (length (array_octets b) + length s <= cap)%nat
    then Some (ArrayBuf (array_octets b ++ s)) else None;
  set_octet := fun b i v => ArrayBuf (<[i:=v]> (array_octets b));
  builder_truncate := fun b n => ArrayBuf (take n (array_octets b));
  freeze := array_octets
|}.

#[export] Instance array_builder_ok cap : OctetsBuilderOk (array_buf cap).
Proof. split; try done. intros b b' s; simpl; case_decide; intros; by simplify_eq/=. Qed.

(** A parser over a slice. *)
Record slice_parser := SliceParser { sp_octets : list Z; sp_pos : nat }.

Definition sp_at (p : slice_parser) (n : nat) : slice_parser := SliceParser (sp_octets p) n.

(** The position stays within the octets by construction of the operations;
    [sp_cur] makes that hold for every value of the type. *)
Definition sp_cur (p : slice_parser) : nat := Nat.min (sp_pos p) (length (sp_octets p)).

Definition sp_parse_octets (p : slice_parser) (n : nat) : option (list Z * slice_parser) :=
  if decide (n <= length (sp_octets p) - sp_cur p)%nat
  then Some (take n (drop (sp_cur p) (sp_octets p)), sp_at p (sp_cur p + n)) else None.

Definition sp_parse_be (n : nat) (p : slice_parser) : option (Z * slice_parser) :=
  match sp_parse_octets p n with Some (s, p') => Some (from_be_bytes s 0, p') | None => None end.

#[export] Instance slice_octets_parser : OctetsParser slice_parser := {|
  p_octets := sp_octets;
  p_len := fun p => length (sp_octets p);
  p_pos := sp_cur;
  p_seek := fun p n =>
    if decide (n <= length (sp_octets p))%nat then Some (sp_at p n) else None;
  p_advance := fun p n =>
    if decide (n <= length (sp_octets p) - sp_cur p)%nat then Some (sp_at p (sp_cur p + n)) else None;
  p_peek := fun p n =>
    if decide (n <= length (sp_octets p) - sp_cur p)%nat
    then Some (take n (drop (sp_cur p) (sp_octets p))) else None;
  p_peek_all := fun p => drop (sp_cur p) (sp_octets p);
  p_parse_octets := sp_parse_octets;
  p_parse_u8 := fun p =>
    match sp_octets p !! sp_cur p with
    | Some b => Some (b, sp_at p (sp_cur p + 1))
    | None => None
    end;
  p_parse_u16_be := sp_parse_be 2;
  p_parse_u32_be := sp_parse_be 4
|}.

Lemma sp_at_moved (p : slice_parser) n :
  (n <= length (sp_octets p))%nat -> moved p (sp_at p n) n.
Proof. intros. unfold moved; simpl; unfold sp_cur; simpl. split_and!; [done..|lia]. Qed.

#[export] Instance slice_octets_parser_ok : OctetsParserOk slice_parser.
Proof.
  split; unfold p_remaining; simpl; unfold sp_parse_octets.
  - intros p; unfold sp_cur; lia.
  - intros p n ?. rewrite decide_True by done. eauto using sp_at_moved.
  - intros p n ?. by rewrite decide_False by lia.
  - intros p n ?. rewrite decide_True by done. eexists; split; [done|]. apply sp_at_moved; unfold sp_cur in *; lia.
  - intros p n ?. by rewrite decide_False by lia.
  - intros p. rewrite take_ge; [done|]. rewrite length_drop. lia.
  - done.
  - intros p n ?. rewrite decide_True by done. eexists; split; [done|]. apply sp_at_moved; unfold sp_cur in *; lia.
  - intros p n ?. by rewrite decide_False by lia.
  - intros p b ? ->. eexists; split; [done|]. apply sp_at_moved; unfold sp_cur in *; lia.
  - intros p ?. rewrite lookup_ge_None_2; [done|unfold sp_cur in *; lia].
  - done.
  - done.
Qed.

#[export] Instance slice_parser_ref : OctetsParserRef slice_parser := fun s => SliceParser s 0.

#[export] Instance slice_parser_ref_ok : OctetsParserRefOk slice_parser.
Proof. intros s. by split_and!. Qed.

(** [Parser::parse_parser]: a parser over the next [n] octets, in place, and the
    parser moved behind them. *)
Class OctetsParserSub (P : Type) : Type := p_parse_parser : P -> nat -> option (P * P).

Class OctetsParserSubOk (P : Type) `{OctetsParser P} `{!OctetsParserSub P} : Prop := {
  p_parse_parser_ok (p : P) n : (n <= p_remaining p)%nat ->
    exists sub p', p_parse_parser p n = Some (sub, p') /\ moved p p' (p_pos p + n) /\
      p_octets sub = p_octets p /\ p_len sub = (p_pos p + n)%nat /\ p_pos sub = p_pos p;
  p_parse_parser_short (p : P) n : (p_remaining p < n)%nat -> p_parse_parser p n = None
}.

(** A parser over the first [lp_len] octets of a slice. *)
Record lim_parser := LimParser { lp_octets : list Z; lp_len : nat; lp_pos : nat }.

Definition lp_end (p : lim_parser) : nat := Nat.min (lp_len p) (length (lp_octets p)).
Definition lp_cur (p : lim_parser) : nat := Nat.min (lp_pos p) (lp_end p).
Definition lp_at (p : lim_parser) (n : nat) : lim_parser := LimParser (lp_octets p) (lp_len p) n.

Definition lp_parse_octets (p : lim_parser) (n : nat) : option (list Z * lim_parser) :=
  if decide (n <= lp_end p - lp_cur p)%nat
  then Some (take n (drop (lp_cur p) (lp_octets p)), lp_at p (lp_cur p + n)) else None.

Definition lp_parse_be (n : nat) (p : lim_parser) : option (Z * lim_parser) :=
  match lp_parse_octets p n with Some (s, p') => Some (from_be_bytes s 0, p') | None => None end.

#[export] Instance lim_octets_parser : OctetsParser lim_parser := {|
  p_octets := lp_octets;
  p_len := lp_end;
  p_pos := lp_cur;
  p_seek := fun p n => if decide (n <= lp_end p)%nat then Some (lp_at p n) else None;
  p_advance := fun p n => if decide (n <= lp_end p - lp_cur p)%nat then Some (lp_at p (lp_cur p + n)) else None;
  p_peek := fun p n =>
    if decide (n <= lp_end p - lp_cur p)%nat then Some (take n (drop (lp_cur p) (lp_octets p))) else None;
  p_peek_all := fun p => take (lp_end p - lp_cur p) (drop (lp_cur p) (lp_octets p));
  p_parse_octets := lp_parse_octets;
  p_parse_u8 := lp_parse_be 1;
  p_parse_u16_be := lp_parse_be 2;
  p_parse_u32_be := lp_parse_be 4
|}.

Lemma lp_at_moved (p : lim_parser) n : (n <= lp_end p)%nat -> moved p (lp_at p n) n.
Proof. intros. unfold moved; simpl. split_and!; [done..|]. unfold lp_cur, lp_at, lp_end in *; simpl in *. lia. Qed.

#[export] Instance lim_octets_parser_ok : OctetsParserOk lim_parser.
Proof.
  split; unfold p_remaining; simpl; unfold lp_parse_be, lp_parse_octets.
  - intros p; unfold lp_cur, lp_end; lia.
  - intros p n ?. rewrite decide_True by done. eauto using lp_at_moved.
  - intros p n ?. by rewrite decide_False by lia.
  - intros p n ?. rewrite decide_True by done. eexists; split; [done|]. apply lp_at_moved; unfold lp_cur in *; lia.
  - intros p n ?. by rewrite decide_False by lia.
  - done.
  - done.
  - intros p n ?. rewrite decide_True by done. eexists; split; [done|]. apply lp_at_moved; unfold lp_cur in *; lia.
  - intros p n ?. by rewrite decide_False by lia.
  - intros p b ? E. rewrite decide_True by lia. rewrite (drop_S _ _ _ E). cbn [take from_be_bytes].
    eexists; split; [done|]. apply lp_at_moved; unfold lp_cur in *; lia.
  - intros p ?. by rewrite decide_False by lia.
  - done.
  - done.
Qed.

#[export] Instance lim_parser_ref : OctetsParserRef lim_parser := fun s => LimParser s (length s) 0.

#[export] Instance lim_parser_ref_ok : OctetsParserRefOk lim_parser.
Proof. intros s. split_and!; [done| |done]. cbn. unfold lp_end; cbn. lia. Qed.

#[export] Instance lim_parser_sub : OctetsParserSub lim_parser := fun p n =>
  if decide (n <= lp_end p - lp_cur p)%nat
  then Some (LimParser (lp_octets p) (lp_cur p + n) (lp_cur p), lp_at p (lp_cur p + n)) else None.

#[export] Instance lim_parser_sub_ok : OctetsParserSubOk lim_parser.
Proof.
  split; unfold p_parse_parser, lim_parser_sub, p_remaining; simpl; intros p n Hn.
  - rewrite decide_True by done. eexists _, _; split; [done|]. split; [apply lp_at_moved; unfold lp_cur in *; lia|].
    unfold lp_cur, lp_end in *; simpl in *. split_and!; [done|lia|lia].
  - by rewrite decide_False by lia.
Qed.

(** ** Composing

    Rust composes with [fn compose(&self, target: &mut Target) -> Result<(), _>];
    the target keeps what was appended before an error.  Such a function is a
    [composer]: the new target and whether the result is [Ok]. *)

Section Composing.
Context {B : Type} `{OctetsBuilder B}.

Definition composer : Type := B -> B * bool.

Definition compose_slice (s : list Z) : composer := fun b =>
  match append_slice b s with Some b' => (b', true) | None => (b, false) end.

Definition compose_ok : composer := fun b => (b, true).

(** [f(target)?; g(target)]. *)
Definition compose_seq (f g : composer) : composer := fun b =>
  let '(b', ok) := f b in if ok then g b' else (b', false).

(** [iter.try_for_each(|x| f(x, target))]. *)
Fixpoint compose_each {A} (f : A -> composer) (l : list A) : composer :=
  match l with
  | [] => compose_ok
  | x :: l' => compose_seq (f x) (compose_each f l')
  end.

(** [f] appends [s]; when it fails it has appended a prefix of [s]. *)
Definition Composes (f : composer) (s : list Z) : Prop := forall b b' ok,
  f b = (b', ok) ->
  if ok then as_ref b' = as_ref b ++ s
  else exists p, p `prefix_of` s /\ as_ref b' = as_ref b ++ p.
End Composing.
Arguments composer B : clear implicits.

Section ComposingLemmas.
Context {B : Type} `{OctetsBuilderOk B}.

Lemma compose_slice_spec s : Composes (B:=B) (compose_slice s) s.
Proof.
  intros b b' ok; unfold compose_slice. destruct (append_slice b s) eqn:E; intros; simplify_eq.
  - by apply as_ref_append.
  - exists []. split; [apply prefix_nil|by rewrite app_nil_r].
Qed.

Lemma compose_ok_spec : Composes (B:=B) compose_ok [].
Proof. intros b b' ok [= <- <-]. by rewrite app_nil_r. Qed.

Lemma compose_seq_spec (f g : composer B) s t :
  Composes f s -> Composes g t -> Composes (compose_seq f g) (s ++ t).
Proof.
  intros Hf Hg b b' ok; unfold compose_seq. destruct (f b) as [b1 ok1] eqn:E1.
  apply Hf in E1. destruct ok1.
  - intros E2; apply Hg in E2; destruct ok.
    + by rewrite E2, E1, app_assoc.
    + destruct E2 as (p & Hp & ->). exists (s ++ p). split; [by apply prefix_app|].
      by rewrite E1, app_assoc.
  - intros [= <- <-]. destruct E1 as (p & Hp & ->). exists p.
    split; [by apply prefix_app_r|done].
Qed.

Lemma compose_each_spec {A} (f : A -> composer B) (enc : A -> list Z) l :
  (forall x, x ∈ l -> Composes (f x) (enc x)) ->
  Composes (compose_each f l) (concat (map enc l)).
Proof.
  induction l as [|x l IH]; intros Hf; simpl; [apply compose_ok_spec|].
  apply compose_seq_spec; [apply Hf; left|]. apply IH. intros y Hy; apply Hf; by right.
Qed.
End ComposingLemmas.

Section Infallible.
Context {B : Type} `{InfallibleBuilder B}.

Definition NeverFails (f : composer B) : Prop := forall b, exists b', f b = (b', true).

Lemma compose_slice_total s : NeverFails (compose_slice s).
Proof. intros b; unfold compose_slice. destruct (append_slice_total b s) as [b' ->]. eauto. Qed.

Lemma compose_seq_total f g : NeverFails f -> NeverFails g -> NeverFails (compose_seq f g).
Proof. intros Hf Hg b; unfold compose_seq. destruct (Hf b) as [b1 ->]. apply Hg. Qed.

Lemma compose_each_total {A} (f : A -> composer B) l :
  (forall x, x ∈ l -> NeverFails (f x)) -> NeverFails (compose_each f l).
Proof.
  induction l as [|x l IH]; intros Hf; simpl; [by intros b; exists b|].
  apply compose_seq_total; [apply Hf; left|]. apply IH; intros y Hy; apply Hf; by right.
Qed.
End Infallible.

(** ** [wire.rs]: errors and primitive types *)

(** The characters of an ASCII string literal. *)
Definition ascii_chars (s : string) : list Z := map (fun a => Z.of_N (Ascii.N_of_ascii a)) (String.list_ascii_of_string s).

(** [FormError(&'static str)]. *)
Inductive FormError := form_error (msg : string).

Inductive ParseError := PShortInput | PForm (e : FormError).

#[export] Instance FormError_eq_dec : EqDecision FormError.
Proof. solve_decision. Defined.
#[export] Instance ParseError_eq_dec : EqDecision ParseError.
Proof. solve_decision. Defined.

Definition parse_form_error (msg : string) : ParseError := PForm (form_error msg).

(** [map_err(Into::into)] on a [Result<_, ShortInput>]. *)
Definition short {A} (o : option A) : result A ParseError := ok_or o PShortInput.

Section Wire.
Context {P : Type} `{OctetsParser P} {B : Type} `{OctetsBuilder B}.

Definition u8_parse (p : P) : result (Z * P) ParseError := short (p_parse_u8 p).
Definition u16_parse (p : P) : result (Z * P) ParseError := short (p_parse_u16_be p).
Definition u32_parse (p : P) : result (Z * P) ParseError := short (p_parse_u32_be p).

Definition u8_compose (v : Z) : composer B := compose_slice [v].
Definition u16_compose (v : Z) : composer B := compose_slice (to_be_bytes 2 v).
Definition u32_compose (v : Z) : composer B := compose_slice (to_be_bytes 4 v).

(** [parse_slice]: runs [op] on a parser over the slice and insists that it
    reads everything. *)
Definition parse_slice {T} (mk : list Z -> P) (data : list Z)
    (op : P -> result (T * P) ParseError) : result T ParseError :=
  let? (res, parser) := op (mk data) in
  if (0 <? p_remaining parser)%nat then Err (parse_form_error "trailing data") else Ok res.
End Wire.

(** ** Parser lemmas *)

Section ParserLemmas.
Context {P : Type} `{OctetsParserOk P}.

Lemma moved_self (p : P) : moved p p (p_pos p).
Proof. by split_and!. Qed.

Lemma moved_trans (p q r : P) n m : moved p q n -> moved q r m -> moved p r m.
Proof. intros (H1 & H2 & H3) (H4 & H5 & H6). repeat split; congruence. Qed.

Lemma parse_u8_inv (p p' : P) b :
  p_parse_u8 p = Some (b, p') ->
  p_octets p !! p_pos p = Some b /\ moved p p' (p_pos p + 1) /\ (p_pos p < p_len p)%nat.
Proof.
  intros E. pose proof (p_bounds p).
  destruct (decide (p_remaining p = 0%nat)) as [Hz|Hz].
  { by rewrite p_parse_u8_short in E. }
  unfold p_remaining in *.
  destruct (lookup_lt_is_Some_2 (p_octets p) (p_pos p)) as [c Hc]; [lia|].
  destruct (p_parse_u8_ok p c) as (q & Hq & Hm); [unfold p_remaining; lia|done|].
  rewrite E in Hq; simplify_eq. eauto with lia.
Qed.

Lemma advance_inv (p p' : P) n :
  p_advance p n = Some p' -> moved p p' (p_pos p + n) /\ (p_pos p + n <= p_len p)%nat.
Proof.
  intros E. pose proof (p_bounds p).
  destruct (decide (n <= p_remaining p)%nat) as [Hn|Hn].
  - destruct (p_advance_ok p n Hn) as (q & Hq & Hm). rewrite E in Hq; simplify_eq.
    split; [done|]. unfold p_remaining in *; lia.
  - rewrite p_advance_short in E by lia. done.
Qed.

Lemma seek_inv (p p' : P) n :
  p_seek p n = Some p' -> moved p p' n /\ (n <= p_len p)%nat.
Proof.
  intros E. destruct (decide (n <= p_len p)%nat) as [Hn|Hn].
  - destruct (p_seek_ok p n Hn) as (q & Hq & Hm). rewrite E in Hq; by simplify_eq.
  - rewrite p_seek_short in E by lia. done.
Qed.

(** The octets a parser has left. *)
Definition p_rest (p : P) : list Z := take (p_remaining p) (drop (p_pos p) (p_octets p)).

Lemma p_rest_length (p : P) : length (p_rest p) = p_remaining p.
Proof. pose proof (p_bounds p). unfold p_rest, p_remaining in *. rewrite length_take, length_drop. lia. Qed.

Lemma p_rest_from_ref `{!OctetsParserRef P} `{!OctetsParserRefOk P} s : p_rest (p_from_ref s : P) = s.
Proof using All.
  destruct (p_from_ref_spec (P:=P) s) as (E1 & E2 & E3). unfold p_rest, p_remaining. rewrite E1, E2, E3, drop_0.
  apply take_ge. lia.
Qed.

Lemma p_rest_moved (p p' : P) n : moved p p' (p_pos p + n) -> p_rest p' = drop n (p_rest p).
Proof.
  intros (E1 & E2 & E3). unfold p_rest, p_remaining. rewrite E1, E2, E3, skipn_firstn_comm, drop_drop.
  f_equal. lia.
Qed.

Lemma p_rest_after (p p' : P) x t : p_rest p = x ++ t -> moved p p' (p_pos p + length x) -> p_rest p' = t.
Proof. intros E Hm. by rewrite (p_rest_moved _ _ _ Hm), E, drop_app_length. Qed.

Lemma p_rest_head (p : P) b t : p_rest p = b :: t -> p_octets p !! p_pos p = Some b /\ (0 < p_remaining p)%nat.
Proof.
  intros E. pose proof (p_rest_length p) as Hl. rewrite E in Hl. split; [|simpl in Hl; lia].
  rewrite <- (Nat.add_0_r (p_pos p)), <- lookup_drop, <- (lookup_take_lt _ (p_remaining p)) by (simpl in Hl; lia).
  fold (p_rest p). by rewrite E.
Qed.

Lemma parse_u8_prefix (p : P) b t :
  p_rest p = b :: t -> exists p', p_parse_u8 p = Some (b, p') /\ moved p p' (p_pos p + 1) /\ p_rest p' = t.
Proof.
  intros E. destruct (p_rest_head _ _ _ E) as [Hb Hr]. destruct (p_parse_u8_ok p b Hr Hb) as (p' & Hp & Hm).
  exists p'. split_and!; [done..|]. by apply (p_rest_after p p' [b]).
Qed.

Lemma advance_prefix (p : P) x t :
  p_rest p = x ++ t -> exists p', p_advance p (length x) = Some p' /\ moved p p' (p_pos p + length x) /\ p_rest p' = t.
Proof.
  intros E. destruct (p_advance_ok p (length x)) as (p' & Hp & Hm).
  { rewrite <- p_rest_length, E, length_app. lia. }
  exists p'. split_and!; [done..|]. by apply (p_rest_after p p' x).
Qed.

(** Reading an integer off octets that start with its encoding. *)
Lemma parse_octets_prefix (p : P) s t :
  take (p_remaining p) (drop (p_pos p) (p_octets p)) = s ++ t ->
  exists p', p_parse_octets p (length s) = Some (s, p') /\ moved p p' (p_pos p + length s).
Proof.
  intros Hs. pose proof (p_bounds p).
  assert (Hl : (length s <= p_remaining p)%nat).
  { apply (f_equal length) in Hs. rewrite length_app, length_take in Hs. lia. }
  destruct (p_parse_octets_ok p (length s) Hl) as (q & Hq & Hm).
  exists q; split; [|done]. rewrite Hq. do 2 f_equal.
  apply (f_equal (take (length s))) in Hs.
  rewrite take_app_length, take_take in Hs. rewrite Nat.min_l in Hs by lia. done.
Qed.

Lemma u16_parse_prefix (p : P) v t :
  is_u16 v -> take (p_remaining p) (drop (p_pos p) (p_octets p)) = to_be_bytes 2 v ++ t ->
  exists p', u16_parse p = Ok (v, p') /\ moved p p' (p_pos p + 2).
Proof.
  intros Hv Hs. destruct (parse_octets_prefix p _ _ Hs) as (q & Hq & Hm).
  rewrite length_to_be_bytes in *. exists q; split; [|done].
  unfold u16_parse. rewrite p_parse_u16_be_spec, Hq, from_to_be_bytes; [done|].
  exact Hv.
Qed.

Lemma u32_parse_prefix (p : P) v t :
  is_u32 v -> take (p_remaining p) (drop (p_pos p) (p_octets p)) = to_be_bytes 4 v ++ t ->
  exists p', u32_parse p = Ok (v, p') /\ moved p p' (p_pos p + 4).
Proof.
  intros Hv Hs. destruct (parse_octets_prefix p _ _ Hs) as (q & Hq & Hm).
  rewrite length_to_be_bytes in *. exists q; split; [|done].
  unfold u32_parse. rewrite p_parse_u32_be_spec, Hq, from_to_be_bytes; [done|].
  exact Hv.
Qed.

(** A parser over a prefix of what is left, and the parser behind it. *)
Lemma parse_parser_prefix `{!OctetsParserSub P} `{!OctetsParserSubOk P} (p : P) x t :
  p_rest p = x ++ t ->
  exists sub p', p_parse_parser p (length x) = Some (sub, p') /\ moved p p' (p_pos p + length x) /\
    p_rest sub = x /\ p_rest p' = t /\ p_octets sub = p_octets p /\ p_pos sub = p_pos p /\
    p_len sub = (p_pos p + length x)%nat.
Proof.
  intros E. assert (Hl : (length x <= p_remaining p)%nat) by (rewrite <- p_rest_length, E, length_app; lia).
  destruct (p_parse_parser_ok p (length x) Hl) as (sub & p' & Es & Hm & E1 & E2 & E3). exists sub, p'.
  split_and!; [done|done| |by apply (p_rest_after p p' x)|done|done|done].
  transitivity (take (length x) (p_rest p)); [|by rewrite E, take_app_length].
  unfold p_rest, p_remaining in *. rewrite E1, E2, E3, take_take. f_equal. lia.
Qed.

(** [parse] reads [v] off octets that start with [w], and nothing more. *)
Definition Parses {T} (parse : P -> result (T * P) ParseError) (w : list Z) (v : T) : Prop :=
  forall p t, p_rest p = w ++ t ->
  exists p', parse p = Ok (v, p') /\ moved p p' (p_pos p + length w) /\ p_rest p' = t.

Lemma Parses_ret {T} (v : T) : Parses (fun p => Ok (v, p)) [] v.
Proof. intros p t E. exists p. rewrite Nat.add_0_r. split_and!; [done|apply moved_self|done]. Qed.

Lemma Parses_bind {S T} (f : P -> result (S * P) ParseError) (g : S -> P -> result (T * P) ParseError) w w' x v :
  Parses f w x -> Parses (g x) w' v -> Parses (fun p => let? (a, p) := f p in g a p) (w ++ w') v.
Proof.
  intros Hf Hg p t E. rewrite <- app_assoc in E. destruct (Hf p _ E) as (p1 & -> & Hm1 & R1).
  destruct (Hg p1 _ R1) as (p2 & E2 & Hm2 & R2). exists p2. split_and!; [done| |done].
  rewrite length_app, Nat.add_assoc. destruct Hm1 as (? & ? & <-). by apply (moved_trans p p1 p2 (p_pos p1)).
Qed.

Lemma Parses_map {S T} (f : P -> result (S * P) ParseError) (h : S -> T) w x :
  Parses f w x -> Parses (fun p => let? (a, p) := f p in Ok (h a, p)) w (h x).
Proof. intros Hf p t E. destruct (Hf p t E) as (p' & -> & Hm & R). by exists p'. Qed.

Lemma Parses_octets s : Parses (fun p => short (p_parse_octets p (length s))) s s.
Proof.
  intros p t E. destruct (parse_octets_prefix p s t E) as (p' & -> & Hm). exists p'.
  split_and!; [done..|by apply (p_rest_after p p' s)].
Qed.

Lemma Parses_u8 v : Parses u8_parse [v] v.
Proof. intros p t E. unfold u8_parse. destruct (parse_u8_prefix p v t E) as (p' & -> & Hm & R). by exists p'. Qed.

Lemma Parses_u16 v : is_u16 v -> Parses u16_parse (to_be_bytes 2 v) v.
Proof.
  intros Hv p t E. destruct (u16_parse_prefix p v t Hv E) as (p' & -> & Hm). exists p'. rewrite length_to_be_bytes.
  split_and!; [done..|]. apply (p_rest_after p p' (to_be_bytes 2 v)); [done|]. by rewrite length_to_be_bytes.
Qed.

Lemma Parses_u32 v : is_u32 v -> Parses u32_parse (to_be_bytes 4 v) v.
Proof.
  intros Hv p t E. destruct (u32_parse_prefix p v t Hv E) as (p' & -> & Hm). exists p'. rewrite length_to_be_bytes.
  split_and!; [done..|]. apply (p_rest_after p p' (to_be_bytes 4 v)); [done|]. by rewrite length_to_be_bytes.
Qed.

(** ** Parsing as a function of what is left

    [Reads f g]: what [f] returns and leaves depends on the octets left only, and
    is what [g] makes of them; the parser stays over the same octets. *)

Definition stays (p p' : P) : Prop := p_octets p' = p_octets p /\ p_len p' = p_len p.

Definition Reads {A} (f : P -> result (A * P) ParseError) (g : list Z -> result (A * list Z) ParseError) : Prop :=
  forall p, match f p with
            | Ok (a, p') => g (p_rest p) = Ok (a, p_rest p') /\ stays p p'
            | Err e => g (p_rest p) = Err e
            end.

Definition rd_octets (n : nat) (s : list Z) : result (list Z * list Z) ParseError :=
  if (n <=? length s)%nat then Ok (take n s, drop n s) else Err PShortInput.

Definition rd_u8 (s : list Z) : result (Z * list Z) ParseError :=
  match s with b :: t => Ok (b, t) | [] => Err PShortInput end.
Definition rd_u16 (s : list Z) : result (Z * list Z) ParseError :=
  let? (x, t) := rd_octets 2 s in Ok (from_be_bytes x 0, t).
Definition rd_u32 (s : list Z) : result (Z * list Z) ParseError :=
  let? (x, t) := rd_octets 4 s in Ok (from_be_bytes x 0, t).
Definition rd_all (s : list Z) : result (list Z * list Z) ParseError := Ok (s, []).

Lemma stays_moved (p p' : P) n : moved p p' n -> stays p p'.
Proof. by intros (? & ? & _). Qed.

Lemma Reads_ret {A} (a : A) : Reads (fun p => Ok (a, p)) (fun s => Ok (a, s)).
Proof. intros p. by split. Qed.

Lemma Reads_err {A} e : Reads (A:=A) (fun _ => Err e) (fun _ => Err e).
Proof. intros p. done. Qed.

Lemma Reads_bind {A A'} (f : P -> result (A * P) ParseError) g (f' : A -> P -> result (A' * P) ParseError) g' :
  Reads f g -> (forall a, Reads (f' a) (g' a)) ->
  Reads (fun p => let? (a, p) := f p in f' a p) (fun s => let? (a, s) := g s in g' a s).
Proof.
  intros Hf Hf' p. pose proof (Hf p) as Hp. destruct (f p) as [[a p1]|e]; [|by rewrite Hp].
  destruct Hp as [-> [? ?]]. pose proof (Hf' a p1) as Hp1. destruct (f' a p1) as [[a' p2]|e]; [|done].
  destruct Hp1 as [-> [? ?]]. split; [done|]. split; congruence.
Qed.

Lemma Reads_map {A A'} (f : P -> result (A * P) ParseError) g (h : A -> A') :
  Reads f g -> Reads (fun p => let? (a, p) := f p in Ok (h a, p)) (fun s => let? (a, s) := g s in Ok (h a, s)).
Proof. intros Hf. apply (Reads_bind f g _ _ Hf). intros a. apply Reads_ret. Qed.

(** A branch on the number of octets left. *)
Lemma Reads_remaining {A} (c : nat -> bool) (f f' : P -> result (A * P) ParseError) g g' :
  Reads f g -> Reads f' g' ->
  Reads (fun p => if c (p_remaining p) then f p else f' p) (fun s => if c (length s) then g s else g' s).
Proof. intros Hf Hf' p. cbv beta. rewrite p_rest_length. destruct (c (p_remaining p)); [apply Hf|apply Hf']. Qed.

Lemma Reads_if {A} (b : bool) (f f' : P -> result (A * P) ParseError) g g' :
  Reads f g -> Reads f' g' -> Reads (fun p => if b then f p else f' p) (fun s => if b then g s else g' s).
Proof. by destruct b. Qed.

Lemma Reads_ext {A} (f : P -> result (A * P) ParseError) g g' :
  (forall s, g s = g' s) -> Reads f g -> Reads f g'.
Proof. intros E Hf p. specialize (Hf p). by rewrite E in Hf. Qed.

Lemma Reads_octets n : Reads (fun p => short (p_parse_octets p n)) (rd_octets n).
Proof.
  intros p. unfold rd_octets. rewrite p_rest_length. destruct (Nat.leb_spec n (p_remaining p)) as [Hn|Hn].
  - destruct (p_parse_octets_ok p n Hn) as (p' & -> & Hm). cbn [short ok_or].
    rewrite (p_rest_moved _ _ _ Hm). split; [|by eapply stays_moved]. unfold p_rest. rewrite take_take. do 4 f_equal. lia.
  - by rewrite p_parse_octets_short.
Qed.

Lemma Reads_all : Reads (fun p => short (p_parse_octets p (p_remaining p))) rd_all.
Proof.
  intros p. pose proof (Reads_octets (p_remaining p) p) as Hp. unfold rd_octets, rd_all in *.
  rewrite <- p_rest_length in *. rewrite Nat.leb_refl in Hp. rewrite take_ge, drop_ge in Hp by lia. exact Hp.
Qed.

Lemma Reads_u8 : Reads (fun p => short (p_parse_u8 p)) rd_u8.
Proof.
  intros p. destruct (p_rest p) as [|b t] eqn:E.
  - rewrite p_parse_u8_short; [done|]. by rewrite <- p_rest_length, E.
  - destruct (parse_u8_prefix p b t E) as (p' & -> & Hm & R). cbn. rewrite R. split; [done|]. by eapply stays_moved.
Qed.

Lemma Reads_u16 : Reads (fun p => short (p_parse_u16_be p)) rd_u16.
Proof.
  intros p. pose proof (Reads_map _ _ (fun x => from_be_bytes x 0) (Reads_octets 2) p) as Hp. cbv beta in Hp.
  rewrite p_parse_u16_be_spec. unfold rd_u16. destruct (p_parse_octets p 2) as [[x p']|]; exact Hp.
Qed.

Lemma Reads_u32 : Reads (fun p => short (p_parse_u32_be p)) rd_u32.
Proof.
  intros p. pose proof (Reads_map _ _ (fun x => from_be_bytes x 0) (Reads_octets 4) p) as Hp. cbv beta in Hp.
  rewrite p_parse_u32_be_spec. unfold rd_u32. destruct (p_parse_octets p 4) as [[x p']|]; exact Hp.
Qed.

(** [advance] and [parse_parser] leave the same as reading the octets. *)
Lemma advance_reads (p : P) n :
  match p_advance p n with
  | Some p' => rd_octets n (p_rest p) = Ok (take n (p_rest p), p_rest p') /\ stays p p'
  | None => rd_octets n (p_rest p) = Err PShortInput
  end.
Proof.
  unfold rd_octets. rewrite p_rest_length. destruct (Nat.leb_spec n (p_remaining p)) as [Hn|Hn].
  - destruct (p_advance_ok p n Hn) as (p' & -> & Hm). rewrite (p_rest_moved _ _ _ Hm). split; [done|by eapply stays_moved].
  - by rewrite p_advance_short.
Qed.

Lemma parse_parser_reads `{!OctetsParserSub P} `{!OctetsParserSubOk P} (p : P) n :
  match p_parse_parser p n with
  | Some (sub, p') => rd_octets n (p_rest p) = Ok (p_rest sub, p_rest p') /\ stays p p' /\ p_octets sub = p_octets p
  | None => rd_octets n (p_rest p) = Err PShortInput
  end.
Proof.
  unfold rd_octets. rewrite p_rest_length. destruct (Nat.leb_spec n (p_remaining p)) as [Hn|Hn].
  - assert (Hl : length (take n (p_rest p)) = n) by (rewrite length_take, p_rest_length; lia).
    destruct (parse_parser_prefix p (take n (p_rest p)) (drop n (p_rest p))) as (sub & p' & E & Hm & R & R' & Eo & _);
      [by rewrite take_drop|]. rewrite Hl in E. rewrite E, R, R'. split_and!; [done|by eapply stays_moved|done].
  - by rewrite p_parse_parser_short.
Qed.

(** A read that takes [w] as [v] whatever follows parses [w] as [v]. *)
Lemma Reads_Parses {A} (f : P -> result (A * P) ParseError) g w v :
  Reads f g -> (forall t, g (w ++ t) = Ok (v, t)) -> Parses f w v.
Proof.
  intros Hf Hg p t E. specialize (Hf p). rewrite E, Hg in Hf. destruct (f p) as [[a p']|e]; [|done].
  destruct Hf as [Hv [H1 H2]]. injection Hv as -> ->. exists p'. split_and!; [done| |done]. split_and!; [done..|].
  pose proof (p_bounds p). pose proof (p_bounds p') as Hb. pose proof (p_rest_length p) as L. pose proof (p_rest_length p') as L'.
  rewrite E, length_app in L. unfold p_remaining in *. lia.
Qed.

Lemma rd_octets_app s t : rd_octets (length s) (s ++ t) = Ok (s, t).
Proof.
  unfold rd_octets. rewrite length_app, take_app_length, drop_app_length.
  by destruct (Nat.leb_spec (length s) (length s + length t)); [|lia].
Qed.

Lemma rd_u16_app v t : is_u16 v -> rd_u16 (to_be_bytes 2 v ++ t) = Ok (v, t).
Proof.
  intros Hv. unfold rd_u16. change 2%nat with (length (to_be_bytes 2 v)) at 1. rewrite rd_octets_app.
  by rewrite from_to_be_bytes.
Qed.

Lemma rd_u32_app v t : is_u32 v -> rd_u32 (to_be_bytes 4 v ++ t) = Ok (v, t).
Proof.
  intros Hv. unfold rd_u32. change 4%nat with (length (to_be_bytes 4 v)) at 1. rewrite rd_octets_app.
  by rewrite from_to_be_bytes.
Qed.

(** What was read off well-formed octets. *)
Lemma rd_octets_inv n s x t : rd_octets n s = Ok (x, t) -> s = x ++ t /\ length x = n.
Proof.
  unfold rd_octets. destruct (Nat.leb_spec n (length s)); [|done]. intros [= <- <-]. rewrite take_drop, length_take. split; [done|lia].
Qed.

Lemma rd_u16_inv s v t : wf_octets s -> rd_u16 s = Ok (v, t) -> s = to_be_bytes 2 v ++ t /\ is_u16 v.
Proof.
  intros Hs. unfold rd_u16. destruct (rd_octets 2 s) as [[x t']|] eqn:E; [|done]. intros [= <- <-].
  apply rd_octets_inv in E as [-> Hl]. apply wf_octets_app in Hs as [Hx _].
  split; [rewrite <- Hl at 1; by rewrite to_from_be_bytes|].
  destruct x as [|a [|b [|]]]; try done. apply Forall_uncons in Hx as [Ha Hb%Forall_inv]. cbn. unfold is_u8, is_u16 in *. lia.
Qed.
End ParserLemmas.
#[export] Hint Resolve Parses_ret Parses_octets Parses_u8 Parses_u16 Parses_u32 : octets.
