(* ===== verification/Serial.v ===== *)
(** * Serial numbers ([src/src/base/serial.rs])

    A [Serial] is a [u32] with the arithmetic and the partial order of
    RFC 1982.  The specification [rfc1982_lt] is the order of the RFC written as
    a distance modulo 2^32. *)

From S2P Require Import Prelude Octets.

Record Serial := mkSerial { serial_int : Z }.

#[export] Instance Serial_eq_dec : EqDecision Serial.
Proof. solve_decision. Defined.

Definition wf_serial (s : Serial) : Prop := is_u32 (serial_int s).

Definition serial_from_be_bytes (bytes : list Z) : Serial := mkSerial (from_be_bytes bytes 0).

Definition serial_into_int (s : Serial) : Z := serial_int s.

(** [assert!(other <= 0x7FFF_FFFF)], then a wrapping addition. *)
Definition serial_add (s : Serial) (other : Z) : outcome Serial :=
  if other <=? 0x7FFFFFFF then Ret (mkSerial (as_u32 (serial_int s + other))) else Panic.

Definition serial_partial_cmp (s o : Serial) : option comparison :=
  match serial_int s ?= serial_int o with
  | Eq => Some Eq
  | Lt =>
      let sub := serial_int o - serial_int s in
      match sub ?= 0x80000000 with
      | Lt => Some Lt
      | Gt => Some Gt
      | Eq => None
      end
  | Gt =>
      let sub := serial_int s - serial_int o in
      match sub ?= 0x80000000 with
      | Lt => Some Gt
      | Gt => Some Lt
      | Eq => None
      end
  end.

Definition serial_canonical_cmp (s o : Serial) : comparison := serial_int s ?= serial_int o.

Section SerialWire.
Context {P : Type} `{OctetsParser P} {B : Type} `{OctetsBuilder B}.

Definition serial_parse (p : P) : result (Serial * P) ParseError :=
  let? (v, p') := u32_parse p in Ok (mkSerial v, p').

Definition serial_compose (s : Serial) : composer B := u32_compose (serial_int s).
End SerialWire.

(** ** Specification *)

(** How far [o] is ahead of [s] on the circle of serial numbers. *)
Definition serial_distance (s o : Serial) : Z := (serial_int o - serial_int s) mod 2 ^ 32.

Definition rfc1982_lt (s o : Serial) : Prop := 0 < serial_distance s o < 2 ^ 31.

Lemma serial_distance_cases s o :
  wf_serial s -> wf_serial o ->
  serial_distance s o =
    if serial_int s <=? serial_int o then serial_int o - serial_int s
    else serial_int o - serial_int s + 2 ^ 32.
Proof.
  unfold wf_serial, is_u32, serial_distance; intros Hs Ho. case_scrut; breflect.
  - apply Z.mod_small; lia.
  - rewrite <- (Z.mod_add _ 1) by lia. apply Z.mod_small; lia.
Qed.

(** The four outcomes of the comparison, by distance. *)
Lemma serial_partial_cmp_distance s o :
  wf_serial s -> wf_serial o ->
  serial_partial_cmp s o =
    if serial_distance s o =? 0 then Some Eq
    else match serial_distance s o ?= 2 ^ 31 with
         | Lt => Some Lt
         | Gt => Some Gt
         | Eq => None
         end.
Proof.
  intros Hs Ho. rewrite serial_distance_cases by done. unfold wf_serial, is_u32 in *.
  unfold serial_partial_cmp.
  destruct (Z.compare_spec (serial_int s) (serial_int o));
    destruct (Z.leb_spec (serial_int s) (serial_int o)); try lia;
    match goal with |- context [?d =? 0] => destruct (Z.eqb_spec d 0) end; try lia; try done;
    repeat match goal with |- context [?a ?= ?b] => destruct (Z.compare_spec a b) end;
    try done; lia.
Qed.

(** [partial_cmp] decides the order of RFC 1982: [Less] and [Greater] are the
    order and its converse, [Equal] is equality, and a pair is unordered
    exactly when it is 2^31 apart.  (C38) *)
Theorem serial_partial_cmp_rfc1982 s o :
  wf_serial s -> wf_serial o ->
  (serial_partial_cmp s o = Some Lt <-> rfc1982_lt s o) /\
  (serial_partial_cmp s o = Some Gt <-> rfc1982_lt o s) /\
  (serial_partial_cmp s o = Some Eq <-> s = o) /\
  (serial_partial_cmp s o = None <-> serial_distance s o = 2 ^ 31).
Proof.
  intros Hs Ho. rewrite serial_partial_cmp_distance by done. unfold rfc1982_lt.
  rewrite !serial_distance_cases by done. destruct s as [s], o as [o].
  unfold wf_serial, is_u32 in *; simpl in *.
  destruct (Z.leb_spec s o), (Z.leb_spec o s);
    match goal with |- context [?d =? 0] => destruct (Z.eqb_spec d 0) end; try lia;
    repeat match goal with |- context [?a ?= ?b] => destruct (Z.compare_spec a b) end;
    try lia; split_and!; split; intros; simplify_eq; try lia; try done; f_equal; lia.
Qed.

Lemma serial_partial_cmp_rfc1982_witness :
  serial_partial_cmp (mkSerial 3000000012) (mkSerial 12) = Some Lt /\
  rfc1982_lt (mkSerial 3000000012) (mkSerial 12).
Proof.
  assert (H1 : wf_serial (mkSerial 3000000012)) by (unfold wf_serial, is_u32; simpl; lia).
  assert (H2 : wf_serial (mkSerial 12)) by (unfold wf_serial, is_u32; simpl; lia).
  destruct (serial_partial_cmp_rfc1982 _ _ H1 H2) as (HL & _).
  split; [reflexivity|]. apply HL. reflexivity.
Defined.

(** [add] panics exactly for amounts above 2^31 - 1; otherwise it returns a
    serial number that is [other] ahead and, unless [other] is 0, greater than
    the original even across the wrap-around. *)
Theorem serial_add_advances s other :
  wf_serial s -> is_u32 other ->
  (serial_add s other = Panic <-> 2 ^ 31 <= other) /\
  (other < 2 ^ 31 -> exists s', serial_add s other = Ret s' /\ wf_serial s' /\
     serial_distance s s' = other /\
     serial_partial_cmp s s' = if other =? 0 then Some Eq else Some Lt).
Proof.
  intros Hs Ho. unfold wf_serial, is_u32 in *. unfold serial_add. split.
  - case_scrut; breflect; split; intros; try done; lia.
  - intros Hlt. destruct (Z.leb_spec other 0x7FFFFFFF); [|lia].
    eexists; split; [done|].
    assert (Hw : is_u32 (as_u32 (serial_int s + other))) by (apply Z.mod_pos_bound; lia).
    assert (Hd : serial_distance s (mkSerial (as_u32 (serial_int s + other))) = other).
    { unfold serial_distance, as_u32; simpl serial_int.
      rewrite Zminus_mod_idemp_l. replace (serial_int s + other - serial_int s) with other by lia.
      apply Z.mod_small; lia. }
    split; [exact Hw|]. split; [exact Hd|].
    rewrite serial_partial_cmp_distance, Hd by done.
    destruct (Z.eqb_spec other 0); [done|]. destruct (Z.compare_spec other (2 ^ 31)); done || lia.
Qed.

Lemma serial_add_advances_witness :
  exists s', serial_add (mkSerial 0xFFFFFFFF) 5 = Ret s' /\ wf_serial s' /\
    serial_distance (mkSerial 0xFFFFFFFF) s' = 5 /\
    serial_partial_cmp (mkSerial 0xFFFFFFFF) s' = Some Lt.
Proof.
  assert (H1 : wf_serial (mkSerial 0xFFFFFFFF)) by (unfold wf_serial, is_u32; simpl; lia).
  assert (H2 : is_u32 5) by (unfold is_u32; lia).
  exact (proj2 (serial_add_advances _ _ H1 H2) eq_refl).
Defined.

(** Comparing the other way round gives the opposite answer. *)
Lemma serial_partial_cmp_antisym s o :
  serial_partial_cmp o s = option_map CompOpp (serial_partial_cmp s o).
Proof.
  unfold serial_partial_cmp. rewrite (Z.compare_antisym (serial_int s) (serial_int o)).
  destruct (serial_int s ?= serial_int o); simpl; try done;
    match goal with |- context [?a ?= ?b] => destruct (a ?= b) end; done.
Qed.

Lemma serial_parse_prefix {P} `{OctetsParserOk P} (p : P) s t :
  wf_serial s ->
  take (p_remaining p) (drop (p_pos p) (p_octets p)) = to_be_bytes 4 (serial_int s) ++ t ->
  exists p', serial_parse p = Ok (s, p') /\ moved p p' (p_pos p + 4).
Proof.
  intros Hs Hp. destruct (u32_parse_prefix p _ _ Hs Hp) as (p' & Hq & Hm).
  exists p'; split; [|done]. unfold serial_parse. rewrite Hq. by destruct s.
Qed.
