(* ===== verification/Symbol.v ===== *)
(** * Symbols of the presentation format ([src/src/base/scan.rs])

    A [Symbol] is a character of a zone file or an escape sequence.  The file
    models reading symbols from characters and from octets, their conversions,
    their display form and the [Symbols] iterator.  Characters are Unicode code
    points. *)

From S2P Require Import Prelude.
From stdpp Require Import strings.
#[local] Open Scope Z_scope.

Inductive SymbolCharsError := BadEscape | ShortInput.
Inductive SymbolOctetsError := OBadUtf8 | OBadEscape | OShortInput.
Inductive BadSymbol := NonAscii | NonUtf8 | NonDigit | Escape.

#[export] Instance SymbolCharsError_eq_dec : EqDecision SymbolCharsError.
Proof. solve_decision. Defined.
#[export] Instance SymbolOctetsError_eq_dec : EqDecision SymbolOctetsError.
Proof. solve_decision. Defined.
#[export] Instance BadSymbol_eq_dec : EqDecision BadSymbol.
Proof. solve_decision. Defined.

Inductive Symbol :=
  | Char (ch : Z)
  | SimpleEscape (b : Z)
  | DecimalEscape (b : Z).

#[export] Instance Symbol_eq_dec : EqDecision Symbol.
Proof. solve_decision. Defined.

(** [char::to_digit] for a radix up to 36. *)
Definition char_to_digit (radix ch : Z) : option Z :=
  let d := if is_ascii_digit ch then ch - 48
           else if (97 <=? ch) && (ch <=? 122) then ch - 97 + 10
           else if (65 <=? ch) && (ch <=? 90) then ch - 65 + 10
           else radix in
  if d <? radix then Some d else None.

(** [char::try_from(u32)]: code points without surrogates. *)
Definition char_try_from (v : Z) : option Z :=
  if (v <? 0xD800) || ((0xDFFF <? v) && (v <=? 0x10FFFF)) then Some v else None.

(** One digit of a decimal escape. *)
Definition next_digit (chars : list Z) : result (Z * list Z) SymbolCharsError :=
  match chars with
  | ch :: rest =>
      match char_to_digit 10 ch with
      | Some d => Ok (d, rest)
      | None => Err BadEscape
      end
  | [] => Err ShortInput
  end.

(** [Symbol::from_chars]: the next symbol and the characters left. *)
Definition symbol_from_chars (chars : list Z)
    : result (option (Symbol * list Z)) SymbolCharsError :=
  match chars with
  | [] => Ok None
  | ch :: rest =>
      if negb (ch =? 92) then Ok (Some (Char ch, rest))
      else match rest with
      | ch1 :: rest1 =>
          if is_ascii_digit ch1 then
            let d1 := (ch1 - 48) * 100 in
            let? (d2, rest2) := next_digit rest1 in
            let? (d3, rest3) := next_digit rest2 in
            let res := d1 + d2 * 10 + d3 in
            if 255 <? res then Err BadEscape
            else Ok (Some (DecimalEscape (as_u8 res), rest3))
          else if 255 <? ch1 then Err BadEscape
          else if (ch1 <? 0x20) || (0x7e <? ch1) then Err BadEscape
          else Ok (Some (SimpleEscape ch1, rest1))
      | [] => Err ShortInput
      end
  end.

Definition is_ascii_control (b : Z) : bool := (b <? 0x20) || (b =? 0x7f).

(** A continuation octet of a UTF-8 sequence. *)
Definition next_utf8 (octets : list Z) (pos : nat) : result (Z * nat) SymbolOctetsError :=
  match octets !! pos with
  | Some c => if negb (Z.land c 0xC0 =? 0x80) then Err OBadUtf8 else Ok (c, (pos + 1)%nat)
  | None => Err OShortInput
  end.

(** A digit octet of a decimal escape. *)
Definition next_digit_octet (octets : list Z) (pos : nat) : result (Z * nat) SymbolOctetsError :=
  match octets !! pos with
  | Some c => if is_ascii_digit c then Ok (c, (pos + 1)%nat) else Err OBadEscape
  | None => Err OShortInput
  end.

Definition utf8_char (v : Z) (pos : nat) : result (option (Symbol * nat)) SymbolOctetsError :=
  match char_try_from v with
  | Some ch => Ok (Some (Char ch, pos))
  | None => Err OBadUtf8
  end.

(** [Symbol::from_slice_index]. *)
Definition symbol_from_slice_index (octets : list Z) (pos : nat)
    : result (option (Symbol * nat)) SymbolOctetsError :=
  match octets !! pos with
  | None => Ok None
  | Some c1 =>
      let pos := (pos + 1)%nat in
      if c1 =? 92 then
        match octets !! pos with
        | None => Err OShortInput
        | Some c2 =>
            let pos := (pos + 1)%nat in
            if is_ascii_control c2 then Err OBadEscape
            else if negb (is_ascii_digit c2) then Ok (Some (SimpleEscape c2, pos))
            else
              let? (c3, pos) := next_digit_octet octets pos in
              let? (c4, pos) := next_digit_octet octets pos in
              let v := (c2 - 48) * 100 + (c3 - 48) * 10 + (c4 - 48) in
              if 255 <? v then Err OBadEscape else Ok (Some (DecimalEscape v, pos))
        end
      else if c1 <? 128 then Ok (Some (Char c1, pos))
      else if Z.land c1 0x40 =? 0 then Err OBadUtf8
      else
        let? (c2, pos) := next_utf8 octets pos in
        if Z.land c1 0x20 =? 0 then
          utf8_char (Z.lor (Z.land c2 0x3F) (Z.shiftl (Z.land c1 0x1F) 6)) pos
        else
          let? (c3, pos) := next_utf8 octets pos in
          if Z.land c1 0x10 =? 0 then
            utf8_char (Z.lor (Z.lor (Z.land c3 0x3F) (Z.shiftl (Z.land c2 0x3F) 6))
                             (Z.shiftl (Z.land c1 0x1F) 12)) pos
          else
            let? (c4, pos) := next_utf8 octets pos in
            utf8_char (Z.lor (Z.lor (Z.lor (Z.land c4 0x3F) (Z.shiftl (Z.land c3 0x3F) 6))
                                    (Z.shiftl (Z.land c2 0x3F) 12))
                             (Z.shiftl (Z.land c1 0x0F) 18)) pos
  end.

(** [(0x20..0x7F).contains(&ch)]. *)
Definition is_printable (ch : Z) : bool := (0x20 <=? ch) && (ch <? 0x7F).

Definition symbol_from_octet (ch : Z) : Symbol :=
  if (ch =? 32) || (ch =? 34) || (ch =? 92) || (ch =? 59) then SimpleEscape ch
  else if negb (is_printable ch) then DecimalEscape ch
  else Char ch.

Definition symbol_quoted_from_octet (ch : Z) : Symbol :=
  if (ch =? 34) || (ch =? 92) then SimpleEscape ch
  else if negb (is_printable ch) then DecimalEscape ch
  else Char ch.

Definition symbol_display_from_octet (ch : Z) : Symbol :=
  if ch =? 92 then SimpleEscape ch
  else if negb (is_printable ch) then DecimalEscape ch
  else Char ch.

Definition symbol_into_octet (s : Symbol) : result Z BadSymbol :=
  match s with
  | Char ch => if (0x20 <=? ch) && (ch <=? 0x7E) then Ok ch else Err NonAscii
  | SimpleEscape ch | DecimalEscape ch => Ok ch
  end.

Definition symbol_into_ascii (s : Symbol) : result Z BadSymbol :=
  match s with
  | Char ch => if (0x20 <=? ch) && (ch <=? 0x7E) then Ok ch else Err NonAscii
  | SimpleEscape ch | DecimalEscape ch =>
      if (0x20 <=? ch) && (ch <=? 0x7E) then Ok ch else Err NonAscii
  end.

Definition symbol_into_char (s : Symbol) : result Z BadSymbol :=
  match s with
  | Char ch => Ok ch
  | SimpleEscape ch => if (0x20 <=? ch) && (ch <? 0x7F) then Ok ch else Err NonUtf8
  | DecimalEscape _ => Err NonUtf8
  end.

Definition symbol_into_digit (s : Symbol) (base : Z) : result Z BadSymbol :=
  match s with
  | Char ch => match char_to_digit base ch with Some d => Ok d | None => Err NonDigit end
  | _ => Err Escape
  end.

Definition symbol_is_word_char (s : Symbol) : bool :=
  match s with
  | Char ch =>
      negb (ch =? 32) && negb (ch =? 9) && negb (ch =? 13) && negb (ch =? 10) &&
      negb (ch =? 40) && negb (ch =? 41) && negb (ch =? 59) && negb (ch =? 34)
  | _ => true
  end.

(** [format!("{:03}", b)] for an octet. *)
Definition fmt_03 (b : Z) : list Z := [48 + b / 100; 48 + b / 10 mod 10; 48 + b mod 10].

(** [Display for Symbol]. *)
Definition symbol_fmt (s : Symbol) : list Z :=
  match s with
  | Char ch => [ch]
  | SimpleEscape ch => [92; ch]
  | DecimalEscape ch => 92 :: fmt_03 ch
  end.

(** ** The [Symbols] iterator

    The state of the iterator is the characters left, or the error that stopped
    it. *)

Definition symbols_state : Type := result (list Z) SymbolCharsError.

Definition symbols_next (st : symbols_state) : option Symbol * symbols_state :=
  match st with
  | Err e => (None, Err e)
  | Ok chars =>
      match symbol_from_chars chars with
      | Ok None => (None, Ok [])
      | Ok (Some (sym, rest)) => (Some sym, Ok rest)
      | Err e => (None, Err e)
      end
  end.

Definition symbols_ok (st : symbols_state) : result unit SymbolCharsError :=
  match st with Ok _ => Ok () | Err e => Err e end.

(** The symbols the iterator yields until it returns [None], and its state
    then.  Every symbol takes a character, so [fuel] of the number of
    characters plus one is enough ([symbols_drain_enough]). *)
Fixpoint symbols_drain (fuel : nat) (st : symbols_state) : list Symbol * symbols_state :=
  match fuel with
  | O => ([], st)
  | S fuel' =>
      match symbols_next st with
      | (None, st') => ([], st')
      | (Some sym, st') => let '(l, st'') := symbols_drain fuel' st' in (sym :: l, st'')
      end
  end.

Definition symbols_all (chars : list Z) : list Symbol * symbols_state :=
  symbols_drain (S (length chars)) (Ok chars).

(** [Symbols::with] for an [op] that reads the iterator to its end whenever it
    succeeds. *)
Definition symbols_with {T E} (chars : list Z) (from : SymbolCharsError -> E)
    (op : list Symbol -> result T E) : result T E :=
  let '(syms, st) := symbols_all chars in
  let? res := op syms in
  let? _ := map_err from (symbols_ok st) in
  Ok res.

(** ** Scanning interfaces *)

(** [StrError], the error type of the scanner over tokens; it holds a message. *)
Inductive StrError := StrErr (msg : string).

#[export] Instance StrError_eq_dec : EqDecision StrError.
Proof. solve_decision. Defined.

Definition str_custom (msg : string) : StrError := StrErr msg.
Definition str_end_of_entry : StrError := str_custom "unexpected end of entry".
Definition str_short_buf : StrError := str_custom "short buffer".
Definition str_trailing_tokens : StrError := str_custom "trailing data".

Inductive EntrySymbol := ESymbol (s : Symbol) | EndOfToken.

(** A converter changes its state and may return data, or fails. *)
Class ConvertSymbols (C : Type) : Type := {
  process_symbol : C -> EntrySymbol -> outcome (C * result (option (list Z)) StrError);
  process_tail : C -> outcome (C * result (option (list Z)) StrError)
}.

(** ** Lemmas *)

Lemma next_digit_shorter chars d rest :
  next_digit chars = Ok (d, rest) -> (length rest < length chars)%nat.
Proof. unfold next_digit; intros; inv_result; lia. Qed.

Lemma symbol_from_chars_shorter chars sym rest :
  symbol_from_chars chars = Ok (Some (sym, rest)) -> (length rest < length chars)%nat.
Proof.
  unfold symbol_from_chars; intros; inv_result;
    repeat match goal with H : next_digit _ = Ok _ |- _ => apply next_digit_shorter in H end;
    simpl in *; lia.
Qed.

(** More fuel than characters does not change what the iterator yields. *)
Lemma symbols_drain_enough fuel chars :
  (length chars < fuel)%nat -> symbols_drain fuel (Ok chars) = symbols_all chars.
Proof.
  unfold symbols_all. generalize (S (length chars)) as fuel2, (Nat.lt_succ_diag_r (length chars)).
  revert fuel chars.
  induction fuel as [|fuel IH]; intros chars fuel2 H2 H1; [lia|].
  destruct fuel2 as [|fuel2]; [lia|]. cbn [symbols_drain symbols_next].
  destruct (symbol_from_chars chars) as [[[sym rest]|]|e] eqn:E; try done.
  apply symbol_from_chars_shorter in E. rewrite (IH rest fuel2) by lia. done.
Qed.

Lemma symbols_all_cons chars sym rest :
  symbol_from_chars chars = Ok (Some (sym, rest)) ->
  symbols_all chars = (sym :: (symbols_all rest).1, (symbols_all rest).2).
Proof.
  intros E. pose proof (symbol_from_chars_shorter _ _ _ E).
  unfold symbols_all at 1. cbn [symbols_drain symbols_next]. rewrite E.
  rewrite symbols_drain_enough by lia. by destruct (symbols_all rest).
Qed.

Lemma symbols_all_nil : symbols_all [] = ([], Ok []).
Proof. reflexivity. Qed.

(** Checks a decidable property of an octet by evaluating it on all of them. *)
Lemma forall_octets (P : Z -> Prop) `{!forall b, Decision (P b)} :
  forallb (fun n => bool_decide (P (Z.of_nat n))) (seq 0 256) = true ->
  forall b, is_u8 b -> P b.
Proof.
  intros Hall b Hb. rewrite forallb_forall in Hall.
  specialize (Hall (Z.to_nat b)). rewrite Z2Nat.id in Hall by ulia.
  apply bool_decide_eq_true in Hall; [done|].
  apply in_seq. ulia.
Qed.

Ltac by_octets :=
  match goal with
  | |- forall b, is_u8 b -> @?P b =>
      unshelve notypeclasses refine (@forall_octets P _ _);
        [intros ?; cbv beta; apply _ | vm_compute; reflexivity]
  end.

(** The three digits of an octet. *)
Lemma fmt_03_values b :
  is_u8 b ->
  is_ascii_digit (48 + b / 100) = true /\
  char_to_digit 10 (48 + b / 10 mod 10) = Some (b / 10 mod 10) /\
  char_to_digit 10 (48 + b mod 10) = Some (b mod 10) /\
  (48 + b / 100 - 48) * 100 + b / 10 mod 10 * 10 + b mod 10 = b.
Proof. revert b. by_octets. Qed.

Lemma fmt_03_digits b rest :
  is_u8 b ->
  symbol_from_chars (92 :: fmt_03 b ++ rest) = Ok (Some (DecimalEscape b, rest)).
Proof.
  intros Hb. destruct (fmt_03_values b Hb) as (H1 & H2 & H3 & H4).
  unfold fmt_03, symbol_from_chars. cbn [app negb Z.eqb Pos.eqb]. rewrite H1.
  unfold next_digit. rewrite H2, H3. cbv zeta. rewrite H4.
  destruct (Z.ltb_spec 255 b); [ulia|].
  by rewrite as_u8_id.
Qed.

(** A symbol that can be written: a character other than a backslash, a simple
    escape of a printable non-digit, a decimal escape of an octet. *)
Definition wf_symbol (s : Symbol) : Prop :=
  match s with
  | Char ch => ch <> 92
  | SimpleEscape b => 0x20 <= b <= 0x7e /\ is_ascii_digit b = false
  | DecimalEscape b => is_u8 b
  end.

#[export] Instance wf_symbol_dec s : Decision (wf_symbol s).
Proof. destruct s; simpl; apply _. Defined.

Lemma symbol_from_chars_fmt s rest :
  wf_symbol s -> symbol_from_chars (symbol_fmt s ++ rest) = Ok (Some (s, rest)).
Proof.
  destruct s as [ch|b|b]; simpl wf_symbol.
  - intros H. simpl. by destruct (Z.eqb_spec ch 92).
  - intros [H Hd]. simpl. rewrite Hd.
    destruct (Z.ltb_spec 255 b), (Z.ltb_spec b 0x20), (Z.ltb_spec 0x7e b); try lia. done.
  - apply fmt_03_digits.
Qed.

Lemma symbols_all_fmt syms :
  Forall wf_symbol syms ->
  symbols_all (concat (map symbol_fmt syms)) = (syms, Ok []).
Proof.
  induction 1 as [|s syms Hs _ IH]; simpl; [apply symbols_all_nil|].
  rewrite (symbols_all_cons _ s (concat (map symbol_fmt syms))) by
    (by apply symbol_from_chars_fmt).
  by rewrite IH.
Qed.

(** Displaying a sequence of symbols and reading the text back gives the same
    symbols and no error. *)
Theorem symbols_roundtrip syms :
  Forall wf_symbol syms ->
  symbols_all (concat (map symbol_fmt syms)) = (syms, Ok []).
Proof. apply symbols_all_fmt. Qed.

Lemma symbols_roundtrip_witness :
  symbols_all (concat (map symbol_fmt [Char 97; SimpleEscape 34; DecimalEscape 7])) =
  ([Char 97; SimpleEscape 34; DecimalEscape 7], Ok []).
Proof.
  apply symbols_roundtrip. repeat constructor; simpl; try done; unfold is_u8; lia.
Defined.

(** The three ways to choose a symbol for an octet all choose a writable symbol
    that stands for that octet. *)
Theorem symbol_for_octet b :
  is_u8 b ->
  (wf_symbol (symbol_from_octet b) /\ symbol_into_octet (symbol_from_octet b) = Ok b /\
     symbol_is_word_char (symbol_from_octet b) = negb ((b =? 40) || (b =? 41))) /\
  (wf_symbol (symbol_quoted_from_octet b) /\
     symbol_into_octet (symbol_quoted_from_octet b) = Ok b) /\
  (wf_symbol (symbol_display_from_octet b) /\
     symbol_into_octet (symbol_display_from_octet b) = Ok b).
Proof.
  revert b. by_octets.
Qed.

Lemma symbol_for_octet_witness : symbol_into_octet (symbol_from_octet 34) = Ok 34.
Proof.
  assert (H : is_u8 34) by (unfold is_u8; lia).
  exact (proj1 (proj2 (proj1 (symbol_for_octet 34 H)))).
Defined.
