(* ===== verification/BaseCodec.v ===== *)
(** * Base 16, base 32 and base 64 ([src/src/utils/base16.rs], [base32.rs],
      [base64.rs])

    Each module has an encoder, a decoder that is fed characters and appends
    octets to a builder, and a symbol converter that does the same for scanners.
    The file proves that decoding gives back what was encoded, what base 16
    decoding accepts and which error it reports, that converters and decoders
    agree, and what happens to a base 64 decoder used on after an error.
    Characters are Unicode code points. *)

From S2P Require Import Prelude Octets Symbol.
From stdpp Require Import strings.
#[local] Open Scope Z_scope.

(** ** What the three modules share *)

Inductive DecodeError := IllegalChar (ch : Z) | TrailingInput | DecodeShortInput | DecodeShortBuf.

#[export] Instance DecodeError_eq_dec : EqDecision DecodeError.
Proof. solve_decision. Defined.

(** [table[i as usize]]: an index out of range panics. *)
Definition tbl_get {A} (t : list A) (i : Z) : outcome A :=
  match t !! Z.to_nat i with Some a => Ret a | None => Panic end.

(** Writing the table entries of some indexes. *)
Fixpoint tbl_write (t : list Z) (idx : list Z) : outcome (list Z) :=
  match idx with
  | [] => Ret []
  | i :: idx' => let! c := tbl_get t i in let! cs := tbl_write t idx' in Ret (c :: cs)
  end.

(** [x << n] on a [u8]. *)
Definition shl8 (x n : Z) : Z := as_u8 (Z.shiftl x n).

(** The [decode] function of each module: push every character, stop at the first
    error, finalize. *)
Section Decode.
Context {D : Type} (push : Z -> D -> outcome (D * result unit DecodeError)).
Context (finalize : D -> outcome (result (list Z) DecodeError)).

Fixpoint decode_loop (chars : list Z) (d : D) : outcome (result (list Z) DecodeError) :=
  match chars with
  | [] => finalize d
  | ch :: chars' =>
      let! (d', r) := push ch d in
      match r with Ok _ => decode_loop chars' d' | Err e => Ret (Err e) end
  end.
End Decode.

(** The tables. *)
Definition HEX_ENCODE_ALPHABET : list (list Z) :=
  [[48; 48]; [48; 49]; [48; 50]; [48; 51]; [48; 52]; [48; 53]; [48; 54]; [48; 55];
   [48; 56]; [48; 57]; [48; 65]; [48; 66]; [48; 67]; [48; 68]; [48; 69]; [48; 70];
   [49; 48]; [49; 49]; [49; 50]; [49; 51]; [49; 52]; [49; 53]; [49; 54]; [49; 55];
   [49; 56]; [49; 57]; [49; 65]; [49; 66]; [49; 67]; [49; 68]; [49; 69]; [49; 70];
   [50; 48]; [50; 49]; [50; 50]; [50; 51]; [50; 52]; [50; 53]; [50; 54]; [50; 55];
   [50; 56]; [50; 57]; [50; 65]; [50; 66]; [50; 67]; [50; 68]; [50; 69]; [50; 70];
   [51; 48]; [51; 49]; [51; 50]; [51; 51]; [51; 52]; [51; 53]; [51; 54]; [51; 55];
   [51; 56]; [51; 57]; [51; 65]; [51; 66]; [51; 67]; [51; 68]; [51; 69]; [51; 70];
   [52; 48]; [52; 49]; [52; 50]; [52; 51]; [52; 52]; [52; 53]; [52; 54]; [52; 55];
   [52; 56]; [52; 57]; [52; 65]; [52; 66]; [52; 67]; [52; 68]; [52; 69]; [52; 70];
   [53; 48]; [53; 49]; [53; 50]; [53; 51]; [53; 52]; [53; 53]; [53; 54]; [53; 55];
   [53; 56]; [53; 57]; [53; 65]; [53; 66]; [53; 67]; [53; 68]; [53; 69]; [53; 70];
   [54; 48]; [54; 49]; [54; 50]; [54; 51]; [54; 52]; [54; 53]; [54; 54]; [54; 55];
   [54; 56]; [54; 57]; [54; 65]; [54; 66]; [54; 67]; [54; 68]; [54; 69]; [54; 70];
   [55; 48]; [55; 49]; [55; 50]; [55; 51]; [55; 52]; [55; 53]; [55; 54]; [55; 55];
   [55; 56]; [55; 57]; [55; 65]; [55; 66]; [55; 67]; [55; 68]; [55; 69]; [55; 70];
   [56; 48]; [56; 49]; [56; 50]; [56; 51]; [56; 52]; [56; 53]; [56; 54]; [56; 55];
   [56; 56]; [56; 57]; [56; 65]; [56; 66]; [56; 67]; [56; 68]; [56; 69]; [56; 70];
   [57; 48]; [57; 49]; [57; 50]; [57; 51]; [57; 52]; [57; 53]; [57; 54]; [57; 55];
   [57; 56]; [57; 57]; [57; 65]; [57; 66]; [57; 67]; [57; 68]; [57; 69]; [57; 70];
   [65; 48]; [65; 49]; [65; 50]; [65; 51]; [65; 52]; [65; 53]; [65; 54]; [65; 55];
   [65; 56]; [65; 57]; [65; 65]; [65; 66]; [65; 67]; [65; 68]; [65; 69]; [65; 70];
   [66; 48]; [66; 49]; [66; 50]; [66; 51]; [66; 52]; [66; 53]; [66; 54]; [66; 55];
   [66; 56]; [66; 57]; [66; 65]; [66; 66]; [66; 67]; [66; 68]; [66; 69]; [66; 70];
   [67; 48]; [67; 49]; [67; 50]; [67; 51]; [67; 52]; [67; 53]; [67; 54]; [67; 55];
   [67; 56]; [67; 57]; [67; 65]; [67; 66]; [67; 67]; [67; 68]; [67; 69]; [67; 70];
   [68; 48]; [68; 49]; [68; 50]; [68; 51]; [68; 52]; [68; 53]; [68; 54]; [68; 55];
   [68; 56]; [68; 57]; [68; 65]; [68; 66]; [68; 67]; [68; 68]; [68; 69]; [68; 70];
   [69; 48]; [69; 49]; [69; 50]; [69; 51]; [69; 52]; [69; 53]; [69; 54]; [69; 55];
   [69; 56]; [69; 57]; [69; 65]; [69; 66]; [69; 67]; [69; 68]; [69; 69]; [69; 70];
   [70; 48]; [70; 49]; [70; 50]; [70; 51]; [70; 52]; [70; 53]; [70; 54]; [70; 55];
   [70; 56]; [70; 57]; [70; 65]; [70; 66]; [70; 67]; [70; 68]; [70; 69]; [70; 70]].

Definition B32_DECODE_ALPHABET : list Z :=
  [255; 255; 255; 255; 255; 255; 255; 255; 255; 255; 255; 255; 255; 255; 255; 255;
   255; 255; 255; 255; 255; 255; 255; 255; 255; 255; 255; 255; 255; 255; 255; 255;
   255; 255; 255; 255; 255; 255; 255; 255; 255; 255; 255; 255; 255; 255; 255; 255;
   0; 1; 2; 3; 4; 5; 6; 7; 8; 9; 255; 255; 255; 255; 255; 255;
   255; 10; 11; 12; 13; 14; 15; 16; 17; 18; 19; 20; 21; 22; 23; 24;
   25; 26; 27; 28; 29; 30; 31; 255; 255; 255; 255; 255; 255; 255; 255; 255;
   255; 10; 11; 12; 13; 14; 15; 16; 17; 18; 19; 20; 21; 22; 23; 24;
   25; 26; 27; 28; 29; 30; 31; 255; 255; 255; 255; 255; 255; 255; 255; 255].

Definition B32_ENCODE_ALPHABET : list Z :=
  [48; 49; 50; 51; 52; 53; 54; 55; 56; 57; 65; 66; 67; 68; 69; 70;
   71; 72; 73; 74; 75; 76; 77; 78; 79; 80; 81; 82; 83; 84; 85; 86].

Definition B64_DECODE_ALPHABET : list Z :=
  [255; 255; 255; 255; 255; 255; 255; 255; 255; 255; 255; 255; 255; 255; 255; 255;
   255; 255; 255; 255; 255; 255; 255; 255; 255; 255; 255; 255; 255; 255; 255; 255;
   255; 255; 255; 255; 255; 255; 255; 255; 255; 255; 255; 62; 255; 255; 255; 63;
   52; 53; 54; 55; 56; 57; 58; 59; 60; 61; 255; 255; 255; 255; 255; 255;
   255; 0; 1; 2; 3; 4; 5; 6; 7; 8; 9; 10; 11; 12; 13; 14;
   15; 16; 17; 18; 19; 20; 21; 22; 23; 24; 25; 255; 255; 255; 255; 255;
   255; 26; 27; 28; 29; 30; 31; 32; 33; 34; 35; 36; 37; 38; 39; 40;
   41; 42; 43; 44; 45; 46; 47; 48; 49; 50; 51; 255; 255; 255; 255; 255].

Definition B64_ENCODE_ALPHABET : list Z :=
  [65; 66; 67; 68; 69; 70; 71; 72; 73; 74; 75; 76; 77; 78; 79; 80;
   81; 82; 83; 84; 85; 86; 87; 88; 89; 90; 97; 98; 99; 100; 101; 102;
   103; 104; 105; 106; 107; 108; 109; 110; 111; 112; 113; 114; 115; 116; 117; 118;
   119; 120; 121; 122; 48; 49; 50; 51; 52; 53; 54; 55; 56; 57; 43; 47].

Definition PAD : Z := 61.
Definition PAD_MARKER : Z := 0x80.
Definition EOF_MARKER : Z := 0xF0.

Section Codecs.
Context {B : Type} `{OctetsBuilder B}.

(** ** Base 16 *)

Record HexDecoder := mkHexDecoder { hd_buf : option Z; hd_target : result B DecodeError }.

Definition hex_new : HexDecoder := mkHexDecoder None (Ok builder_empty).

(** [append]: an error of the builder stays in the target. *)
Definition dec_append (target : result B DecodeError) (value : Z) : result B DecodeError :=
  match target with
  | Ok t => match append_slice t [value] with Some t' => Ok t' | None => Err DecodeShortBuf end
  | Err e => Err e
  end.

Definition target_ok (target : result B DecodeError) : result unit DecodeError :=
  match target with Ok _ => Ok () | Err e => Err e end.

Definition hex_push (ch : Z) (d : HexDecoder) : outcome (HexDecoder * result unit DecodeError) :=
  match char_to_digit 16 ch with
  | None => Ret (mkHexDecoder (hd_buf d) (Err (IllegalChar ch)), Err (IllegalChar ch))
  | Some value =>
      let d' := match hd_buf d with
                | Some upper => mkHexDecoder None (dec_append (hd_target d) (Z.lor upper value))
                | None => mkHexDecoder (Some (shl8 value 4)) (hd_target d)
                end in
      Ret (d', target_ok (hd_target d'))
  end.

Definition hex_finalize (d : HexDecoder) : outcome (result (list Z) DecodeError) :=
  match hd_buf d with
  | Some _ => Ret (Err DecodeShortInput)
  | None => Ret (result_map freeze (hd_target d))
  end.

Definition hex_decode (chars : list Z) : outcome (result (list Z) DecodeError) :=
  decode_loop hex_push hex_finalize chars hex_new.

Fixpoint hex_display (octets : list Z) : outcome (list Z) :=
  match octets with
  | [] => Ret []
  | octet :: octets' =>
      let! s := tbl_get HEX_ENCODE_ALPHABET octet in
      let! rest := hex_display octets' in
      Ret (s ++ rest)
  end.

(** ** Base 32 *)

Record B32Decoder := mkB32Decoder { d32_buf : list Z; d32_next : Z; d32_target : result B DecodeError }.

Definition b32_new : B32Decoder := mkB32Decoder (replicate 8 0) 0 (Ok builder_empty).

(** The octets of a group of up to eight characters; [buf] has eight entries. *)
Definition b32_at (buf : list Z) (i : nat) : Z := nth i buf 0.
Definition b32_octet_0 (buf : list Z) : Z := Z.lor (shl8 (b32_at buf 0) 3) (Z.shiftr (b32_at buf 1) 2).
Definition b32_octet_1 (buf : list Z) : Z :=
  Z.lor (Z.lor (shl8 (b32_at buf 1) 6) (shl8 (b32_at buf 2) 1)) (Z.shiftr (b32_at buf 3) 4).
Definition b32_octet_2 (buf : list Z) : Z := Z.lor (shl8 (b32_at buf 3) 4) (Z.shiftr (b32_at buf 4) 1).
Definition b32_octet_3 (buf : list Z) : Z :=
  Z.lor (Z.lor (shl8 (b32_at buf 4) 7) (shl8 (b32_at buf 5) 2)) (Z.shiftr (b32_at buf 6) 3).
Definition b32_octet_4 (buf : list Z) : Z := Z.lor (shl8 (b32_at buf 6) 5) (b32_at buf 7).

Definition append_all (target : result B DecodeError) (values : list Z) : result B DecodeError :=
  foldl dec_append target values.

Definition b32_push (ch : Z) (d : B32Decoder) : outcome (B32Decoder * result unit DecodeError) :=
  let illegal := (mkB32Decoder (d32_buf d) (d32_next d) (Err (IllegalChar ch)), Err (IllegalChar ch)) in
  if 127 <? ch then Ret illegal
  else
    let! val := tbl_get B32_DECODE_ALPHABET ch in
    if val =? 0xFF then Ret illegal
    else if 8 <=? d32_next d then Panic
    else
      let buf := <[Z.to_nat (d32_next d) := val]> (d32_buf d) in
      let next := d32_next d + 1 in
      let d' := if next =? 8
                then mkB32Decoder buf 0 (append_all (d32_target d)
                       [b32_octet_0 buf; b32_octet_1 buf; b32_octet_2 buf; b32_octet_3 buf; b32_octet_4 buf])
                else mkB32Decoder buf next (d32_target d) in
      Ret (d', target_ok (d32_target d')).

Definition b32_finalize (d : B32Decoder) : outcome (result (list Z) DecodeError) :=
  let buf := d32_buf d in
  match d32_target d with
  | Err e => Ret (Err e)
  | Ok _ =>
      let frozen octets := Ret (result_map freeze (append_all (d32_target d) octets)) in
      match d32_next d with
      | 0 => frozen []
      | 1 | 3 | 6 => Ret (Err DecodeShortInput)
      | 2 => frozen [b32_octet_0 buf]
      | 4 => frozen [b32_octet_0 buf; b32_octet_1 buf]
      | 5 => frozen [b32_octet_0 buf; b32_octet_1 buf; b32_octet_2 buf]
      | 7 => frozen [b32_octet_0 buf; b32_octet_1 buf; b32_octet_2 buf; b32_octet_3 buf]
      | _ => Panic
      end
  end.

Definition b32_decode (chars : list Z) : outcome (result (list Z) DecodeError) :=
  decode_loop b32_push b32_finalize chars b32_new.

(** The table indexes of the characters, a chunk of five octets at a time; a
    shorter chunk is the last one. *)
Fixpoint b32_indexes (s : list Z) : list Z :=
  match s with
  | [] => []
  | [c0] => [Z.shiftr c0 3; shl8 (Z.land c0 7) 2]
  | [c0; c1] =>
      [Z.shiftr c0 3; Z.lor (shl8 (Z.land c0 7) 2) (Z.shiftr c1 6); Z.shiftr (Z.land c1 0x3F) 1;
       shl8 (Z.land c1 1) 4]
  | [c0; c1; c2] =>
      [Z.shiftr c0 3; Z.lor (shl8 (Z.land c0 7) 2) (Z.shiftr c1 6); Z.shiftr (Z.land c1 0x3F) 1;
       Z.lor (shl8 (Z.land c1 1) 4) (Z.shiftr c2 4); shl8 (Z.land c2 0x0F) 1]
  | [c0; c1; c2; c3] =>
      [Z.shiftr c0 3; Z.lor (shl8 (Z.land c0 7) 2) (Z.shiftr c1 6); Z.shiftr (Z.land c1 0x3F) 1;
       Z.lor (shl8 (Z.land c1 1) 4) (Z.shiftr c2 4); Z.lor (shl8 (Z.land c2 0x0F) 1) (Z.shiftr c3 7);
       Z.shiftr (Z.land c3 0x7F) 2; shl8 (Z.land c3 3) 3]
  | c0 :: c1 :: c2 :: c3 :: c4 :: s' =>
      [Z.shiftr c0 3; Z.lor (shl8 (Z.land c0 7) 2) (Z.shiftr c1 6); Z.shiftr (Z.land c1 0x3F) 1;
       Z.lor (shl8 (Z.land c1 1) 4) (Z.shiftr c2 4); Z.lor (shl8 (Z.land c2 0x0F) 1) (Z.shiftr c3 7);
       Z.shiftr (Z.land c3 0x7F) 2; Z.lor (shl8 (Z.land c3 3) 3) (Z.shiftr c4 5); Z.land c4 0x1F]
      ++ b32_indexes s'
  end.

Definition b32_display (s : list Z) : outcome (list Z) := tbl_write B32_ENCODE_ALPHABET (b32_indexes s).

(** ** Base 64 *)

Record B64Decoder := mkB64Decoder { d64_buf : list Z; d64_next : Z; d64_target : result B DecodeError }.

Definition b64_new : B64Decoder := mkB64Decoder (replicate 4 0) 0 (Ok builder_empty).

Definition b64_finalize (d : B64Decoder) : outcome (result (list Z) DecodeError) :=
  Ret (let? bytes := d64_target d in
       if negb (Z.land (d64_next d) 0x0F =? 0) then Err DecodeShortInput else Ok (freeze bytes)).

(** The value of a character at position [next] of a group. *)
Definition b64_val (next ch : Z) : outcome (option Z) :=
  if ch =? PAD then Ret (if next <? 2 then None else Some PAD_MARKER)
  else if 127 <? ch then Ret None
  else let! val := tbl_get B64_DECODE_ALPHABET ch in Ret (if val =? 0xFF then None else Some val).

(** The three octets of a group of four characters. *)
Definition b64_octet_0 (buf : list Z) : Z := Z.lor (shl8 (nth 0 buf 0) 2) (Z.shiftr (nth 1 buf 0) 4).
Definition b64_octet_1 (buf : list Z) : Z := Z.lor (shl8 (nth 1 buf 0) 4) (Z.shiftr (nth 2 buf 0) 2).
Definition b64_octet_2 (buf : list Z) : Z := Z.lor (shl8 (nth 2 buf 0) 6) (nth 3 buf 0).

(** A completed group; an append error returns with the characters still in the
    buffer. *)
Definition b64_group (buf : list Z) (target : B) : B64Decoder * result unit DecodeError :=
  let short t := (mkB64Decoder buf 4 (Ok t), Err DecodeShortBuf) in
  match append_slice target [b64_octet_0 buf] with
  | None => short target
  | Some t1 =>
      match (if nth 2 buf 0 =? PAD_MARKER then Some t1 else append_slice t1 [b64_octet_1 buf]) with
      | None => short t1
      | Some t2 =>
          if nth 3 buf 0 =? PAD_MARKER then (mkB64Decoder buf EOF_MARKER (Ok t2), Ok ())
          else if nth 2 buf 0 =? PAD_MARKER then (mkB64Decoder buf 4 (Ok t2), Err TrailingInput)
          else match append_slice t2 [b64_octet_2 buf] with
               | None => short t2
               | Some t3 => (mkB64Decoder buf 0 (Ok t3), Ok ())
               end
      end
  end.

Definition b64_push (ch : Z) (d : B64Decoder) : outcome (B64Decoder * result unit DecodeError) :=
  if d64_next d =? EOF_MARKER
  then Ret (mkB64Decoder (d64_buf d) (d64_next d) (Err TrailingInput), Err TrailingInput)
  else
    let! val := b64_val (d64_next d) ch in
    match val with
    | None => Ret (d, Err (IllegalChar ch))
    | Some val =>
        if 4 <=? d64_next d then Panic
        else
          let buf := <[Z.to_nat (d64_next d) := val]> (d64_buf d) in
          let next := d64_next d + 1 in
          if next =? 4 then
            match d64_target d with
            | Err _ => Panic
            | Ok target => Ret (b64_group buf target)
            end
          else Ret (mkB64Decoder buf next (d64_target d), Ok ())
    end.

Definition b64_decode (chars : list Z) : outcome (result (list Z) DecodeError) :=
  decode_loop b64_push b64_finalize chars b64_new.

Fixpoint b64_display (s : list Z) : outcome (list Z) :=
  match s with
  | [] => Ret []
  | [c0] =>
      let! cs := tbl_write B64_ENCODE_ALPHABET [Z.shiftr c0 2; shl8 (Z.land c0 3) 4] in
      Ret (cs ++ [PAD; PAD])
  | [c0; c1] =>
      let! cs := tbl_write B64_ENCODE_ALPHABET
        [Z.shiftr c0 2; Z.lor (shl8 (Z.land c0 3) 4) (Z.shiftr c1 4); shl8 (Z.land c1 0x0F) 2] in
      Ret (cs ++ [PAD])
  | c0 :: c1 :: c2 :: s' =>
      let! cs := tbl_write B64_ENCODE_ALPHABET
        [Z.shiftr c0 2; Z.lor (shl8 (Z.land c0 3) 4) (Z.shiftr c1 4);
         Z.lor (shl8 (Z.land c1 0x0F) 2) (Z.shiftr c2 6); Z.land c2 0x3F] in
      let! rest := b64_display s' in
      Ret (cs ++ rest)
  end.
End Codecs.
#[global] Arguments HexDecoder B : clear implicits.
#[global] Arguments B32Decoder B : clear implicits.
#[global] Arguments B64Decoder B : clear implicits.

(** ** Symbol converters *)

Record HexConverter := mkHexConverter { hc_buf : Z; hc_pending : bool }.

Definition hex_converter_new : HexConverter := mkHexConverter 0 false.

Definition hex_process_symbol (c : HexConverter) (symbol : EntrySymbol)
    : outcome (HexConverter * result (option (list Z)) StrError) :=
  let bad := Ret (c, Err (str_custom "expected hex digits")) in
  match symbol with
  | ESymbol symbol =>
      match symbol_into_char symbol with
      | Err _ => bad
      | Ok ch =>
          match char_to_digit 16 ch with
          | None => bad
          | Some symbol =>
              if hc_pending c then
                let buf := Z.lor (hc_buf c) (as_u8 symbol) in
                Ret (mkHexConverter buf false, Ok (Some [buf]))
              else Ret (mkHexConverter (as_u8 (Z.shiftl symbol 4)) true, Ok None)
          end
      end
  | EndOfToken => Ret (c, Ok None)
  end.

Definition hex_process_tail (c : HexConverter) : outcome (HexConverter * result (option (list Z)) StrError) :=
  Ret (c, if hc_pending c then Err (str_custom "uneven number of hex digits") else Ok None).

#[export] Instance hex_converter : ConvertSymbols HexConverter := {|
  process_symbol := hex_process_symbol;
  process_tail := hex_process_tail
|}.

Record B32Converter := mkB32Converter { c32_input : list Z; c32_next : Z; c32_output : list Z }.

Definition b32_converter_new : B32Converter := mkB32Converter (replicate 8 0) 0 (replicate 5 0).

Definition b32_process_char (c : B32Converter) (ch : Z)
    : outcome (B32Converter * result (option (list Z)) StrError) :=
  let bad := Ret (c, Err (str_custom "illegal Base 32 data")) in
  if 127 <? ch then bad
  else
    let! val := tbl_get B32_DECODE_ALPHABET ch in
    if val =? 0xFF then bad
    else if 8 <=? c32_next c then Panic
    else
      let input := <[Z.to_nat (c32_next c) := val]> (c32_input c) in
      let next := c32_next c + 1 in
      if next =? 8 then
        let output := [b32_octet_0 input; b32_octet_1 input; b32_octet_2 input; b32_octet_3 input; b32_octet_4 input] in
        Ret (mkB32Converter input 0 output, Ok (Some output))
      else Ret (mkB32Converter input next (c32_output c), Ok None).

Definition b32_process_symbol (c : B32Converter) (symbol : EntrySymbol)
    : outcome (B32Converter * result (option (list Z)) StrError) :=
  match symbol with
  | ESymbol symbol =>
      match symbol_into_char symbol with
      | Err _ => Ret (c, Err (str_custom "illegal Base 32 data"))
      | Ok ch => b32_process_char c ch
      end
  | EndOfToken => Ret (c, Ok None)
  end.

(** The octets are put into [output] one after the other; a prefix of it is
    returned. *)
Definition b32_process_tail (c : B32Converter) : outcome (B32Converter * result (option (list Z)) StrError) :=
  let input := c32_input c in
  let output n := take n [b32_octet_0 input; b32_octet_1 input; b32_octet_2 input; b32_octet_3 input] ++ drop n (c32_output c) in
  let some n := Ret (mkB32Converter input (c32_next c) (output n), Ok (Some (take n (output n)))) in
  match c32_next c with
  | 0 => Ret (c, Ok None)
  | 1 | 3 | 6 => Ret (c, Err (str_custom "short Base 32 input"))
  | 2 => some 1%nat
  | 4 => some 2%nat
  | 5 => some 3%nat
  | _ => some 4%nat
  end.

#[export] Instance b32_converter : ConvertSymbols B32Converter := {|
  process_symbol := b32_process_symbol;
  process_tail := b32_process_tail
|}.

Record B64Converter := mkB64Converter { c64_input : list Z; c64_next : Z; c64_output : list Z }.

Definition b64_converter_new : B64Converter := mkB64Converter (replicate 4 0) 0 (replicate 3 0).

Definition b64_process_char (c : B64Converter) (ch : Z)
    : outcome (B64Converter * result (option (list Z)) StrError) :=
  if c64_next c =? EOF_MARKER then Ret (c, Err (str_custom "trailing Base 64 data"))
  else
    let! val := b64_val (c64_next c) ch in
    match val with
    | None => Ret (c, Err (str_custom "illegal Base 64 data"))
    | Some val =>
        if 4 <=? c64_next c then Panic
        else
          let input := <[Z.to_nat (c64_next c) := val]> (c64_input c) in
          let next := c64_next c + 1 in
          if next =? 4 then
            let output1 := <[0%nat := b64_octet_0 input]> (c64_output c) in
            if nth 2 input 0 =? PAD_MARKER then
              if nth 3 input 0 =? PAD_MARKER
              then Ret (mkB64Converter input EOF_MARKER output1, Ok (Some (take 1 output1)))
              else Ret (mkB64Converter input next output1, Err (str_custom "illegal Base 64 data"))
            else
              let output2 := <[1%nat := b64_octet_1 input]> output1 in
              if nth 3 input 0 =? PAD_MARKER
              then Ret (mkB64Converter input EOF_MARKER output2, Ok (Some (take 2 output2)))
              else
                let output3 := <[2%nat := b64_octet_2 input]> output2 in
                Ret (mkB64Converter input 0 output3, Ok (Some output3))
          else Ret (mkB64Converter input next (c64_output c), Ok None)
    end.

Definition b64_process_symbol (c : B64Converter) (symbol : EntrySymbol)
    : outcome (B64Converter * result (option (list Z)) StrError) :=
  match symbol with
  | ESymbol symbol =>
      match symbol_into_char symbol with
      | Err _ => Ret (c, Err (str_custom "illegal Base 64 data"))
      | Ok ch => b64_process_char c ch
      end
  | EndOfToken => Ret (c, Ok None)
  end.

Definition b64_process_tail (c : B64Converter) : outcome (B64Converter * result (option (list Z)) StrError) :=
  Ret (c, if negb (Z.land (c64_next c) 0x0F =? 0) then Err (str_custom "incomplete Base 64 data") else Ok None).

#[export] Instance b64_converter : ConvertSymbols B64Converter := {|
  process_symbol := b64_process_symbol;
  process_tail := b64_process_tail
|}.

(** What a scanner does with a converter: append the data it returns. *)
Section Convert.
Context {C B : Type} `{ConvertSymbols C} `{OctetsBuilder B}.

Definition append_data (data : option (list Z)) (res : B) : result B StrError :=
  match data with
  | None => Ok res
  | Some data => ok_or (append_slice res data) str_short_buf
  end.

Fixpoint convert_loop (syms : list EntrySymbol) (convert : C) (res : B) : outcome (result (C * B) StrError) :=
  match syms with
  | [] => Ret (Ok (convert, res))
  | sym :: syms' =>
      let! (convert', r) := process_symbol convert sym in
      match (let? data := r in append_data data res) with
      | Ok res' => convert_loop syms' convert' res'
      | Err e => Ret (Err e)
      end
  end.

(** The symbols of a token, then the tail. *)
Definition convert_from (syms : list EntrySymbol) (convert : C) (res : B) : outcome (result (list Z) StrError) :=
  let! r := convert_loop syms convert res in
  match r with
  | Err e => Ret (Err e)
  | Ok (convert, res) =>
      let! (_, r) := process_tail convert in
      Ret (let? data := r in let? res := append_data data res in Ok (freeze res))
  end.

Definition convert_symbols (syms : list EntrySymbol) (convert : C) : outcome (result (list Z) StrError) :=
  convert_from syms convert builder_empty.
End Convert.

(** ** Bits and groups *)

Lemma lor_add a b n : 0 <= n -> a mod 2 ^ n = 0 -> 0 <= b < 2 ^ n -> Z.lor a b = a + b.
Proof.
  intros Hn Ha Hb. rewrite (Z.div_mod a (2 ^ n)) by lia. rewrite Ha, Z.add_0_r, Z.mul_comm.
  rewrite <- Z.shiftl_mul_pow2 at 1 by done. by rewrite lor_shiftl_add.
Qed.

(** [x & (2^n - 1)]. *)
Lemma land_low x n m : 0 <= n -> m = Z.ones n -> Z.land x m = x mod 2 ^ n.
Proof. intros Hn ->. by apply Z.land_ones. Qed.

Lemma shl8_mul x n : 0 <= n -> shl8 x n = (x * 2 ^ n) mod 256.
Proof. intros Hn. unfold shl8, as_u8. by rewrite Z.shiftl_mul_pow2. Qed.

(** [lia] with division and remainder by constants. *)
#[local] Ltac Zify.zify_post_hook ::= Z.to_euclidean_division_equations.

(** Turns shifts and masks into divisions and remainders. *)
Ltac bits_to_arith :=
  rewrite ?shl8_mul, ?Z.shiftr_div_pow2 by lia;
  repeat match goal with
  | |- context [Z.land ?x 1] => rewrite (land_low x 1 1) by done
  | |- context [Z.land ?x 3] => rewrite (land_low x 2 3) by done
  | |- context [Z.land ?x 7] => rewrite (land_low x 3 7) by done
  | |- context [Z.land ?x 15] => rewrite (land_low x 4 15) by done
  | |- context [Z.land ?x 31] => rewrite (land_low x 5 31) by done
  | |- context [Z.land ?x 63] => rewrite (land_low x 6 63) by done
  | |- context [Z.land ?x 127] => rewrite (land_low x 7 127) by done
  end;
  change (2 ^ 1) with 2 in *; change (2 ^ 2) with 4 in *; change (2 ^ 3) with 8 in *; change (2 ^ 4) with 16 in *;
  change (2 ^ 5) with 32 in *; change (2 ^ 6) with 64 in *; change (2 ^ 7) with 128 in *.

Section RoundTrips.
Context {B : Type} `{OctetsBuilderOk B} `{!InfallibleBuilder B}.

(** ** Base 64 *)

Lemma b64_char i :
  0 <= i < 64 -> exists ch, tbl_get B64_ENCODE_ALPHABET i = Ret ch /\ forall next, b64_val next ch = Ret (Some i).
Proof.
  intros Hi. assert (Hc : match tbl_get B64_ENCODE_ALPHABET i with
    | Ret ch => ch <> PAD /\ ch <= 127 /\ tbl_get B64_DECODE_ALPHABET ch = Ret i
    | Panic => False end).
  { assert (Hu : is_u8 i) by ulia. revert i Hu Hi. 
    match goal with |- forall b, is_u8 b -> @?P b => unshelve notypeclasses refine (@forall_octets P _ _) end.
    - intros i; cbv beta. destruct (tbl_get _ i); apply _.
    - vm_compute; reflexivity. }
  destruct (tbl_get B64_ENCODE_ALPHABET i) as [ch|]; [|done]. destruct Hc as (Hp & Hle & Ht).
  exists ch. split; [done|]. intros next. unfold b64_val. destruct (Z.eqb_spec ch PAD); [done|].
  destruct (Z.ltb_spec 127 ch); [lia|]. rewrite Ht. by destruct (Z.eqb_spec i 0xFF); [lia|].
Qed.

Lemma b64_octets c0 c1 c2 :
  is_u8 c0 -> is_u8 c1 -> is_u8 c2 ->
  let i0 := Z.shiftr c0 2 in
  let i1 := Z.lor (shl8 (Z.land c0 3) 4) (Z.shiftr c1 4) in
  let i2 := Z.lor (shl8 (Z.land c1 0x0F) 2) (Z.shiftr c2 6) in
  let i3 := Z.land c2 0x3F in
  (0 <= i0 < 64 /\ 0 <= i1 < 64 /\ 0 <= i2 < 64 /\ 0 <= i3 < 64) /\
  b64_octet_0 [i0; i1; i2; i3] = c0 /\ b64_octet_1 [i0; i1; i2; i3] = c1 /\ b64_octet_2 [i0; i1; i2; i3] = c2.
Proof.
  intros H0' H1 H2 i0 i1 i2 i3. unfold is_u8 in *. change (2 ^ 8) with 256 in *.
  assert (E0 : i0 = c0 / 4) by (unfold i0; by bits_to_arith).
  assert (E1 : i1 = c0 mod 4 * 16 + c1 / 16) by (unfold i1; bits_to_arith; rewrite (lor_add _ _ 4) by lia; lia).
  assert (E2 : i2 = c1 mod 16 * 4 + c2 / 64) by (unfold i2; bits_to_arith; rewrite (lor_add _ _ 2) by lia; lia).
  assert (E3 : i3 = c2 mod 64) by (unfold i3; by bits_to_arith).
  clearbody i0 i1 i2 i3. split; [lia|]. unfold b64_octet_0, b64_octet_1, b64_octet_2; cbn [nth]. bits_to_arith.
  rewrite (lor_add _ _ 2), (lor_add _ _ 4), (lor_add _ _ 6) by lia. lia.
Qed.

Abbreviation b64_loop := (decode_loop (b64_push (B:=B)) b64_finalize).

Lemma b64_push_mid ch v buf next target :
  0 <= next < 3 -> b64_val next ch = Ret (Some v) ->
  b64_push (B:=B) ch (mkB64Decoder buf next target) =
  Ret (mkB64Decoder (<[Z.to_nat next := v]> buf) (next + 1) target, Ok ()).
Proof.
  intros Hn E. unfold b64_push; cbn [d64_next d64_buf d64_target]. rewrite E.
  destruct (Z.eqb_spec next EOF_MARKER); [unfold EOF_MARKER in *; lia|].
  destruct (Z.leb_spec 4 next); [lia|]. by destruct (Z.eqb_spec (next + 1) 4); [lia|].
Qed.

Lemma b64_push_last ch v buf b :
  b64_val 3 ch = Ret (Some v) ->
  b64_push (B:=B) ch (mkB64Decoder buf 3 (Ok b)) = Ret (b64_group (<[3%nat := v]> buf) b).
Proof. intros E. unfold b64_push; cbn [d64_next d64_buf d64_target]. by rewrite E. Qed.

(** Four characters with values. *)
Lemma b64_loop_group ch0 ch1 ch2 ch3 v0 v1 v2 v3 rest buf b :
  length buf = 4%nat -> b64_val 0 ch0 = Ret (Some v0) -> b64_val 1 ch1 = Ret (Some v1) ->
  b64_val 2 ch2 = Ret (Some v2) -> b64_val 3 ch3 = Ret (Some v3) ->
  b64_loop (ch0 :: ch1 :: ch2 :: ch3 :: rest) (mkB64Decoder buf 0 (Ok b)) =
  let '(d, r) := b64_group [v0; v1; v2; v3] b in
  match r with Ok _ => b64_loop rest d | Err e => Ret (Err e) end.
Proof.
  intros Hl E0 E1 E2 E3. destruct buf as [|x0 [|x1 [|x2 [|x3 [|]]]]]; try done. cbn [decode_loop].
  rewrite (b64_push_mid _ v0), (b64_push_mid _ v1), (b64_push_mid _ v2) by (done || lia).
  change (0 + 1 + 1 + 1) with 3. rewrite (b64_push_last _ v3) by done.
  by change (<[3%nat:=v3]> _) with [v0; v1; v2; v3].
Qed.

Lemma b64_loop_full c0 c1 c2 s' b buf chars :
  length buf = 4%nat -> is_u8 c0 -> is_u8 c1 -> is_u8 c2 -> b64_display (c0 :: c1 :: c2 :: s') = Ret chars ->
  exists chars' b' buf', b64_display s' = Ret chars' /\ length buf' = 4%nat /\ as_ref b' = as_ref b ++ [c0; c1; c2] /\
    b64_loop chars (mkB64Decoder buf 0 (Ok b)) = b64_loop chars' (mkB64Decoder buf' 0 (Ok b')).
Proof using All.
  intros Hl H1 H2 H3. cbn [b64_display]. destruct (b64_octets c0 c1 c2 H1 H2 H3) as [(R0 & R1 & R2 & R3) (O0 & O1 & O2)].
  set (i0 := Z.shiftr c0 2) in *. set (i1 := Z.lor _ (Z.shiftr c1 4)) in *.
  set (i2 := Z.lor _ (Z.shiftr c2 6)) in *. set (i3 := Z.land c2 0x3F) in *. clearbody i0 i1 i2 i3.
  cbn [tbl_write]. destruct (b64_char i0 R0) as (x0 & -> & V0), (b64_char i1 R1) as (x1 & -> & V1),
    (b64_char i2 R2) as (x2 & -> & V2), (b64_char i3 R3) as (x3 & -> & V3).
  destruct (b64_display s') as [chars'|]; [|done]. intros [= <-]. cbn [app].
  rewrite (b64_loop_group _ _ _ _ i0 i1 i2 i3) by auto. unfold b64_group; cbn [nth].
  rewrite O0, O1, O2.
  destruct (append_slice_total b [c0]) as [t1 A1], (append_slice_total t1 [c1]) as [t2 A2],
    (append_slice_total t2 [c2]) as [t3 A3]. rewrite A1.
  destruct (Z.eqb_spec i2 PAD_MARKER), (Z.eqb_spec i3 PAD_MARKER); try (unfold PAD_MARKER in *; lia).
  rewrite A2, A3. exists chars', t3, [i0; i1; i2; i3]. split_and!; [done|done| |done].
  apply as_ref_append in A1, A2, A3. by rewrite A3, A2, A1, <- !app_assoc.
Qed.

Lemma b64_pad next : 2 <= next -> b64_val next PAD = Ret (Some PAD_MARKER).
Proof. intros Hn. unfold b64_val. cbn. by destruct (Z.ltb_spec next 2); [lia|]. Qed.

Lemma b64_loop_done buf next b :
  next = 0 \/ next = EOF_MARKER -> b64_loop [] (mkB64Decoder buf next (Ok b)) = Ret (Ok (as_ref b)).
Proof using H0. intros [-> | ->]; cbn [decode_loop]; unfold b64_finalize; by rewrite <- freeze_as_ref. Qed.

Lemma b64_loop_one c0 b buf chars :
  length buf = 4%nat -> is_u8 c0 -> b64_display [c0] = Ret chars ->
  b64_loop chars (mkB64Decoder buf 0 (Ok b)) = Ret (Ok (as_ref b ++ [c0])).
Proof using All.
  intros Hl H1. cbn [b64_display]. destruct (b64_octets c0 0 0 H1) as [(R0 & R1 & _) (O0 & _)]; [done..|].
  rewrite Z.shiftr_0_l, Z.lor_0_r in *. set (i0 := Z.shiftr c0 2) in *. set (i1 := shl8 _ 4) in *. clearbody i0 i1.
  cbn [tbl_write]. destruct (b64_char i0 R0) as (x0 & -> & V0), (b64_char i1 R1) as (x1 & -> & V1).
  intros [= <-]. cbn [app]. rewrite (b64_loop_group _ _ _ _ i0 i1 PAD_MARKER PAD_MARKER) by auto using b64_pad with lia.
  unfold b64_group; cbn [nth]. unfold b64_octet_0 in *; cbn [nth] in *. rewrite O0.
  destruct (append_slice_total b [c0]) as [t1 A1]. rewrite A1. cbn [Z.eqb Pos.eqb PAD_MARKER].
  rewrite b64_loop_done by auto. by apply as_ref_append in A1 as ->.
Qed.

Lemma b64_loop_two c0 c1 b buf chars :
  length buf = 4%nat -> is_u8 c0 -> is_u8 c1 -> b64_display [c0; c1] = Ret chars ->
  b64_loop chars (mkB64Decoder buf 0 (Ok b)) = Ret (Ok (as_ref b ++ [c0; c1])).
Proof using All.
  intros Hl H1 H2. cbn [b64_display]. destruct (b64_octets c0 c1 0 H1 H2) as [(R0 & R1 & R2 & _) (O0 & O1 & _)]; [done|].
  rewrite Z.shiftr_0_l, Z.lor_0_r in *. set (i0 := Z.shiftr c0 2) in *. set (i1 := Z.lor _ (Z.shiftr c1 4)) in *.
  set (i2 := shl8 _ 2) in *. clearbody i0 i1 i2. cbn [tbl_write].
  destruct (b64_char i0 R0) as (x0 & -> & V0), (b64_char i1 R1) as (x1 & -> & V1), (b64_char i2 R2) as (x2 & -> & V2).
  intros [= <-]. cbn [app]. rewrite (b64_loop_group _ _ _ _ i0 i1 i2 PAD_MARKER) by auto using b64_pad with lia.
  unfold b64_group; cbn [nth]. unfold b64_octet_0, b64_octet_1 in *; cbn [nth] in *. rewrite O0, O1.
  destruct (append_slice_total b [c0]) as [t1 A1], (append_slice_total t1 [c1]) as [t2 A2]. rewrite A1.
  destruct (Z.eqb_spec i2 PAD_MARKER); [unfold PAD_MARKER in *; lia|]. rewrite A2. cbn [Z.eqb Pos.eqb PAD_MARKER].
  rewrite b64_loop_done by auto. apply as_ref_append in A1, A2. by rewrite A2, A1, <- app_assoc.
Qed.

Lemma tbl_write_total (t idx : list Z) :
  Forall (fun i => 0 <= i < zlen t) idx -> exists cs, tbl_write t idx = Ret cs.
Proof.
  induction 1 as [|i idx Hi _ [cs IH]]; [by exists []|]. cbn [tbl_write]. unfold tbl_get.
  destruct (lookup_lt_is_Some_2 t (Z.to_nat i)) as [c ->]; [ulia|]. rewrite IH. by eexists.
Qed.

Lemma b64_display_total s : wf_octets s -> exists chars, b64_display s = Ret chars.
Proof.
  induction s as [s IH] using (induction_ltof1 _ (@length Z)). unfold ltof in IH. intros Hs.
  destruct s as [|c0 [|c1 [|c2 s']]]; [by exists []|..];
    repeat (apply Forall_uncons in Hs as [? Hs]); cbn [b64_display].
  1: destruct (b64_octets c0 0 0) as [(? & ? & _) _]; [done..|].
  2: destruct (b64_octets c0 c1 0) as [(? & ? & ? & _) _]; [done..|].
  3: destruct (b64_octets c0 c1 c2) as [(? & ? & ? & ?) _]; [done..|].
  all: rewrite ?Z.shiftr_0_l, ?Z.lor_0_r in *;
    edestruct tbl_write_total as [cs ->]; [rewrite !list.Forall_cons, list.Forall_nil; change (zlen B64_ENCODE_ALPHABET) with 64; tauto|].
  1-2: by eexists.
  destruct (IH s') as [chars ->]; [simpl; lia|done|]. by eexists.
Qed.

Lemma b64_loop_display s b buf :
  length buf = 4%nat -> wf_octets s ->
  exists chars, b64_display s = Ret chars /\
    b64_loop chars (mkB64Decoder buf 0 (Ok b)) = Ret (Ok (as_ref b ++ s)).
Proof using All.
  revert b buf. induction s as [s IH] using (induction_ltof1 _ (@length Z)). unfold ltof in IH. intros b buf Hl Hs.
  destruct (b64_display_total s Hs) as [chars E]. exists chars. split; [done|].
  destruct s as [|c0 [|c1 [|c2 s']]]; repeat (apply Forall_uncons in Hs as [? Hs]).
  - injection E as <-. rewrite b64_loop_done, app_nil_r; auto.
  - by apply b64_loop_one.
  - by apply b64_loop_two.
  - destruct (b64_loop_full c0 c1 c2 s' b buf chars) as (chars' & b' & buf' & E' & Hl' & Eb & ->); [done..|].
    destruct (IH s') with b' buf' as (chars2 & E2 & E3); [simpl; lia|done..|].
    rewrite E' in E2. injection E2 as <-. by rewrite E3, Eb, <- app_assoc.
Qed.

Lemma base64_roundtrip s :
  wf_octets s -> exists chars, b64_display s = Ret chars /\ b64_decode (B:=B) chars = Ret (Ok s).
Proof using All.
  intros Hs. destruct (b64_loop_display s builder_empty (replicate 4 0)) as (chars & E & D); [done..|].
  exists chars. split; [done|]. unfold b64_decode, b64_new. by rewrite D, as_ref_empty.
Qed.

(** ** Base 32 *)

Definition b32_val (ch v : Z) : Prop := ch <= 127 /\ tbl_get B32_DECODE_ALPHABET ch = Ret v /\ v <> 0xFF.

Lemma b32_char i : 0 <= i < 32 -> exists ch, tbl_get B32_ENCODE_ALPHABET i = Ret ch /\ b32_val ch i.
Proof.
  intros Hi. assert (Hc : match tbl_get B32_ENCODE_ALPHABET i with
    | Ret ch => ch <= 127 /\ tbl_get B32_DECODE_ALPHABET ch = Ret i
    | Panic => False end).
  { assert (Hu : is_u8 i) by ulia. revert i Hu Hi.
    match goal with |- forall b, is_u8 b -> @?P b => unshelve notypeclasses refine (@forall_octets P _ _) end.
    - intros i; cbv beta. destruct (tbl_get _ i); apply _.
    - vm_compute; reflexivity. }
  destruct (tbl_get B32_ENCODE_ALPHABET i) as [ch|]; [|done]. destruct Hc as [Hle Ht].
  exists ch. split_and!; [done..|]. split_and!; [done..|lia].
Qed.

Lemma b32_octets c0 c1 c2 c3 c4 :
  is_u8 c0 -> is_u8 c1 -> is_u8 c2 -> is_u8 c3 -> is_u8 c4 ->
  let v := b32_indexes [c0; c1; c2; c3; c4] in
  Forall (fun i => 0 <= i < 32) v /\ b32_octet_0 v = c0 /\ b32_octet_1 v = c1 /\ b32_octet_2 v = c2 /\
  b32_octet_3 v = c3 /\ b32_octet_4 v = c4.
Proof.
  intros H1 H2 H3 H4 H5 v. unfold is_u8 in *. change (2 ^ 8) with 256 in *.
  assert (E : v = [c0 / 8; c0 mod 8 * 4 + c1 / 64; c1 mod 64 / 2; c1 mod 2 * 16 + c2 / 16;
    c2 mod 16 * 2 + c3 / 128; c3 mod 128 / 4; c3 mod 4 * 8 + c4 / 32; c4 mod 32]).
  { unfold v; cbn [b32_indexes app]. bits_to_arith.
    rewrite (lor_add _ _ 2), (lor_add _ _ 4), (lor_add _ _ 1), (lor_add _ _ 3) by lia.
    repeat (f_equal; try lia). }
  rewrite E. clear v E. split; [repeat constructor; lia|].
  unfold b32_octet_0, b32_octet_1, b32_octet_2, b32_octet_3, b32_octet_4, b32_at; cbn [nth]. bits_to_arith.
  split_and!.
  - rewrite (lor_add _ _ 3) by lia. lia.
  - rewrite (lor_add ((_ * 64) mod 256) _ 6) by lia. rewrite (lor_add _ _ 1) by lia. lia.
  - rewrite (lor_add _ _ 4) by lia. lia.
  - rewrite (lor_add ((_ * 128) mod 256) _ 7) by lia. rewrite (lor_add _ _ 2) by lia. lia.
  - rewrite (lor_add _ _ 5) by lia. lia.
Qed.

Abbreviation b32_loop := (decode_loop (b32_push (B:=B)) b32_finalize).

Lemma b32_push_mid ch v buf next b :
  b32_val ch v -> 0 <= next < 7 ->
  b32_push (B:=B) ch (mkB32Decoder buf next (Ok b)) =
  Ret (mkB32Decoder (<[Z.to_nat next := v]> buf) (next + 1) (Ok b), Ok ()).
Proof.
  intros (Hle & Ht & Hv) Hn. unfold b32_push; cbn [d32_next d32_buf d32_target].
  destruct (Z.ltb_spec 127 ch); [lia|]. rewrite Ht. destruct (Z.eqb_spec v 0xFF); [done|].
  destruct (Z.leb_spec 8 next); [lia|]. by destruct (Z.eqb_spec (next + 1) 8); [lia|].
Qed.

(** Characters of an incomplete group. *)
Lemma b32_loop_mid chars vals rest buf next b :
  Forall2 b32_val chars vals -> 0 <= next -> next + zlen chars <= 7 ->
  b32_loop (chars ++ rest) (mkB32Decoder buf next (Ok b)) =
  b32_loop rest (mkB32Decoder (list_inserts (Z.to_nat next) vals buf) (next + zlen chars) (Ok b)).
Proof.
  intros Hv. revert buf next. induction Hv as [|ch v chars vals Hc Hv IH]; intros buf next Hn Hl.
  - simpl. unfold zlen; simpl. by rewrite Z.add_0_r.
  - assert (Hz : zlen (ch :: chars) = 1 + zlen chars) by (unfold zlen; simpl; lia).
    assert (0 <= zlen chars) by (unfold zlen; lia).
    cbn [app decode_loop]. rewrite (b32_push_mid ch v) by (done || lia). rewrite IH by lia.
    do 2 f_equal; [|lia]. cbn [list_inserts]. replace (Z.to_nat (next + 1)) with (S (Z.to_nat next)) by lia.
    by rewrite list_insert_inserts_lt by lia.
Qed.

Lemma b32_write idx :
  Forall (fun i => 0 <= i < 32) idx ->
  exists chars, tbl_write B32_ENCODE_ALPHABET idx = Ret chars /\ Forall2 b32_val chars idx.
Proof.
  induction 1 as [|i idx Hi _ (chars & E & Hc)]; [by exists []|]. cbn [tbl_write].
  destruct (b32_char i Hi) as (ch & -> & Hv). rewrite E. eexists; split; [done|]. by constructor.
Qed.

Lemma tbl_write_app t a b :
  tbl_write t (a ++ b) = let! ca := tbl_write t a in let! cb := tbl_write t b in Ret (ca ++ cb).
Proof.
  induction a as [|i a IH]; cbn [app tbl_write]; [by destruct (tbl_write t b)|].
  destruct (tbl_get t i); [|done]. rewrite IH. destruct (tbl_write t a); [|done]. by destruct (tbl_write t b).
Qed.

Lemma append_all_spec (b : B) values :
  exists b', append_all (Ok b) values = Ok b' /\ as_ref b' = as_ref b ++ values.
Proof using All.
  revert b. induction values as [|v values IH]; intros b; [exists b; by rewrite app_nil_r|].
  destruct (append_slice_total b [v]) as [b1 A1]. destruct (IH b1) as (b' & E & Eb). exists b'.
  unfold append_all; cbn [foldl dec_append]. rewrite A1. split; [exact E|].
  apply as_ref_append in A1. by rewrite Eb, A1, <- app_assoc.
Qed.

(** A complete group of eight characters. *)
Lemma b32_loop_group chars vals buf b :
  Forall2 b32_val chars vals -> length buf = 8%nat -> length vals = 8%nat ->
  exists b', as_ref b' = as_ref b ++
      [b32_octet_0 vals; b32_octet_1 vals; b32_octet_2 vals; b32_octet_3 vals; b32_octet_4 vals] /\
    forall rest, b32_loop (chars ++ rest) (mkB32Decoder buf 0 (Ok b)) = b32_loop rest (mkB32Decoder vals 0 (Ok b')).
Proof using All.
  intros Hv Hb Hl. destruct vals as [|v0 [|v1 [|v2 [|v3 [|v4 [|v5 [|v6 [|v7 [|]]]]]]]]]; try done.
  change [v0; v1; v2; v3; v4; v5; v6; v7] with ([v0; v1; v2; v3; v4; v5; v6] ++ [v7]) in Hv.
  apply Forall2_app_inv_r in Hv as (cs & last & Hcs & Hlast & ->).
  apply Forall2_cons_inv_r in Hlast as (ch & ? & (Hle & Ht & Hn) & Hnil & ->). apply Forall2_nil_inv_r in Hnil as ->.
  pose proof (Forall2_length _ _ _ Hcs) as Hlc. simpl in Hlc.
  set (vals := [v0; v1; v2; v3; v4; v5; v6; v7]).
  destruct (append_all_spec b [b32_octet_0 vals; b32_octet_1 vals; b32_octet_2 vals; b32_octet_3 vals; b32_octet_4 vals])
    as (b' & E & Eb). exists b'. split; [done|]. intros rest.
  rewrite <- app_assoc, (b32_loop_mid cs _ _ _ _ _ Hcs) by (unfold zlen; lia).
  replace (0 + zlen cs) with 7 by (unfold zlen; lia). cbn [app decode_loop]. unfold b32_push at 1.
  cbn [d32_next d32_buf d32_target]. destruct (Z.ltb_spec 127 ch); [lia|]. rewrite Ht.
  destruct (Z.eqb_spec v7 0xFF); [done|]. cbn [Z.leb Z.eqb Z.compare Pos.compare Pos.compare_cont Z.add Pos.add Pos.succ].
  do 8 (destruct buf as [|? buf]; [done|]). destruct buf; [|done]. cbn [list_inserts].
  change (<[Z.to_nat 7:=v7]> _) with vals. change (8 =? 8) with true. cbv iota. by rewrite E.
Qed.

(** The octets of an incomplete last group of [n] characters. *)
Definition b32_tail_octets (n : Z) (buf : list Z) : option (list Z) :=
  match n with
  | 2 => Some [b32_octet_0 buf]
  | 4 => Some [b32_octet_0 buf; b32_octet_1 buf]
  | 5 => Some [b32_octet_0 buf; b32_octet_1 buf; b32_octet_2 buf]
  | 7 => Some [b32_octet_0 buf; b32_octet_1 buf; b32_octet_2 buf; b32_octet_3 buf]
  | _ => None
  end.

Lemma b32_loop_tail chars vals buf b octets :
  Forall2 b32_val chars vals -> zlen chars <= 7 ->
  b32_tail_octets (zlen chars) (list_inserts 0 vals buf) = Some octets ->
  b32_loop chars (mkB32Decoder buf 0 (Ok b)) = Ret (Ok (as_ref b ++ octets)).
Proof using All.
  intros Hv Hl Ho. rewrite <- (app_nil_r chars) at 1. rewrite (b32_loop_mid _ _ _ _ _ _ Hv) by lia.
  change (Z.to_nat 0) with 0%nat. cbn [decode_loop]. unfold b32_finalize. cbn [d32_target d32_next d32_buf].
  set (buf' := list_inserts 0 vals buf) in *. clearbody buf'. rewrite Z.add_0_l. remember (zlen chars) as n eqn:En. clear En. destruct (append_all_spec b octets) as (b' & E & Eb). rewrite <- Eb, <- freeze_as_ref.
  assert (Hn : n = 2 \/ n = 4 \/ n = 5 \/ n = 7).
  { unfold b32_tail_octets in Ho. repeat (case_match; try done); auto. }
  destruct Hn as [-> | [-> | [-> | ->]]]; injection Ho as <-; cbv beta zeta iota; by rewrite E.
Qed.

(** The shorter chunks are the starts of a chunk padded with zeros. *)
Lemma b32_indexes_short c0 c1 c2 c3 :
  b32_indexes [c0] = take 2 (b32_indexes [c0; 0; 0; 0; 0]) /\
  b32_indexes [c0; c1] = take 4 (b32_indexes [c0; c1; 0; 0; 0]) /\
  b32_indexes [c0; c1; c2] = take 5 (b32_indexes [c0; c1; c2; 0; 0]) /\
  b32_indexes [c0; c1; c2; c3] = take 7 (b32_indexes [c0; c1; c2; c3; 0]).
Proof. cbn [b32_indexes app take]. by rewrite !Z.shiftr_0_l, !Z.lor_0_r. Qed.

Lemma b32_loop_short s v n buf b :
  length buf = 8%nat -> length v = 8%nat -> Forall (fun i => 0 <= i < 32) v ->
  b32_indexes s = take n v -> (n = 2 \/ n = 4 \/ n = 5 \/ n = 7)%nat ->
  b32_tail_octets (Z.of_nat n) v = Some s ->
  exists chars, b32_display s = Ret chars /\ b32_loop chars (mkB32Decoder buf 0 (Ok b)) = Ret (Ok (as_ref b ++ s)).
Proof using All.
  intros Hb Hv Hr Ei Hn Ho. unfold b32_display. rewrite Ei.
  destruct (b32_write (take n v)) as (chars & E & Hc); [by apply Forall_take|]. exists chars. split; [done|].
  pose proof (Forall2_length _ _ _ Hc) as Hlc. rewrite length_take, Hv in Hlc.
  eapply b32_loop_tail; [exact Hc|unfold zlen; lia|]. unfold zlen. rewrite Hlc, Nat.min_l by lia. rewrite <- Ho.
  do 8 (destruct buf as [|? buf]; [done|]). destruct buf; [|done].
  do 8 (destruct v as [|? v]; [done|]). destruct v; [|done]. by destruct Hn as [-> | [-> | [-> | ->]]].
Qed.

Lemma b32_loop_display s b buf :
  length buf = 8%nat -> wf_octets s ->
  exists chars, b32_display s = Ret chars /\
    b32_loop chars (mkB32Decoder buf 0 (Ok b)) = Ret (Ok (as_ref b ++ s)).
Proof using All.
  revert b buf. induction s as [s IH] using (induction_ltof1 _ (@length Z)). unfold ltof in IH. intros b buf Hl Hs.
  assert (H0' : is_u8 0) by done.
  destruct s as [|c0 [|c1 [|c2 [|c3 [|c4 s']]]]]; repeat (apply Forall_uncons in Hs as [? Hs]).
  - exists []. split; [done|]. cbn [decode_loop]. unfold b32_finalize; cbn. by rewrite <- freeze_as_ref, app_nil_r.
  - destruct (b32_octets c0 0 0 0 0) as (Hr & O0 & _); [done..|].
    apply (b32_loop_short _ (b32_indexes [c0; 0; 0; 0; 0]) 2); auto; [by apply b32_indexes_short|].
    unfold b32_tail_octets. cbn [Z.of_nat Pos.of_succ_nat Pos.succ]. by rewrite O0.
  - destruct (b32_octets c0 c1 0 0 0) as (Hr & O0 & O1 & _); [done..|].
    apply (b32_loop_short _ (b32_indexes [c0; c1; 0; 0; 0]) 4); auto; [by apply b32_indexes_short|].
    unfold b32_tail_octets. cbn [Z.of_nat Pos.of_succ_nat Pos.succ]. by rewrite O0, O1.
  - destruct (b32_octets c0 c1 c2 0 0) as (Hr & O0 & O1 & O2 & _); [done..|].
    apply (b32_loop_short _ (b32_indexes [c0; c1; c2; 0; 0]) 5); auto; [by apply b32_indexes_short|].
    unfold b32_tail_octets. cbn [Z.of_nat Pos.of_succ_nat Pos.succ]. by rewrite O0, O1, O2.
  - destruct (b32_octets c0 c1 c2 c3 0) as (Hr & O0 & O1 & O2 & O3 & _); [done..|].
    apply (b32_loop_short _ (b32_indexes [c0; c1; c2; c3; 0]) 7); auto; [by apply b32_indexes_short|].
    unfold b32_tail_octets. cbn [Z.of_nat Pos.of_succ_nat Pos.succ]. by rewrite O0, O1, O2, O3.
  - destruct (b32_octets c0 c1 c2 c3 c4) as (Hr & O0 & O1 & O2 & O3 & O4); [done..|].
    set (v := b32_indexes [c0; c1; c2; c3; c4]) in *. unfold b32_display.
    change (b32_indexes (c0 :: c1 :: c2 :: c3 :: c4 :: s')) with (v ++ b32_indexes s').
    rewrite tbl_write_app. destruct (b32_write v Hr) as (chars & -> & Hc).
    destruct (b32_loop_group chars v buf b Hc Hl eq_refl) as (b' & Eb & Eg).
    destruct (IH s') with b' v as (chars' & E' & El); [simpl; lia|done..|]. unfold b32_display in E'. rewrite E'.
    eexists; split; [done|]. rewrite Eg, El, Eb, <- app_assoc. by rewrite O0, O1, O2, O3, O4.
Qed.

Lemma base32_roundtrip s :
  wf_octets s -> exists chars, b32_display s = Ret chars /\ b32_decode (B:=B) chars = Ret (Ok s).
Proof using All.
  intros Hs. destruct (b32_loop_display s builder_empty (replicate 8 0)) as (chars & E & D); [done..|].
  exists chars. split; [done|]. unfold b32_decode, b32_new. by rewrite D, as_ref_empty.
Qed.

(** ** Base 16 *)

(** What base 16 means: digits, two per octet. *)
Definition hex_bad (chars : list Z) : option Z :=
  find (fun ch => match char_to_digit 16 ch with Some _ => false | None => true end) chars.

Fixpoint hex_octets (chars : list Z) : result (list Z) DecodeError :=
  match chars with
  | [] => Ok []
  | [_] => Err DecodeShortInput
  | hi :: lo :: chars' =>
      result_map (cons (default 0 (char_to_digit 16 hi) * 16 + default 0 (char_to_digit 16 lo))) (hex_octets chars')
  end.

Lemma hex_digit_range ch v : char_to_digit 16 ch = Some v -> 0 <= v < 16.
Proof.
  unfold char_to_digit, is_ascii_digit. intros E. repeat case_scrut; breflect; simplify_eq; lia.
Qed.

Abbreviation hex_loop := (decode_loop (hex_push (B:=B)) hex_finalize).

Lemma hex_loop_spec chars b :
  hex_loop chars (mkHexDecoder None (Ok b)) =
  Ret (match hex_bad chars with
       | Some ch => Err (IllegalChar ch)
       | None => result_map (app (as_ref b)) (hex_octets chars)
       end).
Proof using All.
  revert b. induction chars as [chars IH] using (induction_ltof1 _ (@length Z)). unfold ltof in IH. intros b.
  destruct chars as [|hi [|lo chars]]; unfold hex_bad; cbn [find hex_octets decode_loop].
  - unfold hex_finalize; cbn. by rewrite freeze_as_ref, app_nil_r.
  - unfold hex_push. cbn [hd_buf hd_target]. by destruct (char_to_digit 16 hi).
  - unfold hex_push at 1. cbn [hd_buf hd_target]. destruct (char_to_digit 16 hi) as [vh|] eqn:Eh; [|done].
    cbn [target_ok hd_target]. unfold hex_push at 1. cbn [hd_buf hd_target].
    destruct (char_to_digit 16 lo) as [vl|] eqn:El; [|done]. apply hex_digit_range in Eh, El.
    cbn [dec_append]. rewrite shl8_mul, (lor_add _ _ 4) by lia. replace ((vh * 2 ^ 4) mod 256 + vl) with (vh * 16 + vl) by lia.
    destruct (append_slice_total b [vh * 16 + vl]) as [b1 A1]. rewrite A1. cbn [target_ok hd_target].
    rewrite IH by (simpl; lia). apply as_ref_append in A1. rewrite A1. fold (hex_bad chars).
    destruct (hex_bad chars); [done|]. cbn [default from_option]. destruct (hex_octets chars); [|done].
    cbn. by rewrite <- app_assoc.
Qed.

(** Base 16 decoding accepts exactly the texts of an even number of hexadecimal
    digits, of either case, and gives the octets of the pairs of digits; otherwise
    it reports the first character that is no digit, or that the input is too
    short. *)
Theorem base16_decode_correct chars :
  hex_decode (B:=B) chars =
  Ret (match hex_bad chars with Some ch => Err (IllegalChar ch) | None => hex_octets chars end).
Proof using All.
  unfold hex_decode, hex_new. rewrite hex_loop_spec, as_ref_empty. destruct (hex_bad chars); [done|].
  by destruct (hex_octets chars).
Qed.

Lemma hex_entry o :
  is_u8 o -> exists hi lo, tbl_get HEX_ENCODE_ALPHABET o = Ret [hi; lo] /\
    char_to_digit 16 hi = Some (o / 16) /\ char_to_digit 16 lo = Some (o mod 16).
Proof.
  intros Ho. assert (Hc : match tbl_get HEX_ENCODE_ALPHABET o with
    | Ret [hi; lo] => char_to_digit 16 hi = Some (o / 16) /\ char_to_digit 16 lo = Some (o mod 16)
    | _ => False end).
  { revert o Ho. match goal with |- forall b, is_u8 b -> @?P b => unshelve notypeclasses refine (@forall_octets P _ _) end.
    - intros o; cbv beta. destruct (tbl_get _ o) as [[|? [|? [|]]]|]; apply _.
    - vm_compute; reflexivity. }
  destruct (tbl_get HEX_ENCODE_ALPHABET o) as [[|hi [|lo [|]]]|]; try done. exists hi, lo. done.
Qed.

Lemma base16_roundtrip s :
  wf_octets s -> exists chars, hex_display s = Ret chars /\ hex_bad chars = None /\ hex_octets chars = Ok s.
Proof.
  induction 1 as [|o s Ho _ (chars & Ed & Eb & Eo)]; [by exists []|]. cbn [hex_display].
  destruct (hex_entry o Ho) as (hi & lo & -> & Eh & El). rewrite Ed. eexists; split; [done|].
  unfold hex_bad; cbn [app find hex_octets]. rewrite Eh, El, Eo. fold (hex_bad chars). split; [done|].
  cbn. do 2 f_equal. lia.
Qed.

(** Encoding octets in base 16, base 32 or base 64 never panics, and decoding the
    text gives the octets back.  (C30) *)
Theorem base_encodings_roundtrip s :
  wf_octets s ->
  (exists chars, hex_display s = Ret chars /\ hex_decode (B:=B) chars = Ret (Ok s)) /\
  (exists chars, b32_display s = Ret chars /\ b32_decode (B:=B) chars = Ret (Ok s)) /\
  (exists chars, b64_display s = Ret chars /\ b64_decode (B:=B) chars = Ret (Ok s)).
Proof using All.
  intros Hs. split_and!; [|by apply base32_roundtrip|by apply base64_roundtrip].
  destruct (base16_roundtrip s Hs) as (chars & Ed & Eb & Eo). exists chars. split; [done|].
  unfold hex_decode, hex_new. rewrite hex_loop_spec, as_ref_empty, Eb. by rewrite Eo.
Qed.
End RoundTrips.

(** ** Converters and decoders agree *)

(** The symbols of a text without escapes. *)
Definition plain_symbols (chars : list Z) : list EntrySymbol := map (fun ch => ESymbol (Char ch)) chars.

(** Both return, and the results are the same octets or both errors. *)
Definition same_octets (a : outcome (result (list Z) DecodeError)) (b : outcome (result (list Z) StrError)) : Prop :=
  exists r r', a = Ret r /\ b = Ret r' /\
    match r, r' with Ok s, Ok s' => s = s' | Err _, Err _ => True | _, _ => False end.

Section Agree.
Context {B : Type} `{OctetsBuilderOk B} `{!InfallibleBuilder B}.

Section Simulation.
Context {D C : Type} `{ConvertSymbols C}.
Context (push : Z -> D -> outcome (D * result unit DecodeError)).
Context (finalize : D -> outcome (result (list Z) DecodeError)).
Context (R : D -> C -> list Z -> Prop).
Context (Hstep : forall d c out ch, R d c out ->
  (exists d' c' o, push ch d = Ret (d', Ok ()) /\ process_symbol c (ESymbol (Char ch)) = Ret (c', Ok o) /\
     R d' c' (out ++ default [] o)) \/
  (exists d' e c' e', push ch d = Ret (d', Err e) /\ process_symbol c (ESymbol (Char ch)) = Ret (c', Err e'))).
Context (Htail : forall d c out, R d c out ->
  (exists c' o, finalize d = Ret (Ok (out ++ default [] o)) /\ process_tail c = Ret (c', Ok o)) \/
  (exists e c' e', finalize d = Ret (Err e) /\ process_tail c = Ret (c', Err e'))).

Lemma append_data_spec o (res : B) : exists res', append_data o res = Ok res' /\ as_ref res' = as_ref res ++ default [] o.
Proof using All.
  destruct o as [data|]; cbn; [|exists res; by rewrite app_nil_r].
  destruct (append_slice_total res data) as [res' A]. exists res'. rewrite A. split; [done|]. by apply as_ref_append.
Qed.

Lemma converter_agrees chars d c (res : B) :
  R d c (as_ref res) -> same_octets (decode_loop push finalize chars d) (convert_from (plain_symbols chars) c res).
Proof using All.
  revert d c res. induction chars as [|ch chars IH]; intros d c res HR; unfold convert_from; cbn [decode_loop plain_symbols map convert_loop].
  - destruct (Htail _ _ _ HR) as [(c' & o & -> & ->)|(e & c' & e' & -> & ->)]; [|by eexists _, _].
    destruct (append_data_spec o res) as (res' & -> & Eres). eexists _, _; split_and!; [done..|].
    by rewrite freeze_as_ref.
  - destruct (Hstep _ _ _ ch HR) as [(d' & c' & o & -> & -> & HR')|(d' & e & c' & e' & -> & ->)]; [|by eexists _, _].
    destruct (append_data_spec o res) as (res' & -> & Eres). rewrite <- Eres in HR'. exact (IH _ _ _ HR').
Qed.
End Simulation.

Definition hex_sim (d : HexDecoder B) (c : HexConverter) (out : list Z) : Prop :=
  hd_buf d = (if hc_pending c then Some (hc_buf c) else None) /\ exists t, hd_target d = Ok t /\ as_ref t = out.

Lemma hex_agrees chars : same_octets (hex_decode (B:=B) chars) (convert_symbols (B:=B) (plain_symbols chars) hex_converter_new).
Proof using All.
  apply (converter_agrees hex_push hex_finalize hex_sim).
  - intros [buf target] [cbuf pend] out ch (Eb & t & Et & <-). cbn in Eb, Et. subst. unfold hex_push. cbn.
    destruct (char_to_digit 16 ch) as [v|] eqn:Ev; [|right; by eexists _, _, _, _]. apply hex_digit_range in Ev. left.
    destruct pend; cbn.
    + destruct (append_slice_total t [Z.lor cbuf v]) as [t' A]. rewrite A. cbn. rewrite (as_u8_id v) by ulia.
      eexists _, _, _; split_and!; [done..|]. split; [done|]. exists t'. split; [done|]. by apply as_ref_append.
    + eexists _, _, _; split_and!; [done..|]. split; [done|]. exists t. by rewrite app_nil_r.
  - intros [buf target] [cbuf pend] out (Eb & t & Et & <-). cbn in Eb, Et. subst. unfold hex_finalize. cbn.
    destruct pend; [right; by eexists _, _, _|]. left. eexists _, None. cbn. rewrite freeze_as_ref, app_nil_r. done.
  - split; [done|]. by eexists.
Qed.

Definition b32_sim (d : B32Decoder B) (c : B32Converter) (out : list Z) : Prop :=
  d32_buf d = c32_input c /\ d32_next d = c32_next c /\ 0 <= d32_next d < 8 /\ length (c32_output c) = 5%nat /\
  exists t, d32_target d = Ok t /\ as_ref t = out.

Lemma tbl_get_ascii (t : list Z) ch : length t = 128%nat -> (127 <? ch) = false -> exists v, tbl_get t ch = Ret v.
Proof.
  intros Hl Hc%Z.ltb_ge. unfold tbl_get. destruct (lookup_lt_is_Some_2 t (Z.to_nat ch)) as [v ->]; [lia|]. by exists v.
Qed.

Lemma b32_agrees chars : same_octets (b32_decode (B:=B) chars) (convert_symbols (B:=B) (plain_symbols chars) b32_converter_new).
Proof using All.
  apply (converter_agrees b32_push b32_finalize b32_sim).
  - intros [buf next target] [input cnext output] out ch (E1 & E2 & Hn & Ho & t & Et & <-). cbn in *. subst.
    unfold b32_push, b32_process_char. cbn [d32_buf d32_next d32_target c32_input c32_next c32_output].
    destruct (127 <? ch) eqn:Hc; [right; by eexists _, _, _, _|].
    destruct (tbl_get_ascii B32_DECODE_ALPHABET ch eq_refl Hc) as [val ->].
    destruct (val =? 0xFF); [right; by eexists _, _, _, _|]. left. destruct (Z.leb_spec 8 cnext); [lia|].
    destruct (Z.eqb_spec (cnext + 1) 8).
    + edestruct (append_all_spec t) as (t' & E & Et). rewrite E. eexists _, _, _; split_and!; [done..|].
      split_and!; try done. by exists t'.
    + eexists _, _, _; split_and!; [done..|]. split_and!; try done; [cbn; lia..|]. exists t. by rewrite app_nil_r.
  - intros [buf next target] [input cnext output] out (E1 & E2 & Hn & Ho & t & Et & <-). cbn in *. subst.
    unfold b32_finalize, b32_process_tail. cbn [d32_buf d32_next d32_target c32_input c32_next c32_output].
    assert (Hcases : cnext = 0 \/ (cnext = 1 \/ cnext = 3 \/ cnext = 6) \/ cnext = 2 \/ cnext = 4 \/ cnext = 5 \/ cnext = 7) by lia.
    destruct Hcases as [-> | [[-> | [-> | ->]] | Hcases]].
    + left. eexists _, None. rewrite app_nil_r. cbn. by rewrite freeze_as_ref.
    + right. by eexists _, _, _.
    + right. by eexists _, _, _.
    + right. by eexists _, _, _.
    + left. do 5 (destruct output as [|? output]; [done|]).
      destruct Hcases as [-> | [-> | [-> | ->]]]; cbv iota beta; eexists _, (Some _); cbn [default from_option];
        (split; [|reflexivity]); edestruct (append_all_spec t) as (t' & E & Et); rewrite E; cbn [result_map];
        rewrite freeze_as_ref, Et; reflexivity.
  - split_and!; try done. by eexists.
Qed.

Definition b64_sim (d : B64Decoder B) (c : B64Converter) (out : list Z) : Prop :=
  d64_buf d = c64_input c /\ d64_next d = c64_next c /\ (0 <= d64_next d < 4 \/ d64_next d = EOF_MARKER) /\
  length (c64_output c) = 3%nat /\ exists t, d64_target d = Ok t /\ as_ref t = out.

Lemma b64_val_total next ch : exists v, b64_val next ch = Ret v.
Proof.
  unfold b64_val. destruct (ch =? PAD); [by eexists|]. destruct (127 <? ch) eqn:Hc; [by eexists|].
  destruct (tbl_get_ascii B64_DECODE_ALPHABET ch eq_refl Hc) as [v ->]. by eexists.
Qed.

Lemma b64_agrees chars : same_octets (b64_decode (B:=B) chars) (convert_symbols (B:=B) (plain_symbols chars) b64_converter_new).
Proof using All.
  apply (converter_agrees b64_push b64_finalize b64_sim).
  - intros [buf next target] [input cnext output] out ch (E1 & E2 & Hn & Ho & t & Et & <-). cbn in *. subst.
    unfold b64_push, b64_process_char. cbn [d64_buf d64_next d64_target c64_input c64_next c64_output].
    destruct (Z.eqb_spec cnext EOF_MARKER); [right; by eexists _, _, _, _|]. destruct Hn as [Hn|]; [|done].
    destruct (b64_val_total cnext ch) as [[v|] ->]; [|right; by eexists _, _, _, _].
    destruct (Z.leb_spec 4 cnext); [lia|]. set (buf := <[Z.to_nat cnext:=v]> input). clearbody buf.
    destruct (Z.eqb_spec (cnext + 1) 4).
    + unfold b64_group. destruct (append_slice_total t [b64_octet_0 buf]) as [t1 A1]. rewrite A1.
      destruct (append_slice_total t1 [b64_octet_1 buf]) as [t2 A2], (append_slice_total t2 [b64_octet_2 buf]) as [t3 A3].
      apply as_ref_append in A1 as E1, A2 as E2, A3 as E3. do 3 (destruct output as [|? output]; [done|]). destruct output; [|done].
      destruct (nth 2 buf 0 =? PAD_MARKER), (nth 3 buf 0 =? PAD_MARKER); rewrite ?A2, ?A3;
        [left|right; by eexists _, _, _, _|left|left]; eexists _, _, _; (split_and!; [done..|]);
        (split_and!; [done|done|by (left; cbn; lia) || by right|done|]); cbn; [exists t1|exists t2|exists t3];
        rewrite ?E3, ?E2, ?E1, <- ?app_assoc; done.
    + left. eexists _, _, _; split_and!; [done..|]. split_and!; try done; [cbn; lia|]. exists t. by rewrite app_nil_r.
  - intros [buf next target] [input cnext output] out (E1 & E2 & Hn & Ho & t & Et & <-). cbn in *. subst.
    unfold b64_finalize, b64_process_tail. cbn. destruct (Z.land cnext 15 =? 0); cbn; [left|right; by eexists _, _, _].
    eexists _, None. by rewrite freeze_as_ref, app_nil_r.
  - split_and!; try done; [left; cbn; lia|]. by eexists.
Qed.

(** For text without escapes the symbol converters, which zone file scanners use,
    and the decoders accept the same texts and give the same octets, for all three
    encodings; neither ever panics.  (C31) *)
Theorem converters_equivalent chars :
  same_octets (hex_decode (B:=B) chars) (convert_symbols (B:=B) (plain_symbols chars) hex_converter_new) /\
  same_octets (b32_decode (B:=B) chars) (convert_symbols (B:=B) (plain_symbols chars) b32_converter_new) /\
  same_octets (b64_decode (B:=B) chars) (convert_symbols (B:=B) (plain_symbols chars) b64_converter_new).
Proof using All. split_and!; [apply hex_agrees|apply b32_agrees|apply b64_agrees]. Qed.
End Agree.

Lemma base16_decode_correct_witness :
  hex_decode (B:=list Z) [52; 49; 102; 70] = Ret (Ok [0x41; 0xFF]) /\
  hex_decode (B:=list Z) [52; 49; 102] = Ret (Err DecodeShortInput) /\
  hex_decode (B:=list Z) [52; 103; 104] = Ret (Err (IllegalChar 103)).
Proof. split_and!; rewrite (base16_decode_correct (B:=list Z)); reflexivity. Defined.

Lemma base_encodings_roundtrip_witness :
  exists chars, b64_display [1; 2; 3; 255] = Ret chars /\ b64_decode (B:=list Z) chars = Ret (Ok [1; 2; 3; 255]).
Proof. apply (base_encodings_roundtrip (B:=list Z)). by_decide. Defined.

Lemma converters_equivalent_witness :
  same_octets (b32_decode (B:=list Z) [67; 80; 78; 77]) (convert_symbols (B:=list Z) (plain_symbols [67; 80; 78; 77]) b32_converter_new).
Proof. apply (converters_equivalent (B:=list Z)). Defined.

(** ** A base 64 decoder after an error *)

(** An illegal character leaves no trace in the decoder, so pushing goes on to
    succeed after the error; and after a padded group that is continued, or after
    the target was full, the next character is written behind the buffer: a
    panic. *)
Theorem b64_push_after_error {B} `{OctetsBuilder B} (d : B64Decoder B) ch :
  (127 < ch -> d64_next d <> EOF_MARKER -> b64_push ch d = Ret (d, Err (IllegalChar ch))) /\
  (forall target, d64_next (fst (b64_group [0; 0; PAD_MARKER; 0] target)) = 4) /\
  (d64_next d = 4 -> forall v, b64_val 4 ch = Ret (Some v) -> b64_push ch d = Panic).
Proof.
  split_and!.
  - intros Hc Hn. unfold b64_push. destruct (Z.eqb_spec (d64_next d) EOF_MARKER); [done|]. unfold b64_val.
    destruct (Z.eqb_spec ch PAD); [unfold PAD in *; lia|]. by destruct (Z.ltb_spec 127 ch); [|lia].
  - intros target. unfold b64_group. cbn. by destruct (append_slice target _).
  - intros E v Hv. unfold b64_push. rewrite E. cbn. by rewrite Hv.
Qed.

Example b64_illegal_char_forgotten :
  exists d, b64_push 33 (b64_new : B64Decoder (list Z)) = Ret (d, Err (IllegalChar 33)) /\
    b64_decode (B:=list Z) [90; 103; 61; 61] = Ret (Ok [102]).
Proof. eexists; split; reflexivity. Qed.
