(* ===== verification/CharStr.v ===== *)
(** * Character strings ([src/src/base/charstr.rs])

    A character string is a sequence of at most 255 octets, in wire format behind
    its length; it compares ignoring case.  A [CharStrBuilder] is an octets builder
    that refuses to grow beyond 255 octets.  The file proves that the invariant of
    255 octets is kept by everything that makes a character string, the round trips
    through the wire format and through text, and that the comparisons agree. *)

From S2P Require Import Prelude Octets Symbol.
From stdpp Require Import strings.
#[local] Open Scope Z_scope.

Definition CHARSTR_MAX_LEN : nat := 255.

Record CharStr := mkCharStr { cs_octets : list Z }.

#[export] Instance CharStr_eq_dec : EqDecision CharStr.
Proof. solve_decision. Defined.

Inductive CharStrError := CharStrErr.

(** [FromStrError] with its [PresentationError]. *)
Inductive CharFromStrError :=
  | CsLongString | CsSymbolChars (err : SymbolCharsError) | CsBadSymbol (err : BadSymbol) | CsShortBuf.

Definition cs_empty : CharStr := mkCharStr [].

Definition cs_check_slice (slice : list Z) : result unit CharStrError :=
  if (CHARSTR_MAX_LEN <? length slice)%nat then Err CharStrErr else Ok ().

Definition cs_from_octets (octets : list Z) : result CharStr CharStrError :=
  let? _ := cs_check_slice octets in Ok (mkCharStr octets).

Definition cs_len (s : CharStr) : nat := length (cs_octets s).
Definition cs_is_empty (s : CharStr) : bool := match cs_octets s with [] => true | _ => false end.

(** [Iter::next]. *)
Definition cs_iter_next (octets : list Z) : option (Z * list Z) :=
  match octets with [] => None | res :: octets' => Some (res, octets') end.

(** [IntoIter::next] on the octets and a position. *)
Definition cs_into_iter_next (octets : list Z) (len pos : nat) : outcome (option Z * nat) :=
  if (pos =? len)%nat then Ret (None, pos)
  else match octets !! pos with Some res => Ret (Some res, S pos) | None => Panic end.

(** ** The wire format *)

Section Wire.
Context {P : Type} `{OctetsParser P} {B : Type} `{OctetsBuilder B}.

Definition cs_parse (p : P) : result (CharStr * P) ParseError :=
  let? (len, p) := short (p_parse_u8 p) in
  let? (bytes, p) := short (p_parse_octets p (Z.to_nat len)) in
  Ok (mkCharStr bytes, p).

Definition cs_skip (p : P) : result P ParseError :=
  let? (len, p) := short (p_parse_u8 p) in
  short (p_advance p (Z.to_nat len)).

Definition cs_compose_len (s : CharStr) : outcome Z :=
  if zlen (cs_octets s) + 1 <? 2 ^ 16 then Ret (zlen (cs_octets s) + 1) else Panic.

Definition cs_compose (s : CharStr) (target : B) : outcome (B * bool) :=
  if zlen (cs_octets s) <? 2 ^ 8
  then Ret (compose_seq (u8_compose (zlen (cs_octets s))) (compose_slice (cs_octets s)) target)
  else Panic.
End Wire.

(** ** Comparing *)

Definition cs_eq (a b : CharStr) : bool := eq_ignore_ascii_case (cs_octets a) (cs_octets b).

(** [partial_cmp] and [cmp]. *)
Definition cs_cmp (a b : CharStr) : comparison :=
  iter_cmp (map to_ascii_lowercase (cs_octets a)) (map to_ascii_lowercase (cs_octets b)).

Definition cs_canonical_cmp (a b : CharStr) : comparison :=
  match (cs_len a ?= cs_len b)%nat with Eq => iter_cmp (cs_octets a) (cs_octets b) | c => c end.

(** What [Hash] feeds to the hasher. *)
Definition cs_hash (s : CharStr) : list Z := map to_ascii_lowercase (cs_octets s).

(** ** Text *)

Definition cs_fmt (s : CharStr) : list Z := concat (map (fun ch => symbol_fmt (symbol_display_from_octet ch)) (cs_octets s)).

Definition cs_fmt_quoted (s : CharStr) : list Z :=
  [34] ++ concat (map (fun ch => symbol_fmt (symbol_quoted_from_octet ch)) (cs_octets s)) ++ [34].

Definition cs_fmt_unquoted (s : CharStr) : list Z := concat (map (fun ch => symbol_fmt (symbol_from_octet ch)) (cs_octets s)).

(** [append_from_str]: the target keeps what was appended before an error.  Every
    round takes a character, so the number of characters plus one is enough fuel. *)
Section Text.
Context {B : Type} `{OctetsBuilder B}.

Fixpoint cs_append_loop (fuel : nat) (chars : list Z) (target : B) (len : Z)
    : option (B * result Z CharFromStrError) :=
  match fuel with
  | O => None
  | S fuel' =>
      match symbol_from_chars chars with
      | Err e => Some (target, Err (CsSymbolChars e))
      | Ok None => Some (target, Ok len)
      | Ok (Some (symbol, chars')) =>
          if len =? 255 then Some (target, Err CsLongString)
          else match symbol_into_octet symbol with
               | Err e => Some (target, Err (CsBadSymbol e))
               | Ok octet =>
                   match append_slice target [octet] with
                   | None => Some (target, Err CsShortBuf)
                   | Some target' => cs_append_loop fuel' chars' target' (len + 1)
                   end
               end
      end
  end.

Definition cs_append_from_str (chars : list Z) (target : B) : option (B * result Z CharFromStrError) :=
  cs_append_loop (S (length chars)) chars target 0.
End Text.

(** ** Builders *)

Record CharStrBuilder (B : Type) := mkCsb { csb_builder : B }.
Arguments mkCsb {B} csb_builder.
Arguments csb_builder {B} _.

Section Builder.
Context {B : Type} `{OctetsBuilder B}.

Definition csb_new : CharStrBuilder B := mkCsb builder_empty.

Definition csb_from_builder (builder : B) : result (CharStrBuilder B) CharStrError :=
  if (CHARSTR_MAX_LEN <? length (as_ref builder))%nat then Err CharStrErr else Ok (mkCsb builder).

Definition csb_append_slice (b : CharStrBuilder B) (slice : list Z) : option (CharStrBuilder B) :=
  if (CHARSTR_MAX_LEN <? length (as_ref (csb_builder b)) + length slice)%nat then None
  else option_map mkCsb (append_slice (csb_builder b) slice).

Definition csb_truncate (b : CharStrBuilder B) (len : nat) : CharStrBuilder B :=
  mkCsb (builder_truncate (csb_builder b) len).

Definition csb_finish (b : CharStrBuilder B) : CharStr := mkCharStr (freeze (csb_builder b)).

#[export] Instance csb_octets_builder : OctetsBuilder (CharStrBuilder B) := {|
  builder_empty := csb_new;
  as_ref b := as_ref (csb_builder b);
  append_slice := csb_append_slice;
  set_octet b i v := mkCsb (set_octet (csb_builder b) i v);
  builder_truncate := csb_truncate;
  freeze b := freeze (csb_builder b)
|}.

Definition cs_from_str (chars : list Z) : option (result CharStr CharFromStrError) :=
  match cs_append_from_str chars csb_new with
  | None => None
  | Some (builder, r) => Some (let? _ := r in Ok (csb_finish builder))
  end.
End Builder.

(** ** The invariant *)

Definition cs_wf (s : CharStr) : Prop := (cs_len s <= CHARSTR_MAX_LEN)%nat /\ wf_octets (cs_octets s).

Section CharStrCorrect.
Context {B : Type} `{OctetsBuilderOk B}.

(** A character string builder keeps the promises of octets builders. *)
#[export] Instance csb_octets_builder_ok : OctetsBuilderOk (CharStrBuilder B).
Proof.
  split; cbn.
  - apply as_ref_empty.
  - intros b b' s. unfold csb_append_slice. destruct (_ <? _)%nat; [done|].
    destruct (append_slice (csb_builder b) s) eqn:E; [|done]. intros [= <-]. by apply as_ref_append in E.
  - intros b i v Hi. by apply as_ref_set_octet.
  - intros b n. apply as_ref_truncate.
  - intros b. apply freeze_as_ref.
Qed.

(** What a text stands for: its symbols, the octets they stand for, at most
    [room] of them. *)
Definition text_octets (chars : list Z) (room : Z) (os : list Z) : Prop :=
  exists syms, symbols_all chars = (syms, Ok []) /\
    Forall2 (fun sym o => symbol_into_octet sym = Ok o) syms os /\ zlen os <= room.

Lemma text_octets_nil room os : 0 <= room -> text_octets [] room os <-> os = [].
Proof.
  intros Hr. unfold text_octets. rewrite symbols_all_nil. split.
  - intros (syms & [= <-] & Hf & _). by apply Forall2_nil_inv_l in Hf.
  - intros ->. exists []. split_and!; [done|constructor|unfold zlen; simpl; lia].
Qed.

Lemma text_octets_cons chars sym rest room os :
  symbol_from_chars chars = Ok (Some (sym, rest)) ->
  text_octets chars room os <->
  exists o os', os = o :: os' /\ symbol_into_octet sym = Ok o /\ text_octets rest (room - 1) os'.
Proof.
  intros E. unfold text_octets. rewrite (symbols_all_cons _ _ _ E). destruct (symbols_all rest) as [syms' st]; cbn.
  split.
  - intros (syms & [= <- ->] & Hf & Hl). apply Forall2_cons_inv_l in Hf as (o & os' & Ho & Hf & ->).
    exists o, os'. split_and!; [done..|]. exists syms'. split_and!; [done..|]. unfold zlen in *; simpl in *; lia.
  - intros (o & os' & -> & Ho & syms & [= -> ->] & Hf & Hl). exists (sym :: syms).
    split_and!; [done|by constructor|]. unfold zlen in *; simpl in *; lia.
Qed.

Lemma cs_append_loop_spec `{!InfallibleBuilder B} fuel chars (b : B) len :
  (length chars < fuel)%nat -> len = zlen (as_ref b) -> len <= 255 ->
  exists b' r, cs_append_loop fuel chars (mkCsb b) len = Some (mkCsb b', r) /\
    match r with
    | Ok _ => exists os, text_octets chars (255 - len) os /\ as_ref b' = as_ref b ++ os
    | Err _ => forall os, ~ text_octets chars (255 - len) os
    end.
Proof using All.
  revert chars b len. induction fuel as [|fuel IH]; intros chars b len Hf Hl Hle; [lia|]. cbn [cs_append_loop].
  destruct (symbol_from_chars chars) as [[[sym rest]|]|e] eqn:E.
  - destruct (Z.eqb_spec len 255).
    { eexists _, _; split; [done|]. intros os Ht. apply (text_octets_cons _ _ _ _ _ E) in Ht as (o & os' & -> & _ & _ & _ & _ & Hz).
      unfold zlen in Hz. lia. }
    destruct (symbol_into_octet sym) as [o|e] eqn:Eo.
    2: { eexists _, _; split; [done|]. intros os Ht. apply (text_octets_cons _ _ _ _ _ E) in Ht as (o & os' & _ & Ho & _). congruence. }
    cbn [append_slice csb_octets_builder]. unfold csb_append_slice; cbn [csb_builder length].
    destruct (Nat.ltb_spec CHARSTR_MAX_LEN (length (as_ref b) + 1)) as [Hm|Hm]; [unfold CHARSTR_MAX_LEN, zlen in *; lia|].
    destruct (append_slice_total b [o]) as [b1 A1]. rewrite A1. cbn [option_map]. apply as_ref_append in A1.
    apply symbol_from_chars_shorter in E as Hs.
    destruct (IH rest b1 (len + 1)) as (b' & r & -> & Hr); [lia|rewrite A1; unfold zlen in *; rewrite length_app; simpl; lia|lia|].
    eexists _, _; split; [done|]. replace (255 - (len + 1)) with (255 - len - 1) in Hr by lia. destruct r as [m|e].
    + destruct Hr as (os & Ht & Eb). exists (o :: os). split; [apply (text_octets_cons _ _ _ _ _ E); eauto 6|].
      by rewrite Eb, A1, <- app_assoc.
    + intros os Ht. apply (text_octets_cons _ _ _ _ _ E) in Ht as (o' & os' & -> & Ho' & Ht). by apply (Hr os').
  - eexists _, _; split; [done|]. destruct chars as [|ch chars]; [|simpl in E; repeat case_match; simplify_eq].
    exists []. rewrite app_nil_r. split; [|done]. apply text_octets_nil; [lia|done].
  - eexists _, _; split; [done|]. intros os (syms & Es & _). unfold symbols_all in Es. cbn in Es. rewrite E in Es. done.
Qed.

(** The symbols written for octets stand for these. *)
Lemma text_octets_fmt (f : Z -> Symbol) s room :
  (forall b, is_u8 b -> wf_symbol (f b) /\ symbol_into_octet (f b) = Ok b) -> wf_octets s -> zlen s <= room ->
  text_octets (concat (map (fun ch => symbol_fmt (f ch)) s)) room s.
Proof.
  intros Hf Hs Hl. exists (map f s). rewrite <- (map_map f symbol_fmt). split_and!; [|..|done].
  - apply symbols_all_fmt, Forall_map. eapply Forall_impl; [exact Hs|]. intros b Hb. by apply Hf.
  - apply Forall2_fmap_l, Forall_Forall2_diag. eapply Forall_impl; [exact Hs|]. intros b Hb. by apply Hf.
Qed.

Lemma text_octets_fun chars room os os' : text_octets chars room os -> text_octets chars room os' -> os = os'.
Proof.
  intros (syms & E & Hf & _) (syms' & E' & Hf' & _). rewrite E in E'. injection E' as <-. clear E.
  revert os' Hf'. induction Hf as [|sym o syms os Ho Hf IH]; intros os' Hf'.
  - by apply Forall2_nil_inv_l in Hf'.
  - apply Forall2_cons_inv_l in Hf' as (o' & os2 & Ho' & Hf' & ->). f_equal; [congruence|by apply IH].
Qed.

Lemma cs_from_str_spec `{!InfallibleBuilder B} chars :
  exists r, cs_from_str (B:=B) chars = Some r /\ forall s, r = Ok s <-> text_octets chars 255 (cs_octets s).
Proof using All.
  unfold cs_from_str, cs_append_from_str, csb_new.
  destruct (cs_append_loop_spec (S (length chars)) chars builder_empty 0) as (b' & r & -> & Hr);
    [lia|by rewrite as_ref_empty|lia|].
  rewrite as_ref_empty in Hr. destruct r as [n|e]; (eexists; split; [done|]); intros s.
  - destruct Hr as (os & Ht & Eb). unfold csb_finish; cbn [csb_builder]. rewrite freeze_as_ref, Eb. cbn [app]. split.
    + intros [= <-]. done.
    + intros Ht'. destruct s as [s]. by rewrite (text_octets_fun _ _ _ _ Ht Ht').
  - split; [done|]. intros Ht. by apply Hr in Ht.
Qed.

(** Reading a character string from text ends, succeeds exactly if the text is a
    sequence of symbols that stand for at most 255 octets, and gives these octets;
    reading back the text a character string is displayed as gives the string. *)
Theorem charstr_text_correct `{!InfallibleBuilder B} :
  (forall chars, exists r, cs_from_str (B:=B) chars = Some r /\
     forall s, r = Ok s <-> text_octets chars 255 (cs_octets s)) /\
  (forall s, cs_wf s -> cs_from_str (B:=B) (cs_fmt s) = Some (Ok s) /\ cs_from_str (B:=B) (cs_fmt_unquoted s) = Some (Ok s)).
Proof using All.
  split; [apply cs_from_str_spec|]. intros s [Hl Hs]. unfold cs_len, CHARSTR_MAX_LEN in Hl.
  split; [destruct (cs_from_str_spec (cs_fmt s)) as (r & -> & Hr)|destruct (cs_from_str_spec (cs_fmt_unquoted s)) as (r & -> & Hr)];
    f_equal; apply Hr, text_octets_fmt; try done; try (unfold zlen; lia); intros b Hb;
    apply symbol_for_octet in Hb as ((? & ? & _) & _ & ? & ?); done.
Qed.

(** ** The wire format *)

Definition cs_wire (s : CharStr) : list Z := zlen (cs_octets s) :: cs_octets s.

Lemma cs_compose_spec s (b : B) :
  cs_wf s -> exists r, cs_compose s b = Ret r /\
    if r.2 then as_ref r.1 = as_ref b ++ cs_wire s else exists p, p `prefix_of` cs_wire s /\ as_ref r.1 = as_ref b ++ p.
Proof using All.
  intros [Hl _]. unfold cs_len, CHARSTR_MAX_LEN in Hl. unfold cs_compose.
  destruct (Z.ltb_spec (zlen (cs_octets s)) (2 ^ 8)); [|unfold zlen in *; lia]. eexists; split; [done|].
  destruct (compose_seq _ _ b) as [b' ok] eqn:E.
  exact (compose_seq_spec _ _ _ _ (compose_slice_spec [zlen (cs_octets s)]) (compose_slice_spec (cs_octets s)) _ _ _ E).
Qed.

Context {P : Type} `{OctetsParserOk P}.

Lemma cs_parse_wire s : Parses (P:=P) cs_parse (cs_wire s) s.
Proof.
  destruct s as [s]. change (cs_wire (mkCharStr s)) with ([zlen s] ++ s). unfold cs_parse.
  eapply Parses_bind; [apply Parses_u8|]. unfold zlen. rewrite Nat2Z.id. apply (Parses_map _ mkCharStr), Parses_octets.
Qed.

(** [skip] moves the parser to where [parse] moves it. *)
Lemma cs_skip_wire s (p : P) t :
  p_rest p = cs_wire s ++ t -> exists p', cs_skip p = Ok p' /\ moved p p' (p_pos p + length (cs_wire s)).
Proof.
  intros E. destruct s as [s]; unfold cs_wire in *; cbn [cs_octets] in *.
  destruct (parse_u8_prefix p _ _ E) as (p1 & E1 & Hm1 & R1).
  destruct (advance_prefix p1 s t R1) as (p2 & E2 & Hm2 & _).
  unfold cs_skip. rewrite E1; cbn [short ok_or]. unfold zlen. rewrite Nat2Z.id, E2. exists p2. split; [done|].
  replace (p_pos p + length _)%nat with (p_pos p1 + length s)%nat by (rewrite (proj2 (proj2 Hm1)); simpl; lia).
  by apply (moved_trans p p1 p2 _ _ Hm1).
Qed.

Lemma cs_short s (p : P) u :
  p_rest p ++ u = cs_wire s -> u <> [] -> cs_parse p = Err PShortInput /\ cs_skip p = Err PShortInput.
Proof.
  intros E Hu. unfold cs_parse, cs_skip. destruct (p_rest p) as [|n r] eqn:R.
  - rewrite (p_parse_u8_short p); [done|]. by rewrite <- p_rest_length, R.
  - unfold cs_wire in E. injection E as -> E. destruct (parse_u8_prefix p _ _ R) as (p1 & -> & _ & R1).
    cbn [short ok_or]. assert (p_remaining p1 < Z.to_nat (zlen (cs_octets s)))%nat.
    { rewrite <- p_rest_length, R1, <- E. unfold zlen. rewrite length_app. destruct u; [done|simpl; lia]. }
    by rewrite p_parse_octets_short, p_advance_short.
Qed.

(** What [compose] writes on a target that cannot fail is the length followed by
    the octets, of the length [compose_len] announces; [parse] reads it back as the
    same string, leaving what follows, [skip] moves to the same place, and [parse]
    on a shorter input is an error. *)
Theorem charstr_wire_roundtrip `{!InfallibleBuilder B} s (b : B) :
  cs_wf s ->
  exists b' w, cs_compose s b = Ret (b', true) /\ as_ref b' = as_ref b ++ w /\ cs_compose_len s = Ret (zlen w) /\
    (forall (p : P) t, p_rest p = w ++ t ->
       exists p1 p2, cs_parse p = Ok (s, p1) /\ cs_skip p = Ok p2 /\
         moved p p1 (p_pos p + length w) /\ moved p p2 (p_pos p + length w)) /\
    (forall (p : P) u, p_rest p ++ u = w -> u <> [] -> cs_parse p = Err PShortInput /\ cs_skip p = Err PShortInput).
Proof using All.
  intros Hwf. destruct (cs_compose_spec s b Hwf) as ([b' ok] & E & Ha). exists b', (cs_wire s). cbn in Ha.
  assert (ok = true) as ->.
  { unfold cs_compose in E. destruct (_ <? _); [|done]. injection E as E.
    destruct (compose_seq_total _ _ (compose_slice_total [zlen (cs_octets s)]) (compose_slice_total (cs_octets s)) b)
      as [b1 E1]. unfold u8_compose in E. rewrite E1 in E. congruence. }
  destruct Hwf as [Hl _]. unfold cs_len, CHARSTR_MAX_LEN in Hl.
  split_and!; [done|done| | |].
  - unfold cs_compose_len, cs_wire, zlen. destruct (Z.ltb_spec (Z.of_nat (length (cs_octets s)) + 1) (2 ^ 16)); [|lia].
    f_equal. simpl. lia.
  - intros p t R. destruct (cs_parse_wire s p t R) as (p1 & E1 & M1 & _). destruct (cs_skip_wire s p t R) as (p2 & E2 & M2).
    by exists p1, p2.
  - intros p u R Hu. by apply (cs_short s p u).
Qed.
End CharStrCorrect.

Lemma charstr_text_correct_witness :
  InfallibleBuilder (list Z) /\
  (exists r, cs_from_str (B:=list Z) [92; 48; 48; 49; 97] = Some r /\
     forall s, r = Ok s <-> text_octets [92; 48; 48; 49; 97] 255 (cs_octets s)) /\
  cs_from_str (B:=list Z) (cs_fmt (mkCharStr [1; 34; 92; 255])) = Some (Ok (mkCharStr [1; 34; 92; 255])).
Proof.
  split; [apply _|]. destruct (charstr_text_correct (B:=list Z)) as [H1 H2]. split; [apply H1|].
  apply H2. split; by_decide.
Defined.

Lemma charstr_wire_roundtrip_witness :
  cs_wf (mkCharStr [1; 2]) /\
  exists b' w, cs_compose (mkCharStr [1; 2]) [7] = Ret (b', true) /\ as_ref b' = [7] ++ w /\
    cs_compose_len (mkCharStr [1; 2]) = Ret (zlen w) /\
    exists p1, cs_parse (SliceParser [2; 1; 2; 9] 0) = Ok (mkCharStr [1; 2], p1).
Proof.
  assert (cs_wf (mkCharStr [1; 2])) as Hwf by (split; by_decide). split; [exact Hwf|].
  destruct (charstr_wire_roundtrip (B:=list Z) (P:=slice_parser) (mkCharStr [1; 2]) [7] Hwf) as (b' & w & E & Ew & El & Hp & _).
  exists b', w. split_and!; [exact E|exact Ew|exact El|]. eexists. reflexivity.
Defined.

(** ** Comparisons *)

Section Comparisons.

(** Equality is equality of the octets in lower case, it is what the total order
    calls equal, and equal strings hash alike; the order is antisymmetric and
    transitive; the canonical order, which is case-sensitive, is the order of the
    wire formats. *)
Theorem charstr_order_consistent a b c :
  (cs_eq a b = true <-> cs_cmp a b = Eq) /\ (cs_eq a b = true <-> cs_hash a = cs_hash b) /\
  cs_cmp b a = CompOpp (cs_cmp a b) /\ (cs_cmp a b = Lt -> cs_cmp b c = Lt -> cs_cmp a c = Lt) /\
  cs_canonical_cmp a b = iter_cmp (cs_wire a) (cs_wire b).
Proof.
  unfold cs_eq, cs_cmp, cs_hash. rewrite iter_cmp_eq. split_and!.
  - apply eq_ignore_ascii_case_spec.
  - apply eq_ignore_ascii_case_spec.
  - apply iter_cmp_opp.
  - apply iter_cmp_lt_trans.
  - unfold cs_canonical_cmp, cs_wire, cs_len, zlen; cbn [iter_cmp]. rewrite <- Nat2Z.inj_compare.
    by destruct (length (cs_octets a) ?= length (cs_octets b))%nat.
Qed.
End Comparisons.

(** A character string builder over any octets builder never holds more than 255
    octets: the constructors and operations keep the bound. *)
Lemma csb_bounded {B} `{OctetsBuilderOk B} :
  (length (as_ref (csb_new (B:=B))) <= CHARSTR_MAX_LEN)%nat /\
  (forall (b : CharStrBuilder B) s b', append_slice b s = Some b' -> (length (as_ref b') <= CHARSTR_MAX_LEN)%nat) /\
  (forall (b : CharStrBuilder B) n, (length (as_ref b) <= CHARSTR_MAX_LEN)%nat ->
     (length (as_ref (builder_truncate b n)) <= CHARSTR_MAX_LEN)%nat) /\
  (forall (b : B) c, csb_from_builder b = Ok c -> (length (as_ref c) <= CHARSTR_MAX_LEN)%nat).
Proof.
  split_and!.
  - change (as_ref (csb_new (B:=B))) with (as_ref (builder_empty : B)). rewrite as_ref_empty. simpl. lia.
  - intros b s b' E. pose proof (as_ref_append b b' s E) as ->. cbn in E. unfold csb_append_slice in E.
    cbn [as_ref csb_octets_builder]. rewrite length_app. destruct (Nat.ltb_spec CHARSTR_MAX_LEN (length (as_ref (csb_builder b)) + length s)); [done|lia].
  - intros b n Hb. rewrite as_ref_truncate, length_take. lia.
  - intros b c. unfold csb_from_builder. destruct (Nat.ltb_spec CHARSTR_MAX_LEN (length (as_ref b))); [done|].
    intros [= <-]. done.
Qed.
