(* ===== verification/Label.v ===== *)
(** * Domain name labels ([src/src/base/name/label.rs])

    A [Label] is the list of its content octets, at most 63 of them.  The file
    models creating and splitting off labels, the comparisons that ignore ASCII
    case, composing, display, the 64 octet [OwnedLabel] buffer with its parser
    of the presentation format, and the [SliceLabelsIter]. *)

From S2P Require Import Prelude Octets Symbol.
From stdpp Require Import strings.
#[local] Open Scope Z_scope.

Definition LABEL_MAX_LEN : nat := 63.

Inductive LabelTypeError := Undefined | Extended (value : Z).
Inductive LongLabelError := LongLabelErr.
Inductive SplitLabelError :=
  | SPointer (pos : Z)
  | SBadType (e : LabelTypeError)
  | SShortInput.

#[export] Instance LabelTypeError_eq_dec : EqDecision LabelTypeError.
Proof. solve_decision. Defined.
#[export] Instance SplitLabelError_eq_dec : EqDecision SplitLabelError.
Proof. solve_decision. Defined.

(** [From<SplitLabelError> for ParseError]. *)
Definition split_error_to_parse (e : SplitLabelError) : ParseError :=
  match e with
  | SPointer _ => parse_form_error "compressed domain name"
  | SBadType _ => parse_form_error "invalid label type"
  | SShortInput => PShortInput
  end.

Definition label_root : list Z := [].
Definition label_wildcard : list Z := [42].

Definition label_from_slice (s : list Z) : result (list Z) LongLabelError :=
  if (LABEL_MAX_LEN <? length s)%nat then Err LongLabelErr else Ok s.

(** [Label::split_from]: the first label of a slice and the rest. *)
Definition label_split_from (s : list Z) : result (list Z * list Z) SplitLabelError :=
  match s !! 0%nat with
  | None => Err SShortInput
  | Some head =>
      let? stop :=
        (if (0 <=? head) && (head <=? 0x3F) then Ok (Z.to_nat head + 1)%nat
         else if (0x40 <=? head) && (head <=? 0x7F) then Err (SBadType (Extended head))
         else if (0xC0 <=? head) && (head <=? 0xFF) then
           match s !! 1%nat with
           | None => Err SShortInput
           | Some ch => Err (SPointer (Z.lor ch (Z.shiftl (Z.land head 0x3F) 8)))
           end
         else Err (SBadType Undefined)) in
      if (length s <? stop)%nat then Err SShortInput
      else Ok (drop 1 (take stop s), drop stop s)
  end.

(** [Label::split_from_mut] on a mutable slice: the same cut, made with
    [split_at_mut]. *)
Definition label_split_from_mut (s : list Z) : result (list Z * list Z) SplitLabelError :=
  match s !! 0%nat with
  | None => Err SShortInput
  | Some head =>
      let? stop :=
        (if (0 <=? head) && (head <=? 0x3F) then Ok (Z.to_nat head + 1)%nat
         else if (0x40 <=? head) && (head <=? 0x7F) then Err (SBadType (Extended head))
         else if (0xC0 <=? head) && (head <=? 0xFF) then
           match s !! 1%nat with
           | None => Err SShortInput
           | Some ch => Err (SPointer (Z.lor ch (Z.shiftl (Z.land head 0x3F) 8)))
           end
         else Err (SBadType Undefined)) in
      if (length s <? stop)%nat then Err SShortInput
      else let left := take stop s in
           let right := drop stop s in
           Ok (drop 1 left, right)
  end.

Definition label_make_canonical (l : list Z) : list Z := map to_ascii_lowercase l.

(** [Label::make_slice_canonical]: walks the slice label by label; [expect]
    panics on an invalid name. *)
Fixpoint label_make_slice_canonical (fuel : nat) (s : list Z) : outcome (list Z) :=
  match fuel with
  | O => Ret s
  | S fuel' =>
      match s with
      | [] => Ret []
      | head :: _ =>
          match label_split_from_mut s with
          | Ok (l, tail) =>
              let! tail' := label_make_slice_canonical fuel' tail in
              Ret (head :: label_make_canonical l ++ tail')
          | Err _ => Panic
          end
      end
  end.

Definition label_composed_cmp (a b : list Z) : comparison :=
  match Nat.compare (length a) (length b) with
  | Eq => iter_cmp a b
  | other => other
  end.

(** [Ord for Label]. *)
Definition label_cmp (a b : list Z) : comparison :=
  iter_cmp (map to_ascii_lowercase a) (map to_ascii_lowercase b).

Definition label_lowercase_composed_cmp (a b : list Z) : comparison :=
  match Nat.compare (length a) (length b) with
  | Eq => label_cmp a b
  | other => other
  end.

(** [PartialEq for Label]. *)
Definition label_eq (a b : list Z) : bool := eq_ignore_ascii_case a b.

(** [Hash for Label]: the octets fed to the hasher. *)
Definition label_hash (l : list Z) : list Z := as_u8 (zlen l) :: map to_ascii_lowercase l.

Section LabelCompose.
Context {B : Type} `{OctetsBuilder B}.

Definition label_compose (l : list Z) : composer B :=
  compose_seq (compose_slice [as_u8 (zlen l)]) (compose_slice l).

Definition label_compose_canonical (l : list Z) : composer B :=
  compose_seq (compose_slice [as_u8 (zlen l)])
              (compose_each (fun ch => compose_slice [to_ascii_lowercase ch]) l).
End LabelCompose.

Definition label_len (l : list Z) : nat := length l.
Definition label_is_root (l : list Z) : bool := (length l =? 0)%nat.
Definition label_is_wildcard (l : list Z) : bool :=
  (length l =? 1)%nat && match l !! 0%nat with Some c => c =? 42 | None => false end.

(** [u16::try_from(self.len()).expect("long label") + 1]. *)
Definition label_compose_len (l : list Z) : outcome Z :=
  if zlen l <? 2 ^ 16 then
    if zlen l + 1 <? 2 ^ 16 then Ret (zlen l + 1) else Panic
  else Panic.

(** [Display for Label]. *)
Definition label_fmt_octet (ch : Z) : list Z :=
  if (ch =? 32) || (ch =? 46) || (ch =? 92) then [92; ch]
  else if negb (is_printable ch) then 92 :: fmt_03 ch
  else [ch].

Definition label_fmt (l : list Z) : list Z := concat (map label_fmt_octet l).

(** ** Reading labels: errors and escapes ([builder.rs]) *)

Inductive LabelFromStrError :=
  | LSymbolChars (e : SymbolCharsError)
  | LBadSymbol (e : BadSymbol)
  | LBinaryLabel
  | LLongLabel.

#[export] Instance LabelFromStrError_eq_dec : EqDecision LabelFromStrError.
Proof. solve_decision. Defined.

(** [parse_escape]: the characters after a backslash. *)
Definition parse_escape (chars : list Z) (in_label : bool)
    : result (Z * list Z) LabelFromStrError :=
  match chars with
  | [] => Err (LSymbolChars ShortInput)
  | ch :: rest =>
      if is_ascii_digit ch then
        let? (d2, rest) := map_err LSymbolChars (next_digit rest) in
        let? (d3, rest) := map_err LSymbolChars (next_digit rest) in
        let v := (ch - 48) * 100 + d2 * 10 + d3 in
        if 255 <? v then Err (LSymbolChars BadEscape) else Ok (as_u8 v, rest)
      else if ch =? 91 then
        if in_label then Ok (91, rest) else Err LBinaryLabel
      else Ok (as_u8 ch, rest)
  end.

(** ** [OwnedLabel]: a buffer of 64 octets, the first one the length *)

Definition owned_from_label (l : list Z) : outcome (list Z) :=
  let res := replicate 64 0 in
  let res := <[0%nat := as_u8 (zlen l)]> res in
  if (length l <=? 63)%nat
  then Ret (take 1 res ++ l ++ drop (1 + length l) res) else Panic.

Definition owned_len (res : list Z) : nat := Z.to_nat (default 0 (res !! 0%nat)).

(** The octet for a character, which may start an escape sequence. *)
Definition owned_octet (ch : Z) (chars : list Z) (in_label : bool)
    : result (Z * list Z) LabelFromStrError :=
  if ((32 <=? ch) && (ch <=? 45)) || ((47 <=? ch) && (ch <=? 91))
       || ((93 <=? ch) && (ch <=? 126))
  then Ok (ch, chars)
  else if ch =? 92 then parse_escape chars in_label
  else Err (LBadSymbol NonAscii).

(** [OwnedLabel::from_chars]: [fuel] bounds the number of characters. *)
Fixpoint owned_from_chars_loop (fuel : nat) (chars res : list Z)
    : result (list Z) LabelFromStrError :=
  match fuel with
  | O => Ok res
  | S fuel' =>
      match chars with
      | [] => Ok res
      | ch :: chars =>
          if (LABEL_MAX_LEN <=? owned_len res)%nat then Err LLongLabel
          else
            let? (b, chars) := owned_octet ch chars (0 <? owned_len res)%nat in
            let res := <[(owned_len res + 1)%nat := b]> res in
            let res := <[0%nat := Z.of_nat (owned_len res) + 1]> res in
            owned_from_chars_loop fuel' chars res
      end
  end.

Definition owned_from_chars (chars : list Z) : result (list Z) LabelFromStrError :=
  owned_from_chars_loop (length chars) chars (replicate 64 0).

Definition owned_make_canonical (res : list Z) : list Z :=
  take 1 res ++ map to_ascii_lowercase (drop 1 res).

Definition owned_as_label (res : list Z) : list Z := take (owned_len res) (drop 1 res).

Definition owned_as_wire_slice (res : list Z) : list Z := take (owned_len res + 1) res.

(** ** [SliceLabelsIter] *)

Definition USIZE_MAX : Z := 2 ^ 64 - 1.

Record SliceLabelsIter := mkSliceIter { sli_slice : list Z; sli_start : Z }.

Definition label_iter_slice (s : list Z) (start : nat) : SliceLabelsIter :=
  mkSliceIter s (Z.of_nat start).

(** The [loop] of [SliceLabelsIter::next]; [None] is a loop that has not ended
    within [fuel] rounds. *)
Fixpoint slice_iter_loop (fuel : nat) (it : SliceLabelsIter)
    : option (option (list Z) * SliceLabelsIter) :=
  match fuel with
  | O => None
  | S fuel' =>
      let s := sli_slice it in
      match label_split_from (drop (Z.to_nat (sli_start it)) s) with
      | Ok (l, _) =>
          if label_is_root l then Some (Some l, mkSliceIter s USIZE_MAX)
          else Some (Some l, mkSliceIter s (sli_start it + zlen l + 1))
      | Err (SPointer pos) =>
          if sli_start it <? pos then Some (None, mkSliceIter s USIZE_MAX)
          else slice_iter_loop fuel' (mkSliceIter s pos)
      | Err _ => Some (None, mkSliceIter s USIZE_MAX)
      end
  end.

Definition slice_iter_next (fuel : nat) (it : SliceLabelsIter)
    : option (option (list Z) * SliceLabelsIter) :=
  if zlen (sli_slice it) <=? sli_start it then Some (None, it)
  else slice_iter_loop fuel it.

(** ** Specification *)

Definition wf_label (l : list Z) : Prop := (length l <= LABEL_MAX_LEN)%nat /\ wf_octets l.

#[export] Instance wf_label_dec l : Decision (wf_label l).
Proof. unfold wf_label; apply _. Defined.

(** The wire format of a label. *)
Definition label_wire (l : list Z) : list Z := zlen l :: l.

(** The wire format of a sequence of labels. *)
Definition labels_wire (ls : list (list Z)) : list Z := concat (map label_wire ls).

(** The whole slice in canonical form; every round takes an octet. *)
Definition slice_canonical (s : list Z) : outcome (list Z) :=
  label_make_slice_canonical (length s) s.

Lemma zlen_label_u8 (l : list Z) : (length l <= LABEL_MAX_LEN)%nat -> as_u8 (zlen l) = zlen l.
Proof. intros H. unfold LABEL_MAX_LEN in H. unfold as_u8, zlen. apply Z.mod_small. lia. Qed.

Lemma label_split_from_mut_eq s : label_split_from_mut s = label_split_from s.
Proof. reflexivity. Qed.

(** Splitting succeeds exactly on slices that start with a label. *)
Lemma label_split_from_ok s l t :
  label_split_from s = Ok (l, t) <->
  s = label_wire l ++ t /\ (length l <= LABEL_MAX_LEN)%nat.
Proof.
  unfold LABEL_MAX_LEN. destruct s as [|h s]; [by split; [|intros [? _]]|].
  unfold label_split_from, label_wire, zlen; simpl lookup; cbv iota.
  split.
  - intros E. destruct ((0 <=? h) && (h <=? 63)) eqn:Eh.
    2: { repeat case_match; discriminate. }
    breflect. destruct (Nat.ltb_spec (length (h :: s)) (Z.to_nat h + 1)) as [|Hl]; [done|].
    simpl length in Hl. injection E as <- <-.
    replace (Z.to_nat h + 1)%nat with (S (Z.to_nat h)) by lia. simpl.
    rewrite drop_0, length_take_le by lia. rewrite Z2Nat.id, take_drop by lia. auto with lia.
  - intros [[= -> ->] Hl].
    destruct (Z.leb_spec 0 (Z.of_nat (length l))), (Z.leb_spec (Z.of_nat (length l)) 63); try lia.
    simpl andb; cbv iota.
    rewrite Nat2Z.id. replace (length l + 1)%nat with (S (length l)) by lia.
    destruct (Nat.ltb_spec (length (Z.of_nat (length l) :: l ++ t)) (S (length l))) as [Hlt|].
    { simpl in Hlt; rewrite length_app in Hlt; lia. }
    simpl. by rewrite drop_0, take_app_length, drop_app_length.
Qed.

Lemma label_split_from_wire l t :
  (length l <= LABEL_MAX_LEN)%nat -> label_split_from (label_wire l ++ t) = Ok (l, t).
Proof. intros. by apply label_split_from_ok. Qed.

Lemma label_split_from_nil : label_split_from [] = Err SShortInput.
Proof. reflexivity. Qed.

Lemma label_split_from_shorter s l t :
  label_split_from s = Ok (l, t) -> (length t < length s)%nat.
Proof. intros [-> _]%label_split_from_ok. simpl; rewrite length_app; lia. Qed.

(** A compression pointer has the value of its low 14 bits. *)
Lemma label_split_from_pointer s pos :
  wf_octets s ->
  label_split_from s = Err (SPointer pos) <->
  exists h c t, s = h :: c :: t /\ 0xC0 <= h /\ pos = (h - 0xC0) * 2 ^ 8 + c.
Proof.
  intros Hs. unfold label_split_from.
  destruct s as [|h s]; [by split; [|intros (?&?&?&?&_)]|]. simpl lookup; cbv iota.
  apply Forall_uncons in Hs as [Hh Hs]. unfold is_u8 in Hh.
  assert (Hbits : 0xC0 <= h -> forall c, is_u8 c ->
    Z.lor c (Z.shiftl (Z.land h 0x3F) 8) = (h - 0xC0) * 2 ^ 8 + c).
  { intros H c Hc. change 0x3F with (Z.ones 6). rewrite Z.land_ones by lia.
    rewrite Z.lor_comm, lor_shiftl_add by done.
    pose proof (Z.div_mod h (2 ^ 6)). pose proof (Z.mod_pos_bound h (2 ^ 6)). lia. }
  destruct ((0 <=? h) && (h <=? 63)) eqn:E1; [|destruct ((64 <=? h) && (h <=? 127)) eqn:E2;
    [|destruct ((192 <=? h) && (h <=? 255)) eqn:E3]].
  - split; [by case_match|]. intros (? & ? & ? & [= <- _] & ? & _). breflect; lia.
  - split; [done|]. intros (? & ? & ? & [= <- _] & ? & _). breflect; lia.
  - breflect. destruct s as [|c s]; simpl; [split; [done|]; by intros (?&?&?&[=]&_)|].
    apply Forall_uncons in Hs as [Hc Hs]. rewrite Hbits by done. split.
    + intros [= <-]. exists h, c, s. auto with lia.
    + intros (? & ? & ? & [= <- <- <-] & _ & ->). done.
  - split; [done|]. intros (? & ? & ? & [= <- _] & ? & _).
    destruct (Z.leb_spec 192 h), (Z.leb_spec h 255); done || lia.
Qed.

(** [split_from] is the inverse of composing: it returns a label exactly for
    the slices that start with its wire format, a pointer exactly for two
    octets of the form 0b11..., and the pointer's target is 14 bits. *)
Theorem label_split_from_correct s :
  wf_octets s ->
  (forall l t, label_split_from s = Ok (l, t) <->
     s = label_wire l ++ t /\ (length l <= LABEL_MAX_LEN)%nat) /\
  (forall pos, label_split_from s = Err (SPointer pos) <->
     exists h c t, s = h :: c :: t /\ 0xC0 <= h /\ pos = (h - 0xC0) * 2 ^ 8 + c) /\
  (forall pos, label_split_from s = Err (SPointer pos) -> 0 <= pos < 2 ^ 14).
Proof.
  intros Hs. split; [apply label_split_from_ok|]. split; [intros; by apply label_split_from_pointer|].
  intros pos Hp. apply label_split_from_pointer in Hp as (h & c & t & -> & Hh & ->); [|done].
  apply Forall_uncons in Hs as [? Hs]. apply Forall_uncons in Hs as [? Hs]. ulia.
Qed.

Lemma label_split_from_correct_witness :
  label_split_from [3; 119; 119; 119; 0] = Ok ([119; 119; 119], [0]) /\
  label_split_from [0xC1; 5] = Err (SPointer 261).
Proof.
  split.
  - apply label_split_from_correct; [repeat constructor; unfold is_u8; lia|].
    split; [reflexivity|simpl; unfold LABEL_MAX_LEN; lia].
  - apply label_split_from_correct; [repeat constructor; unfold is_u8; lia|].
    exists 0xC1, 5, []. split; [reflexivity|lia].
Defined.

(** ** Composing *)

Section LabelComposeLemmas.
Context {B : Type} `{OctetsBuilderOk B}.

Lemma label_compose_spec l :
  (length l <= LABEL_MAX_LEN)%nat -> Composes (B:=B) (label_compose l) (label_wire l).
Proof.
  intros Hl. unfold label_compose. rewrite zlen_label_u8 by done.
  apply (compose_seq_spec _ _ [zlen l] l); apply compose_slice_spec.
Qed.

Lemma label_compose_canonical_spec l :
  (length l <= LABEL_MAX_LEN)%nat ->
  Composes (B:=B) (label_compose_canonical l) (label_wire (label_make_canonical l)).
Proof.
  intros Hl. unfold label_compose_canonical, label_wire, label_make_canonical, zlen.
  rewrite length_map. fold (zlen l). rewrite zlen_label_u8 by done.
  apply (compose_seq_spec _ _ [zlen l]); [apply compose_slice_spec|].
  replace (map to_ascii_lowercase l) with (concat (map (fun ch => [to_ascii_lowercase ch]) l)).
  - apply compose_each_spec. intros; apply compose_slice_spec.
  - clear Hl; induction l; simpl; f_equal; done.
Qed.
End LabelComposeLemmas.

Lemma label_compose_total {B} `{InfallibleBuilder B} l : NeverFails (B:=B) (label_compose l).
Proof. apply compose_seq_total; apply compose_slice_total. Qed.

(** ** Comparisons ignore case *)

Lemma label_eq_spec a b :
  label_eq a b = true <-> label_make_canonical a = label_make_canonical b.
Proof. apply eq_ignore_ascii_case_spec. Qed.

Lemma label_cmp_eq a b : label_cmp a b = Eq <-> label_eq a b = true.
Proof. unfold label_cmp. by rewrite iter_cmp_eq, label_eq_spec. Qed.

Lemma label_cmp_opp a b : label_cmp b a = CompOpp (label_cmp a b).
Proof. apply iter_cmp_opp. Qed.

Lemma label_cmp_lt_trans a b c :
  label_cmp a b = Lt -> label_cmp b c = Lt -> label_cmp a c = Lt.
Proof. apply iter_cmp_lt_trans. Qed.

Lemma label_eq_length a b : label_eq a b = true -> length a = length b.
Proof.
  intros E%label_eq_spec. apply (f_equal length) in E.
  unfold label_make_canonical in E. by rewrite !length_map in E.
Qed.

Lemma label_make_canonical_idemp l :
  label_make_canonical (label_make_canonical l) = label_make_canonical l.
Proof.
  unfold label_make_canonical. rewrite map_map. apply map_ext.
  intros; apply to_ascii_lowercase_idemp.
Qed.

(** [Eq], [Ord] and [Hash] of labels agree: equal labels are those that compare
    as equal and those that feed the same octets to the hasher, the order is
    antisymmetric and transitive, and a label equals its canonical form.  (C37) *)
Theorem label_order_consistent a b c :
  wf_label a -> wf_label b ->
  (label_eq a b = true <-> label_cmp a b = Eq) /\
  (label_eq a b = true <-> label_hash a = label_hash b) /\
  label_cmp b a = CompOpp (label_cmp a b) /\
  (label_cmp a b = Lt -> label_cmp b c = Lt -> label_cmp a c = Lt) /\
  label_eq (label_make_canonical a) a = true.
Proof.
  intros Ha Hb. split_and!.
  - symmetry; apply label_cmp_eq.
  - rewrite label_eq_spec. unfold label_hash, label_make_canonical. split; [|congruence].
    intros E. f_equal; [|done]. unfold zlen.
    apply (f_equal length) in E. rewrite !length_map in E. congruence.
  - apply label_cmp_opp.
  - apply label_cmp_lt_trans.
  - apply label_eq_spec, label_make_canonical_idemp.
Qed.

Lemma label_order_consistent_witness :
  label_cmp [87; 119] [119; 87] = Eq /\ label_hash [87; 119] = label_hash [119; 87].
Proof.
  assert (Ha : wf_label [87; 119]) by (split; [unfold LABEL_MAX_LEN; simpl; lia|
    repeat constructor; unfold is_u8; lia]).
  assert (Hb : wf_label [119; 87]) by (split; [unfold LABEL_MAX_LEN; simpl; lia|
    repeat constructor; unfold is_u8; lia]).
  destruct (label_order_consistent _ _ [] Ha Hb) as (H1 & H2 & _).
  split; [apply H1|apply H2]; reflexivity.
Defined.

(** ** Canonical form of a sequence of labels *)

(** Length octets are below the letters, so lowercasing leaves them alone. *)
Lemma to_ascii_lowercase_len (l : list Z) :
  (length l <= LABEL_MAX_LEN)%nat -> to_ascii_lowercase (zlen l) = zlen l.
Proof.
  unfold LABEL_MAX_LEN, to_ascii_lowercase, is_ascii_uppercase, zlen; intros.
  case_scrut; breflect; lia.
Qed.

Lemma make_slice_canonical_wire ls fuel :
  Forall (fun l => (length l <= LABEL_MAX_LEN)%nat) ls ->
  (length (labels_wire ls) <= fuel)%nat ->
  label_make_slice_canonical fuel (labels_wire ls) =
    Ret (labels_wire (map label_make_canonical ls)).
Proof.
  intros Hls; revert fuel.
  induction Hls as [|l ls Hl Hls IH]; intros fuel Hf; [by destruct fuel|].
  unfold labels_wire in *; simpl in *. rewrite length_app in Hf.
  destruct fuel as [|fuel]; [lia|]. simpl label_make_slice_canonical.
  rewrite label_split_from_mut_eq.
  change (zlen l :: l ++ ?x) with (label_wire l ++ x).
  rewrite label_split_from_wire by done. rewrite IH by lia.
  unfold label_wire, zlen. unfold label_make_canonical at 3. by rewrite length_map.
Qed.

Lemma labels_wire_canonical ls :
  Forall (fun l => (length l <= LABEL_MAX_LEN)%nat) ls ->
  labels_wire (map label_make_canonical ls) = map to_ascii_lowercase (labels_wire ls).
Proof.
  unfold labels_wire; induction 1 as [|l ls Hl _ IH]; simpl; [done|].
  rewrite map_app, IH, to_ascii_lowercase_len by done.
  unfold label_wire, label_make_canonical, zlen. by rewrite length_map.
Qed.

(** ** The owned label buffer *)

(** The buffer for a label: its length, its octets, zeros. *)
Definition owned_buf (l : list Z) : list Z := zlen l :: l ++ replicate (63 - length l) 0.

Lemma owned_from_label_spec l :
  (length l <= LABEL_MAX_LEN)%nat -> owned_from_label l = Ret (owned_buf l).
Proof.
  intros Hl. unfold owned_from_label, owned_buf. rewrite zlen_label_u8 by done.
  destruct (Nat.leb_spec (length l) 63); [|unfold LABEL_MAX_LEN in *; lia].
  f_equal. change (replicate 64 0) with (0 :: replicate 63 0).
  cbn [insert list_insert take drop app plus]. rewrite drop_0 || idtac.
  f_equal. by rewrite drop_replicate.
Qed.

Lemma owned_len_buf l : owned_len (owned_buf l) = length l.
Proof. unfold owned_len, owned_buf, zlen; simpl. lia. Qed.

Lemma owned_as_label_buf l : owned_as_label (owned_buf l) = l.
Proof.
  unfold owned_as_label. rewrite owned_len_buf. unfold owned_buf; simpl.
  by rewrite drop_0, take_app_length.
Qed.

Lemma owned_as_wire_slice_buf l : owned_as_wire_slice (owned_buf l) = label_wire l.
Proof.
  unfold owned_as_wire_slice. rewrite owned_len_buf, Nat.add_comm.
  unfold owned_buf, label_wire; simpl. by rewrite take_app_length.
Qed.

Lemma owned_make_canonical_buf l :
  owned_make_canonical (owned_buf l) = owned_buf (label_make_canonical l).
Proof.
  unfold owned_make_canonical, owned_buf, label_make_canonical, zlen.
  cbn [take drop app]. rewrite take_0, drop_0, length_map, map_app. cbn [app]. do 2 f_equal.
  generalize (63 - length l)%nat as n; induction n as [|n IH]; [done|].
  cbn [replicate map]. by rewrite IH.
Qed.

(** Appending an octet to the buffer, as the loop of [from_chars] does. *)
Lemma owned_buf_push l b :
  (length l < LABEL_MAX_LEN)%nat ->
  <[0%nat := Z.of_nat (owned_len (owned_buf l)) + 1]>
    (<[(owned_len (owned_buf l) + 1)%nat := b]> (owned_buf l)) = owned_buf (l ++ [b]).
Proof.
  unfold LABEL_MAX_LEN; intros Hl. rewrite owned_len_buf, Nat.add_comm.
  unfold owned_buf, zlen. rewrite length_app; simpl. f_equal; [lia|].
  rewrite <- (Nat.add_0_r (length l)) at 1. rewrite insert_app_r.
  rewrite <- app_assoc. f_equal.
  replace (63 - length l)%nat with (S (63 - (length l + 1))) by lia. done.
Qed.

Lemma owned_len_set res b :
  owned_len (<[(owned_len res + 1)%nat := b]> res) = owned_len res.
Proof.
  unfold owned_len. destruct res as [|h res]; simpl; [done|].
  by rewrite Nat.add_comm.
Qed.

(** One round of the loop. *)
Lemma owned_from_chars_cons fuel ch chars l :
  (length l < LABEL_MAX_LEN)%nat ->
  owned_from_chars_loop (S fuel) (ch :: chars) (owned_buf l) =
  let? (b, chars') := owned_octet ch chars (0 <? length l)%nat in
  owned_from_chars_loop fuel chars' (owned_buf (l ++ [b])).
Proof.
  intros Hl. cbn [owned_from_chars_loop]. rewrite owned_len_buf.
  destruct (Nat.leb_spec LABEL_MAX_LEN (length l)); [lia|].
  destruct (owned_octet _ _ _) as [[b chars']|]; [|done]. f_equal.
  rewrite <- owned_buf_push by done. rewrite <- (owned_len_buf l) at 1 2. by rewrite owned_len_set.
Qed.

(** The display form of an octet reads back as the octet. *)
Lemma owned_octet_fmt b rest in_label :
  is_u8 b ->
  exists ch chars, label_fmt_octet b ++ rest = ch :: chars /\
    owned_octet ch chars in_label = Ok (b, rest).
Proof.
  intros Hb.
  assert (Hcase : (label_fmt_octet b = [92; b] /\ is_ascii_digit b = false /\ (b =? 91) = false
                     /\ as_u8 b = b) \/
    (label_fmt_octet b = 92 :: fmt_03 b) \/
    (label_fmt_octet b = [b] /\ ((32 <=? b) && (b <=? 45)) || ((47 <=? b) && (b <=? 91))
                    || ((93 <=? b) && (b <=? 126)) = true)).
  { revert b Hb. by_octets. }
  destruct Hcase as [(-> & H1 & H2 & H3)|[->|(-> & H1)]]; do 2 eexists; (split; [done|]).
  - unfold owned_octet, parse_escape. cbn -[as_u8]. by rewrite H1, H2, H3.
  - destruct (fmt_03_values b Hb) as (H1 & H2 & H3 & H4).
    unfold owned_octet, fmt_03, parse_escape. cbn [app].
    rewrite H1. unfold next_digit. rewrite H2. cbn [map_err]. rewrite H3. cbn [map_err]. rewrite H4.
    destruct (Z.ltb_spec 255 b); [ulia|]. rewrite as_u8_id by done.
    done.
  - unfold owned_octet. by rewrite H1.
Qed.

(** The loop reads back one octet of the display form. *)
Lemma owned_from_chars_octet fuel l b rest :
  is_u8 b -> (length l < LABEL_MAX_LEN)%nat ->
  owned_from_chars_loop (S fuel) (label_fmt_octet b ++ rest) (owned_buf l) =
  owned_from_chars_loop fuel rest (owned_buf (l ++ [b])).
Proof.
  intros Hb Hl. destruct (owned_octet_fmt b rest (0 <? length l)%nat Hb) as (ch & chars & -> & E).
  by rewrite owned_from_chars_cons, E.
Qed.

Lemma owned_from_chars_fmt_loop l0 l fuel :
  wf_octets l -> (length l0 + length l <= LABEL_MAX_LEN)%nat -> (length l <= fuel)%nat ->
  owned_from_chars_loop fuel (label_fmt l) (owned_buf l0) = Ok (owned_buf (l0 ++ l)).
Proof.
  intros Hl; revert l0 fuel.
  induction Hl as [|b l Hb Hl IH]; intros l0 fuel Hlen Hf.
  - rewrite app_nil_r. by destruct fuel.
  - simpl in *. destruct fuel as [|fuel]; [lia|].
    unfold label_fmt; simpl map; simpl concat.
    rewrite owned_from_chars_octet by (done || lia).
    fold (label_fmt l). rewrite IH; [by rewrite <- app_assoc| |lia].
    rewrite length_app; simpl; lia.
Qed.

Lemma label_fmt_length l : (length l <= length (label_fmt l))%nat.
Proof.
  induction l as [|b l IH]; [done|]. unfold label_fmt in *; simpl. rewrite length_app.
  unfold label_fmt_octet at 1. repeat case_match; simpl; lia.
Qed.

(** Reading the display form of a label gives the label back, in the buffer
    [from_label] makes for it. *)
Theorem owned_label_roundtrip l :
  wf_label l ->
  exists res, owned_from_chars (label_fmt l) = Ok res /\ owned_from_label l = Ret res /\
    owned_as_label res = l /\ owned_as_wire_slice res = label_wire l /\
    owned_as_label (owned_make_canonical res) = label_make_canonical l.
Proof.
  intros [Hlen Hl]. exists (owned_buf l). split_and!.
  - apply (owned_from_chars_fmt_loop [] l); [exact Hl|exact Hlen|apply label_fmt_length].
  - by apply owned_from_label_spec.
  - apply owned_as_label_buf.
  - apply owned_as_wire_slice_buf.
  - rewrite owned_make_canonical_buf. apply owned_as_label_buf.
Qed.

Lemma owned_label_roundtrip_witness :
  exists res, owned_from_chars (label_fmt [65; 46; 0; 200]) = Ok res /\
    owned_as_label res = [65; 46; 0; 200].
Proof.
  destruct (owned_label_roundtrip [65; 46; 0; 200]) as (res & H1 & _ & H2 & _); [|eauto].
  split; [unfold LABEL_MAX_LEN; simpl; lia|repeat constructor; unfold is_u8; lia].
Defined.

(** An escaped non-ASCII character is cut to its low octet instead of being
    refused: [\\U+0141] is read as the octet of [A]. *)
Lemma owned_from_chars_truncates :
  exists res, owned_from_chars [92; 0x141] = Ok res /\ owned_as_label res = [0x41].
Proof. eexists; split; vm_compute; reflexivity. Qed.

(** ** Termination of [SliceLabelsIter] *)

(** No compression pointer of the slice points to itself. *)
Definition no_self_pointer (s : list Z) : Prop :=
  forall i, label_split_from (drop i s) <> Err (SPointer (Z.of_nat i)).

Lemma slice_iter_loop_terminates s start fuel :
  wf_octets s -> no_self_pointer s -> (start < fuel)%nat ->
  is_Some (slice_iter_loop fuel (mkSliceIter s (Z.of_nat start))).
Proof.
  intros Hs Hno; revert start; induction fuel as [|fuel IH]; intros start Hf; [lia|].
  simpl. rewrite Nat2Z.id.
  destruct (label_split_from (drop start s)) as [[l t]|[pos|e|]] eqn:E; try (by eexists).
  - by destruct (label_is_root l).
  - destruct (Z.ltb_spec (Z.of_nat start) pos); [by eexists|].
    pose proof (label_split_from_pointer (drop start s) pos (wf_octets_drop _ _ Hs)) as [Hp _].
    destruct (Hp E) as (h & c & t & Hd & Hh & ->).
    assert (Hwf : wf_octets (h :: c :: t)) by (rewrite <- Hd; by apply wf_octets_drop).
    apply Forall_uncons in Hwf as [? Hwf]. apply Forall_uncons in Hwf as [? Hwf].
    pose proof (Hno start) as Hne. rewrite E in Hne.
    set (pos := (h - 192) * 2 ^ 8 + c) in *.
    assert (pos <> Z.of_nat start) by congruence.
    assert (0 <= pos) by (unfold pos; ulia).
    rewrite <- (Z2Nat.id pos) by done. apply IH. lia.
Qed.

(** For a [start] that is not beyond the end of the slice, [next] returns after
    at most [start + 1] rounds when no pointer of the slice points to itself:
    every pointer it follows goes strictly back. *)
Theorem slice_iter_next_terminates s start :
  wf_octets s -> no_self_pointer s -> (start <= length s)%nat ->
  is_Some (slice_iter_next (S start) (label_iter_slice s start)).
Proof.
  intros Hs Hno _. unfold slice_iter_next, label_iter_slice; simpl sli_slice; simpl sli_start.
  case_match; [by eexists|]. apply slice_iter_loop_terminates; auto with lia.
Qed.

Lemma slice_iter_next_terminates_witness :
  is_Some (slice_iter_next 4 (label_iter_slice [1; 97; 0; 0xC0; 0] 3)).
Proof.
  apply slice_iter_next_terminates; [repeat constructor; unfold is_u8; lia| |simpl; lia].
  intros i. destruct (decide (i < 5)%nat) as [Hi|Hi].
  - do 5 (destruct i as [|i]; [vm_compute; discriminate|]). lia.
  - rewrite drop_ge by (simpl; lia). vm_compute; discriminate.
Defined.

(** The documentation of [iter_slice] announces a panic for a start beyond the
    end of the slice; the iterator is empty instead. *)
Theorem iter_slice_beyond_end s start fuel :
  (length s <= start)%nat ->
  slice_iter_next fuel (label_iter_slice s start) = Some (None, label_iter_slice s start).
Proof.
  intros Hs. unfold slice_iter_next, label_iter_slice; simpl sli_slice; simpl sli_start.
  by destruct (Z.leb_spec (zlen s) (Z.of_nat start)); [|unfold zlen in *; lia].
Qed.

(** A compression pointer that points to itself is not pointing forward, so the
    iterator follows it forever: no number of rounds is enough. *)
Theorem slice_iter_self_pointer_diverges s i fuel :
  (i < length s)%nat -> label_split_from (drop i s) = Err (SPointer (Z.of_nat i)) ->
  slice_iter_next fuel (label_iter_slice s i) = None.
Proof.
  intros Hi E. unfold slice_iter_next, label_iter_slice; simpl sli_slice; simpl sli_start.
  destruct (Z.leb_spec (zlen s) (Z.of_nat i)); [unfold zlen in *; lia|].
  induction fuel as [|fuel IH]; simpl; [done|].
  rewrite Nat2Z.id, E. by rewrite Z.ltb_irrefl.
Qed.

Lemma slice_iter_self_pointer_diverges_witness :
  slice_iter_next 1000 (label_iter_slice [0xC0; 0] 0) = None.
Proof. apply slice_iter_self_pointer_diverges; [simpl; lia|reflexivity]. Defined.
