(* ===== verification/Traits.v ===== *)
(** * Operations on anything that is a name ([src/src/base/name/traits.rs])

    The traits [ToLabelIter], [ToName] and [ToRelativeName] give every kind of
    name its comparisons, its composing and its conversions through a double
    ended label iterator.  Here the iterator is the class [LabelIter]; what an
    implementation promises is the class [LabelIterOk], a relation between the
    iterator's state and the labels it has left.  The trait's loops are written
    with [next] and [next_back] and are proved against the promise only; the
    kinds of names in [Name.v], [Chain.v] and [ParsedName.v] discharge it. *)

From S2P Require Import Prelude Octets Symbol Label.

(** ** Label iterators *)

Class LabelIter (I : Type) : Type := {
  li_next : I -> outcome (option (list Z) * I);
  li_next_back : I -> outcome (option (list Z) * I)
}.

#[export] Hint Mode LabelIter ! : typeclass_instances.

(** [iter_labels], [compose_len] and [as_flat_slice] of the traits. *)
Class ToLabelIter (N I : Type) `{LabelIter I} : Type := {
  iter_labels : N -> I;
  compose_len : N -> outcome Z;
  as_flat_slice : N -> option (list Z)
}.

#[export] Hint Mode ToLabelIter ! - - : typeclass_instances.

(** The promise of an iterator: [li_rel it ls] says that [it] has the labels
    [ls] left, from the front to the back. *)
Class LabelIterOk (I : Type) `{LabelIter I} : Type := {
  li_rel : I -> list (list Z) -> Prop;
  li_next_nil it : li_rel it [] -> exists it', li_next it = Ret (None, it') /\ li_rel it' [];
  li_next_cons it l ls : li_rel it (l :: ls) ->
    exists it', li_next it = Ret (Some l, it') /\ li_rel it' ls;
  li_back_nil it : li_rel it [] -> exists it', li_next_back it = Ret (None, it') /\ li_rel it' [];
  li_back_snoc it l ls : li_rel it (ls ++ [l]) ->
    exists it', li_next_back it = Ret (Some l, it') /\ li_rel it' ls
}.

(** A name stands for the labels [ls]. *)
Definition denotes {N I} `{ToLabelIter N I} `{!LabelIterOk I} (n : N) (ls : list (list Z)) : Prop :=
  li_rel (iter_labels n) ls /\
  compose_len n = Ret (zlen (labels_wire ls)) /\
  (forall s, as_flat_slice n = Some s -> s = labels_wire ls).

(** ** Sequences of labels *)

(** A label of a relative name: not empty, at most 63 octets. *)
Definition nonroot (l : list Z) : Prop := (0 < length l <= LABEL_MAX_LEN)%nat /\ wf_octets l.

#[export] Instance nonroot_dec l : Decision (nonroot l).
Proof. unfold nonroot; apply _. Defined.

(** The labels of an absolute name: the root label ends them and occurs
    nowhere else. *)
Definition abs_labels (ls : list (list Z)) : Prop :=
  exists ls0, ls = ls0 ++ [[]] /\ Forall nonroot ls0.

Definition rel_labels (ls : list (list Z)) : Prop := Forall nonroot ls.

Definition good_labels (ls : list (list Z)) : Prop :=
  Forall (fun l => (length l <= LABEL_MAX_LEN)%nat /\ wf_octets l) ls.

(** ** The loops of the traits

    [fuel] bounds the number of rounds; running out of it is reported as
    [Panic], so a theorem that gives [Ret] also says that the loop ended. *)

Section Loops.
Context {I J : Type} `{LabelIter I} `{LabelIter J}.

(** [ToLabelIter::starts_with]. *)
Fixpoint starts_with_loop (fuel : nat) (self : I) (base : J) : outcome bool :=
  match fuel with
  | O => Panic
  | S fuel' =>
      let! (sl, self') := li_next self in
      let! (bl, base') := li_next base in
      match sl, bl with
      | Some sl, Some bl =>
          if negb (label_eq sl bl) then Ret false else starts_with_loop fuel' self' base'
      | _, None => Ret true
      | None, Some _ => Ret false
      end
  end.

(** [ToLabelIter::ends_with]. *)
Fixpoint ends_with_loop (fuel : nat) (self : I) (base : J) : outcome bool :=
  match fuel with
  | O => Panic
  | S fuel' =>
      let! (sl, self') := li_next_back self in
      let! (bl, base') := li_next_back base in
      match sl, bl with
      | Some sl, Some bl =>
          if negb (label_eq sl bl) then Ret false else ends_with_loop fuel' self' base'
      | _, None => Ret true
      | None, Some _ => Ret false
      end
  end.

(** [Iterator::eq] on two label iterators. *)
Fixpoint iter_eq_loop (fuel : nat) (self : I) (other : J) : outcome bool :=
  match fuel with
  | O => Panic
  | S fuel' =>
      let! (sl, self') := li_next self in
      let! (ol, other') := li_next other in
      match sl, ol with
      | Some sl, Some ol =>
          if label_eq sl ol then iter_eq_loop fuel' self' other' else Ret false
      | None, None => Ret true
      | _, _ => Ret false
      end
  end.

(** [ToName::name_cmp]. *)
Fixpoint name_cmp_loop (fuel : nat) (self : I) (other : J) : outcome comparison :=
  match fuel with
  | O => Panic
  | S fuel' =>
      let! (ll, self') := li_next_back self in
      let! (rl, other') := li_next_back other in
      match ll, rl with
      | Some ll, Some rl =>
          match label_cmp ll rl with
          | Eq => name_cmp_loop fuel' self' other'
          | res => Ret res
          end
      | None, Some _ => Ret Lt
      | Some _, None => Ret Gt
      | None, None => Ret Eq
      end
  end.

(** The common loop of [ToName::composed_cmp] and
    [ToName::lowercase_composed_cmp], which differ in the comparison of
    labels [cmp]; one iterator ending before the other is [unreachable!]. *)
Fixpoint composed_cmp_loop (cmp : list Z -> list Z -> comparison) (fuel : nat)
    (self : I) (other : J) : outcome comparison :=
  match fuel with
  | O => Panic
  | S fuel' =>
      let! (ll, self') := li_next self in
      let! (rl, other') := li_next other in
      match ll, rl with
      | Some ll, Some rl =>
          match cmp ll rl with
          | Eq => composed_cmp_loop cmp fuel' self' other'
          | res => Ret res
          end
      | None, None => Ret Eq
      | _, _ => Panic
      end
  end.

(** [Iterator::count]. *)
Fixpoint count_loop (fuel : nat) (self : I) : outcome nat :=
  match fuel with
  | O => Panic
  | S fuel' =>
      let! (l, self') := li_next self in
      match l with
      | None => Ret 0%nat
      | Some _ => let! n := count_loop fuel' self' in Ret (S n)
      end
  end.

(** Collecting the labels, for [for label in self.iter_labels()]. *)
Fixpoint collect_loop (fuel : nat) (self : I) : outcome (list (list Z)) :=
  match fuel with
  | O => Panic
  | S fuel' =>
      let! (l, self') := li_next self in
      match l with
      | None => Ret []
      | Some l => let! ls := collect_loop fuel' self' in Ret (l :: ls)
      end
  end.
End Loops.

(** A name has at most 128 labels; the loops get room for one more. *)
Definition name_fuel : nat := 256.

Section Traits.
Context {N I M J : Type} `{ToLabelIter N I} `{ToLabelIter M J}.

Definition starts_with (self : N) (base : M) : outcome bool :=
  starts_with_loop name_fuel (iter_labels self) (iter_labels base).

Definition ends_with (self : N) (base : M) : outcome bool :=
  ends_with_loop name_fuel (iter_labels self) (iter_labels base).

Definition name_eq (self : N) (other : M) : outcome bool :=
  match as_flat_slice self, as_flat_slice other with
  | Some ll, Some rl => Ret (eq_ignore_ascii_case ll rl)
  | _, _ => iter_eq_loop name_fuel (iter_labels self) (iter_labels other)
  end.

Definition name_cmp (self : N) (other : M) : outcome comparison :=
  name_cmp_loop name_fuel (iter_labels self) (iter_labels other).

Definition composed_cmp (self : N) (other : M) : outcome comparison :=
  match as_flat_slice self, as_flat_slice other with
  | Some ll, Some rl => Ret (iter_cmp ll rl)
  | _, _ => composed_cmp_loop label_composed_cmp name_fuel (iter_labels self) (iter_labels other)
  end.

Definition lowercase_composed_cmp (self : N) (other : M) : outcome comparison :=
  composed_cmp_loop label_lowercase_composed_cmp name_fuel (iter_labels self) (iter_labels other).

(** [rrsig_label_count]: [labels.next().unwrap()], then a count cut to [u8]. *)
Definition rrsig_label_count (self : N) : outcome Z :=
  let! (first, labels) := li_next (iter_labels self) in
  match first with
  | None => Panic
  | Some l =>
      let! n := count_loop name_fuel labels in
      if label_is_wildcard l
      then if (n =? 0)%nat then Panic else Ret (as_u8 (Z.of_nat n - 1))
      else Ret (as_u8 (Z.of_nat n))
  end.

Context {B : Type} `{OctetsBuilder B}.

(** [for label in self.iter_labels() { f(label)?; }]. *)
Definition compose_labels (f : list Z -> composer B) (self : N) (target : B) : outcome (B * bool) :=
  let! ls := collect_loop name_fuel (iter_labels self) in
  Ret (compose_each f ls target).

(** [ToName::compose]. *)
Definition name_compose (self : N) (target : B) : outcome (B * bool) :=
  match as_flat_slice self with
  | Some slice => Ret (compose_slice slice target)
  | None => compose_labels label_compose self target
  end.

Definition name_compose_canonical (self : N) (target : B) : outcome (B * bool) :=
  compose_labels label_compose_canonical self target.

(** [ToName::try_to_name] and [ToName::try_to_canonical_name]: a new builder,
    frozen on success. *)
Definition try_to_name (self : N) : outcome (result (list Z) unit) :=
  let! _ := compose_len self in
  let! (builder, ok) := compose_labels label_compose self (builder_empty : B) in
  Ret (if ok : bool then Ok (freeze builder) else Err ()).

Definition try_to_canonical_name (self : N) : outcome (result (list Z) unit) :=
  let! _ := compose_len self in
  let! (builder, ok) := compose_labels label_compose_canonical self (builder_empty : B) in
  Ret (if ok : bool then Ok (freeze builder) else Err ()).
End Traits.

(** ** Labels and their wire format *)

Lemma labels_wire_app ls ms : labels_wire (ls ++ ms) = labels_wire ls ++ labels_wire ms.
Proof. unfold labels_wire. by rewrite map_app, concat_app. Qed.

Lemma labels_wire_cons l ls : labels_wire (l :: ls) = zlen l :: l ++ labels_wire ls.
Proof. reflexivity. Qed.

Lemma labels_wire_inj ls ms : labels_wire ls = labels_wire ms -> ls = ms.
Proof.
  revert ms; induction ls as [|l ls IH]; intros [|m ms]; try done.
  rewrite !labels_wire_cons. intros [= Hlen Hr]. unfold zlen in Hlen.
  apply app_inj_1 in Hr as [-> Hr]; [|lia]. f_equal; auto.
Qed.

Lemma nonroot_good l : nonroot l -> (length l <= LABEL_MAX_LEN)%nat /\ wf_octets l.
Proof. intros [[_ ?] ?]; done. Qed.

Lemma rel_labels_good ls : rel_labels ls -> good_labels ls.
Proof. apply Forall_impl, nonroot_good. Qed.

Lemma abs_labels_good ls : abs_labels ls -> good_labels ls.
Proof.
  intros (ls0 & -> & H). apply Forall_app. split; [by apply rel_labels_good|].
  repeat constructor.
Qed.

Lemma good_labels_short ls :
  good_labels ls -> Forall (fun l => (length l <= LABEL_MAX_LEN)%nat) ls.
Proof. apply Forall_impl; by intros ? [? _]. Qed.

Lemma abs_labels_cons l ls :
  abs_labels (l :: ls) <-> (l = [] /\ ls = []) \/ (nonroot l /\ abs_labels ls).
Proof.
  split.
  - intros ([|l0 ls0] & E & H); simpl in E; simplify_eq; [by left|right].
    apply Forall_uncons in H as [? ?]. split; [done|]. by exists ls0.
  - intros [[-> ->]|[Hl (ls0 & -> & H)]]; [by exists []|]. exists (l :: ls0).
    split; [done|by constructor].
Qed.

Lemma labels_wire_wf ls : good_labels ls -> wf_octets (labels_wire ls).
Proof.
  induction 1 as [|l ls [Hl Hw] _ IH]; [constructor|]. rewrite labels_wire_cons.
  constructor; [|by apply wf_octets_app]. unfold LABEL_MAX_LEN in Hl. ulia.
Qed.

(** Every label takes at least its length octet. *)
Lemma labels_wire_length ls : (length ls <= length (labels_wire ls))%nat.
Proof.
  induction ls as [|l ls IH]; [done|]. rewrite labels_wire_cons; simpl. rewrite length_app. lia.
Qed.

#[export] Hint Resolve abs_labels_good rel_labels_good good_labels_short : octets.

Abbreviation canon := (map label_make_canonical).

Lemma canon_length (ls : list (list Z)) : length (canon ls) = length ls.
Proof. apply length_map. Qed.

(** Comparing wire formats octet by octet, ignoring case, compares the labels:
    the length octets are below the letters. *)
Lemma wire_eq_ignore_case ls ms :
  good_labels ls -> good_labels ms ->
  eq_ignore_ascii_case (labels_wire ls) (labels_wire ms) = bool_decide (canon ls = canon ms).
Proof.
  intros Hl Hm. apply eq_bool_prop_intro. rewrite !Is_true_true, bool_decide_eq_true.
  rewrite eq_ignore_ascii_case_spec, <- !labels_wire_canonical by auto with octets.
  split; [apply labels_wire_inj|by intros ->].
Qed.

(** ** The loops compute their specifications *)

Section LoopSpecs.
Context {I J : Type} `{LabelIterOk I} `{LabelIterOk J}.

Lemma starts_with_loop_spec fuel (it : I) (jt : J) ls ms :
  li_rel it ls -> li_rel jt ms -> (length ms < fuel)%nat ->
  starts_with_loop fuel it jt = Ret (bool_decide (canon ms `prefix_of` canon ls)).
Proof.
  revert it jt ls ms; induction fuel as [|fuel IH]; intros it jt ls ms Hi Hj Hf; [lia|].
  cbn [starts_with_loop]. destruct ls as [|l ls], ms as [|m ms].
  - destruct (li_next_nil it Hi) as (? & -> & _), (li_next_nil jt Hj) as (? & -> & _).
    by rewrite bool_decide_true by apply prefix_nil.
  - destruct (li_next_nil it Hi) as (? & -> & _), (li_next_cons jt _ _ Hj) as (? & -> & _).
    rewrite bool_decide_false; [done|]. apply prefix_nil_not.
  - destruct (li_next_cons it _ _ Hi) as (? & -> & _), (li_next_nil jt Hj) as (? & -> & _).
    by rewrite bool_decide_true by apply prefix_nil.
  - destruct (li_next_cons it _ _ Hi) as (it' & -> & Hi'),
      (li_next_cons jt _ _ Hj) as (jt' & -> & Hj'). simpl in Hf.
    destruct (label_eq l m) eqn:E; simpl negb; cbv iota.
    + rewrite (IH _ _ _ _ Hi' Hj') by lia. f_equal. apply bool_decide_ext.
      apply label_eq_spec in E. simpl. rewrite E. split; [apply prefix_cons|apply prefix_cons_inv_2].
    + rewrite bool_decide_false; [done|]. simpl; intros Hp%prefix_cons_inv_1.
      symmetry in Hp. apply label_eq_spec in Hp. congruence.
Qed.

Lemma ends_with_loop_spec fuel (it : I) (jt : J) ls ms :
  li_rel it ls -> li_rel jt ms -> (length ms < fuel)%nat ->
  ends_with_loop fuel it jt = Ret (bool_decide (canon ms `suffix_of` canon ls)).
Proof.
  revert it jt ls ms; induction fuel as [|fuel IH]; intros it jt ls ms Hi Hj Hf; [lia|].
  cbn [ends_with_loop].
  destruct ls as [|l ls _] using rev_ind; destruct ms as [|m ms _] using rev_ind.
  - destruct (li_back_nil it Hi) as (? & -> & _), (li_back_nil jt Hj) as (? & -> & _).
    by rewrite bool_decide_true by apply suffix_nil.
  - destruct (li_back_nil it Hi) as (? & -> & _), (li_back_snoc jt _ _ Hj) as (? & -> & _).
    rewrite bool_decide_false; [done|]. rewrite map_app. intros Hs%suffix_nil_inv.
    by apply app_eq_nil in Hs as [_ ?].
  - destruct (li_back_snoc it _ _ Hi) as (? & -> & _), (li_back_nil jt Hj) as (? & -> & _).
    by rewrite bool_decide_true by apply suffix_nil.
  - destruct (li_back_snoc it _ _ Hi) as (it' & -> & Hi'),
      (li_back_snoc jt _ _ Hj) as (jt' & -> & Hj').
    rewrite length_app in Hf; simpl in Hf. rewrite !map_app; simpl map.
    destruct (label_eq l m) eqn:E; simpl negb; cbv iota.
    + rewrite (IH _ _ _ _ Hi' Hj') by lia. f_equal. apply bool_decide_ext.
      apply label_eq_spec in E. rewrite E. split; [apply suffix_app|apply suffix_snoc_inv_2].
    + rewrite bool_decide_false; [done|]. intros Hp%suffix_snoc_inv_1.
      symmetry in Hp. apply label_eq_spec in Hp. congruence.
Qed.

Lemma iter_eq_loop_spec fuel (it : I) (jt : J) ls ms :
  li_rel it ls -> li_rel jt ms -> (length ls < fuel)%nat ->
  iter_eq_loop fuel it jt = Ret (bool_decide (canon ls = canon ms)).
Proof.
  revert it jt ls ms; induction fuel as [|fuel IH]; intros it jt ls ms Hi Hj Hf; [lia|].
  cbn [iter_eq_loop]. destruct ls as [|l ls], ms as [|m ms].
  - by destruct (li_next_nil it Hi) as (? & -> & _), (li_next_nil jt Hj) as (? & -> & _).
  - by destruct (li_next_nil it Hi) as (? & -> & _), (li_next_cons jt _ _ Hj) as (? & -> & _).
  - by destruct (li_next_cons it _ _ Hi) as (? & -> & _), (li_next_nil jt Hj) as (? & -> & _).
  - destruct (li_next_cons it _ _ Hi) as (it' & -> & Hi'),
      (li_next_cons jt _ _ Hj) as (jt' & -> & Hj'). simpl in Hf. simpl map.
    destruct (label_eq l m) eqn:E.
    + rewrite (IH _ _ _ _ Hi' Hj') by lia. f_equal. apply bool_decide_ext.
      apply label_eq_spec in E. rewrite E. split; [by intros ->|congruence].
    + rewrite bool_decide_false; [done|]. intros [= Hp _].
      apply label_eq_spec in Hp. congruence.
Qed.

Lemma count_loop_spec fuel (it : I) ls :
  li_rel it ls -> (length ls < fuel)%nat -> count_loop fuel it = Ret (length ls).
Proof.
  revert it ls; induction fuel as [|fuel IH]; intros it ls Hi Hf; [lia|].
  cbn [count_loop]. destruct ls as [|l ls].
  - by destruct (li_next_nil it Hi) as (? & -> & _).
  - destruct (li_next_cons it _ _ Hi) as (it' & -> & Hi'). simpl in Hf.
    by rewrite (IH _ _ Hi') by lia.
Qed.

Lemma collect_loop_spec fuel (it : I) ls :
  li_rel it ls -> (length ls < fuel)%nat -> collect_loop fuel it = Ret ls.
Proof.
  revert it ls; induction fuel as [|fuel IH]; intros it ls Hi Hf; [lia|].
  cbn [collect_loop]. destruct ls as [|l ls].
  - by destruct (li_next_nil it Hi) as (? & -> & _).
  - destruct (li_next_cons it _ _ Hi) as (it' & -> & Hi'). simpl in Hf.
    by rewrite (IH _ _ Hi') by lia.
Qed.
End LoopSpecs.

(** ** The canonical order of RFC 4034

    Section 6.1: names are sorted by their labels from the right; labels are
    octet strings without regard of the case of US-ASCII letters, where the
    absence of an octet sorts before a zero octet.  Below is the strict order in
    the terms of the RFC, and a function for it in terms of [label_cmp]. *)

Inductive lex_lt {A} (lt eqv : A -> A -> Prop) : list A -> list A -> Prop :=
  | lex_absent y ys : lex_lt lt eqv [] (y :: ys)
  | lex_here x y xs ys : lt x y -> lex_lt lt eqv (x :: xs) (y :: ys)
  | lex_later x y xs ys : eqv x y -> lex_lt lt eqv xs ys -> lex_lt lt eqv (x :: xs) (y :: ys).

(** US-ASCII letters in lower case, A to Z being 65 to 90. *)
Definition without_case (l : list Z) : list Z :=
  (fun b => if decide (65 <= b <= 90) then b + 32 else b) <$> l.

Definition same_label (l m : list Z) : Prop := without_case l = without_case m.

Definition label_before (l m : list Z) : Prop :=
  lex_lt Z.lt eq (without_case l) (without_case m).

Definition name_before (ls ms : list (list Z)) : Prop :=
  lex_lt label_before same_label (reverse ls) (reverse ms).

Definition same_name (ls ms : list (list Z)) : Prop := Forall2 same_label ls ms.

Fixpoint rev_labels_cmp (ls ms : list (list Z)) : comparison :=
  match ls, ms with
  | [], [] => Eq
  | [], _ :: _ => Lt
  | _ :: _, [] => Gt
  | l :: ls', m :: ms' => match label_cmp l m with Eq => rev_labels_cmp ls' ms' | c => c end
  end.

(** Labels up to case. *)
Definition label_equiv : relation (list Z) := fun a b => label_make_canonical a = label_make_canonical b.

#[export] Instance label_equiv_equivalence : Equivalence label_equiv.
Proof. split; unfold label_equiv; repeat intro; congruence. Qed.

#[export] Instance label_cmp_proper : Proper (label_equiv ==> label_equiv ==> eq) label_cmp.
Proof. intros a b Ha c d Hc. unfold label_equiv, label_make_canonical in *. unfold label_cmp. congruence. Qed.

#[export] Instance label_eq_proper : Proper (label_equiv ==> label_equiv ==> eq) label_eq.
Proof.
  intros a b Ha c d Hc. apply eq_bool_prop_intro. rewrite !Is_true_true, !label_eq_spec.
  unfold label_equiv in *. by rewrite Ha, Hc.
Qed.

Lemma label_cmp_Eq_equiv a b : label_cmp a b = Eq <-> label_equiv a b.
Proof. by rewrite label_cmp_eq, label_eq_spec. Qed.

Lemma rev_labels_cmp_opp ls ms : rev_labels_cmp ms ls = CompOpp (rev_labels_cmp ls ms).
Proof.
  revert ms; induction ls as [|l ls IH]; intros [|m ms]; simpl; try done.
  rewrite (label_cmp_opp l m). by destruct (label_cmp l m); simpl.
Qed.

Lemma rev_labels_cmp_eq ls ms : rev_labels_cmp ls ms = Eq <-> canon ls = canon ms.
Proof.
  revert ms; induction ls as [|l ls IH]; intros [|m ms]; simpl; try done.
  destruct (label_cmp l m) eqn:E.
  - apply label_cmp_Eq_equiv in E. unfold label_equiv in E. rewrite IH, E.
    split; [by intros ->|congruence].
  - split; [done|]. intros [= Hl _]. apply label_cmp_Eq_equiv in Hl. congruence.
  - split; [done|]. intros [= Hl _]. apply label_cmp_Eq_equiv in Hl. congruence.
Qed.

Lemma rev_labels_cmp_lt_trans ls ms ns :
  rev_labels_cmp ls ms = Lt -> rev_labels_cmp ms ns = Lt -> rev_labels_cmp ls ns = Lt.
Proof.
  revert ms ns; induction ls as [|l ls IH]; intros [|m ms] [|n ns]; simpl; try done.
  destruct (label_cmp l m) eqn:E1; intros H1; try done;
    destruct (label_cmp m n) eqn:E2; intros H2; try done.
  - apply label_cmp_Eq_equiv in E1. rewrite E1, E2. eauto.
  - apply label_cmp_Eq_equiv in E1. by rewrite E1, E2.
  - apply label_cmp_Eq_equiv in E2. by rewrite <- E2, E1.
  - by rewrite (label_cmp_lt_trans _ _ _ E1 E2).
Qed.

(** The function and the order of the RFC. *)
Lemma lex_lt_compare {A} (lt eqv : A -> A -> Prop) (cmp : A -> A -> comparison) (f : list A -> list A -> comparison) :
  (forall x y, cmp x y = Lt <-> lt x y) -> (forall x y, cmp x y = Eq <-> eqv x y) ->
  (forall ls ms, f ls ms = match ls, ms with
     | [], [] => Eq | [], _ :: _ => Lt | _ :: _, [] => Gt
     | l :: ls', m :: ms' => match cmp l m with Eq => f ls' ms' | c => c end end) ->
  forall ls ms, f ls ms = Lt <-> lex_lt lt eqv ls ms.
Proof.
  intros Hlt Heq Hf. induction ls as [|l ls IH]; intros [|m ms]; rewrite Hf.
  - split; [done|inversion 1].
  - split; [by constructor|done].
  - split; [done|inversion 1].
  - destruct (cmp l m) eqn:E.
    + rewrite IH. split; [by intros; apply lex_later; [apply Heq|]|]. inversion 1; [|done]. subst.
      by assert (cmp l m = Lt) by (by apply Hlt); congruence.
    + split; [|done]. intros _. apply lex_here. by apply Hlt.
    + split; [done|]. inversion 1; subst.
      * by assert (cmp l m = Lt) by (by apply Hlt); congruence.
      * by assert (cmp l m = Eq) by (by apply Heq); congruence.
Qed.

Lemma without_case_lower l : without_case l = map to_ascii_lowercase l.
Proof.
  apply list_fmap_ext. intros _ b _. unfold to_ascii_lowercase, is_ascii_uppercase.
  case_decide; destruct (Z.leb_spec 65 b), (Z.leb_spec b 90); simpl; lia.
Qed.

Lemma same_label_equiv l m : same_label l m <-> label_equiv l m.
Proof. unfold same_label. by rewrite !without_case_lower. Qed.

Lemma same_name_canon ls ms : same_name ls ms <-> canon ls = canon ms.
Proof.
  unfold same_name. split.
  - induction 1 as [|l m ls ms E _ IH]; [done|]. apply same_label_equiv in E. simpl. by f_equal.
  - revert ms. induction ls as [|l ls IH]; intros [|m ms] E; simplify_eq/=; constructor; [|auto].
    by apply same_label_equiv.
Qed.

Lemma label_cmp_lt l m : label_cmp l m = Lt <-> label_before l m.
Proof.
  unfold label_cmp, label_before. rewrite !without_case_lower.
  apply (lex_lt_compare _ _ Z.compare); [done|apply Z.compare_eq_iff|by intros [] []].
Qed.

Lemma name_before_cmp ls ms : rev_labels_cmp (reverse ls) (reverse ms) = Lt <-> name_before ls ms.
Proof.
  apply (lex_lt_compare _ _ label_cmp); [apply label_cmp_lt| |by intros [] []].
  intros l m. rewrite same_label_equiv, label_cmp_eq. apply label_eq_spec.
Qed.

Section OrderLoops.
Context {I J : Type} `{LabelIterOk I} `{LabelIterOk J}.

Lemma name_cmp_loop_spec fuel (it : I) (jt : J) ls ms :
  li_rel it (reverse ls) -> li_rel jt (reverse ms) -> (length ls < fuel)%nat ->
  name_cmp_loop fuel it jt = Ret (rev_labels_cmp ls ms).
Proof.
  revert it jt ls ms; induction fuel as [|fuel IH]; intros it jt ls ms Hi Hj Hf; [lia|].
  cbn [name_cmp_loop]. destruct ls as [|l ls], ms as [|m ms];
    try rewrite reverse_cons in Hi; try rewrite reverse_cons in Hj.
  - by destruct (li_back_nil it Hi) as (? & -> & _), (li_back_nil jt Hj) as (? & -> & _).
  - by destruct (li_back_nil it Hi) as (? & -> & _), (li_back_snoc jt _ _ Hj) as (? & -> & _).
  - by destruct (li_back_snoc it _ _ Hi) as (? & -> & _), (li_back_nil jt Hj) as (? & -> & _).
  - destruct (li_back_snoc it _ _ Hi) as (it' & -> & Hi'),
      (li_back_snoc jt _ _ Hj) as (jt' & -> & Hj'). simpl in *.
    destruct (label_cmp l m); try done. by apply IH; [..|lia].
Qed.

(** The loop of the composed order, for a comparison [cmp] that is the
    composed order of the labels after a length-preserving [g]. *)
Lemma composed_cmp_loop_spec (g : list Z -> list Z) cmp fuel (it : I) (jt : J) ls ms :
  (forall l, length (g l) = length l) ->
  (forall a b, cmp a b = label_composed_cmp (g a) (g b)) ->
  li_rel it ls -> li_rel jt ms -> abs_labels ls -> abs_labels ms -> (length ls < fuel)%nat ->
  composed_cmp_loop cmp fuel it jt =
    Ret (iter_cmp (labels_wire (map g ls)) (labels_wire (map g ms))).
Proof.
  intros Hg Hcmp. revert it jt ls ms.
  induction fuel as [|fuel IH]; intros it jt ls ms Hi Hj Hl Hm Hf; [lia|].
  destruct ls as [|l ls]; [by destruct Hl as ([] & ? & _)|].
  destruct ms as [|m ms]; [by destruct Hm as ([] & ? & _)|].
  cbn [composed_cmp_loop].
  destruct (li_next_cons it _ _ Hi) as (it' & -> & Hi'),
    (li_next_cons jt _ _ Hj) as (jt' & -> & Hj').
  simpl map; rewrite !labels_wire_cons, Hcmp; unfold label_composed_cmp, zlen; simpl iter_cmp.
  rewrite Nat2Z.inj_compare.
  destruct (Nat.compare_spec (length (g l)) (length (g m))) as [Hlen| |]; try done.
  rewrite iter_cmp_app by done. destruct (iter_cmp (g l) (g m)); try done.
  rewrite !Hg in Hlen. simpl in Hf.
  apply abs_labels_cons in Hl as [[-> ->]|[[[Hl0 _] _] Hl]];
    apply abs_labels_cons in Hm as [[-> ->]|[[[Hm0 _] _] Hm]]; simpl in Hlen; try lia.
  - destruct fuel; [lia|]. cbn [composed_cmp_loop].
    by destruct (li_next_nil it' Hi') as (? & -> & _), (li_next_nil jt' Hj') as (? & -> & _).
  - apply IH; auto with lia.
Qed.
End OrderLoops.

Lemma label_lowercase_composed_spec a b :
  label_lowercase_composed_cmp a b =
  label_composed_cmp (label_make_canonical a) (label_make_canonical b).
Proof.
  unfold label_lowercase_composed_cmp, label_composed_cmp, label_make_canonical.
  by rewrite !length_map.
Qed.

(** ** Theorems on the trait methods *)

Section TraitTheorems.
Context {N I M J : Type} `{ToLabelIter N I} `{!LabelIterOk I} `{ToLabelIter M J} `{!LabelIterOk J}.
Context (n : N) (m : M) (ls ms : list (list Z)).
Context (Hn : denotes n ls) (Hm : denotes m ms).
Context (Hln : (length ls < name_fuel)%nat) (Hlm : (length ms < name_fuel)%nat).

(** [starts_with] and [ends_with] decide whether the labels of one name are a
    prefix or a suffix of the labels of the other, ignoring case. *)
Theorem starts_ends_with_correct :
  starts_with n m = Ret (bool_decide (canon ms `prefix_of` canon ls)) /\
  ends_with n m = Ret (bool_decide (canon ms `suffix_of` canon ls)).
Proof using All.
  destruct Hn as [Rn _], Hm as [Rm _]. split.
  - by apply starts_with_loop_spec.
  - by apply ends_with_loop_spec.
Qed.

Lemma name_eq_spec :
  good_labels ls -> good_labels ms ->
  name_eq n m = Ret (bool_decide (canon ls = canon ms)).
Proof using All.
  intros Hl Hl'. destruct Hn as (Rn & _ & Fn), Hm as (Rm & _ & Fm). unfold name_eq.
  destruct (as_flat_slice n) as [s|] eqn:E1, (as_flat_slice m) as [t|] eqn:E2;
    try by apply iter_eq_loop_spec.
  rewrite (Fn _ eq_refl), (Fm _ eq_refl). f_equal. by apply wire_eq_ignore_case.
Qed.

(** [name_eq] decides equality of the labels up to case, whether it compares
    the flat slices or walks over the labels. *)
Theorem name_eq_correct :
  good_labels ls -> good_labels ms ->
  name_eq n m = Ret (bool_decide (canon ls = canon ms)).
Proof using All. apply name_eq_spec. Qed.

Lemma name_cmp_spec : name_cmp n m = Ret (rev_labels_cmp (reverse ls) (reverse ms)).
Proof using All.
  destruct Hn as [Rn _], Hm as [Rm _]. unfold name_cmp.
  apply name_cmp_loop_spec; rewrite ?reverse_involutive; try done.
  by rewrite length_reverse.
Qed.

(** [name_cmp] computes the canonical order of RFC 4034, section 6.1: it always
    returns, and what it returns is less or greater exactly if one name comes
    before the other when their labels are compared from the right as octet
    strings without regard of case, and equal exactly if the names have the same
    labels up to case.  (C34) *)
Theorem name_cmp_correct :
  exists c, name_cmp n m = Ret c /\
    (c = Lt <-> name_before ls ms) /\ (c = Gt <-> name_before ms ls) /\ (c = Eq <-> same_name ls ms).
Proof using All.
  eexists. split; [apply name_cmp_spec|]. split_and!.
  - apply name_before_cmp.
  - rewrite <- name_before_cmp, rev_labels_cmp_opp. by destruct (rev_labels_cmp _ _).
  - rewrite rev_labels_cmp_eq, same_name_canon. unfold reverse. rewrite <- !rev_alt, !map_rev.
    split; [apply rev_inj|by intros ->].
Qed.

(** [composed_cmp] orders absolute names by their wire format, and
    [lowercase_composed_cmp] by their wire format in lower case; neither ever
    reaches the [unreachable!]. *)
Theorem composed_cmp_correct :
  abs_labels ls -> abs_labels ms ->
  composed_cmp n m = Ret (iter_cmp (labels_wire ls) (labels_wire ms)) /\
  lowercase_composed_cmp n m =
    Ret (iter_cmp (map to_ascii_lowercase (labels_wire ls))
                  (map to_ascii_lowercase (labels_wire ms))).
Proof using All.
  intros Al Am. destruct Hn as (Rn & _ & Fn), Hm as (Rm & _ & Fm). split.
  - unfold composed_cmp.
    destruct (as_flat_slice n) as [s|] eqn:E1, (as_flat_slice m) as [t|] eqn:E2;
      try (rewrite (composed_cmp_loop_spec (fun l => l) _ _ _ _ ls ms) by done;
           by rewrite !map_id).
    by rewrite (Fn _ eq_refl), (Fm _ eq_refl).
  - unfold lowercase_composed_cmp.
    rewrite (composed_cmp_loop_spec label_make_canonical _ _ _ _ ls ms); try done.
    + by rewrite !labels_wire_canonical by auto with octets.
    + intros; apply length_map.
    + apply label_lowercase_composed_spec.
Qed.

(** [rrsig_label_count] counts the labels of an absolute name without the root
    label and without an initial asterisk. *)
Theorem rrsig_label_count_correct ls0 :
  ls = ls0 ++ [[]] -> Forall nonroot ls0 ->
  rrsig_label_count n =
    Ret (Z.of_nat (length ls0) -
         match ls0 with l :: _ => if label_is_wildcard l then 1 else 0 | [] => 0 end).
Proof using Hn Hln.
  clear Hm Hlm. intros -> Hr. destruct Hn as [Rn _]. unfold rrsig_label_count. unfold name_fuel in Hln.
  rewrite length_app in Hln; simpl in Hln.
  destruct ls0 as [|l ls0]; simpl in Rn;
    destruct (li_next_cons _ _ _ Rn) as (it' & -> & Rn');
    rewrite (count_loop_spec _ _ _ Rn') by (unfold name_fuel; rewrite ?length_app; simpl in *; lia).
  - reflexivity.
  - rewrite length_app; simpl in *. replace (length ls0 + 1)%nat with (S (length ls0)) by lia.
    simpl Nat.eqb; cbv iota.
    destruct (label_is_wildcard l); rewrite as_u8_id by ulia; f_equal; lia.
Qed.
End TraitTheorems.

(** ** Composing a name *)

(** A target after composing [s]: all of it on success, a prefix on an append
    error. *)
Definition appended {B} `{OctetsBuilder B} (b : B) (s : list Z) (r : B * bool) : Prop :=
  if r.2 then as_ref r.1 = as_ref b ++ s
  else exists p, p `prefix_of` s /\ as_ref r.1 = as_ref b ++ p.

Lemma Composes_appended {B} `{OctetsBuilder B} (f : composer B) s b :
  Composes f s -> appended b s (f b).
Proof. intros Hf. unfold appended. destruct (f b) as [b' ok] eqn:E. exact (Hf _ _ _ E). Qed.

Section ComposeTheorems.
Context {N I : Type} `{ToLabelIter N I} `{!LabelIterOk I}.
Context {B : Type} `{OctetsBuilderOk B}.
Context (n : N) (ls : list (list Z)).
Context (Hn : denotes n ls) (Hln : (length ls < name_fuel)%nat) (Hg : good_labels ls).

Lemma compose_labels_spec (f : list Z -> composer B) (enc : list Z -> list Z) b :
  (forall l, (length l <= LABEL_MAX_LEN)%nat -> Composes (f l) (enc l)) ->
  exists r, compose_labels f n b = Ret r /\ appended b (concat (map enc ls)) r.
Proof using All.
  intros Hf. destruct Hn as [Rn _]. unfold compose_labels.
  rewrite (collect_loop_spec _ _ _ Rn Hln). eexists; split; [done|].
  apply Composes_appended, compose_each_spec.
  intros l Hl. apply Hf. exact (proj1 (proj1 (list.Forall_forall _ _) Hg l Hl)).
Qed.

Lemma name_compose_spec (b : B) :
  exists r, name_compose n b = Ret r /\ appended b (labels_wire ls) r.
Proof using All.
  unfold name_compose. destruct (as_flat_slice n) as [s|] eqn:E.
  - destruct Hn as (_ & _ & Hs). rewrite (Hs _ E). eexists; split; [done|].
    apply Composes_appended, compose_slice_spec.
  - apply (compose_labels_spec _ label_wire). intros; by apply label_compose_spec.
Qed.

Lemma name_compose_canonical_spec (b : B) :
  exists r, name_compose_canonical n b = Ret r /\ appended b (map to_ascii_lowercase (labels_wire ls)) r.
Proof using All.
  rewrite <- labels_wire_canonical by auto with octets. unfold labels_wire. rewrite map_map.
  apply (compose_labels_spec _ (fun l => label_wire (label_make_canonical l))).
  intros; by apply label_compose_canonical_spec.
Qed.

(** Composing a name appends its wire format, uncompressed, whether it is
    copied from a flat slice or composed label by label; canonical composing
    appends it in lower case.  An append error leaves a prefix of it. *)
Theorem name_compose_correct (b : B) :
  (exists r, name_compose n b = Ret r /\ appended b (labels_wire ls) r) /\
  (exists r, name_compose_canonical n b = Ret r /\
     appended b (map to_ascii_lowercase (labels_wire ls)) r).
Proof using All. split; [apply name_compose_spec|apply name_compose_canonical_spec]. Qed.

(** Converting any name into a flat name gives its wire format; the canonical
    conversion gives it in lower case.  With a builder that cannot fail the
    conversion always succeeds. *)
Theorem to_name_correct `{!InfallibleBuilder B} :
  try_to_name (B:=B) n = Ret (Ok (labels_wire ls)) /\
  try_to_canonical_name (B:=B) n = Ret (Ok (map to_ascii_lowercase (labels_wire ls))).
Proof using All.
  unfold try_to_name, try_to_canonical_name. destruct Hn as (Rn & Hc & _). rewrite Hc.
  rewrite <- labels_wire_canonical by auto with octets.
  assert (Hcat : labels_wire (canon ls) =
    concat (map (fun l => label_wire (label_make_canonical l)) ls)).
  { unfold labels_wire. by rewrite map_map. }
  rewrite Hcat. split.
  - destruct (compose_labels_spec label_compose label_wire builder_empty) as (r & Hr & Ha);
      [intros; by apply label_compose_spec|].
    unfold compose_labels in *. rewrite (collect_loop_spec _ _ _ Rn Hln) in *.
    destruct (compose_each_total label_compose ls (fun l _ => label_compose_total l)
      builder_empty) as [b' Hb]. rewrite Hb in *. simplify_eq.
    unfold appended in Ha; simpl in Ha. by rewrite freeze_as_ref, Ha, as_ref_empty.
  - destruct (compose_labels_spec label_compose_canonical
      (fun l => label_wire (label_make_canonical l)) builder_empty) as (r & Hr & Ha);
      [intros; by apply label_compose_canonical_spec|].
    unfold compose_labels in *. rewrite (collect_loop_spec _ _ _ Rn Hln) in *.
    assert (Ht : forall l, NeverFails (B:=B) (label_compose_canonical l)).
    { intros l. apply compose_seq_total; [apply compose_slice_total|].
      apply compose_each_total. intros; apply compose_slice_total. }
    destruct (compose_each_total label_compose_canonical ls (fun l _ => Ht l)
      builder_empty) as [b' Hb]. rewrite Hb in *. simplify_eq.
    unfold appended in Ha; simpl in Ha. by rewrite freeze_as_ref, Ha, as_ref_empty.
Qed.
End ComposeTheorems.
