(* ===== verification/Name.v ===== *)
(** * Uncompressed names ([src/src/base/name/absolute.rs], [relative.rs])

    [Name] and [RelativeName] wrap octets that hold a sequence of labels in wire
    format; an absolute name ends with the root label.  The file models their
    checks, label iterator, slicing by label boundaries, suffixes, parsing and
    display, and proves that [NameIter] keeps the promise of [LabelIterOk]. *)

From S2P Require Import Prelude Octets Symbol Label Traits.
From stdpp Require Import strings.
#[local] Open Scope Z_scope.

Definition NAME_MAX_LEN : nat := 255.

Record Name := mkName { name_octets : list Z }.
Record RelativeName := mkRel { rel_octets : list Z }.

#[export] Instance Name_eq_dec : EqDecision Name.
Proof. solve_decision. Defined.
#[export] Instance RelativeName_eq_dec : EqDecision RelativeName.
Proof. solve_decision. Defined.

(** [DnameErrorEnum] of [absolute.rs]. *)
Inductive NameError :=
  | NBadLabel (e : LabelTypeError) | NCompressedName | NLongName | NRelativeName
  | NTrailingData | NShortInput.

(** [RelativeNameErrorEnum] of [relative.rs]. *)
Inductive RelativeNameError :=
  | RBadLabel (e : LabelTypeError) | RCompressedName | RShortInput | RLongName | RAbsoluteName.

Definition name_error_from_split (e : SplitLabelError) : NameError :=
  match e with
  | SPointer _ => NCompressedName
  | SBadType t => NBadLabel t
  | SShortInput => NShortInput
  end.

Definition rel_error_from_split (e : SplitLabelError) : RelativeNameError :=
  match e with
  | SPointer _ => RCompressedName
  | SBadType t => RBadLabel t
  | SShortInput => RShortInput
  end.

(** [From<NameError> for FormError]. *)
Definition name_error_to_form (e : NameError) : FormError :=
  form_error
    match e with
    | NBadLabel _ => "unknown label type"
    | NCompressedName => "compressed domain name"
    | NLongName => "long domain name"
    | NRelativeName => "relative domain name"
    | NTrailingData => "trailing data in buffer"
    | NShortInput => "unexpected end of buffer"
    end.

(** [From<NameError> for ParseError]. *)
Definition name_error_to_parse (e : NameError) : ParseError :=
  match e with
  | NShortInput => PShortInput
  | _ => PForm (name_error_to_form e)
  end.

(** ** Checking octets *)

(** The [loop] of [Name::check_slice]; every round takes an octet, so fuel of
    the length of the slice plus one is enough. *)
Fixpoint name_check_loop (fuel : nat) (s : list Z) : result unit NameError :=
  match fuel with
  | O => Err NShortInput
  | S fuel' =>
      let? (label, tail) := map_err name_error_from_split (label_split_from s) in
      if label_is_root label then
        if (length tail =? 0)%nat then Ok () else Err NTrailingData
      else if (length tail =? 0)%nat then Err NRelativeName
      else name_check_loop fuel' tail
  end.

Definition name_check_slice (s : list Z) : result unit NameError :=
  if (NAME_MAX_LEN <? length s)%nat then Err NLongName
  else name_check_loop (S (length s)) s.

Definition name_from_octets (s : list Z) : result Name NameError :=
  let? _ := name_check_slice s in Ok (mkName s).

Definition name_root : Name := mkName [0].

(** The [while] loop of [RelativeName::check_slice]. *)
Fixpoint rel_check_loop (fuel : nat) (s : list Z) : result unit RelativeNameError :=
  match fuel with
  | O => Ok ()
  | S fuel' =>
      if (length s =? 0)%nat then Ok ()
      else
        let? (label, tail) := map_err rel_error_from_split (label_split_from s) in
        if label_is_root label then Err RAbsoluteName else rel_check_loop fuel' tail
  end.

Definition rel_check_slice (s : list Z) : result unit RelativeNameError :=
  if (254 <? length s)%nat then Err RLongName
  else rel_check_loop (S (length s)) s.

Definition rel_from_octets (s : list Z) : result RelativeName RelativeNameError :=
  let? _ := rel_check_slice s in Ok (mkRel s).

Definition rel_empty : RelativeName := mkRel [].
Definition rel_wildcard : RelativeName := mkRel [1; 42].

(** ** The label iterator *)

Record NameIter := mkNameIter { ni_slice : list Z }.

Definition name_iter_next (it : NameIter) : outcome (option (list Z) * NameIter) :=
  match label_split_from (ni_slice it) with
  | Ok (label, tail) => Ret (Some label, mkNameIter tail)
  | Err _ => Ret (None, it)
  end.

(** The [loop] of [next_back]: walks to the last label of [tmp]. *)
Fixpoint name_iter_back_loop (fuel : nat) (slice tmp : list Z)
    : outcome (option (list Z) * NameIter) :=
  match fuel with
  | O => Panic
  | S fuel' =>
      match label_split_from tmp with
      | Err _ => Panic
      | Ok (label, tail) =>
          if (length tail =? 0)%nat then
            let stop := (length slice - (length label + 1))%nat in
            Ret (Some label, mkNameIter (take stop slice))
          else name_iter_back_loop fuel' slice tail
      end
  end.

Definition name_iter_next_back (it : NameIter) : outcome (option (list Z) * NameIter) :=
  if (length (ni_slice it) =? 0)%nat then Ret (None, it)
  else name_iter_back_loop (length (ni_slice it)) (ni_slice it) (ni_slice it).

#[export] Instance name_label_iter : LabelIter NameIter := {|
  li_next := name_iter_next;
  li_next_back := name_iter_next_back
|}.

Definition name_iter (n : Name) : NameIter := mkNameIter (name_octets n).
Definition rel_iter (n : RelativeName) : NameIter := mkNameIter (rel_octets n).

(** [u16::try_from(len).expect("long domain name")]. *)
Definition octets_compose_len (s : list Z) : outcome Z :=
  if zlen s <? 2 ^ 16 then Ret (zlen s) else Panic.

Definition name_compose_len (n : Name) : outcome Z := octets_compose_len (name_octets n).
Definition rel_compose_len (n : RelativeName) : outcome Z := octets_compose_len (rel_octets n).

#[export] Instance name_to_label_iter : ToLabelIter Name NameIter := {|
  iter_labels := name_iter;
  compose_len := name_compose_len;
  as_flat_slice := fun n => Some (name_octets n)
|}.

#[export] Instance rel_to_label_iter : ToLabelIter RelativeName NameIter := {|
  iter_labels := rel_iter;
  compose_len := rel_compose_len;
  as_flat_slice := fun n => Some (rel_octets n)
|}.

(** ** Properties and single labels *)

Definition name_is_root (n : Name) : bool := (length (name_octets n) =? 1)%nat.

Definition name_label_count (n : Name) : outcome nat := count_loop name_fuel (name_iter n).

(** [self.iter().next().unwrap()]. *)
Definition name_first (n : Name) : outcome (list Z) :=
  let! (l, _) := name_iter_next (name_iter n) in
  match l with Some l => Ret l | None => Panic end.

Definition name_last (n : Name) : list Z := label_root.

Definition rel_is_empty (n : RelativeName) : bool := (length (rel_octets n) =? 0)%nat.
Definition rel_label_count (n : RelativeName) : outcome nat := count_loop name_fuel (rel_iter n).
Definition rel_first (n : RelativeName) : outcome (option (list Z)) :=
  let! (l, _) := name_iter_next (rel_iter n) in Ret l.
Definition rel_last (n : RelativeName) : outcome (option (list Z)) :=
  let! (l, _) := name_iter_next_back (rel_iter n) in Ret l.

Definition rel_ndots (n : RelativeName) : outcome nat :=
  if rel_is_empty n then Ret 0%nat
  else let! c := rel_label_count n in
       if (c =? 0)%nat then Panic else Ret (c - 1)%nat.

(** ** Label boundaries *)

(** The [while] loop of [Name::is_label_start]. *)
Fixpoint name_label_start_loop (fuel : nat) (tmp : list Z) (index : nat) : outcome bool :=
  match fuel with
  | O => Ret false
  | S fuel' =>
      if (length tmp =? 0)%nat then Ret false
      else match label_split_from tmp with
      | Err _ => Panic
      | Ok (label, tail) =>
          let len := (length label + 1)%nat in
          if (index <? len)%nat || (len =? 1)%nat then Ret false
          else if (index =? len)%nat then Ret true
          else name_label_start_loop fuel' tail (index - len)
      end
  end.

Definition name_is_label_start (n : Name) (index : nat) : outcome bool :=
  if (index =? 0)%nat then Ret true
  else name_label_start_loop (S (length (name_octets n))) (name_octets n) index.

(** The [while] loop of [RelativeName::is_label_start]. *)
Fixpoint rel_label_start_loop (fuel : nat) (tmp : list Z) (index : nat) : outcome bool :=
  match fuel with
  | O => Ret false
  | S fuel' =>
      if (length tmp =? 0)%nat then Ret false
      else match label_split_from tmp with
      | Err _ => Panic
      | Ok (label, tail) =>
          let len := (length label + 1)%nat in
          match Nat.compare index len with
          | Lt => Ret false
          | Eq => Ret true
          | Gt => rel_label_start_loop fuel' tail (index - len)
          end
      end
  end.

Definition rel_is_label_start (n : RelativeName) (index : nat) : outcome bool :=
  if (index =? 0)%nat then Ret true
  else rel_label_start_loop (S (length (rel_octets n))) (rel_octets n) index.

Definition name_check_index (n : Name) (index : nat) : outcome unit :=
  let! ok := name_is_label_start n index in if ok : bool then Ret () else Panic.

Definition rel_check_index (n : RelativeName) (index : nat) : outcome unit :=
  let! ok := rel_is_label_start n index in if ok : bool then Ret () else Panic.

(** [core::ops::Bound]. *)
Inductive Bound := Included (idx : nat) | Excluded (idx : nat) | Unbounded.

(** [idx.checked_add(1).expect("end bound too big")]. *)
Definition next_index (idx : nat) : outcome nat :=
  if USIZE_MAX <=? Z.of_nat idx then Panic else Ret (idx + 1)%nat.

Definition name_check_bounds (n : Name) (lo hi : Bound) : outcome unit :=
  let! _ := match lo with
            | Included idx => name_check_index n idx
            | Excluded _ => Panic
            | Unbounded => Ret ()
            end in
  match hi with
  | Included idx => let! idx := next_index idx in name_check_index n idx
  | Excluded idx => name_check_index n idx
  | Unbounded => Panic
  end.

Definition rel_check_bounds (n : RelativeName) (lo hi : Bound) : outcome unit :=
  let! _ := match lo with
            | Included idx => rel_check_index n idx
            | Excluded _ => Panic
            | Unbounded => Ret ()
            end in
  match hi with
  | Included idx => let! idx := next_index idx in rel_check_index n idx
  | Excluded idx => rel_check_index n idx
  | Unbounded => Ret ()
  end.

(** Indexing a slice with a range, which panics out of range. *)
Definition slice_range (s : list Z) (lo hi : nat) : outcome (list Z) :=
  if (lo <=? hi)%nat && (hi <=? length s)%nat then Ret (take (hi - lo) (drop lo s)) else Panic.

Definition bound_lo (lo : Bound) : nat :=
  match lo with Included i => i | Excluded i => (i + 1)%nat | Unbounded => 0%nat end.
Definition bound_hi (s : list Z) (hi : Bound) : nat :=
  match hi with Included i => (i + 1)%nat | Excluded i => i | Unbounded => length s end.

(** [Name::range]; [Name::slice] is the same on a slice. *)
Definition name_range (n : Name) (lo hi : Bound) : outcome RelativeName :=
  let! _ := name_check_bounds n lo hi in
  let! s := slice_range (name_octets n) (bound_lo lo) (bound_hi (name_octets n) hi) in
  Ret (mkRel s).

(** [Name::range_from]; [Name::slice_from] is the same on a slice. *)
Definition name_range_from (n : Name) (start : nat) : outcome Name :=
  let! _ := name_check_index n start in
  let! s := slice_range (name_octets n) start (length (name_octets n)) in
  Ret (mkName s).

Definition rel_range (n : RelativeName) (lo hi : Bound) : outcome RelativeName :=
  let! _ := rel_check_bounds n lo hi in
  let! s := slice_range (rel_octets n) (bound_lo lo) (bound_hi (rel_octets n) hi) in
  Ret (mkRel s).

Definition name_split (n : Name) (mid : nat) : outcome (RelativeName * Name) :=
  let! _ := name_check_index n mid in
  let! a := slice_range (name_octets n) 0 mid in
  let! b := slice_range (name_octets n) mid (length (name_octets n)) in
  Ret (mkRel a, mkName b).

Definition rel_split (n : RelativeName) (mid : nat) : outcome (RelativeName * RelativeName) :=
  let! _ := rel_check_index n mid in
  let! a := slice_range (rel_octets n) 0 mid in
  let! b := slice_range (rel_octets n) mid (length (rel_octets n)) in
  Ret (mkRel a, mkRel b).

Definition name_truncate (n : Name) (len : nat) : outcome RelativeName :=
  let! _ := name_check_index n len in Ret (mkRel (take len (name_octets n))).

Definition rel_truncate (n : RelativeName) (len : nat) : outcome RelativeName :=
  let! _ := rel_check_index n len in Ret (mkRel (take len (rel_octets n))).

Definition name_into_relative (n : Name) : RelativeName :=
  mkRel (take (length (name_octets n) - 1) (name_octets n)).

Definition name_split_first (n : Name) : outcome (option (list Z * Name)) :=
  let! len := name_compose_len n in
  if len =? 1 then Ret None
  else let! label := name_first n in
       let! (_, rest) := name_split n (length label + 1) in
       Ret (Some (label, rest)).

Definition name_parent (n : Name) : outcome (option Name) :=
  let! r := name_split_first n in Ret (option_map snd r).

Definition rel_split_first (n : RelativeName) : outcome (option (list Z * RelativeName)) :=
  if rel_is_empty n then Ret None
  else let! l := rel_first n in
       match l with
       | None => Ret None
       | Some label =>
           let! (_, rest) := rel_split n (length label + 1) in
           Ret (Some (label, rest))
       end.

Definition rel_parent (n : RelativeName) : outcome (option RelativeName) :=
  let! r := rel_split_first n in Ret (option_map snd r).

(** [Name::strip_suffix]: the outer error carries the unmodified name. *)
Definition name_strip_suffix {M J} `{ToLabelIter M J} (n : Name) (base : M)
    : outcome (result RelativeName Name) :=
  let! e := ends_with n base in
  if e : bool then
    let! blen := compose_len base in
    if (zlen (name_octets n)) <? blen then Panic
    else let! r := name_truncate n (Z.to_nat (zlen (name_octets n) - blen)) in Ret (Ok r)
  else Ret (Err n).

Definition rel_strip_suffix {M J} `{ToLabelIter M J} (n : RelativeName) (base : M)
    : outcome (result RelativeName unit) :=
  let! e := ends_with n base in
  if e : bool then
    let! blen := compose_len base in
    if (zlen (rel_octets n)) <? blen then Panic
    else Ret (Ok (mkRel (take (Z.to_nat (zlen (rel_octets n) - blen)) (rel_octets n))))
  else Ret (Err ()).

(** ** Canonical form *)

Definition name_make_canonical (n : Name) : outcome Name :=
  let! s := slice_canonical (name_octets n) in Ret (mkName s).

Definition rel_make_canonical (n : RelativeName) : outcome RelativeName :=
  let! s := slice_canonical (rel_octets n) in Ret (mkRel s).

(** ** Suffixes *)

Record SuffixIter := mkSuffixIter { si_name : Name; si_start : option nat }.

Definition name_iter_suffixes (n : Name) : SuffixIter := mkSuffixIter n (Some 0%nat).

Definition suffix_iter_next (it : SuffixIter) : outcome (option Name * SuffixIter) :=
  match si_start it with
  | None => Ret (None, it)
  | Some start =>
      let! s := slice_range (name_octets (si_name it)) start (length (name_octets (si_name it))) in
      let res := mkName s in
      let! label := name_first res in
      if label_is_root label then Ret (Some res, mkSuffixIter (si_name it) None)
      else let! clen := label_compose_len label in
           Ret (Some res, mkSuffixIter (si_name it) (Some (start + Z.to_nat clen)%nat))
  end.

(** ** Parsing *)

(** The [loop] of [Name::parse_name_len]: what is left after the root label. *)
Fixpoint parse_name_len_loop (fuel : nat) (tmp : list Z) : result (list Z) ParseError :=
  match fuel with
  | O => Err PShortInput
  | S fuel' =>
      if (length tmp =? 0)%nat then Err PShortInput
      else let? (label, tail) := map_err split_error_to_parse (label_split_from tmp) in
           if label_is_root label then Ok tail else parse_name_len_loop fuel' tail
  end.

Section NameParse.
Context {P : Type} `{OctetsParser P}.

Definition name_parse_name_len (p : P) : result nat ParseError :=
  let? tmp := parse_name_len_loop (S (length (p_peek_all p))) (p_peek_all p) in
  let len := (p_remaining p - length tmp)%nat in
  if (NAME_MAX_LEN <? len)%nat then Err (name_error_to_parse NLongName) else Ok len.

Definition name_parse (p : P) : result (Name * P) ParseError :=
  let? len := name_parse_name_len p in
  let? (s, p') := short (p_parse_octets p len) in
  Ok (mkName s, p').
End NameParse.

(** ** Display *)

(** The labels after the first, each preceded by a dot, without the root. *)
Definition fmt_rest (ls : list (list Z)) : list Z :=
  concat (map (fun l => if label_is_root l then [] else 46 :: label_fmt l) ls).

Definition name_fmt (n : Name) : outcome (list Z) :=
  if name_is_root n then Ret [46]
  else let! (first, it) := name_iter_next (name_iter n) in
       match first with
       | None => Panic
       | Some l => let! rest := collect_loop name_fuel it in Ret (label_fmt l ++ fmt_rest rest)
       end.

Definition rel_fmt (n : RelativeName) : outcome (list Z) :=
  let! (first, it) := name_iter_next (rel_iter n) in
  match first with
  | None => Ret []
  | Some l =>
      let! rest := collect_loop name_fuel it in
      Ret (label_fmt l ++ concat (map (fun l => 46 :: label_fmt l) rest))
  end.

(** [DisplayWithDot] of [traits.rs]. *)
Definition fmt_with_dot {N I} `{ToLabelIter N I} (n : N) : outcome (list Z) :=
  let! (first, it) := li_next (iter_labels n) in
  match first with
  | None => Panic
  | Some l =>
      if label_is_root l then Ret [46]
      else let! rest := collect_loop name_fuel it in
           Ret (label_fmt l ++ concat (map (fun l => 46 :: label_fmt l) rest))
  end.

(** ** Well-formed names *)

Definition wf_abs (n : Name) (ls : list (list Z)) : Prop :=
  abs_labels ls /\ name_octets n = labels_wire ls /\ (length (name_octets n) <= NAME_MAX_LEN)%nat.

Definition wf_rel (n : RelativeName) (ls : list (list Z)) : Prop :=
  rel_labels ls /\ rel_octets n = labels_wire ls /\ (length (rel_octets n) <= 254)%nat.

Definition short_labels (ls : list (list Z)) : Prop :=
  Forall (fun l => (length l <= LABEL_MAX_LEN)%nat) ls.

Lemma good_short_labels ls : good_labels ls -> short_labels ls.
Proof. apply good_labels_short. Qed.

#[export] Hint Resolve good_short_labels : octets.

Lemma wf_abs_fuel n ls : wf_abs n ls -> (length ls < name_fuel)%nat.
Proof.
  intros (_ & E & Hl). rewrite E in Hl. pose proof (labels_wire_length ls).
  unfold NAME_MAX_LEN, name_fuel in *; lia.
Qed.

Lemma wf_rel_fuel n ls : wf_rel n ls -> (length ls < name_fuel)%nat.
Proof.
  intros (_ & E & Hl). rewrite E in Hl. pose proof (labels_wire_length ls).
  unfold name_fuel in *; lia.
Qed.

Lemma label_is_root_spec l : label_is_root l = true <-> l = [].
Proof. unfold label_is_root. rewrite Nat.eqb_eq. apply length_zero_iff_nil. Qed.

Lemma nonroot_is_root l : nonroot l -> label_is_root l = false.
Proof. intros [[H _] _]. unfold label_is_root. apply Nat.eqb_neq; lia. Qed.

Lemma abs_labels_nonnil ls : abs_labels ls -> ls <> [].
Proof. by intros ([] & -> & _). Qed.

Lemma labels_wire_nonnil ls : ls <> [] -> length (labels_wire ls) <> 0%nat.
Proof. destruct ls; [done|]. rewrite labels_wire_cons. simpl; lia. Qed.

Lemma length_eqb_0 {A} (l : list A) : (length l =? 0)%nat = bool_decide (l = []).
Proof. by destruct l. Qed.

Lemma name_check_loop_ok fuel s :
  wf_octets s -> (length s < fuel)%nat ->
  name_check_loop fuel s = Ok () <-> exists ls, abs_labels ls /\ s = labels_wire ls.
Proof.
  revert s; induction fuel as [|fuel IH]; intros s Hs Hf; [lia|]. simpl. split.
  - destruct (label_split_from s) as [[l t]|e] eqn:E; simpl; [|done].
    pose proof (label_split_from_shorter _ _ _ E).
    apply label_split_from_ok in E as [-> Hl]. apply wf_octets_app in Hs as [Hw Ht].
    apply Forall_uncons in Hw as [_ Hw].
    destruct (label_is_root l) eqn:Er; rewrite length_eqb_0; case_bool_decide as Hn; try done.
    + intros _. apply label_is_root_spec in Er as ->. subst t. exists [[]]. split; [|done].
      by exists [].
    + intros Hc. apply IH in Hc as (ls & Ha & ->); [|done|lia].
      exists (l :: ls). split; [|done]. apply abs_labels_cons; right. split; [|done].
      split; [|done]. split; [|done]. destruct l; [done|simpl; lia].
  - intros (ls & Ha & ->). destruct ls as [|l ls]; [by apply abs_labels_nonnil in Ha|].
    rewrite labels_wire_cons in *. change (zlen l :: l ++ ?x) with (label_wire l ++ x) in *.
    apply abs_labels_cons in Ha as [[-> ->]|[Hl Ha]]; [done|].
    rewrite label_split_from_wire by (by destruct Hl as [[]]). simpl map_err; cbv iota beta.
    rewrite nonroot_is_root by done. rewrite length_eqb_0, bool_decide_false.
    2: { intros E%(f_equal length). by apply labels_wire_nonnil in E; [|by apply abs_labels_nonnil]. }
    apply wf_octets_app in Hs as [_ Hs]. rewrite length_app in Hf; simpl in Hf.
    apply IH; [done|lia|eauto].
Qed.

(** [Name::from_octets] accepts exactly the octets of an absolute name: labels of
    1 to 63 octets, then the root label and nothing after it, at most 255 octets
    in all.  (C33) *)
Theorem name_from_octets_correct s n :
  wf_octets s ->
  name_from_octets s = Ok n <-> name_octets n = s /\ exists ls, wf_abs n ls.
Proof.
  intros Hs. unfold name_from_octets, name_check_slice, wf_abs.
  destruct (Nat.ltb_spec NAME_MAX_LEN (length s)) as [Hl|Hl].
  { split; [done|]. intros (<- & ls & _ & _ & ?). lia. }
  pose proof (name_check_loop_ok (S (length s)) s Hs ltac:(lia)) as Hc. split.
  - destruct (name_check_loop _ _) as [[]|e] eqn:E; [|done]. intros [= <-]. split; [done|].
    destruct (proj1 Hc eq_refl) as (ls & Ha & ->). by exists ls.
  - intros (<- & ls & Ha & E & _). rewrite (proj2 Hc) by eauto. by destruct n.
Qed.

Lemma name_from_octets_correct_witness :
  name_from_octets [1; 97; 0] = Ok (mkName [1; 97; 0]) /\ exists ls, wf_abs (mkName [1; 97; 0]) ls.
Proof.
  assert (Hs : wf_octets [1; 97; 0]) by (repeat constructor; unfold is_u8; lia).
  split; [reflexivity|]. apply (name_from_octets_correct _ (mkName [1; 97; 0]) Hs). reflexivity.
Defined.

Lemma rel_check_loop_ok fuel s :
  wf_octets s -> (length s < fuel)%nat ->
  rel_check_loop fuel s = Ok () <-> exists ls, rel_labels ls /\ s = labels_wire ls.
Proof.
  revert s; induction fuel as [|fuel IH]; intros s Hs Hf; [lia|].
  cbn [rel_check_loop]. rewrite length_eqb_0. case_bool_decide as Hn.
  { subst; split; [|done]. intros _; exists []; split; [constructor|done]. }
  split.
  - destruct (label_split_from s) as [[l t]|e] eqn:E; simpl; [|done].
    pose proof (label_split_from_shorter _ _ _ E).
    apply label_split_from_ok in E as [-> Hl]. apply wf_octets_app in Hs as [Hw Ht].
    apply Forall_uncons in Hw as [_ Hw]. destruct (label_is_root l) eqn:Er; [done|].
    intros Hc. apply IH in Hc as (ls & Ha & ->); [|done|lia].
    exists (l :: ls). split; [|done]. constructor; [|done]. split; [|done].
    split; [|done]. destruct l; [done|simpl; lia].
  - intros (ls & Ha & ->). destruct ls as [|l ls]; [done|].
    rewrite labels_wire_cons in *. change (zlen l :: l ++ ?x) with (label_wire l ++ x) in *.
    apply Forall_uncons in Ha as [Hl Ha].
    rewrite label_split_from_wire by (by destruct Hl as [[]]). simpl map_err; cbv iota beta.
    rewrite nonroot_is_root by done.
    apply wf_octets_app in Hs as [_ Hs]. rewrite length_app in Hf; simpl in Hf.
    apply IH; [done|lia|eauto].
Qed.

(** [RelativeName::from_octets] accepts exactly the octets of a relative name:
    labels of 1 to 63 octets, at most 254 octets in all. *)
Theorem rel_from_octets_correct s n :
  wf_octets s ->
  rel_from_octets s = Ok n <-> rel_octets n = s /\ exists ls, wf_rel n ls.
Proof.
  intros Hs. unfold rel_from_octets, rel_check_slice, wf_rel.
  destruct (Nat.ltb_spec 254 (length s)) as [Hl|Hl].
  { split; [done|]. intros (<- & ls & _ & _ & ?). lia. }
  pose proof (rel_check_loop_ok (S (length s)) s Hs ltac:(lia)) as Hc. split.
  - destruct (rel_check_loop _ _) as [[]|e] eqn:E; [|done]. intros [= <-]. split; [done|].
    destruct (proj1 Hc eq_refl) as (ls & Ha & ->). by exists ls.
  - intros (<- & ls & Ha & E & _). rewrite (proj2 Hc) by eauto. by destruct n.
Qed.

Lemma rel_from_octets_correct_witness :
  rel_from_octets [1; 97; 2; 98; 98] = Ok (mkRel [1; 97; 2; 98; 98]) /\
  exists ls, wf_rel (mkRel [1; 97; 2; 98; 98]) ls.
Proof.
  assert (Hs : wf_octets [1; 97; 2; 98; 98]) by (repeat constructor; unfold is_u8; lia).
  split; [reflexivity|].
  apply (rel_from_octets_correct _ (mkRel [1; 97; 2; 98; 98]) Hs). reflexivity.
Defined.

(** ** The iterator keeps its promise *)

Definition name_iter_rel (it : NameIter) (ls : list (list Z)) : Prop :=
  short_labels ls /\ ni_slice it = labels_wire ls.

Lemma name_iter_back_loop_spec slice ls l fuel :
  short_labels (ls ++ [l]) -> (length ls < fuel)%nat ->
  name_iter_back_loop fuel slice (labels_wire (ls ++ [l])) =
    Ret (Some l, mkNameIter (take (length slice - (length l + 1)) slice)).
Proof.
  revert fuel; induction ls as [|m ls IH]; intros fuel Hs Hf; (destruct fuel as [|fuel]; [simpl in *; lia|]);
    cbn [app name_iter_back_loop] in *; rewrite labels_wire_cons;
    change (zlen ?m :: ?m ++ ?x) with (label_wire m ++ x);
    apply Forall_uncons in Hs as [Hm Hs]; rewrite label_split_from_wire by done.
  - done.
  - rewrite length_eqb_0, bool_decide_false.
    + apply IH; [done|simpl in *; lia].
    + intros E%(f_equal length). apply labels_wire_nonnil in E; [done|]. by destruct ls.
Qed.

#[export, program] Instance name_iter_ok : LabelIterOk NameIter := {| li_rel := name_iter_rel |}.
Next Obligation.
  intros it [_ E]. exists it. simpl; unfold name_iter_next. rewrite E.
  split; [done|]. by split; [constructor|].
Qed.
Next Obligation.
  intros it l ls [Hs E]. apply Forall_uncons in Hs as [Hl Hs].
  exists (mkNameIter (labels_wire ls)). simpl; unfold name_iter_next. rewrite E, labels_wire_cons.
  change (zlen l :: l ++ ?x) with (label_wire l ++ x). by rewrite label_split_from_wire.
Qed.
Next Obligation.
  intros it [_ E]. exists it. simpl; unfold name_iter_next_back. rewrite E.
  split; [done|]. by split; [constructor|].
Qed.
Next Obligation.
  intros it l ls [Hs E]. simpl; unfold name_iter_next_back. rewrite E, length_eqb_0.
  rewrite bool_decide_false.
  2: { intros E'%(f_equal length). apply labels_wire_nonnil in E'; [done|]. by destruct ls. }
  rewrite name_iter_back_loop_spec; [|done|].
  2: { pose proof (labels_wire_length (ls ++ [l])) as Hl. rewrite length_app in Hl; simpl in Hl; lia. }
  eexists; split; [done|]. apply Forall_app in Hs as [Hs _]. split; [done|]. simpl.
  rewrite labels_wire_app, length_app, labels_wire_cons; simpl. rewrite app_nil_r.
  replace (length (labels_wire ls) + S (length l) - (length l + 1))%nat
    with (length (labels_wire ls)) by lia.
  by rewrite take_app_length.
Qed.

Lemma wf_abs_denotes n ls : wf_abs n ls -> denotes n ls.
Proof.
  intros (Ha & E & Hl). split_and!.
  - split; [auto with octets|done].
  - simpl. unfold name_compose_len, octets_compose_len. rewrite E in *.
    unfold NAME_MAX_LEN in Hl. destruct (Z.ltb_spec (zlen (labels_wire ls)) (2 ^ 16)); [done|ulia].
  - intros s [= <-]. done.
Qed.

Lemma wf_rel_denotes n ls : wf_rel n ls -> denotes n ls.
Proof.
  intros (Ha & E & Hl). split_and!.
  - split; [auto with octets|done].
  - simpl. unfold rel_compose_len, octets_compose_len. rewrite E in *.
    destruct (Z.ltb_spec (zlen (labels_wire ls)) (2 ^ 16)); [done|ulia].
  - intros s [= <-]. done.
Qed.

(** ** Label boundaries *)

(** [idx] is the position of a label boundary that has [ls2] behind it. *)
Definition boundary (ls : list (list Z)) (idx : nat) (ls1 ls2 : list (list Z)) : Prop :=
  ls = ls1 ++ ls2 /\ idx = length (labels_wire ls1).

(** Boundaries behind the first label are boundaries of the remaining labels. *)
Lemma boundary_cons l ls idx ls1 ls2 :
  boundary (l :: ls) idx ls1 ls2 ->
  (idx = 0%nat /\ ls1 = [] /\ ls2 = l :: ls) \/
  exists ls1', ls1 = l :: ls1' /\ (length l + 1 <= idx)%nat /\
    boundary ls (idx - (length l + 1)) ls1' ls2.
Proof.
  intros [E ->]. destruct ls1 as [|l' ls1]; simpl in E; [left; by subst|].
  injection E as <- E. right. exists ls1. rewrite labels_wire_cons. simpl.
  rewrite length_app. split; [done|]. split; [lia|]. split; [done|lia].
Qed.

Lemma boundary_push l ls idx ls1 ls2 :
  boundary ls idx ls1 ls2 -> boundary (l :: ls) (length l + 1 + idx) (l :: ls1) ls2.
Proof.
  intros [-> ->]. split; [done|]. rewrite labels_wire_cons; simpl. rewrite length_app. lia.
Qed.

Lemma name_label_start_loop_spec fuel ls idx :
  abs_labels ls -> (0 < idx)%nat -> (length ls < fuel)%nat ->
  exists b, name_label_start_loop fuel (labels_wire ls) idx = Ret b /\
    (b = true <-> exists ls1 ls2, boundary ls idx ls1 ls2 /\ ls2 <> []).
Proof.
  intros Ha; revert fuel idx Ha.
  induction ls as [|l ls IH]; intros fuel idx Ha Hi Hf; [by apply abs_labels_nonnil in Ha|].
  destruct fuel as [|fuel]; [lia|]. cbn [name_label_start_loop].
  rewrite length_eqb_0, bool_decide_false by (by rewrite labels_wire_cons).
  rewrite labels_wire_cons. change (zlen l :: l ++ ?x) with (label_wire l ++ x).
  apply abs_labels_cons in Ha as [[-> ->]|[Hl Ha]].
  - exists false. simpl. rewrite orb_true_r. split; [done|]. split; [done|].
    intros (ls1 & ls2 & Hb & Hn). apply boundary_cons in Hb as [[-> _]|(ls1' & _ & _ & E & _)]; [lia|].
    by symmetry in E; apply app_eq_nil in E as [_ ?].
  - pose proof Hl as [[H0 H63] _]. rewrite label_split_from_wire by done.
    destruct (Nat.eqb_spec (length l + 1) 1); [lia|]. rewrite orb_false_r.
    destruct (Nat.ltb_spec idx (length l + 1)) as [Hlt|Hge].
    + exists false. split; [done|]. split; [done|]. intros (ls1 & ls2 & Hb & Hn).
      apply boundary_cons in Hb as [[-> _]|(ls1' & _ & ? & _)]; lia.
    + destruct (Nat.eqb_spec idx (length l + 1)) as [->|Hne].
      * exists true. split; [done|]. split; [|done]. intros _. exists [l], ls.
        split; [|by apply abs_labels_nonnil].
        split; [done|]. rewrite labels_wire_cons; simpl. rewrite length_app; simpl. lia.
      * destruct (IH fuel (idx - (length l + 1))%nat Ha) as (b & -> & Hb); [lia|simpl in Hf; lia|].
        exists b. split; [done|]. rewrite Hb. split; intros (ls1 & ls2 & Hbd & Hn).
        -- exists (l :: ls1), ls2. split; [|done].
           apply (boundary_push l) in Hbd.
           by replace (length l + 1 + (idx - (length l + 1)))%nat with idx in Hbd by lia.
        -- apply boundary_cons in Hbd as [[-> _]|(ls1' & _ & _ & Hbd)]; [lia|]. eauto.
Qed.

(** [Name::is_label_start] holds exactly at the label boundaries, the position
    of the root label included. *)
Lemma name_is_label_start_spec n ls idx :
  wf_abs n ls ->
  exists b, name_is_label_start n idx = Ret b /\
    (b = true <-> exists ls1 ls2, boundary ls idx ls1 ls2 /\ ls2 <> []).
Proof.
  intros (Ha & E & _). unfold name_is_label_start. rewrite E.
  destruct (Nat.eqb_spec idx 0) as [->|Hi].
  - exists true. split; [done|]. split; [|done]. intros _. exists [], ls.
    split; [by split|by apply abs_labels_nonnil].
  - apply name_label_start_loop_spec; [done|lia|].
    pose proof (labels_wire_length ls). lia.
Qed.

Lemma rel_label_start_loop_spec fuel ls idx :
  rel_labels ls -> (0 < idx)%nat -> (length ls < fuel)%nat ->
  exists b, rel_label_start_loop fuel (labels_wire ls) idx = Ret b /\
    (b = true <-> exists ls1 ls2, boundary ls idx ls1 ls2).
Proof.
  intros Ha; revert fuel idx.
  induction Ha as [|l ls Hl Ha IH]; intros fuel idx Hi Hf; (destruct fuel as [|fuel]; [simpl in *; lia|]);
    cbn [rel_label_start_loop].
  - exists false. split; [done|]. split; [done|]. intros (ls1 & ls2 & E & ->).
    symmetry in E; apply app_eq_nil in E as [-> _]. simpl in Hi; lia.
  - rewrite length_eqb_0, bool_decide_false by (by rewrite labels_wire_cons).
    rewrite labels_wire_cons. change (zlen l :: l ++ ?x) with (label_wire l ++ x).
    rewrite label_split_from_wire by (by destruct Hl as [[]]).
    destruct (Nat.compare_spec idx (length l + 1)) as [->|Hlt|Hgt].
    + exists true. split; [done|]. split; [|done]. intros _. exists [l], ls.
      split; [done|]. rewrite labels_wire_cons; simpl. rewrite length_app; simpl. lia.
    + exists false. split; [done|]. split; [done|]. intros (ls1 & ls2 & Hb).
      apply boundary_cons in Hb as [[-> _]|(ls1' & _ & ? & _)]; lia.
    + destruct (IH fuel (idx - (length l + 1))%nat) as (b & -> & Hb); [lia|simpl in Hf; lia|].
      exists b. split; [done|]. rewrite Hb. split; intros (ls1 & ls2 & Hbd).
      * exists (l :: ls1), ls2. apply (boundary_push l) in Hbd.
        by replace (length l + 1 + (idx - (length l + 1)))%nat with idx in Hbd by lia.
      * apply boundary_cons in Hbd as [[-> _]|(ls1' & _ & _ & Hbd)]; [lia|]. eauto.
Qed.

Lemma rel_is_label_start_spec n ls idx :
  wf_rel n ls ->
  exists b, rel_is_label_start n idx = Ret b /\
    (b = true <-> exists ls1 ls2, boundary ls idx ls1 ls2).
Proof.
  intros (Ha & E & _). unfold rel_is_label_start. rewrite E.
  destruct (Nat.eqb_spec idx 0) as [->|Hi].
  - exists true. split; [done|]. split; [|done]. intros _. by exists [], ls.
  - apply rel_label_start_loop_spec; [done|lia|].
    pose proof (labels_wire_length ls). lia.
Qed.

(** ** Splitting *)

Lemma slice_range_app (s t : list Z) : slice_range (s ++ t) 0 (length s) = Ret s.
Proof.
  unfold slice_range. rewrite length_app.
  destruct (Nat.leb_spec (length s) (length s + length t)); [|lia]. simpl.
  by rewrite drop_0, Nat.sub_0_r, take_app_length.
Qed.

Lemma slice_range_app_r (s t : list Z) :
  slice_range (s ++ t) (length s) (length (s ++ t)) = Ret t.
Proof.
  unfold slice_range. rewrite length_app.
  destruct (Nat.leb_spec (length s) (length s + length t)); [|lia]. rewrite Nat.leb_refl. simpl.
  replace (length s + length t - length s)%nat with (length t) by lia.
  by rewrite drop_app_length, firstn_all.
Qed.

Lemma abs_labels_suffix ls1 ls2 :
  abs_labels (ls1 ++ ls2) -> ls2 <> [] -> rel_labels ls1 /\ abs_labels ls2.
Proof.
  intros (ls0 & E & H) Hn. destruct ls2 as [|x ls2 _] using rev_ind; [done|].
  rewrite app_assoc in E. apply app_inj_tail in E as [<- ->].
  apply Forall_app in H as [H1 H2]. split; [done|]. by exists ls2.
Qed.

(** Splitting an absolute name at the position of a label gives the labels before
    it as a relative name and the labels from it on as an absolute name, both
    well formed; at any other position it panics. *)
Theorem name_split_correct n ls mid :
  wf_abs n ls ->
  (forall a b, name_split n mid = Ret (a, b) <->
     exists ls1 ls2, boundary ls mid ls1 ls2 /\ ls2 <> [] /\
       wf_rel a ls1 /\ wf_abs b ls2) /\
  (name_split n mid = Panic <-> ~ exists ls1 ls2, boundary ls mid ls1 ls2 /\ ls2 <> []).
Proof.
  intros Hwf. pose proof (name_is_label_start_spec n ls mid Hwf) as (b & Hb & Hspec).
  destruct Hwf as (Ha & E & Hlen). unfold name_split, name_check_index. rewrite Hb. destruct b.
  - destruct (proj1 Hspec eq_refl) as (ls1 & ls2 & [-> ->] & Hn).
    pose proof (abs_labels_suffix _ _ Ha Hn) as [Hr Ha2].
    rewrite E, labels_wire_app in *. rewrite slice_range_app, slice_range_app_r.
    rewrite length_app in Hlen. pose proof (labels_wire_nonnil ls2 Hn). unfold NAME_MAX_LEN in *.
    split; [|split; [done|intros H1; destruct H1; by exists ls1, ls2]].
    intros a b. split.
    + intros [= <- <-]. exists ls1, ls2. split; [done|]. split; [done|].
      split; (split_and!; [done..|simpl; unfold NAME_MAX_LEN; lia]).
    + intros (ls1' & ls2' & [E1 E2] & Hn' & (_ & Ea & _) & (_ & Eb & _)).
      destruct a as [sa], b as [sb]; simpl in *; subst.
      apply (f_equal labels_wire) in E1. rewrite !labels_wire_app in E1.
      apply app_inj_1 in E1 as [E3 E4]; [|done]. by rewrite E3, E4.
  - assert (Hno : ~ exists ls1 ls2, boundary ls mid ls1 ls2 /\ ls2 <> []).
    { intros H1. by apply Hspec in H1. }
    split; [|done]. intros a b; split; [done|]. intros (ls1 & ls2 & H1 & H2 & _).
    destruct Hno; eauto.
Qed.

Lemma name_split_at n ls1 ls2 :
  wf_abs n (ls1 ++ ls2) -> ls2 <> [] ->
  exists a b, name_split n (length (labels_wire ls1)) = Ret (a, b) /\ wf_rel a ls1 /\ wf_abs b ls2.
Proof.
  intros Hwf Hn. destruct Hwf as (Ha & E & Hl).
  pose proof (abs_labels_suffix _ _ Ha Hn) as [Hr Ha2]. pose proof (labels_wire_nonnil ls2 Hn).
  rewrite E, labels_wire_app, length_app in Hl. unfold NAME_MAX_LEN in Hl.
  exists (mkRel (labels_wire ls1)), (mkName (labels_wire ls2)).
  assert (W1 : wf_rel (mkRel (labels_wire ls1)) ls1) by (split_and!; [done..|simpl; lia]).
  assert (W2 : wf_abs (mkName (labels_wire ls2)) ls2)
    by (split_and!; [done..|simpl; unfold NAME_MAX_LEN; lia]).
  split; [|done]. unfold name_split, name_check_index.
  destruct (name_is_label_start_spec n (ls1 ++ ls2) (length (labels_wire ls1))) as (b & -> & Hb).
  { split_and!; [done..|]. rewrite E, labels_wire_app, length_app. unfold NAME_MAX_LEN; lia. }
  destruct b.
  - by rewrite E, labels_wire_app, slice_range_app, slice_range_app_r.
  - exfalso. enough (false = true) by done. apply Hb. by exists ls1, ls2.
Qed.

Lemma name_first_spec n l ls : wf_abs n (l :: ls) -> name_first n = Ret l.
Proof.
  intros Hwf. destruct (wf_abs_denotes _ _ Hwf) as [Rn _].
  destruct (li_next_cons _ _ _ Rn) as (it' & Hx & _). unfold name_first.
  simpl in Hx. by rewrite Hx.
Qed.

(** [split_first] and [parent] take the first label off an absolute name, and
    return [None] exactly for the root. *)
Theorem name_parent_correct n l ls :
  wf_abs n (l :: ls) ->
  (ls = [] -> name_split_first n = Ret None /\ name_parent n = Ret None) /\
  (ls <> [] -> exists p, name_split_first n = Ret (Some (l, p)) /\
     name_parent n = Ret (Some p) /\ wf_abs p ls).
Proof.
  intros Hwf. pose proof (wf_abs_denotes _ _ Hwf) as (_ & Hc & _). simpl compose_len in Hc.
  unfold name_parent, name_split_first. rewrite Hc.
  pose proof (proj1 Hwf) as Ha. apply abs_labels_cons in Ha as [[-> ->]|[Hl Ha]].
  { by split; [|done]. }
  split; [intros ->; by apply abs_labels_nonnil in Ha|]. intros Hn.
  destruct (Z.eqb_spec (zlen (labels_wire (l :: ls))) 1) as [Hz|_].
  { rewrite labels_wire_cons in Hz. unfold zlen in Hz; simpl in Hz. rewrite length_app in Hz.
    pose proof (labels_wire_nonnil ls Hn). lia. }
  rewrite (name_first_spec n l ls) by done.
  destruct (name_split_at n [l] ls Hwf Hn) as (a & p & Hs & _ & Hp).
  replace (length (labels_wire [l])) with (length l + 1)%nat in Hs
    by (rewrite labels_wire_cons; simpl; rewrite app_nil_r; lia).
  rewrite Hs. eauto.
Qed.

Lemma name_parent_correct_witness :
  exists p, name_parent (mkName [1; 97; 1; 98; 0]) = Ret (Some p) /\ wf_abs p [[98]; []].
Proof.
  assert (Hwf : wf_abs (mkName [1; 97; 1; 98; 0]) ([97] :: [[98]; []])).
  { split_and!; [|done|simpl; unfold NAME_MAX_LEN; lia]. exists [[97]; [98]]. split; [done|].
    by_decide. }
  destruct (proj2 (name_parent_correct _ _ _ Hwf)) as (p & _ & H1 & H2); [done|eauto].
Defined.

Lemma name_split_correct_witness :
  exists a b, name_split (mkName [1; 97; 1; 98; 0]) 2 = Ret (a, b) /\
    wf_rel a [[97]] /\ wf_abs b [[98]; []].
Proof.
  assert (Hwf : wf_abs (mkName [1; 97; 1; 98; 0]) [[97]; [98]; []]).
  { split_and!; [|done|simpl; unfold NAME_MAX_LEN; lia]. exists [[97]; [98]]. split; [done|].
    by_decide. }
  exists (mkRel [1; 97]), (mkName [1; 98; 0]). split; [reflexivity|].
  destruct (name_split_correct _ _ 2 Hwf) as [Hs _].
  destruct (proj1 (Hs (mkRel [1; 97]) (mkName [1; 98; 0])) eq_refl)
    as (ls1 & ls2 & [E _] & _ & H1 & H2).
  pose proof (proj1 (proj2 H1)) as E1. change [1; 97] with (labels_wire [[97]]) in E1.
  simpl in E1. apply (labels_wire_inj [[97]]) in E1. subst ls1.
  simpl in E. injection E as <-. done.
Defined.

(** The name is not the position of a non-root label, and still the check for
    such a position succeeds: the index of the root label counts. *)
Lemma name_is_label_start_root n ls :
  wf_abs n ls -> name_is_label_start n (length (name_octets n) - 1) = Ret true.
Proof.
  intros Hwf. destruct (name_is_label_start_spec n ls (length (name_octets n) - 1) Hwf)
    as (b & -> & Hb). f_equal. apply Hb. destruct Hwf as ((ls0 & -> & _) & E & _).
  exists ls0, [[]]. split; [|done]. split; [done|].
  rewrite E, labels_wire_app, length_app. simpl. lia.
Qed.

(** ** The suffix iterator *)

(** All names the iterator yields. *)
Fixpoint suffix_collect (fuel : nat) (it : SuffixIter) : outcome (list Name) :=
  match fuel with
  | O => Panic
  | S fuel' =>
      let! (x, it') := suffix_iter_next it in
      match x with
      | None => Ret []
      | Some n => let! ns := suffix_collect fuel' it' in Ret (n :: ns)
      end
  end.

(** The suffixes of a list with at least one element. *)
Fixpoint suffixes {A} (l : list A) : list (list A) :=
  match l with [] => [] | _ :: l' => l :: suffixes l' end.

Lemma label_compose_len_ok l : (length l <= LABEL_MAX_LEN)%nat -> label_compose_len l = Ret (zlen l + 1).
Proof.
  unfold LABEL_MAX_LEN; intros. unfold label_compose_len.
  destruct (Z.ltb_spec (zlen l) (2 ^ 16)), (Z.ltb_spec (zlen l + 1) (2 ^ 16)); try done; ulia.
Qed.

Lemma suffix_collect_spec n ls1 ls2 fuel :
  wf_abs n (ls1 ++ ls2) -> ls2 <> [] -> (length ls2 < fuel)%nat ->
  suffix_collect fuel (mkSuffixIter n (Some (length (labels_wire ls1)))) =
    Ret (map (fun ls => mkName (labels_wire ls)) (suffixes ls2)).
Proof.
  intros Hwf Hn; revert ls1 fuel Hwf. induction ls2 as [|l ls2 IH]; intros ls1 fuel Hwf Hf; [done|].
  destruct fuel as [|fuel]; [lia|]. cbn [suffix_collect suffixes map].
  pose proof Hwf as (Ha & E & Hlen). pose proof (abs_labels_suffix _ _ Ha Hn) as [_ Ha2].
  assert (W : wf_abs (mkName (labels_wire (l :: ls2))) (l :: ls2)).
  { split_and!; [done..|]. cbn [name_octets]. rewrite E, labels_wire_app, length_app in Hlen. lia. }
  unfold suffix_iter_next. simpl si_start; simpl si_name; cbv iota.
  rewrite E, labels_wire_app, slice_range_app_r. rewrite (name_first_spec _ l ls2) by done.
  apply abs_labels_cons in Ha2 as [[-> ->]|[Hl Ha2]].
  - simpl. destruct fuel; [simpl in Hf; lia|]. done.
  - rewrite nonroot_is_root by done.
    rewrite label_compose_len_ok by (by destruct Hl as [[]]).
    replace (length (labels_wire ls1) + Z.to_nat (zlen l + 1))%nat
      with (length (labels_wire (ls1 ++ [l]))).
    + rewrite IH; [done|by apply abs_labels_nonnil| |simpl in Hf; lia].
      by rewrite <- app_assoc.
    + rewrite labels_wire_app, length_app. f_equal. rewrite labels_wire_cons; simpl.
      rewrite app_nil_r. unfold zlen. lia.
Qed.

(** [iter_suffixes] yields the name and every name obtained by dropping leading
    labels, the root last, and then ends. *)
Theorem iter_suffixes_correct n ls :
  wf_abs n ls ->
  suffix_collect name_fuel (name_iter_suffixes n) =
    Ret (map (fun ls => mkName (labels_wire ls)) (suffixes ls)).
Proof.
  intros Hwf. apply (suffix_collect_spec n [] ls); [done| |by eapply wf_abs_fuel].
  apply abs_labels_nonnil, Hwf.
Qed.

Lemma iter_suffixes_correct_witness :
  suffix_collect name_fuel (name_iter_suffixes (mkName [1; 97; 1; 98; 0])) =
  Ret [mkName [1; 97; 1; 98; 0]; mkName [1; 98; 0]; mkName [0]].
Proof.
  apply (iter_suffixes_correct _ [[97]; [98]; []]).
  split_and!; [|done|simpl; unfold NAME_MAX_LEN; lia]. exists [[97]; [98]]. split; [done|].
  by_decide.
Defined.

(** ** Stripping a suffix *)

Lemma length_labels_wire_canon ls : length (labels_wire (canon ls)) = length (labels_wire ls).
Proof.
  induction ls as [|l ls IH]; [done|]. simpl map. rewrite !labels_wire_cons; simpl.
  rewrite !length_app, IH. unfold label_make_canonical. by rewrite length_map.
Qed.

(** A suffix up to case is a suffix of the labels that has the same length in
    wire format. *)
Lemma canon_suffix ls bs :
  canon bs `suffix_of` canon ls ->
  exists ls1 ls2, ls = ls1 ++ ls2 /\ canon ls2 = canon bs /\
    length (labels_wire ls2) = length (labels_wire bs) /\ length ls2 = length bs.
Proof.
  intros [k E]. apply map_eq_app in E as (ls1 & ls2 & -> & _ & E2).
  exists ls1, ls2. split; [done|]. split; [done|]. split.
  - by rewrite <- (length_labels_wire_canon ls2), E2, length_labels_wire_canon.
  - apply (f_equal length) in E2. by rewrite !length_map in E2.
Qed.

Section StripSuffix.
Context {M J : Type} `{ToLabelIter M J} `{!LabelIterOk J}.
Context (base : M) (bs : list (list Z)).
Context (Hb : denotes base bs) (Hbf : (length bs < name_fuel)%nat).

(** Stripping an absolute base off an absolute name leaves the labels before
    it as a well-formed relative name, and returns the name unchanged when the
    base is not a suffix.  It never panics. *)
Theorem name_strip_suffix_correct n ls :
  wf_abs n ls -> abs_labels bs ->
  (canon bs `suffix_of` canon ls ->
     exists r, name_strip_suffix n base = Ret (Ok r) /\ wf_rel r (take (length ls - length bs) ls)) /\
  (~ canon bs `suffix_of` canon ls -> name_strip_suffix n base = Ret (Err n)).
Proof using All.
  intros Hwf Ha. unfold name_strip_suffix, ends_with.
  rewrite (ends_with_loop_spec _ _ _ ls bs);
    [|apply (wf_abs_denotes _ _ Hwf)|apply Hb|done].
  split; intros Hs; [|by rewrite bool_decide_false].
  rewrite bool_decide_true by done. rewrite (proj1 (proj2 Hb)).
  destruct (canon_suffix _ _ Hs) as (ls1 & ls2 & -> & Hc & Hlen & Hll).
  assert (Hn : ls2 <> []).
  { intros ->. destruct bs; [by apply abs_labels_nonnil in Ha|]. done. }
  pose proof Hwf as (_ & E & _). unfold zlen. rewrite E, labels_wire_app, length_app, <- Hlen.
  destruct (Z.ltb_spec (Z.of_nat (length (labels_wire ls1) + length (labels_wire ls2)))
    (Z.of_nat (length (labels_wire ls2)))); [lia|].
  replace (Z.to_nat _) with (length (labels_wire ls1)) by lia.
  destruct (name_split_at n ls1 ls2 Hwf Hn) as (a & b & Hsp & Hwa & _).
  unfold name_truncate. unfold name_split in Hsp.
  destruct (name_check_index n (length (labels_wire ls1))); [|done].
  eexists; split; [done|]. rewrite E, labels_wire_app, take_app_length.
  rewrite length_app, <- Hll, Nat.add_sub, take_app_length.
  destruct Hwa as (? & Ea & ?). split_and!; [done..|]. by rewrite <- Ea.
Qed.

(** The same for relative names.  *)
Lemma rel_strip_suffix_spec n ls :
  wf_rel n ls ->
  (canon bs `suffix_of` canon ls ->
     exists r, rel_strip_suffix n base = Ret (Ok r) /\ wf_rel r (take (length ls - length bs) ls)) /\
  (~ canon bs `suffix_of` canon ls -> rel_strip_suffix n base = Ret (Err ())).
Proof using All.
  intros Hwf. unfold rel_strip_suffix, ends_with.
  rewrite (ends_with_loop_spec _ _ _ ls bs);
    [|apply (wf_rel_denotes _ _ Hwf)|apply Hb|done].
  split; intros Hs; [|by rewrite bool_decide_false].
  rewrite bool_decide_true by done. rewrite (proj1 (proj2 Hb)).
  destruct (canon_suffix _ _ Hs) as (ls1 & ls2 & -> & Hc & Hlen & Hll).
  destruct Hwf as (Ha & E & Hl). unfold zlen.
  rewrite E, labels_wire_app, length_app in *. rewrite <- Hlen.
  destruct (Z.ltb_spec (Z.of_nat (length (labels_wire ls1) + length (labels_wire ls2)))
    (Z.of_nat (length (labels_wire ls2)))); [lia|].
  replace (Z.to_nat _) with (length (labels_wire ls1)) by lia.
  eexists; split; [done|]. rewrite take_app_length.
  rewrite <- Hll, length_app, Nat.add_sub, take_app_length.
  apply Forall_app in Ha as [Ha _]. split_and!; [done..|]. cbn [rel_octets]. lia.
Qed.
End StripSuffix.

(** ** Parsing *)

Lemma parse_name_len_loop_ok fuel tmp t :
  wf_octets tmp -> (length tmp < fuel)%nat ->
  parse_name_len_loop fuel tmp = Ok t <->
  exists ls, abs_labels ls /\ tmp = labels_wire ls ++ t.
Proof.
  revert tmp; induction fuel as [|fuel IH]; intros tmp Hw Hf; [lia|].
  cbn [parse_name_len_loop]. rewrite length_eqb_0. case_bool_decide as Hn.
  { subst. split; [done|]. intros (ls & Ha & E). symmetry in E. apply app_eq_nil in E as [E _].
    apply (f_equal length) in E. by apply labels_wire_nonnil in E; [|by apply abs_labels_nonnil]. }
  split.
  - destruct (label_split_from tmp) as [[l s]|e] eqn:E; simpl; [|done].
    pose proof (label_split_from_shorter _ _ _ E).
    apply label_split_from_ok in E as [-> Hl]. apply wf_octets_app in Hw as [Hwl Hw].
    apply Forall_uncons in Hwl as [_ Hwl]. destruct (label_is_root l) eqn:Er.
    + intros [= <-]. apply label_is_root_spec in Er as ->. exists [[]]. split; [|done].
      by exists [].
    + intros Hc. apply IH in Hc as (ls & Ha & ->); [|done|lia].
      exists (l :: ls). split; [|by rewrite labels_wire_cons; simpl; rewrite <- app_assoc].
      apply abs_labels_cons; right. split; [|done]. split; [|done]. split; [|done].
      destruct l; [done|simpl; lia].
  - intros (ls & Ha & ->). destruct ls as [|l ls]; [by apply abs_labels_nonnil in Ha|].
    rewrite labels_wire_cons in *. simpl app in *. rewrite <- app_assoc in *.
    change (zlen l :: l ++ ?x) with (label_wire l ++ x) in *.
    apply wf_octets_app in Hw as [_ Hw]. rewrite length_app in Hf; simpl in Hf.
    apply abs_labels_cons in Ha as [[-> ->]|[Hl Ha]]; [done|].
    rewrite label_split_from_wire by (by destruct Hl as [[]]). simpl map_err; cbv iota beta.
    rewrite nonroot_is_root by done. apply IH; [done|lia|eauto].
Qed.

Section NameParseTheorems.
Context {P : Type} `{OctetsParserOk P}.

(** Parsing an uncompressed name succeeds exactly when the octets ahead start
    with the wire format of an absolute name of at most 255 octets; it returns
    that name and moves the parser right behind it. *)
Theorem name_parse_correct (p p' : P) n :
  wf_octets (p_octets p) ->
  (name_parse p = Ok (n, p') ->
     exists ls t, wf_abs n ls /\ p_rest p = name_octets n ++ t /\
       moved p p' (p_pos p + length (name_octets n))) /\
  (forall ls t, wf_abs n ls -> p_rest p = name_octets n ++ t ->
     exists q, name_parse p = Ok (n, q) /\ moved p q (p_pos p + length (name_octets n))).
Proof.
  intros Hw. assert (Hr : wf_octets (p_rest p)) by (unfold p_rest; auto with octets).
  unfold name_parse, name_parse_name_len. rewrite p_peek_all_spec. fold (p_rest p). split.
  - destruct (parse_name_len_loop _ _) as [t|] eqn:E; [|done].
    apply parse_name_len_loop_ok in E as (ls & Ha & E); [|done|lia].
    rewrite <- p_rest_length, E, length_app, Nat.add_sub.
    destruct (Nat.ltb_spec NAME_MAX_LEN (length (labels_wire ls))); [done|].
    destruct (parse_octets_prefix p _ _ E) as (q & -> & Hm). simpl. intros [= <- <-].
    exists ls, t. split; [|done]. by split_and!.
  - intros ls t (Ha & En & Hl) E. rewrite En in *.
    rewrite (proj2 (parse_name_len_loop_ok _ _ t Hr (Nat.lt_succ_diag_r _))) by eauto.
    rewrite <- p_rest_length, E, length_app, Nat.add_sub.
    destruct (Nat.ltb_spec NAME_MAX_LEN (length (labels_wire ls))); [lia|].
    destruct (parse_octets_prefix p _ _ E) as (q & -> & Hm). simpl.
    exists q. split; [|done]. destruct n; simpl in *. by rewrite En.
Qed.
End NameParseTheorems.

Lemma name_parse_correct_witness :
  exists q, name_parse (SliceParser [9; 1; 97; 0; 7] 1) = Ok (mkName [1; 97; 0], q) /\
    moved (SliceParser [9; 1; 97; 0; 7] 1) q 4.
Proof.
  apply (proj2 (name_parse_correct (SliceParser [9; 1; 97; 0; 7] 1) (SliceParser [] 0)
    (mkName [1; 97; 0]) ltac:(by_decide)) [[97]; []] [7]); [|reflexivity].
  split_and!; [|done|simpl; unfold NAME_MAX_LEN; lia]. exists [[97]]. split; [done|by_decide].
Defined.

(** ** Canonical form *)

(** Converting a name to its canonical form lowercases all its octets, keeps it
    well formed and leaves it equal, as a name, to the original. *)
Theorem name_make_canonical_correct n ls :
  wf_abs n ls ->
  exists c, name_make_canonical n = Ret c /\ wf_abs c (canon ls) /\
    name_octets c = map to_ascii_lowercase (name_octets n) /\ name_eq c n = Ret true.
Proof.
  intros Hwf. pose proof Hwf as (Ha & E & Hl).
  unfold name_make_canonical, slice_canonical. rewrite E.
  rewrite make_slice_canonical_wire by auto with octets.
  eexists; split; [done|].
  assert (Hc : wf_abs (mkName (labels_wire (canon ls))) (canon ls)).
  { destruct Ha as (ls0 & -> & H0). split_and!; [|done|].
    - exists (canon ls0). split; [by rewrite map_app|].
      apply Forall_map. eapply Forall_impl; [exact H0|].
      intros l [H1 H2]. unfold nonroot, compose, label_make_canonical. rewrite length_map.
      split; [done|]. apply Forall_map. eapply Forall_impl; [exact H2|].
      intros; by apply to_ascii_lowercase_u8.
    - cbn [name_octets]. by rewrite length_labels_wire_canon, <- E. }
  split; [done|]. cbn [name_octets]. split; [by apply labels_wire_canonical; auto with octets|].
  unfold name_eq; simpl as_flat_slice; cbv iota. f_equal.
  rewrite E, wire_eq_ignore_case; [|destruct Hc; auto with octets|auto with octets].
  apply bool_decide_true. rewrite map_map. apply map_ext.
  intros; apply label_make_canonical_idemp.
Qed.

Lemma name_make_canonical_correct_witness :
  exists c, name_make_canonical (mkName [1; 65; 0]) = Ret c /\ name_octets c = [1; 97; 0] /\
    name_eq c (mkName [1; 65; 0]) = Ret true.
Proof.
  destruct (name_make_canonical_correct (mkName [1; 65; 0]) [[65]; []]) as (c & H1 & _ & H2 & H3).
  - split_and!; [|done|simpl; unfold NAME_MAX_LEN; lia]. exists [[65]]. split; [done|by_decide].
  - exists c. split_and!; done.
Defined.

(** ** Concrete instances of the trait theorems *)

(** [a.] in lower and upper case, and [b.a.]. *)
Definition ex_a : Name := mkName [1; 97; 0].
Definition ex_A : Name := mkName [1; 65; 0].
Definition ex_ba : Name := mkName [1; 98; 1; 97; 0].

Lemma ex_a_wf : wf_abs ex_a [[97]; []].
Proof. split_and!; [by exists [[97]]; split; [|by_decide]|done|by_decide]. Qed.

Lemma ex_A_wf : wf_abs ex_A [[65]; []].
Proof. split_and!; [by exists [[65]]; split; [|by_decide]|done|by_decide]. Qed.

Lemma ex_ba_wf : wf_abs ex_ba [[98]; [97]; []].
Proof. split_and!; [by exists [[98]; [97]]; split; [|by_decide]|done|by_decide]. Qed.

Lemma starts_ends_with_correct_witness :
  ends_with ex_ba ex_A = Ret true /\ starts_with ex_ba ex_A = Ret false.
Proof.
  pose proof (starts_ends_with_correct ex_ba ex_A _ _ (wf_abs_denotes _ _ ex_ba_wf)
    (wf_abs_denotes _ _ ex_A_wf) (wf_abs_fuel _ _ ex_ba_wf) (wf_abs_fuel _ _ ex_A_wf)) as [H1 H2].
  rewrite H1, H2. done.
Defined.

Lemma name_eq_correct_witness : name_eq ex_a ex_A = Ret true.
Proof.
  rewrite (name_eq_correct ex_a ex_A _ _ (wf_abs_denotes _ _ ex_a_wf) (wf_abs_denotes _ _ ex_A_wf)
    (wf_abs_fuel _ _ ex_a_wf) (wf_abs_fuel _ _ ex_A_wf)); [done|by_decide..].
Defined.

Lemma name_cmp_correct_witness : name_cmp ex_A ex_ba = Ret Lt.
Proof.
  destruct (name_cmp_correct ex_A ex_ba _ _ (wf_abs_denotes _ _ ex_A_wf)
    (wf_abs_denotes _ _ ex_ba_wf) (wf_abs_fuel _ _ ex_A_wf) (wf_abs_fuel _ _ ex_ba_wf)) as (c & -> & Hlt & _).
  f_equal. apply Hlt. do 2 (apply lex_later; [reflexivity|]). apply lex_absent.
Defined.

Lemma composed_cmp_correct_witness :
  composed_cmp ex_A ex_a = Ret Lt /\ lowercase_composed_cmp ex_A ex_a = Ret Eq.
Proof.
  destruct (composed_cmp_correct ex_A ex_a _ _ (wf_abs_denotes _ _ ex_A_wf)
    (wf_abs_denotes _ _ ex_a_wf) (wf_abs_fuel _ _ ex_A_wf) (wf_abs_fuel _ _ ex_a_wf)
    (proj1 ex_A_wf) (proj1 ex_a_wf)) as [-> ->]. done.
Defined.

Lemma rrsig_label_count_correct_witness : rrsig_label_count ex_ba = Ret 2.
Proof.
  rewrite (rrsig_label_count_correct ex_ba [[98]; [97]; []] (wf_abs_denotes _ _ ex_ba_wf)
    (wf_abs_fuel _ _ ex_ba_wf) [[98]; [97]]); [done..|by_decide].
Defined.

Lemma name_compose_correct_witness :
  exists r, name_compose ex_A [7] = Ret r /\ appended [7] [1; 65; 0] r.
Proof.
  exact (proj1 (name_compose_correct ex_A _ (wf_abs_denotes _ _ ex_A_wf) (wf_abs_fuel _ _ ex_A_wf)
    (abs_labels_good _ (proj1 ex_A_wf)) [7])).
Defined.

Lemma to_name_correct_witness : try_to_canonical_name (B:=list Z) ex_A = Ret (Ok [1; 97; 0]).
Proof.
  exact (proj2 (to_name_correct (B:=list Z) ex_A _ (wf_abs_denotes _ _ ex_A_wf)
    (wf_abs_fuel _ _ ex_A_wf) (abs_labels_good _ (proj1 ex_A_wf)))).
Defined.

Lemma name_strip_suffix_correct_witness :
  exists r, name_strip_suffix ex_ba ex_A = Ret (Ok r) /\ wf_rel r [[98]].
Proof.
  apply (proj1 (name_strip_suffix_correct ex_A _ (wf_abs_denotes _ _ ex_A_wf) (wf_abs_fuel _ _ ex_A_wf)
    ex_ba _ ex_ba_wf (proj1 ex_A_wf))). by_decide.
Defined.
