(* ===== verification/NameBuilder.v ===== *)
(** * Building names ([src/src/base/name/builder.rs] and its callers)

    A [NameBuilder] wraps an octets builder and the position of the length octet
    of the label under construction.  The methods take [&mut self] and may fail
    or panic; they are functions from a builder to an [outcome] of the new
    builder and a [result], so what a failed call leaves behind is modelled too.
    [oc] says whether the crate was compiled with overflow checks.

    The abstract state of a builder is the list of the finished labels and the
    label under construction; [nb_rep] relates the two. *)

From S2P Require Import Prelude Octets Symbol Label Traits Name.
From stdpp Require Import strings.
#[local] Open Scope Z_scope.

(** ** Errors *)

Inductive PushError := PushLongLabel | PushLongName | PushShortBuf.
Inductive PushNameError := PNLongName | PNShortBuf.

(** [PresentationErrorEnum]. *)
Inductive PresentationError := BadLabel (e : LabelFromStrError) | EmptyLabel | PresLongName.

Inductive FromStrError := Presentation (e : PresentationError) | FShortBuf.

Inductive RelativeFromStrError := RFromStr (e : FromStrError) | RFromStrAbsolute.

#[export] Instance PushError_eq_dec : EqDecision PushError.
Proof. solve_decision. Defined.
#[export] Instance PresentationError_eq_dec : EqDecision PresentationError.
Proof. solve_decision. Defined.
#[export] Instance FromStrError_eq_dec : EqDecision FromStrError.
Proof. solve_decision. Defined.

(** [FromStrError::empty_label]. *)
Definition from_str_empty_label : FromStrError := Presentation EmptyLabel.

(** [From<PushError> for FromStrError]. *)
Definition from_str_push (e : PushError) : FromStrError :=
  match e with
  | PushLongLabel => Presentation (BadLabel LLongLabel)
  | PushLongName => Presentation PresLongName
  | PushShortBuf => FShortBuf
  end.

(** [From<PushNameError> for FromStrError]. *)
Definition from_str_push_name (e : PushNameError) : FromStrError :=
  match e with
  | PNLongName => Presentation PresLongName
  | PNShortBuf => FShortBuf
  end.

(** [From<T: Into<PresentationError>>] at [BadSymbol] and [SymbolCharsError]. *)
Definition from_str_bad_symbol (e : BadSymbol) : FromStrError :=
  Presentation (BadLabel (LBadSymbol e)).
Definition from_str_symbol_chars (e : SymbolCharsError) : FromStrError :=
  Presentation (BadLabel (LSymbolChars e)).

(** ** The builder *)

Record NameBuilder (B : Type) := mkNB { nb_builder : B; nb_head : option nat }.
Arguments mkNB {B} nb_builder nb_head.
Arguments nb_builder {B} _.
Arguments nb_head {B} _.

Section Builder.
Context {B : Type} `{OctetsBuilder B} (oc : bool).

Definition from_builder_unchecked (b : B) : NameBuilder B := mkNB b None.

Definition nb_new : NameBuilder B := from_builder_unchecked builder_empty.

Definition nb_from_builder (b : B) : result (NameBuilder B) RelativeNameError :=
  let? _ := rel_check_slice (as_ref b) in Ok (from_builder_unchecked b).

Definition nb_as_slice (nb : NameBuilder B) : list Z := as_ref (nb_builder nb).
Definition nb_len (nb : NameBuilder B) : nat := length (nb_as_slice nb).
Definition nb_is_empty (nb : NameBuilder B) : bool := (nb_len nb =? 0)%nat.
Definition nb_in_label (nb : NameBuilder B) : bool := bool_decide (is_Some (nb_head nb)).

(** What a method does to the builder, and its result. *)
Definition op (E : Type) : Type := NameBuilder B -> outcome (NameBuilder B * result unit E).

(** [f(self)?; g(self)]. *)
Definition op_seq {E} (f g : op E) : op E := fun nb =>
  let! (nb', r) := f nb in
  match r with Ok _ => g nb' | Err e => Ret (nb', Err e) end.

Definition op_map_err {E F} (h : E -> F) (f : op E) : op F := fun nb =>
  let! (nb', r) := f nb in Ret (nb', map_err h r).

Definition op_ok {E} : op E := fun nb => Ret (nb, Ok ()).

(** [items.try_for_each(|x| f(x))]. *)
Fixpoint op_each {A E} (f : A -> op E) (l : list A) : op E :=
  match l with
  | [] => op_ok
  | x :: l' => op_seq (f x) (op_each f l')
  end.

(** [_append_slice]. *)
Definition nb_append_raw (s : list Z) : op PushError := fun nb =>
  match append_slice (nb_builder nb) s with
  | Some b' => Ret (mkNB b' (nb_head nb), Ok ())
  | None => Ret (nb, Err PushShortBuf)
  end.

Definition nb_push (ch : Z) : op PushError := fun nb =>
  let len := nb_len nb in
  if (254 <=? len)%nat then Ret (nb, Err PushLongName)
  else match nb_head nb with
  | Some head =>
      let! n := usize_sub oc (Z.of_nat len) (Z.of_nat head) in
      if Z.of_nat LABEL_MAX_LEN <? n then Ret (nb, Err PushLongLabel)
      else nb_append_raw [ch] nb
  | None => nb_append_raw [0; ch] (mkNB (nb_builder nb) (Some len))
  end.

Definition nb_end_label (nb : NameBuilder B) : outcome (NameBuilder B) :=
  match nb_head nb with
  | Some head =>
      let! n := usize_sub oc (Z.of_nat (nb_len nb)) (Z.of_nat head) in
      let! len := usize_sub oc n 1 in
      if (head <? nb_len nb)%nat
      then Ret (mkNB (set_octet (nb_builder nb) head (as_u8 len)) None)
      else Panic
  | None => Ret nb
  end.

(** [self.end_label();] followed by [f]. *)
Definition op_end_label {E} (f : op E) : op E := fun nb =>
  let! nb' := nb_end_label nb in f nb'.

Definition nb_push_symbol (sym : Symbol) : op FromStrError := fun nb =>
  if bool_decide (sym = Char 46) then
    if negb (nb_in_label nb) then Ret (nb, Err from_str_empty_label)
    else op_end_label op_ok nb
  else if bool_decide (sym = SimpleEscape 91) && negb (nb_in_label nb) then
    Ret (nb, Err (Presentation (BadLabel LBinaryLabel)))
  else match symbol_into_octet sym with
  | Err e => Ret (nb, Err (from_str_bad_symbol e))
  | Ok ch => op_map_err from_str_push (nb_push ch) nb
  end.

Definition nb_append_slice (s : list Z) : op PushError := fun nb =>
  if (length s =? 0)%nat then Ret (nb, Ok ())
  else match nb_head nb with
  | Some head =>
      let! n := usize_sub oc (Z.of_nat (nb_len nb)) (Z.of_nat head) in
      let! room := usize_sub oc (Z.of_nat LABEL_MAX_LEN) n in
      if room <? zlen s then Ret (nb, Err PushLongLabel)
      else nb_append_raw s nb
  | None =>
      if (LABEL_MAX_LEN <? length s)%nat then Ret (nb, Err PushLongLabel)
      else if (254 <? nb_len nb + length s)%nat then Ret (nb, Err PushLongName)
      else op_seq (nb_append_raw [0]) (nb_append_raw s) (mkNB (nb_builder nb) (Some (nb_len nb)))
  end.

Definition nb_append_label (label : list Z) : op PushError := fun nb =>
  let head := nb_head nb in
  let! nb1 := nb_end_label nb in
  let! (nb2, r) := nb_append_slice label nb1 in
  match r with
  | Err err => Ret (mkNB (nb_builder nb2) head, Err err)
  | Ok _ => op_end_label op_ok nb2
  end.

Definition nb_append_dec_u8_label (value : Z) : op PushError :=
  let hecto := value / 100 in
  let deka := (value / 10) mod 10 in
  op_end_label
    (op_seq (if 0 <? hecto then nb_push (hecto + 48) else op_ok)
    (op_seq (if (0 <? hecto) || (0 <? deka) then nb_push (deka + 48) else op_ok)
    (op_seq (nb_push (value mod 10 + 48))
    (op_end_label op_ok)))).

(** The upper case digit of the low nibble. *)
Definition hex_digit (nibble : Z) : Z :=
  let n := Z.land nibble 0x0F in if n <? 10 then 48 + n else 65 + (n - 10).

Definition nb_append_hex_digit_label (nibble : Z) : op PushError :=
  op_end_label (op_seq (nb_push (hex_digit nibble)) (op_end_label op_ok)).

(** [for label in name.iter_labels() { label.compose(&mut self.builder)?; }]. *)
Definition nb_compose_labels {N I} `{ToLabelIter N I} (name : N) : op PushNameError := fun nb =>
  let! (b, ok) := compose_labels label_compose name (nb_builder nb) in
  Ret (mkNB b (nb_head nb), if ok : bool then Ok () else Err PNShortBuf).

(** [self.head.take()] comes first, so [end_label] finds no label. *)
Definition nb_append_name {N I} `{ToLabelIter N I} (name : N) : op PushNameError := fun nb =>
  let head := nb_head nb in
  let! nb1 := nb_end_label (mkNB (nb_builder nb) None) in
  let! clen := compose_len name in
  if 254 <? Z.of_nat (nb_len nb1) + clen
  then Ret (mkNB (nb_builder nb1) head, Err PNLongName)
  else nb_compose_labels name nb1.

Definition nb_append_symbols (symbols : list Symbol) : op FromStrError :=
  op_each nb_push_symbol symbols.

Definition nb_append_chars (chars : list Z) : op FromStrError :=
  let '(syms, st) := symbols_all chars in
  op_seq (nb_append_symbols syms)
    (fun nb => Ret (nb, map_err from_str_symbol_chars (symbols_ok st))).

Definition nb_finish (nb : NameBuilder B) : outcome RelativeName :=
  let! nb1 := nb_end_label nb in Ret (mkRel (freeze (nb_builder nb1))).

Definition nb_into_name (nb : NameBuilder B) : outcome (result Name PushError) :=
  let! (nb1, r) := op_end_label (nb_append_raw [0]) nb in
  Ret (let? _ := r in Ok (mkName (freeze (nb_builder nb1)))).

Definition nb_append_origin {N I} `{ToLabelIter N I} (origin : N) (nb : NameBuilder B)
    : outcome (result Name PushNameError) :=
  let! nb1 := nb_end_label nb in
  let! clen := compose_len origin in
  if Z.of_nat NAME_MAX_LEN <? Z.of_nat (nb_len nb1) + clen then Ret (Err PNLongName)
  else let! (nb2, r) := nb_compose_labels origin nb1 in
       Ret (let? _ := r in Ok (mkName (freeze (nb_builder nb2)))).

(** ** The builder's callers *)

(** [Name::from_symbols]. *)
Definition name_from_symbols (symbols : list Symbol) : outcome (result Name FromStrError) :=
  match symbols with
  | [] => Ret (Err (from_str_symbol_chars ShortInput))
  | first :: rest =>
      if bool_decide (first = Char 46) then
        match rest with
        | _ :: _ => Ret (Err from_str_empty_label)
        | [] =>
            match append_slice (builder_empty : B) [0] with
            | None => Ret (Err FShortBuf)
            | Some b => Ret (Ok (mkName (freeze b)))
            end
        end
      else
        let! (nb, r) := op_seq (nb_push_symbol first) (nb_append_symbols rest) nb_new in
        match r with
        | Err e => Ret (Err e)
        | Ok _ => let! n := nb_into_name nb in Ret (map_err from_str_push n)
        end
  end.

(** [Name::from_chars]. *)
Definition name_from_chars (chars : list Z) : outcome (result Name FromStrError) :=
  let '(syms, st) := symbols_all chars in
  let! r := name_from_symbols syms in
  Ret (let? n := r in let? _ := map_err from_str_symbol_chars (symbols_ok st) in Ok n).

(** [RelativeName::from_chars]. *)
Definition rel_from_chars (chars : list Z) : outcome (result RelativeName RelativeFromStrError) :=
  let! (nb, r) := nb_append_chars chars nb_new in
  match r with
  | Err e => Ret (Err (RFromStr e))
  | Ok _ =>
      if nb_in_label nb || nb_is_empty nb
      then let! n := nb_finish nb in Ret (Ok n)
      else Ret (Err RFromStrAbsolute)
  end.

(** [core::net::IpAddr] as the octets of the address. *)
Inductive IpAddr := IpV4 (a b c d : Z) | IpV6 (octets : list Z).

(** [Name::reverse_from_addr]. *)
Definition name_reverse_from_addr (addr : IpAddr) : outcome (result Name PushError) :=
  let build :=
    match addr with
    | IpV4 a b c d =>
        op_seq (nb_append_dec_u8_label d) (op_seq (nb_append_dec_u8_label c)
        (op_seq (nb_append_dec_u8_label b) (op_seq (nb_append_dec_u8_label a)
        (op_seq (nb_append_label [105; 110; 45; 97; 100; 100; 114]) (* in-addr *)
                (nb_append_label [97; 114; 112; 97]))))) (* arpa *)
    | IpV6 octets =>
        op_seq (op_each (fun item =>
                  op_seq (nb_append_hex_digit_label item)
                         (nb_append_hex_digit_label (Z.shiftr item 4))) (rev octets))
        (op_seq (nb_append_label [105; 112; 54]) (* ip6 *)
                (nb_append_label [97; 114; 112; 97]))
    end in
  let! (nb, r) := build nb_new in
  match r with
  | Err e => Ret (Err e)
  | Ok _ => nb_into_name nb
  end.

(** [RelativeName::into_builder] and [RelativeName::into_absolute]. *)
Definition rel_into_absolute (into_builder : list Z -> B) (n : RelativeName)
    : outcome (result Name PushError) :=
  nb_into_name (from_builder_unchecked (into_builder (rel_octets n))).
End Builder.

(** ** The abstract builder

    The finished labels and the label under construction.  The operations say
    what the builder promises; [a_size] is the length of the octets. *)

Definition astate : Type := list (list Z) * option (list Z).

Definition a_cur (cur : option (list Z)) : list (list Z) :=
  match cur with Some l => [l] | None => [] end.

Definition a_labels (st : astate) : list (list Z) := st.1 ++ a_cur st.2.

Definition a_size (st : astate) : nat := length (labels_wire (a_labels st)).

Definition a_close (st : astate) : astate := (a_labels st, None).

Definition a_push (ch : Z) (st : astate) : result astate PushError :=
  if (254 <=? a_size st)%nat then Err PushLongName
  else match st.2 with
  | Some l => if (LABEL_MAX_LEN <=? length l)%nat then Err PushLongLabel
              else Ok (st.1, Some (l ++ [ch]))
  | None => Ok (st.1, Some [ch])
  end.

Definition a_label (l : list Z) (st : astate) : result astate PushError :=
  if (length l =? 0)%nat then Ok (a_close st)
  else if (LABEL_MAX_LEN <? length l)%nat then Err PushLongLabel
  else if (254 <? a_size st + length l)%nat then Err PushLongName
  else Ok (a_labels st ++ [l], None).

Definition a_symbol (sym : Symbol) (st : astate) : result astate FromStrError :=
  if bool_decide (sym = Char 46) then
    match st.2 with Some _ => Ok (a_close st) | None => Err from_str_empty_label end
  else if bool_decide (sym = SimpleEscape 91) && bool_decide (st.2 = None) then
    Err (Presentation (BadLabel LBinaryLabel))
  else
    let? ch := map_err from_str_bad_symbol (symbol_into_octet sym) in
    map_err from_str_push (a_push ch st).

Fixpoint a_each {A E} (f : A -> astate -> result astate E) (l : list A) (st : astate)
    : result astate E :=
  match l with
  | [] => Ok st
  | x :: l' => let? st' := f x st in a_each f l' st'
  end.

(** The labels are labels of a relative name, within 255 octets. *)
Definition a_wf (st : astate) : Prop := rel_labels (a_labels st) /\ (a_size st <= 255)%nat.

Lemma a_size_eq ls cur :
  a_size (ls, cur) =
  (length (labels_wire ls) + match cur with Some l => S (length l) | None => 0 end)%nat.
Proof.
  unfold a_size, a_labels; simpl. rewrite labels_wire_app, length_app. f_equal.
  destruct cur as [l|]; [|done]. unfold a_cur. rewrite labels_wire_cons; simpl. by rewrite app_nil_r.
Qed.

Lemma a_close_size st : a_size (a_close st) = a_size st.
Proof. unfold a_size, a_close, a_labels; simpl. by rewrite app_nil_r. Qed.

Lemma a_close_labels st : a_labels (a_close st) = a_labels st.
Proof. unfold a_close, a_labels; simpl. by rewrite app_nil_r. Qed.

Lemma a_close_wf st : a_wf st -> a_wf (a_close st).
Proof. unfold a_wf. by rewrite a_close_labels, a_close_size. Qed.

Lemma a_push_wf ch st st' : is_u8 ch -> a_wf st -> a_push ch st = Ok st' -> a_wf st'.
Proof.
  destruct st as [ls cur]. intros Hch [Hl Hs]. unfold a_push; cbn [fst snd].
  destruct (Nat.leb_spec 254 (a_size (ls, cur))) as [|Hsz]; [done|].
  unfold rel_labels, a_labels in Hl; simpl in Hl. apply Forall_app in Hl as [Hl Hc].
  rewrite a_size_eq in *. unfold a_wf, rel_labels. destruct cur as [l|].
  - destruct (Nat.leb_spec LABEL_MAX_LEN (length l)); [done|]. intros [= <-].
    rewrite a_size_eq, length_app; simpl length in *. split; [|lia].
    apply Forall_app; split; [done|]. apply Forall_uncons in Hc as [[Hn Hw] _].
    constructor; [|constructor]. split; [rewrite length_app; simpl; lia|].
    apply wf_octets_app; split; [done|]. by constructor.
  - intros [= <-]. rewrite a_size_eq; simpl length. split; [|lia].
    apply Forall_app; split; [done|]. constructor; [|constructor].
    split; [unfold LABEL_MAX_LEN; simpl; lia|by constructor].
Qed.

Lemma a_label_wf l st st' : wf_octets l -> a_wf st -> a_label l st = Ok st' -> a_wf st'.
Proof.
  intros Hw Hst. unfold a_label. rewrite length_eqb_0. case_bool_decide as Hn.
  { intros [= <-]. by apply a_close_wf. }
  destruct (Nat.ltb_spec LABEL_MAX_LEN (length l)); [done|].
  destruct (Nat.ltb_spec 254 (a_size st + length l)); [done|]. intros [= <-].
  destruct Hst as [Hl _]. unfold a_wf, rel_labels, a_labels; simpl. rewrite app_nil_r. split.
  - apply Forall_app; split; [done|]. constructor; [|constructor]. split; [|done].
    destruct l; [done|simpl in *; lia].
  - rewrite a_size_eq, labels_wire_app, length_app, labels_wire_cons; simpl. rewrite app_nil_r.
    unfold a_size, a_labels in *. lia.
Qed.

(** ** The builder refines the abstract builder *)

Section Refinement.
Context {B : Type} `{OctetsBuilderOk B} `{!InfallibleBuilder B} (oc : bool).

(** The octets of a builder in state [st]; the length octet of the label
    under construction may still be anything. *)
Definition nb_rep (nb : NameBuilder B) (st : astate) : Prop :=
  a_wf st /\
  match nb_head nb, st.2 with
  | None, None => nb_as_slice nb = labels_wire st.1
  | Some h, Some l =>
      h = length (labels_wire st.1) /\ exists x, nb_as_slice nb = labels_wire st.1 ++ x :: l
  | _, _ => False
  end.

(** [f] does what [g] says: it ends, with the same result, and a success
    leaves a builder in the state [g] gives. *)
Definition refines {E} (f : op (B:=B) E) (g : astate -> result astate E) : Prop :=
  forall nb st, nb_rep nb st ->
  match g st with
  | Ok st' => exists nb', f nb = Ret (nb', Ok ()) /\ nb_rep nb' st'
  | Err e => exists nb', f nb = Ret (nb', Err e)
  end.

Lemma nb_new_rep : nb_rep nb_new ([], None).
Proof.
  split; [split; [constructor|unfold a_size; simpl; lia]|]. simpl. unfold nb_as_slice; simpl.
  apply as_ref_empty.
Qed.

Lemma nb_rep_len nb st : nb_rep nb st -> nb_len nb = a_size st.
Proof.
  destruct st as [ls cur]. intros [_ Hr]. rewrite a_size_eq. unfold nb_len; simpl in Hr.
  destruct (nb_head nb), cur; try done.
  - destruct Hr as (_ & x & ->). by rewrite length_app.
  - by rewrite Hr, Nat.add_0_r.
Qed.

Lemma nb_append_raw_ok s nb : exists nb',
  nb_append_raw s nb = Ret (nb', Ok ()) /\ nb_head nb' = nb_head nb /\
  nb_as_slice nb' = nb_as_slice nb ++ s.
Proof.
  unfold nb_append_raw. destruct (append_slice_total (nb_builder nb) s) as [b' Hb]. rewrite Hb.
  eexists; split; [done|]. split; [done|]. by apply as_ref_append.
Qed.

Lemma nb_end_label_rep nb st :
  nb_rep nb st -> exists nb', nb_end_label oc nb = Ret nb' /\ nb_rep nb' (a_close st).
Proof.
  intros Hrep. pose proof (nb_rep_len _ _ Hrep) as Hlen. destruct Hrep as [Hwf Hr].
  destruct st as [ls cur]. unfold nb_end_label. rewrite Hlen, a_size_eq. simpl in Hr.
  destruct (nb_head nb) as [h|] eqn:Eh, cur as [l|]; try done.
  - destruct Hr as (-> & x & Hx). rewrite !usize_sub_ok by lia.
    destruct (Nat.ltb_spec (length (labels_wire ls)) (length (labels_wire ls) + S (length l)));
      [|lia]. eexists; split; [done|]. split; [by apply a_close_wf|]. simpl.
    unfold nb_as_slice in *; simpl. rewrite as_ref_set_octet by (rewrite Hx, length_app; simpl; lia).
    rewrite Hx. rewrite <- (Nat.add_0_r (length (labels_wire ls))) at 1. rewrite insert_app_r. simpl.
    unfold a_labels; simpl. rewrite labels_wire_app, labels_wire_cons; simpl. rewrite app_nil_r.
    f_equal. f_equal. destruct Hwf as [Hl _].
    apply Forall_app in Hl as [_ Hl]. apply Forall_uncons in Hl as [[Hl _] _].
    rewrite <- zlen_label_u8 by lia. f_equal. unfold zlen. lia.
  - exists nb. split; [done|]. split; [by apply a_close_wf|]. simpl. rewrite Eh.
    unfold a_labels; simpl. by rewrite app_nil_r.
Qed.

Lemma refines_ok {E} : refines (E:=E) op_ok (@Ok _ _).
Proof. intros nb st Hr. by exists nb. Qed.

Lemma refines_seq {E} (f f' : op (B:=B) E) g g' :
  refines f g -> refines f' g' -> refines (op_seq f f') (fun st => let? st' := g st in g' st').
Proof.
  intros Hf Hf' nb st Hr. specialize (Hf nb st Hr). unfold op_seq.
  destruct (g st) as [st'|e].
  - destruct Hf as (nb' & -> & Hr'). exact (Hf' nb' st' Hr').
  - destruct Hf as (nb' & ->). by exists nb'.
Qed.

Lemma refines_each {A E} (f : A -> op (B:=B) E) g l :
  (forall x, x ∈ l -> refines (f x) (g x)) -> refines (op_each f l) (a_each g l).
Proof.
  induction l as [|x l IH]; intros Hf; simpl; [apply refines_ok|].
  apply (refines_seq (f x) (op_each f l) (g x) (a_each g l)); [apply Hf; left|].
  apply IH. intros y Hy; apply Hf; by right.
Qed.

Lemma refines_end_label {E} (f : op (B:=B) E) g :
  refines f g -> refines (op_end_label oc f) (fun st => g (a_close st)).
Proof.
  intros Hf nb st Hr. unfold op_end_label. destruct (nb_end_label_rep _ _ Hr) as (nb' & -> & Hr').
  exact (Hf nb' _ Hr').
Qed.

Lemma refines_map_err {E F} (h : E -> F) (f : op (B:=B) E) g :
  refines f g -> refines (op_map_err h f) (fun st => map_err h (g st)).
Proof.
  intros Hf nb st Hr. specialize (Hf nb st Hr). unfold op_map_err.
  destruct (g st) as [st'|e]; simpl.
  - destruct Hf as (nb' & -> & Hr'). eauto.
  - destruct Hf as (nb' & ->). eauto.
Qed.

Lemma nb_push_refines ch : is_u8 ch -> refines (nb_push oc ch) (a_push ch).
Proof.
  intros Hch nb st Hrep. pose proof (nb_rep_len _ _ Hrep) as Hlen.
  pose proof (a_push_wf ch st) as Hpwf. destruct Hrep as [Hwf Hr].
  destruct st as [ls cur]. unfold nb_push. rewrite Hlen. unfold a_push in *.
  destruct (Nat.leb_spec 254 (a_size (ls, cur))) as [|Hsz]; [eauto|].
  cbn [fst snd] in *. simpl in Hr.
  destruct (nb_head nb) as [h|] eqn:Eh, cur as [l|]; try done.
  - destruct Hr as (-> & x & Hx). rewrite a_size_eq in *. rewrite usize_sub_ok by lia.
    destruct (Nat.leb_spec LABEL_MAX_LEN (length l)), (Z.ltb_spec (Z.of_nat LABEL_MAX_LEN)
      (Z.of_nat (length (labels_wire ls) + S (length l)) - Z.of_nat (length (labels_wire ls))));
      try lia; [eauto|].
    destruct (nb_append_raw_ok [ch] nb) as (nb' & -> & Hh & Hs). exists nb'. split; [done|].
    split; [by apply Hpwf|]. simpl. rewrite Hh, Eh, Hs, Hx. split; [done|].
    exists x. by rewrite <- app_assoc.
  - rewrite a_size_eq in *. rewrite Nat.add_0_r in *.
    destruct (nb_append_raw_ok [0; ch] (mkNB (nb_builder nb) (Some (length (labels_wire ls)))))
      as (nb' & -> & Hh & Hs). exists nb'. split; [done|].
    split; [by apply Hpwf|]. simpl. rewrite Hh. split; [done|]. exists 0.
    rewrite Hs. unfold nb_as_slice in *; simpl. by rewrite Hr.
Qed.

Lemma nb_append_label_refines l : wf_octets l -> refines (nb_append_label oc l) (a_label l).
Proof.
  intros Hw nb st Hrep. pose proof (a_label_wf l st) as Hlwf.
  destruct (nb_end_label_rep _ _ Hrep) as (nb1 & E1 & Hr1).
  pose proof (nb_rep_len _ _ Hr1) as Hlen. rewrite a_close_size in Hlen.
  unfold nb_append_label. rewrite E1. unfold nb_append_slice, a_label in *.
  destruct Hr1 as [Hwf1 Hr1]. simpl in Hr1. destruct (nb_head nb1) as [|] eqn:Eh; [done|].
  destruct (length l =? 0)%nat eqn:El.
  { unfold op_end_label, nb_end_label. rewrite Eh. exists nb1. split; [done|].
    split; [done|]. simpl. by rewrite Eh. }
  destruct (LABEL_MAX_LEN <? length l)%nat; [eauto|]. rewrite Hlen.
  destruct (254 <? a_size st + length l)%nat eqn:Es; [eauto|]. unfold op_seq.
  destruct (nb_append_raw_ok [0] (mkNB (nb_builder nb1) (Some (a_size st))))
    as (nb2 & -> & Hh2 & Hs2).
  destruct (nb_append_raw_ok l nb2) as (nb3 & -> & Hh3 & Hs3).
  assert (Hr3 : nb_rep nb3 (a_labels st, Some l)).
  { split.
    - specialize (Hlwf _ Hw (proj1 Hrep) eq_refl). destruct Hlwf as [Hl Hsz].
      unfold a_labels in Hl; simpl in Hl. rewrite app_nil_r in Hl. split; [done|].
      unfold a_size, a_labels in Hsz |- *; simpl in Hsz |- *. by rewrite app_nil_r in Hsz.
    - simpl. rewrite Hh3, Hh2; simpl. split; [done|]. exists 0. rewrite Hs3, Hs2.
      unfold nb_as_slice in *; simpl. rewrite Hr1. by rewrite <- app_assoc. }
  destruct (nb_end_label_rep _ _ Hr3) as (nb4 & E4 & Hr4).
  exists nb4. unfold op_end_label. rewrite E4. split; [done|].
  exact Hr4.
Qed.
End Refinement.

(** ** Sequences of calls *)

Inductive builder_call :=
  | CallPush (ch : Z) | CallEndLabel | CallLabel (label : list Z)
  | CallDecLabel (value : Z) | CallHexLabel (nibble : Z).

Definition wf_call (c : builder_call) : Prop :=
  match c with
  | CallPush ch => is_u8 ch
  | CallEndLabel => True
  | CallLabel l => wf_octets l
  | CallDecLabel v => is_u8 v
  | CallHexLabel v => is_u8 v
  end.

#[export] Instance wf_call_dec c : Decision (wf_call c).
Proof. destruct c; simpl; apply _. Defined.

Definition nb_call {B} `{OctetsBuilder B} (oc : bool) (c : builder_call) : op (B:=B) PushError :=
  match c with
  | CallPush ch => nb_push oc ch
  | CallEndLabel => op_end_label oc op_ok
  | CallLabel l => nb_append_label oc l
  | CallDecLabel v => nb_append_dec_u8_label oc v
  | CallHexLabel v => nb_append_hex_digit_label oc v
  end.

(** The decimal digits of an octet, without leading zeros. *)
Definition dec_digits (v : Z) : list Z :=
  if v <? 10 then [48 + v]
  else if v <? 100 then [48 + v / 10; 48 + v mod 10]
  else [48 + v / 100; 48 + v / 10 mod 10; 48 + v mod 10].

(** A label made of the octets [l], pushed one by one. *)
Definition a_pushed (l : list Z) (st : astate) : result astate PushError :=
  let? st' := a_each a_push l (a_close st) in Ok (a_close st').

Definition a_call (c : builder_call) : astate -> result astate PushError :=
  match c with
  | CallPush ch => a_push ch
  | CallEndLabel => fun st => Ok (a_close st)
  | CallLabel l => a_label l
  | CallDecLabel v => a_pushed (dec_digits v)
  | CallHexLabel v => a_pushed [hex_digit v]
  end.

Lemma hex_digit_u8 n : is_u8 (hex_digit n).
Proof.
  unfold hex_digit. assert (0 <= Z.land n 0x0F < 16).
  { change 0x0F with (Z.ones 4). rewrite Z.land_ones by lia. by apply Z.mod_pos_bound. }
  destruct (Z.ltb_spec (Z.land n 0x0F) 10); ulia.
Qed.

Lemma dec_digits_u8 v : is_u8 v -> wf_octets (dec_digits v).
Proof. revert v. by_octets. Qed.

(** The three divisions of [append_dec_u8_label] and the digits. *)
Lemma dec_digits_split v :
  is_u8 v ->
  dec_digits v = (if 0 <? v / 100 then [v / 100 + 48] else []) ++
    (if (0 <? v / 100) || (0 <? v / 10 mod 10) then [v / 10 mod 10 + 48] else []) ++
    [v mod 10 + 48].
Proof. revert v. by_octets. Qed.

(** ** What the calls are documented to do

    A call makes the name grow; it is to fail if a label would have more than 63
    octets or the relative name more than 254. *)
Definition a_add (l : list Z) (st : astate) : astate :=
  match l with [] => a_close st | _ => (a_labels st ++ [l], None) end.

(** The hexadecimal digit of the lower four bits. *)
Definition hex_char (v : Z) : Z :=
  nth (Z.to_nat (v mod 16)) [48; 49; 50; 51; 52; 53; 54; 55; 56; 57; 65; 66; 67; 68; 69; 70] 0.

Definition grow (c : builder_call) (st : astate) : astate :=
  match c with
  | CallPush ch => (st.1, Some (default [] st.2 ++ [ch]))
  | CallEndLabel => a_close st
  | CallLabel l => a_add l st
  | CallDecLabel v => a_add (dec_digits v) st
  | CallHexLabel v => a_add [hex_char v] st
  end.

Definition grow_all (calls : list builder_call) (st : astate) : astate :=
  foldl (fun st c => grow c st) st calls.

Definition fits (st : astate) : Prop :=
  Forall (fun l => (length l <= 63)%nat) (a_labels st) /\ (a_size st <= 254)%nat.

Definition refused (st : astate) (e : PushError) : Prop :=
  match e with
  | PushLongLabel => Exists (fun l => (63 < length l)%nat) (a_labels st)
  | PushLongName => (254 < a_size st)%nat
  | PushShortBuf => False
  end.

Lemma fits_new : fits ([], None).
Proof. split; [done|cbn; lia]. Qed.

Lemma fits_close st : fits st -> fits (a_close st).
Proof. unfold fits. by rewrite a_close_labels, a_close_size. Qed.

Lemma hex_char_digit v : is_u8 v -> hex_char v = hex_digit v.
Proof. revert v. by_octets. Qed.

Lemma pushed_digits_length v : (0 < length (dec_digits v) <= 3)%nat.
Proof. unfold dec_digits. repeat case_match; simpl; lia. Qed.

Lemma a_push_grow ch st :
  fits st -> a_size (grow (CallPush ch) st) <> 255%nat ->
  match a_push ch st with
  | Ok st' => st' = grow (CallPush ch) st /\ fits st'
  | Err e => refused (grow (CallPush ch) st) e
  end.
Proof.
  destruct st as [ls cur]. unfold a_push, fits, refused, grow. cbn [fst snd]. intros [Hl Hs].
  rewrite !a_size_eq in *. unfold a_labels in *. cbn [fst snd] in *. apply Forall_app in Hl as [Hls Hcur].
  destruct cur as [l|]; cbn [from_option a_cur id] in *; rewrite ?length_app; cbn [length] in *;
    intros Hne;
    match goal with |- context [(254 <=? ?x)%nat] => destruct (Nat.leb_spec 254 x) end; try lia.
  - apply Forall_cons in Hcur as [Hcur _]. unfold LABEL_MAX_LEN.
    destruct (Nat.leb_spec 63 (length l)).
    + apply Exists_app. right. constructor. rewrite length_app. simpl. lia.
    + split; [done|]. rewrite a_size_eq, length_app. cbn [length]. split; [|lia].
      apply Forall_app. split; [done|]. constructor; [rewrite length_app; simpl; lia|done].
  - split; [done|]. rewrite a_size_eq. cbn [length app]. split; [|lia].
    apply Forall_app. split; [done|]. constructor; [simpl; lia|done].
Qed.

Lemma a_add_size l st : l <> [] -> a_size (a_add l st) = (a_size st + S (length l))%nat.
Proof.
  destruct l as [|x l]; [done|]. intros _. unfold a_size, a_add, a_labels. cbn [fst snd].
  rewrite app_nil_r, labels_wire_app, length_app. f_equal. rewrite labels_wire_cons. simpl. by rewrite app_nil_r.
Qed.

Lemma a_add_fits l st :
  l <> [] -> (length l <= 63)%nat -> fits st -> (a_size (a_add l st) <= 254)%nat -> fits (a_add l st).
Proof.
  intros Hne Hl [Hls _] Hs. split; [|done]. destruct l as [|x l]; [done|]. unfold a_labels, a_add. cbn [fst snd].
  rewrite app_nil_r. apply Forall_app. split; [done|]. by constructor.
Qed.

Lemma a_label_grow l st :
  fits st -> l <> [] -> a_size (a_add l st) <> 255%nat ->
  match a_label l st with
  | Ok st' => st' = a_add l st /\ fits st'
  | Err e => refused (a_add l st) e
  end.
Proof.
  intros Hst Hl Hne. pose proof (a_add_size l st Hl) as Es. unfold a_label.
  destruct (Nat.eqb_spec (length l) 0) as [E|_]; [by apply length_zero_iff_nil in E|].
  unfold LABEL_MAX_LEN. destruct (Nat.ltb_spec 63 (length l)).
  { destruct l; [done|]. apply Exists_app. left. apply Exists_app. right. by constructor. }
  destruct (Nat.ltb_spec 254 (a_size st + length l)); [simpl; lia|].
  assert (Ea : (a_labels st ++ [l], None) = a_add l st) by (by destruct l). rewrite Ea. split; [done|].
  apply a_add_fits; [done|done|done|lia].
Qed.

(** Appending a short label octet by octet. *)
Lemma a_pushed_short l st :
  (0 < length l <= 3)%nat -> (a_size st <= 254)%nat -> a_size (a_add l st) <> 255%nat ->
  a_pushed l st = if (254 <? a_size (a_add l st))%nat then Err PushLongName else Ok (a_add l st).
Proof.
  intros Hl Hs. rewrite a_add_size by (by destruct l; [simpl in Hl; lia|]).
  assert (Ea : forall cur, a_size (a_labels st, cur) = (a_size st + match cur with Some l => S (length l) | None => 0 end)%nat).
  { intros cur. by rewrite a_size_eq. }
  unfold a_pushed, a_close, a_push.
  destruct l as [|a [|b [|c [|d l]]]]; cbn [length] in Hl; try lia; intros Hne; cbn [a_each];
    repeat first [rewrite Ea in *; cbn [fst snd app length] in *
      | progress change (LABEL_MAX_LEN <=? 1)%nat with false
      | progress change (LABEL_MAX_LEN <=? 2)%nat with false
      | match goal with |- context [(254 <=? ?x)%nat] => destruct (Nat.leb_spec 254 x); try lia end
      | match goal with |- context [(254 <? ?x)%nat] => destruct (Nat.ltb_spec 254 x); try lia end];
    done.
Qed.

Lemma a_pushed_grow l st :
  (0 < length l <= 3)%nat -> fits st -> a_size (a_add l st) <> 255%nat ->
  match a_pushed l st with
  | Ok st' => st' = a_add l st /\ fits st'
  | Err e => refused (a_add l st) e
  end.
Proof.
  intros Hl Hst Hne. rewrite a_pushed_short by (done || apply Hst).
  destruct (Nat.ltb_spec 254 (a_size (a_add l st))); [done|]. split; [done|].
  apply a_add_fits; [by destruct l; [simpl in Hl; lia|]|lia|done|done].
Qed.

Section Calls.
Context {B : Type} `{OctetsBuilderOk B} `{!InfallibleBuilder B} (oc : bool).

Lemma refines_ext {E} (f : op (B:=B) E) g g' :
  (forall st, g st = g' st) -> refines f g -> refines f g'.
Proof. intros Hg Hf nb st Hr. rewrite <- Hg. by apply Hf. Qed.

Lemma nb_push_if_refines (c : bool) ch :
  is_u8 ch ->
  refines (B:=B) (if c then nb_push oc ch else op_ok) (a_each a_push (if c then [ch] else [])).
Proof.
  intros Hch. destruct c; simpl; [|apply refines_ok].
  apply (refines_ext _ (a_push ch)); [intros st; by destruct (a_push ch st)|by apply nb_push_refines].
Qed.

Lemma a_each_app {A E} (g : A -> astate -> result astate E) l l' st :
  a_each g (l ++ l') st = let? st' := a_each g l st in a_each g l' st'.
Proof. revert st; induction l as [|x l IH]; intros st; simpl; [done|]. destruct (g x st); auto. Qed.

Lemma nb_call_refines c : wf_call c -> refines (B:=B) (nb_call oc c) (a_call c).
Proof.
  destruct c as [ch| |l|v|v]; simpl; intros Hc.
  - by apply nb_push_refines.
  - apply (refines_end_label oc op_ok (@Ok _ _)), refines_ok.
  - by apply nb_append_label_refines.
  - unfold nb_append_dec_u8_label, a_pushed. rewrite (dec_digits_split v Hc).
    assert (Hd : wf_octets [v / 100 + 48; v / 10 mod 10 + 48; v mod 10 + 48])
      by (clear -Hc; revert v Hc; by_octets).
    apply Forall_uncons in Hd as [H1 Hd]; apply Forall_uncons in Hd as [H2 Hd];
      apply Forall_uncons in Hd as [H3 _].
    eapply refines_ext; [|apply refines_end_label; apply refines_seq;
      [by apply nb_push_if_refines|]; apply refines_seq; [by apply nb_push_if_refines|];
      apply refines_seq; [by apply nb_push_refines|];
      apply (refines_end_label oc op_ok (@Ok _ _)), refines_ok].
    intros st; cbv beta. rewrite a_each_app.
    destruct (a_each _ _ (a_close st)) as [st1|]; [|done]. rewrite a_each_app.
    destruct (a_each _ _ st1) as [st2|]; [|done]. simpl. by destruct (a_push _ st2).
  - unfold nb_append_hex_digit_label, a_pushed.
    eapply refines_ext; [|apply refines_end_label; apply refines_seq;
      [apply nb_push_refines, hex_digit_u8|];
      apply (refines_end_label oc op_ok (@Ok _ _)), refines_ok].
    intros st; cbv beta. simpl. by destruct (a_push _ _).
Qed.

Lemma nb_finish_rep (nb : NameBuilder B) st :
  nb_rep nb st -> nb_finish oc nb = Ret (mkRel (labels_wire (a_labels st))).
Proof.
  intros Hr. unfold nb_finish. destruct (nb_end_label_rep oc _ _ Hr) as (nb' & -> & [_ Hr']).
  simpl in Hr'. destruct (nb_head nb'); [done|]. by rewrite freeze_as_ref; fold (nb_as_slice nb'); rewrite Hr'.
Qed.

Lemma nb_into_name_rep (nb : NameBuilder B) st :
  nb_rep nb st -> nb_into_name oc nb = Ret (Ok (mkName (labels_wire (a_labels st ++ [[]])))).
Proof.
  intros Hr. unfold nb_into_name, op_end_label.
  destruct (nb_end_label_rep oc _ _ Hr) as (nb' & -> & [_ Hr']).
  destruct (nb_append_raw_ok [0] nb') as (nb2 & -> & _ & Hs). do 3 f_equal.
  rewrite freeze_as_ref; fold (nb_as_slice nb2). rewrite Hs.
  simpl in Hr'. destruct (nb_head nb'); [done|]. rewrite Hr'. by rewrite labels_wire_app.
Qed.

(** The calls against the documented limits. *)
Lemma a_call_grow c st :
  wf_call c -> fits st -> a_size (grow c st) <> 255%nat ->
  match a_call c st with
  | Ok st' => st' = grow c st /\ fits st'
  | Err e => refused (grow c st) e
  end.
Proof.
  intros Hc Hst Hne. destruct c as [ch| |l|v|v]; simpl in *.
  - by apply a_push_grow.
  - split; [done|]. by apply fits_close.
  - unfold a_label, a_add in *. destruct l as [|x l]; [by split; [|apply fits_close]|]. cbn [length Nat.eqb].
    by apply (a_label_grow (x :: l)).
  - apply a_pushed_grow; [apply pushed_digits_length|done..].
  - rewrite hex_char_digit in * by done. apply a_pushed_grow; [simpl; lia|done..].
Qed.

Lemma a_calls_grow calls st :
  Forall wf_call calls -> fits st ->
  (forall k, a_size (grow_all (take k calls) st) <> 255%nat) ->
  match a_each a_call calls st with
  | Ok st' => st' = grow_all calls st /\ (forall k, fits (grow_all (take k calls) st))
  | Err e => exists before c after, calls = before ++ c :: after /\
      (forall k, fits (grow_all (take k before) st)) /\ refused (grow c (grow_all before st)) e
  end.
Proof.
  revert st; induction calls as [|c calls IH]; intros st Hw Hst Hne.
  { split; [done|]. intros k. by rewrite take_nil. }
  apply Forall_cons in Hw as [Hc Hw]. cbn [a_each].
  pose proof (a_call_grow c st Hc Hst (Hne 1%nat)) as H1. destruct (a_call c st) as [st1|e].
  - destruct H1 as [-> Hf]. specialize (IH _ Hw Hf (fun k => Hne (S k))).
    destruct (a_each a_call calls _) as [st2|e].
    + destruct IH as [-> Hall]. split; [done|]. by intros [|k]; [|apply Hall].
    + destruct IH as (b & c' & a & -> & Hb & He). exists (c :: b), c', a. split_and!; [done| |done].
      by intros [|k]; [|apply Hb].
  - exists [], c, calls. split_and!; [done| |done]. intros k. by rewrite take_nil.
Qed.

(** Any sequence of the calls [push], [end_label], [append_label],
    [append_dec_u8_label] and [append_hex_digit_label] on a new builder, atop a
    target on which appending never fails such as a [Vec], does what the calls
    are documented to do, unless one of them would make the relative name
    exactly 255 octets long (the builder lets that happen, one octet more than
    its documentation allows; see [name_from_chars_too_long]).  The calls never
    panic.  They all succeed exactly if every name on the way keeps to labels of
    at most 63 octets and to 254 octets in all; [finish] and [into_name] then give
    exactly the labels that were appended, as a valid relative name and as an
    absolute name of at most 255 octets.  Otherwise the calls stop at the first
    one that would break a limit, with the error for that limit.  (C4) *)
Theorem builder_calls_refine calls :
  Forall wf_call calls ->
  (forall k, a_size (grow_all (take k calls) ([], None)) <> 255%nat) ->
  exists (nb : NameBuilder B) r, op_each (nb_call oc) calls nb_new = Ret (nb, r) /\
  let st := grow_all calls ([], None) in
  match r with
  | Ok _ => (forall k, fits (grow_all (take k calls) ([], None))) /\
      nb_finish oc nb = Ret (mkRel (labels_wire (a_labels st))) /\
      nb_into_name oc nb = Ret (Ok (mkName (labels_wire (a_labels st ++ [[]])))) /\
      rel_labels (a_labels st) /\ (length (labels_wire (a_labels st ++ [[]])) <= 255)%nat
  | Err e => exists before c after, calls = before ++ c :: after /\
      (forall k, fits (grow_all (take k before) ([], None))) /\
      refused (grow c (grow_all before ([], None))) e
  end.
Proof.
  intros Hw Hne. pose proof (refines_each (B:=B) (nb_call oc) a_call calls) as Hr.
  specialize (Hr (fun c Hc => nb_call_refines c (proj1 (list.Forall_forall _ _) Hw c Hc))
    nb_new _ nb_new_rep).
  pose proof (a_calls_grow calls ([], None) Hw fits_new Hne) as Hg.
  destruct (a_each a_call calls ([], None)) as [st|e].
  - destruct Hr as (nb & E & Hrep). exists nb, (Ok ()). split; [done|]. destruct Hg as [-> Hf]. split_and!; [done|..].
    + by apply nb_finish_rep.
    + by apply nb_into_name_rep.
    + apply Hrep.
    + pose proof (Hf (length calls)) as [_ Hs]. rewrite take_ge in Hs by done. unfold a_size in Hs.
      rewrite labels_wire_app, length_app. cbn. lia.
  - destruct Hr as (nb & E). by exists nb, (Err e).
Qed.
End Calls.

Definition ex_calls : list builder_call := [CallPush 97; CallPush 98; CallDecLabel 120; CallLabel [99]].

Lemma builder_calls_refine_witness :
  exists nb : NameBuilder (list Z),
    op_each (nb_call true) ex_calls nb_new = Ret (nb, Ok ()) /\
    nb_finish true nb = Ret (mkRel [2; 97; 98; 3; 49; 50; 48; 1; 99]) /\
    rel_labels [[97; 98]; [49; 50; 48]; [99]].
Proof.
  destruct (builder_calls_refine (B:=list Z) true ex_calls ltac:(by_decide)) as (nb & r & H1 & H2).
  { intros k. do 4 (destruct k as [|k]; [vm_compute; discriminate|]).
    rewrite take_ge by (simpl; lia). vm_compute. discriminate. }
  destruct r as [[]|e].
  - destruct H2 as (_ & H2 & _ & H3 & _). by exists nb.
  - vm_compute in H1. discriminate.
Defined.

(** ** Names from text *)

(** A symbol whose octet, if it has one, is an octet. *)
Definition octet_symbol (sym : Symbol) : Prop :=
  match sym with
  | Char ch => True
  | SimpleEscape b => is_u8 b
  | DecimalEscape b => is_u8 b
  end.

Lemma octet_symbol_into sym ch : octet_symbol sym -> symbol_into_octet sym = Ok ch -> is_u8 ch.
Proof.
  destruct sym as [c|b|b]; simpl; [|congruence..].
  intros _. unfold is_printable. case_scrut; [|done]. breflect. intros [= <-]. ulia.
Qed.

Lemma symbol_from_chars_octet chars sym rest :
  symbol_from_chars chars = Ok (Some (sym, rest)) -> octet_symbol sym.
Proof.
  unfold symbol_from_chars; intros; inv_result; unfold octet_symbol; auto with octets; try ulia.
Qed.

Lemma symbols_all_octet chars : Forall octet_symbol (symbols_all chars).1.
Proof.
  remember (length chars) as n eqn:Hn. revert chars Hn.
  induction (lt_wf n) as [n _ IH]; intros chars ->.
  destruct (symbol_from_chars chars) as [[[sym rest]|]|e] eqn:E.
  - rewrite (symbols_all_cons _ _ _ E). constructor; [by eapply symbol_from_chars_octet|].
    eapply IH; [|done]. by eapply symbol_from_chars_shorter.
  - unfold symbols_all. cbn [symbols_drain symbols_next]. rewrite E. constructor.
  - unfold symbols_all. cbn [symbols_drain symbols_next]. rewrite E. constructor.
Qed.

Section FromText.
Context {B : Type} `{OctetsBuilderOk B} `{!InfallibleBuilder B} (oc : bool).

Lemma nb_in_label_rep (nb : NameBuilder B) st :
  nb_rep nb st -> nb_in_label nb = bool_decide (is_Some st.2).
Proof.
  intros [_ Hr]. unfold nb_in_label. destruct (nb_head nb), (st.2); try done.
Qed.

Lemma nb_push_symbol_refines sym :
  octet_symbol sym -> refines (B:=B) (nb_push_symbol oc sym) (a_symbol sym).
Proof.
  intros Hs nb st Hr. unfold nb_push_symbol, a_symbol. rewrite (nb_in_label_rep _ _ Hr).
  case_bool_decide as Hdot.
  { destruct (st.2) eqn:E; simpl; [|eauto].
    exact (refines_end_label oc op_ok (@Ok _ _) refines_ok nb st Hr). }
  replace (negb (bool_decide (is_Some st.2))) with (bool_decide (st.2 = None))
    by (by destruct (st.2)).
  destruct (bool_decide (sym = SimpleEscape 91) && _); [eauto|].
  destruct (symbol_into_octet sym) as [ch|e] eqn:E; simpl; [|eauto].
  apply (refines_map_err from_str_push (nb_push oc ch) (a_push ch)); [|done].
  apply nb_push_refines. by eapply octet_symbol_into.
Qed.

Lemma nb_append_symbols_refines syms :
  Forall octet_symbol syms -> refines (B:=B) (nb_append_symbols oc syms) (a_each a_symbol syms).
Proof.
  intros Hs. apply refines_each. intros sym Hin. apply nb_push_symbol_refines.
  by apply (proj1 (list.Forall_forall _ _) Hs).
Qed.

(** [Name::from_symbols] on symbols the abstract builder accepts. *)
Lemma name_from_symbols_spec syms :
  Forall octet_symbol syms -> syms <> [] -> head syms <> Some (Char 46) ->
  name_from_symbols (B:=B) oc syms = Ret
    (let? st := a_each a_symbol syms ([], None) in
     Ok (mkName (labels_wire (a_labels st ++ [[]])))).
Proof.
  intros Hs Hn Hd. destruct syms as [|sym syms]; [done|].
  unfold name_from_symbols. rewrite bool_decide_false by (simpl in Hd; congruence).
  change (op_seq (nb_push_symbol oc sym) (nb_append_symbols oc syms))
    with (nb_append_symbols (B:=B) oc (sym :: syms)).
  pose proof (nb_append_symbols_refines _ Hs nb_new _ nb_new_rep) as Hr.
  destruct (a_each a_symbol (sym :: syms) ([], None)) as [st|e].
  - destruct Hr as (nb & -> & Hrep).
    by rewrite (nb_into_name_rep oc _ _ Hrep).
  - by destruct Hr as (nb & ->).
Qed.
End FromText.

Lemma a_symbol_wf sym st st' :
  octet_symbol sym -> a_wf st -> a_symbol sym st = Ok st' -> a_wf st'.
Proof.
  intros Hs Hw. unfold a_symbol. case_bool_decide.
  { destruct (st.2); [|done]. intros [= <-]. by apply a_close_wf. }
  destruct (_ && _); [done|]. destruct (symbol_into_octet sym) as [ch|] eqn:E; simpl; [|done].
  destruct (a_push ch st) as [st1|] eqn:E1; simpl; [|done]. intros [= <-].
  eapply a_push_wf; [|exact Hw|exact E1]. by eapply octet_symbol_into.
Qed.

Lemma a_symbols_wf syms st st' :
  Forall octet_symbol syms -> a_wf st -> a_each a_symbol syms st = Ok st' -> a_wf st'.
Proof.
  intros Hs. revert st. induction Hs as [|sym syms Hs _ IH]; intros st Hw; simpl; [congruence|].
  destruct (a_symbol sym st) as [st1|] eqn:E; [|done]. apply IH. by eapply a_symbol_wf.
Qed.

(** [Name::from_chars] never panics and only makes absolute names: labels of 1
    to 63 octets and the root label at the end.  The octets are at most 256,
    though, one more than a name may have ([name_from_chars_too_long]). *)
Theorem name_from_chars_sound {B} `{OctetsBuilderOk B} `{!InfallibleBuilder B} oc chars :
  exists r, name_from_chars (B:=B) oc chars = Ret r /\
    forall n, r = Ok n -> exists ls, abs_labels ls /\ name_octets n = labels_wire ls /\
      (length (name_octets n) <= 256)%nat.
Proof.
  unfold name_from_chars. pose proof (symbols_all_octet chars) as Ho.
  destruct (symbols_all chars) as [syms st]; simpl in Ho.
  destruct (decide (syms = [])) as [->|Hn]; [eexists; split; [done|]; by intros|].
  destruct (decide (head syms = Some (Char 46))) as [Hd|Hd].
  - destruct syms as [|sym syms]; [done|]. simpl in Hd; simplify_eq. unfold name_from_symbols.
    rewrite bool_decide_true by done. destruct syms; [|eexists; split; [done|]; by intros].
    destruct (append_slice_total (builder_empty : B) [0]) as [b Hb]. rewrite Hb.
    eexists; split; [done|]. intros n En. destruct (symbols_ok st); simplify_eq/=.
    exists [[]]. rewrite freeze_as_ref, (as_ref_append _ _ _ Hb), as_ref_empty.
    split_and!; [by exists []|done|simpl; lia].
  - rewrite name_from_symbols_spec by done. eexists; split; [done|]. intros n En.
    destruct (a_each a_symbol syms ([], None)) as [st'|] eqn:E; [|done].
    destruct (symbols_ok st); simplify_eq/=. exists (a_labels st' ++ [[]]).
    eapply a_symbols_wf in E as [Hl Hs]; [|done|split; [constructor|unfold a_size; simpl; lia]].
    split_and!; [by eexists|done|].
    rewrite labels_wire_app, length_app. unfold a_size in Hs. simpl. lia.
Qed.

Lemma name_from_chars_sound_witness :
  exists n ls, name_from_chars (B:=list Z) true [97; 46; 98] = Ret (Ok n) /\ abs_labels ls /\
    name_octets n = labels_wire ls /\ name_octets n = [1; 97; 1; 98; 0].
Proof.
  destruct (name_from_chars_sound (B:=list Z) true [97; 46; 98]) as (r & Hr & Hn).
  vm_compute in Hr. injection Hr as <-. destruct (Hn _ eq_refl) as (ls & Ha & Hl & _).
  by exists (mkName [1; 97; 1; 98; 0]), ls.
Defined.

(** A text of 255 characters, [a…a.a…a.a…a.a…a.a] with labels of 63, 63, 63, 60
    and 1 octets. *)
Definition long_text : list Z :=
  replicate 63 97 ++ [46] ++ replicate 63 97 ++ [46] ++ replicate 63 97 ++ [46] ++
  replicate 60 97 ++ [46; 97].

(** [NameBuilder::push] only looks at the octets there are before it adds the
    length octet of a new label, so the text of a name of 256 octets is accepted
    although a name has at most 255; the result is not a valid name. *)
Theorem name_from_chars_too_long :
  exists n, name_from_chars (B:=list Z) true long_text = Ret (Ok n) /\
    length (name_octets n) = 256%nat /\ name_from_octets (name_octets n) = Err NLongName.
Proof. eexists. split; [vm_compute; reflexivity|]. by split. Qed.

(** ** Displaying a name and reading it back *)

(** The symbol that [Display for Label] writes for an octet. *)
Definition fmt_symbol (b : Z) : Symbol :=
  if (b =? 32) || (b =? 46) || (b =? 92) then SimpleEscape b
  else if negb (is_printable b) then DecimalEscape b
  else Char b.

Lemma fmt_symbol_spec b :
  is_u8 b ->
  label_fmt_octet b = symbol_fmt (fmt_symbol b) /\ wf_symbol (fmt_symbol b) /\
  symbol_into_octet (fmt_symbol b) = Ok b /\ fmt_symbol b <> Char 46 /\ fmt_symbol b <> SimpleEscape 91.
Proof. revert b. by_octets. Qed.

Lemma label_fmt_symbols l :
  wf_octets l -> label_fmt l = concat (map symbol_fmt (map fmt_symbol l)).
Proof.
  unfold label_fmt. induction 1 as [|b l Hb _ IH]; simpl; [done|].
  by rewrite IH, (proj1 (fmt_symbol_spec b Hb)).
Qed.

Lemma fmt_symbols_wf l : wf_octets l -> Forall wf_symbol (map fmt_symbol l).
Proof.
  intros Hl. apply Forall_map. eapply Forall_impl; [exact Hl|]. intros b Hb.
  by apply fmt_symbol_spec.
Qed.

(** Pushing the symbols of a label. *)
Lemma a_symbols_label l ls l0 :
  wf_octets l -> (length (labels_wire ls) + S (length l0 + length l) <= 254)%nat ->
  (length l0 + length l <= LABEL_MAX_LEN)%nat ->
  a_each a_symbol (map fmt_symbol l) (ls, Some l0) = Ok (ls, Some (l0 ++ l)).
Proof.
  intros Hw. revert l0. induction Hw as [|b l Hb _ IH]; intros l0 Hs Hl; simpl.
  { by rewrite app_nil_r. }
  destruct (fmt_symbol_spec b Hb) as (_ & _ & Hi & Hd & He). unfold a_symbol.
  rewrite !bool_decide_false by done. rewrite Hi; simpl. unfold a_push.
  rewrite a_size_eq. cbn [fst snd length] in *.
  destruct (Nat.leb_spec 254 (length (labels_wire ls) + S (length l0))); [lia|].
  destruct (Nat.leb_spec LABEL_MAX_LEN (length l0)); [lia|]. simpl.
  rewrite IH by (rewrite length_app; simpl; lia). by rewrite <- app_assoc.
Qed.

Lemma a_symbols_label_start l ls :
  nonroot l -> (length (labels_wire (ls ++ [l])) <= 254)%nat ->
  a_each a_symbol (map fmt_symbol l) (ls, None) = Ok (ls, Some l).
Proof.
  intros [Hl Hw]. rewrite labels_wire_app, length_app, labels_wire_cons; simpl.
  rewrite app_nil_r. intros Hs. destruct l as [|b l]; [simpl in *; lia|].
  apply Forall_uncons in Hw as [Hb Hw]. simpl.
  destruct (fmt_symbol_spec b Hb) as (_ & _ & Hi & Hd & He). unfold a_symbol.
  rewrite (bool_decide_false _ Hd), (bool_decide_false _ He), Hi; simpl. unfold a_push.
  rewrite a_size_eq. cbn [fst snd length] in *.
  destruct (Nat.leb_spec 254 (length (labels_wire ls) + 0)); [lia|]. simpl.
  by rewrite a_symbols_label by (simpl; lia || done).
Qed.

(** The symbols of labels that follow a label, each after a dot. *)
Definition rest_symbols (ls : list (list Z)) : list Symbol :=
  concat (map (fun l => Char 46 :: map fmt_symbol l) ls).

Lemma a_symbols_rest rest ls l :
  Forall nonroot rest -> (length (labels_wire (ls ++ l :: rest)) <= 254)%nat ->
  exists ls' l', a_each a_symbol (rest_symbols rest) (ls, Some l) = Ok (ls', Some l') /\
    ls' ++ [l'] = ls ++ l :: rest.
Proof.
  intros Hr. revert ls l. induction Hr as [|m rest Hm _ IH]; intros ls l Hs; [by exists ls, l|].
  unfold rest_symbols; cbn [map concat]. fold (rest_symbols rest).
  rewrite <- app_comm_cons. cbn [a_each]. unfold a_symbol at 1. rewrite bool_decide_true by done.
  cbn [snd]. unfold a_close, a_labels; cbn [fst snd a_cur]. rewrite a_each_app.
  replace (ls ++ l :: m :: rest) with ((ls ++ [l]) ++ m :: rest) in * by (by rewrite <- app_assoc).
  rewrite a_symbols_label_start; [apply IH; done|done|].
  rewrite (labels_wire_app (ls ++ [l])), length_app, labels_wire_cons in Hs. simpl in Hs.
  rewrite labels_wire_app, length_app, labels_wire_cons; simpl. rewrite app_nil_r, length_app in *. lia.
Qed.

Lemma concat_fmt_rest ls :
  Forall nonroot ls ->
  concat (map (fun l => 46 :: label_fmt l) ls) = concat (map symbol_fmt (rest_symbols ls)).
Proof.
  induction 1 as [|l ls [_ Hl] _ IH]; [done|].
  unfold rest_symbols; cbn [map concat]. fold (rest_symbols ls).
  rewrite map_app, concat_app, IH, label_fmt_symbols by done. done.
Qed.

Lemma fmt_rest_root ls :
  Forall nonroot ls -> fmt_rest (ls ++ [[]]) = concat (map (fun l => 46 :: label_fmt l) ls).
Proof.
  unfold fmt_rest. induction 1 as [|l ls Hl _ IH]; [done|]. cbn [app map concat].
  by rewrite IH, nonroot_is_root.
Qed.

Lemma rest_symbols_wf ls : Forall nonroot ls -> Forall wf_symbol (rest_symbols ls).
Proof.
  induction 1 as [|l ls [_ Hl] _ IH]; [constructor|]. unfold rest_symbols; cbn [map concat].
  constructor; [done|]. apply Forall_app; split; [by apply fmt_symbols_wf|done].
Qed.

(** The text of a name other than the root, without and with the final dot. *)
Lemma name_fmt_symbols n l ls :
  wf_abs n (l :: ls ++ [[]]) ->
  name_fmt n = Ret (concat (map symbol_fmt (map fmt_symbol l ++ rest_symbols ls))) /\
  fmt_with_dot n =
    Ret (concat (map symbol_fmt (map fmt_symbol l ++ rest_symbols ls ++ [Char 46]))).
Proof.
  intros Hwf. pose proof (wf_abs_fuel _ _ Hwf) as Hf. pose proof Hwf as (Ha & E & _).
  destruct Ha as (ls0 & E0 & Hr). rewrite app_comm_cons in E0.
  apply app_inj_tail in E0 as [<- _]. apply Forall_uncons in Hr as [Hl Hr].
  destruct (wf_abs_denotes _ _ Hwf) as [Rn _].
  unfold name_fmt, fmt_with_dot, name_is_root.
  destruct (li_next_cons _ _ _ Rn) as (it & Hnx & Rit).
  assert (Hc : collect_loop name_fuel it = Ret (ls ++ [[]])).
  { apply collect_loop_spec; [done|]. cbn [length] in Hf. lia. }
  simpl li_next in *. simpl iter_labels in *. rewrite Hnx, Hc, nonroot_is_root by done.
  destruct (Nat.eqb_spec (length (name_octets n)) 1) as [E1|_].
  { rewrite E, labels_wire_cons in E1. simpl in E1. rewrite length_app in E1.
    destruct Hl as [[]]. lia. }
  rewrite fmt_rest_root, map_app, concat_app, concat_fmt_rest by done. simpl map at 3.
  rewrite (label_fmt_symbols l) by apply Hl. rewrite !map_app, !concat_app. split; [done|].
  by rewrite concat_fmt_rest.
Qed.

Lemma fmt_symbols_octet syms : Forall wf_symbol syms -> Forall octet_symbol syms.
Proof. intros Hs. eapply Forall_impl; [exact Hs|]. intros [c|b|b]; simpl; [done| |done]. intros [? _]. ulia. Qed.

(** The text of a name, displayed without or with the final dot, reads back as
    the very same name: every name of at most 255 octets, whatever the octets of
    its labels, survives the round trip.  (C35) *)
Theorem name_text_roundtrip {B} `{OctetsBuilderOk B} `{!InfallibleBuilder B} oc n ls :
  wf_abs n ls ->
  (exists text, name_fmt n = Ret text /\ name_from_chars (B:=B) oc text = Ret (Ok n)) /\
  (exists text, fmt_with_dot n = Ret text /\ name_from_chars (B:=B) oc text = Ret (Ok n)).
Proof.
  intros Hwf. pose proof Hwf as ((ls0 & -> & Hr) & E & Hlen).
  destruct ls0 as [|l ls0].
  { assert (Hroot : name_from_chars (B:=B) oc [46] = Ret (Ok n)).
    { unfold name_from_chars, symbols_all. cbn. destruct (append_slice_total (builder_empty : B) [0]) as [b Hb].
      rewrite Hb, freeze_as_ref, (as_ref_append _ _ _ Hb), as_ref_empty. destruct n; simpl in *; by rewrite E. }
    destruct n as [o]; simpl in E; subst o. split; (exists [46]; split; [reflexivity|done]). }
  apply Forall_uncons in Hr as [Hl Hr]. rewrite <- app_comm_cons in *.
  destruct (name_fmt_symbols _ _ _ Hwf) as [-> ->].
  assert (Hlen' : (length (labels_wire (l :: ls0)) <= 254)%nat).
  { rewrite E, app_comm_cons, labels_wire_app, length_app in Hlen. unfold NAME_MAX_LEN in Hlen.
    change (length (labels_wire [[]])) with 1%nat in Hlen. lia. }
  destruct (a_symbols_rest ls0 [] l Hr Hlen') as (ls' & l' & Hst & Hls).
  assert (Hlab : (length (labels_wire ([] ++ [l])) <= 254)%nat).
  { revert Hlen'. rewrite (labels_wire_cons l ls0). simpl. rewrite app_nil_r, length_app. lia. }
  assert (Hhd : head (map fmt_symbol l) <> Some (Char 46) /\ map fmt_symbol l <> []).
  { destruct l as [|b l]; [destruct Hl as [[]]; simpl in *; lia|]. simpl. split; [|done].
    destruct Hl as [_ Hw]. apply Forall_uncons in Hw as [Hb _].
    destruct (fmt_symbol_spec b Hb) as (_ & _ & _ & Hd & _). congruence. }
  destruct Hhd as [Hhd Hne].
  assert (Hsyms : forall tl, Forall wf_symbol tl ->
    a_each a_symbol tl (ls', Some l') = Ok (ls', Some l') \/
    a_each a_symbol tl (ls', Some l') = Ok (ls' ++ [l'], None) ->
    name_from_chars (B:=B) oc
      (concat (map symbol_fmt (map fmt_symbol l ++ rest_symbols ls0 ++ tl))) = Ret (Ok n)).
  { intros tl Htl Hrun. unfold name_from_chars.
    assert (Hwfs : Forall wf_symbol (map fmt_symbol l ++ rest_symbols ls0 ++ tl)).
    { apply Forall_app; split; [apply fmt_symbols_wf, Hl|].
      apply Forall_app; split; [by apply rest_symbols_wf|done]. }
    rewrite symbols_all_fmt by done.
    rewrite name_from_symbols_spec; [|by apply fmt_symbols_octet|by destruct (map fmt_symbol l)|
      by destruct (map fmt_symbol l)].
    rewrite a_each_app, a_symbols_label_start by done. rewrite a_each_app, Hst.
    assert (Hn : mkName (labels_wire ((ls' ++ [l']) ++ [[]])) = n).
    { rewrite Hls. destruct n; simpl in *. by rewrite E. }
    destruct Hrun as [-> | ->]; unfold a_labels; simpl; rewrite ?app_nil_r, Hn; done. }
  split; (eexists; split; [done|]).
  - rewrite <- (app_nil_r (rest_symbols ls0)). apply Hsyms; [constructor|by left].
  - apply Hsyms; [by repeat constructor|]. by right.
Qed.

Lemma name_text_roundtrip_witness :
  exists text, fmt_with_dot ex_ba = Ret text /\ name_from_chars (B:=list Z) true text = Ret (Ok ex_ba).
Proof. exact (proj2 (name_text_roundtrip (B:=list Z) true ex_ba _ ex_ba_wf)). Defined.

(** ** Appending names *)

Section AppendNames.
Context {B : Type} `{OctetsBuilderOk B} `{!InfallibleBuilder B} (oc : bool).
Context {N I : Type} `{ToLabelIter N I} `{!LabelIterOk I}.
Context (name : N) (ns : list (list Z)).
Context (Hn : denotes name ns) (Hnf : (length ns < name_fuel)%nat) (Hg : good_labels ns).

Lemma nb_compose_labels_spec (nb : NameBuilder B) : exists nb',
  nb_compose_labels name nb = Ret (nb', Ok ()) /\ nb_head nb' = nb_head nb /\
  nb_as_slice nb' = nb_as_slice nb ++ labels_wire ns.
Proof using All.
  unfold nb_compose_labels.
  destruct (compose_labels_spec name ns Hn Hnf Hg label_compose label_wire (nb_builder nb))
    as (r & Hr & Ha); [intros; by apply label_compose_spec|].
  unfold compose_labels in *. destruct Hn as [Rn _].
  rewrite (collect_loop_spec _ _ _ Rn Hnf) in *.
  destruct (compose_each_total label_compose ns (fun l _ => label_compose_total l)
    (nb_builder nb)) as [b' Hb]. rewrite Hb in *. simplify_eq.
  eexists; split; [done|]. by split.
Qed.

(** [append_origin] ends the label under construction and gives the labels so
    far followed by those of the origin, or [LongName] if that would be more
    than 255 octets. *)
Theorem nb_append_origin_correct (nb : NameBuilder B) st :
  nb_rep nb st -> abs_labels ns ->
  exists r, nb_append_origin oc name nb = Ret r /\
  if decide (a_size st + length (labels_wire ns) <= NAME_MAX_LEN)%nat
  then exists n, r = Ok n /\ wf_abs n (a_labels st ++ ns)
  else r = Err PNLongName.
Proof using All.
  intros Hr Ha. unfold nb_append_origin.
  destruct (nb_end_label_rep oc _ _ Hr) as (nb1 & -> & Hr1).
  rewrite (proj1 (proj2 Hn)), (nb_rep_len _ _ Hr1), a_close_size. unfold zlen.
  case_decide as Hs; destruct (Z.ltb_spec (Z.of_nat NAME_MAX_LEN)
    (Z.of_nat (a_size st) + Z.of_nat (length (labels_wire ns)))); try lia; [|by eexists].
  destruct (nb_compose_labels_spec nb1) as (nb2 & -> & _ & E). eexists; split; [done|].
  eexists; split; [done|]. rewrite freeze_as_ref; fold (nb_as_slice nb2). rewrite E.
  destruct Hr1 as [_ Hr1]. simpl in Hr1. destruct (nb_head nb1); [done|]. rewrite Hr1.
  destruct Hr as [[Hl _] _]. destruct Ha as (ns0 & -> & Ha). split_and!.
  - exists (a_labels st ++ ns0). rewrite <- app_assoc. split; [done|]. by apply Forall_app.
  - by rewrite (labels_wire_app (a_labels st)).
  - simpl. rewrite length_app. unfold a_size in Hs. lia.
Qed.

(** [append_name] between labels appends the labels of the name. *)
Lemma nb_append_name_between (nb : NameBuilder B) ls :
  nb_rep nb (ls, None) -> rel_labels ns ->
  if decide (length (labels_wire ls) + length (labels_wire ns) <= 254)%nat
  then exists nb', nb_append_name oc name nb = Ret (nb', Ok ()) /\ nb_rep nb' (ls ++ ns, None)
  else nb_append_name oc name nb = Ret (nb, Err PNLongName).
Proof using All.
  intros Hr Hrel. pose proof (nb_rep_len _ _ Hr) as Hlen. rewrite a_size_eq, Nat.add_0_r in Hlen.
  destruct Hr as [[Hl _] Hr]. simpl in Hr. unfold a_labels in Hl; simpl in Hl. rewrite app_nil_r in Hl.
  destruct nb as [b [h|]]; [done|]. unfold nb_append_name; simpl nb_builder; simpl nb_head.
  unfold nb_end_label; simpl nb_head; cbv iota. rewrite (proj1 (proj2 Hn)), Hlen. unfold zlen.
  case_decide as Hs; destruct (Z.ltb_spec 254
    (Z.of_nat (length (labels_wire ls)) + Z.of_nat (length (labels_wire ns)))); try lia; [|done].
  destruct (nb_compose_labels_spec (mkNB b None)) as (nb2 & -> & Hh & E).
  eexists; split; [done|]. unfold nb_as_slice in *; simpl in *. split; [split|].
  - unfold a_labels; simpl. rewrite app_nil_r. by apply Forall_app.
  - rewrite a_size_eq, labels_wire_app, length_app. lia.
  - simpl. rewrite Hh. unfold nb_as_slice. rewrite E, Hr. by rewrite labels_wire_app.
Qed.
End AppendNames.

Lemma nb_append_origin_correct_witness :
  exists n, nb_append_origin true ex_ba (mkNB [0; 99] (Some 0%nat)) = Ret (Ok n) /\
    wf_abs n [[99]; [98]; [97]; []].
Proof.
  destruct (nb_append_origin_correct true ex_ba _ (wf_abs_denotes _ _ ex_ba_wf)
    (wf_abs_fuel _ _ ex_ba_wf) (abs_labels_good _ (proj1 ex_ba_wf)) (mkNB [0; 99] (Some 0%nat))
    ([], Some [99])) as (r & -> & n & -> & Hn); [|apply ex_ba_wf|by exists n].
  split; [by_decide|]. split; [done|]. by exists 0.
Defined.

(** [append_name] takes the builder's head before it calls [end_label], so a
    label under construction is not ended: its length octet stays zero and the
    result is not a relative name. *)
Theorem nb_append_name_loses_label :
  exists nb nb' : NameBuilder (list Z),
    op_each (nb_push true) [97; 98] nb_new = Ret (nb, Ok ()) /\
    nb_append_name true (mkRel [1; 99]) nb = Ret (nb', Ok ()) /\
    nb_finish true nb' = Ret (mkRel [0; 97; 98; 1; 99]) /\
    rel_from_octets [0; 97; 98; 1; 99] = Err RAbsoluteName.
Proof. do 2 eexists. by repeat split. Qed.

(** [append_slice] to a label that has its 63 octets already computes the room
    left in the label as [63 - 64]: it panics when the crate is compiled with
    overflow checks, and otherwise makes a label longer than 63 octets. *)
Theorem nb_append_slice_full_label {B} `{OctetsBuilderOk B} `{!InfallibleBuilder B}
    (nb : NameBuilder B) ls l s :
  nb_rep nb (ls, Some l) -> length l = LABEL_MAX_LEN -> s <> [] -> (zlen s < 2 ^ 63) ->
  nb_append_slice true s nb = Panic /\
  exists nb' x, nb_append_slice false s nb = Ret (nb', Ok ()) /\
    nb_as_slice nb' = labels_wire ls ++ x :: l ++ s /\ (LABEL_MAX_LEN < length (l ++ s))%nat.
Proof.
  intros Hr Hl Hs Hb. pose proof (nb_rep_len _ _ Hr) as Hlen. rewrite a_size_eq in Hlen.
  destruct Hr as [_ Hr]. simpl in Hr. unfold nb_append_slice.
  destruct (nb_head nb) as [h|]; [|done]. destruct Hr as (-> & x & Hx).
  rewrite length_eqb_0, bool_decide_false by done. rewrite Hlen, Hl.
  assert (Hu : forall oc, usize_sub oc (Z.of_nat (length (labels_wire ls) + S LABEL_MAX_LEN))
    (Z.of_nat (length (labels_wire ls))) = Ret 64).
  { intros oc. rewrite usize_sub_ok by lia. f_equal. unfold LABEL_MAX_LEN. lia. }
  rewrite !Hu. split; [done|].
  change (usize_sub false (Z.of_nat LABEL_MAX_LEN) 64) with (@Ret Z (2 ^ 64 - 1)).
  cbv iota. destruct (Z.ltb_spec (2 ^ 64 - 1) (zlen s)); [lia|].
  destruct (nb_append_raw_ok s nb) as (nb' & -> & _ & E). exists nb', x. split; [done|].
  rewrite E, Hx, <- app_assoc, length_app. split; [done|].
  destruct s; [done|]. simpl. lia.
Qed.

Lemma nb_append_slice_full_label_witness :
  nb_append_slice true [98] (mkNB (0 :: replicate 63 97) (Some 0%nat)) = Panic.
Proof.
  apply (nb_append_slice_full_label (mkNB (0 :: replicate 63 97) (Some 0%nat)) [] (replicate 63 97) [98]);
    [|done|done|by_decide].
  split; [by_decide|]. split; [done|]. by exists 0.
Defined.

(** ** Reverse names *)

Lemma a_pushes_ok l ls l0 :
  (length (labels_wire ls) + S (length l0 + length l) <= 254)%nat ->
  (length l0 + length l <= LABEL_MAX_LEN)%nat ->
  a_each a_push l (ls, Some l0) = Ok (ls, Some (l0 ++ l)).
Proof.
  revert l0; induction l as [|ch l IH]; intros l0 Hs Hl; cbn [a_each length] in *.
  { by rewrite app_nil_r. }
  unfold a_push at 1. rewrite a_size_eq. cbn [fst snd].
  destruct (Nat.leb_spec 254 (length (labels_wire ls) + S (length l0))); [lia|].
  destruct (Nat.leb_spec LABEL_MAX_LEN (length l0)); [lia|].
  rewrite IH by (rewrite length_app; simpl; lia). by rewrite <- app_assoc.
Qed.

Definition room_for (ls ms : list (list Z)) : Prop :=
  rel_labels ms /\ (length (labels_wire (ls ++ ms)) <= 254)%nat.

Lemma a_pushed_ok l ls :
  room_for ls [l] -> a_pushed l (ls, None) = Ok (ls ++ [l], None).
Proof.
  intros [Hl Hs]. apply Forall_uncons in Hl as [[Hl _] _].
  rewrite labels_wire_app, length_app, labels_wire_cons in Hs. simpl in Hs. rewrite app_nil_r in Hs.
  unfold a_pushed, a_close, a_labels at 1. cbn [fst snd a_cur]. rewrite app_nil_r.
  destruct l as [|ch l]; [simpl in *; lia|]. cbn [a_each]. unfold a_push at 1.
  rewrite a_size_eq. cbn [fst snd length] in *.
  destruct (Nat.leb_spec 254 (length (labels_wire ls) + 0)); [lia|].
  rewrite a_pushes_ok by (simpl; lia). done.
Qed.

Lemma a_label_ok l ls : room_for ls [l] -> a_label l (ls, None) = Ok (ls ++ [l], None).
Proof.
  intros [Hl Hs]. apply Forall_uncons in Hl as [[Hl _] _].
  rewrite labels_wire_app, length_app, labels_wire_cons in Hs. simpl in Hs. rewrite app_nil_r in Hs.
  unfold a_label. rewrite a_size_eq. unfold a_labels; cbn [fst snd a_cur]. rewrite app_nil_r.
  destruct (Nat.eqb_spec (length l) 0); [lia|].
  destruct (Nat.ltb_spec LABEL_MAX_LEN (length l)); [lia|].
  destruct (Nat.ltb_spec 254 (length (labels_wire ls) + 0 + length l)); [lia|]. done.
Qed.

(** Calls that each add one label, as long as there is room. *)
Definition call_adds (c : builder_call) (l : list Z) : Prop :=
  wf_call c /\ match c with
  | CallLabel m => m = l
  | CallDecLabel v => dec_digits v = l
  | CallHexLabel v => [hex_digit v] = l
  | _ => False
  end.

Lemma a_calls_add cs ms ls :
  Forall2 call_adds cs ms -> room_for ls ms ->
  a_each a_call cs (ls, None) = Ok (ls ++ ms, None).
Proof.
  intros Hc. revert ls. induction Hc as [|c m cs ms [_ Hc] _ IH]; intros ls [Hr Hs]; simpl.
  { by rewrite app_nil_r. }
  apply Forall_uncons in Hr as [Hm Hr].
  assert (Hroom : room_for ls [m] /\ room_for (ls ++ [m]) ms).
  { replace (ls ++ m :: ms) with ((ls ++ [m]) ++ ms) in Hs by (by rewrite <- app_assoc).
    split; [|by split]. split; [by constructor; [|constructor]|].
    rewrite labels_wire_app, length_app in Hs. lia. }
  destruct Hroom as [H1 H2].
  assert (E : a_call c (ls, None) = Ok (ls ++ [m], None)).
  { destruct c; simpl in *; try done; subst; auto using a_label_ok, a_pushed_ok. }
  rewrite E, IH by done. by rewrite <- app_assoc.
Qed.

Definition ascii_in_addr : list Z := [105; 110; 45; 97; 100; 100; 114].
Definition ascii_ip6 : list Z := [105; 112; 54].
Definition ascii_arpa : list Z := [97; 114; 112; 97].

Definition hex_labels (octets : list Z) : list (list Z) :=
  concat (map (fun o => [[hex_digit o]; [hex_digit (Z.shiftr o 4)]]) (rev octets)).

(** The labels of the reverse name of an address. *)
Definition reverse_labels (addr : IpAddr) : list (list Z) :=
  match addr with
  | IpV4 a b c d => map dec_digits [d; c; b; a] ++ [ascii_in_addr; ascii_arpa]
  | IpV6 octets => hex_labels octets ++ [ascii_ip6; ascii_arpa]
  end.

Definition wf_addr (addr : IpAddr) : Prop :=
  match addr with
  | IpV4 a b c d => wf_octets [a; b; c; d]
  | IpV6 octets => length octets = 16%nat /\ wf_octets octets
  end.

(** The calls that [reverse_from_addr] makes. *)
Definition reverse_calls (addr : IpAddr) : list builder_call :=
  match addr with
  | IpV4 a b c d => map CallDecLabel [d; c; b; a] ++ [CallLabel ascii_in_addr; CallLabel ascii_arpa]
  | IpV6 octets =>
      concat (map (fun o => [CallHexLabel o; CallHexLabel (Z.shiftr o 4)]) (rev octets)) ++
      [CallLabel ascii_ip6; CallLabel ascii_arpa]
  end.

#[export] Instance wf_addr_dec addr : Decision (wf_addr addr).
Proof. destruct addr; simpl; apply _. Defined.

Lemma shiftr_u8 o : is_u8 o -> is_u8 (Z.shiftr o 4).
Proof. revert o. by_octets. Qed.

Lemma hex_calls_add octets :
  wf_octets octets ->
  Forall2 call_adds (concat (map (fun o => [CallHexLabel o; CallHexLabel (Z.shiftr o 4)]) octets))
    (concat (map (fun o => [[hex_digit o]; [hex_digit (Z.shiftr o 4)]]) octets)).
Proof.
  induction 1 as [|o octets Ho _ IH]; simpl; [constructor|].
  constructor; [done|]. constructor; [|done]. split; [by apply shiftr_u8|done].
Qed.

Lemma reverse_calls_add addr :
  wf_addr addr -> Forall2 call_adds (reverse_calls addr) (reverse_labels addr).
Proof.
  destruct addr as [a b c d|octets]; simpl.
  - intros Hw. repeat (apply Forall_uncons in Hw as [? Hw]).
    repeat (constructor; [split; [first [done|by_decide]|done]|]). constructor.
  - intros [_ Hw]. apply Forall2_app; [apply hex_calls_add; by apply Forall_rev|].
    repeat (constructor; [split; [by_decide|done]|]). constructor.
Qed.

Lemma op_each_app {B A E} `{OctetsBuilder B} (f : A -> op (B:=B) E) l l' nb :
  op_each f (l ++ l') nb = op_seq (op_each f l) (op_each f l') nb.
Proof.
  revert nb. induction l as [|x l IH]; intros nb; simpl; [done|].
  unfold op_seq. destruct (f x nb) as [[nb' [|]]|]; [|done..]. apply IH.
Qed.

Lemma op_seq_ok_r {B E} `{OctetsBuilder B} (f : op (B:=B) E) nb : op_seq f op_ok nb = f nb.
Proof. unfold op_seq. by destruct (f nb) as [[nb' [[]|]]|]. Qed.

Lemma op_seq_ext {B E} `{OctetsBuilder B} (f g g' : op (B:=B) E) nb :
  (forall nb, g nb = g' nb) -> op_seq f g nb = op_seq f g' nb.
Proof. intros Hg. unfold op_seq. destruct (f nb) as [[nb' [|]]|]; auto. Qed.

Lemma op_seq_ext2 {B E} `{OctetsBuilder B} (f f' g g' : op (B:=B) E) nb :
  (forall nb, f nb = f' nb) -> (forall nb, g nb = g' nb) -> op_seq f g nb = op_seq f' g' nb.
Proof. intros Hf Hg. unfold op_seq. rewrite Hf. destruct (f' nb) as [[nb' [|]]|]; auto. Qed.

Lemma calls_add_wf cs ms : Forall2 call_adds cs ms -> forall c, c ∈ cs -> wf_call c.
Proof.
  induction 1 as [|c m cs ms [Hc _] _ IH]; intros c' Hin; [by apply not_elem_of_nil in Hin|].
  apply elem_of_cons in Hin as [->|Hin]; auto.
Qed.

Lemma dec_digits_nonroot v : is_u8 v -> nonroot (dec_digits v) /\ (length (dec_digits v) <= 3)%nat.
Proof. revert v. by_octets. Qed.

Lemma hex_labels_room octets :
  rel_labels (hex_labels octets) /\ (length (labels_wire (hex_labels octets)) = 4 * length octets)%nat.
Proof.
  unfold hex_labels. rewrite <- (length_rev octets). induction (rev octets) as [|o os [IH1 IH2]].
  { split; [constructor|done]. }
  cbn [map concat]. split.
  - apply Forall_app; split; [|done].
    repeat (constructor; [split; [unfold LABEL_MAX_LEN; simpl; lia|];
      constructor; [apply hex_digit_u8|constructor]|]). constructor.
  - rewrite labels_wire_app, length_app, IH2. simpl. lia.
Qed.

Lemma reverse_labels_room addr : wf_addr addr -> room_for [] (reverse_labels addr).
Proof.
  intros Hw. unfold room_for. rewrite app_nil_l. destruct addr as [a b c d|octets]; simpl in Hw.
  - repeat (apply Forall_uncons in Hw as [? Hw]).
    destruct (dec_digits_nonroot a), (dec_digits_nonroot b), (dec_digits_nonroot c),
      (dec_digits_nonroot d); try done. split.
    + repeat (constructor; [done|]). repeat (constructor; [by_decide|]). constructor.
    + cbn [reverse_labels map app]. rewrite !labels_wire_cons. cbn [length].
      rewrite !length_app. cbn [length]. rewrite !length_app. cbn [length].
      rewrite !length_app. cbn [length]. rewrite !length_app. simpl. lia.
  - destruct Hw as [Hl Hw]. destruct (hex_labels_room octets) as [H1 H2].
    cbn [reverse_labels]. split.
    + apply Forall_app; split; [done|by_decide].
    + rewrite labels_wire_app, length_app, H2, Hl. simpl. lia.
Qed.

(** The code runs these calls. *)
Lemma name_reverse_from_addr_calls {B} `{OctetsBuilder B} oc addr :
  name_reverse_from_addr (B:=B) oc addr =
  let! (nb, r) := op_each (nb_call oc) (reverse_calls addr) nb_new in
  match r with Err e => Ret (Err e) | Ok _ => nb_into_name oc nb end.
Proof.
  unfold name_reverse_from_addr.
  destruct addr as [a b c d|octets]; cbv iota zeta beta;
    match goal with |- match ?x with _ => _ end = match ?y with _ => _ end =>
      assert (x = y) as ->; [|done] end.
  - cbn [reverse_calls map app op_each]. repeat (apply op_seq_ext; intros ?).
    symmetry; apply op_seq_ok_r.
  - cbn [reverse_calls]. rewrite op_each_app. apply op_seq_ext2.
    + induction (rev octets) as [|o os IH]; intros nb; [done|].
      cbn [map concat]. rewrite op_each_app. cbn [op_each nb_call]. apply op_seq_ext2; [|done].
      intros nb'. apply op_seq_ext. intros nb2. symmetry; apply op_seq_ok_r.
    + intros nb. cbn [op_each nb_call]. apply op_seq_ext. intros nb2. symmetry; apply op_seq_ok_r.
Qed.

(** The reverse name of an IPv4 or IPv6 address is built without an error, and
    is the absolute name of the address's parts in reverse order, decimal octets
    or hexadecimal digits, below [in-addr.arpa.] or [ip6.arpa.]. *)
Theorem reverse_from_addr_correct {B} `{OctetsBuilderOk B} `{!InfallibleBuilder B} oc addr :
  wf_addr addr ->
  exists n, name_reverse_from_addr (B:=B) oc addr = Ret (Ok n) /\
    wf_abs n (reverse_labels addr ++ [[]]).
Proof.
  intros Hw. rewrite name_reverse_from_addr_calls.
  pose proof (reverse_calls_add _ Hw) as Hadd. pose proof (reverse_labels_room _ Hw) as Hroom.
  pose proof (a_calls_add _ _ [] Hadd Hroom) as Ha.
  pose proof (refines_each (B:=B) (nb_call oc) a_call (reverse_calls addr)) as Hr.
  specialize (Hr (fun c Hc => nb_call_refines oc c (calls_add_wf _ _ Hadd c Hc)) nb_new _ nb_new_rep).
  rewrite Ha in Hr. destruct Hr as (nb & -> & Hrep). rewrite (nb_into_name_rep oc _ _ Hrep).
  destruct Hroom as [Hrel Hs]. unfold a_labels; simpl. rewrite app_nil_r.
  eexists; split; [done|]. split_and!; [by eexists|done|].
  simpl in *. rewrite labels_wire_app, length_app. simpl. unfold NAME_MAX_LEN. lia.
Qed.

Lemma reverse_from_addr_correct_witness :
  exists n, name_reverse_from_addr (B:=list Z) true (IpV4 192 0 2 12) = Ret (Ok n) /\
    wf_abs n ([[49; 50]; [50]; [48]; [49; 57; 50]; ascii_in_addr; ascii_arpa] ++ [[]]).
Proof. apply (reverse_from_addr_correct (B:=list Z) true (IpV4 192 0 2 12)). by_decide. Defined.
