(* ===== verification/Chain.v ===== *)
(** * Uncertain names and chains ([src/src/base/name/uncertain.rs], [chain.rs])

    An [UncertainName] is either an absolute or a relative name; a [Chain] is
    two names read one after the other, without copying them.  A chain is again
    a name: its label iterator keeps the promise of [LabelIterOk] when the
    iterators of its parts do, so all theorems of [Traits.v] hold of chains. *)

From S2P Require Import Prelude Octets Symbol Label Traits Name NameBuilder.
From stdpp Require Import strings.
#[local] Open Scope Z_scope.

(** ** Uncertain names *)

Inductive UncertainName := UAbsolute (n : Name) | URelative (n : RelativeName).

(** [UncertainDnameErrorEnum]. *)
Inductive UncertainDnameError :=
  | UBadLabel (e : LabelTypeError) | UCompressedName | ULongName | UTrailingData | UShortInput.

(** [From<SplitLabelError> for UncertainDnameError]. *)
Definition uncertain_error_from_split (e : SplitLabelError) : UncertainDnameError :=
  match e with
  | SPointer _ => UCompressedName
  | SBadType t => UBadLabel t
  | SShortInput => UShortInput
  end.

Definition uncertain_root : UncertainName := UAbsolute name_root.
Definition uncertain_empty : UncertainName := URelative rel_empty.

(** The [loop] of [is_slice_absolute]; every round takes an octet. *)
Fixpoint slice_absolute_loop (fuel : nat) (s : list Z) : result bool UncertainDnameError :=
  match fuel with
  | O => Err UShortInput
  | S fuel' =>
      let? (label, tail) := map_err uncertain_error_from_split (label_split_from s) in
      if label_is_root label then
        if (length tail =? 0)%nat then Ok true else Err UTrailingData
      else if (length tail =? 0)%nat then Ok false
      else slice_absolute_loop fuel' tail
  end.

Definition is_slice_absolute (s : list Z) : result bool UncertainDnameError :=
  if (NAME_MAX_LEN <? length s)%nat then Err ULongName
  else slice_absolute_loop (S (length s)) s.

Definition uncertain_from_octets (s : list Z) : result UncertainName UncertainDnameError :=
  let? absolute := is_slice_absolute s in
  Ok (if absolute : bool then UAbsolute (mkName s) else URelative (mkRel s)).

Definition uncertain_is_absolute (n : UncertainName) : bool :=
  match n with UAbsolute _ => true | URelative _ => false end.
Definition uncertain_is_relative (n : UncertainName) : bool := negb (uncertain_is_absolute n).

Definition uncertain_as_absolute (n : UncertainName) : option Name :=
  match n with UAbsolute n => Some n | _ => None end.
Definition uncertain_as_relative (n : UncertainName) : option RelativeName :=
  match n with URelative n => Some n | _ => None end.

Definition uncertain_try_into_absolute (n : UncertainName) : result Name UncertainName :=
  match n with UAbsolute a => Ok a | _ => Err n end.
Definition uncertain_try_into_relative (n : UncertainName) : result RelativeName UncertainName :=
  match n with URelative r => Ok r | _ => Err n end.

Definition uncertain_as_slice (n : UncertainName) : list Z :=
  match n with UAbsolute n => name_octets n | URelative n => rel_octets n end.

Definition uncertain_iter (n : UncertainName) : NameIter :=
  match n with UAbsolute n => name_iter n | URelative n => rel_iter n end.

Definition uncertain_compose_len (n : UncertainName) : outcome Z :=
  match n with UAbsolute n => name_compose_len n | URelative n => rel_compose_len n end.

(** The trait's [as_flat_slice] is not overridden: it gives [None]. *)
#[export] Instance uncertain_to_label_iter : ToLabelIter UncertainName NameIter := {|
  iter_labels := uncertain_iter;
  compose_len := uncertain_compose_len;
  as_flat_slice := fun _ => None
|}.

(** [PartialEq]. *)
Definition uncertain_eq (a b : UncertainName) : outcome bool :=
  match a, b with
  | UAbsolute l, UAbsolute r => name_eq l r
  | URelative l, URelative r => name_eq l r
  | _, _ => Ret false
  end.

(** [Display]: [write!(f, "{}.", name)] for an absolute name. *)
Definition uncertain_fmt (n : UncertainName) : outcome (list Z) :=
  match n with
  | UAbsolute n => let! s := name_fmt n in Ret (s ++ [46])
  | URelative n => rel_fmt n
  end.

Section UncertainBuild.
Context {B : Type} `{OctetsBuilder B} (oc : bool).

Definition uncertain_from_chars (chars : list Z) : outcome (result UncertainName FromStrError) :=
  let! (nb, r) := nb_append_chars (B:=B) oc chars nb_new in
  match r with
  | Err e => Ret (Err e)
  | Ok _ =>
      if nb_in_label nb || nb_is_empty nb
      then let! n := nb_finish oc nb in Ret (Ok (URelative n))
      else let! n := nb_into_name oc nb in
           Ret (let? n := map_err from_str_push n in Ok (UAbsolute n))
  end.

Definition uncertain_into_absolute (into_builder : list Z -> B) (n : UncertainName)
    : outcome (result Name PushError) :=
  match n with
  | UAbsolute n => Ret (Ok n)
  | URelative n => rel_into_absolute oc into_builder n
  end.
End UncertainBuild.

(** ** Chains *)

Record Chain (L R : Type) := mkChain { chain_left : L; chain_right : R }.
Arguments mkChain {L R} chain_left chain_right.
Arguments chain_left {L R} _.
Arguments chain_right {L R} _.

Inductive LongChainError := LongChain.

(** [a + b] on [u16]. *)
Definition u16_add (oc : bool) (a b : Z) : outcome Z :=
  if a + b <? 2 ^ 16 then Ret (a + b) else if oc then Panic else Ret (as_u16 (a + b)).

(** [a.checked_add(b).expect(...)] on [u16]. *)
Definition u16_checked_add (a b : Z) : outcome Z :=
  if a + b <? 2 ^ 16 then Ret (a + b) else Panic.

(** [core::iter::Chain]: an exhausted half is dropped, the front half when read
    from the front, the back half when read from the back. *)
Record ChainIter (I J : Type) := mkChainIter { ci_a : option I; ci_b : option J }.
Arguments mkChainIter {I J} ci_a ci_b.
Arguments ci_a {I J} _.
Arguments ci_b {I J} _.

Section ChainIter.
Context {I J : Type} `{LabelIter I} `{LabelIter J}.

Definition chain_next (it : ChainIter I J) : outcome (option (list Z) * ChainIter I J) :=
  let from_b (b : option J) :=
    match b with
    | None => Ret (None, mkChainIter None None)
    | Some b => let! (l, b') := li_next b in Ret (l, mkChainIter None (Some b'))
    end in
  match ci_a it with
  | None => from_b (ci_b it)
  | Some a =>
      let! (l, a') := li_next a in
      match l with
      | Some l => Ret (Some l, mkChainIter (Some a') (ci_b it))
      | None => from_b (ci_b it)
      end
  end.

Definition chain_next_back (it : ChainIter I J) : outcome (option (list Z) * ChainIter I J) :=
  let from_a (a : option I) :=
    match a with
    | None => Ret (None, mkChainIter None None)
    | Some a => let! (l, a') := li_next_back a in Ret (l, mkChainIter (Some a') None)
    end in
  match ci_b it with
  | None => from_a (ci_a it)
  | Some b =>
      let! (l, b') := li_next_back b in
      match l with
      | Some l => Ret (Some l, mkChainIter (ci_a it) (Some b'))
      | None => from_a (ci_a it)
      end
  end.

#[export] Instance chain_label_iter : LabelIter (ChainIter I J) := {|
  li_next := chain_next;
  li_next_back := chain_next_back
|}.
End ChainIter.

Section Chain.
Context {L I R J : Type} `{ToLabelIter L I} `{ToLabelIter R J} (oc : bool).

Definition chain_new (left_ : L) (right_ : R) : outcome (result (Chain L R) LongChainError) :=
  let! ll := compose_len left_ in
  let! rl := compose_len right_ in
  let! len := u16_add oc ll rl in
  Ret (if Z.of_nat NAME_MAX_LEN <? len then Err LongChain else Ok (mkChain left_ right_)).

Definition chain_iter_labels (c : Chain L R) : ChainIter I J :=
  mkChainIter (Some (iter_labels (chain_left c))) (Some (iter_labels (chain_right c))).

Definition chain_compose_len (c : Chain L R) : outcome Z :=
  let! ll := compose_len (chain_left c) in
  let! rl := compose_len (chain_right c) in
  u16_checked_add ll rl.

#[export] Instance chain_to_label_iter : ToLabelIter (Chain L R) (ChainIter I J) := {|
  iter_labels := chain_iter_labels;
  compose_len := chain_compose_len;
  as_flat_slice := fun _ => None
|}.

(** [FlattenInto]; [flatten_right] is the conversion of the second name. *)
Definition chain_flatten {B} `{OctetsBuilder B} (flatten_right : R -> outcome (result Name unit))
    (c : Chain L R) : outcome (result Name unit) :=
  let! (first, _) := li_next (iter_labels (chain_left c)) in
  match first with
  | None => flatten_right (chain_right c)
  | Some _ =>
      let! _ := chain_compose_len c in
      let! (b, ok) := name_compose c (builder_empty : B) in
      Ret (if ok : bool then Ok (mkName (freeze b)) else Err ())
  end.
End Chain.

(** The [for] loop of [Display] and, with [dot] set, of [DisplayWithDot]. *)
Fixpoint chain_fmt_loop (dot : bool) (empty : bool) (ls : list (list Z)) : list Z :=
  match ls with
  | [] => []
  | l :: ls' =>
      if label_is_root l then (if dot || empty then [46] else []) ++ chain_fmt_loop dot empty ls'
      else (if empty then [] else [46]) ++ label_fmt l ++ chain_fmt_loop dot false ls'
  end.

Definition chain_fmt {N I} `{ToLabelIter N I} (dot : bool) (c : N) : outcome (list Z) :=
  let! ls := collect_loop name_fuel (iter_labels c) in Ret (chain_fmt_loop dot true ls).

(** A chain whose first name is uncertain. *)
Inductive UncertainChainIter (J : Type) :=
  | UCIAbsolute (it : NameIter)
  | UCIRelative (it : ChainIter NameIter J).
Arguments UCIAbsolute {J} it.
Arguments UCIRelative {J} it.

Record UncertainChain (R : Type) := mkUChain { uchain_left : UncertainName; uchain_right : R }.
Arguments mkUChain {R} uchain_left uchain_right.
Arguments uchain_left {R} _.
Arguments uchain_right {R} _.

Section UncertainChain.
Context {R J : Type} `{ToLabelIter R J} (oc : bool).

Definition uchain_new (left_ : UncertainName) (right_ : R)
    : outcome (result (UncertainChain R) LongChainError) :=
  match left_ with
  | URelative name =>
      let! ll := rel_compose_len name in
      let! rl := compose_len right_ in
      let! len := u16_add oc ll rl in
      Ret (if Z.of_nat NAME_MAX_LEN <? len then Err LongChain else Ok (mkUChain left_ right_))
  | UAbsolute _ => Ret (Ok (mkUChain left_ right_))
  end.

Definition uchain_next (it : UncertainChainIter J) : outcome (option (list Z) * UncertainChainIter J) :=
  match it with
  | UCIAbsolute inner => let! (l, inner') := name_iter_next inner in Ret (l, UCIAbsolute inner')
  | UCIRelative inner => let! (l, inner') := chain_next inner in Ret (l, UCIRelative inner')
  end.

Definition uchain_next_back (it : UncertainChainIter J)
    : outcome (option (list Z) * UncertainChainIter J) :=
  match it with
  | UCIAbsolute inner => let! (l, inner') := name_iter_next_back inner in Ret (l, UCIAbsolute inner')
  | UCIRelative inner => let! (l, inner') := chain_next_back inner in Ret (l, UCIRelative inner')
  end.

#[export] Instance uchain_label_iter : LabelIter (UncertainChainIter J) := {|
  li_next := uchain_next;
  li_next_back := uchain_next_back
|}.

Definition uchain_iter_labels (c : UncertainChain R) : UncertainChainIter J :=
  match uchain_left c with
  | UAbsolute name => UCIAbsolute (name_iter name)
  | URelative name =>
      UCIRelative (mkChainIter (Some (rel_iter name)) (Some (iter_labels (uchain_right c))))
  end.

Definition uchain_compose_len (c : UncertainChain R) : outcome Z :=
  match uchain_left c with
  | UAbsolute name => name_compose_len name
  | URelative name =>
      let! ll := rel_compose_len name in
      let! rl := compose_len (uchain_right c) in
      u16_checked_add ll rl
  end.

#[export] Instance uchain_to_label_iter : ToLabelIter (UncertainChain R) (UncertainChainIter J) := {|
  iter_labels := uchain_iter_labels;
  compose_len := uchain_compose_len;
  as_flat_slice := fun _ => None
|}.
End UncertainChain.

(** ** The iterators keep their promise *)

Section ChainIterOk.
Context {I J : Type} `{LabelIterOk I} `{LabelIterOk J}.

(** A dropped half has no labels left. *)
Definition half_rel {K} `{LabelIterOk K} (o : option K) (ls : list (list Z)) : Prop :=
  match o with Some it => li_rel it ls | None => ls = [] end.

Definition chain_iter_rel (it : ChainIter I J) (ls : list (list Z)) : Prop :=
  exists la lb, ls = la ++ lb /\ half_rel (ci_a it) la /\ half_rel (ci_b it) lb.

#[export, program] Instance chain_iter_ok : LabelIterOk (ChainIter I J) :=
  {| li_rel := chain_iter_rel |}.
Next Obligation.
  intros [a b] (la & lb & E & Ha & Hb). symmetry in E. apply app_eq_nil in E as [-> ->].
  simpl; unfold chain_next; simpl in *.
  assert (Hfb : exists it', match b with
      | None => Ret (None, mkChainIter None None)
      | Some b => let! (l, b') := li_next b in Ret (l, mkChainIter (I:=I) None (Some b'))
      end = Ret (None, it') /\ chain_iter_rel it' []).
  { destruct b as [b|]; [|by eexists; split; [done|]; exists [], []].
    destruct (li_next_nil b Hb) as (b' & -> & Hb'). eexists; split; [done|]. by exists [], []. }
  destruct a as [a|]; [|done]. by destruct (li_next_nil a Ha) as (a' & -> & _).
Qed.
Next Obligation.
  intros [a b] l ls (la & lb & E & Ha & Hb). simpl; unfold chain_next; simpl in *.
  assert (Hfb : lb = l :: ls -> exists it', match b with
      | None => Ret (None, mkChainIter None None)
      | Some b => let! (l, b') := li_next b in Ret (l, mkChainIter (I:=I) None (Some b'))
      end = Ret (Some l, it') /\ chain_iter_rel it' ls).
  { intros ->. destruct b as [b|]; [|done].
    destruct (li_next_cons b _ _ Hb) as (b' & -> & Hb'). eexists; split; [done|]. by exists [], ls. }
  destruct a as [a|]; simpl in Ha; [|by subst; apply Hfb].
  destruct la as [|l' la]; simplify_eq/=.
  - destruct (li_next_nil a Ha) as (a' & -> & _). by apply Hfb.
  - destruct (li_next_cons a _ _ Ha) as (a' & -> & Ha'). eexists; split; [done|]. by exists la, lb.
Qed.
Next Obligation.
  intros [a b] (la & lb & E & Ha & Hb). symmetry in E. apply app_eq_nil in E as [-> ->].
  simpl; unfold chain_next_back; simpl in *.
  assert (Hfa : exists it', match a with
      | None => Ret (None, mkChainIter None None)
      | Some a => let! (l, a') := li_next_back a in Ret (l, mkChainIter (J:=J) (Some a') None)
      end = Ret (None, it') /\ chain_iter_rel it' []).
  { destruct a as [a|]; [|by eexists; split; [done|]; exists [], []].
    destruct (li_back_nil a Ha) as (a' & -> & Ha'). eexists; split; [done|]. by exists [], []. }
  destruct b as [b|]; [|done]. by destruct (li_back_nil b Hb) as (b' & -> & _).
Qed.
Next Obligation.
  intros [a b] l ls (la & lb & E & Ha & Hb). simpl; unfold chain_next_back; simpl in *.
  assert (Hfa : la = ls ++ [l] -> exists it', match a with
      | None => Ret (None, mkChainIter None None)
      | Some a => let! (l, a') := li_next_back a in Ret (l, mkChainIter (J:=J) (Some a') None)
      end = Ret (Some l, it') /\ chain_iter_rel it' ls).
  { intros ->. destruct a as [a|]; [|by apply app_eq_nil in Ha as [_ ?]].
    destruct (li_back_snoc a _ _ Ha) as (a' & -> & Ha'). eexists; split; [done|].
    exists ls, []. by rewrite app_nil_r. }
  destruct b as [b|]; simpl in Hb; [|subst; apply Hfa; by rewrite app_nil_r in E].
  destruct lb as [|l' lb _] using rev_ind.
  - destruct (li_back_nil b Hb) as (b' & -> & _). apply Hfa. by rewrite app_nil_r in E.
  - rewrite app_assoc in E. apply app_inj_tail in E as [-> ->].
    destruct (li_back_snoc b _ _ Hb) as (b' & -> & Hb'). eexists; split; [done|]. by exists la, lb.
Qed.
End ChainIterOk.

Section ChainTheorems.
Context {L I R J : Type} `{ToLabelIter L I} `{!LabelIterOk I} `{ToLabelIter R J} `{!LabelIterOk J}.
Context (l : L) (r : R) (ls rs : list (list Z)).
Context (Hl : denotes l ls) (Hr : denotes r rs).

Lemma chain_denotes :
  zlen (labels_wire (ls ++ rs)) < 2 ^ 16 -> denotes (mkChain l r) (ls ++ rs).
Proof using All.
  intros Hlen. destruct Hl as (Rl & Cl & _), Hr as (Rr & Cr & _). split_and!; [|simpl|done].
  - by exists ls, rs.
  - unfold chain_compose_len; simpl. rewrite Cl, Cr. unfold u16_checked_add.
    unfold zlen in *. rewrite labels_wire_app, length_app in Hlen.
    destruct (Z.ltb_spec (Z.of_nat (length (labels_wire ls)) + Z.of_nat (length (labels_wire rs))) (2 ^ 16)).
    + f_equal. rewrite labels_wire_app, length_app. lia.
    + lia.
Qed.

(** Chaining two names succeeds exactly when the two together have at most 255
    octets, and never panics or wraps around for names; the chain then is a
    name with the labels of the first followed by those of the second, seen
    from either end. *)
Theorem chain_new_correct (oc : bool) :
  (length (labels_wire ls) <= NAME_MAX_LEN)%nat -> (length (labels_wire rs) <= NAME_MAX_LEN)%nat ->
  if decide (length (labels_wire ls) + length (labels_wire rs) <= NAME_MAX_LEN)%nat
  then exists c, chain_new oc l r = Ret (Ok c) /\ denotes c (ls ++ rs)
  else chain_new oc l r = Ret (Err LongChain).
Proof using All.
  intros Hll Hlr. unfold chain_new, u16_add. rewrite (proj1 (proj2 Hl)), (proj1 (proj2 Hr)).
  unfold zlen, NAME_MAX_LEN in *.
  destruct (Z.ltb_spec (Z.of_nat (length (labels_wire ls)) + Z.of_nat (length (labels_wire rs))) (2 ^ 16));
    [|lia].
  case_decide; destruct (Z.ltb_spec (Z.of_nat 255)
    (Z.of_nat (length (labels_wire ls)) + Z.of_nat (length (labels_wire rs)))); try lia; [|done].
  eexists; split; [done|]. apply chain_denotes. unfold zlen.
  rewrite labels_wire_app, length_app. lia.
Qed.
End ChainTheorems.

Lemma chain_new_correct_witness :
  exists c, chain_new true (mkRel [1; 99]) ex_ba = Ret (Ok c) /\
    denotes c ([[99]] ++ [[98]; [97]; []]).
Proof.
  apply (chain_new_correct (mkRel [1; 99]) ex_ba [[99]] [[98]; [97]; []]); [|apply wf_abs_denotes, ex_ba_wf|..];
    [|by_decide..].
  apply wf_rel_denotes. split_and!; [by_decide|done|by_decide].
Defined.

(** ** Displaying a chain *)

Lemma chain_fmt_loop_false dot ls :
  Forall nonroot ls ->
  chain_fmt_loop dot false ls = concat (map (fun l => 46 :: label_fmt l) ls).
Proof.
  induction 1 as [|l ls Hl _ IH]; [done|]. cbn [chain_fmt_loop map concat].
  rewrite nonroot_is_root, IH by done. done.
Qed.

Lemma chain_fmt_loop_root dot ls :
  Forall nonroot ls ->
  chain_fmt_loop dot false (ls ++ [[]]) =
  concat (map (fun l => 46 :: label_fmt l) ls) ++ (if dot then [46] else []).
Proof.
  induction 1 as [|l ls Hl _ IH]; [by destruct dot|]. cbn [app chain_fmt_loop map concat].
  rewrite nonroot_is_root, IH by done. simpl. by rewrite <- !app_assoc.
Qed.

(** An absolute chain displays like the flat name of the same labels, without
    and with the final dot. *)
Lemma chain_fmt_flat {N I} `{ToLabelIter N I} `{!LabelIterOk I} (c : N) n ls :
  denotes c ls -> wf_abs n ls ->
  chain_fmt false c = name_fmt n /\ chain_fmt true c = fmt_with_dot n.
Proof.
  intros [Rc _] Hwf. pose proof (wf_abs_fuel _ _ Hwf) as Hf. unfold chain_fmt.
  rewrite (collect_loop_spec _ _ _ Rc Hf). pose proof Hwf as ((ls0 & -> & Hr) & E & Hlen).
  destruct ls0 as [|l ls0].
  { destruct n as [o]. simpl in E. subst o. done. }
  apply Forall_uncons in Hr as [Hl Hr]. rewrite <- app_comm_cons in *.
  destruct (name_fmt_symbols _ _ _ Hwf) as [-> ->].
  cbn [chain_fmt_loop]. rewrite nonroot_is_root by done. rewrite !chain_fmt_loop_root by done.
  rewrite !map_app, !concat_app, <- label_fmt_symbols, <- concat_fmt_rest by (done || apply Hl).
  by rewrite !app_nil_r.
Qed.

(** ** Uncertain names *)

Lemma slice_absolute_loop_ok fuel s b :
  wf_octets s -> (length s < fuel)%nat ->
  slice_absolute_loop fuel s = Ok b <->
  exists ls, s = labels_wire ls /\ if b then abs_labels ls else rel_labels ls /\ ls <> [].
Proof.
  revert s; induction fuel as [|fuel IH]; intros s Hs Hf; [lia|]. cbn [slice_absolute_loop]. split.
  - destruct (label_split_from s) as [[l t]|e] eqn:E; simpl; [|done].
    pose proof (label_split_from_shorter _ _ _ E).
    apply label_split_from_ok in E as [-> Hl]. apply wf_octets_app in Hs as [Hw Ht].
    apply Forall_uncons in Hw as [_ Hw].
    destruct (label_is_root l) eqn:Er; rewrite length_eqb_0; case_bool_decide as Hn; try done.
    + intros [= <-]. apply label_is_root_spec in Er as ->. subst t. exists [[]]. split; [done|].
      by exists [].
    + intros [= <-]. subst t. exists [l]. split; [by rewrite labels_wire_cons, !app_nil_r|].
      split; [|done]. constructor; [|constructor]. split; [|done]. destruct l; [done|]. simpl in *. lia.
    + intros Hc. apply IH in Hc as (ls & -> & Hls); [|done|lia]. exists (l :: ls). split; [done|].
      assert (nonroot l) by (split; [|done]; destruct l; [done|simpl in *; lia]).
      destruct b; [by apply abs_labels_cons; right|]. destruct Hls. split; [by constructor|done].
  - intros (ls & -> & Hls). destruct ls as [|l ls].
    { destruct b; [by apply abs_labels_nonnil in Hls|]. by destruct Hls. }
    rewrite labels_wire_cons in *. change (zlen l :: l ++ ?x) with (label_wire l ++ x) in *.
    apply wf_octets_app in Hs as [_ Hs]. rewrite length_app in Hf; simpl in Hf.
    assert (Hcase : (b = true /\ l = [] /\ ls = []) \/
      nonroot l /\ (if b then abs_labels ls else rel_labels ls)).
    { destruct b.
      - apply abs_labels_cons in Hls as [[-> ->]|[? ?]]; auto.
      - destruct Hls as [Hls _]. apply Forall_uncons in Hls as [? ?]. auto. }
    destruct Hcase as [(-> & -> & ->)|[Hl Ht]]; [done|].
    rewrite label_split_from_wire by (by destruct Hl as [[]]). simpl map_err; cbv iota beta.
    rewrite nonroot_is_root by done. rewrite length_eqb_0. case_bool_decide as Hn.
    + destruct ls as [|m ls]; [|done]. destruct b; [by apply abs_labels_nonnil in Ht|done].
    + apply IH; [done|lia|]. exists ls. split; [done|]. destruct b; [done|]. split; [done|].
      by intros ->.
Qed.

(** [UncertainName::from_octets] tells absolute from relative names: it accepts
    exactly the non-empty sequences of labels within 255 octets and makes an
    absolute name of them exactly when they end with the root label. *)
Theorem uncertain_from_octets_correct s u :
  wf_octets s ->
  uncertain_from_octets s = Ok u <->
  uncertain_as_slice u = s /\ (length s <= NAME_MAX_LEN)%nat /\ exists ls, s = labels_wire ls /\
    if uncertain_is_absolute u then abs_labels ls else rel_labels ls /\ ls <> [].
Proof.
  intros Hs. unfold uncertain_from_octets, is_slice_absolute.
  destruct (Nat.ltb_spec NAME_MAX_LEN (length s)) as [Hl|Hl].
  { split; [done|]. intros (_ & ? & _). lia. }
  split.
  - destruct (slice_absolute_loop (S (length s)) s) as [b|] eqn:E; [|done].
    intros [= <-]. apply slice_absolute_loop_ok in E as (ls & -> & Hb); [|done|lia].
    destruct b; simpl; eauto.
  - intros (Hu & _ & Hls).
    rewrite (proj2 (slice_absolute_loop_ok _ s _ Hs (Nat.lt_succ_diag_r _)) Hls).
    destruct u as [[o]|[o]]; simpl in *; by subst.
Qed.

Lemma uncertain_from_octets_correct_witness :
  uncertain_from_octets [1; 97] = Ok (URelative (mkRel [1; 97])).
Proof.
  apply (uncertain_from_octets_correct [1; 97] (URelative (mkRel [1; 97])) ltac:(by_decide)).
  split_and!; [done|by_decide|]. exists [[97]]. split; [done|]. cbn [uncertain_is_absolute]. split; [by_decide|done].
Defined.

(** The root as an uncertain name is displayed as two dots, and a single dot is
    not read as a name at all: displaying and reading do not fit together here. *)
Theorem uncertain_root_text :
  uncertain_fmt uncertain_root = Ret [46; 46] /\
  uncertain_from_chars (B:=list Z) true [46; 46] = Ret (Err from_str_empty_label) /\
  uncertain_from_chars (B:=list Z) true [46] = Ret (Err from_str_empty_label).
Proof. by split_and!. Qed.

(** ** Chains on an uncertain name *)

Section UncertainChainOk.
Context {R J : Type} `{ToLabelIter R J} `{!LabelIterOk J}.

Definition uchain_iter_rel (it : UncertainChainIter J) (ls : list (list Z)) : Prop :=
  match it with UCIAbsolute it => li_rel it ls | UCIRelative it => li_rel it ls end.

#[export, program] Instance uchain_iter_ok : LabelIterOk (UncertainChainIter J) :=
  {| li_rel := uchain_iter_rel |}.
Next Obligation.
  intros [it|it] Hr; destruct (li_next_nil it Hr) as (it' & E & Hr'); simpl in *;
    rewrite E; eexists; by split.
Qed.
Next Obligation.
  intros [it|it] l ls Hr; destruct (li_next_cons it _ _ Hr) as (it' & E & Hr'); simpl in *;
    rewrite E; eexists; by split.
Qed.
Next Obligation.
  intros [it|it] Hr; destruct (li_back_nil it Hr) as (it' & E & Hr'); simpl in *;
    rewrite E; eexists; by split.
Qed.
Next Obligation.
  intros [it|it] l ls Hr; destruct (li_back_snoc it _ _ Hr) as (it' & E & Hr'); simpl in *;
    rewrite E; eexists; by split.
Qed.

(** The second name counts only when the first one is relative. *)
Lemma uchain_denotes u (r : R) ls rs :
  denotes r rs -> (length (labels_wire rs) <= NAME_MAX_LEN)%nat ->
  match u with UAbsolute n => wf_abs n ls | URelative n => wf_rel n ls end ->
  denotes (mkUChain u r) (if uncertain_is_absolute u then ls else ls ++ rs).
Proof.
  intros Hr Hlen Hu. destruct u as [n|n]; simpl.
  - destruct (wf_abs_denotes _ _ Hu) as (Rn & Cn & _). split_and!; [exact Rn|exact Cn|done].
  - pose proof Hu as (_ & Eu & Lu). rewrite Eu in Lu.
    destruct (chain_denotes n r ls rs (wf_rel_denotes _ _ Hu) Hr) as (Rc & Cc & _).
    { unfold zlen. rewrite labels_wire_app, length_app. unfold NAME_MAX_LEN in Hlen. lia. }
    split_and!; [exact Rc|exact Cc|done].
Qed.
End UncertainChainOk.
