(* ===== verification/ParsedName.v ===== *)
(** * Names in messages ([src/src/base/name/parsed.rs])

    A [ParsedName] refers to octets of a message and may be compressed: its
    labels continue where a compression pointer points.  Parsing walks over the
    whole name once and checks it; afterwards the label iterator follows the
    pointers without any check.  The file proves that the walk always ends, that
    it accepts exactly the names whose pointers all point backwards, and that
    the unchecked operations are safe on every name it accepts. *)

From S2P Require Import Prelude Octets Symbol Label Traits Name.
From stdpp Require Import strings.
#[local] Open Scope Z_scope.

Record ParsedName := mkParsed {
  pn_octets : list Z;
  pn_pos : nat;
  pn_len : Z;
  pn_compressed : bool
}.

Inductive LabelType := Normal (len : Z) | Compressed (pos : nat).

Inductive ParsedDnameError := PDBadLabel (e : LabelTypeError) | PDLongName | PDExcessiveCompression.

(** [From<ParsedDnameError> for FormError], wrapped into a [ParseError]. *)
Definition parsed_error_to_parse (e : ParsedDnameError) : ParseError :=
  parse_form_error
    match e with
    | PDBadLabel _ => "invalid label type"
    | PDLongName => "long domain name"
    | PDExcessiveCompression => "too many compression pointers"
    end.

(** The position in the two octets of a compression pointer. *)
Definition pointer_pos (hi lo : Z) : nat :=
  Z.to_nat (Z.lor lo (Z.shiftl (Z.land hi 0x3F) 8)).

(** The [match] on the first octet of a label; [second] reads the other one. *)
Definition label_type {A} (ltype : Z) (normal : Z -> A) (compressed : A) (bad : A) : A :=
  if (0 <=? ltype) && (ltype <=? 0x3F) then normal ltype
  else if (0xC0 <=? ltype) && (ltype <=? 0xFF) then compressed
  else bad.

Section Parsing.
Context {P : Type} `{OctetsParser P} `{!OctetsParserRef P}.

Definition label_type_parse (p : P) : result (LabelType * P) ParseError :=
  let? (ltype, p) := short (p_parse_u8 p) in
  label_type ltype
    (fun len => Ok (Normal len, p))
    (let? (lo, p') := short (p_parse_u8 p) in Ok (Compressed (pointer_pos ltype lo), p'))
    (Err (parse_form_error "invalid label type")).

Definition label_type_peek (p : P) : result LabelType ParseError :=
  let? s := short (p_peek p 1) in
  let ltype := default 0 (s !! 0%nat) in
  label_type ltype
    (fun len => Ok (Normal len))
    (let? s2 := short (p_peek p 2) in Ok (Compressed (pointer_pos ltype (default 0 (s2 !! 1%nat)))))
    (Err (parse_form_error "invalid label type")).

(** How a run of labels ends. *)
Inductive run_end := EndRoot | EndPtr (ptr : nat).

(** The inner loop of both phases of [parse_ref]: reads labels up to the root
    label or to a pointer and adds up the length of the name.  [None] stands
    for a loop that has not ended after [fuel] rounds; every round that goes on
    adds to [name_len], which stops it at 255. *)
Fixpoint parse_run (fuel : nat) (p : P) (name_len : Z)
    : option (result (run_end * Z * P) ParseError) :=
  match fuel with
  | O => None
  | S fuel' =>
      match label_type_parse p with
      | Err e => Some (Err e)
      | Ok (Normal label_len, p1) =>
          if label_len =? 0 then Some (Ok (EndRoot, name_len + 1, p1))
          else match short (p_advance p1 (Z.to_nat label_len)) with
          | Err e => Some (Err e)
          | Ok p2 =>
              let name_len := name_len + (label_len + 1) in
              if 255 <=? name_len then Some (Err (parsed_error_to_parse PDLongName))
              else parse_run fuel' p2 name_len
          end
      | Ok (Compressed ptr, p1) => Some (Ok (EndPtr ptr, name_len, p1))
      end
  end.

Definition run_fuel : nat := 256.

(** The outer loop of phase two, from a pointer [ptr] that was just read. *)
Fixpoint parse_jumps (fuel : nat) (p : P) (ptr pos : nat) (name_len : Z) (compressed : bool)
    : option (result ParsedName ParseError) :=
  match fuel with
  | O => None
  | S fuel' =>
      if (p_pos p - 2 <=? ptr)%nat then Some (Err (parsed_error_to_parse PDExcessiveCompression))
      else
        let '(pos, compressed) := if name_len =? 0 then (ptr, false) else (pos, compressed) in
        match short (p_seek p ptr) with
        | Err e => Some (Err e)
        | Ok p1 =>
            match parse_run run_fuel p1 name_len with
            | None => None
            | Some (Err e) => Some (Err e)
            | Some (Ok (EndRoot, name_len, p2)) =>
                Some (Ok (mkParsed (p_octets p2) pos name_len compressed))
            | Some (Ok (EndPtr new_ptr, name_len, p2)) =>
                parse_jumps fuel' p2 new_ptr pos name_len true
            end
        end
  end.

(** A jump goes back or the name has grown. *)
Definition jump_fuel (p : P) : nat := 256 * S (p_len p) + p_len p + 1.

(** [ParsedName::parse_ref]; [ParsedName::parse] is the same on owned octets. *)
Definition parsed_parse (p : P) : option (result (ParsedName * P) ParseError) :=
  match parse_run run_fuel p 0 with
  | None => None
  | Some (Err e) => Some (Err e)
  | Some (Ok (EndRoot, name_len, p1)) =>
      Some (Ok (mkParsed (p_octets p1) (p_pos p) name_len false, p1))
  | Some (Ok (EndPtr ptr, name_len, p1)) =>
      match parse_jumps (jump_fuel p) p1 ptr (p_pos p) name_len true with
      | None => None
      | Some (Err e) => Some (Err e)
      | Some (Ok n) => Some (Ok (n, p1))
      end
  end.

(** The loop of [ParsedName::skip]. *)
Fixpoint parsed_skip_loop (fuel : nat) (p : P) (len : Z) : option (result P ParseError) :=
  match fuel with
  | O => None
  | S fuel' =>
      match label_type_parse p with
      | Err e => Some (Err e)
      | Ok (Normal label_len, p1) =>
          if label_len =? 0 then
            if 255 <? len + 1 then Some (Err (parsed_error_to_parse PDLongName)) else Some (Ok p1)
          else match short (p_advance p1 (Z.to_nat label_len)) with
          | Err e => Some (Err e)
          | Ok p2 =>
              let len := len + (label_len + 1) in
              if 255 <? len then Some (Err (parsed_error_to_parse PDLongName))
              else parsed_skip_loop fuel' p2 len
          end
      | Ok (Compressed _, p1) => Some (Ok p1)
      end
  end.

Definition parsed_skip (p : P) : option (result P ParseError) := parsed_skip_loop run_fuel p 0.

(** ** Operations on a parsed name *)

(** [ParsedName::parser]. *)
Definition pn_parser (n : ParsedName) : outcome P :=
  match p_advance (p_from_ref (pn_octets n) : P) (pn_pos n) with
  | Some p => Ret p
  | None => Panic
  end.

(** The loop of [split_first] and [parent]: follows pointers to a label and
    returns the length of the label with its length octet; the root label is
    [unreachable!].  A loop that does not end is a [Panic] here. *)
Fixpoint first_label_loop (fuel : nat) (p : P) : outcome (Z * P) :=
  match fuel with
  | O => Panic
  | S fuel' =>
      match label_type_peek p with
      | Err _ => Panic
      | Ok (Normal label_len) => if label_len =? 0 then Panic else Ret (label_len + 1, p)
      | Ok (Compressed pos) =>
          match p_seek p pos with Some p' => first_label_loop fuel' p' | None => Panic end
      end
  end.

Definition pn_split_first (n : ParsedName) : outcome (option RelativeName * ParsedName) :=
  if pn_len n =? 1 then Ret (None, n)
  else
    let! p := pn_parser n in
    let! (len, p) := first_label_loop (S (length (pn_octets n))) p in
    if pn_len n <? len then Panic
    else
      let start := p_pos p in
      let end_ := (start + Z.to_nat len)%nat in
      let! s := slice_range (pn_octets n) start end_ in
      Ret (Some (mkRel s), mkParsed (pn_octets n) end_ (pn_len n - len) (pn_compressed n)).

Definition pn_parent (n : ParsedName) : outcome (bool * ParsedName) :=
  if pn_len n =? 1 then Ret (false, n)
  else
    let! p := pn_parser n in
    let! (len, p) := first_label_loop (S (length (pn_octets n))) p in
    if pn_len n <? len then Panic
    else Ret (true, mkParsed (pn_octets n) (p_pos p + Z.to_nat len) (pn_len n - len) (pn_compressed n)).

(** [ParsedSuffixIter]. *)
Definition parsed_suffix_next (it : option ParsedName) : outcome (option ParsedName * option ParsedName) :=
  match it with
  | None => Ret (None, None)
  | Some name =>
      let! (more, name') := pn_parent name in
      Ret (Some name, if more : bool then Some name' else None)
  end.
End Parsing.

#[global] Arguments run_fuel : simpl never.

Definition pn_is_compressed (n : ParsedName) : bool := pn_compressed n.
Definition pn_is_root (n : ParsedName) : bool := pn_len n =? 1.

(** [From<Name> for ParsedName]. *)
Definition pn_from_name (n : Name) : outcome ParsedName :=
  let! len := name_compose_len n in Ret (mkParsed (name_octets n) 0 len false).

(** ** The label iterator *)

Record ParsedNameIter := mkParsedIter { pi_slice : list Z; pi_pos : nat; pi_len : Z }.

(** The loop of [get_label]: the start and the end of the label.  Indexing out of
    range and a bad label type panic; so does, here, a loop that does not end. *)
Fixpoint get_label_loop (fuel : nat) (s : list Z) (pos : nat) : outcome (nat * nat) :=
  match fuel with
  | O => Panic
  | S fuel' =>
      match s !! pos with
      | None => Panic
      | Some ltype =>
          label_type ltype
            (fun len => Ret ((pos + 1)%nat, (pos + 1 + Z.to_nat len)%nat))
            (match s !! (pos + 1)%nat with
             | None => Panic
             | Some lo => get_label_loop fuel' s (pointer_pos ltype lo)
             end)
            Panic
      end
  end.

Definition get_label (it : ParsedNameIter) : outcome (list Z * ParsedNameIter) :=
  let! (start, end_) := get_label_loop (S (length (pi_slice it))) (pi_slice it) (pi_pos it) in
  let! res := slice_range (pi_slice it) start end_ in
  let! clen := label_compose_len res in
  if pi_len it <? clen then Panic
  else Ret (res, mkParsedIter (pi_slice it) end_ (pi_len it - clen)).

Definition parsed_iter_next (it : ParsedNameIter) : outcome (option (list Z) * ParsedNameIter) :=
  if pi_len it =? 0 then Ret (None, it)
  else let! (l, it') := get_label it in Ret (Some l, it').

(** The loop of [next_back]; every label takes at least one octet off [len]. *)
Fixpoint parsed_back_loop (fuel : nat) (tmp : ParsedNameIter) : outcome (list Z) :=
  match fuel with
  | O => Panic
  | S fuel' =>
      let! (label, tmp') := get_label tmp in
      if pi_len tmp' =? 0 then Ret label else parsed_back_loop fuel' tmp'
  end.

Definition parsed_iter_next_back (it : ParsedNameIter) : outcome (option (list Z) * ParsedNameIter) :=
  if pi_len it =? 0 then Ret (None, it)
  else
    let! label := parsed_back_loop (Z.to_nat (pi_len it)) it in
    let! clen := label_compose_len label in
    if pi_len it <? clen then Panic
    else Ret (Some label, mkParsedIter (pi_slice it) (pi_pos it) (pi_len it - clen)).

#[export] Instance parsed_label_iter : LabelIter ParsedNameIter := {|
  li_next := parsed_iter_next;
  li_next_back := parsed_iter_next_back
|}.

Definition pn_iter (n : ParsedName) : ParsedNameIter :=
  mkParsedIter (pn_octets n) (pn_pos n) (pn_len n).

(** [as_flat_slice]; the range is in bounds for a name that was parsed. *)
Definition pn_as_flat_slice (n : ParsedName) : option (list Z) :=
  if pn_compressed n then None
  else Some (take (Z.to_nat (pn_len n)) (drop (pn_pos n) (pn_octets n))).

#[export] Instance parsed_to_label_iter : ToLabelIter ParsedName ParsedNameIter := {|
  iter_labels := pn_iter;
  compose_len := fun n => Ret (pn_len n);
  as_flat_slice := pn_as_flat_slice
|}.

Definition pn_label_count (n : ParsedName) : outcome nat := count_loop name_fuel (pn_iter n).

Definition pn_first (n : ParsedName) : outcome (list Z) :=
  let! (l, _) := parsed_iter_next (pn_iter n) in
  match l with Some l => Ret l | None => Panic end.

Definition pn_last (n : ParsedName) : list Z := label_root.

(** [FlattenInto]. *)
Definition pn_flatten {B} `{OctetsBuilder B} (n : ParsedName) : outcome (result Name unit) :=
  let! (b, ok) := name_compose n (builder_empty : B) in
  Ret (if ok : bool then Ok (mkName (freeze b)) else Err ()).

(** [Display]. *)
Definition pn_fmt (n : ParsedName) : outcome (list Z) :=
  let! (first, it) := parsed_iter_next (pn_iter n) in
  match first with
  | None => Panic
  | Some l => let! rest := collect_loop name_fuel it in Ret (label_fmt l ++ fmt_rest rest)
  end.

(** ** What a compressed name is

    [at_labels s pos ls e]: in the octets [s] the labels at [pos] are [ls], the
    root label last, and the part of the name at [pos] itself ends at [e].  Every
    pointer points to before itself. *)

Inductive at_labels (s : list Z) : nat -> list (list Z) -> nat -> Prop :=
  | at_root pos :
      s !! pos = Some 0 -> at_labels s pos [[]] (pos + 1)
  | at_label pos l ls e :
      s !! pos = Some (zlen l) -> (0 < length l <= LABEL_MAX_LEN)%nat ->
      take (length l) (drop (pos + 1) s) = l ->
      at_labels s (pos + 1 + length l) ls e -> at_labels s pos (l :: ls) e
  | at_pointer pos hi lo ls e :
      s !! pos = Some hi -> 0xC0 <= hi <= 0xFF -> s !! (pos + 1)%nat = Some lo ->
      (pointer_pos hi lo < pos)%nat ->
      at_labels s (pointer_pos hi lo) ls e -> at_labels s pos ls (pos + 2).

(** Labels read in place, and how they end. *)
Inductive run (s : list Z) : nat -> list (list Z) -> run_end -> nat -> Prop :=
  | run_root pos : s !! pos = Some 0 -> run s pos [] EndRoot (pos + 1)
  | run_pointer pos hi lo :
      s !! pos = Some hi -> 0xC0 <= hi <= 0xFF -> s !! (pos + 1)%nat = Some lo ->
      run s pos [] (EndPtr (pointer_pos hi lo)) (pos + 2)
  | run_label pos l ls e q :
      s !! pos = Some (zlen l) -> (0 < length l <= LABEL_MAX_LEN)%nat ->
      take (length l) (drop (pos + 1) s) = l ->
      run s (pos + 1 + length l) ls e q -> run s pos (l :: ls) e q.

Lemma at_labels_run s pos ls e :
  at_labels s pos ls e ->
  (exists ls0, run s pos ls0 EndRoot e /\ ls = ls0 ++ [[]]) \/
  (exists ls0 ptr ms e', run s pos ls0 (EndPtr ptr) e /\ (ptr < e - 2)%nat /\
     at_labels s ptr ms e' /\ ls = ls0 ++ ms).
Proof.
  induction 1 as [pos H0|pos l ls e H1 H2 H3 H4 IH|pos hi lo ls e H1 H2 H3 H4 H5 IH].
  - left. exists []. split; [by constructor|done].
  - destruct IH as [(ls0 & Hr & ->)|(ls0 & ptr & ms & e' & Hr & Hp & Ha & ->)].
    + left. exists (l :: ls0). split; [by apply run_label|done].
    + right. exists (l :: ls0), ptr, ms, e'. split_and!; [by apply run_label|done..].
  - right. exists [], (pointer_pos hi lo), ls, e. split_and!; [by apply run_pointer|lia|done..].
Qed.

Lemma run_at_root s pos ls e q :
  run s pos ls e q -> e = EndRoot -> at_labels s pos (ls ++ [[]]) q.
Proof.
  induction 1; intros He; simplify_eq/=; [by constructor|]. apply at_label; auto.
Qed.

Lemma run_at_pointer s pos ls e q ptr ms e' :
  run s pos ls e q -> e = EndPtr ptr -> (ptr < q - 2)%nat -> at_labels s ptr ms e' ->
  at_labels s pos (ls ++ ms) q.
Proof.
  induction 1 as [|pos hi lo H1 H2 H3|]; intros He Hp Ha; simplify_eq/=.
  - eapply at_pointer; try done. lia.
  - apply at_label; auto.
Qed.

(** A run without labels that ends in a pointer is that pointer. *)
Lemma run_nil_pointer s pos ptr q : run s pos [] (EndPtr ptr) q -> q = (pos + 2)%nat.
Proof. by inversion 1. Qed.

Lemma at_labels_wire_pos s pos ls e : at_labels s pos ls e -> (0 < length (labels_wire ls))%nat.
Proof. induction 1; rewrite ?labels_wire_cons; simpl; try lia; auto. Qed.

(** A name whose labels run into a pointer continues there. *)
Lemma run_at_continue s pos ls0 en q ptr ls e :
  run s pos ls0 en q -> en = EndPtr ptr -> at_labels s pos ls e ->
  exists ms e', at_labels s ptr ms e' /\ (ptr < q - 2)%nat /\ ls = ls0 ++ ms.
Proof.
  intros Hr Een. revert ls e.
  induction Hr as [|pos hi lo E1 E2 E3|pos l ls1 en q E1 E2 E3 E4 IH]; intros ls e Hat; simplify_eq;
    inversion Hat; subst; unfold zlen, LABEL_MAX_LEN in *; simplify_eq; try lia.
  - eexists _, _. split_and!; [done|lia|done].
  - match goal with H : take (length ?m) _ = ?m |- _ => assert (m = l) as -> end.
    { rewrite <- E3. match goal with H : take (length ?m) _ = ?m |- _ = take _ _ => rewrite <- H end.
      f_equal. lia. }
    destruct (IH eq_refl _ _ ltac:(eassumption)) as (ms & e' & ? & ? & ->). by exists ms, e'.
Qed.

Lemma at_labels_unique s pos ls e ls' e' :
  at_labels s pos ls e -> at_labels s pos ls' e' -> ls = ls' /\ e = e'.
Proof.
  intros H1. revert ls' e'.
  induction H1 as [pos H0|pos l ls e E1 E2 E3 E4 IH|pos hi lo ls e E1 E2 E3 E4 E5 IH];
    intros ls' e' Hx; inversion Hx; subst; unfold zlen, LABEL_MAX_LEN in *; simplify_eq; try lia; try done.
  - assert (El : l = l0).
    { rewrite <- E3. match goal with H : take (length l0) _ = l0 |- _ => rewrite <- H end.
      f_equal. lia. }
    subst l0. match goal with H : at_labels _ _ _ e' |- _ => apply IH in H as [-> ->] end. done.
  - match goal with H : at_labels _ _ ls' _ |- _ => by apply IH in H as [-> _] end.
Qed.

Lemma at_labels_take s k pos ls e : at_labels (take k s) pos ls e -> at_labels s pos ls e.
Proof.
  induction 1 as [pos H0|pos l ls e H1 H2 H3 H4 IH|pos hi lo ls e H1 H2 H3 H4 H5 IH];
    repeat match goal with H : take _ _ !! _ = Some _ |- _ => apply lookup_take_Some in H as [? ?] end.
  - by constructor.
  - apply at_label; auto. rewrite skipn_firstn_comm, take_take in H3.
    rewrite Nat.min_l in H3; [done|].
    apply (f_equal length) in H3. rewrite length_take in H3. lia.
  - by eapply at_pointer.
Qed.

Lemma at_labels_abs s pos ls e : wf_octets s -> at_labels s pos ls e -> abs_labels ls.
Proof.
  intros Hw. induction 1 as [|pos l ls e H1 H2 H3 H4 IH|]; [by exists []| |done].
  apply abs_labels_cons; right. split; [|done]. split; [done|]. rewrite <- H3. auto with octets.
Qed.

(** The octets of labels read in place. *)
Lemma run_flat s pos ls e q :
  run s pos ls e q -> e = EndRoot ->
  take (length (labels_wire (ls ++ [[]]))) (drop pos s) = labels_wire (ls ++ [[]]).
Proof.
  assert (Hcons : forall pos b, s !! pos = Some b -> drop pos s = b :: drop (pos + 1) s).
  { intros pos' b Hb. rewrite Nat.add_1_r. by apply drop_S. }
  induction 1 as [pos H0| |pos l ls e q H1 H2 H3 H4 IH]; intros He; simplify_eq/=.
  - by rewrite (Hcons _ _ H0).
  - rewrite labels_wire_cons, (Hcons _ _ H1). cbn [length take]. f_equal.
    rewrite <- (take_drop (length l) (drop (pos + 1) s)), H3, drop_drop, length_app.
    rewrite take_app_add' by done. fold (labels_wire (ls ++ [[]])). by rewrite IH.
Qed.

(** Labels that stand in place at a position, without a compression pointer. *)
Definition flat_at (s : list Z) (pos : nat) (ls : list (list Z)) : Prop :=
  take (length (labels_wire ls)) (drop pos s) = labels_wire ls.

Lemma run_pointer_octet s pos ls e q ptr :
  run s pos ls e q -> e = EndPtr ptr ->
  exists hi, s !! (pos + length (labels_wire ls))%nat = Some hi /\ 0xC0 <= hi.
Proof.
  induction 1 as [|pos hi lo H1 H2 H3|pos l ls e q H1 H2 H3 H4 IH]; intros He; simplify_eq.
  - exists hi. rewrite Nat.add_0_r. split; [done|lia].
  - destruct (IH eq_refl) as (hi & Hhi & Hge). exists hi. split; [|done].
    rewrite labels_wire_cons. cbn [length]. rewrite length_app, <- Hhi. f_equal. lia.
Qed.

Lemma at_labels_first s pos ms e :
  at_labels s pos ms e -> exists b, labels_wire ms !! 0%nat = Some b /\ b < 0xC0.
Proof.
  induction 1 as [pos H0|pos l ls e H1 H2 H3 H4 IH| ]; [by exists 0| |done].
  exists (zlen l). rewrite labels_wire_cons. split; [done|]. unfold LABEL_MAX_LEN, zlen in *. lia.
Qed.

Lemma drop_take_flat (s t : list Z) k pos :
  take (length t) (drop pos (take k s)) = t -> take (length t) (drop pos s) = t.
Proof.
  intros E. rewrite skipn_firstn_comm, take_take in E.
  rewrite Nat.min_l in E; [done|]. apply (f_equal length) in E. rewrite length_take in E. lia.
Qed.

(** A name with a pointer behind its first labels is not there in place. *)
Lemma run_pointer_not_flat s k pos ls ptr q ms pos' e :
  run (take k s) pos ls (EndPtr ptr) q -> at_labels (take k s) pos' ms e -> ~ flat_at s pos (ls ++ ms).
Proof.
  intros Hr Hat Hf. destruct (run_pointer_octet _ _ _ _ _ _ Hr eq_refl) as (hi & Hhi & Hge).
  destruct (at_labels_first _ _ _ _ Hat) as (b & Hb & Hlt).
  apply lookup_take_Some in Hhi as [Hhi _]. pose proof (lookup_lt_Some _ _ _ Hb).
  assert (E : labels_wire (ls ++ ms) !! length (labels_wire ls) = Some b).
  { by rewrite labels_wire_app, lookup_app_r, Nat.sub_diag. }
  rewrite <- Hf, lookup_take_lt, lookup_drop in E; [simplify_eq; lia|].
  rewrite labels_wire_app, length_app. lia.
Qed.

(** ** Parsing is correct *)

Lemma run_fuel_eq : run_fuel = 256%nat.
Proof. reflexivity. Qed.

Ltac run_fuel_lia := rewrite run_fuel_eq; lia.

Section ParseTheorems.
Context {P : Type} `{OctetsParserOk P}.

(** The octets the parser may look at. *)
Definition visible (p : P) : list Z := take (p_len p) (p_octets p).

Lemma visible_moved (p p' : P) n : moved p p' n -> visible p' = visible p.
Proof. intros (H1 & H2 & _). unfold visible. by rewrite H1, H2. Qed.

Lemma visible_lt (p : P) i b : visible p !! i = Some b -> (i < p_len p)%nat.
Proof. intros Hi. by apply lookup_take_Some in Hi as [_ ?]. Qed.

Lemma parse_u8_visible (p : P) :
  match visible p !! p_pos p with
  | Some b => exists p', p_parse_u8 p = Some (b, p') /\ moved p p' (p_pos p + 1)
  | None => p_parse_u8 p = None
  end.
Proof.
  pose proof (p_bounds p). unfold visible. destruct (decide (p_pos p < p_len p)%nat) as [Hl|Hl].
  - rewrite lookup_take_lt by done.
    destruct (lookup_lt_is_Some_2 (p_octets p) (p_pos p)) as [b Hb]; [lia|]. rewrite Hb.
    apply p_parse_u8_ok; [unfold p_remaining; lia|done].
  - rewrite lookup_take_ge by lia. apply p_parse_u8_short. unfold p_remaining; lia.
Qed.

(** What [LabelType::parse] reads. *)
Inductive label_type_at (s : list Z) (pos : nat) : LabelType -> nat -> Prop :=
  | lt_normal b : s !! pos = Some b -> 0 <= b <= 0x3F -> label_type_at s pos (Normal b) (pos + 1)
  | lt_pointer hi lo : s !! pos = Some hi -> 0xC0 <= hi <= 0xFF -> s !! (pos + 1)%nat = Some lo ->
      label_type_at s pos (Compressed (pointer_pos hi lo)) (pos + 2).

Lemma label_type_parse_sound (p p' : P) lt :
  label_type_parse p = Ok (lt, p') ->
  exists q, label_type_at (visible p) (p_pos p) lt q /\ moved p p' q.
Proof.
  unfold label_type_parse, label_type. pose proof (parse_u8_visible p) as Hp.
  destruct (visible p !! p_pos p) as [b|] eqn:E; [|by rewrite Hp].
  destruct Hp as (p1 & -> & Hm). simpl. case_scrut; breflect.
  { intros [= <- <-]. eexists; split; [|done]. by constructor. }
  case_scrut; [|done]. breflect. pose proof (parse_u8_visible p1) as Hp1.
  rewrite (visible_moved _ _ _ Hm) in Hp1. pose proof Hm as (_ & _ & Hpos). rewrite Hpos in Hp1.
  destruct (visible p !! (p_pos p + 1)%nat) as [lo|] eqn:E2; [|by rewrite Hp1].
  destruct Hp1 as (p2 & -> & Hm2). simpl. intros [= <- <-]. eexists; split.
  - by apply lt_pointer.
  - replace (p_pos p + 2)%nat with (p_pos p + 1 + 1)%nat by lia. by eapply moved_trans.
Qed.

Lemma label_type_parse_complete (p : P) lt q :
  label_type_at (visible p) (p_pos p) lt q ->
  exists p', label_type_parse p = Ok (lt, p') /\ moved p p' q.
Proof.
  intros Hlt. unfold label_type_parse, label_type. pose proof (parse_u8_visible p) as Hp.
  destruct Hlt as [b E Hb|hi lo E Hhi E2]; rewrite E in Hp; destruct Hp as (p1 & -> & Hm); simpl.
  - destruct (Z.leb_spec 0 b), (Z.leb_spec b 63); try lia. by exists p1.
  - destruct (Z.leb_spec hi 63), (Z.leb_spec 192 hi), (Z.leb_spec hi 255); try lia.
    rewrite andb_false_r; simpl. pose proof (parse_u8_visible p1) as Hp1.
    rewrite (visible_moved _ _ _ Hm) in Hp1. pose proof Hm as (_ & _ & Hpos).
    rewrite Hpos, E2 in Hp1. destruct Hp1 as (p2 & -> & Hm2). simpl.
    exists p2. split; [done|].
    replace (p_pos p + 2)%nat with (p_pos p + 1 + 1)%nat by lia. by eapply moved_trans.
Qed.

(** The label that starts with the length octet at [pos]. *)
Lemma label_in_place (s : list Z) pos b :
  s !! pos = Some b -> 0 < b <= 0x3F -> (pos + 1 + Z.to_nat b <= length s)%nat ->
  exists l, length l = Z.to_nat b /\ zlen l = b /\ take (length l) (drop (pos + 1) s) = l.
Proof.
  intros E Hb Hl. exists (take (Z.to_nat b) (drop (pos + 1) s)).
  assert (Hlen : length (take (Z.to_nat b) (drop (pos + 1) s)) = Z.to_nat b)
    by (rewrite length_take, length_drop; lia).
  unfold zlen. rewrite Hlen. split_and!; [done|lia|done].
Qed.

Lemma length_visible (p : P) : length (visible p) = p_len p.
Proof. unfold visible. rewrite length_take. pose proof (p_bounds p). lia. Qed.

Definition root_len (e : run_end) : Z := match e with EndRoot => 1 | EndPtr _ => 0 end.

(** A run always ends; it succeeds exactly when there are labels and an end. *)
Lemma parse_run_total fuel (p : P) n :
  0 <= n < 255 -> 255 - n < Z.of_nat fuel -> is_Some (parse_run fuel p n).
Proof.
  revert p n; induction fuel as [|fuel IH]; intros p n Hn Hf; [lia|]. cbn [parse_run].
  destruct (label_type_parse p) as [[[b|ptr] p1]|e] eqn:E; [|done..].
  destruct (Z.eqb_spec b 0); [done|].
  destruct (p_advance p1 (Z.to_nat b)) as [p2|]; [|done]. simpl.
  apply label_type_parse_sound in E as (q & Hlt & _). inversion Hlt; subst.
  destruct (Z.leb_spec 255 (n + (b + 1))); [done|]. apply IH; lia.
Qed.

Lemma parse_run_sound fuel (p p' : P) n n' e :
  0 <= n < 255 -> parse_run fuel p n = Some (Ok (e, n', p')) ->
  exists ls q, run (visible p) (p_pos p) ls e q /\ moved p p' q /\
    n' = n + zlen (labels_wire ls) + root_len e /\ n + zlen (labels_wire ls) < 255.
Proof.
  revert p n; induction fuel as [|fuel IH]; intros p n Hn; [done|]. cbn [parse_run].
  destruct (label_type_parse p) as [[[b|ptr] p1]|] eqn:E; [|..|done].
  - apply label_type_parse_sound in E as (q & Hlt & Hm). inversion Hlt; subst.
    destruct (Z.eqb_spec b 0) as [->|Hb].
    { intros [= <- <- <-]. exists [], (p_pos p + 1)%nat.
      split_and!; [by apply run_root|done|unfold zlen, labels_wire, root_len; simpl; lia..]. }
    destruct (p_advance p1 (Z.to_nat b)) as [p2|] eqn:Ea; [|done]. simpl.
    apply advance_inv in Ea as [Hm2 Hb2]. pose proof Hm as (_ & Hlen & Hpos). rewrite Hpos, Hlen in *.
    destruct (Z.leb_spec 255 (n + (b + 1))); [done|]. intros Hrun.
    destruct (label_in_place (visible p) (p_pos p) b) as (l & Hl1 & Hl2 & Hl3);
      [done|lia|rewrite length_visible; lia|].
    apply IH in Hrun as (ls & q & Hr & Hm3 & -> & Hlt3); [|lia].
    assert (Hmm : moved p p2 (p_pos p + 1 + length l)) by (rewrite Hl1; by eapply moved_trans).
    rewrite (visible_moved _ _ _ Hmm) in Hr. pose proof Hmm as (_ & _ & Hpos2). rewrite Hpos2 in Hr.
    exists (l :: ls), q. rewrite labels_wire_cons. unfold zlen in *. simpl length. rewrite length_app.
    split_and!; [|by eapply moved_trans|lia..].
    apply run_label; [unfold zlen; congruence|unfold LABEL_MAX_LEN; lia|done|done].
  - apply label_type_parse_sound in E as (q & Hlt & Hm). inversion Hlt; subst.
    intros [= <- <- <-]. exists [], (p_pos p + 2)%nat.
    split_and!; [by apply run_pointer|done|unfold zlen, labels_wire, root_len; simpl; lia..].
Qed.

Lemma parse_run_complete fuel (p : P) n ls e q :
  0 <= n < 255 -> 255 - n < Z.of_nat fuel -> run (visible p) (p_pos p) ls e q ->
  n + zlen (labels_wire ls) < 255 ->
  exists p', parse_run fuel p n = Some (Ok (e, n + zlen (labels_wire ls) + root_len e, p')) /\
    moved p p' q.
Proof.
  intros Hn Hf Hr. remember (p_pos p) as pos eqn:Hpos. remember (visible p) as s eqn:Hs.
  revert fuel p n Hpos Hs Hn Hf. induction Hr as [pos E0|pos hi lo E1 E2 E3|pos l ls e q E1 E2 E3 E4 IH];
    intros fuel p n -> -> Hn Hf Hl; (destruct fuel as [|fuel]; [lia|]); cbn [parse_run].
  - destruct (label_type_parse_complete p (Normal 0) (p_pos p + 1)) as (p' & -> & Hm).
    { by constructor. }
    simpl. exists p'. split; [|done]. by rewrite Z.add_0_r.
  - destruct (label_type_parse_complete p (Compressed (pointer_pos hi lo)) (p_pos p + 2)) as (p' & -> & Hm).
    { by apply lt_pointer. }
    simpl. exists p'. split; [|done]. by rewrite !Z.add_0_r.
  - unfold LABEL_MAX_LEN in E2. rewrite labels_wire_cons in *. unfold zlen in Hl, E1 |- *.
    simpl length in *. rewrite length_app in *.
    destruct (label_type_parse_complete p (Normal (zlen l)) (p_pos p + 1)) as (p1 & -> & Hm).
    { constructor; [done|unfold zlen; lia]. }
    unfold zlen. destruct (Z.eqb_spec (Z.of_nat (length l)) 0); [lia|].
    pose proof Hm as (_ & Hlen & Hpos). rewrite Nat2Z.id.
    destruct (p_advance_ok p1 (length l)) as (p2 & -> & Hm2).
    { unfold p_remaining. rewrite Hlen, Hpos. apply (f_equal length) in E3.
      rewrite length_take, length_drop, length_visible in E3. lia. }
    simpl. destruct (Z.leb_spec 255 (n + (Z.of_nat (length l) + 1))); [lia|].
    rewrite Hpos in Hm2. assert (Hmm : moved p p2 (p_pos p + 1 + length l)) by (by eapply moved_trans).
    destruct (IH fuel p2 (n + (Z.of_nat (length l) + 1))) as (p' & Hrun & Hm').
    + symmetry. apply Hmm.
    + symmetry. by eapply visible_moved.
    + lia.
    + lia.
    + unfold zlen. lia.
    + exists p'. rewrite Hrun. split; [|by eapply moved_trans]. do 4 f_equal. unfold zlen. lia.
Qed.

(** The measure of the jumps: the name grows, or the parser goes back. *)
Definition jump_measure (p : P) (n : Z) : nat := Z.to_nat (255 - n) * S (p_len p) + p_pos p.

Lemma jump_measure_less (p p2 : P) ptr n n' ls q :
  0 <= n < 255 -> n' = n + zlen (labels_wire ls) -> n' < 255 ->
  (ptr < p_pos p - 2)%nat -> run (visible p) ptr ls (EndPtr q) (p_pos p2) ->
  p_len p2 = p_len p -> (p_pos p2 <= p_len p2)%nat ->
  (jump_measure p2 n' < jump_measure p n)%nat.
Proof.
  intros Hn -> Hn' Hp Hr Hl Hb. unfold jump_measure. rewrite Hl in *. destruct ls as [|l ls].
  - apply run_nil_pointer in Hr. change (zlen (labels_wire [])) with 0. rewrite Z.add_0_r. lia.
  - rewrite labels_wire_cons in *. unfold zlen in *. simpl length in *. rewrite length_app in *. nia.
Qed.

(** Where the name may start once a first pointer has been followed. *)
Definition jumped (s : list Z) (n : Z) (pos : nat) (ms : list (list Z)) (r : ParsedName) : Prop :=
  if n =? 0 then
    (exists e, at_labels s (pn_pos r) ms e) /\
    (pn_compressed r = false <-> flat_at (pn_octets r) (pn_pos r) ms)
  else pn_pos r = pos /\ pn_compressed r = true.

Lemma parse_jumps_total fuel (p : P) ptr pos n c :
  0 <= n < 255 -> (jump_measure p n < fuel)%nat -> is_Some (parse_jumps fuel p ptr pos n c).
Proof.
  revert p ptr pos n c; induction fuel as [|fuel IH]; intros p ptr pos n c Hn Hf; [lia|].
  cbn [parse_jumps]. destruct (Nat.leb_spec (p_pos p - 2) ptr); [done|].
  destruct (if n =? 0 then (ptr, false) else (pos, c)) as [pos' c'].
  destruct (p_seek p ptr) as [p1|] eqn:Es; [|done]. cbn [short ok_or]. apply seek_inv in Es as [Hm Hle].
  destruct (parse_run_total run_fuel p1 n Hn) as [r Hr]; [run_fuel_lia|]. rewrite Hr.
  destruct r as [[[[|new_ptr] n'] p2]|]; [done| |done].
  apply parse_run_sound in Hr as (ls & q & Hr & Hm2 & En & Hlt); [|done]. simpl root_len in En.
  rewrite (visible_moved _ _ _ Hm) in Hr. pose proof Hm as (_ & Hlen & Hpos). rewrite Hpos in Hr.
  pose proof Hm2 as (_ & Hlen2 & Hpos2). pose proof (p_bounds p2).
  apply IH; [unfold zlen in *; lia|].
  pose proof (jump_measure_less p p2 ptr n n' ls new_ptr) as Hjm.
  rewrite Hpos2 in Hjm. specialize (Hjm Hn ltac:(lia) ltac:(lia) ltac:(lia) Hr).
  specialize (Hjm ltac:(congruence) ltac:(lia)). lia.
Qed.

(** One round of the jumps. *)
Lemma parse_jumps_step fuel (p : P) ptr pos n c r :
  0 <= n < 255 -> parse_jumps (S fuel) p ptr pos n c = Some (Ok r) ->
  (ptr < p_pos p - 2)%nat /\ exists ls e q (p2 : P),
    run (visible p) ptr ls e q /\ moved p p2 q /\ n + zlen (labels_wire ls) < 255 /\
    let '(pos', c') := if n =? 0 then (ptr, false) else (pos, c) in
    match e with
    | EndRoot => r = mkParsed (p_octets p) pos' (n + zlen (labels_wire ls) + 1) c'
    | EndPtr new_ptr =>
        parse_jumps fuel p2 new_ptr pos' (n + zlen (labels_wire ls)) true = Some (Ok r)
    end.
Proof.
  intros Hn. cbn [parse_jumps]. destruct (Nat.leb_spec (p_pos p - 2) ptr); [done|].
  destruct (if n =? 0 then (ptr, false) else (pos, c)) as [pos' c'].
  destruct (p_seek p ptr) as [p1|] eqn:Es; [|done]. cbn [short ok_or]. apply seek_inv in Es as [Hm Hle].
  destruct (parse_run run_fuel p1 n) as [[[[e n'] p2]|]|] eqn:Hr; [|by destruct_or?|done].
  - apply parse_run_sound in Hr as (ls & q & Hr & Hm2 & En & Hlt); [|done].
    rewrite (visible_moved _ _ _ Hm) in Hr. pose proof Hm as (_ & _ & Hpos). rewrite Hpos in Hr.
    intros Hres. split; [lia|]. exists ls, e, q, p2.
    split_and!; [done|by eapply moved_trans|done|].
    destruct e as [|new_ptr]; simpl in En; subst n'.
    + injection Hres as <-. f_equal. transitivity (p_octets p1); [apply Hm2|apply Hm].
    + by rewrite Z.add_0_r in Hres.
Qed.

Lemma parse_jumps_sound fuel (p : P) ptr pos n c r :
  0 <= n < 255 -> parse_jumps fuel p ptr pos n c = Some (Ok r) -> (n <> 0 -> c = true) ->
  (ptr < p_pos p - 2)%nat /\ exists ms e, at_labels (visible p) ptr ms e /\
    pn_octets r = p_octets p /\ pn_len r = n + zlen (labels_wire ms) /\ pn_len r <= 255 /\
    jumped (visible p) n pos ms r.
Proof.
  revert p ptr pos n c; induction fuel as [|fuel IH]; intros p ptr pos n c Hn Hres Hc; [done|].
  apply parse_jumps_step in Hres as (Hp & ls & e & q & p2 & Hr & Hm & Hlt & Hres); [|done].
  split; [done|]. destruct e as [|new_ptr].
  - exists (ls ++ [[]]), q. pose proof (run_flat _ _ _ _ _ Hr eq_refl) as Hflat.
    pose proof (run_at_root _ _ _ _ _ Hr eq_refl) as Hat.
    assert (Hz : zlen (labels_wire (ls ++ [[]])) = zlen (labels_wire ls) + 1).
    { unfold zlen. rewrite labels_wire_app, length_app. cbn. lia. }
    apply drop_take_flat in Hflat. fold (flat_at (p_octets p) ptr (ls ++ [[]])) in Hflat.
    rewrite Hz. unfold jumped. destruct (Z.eqb_spec n 0) as [->|Hn0]; subst r; simpl.
    + split_and!; [done..|lia|lia|by eexists|done].
    + split_and!; [done..|lia|lia|done|auto].
  - destruct (if n =? 0 then (ptr, false) else (pos, c)) as [pos' c'] eqn:Epc.
    apply IH in Hres as (Hp2 & ms & e & Hat & Ho & Hl & Hl2 & Hj); [|unfold zlen in *; lia|done].
    rewrite (visible_moved _ _ _ Hm) in Hat, Hj. pose proof Hm as (Ho2 & _ & Hpos2).
    rewrite Hpos2 in Hp2.
    pose proof (run_at_pointer _ _ _ _ _ _ _ _ Hr eq_refl Hp2 Hat) as Hat2.
    assert (Hz : zlen (labels_wire (ls ++ ms)) = zlen (labels_wire ls) + zlen (labels_wire ms)).
    { unfold zlen. rewrite labels_wire_app, length_app. lia. }
    exists (ls ++ ms), q. rewrite Hz. split_and!; [done|congruence|lia|done|].
    unfold jumped in *. destruct (Z.eqb_spec n 0) as [->|Hn0]; simplify_eq.
    + destruct (Z.eqb_spec (0 + zlen (labels_wire ls)) 0) as [E0|E0].
      * assert (ls = []) as ->; [|done]. destruct ls; [done|]. unfold zlen in E0. simpl in E0. lia.
      * destruct Hj as [-> ->]. split; [by eexists|]. rewrite Ho, Ho2. split; [done|].
        intros Hfl. by destruct (run_pointer_not_flat _ _ _ _ _ _ _ _ _ Hr Hat).
    + destruct (Z.eqb_spec (n + zlen (labels_wire ls)) 0); [unfold zlen in *; lia|]. done.
Qed.

Lemma parse_jumps_complete fuel (p : P) ptr pos n c ms e :
  0 <= n < 255 -> (jump_measure p n < fuel)%nat -> (ptr < p_pos p - 2)%nat ->
  at_labels (visible p) ptr ms e -> n + zlen (labels_wire ms) <= 255 ->
  exists r, parse_jumps fuel p ptr pos n c = Some (Ok r).
Proof.
  revert p ptr pos n c ms e; induction fuel as [|fuel IH];
    intros p ptr pos n c ms e Hn Hf Hp Hat Hle; [lia|].
  cbn [parse_jumps]. destruct (Nat.leb_spec (p_pos p - 2) ptr); [lia|].
  destruct (if n =? 0 then (ptr, false) else (pos, c)) as [pos' c'].
  pose proof (p_bounds p). destruct (p_seek_ok p ptr) as (p1 & -> & Hm); [lia|]. cbn [short ok_or].
  pose proof Hm as (_ & Hlen & Hpos). pose proof (visible_moved _ _ _ Hm) as Hv.
  destruct (at_labels_run _ _ _ _ Hat)
    as [(ls0 & Hr & ->)|(ls0 & ptr' & ms' & e' & Hr & Hp' & Hat' & ->)];
    rewrite labels_wire_app in Hle; unfold zlen in Hle; rewrite length_app in Hle.
  - simpl in Hle. destruct (parse_run_complete run_fuel p1 n ls0 EndRoot e)
      as (p2 & -> & _); [done|run_fuel_lia|congruence|unfold zlen; lia|]. by eexists.
  - pose proof (at_labels_wire_pos _ _ _ _ Hat') as Hms.
    destruct (parse_run_complete run_fuel p1 n ls0 (EndPtr ptr') e)
      as (p2 & -> & Hm2); [done|run_fuel_lia|congruence|unfold zlen; lia|].
    simpl root_len. rewrite Z.add_0_r. pose proof Hm2 as (_ & Hlen2 & Hpos2). pose proof (p_bounds p2).
    apply (IH p2 ptr' pos' _ _ ms' e').
    + unfold zlen; lia.
    + eapply Nat.lt_le_trans; [apply (jump_measure_less p p2 ptr n _ ls0 ptr')|lia];
        try done; try congruence; unfold zlen in *; try lia.
    + lia.
    + rewrite (visible_moved _ _ _ Hm2). congruence.
    + unfold zlen; lia.
Qed.
End ParseTheorems.

(** A parsed name stands for the labels [ls]. *)
Definition wf_parsed (n : ParsedName) (ls : list (list Z)) : Prop :=
  (exists e, at_labels (pn_octets n) (pn_pos n) ls e) /\
  wf_octets (pn_octets n) /\ pn_len n = zlen (labels_wire ls) /\ pn_len n <= 255 /\
  (pn_compressed n = false ->
   take (length (labels_wire ls)) (drop (pn_pos n) (pn_octets n)) = labels_wire ls).

(** The flag for compression is that of the name: it is off exactly if the
    labels stand in place at the start of the name. *)
Definition flag_exact (n : ParsedName) (ls : list (list Z)) : Prop :=
  pn_compressed n = false <-> flat_at (pn_octets n) (pn_pos n) ls.

Section ParseCorrect.
Context {P : Type} `{OctetsParserOk P}.

Lemma labels_wire_root (ls : list (list Z)) :
  zlen (labels_wire (ls ++ [[]])) = zlen (labels_wire ls) + 1.
Proof. unfold zlen. rewrite labels_wire_app, length_app. cbn. lia. Qed.

Lemma jump_fuel_enough (p p' : P) n :
  0 <= n < 255 -> p_len p' = p_len p -> (jump_measure p' n < jump_fuel p)%nat.
Proof. intros Hn Hl. unfold jump_measure, jump_fuel. pose proof (p_bounds p'). rewrite Hl in *. nia. Qed.

(** A name in sight does not make the first run fail. *)
Lemma parse_run_at (p : P) ls e err :
  at_labels (visible p) (p_pos p) ls e -> (length (labels_wire ls) <= 255)%nat ->
  parse_run run_fuel p 0 <> Some (Err err).
Proof.
  intros Hat Hle.
  destruct (at_labels_run _ _ _ _ Hat) as [(ls0 & Hr & ->)|(ls0 & ptr & ms & e' & Hr & _ & Hat' & ->)];
    rewrite labels_wire_app, length_app in Hle.
  - destruct (parse_run_complete run_fuel p 0 ls0 EndRoot e) as (p2 & E & _);
      [lia|run_fuel_lia|done|unfold zlen; simpl in Hle; lia|]. congruence.
  - apply at_labels_wire_pos in Hat'.
    destruct (parse_run_complete run_fuel p 0 ls0 (EndPtr ptr) e) as (p2 & E & _);
      [lia|run_fuel_lia|done|unfold zlen; lia|]. congruence.
Qed.

(** The name made of a first run and what the pointer behind it leads to. *)
Lemma parsed_jump_wf (p p1 : P) ls0 ptr q n :
  wf_octets (p_octets p) -> run (visible p) (p_pos p) ls0 (EndPtr ptr) q -> moved p p1 q ->
  zlen (labels_wire ls0) < 255 ->
  parse_jumps (jump_fuel p) p1 ptr (p_pos p) (zlen (labels_wire ls0)) true = Some (Ok n) ->
  exists ls, at_labels (visible p) (p_pos p) ls q /\ wf_parsed n ls /\ flag_exact n ls.
Proof.
  intros Hw Hr Hm Hlt Hj. pose proof Hm as (Ho & _ & Hpos).
  apply parse_jumps_sound in Hj as (Hp & ms & e & Hat & Ho2 & Hlen & Hle & Hjd);
    [|unfold zlen in *; lia|done].
  rewrite (visible_moved _ _ _ Hm) in Hat, Hjd. rewrite Hpos in Hp.
  pose proof (run_at_pointer _ _ _ _ _ _ _ _ Hr eq_refl Hp Hat) as Hat2.
  exists (ls0 ++ ms). split; [done|].
  unfold wf_parsed, flag_exact. rewrite Hlen, labels_wire_app. unfold zlen in *. rewrite length_app.
  unfold jumped in Hjd. destruct (Z.eqb_spec (Z.of_nat (length (labels_wire ls0))) 0) as [E0|E0].
  - assert (ls0 = []) as -> by (destruct ls0; [done|]; simpl in E0; lia).
    destruct Hjd as [[e2 Hat3] Hflat]. split_and!; [|by rewrite Ho2, Ho|lia|lia|by apply Hflat|done].
    exists e2. rewrite Ho2, Ho. by eapply at_labels_take.
  - destruct Hjd as [-> Hc]. rewrite Ho2, Ho, Hc. split_and!; [|done|lia|lia|done|].
    + exists q. by eapply at_labels_take.
    + split; [done|]. intros Hfl. by destruct (run_pointer_not_flat _ _ _ _ _ _ _ _ _ Hr Hat).
Qed.

Lemma parsed_run_wf (p p1 : P) ls0 q :
  wf_octets (p_octets p) -> run (visible p) (p_pos p) ls0 EndRoot q -> moved p p1 q ->
  zlen (labels_wire ls0) < 255 ->
  let n := mkParsed (p_octets p1) (p_pos p) (zlen (labels_wire ls0) + 1) false in
  wf_parsed n (ls0 ++ [[]]) /\ flag_exact n (ls0 ++ [[]]).
Proof.
  intros Hw Hr (Ho & _ & _) Hlt. unfold wf_parsed, flag_exact; simpl. rewrite Ho, labels_wire_root.
  assert (Hf : flat_at (p_octets p) (p_pos p) (ls0 ++ [[]])).
  { unfold flat_at. eapply drop_take_flat. by eapply run_flat. }
  split_and!; [|done|lia|lia|done|done].
  exists q. eapply at_labels_take, run_at_root; [exact Hr|done].
Qed.

(** Parsing ends; it succeeds exactly where there is a name. *)
Lemma parsed_parse_flag_spec (p : P) :
  wf_octets (p_octets p) ->
  exists r, parsed_parse p = Some r /\
  (forall n p', r = Ok (n, p') -> exists ls e,
     at_labels (visible p) (p_pos p) ls e /\ (wf_parsed n ls /\ flag_exact n ls) /\ moved p p' e) /\
  (forall ls e, at_labels (visible p) (p_pos p) ls e -> (length (labels_wire ls) <= 255)%nat ->
     exists n p', r = Ok (n, p')).
Proof.
  intros Hw. unfold parsed_parse.
  destruct (parse_run_total run_fuel p 0) as [r Hrun]; [lia|run_fuel_lia|].
  pose proof Hrun as Hrun'. rewrite Hrun. destruct r as [[[e n] p1]|err].
  2: { eexists; split; [done|]. split; [done|]. intros ls e Hat Hle.
       by destruct (parse_run_at p ls e err Hat Hle). }
  apply parse_run_sound in Hrun as (ls0 & q & Hr & Hm & -> & Hlt); [|lia]. rewrite Z.add_0_l in *.
  destruct e as [|ptr]; cbn [root_len].
  - eexists; split; [done|]. split; [|by eauto]. intros n p' [= <- <-]. exists (ls0 ++ [[]]), q.
    split_and!; [by eapply run_at_root|by eapply parsed_run_wf..|done].
  - rewrite Z.add_0_r. pose proof Hm as (_ & Hl & Hpos).
    assert (Hn : 0 <= zlen (labels_wire ls0) < 255) by (unfold zlen in *; lia).
    pose proof (jump_fuel_enough p p1 _ Hn Hl) as Hf.
    destruct (parse_jumps_total (jump_fuel p) p1 ptr (p_pos p) _ true Hn Hf) as [r Hj]. rewrite Hj.
    destruct r as [n0|err]; (eexists; split; [done|]); split; [|by eauto|done|].
    + intros n p' [= <- <-]. destruct (parsed_jump_wf _ _ _ _ _ _ Hw Hr Hm Hlt Hj) as (ls & ? & ?).
      by exists ls, q.
    + intros ls e Hat Hle. exfalso.
      destruct (run_at_continue _ _ _ _ _ _ _ _ Hr eq_refl Hat) as (ms & e' & Hat' & Hp & ->).
      rewrite labels_wire_app, length_app in Hle. rewrite <- (visible_moved _ _ _ Hm) in Hat'.
      destruct (parse_jumps_complete (jump_fuel p) p1 ptr (p_pos p) _ true ms e' Hn Hf)
        as (r & Hj'); [lia|done|unfold zlen; lia|congruence].
Qed.

Lemma parsed_parse_spec (p : P) :
  wf_octets (p_octets p) ->
  exists r, parsed_parse p = Some r /\
  (forall n p', r = Ok (n, p') -> exists ls e,
     at_labels (visible p) (p_pos p) ls e /\ wf_parsed n ls /\ moved p p' e) /\
  (forall ls e, at_labels (visible p) (p_pos p) ls e -> (length (labels_wire ls) <= 255)%nat ->
     exists n p', r = Ok (n, p')).
Proof.
  intros Hw. destruct (parsed_parse_flag_spec p Hw) as (r & Hr & Hok & Hex).
  exists r. split_and!; [done| |done]. intros n p' Hn.
  destruct (Hok n p' Hn) as (ls & e & ? & [? _] & ?). by exists ls, e.
Qed.

(** Skipping a name goes where parsing it goes. *)
Lemma skip_of_run fuel (p p' : P) n n' e :
  0 <= n < 255 -> parse_run fuel p n = Some (Ok (e, n', p')) -> parsed_skip_loop fuel p n = Some (Ok p').
Proof.
  revert p n; induction fuel as [|fuel IH]; intros p n Hn; [done|]. cbn [parse_run parsed_skip_loop].
  destruct (label_type_parse p) as [[[b|ptr] p1]|] eqn:E; [|by intros [= _ _ <-]|done].
  destruct (Z.eqb_spec b 0) as [->|Hb].
  { intros [= _ _ <-]. by destruct (Z.ltb_spec 255 (n + 1)); [lia|]. }
  destruct (p_advance p1 (Z.to_nat b)) as [p2|]; [|done]. simpl.
  apply label_type_parse_sound in E as (q & Hlt & _). inversion Hlt; subst.
  destruct (Z.leb_spec 255 (n + (b + 1))); [done|].
  destruct (Z.ltb_spec 255 (n + (b + 1))); [lia|]. apply IH. lia.
Qed.

Lemma parsed_skip_parse (p p' : P) n :
  parsed_parse p = Some (Ok (n, p')) -> parsed_skip p = Some (Ok p').
Proof.
  unfold parsed_parse, parsed_skip. destruct (parse_run run_fuel p 0) as [[[[e n'] p1]|]|] eqn:E; [|done..].
  apply skip_of_run in E; [|lia]. rewrite E. destruct e; [by intros [= _ <-]|].
  destruct (parse_jumps _ _ _ _ _ _) as [[]|]; [|done..]. by intros [= _ <-].
Qed.

Lemma skip_loop_total fuel (p : P) n :
  0 <= n <= 255 -> 255 - n < Z.of_nat fuel -> is_Some (parsed_skip_loop fuel p n).
Proof.
  revert p n; induction fuel as [|fuel IH]; intros p n Hn Hf; [lia|]. cbn [parsed_skip_loop].
  destruct (label_type_parse p) as [[[b|ptr] p1]|e] eqn:E; [|done..].
  destruct (Z.eqb_spec b 0); [by case_match|].
  destruct (p_advance p1 (Z.to_nat b)) as [p2|]; [|done]. simpl.
  apply label_type_parse_sound in E as (q & Hlt & _). inversion Hlt; subst.
  destruct (Z.ltb_spec 255 (n + (b + 1))); [done|]. apply IH; lia.
Qed.

Lemma parsed_skip_total (p : P) : is_Some (parsed_skip p).
Proof. apply skip_loop_total; [lia|run_fuel_lia]. Qed.

(** Parsing where there is a name. *)
Lemma parsed_parse_at (p : P) ls e :
  wf_octets (p_octets p) -> at_labels (visible p) (p_pos p) ls e -> (length (labels_wire ls) <= 255)%nat ->
  exists n p', parsed_parse p = Some (Ok (n, p')) /\ wf_parsed n ls /\ moved p p' e /\
    parsed_skip p = Some (Ok p').
Proof.
  intros Hw Hat Hl. destruct (parsed_parse_spec p Hw) as (r & Hr & Hok & Hex).
  destruct (Hex _ _ Hat Hl) as (n & p' & ->). destruct (Hok _ _ eq_refl) as (ls' & e' & Hat' & Hn & Hm).
  destruct (at_labels_unique _ _ _ _ _ _ Hat Hat') as [-> ->].
  exists n, p'. split_and!; [done..|by eapply parsed_skip_parse].
Qed.

(** Parsing a possibly compressed name always comes to an end.  It succeeds
    exactly when the octets the parser may see hold a name at its position, all
    of whose compression pointers point backwards, of at most 255 octets; the
    parsed name then stands for the labels of that name and the parser is behind
    the name.  The parsed name is marked as compressed exactly if its labels, root
    label included, do not stand one behind the other in the octets where the name
    starts (which, for a name that begins with pointers, is where they lead to).
    Skipping a name always comes to an end, too; it succeeds where parsing does and
    goes to the same place.  (C1) *)
Theorem parsed_parse_correct (p : P) :
  wf_octets (p_octets p) ->
  exists r r', parsed_parse p = Some r /\ parsed_skip p = Some r' /\
  (forall n p', r = Ok (n, p') -> r' = Ok p' /\ exists ls e,
     at_labels (visible p) (p_pos p) ls e /\ (wf_parsed n ls /\ flag_exact n ls) /\ moved p p' e) /\
  (forall ls e, at_labels (visible p) (p_pos p) ls e -> (length (labels_wire ls) <= 255)%nat ->
     exists n p', r = Ok (n, p')).
Proof.
  intros Hw. destruct (parsed_parse_flag_spec p Hw) as (r & Hr & Hok & Hex).
  destruct (parsed_skip_total p) as [r' Hr']. exists r, r'. split_and!; [done..| |done].
  intros n p' ->. split; [|by apply Hok]. apply parsed_skip_parse in Hr. congruence.
Qed.
End ParseCorrect.

(** ** The unchecked operations are safe on parsed names *)

Lemma get_label_loop_spec s pos ls0 e fuel l ls :
  at_labels s pos ls0 e -> ls0 = l :: ls -> (pos < fuel)%nat ->
  exists start, get_label_loop fuel s pos = Ret (start, (start + length l)%nat) /\
    (start + length l <= length s)%nat /\ take (length l) (drop start s) = l /\
    (ls = [] \/ exists e', at_labels s (start + length l) ls e').
Proof.
  intros Hat. revert fuel l ls.
  induction Hat as [pos H0|pos m ms e H1 H2 H3 H4 IH|pos hi lo ms e H1 H2 H3 H4 H5 IH];
    intros fuel l ls E Hf; (destruct fuel as [|fuel]; [lia|]); cbn [get_label_loop]; simplify_eq.
  - rewrite H0. simpl. exists (pos + 1)%nat. apply lookup_lt_Some in H0.
    split_and!; [done|simpl; lia|done|by left].
  - rewrite H1. unfold label_type, LABEL_MAX_LEN, zlen in *.
    destruct (Z.leb_spec 0 (Z.of_nat (length l))), (Z.leb_spec (Z.of_nat (length l)) 63); try lia.
    simpl. rewrite Nat2Z.id. exists (pos + 1)%nat.
    split_and!; [done| |done|right; by exists e].
    apply (f_equal length) in H3. rewrite length_take, length_drop in H3. lia.
  - rewrite H1. unfold label_type.
    destruct (Z.leb_spec hi 63), (Z.leb_spec 192 hi), (Z.leb_spec hi 255); try lia.
    rewrite andb_false_r; simpl. rewrite H3. apply IH; [done|lia].
Qed.

Definition parsed_iter_rel (it : ParsedNameIter) (ls : list (list Z)) : Prop :=
  pi_len it = zlen (labels_wire ls) /\ short_labels ls /\
  (ls = [] \/ exists rest e, at_labels (pi_slice it) (pi_pos it) (ls ++ rest) e).

Lemma zlen_labels_wire_cons l ls : zlen (labels_wire (l :: ls)) = zlen l + 1 + zlen (labels_wire ls).
Proof. unfold zlen. rewrite labels_wire_cons; simpl length. rewrite length_app. lia. Qed.

Lemma get_label_spec it l ls :
  parsed_iter_rel it (l :: ls) ->
  exists it', get_label it = Ret (l, it') /\ parsed_iter_rel it' ls.
Proof.
  intros (Hl & Hs & [?|(rest & e & Hat)]); [done|]. unfold get_label.
  assert (Hpos : (pi_pos it < S (length (pi_slice it)))%nat).
  { inversion Hat; subst; match goal with H : _ !! pi_pos it = Some _ |- _ => apply lookup_lt_Some in H end; lia. }
  destruct (get_label_loop_spec _ _ _ _ _ l (ls ++ rest) Hat eq_refl Hpos) as (st & -> & Hb & Ht & Hnext).
  unfold slice_range.
  destruct (Nat.leb_spec st (st + length l)), (Nat.leb_spec (st + length l) (length (pi_slice it))); try lia.
  cbn [andb]. replace (st + length l - st)%nat with (length l) by lia. rewrite Ht.
  apply Forall_uncons in Hs as [Hll Hs]. rewrite label_compose_len_ok by done.
  rewrite Hl, zlen_labels_wire_cons.
  destruct (Z.ltb_spec (zlen l + 1 + zlen (labels_wire ls)) (zlen l + 1)); [unfold zlen in *; lia|].
  eexists; split; [done|]. split; [simpl; lia|]. split; [done|].
  destruct ls as [|m ls]; [by left|right]. simpl. destruct Hnext as [?|[e' ?]]; [done|]. by exists rest, e'.
Qed.

Lemma zlen_wire_nonzero (l : list Z) ls : zlen (labels_wire (l :: ls)) <> 0.
Proof. rewrite zlen_labels_wire_cons. unfold zlen. lia. Qed.

Lemma parsed_back_loop_spec ls l it fuel :
  parsed_iter_rel it (ls ++ [l]) -> (length ls < fuel)%nat -> parsed_back_loop fuel it = Ret l.
Proof.
  revert it fuel; induction ls as [|m ls IH]; intros it fuel Hr Hf;
    (destruct fuel as [|fuel]; [simpl in Hf; lia|]); cbn [parsed_back_loop app] in *;
    destruct (get_label_spec _ _ _ Hr) as (it' & -> & Hr'); pose proof Hr' as [Hl _]; rewrite Hl.
  - done.
  - destruct (Z.eqb_spec (zlen (labels_wire (ls ++ [l]))) 0) as [E|_].
    { destruct ls; [by apply zlen_wire_nonzero in E|by apply zlen_wire_nonzero in E]. }
    apply IH; [done|simpl in Hf; lia].
Qed.

#[export, program] Instance parsed_iter_ok : LabelIterOk ParsedNameIter :=
  {| li_rel := parsed_iter_rel |}.
Next Obligation.
  intros it (Hl & _). exists it. simpl; unfold parsed_iter_next. rewrite Hl. split; [done|].
  split; [done|]. split; [constructor|by left].
Qed.
Next Obligation.
  intros it l ls Hr. simpl; unfold parsed_iter_next. pose proof Hr as [Hl _]. rewrite Hl.
  destruct (Z.eqb_spec (zlen (labels_wire (l :: ls))) 0) as [E|_]; [by apply zlen_wire_nonzero in E|].
  destruct (get_label_spec _ _ _ Hr) as (it' & -> & Hr'). by exists it'.
Qed.
Next Obligation.
  intros it (Hl & _). exists it. simpl; unfold parsed_iter_next_back. rewrite Hl. split; [done|].
  split; [done|]. split; [constructor|by left].
Qed.
Next Obligation.
  intros it l ls Hr. simpl; unfold parsed_iter_next_back. pose proof Hr as (Hl & Hs & Hat). rewrite Hl.
  assert (Hz : zlen (labels_wire (ls ++ [l])) = zlen (labels_wire ls) + (zlen l + 1)).
  { rewrite labels_wire_app. unfold zlen. rewrite length_app.
    rewrite labels_wire_cons; simpl. rewrite app_nil_r. lia. }
  destruct (Z.eqb_spec (zlen (labels_wire (ls ++ [l]))) 0) as [E|_]; [unfold zlen in *; lia|].
  rewrite (parsed_back_loop_spec ls l) ; [|done|].
  2: { pose proof (labels_wire_length ls). unfold zlen in *. lia. }
  apply Forall_app in Hs as [Hs Hll]. apply Forall_uncons in Hll as [Hll _].
  rewrite label_compose_len_ok by done.
  destruct (Z.ltb_spec (zlen (labels_wire (ls ++ [l]))) (zlen l + 1)); [unfold zlen in *; lia|].
  eexists; split; [done|]. split; [simpl; lia|]. split; [done|].
  destruct Hat as [E|(rest & e & Hat)]; [by destruct ls|]. right. exists (l :: rest), e.
  by rewrite <- app_assoc in Hat.
Qed.

Lemma wf_parsed_abs n ls : wf_parsed n ls -> abs_labels ls.
Proof. intros ((e & Hat) & Hw & _). by eapply at_labels_abs. Qed.

Lemma wf_parsed_good n ls : wf_parsed n ls -> good_labels ls.
Proof. intros Hwf. by eapply abs_labels_good, wf_parsed_abs. Qed.

Lemma wf_parsed_fuel n ls : wf_parsed n ls -> (length ls < name_fuel)%nat.
Proof.
  intros (_ & _ & E & Hl & _). pose proof (labels_wire_length ls). unfold name_fuel, zlen in *. lia.
Qed.

Lemma parsed_denotes n ls : wf_parsed n ls -> denotes n ls.
Proof.
  intros Hwf. pose proof (wf_parsed_abs _ _ Hwf) as Ha. destruct Hwf as ((e & Hat) & Hw & Hl & Hle & Hf).
  split_and!.
  - split; [done|]. split; [auto with octets|]. right. exists [], e. by rewrite app_nil_r.
  - simpl. by rewrite Hl.
  - simpl. unfold pn_as_flat_slice. destruct (pn_compressed n); [done|]. intros s [= <-].
    rewrite Hl. unfold zlen. rewrite Nat2Z.id. by apply Hf.
Qed.

Lemma parsed_eq n m ls ms : wf_parsed n ls -> wf_parsed m ms -> name_eq n m = Ret (bool_decide (canon ls = canon ms)).
Proof.
  intros Hn Hm. apply name_eq_spec; [by apply parsed_denotes|by apply parsed_denotes|by eapply wf_parsed_fuel|by eapply wf_parsed_fuel
    |by eapply wf_parsed_good|by eapply wf_parsed_good].
Qed.

(** A parsed name keeps the promises of names: its iterator yields its labels
    from either end without ever indexing out of range, meeting a bad label type
    or looping, its length is that of its labels, and the flat slice of a name
    not compressed is its wire format.  (C32) *)
Theorem parsed_name_denotes n ls : wf_parsed n ls -> denotes n ls.
Proof. apply parsed_denotes. Qed.

Section ParsedOps.
Context {P : Type} `{OctetsParserOk P} `{!OctetsParserRef P} `{!OctetsParserRefOk P}.

(** A parser over all of the octets [s]. *)
Definition covers (p : P) (s : list Z) (pos : nat) : Prop :=
  p_octets p = s /\ p_len p = length s /\ p_pos p = pos.

Lemma pn_parser_covers n :
  (pn_pos n <= length (pn_octets n))%nat ->
  exists p : P, pn_parser n = Ret p /\ covers p (pn_octets n) (pn_pos n).
Proof.
  intros Hp. unfold pn_parser. destruct (p_from_ref_spec (P:=P) (pn_octets n)) as (H1 & H2 & H3).
  destruct (p_advance_ok (p_from_ref (pn_octets n) : P) (pn_pos n)) as (p & -> & Hm).
  { unfold p_remaining. rewrite H2, H3. lia. }
  exists p. split; [done|]. destruct Hm as (M1 & M2 & M3). rewrite H1, H2, H3 in *. by split_and!.
Qed.

Lemma peek_covers (p : P) s pos k :
  covers p s pos -> (pos + k <= length s)%nat -> p_peek p k = Some (take k (drop pos s)).
Proof.
  intros (H1 & H2 & H3) Hk. rewrite p_peek_spec. unfold p_remaining. rewrite H1, H2, H3.
  by rewrite decide_True by lia.
Qed.

Lemma label_type_peek_at (p : P) s pos lt q :
  covers p s pos -> label_type_at s pos lt q -> label_type_peek p = Ok lt.
Proof.
  intros Hc Hlt. unfold label_type_peek, label_type. destruct Hlt as [b E Hb|hi lo E Hhi E2].
  - pose proof (lookup_lt_Some _ _ _ E). rewrite (peek_covers _ _ _ _ Hc) by lia. simpl.
    rewrite (drop_S _ _ _ E). simpl. destruct (Z.leb_spec 0 b), (Z.leb_spec b 63); try lia. done.
  - pose proof (lookup_lt_Some _ _ _ E2). rewrite !(peek_covers _ _ _ _ Hc) by lia. simpl.
    rewrite Nat.add_1_r in E2. rewrite (drop_S _ _ _ E), (drop_S _ _ _ E2). simpl.
    destruct (Z.leb_spec hi 63), (Z.leb_spec 192 hi), (Z.leb_spec hi 255); try lia.
    by rewrite andb_false_r.
Qed.

(** The loop of [split_first] and [parent] finds the first label. *)
Lemma first_label_loop_spec s pos ls0 e fuel l ls (p : P) :
  at_labels s pos ls0 e -> ls0 = l :: ls -> l <> [] -> (pos < fuel)%nat -> covers p s pos ->
  exists start (p' : P), first_label_loop fuel p = Ret (zlen l + 1, p') /\ p_pos p' = start /\
    (start + S (length l) <= length s)%nat /\ take (S (length l)) (drop start s) = label_wire l /\
    exists e', at_labels s (start + S (length l)) ls e' /\
      (pos = start \/ exists hi lo, s !! pos = Some hi /\ 0xC0 <= hi <= 0xFF /\ s !! (pos + 1)%nat = Some lo).
Proof.
  intros Hat. revert fuel l ls p.
  induction Hat as [pos E0|pos m ms e H1 H2 H3 H4 IH|pos hi lo ms e H1 H2 H3 H4 H5 IH];
    intros fuel l ls p E Hl Hf Hc; (destruct fuel as [|fuel]; [lia|]); cbn [first_label_loop]; simplify_eq.
  - unfold LABEL_MAX_LEN in H2. rewrite (label_type_peek_at p s pos (Normal (zlen l)) (pos + 1)); [|done|].
    2: { constructor; [done|unfold zlen; lia]. }
    destruct (Z.eqb_spec (zlen l) 0); [unfold zlen in *; lia|]. exists pos, p.
    assert (Hend : (pos + S (length l) <= length s)%nat).
    { apply (f_equal length) in H3. rewrite length_take, length_drop in H3. lia. }
    split_and!; [done|apply Hc|done| |].
    + rewrite (drop_S _ _ _ H1). simpl. rewrite Nat.add_1_r in H3. unfold label_wire. by rewrite H3.
    + exists e. replace (pos + S (length l))%nat with (pos + 1 + length l)%nat by lia. auto.
  - rewrite (label_type_peek_at p s pos (Compressed (pointer_pos hi lo)) (pos + 2)); [|done|by apply lt_pointer].
    pose proof Hc as (C1 & C2 & C3). pose proof (lookup_lt_Some _ _ _ H1).
    destruct (p_seek_ok p (pointer_pos hi lo)) as (p' & -> & M1 & M2 & M3); [lia|].
    destruct (IH fuel l ls p') as (st & p2 & ? & ? & ? & ? & e' & ? & _); [done..|lia|by split_and!; congruence|].
    exists st, p2. split_and!; [done..|]. exists e'. split; [done|]. right. by exists hi, lo.
Qed.

(** [split_first] takes the first label off a name other than the root and
    leaves a well-formed parsed name of the other labels; [parent] does the
    same and drops the label.  On the root both change nothing.  Neither ever
    panics. *)
Theorem parsed_split_first_correct n l ls :
  wf_parsed n (l :: ls) ->
  if decide (l = [])
  then pn_split_first (P:=P) n = Ret (None, n) /\ pn_parent (P:=P) n = Ret (false, n)
  else exists n', pn_split_first (P:=P) n = Ret (Some (mkRel (label_wire l)), n') /\
    pn_parent (P:=P) n = Ret (true, n') /\ wf_parsed n' ls.
Proof.
  intros Hwf. pose proof (wf_parsed_abs _ _ Hwf) as Ha. destruct Hwf as ((e & Hat) & Hw & Hlen & Hle & Hf).
  unfold pn_split_first, pn_parent. rewrite Hlen, zlen_labels_wire_cons in *.
  apply abs_labels_cons in Ha as [[-> ->]|[Hl Ha]]; case_decide as Hd; try done.
  { by destruct Hl as [[]]; subst; simpl in *; lia. }
  assert (Hpos : (pn_pos n < S (length (pn_octets n)))%nat).
  { inversion Hat; subst; match goal with H : _ !! pn_pos n = Some _ |- _ => apply lookup_lt_Some in H end; lia. }
  destruct (Z.eqb_spec (zlen l + 1 + zlen (labels_wire ls)) 1) as [E|_].
  { destruct Hl as [[]]. unfold zlen in *. lia. }
  destruct (pn_parser_covers n) as (p & -> & Hc); [lia|].
  destruct (first_label_loop_spec _ _ _ _ _ l ls p Hat eq_refl Hd Hpos Hc)
    as (st & p' & -> & -> & Hend & Ht & e' & Hat' & Hst).
  destruct (Z.ltb_spec (zlen l + 1 + zlen (labels_wire ls)) (zlen l + 1)); [unfold zlen in *; lia|].
  replace (Z.to_nat (zlen l + 1)) with (S (length l)) by (unfold zlen; lia).
  unfold slice_range. destruct (Nat.leb_spec st (st + S (length l))),
    (Nat.leb_spec (st + S (length l)) (length (pn_octets n))); try lia.
  cbn [andb]. replace (st + S (length l) - st)%nat with (S (length l)) by lia. rewrite Ht.
  eexists; split_and!; [done..|]. unfold wf_parsed; cbn [pn_octets pn_pos pn_len pn_compressed].
  split_and!; [by eexists|done|lia|unfold zlen in *; lia|].
  intros Hcomp. specialize (Hf Hcomp). destruct Hst as [<-|(hi & lo & E1 & E2 & E3)].
  - rewrite labels_wire_cons in Hf. simpl length in Hf. rewrite length_app in Hf.
    apply (f_equal (drop (S (length l)))) in Hf. simpl in Hf.
    rewrite drop_app_length, skipn_firstn_comm, drop_drop in Hf.
    replace (S (length l + length (labels_wire ls)) - S (length l))%nat
      with (length (labels_wire ls)) in Hf by lia. done.
  - rewrite labels_wire_cons, (drop_S _ _ _ E1) in Hf. simpl in Hf. injection Hf as Hhi _.
    destruct Hl as [[_ Hl] _]. unfold zlen, LABEL_MAX_LEN in *. lia.
Qed.
End ParsedOps.

(** ** Examples *)

(** [com.], [example.com.] and [www.example.com.], each name but the first
    compressed. *)
Definition ex_message : list Z :=
  [3; 99; 111; 109; 0; 7; 101; 120; 97; 109; 112; 108; 101; 0xC0; 0; 3; 119; 119; 119; 0xC0; 5].

Definition ex_www_labels : list (list Z) :=
  [[119; 119; 119]; [101; 120; 97; 109; 112; 108; 101]; [99; 111; 109]; []].

Definition ex_www : ParsedName := mkParsed ex_message 15 17 true.

Lemma ex_www_at : at_labels ex_message 15 ex_www_labels 21.
Proof.
  apply at_label; [done|by_decide|done|]. apply (at_pointer _ 19 0xC0 5 _ 15); [done|lia|done|by_decide|].
  apply at_label; [done|by_decide|done|]. apply (at_pointer _ 13 0xC0 0 _ 5); [done|lia|done|by_decide|].
  apply at_label; [done|by_decide|done|]. by apply at_root.
Qed.

Lemma ex_www_wf : wf_parsed ex_www ex_www_labels.
Proof. split_and!; [exists 21%nat; apply ex_www_at|by_decide|done|done|done]. Qed.

Lemma parsed_parse_correct_witness :
  exists n p', parsed_parse (SliceParser ex_message 15) = Some (Ok (n, p')).
Proof.
  destruct (parsed_parse_correct (SliceParser ex_message 15) ltac:(by_decide)) as (r & r' & -> & _ & _ & Hc).
  destruct (Hc ex_www_labels 21%nat) as (n & p' & ->); [exact ex_www_at|by_decide|]. by exists n, p'.
Defined.

Lemma parsed_name_denotes_witness : denotes ex_www ex_www_labels.
Proof. exact (parsed_name_denotes _ _ ex_www_wf). Defined.

Lemma parsed_split_first_correct_witness :
  exists n', pn_split_first (P:=slice_parser) ex_www = Ret (Some (mkRel [3; 119; 119; 119]), n') /\
    wf_parsed n' [[101; 120; 97; 109; 112; 108; 101]; [99; 111; 109]; []].
Proof.
  destruct (parsed_split_first_correct (P:=slice_parser) ex_www [119; 119; 119]
    [[101; 120; 97; 109; 112; 108; 101]; [99; 111; 109]; []] ex_www_wf) as (n' & H1 & _ & H2).
  by exists n'.
Defined.
