(* ===== verification/Header.v ===== *)
(** * The message header ([src/src/base/header.rs], [iana/rcode.rs])

    The header is kept in wire format: [Header] is the first four octets of a
    message, [HeaderCounts] the next eight, [HeaderSection] all twelve.  The
    accessors read and write bits of those octets.  The file relates them to a
    record of the header's fields: every setter changes its own field and no
    other one. *)

From S2P Require Import Prelude Octets Symbol.
From Stdlib Require Import Ascii.
From stdpp Require Import strings.
#[local] Open Scope Z_scope.

(** ** Response codes *)

(** [Rcode(u8)]. *)
Definition rcode_checked_from_int (value : Z) : option Z :=
  if negb (Z.land value 0xF0 =? 0) then None else Some value.

Definition rcode_masked_from_int (value : Z) : Z := Z.land value 0x0F.

Definition rcode_to_mnemonic (rcode : Z) : option string :=
  match rcode with
  | 0 => Some "NOERROR" | 1 => Some "FORMERR" | 2 => Some "SERVFAIL" | 3 => Some "NXDOMAIN"
  | 4 => Some "NOTIMP" | 5 => Some "REFUSED" | 6 => Some "YXDOMAIN" | 7 => Some "YXRRSET"
  | 8 => Some "NXRRSET" | 9 => Some "NOTAUTH" | 10 => Some "NOTZONE"
  | _ => None
  end.

Definition rcode_from_str (s : string) : result Z unit :=
  if String.eqb s "NOERROR" then Ok 0 else if String.eqb s "FORMERR" then Ok 1
  else if String.eqb s "SERVFAIL" then Ok 2 else if String.eqb s "NXDOMAIN" then Ok 3
  else if String.eqb s "NOTIMP" then Ok 4 else if String.eqb s "REFUSED" then Ok 5
  else if String.eqb s "YXDOMAIN" then Ok 6 else if String.eqb s "YXRRSET" then Ok 7
  else if String.eqb s "NXRRSET" then Ok 8 else if String.eqb s "NOTAUTH" then Ok 9
  else if String.eqb s "NOTZONE" then Ok 10 else Err ().

(** [OptRcode(u16)]: the extended response code of 12 bits. *)
Definition opt_rcode_checked_from_int (value : Z) : option Z :=
  if negb (Z.land value 0x0FFF =? 0) then None else Some value.

Definition opt_rcode_masked_from_int (value : Z) : Z := Z.land value 0x0FFF.

Definition opt_rcode_from_rcode (rcode : Z) : Z := rcode.

Definition opt_rcode_from_parts (rcode ext : Z) : Z := Z.lor (as_u16 (Z.shiftl ext 4)) rcode.

Definition opt_rcode_to_parts (r : Z) : Z * Z :=
  (rcode_masked_from_int (as_u8 r), as_u8 (Z.shiftr r 4)).

Definition opt_rcode_rcode (r : Z) : Z := (opt_rcode_to_parts r).1.
Definition opt_rcode_ext (r : Z) : Z := (opt_rcode_to_parts r).2.
Definition opt_rcode_is_ext (r : Z) : bool := negb (Z.shiftr r 4 =? 0).

(** ** Header *)

Record Header := mkHeader { h_inner : list Z }.

Definition header_new : Header := mkHeader (replicate 4 0).

(** An octet of a fixed-size array. *)
Definition octet_at (s : list Z) (i : nat) : Z := default 0 (s !! i).

(** [for_message_slice]: the octets seen as a header. *)
Definition header_for_message_slice (s : list Z) : outcome Header :=
  if (4 <=? length s)%nat then Ret (mkHeader (take 4 s)) else Panic.

(** What a change through [for_message_slice_mut] leaves in the message. *)
Definition header_update_slice (s : list Z) (f : Header -> Header) : outcome (list Z) :=
  let! h := header_for_message_slice s in Ret (h_inner (f h) ++ drop 4 s).

Definition get_bit (h : Header) (offset : nat) (bit : Z) : bool :=
  negb (Z.land (octet_at (h_inner h) offset) (Z.shiftl 1 bit) =? 0).

(** [!x] on [u8] is [255 - x]. *)
Definition set_bit (h : Header) (offset : nat) (bit : Z) (set : bool) : Header :=
  let o := octet_at (h_inner h) offset in
  mkHeader (<[offset := if set then Z.lor o (Z.shiftl 1 bit)
                        else Z.land o (255 - Z.shiftl 1 bit)]> (h_inner h)).

Definition header_id (h : Header) : Z := from_be_bytes (take 2 (h_inner h)) 0.
Definition set_id (h : Header) (value : Z) : Header :=
  mkHeader (to_be_bytes 2 value ++ drop 2 (h_inner h)).

Definition header_qr (h : Header) : bool := get_bit h 2 7.
Definition set_qr (h : Header) (set : bool) : Header := set_bit h 2 7 set.

(** [Opcode] is a [u8] of any value. *)
Definition header_opcode (h : Header) : Z := Z.land (Z.shiftr (octet_at (h_inner h) 2) 3) 0x0F.
Definition set_opcode (h : Header) (opcode : Z) : Header :=
  mkHeader (<[2%nat := Z.lor (Z.land (octet_at (h_inner h) 2) 0x87) (as_u8 (Z.shiftl opcode 3))]>
              (h_inner h)).

Definition header_aa (h : Header) : bool := get_bit h 2 2.
Definition set_aa (h : Header) (set : bool) : Header := set_bit h 2 2 set.
Definition header_tc (h : Header) : bool := get_bit h 2 1.
Definition set_tc (h : Header) (set : bool) : Header := set_bit h 2 1 set.
Definition header_rd (h : Header) : bool := get_bit h 2 0.
Definition set_rd (h : Header) (set : bool) : Header := set_bit h 2 0 set.
Definition header_ra (h : Header) : bool := get_bit h 3 7.
Definition set_ra (h : Header) (set : bool) : Header := set_bit h 3 7 set.
Definition header_z (h : Header) : bool := get_bit h 3 6.
Definition set_z (h : Header) (set : bool) : Header := set_bit h 3 6 set.
Definition header_ad (h : Header) : bool := get_bit h 3 5.
Definition set_ad (h : Header) (set : bool) : Header := set_bit h 3 5 set.
Definition header_cd (h : Header) : bool := get_bit h 3 4.
Definition set_cd (h : Header) (set : bool) : Header := set_bit h 3 4 set.

Definition header_rcode (h : Header) : Z := rcode_masked_from_int (octet_at (h_inner h) 3).
Definition set_rcode (h : Header) (rcode : Z) : Header :=
  mkHeader (<[3%nat := Z.lor (Z.land (octet_at (h_inner h) 3) 0xF0) (Z.land rcode 0x0F)]> (h_inner h)).

(** ** Flags *)

Record Flags := mkFlags { qr : bool; aa : bool; tc : bool; rd : bool; ra : bool; ad : bool; cd : bool }.

#[export] Instance Flags_eq_dec : EqDecision Flags.
Proof. solve_decision. Defined.

Definition flags_new : Flags := mkFlags false false false false false false false.

Definition header_flags (h : Header) : Flags :=
  mkFlags (header_qr h) (header_aa h) (header_tc h) (header_rd h) (header_ra h) (header_ad h) (header_cd h).

Definition set_flags (h : Header) (flags : Flags) : Header :=
  let h := set_qr h (qr flags) in
  let h := set_aa h (aa flags) in
  let h := set_tc h (tc flags) in
  let h := set_rd h (rd flags) in
  let h := set_ra h (ra flags) in
  let h := set_ad h (ad flags) in
  set_cd h (cd flags).

(** [Display]: the names of the flags set; [sep] is empty before the first. *)
Fixpoint flags_fmt_loop (sep : string) (fs : list (bool * string)) : string :=
  match fs with
  | [] => ""
  | (set, name) :: fs' =>
      if set : bool then sep +:+ name +:+ flags_fmt_loop " " fs' else flags_fmt_loop sep fs'
  end.

Definition flags_fmt (f : Flags) : string :=
  flags_fmt_loop ""
    [(qr f, "QR"); (aa f, "AA"); (tc f, "TC"); (rd f, "RD"); (ra f, "RA"); (ad f, "AD"); (cd f, "CD")].

(** [str::split(' ')]. *)
Fixpoint split_space (s : string) : list string :=
  match s with
  | EmptyString => [""]
  | String c s' =>
      let rest := split_space s' in
      if Ascii.eqb c " "%char then "" :: rest
      else match rest with [] => [String c ""] | w :: ws => String c w :: ws end
  end.

Definition in_tokens (token : string) (l : list string) : bool := existsb (String.eqb token) l.

(** The [match] on one token. *)
Definition flags_token (f : Flags) (token : string) : result Flags unit :=
  if in_tokens token ["QR"; "Qr"; "qR"; "qr"] then
    Ok (mkFlags true (aa f) (tc f) (rd f) (ra f) (ad f) (cd f))
  else if in_tokens token ["AA"; "Aa"; "aA"; "aa"] then
    Ok (mkFlags (qr f) true (tc f) (rd f) (ra f) (ad f) (cd f))
  else if in_tokens token ["TC"; "Tc"; "tC"; "tc"] then
    Ok (mkFlags (qr f) (aa f) true (rd f) (ra f) (ad f) (cd f))
  else if in_tokens token ["RD"; "Rd"; "rD"; "rd"] then
    Ok (mkFlags (qr f) (aa f) (tc f) true (ra f) (ad f) (cd f))
  else if in_tokens token ["RA"; "Ra"; "rA"; "ra"] then
    Ok (mkFlags (qr f) (aa f) (tc f) (rd f) true (ad f) (cd f))
  else if in_tokens token ["AD"; "Ad"; "aD"; "ad"] then
    Ok (mkFlags (qr f) (aa f) (tc f) (rd f) (ra f) true (cd f))
  else if in_tokens token ["CD"; "Cd"; "cD"; "cd"] then
    Ok (mkFlags (qr f) (aa f) (tc f) (rd f) (ra f) (ad f) true)
  else if in_tokens token [""] then Ok f
  else Err ().

Fixpoint flags_tokens (f : Flags) (tokens : list string) : result Flags unit :=
  match tokens with
  | [] => Ok f
  | t :: ts => let? f' := flags_token f t in flags_tokens f' ts
  end.

Definition flags_from_str (s : string) : result Flags unit := flags_tokens flags_new (split_space s).

(** ** Counts *)

Record HeaderCounts := mkCounts { c_inner : list Z }.

Definition counts_new : HeaderCounts := mkCounts (replicate 8 0).

Definition counts_for_message_slice (s : list Z) : outcome HeaderCounts :=
  if (12 <=? length s)%nat then Ret (mkCounts (take 8 (drop 4 s))) else Panic.

Definition counts_update_slice (s : list Z) (f : HeaderCounts -> HeaderCounts) : outcome (list Z) :=
  let! c := counts_for_message_slice s in Ret (take 4 s ++ c_inner (f c) ++ drop 12 s).

Definition get_u16 (c : HeaderCounts) (offset : nat) : Z :=
  from_be_bytes (take 2 (drop offset (c_inner c))) 0.

Definition set_u16 (c : HeaderCounts) (offset : nat) (value : Z) : HeaderCounts :=
  mkCounts (take offset (c_inner c) ++ to_be_bytes 2 value ++ drop (offset + 2) (c_inner c)).

Inductive CountOverflow := CountOverflowErr.

(** [inc_qdcount] and its kin: an overflow leaves the counts alone. *)
Definition inc_count (c : HeaderCounts) (offset : nat) : HeaderCounts * result unit CountOverflow :=
  let count := get_u16 c offset in
  if count + 1 <? 2 ^ 16 then (set_u16 c offset (count + 1), Ok ()) else (c, Err CountOverflowErr).

(** [dec_qdcount] and its kin: [assert!(count > 0)]. *)
Definition dec_count (c : HeaderCounts) (offset : nat) : outcome HeaderCounts :=
  let count := get_u16 c offset in
  if 0 <? count then Ret (set_u16 c offset (count - 1)) else Panic.

Definition qdcount (c : HeaderCounts) : Z := get_u16 c 0.
Definition set_qdcount (c : HeaderCounts) (v : Z) : HeaderCounts := set_u16 c 0 v.
Definition inc_qdcount (c : HeaderCounts) := inc_count c 0.
Definition dec_qdcount (c : HeaderCounts) := dec_count c 0.
Definition ancount (c : HeaderCounts) : Z := get_u16 c 2.
Definition set_ancount (c : HeaderCounts) (v : Z) : HeaderCounts := set_u16 c 2 v.
Definition inc_ancount (c : HeaderCounts) := inc_count c 2.
Definition dec_ancount (c : HeaderCounts) := dec_count c 2.
Definition nscount (c : HeaderCounts) : Z := get_u16 c 4.
Definition set_nscount (c : HeaderCounts) (v : Z) : HeaderCounts := set_u16 c 4 v.
Definition inc_nscount (c : HeaderCounts) := inc_count c 4.
Definition dec_nscount (c : HeaderCounts) := dec_count c 4.
Definition arcount (c : HeaderCounts) : Z := get_u16 c 6.
Definition set_arcount (c : HeaderCounts) (v : Z) : HeaderCounts := set_u16 c 6 v.
Definition inc_arcount (c : HeaderCounts) := inc_count c 6.
Definition dec_arcount (c : HeaderCounts) := dec_count c 6.

(** The names of the counts in UPDATE messages. *)
Definition zocount := qdcount.
Definition set_zocount := set_qdcount.
Definition prcount := ancount.
Definition set_prcount := set_ancount.
Definition upcount := nscount.
Definition set_upcount := set_nscount.
Definition adcount := arcount.
Definition set_adcount := set_arcount.

(** ** Header section *)

Record HeaderSection := mkSection { hs_inner : list Z }.

Definition section_new : HeaderSection := mkSection (replicate 12 0).

Definition section_for_message_slice (s : list Z) : outcome HeaderSection :=
  if (12 <=? length s)%nat then Ret (mkSection (take 12 s)) else Panic.

Definition section_header (hs : HeaderSection) : outcome Header := header_for_message_slice (hs_inner hs).
Definition section_counts (hs : HeaderSection) : outcome HeaderCounts :=
  counts_for_message_slice (hs_inner hs).

Section SectionWire.
Context {P : Type} `{OctetsParser P} {B : Type} `{OctetsBuilder B}.

(** [parse_buf] fills a buffer of twelve octets. *)
Definition section_parse (p : P) : result (HeaderSection * P) ParseError :=
  let? (s, p') := short (p_parse_octets p 12) in Ok (mkSection s, p').

Definition section_compose (hs : HeaderSection) : composer B := compose_slice (hs_inner hs).
End SectionWire.

(** ** The fields of a header *)

Record header_view := mkView {
  v_id : Z; v_qr : bool; v_opcode : Z; v_aa : bool; v_tc : bool; v_rd : bool;
  v_ra : bool; v_z : bool; v_ad : bool; v_cd : bool; v_rcode : Z
}.

Definition view (h : Header) : header_view :=
  mkView (header_id h) (header_qr h) (header_opcode h) (header_aa h) (header_tc h) (header_rd h)
    (header_ra h) (header_z h) (header_ad h) (header_cd h) (header_rcode h).

Definition header_wf (h : Header) : Prop := length (h_inner h) = 4%nat /\ wf_octets (h_inner h).

(** The setters. *)
Inductive header_set :=
  | SetId (v : Z) | SetQr (b : bool) | SetOpcode (v : Z) | SetAa (b : bool) | SetTc (b : bool)
  | SetRd (b : bool) | SetRa (b : bool) | SetZ (b : bool) | SetAd (b : bool) | SetCd (b : bool)
  | SetRcode (v : Z).

Definition header_set_wf (s : header_set) : Prop :=
  match s with SetId v => is_u16 v | SetOpcode v | SetRcode v => 0 <= v < 16 | _ => True end.

Definition apply_set (s : header_set) (h : Header) : Header :=
  match s with
  | SetId v => set_id h v | SetQr b => set_qr h b | SetOpcode v => set_opcode h v
  | SetAa b => set_aa h b | SetTc b => set_tc h b | SetRd b => set_rd h b
  | SetRa b => set_ra h b | SetZ b => set_z h b | SetAd b => set_ad h b | SetCd b => set_cd h b
  | SetRcode v => set_rcode h v
  end.

Definition view_set (s : header_set) (v : header_view) : header_view :=
  let '(mkView i q o a t r ra z ad c rc) := v in
  match s with
  | SetId x => mkView x q o a t r ra z ad c rc
  | SetQr x => mkView i x o a t r ra z ad c rc
  | SetOpcode x => mkView i q x a t r ra z ad c rc
  | SetAa x => mkView i q o x t r ra z ad c rc
  | SetTc x => mkView i q o a x r ra z ad c rc
  | SetRd x => mkView i q o a t x ra z ad c rc
  | SetRa x => mkView i q o a t r x z ad c rc
  | SetZ x => mkView i q o a t r ra x ad c rc
  | SetAd x => mkView i q o a t r ra z x c rc
  | SetCd x => mkView i q o a t r ra z ad x rc
  | SetRcode x => mkView i q o a t r ra z ad c x
  end.

(** The fields in the third and the fourth octet. *)
Definition octet2 (c : Z) : bool * Z * bool * bool * bool :=
  let h := mkHeader [0; 0; c; 0] in
  (header_qr h, header_opcode h, header_aa h, header_tc h, header_rd h).
Definition octet3 (d : Z) : bool * bool * bool * bool * Z :=
  let h := mkHeader [0; 0; 0; d] in
  (header_ra h, header_z h, header_ad h, header_cd h, header_rcode h).

Lemma view_octets a b c d :
  view (mkHeader [a; b; c; d]) =
  let '(q, o, aa, t, r) := octet2 c in
  let '(ra, z, ad, cd, rc) := octet3 d in
  mkView (from_be_bytes [a; b] 0) q o aa t r ra z ad cd rc.
Proof. reflexivity. Qed.

(** Checks a property of two small numbers by evaluating it on all of them. *)
Lemma forall_octets_below (n : nat) (P : Z -> Z -> Prop) `{!forall b v, Decision (P b v)} :
  forallb (fun i => forallb (fun j => bool_decide (P (Z.of_nat i) (Z.of_nat j))) (seq 0 n)) (seq 0 256) = true ->
  forall b v, is_u8 b -> 0 <= v < Z.of_nat n -> P b v.
Proof.
  intros Hall b v Hb Hv. rewrite forallb_forall in Hall. specialize (Hall (Z.to_nat b)).
  rewrite forallb_forall in Hall. specialize (Hall ltac:(apply in_seq; ulia) (Z.to_nat v)).
  rewrite !Z2Nat.id in Hall by ulia. apply bool_decide_eq_true in Hall; [done|]. apply in_seq. ulia.
Qed.

Ltac by_octets_below n :=
  match goal with
  | |- forall b v, is_u8 b -> 0 <= v < _ -> @?P b v =>
      unshelve notypeclasses refine (@forall_octets_below n P _ _);
        [intros ? ?; cbv beta; apply _ | vm_compute; reflexivity]
  end.

Definition with_bit (c bit : Z) (set : bool) : Z :=
  if set then Z.lor c (Z.shiftl 1 bit) else Z.land c (255 - Z.shiftl 1 bit).

(** Setting a flag of the third octet. *)
Lemma octet2_bits c (set : bool) :
  is_u8 c ->
  let '(q, o, a, t, r) := octet2 c in
  Forall is_u8 [with_bit c 7 set; with_bit c 2 set; with_bit c 1 set; with_bit c 0 set] /\
  octet2 (with_bit c 7 set) = (set, o, a, t, r) /\ octet2 (with_bit c 2 set) = (q, o, set, t, r) /\
  octet2 (with_bit c 1 set) = (q, o, a, set, r) /\ octet2 (with_bit c 0 set) = (q, o, a, t, set).
Proof. revert c. destruct set; by_octets. Qed.

(** Setting a flag of the fourth octet. *)
Lemma octet3_bits d (set : bool) :
  is_u8 d ->
  let '(r, z, a, c, rc) := octet3 d in
  Forall is_u8 [with_bit d 7 set; with_bit d 6 set; with_bit d 5 set; with_bit d 4 set] /\
  octet3 (with_bit d 7 set) = (set, z, a, c, rc) /\ octet3 (with_bit d 6 set) = (r, set, a, c, rc) /\
  octet3 (with_bit d 5 set) = (r, z, set, c, rc) /\ octet3 (with_bit d 4 set) = (r, z, a, set, rc).
Proof. revert d. destruct set; by_octets. Qed.

Lemma octet2_opcode c v :
  is_u8 c -> 0 <= v < 16 ->
  is_u8 (Z.lor (Z.land c 0x87) (as_u8 (Z.shiftl v 3))) /\
  let '(q, o, a, t, r) := octet2 c in
  octet2 (Z.lor (Z.land c 0x87) (as_u8 (Z.shiftl v 3))) = (q, v, a, t, r).
Proof. revert c v. by_octets_below 16%nat. Qed.

Lemma octet3_rcode d v :
  is_u8 d -> 0 <= v < 16 ->
  is_u8 (Z.lor (Z.land d 0xF0) (Z.land v 0x0F)) /\
  let '(r, z, a, c, rc) := octet3 d in
  octet3 (Z.lor (Z.land d 0xF0) (Z.land v 0x0F)) = (r, z, a, c, v).
Proof. revert d v. by_octets_below 16%nat. Qed.

Lemma header_wf_octets h :
  header_wf h -> exists a b c d, h = mkHeader [a; b; c; d] /\ is_u8 a /\ is_u8 b /\ is_u8 c /\ is_u8 d.
Proof.
  destruct h as [s]. intros [Hl Hw]; simpl in *.
  destruct s as [|a [|b [|c [|d [|]]]]]; try done.
  repeat (apply Forall_uncons in Hw as [? Hw]). by exists a, b, c, d.
Qed.

Lemma header_wf_intro a b c d :
  is_u8 a -> is_u8 b -> is_u8 c -> is_u8 d -> header_wf (mkHeader [a; b; c; d]).
Proof. intros. split; [done|]. repeat (constructor; [done|]). constructor. Qed.

(** A setter changes its own field. *)
Lemma apply_set_spec h s :
  header_wf h -> header_set_wf s ->
  header_wf (apply_set s h) /\ view (apply_set s h) = view_set s (view h).
Proof.
  intros Hw Hs. destruct (header_wf_octets _ Hw) as (a & b & c & d & -> & Ha & Hb & Hc & Hd).
  assert (H2 : forall c', is_u8 c' -> header_wf (mkHeader [a; b; c'; d])) by auto using header_wf_intro.
  assert (H3 : forall d', is_u8 d' -> header_wf (mkHeader [a; b; c; d'])) by auto using header_wf_intro.
  rewrite view_octets.
  destruct s as [v|x|v|x|x|x|x|x|x|x|v]; cbn [apply_set];
    try (pose proof (octet2_bits c x Hc) as Ho; destruct (octet2 c) as [[[[? ?] ?] ?] ?] eqn:E2;
         destruct Ho as (Hu & Ho7 & Ho2 & Ho1 & Ho0); repeat (apply Forall_uncons in Hu as [? Hu]));
    try (pose proof (octet3_bits d x Hd) as Ho; destruct (octet3 d) as [[[[? ?] ?] ?] ?] eqn:E3;
         destruct Ho as (Hu' & Hp7 & Hp6 & Hp5 & Hp4); repeat (apply Forall_uncons in Hu' as [? Hu'])).
  - destruct (octet2 c) as [[[[? ?] ?] ?] ?] eqn:E2, (octet3 d) as [[[[? ?] ?] ?] ?] eqn:E3.
    assert (Hv : to_be_bytes 2 v = [v / 2 ^ 8 mod 2 ^ 8; v mod 2 ^ 8]) by reflexivity.
    unfold set_id; simpl drop. rewrite Hv. split.
    + apply header_wf_intro; auto; apply Z.mod_pos_bound; lia.
    + cbn [app]. rewrite view_octets, E2, E3. rewrite <- Hv, from_to_be_bytes by exact Hs. done.
  - change (set_qr _ x) with (mkHeader [a; b; with_bit c 7 x; d]). rewrite view_octets, Ho7, E3. auto.
  - destruct (octet2_opcode c v Hc Hs) as [Hu Ho].
    destruct (octet2 c) as [[[[? ?] ?] ?] ?], (octet3 d) as [[[[? ?] ?] ?] ?] eqn:E3.
    change (set_opcode _ v) with (mkHeader [a; b; Z.lor (Z.land c 0x87) (as_u8 (Z.shiftl v 3)); d]).
    rewrite view_octets, Ho, E3. auto.
  - change (set_aa _ x) with (mkHeader [a; b; with_bit c 2 x; d]). rewrite view_octets, Ho2, E3. auto.
  - change (set_tc _ x) with (mkHeader [a; b; with_bit c 1 x; d]). rewrite view_octets, Ho1, E3. auto.
  - change (set_rd _ x) with (mkHeader [a; b; with_bit c 0 x; d]). rewrite view_octets, Ho0, E3. auto.
  - change (set_ra _ x) with (mkHeader [a; b; c; with_bit d 7 x]). rewrite view_octets, E2, Hp7. auto.
  - change (set_z _ x) with (mkHeader [a; b; c; with_bit d 6 x]). rewrite view_octets, E2, Hp6. auto.
  - change (set_ad _ x) with (mkHeader [a; b; c; with_bit d 5 x]). rewrite view_octets, E2, Hp5. auto.
  - change (set_cd _ x) with (mkHeader [a; b; c; with_bit d 4 x]). rewrite view_octets, E2, Hp4. auto.
  - destruct (octet3_rcode d v Hd Hs) as [Hu Ho].
    destruct (octet2 c) as [[[[? ?] ?] ?] ?] eqn:E2, (octet3 d) as [[[[? ?] ?] ?] ?].
    change (set_rcode _ v) with (mkHeader [a; b; c; Z.lor (Z.land d 0xF0) (Z.land v 0x0F)]).
    rewrite view_octets, E2, Ho. auto.
Qed.

Lemma octet2_inj c c' : is_u8 c -> is_u8 c' -> octet2 c = octet2 c' -> c = c'.
Proof.
  assert (Henc : forall x, is_u8 x -> let '(q, o, a, t, r) := octet2 x in
    x = (if q : bool then 128 else 0) + 8 * o + (if a : bool then 4 else 0) +
        (if t : bool then 2 else 0) + (if r : bool then 1 else 0)) by by_octets.
  intros Hc Hc' E. pose proof (Henc c Hc) as H1. pose proof (Henc c' Hc') as H2. rewrite E in H1.
  destruct (octet2 c') as [[[[? ?] ?] ?] ?]. congruence.
Qed.

Lemma octet3_inj d d' : is_u8 d -> is_u8 d' -> octet3 d = octet3 d' -> d = d'.
Proof.
  assert (Henc : forall x, is_u8 x -> let '(r, z, a, c, rc) := octet3 x in
    x = (if r : bool then 128 else 0) + (if z : bool then 64 else 0) + (if a : bool then 32 else 0) +
        (if c : bool then 16 else 0) + rc) by by_octets.
  intros Hc Hc' E. pose proof (Henc d Hc) as H1. pose proof (Henc d' Hc') as H2. rewrite E in H1.
  destruct (octet3 d') as [[[[? ?] ?] ?] ?]. congruence.
Qed.

Lemma view_inj h h' : header_wf h -> header_wf h' -> view h = view h' -> h = h'.
Proof.
  intros Hw Hw'. destruct (header_wf_octets _ Hw) as (a & b & c & d & -> & Ha & Hb & Hc & Hd).
  destruct (header_wf_octets _ Hw') as (a' & b' & c' & d' & -> & Ha' & Hb' & Hc' & Hd').
  rewrite !view_octets. destruct (octet2 c) as [[[[? ?] ?] ?] ?] eqn:E2, (octet3 d) as [[[[? ?] ?] ?] ?] eqn:E3.
  destruct (octet2 c') as [[[[? ?] ?] ?] ?] eqn:E2', (octet3 d') as [[[[? ?] ?] ?] ?] eqn:E3'.
  intros [= Hid]; subst. rewrite <- E2' in E2. rewrite <- E3' in E3.
  apply octet2_inj in E2; [|done..]. apply octet3_inj in E3; [|done..]. subst.
  assert (a = a' /\ b = b') as [-> ->]; [|done]. simpl in Hid. ulia.
Qed.

(** Each setter of the header changes its own field and no other, and keeps the
    header four octets: the header it leaves is the one header with those
    fields.  An opcode or a response code has to fit its four bits. *)
Theorem header_setters_correct h s :
  header_wf h -> header_set_wf s ->
  header_wf (apply_set s h) /\ view (apply_set s h) = view_set s (view h) /\
  forall h', header_wf h' -> view h' = view_set s (view h) -> h' = apply_set s h.
Proof.
  intros Hw Hs. destruct (apply_set_spec h s Hw Hs) as [Hw' Hv]. split_and!; [done..|].
  intros h' Hh' Hv'. apply view_inj; [done..|]. by rewrite Hv, Hv'.
Qed.

Lemma header_setters_correct_witness :
  view (set_opcode (mkHeader [1; 2; 0x81; 0x80]) 5) =
  mkView 258 true 5 false false true true false false false 0.
Proof.
  destruct (header_setters_correct (mkHeader [1; 2; 0x81; 0x80]) (SetOpcode 5)) as (_ & H & _);
    [by split; [|by_decide]|simpl; lia|].
  exact H.
Defined.

(** The fields determine the header. *)
Lemma octet2_flags c (q a t r : bool) :
  is_u8 c ->
  let c' := with_bit (with_bit (with_bit (with_bit c 7 q) 2 a) 1 t) 0 r in
  is_u8 c' /\ octet2 c' = (q, (octet2 c).1.1.1.2, a, t, r).
Proof. cbv zeta. revert c. destruct q, a, t, r; by_octets. Qed.

Lemma octet3_flags d (r a c : bool) :
  is_u8 d ->
  let d' := with_bit (with_bit (with_bit d 7 r) 5 a) 4 c in
  is_u8 d' /\ octet3 d' = (r, (octet3 d).1.1.1.2, a, c, (octet3 d).2).
Proof. cbv zeta. revert d. destruct r, a, c; by_octets. Qed.

(** Setting flags sets exactly the seven flags. *)
Lemma set_flags_spec h f :
  header_wf h ->
  header_wf (set_flags h f) /\ header_flags (set_flags h f) = f /\
  header_id (set_flags h f) = header_id h /\ header_opcode (set_flags h f) = header_opcode h /\
  header_z (set_flags h f) = header_z h /\ header_rcode (set_flags h f) = header_rcode h.
Proof.
  intros Hw. destruct (header_wf_octets _ Hw) as (a & b & c & d & -> & Ha & Hb & Hc & Hd).
  destruct f as [fq fa ft fr fra fad fcd].
  destruct (octet2_flags c fq fa ft fr Hc) as [Hu2 E2], (octet3_flags d fra fad fcd Hd) as [Hu3 E3];
    cbv zeta in *.
  split; [by apply header_wf_intro|].
  unfold octet2, octet3 in E2, E3; cbn [fst snd] in *.
  injection E2 as Q1 Q2 Q3 Q4 Q5. injection E3 as R1 R2 R3 R4 R5.
  unfold header_flags. repeat split; try assumption. f_equal; assumption.
Qed.

(** [set_opcode] does not mask the opcode: an opcode of more than four bits,
    which the type allows, spills into the QR bit. *)
Lemma set_opcode_spills :
  header_qr (mkHeader [0; 0; 0; 0]) = false /\ header_qr (set_opcode (mkHeader [0; 0; 0; 0]) 16) = true.
Proof. by split. Qed.

(** ** Flags as text *)

(** Flags read back from their display form are the same flags. *)
Theorem flags_text_roundtrip f : flags_from_str (flags_fmt f) = Ok f.
Proof. destruct f as [[] [] [] [] [] [] []]; vm_compute; reflexivity. Qed.

(** ** Response codes *)

Lemma rcode_text_roundtrip r s : rcode_to_mnemonic r = Some s -> rcode_from_str s = Ok r.
Proof.
  unfold rcode_to_mnemonic. intros E.
  repeat (case_match; simplify_eq; try (vm_compute; reflexivity)).
Qed.

(** Splitting an extended response code into the header's four bits and the OPT
    record's eight bits and putting it together again are inverse. *)
Theorem opt_rcode_parts_roundtrip r rcode ext :
  (0 <= r < 2 ^ 12 -> let '(rc, x) := opt_rcode_to_parts r in
     0 <= rc < 16 /\ is_u8 x /\ opt_rcode_from_parts rc x = r) /\
  (0 <= rcode < 16 -> is_u8 ext ->
     opt_rcode_to_parts (opt_rcode_from_parts rcode ext) = (rcode, ext)).
Proof.
  assert (Hmask : forall x, Z.land x 0x0F = x mod 16)
    by (intros; change 0x0F with (Z.ones 4); by rewrite Z.land_ones).
  assert (Hjoin : forall a b, 0 <= b < 16 -> is_u8 a -> opt_rcode_from_parts b a = a * 16 + b).
  { intros a b Hb Ha. unfold opt_rcode_from_parts. rewrite as_u16_id.
    - rewrite lor_shiftl_add by lia. done.
    - rewrite Z.shiftl_mul_pow2 by lia. ulia. }
  assert (Hlow : forall x, as_u8 x mod 16 = x mod 16).
  { intros x. unfold as_u8. change (2 ^ 8) with (16 * 16). rewrite Z.rem_mul_r by lia.
    by rewrite Z.mul_comm, Z.mod_add, Z.mod_mod by lia. }
  unfold opt_rcode_to_parts, rcode_masked_from_int. split.
  - intros Hr. rewrite Hmask, Hlow, Z.shiftr_div_pow2 by lia. change (2 ^ 4) with 16.
    assert (Hd : 0 <= r / 16 < 256).
    { split; [apply Z.div_pos; lia|apply Z.div_lt_upper_bound; lia]. }
    rewrite as_u8_id by (unfold is_u8; lia). pose proof (Z.mod_pos_bound r 16 ltac:(lia)).
    rewrite Hjoin; [|done|unfold is_u8; lia]. split_and!; try (unfold is_u8; lia).
    pose proof (Z.div_mod r 16). lia.
  - intros Hrc He. rewrite Hjoin by done. rewrite Hmask, Hlow, Z.shiftr_div_pow2 by lia.
    change (2 ^ 4) with 16. rewrite Z.div_add_l, Z.div_small, Z.add_0_r by lia.
    rewrite Z.add_comm, Z.mod_add, Z.mod_small by lia. by rewrite as_u8_id.
Qed.

(** The check of [OptRcode::checked_from_int] tests the wrong bits: of the 4096
    response codes it accepts only zero, and it accepts numbers of more than 12
    bits. *)
Theorem opt_rcode_checked_from_int_wrong :
  (forall r, 0 < r < 2 ^ 12 -> opt_rcode_checked_from_int r = None) /\
  opt_rcode_checked_from_int 0x1000 = Some 0x1000.
Proof.
  split; [|done]. intros r Hr. unfold opt_rcode_checked_from_int.
  change 0x0FFF with (Z.ones 12). rewrite Z.land_ones, Z.mod_small by lia.
  by destruct (Z.eqb_spec r 0); [lia|].
Qed.

(** ** Counts *)

Definition counts_wf (c : HeaderCounts) : Prop := length (c_inner c) = 8%nat /\ wf_octets (c_inner c).

Definition count_offset (i : nat) : Prop := i = 0%nat \/ i = 2%nat \/ i = 4%nat \/ i = 6%nat.

Lemma counts_octets c :
  counts_wf c -> exists q a n r, Forall is_u16 [q; a; n; r] /\
    c = mkCounts (to_be_bytes 2 q ++ to_be_bytes 2 a ++ to_be_bytes 2 n ++ to_be_bytes 2 r).
Proof.
  destruct c as [s]. intros [Hl Hw]; simpl in Hl, Hw.
  destruct s as [|b0 [|b1 [|b2 [|b3 [|b4 [|b5 [|b6 [|b7 [|]]]]]]]]]; try done.
  repeat (apply Forall_uncons in Hw as [? Hw]).
  exists (from_be_bytes [b0; b1] 0), (from_be_bytes [b2; b3] 0), (from_be_bytes [b4; b5] 0),
    (from_be_bytes [b6; b7] 0).
  assert (Hf : forall x y, is_u8 x -> is_u8 y -> is_u16 (from_be_bytes [x; y] 0) /\
    to_be_bytes 2 (from_be_bytes [x; y] 0) = [x; y]).
  { intros x y Hx Hy. split; [simpl; ulia|]. apply (to_from_be_bytes [x; y]). by repeat (constructor; [done|]). }
  destruct (Hf b0 b1) as [? E0], (Hf b2 b3) as [? E1], (Hf b4 b5) as [? E2], (Hf b6 b7) as [? E3];
    try done. split; [|by rewrite E0, E1, E2, E3].
  repeat (constructor; [done|]). constructor.
Qed.

Lemma get_be v : is_u16 v -> from_be_bytes (to_be_bytes 2 v) 0 = v.
Proof. intros Hv. by rewrite from_to_be_bytes. Qed.

(** Setting one of the four counts sets that count and leaves the other three;
    the counts stay eight octets. *)
Lemma set_count_spec c i v :
  counts_wf c -> count_offset i -> is_u16 v ->
  counts_wf (set_u16 c i v) /\ get_u16 (set_u16 c i v) i = v /\
  (forall j, count_offset j -> j <> i -> get_u16 (set_u16 c i v) j = get_u16 c j).
Proof.
  intros Hw Hi Hv. destruct (counts_octets _ Hw) as (q & a & n & r & Hu & ->).
  repeat (apply Forall_uncons in Hu as [? Hu]).
  assert (Hlen : forall x y z w, counts_wf (mkCounts (to_be_bytes 2 x ++ to_be_bytes 2 y ++ to_be_bytes 2 z ++ to_be_bytes 2 w))).
  { intros. split; [done|]. cbn [c_inner]. rewrite !wf_octets_app; split_and!; apply to_be_bytes_wf. }
  destruct Hi as [-> | [-> | [-> | ->]]].
  - change (set_u16 _ 0 v) with (mkCounts (to_be_bytes 2 v ++ to_be_bytes 2 a ++ to_be_bytes 2 n ++ to_be_bytes 2 r)).
    split_and!; [done|by apply get_be|]. by intros j [-> | [-> | [-> | ->]]] Hj.
  - change (set_u16 _ 2 v) with (mkCounts (to_be_bytes 2 q ++ to_be_bytes 2 v ++ to_be_bytes 2 n ++ to_be_bytes 2 r)).
    split_and!; [done|by apply get_be|]. by intros j [-> | [-> | [-> | ->]]] Hj.
  - change (set_u16 _ 4 v) with (mkCounts (to_be_bytes 2 q ++ to_be_bytes 2 a ++ to_be_bytes 2 v ++ to_be_bytes 2 r)).
    split_and!; [done|by apply get_be|]. by intros j [-> | [-> | [-> | ->]]] Hj.
  - change (set_u16 _ 6 v) with (mkCounts (to_be_bytes 2 q ++ to_be_bytes 2 a ++ to_be_bytes 2 n ++ to_be_bytes 2 v)).
    split_and!; [done|by apply get_be|]. by intros j [-> | [-> | [-> | ->]]] Hj.
Qed.

Lemma get_count_u16 c i : counts_wf c -> count_offset i -> is_u16 (get_u16 c i).
Proof.
  intros Hw Hi. destruct (counts_octets _ Hw) as (q & a & n & r & Hu & ->).
  repeat (apply Forall_uncons in Hu as [? Hu]).
  destruct Hi as [-> | [-> | [-> | ->]]]; (unfold get_u16; cbn [c_inner];
    match goal with |- is_u16 (from_be_bytes ?s 0) =>
      first [change s with (to_be_bytes 2 q)|change s with (to_be_bytes 2 a)
            |change s with (to_be_bytes 2 n)|change s with (to_be_bytes 2 r)] end; by rewrite get_be).
Qed.

(** Incrementing a count adds one to it and leaves the other counts, or reports
    an overflow at 65535 and changes nothing; decrementing undoes it, and
    panics at zero. *)
Theorem count_inc_dec_correct c i :
  counts_wf c -> count_offset i ->
  (get_u16 c i < 65535 ->
     exists c', inc_count c i = (c', Ok ()) /\ counts_wf c' /\ get_u16 c' i = get_u16 c i + 1 /\
       (forall j, count_offset j -> j <> i -> get_u16 c' j = get_u16 c j) /\
       exists c2, dec_count c' i = Ret c2 /\ get_u16 c2 i = get_u16 c i) /\
  (get_u16 c i = 65535 -> inc_count c i = (c, Err CountOverflowErr)) /\
  (get_u16 c i = 0 -> dec_count c i = Panic).
Proof.
  intros Hw Hi. pose proof (get_count_u16 c i Hw Hi) as Hu. unfold inc_count, dec_count. split_and!.
  - intros Hlt. destruct (Z.ltb_spec (get_u16 c i + 1) (2 ^ 16)); [|lia].
    destruct (set_count_spec c i (get_u16 c i + 1) Hw Hi) as (H1 & H2 & H3); [ulia|].
    eexists; split_and!; [done..|]. rewrite H2.
    destruct (Z.ltb_spec 0 (get_u16 c i + 1)); [|ulia]. eexists; split; [done|].
    destruct (set_count_spec _ i (get_u16 c i + 1 - 1) H1 Hi) as (_ & -> & _); [ulia|lia].
  - intros ->. done.
  - intros ->. done.
Qed.

Lemma count_inc_dec_correct_witness :
  exists c', inc_count counts_new 2 = (c', Ok ()) /\ get_u16 c' 2 = 1.
Proof.
  destruct (count_inc_dec_correct counts_new 2) as ((c' & H1 & _ & H2 & _) & _ & _);
    [by split; [|by_decide]|by right; left|done|].
  by exists c'.
Defined.

(** ** Header section *)

(** A header section read from the octets it was written to is the same
    section. *)
Lemma section_roundtrip {P B} `{OctetsParserOk P} `{OctetsBuilderOk B} (hs : HeaderSection) (p : P) (b b' : B) t :
  length (hs_inner hs) = 12%nat -> section_compose hs b = (b', true) -> as_ref b = [] ->
  take (p_remaining p) (drop (p_pos p) (p_octets p)) = as_ref b' ++ t ->
  exists p', section_parse p = Ok (hs, p') /\ moved p p' (p_pos p + 12).
Proof.
  intros Hl Hc Hb Hp. apply (compose_slice_spec (hs_inner hs)) in Hc. rewrite Hb in Hc; simpl in Hc.
  rewrite Hc in Hp. destruct (parse_octets_prefix p _ _ Hp) as (q & Hq & Hm). rewrite Hl in *.
  exists q. unfold section_parse. rewrite Hq. simpl. split; [by destruct hs|done].
Qed.
