(* ===== verification/Compressor.v ===== *)
(** * Name compression ([src/src/base/message_builder.rs], [wire.rs])

    A [StaticCompressor] wraps the octets builder of a message and remembers up
    to 24 positions of names it has written.  A name it knows is replaced by a
    compression pointer.  The file proves that what it writes reads back, through
    the pointers, as the name it was given, as long as the message stays within
    the 16384 octets a pointer can address, and shows what happens beyond. *)

From S2P Require Import Prelude Octets Symbol Label Traits Name ParsedName.
From stdpp Require Import strings.
#[local] Open Scope Z_scope.

(** [entries] holds the first [len] of the 24 positions. *)
Record StaticCompressor (B : Type) := mkSC { sc_target : B; sc_entries : list nat }.
Arguments mkSC {B} sc_target sc_entries.
Arguments sc_target {B} _.
Arguments sc_entries {B} _.

Definition SC_ENTRIES : nat := 24.

(** [Iterator::eq] on the labels of a name and [Label::iter_slice].  An iterator
    that does not end is a [Panic] here. *)
Fixpoint iter_eq_slice (name : list (list Z)) (it : SliceLabelsIter) : outcome bool :=
  match slice_iter_next (S (length (sli_slice it))) it with
  | None => Panic
  | Some (None, _) => Ret (match name with [] => true | _ => false end)
  | Some (Some l, it') =>
      match name with
      | [] => Ret false
      | x :: name' => if label_eq x l then iter_eq_slice name' it' else Ret false
      end
  end.

(** [StaticCompressor::get]: the first known position of the name. *)
Fixpoint sc_find (s : list Z) (entries : list nat) (name : list (list Z)) : outcome (option nat) :=
  match entries with
  | [] => Ret None
  | pos :: entries' =>
      let! eq := iter_eq_slice name (label_iter_slice s pos) in
      if eq : bool then Ret (Some pos) else sc_find s entries' name
  end.

Section StaticCompressor.
Context {B : Type} `{OctetsBuilder B}.

Definition sc_new (target : B) : StaticCompressor B := mkSC target [].

Definition sc_slice (c : StaticCompressor B) : list Z := as_ref (sc_target c).

Definition sc_get (c : StaticCompressor B) (name : list (list Z)) : outcome (option nat) :=
  sc_find (sc_slice c) (sc_entries c) name.

Definition sc_insert (c : StaticCompressor B) (pos : nat) : StaticCompressor B * bool :=
  if (Z.of_nat pos <? 0xC000) && (length (sc_entries c) <? SC_ENTRIES)%nat
  then (mkSC (sc_target c) (sc_entries c ++ [pos]), true) else (c, false).

(** Composing into the compressor appends to its target. *)
Definition sc_compose (f : composer B) (c : StaticCompressor B) : StaticCompressor B * bool :=
  let '(b, ok) := f (sc_target c) in (mkSC b (sc_entries c), ok).

(** The [loop] of [append_compressed_name] on the labels left. *)
Fixpoint sc_append_labels (name : list (list Z)) (c : StaticCompressor B)
    : outcome (StaticCompressor B * bool) :=
  if match name with label :: _ => label_is_root label | [] => false end
  then Ret (sc_compose (label_compose label_root) c)
  else
    let! known := sc_get c name in
    match known with
    | Some pos => Ret (sc_compose (u16_compose (Z.lor (Z.of_nat pos) 0xC000)) c)
    | None =>
        let '(c1, inserted) := sc_insert c (length (sc_slice c)) in
        if negb inserted then Ret (sc_compose (compose_each label_compose name) c1)
        else match name with
        | [] => Panic
        | label :: name' =>
            let '(c2, ok) := sc_compose (label_compose label) c1 in
            if ok : bool then sc_append_labels name' c2 else Ret (c2, false)
        end
    end.

Definition sc_append_compressed_name {N I} `{ToLabelIter N I} (name : N) (c : StaticCompressor B)
    : outcome (StaticCompressor B * bool) :=
  let! ls := collect_loop name_fuel (iter_labels name) in sc_append_labels ls c.

(** [Truncate]: forgets the entries from the first one that is cut off. *)
Fixpoint keep_below (len : nat) (entries : list nat) : list nat :=
  match entries with
  | [] => []
  | e :: entries' => if (len <=? e)%nat then [] else e :: keep_below len entries'
  end.

Definition sc_truncate (c : StaticCompressor B) (len : nat) : StaticCompressor B :=
  mkSC (builder_truncate (sc_target c) len)
    (if Z.of_nat len <? 0xC000 then keep_below len (sc_entries c) else sc_entries c).

(** [OctetsBuilder], [AsRef], [AsMut] and [FreezeBuilder] pass through. *)
#[export] Instance sc_builder : OctetsBuilder (StaticCompressor B) := {|
  builder_empty := sc_new builder_empty;
  as_ref := sc_slice;
  append_slice := fun c s =>
    match append_slice (sc_target c) s with
    | Some b => Some (mkSC b (sc_entries c))
    | None => None
    end;
  set_octet := fun c i v => mkSC (set_octet (sc_target c) i v) (sc_entries c);
  builder_truncate := sc_truncate;
  freeze := fun c => freeze (sc_target c)
|}.
End StaticCompressor.

#[export] Instance sc_builder_ok {B} `{OctetsBuilderOk B} : OctetsBuilderOk (StaticCompressor B).
Proof.
  split; simpl; unfold sc_slice; simpl.
  - apply as_ref_empty.
  - intros b b' s. destruct (append_slice (sc_target b) s) eqn:E; [|done]. intros [= <-].
    by apply as_ref_append.
  - intros. by apply as_ref_set_octet.
  - intros. apply as_ref_truncate.
  - intros. apply freeze_as_ref.
Qed.

(** ** Reading names while they are written *)

Lemma at_labels_app s t pos ls e : at_labels s pos ls e -> at_labels (s ++ t) pos ls e.
Proof.
  induction 1 as [pos H0|pos l ls e H1 H2 H3 H4 IH|pos hi lo ls e H1 H2 H3 H4 H5 IH].
  - constructor. by apply lookup_app_l_Some.
  - assert (Hl : (pos + 1 + length l <= length s)%nat).
    { apply (f_equal length) in H3. rewrite length_take, length_drop in H3. lia. }
    apply at_label; auto; [by apply lookup_app_l_Some|].
    rewrite drop_app_le by lia. rewrite take_app_le; [done|]. rewrite length_drop. lia.
  - eapply at_pointer; eauto; by apply lookup_app_l_Some.
Qed.

(** Labels written out, followed by a name. *)
Lemma at_labels_written s pos part rest ms e :
  Forall nonroot part -> drop pos s = labels_wire part ++ rest ->
  at_labels s (pos + length (labels_wire part)) ms e -> at_labels s pos (part ++ ms) e.
Proof.
  intros Hp. revert pos. induction Hp as [|l part [Hl Hw] _ IH]; intros pos Hd Hat; simpl.
  { by rewrite Nat.add_0_r in Hat. }
  rewrite labels_wire_cons in *. simpl in Hd. rewrite <- app_assoc in Hd.
  assert (Hdl : drop (pos + 1) s = l ++ labels_wire part ++ rest).
  { rewrite <- drop_drop, Hd. done. }
  apply at_label; [|done| |].
  - by rewrite <- (Nat.add_0_r pos), <- lookup_drop, Hd.
  - by rewrite Hdl, take_app_length.
  - apply IH.
    + rewrite <- drop_drop, Hdl. by rewrite drop_app_length.
    + simpl length in Hat. rewrite length_app in Hat.
      by replace (pos + 1 + length l + length (labels_wire part))%nat
        with (pos + S (length l + length (labels_wire part)))%nat by lia.
Qed.

Lemma pointer_pos_split h c :
  0xC0 <= h <= 0xFF -> is_u8 c -> Z.of_nat (pointer_pos h c) = (h - 192) * 2 ^ 8 + c.
Proof.
  intros Hh Hc. unfold pointer_pos. rewrite Z.lor_comm.
  assert (E : Z.land h 0x3F = h - 192).
  { change 0x3F with (Z.ones 6). rewrite Z.land_ones by lia. change (2 ^ 6) with 64.
    rewrite <- (Z.mod_add h (-3)) by lia. apply Z.mod_small. lia. }
  rewrite E, lor_shiftl_add by ulia. rewrite Z2Nat.id by ulia. done.
Qed.

(** [SliceLabelsIter] yields the labels of a name. *)
Lemma slice_iter_loop_at s pos ls0 e l ls fuel :
  wf_octets s -> at_labels s pos ls0 e -> ls0 = l :: ls -> (pos < fuel)%nat ->
  exists start, slice_iter_loop fuel (mkSliceIter s (Z.of_nat pos)) = Some (Some l, mkSliceIter s start) /\
    ((l = [] /\ ls = [] /\ start = USIZE_MAX) \/
     (exists p e', start = Z.of_nat p /\ at_labels s p ls e')).
Proof.
  intros Hw Hat. revert fuel l ls.
  induction Hat as [pos H0|pos m ms e H1 H2 H3 H4 IH|pos hi lo ms e H1 H2 H3 H4 H5 IH];
    intros fuel l ls E Hf; (destruct fuel as [|fuel]; [lia|]); cbn [slice_iter_loop sli_slice sli_start];
    rewrite Nat2Z.id; simplify_eq.
  - rewrite (drop_S _ _ _ H0). change (0 :: ?t) with (label_wire [] ++ t).
    rewrite label_split_from_wire by (unfold LABEL_MAX_LEN; simpl; lia). cbv iota beta. simpl.
    exists USIZE_MAX. split; [done|]. by left.
  - assert (Hd : drop pos s = label_wire l ++ drop (pos + 1 + length l) s).
    { rewrite (drop_S _ _ _ H1). unfold label_wire. simpl. f_equal.
      rewrite <- Nat.add_1_r, <- (take_drop (length l) (drop (pos + 1) s)), H3, drop_drop. done. }
    rewrite Hd, label_split_from_wire by lia. cbv iota beta.
    unfold label_is_root. destruct (Nat.eqb_spec (length l) 0); [lia|].
    eexists; split; [done|]. right. exists (pos + 1 + length l)%nat, e. split; [unfold zlen; lia|done].
  - pose proof (wf_octets_lookup _ _ _ Hw H3) as Hlo. pose proof (wf_octets_lookup _ _ _ Hw H1) as Hhi.
    rewrite (proj2 (label_split_from_pointer (drop pos s) (Z.of_nat (pointer_pos hi lo))
      (wf_octets_drop _ _ Hw))).
    2: { exists hi, lo, (drop (pos + 2) s). rewrite pointer_pos_split by done. split_and!; [|lia|done].
         rewrite Nat.add_1_r in H3. rewrite (drop_S _ _ _ H1), (drop_S _ _ _ H3).
         by replace (pos + 2)%nat with (S (S pos)) by lia. }
    cbv iota beta. destruct (Z.ltb_spec (Z.of_nat pos) (Z.of_nat (pointer_pos hi lo))); [lia|].
    apply IH; [done|lia].
Qed.

(** The labels [SliceLabelsIter] yields from an index on. *)
Inductive reads (s : list Z) : Z -> list (list Z) -> Prop :=
  | reads_end start : zlen s <= start -> reads s start []
  | reads_label pos l start ls :
      (pos < length s)%nat ->
      slice_iter_loop (S (length s)) (mkSliceIter s (Z.of_nat pos)) = Some (Some l, mkSliceIter s start) ->
      reads s start ls -> reads s (Z.of_nat pos) (l :: ls).

Lemma iter_eq_slice_reads s start ls name :
  reads s start ls ->
  iter_eq_slice name (mkSliceIter s start) = Ret (bool_decide (canon name = canon ls)).
Proof.
  intros Hr. revert name. induction Hr as [start Hs|pos l start ls Hp Hl _ IH]; intros name;
    destruct name as [|x name]; cbn [iter_eq_slice]; unfold slice_iter_next; cbn [sli_slice sli_start].
  - destruct (Z.leb_spec (zlen s) start); [|lia]. done.
  - destruct (Z.leb_spec (zlen s) start); [|lia]. by rewrite bool_decide_false.
  - destruct (Z.leb_spec (zlen s) (Z.of_nat pos)); [unfold zlen in *; lia|]. rewrite Hl.
    by rewrite bool_decide_false.
  - destruct (Z.leb_spec (zlen s) (Z.of_nat pos)); [unfold zlen in *; lia|]. rewrite Hl.
    simpl map. destruct (label_eq x l) eqn:E.
    + rewrite IH. f_equal. apply bool_decide_ext. apply label_eq_spec in E. rewrite E.
      split; [by intros ->|congruence].
    + rewrite bool_decide_false; [done|]. intros [= Hx _]. apply label_eq_spec in Hx. congruence.
Qed.

Lemma at_labels_lt s pos ls e : at_labels s pos ls e -> (pos < length s)%nat.
Proof. destruct 1; by eapply lookup_lt_Some. Qed.

Lemma at_labels_reads s pos ls e :
  wf_octets s -> zlen s <= USIZE_MAX -> at_labels s pos ls e -> reads s (Z.of_nat pos) ls.
Proof.
  intros Hw Hlen. revert pos e. induction ls as [|l ls IH]; intros pos e Hat.
  { apply at_labels_wire_pos in Hat. simpl in Hat. lia. }
  pose proof (at_labels_lt _ _ _ _ Hat).
  destruct (slice_iter_loop_at s pos _ e l ls (S (length s)) Hw Hat eq_refl) as (start & E & Hn); [lia|].
  econstructor; [done|exact E|]. destruct Hn as [(-> & -> & ->)|(p & e' & -> & Hat')].
  - by constructor.
  - by eapply IH.
Qed.

(** Labels written so far, up to the end of the octets. *)
Lemma written_reads s pos part :
  Forall nonroot part -> (pos <= length s)%nat -> drop pos s = labels_wire part ->
  reads s (Z.of_nat pos) part.
Proof.
  intros Hp. revert pos. induction Hp as [|l part [Hl Hw] _ IH]; intros pos Hle Hd.
  { constructor. apply (f_equal length) in Hd. rewrite length_drop in Hd. unfold zlen. simpl in Hd. lia. }
  rewrite labels_wire_cons in Hd.
  assert (Hlen : (pos + S (length l + length (labels_wire part)) = length s)%nat).
  { apply (f_equal length) in Hd. rewrite length_drop in Hd. simpl in Hd. rewrite length_app in Hd. lia. }
  apply (reads_label _ pos l (Z.of_nat (pos + S (length l)))); [lia| |].
  - cbn [slice_iter_loop sli_slice sli_start]. rewrite Nat2Z.id, Hd.
    change (zlen l :: l ++ ?x) with (label_wire l ++ x). rewrite label_split_from_wire by lia. cbv iota beta.
    unfold label_is_root. destruct (Nat.eqb_spec (length l) 0); [lia|]. do 3 f_equal. unfold zlen. lia.
  - apply IH; [lia|]. rewrite <- drop_drop, Hd. simpl. by rewrite drop_app_length.
Qed.

(** ** The compressor is correct *)

Lemma pointer_octets pos :
  Z.of_nat pos < 0x4000 ->
  exists hi lo, to_be_bytes 2 (Z.lor (Z.of_nat pos) 0xC000) = [hi; lo] /\ 0xC0 <= hi <= 0xFF /\
    is_u8 hi /\ is_u8 lo /\ pointer_pos hi lo = pos.
Proof.
  intros Hp.
  assert (E : Z.lor (Z.of_nat pos) 0xC000 = 0xC000 + Z.of_nat pos).
  { rewrite Z.lor_comm. change 0xC000 with (Z.shiftl 3 14). rewrite lor_shiftl_add by lia.
    rewrite Z.shiftl_mul_pow2; lia. }
  rewrite E. change (to_be_bytes 2 ?v) with [v / 2 ^ 8 mod 2 ^ 8; v mod 2 ^ 8].
  pose proof (Z.mod_pos_bound (0xC000 + Z.of_nat pos) (2 ^ 8) ltac:(lia)).
  assert (Hhi : 0xC0 <= (0xC000 + Z.of_nat pos) / 2 ^ 8 < 0x100).
  { split; [apply Z.div_le_lower_bound; lia|apply Z.div_lt_upper_bound; lia]. }
  rewrite (Z.mod_small (_ / _)) by lia.
  eexists _, _; split_and!; [done|lia|lia|unfold is_u8; lia|unfold is_u8; lia|].
  apply Nat2Z.inj. rewrite pointer_pos_split; [|lia|unfold is_u8; lia].
  pose proof (Z.div_mod (0xC000 + Z.of_nat pos) (2 ^ 8) ltac:(lia)). lia.
Qed.

Lemma at_pointer_written s pos ms e hi lo :
  at_labels s pos ms e -> 0xC0 <= hi <= 0xFF -> pointer_pos hi lo = pos ->
  at_labels (s ++ [hi; lo]) (length s) ms (length (s ++ [hi; lo])).
Proof.
  intros Hat Hhi <-. rewrite length_app. simpl length.
  eapply (at_pointer _ (length s) hi lo); [by rewrite lookup_app_r, Nat.sub_diag|done| | |].
  - rewrite lookup_app_r by lia. by replace (length s + 1 - length s)%nat with 1%nat by lia.
  - by eapply at_labels_lt.
  - by apply at_labels_app.
Qed.

Section CompressorCorrect.
Context {B : Type} `{OctetsBuilderOk B}.

(** All entries are positions of names. *)
Definition sc_inv (c : StaticCompressor B) : Prop :=
  wf_octets (sc_slice c) /\
  Forall (fun pos => exists ls e, at_labels (sc_slice c) pos ls e) (sc_entries c).

(** A position at which a name is being written: labels to the end. *)
Definition writing (s : list Z) (pos : nat) : Prop :=
  exists part, part <> [] /\ Forall nonroot part /\ (pos <= length s)%nat /\ drop pos s = labels_wire part.

Lemma abs_not_rel name part :
  abs_labels name -> Forall nonroot part -> canon name <> canon part.
Proof.
  intros (ls0 & -> & _) Hp E. rewrite map_app in E.
  assert (Hin : ([] : list Z) ∈ canon part).
  { rewrite <- E. apply elem_of_app. right. by apply list_elem_of_singleton. }
  apply list_elem_of_fmap in Hin as (l & El & Hl).
  pose proof (proj1 (list.Forall_forall _ _) Hp l Hl) as [[Hlen _] _].
  unfold label_make_canonical in El. destruct l; [simpl in Hlen; lia|done].
Qed.

(** Looking up an absolute name: only finished names match. *)
Lemma sc_find_spec s entries name :
  wf_octets s -> zlen s <= USIZE_MAX -> abs_labels name ->
  Forall (fun pos => (exists ls e, at_labels s pos ls e) \/ writing s pos) entries ->
  exists r, sc_find s entries name = Ret r /\
    forall pos, r = Some pos -> pos ∈ entries /\ exists ms e, at_labels s pos ms e /\ canon name = canon ms.
Proof.
  intros Hw Hlen Ha. induction 1 as [|pos entries Hp _ IH]; cbn [sc_find]; [by eexists|].
  assert (Hreads : exists ls, reads s (Z.of_nat pos) ls /\
    ((exists e, at_labels s pos ls e) \/ Forall nonroot ls)).
  { destruct Hp as [(ls & e & Hat)|(part & _ & Hn & Hle & Hd)].
    - exists ls. split; [by eapply at_labels_reads|]. left. by exists e.
    - exists part. split; [by apply written_reads|by right]. }
  destruct Hreads as (ls & Hr & Hor). unfold label_iter_slice. rewrite (iter_eq_slice_reads _ _ _ name Hr).
  case_bool_decide as E.
  - eexists; split; [done|]. intros p [= <-]. split; [left|].
    destruct Hor as [(e & Hat)|Hn]; [by exists ls, e|]. by apply abs_not_rel in E.
  - destruct IH as (r & -> & Hr'). eexists; split; [done|]. intros p Hp'.
    destruct (Hr' p Hp') as [Hin Hex]. split; [by right|done].
Qed.

Definition known (s : list Z) (pos : nat) : Prop :=
  (exists ls e, at_labels s pos ls e) \/ writing s pos.

Lemma known_app_label s pos l : nonroot l -> known s pos -> known (s ++ label_wire l) pos.
Proof.
  intros Hl [(ls & e & Hat)|(part & Hne & Hp & Hle & Hd)].
  - left. exists ls, e. by apply at_labels_app.
  - right. exists (part ++ [l]). split_and!; [by destruct part|apply Forall_app; auto| |].
    + rewrite length_app. lia.
    + rewrite drop_app_le, Hd, labels_wire_app by done. unfold label_wire, labels_wire; simpl.
      by rewrite app_nil_r.
Qed.

Lemma writing_new s l : nonroot l -> writing (s ++ label_wire l) (length s).
Proof.
  intros Hl. exists [l]. split_and!; [done|auto|rewrite length_app; lia|].
  rewrite drop_app_length. unfold label_wire, labels_wire; simpl. by rewrite app_nil_r.
Qed.

(** When the name is complete, so are all positions in it. *)
Lemma known_done s t pos ms e :
  known s pos -> at_labels (s ++ t) (length s) ms e -> exists ls e, at_labels (s ++ t) pos ls e.
Proof.
  intros [(ls & e' & Hat)|(part & _ & Hp & Hle & Hd)] Hms.
  - exists ls, e'. by apply at_labels_app.
  - exists (part ++ ms), e. apply (at_labels_written _ _ _ t); [done|by rewrite drop_app_le, Hd|].
    replace (pos + length (labels_wire part))%nat with (length s); [done|].
    apply (f_equal length) in Hd. rewrite length_drop in Hd. lia.
Qed.

(** What [append_compressed_name] promises. *)
Definition compressed (c c' : StaticCompressor B) (ok : bool) (name : list (list Z)) : Prop :=
  exists t new, sc_slice c' = sc_slice c ++ t /\ sc_entries c' = sc_entries c ++ new /\
    Forall (fun p => (length (sc_slice c) <= p)%nat) new /\
    (ok = true -> zlen (sc_slice c') <= 0x4000 ->
     exists ms, canon ms = canon name /\
       at_labels (sc_slice c') (length (sc_slice c)) ms (length (sc_slice c')) /\ sc_inv c').

Lemma compressed_written (c : StaticCompressor B) b ok f name w ms :
  f (sc_target c) = (b, ok) -> Composes f w -> wf_octets (sc_slice c) -> wf_octets w ->
  Forall (known (sc_slice c)) (sc_entries c) -> canon ms = canon name ->
  (zlen (sc_slice c ++ w) <= 0x4000 ->
   at_labels (sc_slice c ++ w) (length (sc_slice c)) ms (length (sc_slice c ++ w))) ->
  compressed c (mkSC b (sc_entries c)) ok name.
Proof.
  intros Ef Hc Hw Hww Hk Hcan Hat. apply Hc in Ef. unfold compressed, sc_slice in *; simpl in *.
  destruct ok.
  - exists w, []. rewrite app_nil_r. split_and!; [done..|]. intros _. rewrite Ef. intros Hlen.
    exists ms. specialize (Hat Hlen). split_and!; [done..|]. split; unfold sc_slice; simpl; rewrite Ef.
    + by apply wf_octets_app.
    + eapply Forall_impl; [exact Hk|]. intros pos Hp. by eapply known_done.
  - destruct Ef as (p & _ & ->). exists p, []. rewrite app_nil_r. by split_and!.
Qed.

Lemma label_wire_wf l : (length l <= LABEL_MAX_LEN)%nat -> wf_octets l -> wf_octets (label_wire l).
Proof. intros Hl Hw. constructor; [|done]. unfold LABEL_MAX_LEN in Hl. ulia. Qed.

(** Writing the root label. *)
Lemma sc_root_compressed (c c' : StaticCompressor B) ok :
  sc_compose (label_compose label_root) c = (c', ok) ->
  wf_octets (sc_slice c) -> Forall (known (sc_slice c)) (sc_entries c) -> compressed c c' ok [[]].
Proof.
  unfold sc_compose. destruct (label_compose label_root (sc_target c)) as [b ok'] eqn:E.
  intros [= <- <-] Hw Hk.
  eapply (compressed_written _ _ _ _ _ (label_wire label_root) [[]]); [exact E|..]; try done.
  - apply label_compose_spec. unfold LABEL_MAX_LEN; simpl; lia.
  - by_decide.
  - intros _. rewrite length_app. apply at_root. by rewrite lookup_app_r, Nat.sub_diag.
Qed.

(** Writing a pointer to a known name. *)
Lemma sc_pointer_compressed (c c' : StaticCompressor B) ok pos ms e name :
  sc_compose (u16_compose (Z.lor (Z.of_nat pos) 0xC000)) c = (c', ok) ->
  wf_octets (sc_slice c) -> Forall (known (sc_slice c)) (sc_entries c) ->
  at_labels (sc_slice c) pos ms e -> canon name = canon ms -> compressed c c' ok name.
Proof.
  unfold sc_compose. destruct (u16_compose _ (sc_target c)) as [b ok'] eqn:E.
  intros [= <- <-] Hw Hk Hat Hcan.
  eapply (compressed_written _ _ _ _ _ _ ms); [exact E|apply compose_slice_spec|done| |done|done|].
  - apply to_be_bytes_wf.
  - intros Hle. pose proof (at_labels_lt _ _ _ _ Hat). unfold zlen in Hle. rewrite length_app in Hle.
    destruct (pointer_octets pos) as (hi & lo & -> & Hhi & _ & _ & Hpp); [lia|].
    by eapply at_pointer_written.
Qed.

(** Writing all labels that are left. *)
Lemma sc_rest_compressed (c c' : StaticCompressor B) ok name :
  sc_compose (compose_each label_compose name) c = (c', ok) ->
  wf_octets (sc_slice c) -> Forall (known (sc_slice c)) (sc_entries c) -> abs_labels name ->
  compressed c c' ok name.
Proof.
  unfold sc_compose. destruct (compose_each label_compose name (sc_target c)) as [b ok'] eqn:E.
  intros [= <- <-] Hw Hk Ha. pose proof (abs_labels_good _ Ha) as Hg.
  eapply (compressed_written _ _ _ _ _ (labels_wire name) name); [exact E|..]; try done.
  - apply compose_each_spec. intros x Hx. apply label_compose_spec.
    exact (proj1 (proj1 (list.Forall_forall _ _) Hg x Hx)).
  - by apply labels_wire_wf.
  - intros _. destruct Ha as (ls0 & -> & Hn). rewrite labels_wire_app.
    apply (at_labels_written _ _ ls0 [0]); [done|by rewrite drop_app_length|].
    rewrite !length_app, Nat.add_assoc. apply at_root.
    rewrite app_assoc, lookup_app_r by (rewrite length_app; lia). rewrite length_app.
    by rewrite Nat.sub_diag.
Qed.

(** The rest of a name, after its first label was written and remembered. *)
Lemma sc_label_compressed (c c2 c' : StaticCompressor B) ok l name :
  nonroot l -> sc_slice c2 = sc_slice c ++ label_wire l ->
  sc_entries c2 = sc_entries c ++ [length (sc_slice c)] ->
  compressed c2 c' ok name -> compressed c c' ok (l :: name).
Proof.
  intros Hl Es Ee (t & new & Hs & Hent & Hnew & Hdone). rewrite Es, Ee, length_app in *.
  exists (label_wire l ++ t), (length (sc_slice c) :: new).
  split_and!; [by rewrite Hs, <- app_assoc|by rewrite Hent, <- app_assoc| |].
  { constructor; [lia|]. eapply Forall_impl; [exact Hnew|]. simpl; intros; lia. }
  intros Hok Hle. destruct (Hdone Hok Hle) as (ms & Hcan & Hat & Hinv).
  exists (l :: ms). split_and!; [by simpl; rewrite Hcan| |done].
  assert (Hw : labels_wire [l] = label_wire l) by (unfold labels_wire; simpl; by rewrite app_nil_r).
  apply (at_labels_written _ _ [l] t); rewrite ?Hw; [by constructor; [|constructor]| |done].
  by rewrite Hs, <- app_assoc, drop_app_length.
Qed.

Lemma sc_append_labels_spec name (c : StaticCompressor B) :
  abs_labels name -> wf_octets (sc_slice c) -> Forall (known (sc_slice c)) (sc_entries c) ->
  zlen (sc_slice c) + zlen (labels_wire name) <= USIZE_MAX ->
  exists c' ok, sc_append_labels name c = Ret (c', ok) /\ compressed c c' ok name.
Proof.
  revert c. induction name as [|l name IH]; intros c Ha Hw Hk Hlen.
  { by apply abs_labels_nonnil in Ha. }
  cbn [sc_append_labels]. destruct (label_is_root l) eqn:Er.
  { apply label_is_root_spec in Er as ->.
    apply abs_labels_cons in Ha as [[_ ->]|[[[? _] _] _]]; [|simpl in *; lia].
    destruct (sc_compose _ c) as [c' ok] eqn:E. eexists _, _; split; [done|]. by apply sc_root_compressed. }
  rewrite zlen_labels_wire_cons in Hlen.
  destruct (sc_find_spec (sc_slice c) (sc_entries c) (l :: name)) as (r & Hfind & Hr);
    [done|unfold zlen in *; lia|done|done|].
  unfold sc_get. rewrite Hfind. destruct r as [pos|].
  { destruct (Hr pos eq_refl) as (Hin & ms & e & Hat & Hcan).
    destruct (sc_compose _ c) as [c' ok] eqn:E. eexists _, _; split; [done|].
    by eapply sc_pointer_compressed. }
  unfold sc_insert. destruct (_ && _); cbn [negb].
  2: { destruct (sc_compose _ c) as [c' ok] eqn:E. eexists _, _; split; [done|]. by apply sc_rest_compressed. }
  apply abs_labels_cons in Ha as [[-> _]|[Hl Ha]]; [done|]. pose proof (nonroot_good _ Hl) as [Hll Hlw].
  unfold sc_compose; cbn [sc_target sc_entries].
  destruct (label_compose l (sc_target c)) as [b ok] eqn:E. apply (label_compose_spec l Hll) in E.
  destruct ok.
  2: { destruct E as (p & _ & E). eexists _, _; split; [done|]. exists p, [length (sc_slice c)].
       split_and!; [done|done|by constructor; [lia|constructor]|done]. }
  set (c2 := mkSC b (sc_entries c ++ [length (sc_slice c)])).
  assert (Es : sc_slice c2 = sc_slice c ++ label_wire l) by done.
  destruct (IH c2) as (c' & ok & Eapp & Hc); [done|..].
  - rewrite Es. apply wf_octets_app. split; [done|by apply label_wire_wf].
  - rewrite Es. apply Forall_app. split; [|constructor; [right; by apply writing_new|constructor]].
    eapply Forall_impl; [exact Hk|]. intros; by apply known_app_label.
  - rewrite Es. unfold zlen in *. rewrite length_app. unfold label_wire; simpl. lia.
  - exists c', ok. split; [done|]. by apply (sc_label_compressed c c2).
Qed.

Context {N I : Type} `{ToLabelIter N I} `{!LabelIterOk I}.

(** An absolute name of at most 255 octets. *)
Definition is_name (name : N) (ls : list (list Z)) : Prop :=
  denotes name ls /\ (length ls < name_fuel)%nat /\ abs_labels ls /\ (length (labels_wire ls) <= 255)%nat.

(** One use of the compressor and whether it succeeds: octets or a name are
    appended. *)
Inductive sc_does (c : StaticCompressor B) : StaticCompressor B -> bool -> Prop :=
  | does_octets s c' ok :
      wf_octets s -> sc_compose (compose_slice s) c = (c', ok) -> sc_does c c' ok
  | does_name name ls c' ok :
      is_name name ls -> sc_append_compressed_name name c = Ret (c', ok) -> sc_does c c' ok.

(** What became of [c0] by a series of uses, of which only the last may have failed. *)
Inductive sc_since (c0 : StaticCompressor B) : StaticCompressor B -> bool -> Prop :=
  | since_here : sc_since c0 c0 true
  | since_use c c' ok :
      sc_since c0 c true -> zlen (sc_slice c) <= 0x4000 -> sc_does c c' ok -> sc_since c0 c' ok.

(** The states of a compressor in use, with messages of at most 16384 octets:
    it is new, or it was used with success, or the message was truncated to
    where it ended at some earlier point. *)
Inductive sc_reach : StaticCompressor B -> Prop :=
  | reach_new t : wf_octets (as_ref t) -> zlen (as_ref t) <= 0x4000 -> sc_reach (sc_new t)
  | reach_use c c' : sc_reach c -> sc_does c c' true -> zlen (sc_slice c') <= 0x4000 -> sc_reach c'
  | reach_back c0 c ok : sc_reach c0 -> sc_since c0 c ok -> sc_reach (sc_truncate c (length (sc_slice c0))).

(** What was added since. *)
Definition grown (c0 c : StaticCompressor B) : Prop :=
  exists t new, sc_slice c = sc_slice c0 ++ t /\ sc_entries c = sc_entries c0 ++ new /\
    Forall (fun p => (length (sc_slice c0) <= p)%nat) new.

Lemma compressed_grown (c c' : StaticCompressor B) ok name : compressed c c' ok name -> grown c c'.
Proof. intros (t & new & ? & ? & ? & _). by exists t, new. Qed.

Lemma grown_trans (c0 c c' : StaticCompressor B) : grown c0 c -> grown c c' -> grown c0 c'.
Proof.
  intros (t & new & Hs & He & Hn) (t' & new' & Hs' & He' & Hn').
  exists (t ++ t'), (new ++ new'). rewrite Hs', He', Hs, He, !app_assoc. split_and!; [done..|].
  apply Forall_app. split; [done|]. eapply Forall_impl; [exact Hn'|]. intros p Hp. rewrite Hs, length_app in Hp. lia.
Qed.

Lemma sc_append_spec (name : N) ls (c : StaticCompressor B) :
  is_name name ls -> sc_inv c -> zlen (sc_slice c) <= 0x4000 ->
  exists c' ok, sc_append_compressed_name name c = Ret (c', ok) /\ compressed c c' ok ls.
Proof.
  intros ([Rn _] & Hf & Ha & Hlen) [Hw Hinv] Hs. unfold sc_append_compressed_name.
  rewrite (collect_loop_spec _ _ _ Rn Hf). apply sc_append_labels_spec; [done|done| |].
  - eapply Forall_impl; [exact Hinv|]. intros pos Hp. by left.
  - unfold USIZE_MAX, zlen in *. lia.
Qed.

Lemma sc_does_spec (c c' : StaticCompressor B) ok :
  sc_inv c -> zlen (sc_slice c) <= 0x4000 -> sc_does c c' ok ->
  grown c c' /\ (ok = true -> zlen (sc_slice c') <= 0x4000 -> sc_inv c').
Proof.
  intros Hinv Hs [s c1 ok1 Hw E|name ls c1 ok1 Hn E].
  - unfold sc_compose in E. destruct (compose_slice s (sc_target c)) as [b okb] eqn:Eb.
    injection E as <- <-. apply compose_slice_spec in Eb. destruct okb.
    + split; [exists s, []; by rewrite app_nil_r|]. intros _ _. destruct Hinv as [Hwf Hent].
      unfold sc_inv, sc_slice in *; simpl. rewrite Eb. split; [by apply wf_octets_app|].
      eapply Forall_impl; [exact Hent|]. intros pos (ls & e & Hat). exists ls, e. by apply at_labels_app.
    + destruct Eb as (p & _ & Eb). split; [|done]. exists p, []. by rewrite app_nil_r.
  - destruct (sc_append_spec name ls c Hn Hinv Hs) as (c2 & ok2 & E2 & Hc). rewrite E in E2. simplify_eq.
    split; [by eapply compressed_grown|]. intros Hok Hle. destruct Hc as (t & new & _ & _ & _ & Hd).
    by destruct (Hd Hok Hle) as (ms & _ & _ & ?).
Qed.

Lemma sc_since_spec (c0 c : StaticCompressor B) ok :
  sc_inv c0 -> sc_since c0 c ok ->
  grown c0 c /\ (ok = true -> zlen (sc_slice c) <= 0x4000 -> sc_inv c).
Proof.
  intros Hinv. induction 1 as [|c c' ok _ [IH1 IH2] Hle Hd].
  - split; [|done]. exists [], []. by rewrite !app_nil_r.
  - apply sc_does_spec in Hd as [Hg Hi]; [|auto|done]. split; [by eapply grown_trans|done].
Qed.

Lemma sc_entries_below (c : StaticCompressor B) :
  sc_inv c -> Forall (fun p => (p < length (sc_slice c))%nat) (sc_entries c).
Proof.
  intros [_ Hinv]. eapply Forall_impl; [exact Hinv|]. intros p (ls & e & Hat). by eapply at_labels_lt.
Qed.

(** Truncating to where the message ended undoes what was added since. *)
Lemma sc_truncate_grown (c0 c : StaticCompressor B) :
  sc_inv c0 -> zlen (sc_slice c0) <= 0x4000 -> grown c0 c ->
  sc_slice (sc_truncate c (length (sc_slice c0))) = sc_slice c0 /\
  sc_entries (sc_truncate c (length (sc_slice c0))) = sc_entries c0.
Proof.
  intros Hinv Hlen (t & new & Hs & Hent & Hnew). pose proof (sc_entries_below _ Hinv) as Hbelow.
  unfold sc_truncate; simpl. split.
  - unfold sc_slice in *; simpl. by rewrite as_ref_truncate, Hs, take_app_length.
  - destruct (Z.ltb_spec (Z.of_nat (length (sc_slice c0))) 0xC000); [|unfold zlen in *; lia].
    rewrite Hent. clear -Hbelow Hnew. induction Hbelow as [|p es Hp _ IH]; simpl.
    + destruct Hnew as [|p new Hp _]; simpl; [done|].
      by destruct (Nat.leb_spec (length (sc_slice c0)) p); [|lia].
    + destruct (Nat.leb_spec (length (sc_slice c0)) p); [lia|]. by rewrite IH.
Qed.

Lemma sc_reach_inv (c : StaticCompressor B) : sc_reach c -> sc_inv c /\ zlen (sc_slice c) <= 0x4000.
Proof.
  induction 1 as [t Hw Hl|c c' _ [IH1 IH2] Hd Hle|c0 c ok _ [IH1 IH2] Hs].
  - split; [|done]. by split.
  - apply sc_does_spec in Hd as [_ Hd]; auto.
  - apply sc_since_spec in Hs as [Hg _]; [|done].
    destruct (sc_truncate_grown _ _ IH1 IH2 Hg) as [Es Ee]. unfold sc_inv. rewrite Es, Ee. done.
Qed.

(** A compressor that was made for an octets builder and has since been used to
    append octets and names, and to truncate the message to where it ended at
    some earlier point, on messages of at most 16384 octets: appending a name to
    it never panics or loops.  When it succeeds within that size, reading the
    message from where the name was written gives, through the compression
    pointers and up to the end of the message, the name itself up to the case of
    letters.  In any case what was there before is unchanged, and truncating the
    message to where it ended restores the compressor: its octets and the
    positions it remembers.  (C5) *)
Theorem static_compressor_correct (name : N) ls (c : StaticCompressor B) :
  sc_reach c -> is_name name ls ->
  exists c' ok t, sc_append_compressed_name name c = Ret (c', ok) /\
    sc_slice c' = sc_slice c ++ t /\
    (ok = true -> zlen (sc_slice c') <= 0x4000 ->
     exists ms, canon ms = canon ls /\
       at_labels (sc_slice c') (length (sc_slice c)) ms (length (sc_slice c'))) /\
    sc_slice (sc_truncate c' (length (sc_slice c))) = sc_slice c /\
    sc_entries (sc_truncate c' (length (sc_slice c))) = sc_entries c.
Proof.
  intros Hr Hn. apply sc_reach_inv in Hr as [Hinv Hlen].
  destruct (sc_append_spec name ls c Hn Hinv Hlen) as (c' & ok & E & Hc).
  pose proof (compressed_grown _ _ _ _ Hc) as Hg. destruct Hc as (t & new & Hs & _ & _ & Hd).
  exists c', ok, t. split_and!; [done|done| |by apply sc_truncate_grown..].
  intros Hok Hle. destruct (Hd Hok Hle) as (ms & ? & ? & _). by exists ms.
Qed.
End CompressorCorrect.

Lemma ex_ba_is_name : is_name ex_ba [[98]; [97]; []].
Proof.
  split_and!; [exact (wf_abs_denotes _ _ ex_ba_wf)|exact (wf_abs_fuel _ _ ex_ba_wf)|exact (proj1 ex_ba_wf)|by_decide].
Qed.

(** [b.a.] has been written at 0; it is appended again, as a pointer. *)
Lemma static_compressor_correct_witness :
  exists c' ok t, sc_append_compressed_name ex_ba (mkSC ([1; 98; 1; 97; 0] : list Z) [0; 2]%nat) = Ret (c', ok) /\
    sc_slice c' = [1; 98; 1; 97; 0] ++ t /\
    (ok = true -> zlen (sc_slice c') <= 0x4000 ->
     exists ms, canon ms = [[98]; [97]; []] /\ at_labels (sc_slice c') 5 ms (length (sc_slice c'))).
Proof.
  destruct (static_compressor_correct (B:=list Z) ex_ba [[98]; [97]; []] (mkSC ([1; 98; 1; 97; 0] : list Z) [0; 2]%nat))
    as (c' & ok & t & H1 & H2 & H3 & _).
  - apply (reach_use (sc_new [])); [by apply reach_new; by_decide| |by_decide].
    apply (does_name _ ex_ba [[98]; [97]; []]); [exact ex_ba_is_name|reflexivity].
  - exact ex_ba_is_name.
  - by exists c', ok, t.
Defined.

(** The 14 bits of a pointer. *)
Lemma lor_pointer p : 0 <= p < 0xC000 -> Z.lor p 0xC000 = 0xC000 + p mod 0x4000.
Proof.
  intros Hp. pose proof (Z.div_mod p 0x4000 ltac:(lia)) as Hd.
  pose proof (Z.mod_pos_bound p 0x4000 ltac:(lia)) as Hr.
  assert (Hq : 0 <= p / 0x4000 < 3) by (split; [apply Z.div_pos; lia|apply Z.div_lt_upper_bound; lia]).
  assert (E : p = Z.lor (Z.shiftl (p / 0x4000) 14) (p mod 0x4000)).
  { rewrite lor_shiftl_add by lia. change (2 ^ 14) with 0x4000. lia. }
  rewrite E at 1. rewrite <- Z.lor_assoc, (Z.lor_comm (p mod 0x4000)), Z.lor_assoc.
  change 0xC000 with (Z.shiftl 3 14) at 1. rewrite <- Z.shiftl_lor.
  replace (Z.lor (p / 0x4000) 3) with 3; [|].
  - by rewrite lor_shiftl_add by lia.
  - assert (p / 0x4000 = 0 \/ p / 0x4000 = 1 \/ p / 0x4000 = 2) as [-> | [-> | ->]] by lia; done.
Qed.

(** A pointer has 14 bits, but the compressor remembers positions up to 0xBFFF:
    a name it knows at or above 0x4000 is replaced by a pointer to some other
    place of the message. *)
Theorem compressor_pointer_wraps {B} `{OctetsBuilderOk B} `{!InfallibleBuilder B}
    (c : StaticCompressor B) name pos :
  sc_get c name = Ret (Some pos) -> match name with l :: _ => label_is_root l | [] => false end = false ->
  0x4000 <= Z.of_nat pos < 0xC000 ->
  exists c' hi lo, sc_append_labels name c = Ret (c', true) /\
    sc_slice c' = sc_slice c ++ [hi; lo] /\ Z.of_nat (pointer_pos hi lo) = Z.of_nat pos mod 0x4000 /\
    pointer_pos hi lo <> pos.
Proof.
  intros Hget Hroot Hpos.
  pose proof (Z.mod_pos_bound (Z.of_nat pos) 0x4000 ltac:(lia)) as Hr.
  destruct (pointer_octets (Z.to_nat (Z.of_nat pos mod 0x4000))) as (hi & lo & Eb & _ & _ & _ & Hpp); [lia|].
  rewrite Z2Nat.id in Eb by lia.
  assert (El : Z.lor (Z.of_nat pos) 0xC000 = Z.lor (Z.of_nat pos mod 0x4000) 0xC000).
  { rewrite !lor_pointer by lia. by rewrite Z.mod_mod. }
  assert (Happ : sc_append_labels name c =
    Ret (sc_compose (u16_compose (Z.lor (Z.of_nat pos) 0xC000)) c)).
  { destruct name as [|l name]; cbn [sc_append_labels]; rewrite ?Hroot, Hget; done. }
  rewrite Happ, El. unfold sc_compose, u16_compose, compose_slice. rewrite Eb.
  destruct (append_slice_total (sc_target c) [hi; lo]) as [b Hb]. rewrite Hb.
  exists (mkSC b (sc_entries c)), hi, lo. split_and!; [done| |lia|lia].
  unfold sc_slice; simpl. by apply as_ref_append.
Qed.

(** 16384 zero octets, then [a.], which the compressor knows. *)
Definition ex_long_message : StaticCompressor (list Z) :=
  mkSC (replicate (Z.to_nat 0x4000) 0 ++ [1; 97; 0]) [Z.to_nat 0x4000].

Lemma compressor_pointer_wraps_witness :
  exists c' hi lo, sc_append_labels [[97]; []] ex_long_message = Ret (c', true) /\
    sc_slice c' = sc_slice ex_long_message ++ [hi; lo] /\ Z.of_nat (pointer_pos hi lo) = 0.
Proof.
  destruct (compressor_pointer_wraps ex_long_message [[97]; []] (Z.to_nat 0x4000))
    as (c' & hi & lo & H1 & H2 & H3 & _).
  - vm_compute. reflexivity.
  - reflexivity.
  - rewrite Z2Nat.id; lia.
  - exists c', hi, lo. split; [exact H1|]. split; [exact H2|]. rewrite H3, Z2Nat.id by lia. reflexivity.
Defined.
