(* ===== verification/MessageBuilder.v ===== *)
(** * Building messages ([src/src/base/message_builder.rs])

    A [MessageBuilder] writes a message into an octets builder: twelve octets of
    header, then the question, answer, authority and additional sections.  A
    section builder is a message builder that remembers where its section starts;
    going back to an earlier section drops the later ones.  The file proves that
    the octets are at any time the message an abstract builder holds, a header and
    a list of sections, whatever sequence of calls was made; and that the length
    shim of [StreamTarget] is always right. *)

From S2P Require Import Prelude Octets Header.
#[local] Open Scope Z_scope.

(** ** Data *)

(** [usize::MAX], the limit of a builder that has none. *)
Definition NO_LIMIT : Z := 2 ^ 64 - 1.

Record MessageBuilder (B : Type) := mkMB { mb_target : B; mb_limit : Z }.
Arguments mkMB {B} mb_target mb_limit.
Arguments mb_target {B} _.
Arguments mb_limit {B} _.

Record QuestionBuilder (B : Type) := mkQB { qb_builder : MessageBuilder B }.
Arguments mkQB {B} qb_builder.
Arguments qb_builder {B} _.

Record AnswerBuilder (B : Type) := mkAB { ab_builder : MessageBuilder B; ab_start : nat }.
Arguments mkAB {B} ab_builder ab_start.
Arguments ab_builder {B} _.
Arguments ab_start {B} _.

Record AuthorityBuilder (B : Type) := mkNsB { nsb_answer : AnswerBuilder B; nsb_start : nat }.
Arguments mkNsB {B} nsb_answer nsb_start.
Arguments nsb_answer {B} _.
Arguments nsb_start {B} _.

Record AdditionalBuilder (B : Type) := mkArB { arb_authority : AuthorityBuilder B; arb_start : nat }.
Arguments mkArB {B} arb_authority arb_start.
Arguments arb_authority {B} _.
Arguments arb_start {B} _.

Inductive PushError := PushCountOverflow | PushShortBuf.

#[export] Instance PushError_eq_dec : EqDecision PushError.
Proof. solve_decision. Defined.

(** ** Message builder *)

Section Builders.
Context {B : Type} `{OctetsBuilder B}.

(** The closure that composes an item into the target. *)
Definition pusher : Type := B -> outcome (B * bool).

(** [b.as_mut()[i..i + s.len()].copy_from_slice(s)] in range. *)
Fixpoint write_octets (b : B) (i : nat) (s : list Z) : B :=
  match s with
  | [] => b
  | x :: s' => write_octets (set_octet b i x) (S i) s'
  end.

Definition mb_from_target (target : B) : option (MessageBuilder B) :=
  match append_slice (builder_truncate target 0) (hs_inner section_new) with
  | Some target' => Some (mkMB target' NO_LIMIT)
  | None => None
  end.

Definition set_push_limit (limit : Z) (mb : MessageBuilder B) : MessageBuilder B :=
  mkMB (mb_target mb) limit.
Definition clear_push_limit (mb : MessageBuilder B) : MessageBuilder B := mkMB (mb_target mb) NO_LIMIT.
Definition push_limit (mb : MessageBuilder B) : option Z :=
  if mb_limit mb =? NO_LIMIT then None else Some (mb_limit mb).

Definition mb_header (mb : MessageBuilder B) : outcome Header :=
  header_for_message_slice (as_ref (mb_target mb)).
Definition mb_counts (mb : MessageBuilder B) : outcome HeaderCounts :=
  counts_for_message_slice (as_ref (mb_target mb)).

(** A change through [header_mut]. *)
Definition mb_header_mut (f : Header -> Header) (mb : MessageBuilder B) : outcome (MessageBuilder B) :=
  let! h := mb_header mb in
  Ret (mkMB (write_octets (mb_target mb) 0 (h_inner (f h))) (mb_limit mb)).

(** A change through [counts_mut], with the result of the change. *)
Definition mb_counts_mut {A} (f : HeaderCounts -> HeaderCounts * A) (mb : MessageBuilder B)
    : outcome (MessageBuilder B * A) :=
  let! c := mb_counts mb in
  let '(c', a) := f c in
  Ret (mkMB (write_octets (mb_target mb) 4 (c_inner c')) (mb_limit mb), a).

Definition mb_set_counts (f : HeaderCounts -> HeaderCounts) (mb : MessageBuilder B)
    : outcome (MessageBuilder B) :=
  let! (mb', _) := mb_counts_mut (fun c => (f c, ())) mb in Ret mb'.

Definition mb_truncate (len : nat) (mb : MessageBuilder B) : MessageBuilder B :=
  mkMB (builder_truncate (mb_target mb) len) (mb_limit mb).

Definition mb_push (push : pusher) (inc : HeaderCounts -> HeaderCounts * result unit CountOverflow)
    (mb : MessageBuilder B) : outcome (MessageBuilder B * result unit PushError) :=
  let pos := length (as_ref (mb_target mb)) in
  let! (target, ok) := push (mb_target mb) in
  let mb := mkMB target (mb_limit mb) in
  if negb ok then Ret (mb_truncate pos mb, Err PushShortBuf)
  else
    let new_pos := zlen (as_ref target) in
    if mb_limit mb <=? new_pos then Ret (mb_truncate pos mb, Err PushShortBuf)
    else
      let! (mb, inced) := mb_counts_mut inc mb in
      match inced with
      | Ok _ => Ret (mb, Ok ())
      | Err _ => Ret (mb_truncate pos mb, Err PushCountOverflow)
      end.

Definition mb_finish (mb : MessageBuilder B) : B := mb_target mb.
Definition mb_into_message (mb : MessageBuilder B) : list Z := freeze (mb_target mb).
Definition mb_as_slice (mb : MessageBuilder B) : list Z := as_ref (mb_target mb).

(** ** Section builders *)

Definition mb_question (mb : MessageBuilder B) : QuestionBuilder B := mkQB mb.

Definition qb_push (push : pusher) (qb : QuestionBuilder B)
    : outcome (QuestionBuilder B * result unit PushError) :=
  let! (mb, r) := mb_push push inc_qdcount (qb_builder qb) in Ret (mkQB mb, r).
Definition qb_rewind (qb : QuestionBuilder B) : outcome (QuestionBuilder B) :=
  let! mb := mb_set_counts (fun c => set_qdcount c 0) (mb_truncate 12 (qb_builder qb)) in
  Ret (mkQB mb).
Definition qb_to_builder (qb : QuestionBuilder B) : outcome (MessageBuilder B) :=
  let! qb := qb_rewind qb in Ret (qb_builder qb).

(** [AnswerBuilder::new]. *)
Definition qb_answer (qb : QuestionBuilder B) : AnswerBuilder B :=
  mkAB (qb_builder qb) (length (as_ref (mb_target (qb_builder qb)))).

Definition ab_push (push : pusher) (ab : AnswerBuilder B)
    : outcome (AnswerBuilder B * result unit PushError) :=
  let! (mb, r) := mb_push push inc_ancount (ab_builder ab) in Ret (mkAB mb (ab_start ab), r).
Definition ab_rewind (ab : AnswerBuilder B) : outcome (AnswerBuilder B) :=
  let! mb := mb_set_counts (fun c => set_ancount c 0) (mb_truncate (ab_start ab) (ab_builder ab)) in
  Ret (mkAB mb (ab_start ab)).
Definition ab_question (ab : AnswerBuilder B) : outcome (QuestionBuilder B) :=
  let! ab := ab_rewind ab in Ret (mkQB (ab_builder ab)).
Definition ab_to_builder (ab : AnswerBuilder B) : outcome (MessageBuilder B) :=
  let! qb := ab_question ab in qb_to_builder qb.

(** The message builder below an authority builder. *)
Definition nsb_builder (nsb : AuthorityBuilder B) : MessageBuilder B := ab_builder (nsb_answer nsb).
Definition nsb_with (mb : MessageBuilder B) (nsb : AuthorityBuilder B) : AuthorityBuilder B :=
  mkNsB (mkAB mb (ab_start (nsb_answer nsb))) (nsb_start nsb).

(** [AuthorityBuilder::new]. *)
Definition ab_authority (ab : AnswerBuilder B) : AuthorityBuilder B :=
  mkNsB ab (length (as_ref (mb_target (ab_builder ab)))).

Definition nsb_push (push : pusher) (nsb : AuthorityBuilder B)
    : outcome (AuthorityBuilder B * result unit PushError) :=
  let! (mb, r) := mb_push push inc_nscount (nsb_builder nsb) in Ret (nsb_with mb nsb, r).
Definition nsb_rewind (nsb : AuthorityBuilder B) : outcome (AuthorityBuilder B) :=
  let! mb := mb_set_counts (fun c => set_nscount c 0) (mb_truncate (nsb_start nsb) (nsb_builder nsb)) in
  Ret (nsb_with mb nsb).
Definition nsb_to_answer (nsb : AuthorityBuilder B) : outcome (AnswerBuilder B) :=
  let! nsb := nsb_rewind nsb in Ret (nsb_answer nsb).
Definition nsb_question (nsb : AuthorityBuilder B) : outcome (QuestionBuilder B) :=
  let! ab := nsb_to_answer nsb in ab_question ab.
Definition nsb_to_builder (nsb : AuthorityBuilder B) : outcome (MessageBuilder B) :=
  let! qb := nsb_question nsb in qb_to_builder qb.

Definition arb_builder (arb : AdditionalBuilder B) : MessageBuilder B := nsb_builder (arb_authority arb).
Definition arb_with (mb : MessageBuilder B) (arb : AdditionalBuilder B) : AdditionalBuilder B :=
  mkArB (nsb_with mb (arb_authority arb)) (arb_start arb).

(** [AdditionalBuilder::new]. *)
Definition nsb_additional (nsb : AuthorityBuilder B) : AdditionalBuilder B :=
  mkArB nsb (length (as_ref (mb_target (nsb_builder nsb)))).

Definition arb_push (push : pusher) (arb : AdditionalBuilder B)
    : outcome (AdditionalBuilder B * result unit PushError) :=
  let! (mb, r) := mb_push push inc_arcount (arb_builder arb) in Ret (arb_with mb arb, r).
Definition arb_rewind (arb : AdditionalBuilder B) : outcome (AdditionalBuilder B) :=
  let! mb := mb_set_counts (fun c => set_arcount c 0) (mb_truncate (arb_start arb) (arb_builder arb)) in
  Ret (arb_with mb arb).
Definition arb_to_authority (arb : AdditionalBuilder B) : outcome (AuthorityBuilder B) :=
  let! arb := arb_rewind arb in Ret (arb_authority arb).
Definition arb_answer (arb : AdditionalBuilder B) : outcome (AnswerBuilder B) :=
  let! nsb := arb_to_authority arb in nsb_to_answer nsb.
Definition arb_question (arb : AdditionalBuilder B) : outcome (QuestionBuilder B) :=
  let! ab := arb_answer arb in ab_question ab.
Definition arb_to_builder (arb : AdditionalBuilder B) : outcome (MessageBuilder B) :=
  let! qb := arb_question arb in qb_to_builder qb.

(** Going forward over several sections. *)
Definition mb_answer (mb : MessageBuilder B) := qb_answer (mb_question mb).
Definition mb_authority (mb : MessageBuilder B) := ab_authority (mb_answer mb).
Definition mb_additional (mb : MessageBuilder B) := nsb_additional (mb_authority mb).
Definition qb_authority (qb : QuestionBuilder B) := ab_authority (qb_answer qb).
Definition qb_additional (qb : QuestionBuilder B) := nsb_additional (qb_authority qb).
Definition ab_additional (ab : AnswerBuilder B) := nsb_additional (ab_authority ab).
End Builders.
Arguments pusher B : clear implicits.

(** A client holds one of the five builders. *)
Inductive any_builder (B : Type) :=
  | BMessage (b : MessageBuilder B) | BQuestion (b : QuestionBuilder B) | BAnswer (b : AnswerBuilder B)
  | BAuthority (b : AuthorityBuilder B) | BAdditional (b : AdditionalBuilder B).
Arguments BMessage {B} b.
Arguments BQuestion {B} b.
Arguments BAnswer {B} b.
Arguments BAuthority {B} b.
Arguments BAdditional {B} b.

(** The calls it can make: conversions to the builder number [j] (message,
    question, answer, authority, additional), and changes of the builder it
    holds. *)
Inductive msg_call (B : Type) :=
  | CGo (j : nat) | CRewind | CPush (push : pusher B) | CHeader (s : header_set)
  | CSetLimit (limit : Z) | CClearLimit.
Arguments CGo {B} j.
Arguments CRewind {B}.
Arguments CPush {B} push.
Arguments CHeader {B} s.
Arguments CSetLimit {B} limit.
Arguments CClearLimit {B}.

Section AnyBuilder.
Context {B : Type} `{OctetsBuilder B}.

(** What [Deref] reaches. *)
Definition any_mb (b : any_builder B) : MessageBuilder B :=
  match b with
  | BMessage b => b | BQuestion b => qb_builder b | BAnswer b => ab_builder b
  | BAuthority b => nsb_builder b | BAdditional b => arb_builder b
  end.

(** A change through [DerefMut]. *)
Definition any_with (mb : MessageBuilder B) (b : any_builder B) : any_builder B :=
  match b with
  | BMessage _ => BMessage mb
  | BQuestion _ => BQuestion (mkQB mb)
  | BAnswer b => BAnswer (mkAB mb (ab_start b))
  | BAuthority b => BAuthority (nsb_with mb b)
  | BAdditional b => BAdditional (arb_with mb b)
  end.

Definition any_go (j : nat) (b : any_builder B) : outcome (any_builder B) :=
  match j, b with
  | 0%nat, BMessage b => Ret (BMessage b)
  | 0%nat, BQuestion b => let! b' := qb_to_builder b in Ret (BMessage b')
  | 0%nat, BAnswer b => let! b' := ab_to_builder b in Ret (BMessage b')
  | 0%nat, BAuthority b => let! b' := nsb_to_builder b in Ret (BMessage b')
  | 0%nat, BAdditional b => let! b' := arb_to_builder b in Ret (BMessage b')
  | 1%nat, BMessage b => Ret (BQuestion (mb_question b))
  | 1%nat, BQuestion b => Ret (BQuestion b)
  | 1%nat, BAnswer b => let! b' := ab_question b in Ret (BQuestion b')
  | 1%nat, BAuthority b => let! b' := nsb_question b in Ret (BQuestion b')
  | 1%nat, BAdditional b => let! b' := arb_question b in Ret (BQuestion b')
  | 2%nat, BMessage b => Ret (BAnswer (mb_answer b))
  | 2%nat, BQuestion b => Ret (BAnswer (qb_answer b))
  | 2%nat, BAnswer b => Ret (BAnswer b)
  | 2%nat, BAuthority b => let! b' := nsb_to_answer b in Ret (BAnswer b')
  | 2%nat, BAdditional b => let! b' := arb_answer b in Ret (BAnswer b')
  | 3%nat, BMessage b => Ret (BAuthority (mb_authority b))
  | 3%nat, BQuestion b => Ret (BAuthority (qb_authority b))
  | 3%nat, BAnswer b => Ret (BAuthority (ab_authority b))
  | 3%nat, BAuthority b => Ret (BAuthority b)
  | 3%nat, BAdditional b => let! b' := arb_to_authority b in Ret (BAuthority b')
  | _, BMessage b => Ret (BAdditional (mb_additional b))
  | _, BQuestion b => Ret (BAdditional (qb_additional b))
  | _, BAnswer b => Ret (BAdditional (ab_additional b))
  | _, BAuthority b => Ret (BAdditional (nsb_additional b))
  | _, BAdditional b => Ret (BAdditional b)
  end.

(** A message builder offers neither [push] nor [rewind]; such a call is not
    made ([call_fits] below), and leaves the builder alone here. *)
Definition any_push (push : pusher B) (b : any_builder B)
    : outcome (any_builder B * result unit PushError) :=
  match b with
  | BMessage b => Ret (BMessage b, Ok ())
  | BQuestion b => let! (b', r) := qb_push push b in Ret (BQuestion b', r)
  | BAnswer b => let! (b', r) := ab_push push b in Ret (BAnswer b', r)
  | BAuthority b => let! (b', r) := nsb_push push b in Ret (BAuthority b', r)
  | BAdditional b => let! (b', r) := arb_push push b in Ret (BAdditional b', r)
  end.

Definition any_rewind (b : any_builder B) : outcome (any_builder B) :=
  match b with
  | BMessage b => Ret (BMessage b)
  | BQuestion b => let! b' := qb_rewind b in Ret (BQuestion b')
  | BAnswer b => let! b' := ab_rewind b in Ret (BAnswer b')
  | BAuthority b => let! b' := nsb_rewind b in Ret (BAuthority b')
  | BAdditional b => let! b' := arb_rewind b in Ret (BAdditional b')
  end.

Definition any_call (c : msg_call B) (b : any_builder B)
    : outcome (any_builder B * result unit PushError) :=
  match c with
  | CGo j => let! b' := any_go j b in Ret (b', Ok ())
  | CRewind => let! b' := any_rewind b in Ret (b', Ok ())
  | CPush push => any_push push b
  | CHeader s => let! mb := mb_header_mut (apply_set s) (any_mb b) in Ret (any_with mb b, Ok ())
  | CSetLimit limit => Ret (any_with (set_push_limit limit (any_mb b)) b, Ok ())
  | CClearLimit => Ret (any_with (clear_push_limit (any_mb b)) b, Ok ())
  end.

Fixpoint any_calls (cs : list (msg_call B)) (b : any_builder B)
    : outcome (any_builder B * list (result unit PushError)) :=
  match cs with
  | [] => Ret (b, [])
  | c :: cs' =>
      let! (b1, r) := any_call c b in
      let! (b2, rs) := any_calls cs' b1 in
      Ret (b2, r :: rs)
  end.
End AnyBuilder.

(** ** Stream target *)

(** The length shim and the message. *)
Record StreamTarget (B : Type) := mkStream { st_target : B }.
Arguments mkStream {B} st_target.
Arguments st_target {B} _.

Section StreamTarget.
Context {B : Type} `{OctetsBuilder B} (oc : bool).

Definition st_new (target : B) : option (StreamTarget B) :=
  let '(b, ok) := u16_compose 0 (builder_truncate target 0) in
  if ok : bool then Some (mkStream b) else None.

(** The subtraction and the slice need two octets. *)
Definition st_update_shim (t : StreamTarget B) : outcome (StreamTarget B * bool) :=
  let! len := usize_sub oc (zlen (as_ref (st_target t))) 2 in
  if len <? 2 ^ 16 then
    if (length (as_ref (st_target t)) <? 2)%nat then Panic
    else Ret (mkStream (write_octets (st_target t) 0 (to_be_bytes 2 len)), true)
  else Ret (t, false).

Definition st_as_stream_slice (t : StreamTarget B) : list Z := as_ref (st_target t).
Definition st_as_dgram_slice (t : StreamTarget B) : outcome (list Z) :=
  if (length (as_ref (st_target t)) <? 2)%nat then Panic else Ret (drop 2 (as_ref (st_target t))).

(** [as_mut()[i] = v]. *)
Definition st_set_octet (t : StreamTarget B) (i : nat) (v : Z) : outcome (StreamTarget B) :=
  if (i + 2 <? length (as_ref (st_target t)))%nat then Ret (mkStream (set_octet (st_target t) (i + 2) v))
  else Panic.

(** An append that makes the message too long leaves the octets in place. *)
Definition st_append_slice (t : StreamTarget B) (s : list Z) : outcome (StreamTarget B * bool) :=
  match append_slice (st_target t) s with
  | None => Ret (t, false)
  | Some b => st_update_shim (mkStream b)
  end.

Definition st_truncate (t : StreamTarget B) (len : Z) : outcome (StreamTarget B) :=
  if 2 ^ 64 <=? len + 2 then Panic
  else
    let! (t', ok) := st_update_shim (mkStream (builder_truncate (st_target t) (Z.to_nat (len + 2)))) in
    if ok : bool then Ret t' else Panic.
End StreamTarget.

(** ** The abstract message builder *)

(** A header, the push limit, and the sections opened so far, each a list of the
    octets of its items. *)
Record amsg := mkAmsg { am_header : Header; am_limit : Z; am_secs : list (list (list Z)) }.

Definition am_with (m : amsg) (secs : list (list (list Z))) : amsg :=
  mkAmsg (am_header m) (am_limit m) secs.

(** The header counts of the sections; the ones not opened count zero. *)
Definition counts_wire (secs : list (list (list Z))) : list Z :=
  concat (map (fun sec => to_be_bytes 2 (zlen sec)) secs) ++ replicate (2 * (4 - length secs)) 0.

Definition secs_wire (secs : list (list (list Z))) : list Z := concat (concat secs).

Definition am_wire (m : amsg) : list Z :=
  h_inner (am_header m) ++ counts_wire (am_secs m) ++ secs_wire (am_secs m).

Definition am_wf (m : amsg) : Prop :=
  header_wf (am_header m) /\ (length (am_secs m) <= 4)%nat /\
  Forall (fun sec => zlen sec < 2 ^ 16) (am_secs m).

(** Pushing the octets [s], which the pusher wrote entirely when [ok]. *)
Definition am_push (m : amsg) (pre : list (list (list Z))) (sec : list (list Z)) (s : list Z) (ok : bool)
    : result amsg PushError :=
  if negb ok then Err PushShortBuf
  else if am_limit m <=? zlen (am_wire m) + zlen s then Err PushShortBuf
  else if zlen sec + 1 <? 2 ^ 16 then Ok (am_with m (pre ++ [sec ++ [s]]))
  else Err PushCountOverflow.

(** Going to builder [j] drops the later sections and opens the missing ones. *)
Definition am_go (j : nat) (secs : list (list (list Z))) : list (list (list Z)) :=
  take j secs ++ replicate (j - length secs) [].

(** When a push of the octets [s], written entirely when [ok], may succeed and
    when it may fail.  Between the message staying below the limit, where it is
    not refused for it, and exceeding it, where it has to be, there is the message
    that has exactly the length of the limit: both is possible. *)
Definition push_accepted (m : amsg) (sec : list (list Z)) (s : list Z) (ok : bool) : Prop :=
  ok = true /\ zlen (am_wire m) + zlen s <= am_limit m /\ zlen sec < 65535.

Definition push_refused (m : amsg) (sec : list (list Z)) (s : list Z) (ok : bool) (e : PushError) : Prop :=
  match e with
  | PushShortBuf => ok = false \/ am_limit m <= zlen (am_wire m) + zlen s
  | PushCountOverflow => ok = true /\ zlen (am_wire m) + zlen s <= am_limit m /\ 65535 <= zlen sec
  end.

Lemma am_push_spec m pre sec s ok :
  match am_push m pre sec s ok with
  | Ok m' => push_accepted m sec s ok /\ m' = am_with m (pre ++ [sec ++ [s]])
  | Err e => push_refused m sec s ok e
  end.
Proof.
  unfold am_push, push_accepted. destruct ok; simpl; [|by left].
  destruct (Z.leb_spec (am_limit m) (zlen (am_wire m) + zlen s)); [by right|].
  destruct (Z.ltb_spec (zlen sec + 1) (2 ^ 16)); simpl; split_and!; try done; lia.
Qed.

(** What a call does to the message.  A failed push leaves it as it was; what
    the pusher writes behind the message is up to the pusher. *)
Section AmSteps.
Context {B : Type} `{OctetsBuilder B}.

Definition push_writes (push : pusher B) (m : amsg) (s : list Z) (ok : bool) : Prop :=
  exists b b', push b = Ret (b', ok) /\ as_ref b = am_wire m /\ as_ref b' = am_wire m ++ s.

Inductive am_step : msg_call B -> amsg -> result unit PushError -> amsg -> Prop :=
  | step_go j m : am_step (CGo j) m (Ok ()) (am_with m (am_go j (am_secs m)))
  | step_rewind m pre sec :
      am_secs m = pre ++ [sec] -> am_step CRewind m (Ok ()) (am_with m (pre ++ [[]]))
  | step_push push m pre sec s ok :
      am_secs m = pre ++ [sec] -> push_writes push m s ok -> push_accepted m sec s ok ->
      am_step (CPush push) m (Ok ()) (am_with m (pre ++ [sec ++ [s]]))
  | step_push_fails push m pre sec s ok e :
      am_secs m = pre ++ [sec] -> push_writes push m s ok -> push_refused m sec s ok e ->
      am_step (CPush push) m (Err e) m
  | step_header s m :
      am_step (CHeader s) m (Ok ()) (mkAmsg (apply_set s (am_header m)) (am_limit m) (am_secs m))
  | step_limit limit m : am_step (CSetLimit limit) m (Ok ()) (mkAmsg (am_header m) limit (am_secs m))
  | step_clear m : am_step CClearLimit m (Ok ()) (mkAmsg (am_header m) NO_LIMIT (am_secs m)).

Inductive am_steps : list (msg_call B) -> amsg -> list (result unit PushError) -> amsg -> Prop :=
  | steps_nil m : am_steps [] m [] m
  | steps_cons c cs m r m1 rs m2 :
      am_step c m r m1 -> am_steps cs m1 rs m2 -> am_steps (c :: cs) m (r :: rs) m2.

(** A pusher appends to the target and does not panic. *)
Definition pusher_ok (push : pusher B) : Prop :=
  forall b, exists b' ok s, push b = Ret (b', ok) /\ as_ref b' = as_ref b ++ s.

(** The calls the builder at hand offers: [lvl] is its number. *)
Definition call_fits (lvl : nat) (c : msg_call B) : Prop :=
  match c with
  | CGo j => (j <= 4)%nat
  | CRewind => (0 < lvl)%nat
  | CPush push => (0 < lvl)%nat /\ pusher_ok push
  | CHeader s => header_set_wf s
  | CSetLimit _ | CClearLimit => True
  end.

Definition call_level (lvl : nat) (c : msg_call B) : nat := match c with CGo j => j | _ => lvl end.

Fixpoint calls_fit (lvl : nat) (cs : list (msg_call B)) : Prop :=
  match cs with [] => True | c :: cs' => call_fits lvl c /\ calls_fit (call_level lvl c) cs' end.
End AmSteps.

#[local] Arguments to_be_bytes : simpl never.

Lemma length_counts_wire secs : (length secs <= 4)%nat -> length (counts_wire secs) = 8%nat.
Proof.
  intros Hl. unfold counts_wire. rewrite length_app, length_replicate.
  assert (length (concat (map (fun sec => to_be_bytes 2 (zlen sec)) secs)) = 2 * length secs)%nat as ->.
  { clear Hl. induction secs as [|sec secs IH]; [done|]. simpl map. rewrite concat_cons, length_app, length_to_be_bytes, IH.
    simpl; lia. }
  lia.
Qed.

(** The counts split at the last section. *)
Lemma counts_wire_snoc pre :
  (length pre < 4)%nat -> exists p z, length p = (2 * length pre)%nat /\
  forall sec', counts_wire (pre ++ [sec']) = p ++ to_be_bytes 2 (zlen sec') ++ z.
Proof.
  intros Hl. exists (concat (map (fun sec => to_be_bytes 2 (zlen sec)) pre)), (replicate (2 * (3 - length pre)) 0).
  split.
  - clear Hl. induction pre as [|x pre IH]; [done|]. simpl map. rewrite concat_cons, length_app, length_to_be_bytes, IH.
    simpl; lia.
  - intros sec'. unfold counts_wire. rewrite map_app, concat_app, length_app, <- !app_assoc. f_equal.
    cbn [map concat app length]. rewrite app_nil_r. f_equal. f_equal. lia.
Qed.

Lemma counts_get_last pre sec :
  (length pre < 4)%nat -> zlen sec < 2 ^ 16 ->
  get_u16 (mkCounts (counts_wire (pre ++ [sec]))) (2 * length pre) = zlen sec.
Proof.
  intros Hl Hs. destruct (counts_wire_snoc pre Hl) as (p & z & Hpl & Hcw). unfold get_u16; cbn [c_inner].
  rewrite Hcw, <- Hpl, drop_app_length, take_app_length' by (by rewrite length_to_be_bytes).
  apply get_be. ulia.
Qed.

Lemma counts_set_last pre sec sec' :
  (length pre < 4)%nat ->
  set_u16 (mkCounts (counts_wire (pre ++ [sec]))) (2 * length pre) (zlen sec') =
  mkCounts (counts_wire (pre ++ [sec'])).
Proof.
  intros Hl. destruct (counts_wire_snoc pre Hl) as (p & z & Hpl & Hcw). rewrite !Hcw. unfold set_u16; cbn [c_inner].
  rewrite <- Hpl, take_app_length. do 3 f_equal. rewrite drop_app_ge by lia.
  replace (length p + 2 - length p)%nat with 2%nat by lia.
  by rewrite drop_app_length' by (by rewrite length_to_be_bytes).
Qed.

(** Incrementing the last count counts one more item, up to 65535. *)
Lemma counts_inc_last pre sec s :
  (length pre < 4)%nat -> zlen sec < 2 ^ 16 ->
  inc_count (mkCounts (counts_wire (pre ++ [sec]))) (2 * length pre) =
  if zlen sec + 1 <? 2 ^ 16 then (mkCounts (counts_wire (pre ++ [sec ++ [s]])), Ok ())
  else (mkCounts (counts_wire (pre ++ [sec])), Err CountOverflowErr).
Proof.
  intros Hl Hs. unfold inc_count. rewrite counts_get_last by done.
  replace (zlen sec + 1) with (zlen (sec ++ [s])) by (unfold zlen; rewrite length_app; simpl; lia).
  by rewrite counts_set_last.
Qed.

Lemma counts_wire_open pre : (length pre < 4)%nat -> counts_wire (pre ++ [[]]) = counts_wire pre.
Proof.
  intros Hl. unfold counts_wire. rewrite map_app, concat_app, length_app, <- app_assoc. f_equal.
  replace (2 * (4 - length pre))%nat with (2 + 2 * (4 - (length pre + 1)))%nat by lia. done.
Qed.

Lemma secs_wire_app a b : secs_wire (a ++ b) = secs_wire a ++ secs_wire b.
Proof. unfold secs_wire. by rewrite !concat_app. Qed.

Lemma secs_wire_one sec : secs_wire [sec] = concat sec.
Proof. unfold secs_wire. simpl. by rewrite app_nil_r. Qed.

Lemma am_go_below j pre sec : (j <= length pre)%nat -> am_go j (pre ++ [sec]) = am_go j pre.
Proof.
  intros Hj. unfold am_go. rewrite take_app_le by done. f_equal. rewrite length_app.
  f_equal. simpl. lia.
Qed.

Lemma am_go_self secs : am_go (length secs) secs = secs.
Proof. unfold am_go. rewrite firstn_all, Nat.sub_diag. simpl. apply app_nil_r. Qed.

Lemma am_go_open j secs : (length secs < j)%nat -> am_go j (secs ++ [[]]) = am_go j secs.
Proof.
  intros Hj. unfold am_go. rewrite length_app, !take_ge by (rewrite ?length_app; simpl; lia).
  rewrite <- app_assoc. f_equal. simpl length. by replace (j - length secs)%nat with (S (j - (length secs + 1))) by lia.
Qed.

(** ** The builders implement the abstract builder *)

Section Correct.
Context {B : Type} `{OctetsBuilderOk B}.

Lemma as_ref_write_octets s (b : B) i :
  (i + length s <= length (as_ref b))%nat ->
  as_ref (write_octets b i s) = take i (as_ref b) ++ s ++ drop (i + length s) (as_ref b).
Proof.
  revert b i; induction s as [|x s IH]; intros b i Hl; simpl in *.
  - by rewrite Nat.add_0_r, take_drop.
  - assert (Hs : as_ref (set_octet b i x) = <[i:=x]> (as_ref b)) by (apply as_ref_set_octet; lia).
    rewrite IH by (rewrite Hs, length_insert; lia). rewrite Hs.
    rewrite (take_S_r _ _ x) by (apply list_lookup_insert_eq; lia).
    rewrite take_insert_ge by done. rewrite <- app_assoc. f_equal. simpl. f_equal. f_equal.
    rewrite drop_insert_lt by lia. f_equal. lia.
Qed.

(** The parts of a message under construction. *)
Definition parts (mb : MessageBuilder B) (lim : Z) (hd cw body : list Z) : Prop :=
  length hd = 4%nat /\ length cw = 8%nat /\ as_ref (mb_target mb) = hd ++ cw ++ body /\ mb_limit mb = lim.

Lemma mb_counts_parts mb lim hd cw body :
  parts mb lim hd cw body -> mb_counts mb = Ret (mkCounts cw).
Proof.
  intros (Hh & Hc & Hr & _). unfold mb_counts, counts_for_message_slice. rewrite Hr.
  destruct (Nat.leb_spec 12 (length (hd ++ cw ++ body))) as [_|Hx]; [|rewrite !length_app in Hx; lia].
  do 2 f_equal. by rewrite drop_app_length', take_app_length'.
Qed.

Lemma mb_counts_mut_parts {A} (f : HeaderCounts -> HeaderCounts * A) mb lim hd cw body c' a :
  parts mb lim hd cw body -> f (mkCounts cw) = (c', a) -> length (c_inner c') = 8%nat ->
  exists mb', mb_counts_mut f mb = Ret (mb', a) /\ parts mb' lim hd (c_inner c') body.
Proof.
  intros Hp Hf Hl. unfold mb_counts_mut. rewrite (mb_counts_parts _ _ _ _ _ Hp), Hf.
  destruct Hp as (Hh & Hc & Hr & Hlim). eexists; split; [done|]. split_and!; [done..| |done]. simpl.
  rewrite as_ref_write_octets by (rewrite Hr, !length_app; lia). rewrite Hr, Hl.
  rewrite <- Hh at 1. rewrite take_app_length. f_equal. f_equal.
  change (4 + 8)%nat with 12%nat. rewrite drop_app_ge by lia. rewrite drop_app_ge by lia.
  replace (12 - length hd - length cw)%nat with 0%nat by lia. apply drop_0.
Qed.

Lemma mb_header_mut_parts (f : Header -> Header) mb lim hd cw body :
  parts mb lim hd cw body -> length (h_inner (f (mkHeader hd))) = 4%nat ->
  exists mb', mb_header_mut f mb = Ret mb' /\ parts mb' lim (h_inner (f (mkHeader hd))) cw body.
Proof.
  intros (Hh & Hc & Hr & Hlim) Hf. unfold mb_header_mut, mb_header, header_for_message_slice. rewrite Hr.
  destruct (Nat.leb_spec 4 (length (hd ++ cw ++ body))) as [_|Hx]; [|rewrite !length_app in Hx; lia].
  assert (Ht : take 4 (hd ++ cw ++ body) = hd) by (by rewrite <- Hh, take_app_length). rewrite Ht.
  eexists; split; [done|]. split_and!; [done..| |done]. simpl.
  rewrite as_ref_write_octets by (rewrite Hf, Hr, !length_app; lia). rewrite Hr, Hf. simpl.
  f_equal. by rewrite <- Hh, drop_app_length.
Qed.

Lemma mb_truncate_parts mb lim hd cw body t :
  parts mb lim hd cw (body ++ t) -> parts (mb_truncate (12 + length body) mb) lim hd cw body.
Proof.
  intros (Hh & Hc & Hr & Hlim). split_and!; [done..| |done]. simpl.
  rewrite as_ref_truncate, Hr. replace (hd ++ cw ++ body ++ t) with ((hd ++ cw ++ body) ++ t)
    by (by rewrite <- !app_assoc).
  apply take_app_length'. rewrite !length_app. lia.
Qed.

(** ** The octets are those of the abstract message *)

Definition mb_rep (mb : MessageBuilder B) (m : amsg) : Prop :=
  am_wf m /\ parts mb (am_limit m) (h_inner (am_header m)) (counts_wire (am_secs m)) (secs_wire (am_secs m)).

Lemma mb_rep_wire mb m : mb_rep mb m -> as_ref (mb_target mb) = am_wire m.
Proof. by intros (_ & _ & _ & ? & _). Qed.

(** Where the next section starts. *)
Lemma mb_rep_len mb m : mb_rep mb m -> length (as_ref (mb_target mb)) = (12 + length (secs_wire (am_secs m)))%nat.
Proof. intros (_ & Hh & Hc & -> & _). rewrite !length_app. lia. Qed.

Lemma am_secs_snoc_wf m pre sec :
  am_wf m -> am_secs m = pre ++ [sec] ->
  (length pre < 4)%nat /\ Forall (fun sec => zlen sec < 2 ^ 16) pre /\ zlen sec < 2 ^ 16.
Proof.
  intros (_ & Hl & Hs) E. rewrite E in *. rewrite length_app in Hl; simpl in Hl.
  apply Forall_app in Hs as [? [? _]%Forall_uncons]. split_and!; [lia|done..].
Qed.

Lemma am_wf_snoc m pre sec :
  am_wf m -> (length pre < 4)%nat -> Forall (fun sec => zlen sec < 2 ^ 16) pre -> zlen sec < 2 ^ 16 ->
  am_wf (am_with m (pre ++ [sec])).
Proof.
  intros (Hh & _ & _) Hl Hp Hs. split_and!; simpl; [done|rewrite length_app; simpl; lia|].
  apply Forall_app; split; [done|]. by constructor.
Qed.

(** A section that was just opened, or emptied, is no section yet. *)
Lemma mb_rep_open mb m pre :
  (length pre < 4)%nat -> mb_rep mb (am_with m pre) <-> mb_rep mb (am_with m (pre ++ [[]])).
Proof.
  intros Hl. unfold mb_rep; simpl. rewrite counts_wire_open, secs_wire_app by done.
  change (secs_wire [[]]) with (@nil Z). rewrite app_nil_r.
  split; (intros [(Hh & Hx & Hf) Hp]; split; [|done]; split_and!; [done| |]); simpl in *.
  - rewrite length_app; simpl; lia.
  - apply Forall_app; split; [done|]. by constructor.
  - lia.
  - by apply Forall_app in Hf as [? _].
Qed.

Lemma mb_rewind_rep mb m pre sec :
  mb_rep mb m -> am_secs m = pre ++ [sec] ->
  exists mb', mb_set_counts (fun c => set_u16 c (2 * length pre) 0)
      (mb_truncate (12 + length (secs_wire pre)) mb) = Ret mb' /\
    mb_rep mb' (am_with m (pre ++ [[]])).
Proof.
  intros [Hwf Hp] E. destruct (am_secs_snoc_wf _ _ _ Hwf E) as (Hl & Hpre & _). rewrite E in Hp.
  rewrite secs_wire_app in Hp. apply mb_truncate_parts in Hp.
  unfold mb_set_counts. edestruct (mb_counts_mut_parts (fun c => (set_u16 c (2 * length pre) 0, ())))
    as (mb' & -> & Hp'); [exact Hp|done| |]; change 0 with (zlen (@nil (list Z))) in *;
    rewrite counts_set_last in * by done.
  { apply length_counts_wire. rewrite length_app; simpl; lia. }
  exists mb'. split; [done|]. split; [by apply am_wf_snoc|]. simpl.
  rewrite secs_wire_app. change (secs_wire [[]]) with (@nil Z). by rewrite app_nil_r.
Qed.
Lemma mb_push_rep push mb m pre sec b' ok s :
  mb_rep mb m -> am_secs m = pre ++ [sec] ->
  push (mb_target mb) = Ret (b', ok) -> as_ref b' = as_ref (mb_target mb) ++ s ->
  exists mb' r, mb_push push (fun c => inc_count c (2 * length pre)) mb = Ret (mb', r) /\
    match am_push m pre sec s ok with
    | Ok m' => r = Ok () /\ mb_rep mb' m'
    | Err e => r = Err e /\ mb_rep mb' m
    end.
Proof.
  intros Hrep E Hpush Hb. pose proof (mb_rep_len _ _ Hrep) as Hlen.
  pose proof (mb_rep_wire _ _ Hrep) as Hwire. destruct Hrep as [Hwf Hp].
  destruct (am_secs_snoc_wf _ _ _ Hwf E) as (Hl & Hpre & Hsec).
  assert (Hpb : parts (mkMB b' (mb_limit mb)) (am_limit m) (h_inner (am_header m))
    (counts_wire (am_secs m)) (secs_wire (am_secs m) ++ s)).
  { destruct Hp as (? & ? & Hr & ?). split_and!; [done..| |done]. simpl. by rewrite Hb, Hr, <- !app_assoc. }
  unfold mb_push. rewrite Hpush, Hlen. cbn [mb_limit]. unfold am_push. destruct ok; simpl negb; cbv iota; cycle 1.
  { eexists _, _; split; [done|]. split; [done|]. split; [done|]. by eapply mb_truncate_parts. }
  rewrite Hb, Hwire. replace (mb_limit mb) with (am_limit m) in * by (by destruct Hp as (_ & _ & _ & ?)).
  replace (zlen (am_wire m ++ s)) with (zlen (am_wire m) + zlen s) by (unfold zlen; rewrite length_app; lia).
  destruct (am_limit m <=? _).
  { eexists _, _; split; [done|]. split; [done|]. split; [done|]. by eapply mb_truncate_parts. }
  pose proof (counts_inc_last pre sec s Hl Hsec) as Hinc. rewrite <- E in Hinc.
  destruct (Z.ltb_spec (zlen sec + 1) (2 ^ 16)) as [Hlt|Hge];
    (edestruct (mb_counts_mut_parts (fun c => inc_count c (2 * length pre))) as (mb' & -> & Hp');
      [exact Hpb|exact Hinc| |]); cbn [c_inner] in *.
  - apply length_counts_wire. rewrite length_app; simpl; lia.
  - eexists _, _; split; [done|]. split; [done|].
    split; [apply am_wf_snoc; [done..|]; unfold zlen in *; rewrite length_app; simpl; lia|].
    rewrite E in Hp'. simpl. rewrite !secs_wire_app, !secs_wire_one in *. rewrite concat_app; simpl.
    by rewrite app_nil_r, app_assoc.
  - apply length_counts_wire. by destruct Hwf as (_ & ? & _).
  - eexists _, _; split; [done|]. split; [done|]. split; [done|]. by eapply mb_truncate_parts.
Qed.

(** ** The section builders *)

Definition any_level (b : any_builder B) : nat :=
  match b with
  | BMessage _ => 0 | BQuestion _ => 1 | BAnswer _ => 2 | BAuthority _ => 3 | BAdditional _ => 4
  end.

(** The starts the builders remember, those of the sections 1, 2 and 3. *)
Definition any_starts (b : any_builder B) : list nat :=
  match b with
  | BMessage _ | BQuestion _ => []
  | BAnswer b => [ab_start b]
  | BAuthority b => [ab_start (nsb_answer b); nsb_start b]
  | BAdditional b => [ab_start (nsb_answer (arb_authority b)); nsb_start (arb_authority b); arb_start b]
  end.

Definition sec_start (secs : list (list (list Z))) (k : nat) : nat := 12 + length (secs_wire (take k secs)).

Definition any_rep (b : any_builder B) (m : amsg) : Prop :=
  mb_rep (any_mb b) m /\ length (am_secs m) = any_level b /\
  any_starts b = map (sec_start (am_secs m)) (seq 1 (any_level b - 1)).

Lemma sec_start_snoc pre sec k : (k <= length pre)%nat -> sec_start (pre ++ [sec]) k = sec_start pre k.
Proof. intros. unfold sec_start. by rewrite take_app_le. Qed.

Lemma sec_starts_snoc pre sec n :
  (n <= length pre)%nat -> map (sec_start (pre ++ [sec])) (seq 1 n) = map (sec_start pre) (seq 1 n).
Proof.
  intros Hn. apply map_ext_in. intros k Hk%in_seq. apply sec_start_snoc. lia.
Qed.

Lemma any_with_mb (mb : MessageBuilder B) (b : any_builder B) : any_mb (any_with mb b) = mb.
Proof. by destruct b. Qed.
Lemma any_with_level (mb : MessageBuilder B) (b : any_builder B) : any_level (any_with mb b) = any_level b.
Proof. by destruct b. Qed.
Lemma any_with_starts (mb : MessageBuilder B) (b : any_builder B) : any_starts (any_with mb b) = any_starts b.
Proof. by destruct b. Qed.

(** The last section of a builder that has one. *)
Lemma any_rep_last b m :
  any_rep b m -> (0 < any_level b)%nat ->
  exists pre sec, am_secs m = pre ++ [sec] /\ any_level b = S (length pre).
Proof.
  intros (_ & Hl & _) H0'. destruct (am_secs m) as [|sec pre _] using rev_ind; [simpl in Hl; lia|].
  exists pre, sec. split; [done|]. rewrite length_app in Hl. simpl in Hl. lia.
Qed.

(** Replacing the message builder by one whose last section differs. *)
Lemma any_rep_with b m mb' pre sec sec' :
  any_rep b m -> am_secs m = pre ++ [sec] -> mb_rep mb' (am_with m (pre ++ [sec'])) ->
  any_rep (any_with mb' b) (am_with m (pre ++ [sec'])).
Proof.
  intros (_ & Hl & Hs) E Hr. unfold any_rep. rewrite any_with_mb, any_with_level, any_with_starts.
  rewrite Hs, E in *. rewrite length_app in Hl; simpl in Hl. simpl am_secs.
  split_and!; [done|rewrite length_app; simpl; lia|]. rewrite !sec_starts_snoc by lia. done.
Qed.

Lemma any_push_mb push (b : any_builder B) (pre : list (list (list Z))) :
  any_level b = S (length pre) ->
  any_push push b =
  let! (mb, r) := mb_push push (fun c => inc_count c (2 * length pre)) (any_mb b) in Ret (any_with mb b, r).
Proof.
  intros Hl. destruct b; simpl in Hl; try done; injection Hl as Hl; rewrite <- Hl; simpl;
    unfold qb_push, ab_push, nsb_push, arb_push, inc_qdcount, inc_ancount, inc_nscount, inc_arcount;
    by destruct (mb_push _ _ _) as [[]|].
Qed.

Lemma any_rewind_mb b m pre sec :
  any_rep b m -> am_secs m = pre ++ [sec] -> any_level b = S (length pre) ->
  any_rewind b =
  let! mb := mb_set_counts (fun c => set_u16 c (2 * length pre) 0)
               (mb_truncate (12 + length (secs_wire pre)) (any_mb b)) in
  Ret (any_with mb b).
Proof.
  intros (_ & _ & Hs) E Hl. rewrite Hl in Hs. simpl in Hs. rewrite Nat.sub_0_r, E, sec_starts_snoc in Hs by done.
  destruct b; simpl in Hl; try done; injection Hl as Hl; simpl in Hs; rewrite <- Hl in *; simpl in Hs.
  { destruct pre; [|done]. simpl. unfold qb_rewind, set_qdcount. by destruct (mb_set_counts _ _). }
  all: rewrite <- (firstn_all pre) at 1; rewrite <- Hl; injection Hs; unfold sec_start;
    intros <-; intros; simpl; unfold ab_rewind, nsb_rewind, arb_rewind, set_ancount, set_nscount, set_arcount;
    by destruct (mb_set_counts _ _).
Qed.

Lemma any_rewind_rep b m pre sec :
  any_rep b m -> am_secs m = pre ++ [sec] -> any_level b = S (length pre) ->
  exists b', any_rewind b = Ret b' /\ any_rep b' (am_with m (pre ++ [[]])) /\ any_level b' = any_level b.
Proof.
  intros Hr E Hl. rewrite (any_rewind_mb _ _ _ _ Hr E Hl).
  destruct (mb_rewind_rep (any_mb b) m pre sec) as (mb' & -> & Hr'); [apply Hr|done|].
  eexists; split; [done|]. split; [by eapply any_rep_with|apply any_with_level].
Qed.

(** The builder of the section before, and of the next section. *)
Definition any_strip (b : any_builder B) : any_builder B :=
  match b with
  | BMessage b => BMessage b
  | BQuestion b => BMessage (qb_builder b)
  | BAnswer b => BQuestion (mkQB (ab_builder b))
  | BAuthority b => BAnswer (nsb_answer b)
  | BAdditional b => BAuthority (arb_authority b)
  end.

Definition any_open (b : any_builder B) : any_builder B :=
  match b with
  | BMessage b => BQuestion (mb_question b)
  | BQuestion b => BAnswer (qb_answer b)
  | BAnswer b => BAuthority (ab_authority b)
  | BAuthority b => BAdditional (nsb_additional b)
  | BAdditional b => BAdditional b
  end.

Lemma any_go_down j b :
  (j < any_level b)%nat -> any_go j b = let! b' := any_rewind b in any_go j (any_strip b').
Proof.
  intros Hj. destruct b, j as [|[|[|[|j]]]]; simpl in Hj; try lia; simpl;
    unfold arb_to_builder, arb_question, arb_answer, arb_to_authority, nsb_to_builder, nsb_question,
      nsb_to_answer, ab_to_builder, ab_question, qb_to_builder;
    match goal with |- context [match ?r with Ret _ => _ | Panic => _ end] =>
      lazymatch r with context [match _ with _ => _ end] => fail | _ => by destruct r end end.
Qed.

Lemma any_go_up j b : (any_level b < j <= 4)%nat -> any_go j b = any_go j (any_open b).
Proof. intros Hj. destruct b, j as [|[|[|[|[|j]]]]]; simpl in Hj; try lia; done. Qed.

Lemma any_go_here b : any_go (any_level b) b = Ret b.
Proof. by destruct b. Qed.

Lemma any_strip_rep b m pre :
  any_rep b m -> am_secs m = pre ++ [[]] -> any_level b = S (length pre) ->
  any_rep (any_strip b) (am_with m pre).
Proof.
  intros (Hr & _ & Hs) E Hl. unfold any_rep. simpl am_secs.
  assert (Hmb : any_mb (any_strip b) = any_mb b) by (by destruct b).
  destruct m as [hd lim secs]; simpl in *; subst secs. assert (length pre < 4)%nat by (destruct b; simpl in Hl; lia).
  rewrite Hmb. split; [by apply (mb_rep_open _ (mkAmsg hd lim pre))|].
  rewrite Hl in Hs. simpl in Hs. rewrite Nat.sub_0_r, sec_starts_snoc in Hs by done.
  destruct b; simpl in Hl; try done; injection Hl as Hl; rewrite <- Hl in Hs; simpl in *; (split; [done|]);
    simplify_eq; congruence.
Qed.

Lemma any_open_rep b m :
  any_rep b m -> (any_level b < 4)%nat ->
  any_rep (any_open b) (am_with m (am_secs m ++ [[]])) /\ any_level (any_open b) = S (any_level b).
Proof.
  intros (Hr & Hl & Hs) H4. split; [|destruct b; simpl in *; lia].
  assert (Hmb : any_mb (any_open b) = any_mb b) by (by destruct b).
  unfold any_rep. simpl am_secs. rewrite Hmb. pose proof (mb_rep_len _ _ Hr) as Hlen. split_and!.
  - apply (mb_rep_open _ m (am_secs m)); [lia|]. by destruct m.
  - rewrite length_app, Hl. destruct b; simpl in *; lia.
  - destruct m as [hd lim secs]; simpl in *.
    replace (any_level (any_open b) - 1)%nat with (length secs) by (destruct b; simpl in *; lia).
    rewrite sec_starts_snoc by done.
    assert (Hst : (12 + length (secs_wire secs))%nat = sec_start secs (length secs))
      by (unfold sec_start; by rewrite firstn_all).
    destruct b; simpl in Hl, Hs, Hlen, H4; try lia; rewrite Hl in *; simpl in *;
      unfold ab_authority, nsb_builder in *; simpl in *; congruence.
Qed.

Lemma any_go_rep j b m :
  any_rep b m -> (j <= 4)%nat ->
  exists b', any_go j b = Ret b' /\ any_rep b' (am_with m (am_go j (am_secs m))).
Proof.
  intros Hr Hj. remember ((j - any_level b) + (any_level b - j))%nat as d eqn:Hd.
  revert b m Hr Hd. induction d as [|d IH]; intros b m Hr Hd.
  - replace j with (any_level b) by lia. rewrite any_go_here. exists b. split; [done|].
    pose proof Hr as (_ & <- & _). rewrite am_go_self. by destruct m.
  - destruct (decide (j < any_level b)%nat) as [Hlt|Hge].
    + destruct (any_rep_last b m Hr) as (pre & sec & E & Hl); [lia|].
      destruct (any_rewind_rep b m pre sec Hr E Hl) as (b1 & Hb1 & Hr1 & Hl1).
      rewrite any_go_down, Hb1 by done.
      assert (Hl2 : any_level (any_strip b1) = length pre) by (destruct b1; simpl in *; lia).
      destruct (IH (any_strip b1) (am_with m pre)) as (b' & Hb' & Hr');
        [by eapply (any_strip_rep b1 _ pre Hr1); [|congruence]|lia|].
      exists b'. split; [done|]. simpl in Hr'. rewrite E, am_go_below by lia. done.
    + destruct (any_open_rep b m Hr) as [Hr1 Hl1]; [lia|]. rewrite any_go_up by lia.
      destruct (IH (any_open b) _ Hr1) as (b' & Hb' & Hr'); [lia|]. exists b'. split; [done|].
      simpl in Hr'. rewrite am_go_open in Hr' by (pose proof Hr as (_ & -> & _); lia). done.
Qed.

(** Replacing the header or the limit. *)
Lemma any_rep_same b m mb' hd lim :
  any_rep b m -> mb_rep mb' (mkAmsg hd lim (am_secs m)) ->
  any_rep (any_with mb' b) (mkAmsg hd lim (am_secs m)).
Proof.
  intros (_ & Hl & Hs) Hr. unfold any_rep. by rewrite any_with_mb, any_with_level, any_with_starts.
Qed.

Lemma any_call_rep c b m :
  any_rep b m -> call_fits (any_level b) c ->
  exists b' r m', any_call c b = Ret (b', r) /\ am_step c m r m' /\ any_rep b' m' /\
    any_level b' = call_level (any_level b) c.
Proof.
  intros Hr Hf. pose proof (proj1 Hr) as Hmb. pose proof Hmb as [Hwf Hp].
  destruct c as [j| |push|s|limit|]; cbn [any_call call_fits call_level] in *.
  - destruct (any_go_rep j b m Hr Hf) as (b' & -> & Hr'). eexists _, _, _; split_and!; [done|constructor|done|].
    destruct Hr' as (_ & <- & _). simpl. unfold am_go.
    rewrite length_app, length_take, length_replicate. lia.
  - destruct (any_rep_last b m Hr Hf) as (pre & sec & E & Hl).
    destruct (any_rewind_rep b m pre sec Hr E Hl) as (b' & -> & Hr' & Hl').
    eexists _, _, _; split_and!; [done|by econstructor|done..].
  - destruct Hf as [H0' Hok]. destruct (any_rep_last b m Hr H0') as (pre & sec & E & Hl).
    destruct (Hok (mb_target (any_mb b))) as (t' & ok & s & Ht & Hs).
    assert (Hw : push_writes push m s ok).
    { exists (mb_target (any_mb b)), t'. rewrite (mb_rep_wire _ _ Hmb) in *. done. }
    destruct (mb_push_rep _ _ _ _ _ _ _ _ Hmb E Ht Hs) as (mb' & r & Hpush & Hres).
    rewrite (any_push_mb push b pre Hl), Hpush. pose proof (am_push_spec m pre sec s ok) as Ea.
    destruct (am_push m pre sec s ok) as [m'|e].
    + destruct Hres as [-> Hr'], Ea as [Ea ->]. eexists _, _, _; split_and!; [done|by econstructor| |apply any_with_level].
      by eapply any_rep_with.
    + destruct Hres as [-> Hr']. eexists _, _, _; split_and!; [done|by econstructor| |apply any_with_level].
      destruct m as [hd lim secs]. exact (any_rep_same b (mkAmsg hd lim secs) mb' hd lim Hr Hr').
  - edestruct (mb_header_mut_parts (apply_set s)) as (mb' & -> & Hp'); [exact Hp| |].
    { destruct (apply_set_spec (am_header m) s) as [[? _] _]; [apply Hwf|done|]. by destruct (am_header m). }
    eexists _, _, _; split_and!; [done|constructor| |apply any_with_level]. apply any_rep_same; [done|].
    split; [|by destruct (am_header m)]. destruct Hwf as (? & ? & ?). split_and!; [|done..]. by apply apply_set_spec.
  - eexists _, _, _; split_and!; [done|constructor| |apply any_with_level]. apply any_rep_same; [done|].
    split; [done|]. by destruct Hp as (? & ? & ? & _).
  - eexists _, _, _; split_and!; [done|constructor| |apply any_with_level]. apply any_rep_same; [done|].
    split; [done|]. by destruct Hp as (? & ? & ? & _).
Qed.

Lemma any_calls_rep cs b m :
  any_rep b m -> calls_fit (any_level b) cs ->
  exists b' rs m', any_calls cs b = Ret (b', rs) /\ am_steps cs m rs m' /\ any_rep b' m'.
Proof.
  revert b m; induction cs as [|c cs IH]; intros b m Hr Hf; simpl in *.
  - exists b, [], m. split_and!; [done|constructor|done].
  - destruct Hf as [Hf Hfs]. destruct (any_call_rep c b m Hr Hf) as (b1 & r & m1 & -> & Hs & Hr1 & Hl1).
    destruct (IH b1 m1 Hr1) as (b2 & rs & m2 & -> & Hss & Hr2); [by rewrite Hl1|].
    eexists _, _, _; split_and!; [done|by econstructor|done].
Qed.

Lemma from_target_rep target mb :
  mb_from_target target = Some mb -> any_rep (BMessage mb) (mkAmsg header_new NO_LIMIT []).
Proof.
  unfold mb_from_target. destruct (append_slice _ _) as [b'|] eqn:E; [|done]. intros [= <-].
  split; [|done]. split; [split_and!; [split; [done|by repeat constructor]|simpl; lia|constructor]|].
  split_and!; try done. simpl. apply as_ref_append in E. rewrite E, as_ref_truncate. done.
Qed.

(** A message builder over any target, driven through any sequence of calls
    it offers (moving between the sections, pushing items whose composing appends
    to the target without a panic, rewinding, setting header fields to values they
    can have, and the push limit), never panics, and its octets are the
    message that the abstract builder makes of the same calls: the header, the
    four counts, each the number of items of its section, and the items of the
    sections in order.  A push fails, leaving the message alone, exactly when the
    item does not fit the target, the message would exceed the push limit, or the
    count is 65535.  For an item that makes the message exactly as long as the
    limit nothing is claimed of whether the push succeeds: the builder refuses it,
    its documentation speaks of exceeding the limit.  (C3) *)
Theorem message_builder_refines target mb cs :
  mb_from_target target = Some mb -> calls_fit 0 cs ->
  exists b rs m, any_calls cs (BMessage mb) = Ret (b, rs) /\
    am_steps cs (mkAmsg header_new NO_LIMIT []) rs m /\
    mb_as_slice (any_mb b) = am_wire m /\ am_wf m.
Proof.
  intros Hnew Hf. destruct (any_calls_rep cs _ _ (from_target_rep _ _ Hnew) Hf) as (b & rs & m & Hc & Hs & Hr).
  exists b, rs, m. split_and!; [done..|apply (mb_rep_wire _ _ (proj1 Hr))|apply (proj1 Hr)].
Qed.
End Correct.

Lemma message_builder_refines_witness :
  exists mb b rs, mb_from_target (B:=list Z) [9] = Some mb /\
    any_calls [CHeader (SetId 258); CGo 1; CPush (fun t => Ret (t ++ [7; 7], true)); CGo 4;
               CPush (fun t => Ret (t ++ [8], true)); CPush (fun t => Ret (t ++ [9], false)); CGo 2; CSetLimit 15;
               CPush (fun t => Ret (t ++ [9], true))] (BMessage mb) = Ret (b, rs) /\
    rs = [Ok (); Ok (); Ok (); Ok (); Ok (); Err PushShortBuf; Ok (); Ok (); Err PushShortBuf] /\
    exists m, mb_as_slice (any_mb b) = am_wire m /\
      am_wire m = [1; 2; 0; 0; 0; 1; 0; 0; 0; 0; 0; 0; 7; 7].
Proof.
  assert (Hok : forall s ok, pusher_ok (B:=list Z) (fun t => Ret (t ++ s, ok))).
  { intros s ok t. by exists (t ++ s), ok, s. }
  exists (mkMB (replicate 12 0) NO_LIMIT). set (cs := [_; _; _; _; _; _; _; _; _]).
  destruct (message_builder_refines (B:=list Z) [9] (mkMB (replicate 12 0) NO_LIMIT) cs) as (b & rs & m & Hc & _ & Hw & _);
    [reflexivity| |exists b, rs; split; [reflexivity|split; [exact Hc|]]].
  - simpl. split_and!; try done; try lia; ulia.
  - vm_compute in Hc. injection Hc as <- <-. split; [done|]. exists m. split; [exact Hw|]. by rewrite <- Hw.
Defined.

(** ** The length shim *)

Section StreamCorrect.
Context {B : Type} `{OctetsBuilderOk B} (oc : bool).

(** The target holds the message [s] behind its length. *)
Definition st_rep (t : StreamTarget B) (s : list Z) : Prop :=
  as_ref (st_target t) = to_be_bytes 2 (zlen s) ++ s /\ zlen s < 2 ^ 16.

Lemma st_new_rep target t : st_new target = Some t -> st_rep t [].
Proof.
  unfold st_new. destruct (u16_compose 0 _) as [b ok] eqn:E. destruct ok; [|done]. intros [= <-].
  apply (compose_slice_spec (to_be_bytes 2 0)) in E. split; [|done]. simpl. rewrite E, as_ref_truncate. done.
Qed.

(** The shim is brought up to date for any message that fits. *)
Lemma st_update_shim_spec (b : B) x s :
  length x = 2%nat -> as_ref b = x ++ s ->
  if decide (zlen s < 2 ^ 16)
  then exists t, st_update_shim oc (mkStream b) = Ret (t, true) /\ st_rep t s
  else st_update_shim oc (mkStream b) = Ret (mkStream b, false).
Proof.
  intros Hx Hb. unfold st_update_shim. cbn [st_target]. rewrite Hb.
  assert (Hlen : zlen (x ++ s) = 2 + zlen s) by (unfold zlen; rewrite length_app; lia).
  rewrite Hlen, usize_sub_ok by ulia. replace (2 + zlen s - 2) with (zlen s) by lia.
  destruct (decide _) as [Hs|Hs], (Z.ltb_spec (zlen s) (2 ^ 16)) as [Hs'|Hs']; try lia; [|done].
  destruct (Nat.ltb_spec (length (x ++ s)) 2) as [Hl|Hl]; [rewrite length_app in Hl; lia|].
  eexists; split; [done|]. split; [|done]. cbn [st_target].
  rewrite as_ref_write_octets by (rewrite Hb, length_to_be_bytes; lia).
  rewrite length_to_be_bytes, Hb, take_0. cbn [app Nat.add]. f_equal. by apply drop_app_length'.
Qed.

Lemma st_truncate_spec (b : B) x s n :
  length x = 2%nat -> as_ref b = x ++ s -> 0 <= n < 2 ^ 64 - 2 -> zlen (take (Z.to_nat n) s) < 2 ^ 16 ->
  exists t, st_truncate oc (mkStream b) n = Ret t /\ st_rep t (take (Z.to_nat n) s).
Proof.
  intros Hx Hb Hn Hs. unfold st_truncate. destruct (Z.leb_spec (2 ^ 64) (n + 2)); [lia|]. cbn [st_target].
  pose proof (st_update_shim_spec (builder_truncate b (Z.to_nat (n + 2))) x (take (Z.to_nat n) s) Hx) as Hsp.
  destruct (decide _); [|done]. destruct Hsp as (t & -> & Hr); [|by exists t].
  rewrite as_ref_truncate, Hb, take_app_ge by lia. do 2 f_equal. lia.
Qed.

(** A stream target always holds the length of the message before the message:
    an append adds to it, or fails when the message gets longer than 65535
    octets or the buffer is full, after which truncating to the old length
    restores the target; truncating and overwriting octets work on the
    message.  Nothing panics. *)
Theorem stream_target_correct t s :
  st_rep t s ->
  st_as_stream_slice t = to_be_bytes 2 (zlen s) ++ s /\ st_as_dgram_slice t = Ret s /\
  (forall x, exists t' ok, st_append_slice oc t x = Ret (t', ok) /\
     if ok then st_rep t' (s ++ x)
     else (append_slice (st_target t) x = None \/ 2 ^ 16 <= zlen (s ++ x)) /\
          exists t2, st_truncate oc t' (zlen s) = Ret t2 /\ st_rep t2 s) /\
  (forall n, 0 <= n < 2 ^ 64 - 2 ->
     exists t', st_truncate oc t n = Ret t' /\ st_rep t' (take (Z.to_nat n) s)) /\
  (forall i v, (i < length s)%nat -> exists t', st_set_octet t i v = Ret t' /\ st_rep t' (<[i:=v]> s)).
Proof.
  intros [Hr Hs]. destruct t as [b]; cbn [st_target] in Hr.
  assert (H2 : length (to_be_bytes 2 (zlen s)) = 2%nat) by apply length_to_be_bytes.
  assert (Ht : take (Z.to_nat (zlen s)) s = s) by (unfold zlen; by rewrite Nat2Z.id, firstn_all).
  split_and!.
  - done.
  - unfold st_as_dgram_slice. cbn [st_target]. rewrite Hr.
    destruct (Nat.ltb_spec (length (to_be_bytes 2 (zlen s) ++ s)) 2) as [Hl|_]; [rewrite length_app in Hl; lia|].
    done.
  - intros x. unfold st_append_slice. cbn [st_target]. destruct (append_slice b x) as [b'|] eqn:E.
    + apply as_ref_append in E. rewrite Hr, <- app_assoc in E. pose proof (st_update_shim_spec b' _ _ H2 E) as Hsp.
      destruct (decide _) as [Hd|Hd]; [destruct Hsp as (t' & -> & Hr'); by exists t', true|].
      rewrite Hsp. exists (mkStream b'), false. split; [done|]. split; [right; lia|].
      assert (Htx : take (Z.to_nat (zlen s)) (s ++ x) = s)
        by (apply take_app_length'; unfold zlen; lia).
      destruct (st_truncate_spec b' _ _ (zlen s) H2 E) as (t2 & Ht2 & Hr2); rewrite ?Htx in *;
        [ulia|done|by exists t2].
    + exists (mkStream b), false. split; [done|]. split; [by left|].
      destruct (st_truncate_spec b _ _ (zlen s) H2 Hr) as (t2 & Ht2 & Hr2); rewrite ?Ht in *;
        [ulia|done|by exists t2].
  - intros n Hn. apply (st_truncate_spec b _ _ n H2 Hr Hn). pose proof (length_take s (Z.to_nat n)). ulia.
  - intros i v Hi. unfold st_set_octet. cbn [st_target]. rewrite Hr.
    destruct (Nat.ltb_spec (i + 2) (length (to_be_bytes 2 (zlen s) ++ s))) as [_|Hl]; [|rewrite length_app in Hl; lia].
    eexists; split; [done|]. unfold st_rep; cbn [st_target].
    rewrite as_ref_set_octet by (rewrite Hr, length_app; lia). rewrite Hr.
    replace (i + 2)%nat with (length (to_be_bytes 2 (zlen s)) + i)%nat by lia. rewrite insert_app_r.
    unfold zlen in *. by rewrite length_insert.
Qed.
End StreamCorrect.

Lemma stream_target_correct_witness :
  exists t t', st_new (B:=list Z) [1; 2; 3] = Some t /\
    st_append_slice true t [5; 6; 7] = Ret (t', true) /\ st_as_stream_slice t' = [0; 3; 5; 6; 7].
Proof.
  destruct (stream_target_correct (B:=list Z) true (mkStream [0; 0]) []) as (_ & _ & Ha & _);
    [by apply (st_new_rep [1; 2; 3])|].
  destruct (Ha [5; 6; 7]) as (t' & ok & Ht & _). vm_compute in Ht. injection Ht as <- <-.
  by eexists _, _.
Defined.

(** The limit is exclusive: a message that is exactly as long as the limit is
    refused. *)
Lemma push_limit_exclusive :
  mb_push (B:=list Z) (fun t => Ret (t ++ [7], true)) inc_qdcount (mkMB (replicate 12 0) 13) =
  Ret (mkMB (replicate 12 0) 13, Err PushShortBuf).
Proof. reflexivity. Qed.
