(* ===== verification/Message.v ===== *)
(** * Reading messages ([src/src/base/message.rs], [question.rs], [record.rs])

    A message is read section by section: an iterator over questions or records
    holds a parser and the number of items left; going to the next section skips
    the items left.  The file proves that no octets whatsoever make reading panic
    or loop, that a message that holds items, its names compressed or not, gives
    back exactly these items, in the sections and through the iterator over all
    records, and when a message is an answer to a query. *)

From S2P Require Import Prelude Octets Symbol Label Traits Name ParsedName Header Compressor MessageBuilder.
From stdpp Require Import strings.
#[local] Open Scope Z_scope.

(** Parsing of names ends ([parsed_parse_spec], [parsed_skip_total]); if it did
    not, neither would its callers, which is a [Panic] here. *)
Definition ended {A} (o : option A) : outcome A := match o with Some a => Ret a | None => Panic end.

(** [?] on a computation that may panic. *)
Notation "'let!?' x := c 'in' k" :=
  (match c with Ret (Ok x) => k | Ret (Err err) => Ret (Err err) | Panic => Panic end)
  (at level 10, x pattern, c at level 100, k at level 200) : rust_scope.

(** ** Questions *)

Record Question (N : Type) := mkQuestion { qname : N; qtype : Z; qclass : Z }.
Arguments mkQuestion {N} qname qtype qclass.
Arguments qname {N} _.
Arguments qtype {N} _.
Arguments qclass {N} _.

Definition CLASS_IN : Z := 1.

Definition question_new_in {N} (qname : N) (qtype : Z) : Question N := mkQuestion qname qtype CLASS_IN.

(** ** Records *)

Record RecordHeader (N : Type) := mkRecordHeader {
  rh_owner : N; rh_rtype : Z; rh_class : Z; rh_ttl : Z; rh_rdlen : Z
}.
Arguments mkRecordHeader {N} rh_owner rh_rtype rh_class rh_ttl rh_rdlen.
Arguments rh_owner {N} _.
Arguments rh_rtype {N} _.
Arguments rh_class {N} _.
Arguments rh_ttl {N} _.
Arguments rh_rdlen {N} _.

(** The data is a parser that stands at the record data. *)
Record ParsedRecord (P : Type) := mkParsedRecord { pr_header : RecordHeader ParsedName; pr_data : P }.
Arguments mkParsedRecord {P} pr_header pr_data.
Arguments pr_header {P} _.
Arguments pr_data {P} _.

(** ** Sections *)

Inductive RSection := Answer | Authority | Additional.

Definition section_first : RSection := Answer.

Definition section_count (s : RSection) (counts : HeaderCounts) : Z :=
  match s with Answer => ancount counts | Authority => nscount counts | Additional => arcount counts end.

Definition section_next (s : RSection) : option RSection :=
  match s with Answer => Some Authority | Authority => Some Additional | Additional => None end.

(** The error of a failed parse stays in the count. *)
Record QuestionSection (P : Type) := mkQS { qs_parser : P; qs_count : result Z ParseError }.
Arguments mkQS {P} qs_parser qs_count.
Arguments qs_parser {P} _.
Arguments qs_count {P} _.

Record RecordSection (P : Type) := mkRS {
  rs_parser : P; rs_section : RSection; rs_count : result Z ParseError
}.
Arguments mkRS {P} rs_parser rs_section rs_count.
Arguments rs_parser {P} _.
Arguments rs_section {P} _.
Arguments rs_count {P} _.

Section Reading.
Context {P : Type} `{OctetsParser P} `{!OctetsParserRef P}.

Definition question_parse (p : P) : outcome (result (Question ParsedName * P) ParseError) :=
  let!? (name, p) := ended (parsed_parse p) in
  Ret (let? (t, p) := u16_parse p in
       let? (c, p) := u16_parse p in
       Ok (mkQuestion name t c, p)).

Definition record_header_parse_ref (p : P) : outcome (result (RecordHeader ParsedName * P) ParseError) :=
  let!? (owner, p) := ended (parsed_parse p) in
  Ret (let? (t, p) := u16_parse p in
       let? (c, p) := u16_parse p in
       let? (ttl, p) := u32_parse p in
       let? (rdlen, p) := u16_parse p in
       Ok (mkRecordHeader owner t c ttl rdlen, p)).

Definition record_parse_rdlen (p : P) : outcome (result (Z * P) ParseError) :=
  let!? p := ended (parsed_skip p) in
  Ret (let? p := short (p_advance p 8) in u16_parse p).

Definition parsed_record_parse (p : P) : outcome (result (ParsedRecord P * P) ParseError) :=
  let!? (header, data) := record_header_parse_ref p in
  Ret (let? p := short (p_advance data (Z.to_nat (rh_rdlen header))) in Ok (mkParsedRecord header data, p)).

Definition parsed_record_skip (p : P) : outcome (result P ParseError) :=
  let!? (rdlen, p) := record_parse_rdlen p in
  Ret (short (p_advance p (Z.to_nat rdlen))).

(** ** Iterating over the sections *)

(** [QuestionSection::new]: [unwrap] on an advance over the header. *)
Definition qs_new (octets : list Z) : outcome (QuestionSection P) :=
  match p_advance (p_from_ref octets : P) 12 with
  | None => Panic
  | Some p => let! counts := counts_for_message_slice (p_octets p) in Ret (mkQS p (Ok (qdcount counts)))
  end.

Definition qs_next (qs : QuestionSection P)
    : outcome (option (result (Question ParsedName) ParseError) * QuestionSection P) :=
  match qs_count qs with
  | Ok count =>
      if 0 <? count then
        let! r := question_parse (qs_parser qs) in
        match r with
        | Ok (q, p) => Ret (Some (Ok q), mkQS p (Ok (count - 1)))
        | Err err => Ret (Some (Err err), mkQS (qs_parser qs) (Err err))
        end
      else Ret (None, qs)
  | Err _ => Ret (None, qs)
  end.

(** [while self.next().is_some() {}]; every round takes one off the count, or
    leaves an error in it. *)
Fixpoint qs_drain (fuel : nat) (qs : QuestionSection P) : outcome (QuestionSection P) :=
  match fuel with
  | O => Panic
  | S fuel' =>
      let! (item, qs') := qs_next qs in
      match item with Some _ => qs_drain fuel' qs' | None => Ret qs' end
  end.

Definition section_fuel : nat := Pos.to_nat (2 ^ 16 + 1).

Definition rs_new (p : P) (section : RSection) : outcome (RecordSection P) :=
  let! counts := counts_for_message_slice (p_octets p) in
  Ret (mkRS p section (Ok (section_count section counts))).

Definition qs_answer (qs : QuestionSection P) : outcome (result (RecordSection P) ParseError) :=
  let! qs := qs_drain section_fuel qs in
  match qs_count qs with
  | Err e => Ret (Err e)
  | Ok _ => let! rs := rs_new (qs_parser qs) section_first in Ret (Ok rs)
  end.

Definition rs_next (rs : RecordSection P)
    : outcome (option (result (ParsedRecord P) ParseError) * RecordSection P) :=
  match rs_count rs with
  | Ok count =>
      if 0 <? count then
        let! r := parsed_record_parse (rs_parser rs) in
        match r with
        | Ok (record, p) => Ret (Some (Ok record), mkRS p (rs_section rs) (Ok (count - 1)))
        | Err err => Ret (Some (Err err), mkRS (rs_parser rs) (rs_section rs) (Err err))
        end
      else Ret (None, rs)
  | Err _ => Ret (None, rs)
  end.

Definition rs_skip_next (rs : RecordSection P)
    : outcome (option (result unit ParseError) * RecordSection P) :=
  match rs_count rs with
  | Ok count =>
      if 0 <? count then
        let! r := parsed_record_skip (rs_parser rs) in
        match r with
        | Ok p => Ret (Some (Ok ()), mkRS p (rs_section rs) (Ok (count - 1)))
        | Err err => Ret (Some (Err err), mkRS (rs_parser rs) (rs_section rs) (Err err))
        end
      else Ret (None, rs)
  | Err _ => Ret (None, rs)
  end.

Fixpoint rs_drain (fuel : nat) (rs : RecordSection P) : outcome (RecordSection P) :=
  match fuel with
  | O => Panic
  | S fuel' =>
      let! (item, rs') := rs_skip_next rs in
      match item with Some _ => rs_drain fuel' rs' | None => Ret rs' end
  end.

Definition rs_next_section (rs : RecordSection P)
    : outcome (result (option (RecordSection P)) ParseError) :=
  match section_next (rs_section rs) with
  | None => Ret (Ok None)
  | Some section =>
      let! rs := rs_drain section_fuel rs in
      match rs_count rs with
      | Err e => Ret (Err e)
      | Ok _ => let! rs' := rs_new (rs_parser rs) section in Ret (Ok (Some rs'))
      end
  end.

(** [next_section()?.unwrap()]. *)
Definition rs_next_section_unwrap (rs : RecordSection P) : outcome (result (RecordSection P) ParseError) :=
  let!? rs' := rs_next_section rs in
  match rs' with Some rs' => Ret (Ok rs') | None => Panic end.
End Reading.

#[global] Arguments section_fuel : simpl never.

(** ** Messages *)

Record Message := mkMessage { msg_octets : list Z }.

Inductive ShortMessage := ShortMessageErr.

Definition msg_check_slice (s : list Z) : result unit ShortMessage :=
  if (length s <? 12)%nat then Err ShortMessageErr else Ok ().

Definition msg_from_octets (s : list Z) : result Message ShortMessage :=
  let? _ := msg_check_slice s in Ok (mkMessage s).

Definition msg_try_from_octets (s : list Z) : result Message (list Z) :=
  match msg_check_slice s with Err _ => Err s | Ok _ => Ok (mkMessage s) end.

Definition msg_header (m : Message) : outcome Header := header_for_message_slice (msg_octets m).
Definition msg_header_counts (m : Message) : outcome HeaderCounts := counts_for_message_slice (msg_octets m).
Definition msg_header_section (m : Message) : outcome HeaderSection := section_for_message_slice (msg_octets m).

(** [Rcode::NOERROR] is zero. *)
Definition msg_no_error (m : Message) : outcome bool :=
  let! h := msg_header m in Ret (header_rcode h =? 0).
Definition msg_is_error (m : Message) : outcome bool :=
  let! h := msg_header m in Ret (negb (header_rcode h =? 0)).

Definition msg_remove_last_additional (m : Message) : outcome Message :=
  let! counts := msg_header_counts m in
  let! counts' := dec_arcount counts in
  let! s := counts_update_slice (msg_octets m) (fun _ => counts') in
  Ret (mkMessage s).

Section Messages.
Context {P : Type} `{OctetsParser P} `{!OctetsParserRef P}.

Definition msg_question (m : Message) : outcome (QuestionSection P) := qs_new (msg_octets m).

Definition msg_answer (m : Message) : outcome (result (RecordSection P) ParseError) :=
  let! qs := msg_question m in qs_answer qs.

Definition msg_authority (m : Message) : outcome (result (RecordSection P) ParseError) :=
  let!? rs := msg_answer m in rs_next_section_unwrap rs.

Definition msg_additional (m : Message) : outcome (result (RecordSection P) ParseError) :=
  let!? rs := msg_authority m in rs_next_section_unwrap rs.

Definition msg_sections (m : Message)
    : outcome (result (QuestionSection P * RecordSection P * RecordSection P * RecordSection P) ParseError) :=
  let! question := msg_question m in
  let!? answer := qs_answer question in
  let!? authority := rs_next_section_unwrap answer in
  let!? additional := rs_next_section_unwrap authority in
  Ret (Ok (question, answer, authority, additional)).

Definition msg_first_question (m : Message) : outcome (option (Question ParsedName)) :=
  let! qs := msg_question m in
  let! (item, _) := qs_next qs in
  Ret (match item with Some (Ok q) => Some q | _ => None end).

Definition msg_sole_question (m : Message) : outcome (result (Question ParsedName) ParseError) :=
  let! counts := msg_header_counts m in
  if qdcount counts =? 0 then Ret (Err (parse_form_error "no question"))
  else if qdcount counts =? 1 then
    let! qs := msg_question m in
    let! (item, _) := qs_next qs in
    match item with Some r => Ret r | None => Panic end
  else Ret (Err (parse_form_error "multiple questions")).

(** [Rtype::AXFR] is 252, [Rtype::IXFR] is 251. *)
Definition msg_is_xfr (m : Message) : outcome bool :=
  let! q := msg_first_question m in
  Ret (match q with Some q => (qtype q =? 252) || (qtype q =? 251) | None => false end).

Definition msg_qtype (m : Message) : outcome (option Z) :=
  let! q := msg_first_question m in Ret (option_map qtype q).

Definition question_eq (a b : Question ParsedName) : outcome bool :=
  let! eq := name_eq (qname a) (qname b) in
  Ret (eq && (qtype a =? qtype b) && (qclass a =? qclass b)).

(** [PartialEq for QuestionSection]. *)
Fixpoint qs_eq_loop (fuel : nat) (me other : QuestionSection P) : outcome bool :=
  match fuel with
  | O => Panic
  | S fuel' =>
      let! (lhs, me') := qs_next me in
      let! (rhs, other') := qs_next other in
      match lhs, rhs with
      | Some (Ok l), Some (Ok r) =>
          let! eq := question_eq l r in
          if eq : bool then qs_eq_loop fuel' me' other' else Ret false
      | None, None => Ret true
      | _, _ => Ret false
      end
  end.

Definition qs_eq (me other : QuestionSection P) : outcome bool := qs_eq_loop section_fuel me other.

Definition msg_is_answer (m query : Message) : outcome bool :=
  let! h := msg_header m in
  let! hq := msg_header query in
  let! c := msg_header_counts m in
  let! cq := msg_header_counts query in
  if negb (header_qr h) || negb (header_id h =? header_id hq) || negb (qdcount c =? qdcount cq) then Ret false
  else
    let! qs := msg_question m in
    let! qsq := msg_question query in
    qs_eq qs qsq.

(** ** Iterating over all records *)

Definition msg_iter (m : Message) : outcome (option (RecordSection P)) :=
  let! r := msg_answer m in Ret (match r with Ok rs => Some rs | Err _ => None end).

(** [MessageIter::next] calls itself once per section at most. *)
Fixpoint msg_iter_next (fuel : nat) (inner : option (RecordSection P))
    : outcome (option (result (ParsedRecord P * RSection) ParseError) * option (RecordSection P)) :=
  match fuel with
  | O => Panic
  | S fuel' =>
      match inner with
      | None => Ret (None, None)
      | Some rs =>
          let! (item, rs') := rs_next rs in
          match item with
          | Some (Ok record) => Ret (Some (Ok (record, rs_section rs')), Some rs')
          | Some (Err err) => Ret (Some (Err err), Some rs')
          | None =>
              let! next := rs_next_section rs' in
              match next with
              | Ok section => msg_iter_next fuel' section
              | Err err => Ret (Some (Err err), None)
              end
          end
      end
  end.

Definition iter_fuel : nat := 4.
End Messages.

(** ** Counted iteration

    The iterators over questions and records, and the skipping of records, are
    the same loop around a parsing function. *)

Section Counted.
Context {P A : Type} `{OctetsParserOk P}.
Context (parse : P -> outcome (result (A * P) ParseError)).

Definition counted_next (st : P * result Z ParseError)
    : outcome (option (result A ParseError) * (P * result Z ParseError)) :=
  match st.2 with
  | Ok count =>
      if 0 <? count then
        let! r := parse st.1 in
        match r with
        | Ok (a, p) => Ret (Some (Ok a), (p, Ok (count - 1)))
        | Err err => Ret (Some (Err err), (st.1, Err err))
        end
      else Ret (None, st)
  | Err _ => Ret (None, st)
  end.

(** What a [for] loop over the iterator sees, and the state it leaves. *)
Fixpoint counted_collect (fuel : nat) (st : P * result Z ParseError)
    : outcome (list (result A ParseError) * (P * result Z ParseError)) :=
  match fuel with
  | O => Panic
  | S fuel' =>
      let! (item, st') := counted_next st in
      match item with
      | Some a => let! (l, st2) := counted_collect fuel' st' in Ret (a :: l, st2)
      | None => Ret ([], st')
      end
  end.

Context (s : list Z).

(** A parser somewhere in the octets [s]. *)
Definition parser_over (p : P) : Prop := p_octets p = s /\ p_len p = length s.

Context (Hsafe : forall p, parser_over p -> exists r, parse p = Ret r /\
  forall a p', r = Ok (a, p') -> parser_over p').

Lemma counted_total fuel p (count : Z) :
  parser_over p -> count < Z.of_nat fuel -> (0 < fuel)%nat ->
  exists l p' c, counted_collect fuel (p, Ok count) = Ret (l, (p', c)) /\ parser_over p' /\
    (forall n, c = Ok n -> n <= 0).
Proof using Hsafe.
  revert p count; induction fuel as [|fuel IH]; intros p count Hp Hc Hf; [lia|].
  cbn [counted_collect]. unfold counted_next; cbn [fst snd].
  destruct (Z.ltb_spec 0 count).
  2: { eexists _, _, _; split_and!; [done|done|]. by intros n [= <-]. }
  destruct (Hsafe p Hp) as (r & -> & Hr). destruct r as [[a p1]|err].
  - destruct (IH p1 (count - 1)) as (l & p' & c & -> & ? & ?); [by eapply Hr|lia..|].
    by eexists _, _, _.
  - destruct fuel as [|fuel]; [lia|]. simpl. eexists _, _, _; split_and!; [done|done|done].
Qed.

(** Items that lie one behind the other. *)
Inductive items_at {X} (at_ : nat -> X -> nat -> Prop) : nat -> list X -> nat -> Prop :=
  | items_nil pos : items_at at_ pos [] pos
  | items_cons pos x e l e' : at_ pos x e -> items_at at_ e l e' -> items_at at_ pos (x :: l) e'.

Context {X : Type} (at_ : nat -> X -> nat -> Prop) (is_ : A -> X -> Prop).
Context (Hparse : forall p x e, parser_over p -> at_ (p_pos p) x e ->
  exists a p', parse p = Ret (Ok (a, p')) /\ is_ a x /\ parser_over p' /\ p_pos p' = e).

Lemma counted_items fuel p l e :
  parser_over p -> items_at at_ (p_pos p) l e -> (length l < fuel)%nat ->
  exists as_ p', counted_collect fuel (p, Ok (zlen l)) = Ret (map Ok as_, (p', Ok 0)) /\
    Forall2 is_ as_ l /\ parser_over p' /\ p_pos p' = e.
Proof using Hparse.
  intros Hp Hi. remember (p_pos p) as pos eqn:Hpos. revert fuel p Hp Hpos.
  induction Hi as [pos|pos x e0 l e Hx Hi IH]; intros fuel p Hp ->; (destruct fuel as [|fuel]; [simpl; lia|]);
    intros Hf; cbn [counted_collect]; unfold counted_next; cbn [fst snd].
  - exists [], p. by split_and!.
  - destruct (Z.ltb_spec 0 (zlen (x :: l))); [|unfold zlen in *; simpl in *; lia].
    destruct (Hparse p x e0 Hp Hx) as (a & p1 & -> & Ha & Hp1 & <-).
    destruct (IH fuel p1 Hp1 eq_refl) as (as_ & p' & Hc & Has & Hp' & He); [simpl in Hf; lia|].
    replace (zlen (x :: l) - 1) with (zlen l) by (unfold zlen; simpl length; lia). rewrite Hc.
    exists (a :: as_), p'. split_and!; [done|by constructor|done..].
Qed.
End Counted.

Section Iterators.
Context {P : Type} `{OctetsParser P}.

Definition qs_state (qs : QuestionSection P) : P * result Z ParseError := (qs_parser qs, qs_count qs).
Definition rs_state (rs : RecordSection P) : P * result Z ParseError := (rs_parser rs, rs_count rs).

(** The items of a section, as a [for] loop sees them. *)
Fixpoint qs_collect (fuel : nat) (qs : QuestionSection P)
    : outcome (list (result (Question ParsedName) ParseError)) :=
  match fuel with
  | O => Panic
  | S fuel' =>
      let! (item, qs') := qs_next qs in
      match item with Some a => let! l := qs_collect fuel' qs' in Ret (a :: l) | None => Ret [] end
  end.

Fixpoint rs_collect (fuel : nat) (rs : RecordSection P)
    : outcome (list (result (ParsedRecord P) ParseError)) :=
  match fuel with
  | O => Panic
  | S fuel' =>
      let! (item, rs') := rs_next rs in
      match item with Some a => let! l := rs_collect fuel' rs' in Ret (a :: l) | None => Ret [] end
  end.

(** Skipping as parsing without a result. *)
Definition skip_unit (p : P) : outcome (result (unit * P) ParseError) :=
  let! r := parsed_record_skip p in Ret (result_map (fun p => ((), p)) r).

Lemma qs_next_counted qs :
  qs_next qs = let! (item, st) := counted_next question_parse (qs_state qs) in Ret (item, mkQS st.1 st.2).
Proof.
  destruct qs as [p [c|e]]; unfold qs_next, counted_next; cbn [qs_count qs_parser qs_state fst snd]; [|done].
  destruct (0 <? c); [|done]. by destruct (question_parse p) as [[[]|]|].
Qed.

Lemma rs_next_counted rs :
  rs_next rs = let! (item, st) := counted_next parsed_record_parse (rs_state rs) in
               Ret (item, mkRS st.1 (rs_section rs) st.2).
Proof.
  destruct rs as [p k [c|e]]; unfold rs_next, counted_next; cbn [rs_count rs_parser rs_section rs_state fst snd];
    [|done]. destruct (0 <? c); [|done]. by destruct (parsed_record_parse p) as [[[]|]|].
Qed.

Lemma rs_skip_next_counted rs :
  rs_skip_next rs = let! (item, st) := counted_next skip_unit (rs_state rs) in
                    Ret (item, mkRS st.1 (rs_section rs) st.2).
Proof.
  destruct rs as [p k [c|e]]; unfold rs_skip_next, counted_next, skip_unit;
    cbn [rs_count rs_parser rs_section rs_state fst snd]; [|done].
  destruct (0 <? c); [|done]. by destruct (parsed_record_skip p) as [[]|].
Qed.

Lemma qs_drain_counted fuel qs :
  qs_drain fuel qs = let! (_, st) := counted_collect question_parse fuel (qs_state qs) in Ret (mkQS st.1 st.2).
Proof.
  revert qs; induction fuel as [|fuel IH]; intros qs; [done|]. cbn [qs_drain counted_collect].
  rewrite qs_next_counted. destruct (counted_next _ _) as [[[a|] st]|]; [|done..].
  rewrite IH. unfold qs_state; cbn [qs_parser qs_count]. rewrite <- surjective_pairing.
  by destruct (counted_collect _ _ _) as [[? []]|].
Qed.

Lemma rs_drain_counted fuel rs :
  rs_drain fuel rs = let! (_, st) := counted_collect skip_unit fuel (rs_state rs) in
                     Ret (mkRS st.1 (rs_section rs) st.2).
Proof.
  revert rs; induction fuel as [|fuel IH]; intros rs; [done|]. cbn [rs_drain counted_collect].
  rewrite rs_skip_next_counted. destruct (counted_next _ _) as [[[a|] st]|]; [|done..].
  rewrite IH. unfold rs_state; cbn [rs_parser rs_count rs_section]. rewrite <- surjective_pairing.
  by destruct (counted_collect _ _ _) as [[? []]|].
Qed.

Lemma qs_collect_counted fuel qs :
  qs_collect fuel qs = let! (l, _) := counted_collect question_parse fuel (qs_state qs) in Ret l.
Proof.
  revert qs; induction fuel as [|fuel IH]; intros qs; [done|]. cbn [qs_collect counted_collect].
  rewrite qs_next_counted. destruct (counted_next _ _) as [[[a|] st]|]; [|done..].
  rewrite IH. unfold qs_state; cbn [qs_parser qs_count]. rewrite <- surjective_pairing.
  by destruct (counted_collect _ _ _) as [[? []]|].
Qed.

Lemma rs_collect_counted fuel rs :
  rs_collect fuel rs = let! (l, _) := counted_collect parsed_record_parse fuel (rs_state rs) in Ret l.
Proof.
  revert rs; induction fuel as [|fuel IH]; intros rs; [done|]. cbn [rs_collect counted_collect].
  rewrite rs_next_counted. destruct (counted_next _ _) as [[[a|] st]|]; [|done..].
  rewrite IH. unfold rs_state; cbn [rs_parser rs_count]. rewrite <- surjective_pairing.
  by destruct (counted_collect _ _ _) as [[? []]|].
Qed.
End Iterators.

(** ** Parsing never panics *)

Section Safety.
Context {P : Type} `{OctetsParserOk P} `{!OctetsParserRef P} `{!OctetsParserRefOk P}.
Context (s : list Z) (Hs : wf_octets s).

Abbreviation over := (parser_over (P:=P) s).

Lemma over_moved (p p' : P) n : over p -> moved p p' n -> over p'.
Proof. intros [H1 H2] (H3 & H4 & _). split; congruence. Qed.

Lemma parse_octets_over (p p' : P) n x : over p -> p_parse_octets p n = Some (x, p') -> over p'.
Proof.
  intros Hp E. destruct (decide (n <= p_remaining p)%nat) as [Hn|Hn].
  - destruct (p_parse_octets_ok p n Hn) as (q & Hq & Hm). rewrite Hq in E. simplify_eq. by eapply over_moved.
  - rewrite p_parse_octets_short in E by lia. done.
Qed.

Lemma u16_parse_over (p p' : P) v : over p -> u16_parse p = Ok (v, p') -> over p'.
Proof.
  intros Hp. unfold u16_parse. rewrite p_parse_u16_be_spec. destruct (p_parse_octets p 2) as [[x q]|] eqn:E; [|done].
  intros [= <- <-]. by eapply parse_octets_over.
Qed.

Lemma u32_parse_over (p p' : P) v : over p -> u32_parse p = Ok (v, p') -> over p'.
Proof.
  intros Hp. unfold u32_parse. rewrite p_parse_u32_be_spec. destruct (p_parse_octets p 4) as [[x q]|] eqn:E; [|done].
  intros [= <- <-]. by eapply parse_octets_over.
Qed.

Lemma advance_over (p p' : P) n : over p -> p_advance p n = Some p' -> over p'.
Proof. intros Hp E. apply advance_inv in E as [Hm _]. by eapply over_moved. Qed.

(** A parsing step keeps the parser within the octets and does not panic. *)
Definition parse_safe {A} (parse : P -> outcome (result (A * P) ParseError)) : Prop :=
  forall p, over p -> exists r, parse p = Ret r /\ forall a p', r = Ok (a, p') -> over p'.

Lemma question_parse_safe : parse_safe question_parse.
Proof using All.
  intros p Hp. unfold question_parse.
  destruct (parsed_parse_spec p) as (r & -> & Hok & _); [by rewrite (proj1 Hp)|]. cbn [ended].
  destruct r as [[n p1]|e]; [|by eexists].
  destruct (Hok _ _ eq_refl) as (ls & e & _ & _ & Hm). eexists; split; [done|].
  intros a p' Hr. pose proof (over_moved _ _ _ Hp Hm) as Hp1.
  destruct (u16_parse p1) as [[t p2]|] eqn:E1; [|done]. apply u16_parse_over in E1; [|done].
  destruct (u16_parse p2) as [[c p3]|] eqn:E2; [|done]. apply u16_parse_over in E2; [|done]. by simplify_eq.
Qed.

Lemma record_header_safe : parse_safe record_header_parse_ref.
Proof using All.
  intros p Hp. unfold record_header_parse_ref.
  destruct (parsed_parse_spec p) as (r & -> & Hok & _); [by rewrite (proj1 Hp)|]. cbn [ended].
  destruct r as [[n p1]|e]; [|by eexists].
  destruct (Hok _ _ eq_refl) as (ls & e & _ & _ & Hm). eexists; split; [done|].
  intros a p' Hr. pose proof (over_moved _ _ _ Hp Hm) as Hp1.
  destruct (u16_parse p1) as [[t p2]|] eqn:E1; [|done]. apply u16_parse_over in E1; [|done].
  destruct (u16_parse p2) as [[c p3]|] eqn:E2; [|done]. apply u16_parse_over in E2; [|done].
  destruct (u32_parse p3) as [[l p4]|] eqn:E3; [|done]. apply u32_parse_over in E3; [|done].
  destruct (u16_parse p4) as [[d p5]|] eqn:E4; [|done]. apply u16_parse_over in E4; [|done]. by simplify_eq.
Qed.

Lemma parsed_record_safe : parse_safe parsed_record_parse.
Proof using All.
  intros p Hp. unfold parsed_record_parse. destruct (record_header_safe p Hp) as (r & -> & Hr).
  destruct r as [[h d]|e]; [|by eexists]. eexists; split; [done|]. intros a p' Ha.
  destruct (p_advance d _) as [p1|] eqn:E; [|done]. simplify_eq/=. by eapply advance_over, E; eapply Hr.
Qed.

(** Skipping a name leaves the parser in the octets. *)
Lemma skip_loop_over fuel (p p' : P) n : over p -> parsed_skip_loop fuel p n = Some (Ok p') -> over p'.
Proof.
  revert p n; induction fuel as [|fuel IH]; intros p n Hp; [done|]. cbn [parsed_skip_loop].
  destruct (label_type_parse p) as [[lt p1]|] eqn:E; [|done].
  apply label_type_parse_sound in E as (q & _ & Hm). pose proof (over_moved _ _ _ Hp Hm) as Hp1.
  destruct lt as [b|]; [|by intros [= <-]]. destruct (b =? 0); [case_match; congruence|].
  destruct (p_advance p1 _) as [p2|] eqn:Ea; [|done]. cbn [short ok_or].
  case_match; [done|]. intros E. eapply IH, E. by eapply advance_over.
Qed.

Lemma skip_unit_safe : parse_safe skip_unit.
Proof using All.
  intros p Hp. unfold skip_unit, parsed_record_skip, record_parse_rdlen.
  destruct (parsed_skip_total p) as [r Hr]. rewrite Hr. cbn [ended]. destruct r as [p1|e]; [|by eexists].
  apply skip_loop_over in Hr; [|done].
  destruct (p_advance p1 8) as [p2|] eqn:E1; cbn [short ok_or]; [|by eexists].
  apply advance_over in E1; [|done]. destruct (u16_parse p2) as [[v p3]|] eqn:E2; [|by eexists].
  apply u16_parse_over in E2; [|done]. eexists; split; [done|]. intros [] p' Ha.
  destruct (p_advance p3 _) as [p4|] eqn:E3; [|done]. simplify_eq/=. by eapply advance_over.
Qed.

Lemma section_fuel_eq : Z.of_nat section_fuel = 65537.
Proof. unfold section_fuel. rewrite positive_nat_Z. done. Qed.

Lemma from_be_2 (x : list Z) : wf_octets x -> (length x <= 2)%nat -> 0 <= from_be_bytes x 0 < 2 ^ 16.
Proof.
  intros Hw Hl. destruct x as [|a [|b [|]]]; simpl in *; try lia;
    repeat (apply Forall_uncons in Hw as [? Hw]); ulia.
Qed.

Lemma get_u16_range (c : HeaderCounts) i : wf_octets (c_inner c) -> 0 <= get_u16 c i < 2 ^ 16.
Proof. intros Hw. apply from_be_2; [auto with octets|rewrite length_take; lia]. Qed.

(** A counter never exceeds the fuel of the loops. *)
Lemma fuel_enough c : c < 2 ^ 16 -> c < Z.of_nat section_fuel /\ (0 < section_fuel)%nat.
Proof. intros Hc. pose proof section_fuel_eq. lia. Qed.

Definition rs_over (rs : RecordSection P) : Prop :=
  over (rs_parser rs) /\ forall n, rs_count rs = Ok n -> n < 2 ^ 16.

Lemma rs_new_over p k :
  (12 <= length s)%nat -> over p -> exists rs, rs_new p k = Ret rs /\ rs_over rs /\ rs_section rs = k.
Proof using Hs.
  intros Hl Hp. unfold rs_new, counts_for_message_slice. rewrite (proj1 Hp).
  destruct (Nat.leb_spec 12 (length s)); [|lia]. eexists; split; [done|]. split; [|done]. split; [done|].
  intros n [= <-]. destruct k; apply get_u16_range; simpl; auto with octets.
Qed.

Lemma qs_new_over :
  (12 <= length s)%nat -> exists p n, qs_new s = Ret (mkQS p (Ok n)) /\ over p /\ p_pos p = 12%nat /\ n < 2 ^ 16 /\
    n = get_u16 (mkCounts (take 8 (drop 4 s))) 0.
Proof using All.
  intros Hl. unfold qs_new. destruct (p_from_ref_spec (P:=P) s) as (H1 & H2 & H3).
  destruct (p_advance_ok (p_from_ref s : P) 12) as (p & -> & Hm); [unfold p_remaining; lia|].
  pose proof Hm as (Ho & Hlen & Hpos). rewrite H1, H2, H3 in *.
  unfold counts_for_message_slice. rewrite Ho. destruct (Nat.leb_spec 12 (length s)); [|lia].
  eexists _, _; split; [done|]. split_and!; [by split; congruence|done| |done].
  apply get_u16_range; simpl; auto with octets.
Qed.

Lemma drain_skip rs :
  rs_over rs -> exists l st, counted_collect skip_unit section_fuel (rs_state rs) = Ret (l, st) /\ over st.1.
Proof using All.
  intros [Hp Hc]. unfold rs_state. destruct (rs_count rs) as [n|e].
  - destruct (fuel_enough n (Hc _ eq_refl)).
    destruct (counted_total _ _ skip_unit_safe section_fuel (rs_parser rs) n) as (l & p' & c & -> & ? & _);
      [done..|]. by eexists _, _.
  - destruct section_fuel as [|fuel] eqn:E; [pose proof section_fuel_eq; lia|]. by eexists _, _.
Qed.

Lemma rs_next_section_safe rs :
  (12 <= length s)%nat -> rs_over rs -> exists r, rs_next_section rs = Ret r /\
    match r with
    | Ok (Some rs') => rs_over rs' /\ Some (rs_section rs') = section_next (rs_section rs)
    | Ok None => section_next (rs_section rs) = None
    | Err _ => True
    end.
Proof using All.
  intros Hl Hr. unfold rs_next_section. destruct (section_next (rs_section rs)) as [k|]; [|by eexists].
  rewrite rs_drain_counted. destruct (drain_skip rs Hr) as (l & st & -> & Hp).
  cbn [rs_count rs_parser]. destruct st as [p [n|e]]; cbn [fst snd] in *; [|by eexists].
  destruct (rs_new_over p k Hl Hp) as (rs' & -> & Hr' & <-). by eexists.
Qed.

Lemma rs_next_section_unwrap_safe rs :
  (12 <= length s)%nat -> rs_over rs -> section_next (rs_section rs) <> None ->
  exists r, rs_next_section_unwrap rs = Ret r /\
    forall rs', r = Ok rs' -> rs_over rs' /\ Some (rs_section rs') = section_next (rs_section rs).
Proof using All.
  intros Hl Hr Hk. unfold rs_next_section_unwrap. destruct (rs_next_section_safe rs Hl Hr) as (r & -> & Hres).
  destruct r as [[rs'|]|e]; [|done|]; eexists; (split; [done|]); [|done]. by intros ? [= <-].
Qed.

Lemma msg_answer_safe :
  (12 <= length s)%nat -> exists r, msg_answer (mkMessage s) = Ret r /\
    forall rs, r = Ok rs -> rs_over rs /\ rs_section rs = Answer.
Proof using All.
  intros Hl. unfold msg_answer, msg_question; cbn [msg_octets].
  destruct (qs_new_over Hl) as (p & n & -> & Hp & _ & Hn & _). unfold qs_answer. rewrite qs_drain_counted.
  destruct (fuel_enough n Hn). unfold qs_state; cbn [qs_parser qs_count].
  destruct (counted_total _ _ question_parse_safe section_fuel p n) as (l & p' & c & -> & Hp' & _); [done..|].
  cbn [qs_count qs_parser fst snd]. destruct c as [c|e]; [|by eexists].
  destruct (rs_new_over p' section_first Hl Hp') as (rs & -> & Hr & Hk). eexists; split; [done|].
  by intros ? [= <-].
Qed.

Lemma msg_authority_safe :
  (12 <= length s)%nat -> exists r, msg_authority (mkMessage s) = Ret r /\
    forall rs, r = Ok rs -> rs_over rs /\ rs_section rs = Authority.
Proof using All.
  intros Hl. unfold msg_authority. destruct (msg_answer_safe Hl) as (r & -> & Hr).
  destruct r as [rs|e]; [|by eexists]. destruct (Hr _ eq_refl) as [Ho Hk].
  destruct (rs_next_section_unwrap_safe rs Hl Ho) as (r' & -> & Hr'); [by rewrite Hk|].
  eexists; split; [done|]. intros rs' ->. destruct (Hr' _ eq_refl) as [? Hk']. rewrite Hk in Hk'. by simplify_eq/=.
Qed.

Lemma msg_additional_safe :
  (12 <= length s)%nat -> exists r, msg_additional (mkMessage s) = Ret r /\
    forall rs, r = Ok rs -> rs_over rs /\ rs_section rs = Additional.
Proof using All.
  intros Hl. unfold msg_additional. destruct (msg_authority_safe Hl) as (r & -> & Hr).
  destruct r as [rs|e]; [|by eexists]. destruct (Hr _ eq_refl) as [Ho Hk].
  destruct (rs_next_section_unwrap_safe rs Hl Ho) as (r' & -> & Hr'); [by rewrite Hk|].
  eexists; split; [done|]. intros rs' ->. destruct (Hr' _ eq_refl) as [? Hk']. rewrite Hk in Hk'. by simplify_eq/=.
Qed.

Lemma rs_collect_safe rs : rs_over rs -> exists l, rs_collect section_fuel rs = Ret l.
Proof using All.
  intros [Hp Hc]. rewrite rs_collect_counted. unfold rs_state. destruct (rs_count rs) as [n|e].
  - destruct (fuel_enough n (Hc _ eq_refl)).
    destruct (counted_total _ _ parsed_record_safe section_fuel (rs_parser rs) n) as (l & p' & c & -> & _);
      [done..|]. by eexists.
  - destruct section_fuel as [|fuel] eqn:E; [pose proof section_fuel_eq; lia|]. by eexists.
Qed.
End Safety.

(** Whatever the octets of a message are, as long as there are the twelve of the
    header, reading it comes to an end without a panic: iterating over its
    questions, going to each of its record sections, which succeeds or reports an
    error, and iterating over the records of any section reached.  (C29) *)
Theorem message_reading_safe {P} `{OctetsParserOk P} `{!OctetsParserRef P} `{!OctetsParserRefOk P} (s : list Z) :
  wf_octets s -> (12 <= length s)%nat ->
  (exists qs l, msg_question (P:=P) (mkMessage s) = Ret qs /\ qs_collect section_fuel qs = Ret l) /\
  Forall (fun section => exists r, section (mkMessage s) = Ret r /\
      forall rs, r = Ok rs -> exists l, rs_collect section_fuel rs = Ret l)
    [msg_answer (P:=P); msg_authority (P:=P); msg_additional (P:=P)].
Proof.
  intros Hs Hl. split.
  - unfold msg_question; cbn [msg_octets]. destruct (qs_new_over (P:=P) s Hs Hl) as (p & n & -> & Hp & _ & Hn & _).
    destruct (fuel_enough n Hn). exists (mkQS p (Ok n)). rewrite qs_collect_counted. unfold qs_state; cbn [qs_parser qs_count].
    destruct (counted_total _ _ (question_parse_safe s Hs) section_fuel p n) as (l & p' & c & -> & _); [done..|].
    by eexists.
  - repeat constructor.
    + destruct (msg_answer_safe (P:=P) s Hs Hl) as (r & -> & Hr). eexists; split; [done|]. intros rs ->.
      by apply (rs_collect_safe s Hs), Hr.
    + destruct (msg_authority_safe (P:=P) s Hs Hl) as (r & -> & Hr). eexists; split; [done|]. intros rs ->.
      by apply (rs_collect_safe s Hs), Hr.
    + destruct (msg_additional_safe (P:=P) s Hs Hl) as (r & -> & Hr). eexists; split; [done|]. intros rs ->.
      by apply (rs_collect_safe s Hs), Hr.
Qed.

Lemma message_reading_safe_witness :
  exists qs l, msg_question (P:=slice_parser) (mkMessage ex_message) = Ret qs /\
    qs_collect section_fuel qs = Ret l.
Proof. apply (message_reading_safe (P:=slice_parser) ex_message); [by_decide|by_decide]. Defined.

(** ** What is in a message *)

(** A record as its fields; [Question (list (list Z))] is a question as its
    fields. *)
Record arecord := mkArecord {
  ar_owner : list (list Z); ar_rtype : Z; ar_class : Z; ar_ttl : Z; ar_data : list Z
}.

(** The octets behind the name. *)
Definition question_tail (q : Question (list (list Z))) : list Z :=
  to_be_bytes 2 (qtype q) ++ to_be_bytes 2 (qclass q).

Definition record_tail (r : arecord) : list Z :=
  to_be_bytes 2 (ar_rtype r) ++ to_be_bytes 2 (ar_class r) ++ to_be_bytes 4 (ar_ttl r) ++
  to_be_bytes 2 (zlen (ar_data r)) ++ ar_data r.

Definition question_fits (q : Question (list (list Z))) : Prop := is_u16 (qtype q) /\ is_u16 (qclass q).

Definition record_fits (r : arecord) : Prop :=
  is_u16 (ar_rtype r) /\ is_u16 (ar_class r) /\ is_u32 (ar_ttl r) /\ is_u16 (zlen (ar_data r)).

(** In the octets [s] there is at [pos] a name, possibly compressed, and behind it
    the octets [tail]. *)
Definition item_at (s : list Z) (pos : nat) (name : list (list Z)) (tail : list Z) (e : nat) : Prop :=
  exists e0, at_labels s pos name e0 /\ (length (labels_wire name) <= 255)%nat /\
    take (length tail) (drop e0 s) = tail /\ e = (e0 + length tail)%nat.

Definition question_at (s : list Z) (pos : nat) (q : Question (list (list Z))) (e : nat) : Prop :=
  question_fits q /\ item_at s pos (qname q) (question_tail q) e.

Definition record_at (s : list Z) (pos : nat) (r : arecord) (e : nat) : Prop :=
  record_fits r /\ item_at s pos (ar_owner r) (record_tail r) e.

(** A parsed question or record says what the item is. *)
Definition question_is (q : Question ParsedName) (a : Question (list (list Z))) : Prop :=
  wf_parsed (qname q) (qname a) /\ qtype q = qtype a /\ qclass q = qclass a.

Definition record_is {P} `{OctetsParser P} (r : ParsedRecord P) (a : arecord) : Prop :=
  let h := pr_header r in
  wf_parsed (rh_owner h) (ar_owner a) /\ rh_rtype h = ar_rtype a /\ rh_class h = ar_class a /\
  rh_ttl h = ar_ttl a /\ rh_rdlen h = zlen (ar_data a) /\
  take (length (ar_data a)) (drop (p_pos (pr_data r)) (p_octets (pr_data r))) = ar_data a.

Section Items.
Context {P : Type} `{OctetsParserOk P} `{!OctetsParserRef P} `{!OctetsParserRefOk P}.
Context (s : list Z) (Hs : wf_octets s).

Abbreviation over := (parser_over (P:=P) s).

Lemma over_visible (p : P) : over p -> visible p = s.
Proof. intros [H1 H2]. unfold visible. by rewrite H1, H2, firstn_all. Qed.

Lemma over_rest (p : P) : over p -> take (p_remaining p) (drop (p_pos p) (p_octets p)) = drop (p_pos p) s.
Proof. intros [H1 H2]. unfold p_remaining. rewrite H1, H2. rewrite take_ge; [done|]. rewrite length_drop. lia. Qed.

Lemma tail_rest (tail : list Z) e0 : take (length tail) (drop e0 s) = tail -> exists t, drop e0 s = tail ++ t.
Proof. intros E. exists (drop (length tail) (drop e0 s)). by rewrite <- E at 1; rewrite take_drop. Qed.

Lemma rest_after (p p' : P) n x t :
  drop n s = x ++ t -> moved p p' (n + length x) -> drop (p_pos p') s = t.
Proof. intros E (_ & _ & ->). by rewrite <- drop_drop, E, drop_app_length. Qed.

Lemma u16_over (p : P) v t :
  over p -> is_u16 v -> drop (p_pos p) s = to_be_bytes 2 v ++ t ->
  exists p', u16_parse p = Ok (v, p') /\ over p' /\ drop (p_pos p') s = t /\ p_pos p' = (p_pos p + 2)%nat.
Proof.
  intros Hp Hv E. destruct (u16_parse_prefix p v t Hv) as (p' & Hp' & Hm); [by rewrite over_rest|].
  exists p'. split_and!; [done|by eapply over_moved|by eapply (rest_after p p' _ (to_be_bytes 2 v))|apply Hm].
Qed.

Lemma u32_over (p : P) v t :
  over p -> is_u32 v -> drop (p_pos p) s = to_be_bytes 4 v ++ t ->
  exists p', u32_parse p = Ok (v, p') /\ over p' /\ drop (p_pos p') s = t /\ p_pos p' = (p_pos p + 4)%nat.
Proof.
  intros Hp Hv E. destruct (u32_parse_prefix p v t Hv) as (p' & Hp' & Hm); [by rewrite over_rest|].
  exists p'. split_and!; [done|by eapply over_moved|by eapply (rest_after p p' _ (to_be_bytes 4 v))|apply Hm].
Qed.

Lemma advance_over_rest (p : P) x t n :
  over p -> drop (p_pos p) s = x ++ t -> length x = n ->
  exists p', p_advance p n = Some p' /\ over p' /\ drop (p_pos p') s = t /\ p_pos p' = (p_pos p + n)%nat.
Proof.
  intros Hp E Hl. destruct (p_advance_ok p n) as (p' & Hp' & Hm).
  { unfold p_remaining. apply (f_equal length) in E. rewrite length_drop, length_app in E.
    rewrite (proj2 Hp). lia. }
  exists p'. split_and!; [done|by eapply over_moved|eapply (rest_after p p' _ x); [done|by rewrite Hl]|apply Hm].
Qed.

(** Parsing or skipping the name of an item. *)
Lemma item_name (p : P) name tail e :
  over p -> item_at s (p_pos p) name tail e ->
  exists n p' t, parsed_parse p = Some (Ok (n, p')) /\ parsed_skip p = Some (Ok p') /\ wf_parsed n name /\
    over p' /\ drop (p_pos p') s = tail ++ t /\ e = (p_pos p' + length tail)%nat.
Proof using Hs H0.
  intros Hp (e0 & Hat & Hl & Ht & ->).
  destruct (parsed_parse_at p name e0) as (n & p' & Hn & Hw & Hm & Hk);
    [by rewrite (proj1 Hp)|by rewrite over_visible|done|].
  destruct (tail_rest _ _ Ht) as [t Hr]. pose proof Hm as (_ & _ & Hpos).
  exists n, p', t. rewrite Hpos. split_and!; [done..|by eapply over_moved|done|done].
Qed.

Lemma question_parse_at (p : P) q e :
  over p -> question_at s (p_pos p) q e ->
  exists a p', question_parse p = Ret (Ok (a, p')) /\ question_is a q /\ over p' /\ p_pos p' = e.
Proof using Hs H0.
  intros Hp [[Ht Hc] Hat]. destruct (item_name p _ _ _ Hp Hat) as (n & p1 & t & Hn & _ & Hw & Hp1 & Hd & ->).
  unfold question_parse. rewrite Hn; cbn [ended]. unfold question_tail in Hd. rewrite <- app_assoc in Hd.
  destruct (u16_over _ _ _ Hp1 Ht Hd) as (p2 & -> & Hp2 & Hd2 & E2).
  destruct (u16_over _ _ _ Hp2 Hc Hd2) as (p3 & -> & Hp3 & _ & E3).
  eexists _, _; split; [done|]. split_and!; [done|done|]. rewrite E3, E2. unfold question_tail.
  rewrite length_app, !length_to_be_bytes. lia.
Qed.

(** The parser of the data stands where the data starts. *)
Definition data_before (r : ParsedRecord P) (a : arecord) (e : nat) : Prop :=
  over (pr_data r) /\ (p_pos (pr_data r) + length (ar_data a))%nat = e.

Lemma parsed_record_data_at (p : P) r e :
  over p -> record_at s (p_pos p) r e ->
  exists a p', parsed_record_parse p = Ret (Ok (a, p')) /\ (record_is a r /\ data_before a r e) /\ over p' /\ p_pos p' = e.
Proof using Hs H0.
  intros Hp [(Ht & Hc & Hl & Hd) Hat].
  destruct (item_name p _ _ _ Hp Hat) as (n & p1 & t & Hn & _ & Hw & Hp1 & Hr & ->).
  unfold parsed_record_parse, record_header_parse_ref. rewrite Hn; cbn [ended].
  unfold record_tail in Hr. rewrite <- !app_assoc in Hr.
  destruct (u16_over _ _ _ Hp1 Ht Hr) as (p2 & -> & Hp2 & Hr2 & E2).
  destruct (u16_over _ _ _ Hp2 Hc Hr2) as (p3 & -> & Hp3 & Hr3 & E3).
  destruct (u32_over _ _ _ Hp3 Hl Hr3) as (p4 & -> & Hp4 & Hr4 & E4).
  destruct (u16_over _ _ _ Hp4 Hd Hr4) as (p5 & -> & Hp5 & Hr5 & E5). cbn [rh_rdlen].
  destruct (advance_over_rest p5 _ _ (Z.to_nat (zlen (ar_data r))) Hp5 Hr5) as (p6 & -> & Hp6 & _ & E6);
    [unfold zlen; lia|].
  eexists _, _; split; [done|]. split_and!; [| |done|].
  - unfold record_is; cbn. split_and!; try done. rewrite (proj1 Hp5), Hr5. by rewrite take_app_length.
  - split; [done|]. cbn [pr_data]. rewrite E5, E4, E3, E2. unfold record_tail, zlen. rewrite !length_app, !length_to_be_bytes. lia.
  - rewrite E6, E5, E4, E3, E2. unfold record_tail, zlen. rewrite !length_app, !length_to_be_bytes. lia.
Qed.

Lemma parsed_record_parse_at (p : P) r e :
  over p -> record_at s (p_pos p) r e ->
  exists a p', parsed_record_parse p = Ret (Ok (a, p')) /\ record_is a r /\ over p' /\ p_pos p' = e.
Proof using Hs H0. intros Hp Hr. destruct (parsed_record_data_at p r e Hp Hr) as (a & p' & ? & [? _] & ?). by exists a, p'. Qed.

Lemma skip_unit_at (p : P) r e :
  over p -> record_at s (p_pos p) r e ->
  exists a p', skip_unit p = Ret (Ok (a, p')) /\ True /\ over p' /\ p_pos p' = e.
Proof using Hs H0.
  intros Hp [(Ht & Hc & Hl & Hd) Hat].
  destruct (item_name p _ _ _ Hp Hat) as (n & p1 & t & _ & Hn & Hw & Hp1 & Hr & ->).
  unfold skip_unit, parsed_record_skip, record_parse_rdlen. rewrite Hn; cbn [ended].
  unfold record_tail in Hr. rewrite <- !app_assoc, (app_assoc (to_be_bytes 2 _)), app_assoc in Hr.
  destruct (advance_over_rest p1 _ _ 8 Hp1 Hr) as (p4 & -> & Hp4 & Hr4 & E4);
    [by rewrite !length_app, !length_to_be_bytes|]. cbn [short ok_or].
  destruct (u16_over _ _ _ Hp4 Hd Hr4) as (p5 & -> & Hp5 & Hr5 & E5).
  destruct (advance_over_rest p5 _ _ (Z.to_nat (zlen (ar_data r))) Hp5 Hr5) as (p6 & -> & Hp6 & _ & E6);
    [unfold zlen; lia|].
  eexists _, _; split; [done|]. split_and!; [done..|].
  rewrite E6, E5, E4. unfold record_tail, zlen. rewrite !length_app, !length_to_be_bytes. lia.
Qed.

(** ** The sections of a message that holds items *)

(** A record section that stands before the records [l]. *)
Definition rs_before (rs : RecordSection P) (k : RSection) (l : list arecord) (e : nat) : Prop :=
  over (rs_parser rs) /\ rs_section rs = k /\ rs_count rs = Ok (zlen l) /\
  items_at (record_at s) (p_pos (rs_parser rs)) l e /\ zlen l < 2 ^ 16.

Lemma rs_collect_before rs k l e :
  rs_before rs k l e -> exists rs', rs_collect section_fuel rs = Ret (map Ok rs') /\ Forall2 record_is rs' l.
Proof using Hs H0.
  intros (Hp & _ & Hc & Hi & Hl). rewrite rs_collect_counted. unfold rs_state. rewrite Hc.
  destruct (counted_items parsed_record_parse s (record_at s) record_is parsed_record_parse_at
    section_fuel (rs_parser rs) l e Hp Hi) as (as_ & p' & -> & Has & _); [|by exists as_].
  pose proof section_fuel_eq. unfold zlen in Hl. lia.
Qed.

Definition counts_of : HeaderCounts := mkCounts (take 8 (drop 4 s)).

Lemma rs_new_before p k l e :
  (12 <= length s)%nat -> over p -> items_at (record_at s) (p_pos p) l e ->
  section_count k counts_of = zlen l -> exists rs, rs_new p k = Ret rs /\ rs_before rs k l e.
Proof using Hs H0.
  intros Hl Hp Hi Hk. unfold rs_new, counts_for_message_slice. rewrite (proj1 Hp).
  destruct (Nat.leb_spec 12 (length s)); [|lia]. fold counts_of. rewrite Hk. eexists; split; [done|].
  split_and!; [done..|]. rewrite <- Hk. destruct k; apply get_u16_range; simpl; auto with octets.
Qed.

Lemma rs_next_section_before rs k k' l e l' e' :
  (12 <= length s)%nat -> rs_before rs k l e -> section_next k = Some k' ->
  items_at (record_at s) e l' e' -> section_count k' counts_of = zlen l' ->
  exists rs', rs_next_section_unwrap rs = Ret (Ok rs') /\ rs_before rs' k' l' e'.
Proof using Hs H0.
  intros Hlen (Hp & <- & Hc & Hi & Hl) Hk Hi' Hc'. unfold rs_next_section_unwrap, rs_next_section. rewrite Hk.
  rewrite rs_drain_counted. unfold rs_state. rewrite Hc.
  destruct (counted_items skip_unit s (record_at s) (fun _ _ => True) skip_unit_at
    section_fuel (rs_parser rs) l e Hp Hi) as (as_ & p' & -> & _ & Hp' & <-);
    [pose proof section_fuel_eq; unfold zlen in Hl; lia|].
  cbn [rs_count rs_parser fst snd].
  destruct (rs_new_before p' k' l' e' Hlen Hp' Hi' Hc') as (rs' & -> & Hr). by exists rs'.
Qed.
End Items.

(** The octets hold the questions and records. *)
Definition holds (s : list Z) (qs : list (Question (list (list Z)))) (an ns ar : list arecord) : Prop :=
  (12 <= length s)%nat /\ wf_octets s /\
  qdcount (counts_of s) = zlen qs /\ ancount (counts_of s) = zlen an /\
  nscount (counts_of s) = zlen ns /\ arcount (counts_of s) = zlen ar /\
  exists e1 e2 e3 e4, items_at (question_at s) 12 qs e1 /\ items_at (record_at s) e1 an e2 /\
    items_at (record_at s) e2 ns e3 /\ items_at (record_at s) e3 ar e4.

(** Reading the message gives the questions and records. *)
Definition reads_as {P} `{OctetsParser P} `{!OctetsParserRef P} (s : list Z)
    (qs : list (Question (list (list Z)))) (an ns ar : list arecord) : Prop :=
  exists question answer authority additional qs' an' ns' ar',
    msg_sections (P:=P) (mkMessage s) = Ret (Ok (question, answer, authority, additional)) /\
    qs_collect section_fuel question = Ret (map Ok qs') /\ Forall2 question_is qs' qs /\
    rs_collect section_fuel answer = Ret (map Ok an') /\ Forall2 record_is an' an /\
    rs_collect section_fuel authority = Ret (map Ok ns') /\ Forall2 record_is ns' ns /\
    rs_collect section_fuel additional = Ret (map Ok ar') /\ Forall2 record_is ar' ar.

(** ** Equal questions *)

(** Questions are the same when type and class are and the names agree up to
    case. *)
Definition same_question (a b : Question (list (list Z))) : Prop :=
  canon (qname a) = canon (qname b) /\ qtype a = qtype b /\ qclass a = qclass b.

#[export] Instance same_question_dec a b : Decision (same_question a b).
Proof. unfold same_question. apply _. Defined.

Lemma question_eq_is x a y b :
  question_is x a -> question_is y b -> question_eq x y = Ret (bool_decide (same_question a b)).
Proof.
  intros (Hx & Tx & Cx) (Hy & Ty & Cy). unfold question_eq.
  rewrite (parsed_eq _ _ _ _ Hx Hy).
  rewrite Tx, Cx, Ty, Cy. unfold same_question.
  destruct (Z.eqb_spec (qtype a) (qtype b)), (Z.eqb_spec (qclass a) (qclass b));
    repeat case_bool_decide; simpl; tauto.
Qed.

Section Questions.
Context {P : Type} `{OctetsParserOk P} `{!OctetsParserRef P} `{!OctetsParserRefOk P}.

(** A question section that stands before the questions [l]. *)
Definition qs_before (s : list Z) (qs : QuestionSection P) (l : list (Question (list (list Z)))) (e : nat) : Prop :=
  wf_octets s /\ parser_over s (qs_parser qs) /\ qs_count qs = Ok (zlen l) /\
  items_at (question_at s) (p_pos (qs_parser qs)) l e.

Lemma qs_next_end s qs e : qs_before s qs [] e -> qs_next qs = Ret (None, qs).
Proof. intros (_ & _ & Hc & _). unfold qs_next. by rewrite Hc. Qed.

Lemma qs_next_item s qs q l e :
  qs_before s qs (q :: l) e ->
  exists a qs', qs_next qs = Ret (Some (Ok a), qs') /\ question_is a q /\ qs_before s qs' l e.
Proof using H0 OctetsParserRefOk0.
  intros (Hs & Hp & Hc & Hi). inversion Hi as [|? ? e0 ? ? Hq Hl]; subst. unfold qs_next. rewrite Hc.
  destruct (Z.ltb_spec 0 (zlen (q :: l))); [|unfold zlen in *; simpl in *; lia].
  destruct (question_parse_at s Hs (qs_parser qs) q e0 Hp Hq) as (a & p' & -> & Ha & Hp' & <-).
  eexists _, _; split; [done|]. split; [done|]. split_and!; [done..| |done].
  cbn [qs_count]. f_equal. unfold zlen; simpl length. lia.
Qed.

Lemma qs_eq_before s t fuel qs qt l m e e' :
  qs_before s qs l e -> qs_before t qt m e' -> (length l < fuel)%nat ->
  qs_eq_loop fuel qs qt = Ret (bool_decide (Forall2 same_question l m)).
Proof using H0 OctetsParserRefOk0.
  revert qs qt l m. induction fuel as [|fuel IH]; intros qs qt l m Hl Hm Hf; [lia|]. cbn [qs_eq_loop].
  destruct l as [|q l]; [rewrite (qs_next_end _ _ _ Hl)
    |destruct (qs_next_item _ _ _ _ _ Hl) as (a & qs' & -> & Ha & Hl')];
  (destruct m as [|q' m]; [rewrite (qs_next_end _ _ _ Hm)
    |destruct (qs_next_item _ _ _ _ _ Hm) as (a' & qt' & -> & Ha' & Hm')]).
  - rewrite bool_decide_eq_true_2; [done|constructor].
  - rewrite bool_decide_eq_false_2; [done|inversion 1].
  - rewrite bool_decide_eq_false_2; [done|inversion 1].
  - rewrite (question_eq_is _ _ _ _ Ha Ha'). cbn [length] in Hf. case_bool_decide as Hq.
    + rewrite (IH _ _ _ _ Hl' Hm') by lia. f_equal. apply bool_decide_ext. rewrite Forall2_cons. tauto.
    + rewrite bool_decide_eq_false_2; [done|]. rewrite Forall2_cons. tauto.
Qed.

(** Where a message starts to be read. *)
Lemma question_start s qs e :
  (12 <= length s)%nat -> wf_octets s -> qdcount (counts_of s) = zlen qs -> items_at (question_at s) 12 qs e ->
  zlen qs < 2 ^ 16 /\ exists q, msg_question (P:=P) (mkMessage s) = Ret q /\ qs_before s q qs e.
Proof using H0 OctetsParserRefOk0.
  intros Hl Hs Hq Iq. unfold msg_question; cbn [msg_octets].
  destruct (qs_new_over (P:=P) s Hs Hl) as (p & n & -> & Hp & Hpos & Hn & En).
  assert (n = zlen qs) as -> by (by rewrite En, <- Hq). split; [done|].
  exists (mkQS p (Ok (zlen qs))). split; [done|]. split_and!; [done..|]. cbn [qs_parser]. by rewrite Hpos.
Qed.

Lemma holds_question s qs an ns ar :
  holds s qs an ns ar -> zlen qs < 2 ^ 16 /\
  exists q e1 e2 e3 e4, msg_question (P:=P) (mkMessage s) = Ret q /\ qs_before s q qs e1 /\
    items_at (record_at s) e1 an e2 /\ items_at (record_at s) e2 ns e3 /\ items_at (record_at s) e3 ar e4.
Proof using H0 OctetsParserRefOk0.
  intros (Hl & Hs & Hq & _ & _ & _ & e1 & e2 & e3 & e4 & Iq & Irest).
  destruct (question_start s qs e1 Hl Hs Hq Iq) as (Hz & q & Eq & Bq). split; [done|]. by exists q, e1, e2, e3, e4.
Qed.

(** The first question, if any. *)
Lemma first_question_before s q qs e :
  msg_question (P:=P) (mkMessage s) = Ret q -> qs_before s q qs e ->
  exists first, msg_first_question (P:=P) (mkMessage s) = Ret first /\ option_Forall2 question_is first (head qs).
Proof using H0 OctetsParserRefOk0.
  intros Eq Bq. unfold msg_first_question. rewrite Eq. destruct qs as [|a qs].
  - rewrite (qs_next_end _ _ _ Bq). eexists; split; [done|constructor].
  - destruct (qs_next_item _ _ _ _ _ Bq) as (x & q' & -> & Hx & _). eexists; split; [done|by constructor].
Qed.

Lemma holds_first_question s qs an ns ar :
  holds s qs an ns ar ->
  exists first, msg_first_question (P:=P) (mkMessage s) = Ret first /\ option_Forall2 question_is first (head qs).
Proof using H0 OctetsParserRefOk0.
  intros Hh. destruct (holds_question _ _ _ _ _ Hh) as (_ & q & e1 & _ & _ & _ & Eq & Bq & _). by eapply first_question_before.
Qed.

Lemma qs_before_counted s q qs e :
  qs_before s q qs e -> zlen qs < 2 ^ 16 ->
  exists qs' p, counted_collect question_parse section_fuel (qs_state q) = Ret (map Ok qs', (p, Ok 0)) /\
    Forall2 question_is qs' qs /\ parser_over s p /\ p_pos p = e.
Proof using H0 OctetsParserRefOk0.
  intros (Hs & Hp & Hc & Hi) Hl. unfold qs_state. rewrite Hc.
  apply (counted_items question_parse s (question_at s) question_is (question_parse_at s Hs)); [done..|].
  pose proof section_fuel_eq. unfold zlen in Hl. lia.
Qed.

Lemma qs_collect_before s q qs e :
  qs_before s q qs e -> zlen qs < 2 ^ 16 ->
  exists qs', qs_collect section_fuel q = Ret (map Ok qs') /\ Forall2 question_is qs' qs.
Proof using H0 OctetsParserRefOk0.
  intros Hb Hl. destruct (qs_before_counted _ _ _ _ Hb Hl) as (qs' & p & Hc & Hq & _).
  exists qs'. by rewrite qs_collect_counted, Hc.
Qed.

Lemma qs_answer_before s q qs e an e2 :
  qs_before s q qs e -> zlen qs < 2 ^ 16 -> (12 <= length s)%nat ->
  items_at (record_at s) e an e2 -> ancount (counts_of s) = zlen an ->
  exists rs, qs_answer q = Ret (Ok rs) /\ rs_before s rs Answer an e2.
Proof using H0 OctetsParserRefOk0.
  intros Hb Hl Hlen Hi Ha. destruct (qs_before_counted _ _ _ _ Hb Hl) as (qs' & p & Hc & _ & Hp & <-).
  destruct (rs_new_before s (proj1 Hb) p section_first an e2 Hlen Hp Hi Ha) as (rs & Hn & Hr).
  exists rs. unfold qs_answer. rewrite qs_drain_counted, Hc. cbn [qs_count qs_parser fst snd]. by rewrite Hn.
Qed.

(** The answer section starts behind the questions. *)
Lemma qs_answer_pos s q qs e rs :
  qs_before s q qs e -> zlen qs < 2 ^ 16 -> qs_answer q = Ret (Ok rs) -> p_pos (rs_parser rs) = e.
Proof using H0 OctetsParserRefOk0.
  intros Hb Hl. destruct (qs_before_counted _ _ _ _ Hb Hl) as (qs' & p & Hc & _ & Hp & <-).
  unfold qs_answer. rewrite qs_drain_counted, Hc. cbn [qs_count qs_parser fst snd]. unfold rs_new.
  destruct (counts_for_message_slice _) as [c|]; [|done]. by intros [= <-].
Qed.
End Questions.

(** Where an item ends is determined by where it starts. *)
Lemma item_at_end s pos name tail e tail' e' :
  item_at s pos name tail e -> item_at s pos name tail' e' -> length tail = length tail' -> e = e'.
Proof.
  intros (e0 & Ha & _ & _ & ->) (e0' & Ha' & _ & _ & ->) El.
  destruct (at_labels_unique _ _ _ _ _ _ Ha Ha') as [_ ->]. lia.
Qed.

Lemma questions_end s pos qs e e' :
  items_at (question_at s) pos qs e -> items_at (question_at s) pos qs e' -> e = e'.
Proof.
  intros Hi. revert e'. induction Hi as [pos|pos q e0 qs e [_ Hq] _ IH]; intros e' Hi'; inversion Hi' as [|? ? e1 ? ? [_ Hq1] Hi1]; subst; [done|].
  rewrite <- (item_at_end _ _ _ _ _ _ _ Hq Hq1 eq_refl) in Hi1. by apply IH.
Qed.

(** ** The iterator over all records *)

Section AllRecords.
Context {P : Type} `{OctetsParserOk P} `{!OctetsParserRef P} `{!OctetsParserRefOk P}.
Context (s : list Z) (Hs : wf_octets s).

(** What a [for] loop over a [MessageIter] sees. *)
Fixpoint msg_iter_collect (fuel : nat) (inner : option (RecordSection P))
    : outcome (list (result (ParsedRecord P * RSection) ParseError)) :=
  match fuel with
  | O => Panic
  | S fuel' =>
      let! (item, inner') := msg_iter_next iter_fuel inner in
      match item with Some a => let! l := msg_iter_collect fuel' inner' in Ret (a :: l) | None => Ret [] end
  end.

(** The sections from this one on. *)
Definition sections_left (k : RSection) : nat :=
  match k with Answer => 3 | Authority => 2 | Additional => 1 end.

Lemma rs_next_item rs k a l e :
  rs_before s rs k (a :: l) e ->
  exists r rs', rs_next rs = Ret (Some (Ok r), rs') /\ record_is r a /\ rs_before s rs' k l e.
Proof using Hs H0.
  intros (Hp & Hk & Hc & Hi & Hl). inversion Hi as [|? ? e0 ? ? Ha Hi']; subst. unfold rs_next. rewrite Hc.
  destruct (Z.ltb_spec 0 (zlen (a :: l))); [|unfold zlen in *; simpl in *; lia].
  destruct (parsed_record_parse_at s Hs (rs_parser rs) a e0 Hp Ha) as (r & p' & -> & Hr & Hp' & <-).
  eexists _, _; split; [done|]. split; [done|]. unfold rs_before, zlen in *; simpl length in *.
  cbn [rs_parser rs_section rs_count]. split_and!; [done|done| |done|lia]. f_equal. lia.
Qed.

Lemma rs_next_end rs k e : rs_before s rs k [] e -> rs_next rs = Ret (None, rs).
Proof. intros (_ & _ & Hc & _). unfold rs_next. by rewrite Hc. Qed.

Lemma rs_next_section_at rs k k' e l' e' :
  (12 <= length s)%nat -> rs_before s rs k [] e -> section_next k = Some k' ->
  items_at (record_at s) e l' e' -> section_count k' (counts_of s) = zlen l' ->
  exists rs', rs_next_section rs = Ret (Ok (Some rs')) /\ rs_before s rs' k' l' e'.
Proof using Hs H0.
  intros Hl Hb Hk Hi Hc. destruct (rs_next_section_before s Hs _ _ _ _ _ _ _ Hl Hb Hk Hi Hc) as (rs' & Hn & Hb').
  exists rs'. split; [|done]. unfold rs_next_section_unwrap in Hn. by destruct (rs_next_section rs) as [[[]|]|]; simplify_eq/=.
Qed.

(** The records of the sections behind [k], with the sections they are in; they
    start at [e]. *)
Inductive rest_at : RSection -> nat -> list (arecord * RSection) -> Prop :=
  | rest_none e : rest_at Additional e []
  | rest_more k k' e la e' l :
      section_next k = Some k' -> items_at (record_at s) e la e' -> section_count k' (counts_of s) = zlen la ->
      rest_at k' e' l -> rest_at k e (map (fun a => (a, k')) la ++ l).

(** All records from where the section stands. *)
Definition to_come (rs : RecordSection P) (k : RSection) (l : list (arecord * RSection)) : Prop :=
  (12 <= length s)%nat /\ exists la e rest,
    l = map (fun a => (a, k)) la ++ rest /\ rs_before s rs k la e /\ rest_at k e rest.

Lemma to_come_item rs k a l :
  to_come rs k (a :: l) -> exists k' r rs', record_is r a.1 /\ to_come rs' k' l /\
    forall fuel, (sections_left k <= fuel)%nat ->
      msg_iter_next fuel (Some rs) = Ret (Some (Ok (r, a.2)), Some rs').
Proof using Hs H0.
  intros (Hlen & la & e & rest & E & Hb & Hr). revert rs la E Hb.
  induction Hr as [e|k k' e lb e' rest Hk Hi Hc Hr IH]; intros rs [|x la] E Hb; cbn [map app] in E; try done.
  2: { destruct (rs_next_section_at _ _ _ _ _ _ Hlen Hb Hk Hi Hc) as (rs1 & Hnext & Hb1).
    destruct (IH rs1 lb E Hb1) as (k2 & r & rs' & Hra & Hc' & Hn). exists k2, r, rs'. split_and!; [done..|].
    intros fuel Hf. assert (Hle : (S (sections_left k') <= fuel)%nat) by (destruct k; simplify_eq/=; lia).
    destruct fuel as [|fuel]; [lia|]. cbn [msg_iter_next]. rewrite (rs_next_end _ _ _ Hb), Hnext. apply Hn. lia. }
  all: injection E as -> ->; destruct (rs_next_item _ _ _ _ _ Hb) as (r & rs' & Hn & Hra & Hb');
    eexists _, r, rs'; split; [done|]; split;
    [split; [done|]; eexists _, _, _; split; [done|]; split; [exact Hb'|by econstructor]|];
    intros [|fuel] Hf; [try destruct k; simpl in Hf; lia|]; cbn [msg_iter_next]; rewrite Hn;
    by pose proof Hb' as (_ & -> & _).
Qed.

Lemma to_come_end rs k :
  to_come rs k [] -> forall fuel, (sections_left k < fuel)%nat -> msg_iter_next fuel (Some rs) = Ret (None, None).
Proof using Hs H0.
  intros (Hlen & la & e & rest & E & Hb & Hr). revert rs la E Hb.
  induction Hr as [e|k k' e lb e' rest Hk Hi Hc Hr IH]; intros rs [|x la] E Hb [|fuel] Hf; try done; try lia;
    cbn [msg_iter_next]; rewrite (rs_next_end _ _ _ Hb).
  - unfold rs_next_section. pose proof Hb as (_ & -> & _). simpl in *. by destruct fuel; [lia|].
  - destruct (rs_next_section_at _ _ _ _ _ _ Hlen Hb Hk Hi Hc) as (rs1 & -> & Hb1).
    apply (IH rs1 lb E Hb1). destruct k; simplify_eq/=; lia.
Qed.

Lemma msg_iter_collect_spec rs k l fuel :
  to_come rs k l -> (length l < fuel)%nat ->
  exists items, msg_iter_collect fuel (Some rs) = Ret (map Ok items) /\
    Forall2 (fun x a => record_is x.1 a.1 /\ x.2 = a.2) items l.
Proof using Hs H0.
  revert rs k l. induction fuel as [|fuel IH]; intros rs k l Hc Hf; [lia|]. cbn [msg_iter_collect].
  assert (Hk : (sections_left k < iter_fuel)%nat) by (destruct k; unfold iter_fuel; simpl; lia).
  destruct l as [|a l].
  - rewrite (to_come_end _ _ Hc) by done. by exists [].
  - destruct (to_come_item _ _ _ _ Hc) as (k' & r & rs' & Hr & Hc' & Hn). rewrite Hn by lia.
    destruct (IH rs' k' l Hc') as (items & -> & Hi); [simpl in Hf; lia|].
    exists ((r, a.2) :: items). split; [done|]. by constructor.
Qed.
End AllRecords.

Section MessageTheorems.
Context {P : Type} `{OctetsParserOk P} `{!OctetsParserRef P} `{!OctetsParserRefOk P}.

(** All records of a message, in order. *)
Definition all_records (an ns ar : list arecord) : list (arecord * RSection) :=
  map (fun a => (a, Answer)) an ++ map (fun a => (a, Authority)) ns ++ map (fun a => (a, Additional)) ar.

Lemma holds_reads_as s qs an ns ar : holds s qs an ns ar -> reads_as (P:=P) s qs an ns ar.
Proof using H0 OctetsParserRefOk0.
  intros Hh. pose proof Hh as (Hl & Hs & _ & Ha & Hn & Hr & _).
  destruct (holds_question _ _ _ _ _ Hh) as (Hz & q & e1 & e2 & e3 & e4 & Eq & Bq & Ia & In & Ir).
  unfold reads_as, msg_sections. rewrite Eq.
  destruct (qs_answer_before _ _ _ _ _ _ Bq Hz Hl Ia Ha) as (answer & -> & Ba).
  destruct (rs_next_section_before s Hs _ _ Authority _ _ _ _ Hl Ba eq_refl In Hn) as (authority & -> & Bn).
  destruct (rs_next_section_before s Hs _ _ Additional _ _ _ _ Hl Bn eq_refl Ir Hr) as (additional & -> & Br).
  destruct (qs_collect_before _ _ _ _ Bq Hz) as (qs' & Cq & Fq).
  destruct (rs_collect_before s Hs _ _ _ _ Ba) as (an' & Ca & Fa).
  destruct (rs_collect_before s Hs _ _ _ _ Bn) as (ns' & Cn & Fn).
  destruct (rs_collect_before s Hs _ _ _ _ Br) as (ar' & Cr & Fr).
  by exists q, answer, authority, additional, qs', an', ns', ar'.
Qed.

Lemma holds_iter s qs an ns ar :
  holds s qs an ns ar ->
  exists rs, msg_iter (P:=P) (mkMessage s) = Ret (Some rs) /\ to_come s rs Answer (all_records an ns ar).
Proof using H0 OctetsParserRefOk0.
  intros Hh. pose proof Hh as (Hl & Hs & _ & Ha & Hn & Hr & _).
  destruct (holds_question _ _ _ _ _ Hh) as (Hz & q & e1 & e2 & e3 & e4 & Eq & Bq & Ia & In & Ir).
  destruct (qs_answer_before _ _ _ _ _ _ Bq Hz Hl Ia Ha) as (answer & Ea & Ba).
  exists answer. unfold msg_iter, msg_answer. rewrite Eq, Ea. split; [done|]. split; [done|].
  exists an, e2, (map (fun a => (a, Authority)) ns ++ map (fun a => (a, Additional)) ar). split_and!; [done..|].
  eapply rest_more; [done|exact In|done|].
  rewrite <- (app_nil_r (map (fun a => (a, Additional)) ar)).
  eapply rest_more; [done|exact Ir|done|constructor].
Qed.

(** A message that holds questions and records reads as these: going through its
    four sections gives each item once, in order, with the name it has, be it
    compressed, its type, class and TTL and its data; the first question is the
    first of them; and the iterator over all records gives the records of the
    three sections in turn, with their sections.  (C28) *)
Theorem message_sections_correct s qs an ns ar fuel :
  holds s qs an ns ar -> (length (all_records an ns ar) < fuel)%nat ->
  reads_as (P:=P) s qs an ns ar /\
  (exists first, msg_first_question (P:=P) (mkMessage s) = Ret first /\
     option_Forall2 question_is first (head qs)) /\
  (exists iter items, msg_iter (P:=P) (mkMessage s) = Ret iter /\
     msg_iter_collect fuel iter = Ret (map Ok items) /\
     Forall2 (fun x a => record_is x.1 a.1 /\ x.2 = a.2) items (all_records an ns ar)).
Proof using H0 OctetsParserRefOk0.
  intros Hh Hf. split_and!.
  - by apply holds_reads_as.
  - by eapply holds_first_question.
  - destruct (holds_iter _ _ _ _ _ Hh) as (rs & Ei & Hc). exists (Some rs).
    destruct (msg_iter_collect_spec s (proj1 (proj2 Hh)) rs Answer _ fuel Hc Hf) as (items & Ec & Fi).
    by exists items.
Qed.

(** A message answers a query exactly when it is a response with the same ID and
    its questions are those of the query, in order and up to the case of names. *)
Theorem message_is_answer_correct s t qs an ns ar qs' an' ns' ar' :
  holds s qs an ns ar -> holds t qs' an' ns' ar' ->
  exists h h', msg_header (mkMessage s) = Ret h /\ msg_header (mkMessage t) = Ret h' /\
    msg_is_answer (P:=P) (mkMessage s) (mkMessage t) =
    Ret (header_qr h && (header_id h =? header_id h') && bool_decide (Forall2 same_question qs qs')).
Proof using H0 OctetsParserRefOk0.
  intros Hh Hh'. pose proof Hh as (Hl & _ & Hq & _). pose proof Hh' as (Hl' & _ & Hq' & _).
  destruct (holds_question _ _ _ _ _ Hh) as (Hz & q & e & _ & _ & _ & Eq & Bq & _).
  destruct (holds_question _ _ _ _ _ Hh') as (_ & q' & e' & _ & _ & _ & Eq' & Bq' & _).
  unfold msg_is_answer, msg_header, msg_header_counts, header_for_message_slice, counts_for_message_slice.
  cbn [msg_octets]. destruct (Nat.leb_spec 4 (length s)), (Nat.leb_spec 4 (length t)); try lia.
  destruct (Nat.leb_spec 12 (length s)), (Nat.leb_spec 12 (length t)); try lia.
  eexists _, _; split; [done|]. split; [done|]. fold (counts_of s) (counts_of t). rewrite Hq, Hq', Eq, Eq'.
  unfold qs_eq. rewrite (qs_eq_before s t section_fuel q q' qs qs' e e' Bq Bq')
    by (pose proof section_fuel_eq; unfold zlen in Hz; lia).
  destruct (header_qr _), (header_id _ =? header_id _); cbn [negb orb andb]; try done.
  destruct (Z.eqb_spec (zlen qs) (zlen qs')) as [|Hne]; [done|]. cbn [negb].
  rewrite bool_decide_eq_false_2; [done|]. intros F%Forall2_length. unfold zlen in Hne. lia.
Qed.
End MessageTheorems.

(** ** Examples *)

(** A response to [a. A IN] with one answer, whose owner is compressed, and one
    additional record. *)
Definition ex_reply : list Z :=
  [1; 2; 0x80; 0; 0; 1; 0; 1; 0; 0; 0; 1;
   1; 97; 0; 0; 1; 0; 1;
   0xC0; 12; 0; 1; 0; 1; 0; 0; 0; 9; 0; 2; 7; 8;
   0; 0; 16; 0; 1; 0; 0; 0; 0; 0; 0].

Definition ex_questions : list (Question (list (list Z))) := [mkQuestion [[97]; []] 1 1].
Definition ex_answers : list arecord := [mkArecord [[97]; []] 1 1 9 [7; 8]].
Definition ex_additionals : list arecord := [mkArecord [[]] 16 1 0 []].

Lemma ex_reply_holds : holds ex_reply ex_questions ex_answers [] ex_additionals.
Proof.
  assert (Hname : at_labels ex_reply 12 [[97]; []] 15).
  { apply at_label; [done|by_decide|done|]. by apply at_root. }
  split_and!; [by_decide|by_decide|done..|]. exists 19%nat, 33%nat, 33%nat, 44%nat. split_and!.
  - econstructor; [|constructor]. split; [split; by_decide|]. exists 15%nat. by split_and!; [|by_decide| |].
  - econstructor; [|constructor]. split; [split_and!; by_decide|]. exists 21%nat.
    split_and!; [|by_decide|done|done]. by apply (at_pointer _ 19 0xC0 12 _ 15); [done|lia|done|by_decide|].
  - constructor.
  - econstructor; [|constructor]. split; [split_and!; by_decide|]. exists 34%nat.
    split_and!; [by apply at_root|by_decide|done|done].
Qed.

Lemma message_sections_correct_witness :
  exists iter items, msg_iter (P:=slice_parser) (mkMessage ex_reply) = Ret iter /\
    msg_iter_collect 3 iter = Ret (map Ok items) /\ map snd items = [Answer; Additional].
Proof.
  destruct (message_sections_correct (P:=slice_parser) ex_reply ex_questions ex_answers [] ex_additionals 3 ex_reply_holds)
    as (_ & _ & iter & items & H1 & H2 & H3); [by_decide|].
  exists iter, items. split_and!; [done|done|]. inversion H3 as [|x ? ? ? [_ E] H4]; subst.
  inversion H4 as [|y ? ? ? [_ E'] H5]; subst. inversion H5; subst. simpl. by rewrite E, E'.
Defined.

(** The response answers the query [A. A IN]. *)
Definition ex_query : list Z := [1; 2; 0; 0; 0; 1; 0; 0; 0; 0; 0; 0; 1; 65; 0; 0; 1; 0; 1].

Lemma ex_query_holds : holds ex_query [mkQuestion [[65]; []] 1 1] [] [] [].
Proof.
  split_and!; [by_decide|by_decide|done..|]. exists 19%nat, 19%nat, 19%nat, 19%nat. split_and!; try constructor.
  econstructor; [|constructor]. split; [split; by_decide|]. exists 15%nat. split_and!; [|by_decide|done|done].
  apply at_label; [done|by_decide|done|]. by apply at_root.
Qed.

Lemma message_is_answer_correct_witness :
  msg_is_answer (P:=slice_parser) (mkMessage ex_reply) (mkMessage ex_query) = Ret true.
Proof.
  destruct (message_is_answer_correct (P:=slice_parser) ex_reply ex_query _ _ _ _ _ _ _ _ ex_reply_holds ex_query_holds)
    as (h & h' & Eh & Eh' & ->). vm_compute in Eh, Eh'. injection Eh as <-. injection Eh' as <-.
  by vm_compute.
Defined.
