(* ===== verification/Record.v ===== *)
(** * Composing questions and records ([src/src/base/question.rs], [record.rs],
      [rdata.rs], [wire.rs])

    Questions and records are written into a [Composer], a target that may
    compress names; the data of a record is written behind its length, which is
    known in advance or filled in afterwards.  The file proves that what is
    written is the wire format of the question or record, and that a message
    built from questions and records reads back as these. *)

From S2P Require Import Prelude Octets Symbol Label Traits Name ParsedName Header Compressor MessageBuilder Message.
From stdpp Require Import strings.
#[local] Open Scope Z_scope.

(** ** Composers *)

Class Composer (B : Type) `{OctetsBuilder B} : Type := {
  append_compressed_name {N I : Type} `{ToLabelIter N I} : N -> pusher B;
  can_compress : bool
}.

(** The default methods: names are not compressed. *)
Definition default_composer (B : Type) `{OctetsBuilder B} : Composer B := {|
  append_compressed_name N I _ _ name := name_compose name;
  can_compress := false
|}.

#[export] Instance vec_composer : Composer (list Z) := default_composer (list Z).
#[export] Instance array_composer cap : Composer (array_buf cap) := default_composer (array_buf cap).

#[export] Instance static_composer {B} `{OctetsBuilder B} : Composer (StaticCompressor B) := {|
  append_compressed_name N I _ _ name := sc_append_compressed_name name;
  can_compress := true
|}.

(** Targets that keep the default methods. *)
Class PlainComposer (B : Type) `{Composer B} : Prop := {
  append_plain {N I : Type} `{ToLabelIter N I} (name : N) (b : B) :
    append_compressed_name name b = name_compose name b;
  plain_cannot_compress : can_compress (B:=B) = false
}.

#[export] Instance vec_plain : PlainComposer (list Z).
Proof. by split. Qed.
#[export] Instance array_plain cap : PlainComposer (array_buf cap).
Proof. by split. Qed.

Section Pushers.
Context {B : Type} `{OctetsBuilder B}.

(** [f(target)?; g(target)] where the steps may panic. *)
Definition push_seq (f g : pusher B) : pusher B := fun b =>
  let! (b', ok) := f b in if ok : bool then g b' else Ret (b', false).

Definition push_compose (f : composer B) : pusher B := fun b => Ret (f b).

(** [compose_prefixed]: two octets, filled with the length of what [op] wrote. *)
Definition compose_prefixed (op : pusher B) : pusher B := fun b =>
  match append_slice b [0; 0] with
  | None => Ret (b, false)
  | Some b1 =>
      let pos := length (as_ref b1) in
      let! (b2, ok) := op b1 in
      if ok : bool then
        let len := zlen (as_ref b2) - Z.of_nat pos in
        if 2 ^ 16 <=? len then Panic
        else Ret (write_octets b2 (pos - 2) (to_be_bytes 2 len), true)
      else Ret (builder_truncate b2 pos, false)
  end.
End Pushers.

(** [RecordData] and [ComposeRecordData]; [rdlen] is given whether names will be
    compressed. *)
Class ComposeRecordData (D B : Type) `{Composer B} : Type := {
  rd_rtype : D -> Z;
  rd_rdlen : D -> bool -> outcome (option Z);
  compose_rdata : D -> pusher B;
  compose_canonical_rdata : D -> pusher B
}.

Record UnknownRecordData := mkUnknown { unknown_rtype : Z; unknown_data : list Z }.

Inductive LongRecordData := LongRecordDataErr.

(** [LongRecordData::check_len] allows up to 65535 octets. *)
Definition unknown_from_octets (rtype : Z) (data : list Z) : result UnknownRecordData LongRecordData :=
  if 65535 <? zlen data then Err LongRecordDataErr else Ok (mkUnknown rtype data).

#[export] Instance unknown_compose {B} `{Composer B} : ComposeRecordData UnknownRecordData B := {|
  rd_rtype := unknown_rtype;
  rd_rdlen d _ := if zlen (unknown_data d) <? 2 ^ 16 then Ret (Some (zlen (unknown_data d))) else Panic;
  compose_rdata d := push_compose (compose_slice (unknown_data d));
  compose_canonical_rdata d := push_compose (compose_slice (unknown_data d))
|}.

Record ResourceRecord (N D : Type) := mkRR { rr_owner : N; rr_class : Z; rr_ttl : Z; rr_data : D }.
Arguments mkRR {N D} rr_owner rr_class rr_ttl rr_data.
Arguments rr_owner {N D} _.
Arguments rr_class {N D} _.
Arguments rr_ttl {N D} _.
Arguments rr_data {N D} _.

Section Compose.
Context {B : Type} `{Composer B}.

Definition question_compose {N I} `{ToLabelIter N I} (q : Question N) : pusher B :=
  push_seq (append_compressed_name (qname q))
    (push_compose (compose_seq (u16_compose (qtype q)) (u16_compose (qclass q)))).

Definition compose_len_rdata {D} `{!ComposeRecordData D B} (d : D) : pusher B := fun b =>
  let! rdlen := rd_rdlen d (can_compress (B:=B)) in
  match rdlen with
  | Some rdlen => push_seq (push_compose (u16_compose rdlen)) (compose_rdata d) b
  | None => compose_prefixed (compose_rdata d) b
  end.

Definition compose_canonical_len_rdata {D} `{!ComposeRecordData D B} (d : D) : pusher B := fun b =>
  let! rdlen := rd_rdlen d false in
  match rdlen with
  | Some rdlen => push_seq (push_compose (u16_compose rdlen)) (compose_canonical_rdata d) b
  | None => compose_prefixed (compose_canonical_rdata d) b
  end.

(** The fixed fields between the owner and the data. *)
Definition compose_fields (rtype class ttl : Z) : composer B :=
  compose_seq (u16_compose rtype) (compose_seq (u16_compose class) (u32_compose ttl)).

Definition record_compose {N I D} `{ToLabelIter N I} `{!ComposeRecordData D B} (r : ResourceRecord N D)
    : pusher B :=
  push_seq (append_compressed_name (rr_owner r))
    (push_seq (push_compose (compose_fields (rd_rtype (rr_data r)) (rr_class r) (rr_ttl r)))
      (compose_len_rdata (rr_data r))).

Definition record_compose_canonical {N I D} `{ToLabelIter N I} `{!ComposeRecordData D B}
    (r : ResourceRecord N D) : pusher B :=
  push_seq (name_compose_canonical (rr_owner r))
    (push_seq (push_compose (compose_fields (rd_rtype (rr_data r)) (rr_class r) (rr_ttl r)))
      (compose_canonical_len_rdata (rr_data r))).

Definition record_header_compose {N I} `{ToLabelIter N I} (h : RecordHeader N) : pusher B :=
  push_seq (append_compressed_name (rh_owner h))
    (push_compose (compose_seq (compose_fields (rh_rtype h) (rh_class h) (rh_ttl h)) (u16_compose (rh_rdlen h)))).
End Compose.

(** ** What is written *)

Section Appends.
Context {B : Type} `{OctetsBuilderOk B}.

(** [f] appends to the target, exactly [s] when it succeeds, and does not
    panic. *)
Definition Appends (f : pusher B) (s : list Z) : Prop :=
  forall b, exists b' ok t, f b = Ret (b', ok) /\ as_ref b' = as_ref b ++ t /\ (ok = true -> t = s).

Definition Succeeds (f : pusher B) : Prop := forall b, exists b', f b = Ret (b', true).

Lemma Appends_pusher_ok f s : Appends f s -> pusher_ok f.
Proof. intros Hf b. destruct (Hf b) as (b' & ok & t & ? & ? & _). by exists b', ok, t. Qed.

Lemma Appends_seq f g s t : Appends f s -> Appends g t -> Appends (push_seq f g) (s ++ t).
Proof.
  intros Hf Hg b. unfold push_seq. destruct (Hf b) as (b1 & ok & t1 & -> & E1 & Ht1). destruct ok.
  - rewrite Ht1 in E1 by done. destruct (Hg b1) as (b2 & ok & t2 & -> & E2 & Ht2).
    exists b2, ok, (s ++ t2). split_and!; [done|by rewrite E2, E1, app_assoc|]. intros Hok. by rewrite Ht2.
  - by exists b1, false, t1.
Qed.

Lemma Appends_compose f s : Composes f s -> Appends (push_compose f) s.
Proof.
  intros Hf b. unfold push_compose. destruct (f b) as [b' ok] eqn:E. apply Hf in E. destruct ok.
  - by exists b', true, s.
  - destruct E as (p & _ & E). by exists b', false, p.
Qed.

(** The length filled in afterwards is the length of what was written. *)
Lemma compose_prefixed_spec op s :
  Appends op s -> zlen s < 2 ^ 16 -> Appends (compose_prefixed op) (to_be_bytes 2 (zlen s) ++ s).
Proof.
  intros Hop Hs b. unfold compose_prefixed. destruct (append_slice b [0; 0]) as [b1|] eqn:E1.
  2: { exists b, false, []. by rewrite app_nil_r. }
  apply as_ref_append in E1. destruct (Hop b1) as (b2 & ok & t & -> & E2 & Ht). rewrite E1 in E2.
  destruct ok.
  - rewrite Ht in E2 by done. clear Ht.
    replace (zlen (as_ref b2) - Z.of_nat (length (as_ref b1))) with (zlen s)
      by (rewrite E2, E1; unfold zlen; rewrite !length_app; lia).
    destruct (Z.leb_spec (2 ^ 16) (zlen s)); [lia|]. eexists _, _, _; split; [done|]. split; [|done].
    replace (length (as_ref b1) - 2)%nat with (length (as_ref b)) by (rewrite E1, length_app; simpl; lia).
    rewrite as_ref_write_octets, length_to_be_bytes
      by (rewrite E2, !length_app, length_to_be_bytes; simpl; lia).
    rewrite E2, <- !app_assoc, take_app_length. do 2 f_equal.
    rewrite drop_app_ge by lia. by replace (length (as_ref b) + 2 - length (as_ref b))%nat with 2%nat by lia.
  - eexists _, _, [0; 0]; split; [done|]. split; [|done].
    rewrite as_ref_truncate, E2, E1. by rewrite take_app_length.
Qed.

Lemma Succeeds_seq f g : Succeeds f -> Succeeds g -> Succeeds (push_seq f g).
Proof. intros Hf Hg b. unfold push_seq. destruct (Hf b) as [b1 ->]. apply Hg. Qed.

Lemma Succeeds_compose `{!InfallibleBuilder B} s : Succeeds (push_compose (compose_slice s)).
Proof. intros b. unfold push_compose. destruct (compose_slice_total s b) as [b' ->]. by exists b'. Qed.
End Appends.

(** What a type of record data promises.  [stands d w] says that [d] is data whose
    wire format without compression is [w]: it is written as [w], and the length it
    announces, if any, is that of [w]. *)
Class ComposeRecordDataOk (D B : Type) `{ComposeRecordData D B} (stands : D -> list Z -> Prop) : Prop := {
  compose_rdata_ok (d : D) w : stands d w -> Appends (compose_rdata d) w;
  rd_rdlen_ok (d : D) w : stands d w -> zlen w < 2 ^ 16 ->
    rd_rdlen d false = Ret None \/ rd_rdlen d false = Ret (Some (zlen w))
}.

Definition unknown_stands (d : UnknownRecordData) (w : list Z) : Prop := unknown_data d = w.

#[export] Instance unknown_compose_ok {B} `{OctetsBuilderOk B} `{!Composer B} :
  ComposeRecordDataOk UnknownRecordData B unknown_stands.
Proof.
  split.
  - intros d w <-. apply Appends_compose, compose_slice_spec.
  - intros d w <- Hd. right. simpl. by destruct (Z.ltb_spec (zlen (unknown_data d)) (2 ^ 16)); [|lia].
Qed.

Definition question_wire (q : Question (list (list Z))) : list Z := labels_wire (qname q) ++ question_tail q.
Definition record_wire (r : arecord) : list Z := labels_wire (ar_owner r) ++ record_tail r.

(** The names in questions and records. *)
Definition name_ok {N I} `{ToLabelIter N I} `{!LabelIterOk I} (n : N) (ls : list (list Z)) : Prop :=
  denotes n ls /\ abs_labels ls /\ (length (labels_wire ls) <= 255)%nat.

Section Wire.
Context {B : Type} `{OctetsBuilderOk B} `{!Composer B} `{!PlainComposer B}.
Context {N I : Type} `{ToLabelIter N I} `{!LabelIterOk I}.

Lemma name_ok_fuel (n : N) ls : name_ok n ls -> (length ls < name_fuel)%nat.
Proof. intros (_ & _ & Hl). pose proof (labels_wire_length ls). unfold name_fuel. lia. Qed.

Lemma append_name_spec (n : N) ls : name_ok n ls -> Appends (append_compressed_name (B:=B) n) (labels_wire ls).
Proof using All.
  intros Hn b. rewrite append_plain. pose proof (name_ok_fuel _ _ Hn) as Hf. destruct Hn as (Hd & Ha & _).
  destruct (name_compose_spec n ls Hd Hf (abs_labels_good _ Ha) b) as ([b' ok] & -> & Happ).
  unfold appended in Happ; simpl in Happ. destruct ok.
  - by exists b', true, (labels_wire ls).
  - destruct Happ as (p & _ & E). by exists b', false, p.
Qed.

Definition question_ok (q : Question N) (a : Question (list (list Z))) : Prop :=
  name_ok (qname q) (qname a) /\ qtype q = qtype a /\ qclass q = qclass a /\ question_fits a.

Lemma question_compose_spec (q : Question N) a :
  question_ok q a -> Appends (B:=B) (question_compose q) (question_wire a).
Proof using All.
  intros (Hn & Ht & Hc & _). unfold question_compose, question_wire, question_tail. rewrite Ht, Hc.
  apply Appends_seq; [by apply append_name_spec|].
  apply Appends_compose, compose_seq_spec; apply compose_slice_spec.
Qed.

Context {D : Type} `{!ComposeRecordData D B} (stands : D -> list Z -> Prop) `{!ComposeRecordDataOk D B stands}.

Lemma compose_len_rdata_spec (d : D) w :
  stands d w -> zlen w < 2 ^ 16 -> Appends (B:=B) (compose_len_rdata d) (to_be_bytes 2 (zlen w) ++ w).
Proof using All.
  intros Hw Hd b. unfold compose_len_rdata. rewrite plain_cannot_compress.
  pose proof (compose_rdata_ok d w Hw) as Hc.
  destruct (rd_rdlen_ok d w Hw Hd) as [-> | ->].
  - by apply compose_prefixed_spec.
  - apply Appends_seq; [|done]. apply Appends_compose, compose_slice_spec.
Qed.

Definition record_ok (r : ResourceRecord N D) (a : arecord) : Prop :=
  name_ok (rr_owner r) (ar_owner a) /\ rd_rtype (rr_data r) = ar_rtype a /\ rr_class r = ar_class a /\
  rr_ttl r = ar_ttl a /\ stands (rr_data r) (ar_data a) /\ record_fits a.

Lemma record_compose_spec (r : ResourceRecord N D) a :
  record_ok r a -> Appends (B:=B) (record_compose r) (record_wire a).
Proof using All.
  intros (Hn & Ht & Hc & Hl & Hd & Hf). unfold record_compose, record_wire, record_tail.
  rewrite Ht, Hc, Hl. apply Appends_seq; [by apply append_name_spec|].
  rewrite !app_assoc. rewrite <- app_assoc. apply Appends_seq.
  - rewrite <- app_assoc. apply Appends_compose. unfold compose_fields.
    repeat apply compose_seq_spec; apply compose_slice_spec.
  - apply compose_len_rdata_spec; [done|]. destruct Hf as (_ & _ & _ & Hf). apply Hf.
Qed.
End Wire.

(** ** Items in place *)

(** A name written without compression is at its place. *)
Lemma at_labels_wire s pos ls t :
  abs_labels ls -> drop pos s = labels_wire ls ++ t -> at_labels s pos ls (pos + length (labels_wire ls)).
Proof.
  intros (part & -> & Hp) Hd. rewrite labels_wire_app, length_app in *. rewrite <- app_assoc in Hd.
  replace (length (labels_wire [[]])) with 1%nat by done.
  apply (at_labels_written s pos part ([0] ++ t)); [done|done|].
  rewrite Nat.add_assoc. apply at_root.
  rewrite <- (Nat.add_0_r (pos + _)), <- lookup_drop, <- drop_drop, Hd, drop_app_length. done.
Qed.

Lemma item_at_wire s pos ls tail t :
  abs_labels ls -> (length (labels_wire ls) <= 255)%nat -> drop pos s = (labels_wire ls ++ tail) ++ t ->
  item_at s pos ls tail (pos + length (labels_wire ls ++ tail)).
Proof.
  intros Ha Hl Hd. rewrite <- app_assoc in Hd. exists (pos + length (labels_wire ls))%nat.
  split_and!; [by eapply at_labels_wire|done| |rewrite length_app; lia].
  by rewrite <- drop_drop, Hd, drop_app_length, take_app_length.
Qed.

Lemma items_at_wire {X} (at_ : nat -> X -> nat -> Prop) (wire : X -> list Z) s l pos t :
  (forall x pos t, x ∈ l -> drop pos s = wire x ++ t -> at_ pos x (pos + length (wire x))%nat) ->
  drop pos s = concat (map wire l) ++ t ->
  items_at at_ pos l (pos + length (concat (map wire l))).
Proof.
  revert pos. induction l as [|x l IH]; intros pos Hx Hd; simpl in *.
  - rewrite Nat.add_0_r. constructor.
  - rewrite <- app_assoc in Hd. econstructor; [eapply Hx; [by left|exact Hd]|].
    rewrite length_app, Nat.add_assoc. apply IH.
    + intros y q u Hy. apply Hx. by right.
    + by rewrite <- drop_drop, Hd, drop_app_length.
Qed.

Definition question_good (a : Question (list (list Z))) : Prop :=
  abs_labels (qname a) /\ (length (labels_wire (qname a)) <= 255)%nat /\ question_fits a.

Definition record_good (a : arecord) : Prop :=
  abs_labels (ar_owner a) /\ (length (labels_wire (ar_owner a)) <= 255)%nat /\ record_fits a /\
  wf_octets (ar_data a).

Definition am_of (qs : list (Question (list (list Z)))) (an ns ar : list arecord) : amsg :=
  mkAmsg header_new NO_LIMIT
    [map question_wire qs; map record_wire an; map record_wire ns; map record_wire ar].

Lemma question_wire_wf a : question_good a -> wf_octets (question_wire a).
Proof.
  intros (Ha & _ & _). unfold question_wire, question_tail. rewrite !wf_octets_app.
  split_and!; auto using to_be_bytes_wf. by apply labels_wire_wf, abs_labels_good.
Qed.

Lemma record_wire_wf a : record_good a -> wf_octets (record_wire a).
Proof.
  intros (Ha & _ & _ & Hd). unfold record_wire, record_tail. rewrite !wf_octets_app.
  split_and!; auto using to_be_bytes_wf. by apply labels_wire_wf, abs_labels_good.
Qed.

Lemma wf_octets_concat (l : list (list Z)) : Forall wf_octets l -> wf_octets (concat l).
Proof. induction 1; simpl; [constructor|]. by apply wf_octets_app. Qed.

Lemma section_items s pos l t :
  Forall record_good l -> drop pos s = concat (map record_wire l) ++ t ->
  items_at (record_at s) pos l (pos + length (concat (map record_wire l))).
Proof.
  intros Hl. apply items_at_wire. intros x q u Hx Hd. destruct (proj1 (list.Forall_forall _ _) Hl x Hx) as (? & ? & ? & _).
  split; [done|]. by eapply item_at_wire.
Qed.

(** The message made of the questions and records holds them. *)
(** The same with another header and limit. *)
Definition am_full (h : Header) (limit : Z) (qs : list (Question (list (list Z)))) (an ns ar : list arecord) : amsg :=
  mkAmsg h limit [map question_wire qs; map record_wire an; map record_wire ns; map record_wire ar].

Lemma am_full_holds h limit qs an ns ar :
  Forall question_good qs -> Forall record_good an -> Forall record_good ns -> Forall record_good ar ->
  am_wf (am_full h limit qs an ns ar) -> holds (am_wire (am_full h limit qs an ns ar)) qs an ns ar.
Proof.
  intros Hq Ha Hn Hr (Hh & _ & Hwf). cbn [am_secs am_full am_header] in Hwf, Hh.
  destruct (header_wf_octets _ Hh) as (h0 & h1 & h2 & h3 & -> & ? & ? & ? & ?).
  repeat (apply Forall_uncons in Hwf as [? Hwf]). unfold zlen in *; rewrite !length_map in *.
  set (s := am_wire (am_full (mkHeader [h0; h1; h2; h3]) limit qs an ns ar)).
  assert (Es : s = [h0; h1; h2; h3] ++ counts_wire (am_secs (am_full (mkHeader [h0; h1; h2; h3]) limit qs an ns ar)) ++
    concat (map question_wire qs) ++ concat (map record_wire an) ++ concat (map record_wire ns) ++
    concat (map record_wire ar)).
  { unfold s, am_wire, secs_wire. cbn [am_secs am_full am_header h_inner concat]. by rewrite !concat_app, !app_nil_r. }
  assert (Hcw : length (counts_wire (am_secs (am_full (mkHeader [h0; h1; h2; h3]) limit qs an ns ar))) = 8%nat) by (by apply length_counts_wire).
  assert (Hd : drop 12 s = concat (map question_wire qs) ++ concat (map record_wire an) ++
    concat (map record_wire ns) ++ concat (map record_wire ar)).
  { rewrite Es, app_assoc. apply drop_app_length'. by rewrite length_app, Hcw. }
  assert (Hc : counts_of s = mkCounts (counts_wire (am_secs (am_full (mkHeader [h0; h1; h2; h3]) limit qs an ns ar)))).
  { by unfold counts_of; f_equal. }
  unfold holds. rewrite Hc.
  assert (Hcount : forall v, v < 2 ^ 16 -> 0 <= v -> from_be_bytes (to_be_bytes 2 v) 0 = v)
    by (intros; apply get_be; ulia).
  unfold counts_wire; cbn [map am_secs am_full concat]. unfold zlen; rewrite !length_map.
  split_and!.
  - rewrite Es, !length_app, Hcw. simpl. lia.
  - rewrite Es. unfold counts_wire. rewrite !wf_octets_app.
    split_and!; try (apply wf_octets_concat, Forall_map; eapply Forall_impl; [eassumption|]; cbv beta;
      eauto using question_wire_wf, record_wire_wf, to_be_bytes_wf).
    + apply Hh.
    + apply wf_octets_concat, Forall_map, list.Forall_true. intros; apply to_be_bytes_wf.
    + simpl. constructor.
  - apply (Hcount (Z.of_nat (length qs))); [done|lia].
  - apply (Hcount (Z.of_nat (length an))); [done|lia].
  - apply (Hcount (Z.of_nat (length ns))); [done|lia].
  - apply (Hcount (Z.of_nat (length ar))); [done|lia].
  - eexists _, _, _, _. split_and!.
    + eapply items_at_wire; [|exact Hd]. intros x q u Hx Hdx.
      destruct (proj1 (list.Forall_forall _ _) Hq x Hx) as (? & ? & ?). split; [done|]. by eapply item_at_wire.
    + eapply (section_items s); [done|]. by rewrite <- drop_drop, Hd, drop_app_length.
    + eapply (section_items s); [done|]. by rewrite <- !drop_drop, Hd, !drop_app_length.
    + eapply (section_items s _ _ []); [done|]. by rewrite <- !drop_drop, Hd, !drop_app_length, app_nil_r.
Qed.

Lemma am_of_holds qs an ns ar :
  Forall question_good qs -> Forall record_good an -> Forall record_good ns -> Forall record_good ar ->
  am_wf (am_of qs an ns ar) -> holds (am_wire (am_of qs an ns ar)) qs an ns ar.
Proof. apply (am_full_holds header_new NO_LIMIT). Qed.

(** ** Composing that cannot fail *)

(** Record data that is always written, if the target cannot fail. *)
Class ComposeRecordDataTotal (D B : Type) `{ComposeRecordData D B} (stands : D -> list Z -> Prop) : Prop :=
  compose_rdata_total (d : D) w : stands d w -> Succeeds (compose_rdata d).

Section Total.
Context {B : Type} `{OctetsBuilderOk B} `{!InfallibleBuilder B} `{!Composer B} `{!PlainComposer B}.

#[export] Instance unknown_compose_total : ComposeRecordDataTotal UnknownRecordData B unknown_stands.
Proof. intros d w _. apply Succeeds_compose. Qed.

Lemma Succeeds_never_fails (f : composer B) : NeverFails f -> Succeeds (push_compose f).
Proof. intros Hf b. unfold push_compose. destruct (Hf b) as [b' ->]. by exists b'. Qed.

Lemma compose_prefixed_total (op : pusher B) s :
  Appends op s -> Succeeds op -> zlen s < 2 ^ 16 -> Succeeds (compose_prefixed op).
Proof using All.
  intros Hop Hs Hl b. unfold compose_prefixed. destruct (append_slice_total b [0; 0]) as [b1 ->].
  destruct (Hs b1) as [b2 E2]. rewrite E2. destruct (Hop b1) as (b2' & ok & t & E2' & E & Ht).
  rewrite E2 in E2'. simplify_eq. rewrite Ht in E by done.
  replace (zlen (as_ref b2') - Z.of_nat (length (as_ref b1))) with (zlen s)
    by (rewrite E; unfold zlen; rewrite length_app; lia).
  destruct (Z.leb_spec (2 ^ 16) (zlen s)); [lia|]. by eexists.
Qed.

Context {N I : Type} `{ToLabelIter N I} `{!LabelIterOk I}.

Lemma append_name_total (n : N) ls : name_ok n ls -> Succeeds (append_compressed_name (B:=B) n).
Proof using All.
  intros Hn b. rewrite append_plain. pose proof (name_ok_fuel _ _ Hn) as Hf.
  destruct Hn as ((Rn & _) & _). unfold name_compose. destruct (as_flat_slice n) as [x|].
  - destruct (compose_slice_total x b) as [b' ->]. by exists b'.
  - unfold compose_labels. rewrite (collect_loop_spec _ _ _ Rn Hf).
    destruct (compose_each_total label_compose ls (fun l _ => label_compose_total l) b) as [b' ->]. by exists b'.
Qed.

Lemma question_compose_total (q : Question N) a : question_ok q a -> Succeeds (B:=B) (question_compose q).
Proof using All.
  intros (Hn & _). apply Succeeds_seq; [by eapply append_name_total|].
  apply Succeeds_never_fails, compose_seq_total; apply compose_slice_total.
Qed.

Context {D : Type} `{!ComposeRecordData D B} (stands : D -> list Z -> Prop).
Context `{!ComposeRecordDataOk D B stands} `{!ComposeRecordDataTotal D B stands}.

Lemma compose_len_rdata_total (d : D) w :
  stands d w -> zlen w < 2 ^ 16 -> Succeeds (B:=B) (compose_len_rdata d).
Proof using All.
  intros Hw Hd b. unfold compose_len_rdata. rewrite plain_cannot_compress.
  destruct (rd_rdlen_ok d w Hw Hd) as [-> | ->].
  - by apply (compose_prefixed_total _ w); [apply compose_rdata_ok|eapply compose_rdata_total|].
  - apply Succeeds_seq; [apply Succeeds_compose|by eapply compose_rdata_total].
Qed.

Lemma record_compose_total (r : ResourceRecord N D) a : record_ok stands r a -> Succeeds (B:=B) (record_compose r).
Proof using All.
  intros (Hn & _ & _ & _ & Hd & Hf). apply Succeeds_seq; [by eapply append_name_total|]. apply Succeeds_seq.
  - apply Succeeds_never_fails. repeat apply compose_seq_total; apply compose_slice_total.
  - apply (compose_len_rdata_total _ _ Hd). destruct Hf as (_ & _ & _ & Hf). apply Hf.
Qed.
End Total.

(** ** Building a message *)

Section Build.
Context {B : Type} `{OctetsBuilderOk B}.

Lemma any_calls_app (cs cs' : list (msg_call B)) b b1 rs b2 rs' :
  any_calls cs b = Ret (b1, rs) -> any_calls cs' b1 = Ret (b2, rs') ->
  any_calls (cs ++ cs') b = Ret (b2, rs ++ rs').
Proof.
  revert b rs. induction cs as [|c cs IH]; intros b rs; simpl; [by intros [= -> <-]|].
  destruct (any_call c b) as [[b0 r]|]; [|done].
  destruct (any_calls cs b0) as [[b0' rs0]|] eqn:E; [|done]. intros [= -> <-] E'.
  by rewrite (IH _ _ E E').
Qed.


Lemma any_push_ok (b : any_builder B) m pre sec push s :
  any_rep b m -> am_secs m = pre ++ [sec] -> Appends push s -> Succeeds push ->
  am_limit m = NO_LIMIT -> zlen (am_wire m) + zlen s < NO_LIMIT -> zlen sec + 1 < 2 ^ 16 ->
  exists b', any_call (CPush push) b = Ret (b', Ok ()) /\ any_rep b' (am_with m (pre ++ [sec ++ [s]])).
Proof.
  intros Hr E Ha Hs Hlim Hfit Hcount. pose proof (proj1 Hr) as Hmb.
  destruct (Hs (mb_target (any_mb b))) as [t' Et].
  destruct (Ha (mb_target (any_mb b))) as (t'' & ok & t & Et' & Er & Ht).
  rewrite Et in Et'. simplify_eq. rewrite Ht in Er by done.
  assert (Hl : any_level b = S (length pre)).
  { destruct Hr as (_ & <- & _). rewrite E, length_app. simpl. lia. }
  destruct (mb_push_rep _ _ _ _ _ _ _ _ Hmb E Et Er) as (mb' & r & Hpush & Hres).
  cbn [any_call]. rewrite (any_push_mb push b pre Hl), Hpush. unfold am_push in Hres. simpl negb in Hres.
  rewrite Hlim in Hres. destruct (Z.leb_spec NO_LIMIT (zlen (am_wire m) + zlen s)); [lia|].
  destruct (Z.ltb_spec (zlen sec + 1) (2 ^ 16)); [|lia]. destruct Hres as [-> Hrep].
  eexists; split; [done|]. by eapply any_rep_with.
Qed.

Lemma am_wire_snoc m pre sec s :
  am_wf m -> am_secs m = pre ++ [sec] -> zlen (am_wire (am_with m (pre ++ [sec ++ [s]]))) = zlen (am_wire m) + zlen s.
Proof.
  intros Hwf E. destruct (am_secs_snoc_wf _ _ _ Hwf E) as (Hl & _). unfold am_wire, zlen; simpl. rewrite E.
  rewrite !secs_wire_app, !secs_wire_one, concat_app. simpl concat. rewrite !length_app.
  rewrite !length_counts_wire by (rewrite length_app; simpl; lia). simpl length. lia.
Qed.

Lemma any_pushes (pushes : list (pusher B)) ss b m pre sec :
  Forall2 (fun push s => Appends push s /\ Succeeds push) pushes ss ->
  any_rep b m -> am_secs m = pre ++ [sec] -> am_limit m = NO_LIMIT ->
  zlen (am_wire m) + zlen (concat ss) < NO_LIMIT -> zlen sec + zlen ss < 2 ^ 16 ->
  exists b' rs, any_calls (map CPush pushes) b = Ret (b', rs) /\ Forall (fun r => r = Ok ()) rs /\
    any_rep b' (am_with m (pre ++ [sec ++ ss])).
Proof.
  intros Hp. revert b m sec. induction Hp as [|push s pushes ss [Ha Hs] Hp IH]; intros b m sec Hr E Hlim Hfit Hc.
  - exists b, []. rewrite app_nil_r, <- E. split_and!; [done|constructor|by destruct m].
  - assert (Hz : zlen (concat (s :: ss)) = zlen s + zlen (concat ss)) by (unfold zlen; simpl; rewrite length_app; lia).
    assert (Hz' : zlen (s :: ss) = 1 + zlen ss) by (unfold zlen; simpl; lia).
    assert (0 <= zlen (concat ss) /\ 0 <= zlen ss) by (unfold zlen; lia).
    destruct (any_push_ok b m pre sec push s) as (b1 & Eb1 & Hr1); [done..|lia|lia|].
    destruct (IH b1 (am_with m (pre ++ [sec ++ [s]])) (sec ++ [s])) as (b2 & rs & Eb2 & Hrs & Hr2); [done..| | |].
    { rewrite am_wire_snoc; [lia|apply Hr|done]. }
    { unfold zlen in *. rewrite length_app. simpl. lia. }
    exists b2, (Ok () :: rs). cbn [map any_calls]. rewrite Eb1, Eb2. split_and!; [done|by constructor|].
    by rewrite <- app_assoc in Hr2.
Qed.

(** Opening the next section and pushing its items. *)
Lemma any_section (pushes : list (pusher B)) ss b m :
  Forall2 (fun push s => Appends push s /\ Succeeds push) pushes ss ->
  any_rep b m -> (length (am_secs m) < 4)%nat -> am_limit m = NO_LIMIT ->
  zlen (am_wire m) + zlen (concat ss) < NO_LIMIT -> zlen ss < 2 ^ 16 ->
  exists b' rs, any_calls (CGo (S (length (am_secs m))) :: map CPush pushes) b = Ret (b', rs) /\
    Forall (fun r => r = Ok ()) rs /\ any_rep b' (am_with m (am_secs m ++ [ss])).
Proof.
  intros Hp Hr Hl Hlim Hfit Hc. destruct (any_go_rep (S (length (am_secs m))) b m Hr) as (b1 & Eb1 & Hr1); [lia|].
  assert (Eg : am_go (S (length (am_secs m))) (am_secs m) = am_secs m ++ [[]]).
  { unfold am_go. rewrite take_ge by lia. by replace (S (length (am_secs m)) - length (am_secs m))%nat with 1%nat by lia. }
  rewrite Eg in Hr1.
  destruct (any_pushes pushes ss b1 _ (am_secs m) [] Hp Hr1) as (b2 & rs & Eb2 & Hrs & Hr2); [done..| |done|].
  { unfold am_wire at 1; simpl. rewrite counts_wire_open, secs_wire_app by done.
    change (secs_wire [[]]) with (@nil Z). by rewrite app_nil_r. }
  exists b2, (Ok () :: rs). cbn [any_calls any_call]. rewrite Eb1. rewrite Eb2.
  split_and!; [done|by constructor|done].
Qed.
End Build.

(** The calls that build a message section by section. *)
Definition build_calls {B N I D : Type} `{Composer B} `{ToLabelIter N I} `{!ComposeRecordData D B}
    (qs : list (Question N)) (an ns ar : list (ResourceRecord N D)) : list (msg_call B) :=
  (CGo 1 :: map CPush (map question_compose qs)) ++ (CGo 2 :: map CPush (map record_compose an)) ++
  (CGo 3 :: map CPush (map record_compose ns)) ++ (CGo 4 :: map CPush (map record_compose ar)).

Section RoundTrip.
Context {B : Type} `{OctetsBuilderOk B} `{!InfallibleBuilder B} `{!Composer B} `{!PlainComposer B}.
Context {N I : Type} `{ToLabelIter N I} `{!LabelIterOk I}.
Context {D : Type} `{!ComposeRecordData D B} (stands : D -> list Z -> Prop).
Context `{!ComposeRecordDataOk D B stands} `{!ComposeRecordDataTotal D B stands}.
Context {P : Type} `{OctetsParserOk P} `{!OctetsParserRef P} `{!OctetsParserRefOk P}.

Definition record_stands (r : ResourceRecord N D) (a : arecord) : Prop :=
  record_ok stands r a /\ wf_octets (ar_data a).

Lemma question_pushes (qs : list (Question N)) qs' :
  Forall2 question_ok qs qs' ->
  Forall2 (fun push s => Appends (B:=B) push s /\ Succeeds push) (map question_compose qs) (map question_wire qs').
Proof using All.
  intros Hq. apply Forall2_fmap_2. eapply Forall2_impl; [exact Hq|]. intros q a Hok.
  split; [by apply question_compose_spec|by eapply question_compose_total].
Qed.

Lemma record_pushes (l : list (ResourceRecord N D)) l' :
  Forall2 record_stands l l' ->
  Forall2 (fun push s => Appends (B:=B) push s /\ Succeeds push) (map record_compose l) (map record_wire l').
Proof using All.
  intros Hl. apply Forall2_fmap_2. eapply Forall2_impl; [exact Hl|]. intros r a [Hok _].
  split; [by eapply record_compose_spec|by eapply record_compose_total].
Qed.

Lemma records_good (l : list (ResourceRecord N D)) l' : Forall2 record_stands l l' -> Forall record_good l'.
Proof. induction 1 as [|r a l l' [((_ & ? & ?) & _ & _ & _ & _ & ?) ?] _ IH]; by constructor. Qed.

Lemma questions_good (qs : list (Question N)) qs' : Forall2 question_ok qs qs' -> Forall question_good qs'.
Proof. induction 1 as [|q a l l' ((_ & ? & ?) & _ & _ & ?) _ IH]; by constructor. Qed.

Lemma am_wire_zlen m : am_wf m -> zlen (am_wire m) = 12 + zlen (secs_wire (am_secs m)).
Proof.
  intros ((Hh & _) & Hl & _). unfold am_wire, zlen. rewrite !length_app, Hh, length_counts_wire by done. lia.
Qed.

Lemma secs_wire_zlen_snoc pre sec : zlen (secs_wire (pre ++ [sec])) = zlen (secs_wire pre) + zlen (concat sec).
Proof. rewrite secs_wire_app, secs_wire_one. unfold zlen. rewrite length_app. lia. Qed.

Lemma secs_wire_zlen_four a b c d :
  zlen (secs_wire [a; b; c; d]) = zlen (concat a) + zlen (concat b) + zlen (concat c) + zlen (concat d).
Proof. unfold secs_wire, zlen. simpl. rewrite !concat_app, !length_app. simpl. lia. Qed.

(** What is built holds what was pushed. *)
Lemma message_built target mb qs an ns ar qs' an' ns' ar' :
  mb_from_target target = Some mb ->
  Forall2 question_ok qs qs' -> Forall2 record_stands an an' -> Forall2 record_stands ns ns' ->
  Forall2 record_stands ar ar' ->
  zlen qs' < 2 ^ 16 -> zlen an' < 2 ^ 16 -> zlen ns' < 2 ^ 16 -> zlen ar' < 2 ^ 16 ->
  12 + zlen (secs_wire (am_secs (am_of qs' an' ns' ar'))) < NO_LIMIT ->
  exists b rs, any_calls (B:=B) (build_calls qs an ns ar) (BMessage mb) = Ret (b, rs) /\
    Forall (fun r => r = Ok ()) rs /\ holds (mb_into_message (any_mb b)) qs' an' ns' ar'.
Proof using All.
  intros Hnew Hq Ha Hn Hr Cq Ca Cn Cr Hsize.
  pose proof secs_wire_zlen_snoc as Hz. assert (Hz0 : zlen (secs_wire []) = 0) by done.
  assert (Hm : forall (f : arecord -> list Z) l, zlen (map f l) = zlen l) by (intros; unfold zlen; by rewrite length_map).
  unfold am_of in Hsize; cbn [am_secs] in Hsize. rewrite secs_wire_zlen_four in Hsize.
  assert (Hpos : forall s : list Z, 0 <= zlen s) by (intros; unfold zlen; lia).
  pose proof (Hpos (concat (map question_wire qs'))). pose proof (Hpos (concat (map record_wire an'))).
  pose proof (Hpos (concat (map record_wire ns'))). pose proof (Hpos (concat (map record_wire ar'))).
  pose proof (from_target_rep _ _ Hnew) as R0.
  destruct (any_section _ _ _ _ (question_pushes _ _ Hq) R0) as (b1 & rs1 & E1 & F1 & R1);
    [simpl; lia|done|rewrite am_wire_zlen by apply R0; change (zlen (secs_wire (am_secs _))) with 0; lia
    |unfold zlen in *; by rewrite length_map|].
  destruct (any_section _ _ _ _ (record_pushes _ _ Ha) R1) as (b2 & rs2 & E2 & F2 & R2);
    [simpl; lia|done|rewrite am_wire_zlen by apply R1; cbn [am_secs am_with]; rewrite !Hz, Hz0; lia|by rewrite Hm|].
  destruct (any_section _ _ _ _ (record_pushes _ _ Hn) R2) as (b3 & rs3 & E3 & F3 & R3);
    [simpl; lia|done|rewrite am_wire_zlen by apply R2; cbn [am_secs am_with]; rewrite !Hz, Hz0; lia|by rewrite Hm|].
  destruct (any_section _ _ _ _ (record_pushes _ _ Hr) R3) as (b4 & rs4 & E4 & F4 & R4);
    [simpl; lia|done|rewrite am_wire_zlen by apply R3; cbn [am_secs am_with]; rewrite !Hz, Hz0; lia|by rewrite Hm|].
  exists b4, (rs1 ++ rs2 ++ rs3 ++ rs4). split_and!.
  - unfold build_calls. eapply any_calls_app; [exact E1|]. eapply any_calls_app; [exact E2|].
    eapply any_calls_app; [exact E3|exact E4].
  - by rewrite !Forall_app.
  - unfold mb_into_message. rewrite freeze_as_ref, (mb_rep_wire _ _ (proj1 R4)).
    apply am_of_holds; eauto using questions_good, records_good. apply R4.
Qed.

(** A message built from a new target by pushing questions and records, section
    by section, is complete, every push succeeding, and reading it gives the same
    questions and records: the names, the types and classes, the TTLs and the
    octets of the record data.  This is for a target that does not compress names
    and on which appending never fails (a [Vec], not a compressor or an array),
    no push limit, at most 65535 items in a section, names of at most 255 and
    record data of at most 65535 octets.  (C6) *)
Theorem message_roundtrip target mb qs an ns ar qs' an' ns' ar' :
  mb_from_target target = Some mb ->
  Forall2 question_ok qs qs' -> Forall2 record_stands an an' -> Forall2 record_stands ns ns' ->
  Forall2 record_stands ar ar' ->
  zlen qs' < 2 ^ 16 -> zlen an' < 2 ^ 16 -> zlen ns' < 2 ^ 16 -> zlen ar' < 2 ^ 16 ->
  12 + zlen (secs_wire (am_secs (am_of qs' an' ns' ar'))) < NO_LIMIT ->
  exists b rs, any_calls (B:=B) (build_calls qs an ns ar) (BMessage mb) = Ret (b, rs) /\
    Forall (fun r => r = Ok ()) rs /\
    reads_as (P:=P) (mb_into_message (any_mb b)) qs' an' ns' ar'.
Proof using All.
  intros Hnew Hq Ha Hn Hr Cq Ca Cn Cr Hsize.
  destruct (message_built target mb qs an ns ar qs' an' ns' ar') as (b & rs & Hc & Hrs & Hh); try done.
  exists b, rs. split_and!; [done|done|by apply holds_reads_as].
Qed.
End RoundTrip.

(** ** Example *)

Definition ex_question : Question Name := mkQuestion ex_ba 1 1.
Definition ex_rr : ResourceRecord Name UnknownRecordData := mkRR ex_ba 1 300 (mkUnknown 1 [192; 0; 2; 1]).

Lemma ex_ba_ok : name_ok ex_ba [[98]; [97]; []].
Proof. split_and!; [apply wf_abs_denotes, ex_ba_wf|apply ex_ba_wf|by_decide]. Qed.

Lemma ex_rr_stands :
  record_stands (B:=list Z) unknown_stands ex_rr (mkArecord [[98]; [97]; []] 1 1 300 [192; 0; 2; 1]).
Proof. split; [|by_decide]. split_and!; [apply ex_ba_ok|done..|split_and!; by_decide]. Qed.

Lemma message_roundtrip_witness :
  exists mb b rs, mb_from_target (B:=list Z) [] = Some mb /\
    any_calls (build_calls [ex_question] [ex_rr; ex_rr] [] []) (BMessage mb) = Ret (b, rs) /\
    reads_as (P:=slice_parser) (mb_into_message (any_mb b)) [mkQuestion [[98]; [97]; []] 1 1]
      (replicate 2 (mkArecord [[98]; [97]; []] 1 1 300 [192; 0; 2; 1])) [] [].
Proof.
  exists (mkMB (replicate 12 0) NO_LIMIT).
  destruct (message_roundtrip (B:=list Z) (P:=slice_parser) unknown_stands [] (mkMB (replicate 12 0) NO_LIMIT)
    [ex_question] [ex_rr; ex_rr] [] [] [mkQuestion [[98]; [97]; []] 1 1]
    (replicate 2 (mkArecord [[98]; [97]; []] 1 1 300 [192; 0; 2; 1])) [] []) as (b & rs & Hc & _ & Hr);
    [reflexivity|..|exists b, rs; split; [reflexivity|split; [exact Hc|exact Hr]]]; try by_decide.
  - constructor; [|constructor]. split_and!; [apply ex_ba_ok|done|done|split; by_decide].
  - do 2 (constructor; [apply ex_rr_stands|]). constructor.
  - constructor.
  - constructor.
Defined.
