(* ===== verification/Scanner.v ===== *)
(** * Scanning tokens ([src/src/base/scan.rs], [src/src/base/rdata.rs])

    [IterScanner] reads the tokens of an entry from an iterator of strings.  Its
    state is the list of the tokens left, each a list of characters.  Every method
    returns the scanner it leaves behind and a result; a closure passed to it is a
    function on its captured state.  The file also has what scans with it: the
    unsigned integers and unknown record data. *)

From S2P Require Import Prelude Octets Symbol BaseCodec CharStr Label Traits Name NameBuilder Record.
From stdpp Require Import strings.
#[local] Open Scope Z_scope.

(** ** Characters in UTF-8 *)

(** [char]: a Unicode scalar value. *)
Definition is_char (ch : Z) : Prop := 0 <= ch < 0xD800 \/ 0xDFFF < ch <= 0x10FFFF.

#[export] Instance is_char_dec ch : Decision (is_char ch).
Proof. unfold is_char; apply _. Defined.

(** [char::encode_utf8]. *)
Definition encode_utf8 (ch : Z) : list Z :=
  if ch <? 0x80 then [ch]
  else if ch <? 0x800 then [0xC0 + ch / 64; 0x80 + ch mod 64]
  else if ch <? 0x10000 then [0xE0 + ch / 4096; 0x80 + ch / 64 mod 64; 0x80 + ch mod 64]
  else [0xF0 + ch / 262144; 0x80 + ch / 4096 mod 64; 0x80 + ch / 64 mod 64; 0x80 + ch mod 64].

(** [str::from_utf8]: the characters of well-formed octets. *)
Definition utf8_tail (b : Z) : bool := (0x80 <=? b) && (b <=? 0xBF).

Fixpoint from_utf8 (s : list Z) : option (list Z) :=
  match s with
  | [] => Some []
  | b0 :: s1 =>
      if b0 <? 0x80 then option_map (cons b0) (from_utf8 s1)
      else match s1 with
      | [] => None
      | b1 :: s2 =>
          if negb (utf8_tail b1) then None
          else if (0xC2 <=? b0) && (b0 <=? 0xDF)
          then option_map (cons ((b0 - 0xC0) * 64 + (b1 - 0x80))) (from_utf8 s2)
          else match s2 with
          | [] => None
          | b2 :: s3 =>
              if negb (utf8_tail b2) then None
              else if (0xE0 <=? b0) && (b0 <=? 0xEF) then
                let v := (b0 - 0xE0) * 4096 + (b1 - 0x80) * 64 + (b2 - 0x80) in
                if (v <? 0x800) || negb (bool_decide (is_char v)) then None
                else option_map (cons v) (from_utf8 s3)
              else match s3 with
              | [] => None
              | b3 :: s4 =>
                  if negb (utf8_tail b3) || negb ((0xF0 <=? b0) && (b0 <=? 0xF4)) then None
                  else
                    let v := (b0 - 0xF0) * 262144 + (b1 - 0x80) * 4096 + (b2 - 0x80) * 64 + (b3 - 0x80) in
                    if (v <? 0x10000) || negb (bool_decide (is_char v)) then None
                    else option_map (cons v) (from_utf8 s4)
              end
          end
      end
  end.

(** ** The scanner *)

Definition IterScanner : Type := list (list Z).

Definition is_new (tokens : list (list Z)) : IterScanner := tokens.
Definition is_exhausted (scanner : IterScanner) : bool := match scanner with [] => true | _ => false end.
Definition is_has_space (scanner : IterScanner) : bool := false.
Definition is_continues (scanner : IterScanner) : bool := match scanner with [] => false | _ => true end.

(** The loops go over the symbols of a token until the iterator ends; whether it
    ended at an error is not looked at. *)
Definition token_symbols (token : list Z) : list Symbol := (symbols_all token).1.

(** [for sym in symbols { op(sym)?; }]. *)
Fixpoint each_symbol {A S} (op : A -> S -> outcome (result A StrError)) (syms : list S) (acc : A)
    : outcome (result A StrError) :=
  match syms with
  | [] => Ret (Ok acc)
  | sym :: syms' =>
      let! r := op acc sym in
      match r with Ok acc' => each_symbol op syms' acc' | Err e => Ret (Err e) end
  end.

(** The next token, given to [f]. *)
Definition with_token {T} (f : list Symbol -> outcome (result T StrError)) (scanner : IterScanner)
    : outcome (IterScanner * result T StrError) :=
  match scanner with
  | [] => Ret ([], Err str_end_of_entry)
  | token :: rest => let! r := f (token_symbols token) in Ret (rest, r)
  end.

Definition scan_symbols {A} (op : A -> Symbol -> outcome (result A StrError)) (acc : A) (scanner : IterScanner)
    : outcome (IterScanner * result A StrError) :=
  with_token (fun syms => each_symbol op syms acc) scanner.

Fixpoint scan_entry_symbols {A} (op : A -> EntrySymbol -> outcome (result A StrError)) (acc : A) (scanner : IterScanner)
    : outcome (IterScanner * result A StrError) :=
  match scanner with
  | [] => Ret ([], Ok acc)
  | token :: rest =>
      let! r := each_symbol op (map ESymbol (token_symbols token) ++ [EndOfToken]) acc in
      match r with Ok acc' => scan_entry_symbols op acc' rest | Err e => Ret (rest, Err e) end
  end.

Section Octets.
Context {B : Type} `{OctetsBuilder B}.

Definition convert_token {C} `{ConvertSymbols C} (convert : C) (scanner : IterScanner)
    : outcome (IterScanner * result (list Z) StrError) :=
  with_token (fun syms => convert_symbols (B:=B) (map ESymbol syms) convert) scanner.

(** The token loop of [convert_entry]; no end of token is given to the converter. *)
Fixpoint convert_tokens {C} `{ConvertSymbols C} (scanner : IterScanner) (convert : C) (res : B)
    : outcome (IterScanner * result (C * B) StrError) :=
  match scanner with
  | [] => Ret ([], Ok (convert, res))
  | token :: rest =>
      let! r := convert_loop (map ESymbol (token_symbols token)) convert res in
      match r with Ok (convert', res') => convert_tokens rest convert' res' | Err e => Ret (rest, Err e) end
  end.

Definition convert_entry {C} `{ConvertSymbols C} (convert : C) (scanner : IterScanner)
    : outcome (IterScanner * result (list Z) StrError) :=
  let! (rest, r) := convert_tokens scanner convert builder_empty in
  match r with
  | Err e => Ret (rest, Err e)
  | Ok (convert, res) =>
      let! (_, r) := process_tail convert in
      Ret (rest, let? data := r in let? res := append_data data res in Ok (freeze res))
  end.

(** The closures that append what [conv] makes of a symbol. *)
Definition append_symbol {E T} {O} `{OctetsBuilder O} (conv : Symbol -> result T E) (octets : T -> list Z)
    (res : O) (sym : Symbol) : outcome (result O StrError) :=
  Ret (match conv sym with
       | Ok ch => ok_or (append_slice res (octets ch)) str_short_buf
       | Err _ => Err (str_custom "bad symbol")
       end).

Definition scan_octets : IterScanner -> outcome (IterScanner * result (list Z) StrError) :=
  with_token (fun syms =>
    let! r := each_symbol (append_symbol symbol_into_octet (fun ch => [ch])) syms (builder_empty : B) in
    Ret (result_map freeze r)).

(** [unwrap] on [Str::from_utf8] panics on octets that are not UTF-8. *)
Definition scan_string : IterScanner -> outcome (IterScanner * result (list Z) StrError) :=
  with_token (fun syms =>
    let! r := each_symbol (append_symbol symbol_into_char encode_utf8) syms (builder_empty : B) in
    match r with
    | Err e => Ret (Err e)
    | Ok res => match from_utf8 (freeze res) with Some _ => Ret (Ok (freeze res)) | None => Panic end
    end).

Definition scan_ascii_str {T} (op : list Z -> result T StrError) (scanner : IterScanner)
    : outcome (IterScanner * result T StrError) :=
  let! (rest, r) := scan_string scanner in
  Ret (rest, let? res := r in
             if forallb (fun b => b <? 128) res then op res else Err (str_custom "non-ASCII characters")).

Definition scan_name (overflow_checks : bool) : IterScanner -> outcome (IterScanner * result Name StrError) :=
  with_token (fun syms =>
    let! r := name_from_symbols (B:=B) overflow_checks syms in
    Ret (map_err (fun _ => str_custom "invalid domain name") r)).

Definition scan_charstr : IterScanner -> outcome (IterScanner * result CharStr StrError) :=
  with_token (fun syms =>
    let! r := each_symbol (append_symbol symbol_into_octet (fun ch => [ch])) syms (csb_new (B:=B)) in
    Ret (result_map csb_finish r)).

(** The [while] loop takes a token a round: the number of tokens is enough fuel. *)
Fixpoint charstr_entry_loop (fuel : nat) (scanner : IterScanner) (res : B) : outcome (IterScanner * result B StrError) :=
  match fuel with
  | O => Ret (scanner, Ok res)
  | S fuel' =>
      if is_continues scanner then
        let! (rest, r) := scan_charstr scanner in
        match r with
        | Err e => Ret (rest, Err e)
        | Ok s =>
            let! (res', ok) := cs_compose s res in
            if ok : bool then charstr_entry_loop fuel' rest res' else Ret (rest, Err str_short_buf)
        end
      else Ret (scanner, Ok res)
  end.

Definition scan_charstr_entry (scanner : IterScanner) : outcome (IterScanner * result (list Z) StrError) :=
  let! (rest, r) := charstr_entry_loop (length scanner) scanner builder_empty in
  Ret (rest, result_map freeze r).

Definition scan_octets_builder (scanner : IterScanner) : IterScanner * result B StrError := (scanner, Ok builder_empty).
End Octets.

(** The token ["\#"]. *)
Definition UNKNOWN_MARKER : list Z := [92; 35].

Definition scan_opt_unknown_marker (scanner : IterScanner) : IterScanner * result bool StrError :=
  (scanner, Ok (match scanner with token :: _ => bool_decide (token = UNKNOWN_MARKER) | [] => false end)).

(** ** The trait *)

(** [trait Scanner]: [S] is the scanner, [N] the type of the names it scans.  A
    method returns the scanner it leaves behind also when it fails. *)
Class Scanner (S N : Type) : Type := {
  s_has_space : S -> bool;
  s_continues : S -> bool;
  s_scan_symbols : forall A, (A -> Symbol -> outcome (result A StrError)) -> A -> S -> outcome (S * result A StrError);
  s_scan_entry_symbols : forall A, (A -> EntrySymbol -> outcome (result A StrError)) -> A -> S -> outcome (S * result A StrError);
  s_convert_token : forall C {_ : ConvertSymbols C}, C -> S -> outcome (S * result (list Z) StrError);
  s_convert_entry : forall C {_ : ConvertSymbols C}, C -> S -> outcome (S * result (list Z) StrError);
  s_scan_octets : S -> outcome (S * result (list Z) StrError);
  s_scan_ascii_str : forall T, (list Z -> result T StrError) -> S -> outcome (S * result T StrError);
  s_scan_name : S -> outcome (S * result N StrError);
  s_scan_charstr : S -> outcome (S * result CharStr StrError);
  s_scan_string : S -> outcome (S * result (list Z) StrError);
  s_scan_charstr_entry : S -> outcome (S * result (list Z) StrError);
  s_scan_opt_unknown_marker : S -> outcome (S * result bool StrError);
}.
Arguments s_scan_symbols {S N _ A}.
Arguments s_scan_entry_symbols {S N _ A}.
Arguments s_convert_token {S N _ C _}.
Arguments s_convert_entry {S N _ C _}.
Arguments s_scan_ascii_str {S N _ T}.

Definition iter_scanner {B} `{OctetsBuilder B} (overflow_checks : bool) : Scanner IterScanner Name := {|
  s_has_space := is_has_space;
  s_continues := is_continues;
  s_scan_symbols _ := scan_symbols;
  s_scan_entry_symbols _ := scan_entry_symbols;
  s_convert_token _ _ := convert_token (B:=B);
  s_convert_entry _ _ := convert_entry (B:=B);
  s_scan_octets := scan_octets (B:=B);
  s_scan_ascii_str _ := scan_ascii_str (B:=B);
  s_scan_name := scan_name (B:=B) overflow_checks;
  s_scan_charstr := scan_charstr (B:=B);
  s_scan_string := scan_string (B:=B);
  s_scan_charstr_entry := scan_charstr_entry (B:=B);
  s_scan_opt_unknown_marker scanner := Ret (scan_opt_unknown_marker scanner);
|}.

(** [let x = scanner.method()?; k]. *)
Definition scan_then {S A T} (r : outcome (S * result A StrError)) (k : A -> S -> outcome (S * result T StrError))
    : outcome (S * result T StrError) :=
  let! (scanner, r) := r in
  match r with Ok a => k a scanner | Err e => Ret (scanner, Err e) end.

Definition scan_ok {S T} (t : T) (scanner : S) : outcome (S * result T StrError) := Ret (scanner, Ok t).

(** ** Unsigned integers *)

(** [a + b] in [w] bits: overflows panic with overflow checks and wrap around without. *)
Definition uint_add (overflow_checks : bool) (w a b : Z) : outcome Z :=
  if 2 ^ w <=? a + b then if overflow_checks then Panic else Ret ((a + b) mod 2 ^ w) else Ret (a + b).

Definition uint_step (overflow_checks : bool) (w res : Z) (ch : Symbol) : outcome (result Z StrError) :=
  if 2 ^ w <=? res * 10 then Ret (Err (str_custom "decimal number overflow"))
  else match symbol_into_digit ch 10 with
       | Err _ => Ret (Err (str_custom "expected decimal number"))
       | Ok d => let! res := uint_add overflow_checks w (res * 10) d in Ret (Ok res)
       end.

(** [Scan] for the unsigned integer of [w] bits. *)
Definition scan_uint {S N} `{Scanner S N} (overflow_checks : bool) (w : Z) (scanner : S) : outcome (S * result Z StrError) :=
  s_scan_symbols (uint_step overflow_checks w) 0 scanner.

(** [Scan for Ttl]. *)
Definition scan_ttl {S N} `{Scanner S N} (overflow_checks : bool) (scanner : S) : outcome (S * result Z StrError) :=
  s_scan_symbols (uint_step overflow_checks 32) 0 scanner.

(** ** Unknown record data *)

Section Unknown.
Context {S N : Type} `{Scanner S N} (overflow_checks : bool).

Definition unknown_scan_without_marker (rtype : Z) (scanner : S) : outcome (S * result UnknownRecordData StrError) :=
  scan_then (scan_uint overflow_checks 16 scanner) (fun len scanner =>
  scan_then (s_convert_entry hex_converter_new scanner) (fun data scanner =>
  Ret (scanner,
       if negb (zlen data =? len) then Err (str_custom "generic data has incorrect length")
       else Ok (mkUnknown rtype data)))).

(** The closure of [scan]: only the first symbol may, and must, be ["\#"]. *)
Definition marker_step (first : bool) (symbol : Symbol) : outcome (result bool StrError) :=
  Ret (if first then if bool_decide (symbol = SimpleEscape 35) then Ok false else Err (str_custom "'\#' expected")
       else Err (str_custom "'\#' expected")).

Definition unknown_scan (rtype : Z) (scanner : S) : outcome (S * result UnknownRecordData StrError) :=
  scan_then (s_scan_symbols marker_step true scanner) (fun _ => unknown_scan_without_marker rtype).
End Unknown.

(** Decimal and two-digit hexadecimal formatting of the standard library; [40]
    digits are enough for the integers of up to 128 bits. *)
Fixpoint dec_digits (fuel : nat) (v : Z) : list Z :=
  match fuel with
  | O => []
  | S fuel' => if v <? 10 then [48 + v] else dec_digits fuel' (v / 10) ++ [48 + v mod 10]
  end.

Definition fmt_dec (v : Z) : list Z := dec_digits 40 v.

Definition lower_hex_digit (d : Z) : Z := if d <? 10 then 48 + d else 87 + d.
Definition fmt_02x (b : Z) : list Z := [lower_hex_digit (b / 16); lower_hex_digit (b mod 16)].

(** [Display for UnknownRecordData]. *)
Definition unknown_fmt (d : UnknownRecordData) : list Z :=
  UNKNOWN_MARKER ++ [32] ++ fmt_dec (zlen (unknown_data d)) ++
  concat (map (fun ch => 32 :: fmt_02x ch) (unknown_data d)).

(** [PartialEq], [PartialOrd], [Ord] and [CanonicalOrd]; the record type is not compared. *)
Definition unknown_eq (a b : UnknownRecordData) : bool := bool_decide (unknown_data a = unknown_data b).
Definition unknown_cmp (a b : UnknownRecordData) : comparison := iter_cmp (unknown_data a) (unknown_data b).

Definition unknown_parse_any_rdata {P} `{OctetsParser P} (rtype : Z) (p : P) : result (UnknownRecordData * P) ParseError :=
  let? (data, p) := short (p_parse_octets p (p_remaining p)) in Ok (mkUnknown rtype data, p).

(** [LongRecordData::check_append_len] on a machine with [usize] of 64 bits. *)
Definition check_append_len (len extra_len : Z) : result unit LongRecordData :=
  if 2 ^ 64 <=? len + extra_len then Err LongRecordDataErr
  else if 65535 <? len + extra_len then Err LongRecordDataErr else Ok ().

(** ** Scanning integers *)

(** The value of decimal digits that follow digits of value [acc]. *)
Definition dec_value_from (acc : Z) (ds : list Z) : Z := fold_left (fun v ch => v * 10 + (ch - 48)) ds acc.
Definition dec_value (ds : list Z) : Z := dec_value_from 0 ds.

Definition digits (ds : list Z) : Prop := Forall (fun ch => is_ascii_digit ch = true) ds.

Lemma char_to_digit_10 ch : char_to_digit 10 ch = if is_ascii_digit ch then Some (ch - 48) else None.
Proof.
  unfold char_to_digit, is_ascii_digit. destruct ((48 <=? ch) && (ch <=? 57)) eqn:E; breflect.
  - destruct (Z.ltb_spec (ch - 48) 10); [done|lia].
  - repeat case_scrut; breflect; destruct_or?; breflect; try done; lia.
Qed.

Lemma dec_value_from_ge acc ds : 0 <= acc -> digits ds -> acc <= dec_value_from acc ds.
Proof.
  intros Ha Hd. revert acc Ha. induction Hd as [|d ds Hd _ IH]; intros acc Ha; simpl; [lia|].
  unfold is_ascii_digit in Hd. breflect. specialize (IH (acc * 10 + (d - 48))). lia.
Qed.

Lemma uint_loop oc w syms acc v :
  0 <= acc < 2 ^ w ->
  (exists ds, syms = map Char ds /\ digits ds /\ dec_value_from acc ds = v /\ v < 2 ^ w) ->
  each_symbol (uint_step oc w) syms acc = Ret (Ok v).
Proof.
  intros Ha (ds & -> & Hd & Hv & Hlt). revert acc Ha Hv. induction Hd as [|d ds Hd Hds IH]; intros acc Ha Hv; cbn.
  - by subst.
  - cbn in Hv. assert (acc * 10 + (d - 48) <= v).
    { rewrite <- Hv. apply dec_value_from_ge; [|done]. unfold is_ascii_digit in Hd. breflect. lia. }
    assert (48 <= d <= 57) by (unfold is_ascii_digit in Hd; breflect; lia).
    unfold uint_step at 1. destruct (Z.leb_spec (2 ^ w) (acc * 10)); [lia|]. cbn [symbol_into_digit].
    rewrite char_to_digit_10, Hd. unfold uint_add. destruct (Z.leb_spec (2 ^ w) (acc * 10 + (d - 48))); [lia|].
    apply IH; [lia|done].
Qed.

Lemma uint_loop_inv w syms acc v :
  0 <= acc < 2 ^ w -> each_symbol (uint_step true w) syms acc = Ret (Ok v) ->
  exists ds, syms = map Char ds /\ digits ds /\ dec_value_from acc ds = v /\ v < 2 ^ w.
Proof.
  revert acc. induction syms as [|sym syms IH]; intros acc Ha; cbn.
  - intros [= <-]. exists []. split_and!; [done|constructor|done|lia].
  - unfold uint_step at 1. destruct (Z.leb_spec (2 ^ w) (acc * 10)); [done|].
    destruct sym as [ch| |]; cbn [symbol_into_digit]; try done. rewrite char_to_digit_10.
    destruct (is_ascii_digit ch) eqn:Ech; [|done]. unfold uint_add.
    destruct (Z.leb_spec (2 ^ w) (acc * 10 + (ch - 48))); [done|]. intros E.
    unfold is_ascii_digit in Ech. destruct (IH (acc * 10 + (ch - 48))) as (ds & -> & Hd & Hv & Hl); [breflect; lia|done|].
    exists (ch :: ds). split_and!; [done| |done|done]. by constructor.
Qed.

Lemma dec_digits_value fuel v :
  0 <= v < 10 ^ Z.of_nat fuel -> digits (dec_digits fuel v) /\ dec_value (dec_digits fuel v) = v.
Proof.
  revert v. induction fuel as [|fuel IH]; intros v Hv; [simpl in Hv; split; [constructor|cbn; lia]|].
  cbn [dec_digits]. destruct (Z.ltb_spec v 10).
  - split; [|cbn; lia]. constructor; [|constructor]. unfold is_ascii_digit.
    apply andb_true_iff; split; apply Z.leb_le; lia.
  - rewrite Nat2Z.inj_succ, Z.pow_succ_r in Hv by lia.
    destruct (IH (v / 10)) as [Hd Hval].
    { split; [apply Z.div_pos; lia|apply Z.div_lt_upper_bound; lia]. }
    pose proof (Z.mod_pos_bound v 10). pose proof (Z.div_mod v 10). split.
    + apply Forall_app; split; [done|]. constructor; [|constructor]. unfold is_ascii_digit.
      apply andb_true_iff; split; apply Z.leb_le; lia.
    + unfold dec_value, dec_value_from in *. rewrite fold_left_app, Hval. cbn. lia.
Qed.

Lemma plain_token ds : Forall (fun ch => ch <> 92) ds -> token_symbols ds = map Char ds.
Proof.
  unfold token_symbols. induction 1 as [|ch ds Hch _ IH]; [by rewrite symbols_all_nil|].
  rewrite (symbols_all_cons _ (Char ch) ds).
  - destruct (symbols_all ds); cbn in *. by rewrite IH.
  - simpl. by destruct (Z.eqb_spec ch 92).
Qed.

Lemma digits_plain ds : digits ds -> Forall (fun ch => ch <> 92) ds.
Proof. intros Hd. eapply Forall_impl; [exact Hd|]. cbn. unfold is_ascii_digit. intros ch ?; breflect; lia. Qed.

(** A token without broken escapes whose symbols are characters is these characters. *)
Lemma token_is_chars token ds :
  token_symbols token = map Char ds -> symbols_ok (symbols_all token).2 = Ok () -> token = ds.
Proof.
  unfold token_symbols. revert token. induction ds as [|d ds IH]; intros token; unfold symbols_all at 1 2;
    cbn [symbols_drain symbols_next]; destruct (symbol_from_chars token) as [[[sym rest]|]|e] eqn:E.
  - by destruct (symbols_drain _ _).
  - by destruct token as [|ch t]; [|simpl in E; repeat case_match; simplify_eq].
  - done.
  - rewrite symbols_drain_enough by (by eapply symbol_from_chars_shorter in E).
    destruct (symbols_all rest) as [syms st] eqn:Er. cbn [fst snd map]. intros [= -> Hs] Hok.
    rewrite <- (IH rest); [|by rewrite Er|by rewrite Er].
    destruct token as [|ch t]; [done|]. simpl in E. destruct (Z.eqb_spec ch 92); simpl in E; [|by simplify_eq].
    repeat case_match; simplify_eq.
  - done.
  - done.
Qed.

(** Scanning an integer of [w] bits from the tokens of an [IterScanner] reads the
    decimal number a token consists of.  For a token that is not empty and has no
    broken escape sequence, it succeeds with overflow checks exactly if the token
    consists of decimal digits only whose value fits, and gives this value; without
    overflow checks it still does so for these tokens.  (A number that does not fit
    because of its last digit makes the addition overflow: that is a panic or a
    wrong value, [scan_uint_overflow].)  The number as it is displayed is read back,
    and without a token there is an error.  (C36) *)
Theorem scan_uint_correct {B} `{OctetsBuilder B} oc w token rest :
  let _ := iter_scanner (B:=B) oc in
  8 <= w <= 128 -> token <> [] -> symbols_ok (symbols_all token).2 = Ok () ->
  (forall v, scan_uint true w (token :: rest) = Ret (rest, Ok v) <->
     digits token /\ dec_value token = v /\ v < 2 ^ w) /\
  (digits token -> dec_value token < 2 ^ w -> scan_uint oc w (token :: rest) = Ret (rest, Ok (dec_value token))) /\
  (forall v, 0 <= v < 2 ^ w -> scan_uint oc w (fmt_dec v :: rest) = Ret (rest, Ok v)) /\
  scan_uint oc w [] = Ret ([], Err str_end_of_entry).
Proof.
  intros SC Hw _ Htok. assert (0 <= 0 < 2 ^ w) as H0 by (split; [done|apply Z.pow_pos_nonneg; lia]).
  unfold scan_uint, scan_symbols; cbn [s_scan_symbols iter_scanner SC]; unfold scan_symbols; cbn [with_token].
  assert (Hds : forall oc ds, digits ds -> dec_value ds < 2 ^ w ->
    each_symbol (uint_step oc w) (token_symbols ds) 0 = Ret (Ok (dec_value ds))).
  { intros oc' ds Hd Hv. apply uint_loop; [done|]. exists ds. by rewrite plain_token by (by apply digits_plain). }
  split_and!; [| | |done].
  - intros v. split.
    + destruct (each_symbol _ (token_symbols token) 0) as [[v'|e]|] eqn:E; try done. intros [= <-].
      apply (uint_loop_inv w _ 0) in E as (ds & Es & Hd & Hv & Hlt); [|done].
      by apply token_is_chars in Es as ->.
    + intros (Hd & <- & Hlt). by rewrite Hds.
  - intros Hd Hv. by rewrite Hds.
  - intros v Hv. destruct (dec_digits_value 40 v) as [Hd Ev].
    { split; [lia|]. apply Z.lt_le_trans with (2 ^ w); [lia|]. etransitivity; [apply (Z.pow_le_mono_r 2 w 128); lia|].
      vm_compute. discriminate. }
    fold (fmt_dec v) in *. rewrite Hds; [by rewrite Ev|done|lia].
Qed.

Lemma scan_uint_correct_witness :
  let _ := iter_scanner (B:=list Z) true in
  scan_uint true 16 ([[54; 53; 53; 51; 53]] : IterScanner) = Ret ([], Ok 65535) /\
  scan_uint true 16 ([] : IterScanner) = Ret ([], Err str_end_of_entry).
Proof.
  destruct (scan_uint_correct (B:=list Z) true 16 [54; 53; 53; 51; 53] []) as (H1 & _ & _ & H2); [lia|discriminate|reflexivity|].
  split; [|exact H2]. apply H1. split_and!; by_decide.
Defined.

(** Only the multiplication is checked: a number too large by its last digit makes
    the addition overflow. *)
Theorem scan_uint_overflow (rest : IterScanner) :
  let _ := iter_scanner (B:=list Z) true in
  scan_uint true 8 ([50; 53; 54] :: rest) = Panic /\ scan_uint false 8 ([50; 53; 54] :: rest) = Ret (rest, Ok 0) /\
  scan_ttl false ([52; 50; 57; 52; 57; 54; 55; 50; 57; 54] :: rest) = Ret (rest, Ok 0).
Proof. split_and!; reflexivity. Qed.

(** ** Strings *)

#[local] Ltac Zify.zify_post_hook ::= Z.to_euclidean_division_equations.

Lemma utf8_tail_mod v : utf8_tail (0x80 + v mod 64) = true.
Proof. unfold utf8_tail. apply andb_true_iff; split; apply Z.leb_le; lia. Qed.

Lemma from_utf8_encode ch rest :
  is_char ch -> from_utf8 (encode_utf8 ch ++ rest) = option_map (cons ch) (from_utf8 rest).
Proof.
  intros Hch. assert (0 <= ch <= 0x10FFFF) by (unfold is_char in Hch; lia). unfold encode_utf8.
  destruct (Z.ltb_spec ch 0x80); [|destruct (Z.ltb_spec ch 0x800); [|destruct (Z.ltb_spec ch 0x10000)]]; cbn [app from_utf8].
  - by destruct (Z.ltb_spec ch 128); [|lia].
  - rewrite utf8_tail_mod; cbn [negb]. destruct (Z.ltb_spec (0xC0 + ch / 64) 0x80); [lia|].
    destruct (Z.leb_spec 0xC2 (0xC0 + ch / 64)); [|lia]. destruct (Z.leb_spec (0xC0 + ch / 64) 0xDF); [|lia].
    cbn [andb]. by replace ((0xC0 + ch / 64 - 0xC0) * 64 + (0x80 + ch mod 64 - 0x80)) with ch by lia.
  - rewrite !utf8_tail_mod; cbn [negb]. destruct (Z.ltb_spec (0xE0 + ch / 4096) 0x80); [lia|].
    destruct (Z.leb_spec (0xE0 + ch / 4096) 0xDF); [lia|]. rewrite andb_false_r.
    destruct (Z.leb_spec 0xE0 (0xE0 + ch / 4096)); [|lia]. destruct (Z.leb_spec (0xE0 + ch / 4096) 0xEF); [|lia]. cbn [andb].
    replace ((0xE0 + ch / 4096 - 0xE0) * 4096 + (0x80 + ch / 64 mod 64 - 0x80) * 64 + (0x80 + ch mod 64 - 0x80)) with ch by lia.
    destruct (Z.ltb_spec ch 0x800); [lia|]. by rewrite bool_decide_true.
  - rewrite !utf8_tail_mod; cbn [negb]. destruct (Z.ltb_spec (0xF0 + ch / 262144) 0x80); [lia|].
    destruct (Z.leb_spec (0xF0 + ch / 262144) 0xDF); [lia|]. rewrite andb_false_r.
    destruct (Z.leb_spec (0xF0 + ch / 262144) 0xEF); [lia|]. rewrite andb_false_r.
    destruct (Z.leb_spec 0xF0 (0xF0 + ch / 262144)); [|lia]. destruct (Z.leb_spec (0xF0 + ch / 262144) 0xF4); [|lia].
    cbn [andb orb negb].
    replace ((0xF0 + ch / 262144 - 0xF0) * 262144 + (0x80 + ch / 4096 mod 64 - 0x80) * 4096 +
      (0x80 + ch / 64 mod 64 - 0x80) * 64 + (0x80 + ch mod 64 - 0x80)) with ch by lia.
    destruct (Z.ltb_spec ch 0x10000); [lia|]. by rewrite bool_decide_true.
Qed.

Lemma from_utf8_concat chs : Forall is_char chs -> from_utf8 (concat (map encode_utf8 chs)) = Some chs.
Proof. induction 1 as [|ch chs Hch _ IH]; [done|]. cbn [map concat]. by rewrite from_utf8_encode, IH. Qed.

Lemma token_symbols_nil : token_symbols [] = [].
Proof. unfold token_symbols. by rewrite symbols_all_nil. Qed.

(** Characters of a token are characters; so are those its symbols stand for. *)
Lemma symbol_from_chars_char chars sym rest :
  Forall is_char chars -> symbol_from_chars chars = Ok (Some (sym, rest)) ->
  Forall is_char rest /\ forall ch, symbol_into_char sym = Ok ch -> is_char ch.
Proof.
  intros Hc E. destruct chars as [|ch chars]; [done|]. apply Forall_uncons in Hc as [Hch Hc]. simpl in E.
  destruct (negb (ch =? 92)); [simplify_eq; split; [done|]; intros c [= <-]; done|].
  destruct chars as [|ch1 chars]; [done|]. apply Forall_uncons in Hc as [Hch1 Hc].
  destruct (is_ascii_digit ch1).
  - destruct chars as [|c2 [|c3 chars]]; cbn in E; repeat case_match; simplify_eq/=.
    destruct (char_to_digit 10 c3); simplify_eq. do 2 apply Forall_uncons in Hc as [_ Hc]. by split.
  - repeat case_match; simplify_eq. split; [done|]. intros c; cbn. case_match; [|done]. intros [= <-]. done.
Qed.

Lemma token_symbols_ind (Q : list Z -> list Symbol -> Prop) :
  (forall chars, (forall sym rest, symbol_from_chars chars <> Ok (Some (sym, rest))) -> Q chars []) ->
  (forall chars sym rest, symbol_from_chars chars = Ok (Some (sym, rest)) -> Q rest (token_symbols rest) ->
     Q chars (sym :: token_symbols rest)) ->
  forall chars, Q chars (token_symbols chars).
Proof.
  intros Hnil Hcons chars. induction chars as [chars IH] using (induction_ltof1 _ (@length Z)). unfold ltof in IH.
  unfold token_symbols. destruct (symbol_from_chars chars) as [[[sym rest]|]|e] eqn:E.
  - rewrite (symbols_all_cons _ _ _ E). pose proof (Hcons _ _ _ E (IH _ (symbol_from_chars_shorter _ _ _ E))) as HQ.
    unfold token_symbols in HQ. destruct (symbols_all rest); cbn in *. done.
  - unfold symbols_all; cbn. rewrite E. apply Hnil. intros sym rest. by rewrite E.
  - unfold symbols_all; cbn. rewrite E. apply Hnil. intros sym rest. by rewrite E.
Qed.

Lemma token_chars token :
  Forall is_char token -> forall sym ch, sym ∈ token_symbols token -> symbol_into_char sym = Ok ch -> is_char ch.
Proof.
  apply (token_symbols_ind (fun token syms => Forall is_char token ->
    forall sym ch, sym ∈ syms -> symbol_into_char sym = Ok ch -> is_char ch)).
  - intros chars _ _ sym ch Hin. by apply elem_of_nil in Hin.
  - intros chars sym rest E IH Hc s ch Hin Hs. destruct (symbol_from_chars_char _ _ _ Hc E) as [Hr Hsym].
    apply elem_of_cons in Hin as [->|Hin]; [by apply Hsym|]. by apply (IH Hr s ch).
Qed.

Section Appending.
Context {B : Type} `{OctetsBuilderOk B} `{!InfallibleBuilder B}.

(** Appending symbol by symbol succeeds when every symbol converts, and appends
    what they convert to. *)
Lemma each_append_spec {E T} (conv : Symbol -> result T E) (octets : T -> list Z) syms (res : B) :
  (exists ts res', Forall2 (fun sym t => conv sym = Ok t) syms ts /\
     each_symbol (append_symbol conv octets) syms res = Ret (Ok res') /\
     as_ref res' = as_ref res ++ concat (map octets ts)) \/
  (each_symbol (append_symbol conv octets) syms res = Ret (Err (str_custom "bad symbol")) /\
   exists sym e, sym ∈ syms /\ conv sym = Err e).
Proof using All.
  revert res. induction syms as [|sym syms IH]; intros res; cbn [each_symbol].
  - left. exists [], res. split_and!; [constructor|done|by rewrite app_nil_r].
  - unfold append_symbol at 1 3. destruct (conv sym) as [t|e] eqn:E1.
    2: { right. split; [done|]. exists sym, e. split; [by left|done]. }
    destruct (append_slice_total res (octets t)) as [res1 A1]. rewrite A1; cbn [ok_or]. apply as_ref_append in A1.
    destruct (IH res1) as [(ts & res' & Hf & -> & Er)|(-> & s & e & Hin & He)].
    + left. exists (t :: ts), res'. split_and!; [by constructor|done|]. by rewrite Er, A1, <- app_assoc.
    + right. split; [done|]. exists s, e. split; [by right|done].
Qed.

(** Scanning a string never panics: what is built from the characters is valid
    UTF-8.  It succeeds exactly if every symbol of the token stands for a
    character, and the string consists of these. *)
Theorem scan_string_correct token rest :
  Forall is_char token ->
  exists r, scan_string (B:=B) (token :: rest) = Ret (rest, r) /\
    match r with
    | Ok s => exists chs, Forall2 (fun sym ch => symbol_into_char sym = Ok ch) (token_symbols token) chs /\
                from_utf8 s = Some chs
    | Err _ => exists sym e, sym ∈ token_symbols token /\ symbol_into_char sym = Err e
    end.
Proof using All.
  intros Hc. unfold scan_string; cbn [with_token].
  destruct (each_append_spec symbol_into_char encode_utf8 (token_symbols token) builder_empty)
    as [(chs & res & Hf & -> & Er)|(-> & Hbad)]; [|by eexists].
  rewrite as_ref_empty in Er. rewrite freeze_as_ref, Er. cbn [app].
  assert (Hok : Forall is_char chs).
  { pose proof (token_chars token Hc) as Ht. clear Er. revert Ht. induction Hf as [|sym ch syms chs E Hf IH]; intros Ht; constructor.
    - apply (Ht sym ch); [by left|done].
    - apply IH. intros s c Hin. apply Ht. by right. }
  rewrite from_utf8_concat by done. eexists; split; [done|]. exists chs. split; [done|]. by apply from_utf8_concat.
Qed.

(** [csb_octets_builder] can fail, so a character string has its own bound. *)
Lemma scan_charstr_spec syms (b : B) :
  (length (as_ref b) <= 255)%nat ->
  exists r, each_symbol (append_symbol symbol_into_octet (fun ch => [ch])) syms (mkCsb b) = Ret r /\
    match r with
    | Ok c => exists os, Forall2 (fun sym o => symbol_into_octet sym = Ok o) syms os /\
                as_ref (csb_builder c) = as_ref b ++ os /\ (length (as_ref (csb_builder c)) <= 255)%nat
    | Err _ => forall os, Forall2 (fun sym o => symbol_into_octet sym = Ok o) syms os -> (255 < length (as_ref b) + length os)%nat
    end.
Proof using All.
  revert b. induction syms as [|sym syms IH]; intros b Hb; cbn [each_symbol].
  - eexists; split; [done|]. exists []. rewrite app_nil_r. by split_and!.
  - unfold append_symbol at 1. destruct (symbol_into_octet sym) as [o|e] eqn:E1.
    2: { eexists; split; [done|]. intros os Hf. apply Forall2_cons_inv_l in Hf as (o & os' & Ho & _). congruence. }
    cbn [append_slice csb_octets_builder]. unfold csb_append_slice; cbn [csb_builder length].
    destruct (Nat.ltb_spec CHARSTR_MAX_LEN (length (as_ref b) + 1)) as [Hm|Hm]; unfold CHARSTR_MAX_LEN in Hm.
    { eexists; split; [done|]. intros os Hf. apply Forall2_cons_inv_l in Hf as (o' & os' & _ & _ & ->). simpl. lia. }
    destruct (append_slice_total b [o]) as [b1 A1]. rewrite A1. cbn [option_map ok_or]. apply as_ref_append in A1.
    destruct (IH b1) as (r & -> & Hr); [rewrite A1, length_app; simpl; lia|]. eexists; split; [done|]. destruct r as [c|e].
    + destruct Hr as (os & Hf & Er & Hl). exists (o :: os). split_and!; [by constructor| |done]. by rewrite Er, A1, <- app_assoc.
    + intros os Hf. apply Forall2_cons_inv_l in Hf as (o' & os' & Ho & Hf & ->). apply Hr in Hf.
      rewrite A1, length_app in Hf. simpl in *. lia.
Qed.
(** The character string a token stands for. *)
Definition token_charstr (token : list Z) (s : CharStr) : Prop :=
  Forall2 (fun sym o => symbol_into_octet sym = Ok o) (token_symbols token) (cs_octets s) /\ (cs_len s <= 255)%nat.

Lemma scan_charstr_token token rest :
  exists r, scan_charstr (B:=B) (token :: rest) = Ret (rest, r) /\
    match r with Ok s => token_charstr token s | Err _ => forall s, ~ token_charstr token s end.
Proof using All.
  unfold scan_charstr, csb_new; cbn [with_token].
  destruct (scan_charstr_spec (token_symbols token) builder_empty) as (r & -> & Hr); [rewrite as_ref_empty; simpl; lia|].
  eexists; split; [done|]. rewrite as_ref_empty in Hr. destruct r as [c|e]; cbn [result_map].
  - destruct Hr as (os & Hf & Er & Hl). cbn [app] in Er. unfold token_charstr, csb_finish, cs_len; cbn [cs_octets].
    rewrite freeze_as_ref, Er in *. by split.
  - intros s [Hf Hl]. apply Hr in Hf. unfold cs_len in Hl. simpl in Hf. lia.
Qed.

Lemma charstr_entry_spec fuel scanner (res : B) :
  (length scanner <= fuel)%nat ->
  exists rest r, charstr_entry_loop fuel scanner res = Ret (rest, r) /\
    match r with
    | Ok res' => rest = [] /\ exists strs, Forall2 token_charstr scanner strs /\
                   as_ref res' = as_ref res ++ concat (map cs_wire strs)
    | Err _ => exists token, token ∈ scanner /\ forall s, ~ token_charstr token s
    end.
Proof using All.
  revert fuel res. induction scanner as [|token scanner IH]; intros [|fuel] res Hf; try (simpl in Hf; lia).
  1, 2: eexists _, _; split; [done|]; split; [done|]; exists []; rewrite app_nil_r; by split; [constructor|].
  cbn [charstr_entry_loop is_continues]. destruct (scan_charstr_token token scanner) as (r & -> & Hr).
  destruct r as [s|e].
  2: { eexists _, _; split; [done|]. exists token. split; [by left|done]. }
  unfold cs_compose. assert (zlen (cs_octets s) < 2 ^ 8) as Hl%Z.ltb_lt.
  { destruct Hr as [_ Hl]. unfold cs_len, zlen in *. lia. }
  rewrite Hl. destruct (compose_seq_total _ _ (compose_slice_total [zlen (cs_octets s)]) (compose_slice_total (cs_octets s)) res)
    as [res1 E1]. unfold u8_compose. rewrite E1.
  apply (compose_seq_spec _ _ _ _ (compose_slice_spec _) (compose_slice_spec _)) in E1.
  destruct (IH fuel res1) as (rest & r & -> & Hr'); [simpl in Hf; lia|]. eexists _, _; split; [done|]. destruct r as [res'|e].
  - destruct Hr' as (-> & strs & Hs & Er). split; [done|]. exists (s :: strs). split; [by constructor|].
    rewrite Er, E1, <- app_assoc. done.
  - destruct Hr' as (t & Hin & Ht). exists t. split; [by right|done].
Qed.

(** Scanning the character strings of an entry ends, succeeds exactly if every
    token stands for a character string of at most 255 octets, reads all tokens,
    and gives the strings in wire format. *)
Theorem scan_charstr_entry_correct scanner :
  exists rest r, scan_charstr_entry (B:=B) scanner = Ret (rest, r) /\
    match r with
    | Ok s => rest = [] /\ exists strs, Forall2 token_charstr scanner strs /\ s = concat (map cs_wire strs)
    | Err _ => exists token, token ∈ scanner /\ forall s, ~ token_charstr token s
    end.
Proof using All.
  unfold scan_charstr_entry. destruct (charstr_entry_spec (length scanner) scanner builder_empty) as (rest & r & -> & Hr); [lia|].
  exists rest. eexists; split; [done|]. destruct r as [res|e]; cbn [result_map]; [|done].
  destruct Hr as (-> & strs & Hs & Er). split; [done|]. exists strs. split; [done|]. by rewrite freeze_as_ref, Er, as_ref_empty.
Qed.

(** ** Unknown record data *)

Lemma convert_loop_app {C} `{ConvertSymbols C} s1 s2 (c : C) (res : B) :
  convert_loop (s1 ++ s2) c res =
  match convert_loop s1 c res with Ret (Ok (c', res')) => convert_loop s2 c' res' | x => x end.
Proof.
  revert c res. induction s1 as [|sym s1 IH]; intros c res; cbn [app convert_loop]; [done|].
  destruct (process_symbol c sym) as [[c' r]|]; [|done].
  destruct (let? data := r in append_data data res) as [res'|e]; [apply IH|done].
Qed.

(** All the symbols of an entry. *)
Definition entry_symbols (scanner : IterScanner) : list EntrySymbol :=
  concat (map (fun token => map ESymbol (token_symbols token)) scanner).

Lemma convert_tokens_ok {C} `{ConvertSymbols C} scanner (c : C) (res : B) x :
  convert_loop (entry_symbols scanner) c res = Ret (Ok x) -> convert_tokens scanner c res = Ret ([], Ok x).
Proof.
  revert c res. induction scanner as [|token scanner IH]; intros c res; cbn [convert_tokens]; [by intros [= <-]|].
  unfold entry_symbols; cbn [map concat]. rewrite convert_loop_app.
  destruct (convert_loop (map ESymbol (token_symbols token)) c res) as [[[c' res']|e]|]; try done. apply IH.
Qed.

Lemma convert_entry_ok {C} `{ConvertSymbols C} scanner (c : C) s :
  convert_symbols (B:=B) (entry_symbols scanner) c = Ret (Ok s) -> convert_entry (B:=B) c scanner = Ret ([], Ok s).
Proof.
  unfold convert_symbols, convert_from, convert_entry. destruct (convert_loop _ c builder_empty) as [[[c' res]|e]|] eqn:E; try done.
  rewrite (convert_tokens_ok _ _ _ _ E). destruct (process_tail c') as [[c'' r]|]; [|done]. intros [= ->]. done.
Qed.

Lemma lower_hex_digit_value d : 0 <= d < 16 -> char_to_digit 16 (lower_hex_digit d) = Some d /\ lower_hex_digit d <> 32 /\ lower_hex_digit d <> 92.
Proof.
  intros Hd. unfold lower_hex_digit. destruct (Z.ltb_spec d 10); (split; [|lia]); unfold char_to_digit, is_ascii_digit;
    repeat case_scrut; breflect; destruct_or?; breflect; try lia; f_equal; lia.
Qed.

Lemma fmt_02x_octets s :
  wf_octets s -> hex_bad (concat (map fmt_02x s)) = None /\ hex_octets (concat (map fmt_02x s)) = Ok s.
Proof.
  induction 1 as [|o s Ho _ [IHb IHo]]; [done|]. unfold is_u8 in Ho.
  destruct (lower_hex_digit_value (o / 16)) as [Eh _]; [lia|]. destruct (lower_hex_digit_value (o mod 16)) as [El _]; [lia|].
  unfold hex_bad in *. cbn [map concat fmt_02x app find hex_octets]. rewrite Eh, El, IHb, IHo. split; [done|].
  cbn. do 2 f_equal. lia.
Qed.

Lemma fmt_02x_plain o : is_u8 o -> Forall (fun ch => ch <> 32 /\ ch <> 92) (fmt_02x o).
Proof.
  intros Ho. unfold is_u8 in Ho. repeat constructor; apply lower_hex_digit_value; lia.
Qed.

Lemma entry_symbols_02x s :
  wf_octets s -> entry_symbols (map fmt_02x s) = plain_symbols (concat (map fmt_02x s)).
Proof.
  induction 1 as [|o s Ho _ IH]; [done|]. unfold entry_symbols, plain_symbols in *. cbn [map concat].
  rewrite map_app, <- IH, plain_token by (eapply Forall_impl; [by apply fmt_02x_plain|]; by intros ? []).
  done.
Qed.

(** The words of a text, split at spaces. *)
Fixpoint words_from (cur s : list Z) : list (list Z) :=
  match s with
  | [] => [cur]
  | ch :: s' => if ch =? 32 then cur :: words_from [] s' else words_from (cur ++ [ch]) s'
  end.

Definition words (s : list Z) : list (list Z) := words_from [] s.

Lemma words_from_app cur w s :
  Forall (fun ch => ch <> 32) w -> words_from cur (w ++ s) = words_from (cur ++ w) s.
Proof.
  intros Hw. revert cur. induction Hw as [|ch w Hch _ IH]; intros cur; cbn [app words_from]; [by rewrite app_nil_r|].
  destruct (Z.eqb_spec ch 32); [done|]. by rewrite IH, <- app_assoc.
Qed.

Lemma words_separated cur ws :
  Forall (fun w => Forall (fun ch => ch <> 32) w) ws ->
  words_from cur (concat (map (fun w => 32 :: w) ws)) = cur :: ws.
Proof.
  intros Hw. revert cur. induction Hw as [|w ws Hw _ IH]; intros cur; [done|]. cbn [map concat app words_from].
  cbn [Z.eqb Pos.eqb]. rewrite words_from_app by done. by rewrite IH.
Qed.

Lemma unknown_fmt_words d :
  wf_octets (unknown_data d) -> zlen (unknown_data d) < 2 ^ 64 ->
  words (unknown_fmt d) = UNKNOWN_MARKER :: fmt_dec (zlen (unknown_data d)) :: map fmt_02x (unknown_data d).
Proof.
  intros Hd Hl. unfold words, unknown_fmt. rewrite words_from_app by (repeat constructor; discriminate).
  cbn [app words_from Z.eqb Pos.eqb]. f_equal. rewrite words_from_app.
  - rewrite <- (map_map fmt_02x (fun w => 32 :: w)), words_separated; [done|]. apply Forall_map.
    eapply Forall_impl; [exact Hd|]. intros o Ho. eapply Forall_impl; [by apply fmt_02x_plain|]. by intros ? [].
  - destruct (dec_digits_value 40 (zlen (unknown_data d))) as [Hdig _].
    { split; [unfold zlen; lia|]. etransitivity; [exact Hl|]. reflexivity. }
    eapply Forall_impl; [exact Hdig|]. cbn. unfold is_ascii_digit. intros ch ?; breflect; lia.
Qed.

(** The text unknown record data is displayed as, split into words, scans as the
    same data. *)
Theorem unknown_text_roundtrip oc rtype data d :
  let _ := iter_scanner (B:=B) oc in
  unknown_from_octets rtype data = Ok d -> wf_octets data ->
  unknown_scan oc rtype (words (unknown_fmt d) : IterScanner) = Ret ([], Ok d).
Proof using All.
  intros SC.
  unfold unknown_from_octets. destruct (Z.ltb_spec 65535 (zlen data)); [done|]. intros [= <-] Hd.
  rewrite unknown_fmt_words by (cbn [unknown_data]; first [done|lia]). cbn [unknown_data].
  unfold unknown_scan. cbn [s_scan_symbols iter_scanner SC].
  change (scan_symbols marker_step true (UNKNOWN_MARKER :: ?r)) with (Ret (r, Ok false : result bool StrError)).
  unfold unknown_scan_without_marker, scan_uint, scan_then. cbv beta iota.
  cbn [s_scan_symbols s_convert_entry iter_scanner SC]. unfold scan_symbols; cbn [with_token].
  destruct (dec_digits_value 40 (zlen data)) as [Hdig Ev]; [unfold zlen in *; lia|]. fold (fmt_dec (zlen data)) in *.
  rewrite (uint_loop oc 16 _ 0 (zlen data));
    [|lia|exists (fmt_dec (zlen data)); split_and!; [by apply plain_token, digits_plain|done|done|lia]].
  rewrite (convert_entry_ok _ _ data).
  - by rewrite Z.eqb_refl.
  - rewrite entry_symbols_02x by done. destruct (fmt_02x_octets data Hd) as [Eb Eo].
    destruct (hex_agrees (B:=B) (concat (map fmt_02x data))) as (r & r' & E & -> & Hr).
    unfold hex_decode, hex_new in E. rewrite hex_loop_spec, as_ref_empty, Eb, Eo in E. cbn in E. injection E as <-.
    destruct r' as [s'|]; [by subst|done].
Qed.
End Appending.

Lemma scan_string_correct_witness :
  Forall is_char [233; 92; 97] /\ exists r, scan_string (B:=list Z) [[233; 92; 97]] = Ret ([], r) /\ r = Ok [195; 169; 97].
Proof.
  assert (Forall is_char [233; 92; 97]) as Hc by by_decide. split; [exact Hc|].
  destruct (scan_string_correct (B:=list Z) [233; 92; 97] [] Hc) as (r & E & _). exists r. split; [exact E|].
  vm_compute in E. congruence.
Defined.

Lemma scan_charstr_entry_correct_witness :
  InfallibleBuilder (list Z) /\
  exists rest r, scan_charstr_entry (B:=list Z) [[97; 98]; []; [92; 48; 48; 49]] = Ret (rest, r) /\
    rest = [] /\ r = Ok [2; 97; 98; 0; 1; 1].
Proof.
  split; [apply _|].
  destruct (scan_charstr_entry_correct (B:=list Z) [[97; 98]; []; [92; 48; 48; 49]]) as (rest & r & E & _).
  exists rest, r. split; [exact E|]. vm_compute in E. split; congruence.
Defined.

Lemma unknown_text_roundtrip_witness :
  unknown_from_octets 65280 [1; 171] = Ok (mkUnknown 65280 [1; 171]) /\
  let _ := iter_scanner (B:=list Z) true in
  unknown_scan true 65280 (words (unknown_fmt (mkUnknown 65280 [1; 171])) : IterScanner) = Ret ([], Ok (mkUnknown 65280 [1; 171])).
Proof.
  split; [reflexivity|]. apply (unknown_text_roundtrip (B:=list Z) true 65280 [1; 171]); [reflexivity|by_decide].
Defined.

(** The marker is only looked at: what follows it is then read as the length. *)
Theorem unknown_marker_stays rtype (rest : IterScanner) :
  let _ := iter_scanner (B:=list Z) true in
  scan_opt_unknown_marker (UNKNOWN_MARKER :: rest) = (UNKNOWN_MARKER :: rest, Ok true) /\
  unknown_scan_without_marker true rtype (UNKNOWN_MARKER :: rest) =
    Ret (rest, Err (str_custom "expected decimal number")).
Proof. split; reflexivity. Qed.

(** A token is cut off at an illegal escape sequence: ["a\300b"] scans as ["a"]. *)
Theorem bad_escape_truncates rest :
  scan_octets (B:=list Z) ([97; 92; 51; 48; 48; 98] :: rest) = Ret (rest, Ok [97]).
Proof. reflexivity. Qed.
