(* ===== verification/Iana.v ===== *)
(** * Names of numbers ([src/src/base/iana/])

    The enumerations of the registries are integers with a table of mnemonics; the
    macros of [macros.rs] add their text.  The tables of record types and classes,
    which have a prefix for the numbers without a mnemonic, and the enumerations
    that are read and written as decimal numbers only. *)

From S2P Require Import Prelude Octets Symbol BaseCodec CharStr Label Traits Name NameBuilder Record Scanner.
From stdpp Require Import strings.
#[local] Open Scope Z_scope.

(** ** Integers of the standard library *)

(** The loop of [from_str_radix]: [None] stands for an invalid digit or an overflow. *)
Fixpoint parse_digits (w res : Z) (s : list Z) : option Z :=
  match s with
  | [] => Some res
  | ch :: s' =>
      match char_to_digit 10 ch with
      | None => None
      | Some d => if 2 ^ w <=? res * 10 + d then None else parse_digits w (res * 10 + d) s'
      end
  end.

(** [FromStr] for the unsigned integer of [w] bits: a plus sign may come first. *)
Definition parse_uint (w : Z) (s : list Z) : option Z :=
  match s with
  | [] => None
  | ch :: s' =>
      if (length s' =? 0)%nat && ((ch =? 43) || (ch =? 45)) then None
      else if ch =? 43 then parse_digits w 0 s' else parse_digits w 0 s
  end.

(** ** Tables of mnemonics *)

Definition Mnemonics : Type := list (Z * list Z).

Definition mn (value : Z) (mnemonic : string) : Z * list Z := (value, ascii_chars mnemonic).

Fixpoint from_mnemonic (table : Mnemonics) (m : list Z) : option Z :=
  match table with
  | [] => None
  | (value, mnemonic) :: table' => if eq_ignore_ascii_case m mnemonic then Some value else from_mnemonic table' m
  end.

Fixpoint to_mnemonic_str (table : Mnemonics) (value : Z) : option (list Z) :=
  match table with
  | [] => None
  | (v, mnemonic) :: table' => if v =? value then Some mnemonic else to_mnemonic_str table' value
  end.

(** [int_enum_str_with_prefix]; the text is a list of characters. *)
Definition prefix_from_str (table : Mnemonics) (prefix : list Z) (s : list Z) : option Z :=
  match from_mnemonic table s with
  | Some res => Some res
  | None =>
      if (length prefix <? length s)%nat then
        let '(l, r) := (take (length prefix) s, drop (length prefix) s) in
        if eq_ignore_ascii_case l prefix then parse_uint 16 r else None
      else None
  end.

Definition prefix_fmt (table : Mnemonics) (prefix : list Z) (value : Z) : list Z :=
  match to_mnemonic_str table value with
  | Some m => m
  | None => prefix ++ fmt_dec value
  end.

(** [int_enum_str_decimal] for an enumeration of eight bits. *)
Definition decimal_from_str (s : list Z) : option Z := parse_uint 8 s.

(** ** The registries *)

Definition rtype_mnemonics : Mnemonics := [
  mn 1 "A"; mn 2 "NS"; mn 3 "MD"; mn 4 "MF"; mn 5 "CNAME"; mn 6 "SOA"; mn 7 "MB"; mn 8 "MG"; mn 9 "MR";
  mn 10 "NULL"; mn 11 "WKS"; mn 12 "PTR"; mn 13 "HINFO"; mn 14 "MINFO"; mn 15 "MX"; mn 16 "TXT"; mn 17 "RP";
  mn 18 "AFSDB"; mn 19 "X25"; mn 20 "ISDN"; mn 21 "RT"; mn 22 "NSAP"; mn 23 "NSAPPTR"; mn 24 "SIG";
  mn 25 "KEY"; mn 26 "PX"; mn 27 "GPOS"; mn 28 "AAAA"; mn 29 "LOC"; mn 30 "NXT"; mn 31 "EID"; mn 32 "NIMLOC";
  mn 33 "SRV"; mn 34 "ATMA"; mn 35 "NAPTR"; mn 36 "KX"; mn 37 "CERT"; mn 38 "A6"; mn 39 "DNAME"; mn 40 "SINK";
  mn 41 "OPT"; mn 42 "APL"; mn 43 "DS"; mn 44 "SSHFP"; mn 45 "IPSECKEY"; mn 46 "RRSIG"; mn 47 "NSEC";
  mn 48 "DNSKEY"; mn 49 "DHCID"; mn 50 "NSEC3"; mn 51 "NSEC3PARAM"; mn 52 "TLSA"; mn 53 "SMIMEA"; mn 55 "HIP";
  mn 56 "NINFO"; mn 57 "RKEY"; mn 58 "TALINK"; mn 59 "CDS"; mn 60 "CDNSKEY"; mn 61 "OPENPGPKEY"; mn 62 "CSYNC";
  mn 63 "ZONEMD"; mn 64 "SVCB"; mn 65 "HTTPS"; mn 99 "SPF"; mn 100 "UINFO"; mn 101 "UID"; mn 102 "GID";
  mn 103 "UNSPEC"; mn 104 "NID"; mn 105 "L32"; mn 106 "L64"; mn 107 "LP"; mn 108 "EUI48"; mn 109 "EUI64";
  mn 128 "NXNAME"; mn 249 "TKEY"; mn 250 "TSIG"; mn 251 "IXFR"; mn 252 "AXFR"; mn 253 "MAILB"; mn 254 "MAILA";
  mn 255 "ANY"; mn 256 "URI"; mn 257 "CAA"; mn 258 "AVC"; mn 259 "DOA"; mn 32768 "TA"; mn 32769 "DLV"]%string.

Definition class_mnemonics : Mnemonics := [mn 1 "IN"; mn 3 "CH"; mn 4 "HS"; mn 0xFE "NONE"; mn 0xFF "*"]%string.

Definition secalg_mnemonics : Mnemonics := [
  mn 0 "DELETE"; mn 1 "RSAMD5"; mn 2 "DH"; mn 3 "DSA"; mn 5 "RSASHA1"; mn 6 "DSA-NSEC3-SHA1";
  mn 7 "RSASHA1-NSEC3-SHA1"; mn 8 "RSASHA256"; mn 10 "RSASHA512"; mn 12 "ECC-GOST"; mn 13 "ECDSAP256SHA256";
  mn 14 "ECDSAP384SHA384"; mn 15 "ED25519"; mn 16 "ED448"; mn 252 "INDIRECT"; mn 253 "PRIVATEDNS"; mn 254 "PRIVATEOID"]%string.

Definition digestalg_mnemonics : Mnemonics := [mn 1 "SHA-1"; mn 2 "SHA-256"; mn 3 "GOST R 34.11-94"; mn 4 "SHA-384"]%string.

Definition nsec3hash_mnemonics : Mnemonics := [mn 1 "SHA-1"]%string.

Definition rtype_from_str : list Z -> option Z := prefix_from_str rtype_mnemonics (ascii_chars "TYPE").
Definition rtype_fmt : Z -> list Z := prefix_fmt rtype_mnemonics (ascii_chars "TYPE").
Definition class_from_str : list Z -> option Z := prefix_from_str class_mnemonics (ascii_chars "CLASS").
Definition class_fmt : Z -> list Z := prefix_fmt class_mnemonics (ascii_chars "CLASS").

Definition rtype_is_glue (rtype : Z) : bool := (rtype =? 1) || (rtype =? 28).

(** ** Reading what is written *)

Lemma parse_digits_value w ds res :
  digits ds -> 0 <= res -> dec_value_from res ds < 2 ^ w -> parse_digits w res ds = Some (dec_value_from res ds).
Proof.
  intros Hd. revert res. induction Hd as [|d ds Hd Hds IH]; intros res Hr Hv; [done|]. cbn [parse_digits].
  assert (48 <= d <= 57) by (unfold is_ascii_digit in Hd; breflect; lia).
  rewrite char_to_digit_10, Hd. cbn in Hv. fold (dec_value_from (res * 10 + (d - 48)) ds) in Hv.
  pose proof (dec_value_from_ge (res * 10 + (d - 48)) ds ltac:(lia) Hds).
  destruct (Z.leb_spec (2 ^ w) (res * 10 + (d - 48))); [lia|]. by apply IH; [lia|].
Qed.

Lemma parse_uint_digits w ds : ds <> [] -> digits ds -> dec_value ds < 2 ^ w -> parse_uint w ds = Some (dec_value ds).
Proof.
  intros Hn Hd Hv. unfold dec_value in *. rewrite <- (parse_digits_value w ds 0) by done. destruct ds as [|d ds]; [done|].
  assert (48 <= d <= 57) as Hd' by (apply Forall_inv in Hd; unfold is_ascii_digit in Hd; breflect; lia).
  unfold parse_uint. destruct (Z.eqb_spec d 43), (Z.eqb_spec d 45); try lia. by rewrite andb_false_r.
Qed.

(** The decimal number a value of up to 128 bits is displayed as. *)
Lemma fmt_dec_digits v : 0 <= v < 2 ^ 128 -> fmt_dec v <> [] /\ digits (fmt_dec v) /\ dec_value (fmt_dec v) = v.
Proof.
  intros Hv. split.
  - unfold fmt_dec. cbn [dec_digits]. destruct (v <? 10); [done|]. by intros [? ?]%app_eq_nil.
  - apply dec_digits_value. split; [lia|]. transitivity (2 ^ 128); [lia|reflexivity].
Qed.

Lemma parse_uint_fmt_dec w v : w <= 128 -> 0 <= v < 2 ^ w -> parse_uint w (fmt_dec v) = Some v.
Proof.
  intros Hw Hv. destruct (fmt_dec_digits v) as (Hn & Hd & Ev).
  { split; [lia|]. apply Z.lt_le_trans with (2 ^ w); [lia|]. apply Z.pow_le_mono_r; lia. }
  rewrite parse_uint_digits by (try done; lia). by rewrite Ev.
Qed.

Lemma eq_ignore_case_app p s m :
  eq_ignore_ascii_case (p ++ s) m = true -> eq_ignore_ascii_case p (take (length p) m) = true.
Proof.
  revert m. induction p as [|a p IH]; intros m; [done|]. destruct m as [|b m]; [done|]. cbn.
  intros [-> ?]%andb_true_iff. by rewrite IH.
Qed.

(** A table can be read: a mnemonic stands for one value only, and none looks like
    a number with the prefix. *)
Definition readable (table : Mnemonics) (prefix : list Z) : bool :=
  forallb (fun '(v, m) => bool_decide (from_mnemonic table m = Some v) && negb (eq_ignore_ascii_case prefix (take (length prefix) m)))
    table.

Lemma to_mnemonic_in table v m : to_mnemonic_str table v = Some m -> (v, m) ∈ table.
Proof.
  induction table as [|[v' m'] table IH]; [done|]. cbn. destruct (Z.eqb_spec v' v) as [->|].
  - intros [= ->]. apply elem_of_cons. by left.
  - intros E. apply elem_of_cons. right. by apply IH.
Qed.

Lemma from_mnemonic_in table s v : from_mnemonic table s = Some v -> exists m, (v, m) ∈ table /\ eq_ignore_ascii_case s m = true.
Proof.
  induction table as [|[v' m'] table IH]; [done|]. cbn. destruct (eq_ignore_ascii_case s m') eqn:E.
  - intros [= ->]. exists m'. split; [|done]. apply elem_of_cons. by left.
  - intros (m & Hm & Em)%IH. exists m. split; [|done]. apply elem_of_cons. by right.
Qed.

Lemma eq_ignore_case_refl s : eq_ignore_ascii_case s s = true.
Proof. induction s as [|a s IH]; [done|]. cbn. by rewrite Z.eqb_refl. Qed.

Lemma prefix_text_roundtrip table prefix v :
  readable table prefix = true -> is_u16 v -> prefix_from_str table prefix (prefix_fmt table prefix v) = Some v.
Proof.
  intros Hr Hv. unfold readable in Hr. rewrite forallb_forall in Hr. unfold prefix_from_str, prefix_fmt.
  destruct (to_mnemonic_str table v) as [m|] eqn:Em.
  - apply to_mnemonic_in, list_elem_of_In, Hr in Em. apply andb_true_iff in Em as [E _].
    apply bool_decide_eq_true in E. by rewrite E.
  - destruct (from_mnemonic table (prefix ++ fmt_dec v)) as [v'|] eqn:E.
    { apply from_mnemonic_in in E as (m & Hm & E). apply list_elem_of_In, Hr in Hm. apply andb_true_iff in Hm as [_ Hm].
      apply eq_ignore_case_app in E. by rewrite E in Hm. }
    destruct (fmt_dec_digits v) as (Hn & _); [unfold is_u16 in Hv; lia|].
    rewrite length_app. destruct (Nat.ltb_spec (length prefix) (length prefix + length (fmt_dec v))).
    + rewrite take_app_length, drop_app_length, eq_ignore_case_refl. apply parse_uint_fmt_dec; [lia|done].
    + destruct (fmt_dec v); [done|]. cbn in *. lia.
Qed.

Lemma rtype_text_roundtrip v : is_u16 v -> rtype_from_str (rtype_fmt v) = Some v.
Proof. apply prefix_text_roundtrip. reflexivity. Qed.

Lemma class_text_roundtrip v : is_u16 v -> class_from_str (class_fmt v) = Some v.
Proof. apply prefix_text_roundtrip. reflexivity. Qed.
