(* ===== verification/IpText.v ===== *)
(** * IP addresses as text

    [FromStr] and [Display] of the standard library's [Ipv4Addr] and [Ipv6Addr],
    which the record data types A and AAAA ([src/src/rdata/rfc1035/a.rs],
    [src/src/rdata/aaaa.rs]) read and write.  A reader gets the characters left
    and returns its value and those it leaves. *)

From S2P Require Import Prelude Octets Symbol BaseCodec CharStr Label Traits Name NameBuilder Record Scanner Iana.
From stdpp Require Import strings.
#[local] Open Scope Z_scope.

(** ** Reading *)

Definition read_given_char (ch : Z) (s : list Z) : option (list Z) :=
  match s with c :: s' => if c =? ch then Some s' else None | [] => None end.

(** The loop of [read_number]: the value, the number of digits and what is left. *)
Fixpoint number_loop (radix : Z) (max_digits count : nat) (value : Z) (s : list Z) : option (Z * nat * list Z) :=
  match s with
  | ch :: s' =>
      match char_to_digit radix ch with
      | Some d => if (max_digits <? S count)%nat then None else number_loop radix max_digits (S count) (value * radix + d) s'
      | None => Some (value, count, s)
      end
  | [] => Some (value, count, s)
  end.

(** [read_number] for a type of [w] bits. *)
Definition read_number (w radix : Z) (max_digits : nat) (allow_zero_prefix : bool) (s : list Z) : option (Z * list Z) :=
  let has_leading_zero := match s with ch :: _ => ch =? 48 | [] => false end in
  match number_loop radix max_digits 0 0 s with
  | None => None
  | Some (value, count, s') =>
      if (count =? 0)%nat then None
      else if negb allow_zero_prefix && has_leading_zero && (1 <? count)%nat then None
      else if value <? 2 ^ w then Some (value, s') else None
  end.

(** [read_separator]: the separator comes before every item but the first. *)
Definition read_separator {A} (sep : Z) (index : nat) (inner : list Z -> option (A * list Z)) (s : list Z) : option (A * list Z) :=
  match index with
  | O => inner s
  | S _ => match read_given_char sep s with Some s => inner s | None => None end
  end.

Definition DOT : Z := 46.
Definition COLON : Z := 58.

Fixpoint read_v4_groups (n index : nat) (s : list Z) : option (list Z * list Z) :=
  match n with
  | O => Some ([], s)
  | S n' =>
      match read_separator DOT index (read_number 8 10 3 false) s with
      | Some (g, s) => match read_v4_groups n' (S index) s with Some (gs, s) => Some (g :: gs, s) | None => None end
      | None => None
      end
  end.

Definition read_ipv4_addr : list Z -> option (list Z * list Z) := read_v4_groups 4 0.

(** [FromStr for Ipv4Addr]; longer texts than 15 octets are refused at once. *)
Definition ipv4_from_str (s : list Z) : option (list Z) :=
  if (15 <? length s)%nat then None
  else match read_ipv4_addr s with Some (addr, []) => Some addr | _ => None end.

(** [read_groups]: the 16 bit groups read, at most [limit], whether they end in an
    IPv4 address, and what is left. *)
Fixpoint read_groups (limit index : nat) (s : list Z) : list Z * bool * list Z :=
  match limit with
  | O => ([], false, s)
  | S limit' =>
      match (match limit' with O => None | S _ => read_separator COLON index read_ipv4_addr s end) with
      | Some ([a; b; c; d], s) => ([a * 256 + b; c * 256 + d], true, s)
      | _ =>
          match read_separator COLON index (read_number 16 16 4 true) s with
          | Some (g, s) => let '(gs, v4, s) := read_groups limit' (S index) s in (g :: gs, v4, s)
          | None => ([], false, s)
          end
      end
  end.

Definition read_ipv6_addr (s : list Z) : option (list Z * list Z) :=
  let '(head, head_ipv4, s) := read_groups 8 0 s in
  if (length head =? 8)%nat then Some (head, s)
  else if head_ipv4 then None
  else match read_given_char COLON s with
  | None => None
  | Some s =>
      match read_given_char COLON s with
      | None => None
      | Some s =>
          let '(tail, _, s) := read_groups (8 - (length head + 1)) 0 s in
          Some (head ++ replicate (8 - length head - length tail) 0 ++ tail, s)
      end
  end.

Definition group_octets (g : Z) : list Z := [g / 256; g mod 256].

Definition ipv6_from_str (s : list Z) : option (list Z) :=
  match read_ipv6_addr s with Some (groups, []) => Some (concat (map group_octets groups)) | _ => None end.

(** ** Writing *)

Fixpoint join (sep : Z) (parts : list (list Z)) : list Z :=
  match parts with
  | [] => []
  | [p] => p
  | p :: parts' => p ++ sep :: join sep parts'
  end.

Definition ipv4_fmt (addr : list Z) : list Z := join DOT (map fmt_dec addr).

(** The segments of an IPv6 address. *)
Fixpoint segments (addr : list Z) : list Z :=
  match addr with
  | a :: b :: addr' => (a * 256 + b) :: segments addr'
  | _ => []
  end.

(** [{:x}] of 16 bits: four digits at most. *)
Fixpoint hex_digits (fuel : nat) (v : Z) : list Z :=
  match fuel with
  | O => []
  | S fuel' => if v <? 16 then [lower_hex_digit v] else hex_digits fuel' (v / 16) ++ [lower_hex_digit (v mod 16)]
  end.

Definition fmt_hex (v : Z) : list Z := hex_digits 4 v.

(** The loop that looks for the longest run of zeros: starts and lengths. *)
Fixpoint longest_loop (i : nat) (segs : list Z) (longest current : nat * nat) : nat * nat :=
  match segs with
  | [] => longest
  | seg :: segs' =>
      if seg =? 0 then
        let current := (if (current.2 =? 0)%nat then i else current.1, S current.2) in
        longest_loop (S i) segs' (if (longest.2 <? current.2)%nat then current else longest) current
      else longest_loop (S i) segs' longest (0, 0)%nat
  end.

Definition fmt_subslice (segs : list Z) : list Z := join COLON (map fmt_hex segs).

Definition ipv6_fmt (addr : list Z) : list Z :=
  let segs := segments addr in
  if bool_decide (take 6 segs = [0; 0; 0; 0; 0; 0xffff]) then
    [COLON; COLON; 102; 102; 102; 102; COLON] ++ ipv4_fmt (drop 12 addr)
  else
    let '(start, len) := longest_loop 0 segs (0, 0)%nat (0, 0)%nat in
    if (1 <? len)%nat
    then fmt_subslice (take start segs) ++ [COLON; COLON] ++ fmt_subslice (drop (start + len) segs)
    else fmt_subslice segs.

(** ** Numbers read back *)

Definition stops (radix : Z) (s : list Z) : Prop := match s with ch :: _ => char_to_digit radix ch = None | [] => True end.

Definition value_from (radix acc : Z) (ds : list Z) : Z :=
  fold_left (fun v ch => v * radix + default 0 (char_to_digit radix ch)) ds acc.

Lemma number_loop_app radix max count acc ds rest :
  Forall (fun ch => is_Some (char_to_digit radix ch)) ds -> (count + length ds <= max)%nat -> stops radix rest ->
  number_loop radix max count acc (ds ++ rest) = Some (value_from radix acc ds, (count + length ds)%nat, rest).
Proof.
  intros Hd. revert count acc. induction Hd as [|ch ds [d Hd] _ IH]; intros count acc Hl Hr.
  - cbn [app value_from fold_left length]. rewrite Nat.add_0_r. destruct rest as [|ch rest]; [done|]. cbn. by rewrite Hr.
  - cbn [app number_loop length] in *. rewrite Hd. destruct (Nat.ltb_spec max (S count)); [lia|].
    rewrite IH by (try done; lia). cbn. rewrite Hd. by rewrite Nat.add_succ_r.
Qed.

Lemma read_number_app w radix max zero ds rest :
  Forall (fun ch => is_Some (char_to_digit radix ch)) ds -> ds <> [] -> (length ds <= max)%nat -> stops radix rest ->
  (zero = true \/ head ds <> Some 48 \/ length ds = 1%nat) -> value_from radix 0 ds < 2 ^ w ->
  read_number w radix max zero (ds ++ rest) = Some (value_from radix 0 ds, rest).
Proof.
  intros Hd Hn Hl Hr Hz Hv. unfold read_number. rewrite number_loop_app by done. cbn [Nat.add].
  destruct ds as [|ch ds]; [done|]. cbn [app length Nat.eqb head] in *.
  destruct (Z.ltb_spec (value_from radix 0 (ch :: ds)) (2 ^ w)); [|lia].
  assert (negb zero && (ch =? 48) && (1 <? S (length ds))%nat = false) as ->; [|done].
  destruct zero; [done|]. destruct Hz as [?|[Hz|Hz]]; [done| |].
  - destruct (Z.eqb_spec ch 48) as [->|]; [done|]. done.
  - destruct (Nat.ltb_spec 1 (S (length ds))); [lia|]. by rewrite andb_false_r.
Qed.

Definition short_decimal (v : Z) : Prop :=
  let ds := fmt_dec v in
  (length ds <= 3)%nat /\ Forall (fun ch => is_Some (char_to_digit 10 ch)) ds /\ value_from 10 0 ds = v /\
  ds <> [] /\ (head ds <> Some 48 \/ length ds = 1%nat).

#[local] Instance short_decimal_dec v : Decision (short_decimal v).
Proof. unfold short_decimal. apply _. Defined.

Lemma short_decimals v : is_u8 v -> short_decimal v.
Proof.
  intros Hv. assert (forallb (fun v => bool_decide (short_decimal v)) (seqZ 0 256) = true) as H by (vm_compute; reflexivity).
  rewrite forallb_forall in H. eapply bool_decide_eq_true, H, list_elem_of_In, elem_of_seqZ. unfold is_u8 in Hv. lia.
Qed.

Lemma read_number_dec v rest : is_u8 v -> stops 10 rest -> read_number 8 10 3 false (fmt_dec v ++ rest) = Some (v, rest).
Proof.
  intros Hv Hr. destruct (short_decimals v Hv) as (H1 & H2 & H3 & H4 & H5). unfold is_u8 in Hv.
  rewrite read_number_app; [by rewrite H3|done..|by right|lia].
Qed.

Lemma hex_digits_value fuel v :
  0 <= v < 16 ^ Z.of_nat fuel -> (0 < fuel)%nat ->
  Forall (fun ch => is_Some (char_to_digit 16 ch) /\ ch <> 46) (hex_digits fuel v) /\ value_from 16 0 (hex_digits fuel v) = v /\
  hex_digits fuel v <> [] /\ (length (hex_digits fuel v) <= fuel)%nat.
Proof.
  assert (Hd : forall d, 0 <= d < 16 -> is_Some (char_to_digit 16 (lower_hex_digit d)) /\ lower_hex_digit d <> 46).
  { intros d Hd. split; [apply lower_hex_digit_value in Hd as [-> _]; by eexists|]. unfold lower_hex_digit. case_match; breflect; lia. }
  revert v. induction fuel as [|fuel IH]; intros v Hv Hf; [lia|]. cbn [hex_digits]. destruct (Z.ltb_spec v 16).
  - split_and!; [constructor; [apply Hd; lia|done]| |done|cbn; lia]. cbn. destruct (lower_hex_digit_value v) as [-> _]; [lia|]. cbn. lia.
  - rewrite Nat2Z.inj_succ, Z.pow_succ_r in Hv by lia.
    destruct fuel as [|fuel]; [cbn in Hv; lia|].
    destruct (IH (v / 16)) as (H1 & H2 & H3 & H4); [split; [apply Z.div_pos; lia|apply Z.div_lt_upper_bound; lia]|lia|].
    pose proof (Z.mod_pos_bound v 16). pose proof (Z.div_mod v 16). split_and!.
    + apply Forall_app; split; [done|]. constructor; [|done]. apply Hd. lia.
    + unfold value_from in *. rewrite fold_left_app, H2. cbn. destruct (lower_hex_digit_value (v mod 16)) as [-> _]; [lia|]. cbn. lia.
    + by intros [? ?]%app_eq_nil.
    + rewrite length_app. cbn [length]. lia.
Qed.

Lemma read_number_hex v rest : is_u16 v -> stops 16 rest -> read_number 16 16 4 true (fmt_hex v ++ rest) = Some (v, rest).
Proof.
  intros Hv Hr. unfold is_u16 in Hv. destruct (hex_digits_value 4 v) as (H1 & H2 & H3 & H4); [cbn; lia|lia|].
  fold (fmt_hex v) in *. rewrite read_number_app; [by rewrite H2| |done..|by left|lia].
  eapply Forall_impl; [exact H1|]. by intros ? [].
Qed.

(** ** IPv4 *)

Lemma read_ipv4_fmt a b c d rest :
  wf_octets [a; b; c; d] -> stops 10 rest -> read_ipv4_addr (ipv4_fmt [a; b; c; d] ++ rest) = Some ([a; b; c; d], rest).
Proof.
  intros Hw Hr. repeat (apply Forall_cons in Hw as [? Hw]). unfold read_ipv4_addr, ipv4_fmt. cbn [map join read_v4_groups].
  repeat (rewrite <- app_assoc; cbn [app]). cbn [read_separator].
  do 3 (rewrite read_number_dec by done; cbn [read_given_char DOT Z.eqb Pos.eqb]). by rewrite read_number_dec.
Qed.

Lemma ipv4_fmt_length a b c d : wf_octets [a; b; c; d] -> (length (ipv4_fmt [a; b; c; d]) <= 15)%nat.
Proof.
  intros Hw. repeat (apply Forall_cons in Hw as [? Hw]). unfold ipv4_fmt. cbn [map join].
  repeat (rewrite length_app; cbn [length]).
  repeat match goal with H : is_u8 ?v |- _ => apply short_decimals in H as (? & _) end. lia.
Qed.

Lemma ipv4_text_roundtrip addr : wf_octets addr -> length addr = 4%nat -> ipv4_from_str (ipv4_fmt addr) = Some addr.
Proof.
  intros Hw Hl. destruct addr as [|a [|b [|c [|d [|]]]]]; try done. unfold ipv4_from_str.
  pose proof (ipv4_fmt_length a b c d Hw). destruct (Nat.ltb_spec 15 (length (ipv4_fmt [a; b; c; d]))); [lia|].
  pose proof (read_ipv4_fmt a b c d [] Hw I) as E. rewrite app_nil_r in E. by rewrite E.
Qed.

(** ** IPv6 *)

Lemma number_loop_no_dot radix max count acc s v n t :
  DOT ∉ s -> number_loop radix max count acc s = Some (v, n, t) -> DOT ∉ t.
Proof.
  revert count acc. induction s as [|ch s IH]; intros count acc Hs; cbn [number_loop]; [by intros [= <- <- <-]|].
  destruct (char_to_digit radix ch).
  - apply not_elem_of_cons in Hs as [_ Hs]. case_match; [done|]. by apply IH.
  - by intros [= <- <- <-].
Qed.

(** An IPv4 address has dots. *)
Lemma read_ipv4_no_dot s : DOT ∉ s -> read_ipv4_addr s = None.
Proof.
  intros Hs. unfold read_ipv4_addr. cbn [read_v4_groups read_separator].
  destruct (read_number 8 10 3 false s) as [[g s']|] eqn:E; [|done].
  assert (DOT ∉ s') as Hs'.
  { unfold read_number in E. destruct (number_loop 10 3 0 0 s) as [[[v n] t]|] eqn:El; [|done].
    apply number_loop_no_dot in El; [|done]. by repeat case_match; simplify_eq. }
  destruct s' as [|ch s']; [done|]. cbn [read_given_char]. destruct (Z.eqb_spec ch DOT) as [->|]; [|done].
  apply not_elem_of_cons in Hs'. by destruct Hs'.
Qed.

(** The groups with a colon before each but, at index 0, the first. *)
Fixpoint groups_text (index : nat) (gs : list Z) : list Z :=
  match gs with
  | [] => []
  | g :: gs' => (match index with O => [] | S _ => [COLON] end) ++ fmt_hex g ++ groups_text (S index) gs'
  end.

Lemma fmt_subslice_text gs : fmt_subslice gs = groups_text 0 gs.
Proof.
  unfold fmt_subslice. destruct gs as [|g gs]; [done|]. cbn [groups_text app]. generalize 0%nat.
  revert g. induction gs as [|g' gs IH]; intros g k; [cbn; by rewrite app_nil_r|].
  cbn [groups_text app]. rewrite <- IH. done.
Qed.

Lemma groups_text_no_dot index gs : Forall is_u16 gs -> DOT ∉ groups_text index gs.
Proof.
  intros Hg. revert index. induction Hg as [|g gs Hg _ IH]; intros index; cbn [groups_text]; [by apply not_elem_of_nil|].
  rewrite !not_elem_of_app. split_and!; [|destruct (hex_digits_value 4 g) as (Hd & _); [unfold is_u16 in Hg; cbn; lia|lia|]|done].
  - destruct index; [apply not_elem_of_nil|]. by rewrite list_elem_of_singleton.
  - fold (fmt_hex g) in Hd. rewrite Forall_forall in Hd. intros Hin. by apply Hd in Hin as [_ ?].
Qed.

(** Where groups end: at the end of the text or before two colons. *)
Definition gap (s : list Z) : Prop := s = [] \/ exists r, s = COLON :: COLON :: r.

Lemma gap_stops s : gap s -> stops 16 s /\ forall index, read_separator COLON index (read_number 16 16 4 true) s = None.
Proof. intros [->|[r ->]]; split; [done|by intros []|done|by intros []]. Qed.

Lemma read_groups_text limit index gs rest :
  Forall is_u16 gs -> (length gs <= limit)%nat -> gap rest -> DOT ∉ rest ->
  read_groups limit index (groups_text index gs ++ rest) = (gs, false, rest).
Proof.
  intros Hg Hl Hr Hd. destruct (gap_stops rest Hr) as [Hst Hno]. revert limit index Hl.
  induction Hg as [|g gs Hg Hgs IH]; intros limit index Hl.
  - cbn [groups_text app]. destruct limit as [|limit]; [done|]. cbn [read_groups]. rewrite Hno.
    assert (match limit with O => None | S _ => read_separator COLON index read_ipv4_addr rest end = None) as ->; [|done].
    destruct limit; [done|]. destruct index; [by apply read_ipv4_no_dot|]. cbn [read_separator].
    destruct rest as [|ch rest]; [done|]. cbn [read_given_char]. destruct (ch =? COLON); [|done]. apply read_ipv4_no_dot. by apply not_elem_of_cons in Hd as [_ ?].
  - destruct limit as [|limit]; [cbn in Hl; lia|]. cbn [read_groups].
    assert (Hnd : DOT ∉ groups_text index (g :: gs) ++ rest).
    { apply not_elem_of_app. split; [|done]. apply groups_text_no_dot. by constructor. }
    assert (match limit with O => None | S _ => read_separator COLON index read_ipv4_addr (groups_text index (g :: gs) ++ rest) end = None) as ->.
    { destruct limit; [done|]. destruct index; [by apply read_ipv4_no_dot|]. cbn [read_separator groups_text app read_given_char Z.eqb COLON Pos.eqb] in *.
      apply read_ipv4_no_dot. by apply not_elem_of_cons in Hnd as [_ ?]. }
    assert (read_separator COLON index (read_number 16 16 4 true) (groups_text index (g :: gs) ++ rest) =
            Some (g, groups_text (S index) gs ++ rest)) as ->.
    { assert (stops 16 (groups_text (S index) gs ++ rest)) by (destruct gs; done).
      destruct index; cbn [read_separator groups_text app read_given_char Z.eqb COLON Pos.eqb]; rewrite <- app_assoc; by apply read_number_hex. }
    rewrite IH by (cbn in Hl; lia). done.
Qed.

(** ** The longest run of zeros *)

Definition zeros_at (segs : list Z) (run : nat * nat) : Prop := take run.2 (drop run.1 segs) = replicate run.2 0.

Lemma longest_loop_zeros all i segs longest current :
  drop i all = segs -> zeros_at all longest -> zeros_at all current -> (current.2 = 0 \/ current.1 + current.2 = i)%nat ->
  zeros_at all (longest_loop i segs longest current).
Proof.
  revert i longest current. induction segs as [|seg segs IH]; intros i longest [st ln] Hd Hlo Hcu Hi; [done|]. cbn [longest_loop fst snd].
  assert (Hd' : drop (S i) all = segs) by (rewrite <- Nat.add_1_r, <- drop_drop, Hd; done).
  destruct (Z.eqb_spec seg 0) as [->|].
  - assert (Hnew : zeros_at all (if (ln =? 0)%nat then i else st, S ln)).
    { unfold zeros_at in *. cbn [fst snd] in *. destruct (Nat.eqb_spec ln 0) as [->|Hn].
      - by rewrite Hd.
      - rewrite <- Nat.add_1_r, <- take_take_drop, Hcu, drop_drop, replicate_add. f_equal. destruct Hi as [?|Hi]; [done|]. by rewrite Hi, Hd. }
    apply IH; [done| |done|].
    + by destruct (_ <? _)%nat.
    + right. cbn [fst snd]. destruct (Nat.eqb_spec ln 0); cbn in Hi; lia.
  - apply IH; [done..|by left].
Qed.

#[local] Ltac Zify.zify_post_hook ::= Z.to_euclidean_division_equations.

Lemma segments_octets addr : wf_octets addr -> Nat.Even (length addr) ->
  concat (map group_octets (segments addr)) = addr /\ Forall is_u16 (segments addr) /\ length addr = (2 * length (segments addr))%nat.
Proof.
  intros Hw [n Hn]. revert addr Hw Hn. induction n as [|n IH]; intros addr Hw Hn; [by destruct addr|].
  destruct addr as [|a [|b addr]]; [done|cbn in Hn; lia|]. apply Forall_cons in Hw as [Ha Hw]. apply Forall_cons in Hw as [Hb Hw].
  destruct (IH addr Hw) as (E & Hs & Hl); [cbn in Hn; lia|]. cbn [segments map concat length]. rewrite E. unfold is_u8 in *.
  split_and!; [|constructor; [unfold is_u16; lia|done]|lia]. unfold group_octets. cbn [app]. repeat f_equal; lia.
Qed.

Lemma ipv6_text_groups segs start len :
  Forall is_u16 segs -> length segs = 8%nat -> (1 < len)%nat -> zeros_at segs (start, len) ->
  read_ipv6_addr (fmt_subslice (take start segs) ++ [COLON; COLON] ++ fmt_subslice (drop (start + len) segs)) = Some (segs, []).
Proof.
  intros Hs Hl Hn Hz. unfold zeros_at in Hz. cbn [fst snd] in Hz.
  assert ((start + len <= 8)%nat) as Hb by (apply (f_equal length) in Hz; rewrite length_take, length_drop, length_replicate in Hz; lia).
  unfold read_ipv6_addr. rewrite !fmt_subslice_text. assert (Forall is_u16 (drop (start + len) segs)) by by apply Forall_drop.
  rewrite read_groups_text; [|by apply Forall_take|rewrite length_take; lia|right; by eexists|].
  2:{ cbn [app]. rewrite !not_elem_of_cons. split_and!; [done..|]. by apply groups_text_no_dot. }
  rewrite length_take. destruct (Nat.eqb_spec (start `min` length segs) 8); [lia|]. cbn [app read_given_char Z.eqb COLON Pos.eqb].
  rewrite <- (app_nil_r (groups_text 0 _)), read_groups_text; [|done| |by left|apply not_elem_of_nil].
  2:{ rewrite length_drop. lia. }
  rewrite length_drop. do 2 f_equal.
  replace (8 - start `min` length segs - (length segs - (start + len)))%nat with len by lia.
  by rewrite <- Hz, <- drop_drop, !take_drop.
Qed.

Lemma read_groups_next limit index s g s' :
  read_separator COLON index read_ipv4_addr s = None -> read_separator COLON index (read_number 16 16 4 true) s = Some (g, s') ->
  read_groups (S limit) index s = let '(gs, v4, r) := read_groups limit (S index) s' in (g :: gs, v4, r).
Proof. intros E1 E2. cbn [read_groups]. rewrite E1, E2. by destruct limit. Qed.

Lemma read_groups_v4 limit index s a b c d s' :
  read_separator COLON index read_ipv4_addr s = Some ([a; b; c; d], s') ->
  read_groups (S (S limit)) index s = ([a * 256 + b; c * 256 + d], true, s').
Proof. intros E. cbn [read_groups]. by rewrite E. Qed.

Lemma read_ipv6_mapped a b c d :
  wf_octets [a; b; c; d] ->
  read_ipv6_addr ([COLON; COLON; 102; 102; 102; 102; COLON] ++ ipv4_fmt [a; b; c; d]) =
  Some ([0; 0; 0; 0; 0; 65535; a * 256 + b; c * 256 + d], []).
Proof.
  intros Hw. pose proof (read_ipv4_fmt a b c d [] Hw I) as E. rewrite app_nil_r in E.
  unfold read_ipv6_addr. cbn [app]. generalize dependent (ipv4_fmt [a; b; c; d]). intros t E.
  assert (read_groups 8 0 (COLON :: COLON :: 102 :: 102 :: 102 :: 102 :: COLON :: t) =
    ([], false, COLON :: COLON :: 102 :: 102 :: 102 :: 102 :: COLON :: t)) as -> by reflexivity.
  cbn [length Nat.eqb read_given_char Z.eqb COLON Pos.eqb Nat.sub Nat.add].
  rewrite (read_groups_next 6 0 _ 65535 (COLON :: t)) by reflexivity.
  rewrite (read_groups_v4 4 1 (COLON :: t) a b c d []) by exact E. done.
Qed.

(** Displaying an IPv6 address and reading the text gives the address back. *)
Lemma ipv6_text_roundtrip addr : wf_octets addr -> length addr = 16%nat -> ipv6_from_str (ipv6_fmt addr) = Some addr.
Proof.
  intros Hw Hl. destruct (segments_octets addr Hw) as (Ea & Hs & Hls); [by exists 8%nat; rewrite Hl|].
  assert (length (segments addr) = 8%nat) as H8 by lia. unfold ipv6_from_str, ipv6_fmt. case_bool_decide as Hm.
  - do 16 (destruct addr as [|? addr]; [done|]). destruct addr; [|done]. cbn [drop segments take] in *.
    rewrite read_ipv6_mapped by (do 12 apply Forall_cons in Hw as [_ Hw]; done).
    rewrite <- Ea. do 2 f_equal. cbn [map concat]. injection Hm as -> -> -> -> -> ->. done.
  - destruct (longest_loop 0 (segments addr) (0, 0)%nat (0, 0)%nat) as [start len] eqn:El.
    pose proof (longest_loop_zeros (segments addr) 0 (segments addr) (0, 0)%nat (0, 0)%nat) as Hz. rewrite El in Hz.
    destruct (Nat.ltb_spec 1 len).
    + rewrite ipv6_text_groups; [by rewrite Ea|done..|]. apply Hz; [done..|by left].
    + unfold read_ipv6_addr. rewrite fmt_subslice_text, <- (app_nil_r (groups_text 0 _)).
      rewrite read_groups_text; [|done|lia|by left|apply not_elem_of_nil]. rewrite H8. cbn [Nat.eqb]. by rewrite Ea.
Qed.
