(* ===== verification/Ttl.v ===== *)
(** * Times to live ([src/src/base/record.rs], [Ttl])

    A [Ttl] is a number of seconds in 32 bits.  The conversions to larger units,
    the checked, saturating and panicking arithmetic, the sum, the cap, the wire
    format and the display in units. *)

From S2P Require Import Prelude Octets Symbol BaseCodec CharStr Label Traits Name NameBuilder Record Scanner.
From stdpp Require Import strings.
#[local] Open Scope Z_scope.

Record Ttl := mkTtl { ttl_secs : Z }.

#[export] Instance Ttl_eq_dec : EqDecision Ttl.
Proof. solve_decision. Defined.

Definition ttl_ok (t : Ttl) : Prop := is_u32 (ttl_secs t).

Definition SECS_PER_MINUTE : Z := 60.
Definition SECS_PER_HOUR : Z := 3600.
Definition SECS_PER_DAY : Z := 86400.

Definition ttl_from_secs (secs : Z) : Ttl := mkTtl secs.
Definition ttl_zero : Ttl := ttl_from_secs 0.
Definition ttl_max : Ttl := ttl_from_secs (2 ^ 32 - 1).
Definition ttl_cap_value : Ttl := ttl_from_secs 604800.

Definition ttl_as_secs (t : Ttl) : Z := ttl_secs t.
Definition ttl_as_minutes (t : Ttl) : Z := ttl_secs t / SECS_PER_MINUTE.
Definition ttl_as_hours (t : Ttl) : Z := ttl_secs t / SECS_PER_HOUR.
Definition ttl_as_days (t : Ttl) : Z := as_u16 (ttl_secs t / SECS_PER_DAY).

(** The product is below [2 ^ 32] after the assertion. *)
Definition ttl_from_units (max per n : Z) : outcome Ttl := if n <=? max then Ret (mkTtl (n * per)) else Panic.
Definition ttl_from_mins (minutes : Z) : outcome Ttl := ttl_from_units 71582788 SECS_PER_MINUTE minutes.
Definition ttl_from_hours (hours : Z) : outcome Ttl := ttl_from_units 1193046 SECS_PER_HOUR hours.
Definition ttl_from_days (days : Z) : outcome Ttl := ttl_from_units 49710 SECS_PER_DAY days.

(** From the seconds of a [Duration], which are 64 bits wide. *)
Definition ttl_from_duration_lossy (secs : Z) : Ttl := mkTtl (as_u32 secs).
Definition ttl_into_duration (t : Ttl) : Z := ttl_secs t.

Definition ttl_is_zero (t : Ttl) : bool := ttl_secs t =? 0.

Definition u32_checked (v : Z) : option Z := if (0 <=? v) && (v <? 2 ^ 32) then Some v else None.

Definition ttl_checked_add (t rhs : Ttl) : option Ttl := option_map mkTtl (u32_checked (ttl_secs t + ttl_secs rhs)).
Definition ttl_checked_sub (t rhs : Ttl) : option Ttl := option_map mkTtl (u32_checked (ttl_secs t - ttl_secs rhs)).
Definition ttl_checked_mul (t : Ttl) (rhs : Z) : option Ttl := option_map mkTtl (u32_checked (ttl_secs t * rhs)).
Definition ttl_checked_div (t : Ttl) (rhs : Z) : option Ttl :=
  if negb (rhs =? 0) then Some (mkTtl (ttl_secs t / rhs)) else None.

Definition ttl_saturating_add (t rhs : Ttl) : Ttl := default ttl_max (ttl_checked_add t rhs).
Definition ttl_saturating_sub (t rhs : Ttl) : Ttl := default ttl_zero (ttl_checked_sub t rhs).
Definition ttl_saturating_mul (t : Ttl) (rhs : Z) : Ttl := default ttl_max (ttl_checked_mul t rhs).

Definition expect {A} (o : option A) : outcome A := match o with Some a => Ret a | None => Panic end.

Definition ttl_add (t rhs : Ttl) : outcome Ttl := expect (ttl_checked_add t rhs).
Definition ttl_sub (t rhs : Ttl) : outcome Ttl := expect (ttl_checked_sub t rhs).
Definition ttl_mul (t : Ttl) (rhs : Z) : outcome Ttl := expect (ttl_checked_mul t rhs).
Definition ttl_div (t : Ttl) (rhs : Z) : outcome Ttl := expect (ttl_checked_div t rhs).

(** [sum_durations!]. *)
Fixpoint ttl_sum_from (total_secs : Z) (l : list Ttl) : outcome Ttl :=
  match l with
  | [] => Ret (mkTtl total_secs)
  | entry :: l' =>
      match u32_checked (total_secs + ttl_secs entry) with
      | Some total_secs => ttl_sum_from total_secs l'
      | None => Panic
      end
  end.

Definition ttl_sum (l : list Ttl) : outcome Ttl := ttl_sum_from 0 l.

Definition ttl_cap (t : Ttl) : Ttl := if ttl_secs ttl_cap_value <? ttl_secs t then ttl_cap_value else t.

Definition ttl_compose {B} `{OctetsBuilder B} (t : Ttl) : composer B := compose_slice (to_be_bytes 4 (ttl_as_secs t)).

Definition ttl_parse {P} `{OctetsParser P} (p : P) : result (Ttl * P) ParseError :=
  let? (secs, p) := short (p_parse_u32_be p) in Ok (ttl_from_secs secs, p).

(** The units [pretty] displays: weeks, days, hours, minutes and seconds. *)
Definition ttl_units (t : Ttl) : list Z :=
  let days := ttl_as_days t in
  [days / 7; days mod 7; as_u16 (ttl_as_hours t mod 24); as_u16 (ttl_as_minutes t mod 60); as_u16 (ttl_as_secs t mod 60)].

Definition unit_names : list (list Z) :=
  map ascii_chars ["week"; "day"; "hour"; "minute"; "second"]%string.

Fixpoint pretty_loop (units : list (Z * list Z)) (first : bool) : list Z :=
  match units with
  | [] => []
  | (n, unit) :: units' =>
      if n =? 0 then pretty_loop units' first
      else (if first then [32] else []) ++ fmt_dec n ++ [32] ++ unit ++ (if 1 <? n then [115] else []) ++
           pretty_loop units' false
  end.

Definition ttl_pretty (t : Ttl) : list Z := pretty_loop (zip (ttl_units t) unit_names) true.

(** ** Correctness *)

#[local] Ltac Zify.zify_post_hook ::= Z.to_euclidean_division_equations.

Lemma u32_checked_spec v : u32_checked v = if decide (is_u32 v) then Some v else None.
Proof.
  unfold u32_checked, is_u32. destruct (Z.leb_spec 0 v), (Z.ltb_spec v (2 ^ 32)); cbn [andb]; case_decide; try done; lia.
Qed.

Lemma u32_checked_some v : is_u32 v -> u32_checked v = Some v.
Proof. intros Hv. rewrite u32_checked_spec. by rewrite decide_True. Qed.

Lemma u32_checked_none v : ~ is_u32 v -> u32_checked v = None.
Proof. intros Hv. rewrite u32_checked_spec. by rewrite decide_False. Qed.

Ltac checked v :=
  destruct (decide (is_u32 v)) as [Hv|Hv]; [rewrite (u32_checked_some v Hv)|rewrite (u32_checked_none v Hv)].

(** The arithmetic of TTLs on 32 bits: the saturating operations clamp the exact
    result to the range, the operators return the exact result if it is in range
    and panic otherwise, and capping gives at most a week.  (C40) *)
Theorem ttl_arithmetic_correct a b n :
  ttl_ok a -> ttl_ok b -> is_u32 n ->
  ttl_saturating_add a b = mkTtl (Z.min (ttl_secs a + ttl_secs b) (2 ^ 32 - 1)) /\
  ttl_saturating_sub a b = mkTtl (Z.max (ttl_secs a - ttl_secs b) 0) /\
  ttl_saturating_mul a n = mkTtl (Z.min (ttl_secs a * n) (2 ^ 32 - 1)) /\
  ttl_add a b = (if ttl_secs a + ttl_secs b <? 2 ^ 32 then Ret (mkTtl (ttl_secs a + ttl_secs b)) else Panic) /\
  ttl_sub a b = (if ttl_secs b <=? ttl_secs a then Ret (mkTtl (ttl_secs a - ttl_secs b)) else Panic) /\
  ttl_mul a n = (if ttl_secs a * n <? 2 ^ 32 then Ret (mkTtl (ttl_secs a * n)) else Panic) /\
  ttl_div a n = (if 0 <? n then Ret (mkTtl (ttl_secs a / n)) else Panic) /\
  ttl_cap a = mkTtl (Z.min (ttl_secs a) 604800).
Proof.
  destruct a as [a], b as [b]. unfold ttl_ok, is_u32; cbn [ttl_secs]. intros Ha Hb Hn.
  assert (0 <= a * n) by nia.
  unfold ttl_saturating_add, ttl_saturating_sub, ttl_saturating_mul, ttl_add, ttl_sub, ttl_mul, ttl_div,
    ttl_checked_add, ttl_checked_sub, ttl_checked_mul, ttl_checked_div, ttl_cap, ttl_max, ttl_zero, ttl_cap_value,
    ttl_from_secs; cbn [ttl_secs].
  split_and!.
  - checked (a + b); cbn; f_equal; unfold is_u32 in Hv; lia.
  - checked (a - b); cbn; f_equal; unfold is_u32 in Hv; lia.
  - checked (a * n); cbn; f_equal; unfold is_u32 in Hv; lia.
  - checked (a + b); destruct (Z.ltb_spec (a + b) (2 ^ 32)); try done; unfold is_u32 in Hv; lia.
  - checked (a - b); destruct (Z.leb_spec b a); try done; unfold is_u32 in Hv; lia.
  - checked (a * n); destruct (Z.ltb_spec (a * n) (2 ^ 32)); try done; unfold is_u32 in Hv; lia.
  - destruct (Z.eqb_spec n 0), (Z.ltb_spec 0 n); try done; lia.
  - destruct (Z.ltb_spec 604800 a); f_equal; lia.
Qed.

Lemma ttl_arithmetic_correct_witness :
  ttl_ok (mkTtl (2 ^ 32 - 1)) /\ ttl_saturating_add (mkTtl (2 ^ 32 - 1)) (mkTtl 5) = mkTtl (2 ^ 32 - 1) /\
  ttl_add (mkTtl (2 ^ 32 - 1)) (mkTtl 5) = Panic.
Proof.
  assert (ttl_ok (mkTtl (2 ^ 32 - 1))) as Ha by by_decide. split; [exact Ha|].
  destruct (ttl_arithmetic_correct (mkTtl (2 ^ 32 - 1)) (mkTtl 5) 0) as (E1 & _ & _ & E2 & _); [exact Ha|by_decide|by_decide|].
  split; [rewrite E1; reflexivity|rewrite E2; reflexivity].
Defined.

(** A sum that returns is the total of the entries. *)
Lemma ttl_sum_from_spec total l :
  is_u32 total -> Forall ttl_ok l ->
  let s := fold_left (fun acc t => acc + ttl_secs t) l total in
  ttl_sum_from total l = if s <? 2 ^ 32 then Ret (mkTtl s) else Panic.
Proof.
  intros Ht Hl. revert total Ht. induction Hl as [|t l Hok Hl IH]; intros total Ht; cbn [fold_left ttl_sum_from].
  - destruct (Z.ltb_spec total (2 ^ 32)); [done|]. unfold is_u32 in Ht. lia.
  - checked (total + ttl_secs t); [by apply IH|].
    assert (Hge : forall l total, Forall ttl_ok l -> total <= fold_left (fun acc t => acc + ttl_secs t) l total).
    { clear. intros l total Hl. revert total. induction Hl as [|t l Hok _ IH]; intros total; cbn; [lia|].
      specialize (IH (total + ttl_secs t)). unfold ttl_ok, is_u32 in Hok. lia. }
    specialize (Hge l (total + ttl_secs t) Hl). unfold ttl_ok, is_u32 in *.
    destruct (Z.ltb_spec (fold_left (fun acc t => acc + ttl_secs t) l (total + ttl_secs t)) (2 ^ 32)); [lia|done].
Qed.

(** The units of the display make up the TTL, each within its range, and no cast
    to 16 bits loses anything; the larger units read back what a TTL is made from. *)
Lemma ttl_units_correct t :
  ttl_ok t ->
  (exists w d h m s, ttl_units t = [w; d; h; m; s] /\ ttl_secs t = w * 604800 + d * 86400 + h * 3600 + m * 60 + s /\
     0 <= d < 7 /\ 0 <= h < 24 /\ 0 <= m < 60 /\ 0 <= s < 60) /\
  ttl_as_days t = ttl_secs t / 86400.
Proof.
  destruct t as [t]. unfold ttl_ok, is_u32, ttl_units, ttl_as_days, ttl_as_hours, ttl_as_minutes, ttl_as_secs, as_u16,
    SECS_PER_DAY, SECS_PER_HOUR, SECS_PER_MINUTE; cbn [ttl_secs]. intros Ht.
  rewrite !(Z.mod_small _ (2 ^ 16)) by lia. split; [|done]. eexists _, _, _, _, _; split; [done|]. lia.
Qed.

Lemma ttl_from_units_as :
  (forall n t, 0 <= n -> ttl_from_mins n = Ret t -> ttl_ok t /\ ttl_as_minutes t = n) /\
  (forall n t, 0 <= n -> ttl_from_hours n = Ret t -> ttl_ok t /\ ttl_as_hours t = n) /\
  (forall n t, 0 <= n -> ttl_from_days n = Ret t -> ttl_ok t /\ ttl_as_days t = n).
Proof.
  assert (Hu : forall max per n t, 0 <= n -> ttl_from_units max per n = Ret t -> 0 <= n <= max /\ t = mkTtl (n * per)).
  { intros max per n t Hn. unfold ttl_from_units. destruct (Z.leb_spec n max); [|done]. by intros [= <-]. }
  unfold ttl_ok, is_u32, ttl_as_minutes, ttl_as_hours, ttl_as_days, as_u16, SECS_PER_MINUTE, SECS_PER_HOUR, SECS_PER_DAY.
  split_and!; intros n t Hn [Hm ->]%Hu; try done; cbn [ttl_secs]; unfold SECS_PER_MINUTE, SECS_PER_HOUR, SECS_PER_DAY in *; lia.
Qed.

(** The separator is written before the first unit only. *)
Theorem ttl_pretty_no_separator : ttl_pretty (mkTtl 777600) = ascii_chars " 1 week2 days".
Proof. reflexivity. Qed.

Section Wire.
Context {P : Type} `{OctetsParserOk P}.

Lemma ttl_parse_wire t : ttl_ok t -> Parses (P:=P) ttl_parse (to_be_bytes 4 (ttl_as_secs t)) t.
Proof. intros Ht. destruct t as [t]. unfold ttl_parse. apply (Parses_map _ ttl_from_secs). by apply Parses_u32. Qed.
End Wire.
