(* ===== verification/Opt.v ===== *)
(** * OPT records ([src/src/base/opt/mod.rs], [OptBuilder] of
      [src/src/base/message_builder.rs])

    The data of an OPT record is a sequence of options, each a code, a length and
    that many octets.  [Opt] is such a sequence, checked when it is made from
    octets; [OptIter] goes over the options of one type; [OptHeader] and
    [OptRecord] are the EDNS header in the fields of the record; [OptBuilder]
    writes an OPT record into a message.  The options themselves are behind the
    interface [OptData]. *)

From S2P Require Import Prelude Octets Symbol BaseCodec CharStr Label Traits Name ParsedName Header Compressor MessageBuilder Message Record.
From stdpp Require Import strings.
#[local] Open Scope Z_scope.

Inductive LongOptData := LongOptDataErr.
Inductive BuildDataError := BdLongOptData | BdShortBuf.

Definition long_opt_check_len (len : Z) : result unit LongOptData := if 65535 <? len then Err LongOptDataErr else Ok ().

(** [From<LongOptData> for ParseError]. *)
Definition parse_long_opt (e : LongOptData) : ParseError := parse_form_error "option data too long".

(** [unlimited_buf]. *)
Definition unlimited_buf (e : BuildDataError) : outcome LongOptData :=
  match e with BdLongOptData => Ret LongOptDataErr | BdShortBuf => Panic end.

(** ** The interface of options *)

Class OptData (D : Type) : Type := od_code : D -> Z.

Class ParseOptData (D P : Type) : Type := od_parse_option : Z -> P -> result (option D * P) ParseError.

(** [compose_option] may panic. *)
Class ComposeOptData (D B : Type) : Type := {
  od_compose_len : D -> outcome Z;
  od_compose_option : D -> pusher B
}.

(** ** [Opt] *)

Section Opt.
Context {P : Type} `{OctetsParser P} `{!OctetsParserRef P} `{!OctetsParserSub P}.

(** The loop of [check_slice]; a round takes at least four octets. *)
Fixpoint opt_check_loop (fuel : nat) (parser : P) : option (result unit ParseError) :=
  match fuel with
  | O => None
  | S fuel' =>
      if (0 <? p_remaining parser)%nat then
        match (let? parser := short (p_advance parser 2) in
               let? (len, parser) := short (p_parse_u16_be parser) in
               short (p_advance parser (Z.to_nat len))) with
        | Ok parser => opt_check_loop fuel' parser
        | Err e => Some (Err e)
        end
      else Some (Ok ())
  end.

Definition opt_check_slice (slice : list Z) : option (result unit ParseError) :=
  if 65535 <? zlen slice then Some (Err (parse_form_error "long record data"))
  else opt_check_loop (S (length slice)) (p_from_ref slice : P).

Record Opt := mkOpt { opt_octets : list Z }.

(** [from_octets] and [from_slice]. *)
Definition opt_from_octets (octets : list Z) : option (result Opt ParseError) :=
  match opt_check_slice octets with
  | None => None
  | Some r => Some (let? _ := r in Ok (mkOpt octets))
  end.

Definition opt_parse (p : P) : option (result (Opt * P) ParseError) :=
  match short (p_parse_octets p (p_remaining p)) with
  | Err e => Some (Err e)
  | Ok (octets, p) => match opt_from_octets octets with None => None | Some r => Some (let? o := r in Ok (o, p)) end
  end.

Definition opt_len (o : Opt) : nat := length (opt_octets o).
Definition opt_is_empty (o : Opt) : bool := match opt_octets o with [] => true | _ => false end.

(** [advance_to_end]. *)
Definition p_to_end (p : P) : P := default p (p_advance p (p_remaining p)).

Section Iter.
Context {D : Type} `{!ParseOptData D P}.

Definition opt_iter_new (octets : list Z) : P := p_from_ref octets.

Definition opt_next_step (parser : P) : result (option D * P) ParseError :=
  let? (code, parser) := short (p_parse_u16_be parser) in
  let? (len, parser) := short (p_parse_u16_be parser) in
  let? (sub, parser) := short (p_parse_parser parser (Z.to_nat len)) in
  let? (res, sub) := od_parse_option code sub in
  if (match res with Some _ => true | None => false end) && (0 <? p_remaining sub)%nat
  then Err (parse_form_error "trailing data in option") else Ok (res, parser).

(** [OptIter::next]; a round of the loop takes at least four octets. *)
Fixpoint opt_iter_next (fuel : nat) (parser : P) : option (option (result D ParseError) * P) :=
  match fuel with
  | O => None
  | S fuel' =>
      if (0 <? p_remaining parser)%nat then
        match opt_next_step parser with
        | Ok (Some res, parser) => Some (Some (Ok res), parser)
        | Ok (None, parser) => opt_iter_next fuel' parser
        | Err err => Some (Some (Err err), p_to_end parser)
        end
      else Some (None, parser)
  end.

Definition opt_next (parser : P) : option (option (result D ParseError) * P) :=
  opt_iter_next (S (p_remaining parser)) parser.

(** All the items of the iterator. *)
Fixpoint opt_collect (fuel : nat) (parser : P) : option (list (result D ParseError)) :=
  match fuel with
  | O => None
  | S fuel' =>
      match opt_next parser with
      | None => None
      | Some (None, _) => Some []
      | Some (Some r, parser) => option_map (cons r) (opt_collect fuel' parser)
      end
  end.

Definition opt_iter (o : Opt) : option (list (result D ParseError)) :=
  opt_collect (S (length (opt_octets o))) (opt_iter_new (opt_octets o)).

(** [first]. *)
Definition opt_first (o : Opt) : option (option D) :=
  match opt_next (opt_iter_new (opt_octets o)) with
  | None => None
  | Some (Some (Ok d), _) => Some (Some d)
  | Some (_, _) => Some None
  end.
End Iter.
End Opt.

(** ** Building options *)

Section Push.
Context {B : Type} `{OctetsBuilder B}.

Definition opt_empty : B := builder_empty.

(** [push_raw_option] on an [Opt] whose octets are a builder; an error after the
    length check leaves what was written. *)
Definition opt_push_raw_option (code option_len : Z) (op : pusher B) (octets : B)
    : outcome (B * result unit BuildDataError) :=
  match long_opt_check_len (Z.min (zlen (as_ref octets) + option_len) (2 ^ 64 - 1)) with
  | Err _ => Ret (octets, Err BdLongOptData)
  | Ok _ =>
      let! (octets, ok) := push_seq (push_compose (compose_seq (u16_compose code) (u16_compose option_len))) op octets in
      Ret (octets, if ok : bool then Ok () else Err BdShortBuf)
  end.

Definition opt_push {D} `{OptData D} `{!ComposeOptData D B} (option : D) (octets : B)
    : outcome (B * result unit BuildDataError) :=
  let! len := od_compose_len option in
  opt_push_raw_option (od_code option) len (od_compose_option option) octets.

Fixpoint opt_pushes {D} `{OptData D} `{!ComposeOptData D B} (options : list D) (octets : B)
    : outcome (B * result unit BuildDataError) :=
  match options with
  | [] => Ret (octets, Ok ())
  | o :: options' =>
      let! (octets, r) := opt_push o octets in
      match r with Ok _ => opt_pushes options' octets | Err e => Ret (octets, Err e) end
  end.
End Push.

(** [PartialEq], [PartialOrd], [Ord] and [CanonicalOrd]. *)
Definition opt_eq (a b : Opt) : bool := bool_decide (opt_octets a = opt_octets b).
Definition opt_cmp (a b : Opt) : comparison := iter_cmp (opt_octets a) (opt_octets b).

Definition RTYPE_OPT : Z := 41.

(** [parse_rdata]. *)
Definition opt_parse_rdata {P} `{OctetsParser P} `{!OctetsParserRef P} (rtype : Z) (p : P)
    : option (result (option Opt * P) ParseError) :=
  if rtype =? RTYPE_OPT
  then match opt_parse p with None => None | Some r => Some (let? (o, p) := r in Ok (Some o, p)) end
  else Some (Ok (None, p)).

#[export] Instance opt_compose_data {B} `{Composer B} : ComposeRecordData Opt B := {|
  rd_rtype _ := RTYPE_OPT;
  rd_rdlen d _ := if zlen (opt_octets d) <? 2 ^ 16 then Ret (Some (zlen (opt_octets d))) else Panic;
  compose_rdata d := push_compose (compose_slice (opt_octets d));
  compose_canonical_rdata d := push_compose (compose_slice (opt_octets d))
|}.

(** ** [OptHeader] *)

Record OptHeader := mkOptHeader { oh_inner : list Z }.

Definition opt_header_default : OptHeader := mkOptHeader [0; 0; 41; 0; 0; 0; 0; 0; 0].

Definition opt_header_for_record_slice (slice : list Z) : outcome OptHeader :=
  if (9 <=? length slice)%nat then Ret (mkOptHeader (take 9 slice)) else Panic.

Definition oh_udp_payload_size (h : OptHeader) : Z := from_be_bytes (take 2 (drop 3 (oh_inner h))) 0.
Definition oh_set_udp_payload_size (value : Z) (h : OptHeader) : OptHeader :=
  mkOptHeader (take 3 (oh_inner h) ++ to_be_bytes 2 value ++ drop 5 (oh_inner h)).

Definition oh_rcode (header : Header) (h : OptHeader) : Z := opt_rcode_from_parts (header_rcode header) (octet_at (oh_inner h) 5).
Definition oh_set_rcode (rcode : Z) (h : OptHeader) : OptHeader := mkOptHeader (<[5%nat := opt_rcode_ext rcode]> (oh_inner h)).

Definition oh_version (h : OptHeader) : Z := octet_at (oh_inner h) 6.
Definition oh_set_version (version : Z) (h : OptHeader) : OptHeader := mkOptHeader (<[6%nat := version]> (oh_inner h)).

Definition oh_dnssec_ok (h : OptHeader) : bool := negb (Z.land (octet_at (oh_inner h) 7) 0x80 =? 0).
Definition oh_set_dnssec_ok (value : bool) (h : OptHeader) : OptHeader :=
  let b := octet_at (oh_inner h) 7 in
  mkOptHeader (<[7%nat := if value then Z.lor b 0x80 else Z.land b 0x7F]> (oh_inner h)).

Definition opt_header_compose {B} `{OctetsBuilder B} (h : OptHeader) : composer B := compose_slice (oh_inner h).

(** ** [OptRecord] *)

Record OptRecord := mkOptRecord {
  or_udp_payload_size : Z; or_ext_rcode : Z; or_version : Z; or_flags : Z; or_data : Opt
}.

Definition or_from_record {N} (r : ResourceRecord N Opt) : OptRecord := {|
  or_udp_payload_size := rr_class r;
  or_ext_rcode := as_u8 (Z.shiftr (rr_ttl r) 24);
  or_version := as_u8 (Z.shiftr (rr_ttl r) 16);
  or_flags := as_u16 (rr_ttl r);
  or_data := rr_data r
|}.

Definition or_as_record (r : OptRecord) : ResourceRecord Name Opt :=
  mkRR name_root (or_udp_payload_size r)
    (Z.lor (Z.lor (Z.shiftl (or_ext_rcode r) 24) (Z.shiftl (or_version r) 16)) (or_flags r)) (or_data r).

Definition or_set_udp_payload_size (value : Z) (r : OptRecord) : OptRecord :=
  mkOptRecord value (or_ext_rcode r) (or_version r) (or_flags r) (or_data r).

Definition or_rcode (header : Header) (r : OptRecord) : Z := opt_rcode_from_parts (header_rcode header) (or_ext_rcode r).

Definition or_dnssec_ok (r : OptRecord) : bool := negb (Z.land (or_flags r) 0x8000 =? 0).
Definition or_set_dnssec_ok (value : bool) (r : OptRecord) : OptRecord :=
  mkOptRecord (or_udp_payload_size r) (or_ext_rcode r) (or_version r)
    (if value then Z.lor (or_flags r) 0x8000 else Z.land (or_flags r) 0x7FFF) (or_data r).

(** [OptionHeader]. *)
Record OptionHeader := mkOptionHeader { option_code : Z; option_len : Z }.

Definition option_header_parse {P} `{OctetsParser P} (p : P) : result (OptionHeader * P) ParseError :=
  let? (code, p) := short (p_parse_u16_be p) in
  let? (len, p) := short (p_parse_u16_be p) in
  Ok (mkOptionHeader code len, p).

(** ** Unknown options *)

Record UnknownOptData := mkUnknownOpt { uo_code : Z; uo_data : list Z }.

Definition unknown_opt_new (code : Z) (data : list Z) : result UnknownOptData LongOptData :=
  let? _ := long_opt_check_len (zlen data) in Ok (mkUnknownOpt code data).

(** [len.try_into().expect("long option data")]. *)
Definition expect_u16 (len : Z) : outcome Z := if len <? 2 ^ 16 then Ret len else Panic.

#[export] Instance unknown_opt_data : OptData UnknownOptData := uo_code.

#[export] Instance unknown_opt_parse {P} `{OctetsParser P} : ParseOptData UnknownOptData P := fun code p =>
  let? (data, p) := short (p_parse_octets p (p_remaining p)) in
  let? d := map_err parse_long_opt (unknown_opt_new code data) in Ok (Some d, p).

#[export] Instance unknown_opt_compose {B} `{OctetsBuilder B} : ComposeOptData UnknownOptData B := {|
  od_compose_len d := expect_u16 (zlen (uo_data d));
  od_compose_option d := push_compose (compose_slice (uo_data d))
|}.

(** ** The sequence of options *)

(** An option as a code and its data, and the wire format of a sequence of them. *)
Definition raw_option : Type := Z * list Z.

Definition raw_wire (o : raw_option) : list Z := to_be_bytes 2 o.1 ++ to_be_bytes 2 (zlen o.2) ++ o.2.
Definition opt_wire (l : list raw_option) : list Z := concat (map raw_wire l).

Definition raw_ok (o : raw_option) : Prop := is_u16 o.1 /\ is_u16 (zlen o.2).

Lemma raw_wire_length o : length (raw_wire o) = (4 + length o.2)%nat.
Proof. unfold raw_wire. rewrite !length_app, !length_to_be_bytes. lia. Qed.

Lemma opt_wire_app l l' : opt_wire (l ++ l') = opt_wire l ++ opt_wire l'.
Proof. unfold opt_wire. by rewrite map_app, concat_app. Qed.

(** The option at the front. *)
Definition rd_option (s : list Z) : result (raw_option * list Z) ParseError :=
  let? (code, s) := rd_u16 s in
  let? (len, s) := rd_u16 s in
  let? (data, s) := rd_octets (Z.to_nat len) s in
  Ok ((code, data), s).

Lemma rd_option_wire o t : raw_ok o -> rd_option (raw_wire o ++ t) = Ok (o, t).
Proof.
  destruct o as [code data]. intros [Hc Hl]; cbn in Hc, Hl. unfold rd_option, raw_wire. cbn [fst snd].
  rewrite <- !app_assoc, rd_u16_app by done. rewrite rd_u16_app by done. unfold zlen. rewrite Nat2Z.id, rd_octets_app. done.
Qed.

Lemma rd_option_inv s o t : wf_octets s -> rd_option s = Ok (o, t) -> s = raw_wire o ++ t /\ raw_ok o /\ wf_octets t.
Proof.
  intros Hs. unfold rd_option. destruct (rd_u16 s) as [[code s1]|] eqn:E1; [|done].
  apply rd_u16_inv in E1 as [-> Hc]; [|done]. apply wf_octets_app in Hs as [_ Hs].
  destruct (rd_u16 s1) as [[len s2]|] eqn:E2; [|done]. apply rd_u16_inv in E2 as [-> Hl]; [|done].
  apply wf_octets_app in Hs as [_ Hs]. destruct (rd_octets (Z.to_nat len) s2) as [[data s3]|] eqn:E3; [|done].
  apply rd_octets_inv in E3 as [-> Hd]. intros [= <- <-]. apply wf_octets_app in Hs as [_ Hs].
  assert (zlen data = len) as El by (unfold zlen, is_u16 in *; lia). unfold raw_wire, raw_ok; cbn [fst snd].
  rewrite El, <- !app_assoc. done.
Qed.

Lemma rd_option_shorter s o t : rd_option s = Ok (o, t) -> (length t + 4 <= length s)%nat.
Proof.
  unfold rd_option, rd_u16. destruct (rd_octets 2 s) as [[x s1]|] eqn:E1; [|done].
  destruct (rd_octets 2 s1) as [[y s2]|] eqn:E2; [|done]. cbn.
  destruct (rd_octets _ s2) as [[z s3]|] eqn:E3; [|done]. intros [= _ <-].
  apply rd_octets_inv in E1 as [-> H1], E2 as [-> H2], E3 as [-> H3]. rewrite !length_app. lia.
Qed.

Section Reading.
Context {P : Type} `{OctetsParserOk P} `{!OctetsParserRef P} `{!OctetsParserRefOk P}.
Context `{!OctetsParserSub P} `{!OctetsParserSubOk P}.

Lemma rest_nil (p : P) : (0 <? p_remaining p)%nat = false -> p_rest p = [].
Proof. intros Hr%Nat.ltb_ge. apply length_zero_iff_nil. rewrite p_rest_length. lia. Qed.

(** A round of [check_slice] takes the option at the front. *)
Lemma check_step (p : P) :
  match (let? p := short (p_advance p 2) in
         let? (len, p) := short (p_parse_u16_be p) in
         short (p_advance p (Z.to_nat len))) with
  | Ok p' => exists o, rd_option (p_rest p) = Ok (o, p_rest p')
  | Err e => rd_option (p_rest p) = Err e
  end.
Proof.
  unfold rd_option. unfold rd_u16 at 1 3. pose proof (advance_reads p 2) as H1. destruct (p_advance p 2) as [p1|]; cbn [short ok_or].
  2: by rewrite H1.
  destruct H1 as [-> _]. pose proof (Reads_u16 p1) as H2. cbv beta in H2.
  destruct (p_parse_u16_be p1) as [[len p2]|]; cbn [short ok_or] in H2 |- *; [|by rewrite H2].
  destruct H2 as [-> _]. pose proof (advance_reads p2 (Z.to_nat len)) as H3.
  destruct (p_advance p2 (Z.to_nat len)) as [p3|]; cbn [short ok_or]; [|by rewrite H3]. destruct H3 as [-> _]. by eexists.
Qed.

Definition is_opt (s : list Z) : Prop := exists l, Forall raw_ok l /\ s = opt_wire l.

Lemma opt_check_loop_spec fuel (p : P) :
  (p_remaining p < fuel)%nat -> wf_octets (p_rest p) ->
  exists r, opt_check_loop fuel p = Some r /\ (r = Ok () <-> is_opt (p_rest p)).
Proof.
  revert p. induction fuel as [|fuel IH]; intros p Hf Hw; [lia|]. cbn [opt_check_loop].
  destruct (0 <? p_remaining p)%nat eqn:Hr.
  - pose proof (check_step p) as Hs. destruct (let? p := short (p_advance p 2) in _) as [p'|e].
    + destruct Hs as [o Ho]. apply rd_option_shorter in Ho as Hl. rewrite !p_rest_length in Hl.
      apply rd_option_inv in Ho as (E & Hok & Hw'); [|done]. destruct (IH p') as (r & -> & Hr'); [lia|done|].
      exists r. split; [done|]. rewrite Hr', E. unfold is_opt. split.
      * intros (l & Hl' & ->). exists (o :: l). by split; [constructor|].
      * intros (l & Hl' & Ew). destruct l as [|o' l].
        { apply (f_equal length) in Ew. rewrite length_app, raw_wire_length in Ew. simpl in Ew. lia. }
        apply Forall_uncons in Hl' as [Ho' Hl']. pose proof (rd_option_wire o' (opt_wire l) Ho') as E1.
        change (raw_wire o' ++ opt_wire l) with (opt_wire (o' :: l)) in E1. rewrite <- Ew, rd_option_wire in E1 by done.
        simplify_eq. by exists l.
    + eexists; split; [done|]. split; [done|]. intros (l & Hl' & Ew). destruct l as [|o l].
      * apply Nat.ltb_lt in Hr. rewrite <- p_rest_length, Ew in Hr. simpl in Hr. lia.
      * apply Forall_uncons in Hl' as [Ho Hl']. rewrite Ew in Hs. change (opt_wire (o :: l)) with (raw_wire o ++ opt_wire l) in Hs.
        by rewrite rd_option_wire in Hs.
  - eexists; split; [done|]. split; [|done]. intros _. exists []. split; [constructor|]. by apply rest_nil.
Qed.

Lemma opt_from_octets_spec s :
  wf_octets s ->
  exists r, opt_from_octets (P:=P) s = Some r /\
    (forall o, r = Ok o <-> opt_octets o = s /\ zlen s <= 65535 /\ is_opt s).
Proof using All.
  intros Hs. unfold opt_from_octets, opt_check_slice. destruct (Z.ltb_spec 65535 (zlen s)).
  - eexists; split; [done|]. intros o. split; [done|]. lia.
  - destruct (opt_check_loop_spec (S (length s)) (p_from_ref s)) as (r & -> & Hr);
      [rewrite <- p_rest_length, p_rest_from_ref; lia|by rewrite p_rest_from_ref|].
    rewrite p_rest_from_ref in Hr. eexists; split; [done|]. intros o. destruct r as [[]|e].
    + split; [intros [= <-]|intros (<- & _)]; [|by destruct o]. by split_and!; [|lia|apply Hr].
    + split; [done|]. intros (_ & _ & Ho). by apply Hr in Ho.
Qed.

(** [Opt::from_octets] ends, and accepts exactly the octets that are a sequence of
    complete options of at most 65535 octets in total. *)
Theorem opt_from_octets_correct s :
  wf_octets s ->
  exists r, opt_from_octets (P:=P) s = Some r /\
    (forall o, r = Ok o <-> opt_octets o = s /\ zlen s <= 65535 /\ is_opt s).
Proof using All. apply opt_from_octets_spec. Qed.

(** *** Iterating *)

(** What a type of options promises of its parsing: it depends on the code and the
    octets only. *)
Class ParseOptDataOk (D : Type) `{!ParseOptData D P} (rd : Z -> list Z -> result (option D * list Z) ParseError) : Prop :=
  parse_option_reads code : Reads (P:=P) (od_parse_option code) (rd code).

Section Iterating.
Context {D : Type} `{!ParseOptData D P} (rd : Z -> list Z -> result (option D * list Z) ParseError) `{!ParseOptDataOk D rd}.

(** What the iterator makes of an option, and of a sequence of options. *)
Definition option_value (o : raw_option) : result (option D) ParseError :=
  let? (res, s) := rd o.1 o.2 in
  match res, s with
  | Some _, _ :: _ => Err (parse_form_error "trailing data in option")
  | _, _ => Ok res
  end.

Fixpoint opt_items (l : list raw_option) : list (result D ParseError) :=
  match l with
  | [] => []
  | o :: l' =>
      match option_value o with
      | Ok (Some d) => Ok d :: opt_items l'
      | Ok None => opt_items l'
      | Err e => [Err e]
      end
  end.

Lemma next_step_spec (p : P) o t :
  raw_ok o -> p_rest p = raw_wire o ++ t ->
  match option_value o with
  | Ok res => exists p', opt_next_step p = Ok (res, p') /\ p_rest p' = t
  | Err e => opt_next_step p = Err e
  end.
Proof using All.
  destruct o as [code data]. intros [Hc Hl] E. unfold opt_next_step, raw_wire in *. cbn [fst snd] in *.
  rewrite <- !app_assoc in E. pose proof (Reads_u16 p) as H1. rewrite E, rd_u16_app in H1 by done. cbv beta in H1.
  destruct (p_parse_u16_be p) as [[code' p1]|]; cbn [short ok_or] in H1 |- *; [|done]. destruct H1 as [H1 _].
  apply Ok_pair_inj in H1 as [<- R1]. pose proof (Reads_u16 p1) as H2. rewrite <- R1, rd_u16_app in H2 by done. cbv beta in H2.
  destruct (p_parse_u16_be p1) as [[len p2]|]; cbn [short ok_or] in H2 |- *; [|done]. destruct H2 as [H2 _].
  apply Ok_pair_inj in H2 as [<- R2]. pose proof (parse_parser_reads p2 (Z.to_nat (zlen data))) as H3. unfold zlen in H3 |- *.
  rewrite Nat2Z.id, <- R2, rd_octets_app in H3. rewrite Nat2Z.id.
  destruct (p_parse_parser p2 (length data)) as [[sub p3]|]; cbn [short ok_or]; [|done]. destruct H3 as [H3 _].
  apply Ok_pair_inj in H3 as [Rs R3]. pose proof (parse_option_reads (rd:=rd) code sub) as H4. rewrite <- Rs in H4. unfold option_value; cbn [fst snd].
  destruct (od_parse_option code sub) as [[res sub']|e]; [|by rewrite H4]. destruct H4 as [-> _].
  pose proof (p_rest_length sub') as Ls. destruct res as [d|]; cbn [andb]; [|by exists p3].
  destruct (p_rest sub') as [|b s'] eqn:Rs'; simpl in Ls; rewrite <- Ls; cbn; [by exists p3|done].
Qed.

Lemma to_end_rest (p : P) : p_rest (p_to_end p) = [].
Proof using All.
  unfold p_to_end. destruct (p_advance_ok p (p_remaining p)) as (p' & -> & Hm); [done|]. cbn.
  rewrite (p_rest_moved _ _ _ Hm). apply drop_ge. by rewrite p_rest_length.
Qed.

Lemma iter_next_spec l fuel (p : P) :
  Forall raw_ok l -> p_rest p = opt_wire l -> (p_remaining p < fuel)%nat ->
  exists x p', opt_iter_next fuel p = Some (x, p') /\
    match x with
    | None => opt_items l = []
    | Some (Ok d) => exists l', opt_items l = Ok d :: opt_items l' /\ p_rest p' = opt_wire l' /\ Forall raw_ok l' /\
                       (length l' < length l)%nat
    | Some (Err e) => opt_items l = [Err e] /\ p_rest p' = []
    end.
Proof using All.
  revert fuel p. induction l as [|o l IH]; intros [|fuel] p Hl E Hf; try lia; cbn [opt_iter_next].
  - pose proof (p_rest_length p) as L. rewrite E in L. simpl in L. rewrite <- L. by eexists _, _.
  - apply Forall_uncons in Hl as [Ho Hl]. change (opt_wire (o :: l)) with (raw_wire o ++ opt_wire l) in E.
    assert (Hp : p_remaining p = (length (raw_wire o) + length (opt_wire l))%nat) by (by rewrite <- p_rest_length, E, length_app).
    rewrite raw_wire_length in Hp. destruct (Nat.ltb_spec 0 (p_remaining p)); [|lia].
    pose proof (next_step_spec p o _ Ho E) as Hs. cbn [opt_items]. destruct (option_value o) as [[d|]|e].
    + destruct Hs as (p' & -> & R). eexists _, _; split; [done|]. exists l. by split_and!; [| | |simpl; lia].
    + destruct Hs as (p' & -> & R). destruct (IH fuel p' Hl R) as (x & q & -> & Hx).
      { rewrite <- p_rest_length, R. lia. }
      eexists _, _; split; [done|]. destruct x as [[d|e]|]; [|done|done]. destruct Hx as (l' & ? & ? & ? & ?).
      exists l'. split_and!; [done..|simpl; lia].
    + rewrite Hs. eexists _, _; split; [done|]. split; [done|apply to_end_rest].
Qed.

Lemma opt_collect_spec n l fuel (p : P) :
  (length l <= n)%nat -> Forall raw_ok l -> p_rest p = opt_wire l -> (n + 1 < fuel)%nat ->
  opt_collect fuel p = Some (opt_items l).
Proof using All.
  revert l fuel p. induction n as [|n IH]; intros l [|fuel] p Hn Hl E Hf; try lia; cbn [opt_collect]; unfold opt_next;
    destruct (iter_next_spec l (S (p_remaining p)) p Hl E) as (x & p' & -> & Hx); try lia; destruct x as [[d|e]|];
    try (by rewrite Hx); try (destruct Hx as (l' & -> & R & Hl' & Hlt)); try (destruct Hx as [-> R]).
  - lia.
  - destruct fuel as [|fuel]; [lia|]. cbn [opt_collect]. unfold opt_next. cbn [opt_iter_next].
    pose proof (p_rest_length p') as L. rewrite R in L. simpl in L. by rewrite <- L.
  - rewrite (IH l') by (done || lia). done.
  - destruct fuel as [|fuel]; [lia|]. cbn [opt_collect]. unfold opt_next. cbn [opt_iter_next].
    pose proof (p_rest_length p') as L. rewrite R in L. simpl in L. by rewrite <- L.
Qed.

Lemma opt_iter_spec l :
  Forall raw_ok l -> opt_iter (P:=P) (D:=D) (mkOpt (opt_wire l)) = Some (opt_items l).
Proof using All.
  intros Hl. unfold opt_iter, opt_iter_new; cbn [opt_octets].
  assert (Hn : (length l = 0 \/ length l + 1 < S (length (opt_wire l)))%nat).
  { clear. induction l as [|o l IH]; [by left|]. right. change (opt_wire (o :: l)) with (raw_wire o ++ opt_wire l).
    rewrite length_app, raw_wire_length. simpl. lia. }
  destruct Hn as [Hn|Hn].
  - destruct l; [|done]. cbn [opt_wire map concat length opt_collect]. unfold opt_next. cbn [opt_iter_next].
    pose proof (p_rest_length (p_from_ref [] : P)) as L. rewrite p_rest_from_ref in L. simpl in L. by rewrite <- L.
  - apply (opt_collect_spec (length l)); [done|done|by rewrite p_rest_from_ref|lia].
Qed.

(** Iterating over the options of a type ends and gives, in order, the options the
    type reads, skips the others, and stops after the first that is malformed or
    has trailing data. *)
Theorem opt_iter_correct l :
  Forall raw_ok l -> opt_iter (P:=P) (D:=D) (mkOpt (opt_wire l)) = Some (opt_items l).
Proof using All. apply opt_iter_spec. Qed.
End Iterating.
End Reading.

(** ** Pushing options and reading them back *)

Section RoundTrip.
Context {P : Type} `{OctetsParserOk P} `{!OctetsParserRef P} `{!OctetsParserRefOk P}.
Context `{!OctetsParserSub P} `{!OctetsParserSubOk P}.
Context {B : Type} `{OctetsBuilderOk B}.

(** What a type of options promises: an option that is [od_ok] composes to [enc]
    of it, of the length it announces, and that is read back as the option. *)
Class ComposeOptDataOk (D : Type) `{!OptData D} `{!ComposeOptData D B} (od_ok : D -> Prop) (enc : D -> list Z) : Prop := {
  od_code_ok d : od_ok d -> is_u16 (od_code d);
  od_enc_wf d : od_ok d -> wf_octets (enc d);
  od_len_ok d : od_ok d -> od_compose_len d = Ret (zlen (enc d)) /\ is_u16 (zlen (enc d));
  od_appends d : od_ok d -> Appends (od_compose_option d) (enc d);
  od_succeeds `{!InfallibleBuilder B} d : od_ok d -> Succeeds (od_compose_option d)
}.

Definition opt_roundtrips {D} `{!OptData D} (od_ok : D -> Prop) (enc : D -> list Z)
    (rd : Z -> list Z -> result (option D * list Z) ParseError) : Prop :=
  forall d, od_ok d -> rd (od_code d) (enc d) = Ok (Some d, []).

Context {D : Type} `{!OptData D} `{!ComposeOptData D B} `{!ParseOptData D P}.
Context (od_ok : D -> Prop) (enc : D -> list Z) (rd : Z -> list Z -> result (option D * list Z) ParseError).
Context `{!ComposeOptDataOk D od_ok enc} `{!ParseOptDataOk (P:=P) D rd} `{!InfallibleBuilder B}.

Definition raw_of (d : D) : raw_option := (od_code d, enc d).

Lemma raw_of_ok d : od_ok d -> raw_ok (raw_of d).
Proof using All. intros Hd. split; [by apply (od_code_ok (enc:=enc))|by apply (od_len_ok (enc:=enc))]. Qed.

Lemma opt_push_spec d (b : B) :
  od_ok d -> zlen (as_ref b ++ raw_wire (raw_of d)) <= 65535 ->
  exists b', opt_push d b = Ret (b', Ok ()) /\ as_ref b' = as_ref b ++ raw_wire (raw_of d).
Proof using All.
  intros Hd Hl. unfold opt_push. destruct (od_len_ok (enc:=enc) d Hd) as [-> Hu]. unfold opt_push_raw_option, long_opt_check_len.
  unfold zlen in Hl. rewrite length_app, raw_wire_length in Hl. unfold raw_of in Hl; cbn [snd] in Hl.
  destruct (Z.ltb_spec 65535 (Z.min (zlen (as_ref b) + zlen (enc d)) (2 ^ 64 - 1))); [unfold zlen in *; lia|].
  set (f := push_seq _ _). assert (Ha : Appends f (raw_wire (raw_of d))).
  { unfold f, raw_wire, raw_of; cbn [fst snd]. rewrite app_assoc. apply Appends_seq; [|by apply (od_appends (enc:=enc))].
    apply Appends_compose, compose_seq_spec; apply compose_slice_spec. }
  assert (Hs : Succeeds f).
  { apply Succeeds_seq; [|by apply (od_succeeds (enc:=enc))]. intros b0. unfold push_compose.
    destruct (compose_seq_total _ _ (compose_slice_total (to_be_bytes 2 (od_code d))) (compose_slice_total (to_be_bytes 2 (zlen (enc d)))) b0)
      as [b1 E]. exists b1. by f_equal. }
  destruct (Hs b) as [b' E]. rewrite E. exists b'. split; [done|].
  destruct (Ha b) as (b1 & ok & t & E' & Er & Ht). rewrite E in E'. simplify_eq. by rewrite Er, Ht.
Qed.

Lemma opt_pushes_spec ds (b : B) :
  Forall od_ok ds -> zlen (as_ref b ++ opt_wire (map raw_of ds)) <= 65535 ->
  exists b', opt_pushes ds b = Ret (b', Ok ()) /\ as_ref b' = as_ref b ++ opt_wire (map raw_of ds).
Proof using All.
  intros Hds. revert b. induction Hds as [|d ds Hd _ IH]; intros b Hl; cbn [opt_pushes map].
  - exists b. by rewrite app_nil_r.
  - cbn [map] in Hl. change (opt_wire (raw_of d :: map raw_of ds)) with (raw_wire (raw_of d) ++ opt_wire (map raw_of ds)) in *.
    destruct (opt_push_spec d b Hd) as (b1 & -> & E1); [unfold zlen in *; rewrite !length_app in *; lia|].
    destruct (IH b1) as (b2 & -> & E2); [by rewrite E1, <- app_assoc|]. exists b2. by rewrite E2, E1, <- app_assoc.
Qed.

Lemma opt_items_roundtrip ds :
  opt_roundtrips od_ok enc rd -> Forall od_ok ds -> opt_items (D:=D) rd (map raw_of ds) = map Ok ds.
Proof.
  intros Hrd. induction 1 as [|d ds Hd _ IH]; [done|]. cbn [map opt_items]. unfold option_value, raw_of at 1; cbn [fst snd].
  by rewrite Hrd, IH.
Qed.

Lemma opt_wire_wf l : Forall (fun o => wf_octets o.2) l -> wf_octets (opt_wire l).
Proof.
  induction 1 as [|o l Ho _ IH]; [constructor|]. change (opt_wire (o :: l)) with (raw_wire o ++ opt_wire l).
  unfold raw_wire. rewrite !wf_octets_app. eauto using to_be_bytes_wf.
Qed.

(** Options of a type pushed onto empty OPT data succeed as long as the data stays
    within 65535 octets; the data is then accepted as OPT data, and iterating over
    it gives the options back. *)
Lemma opt_push_reads ds :
  opt_roundtrips od_ok enc rd -> Forall od_ok ds -> zlen (opt_wire (map raw_of ds)) <= 65535 ->
  exists b, opt_pushes ds (opt_empty (B:=B)) = Ret (b, Ok ()) /\
    opt_from_octets (P:=P) (as_ref b) = Some (Ok (mkOpt (as_ref b))) /\
    opt_iter (P:=P) (D:=D) (mkOpt (as_ref b)) = Some (map Ok ds).
Proof using All.
  intros Hrd Hds Hl. destruct (opt_pushes_spec ds opt_empty Hds) as (b & Eb & Er); [by rewrite as_ref_empty|].
  rewrite as_ref_empty in Er. cbn [app] in Er. exists b. split; [done|]. rewrite Er.
  assert (Hraw : Forall raw_ok (map raw_of ds)) by (apply Forall_map; eapply Forall_impl; [exact Hds|apply raw_of_ok]).
  split.
  - destruct (opt_from_octets_spec (P:=P) (opt_wire (map raw_of ds))) as (r & E & Hr).
    { apply opt_wire_wf, Forall_map. eapply Forall_impl; [exact Hds|]. intros d Hd. by apply (od_enc_wf (enc:=enc) d). }
    rewrite E. f_equal. apply Hr. split_and!; [done|done|]. by exists (map raw_of ds).
  - rewrite (opt_iter_spec rd) by done. f_equal. by apply opt_items_roundtrip.
Qed.
End RoundTrip.

(** Unknown options keep the promises. *)
Section UnknownOptions.
Context {P : Type} `{OctetsParserOk P} {B : Type} `{OctetsBuilderOk B}.

Definition unknown_opt_ok (d : UnknownOptData) : Prop := is_u16 (uo_code d) /\ wf_octets (uo_data d) /\ zlen (uo_data d) <= 65535.

Definition rd_unknown_opt (code : Z) (s : list Z) : result (option UnknownOptData * list Z) ParseError :=
  let? d := map_err parse_long_opt (unknown_opt_new code s) in Ok (Some d, []).

#[export] Instance unknown_opt_parse_ok : ParseOptDataOk (P:=P) UnknownOptData rd_unknown_opt.
Proof.
  intros code p. pose proof (Reads_all p) as Hp. cbv beta in Hp. unfold od_parse_option, unknown_opt_parse, rd_unknown_opt.
  destruct (short (p_parse_octets p (p_remaining p))) as [[data p']|e]; [|done]. destruct Hp as [Hd Hs].
  apply Ok_pair_inj in Hd as [-> R]. destruct (map_err parse_long_opt (unknown_opt_new code data)) as [d|e]; [|done]. by rewrite <- R.
Qed.

Lemma expect_u16_ok n : 0 <= n <= 65535 -> expect_u16 n = Ret n /\ is_u16 n.
Proof. intros Hn. unfold expect_u16, is_u16. destruct (Z.ltb_spec n (2 ^ 16)); [|lia]. split; [done|lia]. Qed.

#[export] Instance unknown_opt_compose_ok : ComposeOptDataOk (B:=B) UnknownOptData unknown_opt_ok uo_data.
Proof.
  split; intros.
  - apply H3.
  - apply H3.
  - apply expect_u16_ok. destruct H3 as (_ & _ & Hl). unfold zlen in *. lia.
  - apply Appends_compose, compose_slice_spec.
  - apply Succeeds_compose.
Qed.

Lemma unknown_opt_roundtrips : opt_roundtrips unknown_opt_ok uo_data rd_unknown_opt.
Proof.
  intros [code data] (_ & _ & Hl). cbn in Hl. unfold rd_unknown_opt, unknown_opt_new, long_opt_check_len, od_code, unknown_opt_data; cbn.
  by destruct (Z.ltb_spec 65535 (zlen data)); [lia|].
Qed.
End UnknownOptions.

(** The length check of [push] leaves out the four octets of the option's header:
    data that ends up beyond 65535 octets is accepted, is not valid OPT data, and
    composing it panics. *)
Theorem opt_push_overflows (b : list Z) :
  zlen b = 65535 ->
  exists b', opt_push (mkUnknownOpt 10 []) b = Ret (b', Ok ()) /\ zlen b' = 65539 /\
    opt_from_octets (P:=lim_parser) b' = Some (Err (parse_form_error "long record data")) /\
    rd_rdlen (B:=list Z) (mkOpt b') false = Panic.
Proof.
  intros Hl. unfold opt_push. cbn [od_compose_len unknown_opt_compose uo_data]. change (expect_u16 (zlen [])) with (Ret 0).
  cbv beta iota. unfold opt_push_raw_option, long_opt_check_len.
  assert (Hb : zlen (as_ref b) = 65535) by exact Hl. rewrite Hb.
  change (65535 <? Z.min (65535 + 0) (2 ^ 64 - 1)) with false. cbv beta iota.
  eexists; split; [reflexivity|]. match goal with |- zlen ?x = _ /\ _ => assert (Hx : zlen x = 65539) end.
  { cbn. unfold zlen in *. rewrite !length_app. cbn. lia. }
  split; [exact Hx|]. unfold opt_from_octets, opt_check_slice. cbn [rd_rdlen opt_compose_data opt_octets]. rewrite Hx. split; reflexivity.
Qed.

(** ** Witnesses *)

Definition ex_options : list UnknownOptData := [mkUnknownOpt 10 [1; 2]; mkUnknownOpt 3 []].

Lemma opt_from_octets_correct_witness :
  wf_octets [0; 10; 0; 1; 7] /\ exists r, opt_from_octets (P:=lim_parser) [0; 10; 0; 1; 7] = Some r /\ r = Ok (mkOpt [0; 10; 0; 1; 7]).
Proof.
  assert (wf_octets [0; 10; 0; 1; 7]) as Hw by by_decide. split; [exact Hw|].
  destruct (opt_from_octets_correct (P:=lim_parser) [0; 10; 0; 1; 7] Hw) as (r & E & _). exists r. split; [exact E|].
  vm_compute in E. congruence.
Defined.

Lemma opt_iter_correct_witness :
  Forall raw_ok [(10, [1; 2]); (3, [])] /\
  opt_iter (P:=lim_parser) (D:=UnknownOptData) (mkOpt (opt_wire [(10, [1; 2]); (3, [])])) = Some (map Ok ex_options).
Proof.
  assert (Forall raw_ok [(10, [1; 2]); (3, [])]) as Hl by (repeat constructor; by_decide). split; [exact Hl|].
  rewrite (opt_iter_correct (P:=lim_parser) rd_unknown_opt [(10, [1; 2]); (3, [])] Hl). reflexivity.
Defined.

(** ** Building an OPT record in a message *)

Record OptBuilder (B : Type) := mkOB { ob_start : nat; ob_target : B }.
Arguments mkOB {B} ob_start ob_target.
Arguments ob_start {B} _.
Arguments ob_target {B} _.

Section OptBuilder.
Context {B : Type} `{Composer B} (overflow_checks : bool).

(** A closure over the builder: the builder and whether the result is [Ok]. *)
Definition ob_op : Type := OptBuilder B -> outcome (OptBuilder B * bool).

(** [opt_header_mut], [opt_header]. *)
Definition ob_header (ob : OptBuilder B) : outcome OptHeader :=
  opt_header_for_record_slice (drop (ob_start ob) (as_ref (ob_target ob))).

Definition ob_header_mut (f : OptHeader -> OptHeader) (ob : OptBuilder B) : outcome (OptBuilder B) :=
  let! h := ob_header ob in
  Ret (mkOB (ob_start ob) (write_octets (ob_target ob) (ob_start ob) (oh_inner (f h)))).

Definition ob_push_raw_option (code option_len : Z) (op : pusher B) : ob_op := fun ob =>
  let! (t, ok) := push_seq (push_compose (compose_seq (u16_compose code) (u16_compose option_len))) op (ob_target ob) in
  Ret (mkOB (ob_start ob) t, ok).

Definition ob_push {D} `{OptData D} `{!ComposeOptData D B} (opt : D) : ob_op := fun ob =>
  let! len := od_compose_len opt in ob_push_raw_option (od_code opt) len (od_compose_option opt) ob.

Definition ob_clone_from (source : OptRecord) : ob_op := fun ob =>
  let! (t, ok) := record_compose (or_as_record source) (builder_truncate (ob_target ob) (ob_start ob)) in
  Ret (mkOB (ob_start ob) t, ok).

Definition ob_set_udp_payload_size (value : Z) : OptBuilder B -> outcome (OptBuilder B) := ob_header_mut (oh_set_udp_payload_size value).
Definition ob_set_version (version : Z) : OptBuilder B -> outcome (OptBuilder B) := ob_header_mut (oh_set_version version).
Definition ob_set_dnssec_ok (value : bool) : OptBuilder B -> outcome (OptBuilder B) := ob_header_mut (oh_set_dnssec_ok value).

(** The lower bits of the code go to the header of the message. *)
Definition ob_set_rcode (rcode : Z) (ob : OptBuilder B) : outcome (OptBuilder B) :=
  let! h := header_for_message_slice (as_ref (ob_target ob)) in
  let ob := mkOB (ob_start ob) (write_octets (ob_target ob) 0 (h_inner (set_rcode h (opt_rcode_rcode rcode)))) in
  ob_header_mut (oh_set_rcode rcode) ob.

Definition ob_rcode (ob : OptBuilder B) : outcome Z :=
  let! oh := ob_header ob in
  let! h := header_for_message_slice (as_ref (ob_target ob)) in
  Ret (oh_rcode h oh).

(** [build]. *)
Definition ob_build (op : ob_op) (ob : OptBuilder B) : outcome (B * bool) :=
  match append_slice (ob_target ob) [0; 0] with
  | None => Ret (ob_target ob, false)
  | Some t =>
      let pos := length (as_ref t) in
      let! (ob, ok) := op (mkOB (ob_start ob) t) in
      if ok : bool then
        let! len := usize_sub overflow_checks (zlen (as_ref (ob_target ob))) (Z.of_nat pos) in
        if len <? 2 ^ 16 then Ret (write_octets (ob_target ob) (pos - 2) (to_be_bytes 2 len), true)
        else Ret (builder_truncate (ob_target ob) pos, false)
      else Ret (builder_truncate (ob_target ob) pos, false)
  end.

(** [OptBuilder::new(target)?.build(op)], what [AdditionalBuilder::opt] pushes. *)
Definition opt_build (op : ob_op) : pusher B := fun target =>
  let start := length (as_ref target) in
  let '(t, ok) := opt_header_compose opt_header_default target in
  if ok then ob_build op (mkOB start t) else Ret (t, false).
End OptBuilder.
Arguments ob_op B : clear implicits.

(** [AdditionalBuilder::opt]. *)
Definition arb_opt {B} `{Composer B} (overflow_checks : bool) (op : ob_op B) (b : AdditionalBuilder B)
    : outcome (AdditionalBuilder B * result unit PushError) := arb_push (opt_build overflow_checks op) b.

(** *** Sequences of calls *)

(** What a closure does with the builder, stopping at the first error. *)
Inductive ob_call :=
  | ObPush (code : Z) (data : list Z) | ObUdp (value : Z) | ObRcode (rcode : Z) | ObVersion (version : Z) | ObDnssecOk (value : bool).

Definition ob_do {B} `{Composer B} (c : ob_call) : ob_op B := fun ob =>
  match c with
  | ObPush code data => ob_push (mkUnknownOpt code data) ob
  | ObUdp v => let! ob := ob_set_udp_payload_size v ob in Ret (ob, true)
  | ObRcode r => let! ob := ob_set_rcode r ob in Ret (ob, true)
  | ObVersion v => let! ob := ob_set_version v ob in Ret (ob, true)
  | ObDnssecOk v => let! ob := ob_set_dnssec_ok v ob in Ret (ob, true)
  end.

Fixpoint ob_run {B} `{Composer B} (cs : list ob_call) : ob_op B := fun ob =>
  match cs with
  | [] => Ret (ob, true)
  | c :: cs' => let! (ob, ok) := ob_do c ob in if ok : bool then ob_run cs' ob else Ret (ob, false)
  end.

(** The OPT record the calls describe, and what they do to the message before it. *)
Record aopt := mkAopt { ao_udp : Z; ao_ext : Z; ao_version : Z; ao_do : bool; ao_options : list raw_option }.

Definition ao_default : aopt := mkAopt 0 0 0 false [].

Definition ao_step (a : aopt) (c : ob_call) : aopt :=
  match c with
  | ObPush code data => mkAopt (ao_udp a) (ao_ext a) (ao_version a) (ao_do a) (ao_options a ++ [(code, data)])
  | ObUdp v => mkAopt v (ao_ext a) (ao_version a) (ao_do a) (ao_options a)
  | ObRcode r => mkAopt (ao_udp a) (r / 16) (ao_version a) (ao_do a) (ao_options a)
  | ObVersion v => mkAopt (ao_udp a) (ao_ext a) v (ao_do a) (ao_options a)
  | ObDnssecOk v => mkAopt (ao_udp a) (ao_ext a) (ao_version a) v (ao_options a)
  end.

(** The response code of the message is the lower half of its fourth octet. *)
Definition msg_step (pre : list Z) (c : ob_call) : list Z :=
  match c with
  | ObRcode r => <[3%nat := default 0 (pre !! 3%nat) / 16 mod 16 * 16 + r mod 16]> pre
  | _ => pre
  end.

Definition ao_ttl (a : aopt) : Z := ao_ext a * 2 ^ 24 + ao_version a * 2 ^ 16 + (if ao_do a then 2 ^ 15 else 0).

Definition ao_record (a : aopt) : arecord := mkArecord [[]] RTYPE_OPT (ao_udp a) (ao_ttl a) (opt_wire (ao_options a)).

Definition ob_call_ok (c : ob_call) : Prop :=
  match c with
  | ObPush code data => is_u16 code /\ zlen data <= 65535
  | ObUdp v => is_u16 v
  | ObRcode r => 0 <= r < 2 ^ 12
  | ObVersion v => is_u8 v
  | ObDnssecOk _ => True
  end.

(** The first nine octets. *)
Definition ao_header (a : aopt) : list Z :=
  [0; 0; 41] ++ to_be_bytes 2 (ao_udp a) ++ [ao_ext a; ao_version a; if ao_do a then 128 else 0; 0].

Definition ao_ok (a : aopt) : Prop := is_u8 (ao_ext a) /\ is_u8 (ao_version a).

#[local] Ltac Zify.zify_post_hook ::= Z.to_euclidean_division_equations.

(** The wire format of the record: the header, the length and the options. *)
Lemma ao_record_wire a :
  ao_ok a -> record_wire (ao_record a) = ao_header a ++ to_be_bytes 2 (zlen (opt_wire (ao_options a))) ++ opt_wire (ao_options a).
Proof.
  intros [He Hv]. unfold record_wire, record_tail, ao_record, ao_header, ao_ttl; cbn [ar_owner ar_rtype ar_class ar_ttl ar_data].
  change (labels_wire [[]]) with [0]. change (to_be_bytes 2 RTYPE_OPT) with [0; 41]. rewrite !app_assoc. do 2 f_equal.
  rewrite <- !app_assoc. cbn [app]. do 4 f_equal. cbn [to_be_bytes app]. unfold is_u8 in *.
  destruct (ao_do a); repeat f_equal; lia.
Qed.

(** [OptRecord::from_record] reads the fields back. *)
Lemma ao_record_fields {N} (owner : N) a :
  ao_ok a ->
  or_from_record (mkRR owner (ao_udp a) (ao_ttl a) (mkOpt (opt_wire (ao_options a)))) =
  mkOptRecord (ao_udp a) (ao_ext a) (ao_version a) (if ao_do a then 2 ^ 15 else 0) (mkOpt (opt_wire (ao_options a))).
Proof.
  intros [He Hv]. unfold or_from_record, ao_ttl, as_u8, as_u16; cbn [rr_class rr_ttl rr_data].
  rewrite !Z.shiftr_div_pow2 by lia. unfold is_u8 in *. f_equal; destruct (ao_do a); lia.
Qed.

Section OptBuilderCorrect.
Context {B : Type} `{OctetsBuilderOk B} `{!Composer B}.

(** The builder holds [pre], then the OPT record under construction. *)
Definition ob_rep (ob : OptBuilder B) (pre : list Z) (a : aopt) : Prop :=
  ob_start ob = length pre /\ (4 <= length pre)%nat /\ ao_ok a /\
  as_ref (ob_target ob) = pre ++ ao_header a ++ [0; 0] ++ opt_wire (ao_options a).

Lemma ao_header_length a : length (ao_header a) = 9%nat.
Proof. done. Qed.

Lemma ob_header_mut_rep f ob pre a a' :
  ob_rep ob pre a -> ao_ok a' -> ao_options a' = ao_options a -> oh_inner (f (mkOptHeader (ao_header a))) = ao_header a' ->
  exists ob', ob_header_mut f ob = Ret ob' /\ ob_rep ob' pre a'.
Proof.
  intros (Hs & Hl & Hok & Er) Hok' Ho Hf. unfold ob_header_mut, ob_header, opt_header_for_record_slice. rewrite Hs, Er, drop_app_length.
  rewrite length_app, ao_header_length. cbn [Nat.leb Nat.add]. eexists; split; [done|].
  change 9%nat with (length (ao_header a)). rewrite take_app_length, Hf. unfold ob_rep; cbn [ob_start ob_target].
  split_and!; [done|done|done|]. rewrite as_ref_write_octets by (rewrite Er, !length_app, ao_header_length, ao_header_length; lia).
  rewrite Er, take_app_length, Ho, ao_header_length. do 2 f_equal. rewrite <- drop_drop, drop_app_length.
  change 9%nat with (length (ao_header a)). by rewrite drop_app_length.
Qed.

Lemma opt_rcode_ext_div r : 0 <= r < 2 ^ 12 -> opt_rcode_ext r = r / 16 /\ is_u8 (r / 16).
Proof.
  intros Hr. unfold opt_rcode_ext, opt_rcode_to_parts; cbn [snd]. unfold as_u8, is_u8.
  rewrite Z.shiftr_div_pow2 by lia. lia.
Qed.

Lemma land_low_mod x : Z.land x 0x0F = x mod 16.
Proof. change 0x0F with (Z.ones 4). by rewrite Z.land_ones by lia. Qed.

Lemma land_high_half b : Z.land b 0xF0 = b / 16 mod 16 * 2 ^ 4.
Proof.
  rewrite <- Z.shiftl_mul_pow2 by lia. change 0xF0 with (Z.shiftl 0x0F 4). apply Z.bits_inj'. intros i Hi.
  rewrite Z.land_spec. destruct (Z.ltb_spec i 4).
  - by rewrite !Z.shiftl_spec_low, andb_false_r by lia.
  - rewrite !Z.shiftl_spec by lia. rewrite <- land_low_mod, Z.land_spec. f_equal.
    change 16 with (2 ^ 4). rewrite <- Z.shiftr_div_pow2, Z.shiftr_spec by lia. f_equal. lia.
Qed.

Lemma set_rcode_msg_step pre r :
  (4 <= length pre)%nat ->
  h_inner (set_rcode (mkHeader (take 4 pre)) (opt_rcode_rcode r)) ++ drop 4 pre = msg_step pre (ObRcode r).
Proof.
  intros Hl. unfold msg_step, set_rcode, octet_at; cbn [h_inner].
  rewrite lookup_take_lt by lia. set (b := default 0 (pre !! 3%nat)).
  assert (Eb : Z.lor (Z.land b 0xF0) (Z.land (opt_rcode_rcode r) 0x0F) = b / 16 mod 16 * 16 + r mod 16).
  { rewrite land_high_half, Z.lor_comm, <- Z.shiftl_mul_pow2, Z.lor_comm, lor_shiftl_add by (rewrite ?land_low_mod; lia).
    unfold opt_rcode_rcode, opt_rcode_to_parts, rcode_masked_from_int, as_u8; cbn [fst].
    rewrite !land_low_mod. lia. }
  rewrite Eb. rewrite <- (take_drop 4 pre) at 3. rewrite insert_app_l by (rewrite length_take; lia). done.
Qed.

Lemma msg_step_length pre c : length (msg_step pre c) = length pre.
Proof. destruct c as [| |r| |]; try done. apply length_insert. Qed.

Lemma ob_set_rcode_rep r ob pre a :
  ob_rep ob pre a -> 0 <= r < 2 ^ 12 ->
  exists ob', ob_set_rcode r ob = Ret ob' /\ ob_rep ob' (msg_step pre (ObRcode r)) (ao_step a (ObRcode r)).
Proof.
  intros (Hs & Hl & Hok & Er) Hr. unfold ob_set_rcode, header_for_message_slice.
  destruct (Nat.leb_spec 4 (length (as_ref (ob_target ob)))) as [_|Hx]; [|rewrite Er, length_app in Hx; lia].
  destruct (opt_rcode_ext_div r Hr) as [Ex Hx8].
  apply (ob_header_mut_rep _ _ _ a); [|split; [done|apply Hok]|done|by unfold oh_set_rcode; rewrite Ex].
  unfold ob_rep; cbn [ob_start ob_target]. rewrite msg_step_length. split_and!; [done|done|done|].
  rewrite <- set_rcode_msg_step by done.
  rewrite as_ref_write_octets; unfold set_rcode; cbn [h_inner];
    rewrite ?length_insert, ?length_take, ?Er, ?length_app; [|lia].
  rewrite take_0, Nat.min_l by lia. cbn [app Nat.add].
  rewrite <- app_assoc, take_app_le, drop_app_le by lia. done.
Qed.

Lemma ob_push_rep code data ob pre a :
  ob_rep ob pre a -> is_u16 code -> zlen data <= 65535 ->
  exists ob' ok, ob_push (mkUnknownOpt code data) ob = Ret (ob', ok) /\ (InfallibleBuilder B -> ok = true) /\
    (ok = true -> ob_rep ob' pre (ao_step a (ObPush code data))).
Proof.
  intros (Hs & Hl & Hok & Er) Hc Hd. unfold ob_push. cbn [od_compose_len unknown_opt_compose uo_data].
  destruct (expect_u16_ok (zlen data)) as [-> _]; [unfold zlen in *; lia|].
  unfold ob_push_raw_option. cbn [od_compose_option unknown_opt_compose uo_data]. change (od_code (mkUnknownOpt code data)) with code.
  set (f := push_seq _ _). assert (Ha : Appends f (raw_wire (code, data))).
  { unfold f, raw_wire; cbn [fst snd]. rewrite app_assoc. apply Appends_seq; apply Appends_compose.
    - apply compose_seq_spec; apply compose_slice_spec.
    - apply compose_slice_spec. }
  destruct (Ha (ob_target ob)) as (t & ok & x & E & Et & Hx). rewrite E. eexists _, _; split; [done|]. split.
  - intros Hi. assert (Hsuc : Succeeds f).
    { apply Succeeds_seq; [|apply Succeeds_compose]. intros b0. unfold push_compose.
      destruct (compose_seq_total _ _ (compose_slice_total (to_be_bytes 2 code)) (compose_slice_total (to_be_bytes 2 (zlen data))) b0)
        as [b1 E1]. exists b1. by f_equal. }
    destruct (Hsuc (ob_target ob)) as [t' E']. congruence.
  - intros ->. unfold ob_rep; cbn [ob_start ob_target]. split_and!; [done|done|done|].
    rewrite Et, Er, Hx by done. rewrite <- !app_assoc. cbn [ao_step ao_options]. rewrite opt_wire_app. do 3 f_equal.
    unfold opt_wire; cbn [map concat]. by rewrite app_nil_r.
Qed.

Lemma ob_do_rep c ob pre a :
  ob_rep ob pre a -> ob_call_ok c ->
  exists ob' ok, ob_do c ob = Ret (ob', ok) /\ (InfallibleBuilder B -> ok = true) /\
    (ok = true -> ob_rep ob' (msg_step pre c) (ao_step a c)).
Proof.
  intros Hr Hc. pose proof Hr as (_ & _ & [He Hv] & _). destruct c as [code data|v|r|v|v]; cbn [ob_do ob_call_ok] in *.
  - destruct Hc. by apply ob_push_rep.
  - destruct (ob_header_mut_rep (oh_set_udp_payload_size v) ob pre a (ao_step a (ObUdp v)) Hr) as (ob' & E & Hr'); [by split|done|done|].
    unfold ob_set_udp_payload_size. rewrite E. by eexists _, _.
  - destruct (ob_set_rcode_rep r ob pre a Hr Hc) as (ob' & -> & Hr'). by eexists _, _.
  - destruct (ob_header_mut_rep (oh_set_version v) ob pre a (ao_step a (ObVersion v)) Hr) as (ob' & E & Hr'); [by split|done|done|].
    unfold ob_set_version. rewrite E. by eexists _, _.
  - destruct (ob_header_mut_rep (oh_set_dnssec_ok v) ob pre a (ao_step a (ObDnssecOk v)) Hr) as (ob' & E & Hr'); [by split|done| |].
    { unfold oh_set_dnssec_ok, ao_header; cbn. by destruct v, (ao_do a). }
    unfold ob_set_dnssec_ok. rewrite E. by eexists _, _.
Qed.

Lemma ob_run_rep cs ob pre a :
  ob_rep ob pre a -> Forall ob_call_ok cs ->
  exists ob' ok, ob_run cs ob = Ret (ob', ok) /\ (InfallibleBuilder B -> ok = true) /\
    (ok = true -> ob_rep ob' (fold_left msg_step cs pre) (fold_left ao_step cs a)).
Proof.
  intros Hr Hcs. revert ob pre a Hr. induction Hcs as [|c cs Hc _ IH]; intros ob pre a Hr; cbn [ob_run fold_left].
  - by eexists _, _.
  - destruct (ob_do_rep c ob pre a Hr Hc) as (ob1 & ok1 & -> & Hi1 & Hr1). destruct ok1.
    + apply (IH ob1). by apply Hr1.
    + exists ob1, false. split_and!; [done|done|done].
Qed.
Lemma ob_build_rep oc cs ob t pre a :
  append_slice (ob_target ob) [0; 0] = Some t -> ob_rep (mkOB (ob_start ob) t) pre a -> ao_options a = [] -> Forall ob_call_ok cs ->
  let a' := fold_left ao_step cs a in
  exists b' ok, ob_build oc (ob_run cs) ob = Ret (b', ok) /\
    (ok = true -> zlen (opt_wire (ao_options a')) < 2 ^ 16 /\
       as_ref b' = fold_left msg_step cs pre ++ record_wire (ao_record a')) /\
    (InfallibleBuilder B -> zlen (opt_wire (ao_options a')) < 2 ^ 16 -> ok = true).
Proof.
  intros Et Hr Ha Hcs a'. unfold ob_build. rewrite Et.
  destruct (ob_run_rep cs _ pre a Hr Hcs) as (ob' & ok & -> & Hi & Hr'). destruct ok.
  2: { eexists _, _; split; [done|]. split; [done|]. intros Hinf. by apply Hi in Hinf. }
  destruct (Hr' eq_refl) as (Hs & Hl & Hok & Er). clear Hi Hr'. destruct Hr as (Hs0 & Hl0 & Hok0 & Er0).
  cbn [ob_start ob_target] in Hs0, Er0. rewrite Ha in Er0.
  assert (Hpre : length (fold_left msg_step cs pre) = length pre).
  { clear. revert pre. induction cs as [|c cs IH]; intros pre; cbn [fold_left]; [done|].
    by rewrite IH, msg_step_length. }
  assert (Hpos : length (as_ref t) = (length pre + 11)%nat) by (rewrite Er0, !length_app, ao_header_length; simpl; lia).
  assert (Hz : zlen (as_ref (ob_target ob')) = Z.of_nat (length (as_ref t)) + zlen (opt_wire (ao_options a'))).
  { rewrite Er, Hpos. unfold zlen. rewrite !length_app, ao_header_length, Hpre. fold a'. simpl. lia. }
  rewrite usize_sub_ok by (rewrite Hz; unfold zlen; lia). rewrite Hz, Z.add_simpl_l.
  destruct (Z.ltb_spec (zlen (opt_wire (ao_options a'))) (2 ^ 16)) as [Hfit|Hfit].
  2: { eexists _, _; split; [done|]. split; [done|]. lia. }
  eexists _, _; split; [done|]. split; [|done]. intros _. split; [done|]. rewrite ao_record_wire by done.
  rewrite as_ref_write_octets by (rewrite Er, !length_app, length_to_be_bytes, ao_header_length, Hpre, Hpos; simpl; lia).
  rewrite Er, Hpos, length_to_be_bytes. fold a'.
  replace (fold_left msg_step cs pre ++ ao_header a' ++ [0; 0] ++ opt_wire (ao_options a'))
    with ((fold_left msg_step cs pre ++ ao_header a') ++ [0; 0] ++ opt_wire (ao_options a')) by (by rewrite <- app_assoc).
  assert (Hla : length (fold_left msg_step cs pre ++ ao_header a') = (length pre + 9)%nat)
    by (rewrite length_app, Hpre, ao_header_length; done).
  replace (length pre + 11 - 2)%nat with (length pre + 9)%nat by lia. rewrite <- Hla, take_app_length.
  rewrite <- drop_drop, drop_app_length, <- app_assoc. done.
Qed.

(** Building an OPT record at the end of a message of at least four octets, with
    options of at most 65535 octets each, never panics.  It succeeds only if all
    options together have at most 65535 octets, and on a target on which appending
    never fails it succeeds exactly then.  When it succeeds, what is appended is
    the wire format of the record the calls describe: the root name, the type OPT,
    the payload size as the class, the upper eight bits of the response code, the
    version and the DO flag as the TTL, the length of the options and the options
    in order; the lower four bits of the response code are in the header of the
    message, which is otherwise as it was.  (C27) *)
Theorem opt_builder_refines oc cs (b : B) :
  (4 <= length (as_ref b))%nat -> Forall ob_call_ok cs ->
  let a := fold_left ao_step cs ao_default in
  exists b' ok, opt_build oc (ob_run cs) b = Ret (b', ok) /\
    (ok = true -> zlen (opt_wire (ao_options a)) <= 65535 /\
       as_ref b' = fold_left msg_step cs (as_ref b) ++ record_wire (ao_record a)) /\
    (InfallibleBuilder B -> zlen (opt_wire (ao_options a)) <= 65535 -> ok = true).
Proof.
  intros Hl Hcs a. unfold opt_build, opt_header_compose, compose_slice.
  destruct (append_slice b (oh_inner opt_header_default)) as [b1|] eqn:E1.
  2: { eexists _, _; split; [done|]. split; [done|]. intros Hinf. destruct (append_slice_total b (oh_inner opt_header_default)). congruence. }
  apply as_ref_append in E1. destruct (append_slice b1 [0; 0]) as [t|] eqn:E2.
  2: { exists b1, false. unfold ob_build; cbn [ob_target]. rewrite E2. split; [done|]. split; [done|].
       intros Hinf. destruct (append_slice_total b1 [0; 0]). congruence. }
  destruct (ob_build_rep oc cs (mkOB (length (as_ref b)) b1) t (as_ref b) ao_default) as (b' & ok & E & Hok & Hinf);
    [done| |done|done|].
  { split_and!; [done|done|by_decide|]. cbn [ob_target]. apply as_ref_append in E2. by rewrite E2, E1, <- app_assoc. }
  exists b', ok. split_and!; [done| |].
  - intros Ho. destruct (Hok Ho) as [Hlt Hw]. split; [unfold a; lia|done].
  - intros Hi Hle. apply Hinf; [done|]. fold a. lia.
Qed.
End OptBuilderCorrect.

Lemma opt_builder_refines_witness :
  exists b' ok, opt_build true (ob_run [ObUdp 1232; ObRcode 16; ObDnssecOk true; ObPush 10 [1; 2]]) (replicate 12 0) = Ret (b', ok) /\
    ok = true /\ drop 12 b' = record_wire (mkArecord [[]] 41 1232 (2 ^ 24 + 2 ^ 15) [0; 10; 0; 2; 1; 2]).
Proof.
  destruct (opt_builder_refines (B:=list Z) true [ObUdp 1232; ObRcode 16; ObDnssecOk true; ObPush 10 [1; 2]] (replicate 12 0))
    as (b' & ok & E & H1 & H2); [simpl; lia|repeat constructor; by_decide|].
  exists b', ok. split; [exact E|]. assert (ok = true) as Hok by (apply H2; [apply _|by_decide]).
  split; [exact Hok|]. destruct (H1 Hok) as [_ H3]. clear H1. rename H3 into H1. change (as_ref b') with b' in H1. rewrite H1. reflexivity.
Defined.
