(* ===== verification/Options.v ===== *)
(** * The EDNS options ([src/src/base/opt/*.rs])

    One type per option: how it is made, parsed and composed, and the enum
    [AllOptData] of all of them.  Each type is shown to keep the promises of
    [OptionOk]: its parsing depends on its octets only, an option composes to the
    octets and the length it announces, and these are read back as the option. *)

From S2P Require Import Prelude Octets Serial Symbol BaseCodec CharStr Label Traits Name NameBuilder ParsedName Header Compressor MessageBuilder Message Record Scanner Opt.
From stdpp Require Import strings.
#[local] Open Scope Z_scope.

Definition OPTION_NSID : Z := 3.
Definition OPTION_DAU : Z := 5.
Definition OPTION_DHU : Z := 6.
Definition OPTION_N3U : Z := 7.
Definition OPTION_CLIENT_SUBNET : Z := 8.
Definition OPTION_EXPIRE : Z := 9.
Definition OPTION_COOKIE : Z := 10.
Definition OPTION_TCP_KEEPALIVE : Z := 11.
Definition OPTION_PADDING : Z := 12.
Definition OPTION_CHAIN : Z := 13.
Definition OPTION_KEY_TAG : Z := 14.
Definition OPTION_EXTENDED_ERROR : Z := 15.

(** [parse_option] of the types with a code of their own. *)
Definition parse_gated {D P} (own : Z) (parse : P -> result (D * P) ParseError) (code : Z) (p : P)
    : result (option D * P) ParseError :=
  if code =? own then let? (d, p) := parse p in Ok (Some d, p) else Ok (None, p).

(** ** NSID and padding *)

Record Nsid := mkNsid { nsid_octets : list Z }.

Definition nsid_from_octets (octets : list Z) : result Nsid LongOptData :=
  let? _ := long_opt_check_len (zlen octets) in Ok (mkNsid octets).

Definition nsid_empty : Nsid := mkNsid [].

Record Padding := mkPadding { padding_octets : list Z }.

Definition padding_from_octets (octets : list Z) : result Padding LongOptData :=
  let? _ := long_opt_check_len (zlen octets) in Ok (mkPadding octets).

(** The octets of the whole option, their number checked first. *)
Definition parse_checked {P} `{OctetsParser P} (check : Z -> result unit ParseError) (p : P)
    : result (list Z * P) ParseError :=
  let len := p_remaining p in
  let? _ := check (Z.of_nat len) in
  short (p_parse_octets p len).

Definition check_long_opt (len : Z) : result unit ParseError := map_err parse_long_opt (long_opt_check_len len).

Definition nsid_parse {P} `{OctetsParser P} (p : P) : result (Nsid * P) ParseError :=
  let? (octets, p) := parse_checked check_long_opt p in Ok (mkNsid octets, p).

Definition padding_parse {P} `{OctetsParser P} (p : P) : result (Padding * P) ParseError :=
  let? (octets, p) := parse_checked check_long_opt p in Ok (mkPadding octets, p).

Definition nsid_compose_len (d : Nsid) : outcome Z := expect_u16 (zlen (nsid_octets d)).
Definition nsid_compose_option {B} `{OctetsBuilder B} (d : Nsid) : pusher B := push_compose (compose_slice (nsid_octets d)).
Definition padding_compose_len (d : Padding) : outcome Z := expect_u16 (zlen (padding_octets d)).
Definition padding_compose_option {B} `{OctetsBuilder B} (d : Padding) : pusher B := push_compose (compose_slice (padding_octets d)).

(** [OptBuilder::padding]. *)
Definition ob_padding {B} `{Composer B} (len : Z) : ob_op B :=
  ob_push_raw_option OPTION_PADDING len (push_compose (compose_each u8_compose (replicate (Z.to_nat len) 0))).

(** ** Key tags *)

Record KeyTag := mkKeyTag { key_tag_octets : list Z }.

Definition key_tag_check_len (len : Z) : result unit ParseError :=
  if 65535 <? len then Err (parse_form_error "long edns-key-tag option")
  else if len mod 2 =? 1 then Err (parse_form_error "invalid edns-key-tag option length")
  else Ok ().

Definition key_tag_from_octets (octets : list Z) : result KeyTag ParseError :=
  let? _ := key_tag_check_len (zlen octets) in Ok (mkKeyTag octets).

Definition key_tag_parse {P} `{OctetsParser P} (p : P) : result (KeyTag * P) ParseError :=
  let? (octets, p) := parse_checked key_tag_check_len p in Ok (mkKeyTag octets, p).

Definition key_tag_compose_len (d : KeyTag) : outcome Z := expect_u16 (zlen (key_tag_octets d)).
Definition key_tag_compose_option {B} `{OctetsBuilder B} (d : KeyTag) : pusher B := push_compose (compose_slice (key_tag_octets d)).

(** [KeyTagIter::next]. *)
Definition key_tag_next (s : list Z) : option (Z * list Z) :=
  if (length s <? 2)%nat then None else Some (from_be_bytes (take 2 s) 0, drop 2 s).

(** ** Understood algorithms *)

(** [Understood<Variant, Octs>]: DAU, DHU and N3U. *)
Inductive Variant := DauVariant | DhuVariant | N3uVariant.

Record Understood := mkUnderstood { understood_octets : list Z }.

Definition understood_check_slice (slice : list Z) : result unit ParseError :=
  let? _ := map_err parse_long_opt (long_opt_check_len (zlen slice)) in
  if negb (zlen slice mod 2 =? 0) then Err (parse_form_error "invalid understood data") else Ok ().

Definition understood_from_octets (octets : list Z) : result Understood ParseError :=
  let? _ := understood_check_slice octets in Ok (mkUnderstood octets).

(** [from_sec_algs] with a builder that cannot fail. *)
Definition understood_from_sec_algs (sec_algs : list Z) : result Understood BuildDataError :=
  let octets := concat (map (fun item => [item]) sec_algs) in
  match long_opt_check_len (zlen octets) with Err _ => Err BdLongOptData | Ok _ => Ok (mkUnderstood octets) end.

Definition understood_parse {P} `{OctetsParser P} (p : P) : result (Understood * P) ParseError :=
  let? (octets, p) := short (p_parse_octets p (p_remaining p)) in
  let? d := understood_from_octets octets in Ok (d, p).

Definition understood_compose_len (d : Understood) : outcome Z := expect_u16 (zlen (understood_octets d)).
Definition understood_compose_option {B} `{OctetsBuilder B} (d : Understood) : pusher B :=
  push_compose (compose_slice (understood_octets d)).

(** [SecAlgsIter::next]. *)
Definition sec_algs_next (s : list Z) : option (Z * list Z) := match s with x :: s' => Some (x, s') | [] => None end.

(** ** Expire and TCP keepalive *)

Record Expire := mkExpire { expire_value : option Z }.

Definition expire_parse {P} `{OctetsParser P} (p : P) : result (Expire * P) ParseError :=
  if (p_remaining p =? 0)%nat then Ok (mkExpire None, p)
  else let? (res, p) := short (p_parse_u32_be p) in Ok (mkExpire (Some res), p).

Definition expire_compose_len (d : Expire) : outcome Z := Ret (match expire_value d with Some _ => 4 | None => 0 end).
Definition expire_compose_option {B} `{OctetsBuilder B} (d : Expire) : pusher B :=
  push_compose (match expire_value d with Some v => u32_compose v | None => compose_ok end).

(** [IdleTimeout] is a number of units of 100 milliseconds. *)
Record TcpKeepalive := mkKeepalive { keepalive_timeout : option Z }.

Definition keepalive_parse {P} `{OctetsParser P} (p : P) : result (TcpKeepalive * P) ParseError :=
  if (p_remaining p =? 0)%nat then Ok (mkKeepalive None, p)
  else let? (v, p) := short (p_parse_u16_be p) in Ok (mkKeepalive (Some v), p).

Definition keepalive_compose_len (d : TcpKeepalive) : outcome Z := Ret (match keepalive_timeout d with Some _ => 2 | None => 0 end).
Definition keepalive_compose_option {B} `{OctetsBuilder B} (d : TcpKeepalive) : pusher B :=
  push_compose (match keepalive_timeout d with Some v => u16_compose v | None => compose_ok end).

(** [TryFrom<Duration> for IdleTimeout] on whole seconds in 64 bits and the
    milliseconds beyond them; the addition is not checked. *)
Definition idle_try_from (overflow_checks : bool) (secs millis : Z) : outcome (result Z unit) :=
  if 2 ^ 64 <=? secs * 10 then Ret (Err ())
  else
    let! v := uint_add overflow_checks 64 (secs * 10) (millis / 100) in
    Ret (if v <? 2 ^ 16 then Ok v else Err ()).

(** [From<IdleTimeout> for Duration], in milliseconds. *)
Definition idle_into_millis (v : Z) : Z := v * 100.

(** ** Extended errors *)

(** The text is valid UTF-8, or kept as octets. *)
Record ExtendedError := mkExtendedError { ee_code : Z; ee_text : option (result (list Z) (list Z)) }.

Definition ee_new (code : Z) (text : option (list Z)) : result ExtendedError LongOptData :=
  match text with
  | Some text => let? _ := long_opt_check_len (zlen text + 2) in Ok (mkExtendedError code (Some (Ok text)))
  | None => Ok (mkExtendedError code None)
  end.

Definition ee_text_slice (d : ExtendedError) : option (list Z) :=
  match ee_text d with Some (Ok text) => Some text | Some (Err text) => Some text | None => None end.

Definition ee_set_text (text : list Z) (d : ExtendedError) : ExtendedError := mkExtendedError (ee_code d) (Some (Ok text)).

Definition ee_is_private (d : ExtendedError) : bool := 49152 <=? ee_code d.

(** [Str::from_utf8(octets).map_err(|err| err.into_octets())]. *)
Definition str_or_octets (s : list Z) : result (list Z) (list Z) := match from_utf8 s with Some _ => Ok s | None => Err s end.

Definition ee_parse {P} `{OctetsParser P} (p : P) : result (ExtendedError * P) ParseError :=
  let? (code, p) := short (p_parse_u16_be p) in
  if (p_remaining p =? 0)%nat then Ok (mkExtendedError code None, p)
  else let? (text, p) := short (p_parse_octets p (p_remaining p)) in
       Ok (mkExtendedError code (Some (str_or_octets text)), p).

Definition ee_compose_len (d : ExtendedError) : outcome Z :=
  match ee_text_slice d with Some text => expect_u16 (zlen text + 2) | None => Ret 2 end.

Definition ee_compose_option {B} `{OctetsBuilder B} (d : ExtendedError) : pusher B :=
  push_compose (compose_seq (u16_compose (ee_code d))
    (match ee_text_slice d with Some text => compose_slice text | None => compose_ok end)).

(** [PartialEq]. *)
Definition ee_eq (a b : ExtendedError) : bool :=
  bool_decide (ee_code a = ee_code b) && bool_decide (ee_text_slice a = ee_text_slice b).

(** ** Cookies *)

Record Cookie := mkCookie { cookie_client : list Z; cookie_server : option (list Z) }.

Definition client_cookie_parse {P} `{OctetsParser P} (p : P) : result (list Z * P) ParseError := short (p_parse_octets p 8).

Definition server_cookie_from_octets (slice : list Z) : outcome (list Z) :=
  if (8 <=? length slice)%nat && (length slice <=? 32)%nat then Ret slice else Panic.

Definition server_cookie_parse {P} `{OctetsParser P} (p : P) : result (list Z * P) ParseError :=
  if (p_remaining p <? 8)%nat then Err (parse_form_error "short server cookie")
  else if (32 <? p_remaining p)%nat then Err (parse_form_error "long server cookie")
  else short (p_parse_octets p (p_remaining p)).

Definition server_cookie_parse_opt {P} `{OctetsParser P} (p : P) : result (option (list Z) * P) ParseError :=
  if (0 <? p_remaining p)%nat then let? (s, p) := server_cookie_parse p in Ok (Some s, p) else Ok (None, p).

Definition cookie_parse {P} `{OctetsParser P} (p : P) : result (Cookie * P) ParseError :=
  let? (client, p) := client_cookie_parse p in
  let? (server, p) := server_cookie_parse_opt p in
  Ok (mkCookie client server, p).

Definition cookie_compose_len (d : Cookie) : outcome Z :=
  match cookie_server d with
  | Some server => let! len := expect_u16 (zlen server) in if 8 + len <? 2 ^ 16 then Ret (8 + len) else Panic
  | None => Ret 8
  end.

Definition cookie_compose_option {B} `{OctetsBuilder B} (d : Cookie) : pusher B :=
  push_compose (compose_seq (compose_slice (cookie_client d))
    (match cookie_server d with Some server => compose_slice server | None => compose_ok end)).

(** The octets of an address. *)
Definition ip_octets (addr : IpAddr) : list Z := match addr with IpV4 a b c d => [a; b; c; d] | IpV6 octets => octets end.

(** [StandardServerCookie] is 16 octets: version, reserved, timestamp and hash. *)
Section StandardCookie.
(** SipHash-2-4 of the key and the octets written to the hasher, as octets in
    little-endian order. *)
Context (siphash24 : list Z -> list Z -> list Z).

Definition std_new (version : Z) (reserved : list Z) (timestamp : Z) (hash : list Z) : list Z :=
  [version] ++ reserved ++ to_be_bytes 4 timestamp ++ hash.

Definition std_version (c : list Z) : Z := octet_at c 0.
Definition std_reserved (c : list Z) : list Z := take 3 (drop 1 c).
Definition std_timestamp (c : list Z) : Z := from_be_bytes (take 4 (drop 4 c)) 0.
Definition std_hash (c : list Z) : list Z := drop 8 c.
Definition std_set_hash (hash c : list Z) : list Z := take 8 c ++ hash.

Definition std_calculate_hash (c client : list Z) (client_ip : IpAddr) (secret : list Z) : list Z :=
  siphash24 secret (client ++ take 8 c ++ ip_octets client_ip).

Definition std_calculate (client : list Z) (timestamp : Z) (client_ip : IpAddr) (secret : list Z) : list Z :=
  let res := std_new 1 [0; 0; 0] timestamp (replicate 8 0) in
  std_set_hash (std_calculate_hash res client client_ip secret) res.

Definition std_check_hash (c client : list Z) (client_ip : IpAddr) (secret : list Z) : bool :=
  bool_decide (std_calculate_hash c client client_ip secret = std_hash c).

(** [ServerCookie::try_to_standard]. *)
Definition try_to_standard (server : list Z) : option (list Z) := if (length server =? 16)%nat then Some server else None.

Definition check_server_hash (d : Cookie) (client_ip : IpAddr) (secret : list Z) (timestamp_ok : Z -> bool) : bool :=
  match cookie_server d with
  | None => false
  | Some server =>
      match try_to_standard server with
      | None => false
      | Some server => if timestamp_ok (std_timestamp server) then std_check_hash server (cookie_client d) client_ip secret else false
      end
  end.

(** [create_response]; the conversion of the standard cookie panics on a wrong length. *)
Definition create_response (d : Cookie) (timestamp : Z) (client_ip : IpAddr) (secret : list Z) : outcome Cookie :=
  let! server := server_cookie_from_octets (std_calculate (cookie_client d) timestamp client_ip secret) in
  Ret (mkCookie (cookie_client d) (Some server)).

(** A server cookie made for a client is accepted from the same address under the
    same secret as long as its timestamp is, and the timestamp is the one it was
    made with. *)
Theorem cookie_response_checks d timestamp client_ip secret timestamp_ok :
  (forall key data, length (siphash24 key data) = 8%nat) -> is_u32 timestamp ->
  exists r, create_response d timestamp client_ip secret = Ret r /\ cookie_client r = cookie_client d /\
    check_server_hash r client_ip secret timestamp_ok = timestamp_ok timestamp.
Proof.
  intros Hh Ht. unfold create_response, server_cookie_from_octets.
  set (c := std_calculate _ _ _ _).
  assert (Hc : exists h, c = std_new 1 [0; 0; 0] timestamp h /\ length h = 8%nat /\
    h = siphash24 secret (cookie_client d ++ take 8 c ++ ip_octets client_ip)).
  { eexists. split_and!; [reflexivity|apply Hh|reflexivity]. }
  destruct Hc as (h & Ec & Hl & Eh).
  assert (L : length c = 16%nat) by (rewrite Ec; unfold std_new; rewrite !length_app, length_to_be_bytes, Hl; done).
  rewrite L. cbn [Nat.leb andb]. eexists; split_and!; [done|done|].
  unfold check_server_hash, try_to_standard; cbn [cookie_server cookie_client]. rewrite L. cbn [Nat.eqb].
  assert (Ets : std_timestamp c = timestamp).
  { rewrite Ec. unfold std_timestamp, std_new. cbn [app drop].
    rewrite drop_0, take_app_length' by (by rewrite length_to_be_bytes). rewrite from_to_be_bytes; [lia|exact Ht]. }
  rewrite Ets. destruct (timestamp_ok timestamp); [|done]. unfold std_check_hash. apply bool_decide_eq_true_2.
  unfold std_calculate_hash. rewrite <- Eh, Ec. unfold std_hash, std_new. by cbn [app drop to_be_bytes].
Qed.
End StandardCookie.

(** ** Client subnets *)

Record ClientSubnet := mkSubnet { subnet_source : Z; subnet_scope : Z; subnet_addr : IpAddr }.

Definition prefix_bytes (bits : Z) : Z := (bits + 7) / 8.

(** [u8::trailing_zeros]. *)
Fixpoint trailing_zeros_from (fuel : nat) (b i : Z) : Z :=
  match fuel with O => i | S fuel' => if Z.testbit b i then i else trailing_zeros_from fuel' b (i + 1) end.
Definition trailing_zeros (b : Z) : Z := trailing_zeros_from 8 b 0.

(** The [while] loop of [apply_bit_mask] over the octets behind the mask. *)
Fixpoint clear_octets (s : list Z) : list Z * bool :=
  match s with
  | [] => ([], false)
  | b :: s' => let '(t, m) := clear_octets s' in (0 :: t, negb (b =? 0) || m)
  end.

Definition apply_bit_mask (buf : list Z) (mask : Z) : list Z * bool :=
  let p := Z.to_nat (mask / 8) in
  if (length buf <=? p)%nat then (buf, false)
  else
    let bits := mask mod 8 in
    let '(buf, p, modified) :=
      if negb (bits =? 0) then
        let b := octet_at buf p in
        if trailing_zeros b <? 8 - bits
        then (<[p := Z.land b (as_u8 (Z.shiftl 0xff (8 - bits)))]> buf, S p, true)
        else (buf, S p, false)
      else (buf, p, false) in
    let '(rest, m) := clear_octets (drop p buf) in
    (take p buf ++ rest, modified || m).

Definition ip_with_octets (addr : IpAddr) (octets : list Z) : IpAddr :=
  match addr with
  | IpV4 _ _ _ _ => IpV4 (octet_at octets 0) (octet_at octets 1) (octet_at octets 2) (octet_at octets 3)
  | IpV6 _ => IpV6 octets
  end.

Definition addr_apply_mask (addr : IpAddr) (len : Z) : IpAddr * bool :=
  let '(array, m) := apply_bit_mask (ip_octets addr) len in (ip_with_octets addr array, m).

Definition ip_bits (addr : IpAddr) : Z := match addr with IpV4 _ _ _ _ => 32 | IpV6 _ => 128 end.

Definition normalize_prefix_len (addr : IpAddr) (len : Z) : Z := Z.min len (ip_bits addr).

Definition subnet_new (source_prefix_len scope_prefix_len : Z) (addr : IpAddr) : ClientSubnet :=
  let source_prefix_len := normalize_prefix_len addr source_prefix_len in
  let scope_prefix_len := normalize_prefix_len addr scope_prefix_len in
  mkSubnet source_prefix_len scope_prefix_len (addr_apply_mask addr source_prefix_len).1.

Definition ERR_ADDR_LEN : ParseError := parse_form_error "invalid address length in client subnet option".

(** The octets of the address, filled up with zeros. *)
Definition subnet_parse_buf {P} `{OctetsParser P} (size : nat) (prefix : nat) (p : P) : result (list Z * P) ParseError :=
  if (size <? prefix)%nat then Err ERR_ADDR_LEN
  else
    let? (buf, p) := map_err (fun _ => ERR_ADDR_LEN) (short (p_parse_octets p prefix)) in
    if negb (p_remaining p =? 0)%nat then Err ERR_ADDR_LEN else Ok (buf ++ replicate (size - prefix) 0, p).

Definition subnet_parse {P} `{OctetsParser P} (p : P) : result (ClientSubnet * P) ParseError :=
  let? (family, p) := short (p_parse_u16_be p) in
  let? (source_prefix_len, p) := short (p_parse_u8 p) in
  let? (scope_prefix_len, p) := short (p_parse_u8 p) in
  let prefix := Z.to_nat (prefix_bytes source_prefix_len) in
  let? (addr, p) :=
    if family =? 1 then let? (buf, p) := subnet_parse_buf 4 prefix p in Ok (ip_with_octets (IpV4 0 0 0 0) buf, p)
    else if family =? 2 then let? (buf, p) := subnet_parse_buf 16 prefix p in Ok (IpV6 buf, p)
    else Err (parse_form_error "invalid client subnet address family") in
  let '(addr, modified) := addr_apply_mask addr source_prefix_len in
  if modified then Err ERR_ADDR_LEN else Ok (mkSubnet source_prefix_len scope_prefix_len addr, p).

Definition subnet_compose_len (d : ClientSubnet) : outcome Z :=
  let! n := expect_u16 (prefix_bytes (subnet_source d)) in if n + 4 <? 2 ^ 16 then Ret (n + 4) else Panic.

Definition subnet_compose_option {B} `{OctetsBuilder B} (d : ClientSubnet) : pusher B :=
  let n := Z.to_nat (prefix_bytes (subnet_source d)) in
  let array := ip_octets (subnet_addr d) in
  push_seq
    (push_compose (compose_seq (u16_compose (match subnet_addr d with IpV4 _ _ _ _ => 1 | IpV6 _ => 2 end))
      (compose_seq (u8_compose (subnet_source d)) (u8_compose (subnet_scope d)))))
    (fun b => if (n <=? length array)%nat then Ret (compose_slice (take n array) b) else Panic).

(** ** Chain queries *)

Record ChainOption := mkChainOption { chain_start : Name }.

Definition chain_opt_parse {P} `{OctetsParser P} (p : P) : result (ChainOption * P) ParseError :=
  let? (n, p) := name_parse p in Ok (mkChainOption n, p).

Definition chain_opt_compose_len (d : ChainOption) : outcome Z := compose_len (chain_start d).
Definition chain_opt_compose_option {B} `{OctetsBuilder B} (d : ChainOption) : pusher B := name_compose (chain_start d).

(** ** All options *)

Inductive AllOptData :=
  | AllDau (d : Understood) | AllDhu (d : Understood) | AllN3u (d : Understood) | AllChain (d : ChainOption)
  | AllCookie (d : Cookie) | AllExpire (d : Expire) | AllExtendedError (d : ExtendedError) | AllTcpKeepalive (d : TcpKeepalive)
  | AllKeyTag (d : KeyTag) | AllNsid (d : Nsid) | AllPadding (d : Padding) | AllClientSubnet (d : ClientSubnet)
  | AllOther (d : UnknownOptData).

#[export] Instance all_opt_data : OptData AllOptData := fun d =>
  match d with
  | AllDau _ => OPTION_DAU | AllDhu _ => OPTION_DHU | AllN3u _ => OPTION_N3U | AllChain _ => OPTION_CHAIN
  | AllCookie _ => OPTION_COOKIE | AllExpire _ => OPTION_EXPIRE | AllExtendedError _ => OPTION_EXTENDED_ERROR
  | AllTcpKeepalive _ => OPTION_TCP_KEEPALIVE | AllKeyTag _ => OPTION_KEY_TAG | AllNsid _ => OPTION_NSID
  | AllPadding _ => OPTION_PADDING | AllClientSubnet _ => OPTION_CLIENT_SUBNET | AllOther d => uo_code d
  end.

Definition all_some {D P} (f : D -> AllOptData) (r : result (D * P) ParseError) : result (option AllOptData * P) ParseError :=
  let? (d, p) := r in Ok (Some (f d), p).

#[export] Instance all_opt_parse {P} `{OctetsParser P} : ParseOptData AllOptData P := fun code p =>
  if code =? OPTION_DAU then all_some AllDau (understood_parse p)
  else if code =? OPTION_DHU then all_some AllDhu (understood_parse p)
  else if code =? OPTION_N3U then all_some AllN3u (understood_parse p)
  else if code =? OPTION_CHAIN then all_some AllChain (chain_opt_parse p)
  else if code =? OPTION_COOKIE then all_some AllCookie (cookie_parse p)
  else if code =? OPTION_EXPIRE then all_some AllExpire (expire_parse p)
  else if code =? OPTION_EXTENDED_ERROR then all_some AllExtendedError (ee_parse p)
  else if code =? OPTION_TCP_KEEPALIVE then all_some AllTcpKeepalive (keepalive_parse p)
  else if code =? OPTION_KEY_TAG then all_some AllKeyTag (key_tag_parse p)
  else if code =? OPTION_NSID then all_some AllNsid (nsid_parse p)
  else if code =? OPTION_PADDING then all_some AllPadding (padding_parse p)
  else if code =? OPTION_CLIENT_SUBNET then all_some AllClientSubnet (subnet_parse p)
  else let? (d, p) := (od_parse_option code p : result (option UnknownOptData * P) ParseError) in
       Ok (option_map AllOther d, p).

Definition all_compose_len (d : AllOptData) : outcome Z :=
  match d with
  | AllDau d | AllDhu d | AllN3u d => understood_compose_len d
  | AllChain d => chain_opt_compose_len d
  | AllCookie d => cookie_compose_len d
  | AllExpire d => expire_compose_len d
  | AllExtendedError d => ee_compose_len d
  | AllTcpKeepalive d => keepalive_compose_len d
  | AllKeyTag d => key_tag_compose_len d
  | AllNsid d => nsid_compose_len d
  | AllPadding d => padding_compose_len d
  | AllClientSubnet d => subnet_compose_len d
  | AllOther d => expect_u16 (zlen (uo_data d))
  end.

Definition all_compose_option {B} `{OctetsBuilder B} (d : AllOptData) : pusher B :=
  match d with
  | AllDau d | AllDhu d | AllN3u d => understood_compose_option d
  | AllChain d => chain_opt_compose_option d
  | AllCookie d => cookie_compose_option d
  | AllExpire d => expire_compose_option d
  | AllExtendedError d => ee_compose_option d
  | AllTcpKeepalive d => keepalive_compose_option d
  | AllKeyTag d => key_tag_compose_option d
  | AllNsid d => nsid_compose_option d
  | AllPadding d => padding_compose_option d
  | AllClientSubnet d => subnet_compose_option d
  | AllOther d => push_compose (compose_slice (uo_data d))
  end.

#[export] Instance all_opt_compose {B} `{OctetsBuilder B} : ComposeOptData AllOptData B := {|
  od_compose_len := all_compose_len;
  od_compose_option := all_compose_option
|}.

(** The implementations for the types on their own. *)
#[export] Instance nsid_opt_parse {P} `{OctetsParser P} : ParseOptData Nsid P := parse_gated OPTION_NSID nsid_parse.
#[export] Instance padding_opt_parse {P} `{OctetsParser P} : ParseOptData Padding P := parse_gated OPTION_PADDING padding_parse.
#[export] Instance key_tag_opt_parse {P} `{OctetsParser P} : ParseOptData KeyTag P := parse_gated OPTION_KEY_TAG key_tag_parse.
#[export] Instance expire_opt_parse {P} `{OctetsParser P} : ParseOptData Expire P := parse_gated OPTION_EXPIRE expire_parse.
#[export] Instance keepalive_opt_parse {P} `{OctetsParser P} : ParseOptData TcpKeepalive P :=
  parse_gated OPTION_TCP_KEEPALIVE keepalive_parse.
#[export] Instance ee_opt_parse {P} `{OctetsParser P} : ParseOptData ExtendedError P := parse_gated OPTION_EXTENDED_ERROR ee_parse.
#[export] Instance cookie_opt_parse {P} `{OctetsParser P} : ParseOptData Cookie P := parse_gated OPTION_COOKIE cookie_parse.
#[export] Instance subnet_opt_parse {P} `{OctetsParser P} : ParseOptData ClientSubnet P :=
  parse_gated OPTION_CLIENT_SUBNET subnet_parse.
#[export] Instance chain_opt_parse_data {P} `{OctetsParser P} : ParseOptData ChainOption P := parse_gated OPTION_CHAIN chain_opt_parse.

(** ** What every option type promises *)

Section Promises.
Context {P : Type} `{OctetsParserOk P} {B : Type} `{OctetsBuilderOk B}.

Record OptionOk {D} (parse : P -> result (D * P) ParseError) (rd : list Z -> result (D * list Z) ParseError)
    (len : D -> outcome Z) (compose : D -> pusher B) (ok : D -> Prop) (enc : D -> list Z) : Prop := {
  oo_reads : Reads parse rd;
  oo_roundtrip d : ok d -> rd (enc d) = Ok (d, []);
  oo_wf d : ok d -> wf_octets (enc d);
  oo_len d : ok d -> len d = Ret (zlen (enc d)) /\ is_u16 (zlen (enc d));
  oo_appends d : ok d -> Appends (compose d) (enc d);
  oo_succeeds `{!InfallibleBuilder B} d : ok d -> Succeeds (compose d)
}.

Lemma compose_succeeds `{!InfallibleBuilder B} (f : composer B) : NeverFails f -> Succeeds (push_compose f).
Proof. intros Hf b. unfold push_compose. destruct (Hf b) as [b' ->]. by exists b'. Qed.

(** Options that are their octets. *)
Definition octets_ok (check : Z -> result unit ParseError) (s : list Z) : Prop := wf_octets s /\ zlen s <= 65535 /\ check (zlen s) = Ok ().

Definition rd_checked {D} (mk : list Z -> D) (check : Z -> result unit ParseError) (s : list Z) : result (D * list Z) ParseError :=
  let? _ := check (zlen s) in Ok (mk s, []).

Lemma Reads_checked check : Reads (P:=P) (parse_checked check) (fun s => let? _ := check (zlen s) in Ok (s, [])).
Proof.
  intros p. unfold parse_checked, zlen. rewrite p_rest_length. destruct (check (Z.of_nat (p_remaining p))); [|done]. apply Reads_all.
Qed.

Lemma octets_option_ok {D} (mk : list Z -> D) (get : D -> list Z) check (parse : P -> result (D * P) ParseError) :
  (forall d, mk (get d) = d) -> Reads parse (rd_checked mk check) ->
  OptionOk parse (rd_checked mk check) (fun d => expect_u16 (zlen (get d))) (fun d => push_compose (compose_slice (get d)))
    (fun d => octets_ok check (get d)) get.
Proof.
  intros Hmk Hr. split; [done|..].
  - intros d (_ & _ & Hc). unfold rd_checked. by rewrite Hc, Hmk.
  - by intros d (Hw & _).
  - intros d (_ & Hl & _). apply expect_u16_ok. unfold zlen in *. lia.
  - intros d _. apply Appends_compose, compose_slice_spec.
  - intros ? d _. apply compose_succeeds, compose_slice_total.
Qed.

Lemma check_long_ok (s : list Z) : zlen s <= 65535 -> check_long_opt (zlen s) = Ok ().
Proof. intros Hl. unfold check_long_opt, long_opt_check_len. by destruct (Z.ltb_spec 65535 (zlen s)); [lia|]. Qed.

Lemma nsid_option_ok :
  OptionOk nsid_parse (rd_checked mkNsid check_long_opt) nsid_compose_len nsid_compose_option (fun d => octets_ok check_long_opt (nsid_octets d)) nsid_octets.
Proof.
  apply octets_option_ok; [by intros []|]. unfold nsid_parse. eapply Reads_ext; [|exact (Reads_map _ _ mkNsid (Reads_checked _))].
  intros s. unfold rd_checked. cbv beta. by destruct (check_long_opt (zlen s)).
Qed.

Lemma padding_option_ok :
  OptionOk padding_parse (rd_checked mkPadding check_long_opt) padding_compose_len padding_compose_option
    (fun d => octets_ok check_long_opt (padding_octets d)) padding_octets.
Proof.
  apply octets_option_ok; [by intros []|]. unfold padding_parse. eapply Reads_ext; [|exact (Reads_map _ _ mkPadding (Reads_checked _))].
  intros s. unfold rd_checked. cbv beta. by destruct (check_long_opt (zlen s)).
Qed.

Lemma key_tag_option_ok :
  OptionOk key_tag_parse (rd_checked mkKeyTag key_tag_check_len) key_tag_compose_len key_tag_compose_option
    (fun d => octets_ok key_tag_check_len (key_tag_octets d)) key_tag_octets.
Proof.
  apply octets_option_ok; [by intros []|]. unfold key_tag_parse. eapply Reads_ext; [|exact (Reads_map _ _ mkKeyTag (Reads_checked _))].
  intros s. unfold rd_checked. cbv beta. by destruct (key_tag_check_len (zlen s)).
Qed.

Definition understood_check_len (len : Z) : result unit ParseError :=
  let? _ := map_err parse_long_opt (long_opt_check_len len) in
  if negb (len mod 2 =? 0) then Err (parse_form_error "invalid understood data") else Ok ().

Lemma understood_option_ok :
  OptionOk understood_parse (rd_checked mkUnderstood understood_check_len) understood_compose_len understood_compose_option
    (fun d => octets_ok understood_check_len (understood_octets d)) understood_octets.
Proof.
  apply octets_option_ok; [by intros []|]. intros p. unfold understood_parse. pose proof (Reads_all p) as Hp. cbv beta in Hp.
  destruct (short (p_parse_octets p (p_remaining p))) as [[s p']|e]; [|done]. destruct Hp as [Hp Hs].
  apply Ok_pair_inj in Hp as [-> R]. unfold rd_checked, understood_from_octets, understood_check_slice, understood_check_len.
  destruct (map_err parse_long_opt (long_opt_check_len (zlen s))); [|done]. destruct (negb (zlen s mod 2 =? 0)); [done|].
  by rewrite <- R.
Qed.

(** An optional integer that is the whole option. *)
Definition rd_opt_int {D} (mk : option Z -> D) (rd : list Z -> result (Z * list Z) ParseError) (s : list Z) : result (D * list Z) ParseError :=
  if (length s =? 0)%nat then Ok (mk None, s) else let? (v, s) := rd s in Ok (mk (Some v), s).

Lemma expire_option_ok :
  OptionOk expire_parse (rd_opt_int mkExpire rd_u32) expire_compose_len expire_compose_option
    (fun d => from_option is_u32 True (expire_value d)) (fun d => match expire_value d with Some v => to_be_bytes 4 v | None => [] end).
Proof.
  split.
  - apply (Reads_remaining (fun n => n =? 0)%nat); [apply Reads_ret|]. apply (Reads_map _ _ (fun v => mkExpire (Some v))), Reads_u32.
  - intros [[v|]] Hv; [|done]. cbn in Hv. unfold rd_opt_int; cbn [expire_value]. rewrite length_to_be_bytes. cbn [Nat.eqb].
    rewrite <- (app_nil_r (to_be_bytes 4 v)). by rewrite rd_u32_app.
  - intros [[v|]] _; [apply to_be_bytes_wf|constructor].
  - intros [[v|]] _; cbn; split; try done; unfold is_u16; lia.
  - intros [[v|]] _; apply Appends_compose; [apply compose_slice_spec|apply compose_ok_spec].
  - intros ? [[v|]] _; apply compose_succeeds; [apply compose_slice_total|]. by intros b; exists b.
Qed.

Lemma keepalive_option_ok :
  OptionOk keepalive_parse (rd_opt_int mkKeepalive rd_u16) keepalive_compose_len keepalive_compose_option
    (fun d => from_option is_u16 True (keepalive_timeout d)) (fun d => match keepalive_timeout d with Some v => to_be_bytes 2 v | None => [] end).
Proof.
  split.
  - apply (Reads_remaining (fun n => n =? 0)%nat); [apply Reads_ret|]. apply (Reads_map _ _ (fun v => mkKeepalive (Some v))), Reads_u16.
  - intros [[v|]] Hv; [|done]. cbn in Hv. unfold rd_opt_int; cbn [keepalive_timeout]. rewrite length_to_be_bytes. cbn [Nat.eqb].
    rewrite <- (app_nil_r (to_be_bytes 2 v)). by rewrite rd_u16_app.
  - intros [[v|]] _; [apply to_be_bytes_wf|constructor].
  - intros [[v|]] _; cbn; split; try done; unfold is_u16; lia.
  - intros [[v|]] _; apply Appends_compose; [apply compose_slice_spec|apply compose_ok_spec].
  - intros ? [[v|]] _; apply compose_succeeds; [apply compose_slice_total|]. by intros b; exists b.
Qed.

(** An extended error whose text, if any, is not empty and marked as what it is. *)
Definition ee_ok (d : ExtendedError) : Prop :=
  is_u16 (ee_code d) /\
  match ee_text_slice d with
  | None => True
  | Some text => wf_octets text /\ zlen text + 2 <= 65535 /\ text <> [] /\ ee_text d = Some (str_or_octets text)
  end.

Definition ee_enc (d : ExtendedError) : list Z := to_be_bytes 2 (ee_code d) ++ default [] (ee_text_slice d).

Definition rd_ee (s : list Z) : result (ExtendedError * list Z) ParseError :=
  let? (code, s) := rd_u16 s in
  if (length s =? 0)%nat then Ok (mkExtendedError code None, s)
  else let? (text, s) := rd_all s in Ok (mkExtendedError code (Some (str_or_octets text)), s).

Lemma ee_option_ok : OptionOk ee_parse rd_ee ee_compose_len ee_compose_option ee_ok ee_enc.
Proof.
  split.
  - unfold ee_parse, rd_ee. apply Reads_bind; [apply Reads_u16|]. intros code.
    apply (Reads_remaining (fun n => n =? 0)%nat); [apply Reads_ret|].
    apply (Reads_map _ _ (fun text => mkExtendedError code (Some (str_or_octets text)))), Reads_all.
  - intros [code text] [Hc Ht]; cbn in Hc. unfold rd_ee, ee_enc; cbn [ee_code]. rewrite rd_u16_app by done.
    destruct text as [[t|t]|]; cbn in *; [| |done]; destruct Ht as (_ & _ & Hne & [= Et]); destruct t; try done; cbn; by rewrite <- Et.
  - intros d [_ Ht]. apply wf_octets_app; split; [apply to_be_bytes_wf|]. destruct (ee_text_slice d); [apply Ht|constructor].
  - intros d [Hc Ht]. unfold ee_compose_len, ee_enc. destruct (ee_text_slice d) as [t|]; [|split; [done|]; unfold is_u16, zlen; simpl; lia].
    destruct Ht as (_ & Hl & _). cbn [default from_option id].
    replace (zlen (to_be_bytes 2 (ee_code d) ++ t)) with (zlen t + 2) by (unfold zlen; rewrite length_app, length_to_be_bytes; lia).
    apply expect_u16_ok. unfold zlen in *. lia.
  - intros d _. unfold ee_compose_option, ee_enc. apply Appends_compose, compose_seq_spec; [apply compose_slice_spec|].
    destruct (ee_text_slice d); [apply compose_slice_spec|apply compose_ok_spec].
  - intros ? d _. apply compose_succeeds, compose_seq_total; [apply compose_slice_total|].
    destruct (ee_text_slice d); [apply compose_slice_total|]. by intros b; exists b.
Qed.

Definition cookie_ok (d : Cookie) : Prop :=
  wf_octets (cookie_client d) /\ length (cookie_client d) = 8%nat /\
  match cookie_server d with None => True | Some s => wf_octets s /\ (8 <= length s <= 32)%nat end.

Definition cookie_enc (d : Cookie) : list Z := cookie_client d ++ default [] (cookie_server d).

Definition rd_server_cookie (s : list Z) : result (list Z * list Z) ParseError :=
  if (length s <? 8)%nat then Err (parse_form_error "short server cookie")
  else if (32 <? length s)%nat then Err (parse_form_error "long server cookie") else rd_all s.

Definition rd_cookie (s : list Z) : result (Cookie * list Z) ParseError :=
  let? (client, s) := rd_octets 8 s in
  let? (server, s) :=
    if (0 <? length s)%nat then let? (x, s) := rd_server_cookie s in Ok (Some x, s) else Ok (None, s) in
  Ok (mkCookie client server, s).

Lemma cookie_option_ok : OptionOk cookie_parse rd_cookie cookie_compose_len cookie_compose_option cookie_ok cookie_enc.
Proof.
  split.
  - unfold cookie_parse, rd_cookie. apply Reads_bind; [apply Reads_octets|]. intros client. apply Reads_bind; [|intros; apply Reads_ret].
    apply (Reads_remaining (fun n => 0 <? n)%nat); [|apply Reads_ret]. apply (Reads_map _ _ Some).
    apply (Reads_remaining (fun n => n <? 8)%nat); [apply Reads_err|].
    apply (Reads_remaining (fun n => 32 <? n)%nat); [apply Reads_err|apply Reads_all].
  - intros [client server] (_ & Hl & Hs); cbn in *. unfold rd_cookie, cookie_enc; cbn [cookie_client cookie_server].
    rewrite <- Hl at 1. rewrite rd_octets_app. destruct server as [s|]; [|done]. destruct Hs as [_ Hs]. cbn [default from_option id].
    destruct (Nat.ltb_spec 0 (length s)); [|lia]. unfold rd_server_cookie. destruct (Nat.ltb_spec (length s) 8); [lia|].
    by destruct (Nat.ltb_spec 32 (length s)); [lia|].
  - intros d (Hw & _ & Hs). apply wf_octets_app; split; [done|]. destruct (cookie_server d); [apply Hs|constructor].
  - intros d (_ & Hl & Hs). unfold cookie_compose_len, cookie_enc, zlen. rewrite length_app, Hl.
    destruct (cookie_server d) as [s|]; cbn [default from_option id length]; [|split; [done|unfold is_u16; lia]].
    destruct Hs as [_ Hs]. destruct (expect_u16_ok (Z.of_nat (length s))) as [-> _]; [lia|].
    destruct (Z.ltb_spec (8 + Z.of_nat (length s)) (2 ^ 16)); [|lia]. rewrite Nat2Z.inj_add. split; [done|unfold is_u16; lia].
  - intros d _. apply Appends_compose, compose_seq_spec; [apply compose_slice_spec|].
    destruct (cookie_server d); [apply compose_slice_spec|apply compose_ok_spec].
  - intros ? d _. apply compose_succeeds, compose_seq_total; [apply compose_slice_total|].
    destruct (cookie_server d); [apply compose_slice_total|]. by intros b; exists b.
Qed.
End Promises.

(** ** Address masks *)

#[local] Ltac Zify.zify_post_hook ::= Z.to_euclidean_division_equations.

Lemma mask_octet b bits :
  is_u8 b -> 0 <= bits < 8 -> 0 < bits ->
  let b' := Z.land b (as_u8 (Z.shiftl 0xff (8 - bits))) in is_u8 b' /\ (trailing_zeros b' <? 8 - bits) = false.
Proof.
  revert b bits.
  assert (Hall : forall b bits, is_u8 b -> 0 <= bits < Z.of_nat 8 -> 0 < bits ->
    is_u8 (Z.land b (as_u8 (Z.shiftl 0xff (8 - bits)))) /\
    (trailing_zeros (Z.land b (as_u8 (Z.shiftl 0xff (8 - bits)))) <? 8 - bits) = false).
  { by_octets_below 8%nat. }
  intros b bits Hb Hbits. by apply Hall.
Qed.

Lemma clear_octets_false s t : clear_octets s = (t, false) -> t = s /\ s = replicate (length s) 0.
Proof.
  revert t. induction s as [|b s IH]; intros t; cbn; [by intros [= <-]|].
  destruct (clear_octets s) as [t' m]. intros [= <- Hm%orb_false_iff]. destruct Hm as [Hb ->].
  destruct (IH t' eq_refl) as [-> Es]. apply negb_false_iff, Z.eqb_eq in Hb as ->. split; [done|]. cbn. congruence.
Qed.

Lemma clear_octets_fst s : (clear_octets s).1 = replicate (length s) 0.
Proof. induction s as [|b s IH]; [done|]. cbn. destruct (clear_octets s); cbn in *. by rewrite IH. Qed.

Lemma clear_octets_zeros n : clear_octets (replicate n 0) = (replicate n 0, false).
Proof. induction n as [|n IH]; [done|]. cbn. by rewrite IH. Qed.

(** What is not changed by the mask ends with zeros behind the octets of the prefix. *)
Lemma apply_bit_mask_same buf mask buf' :
  0 <= mask <= 8 * zlen buf -> apply_bit_mask buf mask = (buf', false) ->
  buf' = buf /\ drop (Z.to_nat (prefix_bytes mask)) buf = replicate (length buf - Z.to_nat (prefix_bytes mask)) 0.
Proof.
  intros Hm. unfold apply_bit_mask, prefix_bytes. unfold zlen in Hm.
  destruct (Nat.leb_spec (length buf) (Z.to_nat (mask / 8))).
  { intros [= <-]. split; [done|]. rewrite drop_ge by lia. by replace (length buf - _)%nat with 0%nat by lia. }
  assert (Hclear : forall (s : list Z) p m r, clear_octets (drop p s) = (r, m) -> (p <= length s)%nat -> m = false ->
    take p s ++ r = s /\ drop p s = replicate (length s - p) 0).
  { intros s p m r E Hp ->. apply clear_octets_false in E as [-> E]. rewrite take_drop. split; [done|].
    by rewrite length_drop in E. }
  destruct (Z.eqb_spec (mask mod 8) 0) as [Hb|Hb]; cbn [negb].
  - destruct (clear_octets _) as [r m] eqn:E. intros [= <- ->].
    replace (Z.to_nat ((mask + 7) / 8)) with (Z.to_nat (mask / 8)) by lia. by apply (Hclear buf _ false r); [|lia|].
  - replace (Z.to_nat ((mask + 7) / 8)) with (S (Z.to_nat (mask / 8))) by lia.
    destruct (trailing_zeros _ <? _); destruct (clear_octets _) as [r m] eqn:E; [done|]. intros [= <- ->].
    by apply (Hclear buf _ false r); [|lia|].
Qed.

Lemma apply_bit_mask_wf buf mask : wf_octets buf -> wf_octets (apply_bit_mask buf mask).1 /\ length (apply_bit_mask buf mask).1 = length buf.
Proof.
  intros Hw. unfold apply_bit_mask. destruct (Nat.leb_spec (length buf) (Z.to_nat (mask / 8))) as [|Hp]; [done|].
  assert (Hz : forall n, wf_octets (replicate n 0)).
  { intros n. apply Forall_replicate. unfold is_u8. lia. }
  assert (Hgo : forall s p, wf_octets s -> length s = length buf -> (p <= length s)%nat -> forall x,
    wf_octets (let '(rest, m) := clear_octets (drop p s) in (take p s ++ rest, x || m)).1 /\
    length (let '(rest, m) := clear_octets (drop p s) in (take p s ++ rest, x || m)).1 = length buf).
  { intros s p Hs Hl Hp' x. pose proof (clear_octets_fst (drop p s)) as E. destruct (clear_octets (drop p s)) as [r m]; cbn in *. subst r.
    rewrite wf_octets_app, length_app, length_take, length_replicate, length_drop. split; [|lia]. split; [by apply wf_octets_take|apply Hz]. }
  destruct (Z.eqb_spec (mask mod 8) 0) as [Hb|Hb]; cbn [negb]; [by apply Hgo; [| |lia]|].
  destruct (trailing_zeros _ <? _); [|by apply Hgo; [| |lia]]. apply Hgo; rewrite ?length_insert; [|done|lia].
  apply Forall_insert; [done|]. apply mask_octet; [|lia|lia]. unfold octet_at.
  destruct (lookup_lt_is_Some_2 buf (Z.to_nat (mask / 8)) Hp) as [b E]. rewrite E. by apply (wf_octets_lookup _ _ _ Hw E).
Qed.

(** Masking a second time changes nothing. *)
Lemma apply_bit_mask_idemp buf mask :
  wf_octets buf -> 0 <= mask ->
  apply_bit_mask (apply_bit_mask buf mask).1 mask = ((apply_bit_mask buf mask).1, false).
Proof.
  intros Hw Hm. unfold apply_bit_mask at 2 3. destruct (Nat.leb_spec (length buf) (Z.to_nat (mask / 8))) as [Hp|Hp].
  { cbn. unfold apply_bit_mask. by destruct (Nat.leb_spec (length buf) (Z.to_nat (mask / 8))); [|lia]. }
  set (p := Z.to_nat (mask / 8)) in *.
  assert (Hgo : forall s q x, length s = length buf -> (p <= q <= length s)%nat -> q = (if mask mod 8 =? 0 then p else S p) ->
    (mask mod 8 = 0 \/ (trailing_zeros (octet_at s p) <? 8 - mask mod 8) = false) ->
    let r := (let '(rest, m) := clear_octets (drop q s) in (take q s ++ rest, x || m)).1 in
    apply_bit_mask r mask = (r, false)).
  { intros s q x Hl Hq Eq Htz. pose proof (clear_octets_fst (drop q s)) as E. destruct (clear_octets (drop q s)) as [r0 m]; cbn [fst] in *. subst r0.
    rewrite length_drop. set (r := take q s ++ replicate (length s - q) 0).
    assert (Lr : length r = length buf) by (unfold r; rewrite length_app, length_take, length_replicate; lia).
    assert (Dr : drop q r = replicate (length s - q) 0) by (unfold r; rewrite drop_app_length'; [done|rewrite length_take; lia]).
    unfold apply_bit_mask. fold p. rewrite Lr. destruct (Nat.leb_spec (length buf) p); [lia|].
    destruct (Z.eqb_spec (mask mod 8) 0) as [Hb|Hb]; cbn [negb].
    - subst q. rewrite Dr, clear_octets_zeros. cbn [orb]. f_equal. rewrite <- (take_drop p r) at 2. by rewrite Dr.
    - subst q. destruct Htz as [?|Htz]; [done|]. assert (Eo : octet_at r p = octet_at s p).
      { unfold octet_at, r. rewrite lookup_app_l by (rewrite length_take; lia). by rewrite lookup_take_lt by lia. }
      rewrite Eo, Htz, Dr, clear_octets_zeros. cbn [orb]. f_equal. rewrite <- (take_drop (S p) r) at 2. by rewrite Dr. }
  destruct (Z.eqb_spec (mask mod 8) 0) as [Hb|Hb]; cbn [negb].
  - apply Hgo; [done|lia|done|by left].
  - destruct (trailing_zeros (octet_at buf p) <? 8 - mask mod 8) eqn:Ht.
    + apply Hgo; rewrite ?length_insert; [done|lia|done|]. right. unfold octet_at. rewrite list_lookup_insert_eq by done. cbn [default from_option id].
      apply mask_octet; [|lia|lia]. destruct (lookup_lt_is_Some_2 buf p Hp) as [b E]. rewrite E. by apply (wf_octets_lookup _ _ _ Hw E).
    + apply Hgo; [done|lia|done|by right].
Qed.

(** ** Subnets, chains and all options *)

Definition subnet_ok (d : ClientSubnet) : Prop :=
  wf_addr (subnet_addr d) /\ 0 <= subnet_source d <= ip_bits (subnet_addr d) /\ is_u8 (subnet_scope d) /\
  addr_apply_mask (subnet_addr d) (subnet_source d) = (subnet_addr d, false).

Definition ip_family (addr : IpAddr) : Z := match addr with IpV4 _ _ _ _ => 1 | IpV6 _ => 2 end.

Definition subnet_enc (d : ClientSubnet) : list Z :=
  to_be_bytes 2 (ip_family (subnet_addr d)) ++ [subnet_source d; subnet_scope d] ++
  take (Z.to_nat (prefix_bytes (subnet_source d))) (ip_octets (subnet_addr d)).

Lemma ip_octets_wf addr : wf_addr addr -> wf_octets (ip_octets addr) /\ zlen (ip_octets addr) * 8 = ip_bits addr.
Proof. destruct addr as [a b c d|s]; cbn; [done|]. intros [Hl Hw]. split; [done|]. unfold zlen. lia. Qed.

Lemma ip_with_octets_id addr : ip_with_octets addr (ip_octets addr) = addr.
Proof. by destruct addr. Qed.

Lemma ip_octets_with addr s : wf_addr addr -> length s = length (ip_octets addr) -> ip_octets (ip_with_octets addr s) = s.
Proof. destruct addr as [a b c d|t]; cbn; [|done]. intros _ Hl. destruct s as [|? [|? [|? [|? [|]]]]]; done. Qed.

(** [ClientSubnet::new] makes subnets whose address has no bits set behind the prefix. *)
Lemma subnet_new_ok source scope addr :
  wf_addr addr -> is_u8 source -> is_u8 scope -> subnet_ok (subnet_new source scope addr).
Proof.
  intros Ha Hs Hc. unfold subnet_new, addr_apply_mask. destruct (ip_octets_wf addr Ha) as [Hw Hb].
  assert (0 < ip_bits addr <= 128) as Hbits by (destruct addr; cbn; lia).
  set (n := normalize_prefix_len addr source).
  assert (0 <= n <= ip_bits addr) as Hn by (unfold n, normalize_prefix_len, is_u8 in *; lia).
  pose proof (apply_bit_mask_wf (ip_octets addr) n Hw) as [Hw' Hl']. pose proof (apply_bit_mask_idemp (ip_octets addr) n Hw) as Hi.
  destruct (apply_bit_mask (ip_octets addr) n) as [buf m]; cbn [fst] in *. unfold subnet_ok; cbn [subnet_addr subnet_source subnet_scope].
  pose proof (ip_octets_with addr buf Ha Hl') as Eo. split_and!.
  - destruct addr as [a b c d|t]; cbn in *; [by rewrite Eo|]. destruct Ha as [Ha _]. split; [congruence|done].
  - lia.
  - destruct addr; cbn in *; lia.
  - unfold normalize_prefix_len, is_u8 in *. lia.
  - unfold addr_apply_mask. rewrite Eo, Hi by lia. f_equal. by destruct addr.
Qed.

Section AllPromises.
Context {P : Type} `{OctetsParserOk P} {B : Type} `{OctetsBuilderOk B}.

Definition rd_subnet_buf (size prefix : nat) (s : list Z) : result (list Z * list Z) ParseError :=
  if (size <? prefix)%nat then Err ERR_ADDR_LEN
  else let? (buf, s) := map_err (fun _ => ERR_ADDR_LEN) (rd_octets prefix s) in
       if negb (length s =? 0)%nat then Err ERR_ADDR_LEN else Ok (buf ++ replicate (size - prefix) 0, s).

Definition rd_subnet (s : list Z) : result (ClientSubnet * list Z) ParseError :=
  let? (family, s) := rd_u16 s in
  let? (source, s) := rd_u8 s in
  let? (scope, s) := rd_u8 s in
  let prefix := Z.to_nat (prefix_bytes source) in
  let? (addr, s) :=
    if family =? 1 then let? (buf, s) := rd_subnet_buf 4 prefix s in Ok (ip_with_octets (IpV4 0 0 0 0) buf, s)
    else if family =? 2 then let? (buf, s) := rd_subnet_buf 16 prefix s in Ok (IpV6 buf, s)
    else Err (parse_form_error "invalid client subnet address family") in
  let '(addr, modified) := addr_apply_mask addr source in
  if modified then Err ERR_ADDR_LEN else Ok (mkSubnet source scope addr, s).

Lemma Reads_subnet_buf size prefix : Reads (P:=P) (subnet_parse_buf size prefix) (rd_subnet_buf size prefix).
Proof.
  unfold subnet_parse_buf, rd_subnet_buf. apply Reads_if; [apply Reads_err|]. apply Reads_bind.
  - intros p. pose proof (Reads_octets prefix p) as Hp. cbv beta in Hp. destruct (short (p_parse_octets p prefix)) as [[s p']|e].
    + destruct Hp as [-> Hs]. by split.
    + by rewrite Hp.
  - intros buf. apply (Reads_remaining (fun n => negb (n =? 0)%nat)); [apply Reads_err|apply Reads_ret].
Qed.

Lemma rd_subnet_buf_enc (size n : nat) (octets : list Z) :
  length octets = size -> (n <= size)%nat -> drop n octets = replicate (size - n) 0 ->
  rd_subnet_buf size n (take n octets) = Ok (octets, []).
Proof.
  intros Hl Hn Hd. unfold rd_subnet_buf. destruct (Nat.ltb_spec size n); [lia|].
  unfold rd_octets. rewrite length_take. destruct (Nat.leb_spec n (n `min` length octets)); [|lia]. cbn [map_err].
  rewrite drop_ge by (rewrite length_take; lia). cbn [length Nat.eqb negb]. rewrite take_take, Nat.min_id, <- Hd, take_drop. done.
Qed.

Lemma subnet_option_ok : OptionOk (P:=P) (B:=B) subnet_parse rd_subnet subnet_compose_len subnet_compose_option subnet_ok subnet_enc.
Proof.
  assert (Hn : forall d, subnet_ok d -> (Z.to_nat (prefix_bytes (subnet_source d)) <= length (ip_octets (subnet_addr d)))%nat /\
    0 <= prefix_bytes (subnet_source d) <= 16).
  { intros d (Ha & Hs & _). destruct (ip_octets_wf _ Ha) as [_ Hb]. unfold prefix_bytes, zlen in *.
    destruct (subnet_addr d); cbn [ip_bits] in *; lia. }
  split.
  - unfold subnet_parse, rd_subnet. apply Reads_bind; [apply Reads_u16|]. intros family. apply Reads_bind; [apply Reads_u8|].
    intros source. apply Reads_bind; [apply Reads_u8|]. intros scope. apply Reads_bind.
    + apply Reads_if; [apply (Reads_map _ _ (ip_with_octets (IpV4 0 0 0 0))), Reads_subnet_buf|].
      apply Reads_if; [apply (Reads_map _ _ IpV6), Reads_subnet_buf|apply Reads_err].
    + intros addr. destruct (addr_apply_mask addr source) as [addr' m]. apply Reads_if; [apply Reads_err|apply Reads_ret].
  - intros d Hd. destruct (Hn d Hd) as [Hle _]. destruct d as [source scope addr]. destruct Hd as (Ha & Hs & Hc & Hm). cbn [subnet_addr subnet_source subnet_scope] in *.
    unfold rd_subnet, subnet_enc; cbn [subnet_addr subnet_source subnet_scope].
    rewrite rd_u16_app by (destruct addr; cbn; unfold is_u16; lia). cbn [app rd_u8].
    destruct (ip_octets_wf _ Ha) as [_ Hb]. pose proof Hm as Hagain. unfold addr_apply_mask in Hm.
    destruct (apply_bit_mask (ip_octets addr) source) as [buf m] eqn:Eb. injection Hm as Ebuf ->.
    apply apply_bit_mask_same in Eb as [-> Hd]; [|lia]. unfold zlen in Hb.
    destruct addr as [a b c d|t]; cbn [ip_family ip_octets ip_bits] in *; cbn [Z.eqb Pos.eqb].
    + rewrite (rd_subnet_buf_enc 4) by (done || lia). change (ip_with_octets (IpV4 0 0 0 0) [a; b; c; d]) with (IpV4 a b c d). by rewrite Hagain.
    + destruct Ha as [Hl Hw]. rewrite (rd_subnet_buf_enc 16) by (done || lia || by rewrite <- Hl). by rewrite Hagain.
  - intros d (Ha & Hs & Hc & _). destruct (ip_octets_wf _ Ha) as [Hw _]. unfold subnet_enc. rewrite !wf_octets_app.
    split_and!; [apply to_be_bytes_wf| |by apply wf_octets_take]. apply Forall_cons; split.
    + destruct (subnet_addr d); cbn in Hs; unfold is_u8; lia.
    + apply Forall_cons; split; [done|constructor].
  - intros d Hd. destruct (Hn d Hd) as [Hle Hp]. unfold subnet_compose_len, subnet_enc.
    destruct (expect_u16_ok (prefix_bytes (subnet_source d))) as [-> _]; [lia|].
    destruct (Z.ltb_spec (prefix_bytes (subnet_source d) + 4) (2 ^ 16)); [|lia].
    assert (zlen (to_be_bytes 2 (ip_family (subnet_addr d)) ++ [subnet_source d; subnet_scope d] ++
      take (Z.to_nat (prefix_bytes (subnet_source d))) (ip_octets (subnet_addr d))) = prefix_bytes (subnet_source d) + 4) as ->.
    { unfold zlen. rewrite !length_app, length_to_be_bytes, length_take. simpl length. lia. }
    split; [done|unfold is_u16; lia].
  - intros d Hd. destruct (Hn d Hd) as [Hle _]. unfold subnet_compose_option, subnet_enc. rewrite app_assoc. apply Appends_seq.
    + apply Appends_compose. fold (ip_family (subnet_addr d)).
      apply (compose_seq_spec _ _ _ [subnet_source d; subnet_scope d]); [apply compose_slice_spec|].
      apply (compose_seq_spec _ _ [subnet_source d] [subnet_scope d]); apply compose_slice_spec.
    + destruct (Nat.leb_spec (Z.to_nat (prefix_bytes (subnet_source d))) (length (ip_octets (subnet_addr d)))); [|lia].
      apply Appends_compose, compose_slice_spec.
  - intros ? d Hd. destruct (Hn d Hd) as [Hle _]. unfold subnet_compose_option. apply Succeeds_seq.
    + apply compose_succeeds. repeat apply compose_seq_total; apply compose_slice_total.
    + destruct (Nat.leb_spec (Z.to_nat (prefix_bytes (subnet_source d))) (length (ip_octets (subnet_addr d)))); [|lia].
      apply compose_succeeds, compose_slice_total.
Qed.

Definition rd_name (s : list Z) : result (Name * list Z) ParseError :=
  let? tmp := parse_name_len_loop (S (length s)) s in
  let len := (length s - length tmp)%nat in
  if (NAME_MAX_LEN <? len)%nat then Err (name_error_to_parse NLongName)
  else let? (x, s) := rd_octets len s in Ok (mkName x, s).

Lemma Reads_name : Reads (P:=P) name_parse rd_name.
Proof.
  intros p. unfold name_parse, name_parse_name_len, rd_name. rewrite p_peek_all_spec. fold (p_rest p). rewrite p_rest_length.
  destruct (parse_name_len_loop _ (p_rest p)) as [tmp|e]; [|done]. destruct (NAME_MAX_LEN <? _)%nat; [done|].
  exact (Reads_map _ _ mkName (Reads_octets (p_remaining p - length tmp)) p).
Qed.

Definition chain_opt_ok (d : ChainOption) : Prop := exists ls, wf_abs (chain_start d) ls.
Definition rd_chain (s : list Z) : result (ChainOption * list Z) ParseError := let? (n, s) := rd_name s in Ok (mkChainOption n, s).

Lemma rd_name_wire n ls t : wf_abs n ls -> wf_octets t -> rd_name (name_octets n ++ t) = Ok (n, t).
Proof.
  intros (Ha & En & Hl) Ht. assert (Hw : wf_octets (name_octets n ++ t)).
  { apply wf_octets_app; split; [|done]. rewrite En. by apply labels_wire_wf, abs_labels_good. }
  unfold rd_name. rewrite (proj2 (parse_name_len_loop_ok _ _ t Hw (Nat.lt_succ_diag_r _))) by (exists ls; by rewrite En).
  rewrite length_app, Nat.add_sub. destruct (Nat.ltb_spec NAME_MAX_LEN (length (name_octets n))); [lia|].
  rewrite rd_octets_app. by destruct n.
Qed.

Lemma chain_option_ok :
  OptionOk (P:=P) (B:=B) chain_opt_parse rd_chain chain_opt_compose_len chain_opt_compose_option chain_opt_ok (fun d => name_octets (chain_start d)).
Proof.
  split.
  - apply (Reads_map _ _ mkChainOption), Reads_name.
  - intros [n] [ls Hn]. unfold rd_chain; cbn [chain_start] in *. rewrite <- (app_nil_r (name_octets n)).
    rewrite (rd_name_wire n ls) by (done || constructor). done.
  - intros d [ls (Ha & -> & _)]. by apply labels_wire_wf, abs_labels_good.
  - intros d [ls Hn]. pose proof (wf_abs_denotes _ _ Hn) as (_ & Hc & _). destruct Hn as (_ & En & Hl). unfold chain_opt_compose_len.
    rewrite Hc, <- En. split; [done|]. unfold NAME_MAX_LEN, is_u16, zlen in *. lia.
  - intros d _. apply (Appends_compose (compose_slice _)), compose_slice_spec.
  - intros ? d _. apply (compose_succeeds (compose_slice _)), compose_slice_total.
Qed.

(** The options that can be written and are read back as themselves. *)
Definition all_ok (d : AllOptData) : Prop :=
  match d with
  | AllDau d | AllDhu d | AllN3u d => octets_ok understood_check_len (understood_octets d)
  | AllChain d => chain_opt_ok d
  | AllCookie d => cookie_ok d
  | AllExpire d => from_option is_u32 True (expire_value d)
  | AllExtendedError d => ee_ok d
  | AllTcpKeepalive d => from_option is_u16 True (keepalive_timeout d)
  | AllKeyTag d => octets_ok key_tag_check_len (key_tag_octets d)
  | AllNsid d => octets_ok check_long_opt (nsid_octets d)
  | AllPadding d => octets_ok check_long_opt (padding_octets d)
  | AllClientSubnet d => subnet_ok d
  | AllOther d => unknown_opt_ok d /\ ~ (uo_code d = 3 \/ 5 <= uo_code d <= 15)
  end.

Definition all_enc (d : AllOptData) : list Z :=
  match d with
  | AllDau d | AllDhu d | AllN3u d => understood_octets d
  | AllChain d => name_octets (chain_start d)
  | AllCookie d => cookie_enc d
  | AllExpire d => match expire_value d with Some v => to_be_bytes 4 v | None => [] end
  | AllExtendedError d => ee_enc d
  | AllTcpKeepalive d => match keepalive_timeout d with Some v => to_be_bytes 2 v | None => [] end
  | AllKeyTag d => key_tag_octets d
  | AllNsid d => nsid_octets d
  | AllPadding d => padding_octets d
  | AllClientSubnet d => subnet_enc d
  | AllOther d => uo_data d
  end.

Definition rd_some {D} (f : D -> AllOptData) (rd : list Z -> result (D * list Z) ParseError) (s : list Z)
    : result (option AllOptData * list Z) ParseError := let? (d, s) := rd s in Ok (Some (f d), s).

Definition rd_all_opt (code : Z) (s : list Z) : result (option AllOptData * list Z) ParseError :=
  if code =? OPTION_DAU then rd_some AllDau (rd_checked mkUnderstood understood_check_len) s
  else if code =? OPTION_DHU then rd_some AllDhu (rd_checked mkUnderstood understood_check_len) s
  else if code =? OPTION_N3U then rd_some AllN3u (rd_checked mkUnderstood understood_check_len) s
  else if code =? OPTION_CHAIN then rd_some AllChain rd_chain s
  else if code =? OPTION_COOKIE then rd_some AllCookie rd_cookie s
  else if code =? OPTION_EXPIRE then rd_some AllExpire (rd_opt_int mkExpire rd_u32) s
  else if code =? OPTION_EXTENDED_ERROR then rd_some AllExtendedError rd_ee s
  else if code =? OPTION_TCP_KEEPALIVE then rd_some AllTcpKeepalive (rd_opt_int mkKeepalive rd_u16) s
  else if code =? OPTION_KEY_TAG then rd_some AllKeyTag (rd_checked mkKeyTag key_tag_check_len) s
  else if code =? OPTION_NSID then rd_some AllNsid (rd_checked mkNsid check_long_opt) s
  else if code =? OPTION_PADDING then rd_some AllPadding (rd_checked mkPadding check_long_opt) s
  else if code =? OPTION_CLIENT_SUBNET then rd_some AllClientSubnet rd_subnet s
  else let? (d, s) := rd_unknown_opt code s in Ok (option_map AllOther d, s).

End AllPromises.

Section AllOptions.
Context {P : Type} `{OctetsParserOk P} {B : Type} `{OctetsBuilderOk B}.

Lemma Reads_some {D} (f : D -> AllOptData) (parse : P -> result (D * P) ParseError) rd :
  Reads parse rd -> Reads (fun p => all_some f (parse p)) (rd_some f rd).
Proof. intros Hp. exact (Reads_map _ _ (fun d => Some (f d)) Hp). Qed.

#[export] Instance all_opt_parse_ok : ParseOptDataOk (P:=P) AllOptData rd_all_opt.
Proof.
  intros code. unfold od_parse_option, all_opt_parse, rd_all_opt.
  apply Reads_if; [apply Reads_some, (oo_reads _ _ _ _ _ _ (understood_option_ok (B:=list Z)))|].
  apply Reads_if; [apply Reads_some, (oo_reads _ _ _ _ _ _ (understood_option_ok (B:=list Z)))|].
  apply Reads_if; [apply Reads_some, (oo_reads _ _ _ _ _ _ (understood_option_ok (B:=list Z)))|].
  apply Reads_if; [apply Reads_some, (oo_reads _ _ _ _ _ _ (chain_option_ok (B:=list Z)))|].
  apply Reads_if; [apply Reads_some, (oo_reads _ _ _ _ _ _ (cookie_option_ok (B:=list Z)))|].
  apply Reads_if; [apply Reads_some, (oo_reads _ _ _ _ _ _ (expire_option_ok (B:=list Z)))|].
  apply Reads_if; [apply Reads_some, (oo_reads _ _ _ _ _ _ (ee_option_ok (B:=list Z)))|].
  apply Reads_if; [apply Reads_some, (oo_reads _ _ _ _ _ _ (keepalive_option_ok (B:=list Z)))|].
  apply Reads_if; [apply Reads_some, (oo_reads _ _ _ _ _ _ (key_tag_option_ok (B:=list Z)))|].
  apply Reads_if; [apply Reads_some, (oo_reads _ _ _ _ _ _ (nsid_option_ok (B:=list Z)))|].
  apply Reads_if; [apply Reads_some, (oo_reads _ _ _ _ _ _ (padding_option_ok (B:=list Z)))|].
  apply Reads_if; [apply Reads_some, (oo_reads _ _ _ _ _ _ (subnet_option_ok (B:=list Z)))|].
  exact (Reads_map _ _ (option_map AllOther) (unknown_opt_parse_ok code)).
Qed.

(** Every option is one of a type that keeps the promises, or an unknown one. *)
Lemma all_option d :
  all_ok d ->
  (exists D parse rd len compose ok enc (O : OptionOk (P:=P) (B:=B) (D:=D) parse rd len compose ok enc) (f : D -> AllOptData) (x : D),
     d = f x /\ ok x /\ enc x = all_enc d /\ len x = all_compose_len d /\ compose x = all_compose_option d /\
     (forall s, rd_all_opt (od_code d) s = rd_some f rd s) /\ is_u16 (od_code d)) \/
  (exists u, d = AllOther u /\ unknown_opt_ok u /\ ~ (uo_code u = 3 \/ 5 <= uo_code u <= 15)).
Proof using All.
  intros Hd. destruct d as [d|d|d|d|d|d|d|d|d|d|d|d|d]; cbn [all_ok] in Hd.
  - left. by exists _, _, _, _, _, _, _, understood_option_ok, AllDau, d.
  - left. by exists _, _, _, _, _, _, _, understood_option_ok, AllDhu, d.
  - left. by exists _, _, _, _, _, _, _, understood_option_ok, AllN3u, d.
  - left. by exists _, _, _, _, _, _, _, chain_option_ok, AllChain, d.
  - left. by exists _, _, _, _, _, _, _, cookie_option_ok, AllCookie, d.
  - left. by exists _, _, _, _, _, _, _, expire_option_ok, AllExpire, d.
  - left. by exists _, _, _, _, _, _, _, ee_option_ok, AllExtendedError, d.
  - left. by exists _, _, _, _, _, _, _, keepalive_option_ok, AllTcpKeepalive, d.
  - left. by exists _, _, _, _, _, _, _, key_tag_option_ok, AllKeyTag, d.
  - left. by exists _, _, _, _, _, _, _, nsid_option_ok, AllNsid, d.
  - left. by exists _, _, _, _, _, _, _, padding_option_ok, AllPadding, d.
  - left. by exists _, _, _, _, _, _, _, subnet_option_ok, AllClientSubnet, d.
  - right. by exists d.
Qed.

#[export] Instance all_opt_compose_ok : ComposeOptDataOk (B:=B) AllOptData all_ok all_enc.
Proof using All.
  split.
  - intros d Hd. by destruct (all_option d Hd) as [(D & parse & rd & len & comp & ok & enc & O & f & x & ? & ? & ? & ? & ? & ? & ?)|(u & -> & (? & _) & _)].
  - intros d Hd. destruct (all_option d Hd) as [(D & parse & rd & len & comp & ok & enc & O & f & x & _ & Hx & <- & _)|(u & -> & (_ & ? & _) & _)]; [|done].
    by apply O.
  - intros d Hd. destruct (all_option d Hd) as [(D & parse & rd & len & comp & ok & enc & O & f & x & _ & Hx & <- & El & _)|(u & -> & (_ & _ & Hl) & _)].
    + change (od_compose_len d) with (all_compose_len d). rewrite <- El. by apply O.
    + apply expect_u16_ok. unfold zlen in *. cbn [all_enc]. lia.
  - intros d Hd. change (od_compose_option d) with (all_compose_option (B:=B) d).
    destruct (all_option d Hd) as [(D & parse & rd & len & comp & ok & enc & O & f & x & _ & Hx & <- & _ & <- & _)|(u & -> & _)].
    + by apply O.
    + apply Appends_compose, compose_slice_spec.
  - intros Hi d Hd. change (od_compose_option d) with (all_compose_option (B:=B) d).
    destruct (all_option d Hd) as [(D & parse & rd & len & comp & ok & enc & O & f & x & _ & Hx & _ & _ & <- & _)|(u & -> & _)].
    + by apply O.
    + apply compose_succeeds, compose_slice_total.
Qed.

Lemma all_opt_roundtrips : opt_roundtrips all_ok all_enc rd_all_opt.
Proof using All.
  intros d Hd. destruct (all_option d Hd) as [(D & parse & rd & len & comp & ok & enc & O & f & x & -> & Hx & <- & _ & _ & -> & _)|(u & -> & Hu & Hc)].
  - unfold rd_some. by rewrite (oo_roundtrip _ _ _ _ _ _ O x Hx).
  - pose proof (unknown_opt_roundtrips u Hu) as Hr. unfold rd_all_opt. change (od_code (AllOther u)) with (uo_code u). cbn [all_enc].
    change (od_code u) with (uo_code u) in Hr.
    unfold OPTION_DAU, OPTION_DHU, OPTION_N3U, OPTION_CHAIN, OPTION_COOKIE, OPTION_EXPIRE, OPTION_EXTENDED_ERROR, OPTION_TCP_KEEPALIVE,
      OPTION_KEY_TAG, OPTION_NSID, OPTION_PADDING, OPTION_CLIENT_SUBNET.
    repeat match goal with |- context [uo_code u =? ?k] => destruct (Z.eqb_spec (uo_code u) k); [lia|] end. by rewrite Hr.
Qed.
End AllOptions.

(** EDNS options written one after the other, within 65535 octets in all, to a
    target on which appending never fails, form valid OPT data, and iterating over
    all options reads exactly these options back, for the twelve types the crate
    knows and for unknown ones.  The options are those that respect what their type
    promises: data of at most 65535 octets, a key tag option of whole tags, cookies
    and names of the permitted lengths, an address cut off at its prefix length,
    unknown options under a code that is not one of the known types.  Left out are
    options that can be made but are not read back as what they were: DAU, DHU and
    N3U with an odd number of algorithms, an extended error with an empty text,
    and one whose text was given as octets although it is UTF-8.  (C26) *)
Theorem edns_options_roundtrip {P B : Type} `{OctetsParserOk P} `{!OctetsParserRef P} `{!OctetsParserRefOk P}
    `{!OctetsParserSub P} `{!OctetsParserSubOk P} `{OctetsBuilderOk B} `{!InfallibleBuilder B} (ds : list AllOptData) :
  Forall all_ok ds -> zlen (opt_wire (map (raw_of all_enc) ds)) <= 65535 ->
  exists b, opt_pushes ds (opt_empty (B:=B)) = Ret (b, Ok ()) /\
    opt_from_octets (P:=P) (as_ref b) = Some (Ok (mkOpt (as_ref b))) /\
    opt_iter (P:=P) (D:=AllOptData) (mkOpt (as_ref b)) = Some (map Ok ds).
Proof.
  intros Hds Hl. apply (opt_push_reads all_ok all_enc rd_all_opt ds); [|done|done]. exact (all_opt_roundtrips (P:=P) (B:=B)).
Qed.

Definition ex_all_options : list AllOptData :=
  [AllNsid (mkNsid [97]); AllClientSubnet (subnet_new 23 0 (IpV4 192 0 3 255)); AllCookie (mkCookie (replicate 8 7) None);
   AllExtendedError (mkExtendedError 22 (Some (Ok [111; 107]))); AllOther (mkUnknownOpt 65001 [1])].

Lemma edns_options_roundtrip_witness :
  Forall all_ok ex_all_options /\
  exists b, opt_pushes ex_all_options (opt_empty (B:=list Z)) = Ret (b, Ok ()) /\
    opt_iter (P:=lim_parser) (D:=AllOptData) (mkOpt b) = Some (map Ok ex_all_options).
Proof.
  assert (Hok : Forall all_ok ex_all_options).
  { unfold ex_all_options. repeat (apply Forall_cons; split); try apply Forall_nil.
    - split_and!; by_decide.
    - apply subnet_new_ok; cbn; by_decide.
    - split_and!; [by_decide|by_decide|exact I].
    - split; [by_decide|]. cbn. split_and!; [by_decide|by_decide|discriminate|reflexivity].
    - split; [split_and!; by_decide|cbn; lia].
    - exact I. }
  split; [exact Hok|].
  destruct (edns_options_roundtrip (P:=lim_parser) (B:=list Z) ex_all_options Hok) as (b & E & _ & Ei); [by_decide|].
  exists b. split; [exact E|exact Ei].
Defined.

Lemma cookie_response_checks_witness :
  exists r, create_response (fun _ _ => replicate 8 1) (mkCookie (replicate 8 7) None) 5 (IpV4 1 2 3 4) [] = Ret r /\
    check_server_hash (fun _ _ => replicate 8 1) r (IpV4 1 2 3 4) [] (fun t => t =? 5) = true.
Proof.
  destruct (cookie_response_checks (fun _ _ => replicate 8 1) (mkCookie (replicate 8 7) None) 5 (IpV4 1 2 3 4) [] (fun t => t =? 5))
    as (r & E & _ & Ec); [reflexivity|by_decide|]. exists r. split; [exact E|exact Ec].
Defined.

(** ** What does not come back *)

(** An empty text is written but not read; an odd number of algorithms is written
    but refused when read. *)
Theorem options_not_read_back :
  ee_new 0 (Some []) = Ok (mkExtendedError 0 (Some (Ok []))) /\
  rd_ee (ee_enc (mkExtendedError 0 (Some (Ok [])))) = Ok (mkExtendedError 0 None, []) /\
  understood_from_sec_algs [8] = Ok (mkUnderstood [8]) /\
  understood_from_octets [8] = Err (parse_form_error "invalid understood data").
Proof. split_and!; reflexivity. Qed.
