(* ===== verification/Layout.v ===== *)
(** * Layouts of record data

    Record data is a sequence of fields: integers, names, character strings and
    octets up to the end.  A [layout] says what a message holds at a position, the
    way [at_labels] does for names, which may be compressed.  [Finds] relates a
    parsing function to a layout, [Lays] the octets without compression; both
    have one rule per kind of field and one for sequences, and the types of
    record data are verified with these. *)

From S2P Require Import Prelude Octets Serial Symbol CharStr Label Traits Name ParsedName Header Compressor MessageBuilder Message Record Ttl.
From stdpp Require Import strings.
#[local] Open Scope Z_scope.

(** The labels a name stands for. *)
Abbreviation labels := (list (list Z)).

(** [at_ s pos x e]: the octets [s] hold [x] from [pos] up to [e]. *)
Definition layout (X : Type) : Type := list Z -> nat -> X -> nat -> Prop.

Definition lay_ret {X} (x : X) : layout X := fun _ pos y e => y = x /\ e = pos.

Definition lay_seq {X Y} (a : layout X) (b : X -> layout Y) : layout Y := fun s pos y e =>
  exists x e1, a s pos x e1 /\ b x s e1 y e.

(** An unsigned integer of [n] octets. *)
Definition be_at (n : nat) : layout Z := fun s pos v e =>
  0 <= v < 2 ^ (8 * Z.of_nat n) /\ take n (drop pos s) = to_be_bytes n v /\ e = (pos + n)%nat.

Definition octets_at (n : nat) : layout (list Z) := fun s pos x e =>
  take n (drop pos s) = x /\ length x = n /\ e = (pos + n)%nat.

Definition name_at : layout labels := fun s pos ls e =>
  at_labels s pos ls e /\ (length (labels_wire ls) <= 255)%nat.

(** Everything up to the end. *)
Definition rest_at : layout (list Z) := fun s pos x e =>
  (pos <= length s)%nat /\ x = drop pos s /\ e = length s.

(** A value that is made of one that is there. *)
Definition lay_map {X Y} (f : X -> Y) (a : layout X) : layout Y := fun s pos y e =>
  exists x, a s pos x e /\ y = f x.

(** A character string, its length in front. *)
Definition charstr_at : layout CharStr := lay_seq (be_at 1) (fun n => lay_map mkCharStr (octets_at (Z.to_nat n))).

(** ** Parsing what is laid out *)

Section Finds.
Context {P : Type} `{OctetsParserOk P}.

(** Parsing ends; it succeeds exactly where there is something, and gives it. *)
Definition Finds {A X} (parse : P -> outcome (result (A * P) ParseError)) (at_ : layout X) (is_ : A -> X -> Prop) : Prop :=
  forall p, wf_octets (p_octets p) -> exists r, parse p = Ret r /\
    (forall a p', r = Ok (a, p') -> exists x e, at_ (visible p) (p_pos p) x e /\ is_ a x /\ moved p p' e) /\
    (forall x e, at_ (visible p) (p_pos p) x e -> exists a p', r = Ok (a, p') /\ is_ a x /\ moved p p' e).

Lemma Finds_ret {A X} (a : A) (x : X) (is_ : A -> X -> Prop) :
  is_ a x -> Finds (fun p => Ret (Ok (a, p))) (lay_ret x) is_.
Proof.
  intros Ha p _. eexists; split; [done|]. split.
  - intros a' p' [= <- <-]. exists x, (p_pos p). split_and!; [done|done|apply moved_self].
  - intros y e [-> ->]. exists a, p. split_and!; [done|done|apply moved_self].
Qed.

Lemma Finds_seq {A A' X Y} (f : P -> outcome (result (A * P) ParseError)) (g : A -> P -> outcome (result (A' * P) ParseError))
    (at1 : layout X) (at2 : X -> layout Y) is1 is2 :
  Finds f at1 is1 -> (forall a x, is1 a x -> Finds (g a) (at2 x) is2) ->
  Finds (fun p => let!? (a, p) := f p in g a p) (lay_seq at1 at2) is2.
Proof.
  intros Hf Hg p Hp. destruct (Hf p Hp) as (r & -> & Hs & Hc). destruct r as [[a p1]|err].
  2: { eexists; split; [done|]. split; [done|]. intros y e (x & e1 & H1 & _).
       destruct (Hc x e1 H1) as (? & ? & ? & _). done. }
  assert (Hstep : forall x e1, is1 a x -> moved p p1 e1 -> exists r, g a p1 = Ret r /\
    (forall a' p', r = Ok (a', p') -> exists y e, at2 x (visible p) e1 y e /\ is2 a' y /\ moved p p' e) /\
    (forall y e, at2 x (visible p) e1 y e -> exists a' p', r = Ok (a', p') /\ is2 a' y /\ moved p p' e)).
  { intros x e1 Hx Hm. pose proof Hm as (Ho & _ & He). destruct (Hg a x Hx p1) as (r & Hr & Hs' & Hc'); [by rewrite Ho|].
    rewrite (visible_moved _ _ _ Hm), He in Hs', Hc'. exists r. split_and!; [done|..].
    - intros a' p' E. destruct (Hs' a' p' E) as (y & e & Hy & Hi & Hm'). exists y, e.
      split_and!; [done|done|by eapply moved_trans].
    - intros y e Hy. destruct (Hc' y e Hy) as (a' & p' & E & Hi & Hm'). exists a', p'.
      split_and!; [done|done|by eapply moved_trans]. }
  destruct (Hs a p1 eq_refl) as (x & e1 & H1 & Hx & Hm). destruct (Hstep x e1 Hx Hm) as (r & Hr & Hs' & _).
  exists r. split; [done|]. split.
  - intros a' p' E. destruct (Hs' a' p' E) as (y & e & Hy & Hi & Hm'). exists y, e. split_and!; [by exists x, e1|done|done].
  - intros y e (x' & e1' & H1' & H2'). destruct (Hc x' e1' H1') as (a2 & p2 & [= <- <-] & Hx' & Hm').
    destruct (Hstep x' e1' Hx' Hm') as (r' & Hr' & _ & Hc'). rewrite Hr in Hr'. injection Hr' as <-. by apply Hc'.
Qed.

(** The same for a first step that does not panic. *)
Lemma Finds_seq_ret {A A' X Y} (f : P -> result (A * P) ParseError) (g : A -> P -> outcome (result (A' * P) ParseError))
    (at1 : layout X) (at2 : X -> layout Y) is1 is2 :
  Finds (fun p => Ret (f p)) at1 is1 -> (forall a x, is1 a x -> Finds (g a) (at2 x) is2) ->
  Finds (fun p => match f p with Ok (a, p) => g a p | Err err => Ret (Err err) end) (lay_seq at1 at2) is2.
Proof. apply (Finds_seq (fun p => Ret (f p))). Qed.

Lemma Finds_map {A A' X Y} (f : P -> outcome (result (A * P) ParseError)) (h : A -> A') (h' : X -> Y)
    (at_ : layout X) is1 is2 :
  Finds f at_ is1 -> (forall a x, is1 a x -> is2 (h a) (h' x)) ->
  Finds (fun p => let!? (a, p) := f p in Ret (Ok (h a, p))) (lay_map h' at_) is2.
Proof.
  intros Hf Hh p Hp. destruct (Hf p Hp) as (r & -> & Hs & Hc). destruct r as [[a p1]|err].
  - eexists; split; [done|]. split.
    + intros a' p' [= <- <-]. destruct (Hs a p1 eq_refl) as (x & e & Hx & Hi & Hm). exists (h' x), e.
      split_and!; [by exists x|by apply Hh|done].
    + intros y e (x & Hx & ->). destruct (Hc x e Hx) as (a' & p' & [= <- <-] & Hi & Hm).
      exists (h a), p1. split_and!; [done|by apply Hh|done].
  - eexists; split; [done|]. split; [done|]. intros y e (x & Hx & ->). destruct (Hc x e Hx) as (? & ? & ? & _). done.
Qed.

Lemma Finds_impl {A X} (f : P -> outcome (result (A * P) ParseError)) (at_ at_' : layout X) (is_ is_' : A -> X -> Prop) :
  (forall s pos x e, at_ s pos x e <-> at_' s pos x e) -> (forall a x, is_ a x -> is_' a x) ->
  Finds f at_ is_ -> Finds f at_' is_'.
Proof.
  intros Hat Hi Hf p Hp. destruct (Hf p Hp) as (r & Hr & Hs & Hc). exists r. split; [done|]. split.
  - intros a p' E. destruct (Hs a p' E) as (x & e & Hx & Ha & Hm). exists x, e. split_and!; [by apply Hat|by apply Hi|done].
  - intros x e Hx. apply Hat in Hx. destruct (Hc x e Hx) as (a & p' & E & Ha & Hm). exists a, p'. split_and!; [done|by apply Hi|done].
Qed.

Lemma p_rest_visible (p : P) : p_rest p = drop (p_pos p) (visible p).
Proof. unfold p_rest, visible, p_remaining. by rewrite skipn_firstn_comm. Qed.

Lemma visible_wf (p : P) : wf_octets (p_octets p) -> wf_octets (visible p).
Proof. intros Hp. unfold visible. by apply list.Forall_take. Qed.

(** A parser that depends on the octets left only finds what they start with. *)
Lemma Finds_reads {A} (f : P -> result (A * P) ParseError) g (at_ : layout A) :
  Reads f g ->
  (forall s pos x e, wf_octets s -> (pos <= length s)%nat ->
     at_ s pos x e <-> (e <= length s)%nat /\ g (drop pos s) = Ok (x, drop e s)) ->
  Finds (fun p => Ret (f p)) at_ eq.
Proof.
  intros Hf Hat p Hp. eexists; split; [done|]. pose proof (p_bounds p) as Hb.
  specialize (Hf p). rewrite p_rest_visible in Hf.
  assert (Hat' := fun x e => Hat (visible p) (p_pos p) x e (visible_wf p Hp) ltac:(rewrite length_visible; lia)).
  split.
  - intros a p' E. rewrite E in Hf. destruct Hf as [Hg [Ho Hl]]. exists a, (p_pos p').
    pose proof (p_bounds p') as Hb'. split_and!; [|done|by split_and!]. apply Hat'. rewrite length_visible.
    split; [lia|]. rewrite Hg, p_rest_visible. unfold visible. by rewrite Ho, Hl.
  - intros x e [He Hg]%Hat'. rewrite Hg in Hf. destruct (f p) as [[a p']|err]; [|done].
    destruct Hf as [[Hx Hd]%Ok_pair_inj [Ho Hl]]. subst x. exists a, p'. split_and!; [done..|].
    pose proof (p_bounds p') as Hb'. rewrite p_rest_visible in Hd. apply (f_equal length) in Hd.
    rewrite !length_drop, !length_visible in Hd. rewrite length_visible in He. split_and!; [done|done|lia].
Qed.

Lemma octets_at_rd n s pos x e :
  (pos <= length s)%nat -> octets_at n s pos x e <-> (e <= length s)%nat /\ rd_octets n (drop pos s) = Ok (x, drop e s).
Proof.
  intros Hp. unfold octets_at, rd_octets. rewrite length_drop. split.
  - intros (<- & Hl & ->). rewrite length_take, length_drop in Hl.
    destruct (Nat.leb_spec n (length s - pos)); [|lia]. rewrite drop_drop. split; [lia|done].
  - destruct (Nat.leb_spec n (length s - pos)); [|by intros [_ ?]]. intros [He [= <- Hd]].
    split_and!; [done|rewrite length_take, length_drop; lia|]. apply (f_equal length) in Hd.
    rewrite !length_drop in Hd. lia.
Qed.

Lemma from_be_bytes_range x : wf_octets x -> 0 <= from_be_bytes x 0 < 2 ^ (8 * Z.of_nat (length x)).
Proof.
  induction x as [|b x IH] using rev_ind; [simpl; lia|]. intros Hw.
  apply wf_octets_app in Hw as [Hw Hb]. apply Forall_inv in Hb. rewrite from_be_bytes_app, length_app. cbn [from_be_bytes length].
  specialize (IH Hw). replace (8 * Z.of_nat (length x + 1)) with (8 * Z.of_nat (length x) + 8) by lia.
  rewrite Z.pow_add_r by lia. unfold is_u8 in Hb. lia.
Qed.

Lemma be_at_rd n s pos v e :
  wf_octets s -> (pos <= length s)%nat ->
  be_at n s pos v e <->
  (e <= length s)%nat /\ (let? (x, t) := rd_octets n (drop pos s) in Ok (from_be_bytes x 0, t)) = Ok (v, drop e s).
Proof.
  intros Hs Hp. unfold be_at. split.
  - intros (Hv & Hx & ->). destruct (proj1 (octets_at_rd n s pos (to_be_bytes n v) (pos + n) Hp)) as [He ->].
    { split_and!; [done|apply length_to_be_bytes|done]. }
    split; [done|]. by rewrite from_to_be_bytes.
  - destruct (rd_octets n (drop pos s)) as [[x t]|] eqn:E; [|by intros [_ ?]]. intros [He [= <- ->]].
    assert (Hd : octets_at n s pos x e) by (by apply octets_at_rd). destruct Hd as (Hx & Hl & ->).
    assert (Hw : wf_octets x). { rewrite <- Hx. by apply list.Forall_take, list.Forall_drop. }
    rewrite Hx, <- Hl. split_and!; [| |by rewrite to_from_be_bytes|done]; clear -Hw.
    { apply (proj1 (from_be_bytes_range x Hw)). }
    apply (proj2 (from_be_bytes_range x Hw)).
Qed.

Lemma Finds_u8 : Finds (fun p => Ret (u8_parse p)) (be_at 1) eq.
Proof.
  eapply Finds_reads; [apply Reads_u8|]. intros s pos x e Hs Hp. rewrite be_at_rd by done. unfold rd_u8, rd_octets.
  destruct (drop pos s) as [|b t]; cbn; [done|]. by rewrite drop_0.
Qed.

Lemma Finds_u16 : Finds (fun p => Ret (u16_parse p)) (be_at 2) eq.
Proof. eapply Finds_reads; [apply Reads_u16|]. intros. by rewrite be_at_rd. Qed.

Lemma Finds_u32 : Finds (fun p => Ret (u32_parse p)) (be_at 4) eq.
Proof. eapply Finds_reads; [apply Reads_u32|]. intros. by rewrite be_at_rd. Qed.

Lemma Finds_octets n : Finds (fun p => Ret (short (p_parse_octets p n))) (octets_at n) eq.
Proof. eapply Finds_reads; [apply Reads_octets|]. intros. by apply octets_at_rd. Qed.

Lemma Finds_rest : Finds (fun p => Ret (short (p_parse_octets p (p_remaining p)))) rest_at eq.
Proof.
  eapply Finds_reads; [apply Reads_all|]. intros s pos x e Hs Hp. unfold rest_at, rd_all. split.
  - intros (_ & -> & ->). by rewrite (drop_ge s (length s)) by lia.
  - intros [He [= <- Hd]]. split_and!; [done..|]. apply (f_equal length) in Hd. rewrite length_drop in Hd. simpl in Hd. lia.
Qed.

(** A possibly compressed name. *)
Lemma Finds_name : Finds (fun p => ended (parsed_parse p)) name_at wf_parsed.
Proof.
  intros p Hp. destruct (parsed_parse_spec p Hp) as (r & Hr & Hok & Hex). rewrite Hr. exists r. split; [done|]. split.
  - intros n p' E. destruct (Hok n p' E) as (ls & e & Hat & Hn & Hm). exists ls, e. split_and!; [|done|done].
    split; [done|]. destruct Hn as (_ & _ & Hl & Hle & _). unfold zlen in *. lia.
  - intros ls e [Hat Hl]. destruct (parsed_parse_at p ls e Hp Hat Hl) as (n & p' & Hn & Hw & Hm & _).
    exists n, p'. split_and!; [congruence|done|done].
Qed.
End Finds.

(** ** Laying out without compression *)

(** [x] is there wherever the octets [w] are, whatever follows; and wherever [w] is
    the end. *)
Definition Lays {X} (at_ : layout X) (x : X) (w : list Z) : Prop :=
  forall s pos t, drop pos s = w ++ t -> (pos <= length s)%nat -> at_ s pos x (pos + length w)%nat.

Definition LaysEnd {X} (at_ : layout X) (x : X) (w : list Z) : Prop :=
  forall s pos, drop pos s = w -> (pos <= length s)%nat -> at_ s pos x (length s).

Lemma Lays_end {X} (at_ : layout X) x w : Lays at_ x w -> LaysEnd at_ x w.
Proof.
  intros Hl s pos Hd Hp. replace (length s) with (pos + length w)%nat.
  - apply (Hl s pos []); [by rewrite app_nil_r|done].
  - rewrite <- Hd, length_drop. lia.
Qed.

Lemma Lays_ret {X} (x : X) : Lays (lay_ret x) x [].
Proof. intros s pos t _ _. split; [done|]. simpl. lia. Qed.

Lemma Lays_seq {X Y} (a : layout X) (b : X -> layout Y) x y w w' :
  Lays a x w -> Lays (b x) y w' -> Lays (lay_seq a b) y (w ++ w').
Proof.
  intros Ha Hb s pos t Hd Hp. rewrite <- app_assoc in Hd. exists x, (pos + length w)%nat.
  split; [by eapply Ha|]. rewrite length_app, Nat.add_assoc. apply (Hb s _ t).
  - by rewrite <- drop_drop, Hd, drop_app_length.
  - apply (f_equal length) in Hd. rewrite length_drop, length_app in Hd. lia.
Qed.

Lemma LaysEnd_seq {X Y} (a : layout X) (b : X -> layout Y) x y w w' :
  Lays a x w -> LaysEnd (b x) y w' -> LaysEnd (lay_seq a b) y (w ++ w').
Proof.
  intros Ha Hb s pos Hd Hp. exists x, (pos + length w)%nat. split; [by eapply Ha|]. apply Hb.
  - by rewrite <- drop_drop, Hd, drop_app_length.
  - apply (f_equal length) in Hd. rewrite length_drop, length_app in Hd. lia.
Qed.

Lemma Lays_map {X Y} (f : X -> Y) (a : layout X) x w : Lays a x w -> Lays (lay_map f a) (f x) w.
Proof. intros Ha s pos t Hd Hp. exists x. split; [by eapply Ha|done]. Qed.

Lemma LaysEnd_map {X Y} (f : X -> Y) (a : layout X) x w : LaysEnd a x w -> LaysEnd (lay_map f a) (f x) w.
Proof. intros Ha s pos Hd Hp. exists x. split; [by apply Ha|done]. Qed.

Lemma Lays_be n v : 0 <= v < 2 ^ (8 * Z.of_nat n) -> Lays (be_at n) v (to_be_bytes n v).
Proof.
  intros Hv s pos t Hd Hp. split_and!; [apply Hv|apply Hv| |by rewrite length_to_be_bytes].
  rewrite Hd. apply take_app_length'. by rewrite length_to_be_bytes.
Qed.

Lemma Lays_octets x : Lays (octets_at (length x)) x x.
Proof. intros s pos t Hd Hp. split_and!; [|done|done]. by rewrite Hd, take_app_length. Qed.

Lemma Lays_name ls : abs_labels ls -> (length (labels_wire ls) <= 255)%nat -> Lays name_at ls (labels_wire ls).
Proof. intros Ha Hl s pos t Hd Hp. split; [by eapply at_labels_wire|done]. Qed.

Lemma LaysEnd_rest x : LaysEnd rest_at x x.
Proof. intros s pos Hd Hp. by split_and!. Qed.

Lemma Lays_charstr c : cs_wf c -> Lays charstr_at c (cs_wire c).
Proof.
  intros [Hl Hw]. unfold cs_wire, charstr_at. change (?n :: ?s) with ([n] ++ s).
  unfold cs_len, CHARSTR_MAX_LEN in Hl. assert (Hz : 0 <= zlen (cs_octets c) < 2 ^ 8) by (unfold zlen; lia).
  eapply Lays_seq.
  - replace [zlen (cs_octets c)] with (to_be_bytes 1 (zlen (cs_octets c))); [by apply Lays_be|].
    cbn. rewrite Z.mod_small by lia. done.
  - destruct c as [c]. apply (Lays_map mkCharStr). unfold zlen. rewrite Nat2Z.id. apply Lays_octets.
Qed.

Create HintDb layout.
#[export] Hint Resolve Lays_end Lays_ret Lays_be Lays_octets Lays_name LaysEnd_rest Lays_charstr : layout.

(** ** Fields made of these *)

Section Fields.
Context {P : Type} `{OctetsParserOk P}.

Lemma Finds_ext {A X} (f f' : P -> outcome (result (A * P) ParseError)) (at_ : layout X) is_ :
  (forall p, f p = f' p) -> Finds f' at_ is_ -> Finds f at_ is_.
Proof. intros E Hf p Hp. rewrite E. by apply Hf. Qed.

Lemma Finds_charstr : Finds (P:=P) (fun p => Ret (cs_parse p)) charstr_at eq.
Proof.
  eapply Finds_ext; [|eapply (Finds_seq (fun p => Ret (u8_parse p))
    (fun n p => let!? (s, p) := Ret (short (p_parse_octets p (Z.to_nat n))) in Ret (Ok (mkCharStr s, p)))); [apply Finds_u8|]].
  - intros p. unfold cs_parse, u8_parse. destruct (short (p_parse_u8 p)) as [[n p1]|]; [|done].
    by destruct (short (p_parse_octets p1 (Z.to_nat n))) as [[s p2]|].
  - intros n ? <-. apply (Finds_map (fun p => Ret (short (p_parse_octets p (Z.to_nat n)))) mkCharStr mkCharStr _ eq eq);
      [apply Finds_octets|by intros ? ? ->].
Qed.

Lemma Finds_serial : Finds (P:=P) (fun p => Ret (serial_parse p)) (lay_map mkSerial (be_at 4)) eq.
Proof.
  eapply Finds_ext; [|eapply (Finds_map _ mkSerial); [apply Finds_u32|by intros ? ? ->]].
  intros p. unfold serial_parse. by destruct (u32_parse p) as [[v p']|].
Qed.

Lemma Finds_ttl : Finds (P:=P) (fun p => Ret (ttl_parse p)) (lay_map ttl_from_secs (be_at 4)) eq.
Proof.
  eapply Finds_ext; [|eapply (Finds_map _ ttl_from_secs); [apply Finds_u32|by intros ? ? ->]].
  intros p. unfold ttl_parse, u32_parse. by destruct (short (p_parse_u32_be p)) as [[v p']|].
Qed.
End Fields.

Lemma Lays_serial s : wf_serial s -> Lays (lay_map mkSerial (be_at 4)) s (to_be_bytes 4 (serial_int s)).
Proof. destruct s as [v]. intros Hv. by apply (Lays_map mkSerial), Lays_be. Qed.

Lemma Lays_ttl t : ttl_ok t -> Lays (lay_map ttl_from_secs (be_at 4)) t (to_be_bytes 4 (ttl_secs t)).
Proof. destruct t as [v]. intros Hv. by apply (Lays_map ttl_from_secs), Lays_be. Qed.

#[export] Hint Resolve Lays_serial Lays_ttl : layout.

(** Parsing a sequence of fields. *)
Ltac finds_field :=
  first [apply Finds_u8 | apply Finds_u16 | apply Finds_u32 | apply Finds_name | apply Finds_charstr | apply Finds_serial
        | apply Finds_ttl | apply Finds_rest | apply Finds_octets].

Ltac finds :=
  repeat (first [eapply Finds_seq|eapply Finds_seq_ret]; [finds_field|intros ? ? ?; subst; cbv beta]);
  try (apply Finds_ret; try solve [reflexivity | assumption | by split_and!]).

(** The octets of a sequence of fields. *)
Ltac lays :=
  repeat first
    [ eapply LaysEnd_seq; [solve [eauto with layout]|]
    | apply Lays_end, Lays_ret
    | rewrite <- app_nil_r; eapply LaysEnd_seq; [solve [eauto with layout]|apply Lays_end, Lays_ret] ].

(** ** Writing fields *)

Section Writes.
Context {B : Type} `{OctetsBuilderOk B}.

(** [f] appends [s], and does if the target cannot fail. *)
Definition Writes (f : pusher B) (s : list Z) : Prop := Appends f s /\ (InfallibleBuilder B -> Succeeds f).

Lemma Writes_seq f g s t : Writes f s -> Writes g t -> Writes (push_seq f g) (s ++ t).
Proof. intros [Hf Sf] [Hg Sg]. split; [by apply Appends_seq|]. intros Hi. apply Succeeds_seq; auto. Qed.

Lemma Writes_slice s : Writes (push_compose (compose_slice s)) s.
Proof. split; [apply Appends_compose, compose_slice_spec|intros Hi; apply Succeeds_compose]. Qed.

Lemma Writes_ok : Writes (fun b => Ret (b, true)) [].
Proof. split; [|by intros _ b; exists b]. intros b. exists b, true, []. by rewrite app_nil_r. Qed.

Lemma Appends_appended (f : pusher B) s : (forall b, exists r, f b = Ret r /\ appended b s r) -> Appends f s.
Proof.
  intros Hf b. destruct (Hf b) as ([b' ok] & -> & Ha). unfold appended in Ha; simpl in Ha. destruct ok.
  - by exists b', true, s.
  - destruct Ha as (p & _ & E). by exists b', false, p.
Qed.

Lemma Writes_charstr c : cs_wf c -> Writes (cs_compose c) (cs_wire c).
Proof.
  intros Hc. split; [apply Appends_appended; intros b; by apply cs_compose_spec|]. intros Hi b. destruct Hc as [Hl _].
  unfold cs_len, CHARSTR_MAX_LEN in Hl. unfold cs_compose.
  destruct (Z.ltb_spec (zlen (cs_octets c)) (2 ^ 8)); [|unfold zlen in *; lia].
  destruct (compose_seq_total (u8_compose (zlen (cs_octets c))) (compose_slice (cs_octets c))
    (compose_slice_total _) (compose_slice_total _) b) as [b' ->]. by exists b'.
Qed.

Context {N I : Type} `{ToLabelIter N I} `{!LabelIterOk I}.

Lemma Succeeds_labels f (n : N) ls :
  name_ok n ls -> (forall l, NeverFails (f l)) -> Succeeds (B:=B) (compose_labels f n).
Proof.
  intros Hn Hf b. pose proof (name_ok_fuel _ _ Hn) as Hl. destruct Hn as ((Rn & _) & _). unfold compose_labels.
  rewrite (collect_loop_spec _ _ _ Rn Hl). destruct (compose_each_total f ls (fun l _ => Hf l) b) as [b' ->]. by exists b'.
Qed.

Lemma Writes_name (n : N) ls : name_ok n ls -> Writes (name_compose n) (labels_wire ls).
Proof.
  intros Hn. pose proof (name_ok_fuel _ _ Hn) as Hl. pose proof Hn as (Hd & Ha & _). split.
  - apply Appends_appended, name_compose_spec; auto with octets.
  - intros Hi b. unfold name_compose. destruct (as_flat_slice n) as [x|].
    + destruct (compose_slice_total x b) as [b' ->]. by exists b'.
    + apply (Succeeds_labels _ _ _ Hn). intros l. apply label_compose_total.
Qed.

Lemma Writes_canonical (n : N) ls : name_ok n ls -> Writes (name_compose_canonical n) (map to_ascii_lowercase (labels_wire ls)).
Proof.
  intros Hn. pose proof (name_ok_fuel _ _ Hn) as Hl. pose proof Hn as (Hd & Ha & _). split.
  - apply Appends_appended, name_compose_canonical_spec; auto with octets.
  - intros Hi. apply (Succeeds_labels _ _ _ Hn). intros l. apply compose_seq_total; [apply compose_slice_total|].
    apply compose_each_total. intros; apply compose_slice_total.
Qed.
End Writes.

(** ** Comparing fields *)

(** Comparisons one after the other, until one is not [Equal]. *)
Definition cmp_then (c : outcome comparison) (k : outcome comparison) : outcome comparison :=
  let! c := c in match c with Eq => k | c => Ret c end.

(** Fields that are compared as their octets are compared as a whole. *)
Lemma cmp_then_fields c k u v s t :
  c = Ret (iter_cmp u v) -> apart u v -> k = Ret (iter_cmp s t) -> cmp_then c k = Ret (iter_cmp (u ++ s) (v ++ t)).
Proof. intros -> Ha ->. rewrite iter_cmp_app_apart by done. unfold cmp_then; simpl. by destruct (iter_cmp u v). Qed.

Lemma be_cmp n a b :
  0 <= a < 2 ^ (8 * Z.of_nat n) -> 0 <= b < 2 ^ (8 * Z.of_nat n) -> (a ?= b) = iter_cmp (to_be_bytes n a) (to_be_bytes n b).
Proof.
  revert a b; induction n as [|n IH]; intros a b Ha Hb; cbn [to_be_bytes].
  - simpl in *. apply Z.compare_eq_iff. lia.
  - replace (8 * Z.of_nat (S n)) with (8 * Z.of_nat n + 8) in * by lia. rewrite Z.pow_add_r in * by lia.
    rewrite iter_cmp_app by (by rewrite !length_to_be_bytes). rewrite <- IH.
    + pose proof (Z.div_mod a (2 ^ 8)) as Ea. pose proof (Z.div_mod b (2 ^ 8)) as Eb.
      pose proof (Z.mod_pos_bound a (2 ^ 8)). pose proof (Z.mod_pos_bound b (2 ^ 8)). cbn [iter_cmp].
      destruct (Z.compare_spec (a / 2 ^ 8) (b / 2 ^ 8)), (Z.compare_spec (a mod 2 ^ 8) (b mod 2 ^ 8));
        rewrite ?Z.compare_eq_iff, ?Z.compare_lt_iff, ?Z.compare_gt_iff; lia.
    + split; [apply Z.div_pos; lia|apply Z.div_lt_upper_bound; lia].
    + split; [apply Z.div_pos; lia|apply Z.div_lt_upper_bound; lia].
Qed.

Lemma apart_cons a s t : apart s t -> apart (a :: s) (a :: t).
Proof.
  intros Ha Hp. f_equal. apply Ha. destruct Hp as [Hp|Hp]; [left|right]; by apply prefix_cons_inv_2 in Hp.
Qed.

Lemma apart_head a b s t : a <> b -> apart (a :: s) (b :: t).
Proof. intros Hab [Hp|Hp]; apply prefix_cons_inv_1 in Hp; congruence. Qed.

(** Fields that tell where they end are apart. *)
Lemma apart_app u v s t : length u = length v -> (u = v -> apart s t) -> apart (u ++ s) (v ++ t).
Proof.
  revert v; induction u as [|a u IH]; intros [|b v]; try done; intros Hl Hs; [by apply Hs|].
  injection Hl as Hl. destruct (decide (a = b)) as [->|?]; [|by apply apart_head]. apply apart_cons, IH; [done|].
  intros ->. by apply Hs.
Qed.

Lemma apart_prefixed a b s t : (a = b -> length s = length t) -> apart (a :: s) (b :: t).
Proof. intros Hl. destruct (decide (a = b)) as [->|?]; [apply apart_cons, apart_length; auto|by apply apart_head]. Qed.

Lemma apart_labels ls ms : abs_labels ls -> abs_labels ms -> apart (labels_wire ls) (labels_wire ms).
Proof.
  revert ms; induction ls as [|l ls IH]; intros [|m ms] Hl Hm; try (by destruct Hl as ([|] & ? & _)); try (by destruct Hm as ([|] & ? & _)).
  rewrite !labels_wire_cons. destruct (decide (zlen l = zlen m)) as [E|?]; [|by apply apart_head].
  rewrite E. apply apart_cons. unfold zlen in E. apply apart_app; [lia|intros ->].
  assert (Hr : ~ nonroot []) by (intros [[Hlt _] _]; simpl in Hlt; lia).
  apply abs_labels_cons in Hl as [[-> ->]|[Hn Hl]], Hm as [[? ->]|[Hn' Hm]]; subst; [by apply apart_length|done|done|by apply IH].
Qed.

Lemma canon_abs ls : abs_labels ls -> abs_labels (canon ls).
Proof.
  intros (part & -> & Hp). exists (canon part). split; [by rewrite map_app|]. apply Forall_map.
  eapply Forall_impl; [exact Hp|]. intros l [Hl Hw]. unfold nonroot, label_make_canonical. rewrite length_map. split; [done|].
  apply Forall_map. eapply Forall_impl; [exact Hw|]. intros ch. apply to_ascii_lowercase_u8.
Qed.

Lemma apart_canonical ls ms :
  abs_labels ls -> abs_labels ms -> apart (map to_ascii_lowercase (labels_wire ls)) (map to_ascii_lowercase (labels_wire ms)).
Proof. intros Hl Hm. rewrite <- !labels_wire_canonical by auto with octets. apply apart_labels; by apply canon_abs. Qed.
