(* ===== verification/Rdata.v ===== *)
(** * Record data of the basic types ([src/src/rdata/], [src/src/base/rdata.rs])

    The types of RFC 1035 except TXT, AAAA, SRV and DNAME.  Every type has its
    record, its parser, the [ComposeRecordData] instance, the comparisons and the
    scanner of its text.  The theorems say that parsing finds exactly the data
    that is there, also behind compression pointers, that what is composed is
    what is parsed, that the announced length is right, and that the canonical
    order is the order of the canonical wire format RFC 4034 demands. *)

From S2P Require Import Prelude Octets Serial Symbol CharStr Label Traits Name ParsedName Header Compressor MessageBuilder Message Record Scanner Ttl Layout.
From stdpp Require Import strings.
#[local] Open Scope Z_scope.

(** ** The interface *)

Class ParseRecordData (D P : Type) : Type := parse_rdata : Z -> P -> outcome (result (option D * P) ParseError).
Class ParseAnyRecordData (D P : Type) : Type := parse_any_rdata : Z -> P -> outcome (result (D * P) ParseError).

(** The [parse_rdata] of a type that has one record type only. *)
Definition parse_own {D P} (own : Z) (parse : P -> outcome (result (D * P) ParseError)) (rtype : Z) (p : P)
    : outcome (result (option D * P) ParseError) :=
  if rtype =? own then let!? (d, p) := parse p in Ret (Ok (Some d, p)) else Ret (Ok (None, p)).

Definition and_then (c k : outcome bool) : outcome bool := let! c := c in if c : bool then k else Ret false.

(** Addition of the lengths of fields.  An overflow, which the theorems exclude, is
    a panic here. *)
Definition u16_add (a b : Z) : outcome Z := if a + b <? 2 ^ 16 then Ret (a + b) else Panic.

(** [u16::try_from(len).expect(..)]. *)
Definition len_u16 (len : Z) : outcome Z := if len <? 2 ^ 16 then Ret len else Panic.

(** A name in the data of a well-known type is compressed if the target does that. *)
Definition compose_known_name {B N I} `{Composer B} `{ToLabelIter N I} (n : N) : pusher B :=
  if can_compress (B:=B) then append_compressed_name n else name_compose n.

Definition RTYPE_A : Z := 1.
Definition RTYPE_NS : Z := 2.
Definition RTYPE_MD : Z := 3.
Definition RTYPE_MF : Z := 4.
Definition RTYPE_CNAME : Z := 5.
Definition RTYPE_SOA : Z := 6.
Definition RTYPE_MB : Z := 7.
Definition RTYPE_MG : Z := 8.
Definition RTYPE_MR : Z := 9.
Definition RTYPE_NULL : Z := 10.
Definition RTYPE_PTR : Z := 12.
Definition RTYPE_HINFO : Z := 13.
Definition RTYPE_MINFO : Z := 14.
Definition RTYPE_MX : Z := 15.
Definition RTYPE_AAAA : Z := 28.
Definition RTYPE_SRV : Z := 33.
Definition RTYPE_DNAME : Z := 39.

(** ** Data that is one name: [name_type_well_known!] and [name_type_canonical!] *)

Record NameData (N : Type) := mkNameData { nd_name : N }.
Arguments mkNameData {N} nd_name.
Arguments nd_name {N} _.

Definition name_data_parse {P} `{OctetsParser P} (p : P) : outcome (result (NameData ParsedName * P) ParseError) :=
  let!? (n, p) := ended (parsed_parse p) in Ret (Ok (mkNameData n, p)).

Definition name_data_scan {S N} `{Scanner S N} (scanner : S)
    : outcome (S * result (NameData N) StrError) :=
  scan_then (s_scan_name scanner) (fun n => scan_ok (mkNameData n)).

Section NameData.
Context {N I : Type} `{ToLabelIter N I} {M J : Type} `{ToLabelIter M J}.

Definition name_data_eq (a : NameData N) (b : NameData M) : outcome bool := name_eq (nd_name a) (nd_name b).
Definition name_data_cmp (a : NameData N) (b : NameData M) : outcome comparison := name_cmp (nd_name a) (nd_name b).
Definition name_data_canonical_cmp (a : NameData N) (b : NameData M) : outcome comparison :=
  lowercase_composed_cmp (nd_name a) (nd_name b).
End NameData.

Section NameCompose.
Context {B : Type} `{Composer B} {N I : Type} `{ToLabelIter N I}.

Definition well_known_rdlen (d : NameData N) (compress : bool) : outcome (option Z) :=
  if compress then Ret None else let! len := compose_len (nd_name d) in Ret (Some len).
Definition well_known_compose (d : NameData N) : pusher B := compose_known_name (nd_name d).
Definition name_data_compose_canonical (d : NameData N) : pusher B := name_compose_canonical (nd_name d).

Definition canonical_rdlen (d : NameData N) (compress : bool) : outcome (option Z) :=
  let! len := compose_len (nd_name d) in Ret (Some len).
Definition canonical_compose (d : NameData N) : pusher B := name_compose (nd_name d).
End NameCompose.

(** The instances the macros make for the record type [own]. *)
Definition well_known_data (own : Z) {B N I} `{Composer B} `{ToLabelIter N I} : ComposeRecordData (NameData N) B := {|
  rd_rtype _ := own;
  rd_rdlen := well_known_rdlen;
  compose_rdata := well_known_compose;
  compose_canonical_rdata := name_data_compose_canonical
|}.

Definition canonical_data (own : Z) {B N I} `{Composer B} `{ToLabelIter N I} : ComposeRecordData (NameData N) B := {|
  rd_rtype _ := own;
  rd_rdlen := canonical_rdlen;
  compose_rdata := canonical_compose;
  compose_canonical_rdata := name_data_compose_canonical
|}.

(** ** A and AAAA *)

(** An [Ipv4Addr] is its four octets, an [Ipv6Addr] its sixteen. *)
Record A := mkA { a_addr : list Z }.
Record Aaaa := mkAaaa { aaaa_addr : list Z }.

Section Addresses.
Context {P : Type} `{OctetsParser P}.

Definition ipv4_parse (p : P) : result (list Z * P) ParseError :=
  let? (a, p) := u8_parse p in let? (b, p) := u8_parse p in
  let? (c, p) := u8_parse p in let? (d, p) := u8_parse p in Ok ([a; b; c; d], p).

(** [parse_buf] into an array of 16 octets. *)
Definition ipv6_parse (p : P) : result (list Z * P) ParseError := short (p_parse_octets p 16).

Definition a_parse (p : P) : outcome (result (A * P) ParseError) :=
  let!? (addr, p) := Ret (ipv4_parse p) in Ret (Ok (mkA addr, p)).
Definition aaaa_parse (p : P) : outcome (result (Aaaa * P) ParseError) :=
  let!? (addr, p) := Ret (ipv6_parse p) in Ret (Ok (mkAaaa addr, p)).
End Addresses.

(** The derived order of addresses is that of their octets. *)
Definition a_eq (a b : A) : bool := bool_decide (a_addr a = a_addr b).
Definition a_cmp (a b : A) : comparison := iter_cmp (a_addr a) (a_addr b).
Definition a_canonical_cmp : A -> A -> comparison := a_cmp.
Definition aaaa_eq (a b : Aaaa) : bool := bool_decide (aaaa_addr a = aaaa_addr b).
Definition aaaa_cmp (a b : Aaaa) : comparison := iter_cmp (aaaa_addr a) (aaaa_addr b).
Definition aaaa_canonical_cmp : Aaaa -> Aaaa -> comparison := aaaa_cmp.

#[export] Instance a_data {B} `{Composer B} : ComposeRecordData A B := {|
  rd_rtype _ := RTYPE_A;
  rd_rdlen _ _ := Ret (Some 4);
  compose_rdata d := push_compose (compose_slice (a_addr d));
  compose_canonical_rdata d := push_compose (compose_slice (a_addr d))
|}.

#[export] Instance aaaa_data {B} `{Composer B} : ComposeRecordData Aaaa B := {|
  rd_rtype _ := RTYPE_AAAA;
  rd_rdlen _ _ := Ret (Some 16);
  compose_rdata d := push_compose (compose_slice (aaaa_addr d));
  compose_canonical_rdata d := push_compose (compose_slice (aaaa_addr d))
|}.

(** ** HINFO *)

Record Hinfo := mkHinfo { hi_cpu : CharStr; hi_os : CharStr }.

Definition hinfo_parse {P} `{OctetsParser P} (p : P) : outcome (result (Hinfo * P) ParseError) :=
  let!? (cpu, p) := Ret (cs_parse p) in
  let!? (os, p) := Ret (cs_parse p) in
  Ret (Ok (mkHinfo cpu os, p)).

Definition hinfo_scan {S N} `{Scanner S N} (scanner : S) : outcome (S * result Hinfo StrError) :=
  scan_then (s_scan_charstr scanner) (fun cpu scanner =>
  scan_then (s_scan_charstr scanner) (fun os => scan_ok (mkHinfo cpu os))).

Definition hinfo_eq (a b : Hinfo) : bool := cs_eq (hi_cpu a) (hi_cpu b) && cs_eq (hi_os a) (hi_os b).
Definition hinfo_cmp (a b : Hinfo) : comparison :=
  match cs_cmp (hi_cpu a) (hi_cpu b) with Eq => cs_cmp (hi_os a) (hi_os b) | c => c end.
Definition hinfo_canonical_cmp (a b : Hinfo) : comparison :=
  match cs_canonical_cmp (hi_cpu a) (hi_cpu b) with Eq => cs_canonical_cmp (hi_os a) (hi_os b) | c => c end.

Definition hinfo_rdlen (d : Hinfo) : outcome (option Z) :=
  let! cpu := cs_compose_len (hi_cpu d) in let! os := cs_compose_len (hi_os d) in
  let! len := u16_add cpu os in Ret (Some len).
Definition hinfo_compose {B} `{OctetsBuilder B} (d : Hinfo) : pusher B :=
  push_seq (cs_compose (hi_cpu d)) (cs_compose (hi_os d)).

#[export] Instance hinfo_data {B} `{Composer B} : ComposeRecordData Hinfo B := {|
  rd_rtype _ := RTYPE_HINFO;
  rd_rdlen d _ := hinfo_rdlen d;
  compose_rdata := hinfo_compose;
  compose_canonical_rdata := hinfo_compose
|}.

(** ** NULL *)

Record Null := mkNull { null_octets : list Z }.

Definition null_from_octets (data : list Z) : result Null LongRecordData :=
  if 65535 <? zlen data then Err LongRecordDataErr else Ok (mkNull data).

Definition null_parse {P} `{OctetsParser P} (p : P) : outcome (result (Null * P) ParseError) :=
  let!? (data, p) := Ret (short (p_parse_octets p (p_remaining p))) in Ret (Ok (mkNull data, p)).

Definition null_eq (a b : Null) : bool := bool_decide (null_octets a = null_octets b).
Definition null_cmp (a b : Null) : comparison := iter_cmp (null_octets a) (null_octets b).

#[export] Instance null_data {B} `{Composer B} : ComposeRecordData Null B := {|
  rd_rtype _ := RTYPE_NULL;
  rd_rdlen d _ := let! len := len_u16 (zlen (null_octets d)) in Ret (Some len);
  compose_rdata d := push_compose (compose_slice (null_octets d));
  compose_canonical_rdata d := push_compose (compose_slice (null_octets d))
|}.

(** ** MINFO *)

Record Minfo (N : Type) := mkMinfo { mi_rmailbx : N; mi_emailbx : N }.
Arguments mkMinfo {N} mi_rmailbx mi_emailbx.
Arguments mi_rmailbx {N} _.
Arguments mi_emailbx {N} _.

Definition minfo_parse {P} `{OctetsParser P} (p : P) : outcome (result (Minfo ParsedName * P) ParseError) :=
  let!? (rmailbx, p) := ended (parsed_parse p) in
  let!? (emailbx, p) := ended (parsed_parse p) in
  Ret (Ok (mkMinfo rmailbx emailbx, p)).

Definition minfo_scan {S N} `{Scanner S N} (scanner : S)
    : outcome (S * result (Minfo N) StrError) :=
  scan_then (s_scan_name scanner) (fun rmailbx scanner =>
  scan_then (s_scan_name scanner) (fun emailbx => scan_ok (mkMinfo rmailbx emailbx))).

(** ** MX *)

Record Mx (N : Type) := mkMx { mx_preference : Z; mx_exchange : N }.
Arguments mkMx {N} mx_preference mx_exchange.
Arguments mx_preference {N} _.
Arguments mx_exchange {N} _.

Definition mx_parse {P} `{OctetsParser P} (p : P) : outcome (result (Mx ParsedName * P) ParseError) :=
  let!? (preference, p) := Ret (u16_parse p) in
  let!? (exchange, p) := ended (parsed_parse p) in
  Ret (Ok (mkMx preference exchange, p)).

Definition mx_scan {S N} `{Scanner S N} (oc : bool) (scanner : S)
    : outcome (S * result (Mx N) StrError) :=
  scan_then (scan_uint oc 16 scanner) (fun preference scanner =>
  scan_then (s_scan_name scanner) (fun exchange => scan_ok (mkMx preference exchange))).

(** ** SOA *)

Record Soa (N : Type) := mkSoa {
  soa_mname : N; soa_rname : N; soa_serial : Serial;
  soa_refresh : Ttl; soa_retry : Ttl; soa_expire : Ttl; soa_minimum : Ttl
}.
Arguments mkSoa {N} soa_mname soa_rname soa_serial soa_refresh soa_retry soa_expire soa_minimum.
Arguments soa_mname {N} _.
Arguments soa_rname {N} _.
Arguments soa_serial {N} _.
Arguments soa_refresh {N} _.
Arguments soa_retry {N} _.
Arguments soa_expire {N} _.
Arguments soa_minimum {N} _.

Definition soa_parse {P} `{OctetsParser P} (p : P) : outcome (result (Soa ParsedName * P) ParseError) :=
  let!? (mname, p) := ended (parsed_parse p) in
  let!? (rname, p) := ended (parsed_parse p) in
  let!? (serial, p) := Ret (serial_parse p) in
  let!? (refresh, p) := Ret (ttl_parse p) in
  let!? (retry, p) := Ret (ttl_parse p) in
  let!? (expire, p) := Ret (ttl_parse p) in
  let!? (minimum, p) := Ret (ttl_parse p) in
  Ret (Ok (mkSoa mname rname serial refresh retry expire minimum, p)).

(** [Serial::scan] is that of [u32]. *)
Definition soa_scan {S N} `{Scanner S N} (oc : bool) (scanner : S)
    : outcome (S * result (Soa N) StrError) :=
  let ttl scanner := scan_then (scan_ttl oc scanner) (fun secs => scan_ok (ttl_from_secs secs)) in
  scan_then (s_scan_name scanner) (fun mname scanner =>
  scan_then (s_scan_name scanner) (fun rname scanner =>
  scan_then (scan_uint oc 32 scanner) (fun serial scanner =>
  scan_then (ttl scanner) (fun refresh scanner =>
  scan_then (ttl scanner) (fun retry scanner =>
  scan_then (ttl scanner) (fun expire scanner =>
  scan_then (ttl scanner) (fun minimum =>
  scan_ok (mkSoa mname rname (mkSerial serial) refresh retry expire minimum)))))))).

(** ** SRV *)

Record Srv (N : Type) := mkSrv { srv_priority : Z; srv_weight : Z; srv_port : Z; srv_target : N }.
Arguments mkSrv {N} srv_priority srv_weight srv_port srv_target.
Arguments srv_priority {N} _.
Arguments srv_weight {N} _.
Arguments srv_port {N} _.
Arguments srv_target {N} _.

Definition srv_parse {P} `{OctetsParser P} (p : P) : outcome (result (Srv ParsedName * P) ParseError) :=
  let!? (priority, p) := Ret (u16_parse p) in
  let!? (weight, p) := Ret (u16_parse p) in
  let!? (port, p) := Ret (u16_parse p) in
  let!? (target, p) := ended (parsed_parse p) in
  Ret (Ok (mkSrv priority weight port target, p)).

Definition srv_scan {S N} `{Scanner S N} (oc : bool) (scanner : S)
    : outcome (S * result (Srv N) StrError) :=
  scan_then (scan_uint oc 16 scanner) (fun priority scanner =>
  scan_then (scan_uint oc 16 scanner) (fun weight scanner =>
  scan_then (scan_uint oc 16 scanner) (fun port scanner =>
  scan_then (s_scan_name scanner) (fun target => scan_ok (mkSrv priority weight port target))))).

(** ** Comparing *)

Section Comparing.
Context {N I : Type} `{ToLabelIter N I} {M J : Type} `{ToLabelIter M J}.

Definition minfo_eq (a : Minfo N) (b : Minfo M) : outcome bool :=
  and_then (name_eq (mi_rmailbx a) (mi_rmailbx b)) (name_eq (mi_emailbx a) (mi_emailbx b)).
Definition minfo_cmp (a : Minfo N) (b : Minfo M) : outcome comparison :=
  cmp_then (name_cmp (mi_rmailbx a) (mi_rmailbx b)) (name_cmp (mi_emailbx a) (mi_emailbx b)).
Definition minfo_canonical_cmp (a : Minfo N) (b : Minfo M) : outcome comparison :=
  cmp_then (lowercase_composed_cmp (mi_rmailbx a) (mi_rmailbx b)) (lowercase_composed_cmp (mi_emailbx a) (mi_emailbx b)).

Definition mx_eq (a : Mx N) (b : Mx M) : outcome bool :=
  and_then (Ret (mx_preference a =? mx_preference b)) (name_eq (mx_exchange a) (mx_exchange b)).
Definition mx_cmp (a : Mx N) (b : Mx M) : outcome comparison :=
  cmp_then (Ret (mx_preference a ?= mx_preference b)) (name_cmp (mx_exchange a) (mx_exchange b)).
Definition mx_canonical_cmp (a : Mx N) (b : Mx M) : outcome comparison :=
  cmp_then (Ret (mx_preference a ?= mx_preference b)) (lowercase_composed_cmp (mx_exchange a) (mx_exchange b)).

Definition soa_eq (a : Soa N) (b : Soa M) : outcome bool :=
  and_then (name_eq (soa_mname a) (soa_mname b))
    (and_then (name_eq (soa_rname a) (soa_rname b))
      (Ret ((serial_int (soa_serial a) =? serial_int (soa_serial b)) && (ttl_secs (soa_refresh a) =? ttl_secs (soa_refresh b)) &&
            (ttl_secs (soa_retry a) =? ttl_secs (soa_retry b)) && (ttl_secs (soa_expire a) =? ttl_secs (soa_expire b)) &&
            (ttl_secs (soa_minimum a) =? ttl_secs (soa_minimum b))))).

(** The fields behind the names. *)
Definition soa_cmp_fixed (a : Soa N) (b : Soa M) : outcome comparison :=
  cmp_then (Ret (ttl_secs (soa_refresh a) ?= ttl_secs (soa_refresh b)))
    (cmp_then (Ret (ttl_secs (soa_retry a) ?= ttl_secs (soa_retry b)))
      (cmp_then (Ret (ttl_secs (soa_expire a) ?= ttl_secs (soa_expire b)))
        (Ret (ttl_secs (soa_minimum a) ?= ttl_secs (soa_minimum b))))).

Definition soa_cmp (a : Soa N) (b : Soa M) : outcome comparison :=
  cmp_then (name_cmp (soa_mname a) (soa_mname b))
    (cmp_then (name_cmp (soa_rname a) (soa_rname b))
      (cmp_then (Ret (serial_into_int (soa_serial a) ?= serial_into_int (soa_serial b))) (soa_cmp_fixed a b))).

Definition soa_canonical_cmp (a : Soa N) (b : Soa M) : outcome comparison :=
  cmp_then (lowercase_composed_cmp (soa_mname a) (soa_mname b))
    (cmp_then (lowercase_composed_cmp (soa_rname a) (soa_rname b))
      (cmp_then (Ret (serial_canonical_cmp (soa_serial a) (soa_serial b))) (soa_cmp_fixed a b))).

Definition srv_eq (a : Srv N) (b : Srv M) : outcome bool :=
  and_then (Ret ((srv_priority a =? srv_priority b) && (srv_weight a =? srv_weight b) && (srv_port a =? srv_port b)))
    (name_eq (srv_target a) (srv_target b)).

Definition srv_cmp_head (a : Srv N) (b : Srv M) (k : outcome comparison) : outcome comparison :=
  cmp_then (Ret (srv_priority a ?= srv_priority b))
    (cmp_then (Ret (srv_weight a ?= srv_weight b)) (cmp_then (Ret (srv_port a ?= srv_port b)) k)).

Definition srv_cmp (a : Srv N) (b : Srv M) : outcome comparison :=
  srv_cmp_head a b (name_cmp (srv_target a) (srv_target b)).
Definition srv_canonical_cmp (a : Srv N) (b : Srv M) : outcome comparison :=
  srv_cmp_head a b (lowercase_composed_cmp (srv_target a) (srv_target b)).
End Comparing.

(** ** Composing *)

Section ComposingData.
Context {B : Type} `{Composer B} {N I : Type} `{ToLabelIter N I}.

#[export] Instance minfo_data : ComposeRecordData (Minfo N) B := {|
  rd_rtype _ := RTYPE_MINFO;
  rd_rdlen d compress :=
    if compress then Ret None
    else let! r := compose_len (mi_rmailbx d) in let! e := compose_len (mi_emailbx d) in
         let! len := u16_add r e in Ret (Some len);
  compose_rdata d := push_seq (compose_known_name (mi_rmailbx d)) (compose_known_name (mi_emailbx d));
  compose_canonical_rdata d := push_seq (name_compose_canonical (mi_rmailbx d)) (name_compose_canonical (mi_emailbx d))
|}.

#[export] Instance mx_data : ComposeRecordData (Mx N) B := {|
  rd_rtype _ := RTYPE_MX;
  rd_rdlen d compress :=
    if compress then Ret None
    else let! e := compose_len (mx_exchange d) in let! len := u16_add 2 e in Ret (Some len);
  compose_rdata d := push_seq (push_compose (u16_compose (mx_preference d))) (compose_known_name (mx_exchange d));
  compose_canonical_rdata d :=
    push_seq (push_compose (u16_compose (mx_preference d))) (name_compose_canonical (mx_exchange d))
|}.

Definition soa_compose_fixed (d : Soa N) : pusher B :=
  push_seq (push_compose (serial_compose (soa_serial d))) (push_seq (push_compose (ttl_compose (soa_refresh d)))
    (push_seq (push_compose (ttl_compose (soa_retry d))) (push_seq (push_compose (ttl_compose (soa_expire d)))
      (push_compose (ttl_compose (soa_minimum d)))))).

#[export] Instance soa_data : ComposeRecordData (Soa N) B := {|
  rd_rtype _ := RTYPE_SOA;
  rd_rdlen d compress :=
    if compress then Ret None
    else let! m := compose_len (soa_mname d) in let! r := compose_len (soa_rname d) in
         let! len := u16_add m r in let! len := u16_add len 4 in let! len := u16_add len (4 * 4) in Ret (Some len);
  compose_rdata d :=
    push_seq (compose_known_name (soa_mname d)) (push_seq (compose_known_name (soa_rname d)) (soa_compose_fixed d));
  compose_canonical_rdata d :=
    push_seq (name_compose_canonical (soa_mname d))
      (push_seq (name_compose_canonical (soa_rname d)) (soa_compose_fixed d))
|}.

Definition srv_compose_head (d : Srv N) : pusher B :=
  push_seq (push_compose (u16_compose (srv_priority d)))
    (push_seq (push_compose (u16_compose (srv_weight d))) (push_compose (u16_compose (srv_port d)))).

#[export] Instance srv_data : ComposeRecordData (Srv N) B := {|
  rd_rtype _ := RTYPE_SRV;
  rd_rdlen d _ := let! t := compose_len (srv_target d) in let! len := u16_add t 6 in Ret (Some len);
  compose_rdata d := push_seq (srv_compose_head d) (name_compose (srv_target d));
  compose_canonical_rdata d := push_seq (srv_compose_head d) (name_compose_canonical (srv_target d))
|}.
End ComposingData.

(** ** Parsing finds the data that is there *)

Definition name_data_at : layout (NameData labels) := lay_seq name_at (fun n => lay_ret (mkNameData n)).
Definition a_at : layout A :=
  lay_seq (be_at 1) (fun a => lay_seq (be_at 1) (fun b => lay_seq (be_at 1) (fun c => lay_seq (be_at 1) (fun d =>
  lay_ret (mkA [a; b; c; d]))))).
Definition aaaa_at : layout Aaaa := lay_seq (octets_at 16) (fun s => lay_ret (mkAaaa s)).
Definition hinfo_at : layout Hinfo := lay_seq charstr_at (fun cpu => lay_seq charstr_at (fun os => lay_ret (mkHinfo cpu os))).
Definition null_at : layout Null := lay_seq rest_at (fun s => lay_ret (mkNull s)).
Definition minfo_at : layout (Minfo labels) := lay_seq name_at (fun r => lay_seq name_at (fun e => lay_ret (mkMinfo r e))).
Definition mx_at : layout (Mx labels) := lay_seq (be_at 2) (fun p => lay_seq name_at (fun e => lay_ret (mkMx p e))).
Definition ttl_at : layout Ttl := lay_map ttl_from_secs (be_at 4).
Definition serial_at : layout Serial := lay_map mkSerial (be_at 4).
Definition soa_at : layout (Soa labels) :=
  lay_seq name_at (fun m => lay_seq name_at (fun r => lay_seq serial_at (fun s => lay_seq ttl_at (fun t1 =>
  lay_seq ttl_at (fun t2 => lay_seq ttl_at (fun t3 => lay_seq ttl_at (fun t4 => lay_ret (mkSoa m r s t1 t2 t3 t4)))))))).
Definition srv_at : layout (Srv labels) :=
  lay_seq (be_at 2) (fun p => lay_seq (be_at 2) (fun w => lay_seq (be_at 2) (fun o => lay_seq name_at (fun t =>
  lay_ret (mkSrv p w o t))))).

(** The same data with names that are related. *)
Section Relations.
Context {N M : Type} (R : N -> M -> Prop).

Definition name_data_rel (d : NameData N) (x : NameData M) : Prop := R (nd_name d) (nd_name x).
Definition minfo_rel (d : Minfo N) (x : Minfo M) : Prop := R (mi_rmailbx d) (mi_rmailbx x) /\ R (mi_emailbx d) (mi_emailbx x).
Definition mx_rel (d : Mx N) (x : Mx M) : Prop := mx_preference d = mx_preference x /\ R (mx_exchange d) (mx_exchange x).
Definition soa_rel (d : Soa N) (x : Soa M) : Prop :=
  R (soa_mname d) (soa_mname x) /\ R (soa_rname d) (soa_rname x) /\ soa_serial d = soa_serial x /\
  soa_refresh d = soa_refresh x /\ soa_retry d = soa_retry x /\ soa_expire d = soa_expire x /\ soa_minimum d = soa_minimum x.
Definition srv_rel (d : Srv N) (x : Srv M) : Prop :=
  srv_priority d = srv_priority x /\ srv_weight d = srv_weight x /\ srv_port d = srv_port x /\ R (srv_target d) (srv_target x).
End Relations.

Section Parsing.
Context {P : Type} `{OctetsParserOk P}.

Lemma name_data_finds : Finds (P:=P) name_data_parse name_data_at (name_data_rel wf_parsed).
Proof. unfold name_data_parse. finds. Qed.

Lemma a_finds : Finds (P:=P) a_parse a_at eq.
Proof.
  eapply (Finds_ext _ (fun p =>
    let!? (a, p) := Ret (u8_parse p) in let!? (b, p) := Ret (u8_parse p) in
    let!? (c, p) := Ret (u8_parse p) in let!? (d, p) := Ret (u8_parse p) in Ret (Ok (mkA [a; b; c; d], p)))).
  - intros p. unfold a_parse, ipv4_parse. by repeat case_match; simplify_eq.
  - finds.
Qed.

Lemma aaaa_finds : Finds (P:=P) aaaa_parse aaaa_at eq.
Proof. unfold aaaa_parse, ipv6_parse. finds. Qed.

Lemma hinfo_finds : Finds (P:=P) hinfo_parse hinfo_at eq.
Proof. unfold hinfo_parse. finds. Qed.

Lemma null_finds : Finds (P:=P) null_parse null_at eq.
Proof. unfold null_parse. finds. Qed.

Lemma minfo_finds : Finds (P:=P) minfo_parse minfo_at (minfo_rel wf_parsed).
Proof. unfold minfo_parse. finds. Qed.

Lemma mx_finds : Finds (P:=P) mx_parse mx_at (mx_rel wf_parsed).
Proof. unfold mx_parse. finds. Qed.

Lemma soa_finds : Finds (P:=P) soa_parse soa_at (soa_rel wf_parsed).
Proof. unfold soa_parse. finds. Qed.

Lemma srv_finds : Finds (P:=P) srv_parse srv_at (srv_rel wf_parsed).
Proof. unfold srv_parse. finds. Qed.
End Parsing.

(** ** The wire format *)

Definition lower : list Z -> list Z := map to_ascii_lowercase.

(** The labels of an absolute name. *)
Definition name_good (ls : labels) : Prop := abs_labels ls /\ (length (labels_wire ls) <= 255)%nat.

Definition name_data_wire (x : NameData labels) : list Z := labels_wire (nd_name x).
Definition name_data_cwire (x : NameData labels) : list Z := lower (labels_wire (nd_name x)).
Definition a_wire (x : A) : list Z := a_addr x.
Definition aaaa_wire (x : Aaaa) : list Z := aaaa_addr x.
Definition hinfo_wire (x : Hinfo) : list Z := cs_wire (hi_cpu x) ++ cs_wire (hi_os x).
Definition null_wire (x : Null) : list Z := null_octets x.
Definition minfo_wire (x : Minfo labels) : list Z := labels_wire (mi_rmailbx x) ++ labels_wire (mi_emailbx x).
Definition minfo_cwire (x : Minfo labels) : list Z := lower (labels_wire (mi_rmailbx x)) ++ lower (labels_wire (mi_emailbx x)).
Definition mx_wire (x : Mx labels) : list Z := to_be_bytes 2 (mx_preference x) ++ labels_wire (mx_exchange x).
Definition mx_cwire (x : Mx labels) : list Z := to_be_bytes 2 (mx_preference x) ++ lower (labels_wire (mx_exchange x)).
Definition soa_tail {N} (x : Soa N) : list Z :=
  to_be_bytes 4 (serial_int (soa_serial x)) ++ to_be_bytes 4 (ttl_secs (soa_refresh x)) ++
  to_be_bytes 4 (ttl_secs (soa_retry x)) ++ to_be_bytes 4 (ttl_secs (soa_expire x)) ++ to_be_bytes 4 (ttl_secs (soa_minimum x)).
Definition soa_wire (x : Soa labels) : list Z := labels_wire (soa_mname x) ++ labels_wire (soa_rname x) ++ soa_tail x.
Definition soa_cwire (x : Soa labels) : list Z :=
  lower (labels_wire (soa_mname x)) ++ lower (labels_wire (soa_rname x)) ++ soa_tail x.
Definition srv_head {N} (x : Srv N) : list Z :=
  to_be_bytes 2 (srv_priority x) ++ to_be_bytes 2 (srv_weight x) ++ to_be_bytes 2 (srv_port x).
Definition srv_wire (x : Srv labels) : list Z := srv_head x ++ labels_wire (srv_target x).
Definition srv_cwire (x : Srv labels) : list Z := srv_head x ++ lower (labels_wire (srv_target x)).

(** Data as the constructors of the types allow it. *)
Definition name_data_ok (x : NameData labels) : Prop := name_good (nd_name x).
Definition a_ok (x : A) : Prop := length (a_addr x) = 4%nat /\ wf_octets (a_addr x).
Definition aaaa_ok (x : Aaaa) : Prop := length (aaaa_addr x) = 16%nat /\ wf_octets (aaaa_addr x).
Definition hinfo_ok (x : Hinfo) : Prop := cs_wf (hi_cpu x) /\ cs_wf (hi_os x).
Definition null_ok (x : Null) : Prop := zlen (null_octets x) <= 65535 /\ wf_octets (null_octets x).
Definition minfo_ok (x : Minfo labels) : Prop := name_good (mi_rmailbx x) /\ name_good (mi_emailbx x).
Definition mx_ok (x : Mx labels) : Prop := is_u16 (mx_preference x) /\ name_good (mx_exchange x).
Definition soa_ok (x : Soa labels) : Prop :=
  name_good (soa_mname x) /\ name_good (soa_rname x) /\ wf_serial (soa_serial x) /\ ttl_ok (soa_refresh x) /\
  ttl_ok (soa_retry x) /\ ttl_ok (soa_expire x) /\ ttl_ok (soa_minimum x).
Definition srv_ok (x : Srv labels) : Prop :=
  is_u16 (srv_priority x) /\ is_u16 (srv_weight x) /\ is_u16 (srv_port x) /\ name_good (srv_target x).

(** The octets of data read as the data. *)

Lemma Lays_good ls : name_good ls -> Lays name_at ls (labels_wire ls).
Proof. intros [? ?]. by apply Lays_name. Qed.

Lemma Lays_u8 v : is_u8 v -> Lays (be_at 1) v [v].
Proof.
  intros Hv. replace [v] with (to_be_bytes 1 v); [by apply Lays_be|]. cbn. unfold is_u8 in Hv. by rewrite Z.mod_small by lia.
Qed.

Lemma Lays_u16 v : is_u16 v -> Lays (be_at 2) v (to_be_bytes 2 v).
Proof. intros Hv. by apply Lays_be. Qed.

Lemma Lays_u32 v : is_u32 v -> Lays (be_at 4) v (to_be_bytes 4 v).
Proof. intros Hv. by apply Lays_be. Qed.

#[export] Hint Resolve Lays_good Lays_u8 Lays_u16 Lays_u32 : layout.

Lemma LaysEnd_last {X Y} (a : layout X) x w (y : X -> Y) : Lays a x w -> LaysEnd (lay_seq a (fun x => lay_ret (y x))) (y x) w.
Proof. intros Ha. rewrite <- (app_nil_r w). eapply LaysEnd_seq; [exact Ha|]. apply Lays_end, Lays_ret. Qed.

Lemma LaysEnd_rest_last {Y} (y : list Z -> Y) s : LaysEnd (lay_seq rest_at (fun x => lay_ret (y x))) (y s) s.
Proof.
  intros t pos Hd Hp. exists s, (length t). split; [by split_and!|]. by split.
Qed.

Lemma name_data_lays x : name_data_ok x -> LaysEnd name_data_at x (name_data_wire x).
Proof. destruct x as [n]. intros Hn. apply (LaysEnd_last name_at n _ mkNameData). auto with layout. Qed.

Lemma a_lays x : a_ok x -> LaysEnd a_at x (a_wire x).
Proof.
  destruct x as [addr]. intros [Hl Hw]. cbn [a_addr] in *. destruct addr as [|a [|b [|c [|d [|]]]]]; try done.
  repeat apply Forall_cons in Hw as [? Hw]. unfold a_wire; cbn [a_addr].
  change [a; b; c; d] with ([a] ++ [b] ++ [c] ++ [d]) at 2.
  do 3 (eapply LaysEnd_seq; [by apply Lays_u8|]). apply (LaysEnd_last (be_at 1) d _ (fun d => mkA [a; b; c; d])). by apply Lays_u8.
Qed.

Lemma aaaa_lays x : aaaa_ok x -> LaysEnd aaaa_at x (aaaa_wire x).
Proof.
  destruct x as [s]. intros [Hl _]. cbn [aaaa_addr] in *. unfold aaaa_at. rewrite <- Hl.
  apply (LaysEnd_last (octets_at (length s)) s _ mkAaaa). apply Lays_octets.
Qed.

Lemma hinfo_lays x : hinfo_ok x -> LaysEnd hinfo_at x (hinfo_wire x).
Proof.
  destruct x as [cpu os]. intros [Hc Ho]. eapply LaysEnd_seq; [by apply Lays_charstr|].
  apply (LaysEnd_last charstr_at os _ (mkHinfo cpu)). by apply Lays_charstr.
Qed.

Lemma null_lays x : LaysEnd null_at x (null_wire x).
Proof. destruct x as [s]. apply (LaysEnd_rest_last mkNull). Qed.

Lemma minfo_lays x : minfo_ok x -> LaysEnd minfo_at x (minfo_wire x).
Proof.
  destruct x as [r e]. intros [Hr He]. eapply LaysEnd_seq; [by apply Lays_good|].
  apply (LaysEnd_last name_at e _ (mkMinfo r)). by apply Lays_good.
Qed.

Lemma mx_lays x : mx_ok x -> LaysEnd mx_at x (mx_wire x).
Proof.
  destruct x as [p e]. intros [Hp He]. eapply LaysEnd_seq; [by apply Lays_u16|].
  apply (LaysEnd_last name_at e _ (mkMx p)). by apply Lays_good.
Qed.

Lemma soa_lays x : soa_ok x -> LaysEnd soa_at x (soa_wire x).
Proof.
  destruct x as [m r s t1 t2 t3 t4]. intros (Hm & Hr & Hs & H1 & H2 & H3 & H4). unfold soa_wire, soa_tail.
  cbn [soa_mname soa_rname soa_serial soa_refresh soa_retry soa_expire soa_minimum] in *.
  do 2 (eapply LaysEnd_seq; [by apply Lays_good|]). eapply LaysEnd_seq; [by apply Lays_serial|].
  do 3 (eapply LaysEnd_seq; [by apply Lays_ttl|]).
  apply (LaysEnd_last ttl_at t4 _ (mkSoa m r s t1 t2 t3)). by apply Lays_ttl.
Qed.

Lemma srv_lays x : srv_ok x -> LaysEnd srv_at x (srv_wire x).
Proof.
  destruct x as [p w o t]. intros (Hp & Hw & Ho & Ht). unfold srv_wire, srv_head. rewrite <- !app_assoc.
  do 3 (eapply LaysEnd_seq; [by apply Lays_u16|]).
  apply (LaysEnd_last name_at t _ (mkSrv p w o)). by apply Lays_good.
Qed.

(** ** What is composed *)

(** What a type of record data promises.  [is_ d x] says that the value [d] is the
    data [x]: it is written as [wire x], in canonical form as [cwire x], and the
    length it announces is right.  It may announce none where names are
    compressed. *)
Class RecordDataOk (D X B : Type) `{ComposeRecordData D B} (is_ : D -> X -> Prop) (wire cwire : X -> list Z) : Prop := {
  data_writes d x : is_ d x -> Writes (B:=B) (compose_rdata d) (wire x);
  data_canonical d x : is_ d x -> Writes (B:=B) (compose_canonical_rdata d) (cwire x);
  data_rdlen d x compress : is_ d x -> zlen (wire x) < 2 ^ 16 ->
    rd_rdlen d compress = Ret (Some (zlen (wire x))) \/ (compress = true /\ rd_rdlen d compress = Ret None);
  data_cwire x : length (cwire x) = length (wire x)
}.

(** Values with names of any kind. *)
Section Is.
Context {N I : Type} `{ToLabelIter N I} `{!LabelIterOk I}.

Definition name_data_is (d : NameData N) (x : NameData labels) : Prop := name_data_rel name_ok d x.
Definition minfo_is (d : Minfo N) (x : Minfo labels) : Prop := minfo_rel name_ok d x.
Definition mx_is (d : Mx N) (x : Mx labels) : Prop := mx_rel name_ok d x /\ mx_ok x.
Definition soa_is (d : Soa N) (x : Soa labels) : Prop := soa_rel name_ok d x /\ soa_ok x.
Definition srv_is (d : Srv N) (x : Srv labels) : Prop := srv_rel name_ok d x /\ srv_ok x.
End Is.

Definition a_is (d x : A) : Prop := d = x /\ a_ok x.
Definition aaaa_is (d x : Aaaa) : Prop := d = x /\ aaaa_ok x.
Definition hinfo_is (d x : Hinfo) : Prop := d = x /\ hinfo_ok x.
Definition null_is (d x : Null) : Prop := d = x /\ null_ok x.

Lemma zlen_app {A} (s t : list A) : zlen (s ++ t) = zlen s + zlen t.
Proof. unfold zlen. rewrite length_app. lia. Qed.

Lemma zlen_to_be_bytes n v : zlen (to_be_bytes n v) = Z.of_nat n.
Proof. unfold zlen. by rewrite length_to_be_bytes. Qed.

Lemma zlen_nonneg {A} (s : list A) : 0 <= zlen s.
Proof. unfold zlen. lia. Qed.

Lemma u16_add_small a b : a + b < 2 ^ 16 -> u16_add a b = Ret (a + b).
Proof. unfold u16_add. intros ?. by destruct (Z.ltb_spec (a + b) (2 ^ 16)); [|lia]. Qed.

Lemma len_u16_small a : a < 2 ^ 16 -> len_u16 a = Ret a.
Proof. unfold len_u16. intros ?. by destruct (Z.ltb_spec a (2 ^ 16)); [|lia]. Qed.

Lemma cs_compose_len_wire c : cs_wf c -> cs_compose_len c = Ret (zlen (cs_wire c)).
Proof.
  intros [Hl _]. unfold cs_len, CHARSTR_MAX_LEN in Hl. unfold cs_compose_len, cs_wire, zlen in *. cbn [length].
  destruct (Z.ltb_spec (Z.of_nat (length (cs_octets c)) + 1) (2 ^ 16)); [|lia]. f_equal. lia.
Qed.

Section NameLens.
Context {N I : Type} `{ToLabelIter N I} `{!LabelIterOk I}.

Lemma name_ok_len (n : N) ls : name_ok n ls -> compose_len n = Ret (zlen (labels_wire ls)).
Proof. by intros ((_ & Hc & _) & _). Qed.

Lemma name_ok_good (n : N) ls : name_ok n ls -> name_good ls.
Proof. by intros (_ & Ha & Hl). Qed.

Lemma Writes_known {B} `{OctetsBuilderOk B} `{!Composer B} `{!PlainComposer B} (n : N) ls :
  name_ok n ls -> Writes (B:=B) (compose_known_name n) (labels_wire ls).
Proof. intros Hn. unfold compose_known_name. rewrite plain_cannot_compress. by apply Writes_name. Qed.
End NameLens.

(** Composing a sequence of fields, and adding up their lengths. *)
Ltac writes := repeat first [apply Writes_slice | apply Writes_charstr; assumption | eapply Writes_known; eassumption
  | eapply Writes_canonical; eassumption | eapply Writes_name; eassumption | apply Writes_seq].

Ltac rdlens := repeat first
  [ progress rewrite ?zlen_app, ?zlen_to_be_bytes in *
  | erewrite name_ok_len by eassumption
  | rewrite cs_compose_len_wire by assumption
  | rewrite u16_add_small by lia
  | rewrite len_u16_small by lia
  | progress cbv beta iota ].

Section Composed.
Context {B : Type} `{OctetsBuilderOk B} `{!Composer B} `{!PlainComposer B}.

#[export] Instance a_data_ok : RecordDataOk A A B a_is a_wire a_wire.
Proof.
  split; [intros d x [<- _]; apply Writes_slice..| |done]. intros d x c [<- [Hl _]] _. left. simpl. unfold a_wire, zlen. by rewrite Hl.
Qed.

#[export] Instance aaaa_data_ok : RecordDataOk Aaaa Aaaa B aaaa_is aaaa_wire aaaa_wire.
Proof.
  split; [intros d x [<- _]; apply Writes_slice..| |done].
  intros d x c [<- [Hl _]] _. left. simpl. unfold aaaa_wire, zlen. by rewrite Hl.
Qed.

#[export] Instance hinfo_data_ok : RecordDataOk Hinfo Hinfo B hinfo_is hinfo_wire hinfo_wire.
Proof.
  split; [intros d x [<- [? ?]]; apply Writes_seq; by apply Writes_charstr..| |done].
  intros d x c [<- [? ?]] Hl. left. cbn [rd_rdlen hinfo_data]. unfold hinfo_rdlen, hinfo_wire in *. rdlens. done.
Qed.

#[export] Instance null_data_ok : RecordDataOk Null Null B null_is null_wire null_wire.
Proof.
  split; [intros d x [<- _]; apply Writes_slice..| |done]. intros d x c [<- _] Hl. left. simpl. by rewrite len_u16_small.
Qed.

Context {N I : Type} `{ToLabelIter N I} `{!LabelIterOk I}.

Lemma well_known_data_ok own :
  RecordDataOk (NameData N) (NameData labels) B (H1 := well_known_data own) name_data_is name_data_wire name_data_cwire.
Proof.
  split.
  - intros d x Hd. by apply Writes_known.
  - intros d x Hd. by apply Writes_canonical.
  - intros d x c Hd Hl. cbn. unfold well_known_rdlen. destruct c; [by right|left]. rdlens. done.
  - intros x. apply length_map.
Qed.

Lemma canonical_data_ok own :
  RecordDataOk (NameData N) (NameData labels) B (H1 := canonical_data own) name_data_is name_data_wire name_data_cwire.
Proof.
  split.
  - intros d x Hd. by apply Writes_name.
  - intros d x Hd. by apply Writes_canonical.
  - intros d x c Hd Hl. cbn. unfold canonical_rdlen. left. rdlens. done.
  - intros x. apply length_map.
Qed.

#[export] Instance minfo_data_ok : RecordDataOk (Minfo N) (Minfo labels) B minfo_is minfo_wire minfo_cwire.
Proof.
  split.
  - intros d x [Hr He]. unfold minfo_wire. cbn [compose_rdata minfo_data]. writes.
  - intros d x [Hr He]. unfold minfo_cwire. cbn [compose_canonical_rdata minfo_data]. writes.
  - intros d x c [Hr He] Hl. cbn [rd_rdlen minfo_data]. unfold minfo_wire in *. destruct c; [by right|left]. rdlens. done.
  - intros x. unfold minfo_wire, minfo_cwire, lower. by rewrite !length_app, !length_map.
Qed.

#[export] Instance mx_data_ok : RecordDataOk (Mx N) (Mx labels) B mx_is mx_wire mx_cwire.
Proof.
  split.
  - intros d x [[Hp He] _]. unfold mx_wire. cbn [compose_rdata mx_data]. rewrite Hp. writes.
  - intros d x [[Hp He] _]. unfold mx_cwire. cbn [compose_canonical_rdata mx_data]. rewrite Hp. writes.
  - intros d x c [[Hp He] _] Hl. cbn [rd_rdlen mx_data]. unfold mx_wire in *. destruct c; [by right|left]. rdlens. done.
  - intros x. unfold mx_wire, mx_cwire, lower. by rewrite !length_app, !length_map.
Qed.

Lemma soa_fixed_writes (d : Soa N) (x : Soa labels) : soa_rel name_ok d x -> Writes (B:=B) (soa_compose_fixed d) (soa_tail x).
Proof. intros (_ & _ & Hs & Ht1 & Ht2 & Ht3 & Ht4). unfold soa_compose_fixed, soa_tail. rewrite Hs, Ht1, Ht2, Ht3, Ht4. writes. Qed.

#[export] Instance soa_data_ok : RecordDataOk (Soa N) (Soa labels) B soa_is soa_wire soa_cwire.
Proof.
  split.
  - intros d x [Hx _]. pose proof Hx as (Hm & Hr & _). unfold soa_wire. cbn [compose_rdata soa_data].
    do 2 (apply Writes_seq; [by apply Writes_known|]). by apply soa_fixed_writes.
  - intros d x [Hx _]. pose proof Hx as (Hm & Hr & _). unfold soa_cwire. cbn [compose_canonical_rdata soa_data].
    do 2 (apply Writes_seq; [by apply Writes_canonical|]). by apply soa_fixed_writes.
  - intros d x c [(Hm & Hr & _) _] Hl. cbn [rd_rdlen soa_data]. unfold soa_wire, soa_tail in *. destruct c; [by right|left].
    rdlens. do 2 f_equal. lia.
  - intros x. unfold soa_wire, soa_cwire, lower. by rewrite !length_app, !length_map.
Qed.

Lemma srv_head_writes (d : Srv N) (x : Srv labels) : srv_rel name_ok d x -> Writes (B:=B) (srv_compose_head d) (srv_head x).
Proof. intros (Hp & Hw & Ho & _). unfold srv_compose_head, srv_head. rewrite Hp, Hw, Ho. writes. Qed.

#[export] Instance srv_data_ok : RecordDataOk (Srv N) (Srv labels) B srv_is srv_wire srv_cwire.
Proof.
  split.
  - intros d x [Hx _]. apply Writes_seq; [by apply srv_head_writes|]. apply Writes_name, Hx.
  - intros d x [Hx _]. apply Writes_seq; [by apply srv_head_writes|]. apply Writes_canonical, Hx.
  - intros d x c [(_ & _ & _ & Ht) _] Hl. cbn [rd_rdlen srv_data]. unfold srv_wire, srv_head in *. left. rdlens. do 2 f_equal. lia.
  - intros x. unfold srv_wire, srv_cwire, lower. by rewrite !length_app, !length_map.
Qed.
End Composed.

(** ** The canonical order *)

(** [CanonicalOrd] compares as the canonical wire format does, octet by octet. *)
Section CanonicalOrder.
Context {N I : Type} `{ToLabelIter N I} `{!LabelIterOk I}.
Context {M J : Type} `{ToLabelIter M J} `{!LabelIterOk J}.

Lemma name_canonical_order (n : N) (m : M) ls ms :
  name_ok n ls -> name_ok m ms -> lowercase_composed_cmp n m = Ret (iter_cmp (lower (labels_wire ls)) (lower (labels_wire ms))).
Proof.
  intros Hn Hm. pose proof (name_ok_fuel _ _ Hn) as Fn. pose proof (name_ok_fuel _ _ Hm) as Fm.
  destruct Hn as (Dn & An & _), Hm as (Dm & Am & _). apply (composed_cmp_correct n m ls ms Dn Dm Fn Fm An Am).
Qed.

Lemma u16_order a b : is_u16 a -> is_u16 b -> Ret (a ?= b) = Ret (iter_cmp (to_be_bytes 2 a) (to_be_bytes 2 b)).
Proof. intros Ha Hb. f_equal. by apply be_cmp. Qed.

Lemma u8_order a b : Ret (a ?= b) = Ret (iter_cmp [a] [b]).
Proof. cbn [iter_cmp]. by destruct (a ?= b). Qed.

Lemma u32_order a b : is_u32 a -> is_u32 b -> Ret (a ?= b) = Ret (iter_cmp (to_be_bytes 4 a) (to_be_bytes 4 b)).
Proof. intros Ha Hb. f_equal. by apply be_cmp. Qed.

Lemma charstr_order a b : cs_canonical_cmp a b = iter_cmp (cs_wire a) (cs_wire b).
Proof.
  unfold cs_canonical_cmp, cs_wire, cs_len, zlen. cbn [iter_cmp]. rewrite <- Nat2Z.inj_compare.
  by destruct (length (cs_octets a) ?= length (cs_octets b))%nat.
Qed.

Lemma charstr_apart a b : apart (cs_wire a) (cs_wire b).
Proof. apply apart_prefixed. unfold zlen. lia. Qed.

Lemma hinfo_order (a b : Hinfo) : hinfo_canonical_cmp a b = iter_cmp (hinfo_wire a) (hinfo_wire b).
Proof.
  unfold hinfo_canonical_cmp, hinfo_wire. rewrite !charstr_order, iter_cmp_app_apart by (apply charstr_apart). done.
Qed.

Lemma lower_apart ls ms : name_good ls -> name_good ms -> apart (lower (labels_wire ls)) (lower (labels_wire ms)).
Proof. intros [? _] [? _]. by apply apart_canonical. Qed.

Lemma one_apart (a b : Z) : apart [a] [b].
Proof. by apply apart_length. Qed.

Lemma be_apart n a b : apart (to_be_bytes n a) (to_be_bytes n b).
Proof. apply apart_length. by rewrite !length_to_be_bytes. Qed.
End CanonicalOrder.

#[export] Hint Resolve be_apart one_apart lower_apart charstr_apart : layout.
#[export] Hint Extern 1 (name_good _) =>
  match goal with H : name_ok ?n ?ls |- name_good ?ls => exact (name_ok_good n ls H) end : layout.

(** One field after the other. *)
Ltac order_field := first [by apply name_canonical_order | by apply u8_order | by apply u16_order | by apply u32_order].
Ltac orders := repeat first [apply cmp_then_fields; [order_field|by eauto with layout|] | order_field | reflexivity].

Section DataOrder.
Context {N I : Type} `{ToLabelIter N I} `{!LabelIterOk I}.
Context {M J : Type} `{ToLabelIter M J} `{!LabelIterOk J}.

Lemma name_data_order (a : NameData N) (b : NameData M) x y :
  name_data_is a x -> name_data_is b y -> name_data_canonical_cmp a b = Ret (iter_cmp (name_data_cwire x) (name_data_cwire y)).
Proof. apply name_canonical_order. Qed.

Lemma minfo_order (a : Minfo N) (b : Minfo M) x y :
  minfo_is a x -> minfo_is b y -> minfo_canonical_cmp a b = Ret (iter_cmp (minfo_cwire x) (minfo_cwire y)).
Proof. intros [Ha1 Ha2] [Hb1 Hb2]. unfold minfo_canonical_cmp, minfo_cwire. orders. Qed.

Lemma mx_order (a : Mx N) (b : Mx M) x y :
  mx_is a x -> mx_is b y -> mx_canonical_cmp a b = Ret (iter_cmp (mx_cwire x) (mx_cwire y)).
Proof.
  intros [[Ep Hx] [Hp _]] [[Ep' Hx'] [Hp' _]]. unfold mx_canonical_cmp, mx_cwire. rewrite Ep, Ep'. orders.
Qed.

Lemma soa_order (a : Soa N) (b : Soa M) x y :
  soa_is a x -> soa_is b y -> soa_canonical_cmp a b = Ret (iter_cmp (soa_cwire x) (soa_cwire y)).
Proof.
  intros [(Hm & Hr & Es & E1 & E2 & E3 & E4) (_ & _ & Hs & T1 & T2 & T3 & T4)]
    [(Hm' & Hr' & Es' & E1' & E2' & E3' & E4') (_ & _ & Hs' & T1' & T2' & T3' & T4')].
  unfold soa_canonical_cmp, soa_cmp_fixed, soa_cwire, soa_tail. unfold serial_canonical_cmp. rewrite Es, Es', E1, E2, E3, E4, E1', E2', E3', E4'. orders.
Qed.

Lemma srv_order (a : Srv N) (b : Srv M) x y :
  srv_is a x -> srv_is b y -> srv_canonical_cmp a b = Ret (iter_cmp (srv_cwire x) (srv_cwire y)).
Proof.
  intros [(Ep & Ew & Eo & Ht) (Hp & Hw & Ho & _)] [(Ep' & Ew' & Eo' & Ht') (Hp' & Hw' & Ho' & _)].
  unfold srv_canonical_cmp, srv_cmp_head, srv_cwire, srv_head. rewrite Ep, Ew, Eo, Ep', Ew', Eo', <- !app_assoc. orders.
Qed.
End DataOrder.
