(* ===== verification/Bitmap.v ===== *)
(** * Record type bitmaps ([src/src/rdata/dnssec.rs])

    NSEC and NSEC3 records list record types as a sequence of windows, each a
    window number, a length and up to 32 octets of bits.  [RtypeBitmap] checks,
    searches and iterates such a sequence, [RtypeBitmapBuilder] makes one: it keeps
    all 32 octets of every window in one buffer and drops what is not needed at
    the end.  The theorems say that iterating yields the types whose bits are set,
    in order, that [contains] agrees, and that the builder is a set of record
    types whose bitmap is the one RFC 4034 prescribes. *)

From S2P Require Import Prelude Octets MessageBuilder Message Record Layout.
From stdpp Require Import strings sorting.
#[local] Open Scope Z_scope.

(** ** Bitmaps *)

Inductive RtypeBitmapError := BitmapShortInput | BadRtypeBitmap.

Definition bitmap_parse_error (err : RtypeBitmapError) : ParseError :=
  match err with BitmapShortInput => PShortInput | BadRtypeBitmap => parse_form_error "invalid NSEC bitmap" end.

(** [split_rtype]: window number, octet number and mask of a type. *)
Definition split_rtype (rtype : Z) : Z * nat * Z :=
  (as_u8 (Z.shiftr rtype 8), Z.to_nat (Z.shiftr (Z.land rtype 0xFF) 3), Z.shiftr 128 (Z.land rtype 7)).

(** [split_first] twice and [split_at]. *)
Definition read_window (data : list Z) : option ((Z * list Z) * list Z) :=
  match data with
  | n :: l :: data =>
      if (Z.to_nat l <=? length data)%nat then Some ((n, take (Z.to_nat l) data), drop (Z.to_nat l) data) else None
  | _ => None
  end.

(** The [while] loop of [from_octets].  Every round takes at least three octets. *)
Fixpoint check_windows (fuel : nat) (data : list Z) : option (result unit RtypeBitmapError) :=
  match fuel with
  | O => None
  | S fuel' =>
      match data with
      | [] => Some (Ok tt)
      | [_] => Some (Err BitmapShortInput)
      | _ :: l :: _ =>
          let len := (Z.to_nat l + 2)%nat in
          if (len =? 2)%nat then Some (Err BadRtypeBitmap)
          else if (34 <? len)%nat then Some (Err BadRtypeBitmap)
          else if (length data <? len)%nat then Some (Err BitmapShortInput)
          else check_windows fuel' (drop len data)
      end
  end.

Record RtypeBitmap := mkBitmap { bitmap_octets : list Z }.

Definition bitmap_from_octets (octets : list Z) : option (result RtypeBitmap RtypeBitmapError) :=
  match check_windows (S (length octets)) octets with
  | Some (Ok _) => Some (Ok (mkBitmap octets))
  | Some (Err err) => Some (Err err)
  | None => None
  end.

Definition bitmap_parse {P} `{OctetsParser P} (p : P) : outcome (result (RtypeBitmap * P) ParseError) :=
  let!? (octets, p) := Ret (short (p_parse_octets p (p_remaining p))) in
  match bitmap_from_octets octets with
  | Some (Ok bitmap) => Ret (Ok (bitmap, p))
  | Some (Err err) => Ret (Err (bitmap_parse_error err))
  | None => Panic
  end.

Definition bitmap_compose_len (bitmap : RtypeBitmap) : outcome Z :=
  if zlen (bitmap_octets bitmap) <? 2 ^ 16 then Ret (zlen (bitmap_octets bitmap)) else Panic.

Definition bitmap_compose {B} `{OctetsBuilder B} (bitmap : RtypeBitmap) : pusher B :=
  push_compose (compose_slice (bitmap_octets bitmap)).

Definition bitmap_eq (a b : RtypeBitmap) : bool := bool_decide (bitmap_octets a = bitmap_octets b).
Definition bitmap_cmp (a b : RtypeBitmap) : comparison := iter_cmp (bitmap_octets a) (bitmap_octets b).

(** [contains]; [read_window(data).unwrap()] may panic. *)
Fixpoint contains_loop (fuel : nat) (block : Z) (octet : nat) (mask : Z) (data : list Z) : outcome bool :=
  match fuel, data with
  | _, [] => Ret false
  | O, _ => Panic
  | S fuel', _ =>
      match read_window data with
      | None => Panic
      | Some ((num, window), data') =>
          if num =? block then
            Ret (match window !! octet with Some b => negb (Z.land b mask =? 0) | None => false end)
          else contains_loop fuel' block octet mask data'
      end
  end.

Definition bitmap_contains (bitmap : RtypeBitmap) (rtype : Z) : outcome bool :=
  let '(block, octet, mask) := split_rtype rtype in
  contains_loop (length (bitmap_octets bitmap)) block octet mask (bitmap_octets bitmap).

(** ** Iterating *)

Record BitmapIter := mkBitmapIter {
  bi_data : list Z; bi_block : Z; bi_len : nat; bi_octet : nat; bi_bit : Z
}.

Definition bit_set (b bit : Z) : bool := negb (Z.land b (Z.shiftr 128 bit) =? 0).

(** The loop of [advance]; indexes out of range panic. *)
Fixpoint bi_advance (fuel : nat) (it : BitmapIter) : outcome BitmapIter :=
  match fuel with
  | O => Panic
  | S fuel' =>
      let bit := bi_bit it + 1 in
      let test it :=
        match bi_data it !! bi_octet it with
        | Some b => if bit_set b (bi_bit it) then Ret it else bi_advance fuel' it
        | None => Panic
        end in
      if bit =? 8 then
        let octet := S (bi_octet it) in
        if (octet =? bi_len it)%nat then
          if (length (bi_data it) <? bi_len it)%nat then Panic else
          match drop (bi_len it) (bi_data it) with
          | [] => Ret (mkBitmapIter [] (bi_block it) (bi_len it) octet 0)
          | n :: l :: data => test (mkBitmapIter data (Z.shiftl n 8) (Z.to_nat l) 0 0)
          | _ => Panic
          end
        else test (mkBitmapIter (bi_data it) (bi_block it) (bi_len it) octet 0)
      else test (mkBitmapIter (bi_data it) (bi_block it) (bi_len it) (bi_octet it) bit)
  end.

(** Eight bits per octet that is left. *)
Definition bi_fuel (it : BitmapIter) : nat := (8 * S (length (bi_data it)))%nat.

Definition bi_new (data : list Z) : outcome BitmapIter :=
  match data with
  | [] => Ret (mkBitmapIter [] 0 0 0 0)
  | n :: l :: data =>
      let it := mkBitmapIter data (Z.shiftl n 8) (Z.to_nat l) 0 0 in
      match data with
      | b :: _ => if Z.land b 0x80 =? 0 then bi_advance (bi_fuel it) it else Ret it
      | [] => Panic
      end
  | _ => Panic
  end.

Definition bi_next (it : BitmapIter) : outcome (option Z * BitmapIter) :=
  match bi_data it with
  | [] => Ret (None, it)
  | _ =>
      let res := Z.lor (Z.lor (bi_block it) (Z.shiftl (Z.of_nat (bi_octet it)) 3)) (bi_bit it) in
      let! it := bi_advance (bi_fuel it) it in Ret (Some res, it)
  end.

(** A [for] loop over the bitmap. *)
Fixpoint bi_collect (fuel : nat) (it : BitmapIter) : outcome (list Z) :=
  match fuel with
  | O => Panic
  | S fuel' =>
      let! (r, it) := bi_next it in
      match r with
      | None => Ret []
      | Some rtype => let! l := bi_collect fuel' it in Ret (rtype :: l)
      end
  end.

Definition bitmap_iter (bitmap : RtypeBitmap) : outcome (list Z) :=
  let! it := bi_new (bitmap_octets bitmap) in bi_collect (S (8 * length (bitmap_octets bitmap))) it.

(** ** Windows *)

Definition window : Type := Z * list Z.
Definition window_wire (w : window) : list Z := w.1 :: zlen w.2 :: w.2.
Definition windows_wire (ws : list window) : list Z := concat (map window_wire ws).

Definition window_ok (w : window) : Prop := is_u8 w.1 /\ (1 <= length w.2 <= 32)%nat /\ wf_octets w.2.

(** The types of the bits of an octet and whether they are set. *)
Definition octet_bits (base b : Z) : list (Z * bool) := map (fun bit => (base + bit, bit_set b bit)) (seqZ 0 8).

Fixpoint window_bits (base : Z) (w : list Z) : list (Z * bool) :=
  match w with [] => [] | b :: w => octet_bits base b ++ window_bits (base + 8) w end.

Definition all_bits (ws : list window) : list (Z * bool) := concat (map (fun w => window_bits (w.1 * 256) w.2) ws).

Definition set_types (l : list (Z * bool)) : list Z := map fst (filter (fun x => x.2 = true) l).

(** The types listed in a bitmap. *)
Definition windows_types (ws : list window) : list Z := set_types (all_bits ws).

Lemma check_windows_spec fuel data :
  wf_octets data -> (length data < fuel)%nat ->
  exists r, check_windows fuel data = Some r /\
    (r = Ok tt <-> exists ws, Forall window_ok ws /\ data = windows_wire ws).
Proof.
  revert data; induction fuel as [|fuel IH]; intros data Hd Hf; [lia|]. destruct data as [|n [|l data]].
  - exists (Ok tt). split; [done|]. split; [|done]. intros _. by exists [].
  - exists (Err BitmapShortInput). split; [done|]. split; [done|]. intros ([|w ws] & _ & ?); done.
  - pose proof Hd as Hd0. apply Forall_cons in Hd as [Hn Hd]. apply Forall_cons in Hd as [Hl Hd]. unfold is_u8 in Hl.
    cbn [check_windows]. assert (Hinv : forall ws, Forall window_ok ws -> n :: l :: data = windows_wire ws ->
      exists w ws', ws = (n, w) :: ws' /\ data = w ++ windows_wire ws' /\ Z.to_nat l = length w /\ (1 <= length w <= 32)%nat /\ Forall window_ok ws').
    { intros [|[n' w] ws] Hw E; [done|]. apply Forall_cons in Hw as [(_ & Hlw & _) Hw]. cbn in E. injection E as -> -> ->.
      exists w, ws. split_and!; [done|done|unfold zlen; lia|apply Hlw..|done]. }
    destruct (Nat.eqb_spec (Z.to_nat l + 2) 2); [|destruct (Nat.ltb_spec 34 (Z.to_nat l + 2)); [|destruct (Nat.ltb_spec (length (n :: l :: data)) (Z.to_nat l + 2))]].
    1-3: eexists; split; [done|]; split; [done|]; intros (ws & Hw & E); destruct (Hinv ws Hw E) as (w & ws' & -> & -> & Hlw & ? & _);
      cbn [length] in *; rewrite ?length_app in *; lia.
    rewrite Nat.add_comm. cbn [drop Nat.add]. cbn [length] in *.
    destruct (IH (drop (Z.to_nat l) data)) as (r & Hr & Hiff); [by apply list.Forall_drop|rewrite length_drop; lia|].
    exists r. split; [done|]. rewrite Hiff. split.
    + intros (ws & Hw & E). exists ((n, take (Z.to_nat l) data) :: ws). split.
      * constructor; [|done]. split; [done|]. split; [cbn; rewrite length_take; lia|by apply list.Forall_take].
      * cbn. unfold zlen. rewrite length_take, Nat.min_l by lia. rewrite <- (take_drop (Z.to_nat l) data) at 1.
        rewrite E. do 2 f_equal. lia.
    + intros (ws & Hw & E). destruct (Hinv ws Hw E) as (w & ws' & -> & -> & Hlw & ? & Hw'). exists ws'.
      split; [done|]. rewrite Hlw. apply drop_app_length.
Qed.

(** ** The iterator yields the types whose bits are set *)

(** The iterator is at the first of the bits [l]. *)
Definition bi_at (n : Z) (w : list Z) (ws : list window) (it : BitmapIter) : Prop :=
  window_ok (n, w) /\ Forall window_ok ws /\ bi_data it = w ++ windows_wire ws /\ bi_block it = Z.shiftl n 8 /\
  bi_len it = length w /\ (bi_octet it < length w)%nat /\ 0 <= bi_bit it < 8.

Definition bi_rel (it : BitmapIter) (l : list (Z * bool)) : Prop :=
  (bi_data it = [] /\ l = []) \/
  exists n w ws, bi_at n w ws it /\
    l = drop (8 * bi_octet it + Z.to_nat (bi_bit it)) (window_bits (n * 256) w) ++ all_bits ws.

Lemma length_window_bits base w : length (window_bits base w) = (8 * length w)%nat.
Proof. revert base; induction w as [|b w IH]; intros base; [done|]. cbn [window_bits]. rewrite length_app, IH. simpl. lia. Qed.

Lemma window_bits_lookup base w o b bit :
  w !! o = Some b -> 0 <= bit < 8 ->
  window_bits base w !! (8 * o + Z.to_nat bit)%nat = Some (base + 8 * Z.of_nat o + bit, bit_set b bit).
Proof.
  revert base o; induction w as [|b' w IH]; intros base [|o] Hb Hbit; try done; cbn [window_bits].
  - injection Hb as ->. rewrite lookup_app_l by (simpl; lia). unfold octet_bits. rewrite list_lookup_fmap, lookup_seqZ_lt by lia.
    simpl. do 2 f_equal; [lia|f_equal; lia].
  - rewrite lookup_app_r by (simpl; lia). replace (8 * S o + Z.to_nat bit - length (octet_bits base b'))%nat with (8 * o + Z.to_nat bit)%nat
      by (simpl; lia). rewrite (IH (base + 8) o) by done. do 2 f_equal. lia.
Qed.

Lemma length_all_bits ws : (length (all_bits ws) <= 8 * length (windows_wire ws))%nat.
Proof.
  unfold all_bits, windows_wire. induction ws as [|[n w] ws IH]; [done|]. simpl. rewrite !length_app, length_window_bits. simpl in *. lia.
Qed.

(** The bit the iterator is at, and those behind it. *)
Lemma bi_at_head n w ws it :
  bi_at n w ws it -> exists b, bi_data it !! bi_octet it = Some b /\
    drop (8 * bi_octet it + Z.to_nat (bi_bit it)) (window_bits (n * 256) w) =
      (n * 256 + 8 * Z.of_nat (bi_octet it) + bi_bit it, bit_set b (bi_bit it)) ::
      drop (8 * bi_octet it + Z.to_nat (bi_bit it + 1)) (window_bits (n * 256) w).
Proof.
  intros (_ & _ & Hd & _ & _ & Ho & Hb). destruct (lookup_lt_is_Some_2 w _ Ho) as [b E]. exists b. split.
  - rewrite Hd. by apply lookup_app_l_Some.
  - rewrite (drop_S _ _ _ (window_bits_lookup (n * 256) w _ b _ E Hb)). do 2 f_equal. lia.
Qed.

Lemma bi_rel_length it l : bi_rel it l -> (length l <= 8 * length (bi_data it))%nat.
Proof.
  intros [[_ ->]|(n & w & ws & (_ & _ & Hd & _) & ->)]; [simpl; lia|]. rewrite Hd, !length_app, length_drop, length_window_bits.
  pose proof (length_all_bits ws). lia.
Qed.

Lemma bi_at_start n w ws it :
  bi_at n w ws it -> bi_octet it = 0%nat -> bi_bit it = 0 -> bi_rel it (window_bits (n * 256) w ++ all_bits ws).
Proof. intros Ha Ho Hb. right. exists n, w, ws. split; [done|]. by rewrite Ho, Hb. Qed.

(** One round of [advance]. *)
Lemma bi_step it x l :
  bi_rel it (x :: l) -> exists it', bi_rel it' l /\ forall fuel,
    bi_advance (S fuel) it = match l with [] => Ret it' | (_, s) :: _ => if s : bool then Ret it' else bi_advance fuel it' end.
Proof.
  intros [[_ ?]|(n & w & ws & Hat & El)]; [done|]. destruct (bi_at_head _ _ _ _ Hat) as (b & _ & Hh). rewrite Hh in El.
  apply (f_equal (tail (A:=_))) in El. cbn [tail app] in El.
  remember (drop (8 * bi_octet it + Z.to_nat (bi_bit it + 1)) (window_bits (n * 256) w)) as rest eqn:Erest. subst l. pose proof Hat as (Hw & Hws & Hd & Hblk & Hlen & Ho & Hb). cbn [bi_advance].
  assert (Htest : forall it' n' w' ws', bi_at n' w' ws' it' ->
    drop (8 * bi_octet it' + Z.to_nat (bi_bit it')) (window_bits (n' * 256) w') ++ all_bits ws' =
      rest ++ all_bits ws ->
    exists it'', bi_rel it'' (rest ++ all_bits ws) /\
      forall fuel, match bi_data it' !! bi_octet it' with
        | Some b => if bit_set b (bi_bit it') then Ret it' else bi_advance fuel it' | None => Panic end =
      match rest ++ all_bits ws with
      | [] => Ret it'' | (_, s) :: _ => if s : bool then Ret it'' else bi_advance fuel it'' end).
  { intros it' n' w' ws' Hat' E. exists it'. rewrite <- E. split; [right; by exists n', w', ws'|]. intros fuel.
    destruct (bi_at_head _ _ _ _ Hat') as (b' & -> & ->). done. }
  destruct (Z.eqb_spec (bi_bit it + 1) 8) as [E8|?].
  - destruct (Nat.eqb_spec (S (bi_octet it)) (bi_len it)) as [El|?].
    + assert (E0 : rest = []).
      { subst rest. apply drop_ge. rewrite length_window_bits. lia. }
      rewrite Hd, Hlen, drop_app_length. destruct (Nat.ltb_spec (length (w ++ windows_wire ws)) (length w)) as [Hlt|_];
        [rewrite length_app in Hlt; lia|].
      destruct ws as [|[n' w'] ws].
      * rewrite E0. exists (mkBitmapIter [] (bi_block it) (length w) (S (bi_octet it)) 0). split; [by left|done].
      * apply Forall_cons in Hws as [Hw' Hws].
        assert (Hat' : bi_at n' w' ws (mkBitmapIter (w' ++ windows_wire ws) (Z.shiftl n' 8) (length w') 0 0)).
        { destruct Hw' as (Hn' & Hl' & Hx'). repeat split; simpl in *; first [done|apply Hn'|lia|idtac]. }
        eapply (Htest _ n' w' ws) in Hat' as (it'' & Hr & Hf); [|by rewrite E0]. exists it''. split; [done|]. intros fuel.
        change (windows_wire ((n', w') :: ws)) with (n' :: zlen w' :: w' ++ windows_wire ws). cbv iota. unfold zlen. rewrite Nat2Z.id.
        apply Hf.
    + eapply (Htest _ n w ws); [repeat split; simpl; first [done|apply Hw|lia|idtac]|]. cbn [bi_octet bi_bit]. subst rest. do 2 f_equal. lia.
  - eapply (Htest _ n w ws); [repeat split; simpl; first [done|apply Hw|lia|idtac]|]. by subst rest.
Qed.

Fixpoint skip_unset (l : list (Z * bool)) : list (Z * bool) :=
  match l with (_, false) :: l => skip_unset l | _ => l end.

Lemma set_types_skip l : set_types (skip_unset l) = set_types l.
Proof. induction l as [|[t []] l IH]; done. Qed.

Lemma length_skip l : (length (skip_unset l) <= length l)%nat.
Proof. induction l as [|[t []] l IH]; simpl; lia. Qed.

Lemma skip_unset_head l : skip_unset l = [] \/ exists t l', skip_unset l = (t, true) :: l'.
Proof. induction l as [|[t []] l IH]; [by left|right; by exists t, l|done]. Qed.

Lemma bi_advance_spec fuel it x l :
  bi_rel it (x :: l) -> (length l < fuel)%nat -> exists it', bi_advance fuel it = Ret it' /\ bi_rel it' (skip_unset l).
Proof.
  revert it x l; induction fuel as [|fuel IH]; intros it x l Hr Hf; [lia|].
  destruct (bi_step _ _ _ Hr) as (it' & Hr' & ->). destruct l as [|[t []] l]; [by exists it'..|].
  apply (IH it' (t, false) l); [done|simpl in *; lia].
Qed.

Lemma lor_parts n o bit : 0 <= n -> (o < 32)%nat -> 0 <= bit < 8 ->
  Z.lor (Z.lor (Z.shiftl n 8) (Z.shiftl (Z.of_nat o) 3)) bit = n * 256 + 8 * Z.of_nat o + bit.
Proof.
  intros Hn Ho Hb. rewrite (Z.shiftl_mul_pow2 (Z.of_nat o)) by lia. rewrite lor_shiftl_add by lia.
  replace (n * 2 ^ 8 + Z.of_nat o * 2 ^ 3) with (Z.shiftl (n * 2 ^ 5 + Z.of_nat o) 3) by (rewrite Z.shiftl_mul_pow2 by lia; lia).
  rewrite lor_shiftl_add by lia. lia.
Qed.

Lemma bi_next_spec it t s l :
  bi_rel it ((t, s) :: l) -> exists it', bi_next it = Ret (Some t, it') /\ bi_rel it' (skip_unset l).
Proof.
  intros Hr. pose proof (bi_rel_length _ _ Hr) as Hlen. cbn [length] in Hlen.
  destruct (bi_advance_spec (bi_fuel it) _ _ _ Hr) as (it' & Ha & Hr'); [unfold bi_fuel; lia|].
  exists it'. split; [|done]. destruct Hr as [[_ ?]|(n & w & ws & Hat & El)]; [done|].
  destruct (bi_at_head _ _ _ _ Hat) as (b & Hb & Hh). rewrite Hh in El. apply (f_equal head) in El. cbn [head app] in El. assert (Et : t = n * 256 + 8 * Z.of_nat (bi_octet it) + bi_bit it) by congruence. clear El Hh.
  destruct Hat as ((Hn & Hl & _) & _ & _ & Hblk & _ & Ho & Hbit). simpl in Hn, Hl. unfold is_u8 in Hn. unfold bi_next. rewrite Ha.
  destruct (bi_data it); [done|]. by rewrite Hblk, lor_parts, Et by lia.
Qed.

Lemma bi_collect_spec fuel it l :
  bi_rel it (skip_unset l) -> (length l < fuel)%nat -> bi_collect fuel it = Ret (set_types l).
Proof.
  revert it l; induction fuel as [|fuel IH]; intros it l Hr Hf; [lia|]. rewrite <- (set_types_skip l).
  pose proof (length_skip l). cbn [bi_collect]. destruct (skip_unset_head l) as [E|(t & l' & E)]; rewrite E in *.
  - destruct Hr as [[Hd _]|(n & w & ws & Hat & El)].
    + unfold bi_next. by rewrite Hd.
    + destruct (bi_at_head _ _ _ _ Hat) as (b & _ & Hh). by rewrite Hh in El.
  - destruct (bi_next_spec _ _ _ _ Hr) as (it' & -> & Hr'). rewrite (IH it' l'); [done|done|simpl in *; lia].
Qed.

Lemma window_bits_head n w : window_ok (n, w) -> exists b w', w = b :: w' /\
  window_bits (n * 256) w = (n * 256, negb (Z.land b 0x80 =? 0)) :: tail (window_bits (n * 256) w).
Proof. intros (_ & Hl & _). destruct w as [|b w]; simpl in Hl; [lia|]. exists b, w. split; [done|]. simpl. by rewrite Z.add_0_r. Qed.

Lemma bi_new_spec ws :
  Forall window_ok ws -> exists it, bi_new (windows_wire ws) = Ret it /\ bi_rel it (skip_unset (all_bits ws)).
Proof.
  intros Hws. destruct ws as [|[n w] ws]; [eexists; split; [done|by left]|]. apply Forall_cons in Hws as [Hw Hws].
  assert (Hat : bi_at n w ws (mkBitmapIter (w ++ windows_wire ws) (Z.shiftl n 8) (length w) 0 0)).
  { destruct Hw as (Hn & Hl & Hx). repeat split; simpl in *; first [done|apply Hn|lia|idtac]. }
  pose proof (bi_at_start _ _ _ _ Hat eq_refl eq_refl) as Hr.
  change (windows_wire _) with (n :: zlen w :: w ++ windows_wire ws).
  change (all_bits (_ :: ws)) with (window_bits (n * 256) w ++ all_bits ws). cbn [bi_new].
  unfold zlen. rewrite Nat2Z.id. destruct (window_bits_head _ _ Hw) as (b & w' & Ew & Eb).
  rewrite Eb in Hr |- *. subst w. cbn [app] in *. destruct (Z.land b 0x80 =? 0).
  - apply (bi_advance_spec _ _ _ _ Hr). pose proof (bi_rel_length _ _ Hr) as H8. unfold bi_fuel. cbn [length bi_data] in *. lia.
  - by eexists.
Qed.

(** Iterating over a bitmap ends and yields the types whose bits are set, in the
    order of the bits. *)
Lemma bitmap_iter_spec ws :
  Forall window_ok ws -> bitmap_iter (mkBitmap (windows_wire ws)) = Ret (windows_types ws).
Proof.
  intros Hws. unfold bitmap_iter; cbn [bitmap_octets]. destruct (bi_new_spec ws Hws) as (it & -> & Hit).
  apply bi_collect_spec; [done|]. pose proof (length_all_bits ws). lia.
Qed.

(** ** Which types are listed *)

Lemma elem_concat {A} (x : A) ll : x ∈ concat ll <-> exists l, x ∈ l /\ l ∈ ll.
Proof.
  induction ll as [|l ll IH]; simpl.
  - rewrite elem_of_nil. split; [done|]. by intros (l & _ & ?%elem_of_nil).
  - rewrite elem_of_app, IH. setoid_rewrite elem_of_cons. split.
    + intros [Hl|(l' & Hl & Hll)]; [exists l; by auto|exists l'; by auto].
    + intros (l' & Hl & [->|Hll]); [by left|right; by exists l'].
Qed.

Lemma elem_set_types t l : t ∈ set_types l <-> (t, true) ∈ l.
Proof.
  unfold set_types. rewrite list_elem_of_fmap. split.
  - intros ([t' s] & -> & [Hs Hl]%list_elem_of_filter). simpl in *. by subst s.
  - intros Hl. exists (t, true). split; [done|]. by apply list_elem_of_filter.
Qed.

Lemma elem_window_bits base w t s :
  (t, s) ∈ window_bits base w <->
  exists o b bit, w !! o = Some b /\ 0 <= bit < 8 /\ t = base + 8 * Z.of_nat o + bit /\ s = bit_set b bit.
Proof.
  split.
  - revert base; induction w as [|b w IH]; intros base Hl; [by apply elem_of_nil in Hl|].
    cbn [window_bits] in Hl. apply elem_of_app in Hl as [Hl|Hl].
    + apply list_elem_of_fmap in Hl as (bit & [= -> ->] & Hb). apply elem_of_seqZ in Hb. exists 0%nat, b, bit. split_and!; [done|lia..|done].
    + destruct (IH _ Hl) as (o & b' & bit & Ho & Hb & -> & ->). exists (S o), b', bit. split_and!; [done|lia..|done].
  - intros (o & b & bit & Ho & Hb & -> & ->). eapply list_elem_of_lookup_2. by apply window_bits_lookup.
Qed.

(** The bit of a type in a window. *)
Definition listed (w : list Z) (o : nat) (bit : Z) : bool :=
  match w !! o with Some b => bit_set b bit | None => false end.

Lemma elem_windows_types ws t :
  t ∈ windows_types ws <->
  exists n w o bit, (n, w) ∈ ws /\ 0 <= bit < 8 /\ t = n * 256 + 8 * Z.of_nat o + bit /\ listed w o bit = true.
Proof.
  unfold windows_types, all_bits, listed. rewrite elem_set_types, elem_concat. setoid_rewrite list_elem_of_fmap. split.
  - intros (? & Hl & [n w] & -> & Hw). apply elem_window_bits in Hl as (o & b & bit & Ho & Hb & -> & E).
    exists n, w, o, bit. cbn [fst snd] in *. rewrite Ho. split_and!; [done|lia..|done|done].
  - intros (n & w & o & bit & Hw & Hb & -> & E). destruct (w !! o) as [b|] eqn:Ho; [|done]. eexists. split; [|by exists (n, w)].
    apply elem_window_bits. exists o, b, bit. split_and!; [done|lia..|done|done].
Qed.

Lemma split_rtype_spec t :
  is_u16 t -> split_rtype t = (t / 256, Z.to_nat (t mod 256 / 8), Z.shiftr 128 (t mod 8)).
Proof.
  intros Ht. unfold split_rtype, as_u8. unfold is_u16 in Ht. rewrite !Z.shiftr_div_pow2 by lia.
  change 0xFF with (Z.ones 8). change 7 with (Z.ones 3) at 1. rewrite !Z.land_ones by lia.
  rewrite (Z.mod_small (t / 2 ^ 8)); [done|]. split; [apply Z.div_pos; lia|apply Z.div_lt_upper_bound; lia].
Qed.

Lemma type_parts t n o bit :
  0 <= bit < 8 -> (o < 32)%nat -> t = n * 256 + 8 * Z.of_nat o + bit ->
  n = t / 256 /\ o = Z.to_nat (t mod 256 / 8) /\ bit = t mod 8.
Proof.
  intros Hb Ho ->. split_and!; [apply (Z.div_unique _ 256 n (8 * Z.of_nat o + bit)); lia| |apply (Z.mod_unique _ 8 (n * 32 + Z.of_nat o) bit); lia].
  rewrite <- (Z.mod_unique _ 256 n (8 * Z.of_nat o + bit)) by lia.
  rewrite <- (Z.div_unique (8 * Z.of_nat o + bit) 8 (Z.of_nat o) bit) by lia. by rewrite Nat2Z.id.
Qed.

Lemma type_sum t : t = t / 256 * 256 + 8 * Z.of_nat (Z.to_nat (t mod 256 / 8)) + t mod 8.
Proof.
  pose proof (Z.mod_pos_bound t 256 ltac:(lia)). rewrite Z2Nat.id by (apply Z.div_pos; lia).
  pose proof (Z.div_mod t 256 ltac:(lia)). pose proof (Z.div_mod (t mod 256) 8 ltac:(lia)).
  replace (t mod 8) with ((t mod 256) mod 8) by (apply Z.mod_mod_divide; by exists 32). lia.
Qed.

Lemma windows_types_iff ws t :
  Forall window_ok ws ->
  t ∈ windows_types ws <-> exists w, (t / 256, w) ∈ ws /\ listed w (Z.to_nat (t mod 256 / 8)) (t mod 8) = true.
Proof.
  intros Hws. rewrite elem_windows_types. split.
  - intros (n & w & o & bit & Hw & Hb & Et & Hl). exists w. rewrite list.Forall_forall in Hws. destruct (Hws _ Hw) as (_ & Hlen & _).
    assert (Ho : (o < length w)%nat) by (unfold listed in Hl; destruct (w !! o) eqn:E; [by apply lookup_lt_Some in E|done]).
    simpl in Hlen. destruct (type_parts t n o bit) as (<- & <- & <-); [done|lia|done|]. done.
  - intros (w & Hw & Hl). exists (t / 256), w, (Z.to_nat (t mod 256 / 8)), (t mod 8).
    pose proof (Z.mod_pos_bound t 8 ltac:(lia)). split_and!; [done|lia|lia|apply type_sum|done].
Qed.

Lemma read_window_wire n w t : read_window (n :: zlen w :: w ++ t) = Some ((n, w), t).
Proof.
  simpl. unfold zlen. rewrite Nat2Z.id, length_app, take_app_length, drop_app_length.
  by destruct (Nat.leb_spec (length w) (length w + length t)); [|lia].
Qed.

Lemma contains_loop_spec ws fuel t :
  Forall window_ok ws -> NoDup ws.*1 -> (length (windows_wire ws) <= fuel)%nat ->
  contains_loop fuel (t / 256) (Z.to_nat (t mod 256 / 8)) (Z.shiftr 128 (t mod 8)) (windows_wire ws) =
  Ret (bool_decide (t ∈ windows_types ws)).
Proof.
  revert fuel; induction ws as [|[n w] ws IH]; intros fuel Hws Hnd Hf.
  - rewrite bool_decide_false; [by destruct fuel|]. rewrite windows_types_iff by done. by intros (w & ?%elem_of_nil & _).
  - change (windows_wire _) with (n :: zlen w :: w ++ windows_wire ws) in Hf |- *. cbn [length] in Hf. rewrite length_app in Hf.
    pose proof Hws as Hws0. apply Forall_cons in Hws as [Hw Hws]. apply NoDup_cons in Hnd as [Hn Hnd].
    destruct fuel; [lia|]. cbn [contains_loop]. rewrite read_window_wire. destruct (Z.eqb_spec n (t / 256)) as [->|Hne].
    + f_equal. apply eq_bool_prop_intro. rewrite !Is_true_true, bool_decide_eq_true, windows_types_iff by done. split.
      * intros Hl. exists w. split; [by apply list_elem_of_here|]. unfold listed. by destruct (w !! _).
      * intros (w' & Hw' & Hl). apply elem_of_cons in Hw' as [[= ->]|Hw'].
        -- unfold listed in Hl. by destruct (w !! _).
        -- exfalso. apply Hn. apply list_elem_of_fmap. by exists (t / 256, w').
    + rewrite IH by (done || lia). f_equal. apply bool_decide_ext. rewrite !windows_types_iff by done. split.
      * intros (w' & Hw' & Hl). exists w'. split; [by apply list_elem_of_further|done].
      * intros (w' & Hw' & Hl). exists w'. apply elem_of_cons in Hw' as [[= ? ->]|Hw']; [done|done].
Qed.

(** ** The builder *)

Section Builder.
Context {B : Type} `{OctetsBuilder B}.

Record RtypeBitmapBuilder := mkBitmapBuilder { rb_buf : B }.

Definition rb_new : RtypeBitmapBuilder := mkBitmapBuilder builder_empty.
Definition rb_with_builder (builder : B) : RtypeBitmapBuilder := mkBitmapBuilder builder.

(** [as_mut().copy_within(start..stop, dst)]. *)
Definition copy_within (b : B) (start stop dst : nat) : outcome B :=
  if ((stop <? start) || (length (as_ref b) <? stop) || (length (as_ref b) <? dst + (stop - start)))%nat then Panic
  else Ret (write_octets b dst (take (stop - start) (drop start (as_ref b)))).

(** [&mut as_mut()[pos..pos + 34]] is its position. *)
Definition block_ref (b : B) (pos : nat) : outcome (B * option nat) :=
  if (length (as_ref b) <? pos + 34)%nat then Panic else Ret (b, Some pos).

(** [get_block]: the position of the block, or [None] for an append error. *)
Fixpoint get_block_loop (fuel : nat) (block : Z) (pos : nat) (b : B) : outcome (B * option nat) :=
  match fuel with
  | O => Panic
  | S fuel' =>
      match as_ref b !! pos with
      | Some num =>
          match num ?= block with
          | Eq => block_ref b pos
          | Gt =>
              let len := length (as_ref b) in
              match append_slice b (replicate 34 0) with
              | None => Ret (b, None)
              | Some b =>
                  let! b := copy_within b pos len (pos + 34) in
                  let b := set_octet (write_octets b pos (replicate 34 0)) pos block in
                  block_ref b pos
              end
          | Lt => get_block_loop fuel' block (pos + 34) b
          end
      | None =>
          match append_slice b (replicate 34 0) with
          | None => Ret (b, None)
          | Some b =>
              if (length (as_ref b) <=? pos)%nat then Panic else block_ref (set_octet b pos block) pos
          end
      end
  end.

Definition get_block (b : B) (block : Z) : outcome (B * option nat) :=
  get_block_loop (S (length (as_ref b))) block 0 b.

(** [add]; the boolean is [false] for an append error.  The octets of the block are
    in range, it has 34. *)
Definition rb_add (rtype : Z) (rb : RtypeBitmapBuilder) : outcome (RtypeBitmapBuilder * bool) :=
  let '(block, octet, bit) := split_rtype rtype in
  let! (b, r) := get_block (rb_buf rb) block in
  match r with
  | None => Ret (mkBitmapBuilder b, false)
  | Some pos =>
      let len := nth (pos + 1) (as_ref b) 0 in
      let b := if (Z.to_nat len <? octet + 1)%nat then set_octet b (pos + 1) (as_u8 (Z.of_nat (octet + 1))) else b in
      let b := set_octet b (pos + (octet + 2)) (Z.lor (nth (pos + (octet + 2)) (as_ref b) 0) bit) in
      Ret (mkBitmapBuilder b, true)
  end.

(** The loop of [finalize], over the positions of the blocks. *)
Fixpoint finalize_loop (srcs : list nat) (dst_pos : nat) (b : B) : outcome (B * nat) :=
  match srcs with
  | [] => Ret (b, dst_pos)
  | src_pos :: srcs =>
      match as_ref b !! (src_pos + 1)%nat with
      | None => Panic
      | Some l =>
          let chunk_len := (Z.to_nat l + 2)%nat in
          let! b := copy_within b src_pos (src_pos + chunk_len) dst_pos in
          finalize_loop srcs (dst_pos + chunk_len) b
      end
  end.

(** [(0..len).step_by(34)]. *)
Definition steps (len : nat) : list nat := map (fun i => (34 * i)%nat) (seq 0 ((len + 33) / 34)).

Definition rb_finalize (rb : RtypeBitmapBuilder) : outcome RtypeBitmap :=
  let! (b, dst_pos) := finalize_loop (steps (length (as_ref (rb_buf rb)))) 0 (rb_buf rb) in
  Ret (mkBitmap (freeze (builder_truncate b dst_pos))).

(** [add] for one type after the other, as [scan] does. *)
Fixpoint rb_add_all (rtypes : list Z) (rb : RtypeBitmapBuilder) : outcome (RtypeBitmapBuilder * bool) :=
  match rtypes with
  | [] => Ret (rb, true)
  | rtype :: rtypes =>
      let! (rb, ok) := rb_add rtype rb in
      if ok : bool then rb_add_all rtypes rb else Ret (rb, false)
  end.
End Builder.
Arguments RtypeBitmapBuilder B : clear implicits.

(** ** The builder keeps a set of types *)

(** A block: its number, the octets in use and all 32 octets. *)
Record block := mkBlock { bk_num : Z; bk_len : Z; bk_bits : list Z }.

Definition block_octets (k : block) : list Z := bk_num k :: bk_len k :: bk_bits k.
Definition blocks_octets (bs : list block) : list Z := concat (map block_octets bs).

Definition block_set (o : nat) (mask : Z) (k : block) : block :=
  mkBlock (bk_num k) (if (Z.to_nat (bk_len k) <? o + 1)%nat then Z.of_nat (o + 1) else bk_len k)
    (<[o := Z.lor (nth o (bk_bits k) 0) mask]> (bk_bits k)).

Definition block_new (n : Z) : block := mkBlock n 0 (replicate 32 0).

(** The block with number [n], added where it belongs, between the blocks before
    and after it. *)
Fixpoint blocks_split (n : Z) (bs : list block) : list block * block * list block :=
  match bs with
  | [] => ([], block_new n, [])
  | k :: bs' =>
      match bk_num k ?= n with
      | Eq => ([], k, bs')
      | Gt => ([], block_new n, bs)
      | Lt => let '(pre, k', post) := blocks_split n bs' in (k :: pre, k', post)
      end
  end.

Definition blocks_add (n : Z) (o : nat) (mask : Z) (bs : list block) : list block :=
  let '(pre, k, post) := blocks_split n bs in pre ++ block_set o mask k :: post.

Definition full (k : block) : Prop := length (bk_bits k) = 32%nat.

Lemma length_blocks bs : Forall full bs -> length (blocks_octets bs) = (34 * length bs)%nat.
Proof.
  unfold blocks_octets. induction 1 as [|k bs Hk _ IH]; [done|]. cbn [map concat]. rewrite length_app, IH. simpl. rewrite Hk. lia.
Qed.

Lemma blocks_octets_app bs bs' : blocks_octets (bs ++ bs') = blocks_octets bs ++ blocks_octets bs'.
Proof. unfold blocks_octets. by rewrite map_app, concat_app. Qed.

Lemma blocks_octets_cons k bs : blocks_octets (k :: bs) = block_octets k ++ blocks_octets bs.
Proof. done. Qed.

Lemma blocks_split_full n bs pre k post :
  Forall full bs -> blocks_split n bs = (pre, k, post) -> Forall full (pre ++ k :: post).
Proof.
  revert pre k post; induction bs as [|k0 bs IH]; intros pre k post Hf; simpl.
  - intros [= <- <- <-]. by repeat constructor.
  - apply Forall_cons in Hf as [Hk Hf]. destruct (bk_num k0 ?= n).
    + intros [= <- <- <-]. by constructor.
    + destruct (blocks_split n bs) as [[pre' k'] post'] eqn:E. intros [= <- <- <-]. constructor; [done|]. by apply IH.
    + intros [= <- <- <-]. by repeat constructor.
Qed.

Section BuilderCorrect.
Context {B : Type} `{OctetsBuilderOk B}.

Lemma copy_within_spec (b : B) u x v start stop dst :
  as_ref b = u -> (start <= stop <= length u)%nat -> (dst + (stop - start) <= length u)%nat ->
  take (stop - start) (drop start u) = x -> drop (dst + (stop - start)) u = v ->
  exists b', copy_within b start stop dst = Ret b' /\ as_ref b' = take dst u ++ x ++ v.
Proof.
  intros Hu Hs Hd Hx Hv. unfold copy_within. rewrite Hu.
  destruct (Nat.ltb_spec stop start); [lia|]. destruct (Nat.ltb_spec (length u) stop); [lia|].
  destruct (Nat.ltb_spec (length u) (dst + (stop - start))); [lia|]. eexists; split; [done|]. rewrite Hx.
  assert (Hl : length x = (stop - start)%nat) by (rewrite <- Hx, length_take, length_drop; lia).
  rewrite as_ref_write_octets by (rewrite Hu; lia). by rewrite Hu, Hl, Hv.
Qed.

Lemma block_ref_spec (b : B) pos : (pos + 34 <= length (as_ref b))%nat -> block_ref b pos = Ret (b, Some pos).
Proof. intros Hl. unfold block_ref. by destruct (Nat.ltb_spec (length (as_ref b)) (pos + 34)); [lia|]. Qed.

(** A new block in front of the octets [v]. *)
Lemma insert_block (b b1 : B) n u v :
  as_ref b = u ++ v -> append_slice b (replicate 34 0) = Some b1 ->
  exists b2, copy_within b1 (length u) (length (as_ref b)) (length u + 34) = Ret b2 /\
    as_ref (set_octet (write_octets b2 (length u) (replicate 34 0)) (length u) n) = u ++ block_octets (block_new n) ++ v.
Proof.
  intros Hb Ha. apply as_ref_append in Ha. rewrite Hb in Ha |- *.
  assert (Hl1 : length (as_ref b1) = (length u + length v + 34)%nat) by (rewrite Ha, !length_app, length_replicate; lia).
  rewrite length_app.
  destruct (copy_within_spec b1 _ v [] (length u) (length u + length v) (length u + 34) eq_refl) as (b2 & E2 & H2);
    [lia|lia| |apply drop_ge; lia|].
  { replace (length u + length v - length u)%nat with (length v) by lia.
    by rewrite Ha, <- app_assoc, drop_app_length, take_app_length. }
  exists b2. split; [done|]. rewrite app_nil_r in H2.
  assert (Hz : exists z, take (length u + 34) (as_ref b1) = u ++ z /\ length z = 34%nat).
  { exists (take 34 (v ++ replicate 34 0)). rewrite length_take, length_app, length_replicate. split; [|lia].
    by rewrite Ha, <- app_assoc, take_app_add. }
  destruct Hz as (z & Hz & Lz). rewrite Hz, <- app_assoc in H2.
  assert (H3 : as_ref (write_octets b2 (length u) (replicate 34 0)) = u ++ replicate 34 0 ++ v).
  { rewrite as_ref_write_octets by (rewrite H2, !length_app, length_replicate; lia). rewrite H2, take_app_length, length_replicate.
    rewrite drop_app_add. do 2 f_equal. by rewrite <- Lz, drop_app_length. }
  rewrite as_ref_set_octet by (rewrite H3, length_app; simpl; lia). rewrite H3, insert_app_r_alt by lia. by rewrite Nat.sub_diag.
Qed.

Lemma get_block_loop_spec fuel n pre suf (b : B) :
  Forall full (pre ++ suf) -> as_ref b = blocks_octets (pre ++ suf) -> (length suf < fuel)%nat ->
  exists r, get_block_loop fuel n (34 * length pre) b = Ret r /\
    (r.2 = None -> r.1 = b /\ append_slice b (replicate 34 0) = None) /\
    (forall pos, r.2 = Some pos -> let '(pre', k, post) := blocks_split n suf in
       pos = (34 * length (pre ++ pre'))%nat /\ as_ref r.1 = blocks_octets ((pre ++ pre') ++ k :: post)).
Proof.
  revert pre suf; induction fuel as [|fuel IH]; intros pre suf Hf Hb Hl; [lia|].
  assert (Hpre : length (blocks_octets pre) = (34 * length pre)%nat) by (apply length_blocks; by apply Forall_app in Hf as [? _]).
  remember (34 * length pre)%nat as pos eqn:Epos. cbn [get_block_loop]. destruct suf as [|k suf]; cbn [blocks_split].
  - rewrite app_nil_r in *. rewrite lookup_ge_None_2 by (rewrite Hb; lia).
    destruct (append_slice b (replicate 34 0)) as [b1|] eqn:Ea; [|by exists (b, None)].
    apply as_ref_append in Ea. rewrite Hb in Ea. assert (Hl1 : length (as_ref b1) = (pos + 34)%nat) by (rewrite Ea, length_app, length_replicate; lia).
    destruct (Nat.leb_spec (length (as_ref b1)) pos); [lia|].
    assert (Hs : as_ref (set_octet b1 pos n) = blocks_octets (pre ++ [block_new n])).
    { rewrite as_ref_set_octet by lia. rewrite Ea, insert_app_r_alt by lia. rewrite Hpre, Nat.sub_diag, blocks_octets_app. done. }
    rewrite block_ref_spec by (rewrite Hs, length_blocks, length_app; [simpl; lia|apply Forall_app; by repeat constructor]).
    eexists; split; [done|]. split; [done|]. intros ? [= <-]. cbv beta iota. by rewrite ?app_nil_r.
  - assert (Hk : as_ref b = blocks_octets pre ++ block_octets k ++ blocks_octets suf) by (rewrite Hb, blocks_octets_app; done).
    assert (Hn : as_ref b !! pos = Some (bk_num k)) by (rewrite Hk, lookup_app_r, Hpre, Nat.sub_diag by lia; done).
    rewrite Hn. assert (Hlen : length (as_ref b) = (34 * length (pre ++ k :: suf))%nat) by (by rewrite Hb, length_blocks).
    rewrite length_app in Hlen. cbn [length] in Hlen. destruct (bk_num k ?= n) eqn:Ec.
    + rewrite block_ref_spec by lia. eexists; split; [done|]. split; [done|]. intros ? [= <-]. cbv beta iota. by rewrite app_nil_r.
    + destruct (IH (pre ++ [k]) suf) as (r & Hr & Hnone & Hsome); [by rewrite <- app_assoc|by rewrite <- app_assoc|simpl in Hl; lia|].
      rewrite length_app in Hr. cbn [length] in Hr. replace (pos + 34)%nat with (34 * (length pre + 1))%nat by lia. exists r.
      split; [done|]. split; [done|]. intros pos' E. specialize (Hsome pos' E). destruct (blocks_split n suf) as [[pre' k'] post].
      by rewrite <- app_assoc in Hsome.
    + destruct (append_slice b (replicate 34 0)) as [b1|] eqn:Ea; [|by exists (b, None)].
      destruct (insert_block b b1 n (blocks_octets pre) (block_octets k ++ blocks_octets suf) Hk Ea) as (b2 & E2 & H2).
      rewrite Hpre in E2, H2. rewrite E2. rewrite block_ref_spec.
      * eexists; split; [done|]. split; [done|]. intros ? [= <-]. cbv beta iota. rewrite app_nil_r. split; [done|]. cbn [fst]. rewrite H2, blocks_octets_app. done.
      * rewrite H2, !length_app. simpl. lia.
Qed.

(** Setting an octet of a block. *)
Lemma set_in_block (b : B) u k v i x :
  as_ref b = u ++ block_octets k ++ v -> (i < length (block_octets k))%nat ->
  as_ref (set_octet b (length u + i) x) = u ++ <[i := x]> (block_octets k) ++ v.
Proof.
  intros Hb Hi. rewrite as_ref_set_octet by (rewrite Hb, !length_app; lia). rewrite Hb, insert_app_r.
  by rewrite (insert_app_l (block_octets k)).
Qed.

Lemma nth_in_block (u v : list Z) k i :
  (i < length (block_octets k))%nat -> nth (length u + i) (u ++ block_octets k ++ v) 0 = nth i (block_octets k) 0.
Proof. intros Hi. rewrite app_nth2_plus. by apply app_nth1. Qed.

(** Adding a type sets its bit in its block. *)
Lemma rb_add_spec t rb bs :
  is_u16 t -> Forall full bs -> as_ref (rb_buf rb) = blocks_octets bs ->
  exists r, rb_add t rb = Ret r /\
    (r.2 = true -> as_ref (rb_buf r.1) =
       blocks_octets (blocks_add (t / 256) (Z.to_nat (t mod 256 / 8)) (Z.shiftr 128 (t mod 8)) bs)) /\
    (r.2 = false -> append_slice (rb_buf rb) (replicate 34 0) = None).
Proof.
  intros Ht Hf Hb. unfold rb_add, get_block. rewrite split_rtype_spec by done.
  assert (Ho : (Z.to_nat (t mod 256 / 8) < 32)%nat).
  { pose proof (Z.mod_pos_bound t 256 ltac:(lia)). assert (t mod 256 / 8 < 32) by (apply Z.div_lt_upper_bound; lia).
    pose proof (Z.div_pos (t mod 256) 8). lia. }
  revert Ho. generalize (Z.to_nat (t mod 256 / 8)) as o, (Z.shiftr 128 (t mod 8)) as m, (t / 256) as n. intros o m n Ho.
  destruct (get_block_loop_spec (S (length (as_ref (rb_buf rb)))) n [] bs (rb_buf rb) Hf Hb) as ([b1 r] & Hr & Hnone & Hsome).
  { rewrite Hb, length_blocks by done. lia. }
  change (34 * length [])%nat with 0%nat in Hr. rewrite Hr. clear Hr.
  cbn [fst snd] in Hnone, Hsome. destruct r as [pos|]; [|eexists; split; [done|]; split; [done|]; intros _; by apply Hnone].
  specialize (Hsome pos eq_refl). unfold blocks_add. destruct (blocks_split n bs) as [[pre k] post] eqn:Es.
  apply (blocks_split_full n bs _ _ _ Hf) in Es. apply Forall_app in Es as [Hpre [Hk Hpost]%Forall_cons].
  destruct Hsome as [-> H1]. rewrite app_nil_l in *. rewrite <- (length_blocks pre) by done. set (u := blocks_octets pre) in *.
  rewrite blocks_octets_app, blocks_octets_cons in H1. fold u in H1.
  assert (Hlk : length (block_octets k) = 34%nat) by (simpl; by rewrite Hk). rewrite H1, nth_in_block by lia. cbn [nth block_octets].
  set (l' := if (Z.to_nat (bk_len k) <? o + 1)%nat then Z.of_nat (o + 1) else bk_len k).
  set (b2 := if (Z.to_nat (bk_len k) <? o + 1)%nat then _ else b1).
  assert (H2 : as_ref b2 = u ++ block_octets (mkBlock (bk_num k) l' (bk_bits k)) ++ blocks_octets post).
  { subst b2 l'. destruct (_ <? _)%nat; [|by destruct k]. rewrite (set_in_block b1 u k _ _ _ H1) by lia.
    unfold as_u8. rewrite Z.mod_small by lia. done. }
  eexists; split; [done|]. split; [|done]. intros _. cbn [rb_buf fst]. rewrite H2, nth_in_block by (simpl in *; lia).
  rewrite (set_in_block b2 u _ _ _ _ H2) by (simpl in *; lia). rewrite blocks_octets_app, blocks_octets_cons. fold u.
  replace (o + 2)%nat with (S (S o)) by lia. done.
Qed.

(** ** Finishing *)

Definition block_window (k : block) : window := (bk_num k, take (Z.to_nat (bk_len k)) (bk_bits k)).

Definition block_fits (k : block) : Prop := full k /\ 0 <= bk_len k <= 32.

Lemma finalize_loop_spec i srcs suf dst (b : B) w :
  Forall block_fits suf -> srcs = map (fun j => (34 * j)%nat) (seq i (length suf)) -> length w = dst -> (dst <= 34 * i)%nat ->
  take dst (as_ref b) = w -> drop (34 * i) (as_ref b) = blocks_octets suf -> (34 * i <= length (as_ref b))%nat ->
  exists b', finalize_loop srcs dst b = Ret (b', dst + length (windows_wire (map block_window suf)))%nat /\
    take (dst + length (windows_wire (map block_window suf))) (as_ref b') = w ++ windows_wire (map block_window suf).
Proof.
  revert i srcs dst b w; induction suf as [|k suf IH]; intros i srcs dst b w Hf -> Hw Hle Ht Hd Hlen.
  - exists b. cbn. by rewrite Nat.add_0_r, app_nil_r.
  - apply Forall_cons in Hf as [[Hk Hl] Hf]. cbn [length seq map]. rewrite blocks_octets_cons in Hd.
    assert (Hlk : length (block_octets k) = 34%nat) by (simpl; by rewrite Hk).
    assert (Hlen2 : (34 * i + 34 <= length (as_ref b))%nat).
    { apply (f_equal length) in Hd. rewrite length_drop, length_app in Hd. lia. }
    remember (34 * i)%nat as src eqn:Esrc. cbn [finalize_loop].
    replace (as_ref b !! (src + 1)%nat) with (Some (bk_len k)) by (by rewrite <- lookup_drop, Hd).
    set (c := (Z.to_nat (bk_len k) + 2)%nat).
    destruct (copy_within_spec b _ (window_wire (block_window k)) (drop (dst + c) (as_ref b)) src (src + c) dst eq_refl) as (b1 & E1 & H1);
      [lia|lia| |do 2 f_equal; lia|].
    { replace (src + c - src)%nat with (2 + Z.to_nat (bk_len k))%nat by lia. rewrite Hd, take_app_le by (simpl; rewrite Hk; lia).
      unfold block_octets, window_wire, block_window, zlen. cbn [take Nat.add fst snd]. rewrite length_take, Hk. do 3 f_equal. lia. }
    rewrite E1. assert (Hc : length (window_wire (block_window k)) = c) by (simpl; rewrite length_take, Hk; lia).
    destruct (IH (S i) _ (dst + c)%nat b1 (w ++ window_wire (block_window k)) Hf eq_refl) as (b' & Hr & Hb').
    + rewrite length_app. lia.
    + lia.
    + rewrite H1, Ht, app_assoc. apply take_app_length'. rewrite length_app. lia.
    + rewrite H1, Ht, app_assoc, drop_app_ge by (rewrite length_app; lia). rewrite length_app, drop_drop.
      replace (dst + c + (34 * S i - (length w + length (window_wire (block_window k)))))%nat with (src + 34)%nat by lia.
      rewrite <- drop_drop, Hd. rewrite <- Hlk. apply drop_app_length.
    + rewrite H1, Ht, !length_app, length_drop. lia.
    + exists b'. rewrite Hr. change (windows_wire (block_window k :: map block_window suf)) with
        (window_wire (block_window k) ++ windows_wire (map block_window suf)). rewrite length_app, Hc.
      rewrite <- !Nat.add_assoc in *. split; [done|]. by rewrite Hb', app_assoc.
Qed.

Lemma rb_finalize_spec rb bs :
  Forall block_fits bs -> as_ref (rb_buf rb) = blocks_octets bs ->
  rb_finalize rb = Ret (mkBitmap (windows_wire (map block_window bs))).
Proof.
  intros Hf Hb. assert (Hfull : Forall full bs) by (eapply Forall_impl; [exact Hf|by intros ? []]).
  unfold rb_finalize, steps. rewrite Hb, length_blocks by done.
  replace ((34 * length bs + 33) / 34)%nat with (length bs) by (apply (Nat.div_unique _ 34 (length bs) 33); lia).
  destruct (finalize_loop_spec 0 _ bs 0 (rb_buf rb) [] Hf eq_refl) as (b' & -> & Hb'); [done|lia|done|done|lia|].
  by rewrite freeze_as_ref, as_ref_truncate, Hb'.
Qed.
End BuilderCorrect.

(** ** The types in the blocks *)

Lemma bit_set_testbit b bit : 0 <= bit < 8 -> bit_set b bit = Z.testbit b (7 - bit).
Proof.
  intros Hb. unfold bit_set. rewrite Z.shiftr_div_pow2 by lia. change 128 with (2 ^ 7). rewrite <- Z.pow_sub_r by lia.
  set (k := 7 - bit). assert (Hk : 0 <= k) by lia. destruct (Z.testbit b k) eqn:E.
  - destruct (Z.eqb_spec (Z.land b (2 ^ k)) 0) as [E0|]; [|done]. apply (f_equal (fun z => Z.testbit z k)) in E0.
    by rewrite Z.land_spec, E, Z.pow2_bits_true, Z.bits_0 in E0.
  - replace (Z.land b (2 ^ k)) with 0; [done|]. symmetry. apply Z.bits_inj'; intros i Hi.
    rewrite Z.land_spec, Z.bits_0, Z.pow2_bits_eqb by done. destruct (Z.eqb_spec k i) as [<-|]; [by rewrite E|apply andb_false_r].
Qed.

Lemma bit_set_lor b bit bit' :
  0 <= bit < 8 -> 0 <= bit' < 8 -> bit_set (Z.lor b (Z.shiftr 128 bit)) bit' = bit_set b bit' || (bit =? bit').
Proof.
  intros Hb Hb'. rewrite !bit_set_testbit, Z.lor_spec by done. f_equal. rewrite Z.shiftr_div_pow2 by lia.
  change 128 with (2 ^ 7). rewrite <- Z.pow_sub_r, Z.pow2_bits_eqb by lia.
  destruct (Z.eqb_spec bit bit'), (Z.eqb_spec (7 - bit) (7 - bit')); lia.
Qed.

Lemma bit_set_0 bit : bit_set 0 bit = false.
Proof. done. Qed.

Record block_inv (k : block) : Prop := {
  bki_num : is_u8 (bk_num k);
  bki_full : full k;
  bki_octets : wf_octets (bk_bits k);
  bki_len : 1 <= bk_len k <= 32;
  bki_last : nth (Z.to_nat (bk_len k) - 1) (bk_bits k) 0 <> 0;
  bki_zero i : (Z.to_nat (bk_len k) <= i)%nat -> nth i (bk_bits k) 0 = 0
}.

(** Blocks in order, and the types in them. *)
Definition blocks_inv (bs : list block) : Prop := Forall block_inv bs /\ StronglySorted Z.lt (map bk_num bs).

Definition in_block (k : block) (t : Z) : Prop :=
  bk_num k = t / 256 /\ listed (bk_bits k) (Z.to_nat (t mod 256 / 8)) (t mod 8) = true.

Definition in_blocks (bs : list block) (t : Z) : Prop := Exists (fun k => in_block k t) bs.

Lemma listed_nth w o bit : length w = 32%nat -> listed w o bit = bit_set (nth o w 0) bit.
Proof.
  intros Hl. unfold listed. rewrite nth_lookup. destruct (w !! o) eqn:E; [done|]. simpl. by rewrite bit_set_0.
Qed.

Lemma nth_insert (w : list Z) o i x : (o < length w)%nat -> nth i (<[o := x]> w) 0 = if decide (o = i) then x else nth i w 0.
Proof.
  intros Hl. rewrite !nth_lookup. destruct (decide (o = i)) as [<-|Hne].
  - by rewrite list_lookup_insert_eq.
  - by rewrite list_lookup_insert_ne.
Qed.

Lemma block_set_listed o bit k o' bit' :
  full k -> (o < 32)%nat -> 0 <= bit < 8 -> 0 <= bit' < 8 ->
  listed (bk_bits (block_set o (Z.shiftr 128 bit) k)) o' bit' = listed (bk_bits k) o' bit' || (bool_decide (o = o') && (bit =? bit')).
Proof.
  intros Hk Ho Hb Hb'. unfold block_set; cbn [bk_bits]. rewrite !listed_nth by (rewrite ?length_insert; done).
  rewrite nth_insert by (rewrite Hk; done). destruct (decide (o = o')) as [<-|Hne].
  - rewrite bool_decide_true by done. by apply bit_set_lor.
  - rewrite bool_decide_false by done. by rewrite orb_false_r.
Qed.

Lemma lor_nonzero b bit : 0 <= bit < 8 -> Z.lor b (Z.shiftr 128 bit) <> 0.
Proof.
  intros Hb E. pose proof (bit_set_lor b bit bit Hb Hb) as H. rewrite E, bit_set_0, Z.eqb_refl, orb_true_r in H. done.
Qed.

Lemma mask_u8 bit : 0 <= bit < 8 -> is_u8 (Z.shiftr 128 bit).
Proof.
  intros Hb. rewrite Z.shiftr_div_pow2 by lia. change 128 with (2 ^ 7). rewrite <- Z.pow_sub_r by lia. split; [apply Z.pow_nonneg; lia|].
  apply Z.pow_lt_mono_r; lia.
Qed.

Lemma lor_u8 a b : is_u8 a -> is_u8 b -> is_u8 (Z.lor a b).
Proof.
  intros Ha Hb. unfold is_u8 in *. assert (H0 : 0 <= Z.lor a b) by (apply Z.lor_nonneg; lia). split; [done|]. destruct (Z.eq_dec (Z.lor a b) 0) as [->|Hne]; [lia|].
  apply Z.log2_lt_pow2; [lia|]. rewrite Z.log2_lor by lia.
  assert (Hlog : forall c, 0 <= c < 2 ^ 8 -> Z.log2 c < 8).
  { intros c Hc. destruct (Z.eq_dec c 0) as [->|]; [done|]. apply Z.log2_lt_pow2; lia. }
  apply Z.max_lub_lt; by apply Hlog.
Qed.

(** A block that is new or was there is a good block when a bit is set. *)
Lemma block_set_inv o bit k :
  block_inv k \/ (exists n, is_u8 n /\ k = block_new n) -> (o < 32)%nat -> 0 <= bit < 8 -> block_inv (block_set o (Z.shiftr 128 bit) k).
Proof.
  intros Hk Ho Hb.
  assert (is_u8 (bk_num k) /\ full k /\ wf_octets (bk_bits k) /\ 0 <= bk_len k <= 32 /\
    (0 < bk_len k -> nth (Z.to_nat (bk_len k) - 1) (bk_bits k) 0 <> 0) /\
    (forall i, (Z.to_nat (bk_len k) <= i)%nat -> nth i (bk_bits k) 0 = 0)) as (Hn & Hf & Hw & Hl & Hlast & Hz).
  { destruct Hk as [[Hn Hf Hw Hl Hlast Hz]|(n & Hn & ->)].
    - do 3 (split; [done|]). split; [lia|]. by split.
    - split; [done|]. split; [done|]. split; [by apply list.Forall_replicate|]. split; [done|]. split; [done|]. intros i _.
      cbn [bk_bits block_new]. rewrite nth_lookup. destruct (replicate 32 0 !! i) eqn:E; [|done]. by apply lookup_replicate in E as [-> _]. }
  assert (Hlen : length (bk_bits k) = 32%nat) by done.
  split; unfold block_set; cbn [bk_num bk_len bk_bits].
  - done.
  - unfold full; cbn. by rewrite length_insert.
  - apply Forall_insert; [done|]. apply lor_u8; [|by apply mask_u8]. rewrite nth_lookup.
    destruct (bk_bits k !! o) eqn:E; [by eapply Forall_lookup_1 in E|done].
  - destruct (Nat.ltb_spec (Z.to_nat (bk_len k)) (o + 1)); lia.
  - rewrite nth_insert by lia. destruct (Nat.ltb_spec (Z.to_nat (bk_len k)) (o + 1)).
    + rewrite decide_True by lia. by apply lor_nonzero.
    + destruct (decide _); [by apply lor_nonzero|]. apply Hlast. lia.
  - intros i Hi. rewrite nth_insert by lia. destruct (Nat.ltb_spec (Z.to_nat (bk_len k)) (o + 1)).
    + rewrite decide_False by lia. apply Hz. lia.
    + rewrite decide_False by lia. by apply Hz.
Qed.

(** Adding a type keeps the blocks good and adds the type to the set. *)

Lemma blocks_add_cons n o m k bs :
  blocks_add n o m (k :: bs) =
  match bk_num k ?= n with
  | Eq => block_set o m k :: bs
  | Gt => block_set o m (block_new n) :: k :: bs
  | Lt => k :: blocks_add n o m bs
  end.
Proof. unfold blocks_add. cbn [blocks_split]. destruct (bk_num k ?= n); [done| |done]. by destruct (blocks_split n bs) as [[pre k'] post]. Qed.

Lemma blocks_add_nums (Q : Z -> Prop) n o m bs :
  Forall Q (map bk_num bs) -> Q n -> Forall Q (map bk_num (blocks_add n o m bs)).
Proof.
  intros Hb Hn. induction bs as [|k bs IH]; [by repeat constructor|]. cbn [map] in Hb. apply Forall_cons in Hb as [Hk Hb].
  rewrite blocks_add_cons. destruct (bk_num k ?= n); cbn [map bk_num block_set block_new]; repeat constructor; auto.
Qed.

Lemma blocks_add_inv n o bit bs :
  is_u8 n -> (o < 32)%nat -> 0 <= bit < 8 -> blocks_inv bs -> blocks_inv (blocks_add n o (Z.shiftr 128 bit) bs).
Proof.
  intros Hn Ho Hb [Hbs Hs].
  assert (Hnew : block_inv (block_set o (Z.shiftr 128 bit) (block_new n))) by (apply block_set_inv; [right; by exists n|done..]).
  induction bs as [|k bs IH]; [split; [by apply Forall_singleton|by repeat constructor]|]. cbn [map] in Hs.
  apply Forall_cons in Hbs as [Hk Hbs]. apply StronglySorted_cons in Hs as [Hlt Hs]. rewrite blocks_add_cons.
  destruct (Z.compare_spec (bk_num k) n) as [E|E|E].
  - split; [constructor; [by apply block_set_inv; [left|..]|done]|]. by apply StronglySorted_cons.
  - destruct (IH Hbs Hs) as [Hbs' Hs']. split; [by constructor|]. apply StronglySorted_cons. split; [|done]. by apply blocks_add_nums.
  - split; [constructor; [done|by constructor]|]. apply StronglySorted_cons. split; [|by apply StronglySorted_cons].
    constructor; [done|]. eapply Forall_impl; [exact Hlt|]. cbn. intros x Hx. lia.
Qed.

Lemma in_blocks_add t bs t' :
  is_u16 t -> blocks_inv bs ->
  in_blocks (blocks_add (t / 256) (Z.to_nat (t mod 256 / 8)) (Z.shiftr 128 (t mod 8)) bs) t' <-> t' = t \/ in_blocks bs t'.
Proof.
  intros Ht [Hbs _]. set (n := t / 256). set (o := Z.to_nat (t mod 256 / 8)). pose proof (Z.mod_pos_bound t 8 ltac:(lia)) as Hb.
  assert (Ho : (o < 32)%nat).
  { subst o. pose proof (Z.mod_pos_bound t 256 ltac:(lia)). assert (t mod 256 / 8 < 32) by (apply Z.div_lt_upper_bound; lia).
    pose proof (Z.div_pos (t mod 256) 8). lia. }
  assert (Hset : forall k, full k -> bk_num k = n -> in_block (block_set o (Z.shiftr 128 (t mod 8)) k) t' <-> t' = t \/ in_block k t').
  { intros k Hk Hn. unfold in_block. rewrite block_set_listed by (done || apply Z.mod_pos_bound; lia). cbn [bk_num block_set].
    rewrite Hn, orb_true_iff, andb_true_iff, bool_decide_eq_true, Z.eqb_eq. split.
    - intros [E [?|[E1 E2]]]; [by right|left]. rewrite (type_sum t), (type_sum t'). subst n o. lia.
    - intros [->|[E ?]]; [by auto|by auto]. }
  assert (Hnew : ~ in_block (block_new n) t').
  { intros [_ Hl]. rewrite listed_nth, nth_lookup in Hl by done. destruct (bk_bits (block_new n) !! _) eqn:E.
    - apply lookup_replicate in E as [-> _]. by rewrite bit_set_0 in Hl.
    - by rewrite bit_set_0 in Hl. }
  unfold in_blocks. induction bs as [|k bs IH].
  - change (blocks_add n o _ []) with [block_set o (Z.shiftr 128 (t mod 8)) (block_new n)].
    rewrite Exists_cons, Exists_nil, Hset by done. tauto.
  - apply Forall_cons in Hbs as [Hk Hbs]. rewrite blocks_add_cons. specialize (IH Hbs).
    destruct (Z.compare_spec (bk_num k) n) as [E|E|E]; rewrite !Exists_cons.
    + rewrite Hset by (done || apply Hk). tauto.
    + rewrite IH. tauto.
    + rewrite Hset by done. tauto.
Qed.

(** ** The windows of the blocks *)

Lemma block_window_ok k : block_inv k -> window_ok (block_window k).
Proof.
  intros [Hn Hf Hw Hl _ _]. unfold full in Hf. split; [done|]. split; [|by apply list.Forall_take].
  cbn. rewrite length_take, Hf. lia.
Qed.

Lemma block_window_listed k o bit : block_inv k -> listed (block_window k).2 o bit = listed (bk_bits k) o bit.
Proof.
  intros [_ Hf _ Hl _ Hz]. cbn [block_window snd]. destruct (decide (o < Z.to_nat (bk_len k))%nat) as [Ho|Ho].
  - unfold listed. by rewrite lookup_take_lt.
  - rewrite (listed_nth (bk_bits k)) by done. rewrite Hz by lia. rewrite bit_set_0. unfold listed. by rewrite lookup_take_ge by lia.
Qed.

Lemma blocks_types bs t : blocks_inv bs -> t ∈ windows_types (map block_window bs) <-> in_blocks bs t.
Proof.
  intros [Hbs _]. assert (Hws : Forall window_ok (map block_window bs)).
  { apply Forall_map. eapply Forall_impl; [exact Hbs|]. apply block_window_ok. }
  rewrite windows_types_iff by done. unfold in_blocks, in_block. rewrite list.Exists_exists. rewrite list.Forall_forall in Hbs. split.
  - intros (w & Hw & Hl). apply list_elem_of_fmap in Hw as (k & Ek & Hk). exists k. split; [done|].
    unfold block_window in Ek. injection Ek as En Ew. split; [done|]. rewrite <- block_window_listed by auto. cbn [block_window snd].
    by rewrite <- Ew.
  - intros (k & Hk & Hn & Hl). exists (block_window k).2. split.
    + apply list_elem_of_fmap. exists k. by rewrite <- Hn.
    + by rewrite block_window_listed by auto.
Qed.

(** ** The order of the types *)

Lemma StronglySorted_concat {A} (R : relation A) (l l' : list A) :
  StronglySorted R l -> StronglySorted R l' -> (forall x y, x ∈ l -> y ∈ l' -> R x y) -> StronglySorted R (l ++ l').
Proof.
  intros Hl Hl' Hx. induction l as [|a l IH]; [done|]. apply StronglySorted_cons in Hl as [Ha Hl]. cbn. apply StronglySorted_cons. split.
  - apply Forall_app. split; [done|]. apply list.Forall_forall. intros y Hy. apply Hx; [apply list_elem_of_here|done].
  - apply IH; [done|]. intros x y ? ?. apply Hx; [by apply list_elem_of_further|done].
Qed.

Lemma sorted_nodup l : StronglySorted Z.lt l -> NoDup l.
Proof.
  induction 1 as [|a l _ IH Ha]; [constructor|]. apply NoDup_cons. split; [|done]. intros Hin.
  rewrite list.Forall_forall in Ha. specialize (Ha a Hin). lia.
Qed.

Lemma set_types_app l l' : set_types (l ++ l') = set_types l ++ set_types l'.
Proof. unfold set_types. by rewrite filter_app, map_app. Qed.

Lemma octet_types_sorted base b : StronglySorted Z.lt (set_types (octet_bits base b)).
Proof.
  unfold octet_bits. rewrite <- (Z.add_0_r 0) at 1. generalize 0 at 1 as i. generalize 8 as len.
  assert (H : forall len i, StronglySorted Z.lt (set_types (map (fun bit => (base + bit, bit_set b bit)) (seqZ i (Z.of_nat len)))) /\
    forall t, t ∈ set_types (map (fun bit => (base + bit, bit_set b bit)) (seqZ i (Z.of_nat len))) -> base + i <= t).
  { induction len as [|len IH]; intros i; [split; [constructor|by intros t ?%elem_of_nil]|].
    rewrite seqZ_cons by lia. replace (Z.pred (Z.of_nat (S len))) with (Z.of_nat len) by lia. destruct (IH (Z.succ i)) as [IHs IHb].
    unfold set_types in *. cbn [map]. rewrite filter_cons. cbn [snd]. destruct (decide (bit_set b i = true)).
    - cbn [map fst]. split.
      + apply StronglySorted_cons. split; [|done]. apply list.Forall_forall. intros t Ht. specialize (IHb t Ht). lia.
      + intros t [->|Ht]%elem_of_cons; [lia|]. specialize (IHb t Ht). lia.
    - split; [done|]. intros t Ht. specialize (IHb t Ht). lia. }
  intros len i. destruct (Z.le_gt_cases 0 len).
  - replace len with (Z.of_nat (Z.to_nat len)) by lia. apply H.
  - unfold seqZ. replace (Z.to_nat len) with 0%nat by lia. constructor.
Qed.

Lemma elem_octet_types base b t : t ∈ set_types (octet_bits base b) -> base <= t < base + 8.
Proof. intros H%elem_set_types. apply list_elem_of_fmap in H as (bit & [= -> _] & Hb). apply elem_of_seqZ in Hb. lia. Qed.

Lemma elem_window_types base w t : t ∈ set_types (window_bits base w) -> base <= t < base + 8 * Z.of_nat (length w).
Proof.
  intros H%elem_set_types. apply elem_window_bits in H as (o & b & bit & Ho & Hb & -> & _). apply lookup_lt_Some in Ho. lia.
Qed.

Lemma window_types_sorted base w : StronglySorted Z.lt (set_types (window_bits base w)).
Proof.
  revert base; induction w as [|b w IH]; intros base; [constructor|]. cbn [window_bits]. rewrite set_types_app.
  apply StronglySorted_concat; [apply octet_types_sorted|apply IH|]. intros x y Hx%elem_octet_types Hy%elem_window_types. lia.
Qed.

Lemma windows_types_sorted ws :
  Forall window_ok ws -> StronglySorted Z.lt ws.*1 -> StronglySorted Z.lt (windows_types ws).
Proof.
  unfold windows_types, all_bits. induction ws as [|[n w] ws IH]; intros Hws Hs; [constructor|].
  pose proof Hws as Hall. apply Forall_cons in Hws as [(_ & Hl & _) Hws]. cbn in Hs, Hl. apply StronglySorted_cons in Hs as [Hn Hs].
  cbn [map concat fst snd]. rewrite set_types_app. apply StronglySorted_concat; [apply window_types_sorted|by apply IH|].
  intros x y Hx%elem_window_types Hy. assert (Hy' : y ∈ windows_types ws) by done. apply elem_windows_types in Hy' as (n' & w' & o & bit & Hw & Hb & -> & _).
  rewrite list.Forall_forall in Hn. specialize (Hn n'). assert (n < n'); [|lia]. apply Hn. apply list_elem_of_fmap. by exists (n', w').
Qed.

(** ** Theorems *)

(** Every octet sequence is either rejected or a sequence of windows of 1 to 32
    octets each.  Iterating over an accepted bitmap ends without a panic and
    yields the types whose bits are set, in the order of the windows; if no
    window comes twice, [contains] finds exactly these types.  (C21) *)
Theorem bitmap_from_octets_correct s :
  wf_octets s ->
  exists r, bitmap_from_octets s = Some r /\
    (r = Ok (mkBitmap s) <-> exists ws, Forall window_ok ws /\ s = windows_wire ws) /\
    forall ws, Forall window_ok ws -> s = windows_wire ws ->
      bitmap_iter (mkBitmap s) = Ret (windows_types ws) /\
      (NoDup ws.*1 -> forall t, is_u16 t -> bitmap_contains (mkBitmap s) t = Ret (bool_decide (t ∈ windows_types ws))).
Proof.
  intros Hs. destruct (check_windows_spec (S (length s)) s Hs (Nat.lt_succ_diag_r _)) as (r & Hr & Hiff).
  unfold bitmap_from_octets. rewrite Hr. exists (match r with Ok _ => Ok (mkBitmap s) | Err err => Err err end).
  split; [by destruct r as [[]|]|]. split.
  - rewrite <- Hiff. by destruct r as [[]|].
  - intros ws Hws ->. split; [by apply bitmap_iter_spec|]. intros Hnd t Ht. unfold bitmap_contains. rewrite split_rtype_spec by done.
    by apply contains_loop_spec.
Qed.

Section BuilderTheorem.
Context {B : Type} `{OctetsBuilderOk B} `{!InfallibleBuilder B}.

Lemma rb_add_all_spec ts (rb : RtypeBitmapBuilder B) bs :
  Forall is_u16 ts -> blocks_inv bs -> as_ref (rb_buf rb) = blocks_octets bs ->
  exists rb' bs', rb_add_all ts rb = Ret (rb', true) /\ blocks_inv bs' /\ as_ref (rb_buf rb') = blocks_octets bs' /\
    forall t, in_blocks bs' t <-> t ∈ ts \/ in_blocks bs t.
Proof using All.
  revert rb bs; induction ts as [|t ts IH]; intros rb bs Hts Hbs Hb.
  - exists rb, bs. split_and!; [done|done|done|]. intros t. rewrite elem_of_nil. tauto.
  - apply Forall_cons in Hts as [Ht Hts]. cbn [rb_add_all].
    assert (Hf : Forall full bs) by (eapply Forall_impl; [apply Hbs|apply bki_full]).
    destruct (rb_add_spec t rb bs Ht Hf Hb) as ([rb1 ok] & -> & Hok & Herr). destruct ok.
    + cbn [fst snd] in Hok. specialize (Hok eq_refl). pose proof (Z.mod_pos_bound t 8 ltac:(lia)).
      pose proof (Z.mod_pos_bound t 256 ltac:(lia)). unfold is_u16 in Ht.
      assert (Hinv := blocks_add_inv (t / 256) (Z.to_nat (t mod 256 / 8)) (t mod 8) bs).
      destruct (IH rb1 _ Hts (Hinv ltac:(split; [apply Z.div_pos|apply Z.div_lt_upper_bound]; lia)
        ltac:(assert (t mod 256 / 8 < 32) by (apply Z.div_lt_upper_bound; lia); pose proof (Z.div_pos (t mod 256) 8); lia)
        ltac:(lia) Hbs) Hok) as (rb' & bs' & Hr & Hbs' & Hb' & Hin).
      exists rb', bs'. split_and!; [done|done|done|]. intros t'. rewrite Hin, in_blocks_add by done. rewrite elem_of_cons. tauto.
    + destruct (append_slice_total (rb_buf rb) (replicate 34 0)) as [b' E]. by rewrite Herr in E.
Qed.

Lemma bki_window_last k : block_inv k -> last (block_window k).2 <> Some 0.
Proof.
  intros [_ Hf _ Hl Hlast _]. unfold full in Hf. rewrite last_lookup. cbn [block_window snd].
  rewrite length_take, Hf, lookup_take_lt by lia. rewrite nth_lookup in Hlast. replace (Init.Nat.pred _) with (Z.to_nat (bk_len k) - 1)%nat by lia.
  destruct (bk_bits k !! _) eqn:E; [|done]. simpl in Hlast. congruence.
Qed.

(** The builder is a set of record types.  Whatever types are added, in whatever
    order, the bitmap has the windows RFC 4034 prescribes: in ascending order,
    without trailing zero octets, none of them empty; and it lists exactly the
    types added, each once and in ascending order, by iterating as by
    [contains].  (C20) *)
Theorem bitmap_builder_correct ts :
  Forall is_u16 ts ->
  exists (rb : RtypeBitmapBuilder B) ws l,
    rb_add_all ts rb_new = Ret (rb, true) /\ rb_finalize rb = Ret (mkBitmap (windows_wire ws)) /\
    Forall window_ok ws /\ StronglySorted Z.lt ws.*1 /\ Forall (fun w => last w.2 <> Some 0) ws /\
    bitmap_iter (mkBitmap (windows_wire ws)) = Ret l /\ StronglySorted Z.lt l /\ (forall t, t ∈ l <-> t ∈ ts) /\
    forall t, is_u16 t -> bitmap_contains (mkBitmap (windows_wire ws)) t = Ret (bool_decide (t ∈ ts)).
Proof using All.
  intros Hts. assert (Hnil : blocks_inv []) by (by repeat constructor).
  destruct (rb_add_all_spec ts rb_new [] Hts Hnil) as (rb & bs & Hr & Hbs & Hb & Hin); [exact as_ref_empty|].
  pose proof Hbs as [Hall Hsort]. set (ws := map block_window bs).
  assert (Hws : Forall window_ok ws) by (apply Forall_map; eapply Forall_impl; [exact Hall|apply block_window_ok]).
  assert (Hnums : ws.*1 = map bk_num bs) by (unfold ws; by rewrite <- (list_fmap_compose block_window fst)).
  assert (Htypes : forall t, t ∈ windows_types ws <-> t ∈ ts).
  { intros t. unfold ws. rewrite blocks_types, Hin by done. unfold in_blocks. rewrite Exists_nil. tauto. }
  rewrite <- Hnums in Hsort. exists rb, ws, (windows_types ws).
  assert (Hfin : Forall block_fits bs) by (eapply Forall_impl; [exact Hall|]; intros k [? ? ? ? ? ?]; split; [done|lia]).
  split; [done|]. split; [by apply rb_finalize_spec|]. split; [done|]. split; [done|].
  split; [apply Forall_map; eapply Forall_impl; [exact Hall|apply bki_window_last]|].
  split; [by apply bitmap_iter_spec|]. split; [by apply windows_types_sorted|]. split; [done|]. intros t Ht. unfold bitmap_contains.
  rewrite split_rtype_spec by done. rewrite (contains_loop_spec ws); [f_equal; by apply bool_decide_ext|done| |done].
  by apply sorted_nodup.
Qed.
End BuilderTheorem.

Lemma bitmap_from_octets_correct_witness :
  bitmap_iter (mkBitmap [0; 2; 64; 1; 1; 1; 128]) = Ret [1; 15; 256] /\
  bitmap_contains (mkBitmap [0; 2; 64; 1; 1; 1; 128]) 15 = Ret true.
Proof.
  destruct (bitmap_from_octets_correct [0; 2; 64; 1; 1; 1; 128] ltac:(by_decide)) as (r & _ & _ & Hws).
  destruct (Hws [(0, [64; 1]); (1, [128])]) as [Hi Hc]; [|done|].
  - repeat constructor; cbn; (done || lia).
  - split; [rewrite Hi; vm_compute; reflexivity|]. rewrite Hc; [vm_compute; reflexivity|by_decide|by_decide].
Defined.

Lemma bitmap_builder_correct_witness :
  exists rb bitmap, rb_add_all (B:=list Z) [15; 256; 1; 15] rb_new = Ret (rb, true) /\ rb_finalize rb = Ret bitmap /\
    bitmap_contains bitmap 256 = Ret true /\ bitmap_contains bitmap 2 = Ret false.
Proof.
  destruct (bitmap_builder_correct (B:=list Z) [15; 256; 1; 15]) as (rb & ws & l & Ha & Hf & _ & _ & _ & _ & _ & _ & Hc).
  - by repeat (constructor; [done|]).
  - exists rb, (mkBitmap (windows_wire ws)). split; [done|]. split; [done|].
    split; (rewrite Hc; [vm_compute; reflexivity|by_decide]).
Defined.
