(* ===== verification/Txt.v ===== *)
(** * TXT record data ([src/src/rdata/rfc1035/txt.rs])

    The data is a sequence of character strings.  [Txt] holds the octets of the
    sequence and gives out the strings one by one, [TxtBuilder] makes such a
    sequence from slices of any length and from complete strings.  The theorems
    say which octets are accepted, that the strings come back, and what the
    builder makes of what is appended; and that the parser, unlike
    [from_octets], lets the empty sequence through, on which [as_flat_slice]
    panics. *)

From S2P Require Import Prelude Octets Serial Symbol CharStr Label Traits Name ParsedName MessageBuilder Message Record Scanner Ttl Layout Rdata.
From S2P Require Import Opt.
From stdpp Require Import strings.
#[local] Open Scope Z_scope.

Definition RTYPE_TXT : Z := 16.

Record Txt := mkTxt { txt_octets : list Z }.

Inductive TxtError := TxtEmpty | TxtLong (err : LongRecordData) | TxtShortInput.

(** [LongRecordData::check_len]. *)
Definition check_len (len : Z) : result unit LongRecordData := if 65535 <? len then Err LongRecordDataErr else Ok ().

Fixpoint txt_check_loop (fuel : nat) (slice : list Z) : option (result unit TxtError) :=
  match fuel with
  | O => None
  | S fuel' =>
      match slice with
      | [] => Some (Ok ())
      | len :: _ =>
          let len := Z.to_nat len in
          if (length slice <=? len)%nat then Some (Err TxtShortInput) else txt_check_loop fuel' (drop (len + 1) slice)
      end
  end.

Definition txt_check_slice (slice : list Z) : option (result unit TxtError) :=
  match slice with
  | [] => Some (Err TxtEmpty)
  | _ =>
      match check_len (zlen slice) with
      | Err err => Some (Err (TxtLong err))
      | Ok _ => txt_check_loop (S (length slice)) slice
      end
  end.

Definition txt_from_octets (octets : list Z) : option (result Txt TxtError) :=
  match txt_check_slice octets with
  | Some (Ok _) => Some (Ok (mkTxt octets))
  | Some (Err err) => Some (Err err)
  | None => None
  end.

Section Reading.
Context {P : Type} `{OctetsParser P} `{!OctetsParserRef P}.

(** The [while] loop over a parser of the text. *)
Fixpoint txt_skip_loop (fuel : nat) (tmp : P) : outcome (result unit ParseError) :=
  match fuel with
  | O => Panic
  | S fuel' =>
      if (p_remaining tmp =? 0)%nat then Ret (Ok ())
      else match cs_skip tmp with Ok tmp => txt_skip_loop fuel' tmp | Err err => Ret (Err err) end
  end.

Definition txt_parse (p : P) : outcome (result (Txt * P) ParseError) :=
  let!? (text, p) := Ret (short (p_parse_octets p (p_remaining p))) in
  let! r := txt_skip_loop (S (length text)) (p_from_ref text : P) in
  Ret (match r with Ok _ => Ok (mkTxt text, p) | Err err => Err err end).

(** [TxtCharStrIter::next]; [unwrap] panics. *)
Definition txt_next (it : P) : outcome (option CharStr * P) :=
  if (p_remaining it =? 0)%nat then Ret (None, it)
  else match cs_parse it with Ok (s, it) => Ret (Some s, it) | Err _ => Panic end.

Fixpoint txt_collect (fuel : nat) (it : P) : outcome (list CharStr) :=
  match fuel with
  | O => Panic
  | S fuel' =>
      let! (r, it) := txt_next it in
      match r with
      | None => Ret []
      | Some s => let! l := txt_collect fuel' it in Ret (s :: l)
      end
  end.

(** [iter_charstrs] to its end; [iter] gives the octets of the strings. *)
Definition txt_iter_charstrs (txt : Txt) : outcome (list CharStr) :=
  txt_collect (S (length (txt_octets txt))) (p_from_ref (txt_octets txt) : P).

Definition txt_iter (txt : Txt) : outcome (list (list Z)) :=
  let! l := txt_iter_charstrs txt in Ret (map cs_octets l).

(** [try_text]. *)
Definition txt_try_text {B} `{OctetsBuilder B} (txt : Txt) : outcome (result (list Z) unit) :=
  let! items := txt_iter txt in
  let '(res, ok) := compose_each (fun item => compose_slice item) items (builder_empty : B) in
  Ret (if ok : bool then Ok (freeze res) else Err ()).
End Reading.

(** [as_flat_slice]; indexing an empty slice panics. *)
Definition txt_as_flat_slice (txt : Txt) : outcome (option (list Z)) :=
  match txt_octets txt with
  | [] => Panic
  | n :: s => Ret (if n =? zlen s then Some s else None)
  end.

Definition txt_len (txt : Txt) : nat := length (txt_octets txt).
Definition txt_eq (a b : Txt) : bool := bool_decide (txt_octets a = txt_octets b).
Definition txt_cmp (a b : Txt) : comparison := iter_cmp (txt_octets a) (txt_octets b).

Definition txt_scan {S N} `{Scanner S N} (scanner : S) : outcome (S * result Txt StrError) :=
  scan_then (s_scan_charstr_entry scanner) (fun octets => scan_ok (mkTxt octets)).

#[export] Instance txt_data {B} `{Composer B} : ComposeRecordData Txt B := {|
  rd_rtype _ := RTYPE_TXT;
  rd_rdlen d _ := let! len := len_u16 (zlen (txt_octets d)) in Ret (Some len);
  compose_rdata d := push_compose (compose_slice (txt_octets d));
  compose_canonical_rdata d := push_compose (compose_slice (txt_octets d))
|}.

(** [Display]: the strings in quotes, a space between them. *)
Fixpoint txt_fmt_strs (first : bool) (l : list CharStr) : list Z :=
  match l with
  | [] => []
  | s :: l => (if first then [] else [32]) ++ cs_fmt_quoted s ++ txt_fmt_strs false l
  end.

Definition txt_fmt {P} `{OctetsParser P} `{!OctetsParserRef P} (txt : Txt) : outcome (list Z) :=
  let! l := txt_iter_charstrs (P:=P) txt in Ret (txt_fmt_strs true l).

(** ** The builder *)

Inductive TxtAppendError := TxtLongRecordData | TxtShortBuf.

Section Builder.
Context {B : Type} `{OctetsBuilder B}.

Record TxtBuilder := mkTxtBuilder { tb_builder : B; tb_start : option nat }.

Definition tb_new : TxtBuilder := mkTxtBuilder builder_empty None.

Definition tb_builder_append_slice (b : B) (slice : list Z) : B * result unit TxtAppendError :=
  match check_append_len (zlen (as_ref b)) (zlen slice) with
  | Err _ => (b, Err TxtLongRecordData)
  | Ok _ => match append_slice b slice with Some b => (b, Ok ()) | None => (b, Err TxtShortBuf) end
  end.

(** [chunks(255)]. *)
Fixpoint chunks_loop (fuel : nat) (s : list Z) : list (list Z) :=
  match fuel, s with
  | S fuel', _ :: _ => take 255 s :: chunks_loop fuel' (drop 255 s)
  | _, _ => []
  end.
Definition chunks (s : list Z) : list (list Z) := chunks_loop (length s) s.

(** The [for] loop over the chunks. *)
Fixpoint tb_chunks (cs : list (list Z)) (t : TxtBuilder) : TxtBuilder * result unit TxtAppendError :=
  match cs with
  | [] => (t, Ok ())
  | chunk :: cs =>
      let start := if (length chunk =? 255)%nat then None else Some (length (as_ref (tb_builder t))) in
      let '(b, r) := tb_builder_append_slice (tb_builder t) [as_u8 (zlen chunk)] in
      match r with
      | Err err => (mkTxtBuilder b start, Err err)
      | Ok _ =>
          let '(b, r) := tb_builder_append_slice b chunk in
          match r with
          | Err err => (mkTxtBuilder b start, Err err)
          | Ok _ => tb_chunks cs (mkTxtBuilder b start)
          end
      end
  end.

(** [append_slice].  A length below zero of the rest of the string would panic, as
    would [split_at]; an open string never has more than 255 octets. *)
Definition tb_append_slice (slice : list Z) (t : TxtBuilder) : outcome (TxtBuilder * result unit TxtAppendError) :=
  match tb_start t with
  | Some start =>
      let used := (length (as_ref (tb_builder t)) - (start + 1))%nat in
      if (255 <? used)%nat then Panic else
      let left := (255 - used)%nat in
      if (length slice <? left)%nat then
        let '(b, r) := tb_builder_append_slice (tb_builder t) slice in Ret (mkTxtBuilder b (Some start), r)
      else
        let '(b, r) := tb_builder_append_slice (tb_builder t) (take left slice) in
        match r with
        | Err err => Ret (mkTxtBuilder b (Some start), Err err)
        | Ok _ => Ret (tb_chunks (chunks (drop left slice)) (mkTxtBuilder (set_octet b start 255) (Some start)))
        end
  | None => Ret (tb_chunks (chunks slice) t)
  end.

Definition tb_append_u8 (ch : Z) : TxtBuilder -> outcome (TxtBuilder * result unit TxtAppendError) := tb_append_slice [ch].

Definition tb_close_charstr (t : TxtBuilder) : TxtBuilder :=
  match tb_start t with
  | Some start =>
      let last_slice_len := (length (as_ref (tb_builder t)) - (start + 1))%nat in
      mkTxtBuilder (set_octet (tb_builder t) start (as_u8 (Z.of_nat last_slice_len))) None
  | None => t
  end.

Definition tb_append_charstr (s : CharStr) (t : TxtBuilder) : outcome (TxtBuilder * result unit TxtAppendError) :=
  let t := tb_close_charstr t in
  let! len := cs_compose_len s in
  match check_append_len (zlen (as_ref (tb_builder t))) len with
  | Err _ => Ret (t, Err TxtLongRecordData)
  | Ok _ =>
      let! (b, ok) := cs_compose s (tb_builder t) in
      Ret (mkTxtBuilder b (tb_start t), if ok : bool then Ok () else Err TxtShortBuf)
  end.

Definition tb_finish (t : TxtBuilder) : result Txt TxtAppendError :=
  let t := tb_close_charstr t in
  match as_ref (tb_builder t) with
  | [] =>
      match append_slice (tb_builder t) [0] with
      | Some b => Ok (mkTxt (freeze b))
      | None => Err TxtShortBuf
      end
  | _ => Ok (mkTxt (freeze (tb_builder t)))
  end.

Definition txt_build_from_slice (text : list Z) : outcome (result Txt TxtAppendError) :=
  let! (t, r) := tb_append_slice text tb_new in
  Ret (match r with Ok _ => tb_finish t | Err err => Err err end).
End Builder.
Arguments TxtBuilder B : clear implicits.

(** ** Sequences of character strings *)

Definition txt_wire (strs : list CharStr) : list Z := concat (map cs_wire strs).

Lemma txt_wire_cons s l : txt_wire (s :: l) = cs_wire s ++ txt_wire l.
Proof. done. Qed.

Lemma txt_wire_app l l' : txt_wire (l ++ l') = txt_wire l ++ txt_wire l'.
Proof. unfold txt_wire. by rewrite map_app, concat_app. Qed.

(** The first string of a sequence that is not empty. *)
Lemma charstr_split n r :
  wf_octets (n :: r) ->
  (exists c t, n :: r = cs_wire c ++ t /\ cs_wf c /\ (Z.to_nat n < length (n :: r))%nat /\ drop (Z.to_nat n + 1) (n :: r) = t) \/
  ((length (n :: r) <= Z.to_nat n)%nat /\ forall c t, n :: r <> cs_wire c ++ t).
Proof.
  intros Hw. apply Forall_cons in Hw as [Hn Hr]. unfold is_u8 in Hn. destruct (decide (Z.to_nat n <= length r)%nat) as [Hle|Hgt].
  - left. exists (mkCharStr (take (Z.to_nat n) r)), (drop (Z.to_nat n) r). unfold cs_wire, zlen; cbn [cs_octets length].
    rewrite length_take, Nat.min_l, Z2Nat.id by lia. split_and!; [by cbn [app]; rewrite take_drop| |lia|by rewrite Nat.add_comm].
    split; [unfold cs_len, CHARSTR_MAX_LEN; cbn; rewrite length_take; lia|]. by apply list.Forall_take.
  - right. split; [simpl; lia|]. intros c t. unfold cs_wire. cbn [app]. intros [= -> ->]. rewrite length_app in Hgt. unfold zlen in Hgt. lia.
Qed.

Definition strings_of (s : list Z) (strs : list CharStr) : Prop := Forall cs_wf strs /\ s = txt_wire strs.

Lemma strings_of_nil : exists strs, strings_of [] strs.
Proof. by exists []. Qed.

Lemma strings_of_step c t : cs_wf c -> (exists strs, strings_of (cs_wire c ++ t) strs) <-> exists strs, strings_of t strs.
Proof.
  intros Hc. split.
  - intros ([|c' strs] & Hs & E); [done|]. apply Forall_cons in Hs as [Hc' Hs]. exists strs. split; [done|].
    rewrite txt_wire_cons in E. unfold cs_wire, zlen in E. cbn [app] in E. injection E as El E.
    apply app_inj_1 in E as [_ E]; [done|lia].
  - intros (strs & Hs & ->). exists (c :: strs). split; [by constructor|done].
Qed.

Lemma txt_check_loop_spec fuel s :
  wf_octets s -> (length s < fuel)%nat ->
  exists r, txt_check_loop fuel s = Some r /\ (r = Ok () <-> exists strs, strings_of s strs).
Proof.
  revert s; induction fuel as [|fuel IH]; intros s Hs Hf; [lia|]. destruct s as [|n s].
  - eexists; split; [done|]. split; [intros _; apply strings_of_nil|done].
  - cbn [txt_check_loop]. destruct (charstr_split n s Hs) as [(c & t & E & Hc & Hlt & Hd)|[Hle Hno]].
    + destruct (Nat.leb_spec (length (n :: s)) (Z.to_nat n)); [lia|]. rewrite Hd.
      destruct (IH t) as (r & Hr & Hiff).
      { rewrite <- Hd. by apply list.Forall_drop. }
      { rewrite <- Hd, length_drop. lia. }
      exists r. split; [done|]. rewrite Hiff, E. symmetry. by apply strings_of_step.
    + destruct (Nat.leb_spec (length (n :: s)) (Z.to_nat n)); [|lia]. eexists; split; [done|]. split; [done|].
      intros ([|c strs] & _ & E); [done|]. by apply Hno in E.
Qed.

Section Parsers.
Context {P : Type} `{OctetsParserOk P} `{!OctetsParserRef P} `{!OctetsParserRefOk P}.

Lemma rest_remaining (p : P) : (p_remaining p =? 0)%nat = match p_rest p with [] => true | _ => false end.
Proof. rewrite <- p_rest_length. by destruct (p_rest p). Qed.

Lemma cs_skip_no (p : P) n r :
  p_rest p = n :: r -> wf_octets (n :: r) -> (length (n :: r) <= Z.to_nat n)%nat -> cs_skip p = Err PShortInput.
Proof.
  intros E Hw Hl. apply Forall_cons in Hw as [Hn _]. unfold is_u8 in Hn. cbn [length] in Hl.
  assert (Hc : p_rest p ++ replicate (Z.to_nat n - length r) 0 = cs_wire (mkCharStr (r ++ replicate (Z.to_nat n - length r) 0))).
  { rewrite E. unfold cs_wire, zlen; cbn [cs_octets app]. rewrite length_app, length_replicate. f_equal. lia. }
  eapply cs_short; [exact Hc|]. replace (Z.to_nat n - length r)%nat with (S (Z.to_nat n - length r - 1)) by lia. done.
Qed.

Lemma txt_skip_loop_spec fuel (p : P) :
  wf_octets (p_rest p) -> (length (p_rest p) < fuel)%nat ->
  exists r, txt_skip_loop fuel p = Ret r /\ (r = Ok () <-> exists strs, strings_of (p_rest p) strs).
Proof.
  revert p; induction fuel as [|fuel IH]; intros p Hs Hf; [lia|]. cbn [txt_skip_loop]. rewrite rest_remaining.
  destruct (p_rest p) as [|n s] eqn:Ep.
  - eexists; split; [done|]. split; [intros _; apply strings_of_nil|done].
  - destruct (charstr_split n s Hs) as [(c & t & E & Hc & Hlt & Hd)|[Hle Hno]].
    + rewrite E in Ep. destruct (cs_skip_wire c p t Ep) as (p' & -> & Hm). apply (p_rest_after _ _ _ _ Ep) in Hm.
      destruct (IH p') as (r & Hr & Hiff).
      { rewrite Hm, <- Hd. by apply list.Forall_drop. }
      { rewrite Hm, <- Hd, length_drop. lia. }
      exists r. split; [done|]. rewrite Hiff, E, Hm. symmetry. by apply strings_of_step.
    + rewrite (cs_skip_no p n s Ep Hs Hle). eexists; split; [done|]. split; [done|].
      intros ([|c strs] & _ & E); [done|]. by apply Hno in E.
Qed.

Lemma txt_collect_spec strs fuel (p : P) :
  p_rest p = txt_wire strs -> (length (txt_wire strs) < fuel)%nat -> txt_collect fuel p = Ret strs.
Proof.
  revert fuel p; induction strs as [|c strs IH]; intros [|fuel] p Ep Hf; try lia; cbn [txt_collect]; unfold txt_next; rewrite rest_remaining.
  - by rewrite Ep.
  - rewrite txt_wire_cons in Ep, Hf. destruct (cs_parse_wire c p _ Ep) as (p' & -> & _ & Hr). rewrite Ep. cbn [cs_wire app].
    rewrite (IH fuel p'); [done|done|]. rewrite length_app in Hf. simpl in Hf. lia.
Qed.
End Parsers.

(** ** Parsing and composing *)

(** What the parser takes: any number of strings up to the end. *)
Definition txt_taken_at : layout (list CharStr) := fun s pos strs e =>
  (pos <= length s)%nat /\ strings_of (drop pos s) strs /\ e = length s.

(** TXT data has at least one string. *)
Definition txt_at : layout (list CharStr) := fun s pos strs e => txt_taken_at s pos strs e /\ strs <> [].

Definition txt_rel (d : Txt) (strs : list CharStr) : Prop := strings_of (txt_octets d) strs.

(** TXT data in a message: at least one string, and it fits. *)
Definition txt_ok (strs : list CharStr) : Prop := Forall cs_wf strs /\ strs <> [] /\ zlen (txt_wire strs) <= 65535.
Definition txt_is (d : Txt) (strs : list CharStr) : Prop := txt_octets d = txt_wire strs /\ txt_ok strs.

Lemma txt_lays strs : Forall cs_wf strs -> LaysEnd txt_taken_at strs (txt_wire strs).
Proof. intros Hs s pos Hd Hp. by split_and!. Qed.

Section Theorems.
Context {P : Type} `{OctetsParserOk P} `{!OctetsParserRef P} `{!OctetsParserRefOk P}.

Lemma txt_finds : Finds (P:=P) txt_parse txt_taken_at txt_rel.
Proof using All.
  intros p Hp. destruct (Finds_rest (P:=P) p Hp) as (r & Hr & Hs & Hc). injection Hr as Hr. unfold txt_parse. rewrite Hr.
  pose proof (p_bounds p) as Hb. pose proof (length_visible p) as Hlv.
  destruct (Hc (drop (p_pos p) (visible p)) (length (visible p))) as (text & p1 & -> & Ht & Hm); [by split_and!; [lia|..]|].
  assert (Hw : wf_octets text) by (subst text; by apply list.Forall_drop, visible_wf).
  destruct (txt_skip_loop_spec (P:=P) (S (length text)) (p_from_ref text)) as (r & -> & Hiff).
  { by rewrite p_rest_from_ref. }
  { rewrite p_rest_from_ref. lia. }
  rewrite p_rest_from_ref in Hiff. eexists; split; [done|]. split.
  - intros d p' E. destruct r as [[]|]; [|done]. apply Ok_pair_inj in E as [<- <-]. destruct (proj1 Hiff eq_refl) as (strs & Hstrs).
    exists strs, (length (visible p)). split_and!; [|done|done]. split_and!; [lia|by subst text|done].
  - intros strs e (_ & Hstrs & ->). rewrite <- Ht in Hstrs. rewrite (proj2 Hiff (ex_intro _ strs Hstrs)). by exists (mkTxt text), p1.
Qed.

Lemma txt_iter_spec d strs : txt_octets d = txt_wire strs -> txt_iter_charstrs (P:=P) d = Ret strs.
Proof using All. intros E. unfold txt_iter_charstrs. apply txt_collect_spec; rewrite E; [by rewrite p_rest_from_ref|lia]. Qed.

(** [from_octets] accepts the encodings of the sequences of one or more strings
    that fit record data, and nothing else.  Of such data [iter] gives the strings,
    [as_flat_slice] the text if there is one string only, and [try_text] all the
    text; none of them panics.  (C24) *)
Theorem txt_from_octets_correct {B} `{OctetsBuilderOk B} `{!InfallibleBuilder B} s :
  wf_octets s ->
  exists r, txt_from_octets s = Some r /\
    (r = Ok (mkTxt s) <-> exists strs, txt_ok strs /\ s = txt_wire strs) /\
    forall strs, txt_ok strs -> s = txt_wire strs ->
      txt_iter_charstrs (P:=P) (mkTxt s) = Ret strs /\
      txt_as_flat_slice (mkTxt s) = Ret (match strs with [c] => Some (cs_octets c) | _ => None end) /\
      txt_try_text (P:=P) (B:=B) (mkTxt s) = Ret (Ok (concat (map cs_octets strs))).
Proof using All.
  intros Hs. unfold txt_from_octets, txt_check_slice. destruct s as [|n s].
  - eexists; split; [done|]. split; [split; [done|]|].
    + by intros ([|c strs] & (_ & Hne & _) & E).
    + intros [|c strs] (_ & Hne & _) E; done.
  - destruct (txt_check_loop_spec (S (length (n :: s))) (n :: s) Hs (Nat.lt_succ_diag_r _)) as (r & Hr & Hiff).
    unfold check_len. rewrite Hr. eexists; split; [|split].
    + instantiate (1 := if 65535 <? zlen (n :: s) then Err (TxtLong LongRecordDataErr)
        else match r with Ok _ => Ok (mkTxt (n :: s)) | Err err => Err err end).
      by destruct (65535 <? zlen (n :: s)), r as [[]|].
    + destruct (Z.ltb_spec 65535 (zlen (n :: s))) as [Hlt|Hge].
      * split; [done|]. intros (strs & (_ & _ & Hl) & E). rewrite E in Hlt. lia.
      * assert (E : (exists strs, txt_ok strs /\ n :: s = txt_wire strs) <-> exists strs, strings_of (n :: s) strs).
        { split; intros (strs & Ho & E); exists strs; [by split; [apply Ho|]|]. split; [|done]. split_and!; [done|by intros ->|by rewrite <- E]. }
        rewrite E, <- Hiff. by destruct r as [[]|].
    + intros strs (Hws & Hne & _) E. split_and!.
      * by apply txt_iter_spec.
      * destruct strs as [|c strs]; [done|]. unfold txt_as_flat_slice; cbn [txt_octets]. rewrite txt_wire_cons in E. unfold cs_wire in E.
        cbn [app] in E. injection E as -> ->. rewrite zlen_app. destruct strs as [|c' strs].
        -- rewrite app_nil_r. change (zlen (@nil Z)) with 0. rewrite Z.add_0_r. by destruct (Z.eqb_spec (zlen (cs_octets c)) (zlen (cs_octets c))).
        -- rewrite txt_wire_cons, zlen_app. pose proof (zlen_nonneg (txt_wire strs)).
           assert (0 < zlen (cs_wire c')) by (unfold cs_wire, zlen; simpl; lia).
           by destruct (Z.eqb_spec (zlen (cs_octets c)) (zlen (cs_octets c) + (zlen (cs_wire c') + zlen (txt_wire strs)))); [lia|].
      * unfold txt_try_text, txt_iter. rewrite (txt_iter_spec _ strs) by done.
        destruct (compose_each_total (fun item => compose_slice item) (map cs_octets strs) (fun l _ => compose_slice_total l) (builder_empty : B))
          as [b' Hb']. rewrite Hb'. rewrite freeze_as_ref.
        assert (Hsp := compose_each_spec (fun item => compose_slice (B:=B) item) (fun x => x) (map cs_octets strs)
          (fun l _ => compose_slice_spec l) _ _ _ Hb'). cbv iota in Hsp. by rewrite Hsp, as_ref_empty, map_id.
Qed.
End Theorems.

#[export] Instance txt_data_ok {B} `{OctetsBuilderOk B} `{!Composer B} : RecordDataOk Txt (list CharStr) B txt_is txt_wire txt_wire.
Proof.
  split; [intros d x [Hd _]; cbn [compose_rdata compose_canonical_rdata txt_data]; rewrite Hd; apply Writes_slice..| |done].
  intros d x c [Hd _] Hl. left. cbn. by rewrite Hd, len_u16_small.
Qed.

Lemma txt_order a b x y : txt_is a x -> txt_is b y -> txt_cmp a b = iter_cmp (txt_wire x) (txt_wire y).
Proof. intros [Ha _] [Hb _]. unfold txt_cmp. by rewrite Ha, Hb. Qed.

(** The parser takes the empty sequence, which is not TXT record data, and
    [as_flat_slice] then panics. *)
Lemma txt_parse_empty :
  match txt_parse (p_from_ref [] : slice_parser) with
  | Ret (Ok (txt, _)) => txt_as_flat_slice txt = Panic /\ txt_from_octets (txt_octets txt) = Some (Err TxtEmpty)
  | _ => False
  end.
Proof. by vm_compute. Qed.

(** ** What the builder makes *)

Lemma chunks_loop_fuel f g s : (length s <= f)%nat -> (length s <= g)%nat -> chunks_loop f s = chunks_loop g s.
Proof.
  revert g s; induction f as [|f IH]; intros g s Hf Hg; destruct s as [|a s]; cbn [length] in *; try lia; try (by destruct g).
  destruct g; [lia|]. cbn [chunks_loop]. f_equal. apply IH; rewrite length_drop; cbn [length]; lia.
Qed.

Lemma chunks_unfold s : s <> [] -> chunks s = take 255 s :: chunks (drop 255 s).
Proof.
  intros Hs. destruct s as [|a s]; [done|]. unfold chunks. cbn [length chunks_loop]. f_equal.
  apply chunks_loop_fuel; rewrite length_drop; cbn [length]; lia.
Qed.

Definition whole (c : list Z) : Prop := length c = 255%nat.
Definition last_chunk (o : list Z) : list (list Z) := match o with [] => [] | _ => [o] end.

(** A text is cut into strings of 255 octets and what is left. *)
Lemma chunks_cut full o : Forall whole full -> (length o <= 255)%nat -> chunks (concat full ++ o) = full ++ last_chunk o.
Proof.
  intros Hf Ho. induction full as [|c full IH]; cbn [concat app].
  - destruct o as [|a o]; [done|]. rewrite chunks_unfold by done. rewrite take_ge, drop_ge by done. done.
  - apply Forall_cons in Hf as [Hc Hf]. assert (Hne : c ++ concat full ++ o <> []) by (by destruct c).
    rewrite <- app_assoc, chunks_unfold by done. unfold whole in Hc.
    rewrite take_app_length', drop_app_length' by done. by rewrite IH.
Qed.

Lemma cut_exists s : exists full o, s = concat full ++ o /\ Forall whole full /\ (length o < 255)%nat.
Proof.
  remember (length s) as n eqn:En. revert s En. induction (lt_wf n) as [n _ IH]. intros s En.
  destruct (decide (length s < 255)%nat) as [Hlt|Hge]; [by exists [], s|].
  destruct (IH (length (drop 255 s))) with (s := drop 255 s) as (full & o & E & Hf & Ho); [rewrite length_drop; lia|done|].
  exists (take 255 s :: full), o. split_and!; [|constructor; [unfold whole; rewrite length_take; lia|done]|done].
  cbn [concat]. by rewrite <- app_assoc, <- E, take_drop.
Qed.

Definition chunk_strs (s : list Z) : list CharStr := map mkCharStr (chunks s).

Lemma app_cons_assoc {A} (l l' : list A) a : l ++ a :: l' = (l ++ [a]) ++ l'.
Proof. by rewrite <- app_assoc. Qed.

Section BuilderCorrect.
Context {B : Type} `{OctetsBuilderOk B} `{!InfallibleBuilder B}.

(** The builder holds the strings [pre], and [cur] was appended since. *)
Definition tb_rel (t : TxtBuilder B) (pre : list CharStr) (cur : list Z) : Prop :=
  exists full o, cur = concat full ++ o /\ Forall whole full /\
    match tb_start t with
    | None => o = [] /\ as_ref (tb_builder t) = txt_wire (pre ++ map mkCharStr full)
    | Some start => (0 < length o <= 255)%nat /\ exists x, start = length (txt_wire (pre ++ map mkCharStr full)) /\
        as_ref (tb_builder t) = txt_wire (pre ++ map mkCharStr full) ++ x :: o
    end.

Lemma check_append_len_ok a b : 0 <= a -> 0 <= b -> check_append_len a b = Ok () <-> a + b <= 65535.
Proof.
  intros Ha Hb. unfold check_append_len. destruct (Z.leb_spec (2 ^ 64) (a + b)); [split; [done|lia]|].
  destruct (Z.ltb_spec 65535 (a + b)); split; (done || lia).
Qed.

Lemma tb_append_spec (b : B) s :
  exists b' r, tb_builder_append_slice b s = (b', r) /\ (r = Ok () -> as_ref b' = as_ref b ++ s) /\
    (zlen (as_ref b) + zlen s <= 65535 -> r = Ok ()).
Proof using All.
  unfold tb_builder_append_slice. pose proof (check_append_len_ok (zlen (as_ref b)) (zlen s) (zlen_nonneg _) (zlen_nonneg _)) as Hc.
  destruct (check_append_len _ _) as [[]|err].
  - destruct (append_slice_total b s) as [b' E]. rewrite E. exists b', (Ok ()). split; [done|]. split; [|done]. intros _. by apply as_ref_append.
  - exists b, (Err TxtLongRecordData). split; [done|]. split; [done|]. intros Hl. by apply Hc in Hl.
Qed.

Lemma txt_wire_snoc l c : txt_wire (l ++ [c]) = txt_wire l ++ zlen (cs_octets c) :: cs_octets c.
Proof. rewrite txt_wire_app. unfold txt_wire at 2. cbn [map concat]. by rewrite app_nil_r. Qed.

(** One chunk. *)
Lemma tb_chunk_spec (b : B) L chunk :
  as_ref b = txt_wire L -> (length chunk <= 255)%nat ->
  exists b' r, (let '(b, r) := tb_builder_append_slice b [as_u8 (zlen chunk)] in
    match r with Err err => (b, Err err) | Ok _ => tb_builder_append_slice b chunk end) = (b', r) /\
    (r = Ok () -> as_ref b' = txt_wire (L ++ [mkCharStr chunk])) /\
    (zlen (txt_wire (L ++ [mkCharStr chunk])) <= 65535 -> r = Ok ()).
Proof using All.
  intros Hb Hc. assert (Eu : as_u8 (zlen chunk) = zlen chunk) by (unfold as_u8, zlen; rewrite Z.mod_small; lia). rewrite Eu.
  rewrite txt_wire_snoc; cbn [cs_octets].
  destruct (tb_append_spec b [zlen chunk]) as (b1 & r1 & -> & H1 & L1). rewrite zlen_app. change (zlen (?x :: chunk)) with (Z.of_nat (S (length chunk))).
  rewrite Hb in H1, L1. change (zlen [zlen chunk]) with 1 in L1. destruct r1 as [[]|err].
  - destruct (tb_append_spec b1 chunk) as (b2 & r2 & -> & H2 & L2). rewrite H1 in H2, L2 by done. exists b2, r2. split; [done|]. split.
    + intros E. rewrite H2 by done. by rewrite <- app_assoc.
    + rewrite zlen_app in L2. change (zlen [zlen chunk]) with 1 in L2. intros Hl. apply L2. unfold zlen in *. lia.
  - exists b1, (Err err). split; [done|]. split; [done|]. intros Hl. apply L1. lia.
Qed.

Lemma zlen_txt_app L L' : zlen (txt_wire L) <= zlen (txt_wire (L ++ L')).
Proof. rewrite txt_wire_app, zlen_app. pose proof (zlen_nonneg (txt_wire L')). lia. Qed.

Lemma tb_chunks_spec full o L (b : B) st :
  Forall whole full -> (length o < 255)%nat -> as_ref b = txt_wire L -> (full ++ last_chunk o = [] -> st = None) ->
  exists t' r, tb_chunks (full ++ last_chunk o) (mkTxtBuilder b st) = (t', r) /\
    (zlen (txt_wire (L ++ map mkCharStr (full ++ last_chunk o))) <= 65535 -> r = Ok ()) /\
    (r = Ok () -> match o with
       | [] => tb_start t' = None /\ as_ref (tb_builder t') = txt_wire (L ++ map mkCharStr full)
       | _ => tb_start t' = Some (length (txt_wire (L ++ map mkCharStr full))) /\
              as_ref (tb_builder t') = txt_wire (L ++ map mkCharStr full) ++ zlen o :: o
       end).
Proof using All.
  revert L b st; induction full as [|c full IH]; intros L b st Hf Ho Hb Hst.
  - cbn [app map]. destruct o as [|a o]; cbn [last_chunk].
    + eexists _, _; split; [done|]. split; [done|]. intros _. rewrite (Hst eq_refl), app_nil_r. done.
    + rewrite app_nil_r. cbn [tb_chunks map]. cbn [tb_builder].
      destruct (tb_chunk_spec b L (a :: o) Hb ltac:(cbn [length] in *; lia)) as (b' & r & E & Hok & Hl).
      destruct (Nat.eqb_spec (length (a :: o)) 255); [lia|].
      destruct (tb_builder_append_slice b [as_u8 (zlen (a :: o))]) as [b1 r1]. destruct r1 as [[]|err1].
      * rewrite E. destruct r as [[]|err]; (eexists _, _; split; [done|]; split; [done|]); [|done]. intros _. cbn [tb_start tb_builder].
        rewrite Hok, txt_wire_snoc by done. rewrite Hb. done.
      * injection E as <- <-. eexists _, _; split; [done|]. split; [done|done].
  - apply Forall_cons in Hf as [Hc Hf]. cbn [app map tb_chunks tb_builder]. unfold whole in Hc. rewrite Hc. cbn [Nat.eqb].
    destruct (tb_chunk_spec b L c Hb ltac:(lia)) as (b' & r & E & Hok & Hl).
    rewrite (app_cons_assoc L (map mkCharStr (full ++ last_chunk o))), (app_cons_assoc L (map mkCharStr full)).
    destruct (tb_builder_append_slice b [as_u8 (zlen c)]) as [b1 r1]. destruct r1 as [[]|err1].
    + rewrite E. destruct r as [[]|err].
      * destruct (IH (L ++ [mkCharStr c]) b' None Hf Ho (Hok eq_refl) (fun _ => eq_refl)) as (t' & r & -> & Hl' & Hr). by exists t', r.
      * eexists _, _; split; [done|]. split; [|done]. intros Hle. apply Hl. etrans; [apply zlen_txt_app|exact Hle].
    + injection E as <- <-. eexists _, _; split; [done|]. split; [|done]. intros Hle. apply Hl. etrans; [apply zlen_txt_app|exact Hle].
Qed.

Lemma chunk_strs_cut full o : Forall whole full -> (length o <= 255)%nat ->
  chunk_strs (concat full ++ o) = map mkCharStr full ++ map mkCharStr (last_chunk o).
Proof. intros Hf Ho. unfold chunk_strs. by rewrite chunks_cut, map_app. Qed.

(** Appending the text [s] behind whole strings. *)
Lemma tb_chunks_rel pre full s (b : B) st :
  Forall whole full -> as_ref b = txt_wire (pre ++ map mkCharStr full) -> (s = [] -> st = None) ->
  exists t' r, tb_chunks (chunks s) (mkTxtBuilder b st) = (t', r) /\
    (zlen (txt_wire (pre ++ chunk_strs (concat full ++ s))) <= 65535 -> r = Ok ()) /\
    (r = Ok () -> tb_rel t' pre (concat full ++ s)).
Proof using All.
  intros Hf Hb Hst. destruct (cut_exists s) as (full2 & o & Es & Hf2 & Ho). rewrite Es, chunks_cut by (done || lia).
  rewrite app_assoc, <- concat_app. assert (Hff : Forall whole (full ++ full2)) by (by apply Forall_app).
  destruct (tb_chunks_spec full2 o (pre ++ map mkCharStr full) b st Hf2 Ho Hb) as (t' & r & -> & Hl & Hr).
  { intros [-> E2]%app_eq_nil. apply Hst. rewrite Es. by destruct o. }
  exists t', r. split; [done|]. rewrite map_app, <- app_assoc in Hl. rewrite chunk_strs_cut, map_app, <- app_assoc by (done || lia).
  split; [done|]. intros E. specialize (Hr E). exists (full ++ full2), o. rewrite map_app, (app_assoc pre). split_and!; [done|done|].
  destruct o as [|a o]; destruct Hr as [-> Hr].
  - by split.
  - split; [cbn [length] in *; lia|]. by eexists.
Qed.

Lemma tb_append_slice_spec s (t : TxtBuilder B) pre cur :
  tb_rel t pre cur -> exists t' r, tb_append_slice s t = Ret (t', r) /\
    (zlen (txt_wire (pre ++ chunk_strs (cur ++ s))) <= 65535 -> r = Ok ()) /\
    (r = Ok () -> tb_rel t' pre (cur ++ s)).
Proof using All.
  intros (full & o & -> & Hf & Ht). destruct t as [b start]; cbn [tb_start tb_builder] in Ht. unfold tb_append_slice; cbn [tb_start tb_builder].
  destruct start as [start|].
  2: { destruct Ht as [-> Hb]. rewrite app_nil_r. destruct (tb_chunks_rel pre full s b None Hf Hb (fun _ => eq_refl)) as (t' & r & -> & ? & ?).
       by exists t', r. }
  destruct Ht as (Ho & x & -> & Hb). set (W := txt_wire (pre ++ map mkCharStr full)) in *.
  replace (length (as_ref b) - (length W + 1))%nat with (length o) by (rewrite Hb, length_app; simpl; lia).
  destruct (Nat.ltb_spec 255 (length o)); [lia|]. rewrite <- app_assoc. destruct (Nat.ltb_spec (length s) (255 - length o)).
  - destruct (tb_append_spec b s) as (b' & r & -> & Ha1 & Hl). exists (mkTxtBuilder b' (Some (length W))), r. split; [done|]. split.
    + rewrite chunk_strs_cut by (rewrite ?length_app; done || lia). intros Hle. apply Hl. rewrite Hb.
      replace (last_chunk (o ++ s)) with [o ++ s] in Hle by (destruct o; [simpl in Ho; lia|done]). cbn [map] in Hle. rewrite app_assoc, txt_wire_snoc in Hle. fold W in Hle.
      unfold zlen in *. cbn [cs_octets] in Hle. rewrite !length_app in *. cbn [length] in *. rewrite length_app in Hle. lia.
    + intros E. exists full, (o ++ s). split_and!; [done|done|]. cbn [tb_start tb_builder]. split; [rewrite length_app; lia|].
      exists x. split; [done|]. fold W. by rewrite Ha1, Hb, <- app_assoc.
  - set (l := (255 - length o)%nat) in *. set (c := o ++ take l s).
    assert (Hc : whole c) by (unfold whole, c; rewrite length_app, length_take; lia).
    destruct (tb_append_spec b (take l s)) as (b1 & r1 & -> & Ha1 & Hl1).
    assert (Hcut : forall z, chunk_strs (concat full ++ o ++ s) = map mkCharStr (full ++ [c]) ++ z -> zlen (txt_wire (pre ++ chunk_strs (concat full ++ o ++ s))) <= 65535 -> r1 = Ok ()).
    { intros z Ez Hle. apply Hl1. rewrite Ez, Hb in *. rewrite map_app, !app_assoc in Hle. cbn [map] in Hle.
      etrans; [|exact Hle]. etrans; [|apply zlen_txt_app]. rewrite txt_wire_snoc. fold W. unfold zlen, c. cbn [cs_octets].
      rewrite !length_app. cbn [length]. rewrite length_app. lia. }
    assert (Es : concat full ++ o ++ s = concat (full ++ [c]) ++ drop l s).
    { rewrite concat_app. cbn [concat]. rewrite app_nil_r. unfold c. rewrite <- !app_assoc, take_drop. done. }
    assert (Hf' : Forall whole (full ++ [c])) by (apply Forall_app; by repeat constructor).
    assert (Hez : exists z, chunk_strs (concat full ++ o ++ s) = map mkCharStr (full ++ [c]) ++ z).
    { rewrite Es. destruct (cut_exists (drop l s)) as (f2 & o2 & -> & Hf2 & Ho2). rewrite app_assoc, <- concat_app.
      rewrite chunk_strs_cut by (try apply Forall_app; done || lia). eexists. by rewrite (map_app _ (full ++ [c])), <- app_assoc. }
    destruct Hez as (z & Hez). specialize (Hcut z Hez). destruct r1 as [[]|err].
    2: { eexists _, _; split; [done|]. by split. }
    assert (Ha2 : as_ref (set_octet b1 (length W) 255) = W ++ 255 :: c).
    { rewrite as_ref_set_octet by (rewrite Ha1, Hb, !length_app by done; simpl; lia). rewrite Ha1, Hb by done. rewrite <- app_assoc.
      rewrite <- (Nat.add_0_r (length W)), insert_app_r. done. }
    destruct (drop l s) as [|a s'] eqn:Ed.
    + eexists _, (Ok ()); split; [done|]. split; [done|]. intros _. exists full, c. split_and!.
      * rewrite Es, app_nil_r, concat_app. cbn [concat]. by rewrite app_nil_r.
      * done.
      * cbn [tb_start tb_builder]. split; [rewrite Hc; lia|]. by exists 255.
    + destruct (tb_chunks_rel pre (full ++ [c]) (a :: s') (set_octet b1 (length W) 255) (Some (length W)) Hf') as (t' & r & -> & Hl & Hr); [|done|].
      { rewrite Ha2, map_app, app_assoc. cbn [map]. rewrite txt_wire_snoc. fold W. cbn [cs_octets]. unfold zlen. by rewrite Hc. }
      rewrite <- Es in Hl, Hr. by exists t', r.
Qed.

Lemma tb_close_spec (t : TxtBuilder B) pre cur :
  tb_rel t pre cur -> tb_start (tb_close_charstr t) = None /\ as_ref (tb_builder (tb_close_charstr t)) = txt_wire (pre ++ chunk_strs cur).
Proof.
  intros (full & o & -> & Hf & Ht). destruct t as [b [start|]]; unfold tb_close_charstr; cbn [tb_start tb_builder] in *.
  - destruct Ht as (Ho & x & -> & Hb). split; [done|]. set (W := txt_wire (pre ++ map mkCharStr full)) in *.
    replace (length (as_ref b) - (length W + 1))%nat with (length o) by (rewrite Hb, length_app; simpl; lia).
    unfold as_u8. rewrite Z.mod_small by lia. rewrite as_ref_set_octet by (rewrite Hb, length_app; simpl; lia).
    rewrite Hb, <- (Nat.add_0_r (length W)), insert_app_r. rewrite chunk_strs_cut by (done || lia).
    replace (last_chunk o) with [o] by (destruct o; [simpl in Ho; lia|done]). cbn [map]. rewrite app_assoc, txt_wire_snoc. done.
  - destruct Ht as [-> Hb]. split; [done|]. rewrite chunk_strs_cut by (done || simpl; lia). cbn [last_chunk map]. by rewrite app_nil_r.
Qed.

Lemma tb_rel_closed (b : B) L : as_ref b = txt_wire L -> tb_rel (mkTxtBuilder b None) L [].
Proof. intros Hb. exists [], []. split_and!; [done|constructor|]. cbn. by rewrite app_nil_r. Qed.

Lemma tb_append_charstr_spec c (t : TxtBuilder B) pre cur :
  cs_wf c -> tb_rel t pre cur -> exists t' r, tb_append_charstr c t = Ret (t', r) /\
    (zlen (txt_wire (pre ++ chunk_strs cur ++ [c])) <= 65535 -> r = Ok ()) /\
    (r = Ok () -> tb_rel t' (pre ++ chunk_strs cur ++ [c]) []).
Proof using All.
  intros Hc Ht. destruct (tb_close_spec _ _ _ Ht) as [Hs Hb]. unfold tb_append_charstr. rewrite cs_compose_len_wire by done.
  pose proof (check_append_len_ok (zlen (txt_wire (pre ++ chunk_strs cur))) (zlen (cs_wire c)) (zlen_nonneg _) (zlen_nonneg _)) as Hl.
  rewrite Hb, (app_assoc pre), txt_wire_snoc, zlen_app. fold (cs_wire c). destruct (check_append_len _ _) as [[]|err].
  - destruct (Writes_charstr c Hc) as [Ha Hsucc]. destruct (Hsucc _ (tb_builder (tb_close_charstr t))) as [b' E].
    destruct (Ha (tb_builder (tb_close_charstr t))) as (b2 & ok & w & E2 & Eb & Hw). rewrite E in E2. simplify_eq. rewrite E.
    eexists _, _; split; [done|]. split; [done|]. intros _. rewrite Hs. apply tb_rel_closed. rewrite Eb, Hb, (Hw eq_refl). by rewrite txt_wire_snoc.
  - eexists _, _; split; [done|]. split; [|done]. intros Hle. by apply Hl in Hle.
Qed.

(** A sequence of operations on the builder. *)
Inductive txt_op := TSlice (s : list Z) | TCharStr (c : CharStr) | TClose.

Definition tb_op (op : txt_op) (t : TxtBuilder B) : outcome (TxtBuilder B * result unit TxtAppendError) :=
  match op with
  | TSlice s => tb_append_slice s t
  | TCharStr c => tb_append_charstr c t
  | TClose => Ret (tb_close_charstr t, Ok ())
  end.

Fixpoint tb_ops (ops : list txt_op) (t : TxtBuilder B) : outcome (TxtBuilder B * result unit TxtAppendError) :=
  match ops with
  | [] => Ret (t, Ok ())
  | op :: ops =>
      let! (t, r) := tb_op op t in
      match r with Ok _ => tb_ops ops t | Err err => Ret (t, Err err) end
  end.

(** The strings they make: text is cut into strings of 255 octets wherever it is
    not broken by a complete string or by closing the string. *)
Fixpoint ops_strings (ops : list txt_op) (cur : list Z) : list CharStr :=
  match ops with
  | [] => chunk_strs cur
  | TSlice s :: ops => ops_strings ops (cur ++ s)
  | TCharStr c :: ops => chunk_strs cur ++ c :: ops_strings ops []
  | TClose :: ops => chunk_strs cur ++ ops_strings ops []
  end.

Definition op_ok (op : txt_op) : Prop := match op with TCharStr c => cs_wf c | _ => True end.

Lemma length_chunk_wire s : length (txt_wire (chunk_strs s)) = (length s + (length s + 254) / 255)%nat.
Proof.
  destruct (cut_exists s) as (full & o & -> & Hf & Ho). rewrite chunk_strs_cut by (done || lia). rewrite txt_wire_app, !length_app.
  assert (length (txt_wire (map mkCharStr full)) = (256 * length full)%nat /\ length (concat full) = (255 * length full)%nat) as [-> ->].
  { clear o Ho. induction Hf as [|c full Hc _ [IH1 IH2]]; [done|]. cbn [map concat]. rewrite txt_wire_cons, !length_app, IH1, IH2. unfold cs_wire. cbn [length cs_octets].
    unfold whole in Hc. rewrite Hc. lia. }
  destruct o as [|a o]; cbn [last_chunk map].
  - change (length (txt_wire [])) with 0%nat. change (length (@nil Z)) with 0%nat. rewrite !Nat.add_0_r. rewrite <- (Nat.div_unique (255 * length full + 254) 255 (length full) 254) by lia. lia.
  - unfold txt_wire. cbn [map concat]. rewrite app_nil_r. cbn [cs_wire length cs_octets] in *.
    rewrite <- (Nat.div_unique (255 * length full + S (length o) + 254) 255 (S (length full)) (length o)) by lia. lia.
Qed.

Lemma chunk_wire_mono s s' : zlen (txt_wire (chunk_strs s)) <= zlen (txt_wire (chunk_strs (s ++ s'))).
Proof.
  unfold zlen. rewrite !length_chunk_wire, length_app.
  pose proof (Nat.Div0.div_le_mono (length s + 254) (length s + length s' + 254) 255 ltac:(lia)). lia.
Qed.

Lemma ops_strings_mono ops cur : zlen (txt_wire (chunk_strs cur)) <= zlen (txt_wire (ops_strings ops cur)).
Proof.
  revert cur; induction ops as [|[s|c|] ops IH]; intros cur; cbn [ops_strings]; [done| |apply zlen_txt_app..].
  etrans; [apply (chunk_wire_mono cur s)|apply IH].
Qed.

Lemma zlen_wire_le pre a b : zlen (txt_wire a) <= zlen (txt_wire b) -> zlen (txt_wire (pre ++ a)) <= zlen (txt_wire (pre ++ b)).
Proof. rewrite !txt_wire_app, !zlen_app. lia. Qed.

(** The data never gets longer than 65535 octets, and that it would is the only
    reason to fail. *)
Definition tb_small (b : B) : Prop := zlen (as_ref b) <= 65535.
Definition too_long (r : result unit TxtAppendError) : Prop := r = Ok () \/ r = Err TxtLongRecordData.

Lemma tb_append_small (b b' : B) s r :
  tb_builder_append_slice b s = (b', r) -> tb_small b ->
  tb_small b' /\ (length (as_ref b) <= length (as_ref b'))%nat /\ too_long r.
Proof using All.
  unfold tb_builder_append_slice, tb_small, too_long. intros E Hb.
  pose proof (check_append_len_ok (zlen (as_ref b)) (zlen s) (zlen_nonneg _) (zlen_nonneg _)) as Hc.
  destruct (check_append_len _ _) as [[]|err]; [|by simplify_eq; auto].
  destruct (append_slice_total b s) as [b1 E1]. rewrite E1 in E. simplify_eq. apply as_ref_append in E1.
  rewrite E1, zlen_app, length_app. split_and!; [by apply Hc|lia|by left].
Qed.

Lemma tb_chunks_small cs (t t' : TxtBuilder B) r :
  tb_chunks cs t = (t', r) -> tb_small (tb_builder t) -> tb_small (tb_builder t') /\ too_long r.
Proof using All.
  revert t; induction cs as [|c cs IH]; intros t; cbn [tb_chunks]; [by intros [= <- <-]; split; [|left]|].
  destruct (tb_builder_append_slice (tb_builder t) _) as [b1 r1] eqn:E1. intros E Ht.
  apply tb_append_small in E1 as (Hb1 & _ & [->| ->]); [|by simplify_eq; split; [|right]|done].
  destruct (tb_builder_append_slice b1 c) as [b2 r2] eqn:E2.
  apply tb_append_small in E2 as (Hb2 & _ & [->| ->]); [|by simplify_eq; split; [|right]|done].
  by apply IH in E.
Qed.

Lemma tb_close_small (t : TxtBuilder B) pre cur :
  tb_rel t pre cur -> tb_small (tb_builder t) -> tb_small (tb_builder (tb_close_charstr t)).
Proof.
  intros (full & o & -> & Hf & Ht). unfold tb_small, tb_close_charstr. destruct t as [b [start|]]; cbn [tb_start tb_builder] in *; [|done].
  destruct Ht as (Ho & x & -> & Hb). unfold zlen. rewrite as_ref_set_octet, length_insert; [done|rewrite Hb, length_app; simpl; lia].
Qed.

Lemma tb_slice_small s (t t' : TxtBuilder B) pre cur r :
  tb_rel t pre cur -> tb_append_slice s t = Ret (t', r) -> tb_small (tb_builder t) -> tb_small (tb_builder t') /\ too_long r.
Proof using All.
  intros (full & o & -> & Hf & Hst). unfold tb_append_slice. destruct t as [b [start|]]; cbn [tb_start tb_builder] in *.
  2: { intros [= E] Ht. by apply tb_chunks_small in E. }
  destruct Hst as (Ho & x & -> & Hb). case_match; [done|]. case_match.
  - destruct (tb_builder_append_slice b s) as [b1 r1] eqn:E1. intros [= <- <-] Ht. by apply tb_append_small in E1 as (? & _ & ?).
  - destruct (tb_builder_append_slice b (take _ s)) as [b1 r1] eqn:E1. intros E Ht.
    apply tb_append_small in E1 as (Hb1 & Hle & [->| ->]); [|by simplify_eq; split; [|right]|done].
    injection E as E. apply tb_chunks_small in E; [done|]. cbn [tb_builder]. unfold tb_small, zlen in *.
    rewrite as_ref_set_octet, length_insert; [done|]. rewrite Hb, length_app in Hle. simpl in Hle. lia.
Qed.

Lemma tb_charstr_small c (t t' : TxtBuilder B) pre cur r :
  cs_wf c -> tb_rel t pre cur -> tb_append_charstr c t = Ret (t', r) -> tb_small (tb_builder t) ->
  tb_small (tb_builder t') /\ too_long r.
Proof using All.
  intros Hc Hrel. unfold tb_append_charstr. rewrite cs_compose_len_wire by done. intros E Ht.
  pose proof (tb_close_small _ _ _ Hrel Ht) as Hcl.
  pose proof (check_append_len_ok (zlen (as_ref (tb_builder (tb_close_charstr t)))) (zlen (cs_wire c)) (zlen_nonneg _) (zlen_nonneg _)) as Hl.
  destruct (check_append_len _ _) as [[]|err]; [|by simplify_eq; split; [|right]].
  destruct (Writes_charstr c Hc) as [Ha Hsucc]. destruct (Hsucc _ (tb_builder (tb_close_charstr t))) as [b' E'].
  destruct (Ha (tb_builder (tb_close_charstr t))) as (b2 & ok & w & E2 & Eb & Hw). rewrite E' in E2. simplify_eq.
  rewrite E' in E. simplify_eq. split; [|by left]. unfold tb_small; cbn [tb_builder]. rewrite Eb, (Hw eq_refl), zlen_app. by apply Hl.
Qed.

Lemma tb_ops_spec ops (t : TxtBuilder B) pre cur :
  Forall op_ok ops -> tb_rel t pre cur -> tb_small (tb_builder t) -> exists t' r, tb_ops ops t = Ret (t', r) /\
    (zlen (txt_wire (pre ++ ops_strings ops cur)) <= 65535 -> r = Ok ()) /\ too_long r /\
    (r = Ok () -> tb_small (tb_builder (tb_close_charstr t')) /\
       as_ref (tb_builder (tb_close_charstr t')) = txt_wire (pre ++ ops_strings ops cur)).
Proof using All.
  revert t pre cur; induction ops as [|op ops IH]; intros t pre cur Hops Ht Hsm.
  - eexists _, _; split; [done|]. split_and!; [done|by left|]. intros _. split; [by eapply tb_close_small|by apply tb_close_spec].
  - apply Forall_cons in Hops as [Hop Hops]. cbn [tb_ops]. destruct op as [s|c|]; cbn [tb_op ops_strings].
    + destruct (tb_append_slice_spec s t pre cur Ht) as (t1 & r1 & E & Hl & Hr). rewrite E.
      apply (tb_slice_small _ _ _ _ _ _ Ht) in E as [Hs1 Hlong]; [|done]. destruct r1 as [[]|err].
      * apply IH; [done|by apply Hr|done].
      * eexists _, _; split; [done|]. split_and!; [|done|done]. intros Hle. apply Hl. etrans; [apply zlen_wire_le, ops_strings_mono|exact Hle].
    + destruct (tb_append_charstr_spec c t pre cur Hop Ht) as (t1 & r1 & E & Hl & Hr). rewrite E.
      apply (tb_charstr_small _ _ _ _ _ _ Hop Ht) in E as [Hs1 Hlong]; [|done].
      rewrite app_cons_assoc, app_assoc. destruct r1 as [[]|err].
      * apply IH; [done|by apply Hr|done].
      * eexists _, _; split; [done|]. split_and!; [|done|done]. intros Hle. apply Hl. etrans; [apply zlen_txt_app|exact Hle].
    + destruct (tb_close_spec _ _ _ Ht) as [Hs Hb]. pose proof (tb_close_small _ _ _ Ht Hsm) as Hs1. rewrite app_assoc. apply IH; [done| |done].
      destruct (tb_close_charstr t) as [b st]. cbn in Hs, Hb. subst st. by apply tb_rel_closed.
Qed.

(** However text and complete strings are appended to a builder atop a target on
    which appending never fails, it never panics; it succeeds exactly if the data
    has at most 65535 octets and otherwise reports that the data is too long; and
    the data it makes is the sequence of the strings: text is cut after 255 octets,
    each complete string stays one, and of nothing it makes one empty string.  (C23) *)
Theorem txt_builder_correct ops :
  Forall op_ok ops ->
  exists t r, tb_ops ops tb_new = Ret (t, r) /\
    (r = Ok () <-> zlen (txt_wire (ops_strings ops [])) <= 65535) /\
    (r = Ok () \/ r = Err TxtLongRecordData) /\
    (r = Ok () -> tb_finish t =
       Ok (mkTxt (txt_wire (match ops_strings ops [] with [] => [mkCharStr []] | strs => strs end)))).
Proof using All.
  intros Hops. destruct (tb_ops_spec ops tb_new [] [] Hops (tb_rel_closed _ [] as_ref_empty)) as (t & r & E & Hl & Hlong & Hr).
  { unfold tb_small; cbn [tb_new tb_builder]. rewrite as_ref_empty. done. }
  exists t, r. split; [done|]. split; [|split; [done|]].
  - split; [|done]. intros Hok. destruct (Hr Hok) as [Hs Hb]. unfold tb_small in Hs. by rewrite Hb in Hs.
  - intros Hok. destruct (Hr Hok) as [_ Hb]. unfold tb_finish. rewrite Hb, !freeze_as_ref, Hb, app_nil_l.
    destruct (ops_strings ops []) as [|c strs].
    + destruct (append_slice_total (tb_builder (tb_close_charstr t)) [0]) as [b' Hb']. cbn [txt_wire map concat]. rewrite Hb', freeze_as_ref.
      apply as_ref_append in Hb'. by rewrite Hb', Hb.
    + done.
Qed.
End BuilderCorrect.

Lemma txt_from_octets_correct_witness :
  txt_from_octets [1; 97; 2; 98; 99] = Some (Ok (mkTxt [1; 97; 2; 98; 99])) /\
  txt_iter_charstrs (P:=slice_parser) (mkTxt [1; 97; 2; 98; 99]) = Ret [mkCharStr [97]; mkCharStr [98; 99]].
Proof.
  destruct (txt_from_octets_correct (P:=slice_parser) (B:=list Z) [1; 97; 2; 98; 99] ltac:(by_decide)) as (r & Hr & Hiff & Hws).
  assert (Hok : txt_ok [mkCharStr [97]; mkCharStr [98; 99]]).
  { split; [|split; [done|by vm_compute]]. repeat (constructor; [split; [unfold cs_len, CHARSTR_MAX_LEN; simpl; lia|by_decide]|]). constructor. }
  split; [|by apply (Hws _ Hok)]. rewrite Hr. f_equal. apply Hiff. by exists [mkCharStr [97]; mkCharStr [98; 99]].
Defined.

Lemma txt_builder_correct_witness :
  exists t, tb_ops (B:=list Z) [TSlice (replicate 256 97); TCharStr (mkCharStr [98]); TSlice [99]] tb_new = Ret (t, Ok ()) /\
    tb_finish t = Ok (mkTxt (255 :: replicate 255 97 ++ [1; 97; 1; 98; 1; 99])).
Proof.
  destruct (txt_builder_correct (B:=list Z) [TSlice (replicate 256 97); TCharStr (mkCharStr [98]); TSlice [99]]) as (t & r & E & Hl & _ & Hf).
  { repeat constructor; cbn; unfold CHARSTR_MAX_LEN; lia. }
  assert (r = Ok ()) as -> by (apply Hl; by vm_compute). exists t. split; [exact E|]. rewrite Hf by done. by vm_compute.
Defined.
