(* ===== verification/Dnssec.v ===== *)
(** * Record data of DNSSEC ([src/src/rdata/dnssec.rs], [cds.rs])

    DNSKEY, RRSIG, NSEC, DS and their CDNSKEY and CDS twins, with the key tag, the
    timestamps of signatures and the part of RRSIG that is signed.  The theorems
    say that the key tag is the checksum of RFC 4034 over the wire format, that
    parsing finds the data that is there and reads back what is composed, and
    where the orders of the types do not agree with each other. *)

From S2P Require Import Prelude Octets Serial Symbol CharStr Label Traits Name ParsedName Header Compressor MessageBuilder Message Record Scanner Ttl Layout Rdata Bitmap.
From stdpp Require Import strings.
#[local] Open Scope Z_scope.

Definition RTYPE_DS : Z := 43.
Definition RTYPE_RRSIG : Z := 46.
Definition RTYPE_NSEC : Z := 47.
Definition RTYPE_DNSKEY : Z := 48.
Definition RTYPE_CDS : Z := 59.
Definition RTYPE_CDNSKEY : Z := 60.

Definition SEC_ALG_RSAMD5 : Z := 1.

(** ** DNSKEY and CDNSKEY *)

(** Algorithms are their numbers. *)
Record Dnskey := mkDnskey { dk_flags : Z; dk_protocol : Z; dk_algorithm : Z; dk_public_key : list Z }.

Definition dnskey_new (flags protocol algorithm : Z) (public_key : list Z) : result Dnskey LongRecordData :=
  if 65535 <? 4 + zlen public_key then Err LongRecordDataErr else Ok (mkDnskey flags protocol algorithm public_key).

Definition dnskey_is_revoked (d : Dnskey) : bool := negb (Z.land (dk_flags d) 128 =? 0).
Definition dnskey_is_secure_entry_point (d : Dnskey) : bool := negb (Z.land (dk_flags d) 1 =? 0).
Definition dnskey_is_zone_key (d : Dnskey) : bool := negb (Z.land (dk_flags d) 256 =? 0).

(** The loop of [key_tag], on a [u32]. *)
Fixpoint key_tag_loop (oc : bool) (key : list Z) (res : Z) : outcome Z :=
  match key with
  | [] => Ret res
  | [x] => uint_add oc 32 res (Z.shiftl x 8)
  | x :: y :: key =>
      let! res := uint_add oc 32 res (Z.shiftl x 8) in
      let! res := uint_add oc 32 res y in key_tag_loop oc key res
  end.

Definition dnskey_key_tag (oc : bool) (d : Dnskey) : outcome Z :=
  if dk_algorithm d =? SEC_ALG_RSAMD5 then
    let len := length (dk_public_key d) in
    if (2 <? len)%nat then Ret (from_be_bytes (take 2 (drop (len - 3) (dk_public_key d))) 0) else Ret 0
  else
    let res := dk_flags d in
    let! res := uint_add oc 32 res (Z.shiftl (dk_protocol d) 8) in
    let! res := uint_add oc 32 res (dk_algorithm d) in
    let! res := key_tag_loop oc (dk_public_key d) res in
    let! res := uint_add oc 32 res (Z.land (Z.shiftr res 16) 0xFFFF) in
    Ret (as_u16 (Z.land res 0xFFFF)).

Definition dnskey_parse {P} `{OctetsParser P} (p : P) : outcome (result (Dnskey * P) ParseError) :=
  if (p_remaining p <? 4)%nat then Ret (Err PShortInput)
  else
    let len := (p_remaining p - 4)%nat in
    let!? (flags, p) := Ret (u16_parse p) in
    let!? (protocol, p) := Ret (u8_parse p) in
    let!? (algorithm, p) := Ret (u8_parse p) in
    let!? (public_key, p) := Ret (short (p_parse_octets p len)) in
    Ret (Ok (mkDnskey flags protocol algorithm public_key, p)).

Definition dnskey_eq (a b : Dnskey) : bool :=
  (dk_flags a =? dk_flags b) && (dk_protocol a =? dk_protocol b) && (dk_algorithm a =? dk_algorithm b) &&
  bool_decide (dk_public_key a = dk_public_key b).

Definition dnskey_canonical_cmp (a b : Dnskey) : outcome comparison :=
  cmp_then (Ret (dk_flags a ?= dk_flags b))
    (cmp_then (Ret (dk_protocol a ?= dk_protocol b))
      (cmp_then (Ret (dk_algorithm a ?= dk_algorithm b)) (Ret (iter_cmp (dk_public_key a) (dk_public_key b))))).

(** [partial_cmp] and [cmp] call [canonical_cmp]. *)
Definition dnskey_cmp : Dnskey -> Dnskey -> outcome comparison := dnskey_canonical_cmp.

Definition dnskey_rdlen (d : Dnskey) : outcome (option Z) :=
  let! len := len_u16 (zlen (dk_public_key d)) in let! len := u16_add len 4 in Ret (Some len).

Definition dnskey_compose {B} `{OctetsBuilder B} (d : Dnskey) : pusher B :=
  push_seq (push_compose (u16_compose (dk_flags d))) (push_seq (push_compose (u8_compose (dk_protocol d)))
    (push_seq (push_compose (u8_compose (dk_algorithm d))) (push_compose (compose_slice (dk_public_key d))))).

Definition key_data (own : Z) {B} `{Composer B} : ComposeRecordData Dnskey B := {|
  rd_rtype _ := own;
  rd_rdlen d _ := dnskey_rdlen d;
  compose_rdata := dnskey_compose;
  compose_canonical_rdata := dnskey_compose
|}.

(** The code of [Cdnskey] is that of [Dnskey] with another record type. *)
Definition Cdnskey : Type := Dnskey.
Definition cdnskey_new : Z -> Z -> Z -> list Z -> result Cdnskey LongRecordData := dnskey_new.
Definition cdnskey_parse {P} `{OctetsParser P} : P -> outcome (result (Cdnskey * P) ParseError) := dnskey_parse.
Definition cdnskey_eq : Cdnskey -> Cdnskey -> bool := dnskey_eq.
Definition cdnskey_canonical_cmp : Cdnskey -> Cdnskey -> outcome comparison := dnskey_canonical_cmp.

(** ** DS and CDS *)

Record Ds := mkDs { ds_key_tag : Z; ds_algorithm : Z; ds_digest_type : Z; ds_digest : list Z }.

Definition ds_new (key_tag algorithm digest_type : Z) (digest : list Z) : result Ds LongRecordData :=
  if 65535 <? 4 + zlen digest then Err LongRecordDataErr else Ok (mkDs key_tag algorithm digest_type digest).

Definition ds_parse {P} `{OctetsParser P} (p : P) : outcome (result (Ds * P) ParseError) :=
  if (p_remaining p <? 4)%nat then Ret (Err PShortInput)
  else
    let len := (p_remaining p - 4)%nat in
    let!? (key_tag, p) := Ret (u16_parse p) in
    let!? (algorithm, p) := Ret (u8_parse p) in
    let!? (digest_type, p) := Ret (u8_parse p) in
    let!? (digest, p) := Ret (short (p_parse_octets p len)) in
    Ret (Ok (mkDs key_tag algorithm digest_type digest, p)).

Definition ds_eq (a b : Ds) : bool :=
  (ds_key_tag a =? ds_key_tag b) && (ds_algorithm a =? ds_algorithm b) && (ds_digest_type a =? ds_digest_type b) &&
  bool_decide (ds_digest a = ds_digest b).

Definition ds_canonical_cmp (a b : Ds) : outcome comparison :=
  cmp_then (Ret (ds_key_tag a ?= ds_key_tag b))
    (cmp_then (Ret (ds_algorithm a ?= ds_algorithm b))
      (cmp_then (Ret (ds_digest_type a ?= ds_digest_type b)) (Ret (iter_cmp (ds_digest a) (ds_digest b))))).

Definition ds_cmp : Ds -> Ds -> outcome comparison := ds_canonical_cmp.

Definition ds_rdlen (d : Ds) : outcome (option Z) :=
  let! len := len_u16 (zlen (ds_digest d)) in let! len := u16_add 4 len in Ret (Some len).

Definition ds_compose {B} `{OctetsBuilder B} (d : Ds) : pusher B :=
  push_seq (push_compose (u16_compose (ds_key_tag d))) (push_seq (push_compose (u8_compose (ds_algorithm d)))
    (push_seq (push_compose (u8_compose (ds_digest_type d))) (push_compose (compose_slice (ds_digest d))))).

Definition ds_data (own : Z) {B} `{Composer B} : ComposeRecordData Ds B := {|
  rd_rtype _ := own;
  rd_rdlen d _ := ds_rdlen d;
  compose_rdata := ds_compose;
  compose_canonical_rdata := ds_compose
|}.

(** The code of [Cds] is that of [Ds] with another record type. *)
Definition Cds : Type := Ds.
Definition cds_new : Z -> Z -> Z -> list Z -> result Cds LongRecordData := ds_new.
Definition cds_parse {P} `{OctetsParser P} : P -> outcome (result (Cds * P) ParseError) := ds_parse.
Definition cds_eq : Cds -> Cds -> bool := ds_eq.
Definition cds_canonical_cmp : Cds -> Cds -> outcome comparison := ds_canonical_cmp.

(** ** Timestamps *)

(** A [Timestamp] is a serial number. *)
Record Timestamp := mkTimestamp { ts_serial : Serial }.

Definition timestamp_into_int (t : Timestamp) : Z := serial_into_int (ts_serial t).
Definition timestamp_parse {P} `{OctetsParser P} (p : P) : result (Timestamp * P) ParseError :=
  let? (s, p) := serial_parse p in Ok (mkTimestamp s, p).
Definition timestamp_compose {B} `{OctetsBuilder B} (t : Timestamp) : composer B := serial_compose (ts_serial t).
Definition timestamp_partial_cmp (a b : Timestamp) : option comparison := serial_partial_cmp (ts_serial a) (ts_serial b).
Definition timestamp_canonical_cmp (a b : Timestamp) : comparison := serial_canonical_cmp (ts_serial a) (ts_serial b).

(** [u8_from_buf] and [u32_from_buf] on digits; both fit. *)
Definition uint_from_buf (buf : list Z) : Z := fold_left (fun res ch => res * 10 + ch) buf 0.

(** [Timestamp::scan]: the digits of a token, and what they say.  [datetime] is the
    [time] crate: the seconds from 1970 to a date and a time of day, or [None] if
    there is no such date or time. *)
Fixpoint timestamp_digits (syms : list Symbol) (buf : list Z) : result (list Z) StrError :=
  match syms with
  | [] => Ok buf
  | symbol :: syms =>
      if (14 <=? length buf)%nat then Err (str_custom "illegal signature time")
      else match symbol_into_digit symbol 10 with
           | Err _ => Err (str_custom "illegal signature time")
           | Ok d => timestamp_digits syms (buf ++ [d])
           end
  end.

Definition timestamp_from_digits (datetime : Z -> Z -> Z -> Z -> Z -> Z -> option Z) (buf : list Z) : result Timestamp StrError :=
  let pos := length buf in
  let part i j := uint_from_buf (take (j - i) (drop i buf)) in
  if (pos <=? 10)%nat then
    let res := uint_from_buf buf in
    if 2 ^ 32 - 1 <? res then Err (str_custom "illegal signature time") else Ok (mkTimestamp (mkSerial res))
  else if (pos =? 14)%nat then
    match datetime (part 0 4)%nat (part 4 6)%nat (part 6 8)%nat (part 8 10)%nat (part 10 12)%nat (part 12 14)%nat with
    | Some secs => Ok (mkTimestamp (mkSerial (as_u32 secs)))
    | None => Err (str_custom "illegal signature time")
    end
  else Err (str_custom "illegal signature time").

(** ** RRSIG *)

Record ProtoRrsig (N : Type) := mkProtoRrsig {
  pr_type_covered : Z; pr_algorithm : Z; pr_labels : Z; pr_original_ttl : Ttl;
  pr_expiration : Timestamp; pr_inception : Timestamp; pr_key_tag : Z; pr_signer_name : N
}.
Arguments mkProtoRrsig {N}.
Arguments pr_type_covered {N} _.
Arguments pr_algorithm {N} _.
Arguments pr_labels {N} _.
Arguments pr_original_ttl {N} _.
Arguments pr_expiration {N} _.
Arguments pr_inception {N} _.
Arguments pr_key_tag {N} _.
Arguments pr_signer_name {N} _.

(** The fields of [Rrsig] are those of [ProtoRrsig] and the signature. *)
Record Rrsig (N : Type) := mkRrsig { rs_proto : ProtoRrsig N; rs_signature : list Z }.
Arguments mkRrsig {N} rs_proto rs_signature.
Arguments rs_proto {N} _.
Arguments rs_signature {N} _.

Section Rrsig.
Context {N I : Type} `{ToLabelIter N I}.

(** [compose_head], the same for both types. *)
Definition rrsig_compose_head {B} `{OctetsBuilder B} (p : ProtoRrsig N) : pusher B :=
  push_seq (push_compose (u16_compose (pr_type_covered p))) (push_seq (push_compose (u8_compose (pr_algorithm p)))
    (push_seq (push_compose (u8_compose (pr_labels p))) (push_seq (push_compose (ttl_compose (pr_original_ttl p)))
      (push_seq (push_compose (timestamp_compose (pr_expiration p))) (push_seq (push_compose (timestamp_compose (pr_inception p)))
        (push_compose (u16_compose (pr_key_tag p)))))))).

Definition proto_compose {B} `{OctetsBuilder B} (p : ProtoRrsig N) : pusher B :=
  push_seq (rrsig_compose_head p) (name_compose (pr_signer_name p)).
Definition proto_compose_canonical {B} `{OctetsBuilder B} (p : ProtoRrsig N) : pusher B :=
  push_seq (rrsig_compose_head p) (name_compose_canonical (pr_signer_name p)).

Definition rrsig_new (proto : ProtoRrsig N) (signature : list Z) : outcome (result (Rrsig N) LongRecordData) :=
  let! len := compose_len (pr_signer_name proto) in
  let! len := u16_add 18 len in
  Ret (if 65535 <? len + zlen signature then Err LongRecordDataErr else Ok (mkRrsig proto signature)).

Definition proto_into_rrsig : ProtoRrsig N -> list Z -> outcome (result (Rrsig N) LongRecordData) := rrsig_new.

Definition rrsig_rdlen (d : Rrsig N) : outcome (option Z) :=
  let! len := compose_len (pr_signer_name (rs_proto d)) in
  let! len := u16_add 18 len in
  let! slen := len_u16 (zlen (rs_signature d)) in
  let! len := u16_add len slen in Ret (Some len).

#[export] Instance rrsig_data {B} `{Composer B} : ComposeRecordData (Rrsig N) B := {|
  rd_rtype _ := RTYPE_RRSIG;
  rd_rdlen d _ := rrsig_rdlen d;
  compose_rdata d := push_seq (rrsig_compose_head (rs_proto d))
    (push_seq (name_compose (pr_signer_name (rs_proto d))) (push_compose (compose_slice (rs_signature d))));
  compose_canonical_rdata d := push_seq (rrsig_compose_head (rs_proto d))
    (push_seq (name_compose_canonical (pr_signer_name (rs_proto d))) (push_compose (compose_slice (rs_signature d))))
|}.
End Rrsig.

Definition rrsig_parse {P} `{OctetsParser P} (p : P) : outcome (result (Rrsig ParsedName * P) ParseError) :=
  let!? (type_covered, p) := Ret (u16_parse p) in
  let!? (algorithm, p) := Ret (u8_parse p) in
  let!? (labels, p) := Ret (u8_parse p) in
  let!? (original_ttl, p) := Ret (ttl_parse p) in
  let!? (expiration, p) := Ret (timestamp_parse p) in
  let!? (inception, p) := Ret (timestamp_parse p) in
  let!? (key_tag, p) := Ret (u16_parse p) in
  let!? (signer_name, p) := ended (parsed_parse p) in
  let!? (signature, p) := Ret (short (p_parse_octets p (p_remaining p))) in
  Ret (Ok (mkRrsig (mkProtoRrsig type_covered algorithm labels original_ttl expiration inception key_tag signer_name) signature, p)).

(** ** NSEC *)

Record Nsec (N : Type) := mkNsec { ns_next_name : N; ns_types : RtypeBitmap }.
Arguments mkNsec {N} ns_next_name ns_types.
Arguments ns_next_name {N} _.
Arguments ns_types {N} _.

Definition nsec_parse {P} `{OctetsParser P} (p : P) : outcome (result (Nsec ParsedName * P) ParseError) :=
  let!? (next_name, p) := ended (parsed_parse p) in
  let!? (types, p) := bitmap_parse p in
  Ret (Ok (mkNsec next_name types, p)).

Definition nsec_rdlen {N I} `{ToLabelIter N I} (d : Nsec N) : outcome (option Z) :=
  let! name := compose_len (ns_next_name d) in
  let! types := bitmap_compose_len (ns_types d) in
  let! len := u16_add name types in Ret (Some len).

(** The next name keeps its case in the canonical form, too. *)
Definition nsec_compose {N I} `{ToLabelIter N I} {B} `{OctetsBuilder B} (d : Nsec N) : pusher B :=
  push_seq (name_compose (ns_next_name d)) (bitmap_compose (ns_types d)).

#[export] Instance nsec_data {N I} `{ToLabelIter N I} {B} `{Composer B} : ComposeRecordData (Nsec N) B := {|
  rd_rtype _ := RTYPE_NSEC;
  rd_rdlen d _ := nsec_rdlen d;
  compose_rdata := nsec_compose;
  compose_canonical_rdata := nsec_compose
|}.

(** ** Comparing RRSIG and NSEC *)

Section Comparing.
Context {N I : Type} `{ToLabelIter N I} {M J : Type} `{ToLabelIter M J}.

Definition rrsig_eq (a : Rrsig N) (b : Rrsig M) : outcome bool :=
  let a' := rs_proto a in let b' := rs_proto b in
  and_then (Ret ((pr_type_covered a' =? pr_type_covered b') && (pr_algorithm a' =? pr_algorithm b') &&
                 (pr_labels a' =? pr_labels b') && (ttl_secs (pr_original_ttl a') =? ttl_secs (pr_original_ttl b')) &&
                 (timestamp_into_int (pr_expiration a') =? timestamp_into_int (pr_expiration b')) &&
                 (timestamp_into_int (pr_inception a') =? timestamp_into_int (pr_inception b')) &&
                 (pr_key_tag a' =? pr_key_tag b')))
    (and_then (name_eq (pr_signer_name a') (pr_signer_name b')) (Ret (bool_decide (rs_signature a = rs_signature b)))).

Definition rrsig_canonical_cmp (a : Rrsig N) (b : Rrsig M) : outcome comparison :=
  let a' := rs_proto a in let b' := rs_proto b in
  cmp_then (Ret (pr_type_covered a' ?= pr_type_covered b'))
    (cmp_then (Ret (pr_algorithm a' ?= pr_algorithm b'))
    (cmp_then (Ret (pr_labels a' ?= pr_labels b'))
    (cmp_then (Ret (ttl_secs (pr_original_ttl a') ?= ttl_secs (pr_original_ttl b')))
    (cmp_then (Ret (timestamp_canonical_cmp (pr_expiration a') (pr_expiration b')))
    (cmp_then (Ret (timestamp_canonical_cmp (pr_inception a') (pr_inception b')))
    (cmp_then (Ret (pr_key_tag a' ?= pr_key_tag b'))
    (cmp_then (lowercase_composed_cmp (pr_signer_name a') (pr_signer_name b'))
    (Ret (iter_cmp (rs_signature a) (rs_signature b)))))))))).

(** [partial_cmp]; [None] if timestamps cannot be compared. *)
Definition pcmp_then (c : option comparison) (k : outcome (option comparison)) : outcome (option comparison) :=
  match c with Some Eq => k | c => Ret c end.

Definition rrsig_partial_cmp (a : Rrsig N) (b : Rrsig M) : outcome (option comparison) :=
  let a' := rs_proto a in let b' := rs_proto b in
  pcmp_then (Some (pr_type_covered a' ?= pr_type_covered b'))
    (pcmp_then (Some (pr_algorithm a' ?= pr_algorithm b'))
    (pcmp_then (Some (pr_labels a' ?= pr_labels b'))
    (pcmp_then (Some (ttl_secs (pr_original_ttl a') ?= ttl_secs (pr_original_ttl b')))
    (pcmp_then (timestamp_partial_cmp (pr_expiration a') (pr_expiration b'))
    (pcmp_then (timestamp_partial_cmp (pr_inception a') (pr_inception b'))
    (pcmp_then (Some (pr_key_tag a' ?= pr_key_tag b'))
    (let! c := name_cmp (pr_signer_name a') (pr_signer_name b') in
     pcmp_then (Some c) (Ret (Some (iter_cmp (rs_signature a) (rs_signature b))))))))))).

Definition nsec_eq (a : Nsec N) (b : Nsec M) : outcome bool :=
  and_then (name_eq (ns_next_name a) (ns_next_name b)) (Ret (bitmap_eq (ns_types a) (ns_types b))).

(** The types are those of [self] both times. *)
Definition nsec_canonical_cmp (a : Nsec N) (b : Nsec M) : outcome comparison :=
  cmp_then (composed_cmp (ns_next_name a) (ns_next_name b)) (Ret (bitmap_cmp (ns_types a) (ns_types a))).

(** [partial_cmp] and [cmp]. *)
Definition nsec_cmp (a : Nsec N) (b : Nsec M) : outcome comparison :=
  cmp_then (name_cmp (ns_next_name a) (ns_next_name b)) (Ret (bitmap_cmp (ns_types a) (ns_types a))).
End Comparing.

(** ** The key tag is the checksum of RFC 4034, Appendix B *)

Definition dnskey_wire (d : Dnskey) : list Z :=
  to_be_bytes 2 (dk_flags d) ++ [dk_protocol d] ++ [dk_algorithm d] ++ dk_public_key d.

Definition dnskey_ok (d : Dnskey) : Prop :=
  is_u16 (dk_flags d) /\ is_u8 (dk_protocol d) /\ is_u8 (dk_algorithm d) /\ wf_octets (dk_public_key d) /\
  zlen (dk_public_key d) <= 65531.

(** Octets at even positions count for 256 times their value. *)
Fixpoint rfc_ac (odd : bool) (s : list Z) : Z :=
  match s with
  | [] => 0
  | b :: s => (if odd then b else b * 256) + rfc_ac (negb odd) s
  end.

Definition rfc_key_tag (s : list Z) : Z := let ac := rfc_ac false s in (ac + (ac / 2 ^ 16) mod 2 ^ 16) mod 2 ^ 16.

Lemma rfc_ac_bound odd s : wf_octets s -> 0 <= rfc_ac odd s <= 65280 * zlen s.
Proof.
  intros Hs. revert odd; induction Hs as [|b s Hb _ IH]; intros odd; [done|]. specialize (IH (negb odd)). unfold is_u8 in Hb.
  cbn [rfc_ac]. unfold zlen in *. cbn [length]. destruct odd; lia.
Qed.

Lemma uint_add_small oc w a b : a + b < 2 ^ w -> uint_add oc w a b = Ret (a + b).
Proof. intros Hl. unfold uint_add. by destruct (Z.leb_spec (2 ^ w) (a + b)); [lia|]. Qed.

Lemma key_tag_loop_spec oc n key res :
  (length key <= n)%nat -> wf_octets key -> 0 <= res -> res + rfc_ac false key < 2 ^ 32 ->
  key_tag_loop oc key res = Ret (res + rfc_ac false key).
Proof.
  revert key res; induction n as [|n IH]; intros key res Hn Hw Hr Hl.
  - destruct key; [|simpl in Hn; lia]. simpl. by rewrite Z.add_0_r.
  - destruct key as [|x [|y key]]; [by rewrite Z.add_0_r|..]; apply Forall_cons in Hw as [Hx Hw]; unfold is_u8 in Hx.
    + cbn [key_tag_loop rfc_ac] in *. rewrite Z.shiftl_mul_pow2 by lia. rewrite uint_add_small by lia. f_equal. lia.
    + apply Forall_cons in Hw as [Hy Hw]. unfold is_u8 in Hy. cbn [key_tag_loop rfc_ac negb] in *.
      pose proof (rfc_ac_bound false key Hw). rewrite Z.shiftl_mul_pow2 by lia. rewrite !uint_add_small by lia.
      rewrite IH by (done || simpl in Hn; lia). f_equal. lia.
Qed.

Lemma dnskey_key_tag_value oc d :
  dnskey_ok d ->
  dnskey_key_tag oc d =
  Ret (if dk_algorithm d =? SEC_ALG_RSAMD5 then
         if (2 <? length (dk_public_key d))%nat then from_be_bytes (drop (length (dk_public_key d) - 3) (dk_public_key d)) 0 / 2 ^ 8 else 0
       else rfc_key_tag (dnskey_wire d)).
Proof.
  intros (Hf & Hp & Ha & Hk & Hl). unfold is_u16, is_u8 in *. unfold dnskey_key_tag. destruct (_ =? _).
  - destruct (Nat.ltb_spec 2 (length (dk_public_key d))) as [Hlen|]; [|done]. f_equal.
    assert (Hd : length (drop (length (dk_public_key d) - 3) (dk_public_key d)) = 3%nat) by (rewrite length_drop; lia).
    assert (Hw : wf_octets (drop (length (dk_public_key d) - 3) (dk_public_key d))) by (by apply list.Forall_drop).
    destruct (drop _ _) as [|a [|b [|c [|]]]]; try done. apply Forall_cons in Hw as [_ Hw]. apply Forall_cons in Hw as [_ Hw].
    apply Forall_cons in Hw as [Hc _]. unfold is_u8 in Hc. cbn [take from_be_bytes]. apply (Z.div_unique _ _ _ c); lia.
  - pose proof (rfc_ac_bound false (dk_public_key d) Hk) as Hb.
    assert (E : rfc_ac false (dnskey_wire d) = dk_flags d + dk_protocol d * 256 + dk_algorithm d + rfc_ac false (dk_public_key d)).
    { unfold dnskey_wire. cbn [to_be_bytes app rfc_ac negb]. pose proof (Z.div_mod (dk_flags d) (2 ^ 8) ltac:(lia)).
      rewrite (Z.mod_small (dk_flags d / 2 ^ 8)); [lia|]. split; [apply Z.div_pos; lia|apply Z.div_lt_upper_bound; lia]. }
    unfold rfc_key_tag. rewrite E. rewrite Z.shiftl_mul_pow2 by lia. rewrite (uint_add_small _ _ (dk_flags d)) by lia.
    rewrite (uint_add_small _ _ (dk_flags d + _)) by lia. rewrite (key_tag_loop_spec _ (length (dk_public_key d))) by (done || lia).
    change (dk_protocol d * 2 ^ 8) with (dk_protocol d * 256). set (ac := dk_flags d + _ + _ + _).
    change 0xFFFF with (Z.ones 16). rewrite !Z.land_ones, Z.shiftr_div_pow2 by lia.
    pose proof (Z.mod_pos_bound (ac / 2 ^ 16) (2 ^ 16) ltac:(lia)). rewrite uint_add_small by (subst ac; lia).
    rewrite Z.land_ones by lia. unfold as_u16. by rewrite Z.mod_mod by lia.
Qed.

(** The key tag is the checksum of RFC 4034 over the wire format of the record
    data and, for the algorithm RSA/MD5, the upper two of the last three octets of
    the key.  It never overflows, with overflow checks or without.  (C22) *)
Theorem dnskey_key_tag_correct oc d :
  dnskey_ok d ->
  dnskey_key_tag oc d =
  Ret (if dk_algorithm d =? SEC_ALG_RSAMD5 then
         if (2 <? length (dk_public_key d))%nat then from_be_bytes (drop (length (dk_public_key d) - 3) (dk_public_key d)) 0 / 2 ^ 8 else 0
       else rfc_key_tag (dnskey_wire d)).
Proof. apply dnskey_key_tag_value. Qed.

Lemma dnskey_key_tag_correct_witness :
  dnskey_key_tag true (mkDnskey 257 3 8 [3; 1; 0; 1; 200]) = Ret (rfc_key_tag [1; 1; 3; 8; 3; 1; 0; 1; 200]).
Proof.
  apply (dnskey_key_tag_correct true (mkDnskey 257 3 8 [3; 1; 0; 1; 200])).
  unfold dnskey_ok; cbn [dk_flags dk_protocol dk_algorithm dk_public_key]. do 3 (split; [by_decide|]). split; [by_decide|by vm_compute].
Defined.

(** ** Parsing *)

Definition head4_at {A} (mk : Z -> Z -> Z -> list Z -> A) : layout A :=
  lay_seq (be_at 2) (fun a => lay_seq (be_at 1) (fun b => lay_seq (be_at 1) (fun c => lay_seq rest_at (fun s => lay_ret (mk a b c s))))).

Definition timestamp_at : layout Timestamp := lay_map mkTimestamp serial_at.

Definition bitmap_at : layout RtypeBitmap := fun s pos bitmap e =>
  (pos <= length s)%nat /\ bitmap = mkBitmap (drop pos s) /\ (exists ws, Forall window_ok ws /\ drop pos s = windows_wire ws) /\ e = length s.

Definition rrsig_at : layout (Rrsig labels) :=
  lay_seq (be_at 2) (fun t => lay_seq (be_at 1) (fun a => lay_seq (be_at 1) (fun l => lay_seq ttl_at (fun o =>
  lay_seq timestamp_at (fun e => lay_seq timestamp_at (fun i => lay_seq (be_at 2) (fun k => lay_seq name_at (fun n =>
  lay_seq rest_at (fun s => lay_ret (mkRrsig (mkProtoRrsig t a l o e i k n) s)))))))))).

Definition nsec_at : layout (Nsec labels) := lay_seq name_at (fun n => lay_seq bitmap_at (fun b => lay_ret (mkNsec n b))).

Section Relations.
Context {N M : Type} (R : N -> M -> Prop).

Definition proto_rel (d : ProtoRrsig N) (x : ProtoRrsig M) : Prop :=
  pr_type_covered d = pr_type_covered x /\ pr_algorithm d = pr_algorithm x /\ pr_labels d = pr_labels x /\
  pr_original_ttl d = pr_original_ttl x /\ pr_expiration d = pr_expiration x /\ pr_inception d = pr_inception x /\
  pr_key_tag d = pr_key_tag x /\ R (pr_signer_name d) (pr_signer_name x).
Definition rrsig_rel (d : Rrsig N) (x : Rrsig M) : Prop := proto_rel (rs_proto d) (rs_proto x) /\ rs_signature d = rs_signature x.
Definition nsec_rel (d : Nsec N) (x : Nsec M) : Prop := R (ns_next_name d) (ns_next_name x) /\ ns_types d = ns_types x.
End Relations.

Section Parsing.
Context {P : Type} `{OctetsParserOk P}.

Definition head4_parse {A} (mk : Z -> Z -> Z -> list Z -> A) (p : P) : outcome (result (A * P) ParseError) :=
  if (p_remaining p <? 4)%nat then Ret (Err PShortInput)
  else
    let len := (p_remaining p - 4)%nat in
    let!? (a, p) := Ret (u16_parse p) in
    let!? (b, p) := Ret (u8_parse p) in
    let!? (c, p) := Ret (u8_parse p) in
    let!? (s, p) := Ret (short (p_parse_octets p len)) in
    Ret (Ok (mk a b c s, p)).

Lemma u8_parse_cases (p : P) :
  (p_remaining p < 1)%nat /\ u8_parse p = Err PShortInput \/
  exists v p', u8_parse p = Ok (v, p') /\ (p_remaining p = p_remaining p' + 1)%nat.
Proof.
  unfold u8_parse. destruct (decide (p_remaining p = 0%nat)) as [E|Hne].
  - left. split; [lia|]. by rewrite p_parse_u8_short.
  - right. pose proof (p_bounds p). unfold p_remaining in *. destruct (lookup_lt_is_Some_2 (p_octets p) (p_pos p)) as [c Hc]; [lia|].
    destruct (p_parse_u8_ok p c) as (q & -> & _ & Hl & Hpos); [unfold p_remaining; lia|done|]. exists c, q. split; [done|]. rewrite Hl, Hpos. lia.
Qed.

Lemma u16_parse_cases (p : P) :
  (p_remaining p < 2)%nat /\ u16_parse p = Err PShortInput \/
  exists v p', u16_parse p = Ok (v, p') /\ (p_remaining p = p_remaining p' + 2)%nat.
Proof.
  unfold u16_parse. rewrite p_parse_u16_be_spec. destruct (decide (p_remaining p < 2)%nat) as [Hlt|Hge].
  - left. split; [done|]. by rewrite p_parse_octets_short.
  - right. destruct (p_parse_octets_ok p 2) as (q & -> & _ & Hl & Hpos); [lia|]. eexists _, q. split; [done|].
    unfold p_remaining in *. rewrite Hl, Hpos. lia.
Qed.

Lemma head4_finds {A} (mk : Z -> Z -> Z -> list Z -> A) : Finds (P:=P) (head4_parse mk) (head4_at mk) eq.
Proof.
  eapply (Finds_ext _ (fun p =>
    let!? (a, p) := Ret (u16_parse p) in let!? (b, p) := Ret (u8_parse p) in let!? (c, p) := Ret (u8_parse p) in
    let!? (s, p) := Ret (short (p_parse_octets p (p_remaining p))) in Ret (Ok (mk a b c s, p)))); [|finds].
  intros p. unfold head4_parse. destruct (u16_parse_cases p) as [[Hr ->]|(a & p1 & -> & E1)].
  { destruct (Nat.ltb_spec (p_remaining p) 4); [done|lia]. }
  destruct (u8_parse_cases p1) as [[Hr ->]|(b & p2 & -> & E2)]; [destruct (Nat.ltb_spec (p_remaining p) 4); [done|lia]|].
  destruct (u8_parse_cases p2) as [[Hr ->]|(c & p3 & -> & E3)]; [destruct (Nat.ltb_spec (p_remaining p) 4); [done|lia]|].
  destruct (Nat.ltb_spec (p_remaining p) 4); [lia|]. by replace (p_remaining p - 4)%nat with (p_remaining p3) by lia.
Qed.

Lemma dnskey_finds : Finds (P:=P) dnskey_parse (head4_at mkDnskey) eq.
Proof. exact (head4_finds mkDnskey). Qed.

Lemma ds_finds : Finds (P:=P) ds_parse (head4_at mkDs) eq.
Proof. exact (head4_finds mkDs). Qed.

Lemma Finds_timestamp : Finds (P:=P) (fun p => Ret (timestamp_parse p)) timestamp_at eq.
Proof.
  eapply Finds_ext; [|eapply (Finds_map _ mkTimestamp); [apply Finds_serial|by intros ? ? ->]].
  intros p. unfold timestamp_parse. by destruct (serial_parse p) as [[v p']|].
Qed.

Lemma bitmap_finds : Finds (P:=P) bitmap_parse bitmap_at eq.
Proof.
  intros p Hp. destruct (Finds_rest (P:=P) p Hp) as (r & Hr & Hs & Hc). injection Hr as Hr. unfold bitmap_parse. rewrite Hr.
  pose proof (p_bounds p) as Hb. pose proof (length_visible p) as Hlv.
  destruct (Hc (drop (p_pos p) (visible p)) (length (visible p))) as (text & p1 & -> & Ht & Hm); [by split_and!; [lia|..]|].
  assert (Hw : wf_octets text) by (subst text; by apply list.Forall_drop, visible_wf). unfold bitmap_from_octets.
  destruct (check_windows_spec (S (length text)) text Hw) as (r & -> & Hiff); [lia|]. destruct r as [[]|err].
  - eexists; split; [done|]. destruct (proj1 Hiff eq_refl) as (ws & Hws & E). rewrite Ht in E. split.
    + intros d p' [<- <-]%Ok_pair_inj. exists (mkBitmap text), (length (visible p)). split_and!; [|done|done].
      split_and!; [lia|by rewrite Ht|by exists ws|done].
    + intros x e (_ & -> & _ & ->). exists (mkBitmap text), p1. by rewrite Ht.
  - eexists; split; [done|]. split; [done|]. intros x e (_ & -> & Hex & ->). rewrite <- Ht in Hex. by apply Hiff in Hex.
Qed.

End Parsing.

(** With the fields of this file. *)
Ltac finds_dnssec :=
  repeat (first [eapply Finds_seq|eapply Finds_seq_ret];
    [first [apply Finds_timestamp | apply bitmap_finds | finds_field]|intros ? ? ?; subst; cbv beta]);
  try (apply Finds_ret; try solve [reflexivity | assumption | by split_and!]).

Section ParsingNames.
Context {P : Type} `{OctetsParserOk P}.

Lemma rrsig_finds : Finds (P:=P) rrsig_parse rrsig_at (rrsig_rel wf_parsed).
Proof. unfold rrsig_parse. finds_dnssec. Qed.

Lemma nsec_finds : Finds (P:=P) nsec_parse nsec_at (nsec_rel wf_parsed).
Proof. unfold nsec_parse. finds_dnssec. Qed.
End ParsingNames.

(** ** The wire format *)

Definition ds_wire (d : Ds) : list Z :=
  to_be_bytes 2 (ds_key_tag d) ++ [ds_algorithm d] ++ [ds_digest_type d] ++ ds_digest d.
Definition rrsig_head {N} (x : ProtoRrsig N) : list Z :=
  to_be_bytes 2 (pr_type_covered x) ++ [pr_algorithm x] ++ [pr_labels x] ++ to_be_bytes 4 (ttl_secs (pr_original_ttl x)) ++
  to_be_bytes 4 (timestamp_into_int (pr_expiration x)) ++ to_be_bytes 4 (timestamp_into_int (pr_inception x)) ++
  to_be_bytes 2 (pr_key_tag x).
Definition rrsig_wire (x : Rrsig labels) : list Z :=
  rrsig_head (rs_proto x) ++ labels_wire (pr_signer_name (rs_proto x)) ++ rs_signature x.
Definition rrsig_cwire (x : Rrsig labels) : list Z :=
  rrsig_head (rs_proto x) ++ lower (labels_wire (pr_signer_name (rs_proto x))) ++ rs_signature x.
Definition nsec_wire (x : Nsec labels) : list Z := labels_wire (ns_next_name x) ++ bitmap_octets (ns_types x).

Definition ds_ok (d : Ds) : Prop :=
  is_u16 (ds_key_tag d) /\ is_u8 (ds_algorithm d) /\ is_u8 (ds_digest_type d) /\ wf_octets (ds_digest d) /\ zlen (ds_digest d) <= 65531.
Definition timestamp_ok (t : Timestamp) : Prop := wf_serial (ts_serial t).
Definition proto_ok (x : ProtoRrsig labels) : Prop :=
  is_u16 (pr_type_covered x) /\ is_u8 (pr_algorithm x) /\ is_u8 (pr_labels x) /\ ttl_ok (pr_original_ttl x) /\
  timestamp_ok (pr_expiration x) /\ timestamp_ok (pr_inception x) /\ is_u16 (pr_key_tag x) /\ name_good (pr_signer_name x).
Definition rrsig_ok (x : Rrsig labels) : Prop :=
  proto_ok (rs_proto x) /\ wf_octets (rs_signature x) /\ zlen (rrsig_wire x) <= 65535.
Definition bitmap_ok (b : RtypeBitmap) : Prop :=
  wf_octets (bitmap_octets b) /\ exists ws, Forall window_ok ws /\ bitmap_octets b = windows_wire ws.
Definition nsec_ok (x : Nsec labels) : Prop := name_good (ns_next_name x) /\ bitmap_ok (ns_types x) /\ zlen (nsec_wire x) <= 65535.

Lemma head4_lays {A} (mk : Z -> Z -> Z -> list Z -> A) a b c s :
  is_u16 a -> is_u8 b -> is_u8 c -> LaysEnd (head4_at mk) (mk a b c s) (to_be_bytes 2 a ++ [b] ++ [c] ++ s).
Proof.
  intros Ha Hb Hc. eapply LaysEnd_seq; [by apply Lays_u16|]. do 2 (eapply LaysEnd_seq; [by apply Lays_u8|]).
  apply (LaysEnd_rest_last (mk a b c)).
Qed.

Lemma dnskey_lays d : dnskey_ok d -> LaysEnd (head4_at mkDnskey) d (dnskey_wire d).
Proof. destruct d as [f p a k]. intros (? & ? & ? & _). by apply head4_lays. Qed.

Lemma ds_lays d : ds_ok d -> LaysEnd (head4_at mkDs) d (ds_wire d).
Proof. destruct d as [k a t s]. intros (? & ? & ? & _). by apply head4_lays. Qed.

Lemma Lays_timestamp t : timestamp_ok t -> Lays timestamp_at t (to_be_bytes 4 (timestamp_into_int t)).
Proof. destruct t as [s]. intros Hs. apply (Lays_map mkTimestamp). by apply Lays_serial. Qed.

Lemma LaysEnd_bitmap b : bitmap_ok b -> LaysEnd bitmap_at b (bitmap_octets b).
Proof. intros [_ Hb] s pos Hd Hp. split_and!; [done|by destruct b; rewrite Hd|by rewrite Hd|done]. Qed.

Lemma rrsig_lays x : rrsig_ok x -> LaysEnd rrsig_at x (rrsig_wire x).
Proof.
  destruct x as [[t a l o e i k n] s]. intros [(Ht & Ha & Hl & Ho & He & Hi & Hk & Hn) _]. unfold rrsig_wire, rrsig_head.
  cbn [rs_proto rs_signature pr_type_covered pr_algorithm pr_labels pr_original_ttl pr_expiration pr_inception pr_key_tag pr_signer_name] in *.
  rewrite <- !app_assoc. eapply LaysEnd_seq; [by apply Lays_u16|]. do 2 (eapply LaysEnd_seq; [by apply Lays_u8|]).
  eapply LaysEnd_seq; [by apply Lays_ttl|]. do 2 (eapply LaysEnd_seq; [by apply Lays_timestamp|]).
  eapply LaysEnd_seq; [by apply Lays_u16|]. eapply LaysEnd_seq; [by apply Lays_good|].
  apply (LaysEnd_rest_last (mkRrsig (mkProtoRrsig t a l o e i k n))).
Qed.

Lemma nsec_lays x : nsec_ok x -> LaysEnd nsec_at x (nsec_wire x).
Proof.
  destruct x as [n b]. intros (Hn & Hb & _). eapply LaysEnd_seq; [by apply Lays_good|]. intros s pos Hd Hp.
  exists b, (length s). split; [by apply (LaysEnd_bitmap b Hb)|]. done.
Qed.

(** ** What is composed *)

Definition dnskey_is (d x : Dnskey) : Prop := d = x /\ dnskey_ok x.
Definition ds_is (d x : Ds) : Prop := d = x /\ ds_ok x.

Section Is.
Context {N I : Type} `{ToLabelIter N I} `{!LabelIterOk I}.

Definition rrsig_is (d : Rrsig N) (x : Rrsig labels) : Prop := rrsig_rel name_ok d x /\ rrsig_ok x.
Definition nsec_is (d : Nsec N) (x : Nsec labels) : Prop := nsec_rel name_ok d x /\ nsec_ok x.
End Is.

Section Composed.
Context {B : Type} `{OctetsBuilderOk B} `{!Composer B}.

Lemma zlen_one {A} (a : A) : zlen [a] = 1.
Proof. done. Qed.

Lemma key_data_ok own : RecordDataOk Dnskey Dnskey B (H1 := key_data own) dnskey_is dnskey_wire dnskey_wire.
Proof.
  split; [intros d x [<- _]; unfold dnskey_wire; cbn [compose_rdata compose_canonical_rdata key_data]; unfold dnskey_compose; writes..| |done].
  intros d x c [<- _] Hl. left. cbn [rd_rdlen key_data]. unfold dnskey_rdlen, dnskey_wire in *. rewrite !zlen_app, zlen_to_be_bytes in *.
  rewrite !zlen_one in *. pose proof (zlen_nonneg (dk_public_key d)). rewrite len_u16_small, u16_add_small by lia. do 2 f_equal. lia.
Qed.

Lemma ds_data_ok own : RecordDataOk Ds Ds B (H1 := ds_data own) ds_is ds_wire ds_wire.
Proof.
  split; [intros d x [<- _]; unfold ds_wire; cbn [compose_rdata compose_canonical_rdata ds_data]; unfold ds_compose; writes..| |done].
  intros d x c [<- _] Hl. left. cbn [rd_rdlen ds_data]. unfold ds_rdlen, ds_wire in *. rewrite !zlen_app, zlen_to_be_bytes in *.
  rewrite !zlen_one in *. pose proof (zlen_nonneg (ds_digest d)). rewrite len_u16_small, u16_add_small by lia. do 2 f_equal. lia.
Qed.

Context {N I : Type} `{ToLabelIter N I} `{!LabelIterOk I}.

Lemma rrsig_head_writes (d : ProtoRrsig N) (x : ProtoRrsig labels) :
  proto_rel name_ok d x -> Writes (B:=B) (rrsig_compose_head d) (rrsig_head x).
Proof.
  intros (Ht & Ha & Hl & Ho & He & Hi & Hk & _). unfold rrsig_compose_head, rrsig_head. rewrite Ht, Ha, Hl, Ho, He, Hi, Hk. writes.
Qed.

Lemma zlen_rrsig_head {M} (x : ProtoRrsig M) : zlen (rrsig_head x) = 18.
Proof. unfold rrsig_head. rewrite !zlen_app, !zlen_to_be_bytes. done. Qed.

#[export] Instance rrsig_data_ok : RecordDataOk (Rrsig N) (Rrsig labels) B rrsig_is rrsig_wire rrsig_cwire.
Proof.
  split.
  - intros d x [[Hp Hs] _]. unfold rrsig_wire. cbn [compose_rdata rrsig_data]. rewrite Hs.
    apply Writes_seq; [by apply rrsig_head_writes|]. destruct Hp as (_ & _ & _ & _ & _ & _ & _ & Hn). writes.
  - intros d x [[Hp Hs] _]. unfold rrsig_cwire. cbn [compose_canonical_rdata rrsig_data]. rewrite Hs.
    apply Writes_seq; [by apply rrsig_head_writes|]. destruct Hp as (_ & _ & _ & _ & _ & _ & _ & Hn). writes.
  - intros d x c [[Hp Hs] _] Hl. left. cbn [rd_rdlen rrsig_data]. unfold rrsig_rdlen, rrsig_wire in *. rewrite Hs.
    destruct Hp as (_ & _ & _ & _ & _ & _ & _ & Hn). rewrite !zlen_app, zlen_rrsig_head in *.
    pose proof (zlen_nonneg (rs_signature x)). pose proof (zlen_nonneg (labels_wire (pr_signer_name (rs_proto x)))). rdlens. do 2 f_equal. lia.
  - intros x. unfold rrsig_wire, rrsig_cwire, lower. by rewrite !length_app, !length_map.
Qed.

#[export] Instance nsec_data_ok : RecordDataOk (Nsec N) (Nsec labels) B nsec_is nsec_wire nsec_wire.
Proof.
  split; [intros d x [[Hn Ht] _]; unfold nsec_wire; cbn [compose_rdata compose_canonical_rdata nsec_data]; unfold nsec_compose; rewrite Ht;
    (apply Writes_seq; [by apply Writes_name|apply Writes_slice])..| |done].
  intros d x c [[Hn Ht] _] Hl. left. cbn [rd_rdlen nsec_data]. unfold nsec_rdlen, nsec_wire, bitmap_compose_len in *. rewrite Ht, !zlen_app in *.
  pose proof (zlen_nonneg (labels_wire (ns_next_name x))). pose proof (zlen_nonneg (bitmap_octets (ns_types x))). rdlens.
  destruct (Z.ltb_spec (zlen (bitmap_octets (ns_types x))) (2 ^ 16)); [|lia]. rdlens. done.
Qed.
End Composed.

(** ** The canonical order *)

Lemma dnskey_order (a b : Dnskey) :
  dnskey_ok a -> dnskey_ok b -> dnskey_canonical_cmp a b = Ret (iter_cmp (dnskey_wire a) (dnskey_wire b)).
Proof. intros [? _] [? _]. unfold dnskey_canonical_cmp, dnskey_wire. orders. Qed.

Lemma ds_order (a b : Ds) : ds_ok a -> ds_ok b -> ds_canonical_cmp a b = Ret (iter_cmp (ds_wire a) (ds_wire b)).
Proof. intros [? _] [? _]. unfold ds_canonical_cmp, ds_wire. orders. Qed.

Section DnssecOrder.
Context {N I : Type} `{ToLabelIter N I} `{!LabelIterOk I}.
Context {M J : Type} `{ToLabelIter M J} `{!LabelIterOk J}.

Lemma rrsig_order (a : Rrsig N) (b : Rrsig M) x y :
  rrsig_is a x -> rrsig_is b y -> rrsig_canonical_cmp a b = Ret (iter_cmp (rrsig_cwire x) (rrsig_cwire y)).
Proof.
  intros [[(Et & Ea & El & Eo & Ee & Ei & Ek & Hn) Es] [(Ht & Ha & Hl & Ho & He & Hi & Hk & _) _]]
    [[(Et' & Ea' & El' & Eo' & Ee' & Ei' & Ek' & Hn') Es'] [(Ht' & Ha' & Hl' & Ho' & He' & Hi' & Hk' & _) _]].
  unfold rrsig_canonical_cmp, rrsig_cwire, rrsig_head, timestamp_canonical_cmp, serial_canonical_cmp, timestamp_into_int, serial_into_int.
  rewrite Et, Ea, El, Eo, Ee, Ei, Ek, Es, Et', Ea', El', Eo', Ee', Ei', Ek', Es', <- !app_assoc. orders.
Qed.

(** NSEC data is compared by the next name only. *)
Lemma nsec_order (a : Nsec N) (b : Nsec M) x y :
  nsec_is a x -> nsec_is b y ->
  nsec_canonical_cmp a b = Ret (iter_cmp (labels_wire (ns_next_name x)) (labels_wire (ns_next_name y))).
Proof.
  intros [[Hn _] _] [[Hn' _] _]. unfold nsec_canonical_cmp. pose proof (name_ok_fuel _ _ Hn) as Fn. pose proof (name_ok_fuel _ _ Hn') as Fm.
  destruct Hn as (Dn & An & _), Hn' as (Dm & Am & _).
  destruct (composed_cmp_correct _ _ _ _ Dn Dm Fn Fm An Am) as [-> _]. unfold cmp_then, bitmap_cmp. simpl.
  rewrite iter_cmp_refl. by destruct (iter_cmp _ _).
Qed.
End DnssecOrder.

(** NSEC data with different types is not equal and yet neither less nor greater. *)
Lemma nsec_types_ignored :
  let a := mkNsec name_root (mkBitmap [0; 1; 64]) in
  let b := mkNsec name_root (mkBitmap [0; 1; 32]) in
  nsec_eq a b = Ret false /\ nsec_canonical_cmp a b = Ret Eq /\ nsec_cmp a b = Ret Eq /\
  iter_cmp (bitmap_octets (ns_types a)) (bitmap_octets (ns_types b)) = Gt.
Proof. by vm_compute. Qed.
