(* ===== verification/Nsec3.v ===== *)
(** * NSEC3, NSEC3PARAM and ZONEMD

    [src/rdata/nsec3.rs] and [src/rdata/zonemd.rs].  The salt and the hash of the
    next owner name carry their length in front, in one octet, and are written as
    text in base 16 and base 32.  The data of both NSEC3 types and of ZONEMD is
    verified with the layouts. *)

From S2P Require Import Prelude Octets Serial Symbol BaseCodec CharStr Label Traits Name ParsedName Header Compressor MessageBuilder Message Record Scanner Ttl Layout Rdata Bitmap Dnssec.
From stdpp Require Import strings.
#[local] Open Scope Z_scope.

Definition RTYPE_NSEC3 : Z := 50.
Definition RTYPE_NSEC3PARAM : Z := 51.
Definition RTYPE_ZONEMD : Z := 63.

(** ** The salt *)

Record Nsec3Salt := mkSalt { salt_octets : list Z }.

Definition SALT_MAX_LEN : Z := 255.

Inductive Nsec3SaltError := Nsec3SaltErrorErr.

Definition salt_empty : Nsec3Salt := mkSalt [].

Definition salt_from_octets (octets : list Z) : result Nsec3Salt Nsec3SaltError :=
  if SALT_MAX_LEN <? zlen octets then Err Nsec3SaltErrorErr else Ok (mkSalt octets).

(** [u8::try_from] of a length, which panics if it fails. *)
Definition len_u8 (len : Z) : outcome Z := if len <? 2 ^ 8 then Ret len else Panic.

Definition salt_len (s : Nsec3Salt) : outcome Z := len_u8 (zlen (salt_octets s)).
Definition salt_compose_len (s : Nsec3Salt) : outcome Z := let! len := salt_len s in u16_add len 1.

(** Octets after their length, which the caller computes. *)
Definition compose_counted {B} `{OctetsBuilder B} (len : outcome Z) (s : list Z) : pusher B := fun b =>
  let! len := len in push_seq (push_compose (u8_compose len)) (push_compose (compose_slice s)) b.

Definition salt_compose {B} `{OctetsBuilder B} (s : Nsec3Salt) : pusher B := compose_counted (salt_len s) (salt_octets s).

Section ParseSalt.
Context {P : Type} `{OctetsParser P}.

Definition salt_parse (p : P) : result (Nsec3Salt * P) ParseError :=
  let? (len, p) := short (p_parse_u8 p) in
  let? (octets, p) := short (p_parse_octets p (Z.to_nat len)) in
  Ok (mkSalt octets, p).
End ParseSalt.

Definition DASH : Z := 45.

(** The converter of the salt: whether the first symbol was seen, and if so the
    converter for base 16 unless it was a dash. *)
Definition SaltConverter : Type := option (option HexConverter).

Definition salt_process_symbol (c : SaltConverter) (symbol : EntrySymbol)
    : outcome (SaltConverter * result (option (list Z)) StrError) :=
  let go (c : option HexConverter) :=
    match c with
    | None => Ret (Some c, Err (str_custom "illegal NSEC3 salt"))
    | Some base16 => let! (base16, r) := hex_process_symbol base16 symbol in Ret (Some (Some base16), r)
    end in
  match c with
  | None =>
      match symbol with
      | ESymbol s =>
          match symbol_into_char s with
          | Ok ch => if ch =? DASH then Ret (Some None, Ok None) else go (Some hex_converter_new)
          | Err _ => go (Some hex_converter_new)
          end
      | EndOfToken => go (Some hex_converter_new)
      end
  | Some c => go c
  end.

Definition salt_process_tail (c : SaltConverter) : outcome (SaltConverter * result (option (list Z)) StrError) :=
  match c with
  | Some (Some base16) => let! (base16, r) := hex_process_tail base16 in Ret (Some (Some base16), r)
  | _ => Ret (c, Ok None)
  end.

#[export] Instance salt_converter : ConvertSymbols SaltConverter := {|
  process_symbol := salt_process_symbol;
  process_tail := salt_process_tail
|}.

Definition salt_scan {S N} `{Scanner S N} (scanner : S) : outcome (S * result Nsec3Salt StrError) :=
  scan_then (s_convert_token (None : SaltConverter) scanner) (fun res => scan_ok (mkSalt res)).

Section SaltText.
Context {B : Type} `{OctetsBuilder B}.

Definition salt_from_str (s : list Z) : outcome (result Nsec3Salt DecodeError) :=
  if bool_decide (s = [DASH]) then Ret (Ok (mkSalt (freeze (builder_empty : B))))
  else let! r := hex_decode (B:=B) s in Ret (let? octets := r in Ok (mkSalt octets)).
End SaltText.

Definition salt_eq (a b : Nsec3Salt) : bool := bool_decide (salt_octets a = salt_octets b).
Definition salt_cmp (a b : Nsec3Salt) : comparison := iter_cmp (salt_octets a) (salt_octets b).
Definition salt_canonical_cmp (a b : Nsec3Salt) : comparison :=
  match zlen (salt_octets a) ?= zlen (salt_octets b) with Eq => iter_cmp (salt_octets a) (salt_octets b) | c => c end.

Definition salt_fmt (s : Nsec3Salt) : outcome (list Z) :=
  if bool_decide (salt_octets s = []) then Ret [DASH] else hex_display (salt_octets s).

(** ** The hash of the next owner *)

Record OwnerHash := mkOwnerHash { hash_octets : list Z }.

Definition HASH_MAX_LEN : Z := 255.

Inductive OwnerHashError := OwnerHashErrorErr.

Definition hash_from_octets (octets : list Z) : result OwnerHash OwnerHashError :=
  if HASH_MAX_LEN <? zlen octets then Err OwnerHashErrorErr else Ok (mkOwnerHash octets).

Definition hash_len (h : OwnerHash) : outcome Z := len_u8 (zlen (hash_octets h)).
Definition hash_compose_len (h : OwnerHash) : outcome Z := let! len := hash_len h in u16_add len 1.
Definition hash_compose {B} `{OctetsBuilder B} (h : OwnerHash) : pusher B := compose_counted (hash_len h) (hash_octets h).

Definition hash_parse {P} `{OctetsParser P} (p : P) : result (OwnerHash * P) ParseError :=
  let? (len, p) := short (p_parse_u8 p) in
  let? (octets, p) := short (p_parse_octets p (Z.to_nat len)) in
  Ok (mkOwnerHash octets, p).

Definition hash_scan {S N} `{Scanner S N} (scanner : S) : outcome (S * result OwnerHash StrError) :=
  scan_then (s_convert_token b32_converter_new scanner) (fun octets => scan_ok (mkOwnerHash octets)).

Section HashText.
Context {B : Type} `{OctetsBuilder B}.

Definition hash_from_str (s : list Z) : outcome (result OwnerHash DecodeError) :=
  let! r := b32_decode (B:=B) s in Ret (let? octets := r in Ok (mkOwnerHash octets)).
End HashText.

Definition hash_eq (a b : OwnerHash) : bool := bool_decide (hash_octets a = hash_octets b).
Definition hash_cmp (a b : OwnerHash) : comparison := iter_cmp (hash_octets a) (hash_octets b).
Definition hash_canonical_cmp (a b : OwnerHash) : comparison :=
  match zlen (hash_octets a) ?= zlen (hash_octets b) with Eq => iter_cmp (hash_octets a) (hash_octets b) | c => c end.

Definition hash_fmt (h : OwnerHash) : outcome (list Z) := b32_display (hash_octets h).

(** ** NSEC3PARAM *)

Record Nsec3param := mkNsec3param { np_hash_algorithm : Z; np_flags : Z; np_iterations : Z; np_salt : Nsec3Salt }.

Definition nsec3param_parse {P} `{OctetsParser P} (p : P) : outcome (result (Nsec3param * P) ParseError) :=
  let!? (hash_algorithm, p) := Ret (u8_parse p) in
  let!? (flags, p) := Ret (u8_parse p) in
  let!? (iterations, p) := Ret (u16_parse p) in
  let!? (salt, p) := Ret (salt_parse p) in
  Ret (Ok (mkNsec3param hash_algorithm flags iterations salt, p)).

Definition nsec3param_eq (a b : Nsec3param) : bool :=
  (np_hash_algorithm a =? np_hash_algorithm b) && (np_flags a =? np_flags b) && (np_iterations a =? np_iterations b) &&
  salt_eq (np_salt a) (np_salt b).

(** [partial_cmp] and [cmp]. *)
Definition nsec3param_cmp (a b : Nsec3param) : outcome comparison :=
  cmp_then (Ret (np_hash_algorithm a ?= np_hash_algorithm b)) (cmp_then (Ret (np_flags a ?= np_flags b))
    (cmp_then (Ret (np_iterations a ?= np_iterations b)) (Ret (salt_cmp (np_salt a) (np_salt b))))).

Definition nsec3param_canonical_cmp (a b : Nsec3param) : outcome comparison :=
  cmp_then (Ret (np_hash_algorithm a ?= np_hash_algorithm b)) (cmp_then (Ret (np_flags a ?= np_flags b))
    (cmp_then (Ret (np_iterations a ?= np_iterations b)) (Ret (salt_canonical_cmp (np_salt a) (np_salt b))))).

Definition nsec3param_rdlen (d : Nsec3param) : outcome (option Z) :=
  let! len := salt_compose_len (np_salt d) in let! len := u16_add 4 len in Ret (Some len).

Definition nsec3param_compose {B} `{OctetsBuilder B} (d : Nsec3param) : pusher B :=
  push_seq (push_compose (u8_compose (np_hash_algorithm d))) (push_seq (push_compose (u8_compose (np_flags d)))
    (push_seq (push_compose (u16_compose (np_iterations d))) (salt_compose (np_salt d)))).

#[export] Instance nsec3param_data {B} `{Composer B} : ComposeRecordData Nsec3param B := {|
  rd_rtype _ := RTYPE_NSEC3PARAM;
  rd_rdlen d _ := nsec3param_rdlen d;
  compose_rdata := nsec3param_compose;
  compose_canonical_rdata := nsec3param_compose
|}.

(** ** NSEC3 *)

Record Nsec3 := mkNsec3 {
  n3_hash_algorithm : Z; n3_flags : Z; n3_iterations : Z; n3_salt : Nsec3Salt; n3_next_owner : OwnerHash; n3_types : RtypeBitmap
}.

Definition nsec3_opt_out (d : Nsec3) : bool := negb (Z.land (n3_flags d) 1 =? 0).

Definition nsec3_parse {P} `{OctetsParser P} (p : P) : outcome (result (Nsec3 * P) ParseError) :=
  let!? (hash_algorithm, p) := Ret (u8_parse p) in
  let!? (flags, p) := Ret (u8_parse p) in
  let!? (iterations, p) := Ret (u16_parse p) in
  let!? (salt, p) := Ret (salt_parse p) in
  let!? (next_owner, p) := Ret (hash_parse p) in
  let!? (types, p) := bitmap_parse p in
  Ret (Ok (mkNsec3 hash_algorithm flags iterations salt next_owner types, p)).

Definition nsec3_eq (a b : Nsec3) : bool :=
  (n3_hash_algorithm a =? n3_hash_algorithm b) && (n3_flags a =? n3_flags b) && (n3_iterations a =? n3_iterations b) &&
  salt_eq (n3_salt a) (n3_salt b) && hash_eq (n3_next_owner a) (n3_next_owner b) && bitmap_eq (n3_types a) (n3_types b).

Definition nsec3_partial_cmp (a b : Nsec3) : outcome comparison :=
  cmp_then (Ret (n3_hash_algorithm a ?= n3_hash_algorithm b)) (cmp_then (Ret (n3_flags a ?= n3_flags b))
    (cmp_then (Ret (n3_iterations a ?= n3_iterations b)) (cmp_then (Ret (salt_cmp (n3_salt a) (n3_salt b)))
    (cmp_then (Ret (hash_cmp (n3_next_owner a) (n3_next_owner b))) (Ret (bitmap_cmp (n3_types a) (n3_types b))))))).

Definition nsec3_canonical_cmp (a b : Nsec3) : outcome comparison :=
  cmp_then (Ret (n3_hash_algorithm a ?= n3_hash_algorithm b)) (cmp_then (Ret (n3_flags a ?= n3_flags b))
    (cmp_then (Ret (n3_iterations a ?= n3_iterations b)) (cmp_then (Ret (salt_canonical_cmp (n3_salt a) (n3_salt b)))
    (cmp_then (Ret (hash_canonical_cmp (n3_next_owner a) (n3_next_owner b))) (Ret (bitmap_cmp (n3_types a) (n3_types b))))))).

(** [cmp] calls [canonical_cmp]. *)
Definition nsec3_cmp : Nsec3 -> Nsec3 -> outcome comparison := nsec3_canonical_cmp.

Definition nsec3_rdlen (d : Nsec3) : outcome (option Z) :=
  let! len := salt_compose_len (n3_salt d) in
  let! sum := u16_add 4 len in
  let! len := hash_compose_len (n3_next_owner d) in
  let! sum := u16_add sum len in
  let! len := bitmap_compose_len (n3_types d) in
  let! sum := u16_add sum len in
  Ret (Some sum).

Definition nsec3_compose {B} `{OctetsBuilder B} (d : Nsec3) : pusher B :=
  push_seq (push_compose (u8_compose (n3_hash_algorithm d))) (push_seq (push_compose (u8_compose (n3_flags d)))
    (push_seq (push_compose (u16_compose (n3_iterations d))) (push_seq (salt_compose (n3_salt d))
    (push_seq (hash_compose (n3_next_owner d)) (bitmap_compose (n3_types d)))))).

#[export] Instance nsec3_data {B} `{Composer B} : ComposeRecordData Nsec3 B := {|
  rd_rtype _ := RTYPE_NSEC3;
  rd_rdlen d _ := nsec3_rdlen d;
  compose_rdata := nsec3_compose;
  compose_canonical_rdata := nsec3_compose
|}.

(** ** ZONEMD *)

Inductive Scheme := SchemeReserved | SchemeSimple | SchemeUnassigned (n : Z) | SchemePrivate (n : Z).

Definition scheme_into_u8 (s : Scheme) : Z :=
  match s with SchemeReserved => 0 | SchemeSimple => 1 | SchemeUnassigned n => n | SchemePrivate n => n end.

Definition scheme_from_u8 (n : Z) : Scheme :=
  if (n =? 0) || (n =? 255) then SchemeReserved
  else if n =? 1 then SchemeSimple
  else if n <=? 239 then SchemeUnassigned n
  else SchemePrivate n.

(** The derived order: by variant, then by value. *)
Definition scheme_rank (s : Scheme) : Z :=
  match s with SchemeReserved => 0 | SchemeSimple => 1 | SchemeUnassigned _ => 2 | SchemePrivate _ => 3 end.

Definition scheme_cmp (a b : Scheme) : comparison :=
  match scheme_rank a ?= scheme_rank b with Eq => scheme_into_u8 a ?= scheme_into_u8 b | c => c end.

#[export] Instance scheme_eq_dec : EqDecision Scheme.
Proof. solve_decision. Defined.

Inductive Algorithm := AlgReserved | AlgSha384 | AlgSha512 | AlgUnassigned (n : Z) | AlgPrivate (n : Z).

Definition algorithm_into_u8 (a : Algorithm) : Z :=
  match a with AlgReserved => 0 | AlgSha384 => 1 | AlgSha512 => 2 | AlgUnassigned n => n | AlgPrivate n => n end.

Definition algorithm_from_u8 (n : Z) : Algorithm :=
  if (n =? 0) || (n =? 255) then AlgReserved
  else if n =? 1 then AlgSha384
  else if n =? 2 then AlgSha512
  else if n <=? 239 then AlgUnassigned n
  else AlgPrivate n.

Definition algorithm_rank (a : Algorithm) : Z :=
  match a with AlgReserved => 0 | AlgSha384 => 1 | AlgSha512 => 2 | AlgUnassigned _ => 3 | AlgPrivate _ => 4 end.

Definition algorithm_cmp (a b : Algorithm) : comparison :=
  match algorithm_rank a ?= algorithm_rank b with Eq => algorithm_into_u8 a ?= algorithm_into_u8 b | c => c end.

#[export] Instance algorithm_eq_dec : EqDecision Algorithm.
Proof. solve_decision. Defined.

Definition DIGEST_MIN_LEN : nat := 12.

Record Zonemd := mkZonemd { zm_serial : Serial; zm_scheme : Scheme; zm_algo : Algorithm; zm_digest : list Z }.

Definition zonemd_parse {P} `{OctetsParser P} (p : P) : outcome (result (Zonemd * P) ParseError) :=
  let!? (serial, p) := Ret (serial_parse p) in
  let!? (scheme, p) := Ret (u8_parse p) in
  let!? (algo, p) := Ret (u8_parse p) in
  let len := p_remaining p in
  if (len <? DIGEST_MIN_LEN)%nat then Ret (Err PShortInput)
  else
    let!? (digest, p) := Ret (short (p_parse_octets p len)) in
    Ret (Ok (mkZonemd serial (scheme_from_u8 scheme) (algorithm_from_u8 algo) digest, p)).

Definition zonemd_eq (a b : Zonemd) : bool :=
  (serial_into_int (zm_serial a) =? serial_into_int (zm_serial b)) && bool_decide (zm_scheme a = zm_scheme b) &&
  bool_decide (zm_algo a = zm_algo b) && bool_decide (zm_digest a = zm_digest b).

Definition zonemd_partial_cmp (a b : Zonemd) : outcome (option comparison) :=
  pcmp_then (serial_partial_cmp (zm_serial a) (zm_serial b)) (pcmp_then (Some (scheme_cmp (zm_scheme a) (zm_scheme b)))
    (pcmp_then (Some (algorithm_cmp (zm_algo a) (zm_algo b))) (Ret (Some (iter_cmp (zm_digest a) (zm_digest b)))))).

(** [canonical_cmp] and [cmp]. *)
Definition zonemd_canonical_cmp (a b : Zonemd) : outcome comparison :=
  cmp_then (Ret (serial_into_int (zm_serial a) ?= serial_into_int (zm_serial b)))
    (cmp_then (Ret (scheme_cmp (zm_scheme a) (zm_scheme b)))
    (cmp_then (Ret (algorithm_cmp (zm_algo a) (zm_algo b))) (Ret (iter_cmp (zm_digest a) (zm_digest b))))).

Definition zonemd_rdlen (d : Zonemd) : outcome (option Z) := let! len := len_u16 (4 + 1 + 1 + zlen (zm_digest d)) in Ret (Some len).

Definition zonemd_compose {B} `{OctetsBuilder B} (d : Zonemd) : pusher B :=
  push_seq (push_compose (compose_slice (to_be_bytes 4 (serial_into_int (zm_serial d)))))
    (push_seq (push_compose (compose_slice [scheme_into_u8 (zm_scheme d)]))
    (push_seq (push_compose (compose_slice [algorithm_into_u8 (zm_algo d)])) (push_compose (compose_slice (zm_digest d))))).

#[export] Instance zonemd_data {B} `{Composer B} : ComposeRecordData Zonemd B := {|
  rd_rtype _ := RTYPE_ZONEMD;
  rd_rdlen d _ := zonemd_rdlen d;
  compose_rdata := zonemd_compose;
  compose_canonical_rdata := zonemd_compose
|}.

(** ** Salts and hashes as text *)

(** Both return, and the results are the same salt or both errors. *)
Definition same_value {T} (a : outcome (result T DecodeError)) (b : outcome (IterScanner * result T StrError)) : Prop :=
  exists r r', a = Ret r /\ b = Ret ([], r') /\ match r, r' with Ok s, Ok s' => s = s' | Err _, Err _ => True | _, _ => False end.

Lemma same_octets_value {T} (mk : list Z -> T) a b :
  same_octets a b ->
  same_value (let! r := a in Ret (let? octets := r in Ok (mk octets)))
    (scan_then (let! r := b in Ret ([] : IterScanner, r)) (fun octets => scan_ok (mk octets))).
Proof.
  intros (r & r' & -> & -> & Hr). unfold scan_then, scan_ok. cbn. destruct r as [s|e], r' as [s'|e']; try done.
  - subst. by eexists _, _.
  - by eexists _, _.
Qed.

Section TextAgree.
Context {B : Type} `{OctetsBuilderOk B} `{!InfallibleBuilder B}.

(** Past the first symbol the converter of the salt is that for base 16. *)
Lemma salt_loop_hex syms (c : HexConverter) (res : B) :
  convert_loop syms (Some (Some c) : SaltConverter) res =
  (let! r := convert_loop syms c res in Ret (let? (c, res) := r in Ok (Some (Some c) : SaltConverter, res))).
Proof.
  revert c res; induction syms as [|sym syms IH]; intros c res; [done|]. cbn [convert_loop]. cbn [process_symbol salt_converter hex_converter].
  unfold salt_process_symbol. destruct (hex_process_symbol c sym) as [[c' r]|]; [|done]. cbv beta iota.
  destruct (let? data := r in append_data data res) as [res'|e]; [apply IH|done].
Qed.

Lemma salt_convert_hex syms (c : HexConverter) (res : B) :
  convert_from syms (Some (Some c) : SaltConverter) res = convert_from syms c res.
Proof.
  unfold convert_from. rewrite salt_loop_hex. destruct (convert_loop syms c res) as [[[c' res']|e]|]; [|done|done].
  cbn [process_tail salt_converter hex_converter salt_process_tail]. by destruct (hex_process_tail c') as [[c'' r]|].
Qed.

(** Starting with a dash. *)
Lemma salt_convert_dash chars (res : B) :
  exists r, convert_from (plain_symbols (DASH :: chars)) (None : SaltConverter) res = Ret r /\
    match chars with [] => r = Ok (as_ref res) | _ => exists e, r = Err e end.
Proof using All.
  destruct chars as [|ch chars]; eexists; (split; [reflexivity|]); cbn; [by rewrite freeze_as_ref|by eexists].
Qed.

Lemma salt_convert_first ch chars (res : B) :
  ch <> DASH -> convert_from (plain_symbols (ch :: chars)) (None : SaltConverter) res =
    convert_from (plain_symbols (ch :: chars)) hex_converter_new res.
Proof.
  intros Hch. rewrite <- salt_convert_hex. unfold convert_from. cbn [plain_symbols map convert_loop process_symbol salt_converter salt_process_symbol].
  cbn [symbol_into_char]. by destruct (Z.eqb_spec ch DASH).
Qed.

Lemma hex_decode_dash chars : exists r, hex_decode (B:=B) (DASH :: chars) = Ret (Err r).
Proof using All.
  unfold hex_decode, hex_new. rewrite hex_loop_spec. exists (IllegalChar DASH). done.
Qed.

Lemma nsec3_text_agrees chars :
  Forall (fun ch => ch <> 92) chars ->
  same_value (salt_from_str (B:=B) chars) (salt_scan (H:=iter_scanner (B:=B) true) [chars]) /\
  same_value (hash_from_str (B:=B) chars) (hash_scan (H:=iter_scanner (B:=B) true) [chars]).
Proof using All.
  intros Hc. unfold salt_from_str, salt_scan, hash_from_str, hash_scan. cbn [s_convert_token iter_scanner]. unfold convert_token. cbn [with_token].
  rewrite plain_token, map_map by done. fold (plain_symbols chars). split; [|apply same_octets_value, b32_agrees].
  case_bool_decide as Hd; [subst chars|].
  - unfold convert_symbols. destruct (salt_convert_dash [] (builder_empty : B)) as (r & -> & ->). eexists _, _; split_and!; [done..|].
    by rewrite freeze_as_ref.
  - destruct chars as [|ch chars].
    { eexists _, _. unfold hex_decode, hex_new. rewrite hex_loop_spec. cbn. rewrite as_ref_empty. split_and!; [done..|]. f_equal.
      by rewrite freeze_as_ref, as_ref_empty. }
    unfold convert_symbols. destruct (decide (ch = DASH)) as [->|Hne].
    + destruct (salt_convert_dash chars (builder_empty : B)) as (r & -> & Hr). destruct (hex_decode_dash chars) as [e ->].
      destruct chars as [|ch' chars]; [done|]. destruct Hr as [e' ->]. by eexists _, _.
    + rewrite salt_convert_first by done. apply same_octets_value, hex_agrees.
Qed.

Lemma tbl_write_in tbl idx chars : tbl_write tbl idx = Ret chars -> Forall (fun ch => ch ∈ tbl) chars.
Proof.
  revert chars; induction idx as [|i idx IH]; intros chars; cbn; [by intros [= <-]|]. unfold tbl_get.
  destruct (tbl !! Z.to_nat i) as [c|] eqn:E; [|done]. destruct (tbl_write tbl idx) as [cs|]; [|done]. intros [= <-].
  constructor; [by apply list_elem_of_lookup_2 in E|by apply IH].
Qed.

Lemma b32_display_plain s chars : b32_display s = Ret chars -> Forall (fun ch => ch <> 92) chars.
Proof.
  intros E. apply tbl_write_in in E. eapply Forall_impl; [exact E|]. intros ch Hch ->.
  apply list_elem_of_In in Hch. cbn in Hch. by repeat (destruct Hch as [Hch|Hch]; [lia|]).
Qed.

Lemma hex_good_plain chars : hex_bad chars = None -> Forall (fun ch => ch <> 92) chars.
Proof.
  unfold hex_bad. intros Hb. apply list.Forall_forall. intros ch Hch ->. apply list_elem_of_In in Hch.
  by apply (find_none _ _ Hb) in Hch.
Qed.

Lemma salt_text_roundtrip s :
  wf_octets (salt_octets s) -> exists chars, salt_fmt s = Ret chars /\ salt_from_str (B:=B) chars = Ret (Ok s) /\
    Forall (fun ch => ch <> 92) chars.
Proof using All.
  destruct s as [s]. cbn [salt_octets]. intros Hs. unfold salt_fmt. cbn [salt_octets]. case_bool_decide as Hn.
  - subst. exists [DASH]. split_and!; [done| |by_decide]. unfold salt_from_str.
    rewrite bool_decide_eq_true_2 by done. by rewrite freeze_as_ref, as_ref_empty.
  - destruct (base16_roundtrip s Hs) as (chars & Ed & Eb & Eo). exists chars. split_and!; [done| |by apply hex_good_plain].
    unfold salt_from_str. case_bool_decide as Hd.
    + subst chars. unfold hex_bad in Eb. done.
    + unfold hex_decode, hex_new. rewrite hex_loop_spec, as_ref_empty, Eb, Eo. done.
Qed.

Lemma same_value_iff {T} (a : outcome (result T DecodeError)) b x : same_value a b -> a = Ret (Ok x) <-> b = Ret ([], Ok x).
Proof. intros (r & r' & -> & -> & Hr). destruct r as [s|e], r' as [s'|e']; try done. subst. split; congruence. Qed.

(** NSEC3 salts and owner hashes as text, of values of at most 255 octets: reading
    a text without escapes with [FromStr] and scanning it as the only token of an
    [IterScanner] never panic, and one gives a value exactly if the other gives the
    same; and every value is read back, in both ways, from the text it is displayed
    as, the dash of the empty salt included.  (C25) *)
Theorem nsec3_text_correct :
  (forall chars, Forall (fun ch => ch <> 92) chars ->
     salt_from_str (B:=B) chars <> Panic /\ salt_scan (H:=iter_scanner (B:=B) true) [chars] <> Panic /\
     hash_from_str (B:=B) chars <> Panic /\ hash_scan (H:=iter_scanner (B:=B) true) [chars] <> Panic /\
     (forall s, zlen (salt_octets s) <= 255 ->
        salt_from_str (B:=B) chars = Ret (Ok s) <-> salt_scan (H:=iter_scanner (B:=B) true) [chars] = Ret ([], Ok s)) /\
     (forall h, zlen (hash_octets h) <= 255 ->
        hash_from_str (B:=B) chars = Ret (Ok h) <-> hash_scan (H:=iter_scanner (B:=B) true) [chars] = Ret ([], Ok h))) /\
  (forall s, wf_octets (salt_octets s) -> zlen (salt_octets s) <= 255 -> exists chars, salt_fmt s = Ret chars /\
     salt_from_str (B:=B) chars = Ret (Ok s) /\ salt_scan (H:=iter_scanner (B:=B) true) [chars] = Ret ([], Ok s)) /\
  (forall h, wf_octets (hash_octets h) -> zlen (hash_octets h) <= 255 -> exists chars, hash_fmt h = Ret chars /\
     hash_from_str (B:=B) chars = Ret (Ok h) /\ hash_scan (H:=iter_scanner (B:=B) true) [chars] = Ret ([], Ok h)).
Proof using All.
  split_and!.
  - intros chars Hc. destruct (nsec3_text_agrees chars Hc) as [Hs Hh].
    split_and!; [| | | |intros s _; by apply same_value_iff|intros h _; by apply same_value_iff];
      [destruct Hs as (? & ? & -> & _)|destruct Hs as (? & ? & _ & -> & _)|destruct Hh as (? & ? & -> & _)|destruct Hh as (? & ? & _ & -> & _)]; done.
  - intros s Hs _. destruct (salt_text_roundtrip s Hs) as (chars & Ef & Es & Hc). exists chars. split_and!; [done|done|].
    eapply same_value_iff; [by apply nsec3_text_agrees|done].
  - intros [h] Hh _. cbn [hash_octets] in Hh. destruct (base32_roundtrip (B:=B) h Hh) as (chars & Ed & Eh).
    assert (Eh' : hash_from_str (B:=B) chars = Ret (Ok (mkOwnerHash h))) by (unfold hash_from_str; by rewrite Eh).
    exists chars. split_and!; [done|done|]. eapply same_value_iff; [|exact Eh'].
    by apply nsec3_text_agrees, (b32_display_plain h).
Qed.
End TextAgree.

Lemma nsec3_text_correct_witness :
  salt_scan (H:=iter_scanner (B:=list Z) true) [[65; 97; 66; 98]] = Ret ([], Ok (mkSalt [170; 187])).
Proof.
  destruct (nsec3_text_correct (B:=list Z)) as [H _]. destruct (H [65; 97; 66; 98]) as (_ & _ & _ & _ & Hs & _); [by_decide|].
  apply Hs; [by_decide|]. by vm_compute.
Defined.

(** The readers of text do not check the length, which composing then cannot
    encode. *)
Lemma salt_too_long :
  exists s, salt_from_str (B:=list Z) (replicate 512 48) = Ret (Ok s) /\ salt_scan (H:=iter_scanner (B:=list Z) true) [replicate 512 48] = Ret ([], Ok s) /\
    salt_compose (B:=list Z) s [] = Panic /\ salt_compose_len s = Panic.
Proof. exists (mkSalt (replicate 256 0)). by vm_compute. Qed.

Lemma hash_too_long :
  exists h, hash_from_str (B:=list Z) (replicate 410 48) = Ret (Ok h) /\ hash_compose (B:=list Z) h [] = Panic.
Proof. exists (mkOwnerHash (replicate 256 0)). by vm_compute. Qed.

(** ** Parsing *)

(** Octets with their length in front, as in character strings. *)
Definition salt_at : layout Nsec3Salt := lay_map (fun c => mkSalt (cs_octets c)) charstr_at.
Definition hash_at : layout OwnerHash := lay_map (fun c => mkOwnerHash (cs_octets c)) charstr_at.

Definition nsec3param_at : layout Nsec3param :=
  lay_seq (be_at 1) (fun h => lay_seq (be_at 1) (fun f => lay_seq (be_at 2) (fun i => lay_seq salt_at (fun s =>
  lay_ret (mkNsec3param h f i s))))).

Definition nsec3_at : layout Nsec3 :=
  lay_seq (be_at 1) (fun h => lay_seq (be_at 1) (fun f => lay_seq (be_at 2) (fun i => lay_seq salt_at (fun s =>
  lay_seq hash_at (fun o => lay_seq bitmap_at (fun b => lay_ret (mkNsec3 h f i s o b))))))).

(** The digest, which has a minimum length. *)
Definition digest_at : layout (list Z) := fun s pos x e => rest_at s pos x e /\ (DIGEST_MIN_LEN <= length x)%nat.

(** The registries of RFC 8976, sections 5.2 and 5.3. *)
Definition registered_scheme (n : Z) : Scheme :=
  if decide (n = 0 \/ n = 255) then SchemeReserved
  else if decide (n = 1) then SchemeSimple
  else if decide (240 <= n) then SchemePrivate n
  else SchemeUnassigned n.

Definition registered_algorithm (n : Z) : Algorithm :=
  if decide (n = 0 \/ n = 255) then AlgReserved
  else if decide (n = 1) then AlgSha384
  else if decide (n = 2) then AlgSha512
  else if decide (240 <= n) then AlgPrivate n
  else AlgUnassigned n.

Definition zonemd_at : layout Zonemd :=
  lay_seq serial_at (fun n => lay_seq (be_at 1) (fun c => lay_seq (be_at 1) (fun a => lay_seq digest_at (fun d =>
  lay_ret (mkZonemd n (registered_scheme c) (registered_algorithm a) d))))).

Lemma scheme_from_registered n : scheme_from_u8 n = registered_scheme n.
Proof.
  unfold scheme_from_u8, registered_scheme. destruct (Z.eqb_spec n 0), (Z.eqb_spec n 255), (Z.eqb_spec n 1), (Z.leb_spec n 239);
    subst; simpl; repeat case_decide; try done; lia.
Qed.

Lemma algorithm_from_registered n : algorithm_from_u8 n = registered_algorithm n.
Proof.
  unfold algorithm_from_u8, registered_algorithm. destruct (Z.eqb_spec n 0), (Z.eqb_spec n 255), (Z.eqb_spec n 1), (Z.eqb_spec n 2), (Z.leb_spec n 239);
    subst; simpl; repeat case_decide; try done; lia.
Qed.

Section Nsec3Finds.
Context {P : Type} `{OctetsParserOk P}.

Lemma Finds_salt : Finds (P:=P) (fun p => Ret (salt_parse p)) salt_at eq.
Proof.
  eapply Finds_ext; [|eapply (Finds_map _ (fun c => mkSalt (cs_octets c))); [apply Finds_charstr|by intros ? ? ->]].
  intros p. unfold salt_parse, cs_parse. destruct (short (p_parse_u8 p)) as [[n p1]|]; [|done].
  by destruct (short (p_parse_octets p1 (Z.to_nat n))) as [[s p2]|].
Qed.

Lemma Finds_hash : Finds (P:=P) (fun p => Ret (hash_parse p)) hash_at eq.
Proof.
  eapply Finds_ext; [|eapply (Finds_map _ (fun c => mkOwnerHash (cs_octets c))); [apply Finds_charstr|by intros ? ? ->]].
  intros p. unfold hash_parse, cs_parse. destruct (short (p_parse_u8 p)) as [[n p1]|]; [|done].
  by destruct (short (p_parse_octets p1 (Z.to_nat n))) as [[s p2]|].
Qed.

Definition digest_parse (p : P) : outcome (result (list Z * P) ParseError) :=
  if (p_remaining p <? DIGEST_MIN_LEN)%nat then Ret (Err PShortInput) else Ret (short (p_parse_octets p (p_remaining p))).

Lemma Finds_digest : Finds (P:=P) digest_parse digest_at eq.
Proof.
  intros p Hp. destruct (Finds_rest (P:=P) p Hp) as (r & Hr & Hs & Hc). unfold digest_parse. pose proof (p_bounds p) as Hb.
  assert (Hl : length (drop (p_pos p) (visible p)) = p_remaining p).
  { rewrite length_drop, length_visible. unfold p_remaining. lia. }
  destruct (Nat.ltb_spec (p_remaining p) DIGEST_MIN_LEN) as [Hlt|Hge].
  - eexists; split; [done|]. split; [done|]. intros x e [(_ & -> & _) Hd]. lia.
  - rewrite Hr. exists r. split; [done|]. split.
    + intros a p' E. destruct (Hs a p' E) as (x & e & Hx & -> & Hm). exists x, e. split_and!; [|done|done]. split; [done|].
      destruct Hx as (_ & -> & _). lia.
    + intros x e [Hx _]. by apply Hc.
Qed.

Ltac finds_nsec3 :=
  repeat (first [eapply Finds_seq|eapply Finds_seq_ret];
    [first [apply Finds_salt | apply Finds_hash | apply bitmap_finds | apply Finds_digest | finds_field]|intros ? ? ?; subst; cbv beta]);
  try (apply Finds_ret; try solve [reflexivity | assumption | by split_and!]).

Lemma nsec3param_finds : Finds (P:=P) nsec3param_parse nsec3param_at eq.
Proof. unfold nsec3param_parse. finds_nsec3. Qed.

Lemma nsec3_finds : Finds (P:=P) nsec3_parse nsec3_at eq.
Proof. unfold nsec3_parse. finds_nsec3. Qed.

Lemma zonemd_finds : Finds (P:=P) zonemd_parse zonemd_at eq.
Proof.
  eapply (Finds_ext _ (fun p =>
    let!? (n, p) := Ret (serial_parse p) in let!? (c, p) := Ret (u8_parse p) in let!? (a, p) := Ret (u8_parse p) in
    let!? (d, p) := digest_parse p in Ret (Ok (mkZonemd n (registered_scheme c) (registered_algorithm a) d, p)))); [|finds_nsec3].
  intros p. unfold zonemd_parse, digest_parse. destruct (serial_parse p) as [[n p1]|]; [|done].
  destruct (u8_parse p1) as [[c p2]|]; [|done]. destruct (u8_parse p2) as [[a p3]|]; [|done].
  rewrite <- scheme_from_registered, <- algorithm_from_registered. by destruct (_ <? _)%nat.
Qed.
End Nsec3Finds.

(** ** The wire format *)

Definition counted (s : list Z) : list Z := cs_wire (mkCharStr s).
Definition counted_ok (s : list Z) : Prop := cs_wf (mkCharStr s).

Definition nsec3param_wire (d : Nsec3param) : list Z :=
  [np_hash_algorithm d] ++ [np_flags d] ++ to_be_bytes 2 (np_iterations d) ++ counted (salt_octets (np_salt d)).
Definition nsec3_wire (d : Nsec3) : list Z :=
  [n3_hash_algorithm d] ++ [n3_flags d] ++ to_be_bytes 2 (n3_iterations d) ++ counted (salt_octets (n3_salt d)) ++
  counted (hash_octets (n3_next_owner d)) ++ bitmap_octets (n3_types d).
Definition zonemd_wire (d : Zonemd) : list Z :=
  to_be_bytes 4 (serial_into_int (zm_serial d)) ++ [scheme_into_u8 (zm_scheme d)] ++ [algorithm_into_u8 (zm_algo d)] ++ zm_digest d.

Definition nsec3param_ok (d : Nsec3param) : Prop :=
  is_u8 (np_hash_algorithm d) /\ is_u8 (np_flags d) /\ is_u16 (np_iterations d) /\ counted_ok (salt_octets (np_salt d)).
Definition nsec3_ok (d : Nsec3) : Prop :=
  is_u8 (n3_hash_algorithm d) /\ is_u8 (n3_flags d) /\ is_u16 (n3_iterations d) /\ counted_ok (salt_octets (n3_salt d)) /\
  counted_ok (hash_octets (n3_next_owner d)) /\ bitmap_ok (n3_types d) /\ zlen (nsec3_wire d) <= 65535.

(** The scheme and the algorithm are values that [From<u8>] makes. *)
Definition zonemd_ok (d : Zonemd) : Prop :=
  wf_serial (zm_serial d) /\
  (exists c, is_u8 c /\ zm_scheme d = scheme_from_u8 c) /\ (exists a, is_u8 a /\ zm_algo d = algorithm_from_u8 a) /\
  wf_octets (zm_digest d) /\ (DIGEST_MIN_LEN <= length (zm_digest d))%nat /\ zlen (zm_digest d) <= 65529.

Lemma scheme_from_into c : is_u8 c -> scheme_from_u8 (scheme_into_u8 (scheme_from_u8 c)) = scheme_from_u8 c /\ is_u8 (scheme_into_u8 (scheme_from_u8 c)).
Proof. revert c. apply (forall_octets _). by vm_compute. Qed.

Lemma algorithm_from_into a :
  is_u8 a -> algorithm_from_u8 (algorithm_into_u8 (algorithm_from_u8 a)) = algorithm_from_u8 a /\ is_u8 (algorithm_into_u8 (algorithm_from_u8 a)).
Proof. revert a. apply (forall_octets _). by vm_compute. Qed.

(** The derived orders are those of the octets. *)
Lemma scheme_order a b : is_u8 a -> is_u8 b ->
  scheme_cmp (scheme_from_u8 a) (scheme_from_u8 b) = (scheme_into_u8 (scheme_from_u8 a) ?= scheme_into_u8 (scheme_from_u8 b)).
Proof.
  intros Ha Hb. unfold scheme_cmp, scheme_from_u8. unfold is_u8 in *.
  repeat match goal with |- context [?x =? ?y] => destruct (Z.eqb_spec x y) | |- context [?x <=? ?y] => destruct (Z.leb_spec x y) end; subst;
    cbn [orb scheme_rank algorithm_rank scheme_into_u8 algorithm_into_u8]; try done; cbv beta iota;
    try (symmetry; first [apply Z.compare_lt_iff|apply Z.compare_gt_iff]; lia).
Qed.

Lemma algorithm_order a b : is_u8 a -> is_u8 b ->
  algorithm_cmp (algorithm_from_u8 a) (algorithm_from_u8 b) = (algorithm_into_u8 (algorithm_from_u8 a) ?= algorithm_into_u8 (algorithm_from_u8 b)).
Proof.
  intros Ha Hb. unfold algorithm_cmp, algorithm_from_u8. unfold is_u8 in *.
  repeat match goal with |- context [?x =? ?y] => destruct (Z.eqb_spec x y) | |- context [?x <=? ?y] => destruct (Z.leb_spec x y) end; subst;
    cbn [orb scheme_rank algorithm_rank scheme_into_u8 algorithm_into_u8]; try done; cbv beta iota;
    try (symmetry; first [apply Z.compare_lt_iff|apply Z.compare_gt_iff]; lia).
Qed.

Lemma Lays_salt s : counted_ok (salt_octets s) -> Lays salt_at s (counted (salt_octets s)).
Proof. destruct s as [s]. intros Hs. by apply (Lays_map (fun c => mkSalt (cs_octets c)) _ (mkCharStr s)), Lays_charstr. Qed.

Lemma Lays_hash h : counted_ok (hash_octets h) -> Lays hash_at h (counted (hash_octets h)).
Proof. destruct h as [h]. intros Hh. by apply (Lays_map (fun c => mkOwnerHash (cs_octets c)) _ (mkCharStr h)), Lays_charstr. Qed.

Lemma nsec3param_lays d : nsec3param_ok d -> LaysEnd nsec3param_at d (nsec3param_wire d).
Proof.
  destruct d as [h f i s]. intros (Hh & Hf & Hi & Hs). do 2 (eapply LaysEnd_seq; [by apply Lays_u8|]).
  eapply LaysEnd_seq; [by apply Lays_u16|]. apply (LaysEnd_last salt_at s _ (mkNsec3param h f i)). by apply Lays_salt.
Qed.

Lemma nsec3_lays d : nsec3_ok d -> LaysEnd nsec3_at d (nsec3_wire d).
Proof.
  destruct d as [h f i s o b]. intros (Hh & Hf & Hi & Hs & Ho & Hb & _). do 2 (eapply LaysEnd_seq; [by apply Lays_u8|]).
  eapply LaysEnd_seq; [by apply Lays_u16|]. eapply LaysEnd_seq; [by apply Lays_salt|]. eapply LaysEnd_seq; [by apply Lays_hash|].
  intros t pos Hd Hp. exists b, (length t). split; [by apply (LaysEnd_bitmap b Hb)|]. done.
Qed.

Lemma zonemd_lays d : zonemd_ok d -> LaysEnd zonemd_at d (zonemd_wire d).
Proof.
  destruct d as [n ? ? s]. intros (Hn & (c & Hc & Ec) & (a & Ha & Ea) & _ & Hl & _).
  cbn [zm_serial zm_scheme zm_algo zm_digest] in *. subst. destruct (scheme_from_into c Hc) as [Ec Hc'], (algorithm_from_into a Ha) as [Ea Ha'].
  unfold zonemd_wire; cbn [zm_serial zm_scheme zm_algo zm_digest].
  eapply LaysEnd_seq; [by apply Lays_serial|]. do 2 (eapply LaysEnd_seq; [by apply Lays_u8|]).
  rewrite <- scheme_from_registered, <- algorithm_from_registered, Ec, Ea.
  intros t pos Hd Hp. exists s, (length t). split; [|done]. split; [|done]. by split_and!.
Qed.

(** ** What is composed *)

Definition nsec3param_is (d x : Nsec3param) : Prop := d = x /\ nsec3param_ok x.
Definition nsec3_is (d x : Nsec3) : Prop := d = x /\ nsec3_ok x.
Definition zonemd_is (d x : Zonemd) : Prop := d = x /\ zonemd_ok x.

Lemma counted_len s : counted_ok s -> len_u8 (zlen s) = Ret (zlen s).
Proof.
  intros [Hl _]. unfold cs_len, CHARSTR_MAX_LEN in Hl. cbn [cs_octets] in Hl. unfold len_u8, zlen in *.
  by destruct (Z.ltb_spec (Z.of_nat (length s)) (2 ^ 8)); [|lia].
Qed.

Lemma zlen_counted s : zlen (counted s) = zlen s + 1.
Proof. unfold counted, cs_wire, zlen. cbn [cs_octets length]. lia. Qed.

Lemma counted_compose_len s : counted_ok s -> (let! len := len_u8 (zlen s) in u16_add len 1) = Ret (zlen (counted s)).
Proof.
  intros Hs. rewrite counted_len by done. rewrite zlen_counted. destruct Hs as [Hl _]. unfold cs_len, CHARSTR_MAX_LEN in Hl.
  cbn [cs_octets] in Hl. apply u16_add_small. unfold zlen. lia.
Qed.

Section Nsec3Composed.
Context {B : Type} `{OctetsBuilderOk B} `{!Composer B}.

Lemma Writes_counted s : counted_ok s -> Writes (B:=B) (compose_counted (len_u8 (zlen s)) s) (counted s).
Proof.
  intros Hs. unfold compose_counted. rewrite counted_len by done. unfold counted, cs_wire. cbn [cs_octets].
  apply (Writes_seq (push_compose (u8_compose (zlen s))) _ [zlen s] s); apply Writes_slice.
Qed.

#[export] Instance nsec3param_data_ok : RecordDataOk Nsec3param Nsec3param B nsec3param_is nsec3param_wire nsec3param_wire.
Proof.
  split; [intros d x [<- (_ & _ & _ & Hs)]; unfold nsec3param_wire; cbn [compose_rdata compose_canonical_rdata nsec3param_data];
    unfold nsec3param_compose; (do 3 (apply Writes_seq; [apply Writes_slice|])); by apply Writes_counted..| |done].
  intros d x c [<- (_ & _ & _ & Hs)] Hl. left. cbn [rd_rdlen nsec3param_data]. unfold nsec3param_rdlen, salt_compose_len, salt_len, nsec3param_wire in *.
  rewrite counted_compose_len by done. rewrite !zlen_app, zlen_to_be_bytes, !zlen_one in *. rewrite u16_add_small by lia. do 2 f_equal. lia.
Qed.

#[export] Instance nsec3_data_ok : RecordDataOk Nsec3 Nsec3 B nsec3_is nsec3_wire nsec3_wire.
Proof.
  split; [intros d x [<- (_ & _ & _ & Hs & Ho & _)]; unfold nsec3_wire; cbn [compose_rdata compose_canonical_rdata nsec3_data];
    unfold nsec3_compose; (do 3 (apply Writes_seq; [apply Writes_slice|])); (do 2 (apply Writes_seq; [by apply Writes_counted|]));
    apply Writes_slice..| |done].
  intros d x c [<- (_ & _ & _ & Hs & Ho & _)] Hl. left. cbn [rd_rdlen nsec3_data].
  unfold nsec3_rdlen, salt_compose_len, salt_len, hash_compose_len, hash_len, bitmap_compose_len, nsec3_wire in *.
  rewrite !counted_compose_len by done. rewrite !zlen_app, zlen_to_be_bytes, !zlen_one in *.
  pose proof (zlen_nonneg (counted (salt_octets (n3_salt d)))). pose proof (zlen_nonneg (counted (hash_octets (n3_next_owner d)))).
  pose proof (zlen_nonneg (bitmap_octets (n3_types d))). rewrite u16_add_small by lia. cbv beta iota. rewrite u16_add_small by lia. cbv beta iota.
  destruct (Z.ltb_spec (zlen (bitmap_octets (n3_types d))) (2 ^ 16)); [|lia]. rewrite u16_add_small by lia. do 2 f_equal. lia.
Qed.

#[export] Instance zonemd_data_ok : RecordDataOk Zonemd Zonemd B zonemd_is zonemd_wire zonemd_wire.
Proof.
  split; [intros d x [<- _]; unfold zonemd_wire; cbn [compose_rdata compose_canonical_rdata zonemd_data]; unfold zonemd_compose; writes..| |done].
  intros d x c [<- _] Hl. left. cbn [rd_rdlen zonemd_data]. unfold zonemd_rdlen, zonemd_wire in *.
  rewrite !zlen_app, zlen_to_be_bytes, !zlen_one in *. rewrite len_u16_small by lia. do 2 f_equal. lia.
Qed.
End Nsec3Composed.

(** ** The canonical order *)

Lemma salt_order a b : salt_canonical_cmp a b = iter_cmp (counted (salt_octets a)) (counted (salt_octets b)).
Proof. unfold salt_canonical_cmp, counted, cs_wire. cbn [cs_octets iter_cmp]. by destruct (zlen _ ?= zlen _). Qed.

Lemma hash_order a b : hash_canonical_cmp a b = iter_cmp (counted (hash_octets a)) (counted (hash_octets b)).
Proof. unfold hash_canonical_cmp, counted, cs_wire. cbn [cs_octets iter_cmp]. by destruct (zlen _ ?= zlen _). Qed.

Lemma counted_apart a b : apart (counted a) (counted b).
Proof. apply charstr_apart. Qed.

Lemma nsec3param_order (a b : Nsec3param) :
  nsec3param_ok a -> nsec3param_ok b -> nsec3param_canonical_cmp a b = Ret (iter_cmp (nsec3param_wire a) (nsec3param_wire b)).
Proof. intros (_ & _ & Hi & _) (_ & _ & Hi' & _). unfold nsec3param_canonical_cmp, nsec3param_wire. rewrite salt_order. orders. Qed.

Lemma nsec3_order (a b : Nsec3) : nsec3_ok a -> nsec3_ok b -> nsec3_canonical_cmp a b = Ret (iter_cmp (nsec3_wire a) (nsec3_wire b)).
Proof.
  intros (_ & _ & Hi & _) (_ & _ & Hi' & _). unfold nsec3_canonical_cmp, nsec3_wire. rewrite salt_order, hash_order. orders.
  do 2 (apply cmp_then_fields; [done|apply counted_apart|]). done.
Qed.

Lemma zonemd_order (a b : Zonemd) :
  zonemd_ok a -> zonemd_ok b -> zonemd_canonical_cmp a b = Ret (iter_cmp (zonemd_wire a) (zonemd_wire b)).
Proof.
  intros (Hn & (c & Hc & Ec) & (g & Hg & Eg) & _) (Hn' & (c' & Hc' & Ec') & (g' & Hg' & Eg') & _).
  unfold zonemd_canonical_cmp, zonemd_wire. rewrite Ec, Ec', Eg, Eg', scheme_order, algorithm_order by done. orders.
Qed.

(** The orders of [PartialOrd] and [Ord] differ. *)
Lemma nsec3_orders_differ :
  let a := mkNsec3 1 0 0 (mkSalt [2]) (mkOwnerHash []) (mkBitmap []) in
  let b := mkNsec3 1 0 0 (mkSalt [1; 1]) (mkOwnerHash []) (mkBitmap []) in
  nsec3_partial_cmp a b = Ret Gt /\ nsec3_cmp a b = Ret Lt.
Proof. by vm_compute. Qed.

(** A reserved scheme or algorithm is written as zero, whatever it was. *)
Lemma zonemd_reserved_lost :
  scheme_into_u8 (scheme_from_u8 255) = 0 /\ algorithm_into_u8 (algorithm_from_u8 255) = 0.
Proof. done. Qed.
