(* ===== verification/ZoneData.v ===== *)
(** * Zone record data

    The macro [rdata_types!] of [src/rdata/macros.rs], applied in
    [src/rdata/mod.rs], makes one type of all the record data types that may
    appear in zone files.  Its methods choose by record type or by variant; they
    are verified against the layouts of the types. *)

From S2P Require Import Prelude Octets Serial Symbol BaseCodec CharStr Label Traits Name ParsedName Header Compressor MessageBuilder Message Record Scanner Ttl Layout Rdata Bitmap Txt Dnssec Nsec3.
From stdpp Require Import strings.
#[local] Open Scope Z_scope.

(** ** The type *)

Inductive ZoneRecordData (N : Type) :=
| ZoneA (d : A)
| ZoneCname (d : NameData N)
| ZoneHinfo (d : Hinfo)
| ZoneMb (d : NameData N)
| ZoneMd (d : NameData N)
| ZoneMf (d : NameData N)
| ZoneMg (d : NameData N)
| ZoneMinfo (d : Minfo N)
| ZoneMr (d : NameData N)
| ZoneMx (d : Mx N)
| ZoneNs (d : NameData N)
| ZonePtr (d : NameData N)
| ZoneSoa (d : Soa N)
| ZoneTxt (d : Txt)
| ZoneAaaa (d : Aaaa)
| ZoneCdnskey (d : Cdnskey)
| ZoneCds (d : Cds)
| ZoneDname (d : NameData N)
| ZoneDnskey (d : Dnskey)
| ZoneRrsig (d : Rrsig N)
| ZoneNsec (d : Nsec N)
| ZoneDs (d : Ds)
| ZoneNsec3 (d : Nsec3)
| ZoneNsec3param (d : Nsec3param)
| ZoneSrv (d : Srv N)
| ZoneZonemd (d : Zonemd)
| ZoneUnknown (d : UnknownRecordData).
Arguments ZoneA {N} d.
Arguments ZoneCname {N} d.
Arguments ZoneHinfo {N} d.
Arguments ZoneMb {N} d.
Arguments ZoneMd {N} d.
Arguments ZoneMf {N} d.
Arguments ZoneMg {N} d.
Arguments ZoneMinfo {N} d.
Arguments ZoneMr {N} d.
Arguments ZoneMx {N} d.
Arguments ZoneNs {N} d.
Arguments ZonePtr {N} d.
Arguments ZoneSoa {N} d.
Arguments ZoneTxt {N} d.
Arguments ZoneAaaa {N} d.
Arguments ZoneCdnskey {N} d.
Arguments ZoneCds {N} d.
Arguments ZoneDname {N} d.
Arguments ZoneDnskey {N} d.
Arguments ZoneRrsig {N} d.
Arguments ZoneNsec {N} d.
Arguments ZoneDs {N} d.
Arguments ZoneNsec3 {N} d.
Arguments ZoneNsec3param {N} d.
Arguments ZoneSrv {N} d.
Arguments ZoneZonemd {N} d.
Arguments ZoneUnknown {N} d.

(** The record types with a type of their own. *)
Definition zone_rtypes : list Z :=
  [RTYPE_A; RTYPE_CNAME; RTYPE_HINFO; RTYPE_MB; RTYPE_MD; RTYPE_MF; RTYPE_MG; RTYPE_MINFO; RTYPE_MR; RTYPE_MX; RTYPE_NS; RTYPE_PTR; RTYPE_SOA; RTYPE_TXT; RTYPE_AAAA; RTYPE_CDNSKEY; RTYPE_CDS; RTYPE_DNAME; RTYPE_DNSKEY; RTYPE_RRSIG; RTYPE_NSEC; RTYPE_DS; RTYPE_NSEC3; RTYPE_NSEC3PARAM; RTYPE_SRV; RTYPE_ZONEMD].

Definition zone_rtype {N} (d : ZoneRecordData N) : Z :=
  match d with
  | ZoneA _ => RTYPE_A
  | ZoneCname _ => RTYPE_CNAME
  | ZoneHinfo _ => RTYPE_HINFO
  | ZoneMb _ => RTYPE_MB
  | ZoneMd _ => RTYPE_MD
  | ZoneMf _ => RTYPE_MF
  | ZoneMg _ => RTYPE_MG
  | ZoneMinfo _ => RTYPE_MINFO
  | ZoneMr _ => RTYPE_MR
  | ZoneMx _ => RTYPE_MX
  | ZoneNs _ => RTYPE_NS
  | ZonePtr _ => RTYPE_PTR
  | ZoneSoa _ => RTYPE_SOA
  | ZoneTxt _ => RTYPE_TXT
  | ZoneAaaa _ => RTYPE_AAAA
  | ZoneCdnskey _ => RTYPE_CDNSKEY
  | ZoneCds _ => RTYPE_CDS
  | ZoneDname _ => RTYPE_DNAME
  | ZoneDnskey _ => RTYPE_DNSKEY
  | ZoneRrsig _ => RTYPE_RRSIG
  | ZoneNsec _ => RTYPE_NSEC
  | ZoneDs _ => RTYPE_DS
  | ZoneNsec3 _ => RTYPE_NSEC3
  | ZoneNsec3param _ => RTYPE_NSEC3PARAM
  | ZoneSrv _ => RTYPE_SRV
  | ZoneZonemd _ => RTYPE_ZONEMD
  | ZoneUnknown d => unknown_rtype d
  end.

(** ** Parsing *)

Section Parse.
Context {P : Type} `{OctetsParser P} `{!OctetsParserRef P}.

(** One arm of the match. *)
Definition zone_arm {D} (variant : D -> ZoneRecordData ParsedName) (parse : P -> outcome (result (D * P) ParseError)) (p : P)
    : outcome (result (option (ZoneRecordData ParsedName) * P) ParseError) :=
  let!? (d, p) := parse p in Ret (Ok (Some (variant d), p)).

Definition zone_parse_rdata (rtype : Z) (p : P) : outcome (result (option (ZoneRecordData ParsedName) * P) ParseError) :=
  if rtype =? RTYPE_A then zone_arm ZoneA a_parse p
  else if rtype =? RTYPE_CNAME then zone_arm ZoneCname name_data_parse p
  else if rtype =? RTYPE_HINFO then zone_arm ZoneHinfo hinfo_parse p
  else if rtype =? RTYPE_MB then zone_arm ZoneMb name_data_parse p
  else if rtype =? RTYPE_MD then zone_arm ZoneMd name_data_parse p
  else if rtype =? RTYPE_MF then zone_arm ZoneMf name_data_parse p
  else if rtype =? RTYPE_MG then zone_arm ZoneMg name_data_parse p
  else if rtype =? RTYPE_MINFO then zone_arm ZoneMinfo minfo_parse p
  else if rtype =? RTYPE_MR then zone_arm ZoneMr name_data_parse p
  else if rtype =? RTYPE_MX then zone_arm ZoneMx mx_parse p
  else if rtype =? RTYPE_NS then zone_arm ZoneNs name_data_parse p
  else if rtype =? RTYPE_PTR then zone_arm ZonePtr name_data_parse p
  else if rtype =? RTYPE_SOA then zone_arm ZoneSoa soa_parse p
  else if rtype =? RTYPE_TXT then zone_arm ZoneTxt txt_parse p
  else if rtype =? RTYPE_AAAA then zone_arm ZoneAaaa aaaa_parse p
  else if rtype =? RTYPE_CDNSKEY then zone_arm ZoneCdnskey cdnskey_parse p
  else if rtype =? RTYPE_CDS then zone_arm ZoneCds cds_parse p
  else if rtype =? RTYPE_DNAME then zone_arm ZoneDname name_data_parse p
  else if rtype =? RTYPE_DNSKEY then zone_arm ZoneDnskey dnskey_parse p
  else if rtype =? RTYPE_RRSIG then zone_arm ZoneRrsig rrsig_parse p
  else if rtype =? RTYPE_NSEC then zone_arm ZoneNsec nsec_parse p
  else if rtype =? RTYPE_DS then zone_arm ZoneDs ds_parse p
  else if rtype =? RTYPE_NSEC3 then zone_arm ZoneNsec3 nsec3_parse p
  else if rtype =? RTYPE_NSEC3PARAM then zone_arm ZoneNsec3param nsec3param_parse p
  else if rtype =? RTYPE_SRV then zone_arm ZoneSrv srv_parse p
  else if rtype =? RTYPE_ZONEMD then zone_arm ZoneZonemd zonemd_parse p
  else zone_arm ZoneUnknown (fun p => Ret (unknown_parse_any_rdata rtype p)) p.

#[export] Instance zone_parse : ParseRecordData (ZoneRecordData ParsedName) P := zone_parse_rdata.
End Parse.

(** ** Comparing *)

Section Compare.
Context {N I : Type} `{ToLabelIter N I} {M J : Type} `{ToLabelIter M J}.

Definition zone_eq (a : ZoneRecordData N) (b : ZoneRecordData M) : outcome bool :=
  match a, b with
  | ZoneA a, ZoneA b => Ret (a_eq a b)
  | ZoneCname a, ZoneCname b => name_data_eq a b
  | ZoneHinfo a, ZoneHinfo b => Ret (hinfo_eq a b)
  | ZoneMb a, ZoneMb b => name_data_eq a b
  | ZoneMd a, ZoneMd b => name_data_eq a b
  | ZoneMf a, ZoneMf b => name_data_eq a b
  | ZoneMg a, ZoneMg b => name_data_eq a b
  | ZoneMinfo a, ZoneMinfo b => minfo_eq a b
  | ZoneMr a, ZoneMr b => name_data_eq a b
  | ZoneMx a, ZoneMx b => mx_eq a b
  | ZoneNs a, ZoneNs b => name_data_eq a b
  | ZonePtr a, ZonePtr b => name_data_eq a b
  | ZoneSoa a, ZoneSoa b => soa_eq a b
  | ZoneTxt a, ZoneTxt b => Ret (txt_eq a b)
  | ZoneAaaa a, ZoneAaaa b => Ret (aaaa_eq a b)
  | ZoneCdnskey a, ZoneCdnskey b => Ret (cdnskey_eq a b)
  | ZoneCds a, ZoneCds b => Ret (cds_eq a b)
  | ZoneDname a, ZoneDname b => name_data_eq a b
  | ZoneDnskey a, ZoneDnskey b => Ret (dnskey_eq a b)
  | ZoneRrsig a, ZoneRrsig b => rrsig_eq a b
  | ZoneNsec a, ZoneNsec b => nsec_eq a b
  | ZoneDs a, ZoneDs b => Ret (ds_eq a b)
  | ZoneNsec3 a, ZoneNsec3 b => Ret (nsec3_eq a b)
  | ZoneNsec3param a, ZoneNsec3param b => Ret (nsec3param_eq a b)
  | ZoneSrv a, ZoneSrv b => srv_eq a b
  | ZoneZonemd a, ZoneZonemd b => Ret (zonemd_eq a b)
  | ZoneUnknown a, ZoneUnknown b => Ret (unknown_eq a b)
  | _, _ => Ret false
  end.

Definition zone_cmp (a : ZoneRecordData N) (b : ZoneRecordData M) : outcome comparison :=
  match a, b with
  | ZoneA a, ZoneA b => Ret (a_cmp a b)
  | ZoneCname a, ZoneCname b => name_data_cmp a b
  | ZoneHinfo a, ZoneHinfo b => Ret (hinfo_cmp a b)
  | ZoneMb a, ZoneMb b => name_data_cmp a b
  | ZoneMd a, ZoneMd b => name_data_cmp a b
  | ZoneMf a, ZoneMf b => name_data_cmp a b
  | ZoneMg a, ZoneMg b => name_data_cmp a b
  | ZoneMinfo a, ZoneMinfo b => minfo_cmp a b
  | ZoneMr a, ZoneMr b => name_data_cmp a b
  | ZoneMx a, ZoneMx b => mx_cmp a b
  | ZoneNs a, ZoneNs b => name_data_cmp a b
  | ZonePtr a, ZonePtr b => name_data_cmp a b
  | ZoneSoa a, ZoneSoa b => soa_cmp a b
  | ZoneTxt a, ZoneTxt b => Ret (txt_cmp a b)
  | ZoneAaaa a, ZoneAaaa b => Ret (aaaa_cmp a b)
  | ZoneCdnskey a, ZoneCdnskey b => cdnskey_canonical_cmp a b
  | ZoneCds a, ZoneCds b => cds_canonical_cmp a b
  | ZoneDname a, ZoneDname b => name_data_cmp a b
  | ZoneDnskey a, ZoneDnskey b => dnskey_cmp a b
  | ZoneRrsig a, ZoneRrsig b => rrsig_canonical_cmp a b
  | ZoneNsec a, ZoneNsec b => nsec_cmp a b
  | ZoneDs a, ZoneDs b => ds_cmp a b
  | ZoneNsec3 a, ZoneNsec3 b => nsec3_cmp a b
  | ZoneNsec3param a, ZoneNsec3param b => nsec3param_cmp a b
  | ZoneSrv a, ZoneSrv b => srv_cmp a b
  | ZoneZonemd a, ZoneZonemd b => zonemd_canonical_cmp a b
  | ZoneUnknown a, ZoneUnknown b => Ret (unknown_cmp a b)
  | _, _ => Ret (zone_rtype a ?= zone_rtype b)
  end.

Definition zone_canonical_cmp (a : ZoneRecordData N) (b : ZoneRecordData M) : outcome comparison :=
  match a, b with
  | ZoneA a, ZoneA b => Ret (a_canonical_cmp a b)
  | ZoneCname a, ZoneCname b => name_data_canonical_cmp a b
  | ZoneHinfo a, ZoneHinfo b => Ret (hinfo_canonical_cmp a b)
  | ZoneMb a, ZoneMb b => name_data_canonical_cmp a b
  | ZoneMd a, ZoneMd b => name_data_canonical_cmp a b
  | ZoneMf a, ZoneMf b => name_data_canonical_cmp a b
  | ZoneMg a, ZoneMg b => name_data_canonical_cmp a b
  | ZoneMinfo a, ZoneMinfo b => minfo_canonical_cmp a b
  | ZoneMr a, ZoneMr b => name_data_canonical_cmp a b
  | ZoneMx a, ZoneMx b => mx_canonical_cmp a b
  | ZoneNs a, ZoneNs b => name_data_canonical_cmp a b
  | ZonePtr a, ZonePtr b => name_data_canonical_cmp a b
  | ZoneSoa a, ZoneSoa b => soa_canonical_cmp a b
  | ZoneTxt a, ZoneTxt b => Ret (txt_cmp a b)
  | ZoneAaaa a, ZoneAaaa b => Ret (aaaa_canonical_cmp a b)
  | ZoneCdnskey a, ZoneCdnskey b => cdnskey_canonical_cmp a b
  | ZoneCds a, ZoneCds b => cds_canonical_cmp a b
  | ZoneDname a, ZoneDname b => name_data_canonical_cmp a b
  | ZoneDnskey a, ZoneDnskey b => dnskey_canonical_cmp a b
  | ZoneRrsig a, ZoneRrsig b => rrsig_canonical_cmp a b
  | ZoneNsec a, ZoneNsec b => nsec_canonical_cmp a b
  | ZoneDs a, ZoneDs b => ds_canonical_cmp a b
  | ZoneNsec3 a, ZoneNsec3 b => nsec3_canonical_cmp a b
  | ZoneNsec3param a, ZoneNsec3param b => nsec3param_canonical_cmp a b
  | ZoneSrv a, ZoneSrv b => srv_canonical_cmp a b
  | ZoneZonemd a, ZoneZonemd b => zonemd_canonical_cmp a b
  | ZoneUnknown a, ZoneUnknown b => Ret (unknown_cmp a b)
  | _, _ => Ret (zone_rtype a ?= zone_rtype b)
  end.

End Compare.

(** ** Composing *)

Section Compose.
Context {B N I : Type} `{Composer B} `{ToLabelIter N I}.

Definition zone_rdlen (d : ZoneRecordData N) (compress : bool) : outcome (option Z) :=
  match d with
  | ZoneA d => rd_rdlen (ComposeRecordData := a_data) d compress
  | ZoneCname d => rd_rdlen (ComposeRecordData := (well_known_data RTYPE_CNAME)) d compress
  | ZoneHinfo d => rd_rdlen (ComposeRecordData := hinfo_data) d compress
  | ZoneMb d => rd_rdlen (ComposeRecordData := (well_known_data RTYPE_MB)) d compress
  | ZoneMd d => rd_rdlen (ComposeRecordData := (well_known_data RTYPE_MD)) d compress
  | ZoneMf d => rd_rdlen (ComposeRecordData := (well_known_data RTYPE_MF)) d compress
  | ZoneMg d => rd_rdlen (ComposeRecordData := (well_known_data RTYPE_MG)) d compress
  | ZoneMinfo d => rd_rdlen (ComposeRecordData := minfo_data) d compress
  | ZoneMr d => rd_rdlen (ComposeRecordData := (well_known_data RTYPE_MR)) d compress
  | ZoneMx d => rd_rdlen (ComposeRecordData := mx_data) d compress
  | ZoneNs d => rd_rdlen (ComposeRecordData := (well_known_data RTYPE_NS)) d compress
  | ZonePtr d => rd_rdlen (ComposeRecordData := (well_known_data RTYPE_PTR)) d compress
  | ZoneSoa d => rd_rdlen (ComposeRecordData := soa_data) d compress
  | ZoneTxt d => rd_rdlen (ComposeRecordData := txt_data) d compress
  | ZoneAaaa d => rd_rdlen (ComposeRecordData := aaaa_data) d compress
  | ZoneCdnskey d => rd_rdlen (ComposeRecordData := (key_data RTYPE_CDNSKEY)) d compress
  | ZoneCds d => rd_rdlen (ComposeRecordData := (ds_data RTYPE_CDS)) d compress
  | ZoneDname d => rd_rdlen (ComposeRecordData := (canonical_data RTYPE_DNAME)) d compress
  | ZoneDnskey d => rd_rdlen (ComposeRecordData := (key_data RTYPE_DNSKEY)) d compress
  | ZoneRrsig d => rd_rdlen (ComposeRecordData := rrsig_data) d compress
  | ZoneNsec d => rd_rdlen (ComposeRecordData := nsec_data) d compress
  | ZoneDs d => rd_rdlen (ComposeRecordData := (ds_data RTYPE_DS)) d compress
  | ZoneNsec3 d => rd_rdlen (ComposeRecordData := nsec3_data) d compress
  | ZoneNsec3param d => rd_rdlen (ComposeRecordData := nsec3param_data) d compress
  | ZoneSrv d => rd_rdlen (ComposeRecordData := srv_data) d compress
  | ZoneZonemd d => rd_rdlen (ComposeRecordData := zonemd_data) d compress
  | ZoneUnknown d => rd_rdlen (ComposeRecordData := unknown_compose) d compress
  end.

Definition zone_compose (d : ZoneRecordData N) : pusher B :=
  match d with
  | ZoneA d => compose_rdata (ComposeRecordData := a_data) d
  | ZoneCname d => compose_rdata (ComposeRecordData := (well_known_data RTYPE_CNAME)) d
  | ZoneHinfo d => compose_rdata (ComposeRecordData := hinfo_data) d
  | ZoneMb d => compose_rdata (ComposeRecordData := (well_known_data RTYPE_MB)) d
  | ZoneMd d => compose_rdata (ComposeRecordData := (well_known_data RTYPE_MD)) d
  | ZoneMf d => compose_rdata (ComposeRecordData := (well_known_data RTYPE_MF)) d
  | ZoneMg d => compose_rdata (ComposeRecordData := (well_known_data RTYPE_MG)) d
  | ZoneMinfo d => compose_rdata (ComposeRecordData := minfo_data) d
  | ZoneMr d => compose_rdata (ComposeRecordData := (well_known_data RTYPE_MR)) d
  | ZoneMx d => compose_rdata (ComposeRecordData := mx_data) d
  | ZoneNs d => compose_rdata (ComposeRecordData := (well_known_data RTYPE_NS)) d
  | ZonePtr d => compose_rdata (ComposeRecordData := (well_known_data RTYPE_PTR)) d
  | ZoneSoa d => compose_rdata (ComposeRecordData := soa_data) d
  | ZoneTxt d => compose_rdata (ComposeRecordData := txt_data) d
  | ZoneAaaa d => compose_rdata (ComposeRecordData := aaaa_data) d
  | ZoneCdnskey d => compose_rdata (ComposeRecordData := (key_data RTYPE_CDNSKEY)) d
  | ZoneCds d => compose_rdata (ComposeRecordData := (ds_data RTYPE_CDS)) d
  | ZoneDname d => compose_rdata (ComposeRecordData := (canonical_data RTYPE_DNAME)) d
  | ZoneDnskey d => compose_rdata (ComposeRecordData := (key_data RTYPE_DNSKEY)) d
  | ZoneRrsig d => compose_rdata (ComposeRecordData := rrsig_data) d
  | ZoneNsec d => compose_rdata (ComposeRecordData := nsec_data) d
  | ZoneDs d => compose_rdata (ComposeRecordData := (ds_data RTYPE_DS)) d
  | ZoneNsec3 d => compose_rdata (ComposeRecordData := nsec3_data) d
  | ZoneNsec3param d => compose_rdata (ComposeRecordData := nsec3param_data) d
  | ZoneSrv d => compose_rdata (ComposeRecordData := srv_data) d
  | ZoneZonemd d => compose_rdata (ComposeRecordData := zonemd_data) d
  | ZoneUnknown d => compose_rdata (ComposeRecordData := unknown_compose) d
  end.

Definition zone_compose_canonical (d : ZoneRecordData N) : pusher B :=
  match d with
  | ZoneA d => compose_canonical_rdata (ComposeRecordData := a_data) d
  | ZoneCname d => compose_canonical_rdata (ComposeRecordData := (well_known_data RTYPE_CNAME)) d
  | ZoneHinfo d => compose_canonical_rdata (ComposeRecordData := hinfo_data) d
  | ZoneMb d => compose_canonical_rdata (ComposeRecordData := (well_known_data RTYPE_MB)) d
  | ZoneMd d => compose_canonical_rdata (ComposeRecordData := (well_known_data RTYPE_MD)) d
  | ZoneMf d => compose_canonical_rdata (ComposeRecordData := (well_known_data RTYPE_MF)) d
  | ZoneMg d => compose_canonical_rdata (ComposeRecordData := (well_known_data RTYPE_MG)) d
  | ZoneMinfo d => compose_canonical_rdata (ComposeRecordData := minfo_data) d
  | ZoneMr d => compose_canonical_rdata (ComposeRecordData := (well_known_data RTYPE_MR)) d
  | ZoneMx d => compose_canonical_rdata (ComposeRecordData := mx_data) d
  | ZoneNs d => compose_canonical_rdata (ComposeRecordData := (well_known_data RTYPE_NS)) d
  | ZonePtr d => compose_canonical_rdata (ComposeRecordData := (well_known_data RTYPE_PTR)) d
  | ZoneSoa d => compose_canonical_rdata (ComposeRecordData := soa_data) d
  | ZoneTxt d => compose_canonical_rdata (ComposeRecordData := txt_data) d
  | ZoneAaaa d => compose_canonical_rdata (ComposeRecordData := aaaa_data) d
  | ZoneCdnskey d => compose_canonical_rdata (ComposeRecordData := (key_data RTYPE_CDNSKEY)) d
  | ZoneCds d => compose_canonical_rdata (ComposeRecordData := (ds_data RTYPE_CDS)) d
  | ZoneDname d => compose_canonical_rdata (ComposeRecordData := (canonical_data RTYPE_DNAME)) d
  | ZoneDnskey d => compose_canonical_rdata (ComposeRecordData := (key_data RTYPE_DNSKEY)) d
  | ZoneRrsig d => compose_canonical_rdata (ComposeRecordData := rrsig_data) d
  | ZoneNsec d => compose_canonical_rdata (ComposeRecordData := nsec_data) d
  | ZoneDs d => compose_canonical_rdata (ComposeRecordData := (ds_data RTYPE_DS)) d
  | ZoneNsec3 d => compose_canonical_rdata (ComposeRecordData := nsec3_data) d
  | ZoneNsec3param d => compose_canonical_rdata (ComposeRecordData := nsec3param_data) d
  | ZoneSrv d => compose_canonical_rdata (ComposeRecordData := srv_data) d
  | ZoneZonemd d => compose_canonical_rdata (ComposeRecordData := zonemd_data) d
  | ZoneUnknown d => compose_canonical_rdata (ComposeRecordData := unknown_compose) d
  end.

#[export] Instance zone_data : ComposeRecordData (ZoneRecordData N) B := {|
  rd_rtype := zone_rtype;
  rd_rdlen := zone_rdlen;
  compose_rdata := zone_compose;
  compose_canonical_rdata := zone_compose_canonical
|}.
End Compose.

(** ** What is there *)

(** TXT data by its octets. *)
Definition txt_data_at : layout Txt := lay_map (fun strs => mkTxt (txt_wire strs)) txt_taken_at.
Definition txt_good (t : Txt) : Prop := exists strs, txt_ok strs /\ txt_octets t = txt_wire strs.
Definition unknown_at (rtype : Z) : layout UnknownRecordData := lay_map (mkUnknown rtype) rest_at.
Definition unknown_good (d : UnknownRecordData) : Prop :=
  is_u16 (unknown_rtype d) /\ wf_octets (unknown_data d) /\ zlen (unknown_data d) <= 65535.

(** What is taken for record data of type [rtype]: data of the variant for that
    type, or unknown if there is none, laid out as the type says.  This includes
    TXT data without any string. *)
Definition zone_at (rtype : Z) : layout (ZoneRecordData labels) := fun s pos x e =>
  match x with
  | ZoneA d => rtype = RTYPE_A /\ a_at s pos d e
  | ZoneCname d => rtype = RTYPE_CNAME /\ name_data_at s pos d e
  | ZoneHinfo d => rtype = RTYPE_HINFO /\ hinfo_at s pos d e
  | ZoneMb d => rtype = RTYPE_MB /\ name_data_at s pos d e
  | ZoneMd d => rtype = RTYPE_MD /\ name_data_at s pos d e
  | ZoneMf d => rtype = RTYPE_MF /\ name_data_at s pos d e
  | ZoneMg d => rtype = RTYPE_MG /\ name_data_at s pos d e
  | ZoneMinfo d => rtype = RTYPE_MINFO /\ minfo_at s pos d e
  | ZoneMr d => rtype = RTYPE_MR /\ name_data_at s pos d e
  | ZoneMx d => rtype = RTYPE_MX /\ mx_at s pos d e
  | ZoneNs d => rtype = RTYPE_NS /\ name_data_at s pos d e
  | ZonePtr d => rtype = RTYPE_PTR /\ name_data_at s pos d e
  | ZoneSoa d => rtype = RTYPE_SOA /\ soa_at s pos d e
  | ZoneTxt d => rtype = RTYPE_TXT /\ txt_data_at s pos d e
  | ZoneAaaa d => rtype = RTYPE_AAAA /\ aaaa_at s pos d e
  | ZoneCdnskey d => rtype = RTYPE_CDNSKEY /\ (head4_at mkDnskey) s pos d e
  | ZoneCds d => rtype = RTYPE_CDS /\ (head4_at mkDs) s pos d e
  | ZoneDname d => rtype = RTYPE_DNAME /\ name_data_at s pos d e
  | ZoneDnskey d => rtype = RTYPE_DNSKEY /\ (head4_at mkDnskey) s pos d e
  | ZoneRrsig d => rtype = RTYPE_RRSIG /\ rrsig_at s pos d e
  | ZoneNsec d => rtype = RTYPE_NSEC /\ nsec_at s pos d e
  | ZoneDs d => rtype = RTYPE_DS /\ (head4_at mkDs) s pos d e
  | ZoneNsec3 d => rtype = RTYPE_NSEC3 /\ nsec3_at s pos d e
  | ZoneNsec3param d => rtype = RTYPE_NSEC3PARAM /\ nsec3param_at s pos d e
  | ZoneSrv d => rtype = RTYPE_SRV /\ srv_at s pos d e
  | ZoneZonemd d => rtype = RTYPE_ZONEMD /\ zonemd_at s pos d e
  | ZoneUnknown d => (rtype ∉ zone_rtypes) /\ unknown_at rtype s pos d e
  end.

(** Valid record data of type [rtype]. *)
Definition zone_data_at (rtype : Z) : layout (ZoneRecordData labels) := fun s pos x e =>
  match x with
  | ZoneTxt d => rtype = RTYPE_TXT /\ lay_map (fun strs => mkTxt (txt_wire strs)) txt_at s pos d e
  | _ => zone_at rtype s pos x e
  end.

Lemma zone_data_taken rtype s pos x e : zone_data_at rtype s pos x e -> zone_at rtype s pos x e.
Proof. destruct x; try done. intros [-> (strs & [Ht _] & ->)]. split; [done|]. by exists strs. Qed.

Lemma zone_taken_data rtype s pos x e :
  (rtype = RTYPE_TXT -> drop pos s <> []) -> zone_at rtype s pos x e -> zone_data_at rtype s pos x e.
Proof.
  intros Hne. destruct x; try done. intros [-> (strs & Ht & ->)]. split; [done|]. exists strs. split; [|done]. split; [done|].
  intros ->. destruct Ht as (_ & [_ E] & _). by apply Hne.
Qed.

Definition zone_rel {N M} (R : N -> M -> Prop) (d : ZoneRecordData N) (x : ZoneRecordData M) : Prop :=
  match d, x with
  | ZoneA d, ZoneA x => d = x
  | ZoneCname d, ZoneCname x => name_data_rel R d x
  | ZoneHinfo d, ZoneHinfo x => d = x
  | ZoneMb d, ZoneMb x => name_data_rel R d x
  | ZoneMd d, ZoneMd x => name_data_rel R d x
  | ZoneMf d, ZoneMf x => name_data_rel R d x
  | ZoneMg d, ZoneMg x => name_data_rel R d x
  | ZoneMinfo d, ZoneMinfo x => minfo_rel R d x
  | ZoneMr d, ZoneMr x => name_data_rel R d x
  | ZoneMx d, ZoneMx x => mx_rel R d x
  | ZoneNs d, ZoneNs x => name_data_rel R d x
  | ZonePtr d, ZonePtr x => name_data_rel R d x
  | ZoneSoa d, ZoneSoa x => soa_rel R d x
  | ZoneTxt d, ZoneTxt x => d = x
  | ZoneAaaa d, ZoneAaaa x => d = x
  | ZoneCdnskey d, ZoneCdnskey x => d = x
  | ZoneCds d, ZoneCds x => d = x
  | ZoneDname d, ZoneDname x => name_data_rel R d x
  | ZoneDnskey d, ZoneDnskey x => d = x
  | ZoneRrsig d, ZoneRrsig x => rrsig_rel R d x
  | ZoneNsec d, ZoneNsec x => nsec_rel R d x
  | ZoneDs d, ZoneDs x => d = x
  | ZoneNsec3 d, ZoneNsec3 x => d = x
  | ZoneNsec3param d, ZoneNsec3param x => d = x
  | ZoneSrv d, ZoneSrv x => srv_rel R d x
  | ZoneZonemd d, ZoneZonemd x => d = x
  | ZoneUnknown d, ZoneUnknown x => d = x
  | _, _ => False
  end.

Definition zone_wire (x : ZoneRecordData labels) : list Z :=
  match x with
  | ZoneA d => a_wire d
  | ZoneCname d => name_data_wire d
  | ZoneHinfo d => hinfo_wire d
  | ZoneMb d => name_data_wire d
  | ZoneMd d => name_data_wire d
  | ZoneMf d => name_data_wire d
  | ZoneMg d => name_data_wire d
  | ZoneMinfo d => minfo_wire d
  | ZoneMr d => name_data_wire d
  | ZoneMx d => mx_wire d
  | ZoneNs d => name_data_wire d
  | ZonePtr d => name_data_wire d
  | ZoneSoa d => soa_wire d
  | ZoneTxt d => txt_octets d
  | ZoneAaaa d => aaaa_wire d
  | ZoneCdnskey d => dnskey_wire d
  | ZoneCds d => ds_wire d
  | ZoneDname d => name_data_wire d
  | ZoneDnskey d => dnskey_wire d
  | ZoneRrsig d => rrsig_wire d
  | ZoneNsec d => nsec_wire d
  | ZoneDs d => ds_wire d
  | ZoneNsec3 d => nsec3_wire d
  | ZoneNsec3param d => nsec3param_wire d
  | ZoneSrv d => srv_wire d
  | ZoneZonemd d => zonemd_wire d
  | ZoneUnknown d => unknown_data d
  end.

(** The canonical form: names in lower case, where RFC 4034 says so. *)
Definition zone_cwire (x : ZoneRecordData labels) : list Z :=
  match x with
  | ZoneA d => a_wire d
  | ZoneCname d => name_data_cwire d
  | ZoneHinfo d => hinfo_wire d
  | ZoneMb d => name_data_cwire d
  | ZoneMd d => name_data_cwire d
  | ZoneMf d => name_data_cwire d
  | ZoneMg d => name_data_cwire d
  | ZoneMinfo d => minfo_cwire d
  | ZoneMr d => name_data_cwire d
  | ZoneMx d => mx_cwire d
  | ZoneNs d => name_data_cwire d
  | ZonePtr d => name_data_cwire d
  | ZoneSoa d => soa_cwire d
  | ZoneTxt d => txt_octets d
  | ZoneAaaa d => aaaa_wire d
  | ZoneCdnskey d => dnskey_wire d
  | ZoneCds d => ds_wire d
  | ZoneDname d => name_data_cwire d
  | ZoneDnskey d => dnskey_wire d
  | ZoneRrsig d => rrsig_cwire d
  | ZoneNsec d => nsec_wire d
  | ZoneDs d => ds_wire d
  | ZoneNsec3 d => nsec3_wire d
  | ZoneNsec3param d => nsec3param_wire d
  | ZoneSrv d => srv_cwire d
  | ZoneZonemd d => zonemd_wire d
  | ZoneUnknown d => unknown_data d
  end.

Definition zone_ok (x : ZoneRecordData labels) : Prop :=
  match x with
  | ZoneA d => a_ok d
  | ZoneCname d => name_data_ok d
  | ZoneHinfo d => hinfo_ok d
  | ZoneMb d => name_data_ok d
  | ZoneMd d => name_data_ok d
  | ZoneMf d => name_data_ok d
  | ZoneMg d => name_data_ok d
  | ZoneMinfo d => minfo_ok d
  | ZoneMr d => name_data_ok d
  | ZoneMx d => mx_ok d
  | ZoneNs d => name_data_ok d
  | ZonePtr d => name_data_ok d
  | ZoneSoa d => soa_ok d
  | ZoneTxt d => txt_good d
  | ZoneAaaa d => aaaa_ok d
  | ZoneCdnskey d => dnskey_ok d
  | ZoneCds d => ds_ok d
  | ZoneDname d => name_data_ok d
  | ZoneDnskey d => dnskey_ok d
  | ZoneRrsig d => rrsig_ok d
  | ZoneNsec d => nsec_ok d
  | ZoneDs d => ds_ok d
  | ZoneNsec3 d => nsec3_ok d
  | ZoneNsec3param d => nsec3param_ok d
  | ZoneSrv d => srv_ok d
  | ZoneZonemd d => zonemd_ok d
  | ZoneUnknown d => (unknown_rtype d ∉ zone_rtypes) /\ unknown_good d
  end.

Definition zone_is {N I} `{ToLabelIter N I} `{!LabelIterOk I} (d : ZoneRecordData N) (x : ZoneRecordData labels) : Prop :=
  zone_rel name_ok d x /\ zone_ok x.

(** ** Parsing finds what is there *)

Section Finding.
Context {P : Type} `{OctetsParserOk P} `{!OctetsParserRef P} `{!OctetsParserRefOk P}.

Lemma txt_data_finds : Finds (P:=P) txt_parse txt_data_at eq.
Proof using All.
  intros p Hp. destruct (txt_finds (P:=P) p Hp) as (r & Hr & Hs & Hc). exists r. split; [done|]. split.
  - intros a p' E. destruct (Hs a p' E) as (strs & e & Hat & [_ Ha] & Hm). exists (mkTxt (txt_wire strs)), e.
    split_and!; [by exists strs| |done]. destruct a as [a]. cbn in Ha. by subst.
  - intros x e (strs & Hat & ->). destruct (Hc strs e Hat) as (a & p' & E & [_ Ha] & Hm). exists a, p'.
    split_and!; [done| |done]. destruct a as [a]. cbn in Ha. by subst.
Qed.

Lemma unknown_finds rtype : Finds (P:=P) (fun p => Ret (unknown_parse_any_rdata rtype p)) (unknown_at rtype) eq.
Proof.
  eapply Finds_ext; [|eapply (Finds_map _ (mkUnknown rtype)); [apply Finds_rest|by intros ? ? ->]].
  intros p. unfold unknown_parse_any_rdata. by destruct (short (p_parse_octets p (p_remaining p))) as [[s p']|].
Qed.

Definition parsed_as (o : option (ZoneRecordData ParsedName)) (x : ZoneRecordData labels) : Prop :=
  exists d, o = Some d /\ zone_rel wf_parsed d x.

Lemma zone_arm_finds {D X} (variant : D -> ZoneRecordData ParsedName) (variant' : X -> ZoneRecordData labels) parse (at_ : layout X) rel rtype :
  Finds (P:=P) parse at_ rel -> (forall d x, rel d x -> zone_rel wf_parsed (variant d) (variant' x)) ->
  (forall s pos x e, zone_at rtype s pos x e <-> lay_map variant' at_ s pos x e) ->
  Finds (zone_arm variant parse) (zone_at rtype) parsed_as.
Proof.
  intros Hf Hr Hat. eapply (Finds_impl _ (lay_map variant' at_)); [intros; symmetry; apply Hat|intros ? ? Hx; exact Hx|].
  unfold zone_arm. apply (Finds_map parse (fun d => Some (variant d)) variant' at_ rel parsed_as); [done|].
  intros d x Hx. eexists; split; [done|]. by apply Hr.
Qed.

(** Of a type with a variant, only that variant is there. *)
Ltac zone_arm_at :=
  intros s pos x e; split;
    [destruct x; intros [Hrt Hx]; first [discriminate Hrt|by eexists|exfalso; apply Hrt; by_decide]
    |intros (y & Hy & ->); by split].

(** The next arm, which is for a type with the parser that [L] is about. *)
Ltac zone_arm_with L C :=
  match goal with |- Finds (fun p => if ?rtype =? ?t then _ else _) _ _ =>
    destruct (Z.eqb_spec rtype t) as [->|?]; [eapply (zone_arm_finds _ C); [apply L|intros ? ? Hrel; exact Hrel|zone_arm_at]|]
  end.

Lemma zone_finds rtype : Finds (P:=P) (zone_parse_rdata rtype) (zone_at rtype) parsed_as.
Proof using All.
  unfold zone_parse_rdata.
  zone_arm_with a_finds (@ZoneA labels). zone_arm_with name_data_finds (@ZoneCname labels).
  zone_arm_with hinfo_finds (@ZoneHinfo labels). zone_arm_with name_data_finds (@ZoneMb labels).
  zone_arm_with name_data_finds (@ZoneMd labels). zone_arm_with name_data_finds (@ZoneMf labels).
  zone_arm_with name_data_finds (@ZoneMg labels). zone_arm_with minfo_finds (@ZoneMinfo labels).
  zone_arm_with name_data_finds (@ZoneMr labels). zone_arm_with mx_finds (@ZoneMx labels).
  zone_arm_with name_data_finds (@ZoneNs labels). zone_arm_with name_data_finds (@ZonePtr labels).
  zone_arm_with soa_finds (@ZoneSoa labels). zone_arm_with txt_data_finds (@ZoneTxt labels).
  zone_arm_with aaaa_finds (@ZoneAaaa labels). zone_arm_with dnskey_finds (@ZoneCdnskey labels).
  zone_arm_with ds_finds (@ZoneCds labels). zone_arm_with name_data_finds (@ZoneDname labels).
  zone_arm_with dnskey_finds (@ZoneDnskey labels). zone_arm_with rrsig_finds (@ZoneRrsig labels).
  zone_arm_with nsec_finds (@ZoneNsec labels). zone_arm_with ds_finds (@ZoneDs labels).
  zone_arm_with nsec3_finds (@ZoneNsec3 labels). zone_arm_with nsec3param_finds (@ZoneNsec3param labels).
  zone_arm_with srv_finds (@ZoneSrv labels). zone_arm_with zonemd_finds (@ZoneZonemd labels).
  eapply (zone_arm_finds _ (@ZoneUnknown labels)); [apply unknown_finds|intros ? ? Hrel; exact Hrel|]. intros s pos x e. split.
  - destruct x; intros [Hrt Hx]; try done. by eexists.
  - intros (y & Hy & ->). split; [|done]. unfold zone_rtypes. rewrite !elem_of_cons, elem_of_nil. tauto.
Qed.

(** What [parse_rdata] makes of the data of a record in a message: it always
    returns, it succeeds exactly if valid data of the type is there, possibly with
    compressed names, and then gives it; TXT data has one or more strings.  Types
    that are not known are taken as they are.  Left out is a TXT record whose data
    is empty, which is not valid but is taken ([txt_parse_empty]).  (C8) *)
Theorem zone_parse_correct rtype (p : P) :
  wf_octets (p_octets p) -> (rtype = RTYPE_TXT -> drop (p_pos p) (visible p) <> []) ->
  exists r, zone_parse_rdata rtype p = Ret r /\
    (forall o p', r = Ok (o, p') ->
       exists x e, zone_data_at rtype (visible p) (p_pos p) x e /\ parsed_as o x /\ moved p p' e) /\
    (forall x e, zone_data_at rtype (visible p) (p_pos p) x e ->
       exists o p', r = Ok (o, p') /\ parsed_as o x /\ moved p p' e).
Proof using All.
  intros Hp Ht. destruct (zone_finds rtype p Hp) as (r & Hr & Hs & Hc). exists r. split_and!; [done| |].
  - intros o p' E. destruct (Hs o p' E) as (x & e & Hx & ? & ?). exists x, e. split_and!; [|done..].
    by apply zone_taken_data.
  - intros x e Hx. apply Hc. by apply zone_data_taken.
Qed.
End Finding.

(** ** Composing writes it *)

Lemma unknown_lays d : unknown_good d -> LaysEnd (unknown_at (unknown_rtype d)) d (unknown_data d).
Proof. destruct d as [t s]. intros _. apply (LaysEnd_map (mkUnknown t)), LaysEnd_rest. Qed.

Lemma txt_data_lays t : txt_good t -> LaysEnd txt_data_at t (txt_octets t).
Proof.
  destruct t as [t]. intros (strs & (Hs & _) & E). cbn [txt_octets] in *. subst.
  apply (LaysEnd_map (fun strs => mkTxt (txt_wire strs))), txt_lays, Hs.
Qed.

Lemma zone_lays x : zone_ok x -> LaysEnd (zone_at (zone_rtype x)) x (zone_wire x).
Proof.
  intros Hx s pos Hd Hp. destruct x; cbn [zone_ok zone_at zone_rtype zone_wire] in *;
    first [destruct Hx as [Hu Hx]; split; [done|by apply unknown_lays] | split; [done|];
      first [by apply a_lays | by apply name_data_lays | by apply hinfo_lays | by apply minfo_lays | by apply mx_lays
            | by apply soa_lays | by apply txt_data_lays | by apply aaaa_lays | by apply dnskey_lays | by apply ds_lays
            | by apply rrsig_lays | by apply nsec_lays | by apply nsec3_lays | by apply nsec3param_lays | by apply srv_lays
            | by apply zonemd_lays]].
Qed.

Section Composing.
Context {B : Type} `{OctetsBuilderOk B} `{!Composer B} `{!PlainComposer B}.
Context {N I : Type} `{ToLabelIter N I} `{!LabelIterOk I}.

Definition unknown_is (d x : UnknownRecordData) : Prop := d = x /\ unknown_good x.

#[export] Instance unknown_data_ok : RecordDataOk UnknownRecordData UnknownRecordData B unknown_is unknown_data unknown_data.
Proof.
  split; [intros d x [<- _]; apply Writes_slice..| |done]. intros d x c [<- _] Hl. left. cbn.
  by destruct (Z.ltb_spec (zlen (unknown_data d)) (2 ^ 16)); [|lia].
Qed.

Definition txt_octets_is (d x : Txt) : Prop := d = x /\ txt_good x.

#[export] Instance txt_octets_data_ok : RecordDataOk Txt Txt B txt_octets_is txt_octets txt_octets.
Proof.
  split; [intros d x [<- _]; apply Writes_slice..| |done]. intros d x c [<- _] Hl. left. cbn. by rewrite len_u16_small.
Qed.

#[local] Existing Instances well_known_data_ok canonical_data_ok key_data_ok ds_data_ok.

(** What holds of each type of record data holds of their sum. *)
Ltac zone_variant Hr Ho := first [exact (conj Hr Ho) | exact Hr | exact (conj Hr (proj2 Ho))].

#[export] Instance zone_data_ok : RecordDataOk (ZoneRecordData N) (ZoneRecordData labels) B zone_is zone_wire zone_cwire.
Proof.
  split.
  - intros d x [Hr Ho]. change (compose_rdata d) with (zone_compose (B:=B) d). destruct d, x; try done; cbn [zone_rel zone_ok zone_wire zone_compose] in *;
      (notypeclasses refine (@data_writes _ _ _ _ _ _ _ _ _ _ _ _ _); [typeclasses eauto|zone_variant Hr Ho]).
  - intros d x [Hr Ho]. change (compose_canonical_rdata d) with (zone_compose_canonical (B:=B) d).
    destruct d, x; try done; cbn [zone_rel zone_ok zone_cwire zone_compose_canonical] in *;
      (notypeclasses refine (@data_canonical _ _ _ _ _ _ _ _ _ _ _ _ _); [typeclasses eauto|zone_variant Hr Ho]).
  - intros d x c [Hr Ho] Hl. change (rd_rdlen d c) with (zone_rdlen (B:=B) d c).
    destruct d, x; try done; cbn [zone_rel zone_ok zone_wire zone_rdlen] in *;
      (notypeclasses refine (@data_rdlen _ _ _ _ _ _ _ _ _ _ _ _ c _ Hl); [typeclasses eauto|zone_variant Hr Ho]).
  - intros x. destruct x; cbn [zone_wire zone_cwire]; unfold name_data_cwire, name_data_wire, minfo_cwire, minfo_wire, mx_cwire, mx_wire,
      soa_cwire, soa_wire, rrsig_cwire, rrsig_wire, srv_cwire, srv_wire, lower; by rewrite ?length_app, ?length_map.
Qed.

(** In a record. *)
Definition zone_stands (d : ZoneRecordData N) (w : list Z) : Prop := exists x, zone_is d x /\ w = zone_wire x.

#[export] Instance zone_compose_ok : ComposeRecordDataOk (ZoneRecordData N) B zone_stands.
Proof.
  split.
  - intros d w (x & Hx & ->). apply (data_writes (is_:=zone_is)), Hx.
  - intros d w (x & Hx & ->) Hl. right. destruct (data_rdlen (is_:=zone_is) d x false Hx Hl) as [E|[? _]]; done.
Qed.

#[export] Instance zone_compose_total `{!InfallibleBuilder B} : ComposeRecordDataTotal (ZoneRecordData N) B zone_stands.
Proof. intros d w (x & Hx & ->). by apply (data_writes (is_:=zone_is) d x Hx). Qed.
End Composing.

(** ** Lengths *)

Lemma name_good_len ls : name_good ls -> zlen (labels_wire ls) <= 255.
Proof. intros [_ Hl]. unfold zlen. lia. Qed.

Lemma charstr_len c : cs_wf c -> zlen (cs_wire c) <= 256.
Proof. intros [Hl _]. unfold cs_len, CHARSTR_MAX_LEN in Hl. unfold cs_wire, zlen. cbn [length]. lia. Qed.

(** Record data fits the length field of a record. *)
Lemma zone_wire_len x : zone_ok x -> zlen (zone_wire x) <= 65535.
Proof.
  destruct x; cbn [zone_ok zone_wire]; 
    try (intros Hn; unfold name_data_ok in Hn; apply name_good_len in Hn; unfold name_data_wire; lia).
  - intros [Hl _]. unfold a_wire, zlen. lia.
  - intros [H1%charstr_len H2%charstr_len]. unfold hinfo_wire. rewrite zlen_app. lia.
  - intros [H1%name_good_len H2%name_good_len]. unfold minfo_wire. rewrite zlen_app. lia.
  - intros [_ Hn%name_good_len]. unfold mx_wire. rewrite zlen_app, zlen_to_be_bytes. lia.
  - intros (H1%name_good_len & H2%name_good_len & _). unfold soa_wire, soa_tail. rewrite !zlen_app, !zlen_to_be_bytes. lia.
  - intros (strs & (_ & _ & Hl) & ->). exact Hl.
  - intros [Hl _]. unfold aaaa_wire, zlen. lia.
  - intros (_ & _ & _ & _ & Hl). unfold dnskey_wire. rewrite !zlen_app, zlen_to_be_bytes, !zlen_one. lia.
  - intros (_ & _ & _ & _ & Hl). unfold ds_wire. rewrite !zlen_app, zlen_to_be_bytes, !zlen_one. lia.
  - intros (_ & _ & _ & _ & Hl). unfold dnskey_wire. rewrite !zlen_app, zlen_to_be_bytes, !zlen_one. lia.
  - intros (_ & _ & Hl). exact Hl.
  - intros (_ & _ & Hl). exact Hl.
  - intros (_ & _ & _ & _ & Hl). unfold ds_wire. rewrite !zlen_app, zlen_to_be_bytes, !zlen_one. lia.
  - intros (_ & _ & _ & _ & _ & _ & Hl). exact Hl.
  - intros (_ & _ & _ & Hs%charstr_len). unfold nsec3param_wire, counted. rewrite !zlen_app, zlen_to_be_bytes, !zlen_one. lia.
  - intros (_ & _ & _ & Hn%name_good_len). unfold srv_wire, srv_head. rewrite !zlen_app, !zlen_to_be_bytes. lia.
  - intros (_ & _ & _ & _ & _ & Hl). unfold zonemd_wire. rewrite !zlen_app, zlen_to_be_bytes, !zlen_one. lia.
  - intros (_ & _ & _ & Hl). exact Hl.
Qed.

(** ** There and back *)

Lemma zone_rel_rtype {N M} (R : N -> M -> Prop) d x : zone_rel R d x -> zone_rtype d = zone_rtype x.
Proof. destruct d, x; try done. cbn. by intros ->. Qed.

Section RoundTrip.
Context {B : Type} `{OctetsBuilderOk B} `{!InfallibleBuilder B} `{!Composer B} `{!PlainComposer B}.
Context {N I : Type} `{ToLabelIter N I} `{!LabelIterOk I}.
Context {P : Type} `{OctetsParserOk P} `{!OctetsParserRef P} `{!OctetsParserRefOk P}.

(** Composing record data of any of the types, to a target that does not compress
    names and on which appending never fails, appends its wire format, the length
    announced for that is the number of octets, the canonical form is as long, and
    parsing the data of a record that holds these octets gives the same data back
    and takes all of it.  The data is what its type promises: names of at most 255
    octets, character strings of at most 255, TXT data of at least one string, and
    at most 65535 octets in all.  (C9) *)
Theorem zone_roundtrip (d : ZoneRecordData N) x (b : B) :
  zone_is d x ->
  exists b' c', compose_rdata d b = Ret (b', true) /\ as_ref b' = as_ref b ++ zone_wire x /\
    compose_canonical_rdata d b = Ret (c', true) /\ as_ref c' = as_ref b ++ zone_cwire x /\
    rd_rdlen (B:=B) d false = Ret (Some (zlen (zone_wire x))) /\ zlen (zone_cwire x) = zlen (zone_wire x) /\
    forall p : P, wf_octets (p_octets p) -> drop (p_pos p) (visible p) = zone_wire x ->
      exists d' p', zone_parse_rdata (zone_rtype d) p = Ret (Ok (Some d', p')) /\ zone_rel wf_parsed d' x /\
        moved p p' (length (visible p)).
Proof using All.
  intros Hx. destruct (data_writes (is_:=zone_is) d x Hx) as [Hw Hs], (data_canonical (is_:=zone_is) d x Hx) as [Hw' Hs'].
  destruct (Hs _ b) as [b' Eb], (Hs' _ b) as [c' Ec]. exists b', c'. destruct (Hw b) as (? & ? & ? & Eb' & Hb' & Ht), (Hw' b) as (? & ? & ? & Ec' & Hc' & Ht').
  rewrite Eb in Eb'. rewrite Ec in Ec'. injection Eb' as <- <-. injection Ec' as <- <-. rewrite Ht in Hb' by done. rewrite Ht' in Hc' by done.
  assert (Hl : zlen (zone_wire x) < 2 ^ 16) by (pose proof (zone_wire_len x (proj2 Hx)); lia). split_and!; try done.
  - destruct (data_rdlen (is_:=zone_is) d x false Hx Hl) as [E|[? _]]; done.
  - unfold zlen. by rewrite (data_cwire (RecordDataOk := zone_data_ok (B:=B) (N:=N)) x).
  - intros p Hp Hd. destruct (zone_finds (zone_rtype d) p Hp) as (r & Hr & _ & Hc).
    pose proof (zone_rel_rtype _ _ _ (proj1 Hx)) as Et.
    pose proof (p_bounds p) as Hb. destruct (Hc x (length (visible p))) as (o & p' & -> & (d' & -> & Hd') & Hm).
    { rewrite Et. apply (zone_lays x (proj2 Hx)); [done|]. rewrite length_visible. lia. }
    by exists d', p'.
Qed.
End RoundTrip.

(** ** The canonical order *)

Section Order.
Context {N I : Type} `{ToLabelIter N I} `{!LabelIterOk I}.
Context {M J : Type} `{ToLabelIter M J} `{!LabelIterOk J}.

(** The variants of [b] and [y], given the type of [b]. *)
Ltac zone_variants_of b y Et Hb Ob :=
  destruct b; cbn [zone_rtype] in Et; try discriminate Et; destruct y; try contradiction Hb; cbn [zone_rel zone_ok] in Hb, Ob;
  try (exfalso; apply (proj1 Ob); rewrite <- Hb, <- Et; by_decide).

Ltac zone_same a x b y Et Ha Hb Oa Ob :=
  destruct a; destruct x; try contradiction Ha; cbn [zone_rtype zone_rel zone_ok] in *; zone_variants_of b y Et Hb Ob;
  try (exfalso; apply (proj1 Oa); rewrite <- Ha, Et; by_decide).

(** Of data of one type with the one order or the other. *)
Ltac zone_order :=
  subst; cbn [zone_canonical_cmp zone_cwire];
  first
    [ by apply name_data_order | by apply minfo_order | by apply mx_order | by apply soa_order | by apply srv_order
    | by apply rrsig_order | by apply dnskey_order | by apply ds_order | by apply nsec3_order | by apply nsec3param_order
    | by apply zonemd_order | f_equal; apply hinfo_order | reflexivity ].

(** RFC 4034 orders the records of a set by their data in canonical form, octet by
    octet.  That is how [canonical_cmp] compares data of the same type; and it
    compares data of different types by type, unless both are unknown.  NSEC data is
    left out: its orders do not look at the types of the other record
    ([nsec_types_ignored]).  (C10) *)
Theorem zone_canonical_order (a : ZoneRecordData N) (b : ZoneRecordData M) x y :
  zone_is a x -> zone_is b y ->
  (zone_rtype a = zone_rtype b -> zone_rtype a <> RTYPE_NSEC ->
   zone_canonical_cmp a b = Ret (iter_cmp (zone_cwire x) (zone_cwire y))) /\
  (zone_rtype a <> zone_rtype b -> zone_rtype a ∈ zone_rtypes \/ zone_rtype b ∈ zone_rtypes ->
   zone_canonical_cmp a b = Ret (zone_rtype a ?= zone_rtype b)).
Proof using All.
  intros [Ha Oa] [Hb Ob]. split.
  - intros Et Hn. zone_same a x b y Et Ha Hb Oa Ob; first [by destruct (Hn eq_refl) | zone_order].
  - intros Et Hk. destruct a, b; first [by destruct (Et eq_refl) | reflexivity | idtac].
    exfalso. destruct x; try contradiction Ha. destruct y; try contradiction Hb. cbn in *. subst. by destruct Oa, Ob, Hk.
Qed.
End Order.

(** ** Examples *)

Definition ex_mx : Mx labels := mkMx 10 [[98]; [97]; []].

Lemma ex_mx_ok : mx_ok ex_mx.
Proof. split; [by_decide|]. split; [apply ex_ba_ok|by_decide]. Qed.

Lemma zone_parse_correct_witness :
  exists o p', zone_parse_rdata RTYPE_MX (p_from_ref [0; 10; 1; 98; 1; 97; 0] : slice_parser) = Ret (Ok (o, p')) /\ parsed_as o (ZoneMx ex_mx).
Proof.
  destruct (zone_parse_correct RTYPE_MX (p_from_ref [0; 10; 1; 98; 1; 97; 0] : slice_parser)) as (r & Hr & _ & Hc); [by_decide|discriminate|].
  destruct (Hc (ZoneMx ex_mx) 7%nat) as (o & p' & -> & Ho & _).
  - apply (zone_lays (ZoneMx ex_mx) ex_mx_ok); [reflexivity|]. by_decide.
  - exists o, p'. split; [exact Hr|exact Ho].
Defined.

Lemma zone_roundtrip_witness :
  exists b', compose_rdata (B:=list Z) (ZoneMx (mkMx 10 ex_ba)) [1] = Ret (b', true) /\ b' = [1; 0; 10; 1; 98; 1; 97; 0].
Proof.
  destruct (zone_roundtrip (B:=list Z) (P:=slice_parser) (ZoneMx (mkMx 10 ex_ba)) (ZoneMx ex_mx) [1]) as (b' & c' & E & Hb & _).
  - split; [|apply ex_mx_ok]. split; [reflexivity|apply ex_ba_ok].
  - exists b'. split; [exact E|exact Hb].
Defined.

Lemma zone_canonical_order_witness :
  zone_canonical_cmp (ZoneMx (mkMx 10 ex_ba)) (ZoneMx (mkMx 10 ex_ba)) = Ret Eq.
Proof.
  assert (Hi : zone_is (ZoneMx (mkMx 10 ex_ba)) (ZoneMx ex_mx)) by (split; [split; [reflexivity|apply ex_ba_ok]|apply ex_mx_ok]).
  destruct (zone_canonical_order _ _ _ _ Hi Hi) as [H _]. rewrite H; [reflexivity|reflexivity|]. cbn. intros E. discriminate E.
Defined.

(** The same data given in the notation for unknown types is of the other variant:
    not equal, but neither less nor greater. *)
Lemma zone_order_unknown_variant :
  let a := ZoneA (mkA [192; 0; 2; 1]) : ZoneRecordData Name in
  let b := ZoneUnknown (mkUnknown RTYPE_A [192; 0; 2; 1]) : ZoneRecordData Name in
  zone_eq a b = Ret false /\ zone_canonical_cmp a b = Ret Eq /\ zone_cmp a b = Ret Eq.
Proof. by vm_compute. Qed.

(** Unknown data is equal whatever its type. *)
Lemma zone_unknown_eq_ignores_type :
  zone_eq (N:=Name) (M:=Name) (ZoneUnknown (mkUnknown 65280 [1])) (ZoneUnknown (mkUnknown 65281 [1])) = Ret true.
Proof. by vm_compute. Qed.
