(* ===== verification/Flatten.v ===== *)
(** * Flat names and data ([FlattenInto], [src/src/base/name/traits.rs])

    Names that are read from a message or a zone file are made into names with
    octets of their own, and record data and records are made into those with such
    names. *)

From S2P Require Import Prelude Octets Serial Symbol Label Traits Name NameBuilder Chain ParsedName Header Compressor MessageBuilder Message Record Ttl Layout Rdata Bitmap Txt Dnssec Nsec3 ZoneData.
From stdpp Require Import list.
#[local] Open Scope Z_scope.

(** ** Names *)

(** The trait, with [Name] for its target. *)
Class FlattenInto (N : Type) := try_flatten_into : N -> outcome (result Name unit).

#[export] Instance name_flatten_into : FlattenInto Name := fun n => Ret (Ok n).
#[export] Instance parsed_flatten_into : FlattenInto ParsedName := pn_flatten (B:=list Z).
#[export] Instance chain_flatten_into {L I} `{ToLabelIter L I} {R J} `{ToLabelIter R J} `{FlattenInto R} : FlattenInto (Chain L R) :=
  chain_flatten (B:=list Z) try_flatten_into.

(** [flatten_into]: there is no error to return. *)
Definition infallible {A E} (r : outcome (result A E)) : outcome A :=
  let! r := r in match r with Ok a => Ret a | Err _ => Panic end.

(** ** Record data *)

Section Flatten.
Context {N : Type} `{FlattenInto N}.

Definition name_data_flatten (d : NameData N) : outcome (result (NameData Name) unit) :=
  let!? n := try_flatten_into (nd_name d) in Ret (Ok (mkNameData n)).

Definition minfo_flatten (d : Minfo N) : outcome (result (Minfo Name) unit) :=
  let!? rmailbx := try_flatten_into (mi_rmailbx d) in
  let!? emailbx := try_flatten_into (mi_emailbx d) in Ret (Ok (mkMinfo rmailbx emailbx)).

Definition mx_flatten (d : Mx N) : outcome (result (Mx Name) unit) :=
  let!? exchange := try_flatten_into (mx_exchange d) in Ret (Ok (mkMx (mx_preference d) exchange)).

Definition soa_flatten (d : Soa N) : outcome (result (Soa Name) unit) :=
  let!? mname := try_flatten_into (soa_mname d) in
  let!? rname := try_flatten_into (soa_rname d) in
  Ret (Ok (mkSoa mname rname (soa_serial d) (soa_refresh d) (soa_retry d) (soa_expire d) (soa_minimum d))).

Definition srv_flatten (d : Srv N) : outcome (result (Srv Name) unit) :=
  let!? target := try_flatten_into (srv_target d) in Ret (Ok (mkSrv (srv_priority d) (srv_weight d) (srv_port d) target)).

Definition rrsig_flatten (d : Rrsig N) : outcome (result (Rrsig Name) unit) :=
  let p := rs_proto d in
  let!? signer_name := try_flatten_into (pr_signer_name p) in
  Ret (Ok (mkRrsig (mkProtoRrsig (pr_type_covered p) (pr_algorithm p) (pr_labels p) (pr_original_ttl p) (pr_expiration p) (pr_inception p)
    (pr_key_tag p) signer_name) (rs_signature d))).

Definition nsec_flatten (d : Nsec N) : outcome (result (Nsec Name) unit) :=
  let!? next_name := try_flatten_into (ns_next_name d) in Ret (Ok (mkNsec next_name (ns_types d))).

(** [inner.flatten().map(ZoneRecordData::..)]. *)
Definition flatten_arm {A B} (variant : B -> ZoneRecordData Name) (flatten : A -> outcome (result B unit)) (d : A)
    : outcome (result (ZoneRecordData Name) unit) :=
  let!? d := flatten d in Ret (Ok (variant d)).

Definition zone_flatten (d : ZoneRecordData N) : outcome (result (ZoneRecordData Name) unit) :=
  match d with
  | ZoneA d => Ret (Ok (ZoneA d))
  | ZoneCname d => flatten_arm ZoneCname name_data_flatten d
  | ZoneHinfo d => Ret (Ok (ZoneHinfo d))
  | ZoneMb d => flatten_arm ZoneMb name_data_flatten d
  | ZoneMd d => flatten_arm ZoneMd name_data_flatten d
  | ZoneMf d => flatten_arm ZoneMf name_data_flatten d
  | ZoneMg d => flatten_arm ZoneMg name_data_flatten d
  | ZoneMinfo d => flatten_arm ZoneMinfo minfo_flatten d
  | ZoneMr d => flatten_arm ZoneMr name_data_flatten d
  | ZoneMx d => flatten_arm ZoneMx mx_flatten d
  | ZoneNs d => flatten_arm ZoneNs name_data_flatten d
  | ZonePtr d => flatten_arm ZonePtr name_data_flatten d
  | ZoneSoa d => flatten_arm ZoneSoa soa_flatten d
  | ZoneTxt d => Ret (Ok (ZoneTxt d))
  | ZoneAaaa d => Ret (Ok (ZoneAaaa d))
  | ZoneCdnskey d => Ret (Ok (ZoneCdnskey d))
  | ZoneCds d => Ret (Ok (ZoneCds d))
  | ZoneDname d => flatten_arm ZoneDname name_data_flatten d
  | ZoneDnskey d => Ret (Ok (ZoneDnskey d))
  | ZoneRrsig d => flatten_arm ZoneRrsig rrsig_flatten d
  | ZoneNsec d => flatten_arm ZoneNsec nsec_flatten d
  | ZoneDs d => Ret (Ok (ZoneDs d))
  | ZoneNsec3 d => Ret (Ok (ZoneNsec3 d))
  | ZoneNsec3param d => Ret (Ok (ZoneNsec3param d))
  | ZoneSrv d => flatten_arm ZoneSrv srv_flatten d
  | ZoneZonemd d => Ret (Ok (ZoneZonemd d))
  | ZoneUnknown d => Ret (Ok (ZoneUnknown d))
  end.

Definition record_flatten (r : ResourceRecord N (ZoneRecordData N)) : outcome (result (ResourceRecord Name (ZoneRecordData Name)) unit) :=
  let!? owner := try_flatten_into (rr_owner r) in
  let!? data := zone_flatten (rr_data r) in Ret (Ok (mkRR owner (rr_class r) (rr_ttl r) data)).
End Flatten.

(** ** Correctness *)

(** Record data with its names replaced. *)
Definition zone_map {N M} (f : N -> M) (d : ZoneRecordData N) : ZoneRecordData M :=
  let name d := mkNameData (f (nd_name d)) in
  match d with
  | ZoneA d => ZoneA d
  | ZoneCname d => ZoneCname (name d)
  | ZoneHinfo d => ZoneHinfo d
  | ZoneMb d => ZoneMb (name d)
  | ZoneMd d => ZoneMd (name d)
  | ZoneMf d => ZoneMf (name d)
  | ZoneMg d => ZoneMg (name d)
  | ZoneMinfo d => ZoneMinfo (mkMinfo (f (mi_rmailbx d)) (f (mi_emailbx d)))
  | ZoneMr d => ZoneMr (name d)
  | ZoneMx d => ZoneMx (mkMx (mx_preference d) (f (mx_exchange d)))
  | ZoneNs d => ZoneNs (name d)
  | ZonePtr d => ZonePtr (name d)
  | ZoneSoa d =>
      ZoneSoa (mkSoa (f (soa_mname d)) (f (soa_rname d)) (soa_serial d) (soa_refresh d) (soa_retry d) (soa_expire d) (soa_minimum d))
  | ZoneTxt d => ZoneTxt d
  | ZoneAaaa d => ZoneAaaa d
  | ZoneCdnskey d => ZoneCdnskey d
  | ZoneCds d => ZoneCds d
  | ZoneDname d => ZoneDname (name d)
  | ZoneDnskey d => ZoneDnskey d
  | ZoneRrsig d =>
      let p := rs_proto d in
      ZoneRrsig (mkRrsig (mkProtoRrsig (pr_type_covered p) (pr_algorithm p) (pr_labels p) (pr_original_ttl p) (pr_expiration p) (pr_inception p)
        (pr_key_tag p) (f (pr_signer_name p))) (rs_signature d))
  | ZoneNsec d => ZoneNsec (mkNsec (f (ns_next_name d)) (ns_types d))
  | ZoneDs d => ZoneDs d
  | ZoneNsec3 d => ZoneNsec3 d
  | ZoneNsec3param d => ZoneNsec3param d
  | ZoneSrv d => ZoneSrv (mkSrv (srv_priority d) (srv_weight d) (srv_port d) (f (srv_target d)))
  | ZoneZonemd d => ZoneZonemd d
  | ZoneUnknown d => ZoneUnknown d
  end.

(** What holds of all names in record data. *)
Definition zone_names {N} (P : N -> Prop) (d : ZoneRecordData N) : Prop :=
  match d with
  | ZoneCname d | ZoneMb d | ZoneMd d | ZoneMf d | ZoneMg d | ZoneMr d | ZoneNs d | ZonePtr d | ZoneDname d => P (nd_name d)
  | ZoneMinfo d => P (mi_rmailbx d) /\ P (mi_emailbx d)
  | ZoneMx d => P (mx_exchange d)
  | ZoneSoa d => P (soa_mname d) /\ P (soa_rname d)
  | ZoneRrsig d => P (pr_signer_name (rs_proto d))
  | ZoneNsec d => P (ns_next_name d)
  | ZoneSrv d => P (srv_target d)
  | _ => True
  end.

Section Correct.
Context {N : Type} `{FlattenInto N}.

(** Flattening undoes a change of the names that it undoes for each of them. *)
Lemma zone_flatten_map (g : Name -> N) (d : ZoneRecordData Name) :
  zone_names (fun n => try_flatten_into (g n) = Ret (Ok n)) d -> zone_flatten (zone_map g d) = Ret (Ok d).
Proof.
  destruct d; cbn [zone_names zone_map zone_flatten]; try done; unfold flatten_arm, name_data_flatten, minfo_flatten, mx_flatten, soa_flatten, srv_flatten, rrsig_flatten, nsec_flatten; cbn;
    try (intros ->; by destruct d); try (intros [-> ->]; by destruct d).
  intros ->. by destruct d as [[] ?].
Qed.

(** It gives data of the same type. *)
Lemma zone_flatten_rtype (d : ZoneRecordData N) :
  zone_names (fun n => exists m, try_flatten_into n = Ret (Ok m)) d -> exists d', zone_flatten d = Ret (Ok d') /\ zone_rtype d' = zone_rtype d.
Proof.
  destruct d; cbn [zone_names zone_flatten]; unfold flatten_arm, name_data_flatten, minfo_flatten, mx_flatten, soa_flatten, srv_flatten, rrsig_flatten, nsec_flatten;
    try (intros _; by eexists); try (intros [m ->]; by eexists); intros [[m ->] [m' ->]]; by eexists.
Qed.
End Correct.

(** ** Names are flattened to the name with their labels *)

Section Names.
Context {N I : Type} `{ToLabelIter N I} `{!LabelIterOk I}.

Lemma name_compose_flat (n : N) ls : name_ok n ls -> name_compose n (builder_empty : list Z) = Ret (labels_wire ls, true).
Proof using LabelIterOk0.
  intros Hn. destruct (Writes_name (B:=list Z) n ls Hn) as [Ha Hs]. destruct (Hs _ builder_empty) as [b E]. rewrite E.
  destruct (Ha builder_empty) as (b' & ok & t & E' & Hb & Ht). rewrite E in E'. injection E' as <- <-. rewrite Ht in Hb by done. cbn in Hb. by rewrite Hb.
Qed.
End Names.

Lemma parsed_flatten_spec (n : ParsedName) ls : name_ok n ls -> try_flatten_into n = Ret (Ok (mkName (labels_wire ls))).
Proof. intros Hn. unfold try_flatten_into, parsed_flatten_into, pn_flatten. by rewrite (name_compose_flat n ls Hn). Qed.

Section Chains.
Context {L I R J : Type} `{ToLabelIter L I} `{!LabelIterOk I} `{ToLabelIter R J} `{!LabelIterOk J} `{FlattenInto R}.

Lemma chain_flatten_spec (l : L) (r : R) ls rs : denotes l ls -> try_flatten_into r = Ret (Ok (mkName (labels_wire rs))) ->
  name_ok (mkChain l r) (ls ++ rs) -> try_flatten_into (mkChain l r) = Ret (Ok (mkName (labels_wire (ls ++ rs)))).
Proof.
  intros [Hl _] Hr Hc. unfold try_flatten_into at 1, chain_flatten_into, chain_flatten. cbn [chain_left chain_right]. destruct ls as [|x ls].
  - destruct (li_next_nil _ Hl) as (? & -> & _). exact Hr.
  - destruct (li_next_cons _ _ _ Hl) as (? & -> & _). pose proof (proj1 (proj2 (proj1 Hc))) as Hlen. cbn [compose_len chain_to_label_iter] in Hlen. rewrite Hlen.
    by rewrite (name_compose_flat _ _ Hc).
Qed.
End Chains.
