(* ===== verification/ScanData.v ===== *)
(** * Scanning zone record data

    The [scan] functions of the record data types ([src/src/rdata/]) read their
    data from the tokens of any [Scanner]; [ZoneRecordData::scan], written by the
    macro of [rdata/macros.rs], chooses among them.  Those of the types of RFC 1035
    are with the types.  The calendar of the [time] crate is the parameter
    [unix_time]: the time stamp of a date and time, [None] if there is no such. *)

From S2P Require Import Prelude Octets Serial Symbol BaseCodec CharStr Label Traits Name ParsedName Header Compressor MessageBuilder Message Record Scanner Iana IpText Ttl Layout Rdata Bitmap Txt Dnssec Nsec3 ZoneData.
From stdpp Require Import strings.
#[local] Open Scope Z_scope.

Section ScanData.
Context {S N I : Type} `{Scanner S N} `{ToLabelIter N I} {B : Type} `{OctetsBuilder B}.
Context (oc : bool) (unix_time : Z -> Z -> Z -> Z -> Z -> Z -> option Z).

(** ** Addresses *)

Definition addr_scan {T} (from_str : list Z -> option T) (expected : StrError) (scanner : S) : outcome (S * result T StrError) :=
  scan_then (s_scan_octets scanner) (fun token scanner =>
  Ret (scanner, match from_utf8 token with
                | None => Err expected
                | Some chars => ok_or (from_str chars) expected
                end)).

Definition a_scan : S -> outcome (S * result A StrError) :=
  addr_scan (fun s => option_map mkA (ipv4_from_str s)) (str_custom "expected IPv4 address").
Definition aaaa_scan : S -> outcome (S * result Aaaa StrError) :=
  addr_scan (fun s => option_map mkAaaa (ipv6_from_str s)) (str_custom "expected IPv6 address").

(** ** Numbers with names *)

Definition iana_scan (from_str : list Z -> option Z) (expected : string) : S -> outcome (S * result Z StrError) :=
  s_scan_ascii_str (fun s => ok_or (from_str s) (str_custom expected)).

Definition rtype_scan := iana_scan rtype_from_str "expected Rtype".
Definition secalg_scan := iana_scan decimal_from_str "expected SecAlg".
Definition digestalg_scan := iana_scan decimal_from_str "expected DigestAlg".
Definition nsec3hash_scan := iana_scan decimal_from_str "expected Nsec3HashAlg".

Definition ttl_scan (scanner : S) : outcome (S * result Ttl StrError) :=
  scan_then (scan_ttl oc scanner) (fun secs => scan_ok (ttl_from_secs secs)).

Definition serial_scan (scanner : S) : outcome (S * result Serial StrError) :=
  scan_then (scan_uint oc 32 scanner) (fun serial => scan_ok (mkSerial serial)).

(** ** Time stamps *)

Definition illegal_time : StrError := str_custom "illegal signature time".

(** The closure: the digits read so far, at most 14. *)
Definition time_step (buf : list Z) (symbol : Symbol) : outcome (result (list Z) StrError) :=
  Ret (if (14 <=? length buf)%nat then Err illegal_time
       else match symbol_into_digit symbol 10 with Ok d => Ok (buf ++ [d]) | Err _ => Err illegal_time end).

(** [u8_from_buf] and [u32_from_buf]: no number is large enough to overflow. *)
Definition from_buf (buf : list Z) : Z := fold_left (fun res ch => res * 10 + ch) buf 0.

Definition timestamp_of_digits (buf : list Z) : result Timestamp StrError :=
  if (length buf <=? 10)%nat then
    if 2 ^ 32 - 1 <? from_buf buf then Err illegal_time else Ok (mkTimestamp (mkSerial (from_buf buf)))
  else if (length buf =? 14)%nat then
    let field from to := from_buf (take (to - from) (drop from buf)) in
    match unix_time (field 0 4)%nat (field 4 6)%nat (field 6 8)%nat (field 8 10)%nat (field 10 12)%nat (field 12 14)%nat with
    | Some secs => Ok (mkTimestamp (mkSerial (secs mod 2 ^ 32)))
    | None => Err illegal_time
    end
  else Err illegal_time.

Definition timestamp_scan (scanner : S) : outcome (S * result Timestamp StrError) :=
  scan_then (s_scan_symbols time_step [] scanner) (fun buf scanner => Ret (scanner, timestamp_of_digits buf)).

(** ** Bitmaps *)

(** The [while] loop takes a token a round. *)
Fixpoint bitmap_scan_loop (fuel : nat) (scanner : S) (builder : RtypeBitmapBuilder B)
    : outcome (S * result (RtypeBitmapBuilder B) StrError) :=
  match fuel with
  | O => Panic
  | Datatypes.S fuel' =>
      if s_continues scanner then
        scan_then (rtype_scan scanner) (fun rtype scanner =>
        let! (builder, ok) := rb_add rtype builder in
        if ok : bool then bitmap_scan_loop fuel' scanner builder else Ret (scanner, Err str_short_buf))
      else Ret (scanner, Ok builder)
  end.

Definition bitmap_scan (fuel : nat) (scanner : S) : outcome (S * result RtypeBitmap StrError) :=
  scan_then (bitmap_scan_loop fuel scanner (rb_with_builder builder_empty)) (fun builder scanner =>
  let! bitmap := rb_finalize builder in Ret (scanner, Ok bitmap)).

(** ** The types of DNSSEC *)

Definition long_data {T} (r : result T LongRecordData) : result T StrError := map_err (fun _ => str_custom "record data too long") r.

Definition key_scan {T} (new : Z -> Z -> Z -> list Z -> result T LongRecordData) (scanner : S) : outcome (S * result T StrError) :=
  scan_then (scan_uint oc 16 scanner) (fun flags scanner =>
  scan_then (scan_uint oc 8 scanner) (fun protocol scanner =>
  scan_then (secalg_scan scanner) (fun algorithm scanner =>
  scan_then (s_convert_entry b64_converter_new scanner) (fun public_key scanner =>
  Ret (scanner, long_data (new flags protocol algorithm public_key)))))).

Definition dnskey_scan := key_scan dnskey_new.
Definition cdnskey_scan := key_scan cdnskey_new.

Definition digest_scan {T} (new : Z -> Z -> Z -> list Z -> result T LongRecordData) (scanner : S) : outcome (S * result T StrError) :=
  scan_then (scan_uint oc 16 scanner) (fun key_tag scanner =>
  scan_then (secalg_scan scanner) (fun algorithm scanner =>
  scan_then (digestalg_scan scanner) (fun digest_type scanner =>
  scan_then (s_convert_entry hex_converter_new scanner) (fun digest scanner =>
  Ret (scanner, long_data (new key_tag algorithm digest_type digest)))))).

Definition ds_scan := digest_scan ds_new.
Definition cds_scan := digest_scan cds_new.

Definition rrsig_scan (scanner : S) : outcome (S * result (Rrsig N) StrError) :=
  scan_then (rtype_scan scanner) (fun type_covered scanner =>
  scan_then (secalg_scan scanner) (fun algorithm scanner =>
  scan_then (scan_uint oc 8 scanner) (fun labels scanner =>
  scan_then (ttl_scan scanner) (fun original_ttl scanner =>
  scan_then (timestamp_scan scanner) (fun expiration scanner =>
  scan_then (timestamp_scan scanner) (fun inception scanner =>
  scan_then (scan_uint oc 16 scanner) (fun key_tag scanner =>
  scan_then (s_scan_name scanner) (fun signer_name scanner =>
  scan_then (s_convert_entry b64_converter_new scanner) (fun signature scanner =>
  let! r := rrsig_new (mkProtoRrsig type_covered algorithm labels original_ttl expiration inception key_tag signer_name) signature in
  Ret (scanner, long_data r)))))))))).

Definition nsec_scan (fuel : nat) (scanner : S) : outcome (S * result (Nsec N) StrError) :=
  scan_then (s_scan_name scanner) (fun next_name scanner =>
  scan_then (bitmap_scan fuel scanner) (fun types => scan_ok (mkNsec next_name types))).

Definition nsec3_scan (fuel : nat) (scanner : S) : outcome (S * result Nsec3 StrError) :=
  scan_then (nsec3hash_scan scanner) (fun hash_algorithm scanner =>
  scan_then (scan_uint oc 8 scanner) (fun flags scanner =>
  scan_then (scan_uint oc 16 scanner) (fun iterations scanner =>
  scan_then (salt_scan scanner) (fun salt scanner =>
  scan_then (hash_scan scanner) (fun next_owner scanner =>
  scan_then (bitmap_scan fuel scanner) (fun types =>
  scan_ok (mkNsec3 hash_algorithm flags iterations salt next_owner types))))))).

Definition nsec3param_scan (scanner : S) : outcome (S * result Nsec3param StrError) :=
  scan_then (nsec3hash_scan scanner) (fun hash_algorithm scanner =>
  scan_then (scan_uint oc 8 scanner) (fun flags scanner =>
  scan_then (scan_uint oc 16 scanner) (fun iterations scanner =>
  scan_then (salt_scan scanner) (fun salt => scan_ok (mkNsec3param hash_algorithm flags iterations salt))))).

Definition zonemd_scan (scanner : S) : outcome (S * result Zonemd StrError) :=
  scan_then (serial_scan scanner) (fun serial scanner =>
  scan_then (scan_uint oc 8 scanner) (fun scheme scanner =>
  scan_then (scan_uint oc 8 scanner) (fun algo scanner =>
  scan_then (s_convert_entry hex_converter_new scanner) (fun digest =>
  scan_ok (mkZonemd serial (scheme_from_u8 scheme) (algorithm_from_u8 algo) digest))))).

(** ** Zone record data *)

(** One arm of the match: [scan(scanner).map(variant)]. *)
Definition scan_arm {D} (variant : D -> ZoneRecordData N) (scan : S -> outcome (S * result D StrError)) (scanner : S)
    : outcome (S * result (ZoneRecordData N) StrError) :=
  let! (scanner, r) := scan scanner in Ret (scanner, result_map variant r).

Definition zone_scan_known (fuel : nat) (rtype : Z) : S -> outcome (S * result (ZoneRecordData N) StrError) :=
  if rtype =? RTYPE_A then scan_arm ZoneA a_scan
  else if rtype =? RTYPE_CNAME then scan_arm ZoneCname name_data_scan
  else if rtype =? RTYPE_HINFO then scan_arm ZoneHinfo hinfo_scan
  else if rtype =? RTYPE_MB then scan_arm ZoneMb name_data_scan
  else if rtype =? RTYPE_MD then scan_arm ZoneMd name_data_scan
  else if rtype =? RTYPE_MF then scan_arm ZoneMf name_data_scan
  else if rtype =? RTYPE_MG then scan_arm ZoneMg name_data_scan
  else if rtype =? RTYPE_MINFO then scan_arm ZoneMinfo minfo_scan
  else if rtype =? RTYPE_MR then scan_arm ZoneMr name_data_scan
  else if rtype =? RTYPE_MX then scan_arm ZoneMx (mx_scan oc)
  else if rtype =? RTYPE_NS then scan_arm ZoneNs name_data_scan
  else if rtype =? RTYPE_PTR then scan_arm ZonePtr name_data_scan
  else if rtype =? RTYPE_SOA then scan_arm ZoneSoa (soa_scan oc)
  else if rtype =? RTYPE_TXT then scan_arm ZoneTxt txt_scan
  else if rtype =? RTYPE_AAAA then scan_arm ZoneAaaa aaaa_scan
  else if rtype =? RTYPE_CDNSKEY then scan_arm ZoneCdnskey cdnskey_scan
  else if rtype =? RTYPE_CDS then scan_arm ZoneCds cds_scan
  else if rtype =? RTYPE_DNAME then scan_arm ZoneDname name_data_scan
  else if rtype =? RTYPE_DNSKEY then scan_arm ZoneDnskey dnskey_scan
  else if rtype =? RTYPE_RRSIG then scan_arm ZoneRrsig rrsig_scan
  else if rtype =? RTYPE_NSEC then scan_arm ZoneNsec (nsec_scan fuel)
  else if rtype =? RTYPE_DS then scan_arm ZoneDs ds_scan
  else if rtype =? RTYPE_NSEC3 then scan_arm ZoneNsec3 (nsec3_scan fuel)
  else if rtype =? RTYPE_NSEC3PARAM then scan_arm ZoneNsec3param nsec3param_scan
  else if rtype =? RTYPE_SRV then scan_arm ZoneSrv (srv_scan oc)
  else if rtype =? RTYPE_ZONEMD then scan_arm ZoneZonemd zonemd_scan
  else fun scanner => Ret (scanner, Err (str_custom "unknown record type with concrete data")).

Definition zone_scan (fuel : nat) (rtype : Z) (scanner : S) : outcome (S * result (ZoneRecordData N) StrError) :=
  scan_then (s_scan_opt_unknown_marker scanner) (fun marked =>
  if marked : bool then scan_arm ZoneUnknown (unknown_scan_without_marker oc rtype)
  else zone_scan_known fuel rtype).
End ScanData.
