(* ===== verification/SourceBuf.v ===== *)
(** * The buffer of a zone file ([src/src/zonefile/inplace.rs], [SourceBuf])

    [SourceBuf] holds the text of a zone file and the position of the next symbol;
    tokens are read symbol by symbol, and [next_item] moves on to the next token
    or the end of the line.  What is before the position is free space, where the
    scanner puts the data it makes of the tokens. *)

From S2P Require Import Prelude Octets Symbol BaseCodec CharStr Label Traits Name NameBuilder Record Scanner.
From stdpp Require Import strings.
#[local] Open Scope Z_scope.

(** [EntryError] holds a message, like [StrError]. *)
Definition EntryError : Type := StrError.
Definition bad_symbol : EntryError := str_custom "bad symbol".
Definition bad_charstr : EntryError := str_custom "bad charstr".
Definition bad_name : EntryError := str_custom "bad name".
Definition unbalanced_parens : EntryError := str_custom "unbalanced parens".
Definition missing_last_owner : EntryError := str_custom "missing last owner".
Definition missing_origin : EntryError := str_custom "missing origin".
Definition expected_rtype : EntryError := str_custom "expected rtype".
Definition unknown_control : EntryError := str_custom "unknown control".
Definition end_of_entry : EntryError := str_custom "unexpected end of entry".
Definition short_buf : EntryError := str_custom "short buffer".
Definition trailing_tokens : EntryError := str_custom "trailing tokens".

Inductive ItemCat := CatNone | CatUnquoted | CatQuoted | CatLineFeed.

#[export] Instance ItemCat_eq_dec : EqDecision ItemCat.
Proof. solve_decision. Defined.

Record SourceBuf := mkSB {
  sb_buf : list Z;
  sb_start : nat;
  sb_cat : ItemCat;
  sb_has_space : bool;
  sb_parens : nat;
  sb_line_num : Z;
  sb_line_start : Z;
}.

(** Assignments to fields. *)
Definition sb_with_buf (b : list Z) (sb : SourceBuf) : SourceBuf :=
  mkSB b (sb_start sb) (sb_cat sb) (sb_has_space sb) (sb_parens sb) (sb_line_num sb) (sb_line_start sb).
Definition sb_with_start (n : nat) (sb : SourceBuf) : SourceBuf :=
  mkSB (sb_buf sb) n (sb_cat sb) (sb_has_space sb) (sb_parens sb) (sb_line_num sb) (sb_line_start sb).
Definition sb_with_cat (c : ItemCat) (sb : SourceBuf) : SourceBuf :=
  mkSB (sb_buf sb) (sb_start sb) c (sb_has_space sb) (sb_parens sb) (sb_line_num sb) (sb_line_start sb).
Definition sb_with_has_space (b : bool) (sb : SourceBuf) : SourceBuf :=
  mkSB (sb_buf sb) (sb_start sb) (sb_cat sb) b (sb_parens sb) (sb_line_num sb) (sb_line_start sb).
Definition sb_with_parens (n : nat) (sb : SourceBuf) : SourceBuf :=
  mkSB (sb_buf sb) (sb_start sb) (sb_cat sb) (sb_has_space sb) n (sb_line_num sb) (sb_line_start sb).

(** [self.line_num += 1; self.line_start = self.start as isize]. *)
Definition sb_new_line (sb : SourceBuf) : SourceBuf :=
  mkSB (sb_buf sb) (sb_start sb) (sb_cat sb) (sb_has_space sb) (sb_parens sb) (sb_line_num sb + 1) (Z.of_nat (sb_start sb)).

Definition sb_advance (n : nat) (sb : SourceBuf) : SourceBuf := sb_with_start (sb_start sb + n)%nat sb.

Definition with_empty_buf : SourceBuf := mkSB [0] 1 CatNone false 0 1 1.

Definition extend_from_slice (s : list Z) (sb : SourceBuf) : SourceBuf := sb_with_buf (sb_buf sb ++ s) sb.

(** [Error]: where an error was noticed. *)
Record ZoneFileError := mkZoneFileError { zfe_err : EntryError; zfe_line : Z; zfe_col : Z }.

(** The column is computed in [isize] and cast to [usize]. *)
Definition sb_error (sb : SourceBuf) (err : EntryError) : ZoneFileError :=
  mkZoneFileError err (sb_line_num sb) ((Z.of_nat (sb_start sb) + 1 - sb_line_start sb) mod 2 ^ 64).

Definition require_token (sb : SourceBuf) : result unit EntryError :=
  match sb_cat sb with
  | CatNone => Err short_buf
  | CatLineFeed => Err end_of_entry
  | CatQuoted | CatUnquoted => Ok ()
  end.

Definition is_line_feed (sb : SourceBuf) : bool := bool_decide (sb_cat sb = CatLineFeed).

Definition require_line_feed (sb : SourceBuf) : result unit EntryError := if is_line_feed sb then Ok () else Err trailing_tokens.

(** ** Reading symbols *)

(** The next symbol and its end, for [_next_symbol]. *)
Definition symbol_at (sb : SourceBuf) : result (Symbol * nat) EntryError :=
  match symbol_from_slice_index (sb_buf sb) (sb_start sb) with
  | Ok (Some s) => Ok s
  | Ok None => Err short_buf
  | Err _ => Err bad_symbol
  end.

Definition peek_symbol (sb : SourceBuf) : option Symbol :=
  match sb_cat sb with
  | CatNone | CatLineFeed => None
  | CatUnquoted =>
      match symbol_at sb with Ok (sym, _) => if symbol_is_word_char sym then Some sym else None | Err _ => None end
  | CatQuoted =>
      match symbol_at sb with Ok (sym, _) => if bool_decide (sym = Char 34) then None else Some sym | Err _ => None end
  end.

Definition next_symbol_if {T} (want : Symbol -> option T) (sb : SourceBuf) : SourceBuf * result (option T) EntryError :=
  match sb_cat sb with
  | CatNone | CatLineFeed => (sb, Ok None)
  | CatUnquoted =>
      match symbol_at sb with
      | Err e => (sb, Err e)
      | Ok (sym, sym_end) =>
          if negb (symbol_is_word_char sym) then (sb_with_cat CatNone sb, Ok None)
          else match want sym with
          | Some some => (sb_with_start sym_end sb, Ok (Some some))
          | None => (sb, Ok None)
          end
      end
  | CatQuoted =>
      match symbol_at sb with
      | Err e => (sb, Err e)
      | Ok (sym, sym_end) =>
          match want sym with
          | None => (sb, Ok None)
          | Some res =>
              if bool_decide (sym = Char 34) then (sb_with_cat CatNone (sb_with_start sym_end sb), Ok None)
              else
                let sb := sb_with_start sym_end sb in
                (if bool_decide (sym = Char 10) then sb_new_line sb else sb, Ok (Some res))
          end
      end
  end.

Definition next_symbol : SourceBuf -> SourceBuf * result (option Symbol) EntryError := next_symbol_if Some.

Definition next_char_symbol : SourceBuf -> SourceBuf * result (option Z) EntryError :=
  next_symbol_if (fun sym => match sym with Char ch => Some ch | _ => None end).

Definition next_ascii_symbol (sb : SourceBuf) : SourceBuf * option Z :=
  match sb_cat sb with
  | CatNone | CatLineFeed => (sb, None)
  | cat =>
      match sb_buf sb !! sb_start sb with
      | None => (sb, None)
      | Some ch =>
          if bool_decide (cat = CatUnquoted) then
            if (ch <? 0x21) || (0x7F <? ch) || (ch =? 34) || (ch =? 40) || (ch =? 41) || (ch =? 59) || (ch =? 92)
            then (sb, None) else (sb_advance 1 sb, Some ch)
          else if ch =? 34 then (sb_with_cat CatNone (sb_advance 1 sb), None)
          else if (ch <? 0x21) || (0x7F <? ch) || (ch =? 92) then (sb, None)
          else (sb_advance 1 sb, Some ch)
      end
  end.

(** ** The next item *)

(** Where the comment that goes on here ends. *)
Fixpoint comment_len (s : list Z) : nat :=
  match s with
  | ch :: s' => if ch =? 10 then O else S (comment_len s')
  | [] => O
  end.

(** Every round of the loop moves the position. *)
Fixpoint next_item_loop (fuel : nat) (sb : SourceBuf) : outcome (SourceBuf * result unit EntryError) :=
  match fuel with
  | O => Panic
  | S fuel' =>
      match sb_buf sb !! sb_start sb with
      | None => Ret (sb_with_cat CatNone sb, Ok ())
      | Some ch =>
          let next := sb_advance 1 sb in
          if (ch =? 32) || (ch =? 9) || (ch =? 13) then next_item_loop fuel' (sb_with_has_space true next)
          else if ch =? 40 then next_item_loop fuel' (sb_with_parens (sb_parens sb + 1) next)
          else if ch =? 41 then
            match sb_parens sb with
            | O => Ret (sb, Err unbalanced_parens)
            | S n => next_item_loop fuel' (sb_with_parens n next)
            end
          else if ch =? 59 then next_item_loop fuel' (sb_advance (comment_len (drop (sb_start next) (sb_buf sb))) next)
          else if ch =? 10 then
            let next := sb_new_line next in
            if (sb_parens sb =? 0)%nat then Ret (sb_with_cat CatLineFeed next, Ok ()) else next_item_loop fuel' next
          else if ch =? 34 then Ret (sb_with_cat CatQuoted next, Ok ())
          else Ret (sb_with_cat CatUnquoted sb, Ok ())
      end
  end.

Definition next_item (sb : SourceBuf) : outcome (SourceBuf * result unit EntryError) :=
  match sb_cat sb with
  | CatUnquoted | CatQuoted => Panic
  | _ => next_item_loop (S (length (sb_buf sb))) (sb_with_has_space false sb)
  end.

(** ** Skipping tokens *)

Definition skip_at_token (sb : SourceBuf) : outcome (SourceBuf * result bool EntryError) :=
  if negb (bool_decide (peek_symbol sb = Some (Char 64))) then Ret (sb, Ok false)
  else
    match symbol_at (sb_advance 1 sb) with
    | Err e => Ret (sb, Err e)
    | Ok (sym, sym_end) =>
        let skip start := scan_then (next_item (sb_with_cat CatNone (sb_with_start start sb))) (fun _ => scan_ok true) in
        match sb_cat sb with
        | CatNone | CatLineFeed => Panic
        | CatUnquoted => if negb (symbol_is_word_char sym) then skip (sb_start sb + 1)%nat else Ret (sb, Ok false)
        | CatQuoted => if bool_decide (sym = Char 34) then skip sym_end else Ret (sb, Ok false)
        end
    end.

Definition skip_unknown_marker (sb : SourceBuf) : outcome (SourceBuf * result bool EntryError) :=
  if negb (bool_decide (sb_cat sb = CatUnquoted)) then Ret (sb, Ok false)
  else match symbol_from_slice_index (sb_buf sb) (sb_start sb) with
  | Ok (Some (sym, sym_end)) =>
      if negb (bool_decide (sym = SimpleEscape 35)) then Ret (sb, Ok false)
      else match symbol_from_slice_index (sb_buf sb) sym_end with
      | Ok (Some (sym, sym_end)) =>
          if symbol_is_word_char sym then Ret (sb, Ok false)
          else scan_then (next_item (sb_with_cat CatNone (sb_with_start sym_end sb))) (fun _ => scan_ok true)
      | _ => Ret (sb, Ok false)
      end
  | _ => Ret (sb, Ok false)
  end.

(** ** Cutting the buffer *)

Definition split_to (at_ : nat) (sb : SourceBuf) : outcome (SourceBuf * list Z) :=
  if (at_ <=? sb_start sb)%nat then
    if (at_ <=? length (sb_buf sb))%nat then
      Ret (mkSB (drop at_ (sb_buf sb)) (sb_start sb - at_) (sb_cat sb) (sb_has_space sb) (sb_parens sb) (sb_line_num sb)
             (sb_line_start sb - Z.of_nat at_),
           take at_ (sb_buf sb))
    else Panic
  else Panic.

Definition trim_to (at_ : nat) (sb : SourceBuf) : outcome SourceBuf := let! (sb, _) := split_to at_ sb in Ret sb.

(** [self.buf[at] = octet]. *)
Definition put_octet (at_ : nat) (octet : Z) (sb : SourceBuf) : outcome SourceBuf :=
  if (at_ <? length (sb_buf sb))%nat then Ret (sb_with_buf (<[at_ := octet]> (sb_buf sb)) sb) else Panic.

(** [self.buf[at..at + octets.len()].copy_from_slice(octets)]. *)
Definition put_octets (at_ : nat) (octets : list Z) (sb : SourceBuf) : outcome SourceBuf :=
  if (at_ + length octets <=? length (sb_buf sb))%nat
  then Ret (sb_with_buf (take at_ (sb_buf sb) ++ octets ++ drop (at_ + length octets) (sb_buf sb)) sb) else Panic.
