(* ===== verification/Lex.v ===== *)
(** * The tokens of a zone file

    What the text of an entry stands for, as relations between the text, what is
    read from it and the text left: [Token] reads the symbols of one token, [Lex]
    passes over white space, comments and parentheses and reads tokens.  The
    functions of [SourceBuf] follow these relations. *)

From S2P Require Import Prelude Octets Symbol BaseCodec CharStr Label Traits Name NameBuilder Record Scanner SourceBuf.
#[local] Open Scope Z_scope.

(** ** One symbol *)

Definition lex_symbol (t : list Z) : option (Symbol * list Z) :=
  match symbol_from_slice_index t 0 with Ok (Some (sym, n)) => Some (sym, drop n t) | _ => None end.

Definition shift {A} (pos : nat) (r : result (A * nat) SymbolOctetsError) : result (A * nat) SymbolOctetsError :=
  match r with Ok (a, n) => Ok (a, (pos + n)%nat) | Err e => Err e end.

Definition shift_opt {A} (pos : nat) (r : result (option (A * nat)) SymbolOctetsError) : result (option (A * nat)) SymbolOctetsError :=
  match r with Ok (Some (a, n)) => Ok (Some (a, (pos + n)%nat)) | r => r end.

Lemma next_utf8_drop s pos k : next_utf8 s (pos + k) = shift pos (next_utf8 (drop pos s) k).
Proof. unfold next_utf8. rewrite lookup_drop. destruct (s !! (pos + k)%nat); [|done]. case_match; [done|]. cbn. by rewrite Nat.add_assoc. Qed.

Lemma next_digit_octet_drop s pos k : next_digit_octet s (pos + k) = shift pos (next_digit_octet (drop pos s) k).
Proof. unfold next_digit_octet. rewrite lookup_drop. destruct (s !! (pos + k)%nat); [|done]. case_match; [|done]. cbn. by rewrite Nat.add_assoc. Qed.

Lemma utf8_char_shift v pos k : utf8_char v (pos + k) = shift_opt pos (utf8_char v k).
Proof. unfold utf8_char. by destruct (char_try_from v). Qed.

Lemma symbol_from_slice_index_drop s pos :
  symbol_from_slice_index s pos = shift_opt pos (symbol_from_slice_index (drop pos s) 0).
Proof.
  unfold symbol_from_slice_index. rewrite !lookup_drop, Nat.add_0_r. change (0 + 1)%nat with 1%nat. destruct (s !! pos) as [c1|]; [|done].
  destruct (c1 =? 92).
  - destruct (s !! (pos + 1)%nat) as [c2|]; [|done]. destruct (is_ascii_control c2); [done|].
    destruct (is_ascii_digit c2); cbn [negb]; [|cbn; do 3 f_equal; lia].
    rewrite <- Nat.add_assoc, next_digit_octet_drop. cbn [Nat.add]. destruct (next_digit_octet _ 2) as [[c3 k]|]; [|done]. cbn [shift].
    rewrite next_digit_octet_drop. destruct (next_digit_octet _ k) as [[c4 k']|]; [|done]. cbn [shift]. by case_match.
  - destruct (c1 <? 128); [done|]. destruct (_ =? 0); [done|].
    rewrite next_utf8_drop. cbn [Nat.add]. destruct (next_utf8 _ 1) as [[c2 k]|]; [|done]. cbn [shift].
    destruct (_ =? 0); [by apply utf8_char_shift|].
    rewrite next_utf8_drop. destruct (next_utf8 _ k) as [[c3 k2]|]; [|done]. cbn [shift].
    destruct (_ =? 0); [by apply utf8_char_shift|].
    rewrite next_utf8_drop. destruct (next_utf8 _ k2) as [[c4 k3]|]; [|done]. cbn [shift]. by apply utf8_char_shift.
Qed.

Lemma next_utf8_step s pos c n : next_utf8 s pos = Ok (c, n) -> (n = pos + 1 /\ n <= length s)%nat.
Proof.
  unfold next_utf8. destruct (s !! pos) eqn:E; [|done]. apply lookup_lt_Some in E. case_match; [done|]. intros [= <- <-]. lia.
Qed.

Lemma next_digit_octet_step s pos c n : next_digit_octet s pos = Ok (c, n) -> (n = pos + 1 /\ n <= length s)%nat.
Proof.
  unfold next_digit_octet. destruct (s !! pos) eqn:E; [|done]. apply lookup_lt_Some in E. case_match; [|done]. intros [= <- <-]. lia.
Qed.

(** A symbol ends behind where it starts and before the end of the text. *)
Lemma symbol_from_slice_index_end s pos sym n : symbol_from_slice_index s pos = Ok (Some (sym, n)) -> (pos < n <= length s)%nat.
Proof.
  unfold symbol_from_slice_index, utf8_char. destruct (s !! pos) as [c1|] eqn:E1; [|done]. apply lookup_lt_Some in E1.
  destruct (c1 =? 92).
  - destruct (s !! (pos + 1)%nat) as [c2|] eqn:E2; [|done]. apply lookup_lt_Some in E2. destruct (is_ascii_control c2); [done|].
    destruct (is_ascii_digit c2); cbn [negb]; [|intros [= <- <-]; lia].
    destruct (next_digit_octet s (pos + 1 + 1)) as [[c3 k]|] eqn:E3; [|done]. apply next_digit_octet_step in E3.
    destruct (next_digit_octet s k) as [[c4 k']|] eqn:E4; [|done]. apply next_digit_octet_step in E4.
    case_match; [done|]. intros [= <- <-]. lia.
  - destruct (c1 <? 128); [intros [= <- <-]; lia|]. destruct (_ =? 0); [done|].
    destruct (next_utf8 s (pos + 1)) as [[c2 k]|] eqn:E2; [|done]. apply next_utf8_step in E2.
    destruct (_ =? 0); [case_match; [|done]; intros [= <- <-]; lia|].
    destruct (next_utf8 s k) as [[c3 k2]|] eqn:E3; [|done]. apply next_utf8_step in E3.
    destruct (_ =? 0); [case_match; [|done]; intros [= <- <-]; lia|].
    destruct (next_utf8 s k2) as [[c4 k3]|] eqn:E4; [|done]. apply next_utf8_step in E4.
    case_match; [|done]. intros [= <- <-]. lia.
Qed.

(** ** Tokens *)

(** Octets other than these start a word; these end one. *)
Definition word_start (ch : Z) : bool :=
  negb (ch =? 32) && negb (ch =? 9) && negb (ch =? 13) && negb (ch =? 40) && negb (ch =? 41) && negb (ch =? 59) &&
  negb (ch =? 10) && negb (ch =? 34).

Definition in_token (cat : ItemCat) (sym : Symbol) : bool :=
  match cat with
  | CatUnquoted => symbol_is_word_char sym
  | CatQuoted => negb (bool_decide (sym = Char 34))
  | _ => false
  end.

(** [Token cat t syms t']: a token of category [cat] whose content starts at [t] has
    the symbols [syms] and ends before [t']; the closing quote is part of it. *)
Inductive Token : ItemCat -> list Z -> list Symbol -> list Z -> Prop :=
  | Token_word_end ch t : word_start ch = false -> Token CatUnquoted (ch :: t) [] (ch :: t)
  | Token_quote_end t : Token CatQuoted (34 :: t) [] t
  | Token_symbol cat t sym t1 syms t' :
      lex_symbol t = Some (sym, t1) -> in_token cat sym = true -> Token cat t1 syms t' -> Token cat t (sym :: syms) t'.

(** A token: its category and its symbols. *)
Definition tok : Type := ItemCat * list Symbol.

(** Octets that are passed over between tokens, with the number of open
    parentheses before and after. *)
Inductive Skip : nat -> list Z -> nat -> list Z -> Prop :=
  | Skip_space p ch t : ch = 32 \/ ch = 9 \/ ch = 13 -> Skip p (ch :: t) p t
  | Skip_open p t : Skip p (40 :: t) (S p) t
  | Skip_close p t : Skip (S p) (41 :: t) p t
  | Skip_comment p c t : Forall (fun ch => ch <> 10) c -> (t = [] \/ head t = Some 10) -> Skip p (59 :: c ++ t) p t
  | Skip_line p t : Skip (S p) (10 :: t) (S p) t.

(** Where a token starts. *)
Inductive Start : ItemCat -> list Z -> list Z -> Prop :=
  | Start_word ch t : word_start ch = true -> Start CatUnquoted (ch :: t) (ch :: t)
  | Start_quote t : Start CatQuoted (34 :: t) t.

(** The marker of unknown data ends at white space. *)
Definition marker_ends (cat : ItemCat) (syms : list Symbol) (t : list Z) : Prop :=
  cat = CatUnquoted -> syms = [SimpleEscape 35] -> match t with ch :: _ => ch = 32 \/ ch = 9 \/ ch = 13 | [] => False end.

Inductive Lex : nat -> list Z -> list tok -> nat -> list Z -> Prop :=
  | Lex_nil p t : Lex p t [] p t
  | Lex_skip p t p1 t1 toks p' t' : Skip p t p1 t1 -> Lex p1 t1 toks p' t' -> Lex p t toks p' t'
  | Lex_tok p t cat t1 syms t2 toks p' t' :
      Start cat t t1 -> Token cat t1 syms t2 -> marker_ends cat syms t2 -> Lex p t2 toks p' t' -> Lex p t ((cat, syms) :: toks) p' t'.
#[export] Hint Constructors Token Skip Start Lex : core.

Lemma Lex_app p t toks p1 t1 toks' p2 t2 : Lex p t toks p1 t1 -> Lex p1 t1 toks' p2 t2 -> Lex p t (toks ++ toks') p2 t2.
Proof. induction 1; intros; cbn; eauto. Qed.

Lemma Lex_skips p t p1 t1 toks p2 t2 : Lex p t [] p1 t1 -> Lex p1 t1 toks p2 t2 -> Lex p t toks p2 t2.
Proof. intros H1 H2. by apply (Lex_app _ _ _ _ _ _ _ _ H1 H2). Qed.

(** ** The buffer *)

Definition sb_text (sb : SourceBuf) : list Z := drop (sb_start sb) (sb_buf sb).
Definition sb_ok (sb : SourceBuf) : Prop := (sb_start sb <= length (sb_buf sb))%nat.

(** Reading moves the position only. *)
Definition moved (sb sb' : SourceBuf) : Prop :=
  sb_buf sb' = sb_buf sb /\ (sb_start sb <= sb_start sb')%nat /\ sb_ok sb' /\ sb_parens sb' = sb_parens sb.

(** Writing changes octets before the position only. *)
Definition keeps (sb sb' : SourceBuf) : Prop :=
  sb_start sb' = sb_start sb /\ length (sb_buf sb') = length (sb_buf sb) /\ sb_text sb' = sb_text sb /\
  sb_cat sb' = sb_cat sb /\ sb_parens sb' = sb_parens sb.

Lemma sb_text_length sb : sb_ok sb -> (length (sb_text sb) + sb_start sb = length (sb_buf sb))%nat.
Proof. unfold sb_ok, sb_text. rewrite length_drop. lia. Qed.

Lemma sb_ok_keeps sb sb' : keeps sb sb' -> sb_ok sb -> sb_ok sb'.
Proof. intros (E1 & E2 & _). unfold sb_ok. lia. Qed.

Lemma symbol_at_lex sb sym t :
  lex_symbol (sb_text sb) = Some (sym, t) ->
  exists n, symbol_at sb = Ok (sym, n) /\ (sb_start sb < n <= length (sb_buf sb))%nat /\ drop n (sb_buf sb) = t.
Proof.
  unfold lex_symbol, symbol_at, sb_text. rewrite (symbol_from_slice_index_drop (sb_buf sb)).
  destruct (symbol_from_slice_index (drop (sb_start sb) (sb_buf sb)) 0) as [[[sym' n]|]|] eqn:E; try done. intros [= <- <-].
  apply symbol_from_slice_index_end in E. rewrite length_drop in E. exists (sb_start sb + n)%nat. cbn [shift_opt]. rewrite drop_drop. split_and!; [done|lia|lia|done].
Qed.

Lemma next_symbol_in sb sym t :
  lex_symbol (sb_text sb) = Some (sym, t) -> in_token (sb_cat sb) sym = true ->
  exists sb', next_symbol sb = (sb', Ok (Some sym)) /\ moved sb sb' /\ (sb_start sb < sb_start sb')%nat /\
    sb_text sb' = t /\ sb_cat sb' = sb_cat sb.
Proof.
  intros Hl Hi. destruct (symbol_at_lex sb sym t Hl) as (n & E & Hn & Ht).
  unfold next_symbol, next_symbol_if, in_token in *. rewrite E. destruct (sb_cat sb) eqn:Ec; try done.
  - rewrite Hi. cbn [negb]. eexists. split; [done|]. unfold moved, sb_ok, sb_text. cbn. split_and!; try done; lia.
  - apply negb_true_iff in Hi. rewrite Hi. destruct (bool_decide (sym = Char 10)); (eexists; split; [done|]);
      unfold moved, sb_ok, sb_text; cbn; split_and!; try done; lia.
Qed.

Lemma lex_word_end ch t : word_start ch = false -> lex_symbol (ch :: t) = Some (Char ch, t) /\ symbol_is_word_char (Char ch) = false.
Proof.
  unfold word_start. rewrite !andb_false_iff, !negb_false_iff, !Z.eqb_eq. intros H. repeat destruct H as [H|H]; subst ch; done.
Qed.

Lemma next_symbol_end sb t :
  sb_ok sb -> Token (sb_cat sb) (sb_text sb) [] t ->
  exists sb', next_symbol sb = (sb', Ok None) /\ moved sb sb' /\ sb_text sb' = t /\ sb_cat sb' = CatNone.
Proof.
  intros Hok H. inversion H as [ch t0 Hw Ec Et|t0 Ec Et|]; subst.
  - destruct (lex_word_end ch t0 Hw) as [Hl Hn]. rewrite Et in Hl.
    destruct (symbol_at_lex sb (Char ch) t0 Hl) as (n & E & Hn' & Ht). unfold next_symbol, next_symbol_if. rewrite <- Ec, E, Hn.
    eexists. split; [done|]. by unfold moved.
  - assert (Hl : lex_symbol (sb_text sb) = Some (Char 34, t)) by by rewrite <- Et.
    destruct (symbol_at_lex sb _ _ Hl) as (n & E & Hn & Ht). unfold next_symbol, next_symbol_if. rewrite <- Ec, E. cbn.
    eexists. split; [done|]. unfold moved, sb_ok, sb_text. cbn. split_and!; try done; lia.
Qed.

(** ** The next item *)

(** The tokens left in an entry, from a state where an item has been found: [rest] is
    the text behind the line feed that ends the entry. *)
Definition at_tokens (sb : SourceBuf) (toks : list tok) (rest : list Z) : Prop :=
  sb_ok sb /\
  match toks with
  | [] => sb_cat sb = CatLineFeed /\ sb_parens sb = 0%nat /\ sb_text sb = rest
  | (cat, syms) :: toks =>
      sb_cat sb = cat /\ exists t, Token cat (sb_text sb) syms t /\ marker_ends cat syms t /\ Lex (sb_parens sb) t toks 0 (10 :: rest)
  end.

Lemma sb_text_cons sb ch t : sb_text sb = ch :: t -> sb_buf sb !! sb_start sb = Some ch /\ sb_text (sb_advance 1 sb) = t /\ sb_ok (sb_advance 1 sb).
Proof.
  unfold sb_text, sb_ok. intros E. assert (sb_buf sb !! sb_start sb = Some ch) as El.
  { rewrite <- (Nat.add_0_r (sb_start sb)), <- lookup_drop, E. done. }
  split; [done|]. cbn. rewrite <- drop_drop, E. apply lookup_lt_Some in El. split; [done|lia].
Qed.

Lemma comment_len_app c t : Forall (fun ch => ch <> 10) c -> t = [] \/ head t = Some 10 -> comment_len (c ++ t) = length c.
Proof.
  intros Hc Ht. induction Hc as [|ch c Hch _ IH]; cbn.
  - destruct Ht as [->|Ht]; [done|]. destruct t as [|ch t]; [done|]. by injection Ht as ->.
  - destruct (Z.eqb_spec ch 10); [done|]. by rewrite IH.
Qed.

Lemma next_item_loop_lex p t toks rest sb fuel :
  Lex p t toks 0 (10 :: rest) -> sb_ok sb -> sb_text sb = t -> sb_parens sb = p -> (length t < fuel)%nat ->
  exists sb', next_item_loop fuel sb = Ret (sb', Ok ()) /\ at_tokens sb' toks rest /\ sb_buf sb' = sb_buf sb /\ (sb_start sb <= sb_start sb')%nat /\
    ((match t with ch :: _ => word_start ch = false | [] => True end) -> (sb_start sb < sb_start sb')%nat).
Proof.
  intros H. remember 0%nat as p' eqn:Ep'. remember (10 :: rest) as t' eqn:Et'. revert sb fuel.
  induction H as [p t|p t p1 t1 toks p' t' Hs _ IH|p t cat t1 syms t2 toks p' t' Hst Htok Hmk HL _]; intros sb fuel Hok Et Ep Hf; subst.
  - destruct fuel as [|fuel]; [lia|]. cbn [next_item_loop]. destruct (sb_text_cons _ _ _ Et) as (-> & Et' & Hok'). rewrite Ep. cbn.
    eexists. split; [done|]. unfold at_tokens, sb_text, sb_ok in *. cbn in *. split_and!; try done; lia.
  - destruct fuel as [|fuel]; [cbn in Hf; lia|]. cbn [next_item_loop].
    assert (Hgo : forall sb1, sb_ok sb1 -> sb_text sb1 = t1 -> sb_parens sb1 = p1 -> (length t1 < fuel)%nat -> sb_buf sb1 = sb_buf sb ->
      (sb_start sb < sb_start sb1)%nat ->
      exists sb', next_item_loop fuel sb1 = Ret (sb', Ok ()) /\ at_tokens sb' toks rest /\ sb_buf sb' = sb_buf sb /\ (sb_start sb <= sb_start sb')%nat /\
        ((match sb_text sb with ch :: _ => word_start ch = false | [] => True end) -> (sb_start sb < sb_start sb')%nat)).
    { intros sb1 H1 H2 H3 H4 H5 H6. destruct (IH eq_refl eq_refl sb1 fuel) as (sb' & E & Ha & Eb & Hle & _); try done.
      exists sb'. rewrite Eb. split_and!; try done; lia. }
    inversion Hs as [q ch u Hch E1 E2 E3 E4|q u E1 E2 E3 E4|q u E1 E2 E3 E4|q c u Hc Hu E1 E2 E3 E4|q u E1 E2 E3 E4]; subst;
      rewrite <- E2 in *; symmetry in E2; destruct (sb_text_cons _ _ _ E2) as (-> & Et' & Hok').
    + assert ((ch =? 32) || (ch =? 9) || (ch =? 13) = true) as -> by (destruct Hch as [->|[->| ->]]; done).
      apply Hgo; try done; cbn in *; lia.
    + cbn. apply Hgo; try done; cbn in *; lia.
    + cbn. rewrite <- ?E1. apply Hgo; try done; cbn in *; lia.
    + cbn [Z.eqb Pos.eqb orb]. assert (comment_len (drop (sb_start (sb_advance 1 sb)) (sb_buf sb)) = length c) as ->.
      { fold (sb_text (sb_advance 1 sb)). change (sb_buf sb) with (sb_buf (sb_advance 1 sb)). fold (sb_text (sb_advance 1 sb)).
        rewrite Et'. by apply comment_len_app. }
      assert (Hl : length (sb_text (sb_advance 1 sb)) = (length c + length t1)%nat) by (rewrite Et', length_app; done).
      pose proof (sb_text_length _ Hok'). apply Hgo; try done.
      * unfold sb_ok in *. cbn in *. lia.
      * unfold sb_text in *. cbn in *. rewrite <- drop_drop, Et'. apply drop_app_length.
      * rewrite length_cons, length_app in Hf. lia.
      * cbn. lia.
    + cbn. rewrite <- ?E1. apply Hgo; try done; cbn in *; lia.
  - destruct fuel as [|fuel]; [cbn in Hf; lia|]. cbn [next_item_loop].
    inversion Hst as [ch u Hw E1 E2 E3|u E1 E2 E3]; subst; rewrite <- E2 in *; symmetry in E2; destruct (sb_text_cons _ _ _ E2) as (-> & Et' & Hok').
    + unfold word_start in Hw. repeat (apply andb_true_iff in Hw as [Hw ?]). 
      repeat match goal with H : negb _ = true |- _ => apply negb_true_iff in H; rewrite H end. cbn [orb].
      eexists. split; [done|]. cbn. split_and!; try done; [unfold at_tokens; cbn; split_and!; try done; exists t2; unfold sb_text in *; cbn; by rewrite E2|].
      intros Hn. unfold word_start in Hn. repeat match goal with H : (_ =? _) = false |- _ => rewrite H in Hn; clear H end. done.
    + cbn. eexists. split; [done|]. split_and!; try done; cbn; try lia. unfold at_tokens. cbn. split_and!; try done. exists t2. unfold sb_text in *. cbn in *. by rewrite Et'.
Qed.

Lemma next_item_lex sb toks rest :
  sb_cat sb = CatNone \/ sb_cat sb = CatLineFeed -> sb_ok sb -> Lex (sb_parens sb) (sb_text sb) toks 0 (10 :: rest) ->
  exists sb', next_item sb = Ret (sb', Ok ()) /\ at_tokens sb' toks rest /\ sb_buf sb' = sb_buf sb /\ (sb_start sb <= sb_start sb')%nat /\
    ((match sb_text sb with ch :: _ => word_start ch = false | [] => True end) -> (sb_start sb < sb_start sb')%nat).
Proof.
  intros Hc Hok HL. assert (next_item sb = next_item_loop (S (length (sb_buf sb))) (sb_with_has_space false sb)) as ->.
  { unfold next_item. by destruct Hc as [-> | ->]. }
  apply (next_item_loop_lex (sb_parens sb) (sb_text sb) toks rest (sb_with_has_space false sb)); try done. pose proof (sb_text_length sb Hok). lia.
Qed.
