(* ===== verification/Inplace.v ===== *)
(** * Zone files ([src/src/zonefile/inplace.rs])

    [EntryScanner] is the scanner that reads the tokens of an entry of a zone file
    and puts what they stand for into the buffer where they were; [Zonefile] reads
    the entries one by one and keeps the origin, the last owner, class and TTL.
    The scanner borrows the zone file: its state is that of the zone file.  The
    methods that touch the buffer only are functions on [SourceBuf]. *)

From S2P Require Import Prelude Octets Serial Symbol BaseCodec CharStr Label Traits Name NameBuilder Chain ParsedName Header Compressor MessageBuilder Message Record Scanner Iana IpText Ttl Layout Rdata Bitmap Txt Dnssec Nsec3 ZoneData ScanData SourceBuf.
From stdpp Require Import strings.
#[local] Open Scope Z_scope.

(** ** Loops over symbols *)

(** Rounds that are enough: each moves the position of the buffer. *)
Definition sb_fuel (sb : SourceBuf) : nat := S (length (sb_buf sb)).

(** [while let Some(sym) = buf.next_symbol()? { op(sym)? }], where [op] may use the
    buffer. *)
Fixpoint each_next {A} (op : A -> Symbol -> SourceBuf -> outcome (SourceBuf * result A EntryError)) (fuel : nat) (acc : A) (sb : SourceBuf)
    : outcome (SourceBuf * result A EntryError) :=
  match fuel with
  | O => Panic
  | S fuel' =>
      match next_symbol sb with
      | (sb, Err e) => Ret (sb, Err e)
      | (sb, Ok None) => Ret (sb, Ok acc)
      | (sb, Ok (Some sym)) => scan_then (op acc sym sb) (each_next op fuel')
      end
  end.

(** [while buf.next_ascii_symbol()?.is_some() { count += 1 }]. *)
Fixpoint skip_ascii (fuel count : nat) (sb : SourceBuf) : outcome (SourceBuf * nat) :=
  match fuel with
  | O => Panic
  | S fuel' =>
      match next_ascii_symbol sb with
      | (sb, Some _) => skip_ascii fuel' (S count) sb
      | (sb, None) => Ret (sb, count)
      end
  end.

Fixpoint skip_char (fuel : nat) (sb : SourceBuf) : outcome (SourceBuf * result unit EntryError) :=
  match fuel with
  | O => Panic
  | S fuel' =>
      match next_char_symbol sb with
      | (sb, Err e) => Ret (sb, Err e)
      | (sb, Ok (Some _)) => skip_char fuel' sb
      | (sb, Ok None) => Ret (sb, Ok ())
      end
  end.

(** [self.zonefile.buf.require_token()?]. *)
Definition with_item {A} (k : SourceBuf -> outcome (SourceBuf * result A EntryError)) (sb : SourceBuf)
    : outcome (SourceBuf * result A EntryError) :=
  match require_token sb with Err e => Ret (sb, Err e) | Ok _ => k sb end.

(** Moves to the next item and cuts off what was written. *)
Definition take_written (write : nat) (sb : SourceBuf) : outcome (SourceBuf * result (list Z) EntryError) :=
  scan_then (next_item sb) (fun _ sb => let! (sb, res) := split_to write sb in Ret (sb, Ok res)).

(** ** Reading tokens *)

Definition sb_scan_symbols {A} (op : A -> Symbol -> outcome (result A EntryError)) (acc : A) : SourceBuf -> outcome (SourceBuf * result A EntryError) :=
  with_item (fun sb =>
    scan_then (each_next (fun acc sym sb => let! r := op acc sym in Ret (sb, r)) (sb_fuel sb) acc sb) (fun acc sb =>
    scan_then (next_item sb) (fun _ => scan_ok acc))).

Fixpoint entry_symbols_loop {A} (op : A -> EntrySymbol -> outcome (result A EntryError)) (fuel : nat) (acc : A) (sb : SourceBuf)
    : outcome (SourceBuf * result A EntryError) :=
  match fuel with
  | O => Panic
  | S fuel' =>
      with_item (fun sb =>
        scan_then (each_next (fun acc sym sb => let! r := op acc (ESymbol sym) in Ret (sb, r)) (sb_fuel sb) acc sb) (fun acc sb =>
        let! r := op acc EndOfToken in
        match r with
        | Err e => Ret (sb, Err e)
        | Ok acc =>
            scan_then (next_item sb) (fun _ sb =>
            if is_line_feed sb then Ret (sb, Ok acc) else entry_symbols_loop op fuel' acc sb)
        end)) sb
  end.

Definition sb_scan_entry_symbols {A} (op : A -> EntrySymbol -> outcome (result A EntryError)) (acc : A) (sb : SourceBuf)
    : outcome (SourceBuf * result A EntryError) :=
  entry_symbols_loop op (sb_fuel sb) acc sb.

(** ** Converting *)

Section Converting.
Context {C : Type} `{ConvertSymbols C}.

(** The variables [convert], [write] and [builder]. *)
Definition Converting : Type := C * nat * option (list Z).

Definition append_output (data : list Z) (write : nat) (builder : option (list Z)) (sb : SourceBuf)
    : outcome (SourceBuf * nat * option (list Z)) :=
  match builder with
  | Some builder => Ret (sb, write, Some (builder ++ data))
  | None =>
      let new_write := (write + length data)%nat in
      if (sb_start sb <? new_write)%nat then
        if (write <=? length (sb_buf sb))%nat then Ret (sb, write, Some (take write (sb_buf sb) ++ data)) else Panic
      else let! sb := put_octets write data sb in Ret (sb, new_write, None)
  end.

(** [if let Some(data) = r? { self.append_data(data, write, builder) }]. *)
Definition append_result (c : C) (r : result (option (list Z)) StrError) (write : nat) (builder : option (list Z)) (sb : SourceBuf)
    : outcome (SourceBuf * result Converting EntryError) :=
  match r with
  | Err e => Ret (sb, Err e)
  | Ok None => Ret (sb, Ok (c, write, builder))
  | Ok (Some data) =>
      let! (sb, write, builder) := append_output data write builder sb in Ret (sb, Ok (c, write, builder))
  end.

Definition convert_step (st : Converting) (sym : Symbol) (sb : SourceBuf) : outcome (SourceBuf * result Converting EntryError) :=
  let '(c, write, builder) := st in
  let! (c, r) := process_symbol c (ESymbol sym) in append_result c r write builder sb.

Definition convert_one_token (st : Converting) : SourceBuf -> outcome (SourceBuf * result Converting EntryError) :=
  with_item (fun sb =>
    scan_then (each_next convert_step (sb_fuel sb) st sb) (fun st sb =>
    scan_then (next_item sb) (fun _ => scan_ok st))).

Definition convert_finish (st : Converting) (sb : SourceBuf) : outcome (SourceBuf * result (list Z) EntryError) :=
  let '(c, write, builder) := st in
  let! (c, r) := process_tail c in
  scan_then (append_result c r write builder sb) (fun st sb =>
  match st with
  | (_, _, Some builder) => Ret (sb, Ok builder)
  | (_, write, None) => let! (sb, res) := split_to write sb in Ret (sb, Ok res)
  end).

Definition sb_convert_token (convert : C) (sb : SourceBuf) : outcome (SourceBuf * result (list Z) EntryError) :=
  scan_then (convert_one_token (convert, O, None) sb) convert_finish.

Fixpoint convert_tokens_loop (fuel : nat) (st : Converting) (sb : SourceBuf) : outcome (SourceBuf * result Converting EntryError) :=
  match fuel with
  | O => Panic
  | S fuel' =>
      scan_then (convert_one_token st sb) (fun st sb =>
      if is_line_feed sb then Ret (sb, Ok st) else convert_tokens_loop fuel' st sb)
  end.

Definition sb_convert_entry (convert : C) (sb : SourceBuf) : outcome (SourceBuf * result (list Z) EntryError) :=
  scan_then (convert_tokens_loop (sb_fuel sb) (convert, O, None) sb) convert_finish.
End Converting.

(** ** Octets, strings and names *)

(** [buf[write] = sym.into_octet()?; write += 1], or with another conversion. *)
Definition write_symbol (conv : Symbol -> result Z BadSymbol) (write : nat) (sym : Symbol) (sb : SourceBuf)
    : outcome (SourceBuf * result nat EntryError) :=
  match conv sym with
  | Err _ => Ret (sb, Err bad_symbol)
  | Ok ch => let! sb := put_octet write ch sb in Ret (sb, Ok (write + 1)%nat)
  end.

Definition sb_scan_octets : SourceBuf -> outcome (SourceBuf * result (list Z) EntryError) :=
  with_item (fun sb =>
    let! sb := trim_to (sb_start sb) sb in
    let! (sb, _) := skip_ascii (sb_fuel sb) 0 sb in
    scan_then (each_next (write_symbol symbol_into_octet) (sb_fuel sb) (sb_start sb) sb) take_written).

Definition sb_scan_ascii_str {T} (op : list Z -> result T EntryError) : SourceBuf -> outcome (SourceBuf * result T EntryError) :=
  with_item (fun sb =>
    let! sb := trim_to (sb_start sb) sb in
    let! (sb, write) := skip_ascii (sb_fuel sb) 0 sb in
    scan_then
      (if bool_decide (sb_cat sb = CatNone) then Ret (sb, Ok write)
       else each_next (write_symbol symbol_into_ascii) (sb_fuel sb) write sb) (fun write sb =>
    if (write <=? length (sb_buf sb))%nat then
      match op (take write (sb_buf sb)) with
      | Err e => Ret (sb, Err e)
      | Ok res => scan_then (next_item sb) (fun _ => scan_ok res)
      end
    else Panic)).

(** [sym.into_char()?.encode_utf8(&mut buf[write..start])]: the slice must be large
    enough. *)
Definition write_char (write : nat) (sym : Symbol) (sb : SourceBuf) : outcome (SourceBuf * result nat EntryError) :=
  match symbol_into_char sym with
  | Err _ => Ret (sb, Err bad_symbol)
  | Ok ch =>
      let octets := encode_utf8 ch in
      if (write + length octets <=? sb_start sb)%nat
      then let! sb := put_octets write octets sb in Ret (sb, Ok (write + length octets)%nat) else Panic
  end.

Definition sb_scan_string : SourceBuf -> outcome (SourceBuf * result (list Z) EntryError) :=
  with_item (fun sb =>
    let! sb := trim_to (sb_start sb) sb in
    scan_then (skip_char (sb_fuel sb) sb) (fun _ sb =>
    scan_then (each_next write_char (sb_fuel sb) (sb_start sb) sb) take_written)).

Definition sb_scan_charstr (sb : SourceBuf) : outcome (SourceBuf * result CharStr EntryError) :=
  scan_then (sb_scan_octets sb) (fun octets sb => Ret (sb, map_err (fun _ => bad_charstr) (cs_from_octets octets))).

(** [buf[start] = (write - start - 1) as u8]. *)
Definition put_length (start write : nat) (sb : SourceBuf) : outcome SourceBuf :=
  put_octet start (Z.of_nat (write - start - 1) mod 256) sb.

(** The first loop of [convert_label], which is done while the label is where it has
    to be: [Some] if the label has ended. *)
Fixpoint label_in_place (fuel start write latest : nat) (sb : SourceBuf) : outcome (SourceBuf * result (nat * bool) EntryError) :=
  match fuel with
  | O => Panic
  | S fuel' =>
      match next_ascii_symbol sb with
      | (sb, Some ch) =>
          if ch =? 46 then let! sb := put_length start write sb in Ret (sb, Ok (write, true))
          else if (latest <=? write + 1)%nat then Ret (sb, Err bad_name) else label_in_place fuel' start (write + 1) latest sb
      | (sb, None) => Ret (sb, Ok (write, false))
      end
  end.

(** The second loop: whether the label ended at a dot, [None] if there was no label. *)
Fixpoint label_loop (fuel start write latest : nat) (sb : SourceBuf) : outcome (SourceBuf * result (nat * option bool) EntryError) :=
  match fuel with
  | O => Panic
  | S fuel' =>
      match next_symbol sb with
      | (sb, Err e) => Ret (sb, Err e)
      | (sb, Ok None) =>
          if (start + 1 <? write)%nat then let! sb := put_length start write sb in Ret (sb, Ok (write, Some false))
          else Ret (sb, Ok (start, None))
      | (sb, Ok (Some sym)) =>
          if bool_decide (sym = Char 46) then let! sb := put_length start write sb in Ret (sb, Ok (write, Some true))
          else scan_then (write_symbol symbol_into_octet write sym sb) (fun write sb =>
               if (latest <=? write)%nat then Ret (sb, Err bad_name) else label_loop fuel' start write latest sb)
      end
  end.

Definition convert_label (start : nat) (sb : SourceBuf) : outcome (SourceBuf * result (nat * option bool) EntryError) :=
  let write := (start + 1)%nat in
  let latest := (write + 64)%nat in
  scan_then (if (write =? sb_start sb)%nat then label_in_place (sb_fuel sb) start write latest sb else Ret (sb, Ok (write, false)))
    (fun st sb =>
     let '(write, ended) := st in
     if ended : bool then Ret (sb, Ok (write, Some true)) else label_loop (sb_fuel sb) start write latest sb).

Definition ScannedDname : Type := Chain RelativeName Name.

Section Names.
Context (oc : bool) (origin : option Name).

(** [left.chain(right).map_err(|_| EntryError::bad_name())]. *)
Definition scanned_name (left_ : RelativeName) (right_ : Name) (sb : SourceBuf) : outcome (SourceBuf * result ScannedDname EntryError) :=
  let! r := chain_new oc left_ right_ in Ret (sb, map_err (fun _ => bad_name) r).

Definition with_origin (left_ : RelativeName) (sb : SourceBuf) : outcome (SourceBuf * result ScannedDname EntryError) :=
  match origin with None => Ret (sb, Err missing_origin) | Some origin => scanned_name left_ origin sb end.

Fixpoint name_loop (fuel write : nat) (sb : SourceBuf) : outcome (SourceBuf * result ScannedDname EntryError) :=
  match fuel with
  | O => Panic
  | S fuel' =>
      scan_then (convert_label write sb) (fun st sb =>
      match st with
      | (new_write, None) =>
          if (write =? 0)%nat then scan_then (next_item sb) (fun _ => with_origin (mkRel []))
          else scan_then (take_written new_write sb) (fun octets => scanned_name (mkRel octets) name_root)
      | (new_write, Some true) =>
          if (new_write =? 1)%nat then
            match next_symbol sb with
            | (sb, Err e) => Ret (sb, Err e)
            | (sb, Ok (Some _)) => Ret (sb, Err bad_name)
            | (sb, Ok None) =>
                scan_then (next_item sb) (fun _ sb =>
                let! r := chain_new oc (mkRel []) name_root in
                match r with Ok n => Ret (sb, Ok n) | Err _ => Panic end)
            end
          else if (254 <? new_write)%nat then Ret (sb, Err bad_name)
          else name_loop fuel' new_write sb
      | (new_write, Some false) => scan_then (take_written new_write sb) (fun octets => with_origin (mkRel octets))
      end)
  end.

Definition sb_scan_name : SourceBuf -> outcome (SourceBuf * result ScannedDname EntryError) :=
  with_item (fun sb =>
    if (0 <? sb_start sb)%nat then
      let! sb := trim_to (sb_start sb - 1) sb in name_loop (sb_fuel sb) 0 sb
    else Panic).
End Names.

(** ** Character strings *)

(** The first loop of [convert_charstr]. *)
Fixpoint charstr_in_place (fuel write latest : nat) (sb : SourceBuf) : outcome (SourceBuf * result nat EntryError) :=
  match fuel with
  | O => Panic
  | S fuel' =>
      match next_ascii_symbol sb with
      | (sb, Some _) => if (latest <? write + 1)%nat then Ret (sb, Err bad_charstr) else charstr_in_place fuel' (write + 1) latest sb
      | (sb, None) => Ret (sb, Ok write)
      end
  end.

Definition charstr_step (latest write : nat) (sym : Symbol) (sb : SourceBuf) : outcome (SourceBuf * result nat EntryError) :=
  scan_then (write_symbol symbol_into_octet write sym sb) (fun write sb =>
  if (latest <? write)%nat then Ret (sb, Err bad_charstr) else Ret (sb, Ok write)).

Definition convert_charstr (start : nat) (sb : SourceBuf) : outcome (SourceBuf * result nat EntryError) :=
  let write := (start + 1)%nat in
  let latest := (write + 255)%nat in
  scan_then (if (write =? sb_start sb)%nat then charstr_in_place (sb_fuel sb) write latest sb else Ret (sb, Ok write)) (fun write sb =>
  scan_then (each_next (charstr_step latest) (sb_fuel sb) write sb) (fun write sb =>
  scan_then (next_item sb) (fun _ sb =>
  let! sb := put_length start write sb in Ret (sb, Ok write)))).

Fixpoint inplace_charstrs (fuel write : nat) (sb : SourceBuf) : outcome (SourceBuf * result nat EntryError) :=
  match fuel with
  | O => Panic
  | S fuel' =>
      scan_then (convert_charstr write sb) (fun write sb =>
      if is_line_feed sb then Ret (sb, Ok write) else inplace_charstrs fuel' write sb)
  end.

Definition sb_scan_charstr_entry (sb : SourceBuf) : outcome (SourceBuf * result (list Z) EntryError) :=
  if (0 <? sb_start sb)%nat then
    let! sb := trim_to (sb_start sb - 1) sb in
    scan_then (inplace_charstrs (sb_fuel sb) 0 sb) (fun write sb =>
    let! (sb, res) := split_to write sb in Ret (sb, Ok res))
  else Panic.

(** ** The scanner *)

Record Zonefile := mkZonefile {
  zf_buf : SourceBuf;
  zf_origin : option Name;
  zf_last_owner : option ScannedDname;
  zf_last_ttl : Z;
  zf_last_class : Z;
}.

Definition zf_with_buf (sb : SourceBuf) (zf : Zonefile) : Zonefile :=
  mkZonefile sb (zf_origin zf) (zf_last_owner zf) (zf_last_ttl zf) (zf_last_class zf).

Definition on_buf {A} (f : SourceBuf -> outcome (SourceBuf * result A EntryError)) (zf : Zonefile) : outcome (Zonefile * result A EntryError) :=
  let! (sb, r) := f (zf_buf zf) in Ret (zf_with_buf sb zf, r).

Definition zf_continues (zf : Zonefile) : bool := match sb_cat (zf_buf zf) with CatNone | CatLineFeed => false | _ => true end.

#[export] Instance entry_scanner (oc : bool) : Scanner Zonefile ScannedDname := {|
  s_has_space zf := sb_has_space (zf_buf zf);
  s_continues := zf_continues;
  s_scan_symbols _ op acc := on_buf (sb_scan_symbols op acc);
  s_scan_entry_symbols _ op acc := on_buf (sb_scan_entry_symbols op acc);
  s_convert_token _ _ c := on_buf (sb_convert_token c);
  s_convert_entry _ _ c := on_buf (sb_convert_entry c);
  s_scan_octets := on_buf sb_scan_octets;
  s_scan_ascii_str _ op := on_buf (sb_scan_ascii_str op);
  s_scan_name zf := on_buf (sb_scan_name oc (zf_origin zf)) zf;
  s_scan_charstr := on_buf sb_scan_charstr;
  s_scan_string := on_buf sb_scan_string;
  s_scan_charstr_entry := on_buf sb_scan_charstr_entry;
  s_scan_opt_unknown_marker := on_buf skip_unknown_marker;
|}.

(** ** Entries *)

Definition ScannedRecord : Type := ResourceRecord ScannedDname (ZoneRecordData ScannedDname).

Inductive ZoneEntry :=
  | EntryRecord (record : ScannedRecord)
  | EntryInclude (path : list Z) (origin : option Name).

Inductive ScannedEntry :=
  | SEntry (e : ZoneEntry)
  | SOrigin (origin : Name)
  | STtl (ttl : Z)
  | SEmpty
  | SEof.

Definition zf_with_file (sb : SourceBuf) : Zonefile := mkZonefile sb None None 3600 CLASS_IN.
Definition zf_new : Zonefile := zf_with_file with_empty_buf.
Definition zf_from_slice (src : list Z) : Zonefile := zf_with_file (extend_from_slice src with_empty_buf).
Definition zf_set_origin (origin : Name) (zf : Zonefile) : Zonefile :=
  mkZonefile (zf_buf zf) (Some origin) (zf_last_owner zf) (zf_last_ttl zf) (zf_last_class zf).
Definition zf_set_ttl (ttl : Z) (zf : Zonefile) : Zonefile :=
  mkZonefile (zf_buf zf) (zf_origin zf) (zf_last_owner zf) ttl (zf_last_class zf).
Definition zf_set_class (class : Z) (zf : Zonefile) : Zonefile :=
  mkZonefile (zf_buf zf) (zf_origin zf) (zf_last_owner zf) (zf_last_ttl zf) class.
Definition zf_set_owner (owner : ScannedDname) (zf : Zonefile) : Zonefile :=
  mkZonefile (zf_buf zf) (zf_origin zf) (Some owner) (zf_last_ttl zf) (zf_last_class zf).

Inductive Ctr := CtrClass (class : Z) | CtrTtl (ttl : Z) | CtrRtype (rtype : Z).

Definition ctr_first (s : list Z) : result Ctr EntryError :=
  match parse_uint 32 s with
  | Some ttl => Ok (CtrTtl ttl)
  | None =>
      match rtype_from_str s with
      | Some rtype => Ok (CtrRtype rtype)
      | None => match class_from_str s with Some class => Ok (CtrClass class) | None => Err expected_rtype end
      end
  end.

Definition ctr_after_ttl (s : list Z) : result Ctr EntryError :=
  match rtype_from_str s with
  | Some rtype => Ok (CtrRtype rtype)
  | None => match class_from_str s with Some class => Ok (CtrClass class) | None => Err expected_rtype end
  end.

Definition ctr_after_class (s : list Z) : result Ctr EntryError :=
  match parse_uint 32 s with
  | Some ttl => Ok (CtrTtl ttl)
  | None => match rtype_from_str s with Some rtype => Ok (CtrRtype rtype) | None => Err expected_rtype end
  end.

Definition ctr_rtype (s : list Z) : result Z EntryError := ok_or (rtype_from_str s) expected_rtype.

Section Entries.
Context (oc : bool) (unix_time : Z -> Z -> Z -> Z -> Z -> Z -> option Z).
#[local] Existing Instance entry_scanner | 0.
#[local] Instance scanner : Scanner Zonefile ScannedDname := entry_scanner oc.

Definition scan_ctr (zf : Zonefile) : outcome (Zonefile * result (option Z * option Z * Z) EntryError) :=
  scan_then (s_scan_ascii_str ctr_first zf) (fun first zf =>
  match first with
  | CtrTtl ttl =>
      scan_then (s_scan_ascii_str ctr_after_ttl zf) (fun second zf =>
      match second with
      | CtrClass class => scan_then (s_scan_ascii_str ctr_rtype zf) (fun rtype => scan_ok (Some class, Some ttl, rtype))
      | CtrRtype rtype => Ret (zf, Ok (None, Some ttl, rtype))
      | CtrTtl _ => Panic
      end)
  | CtrClass class =>
      scan_then (s_scan_ascii_str ctr_after_class zf) (fun second zf =>
      match second with
      | CtrTtl ttl => scan_then (s_scan_ascii_str ctr_rtype zf) (fun rtype => scan_ok (Some class, Some ttl, rtype))
      | CtrRtype rtype => Ret (zf, Ok (Some class, None, rtype))
      | CtrClass _ => Panic
      end)
  | CtrRtype rtype => Ret (zf, Ok (None, None, rtype))
  end).

(** [self.zonefile.buf.require_line_feed()?]. *)
Definition at_line_feed {A} (k : Zonefile -> outcome (Zonefile * result A EntryError)) (zf : Zonefile)
    : outcome (Zonefile * result A EntryError) :=
  match require_line_feed (zf_buf zf) with Err e => Ret (zf, Err e) | Ok _ => k zf end.

Definition scan_owner_record (owner : ScannedDname) (new_owner : bool) (zf : Zonefile) : outcome (Zonefile * result ScannedEntry EntryError) :=
  scan_then (scan_ctr zf) (fun ctr zf =>
  let '(class, ttl, rtype) := ctr in
  let zf := if new_owner then zf_set_owner owner zf else zf in
  let '(zf, class) := match class with Some class => (zf_set_class class zf, class) | None => (zf, zf_last_class zf) end in
  let '(zf, ttl) := match ttl with Some ttl => (zf_set_ttl ttl zf, ttl) | None => (zf, zf_last_ttl zf) end in
  scan_then (zone_scan (B:=list Z) oc unix_time (sb_fuel (zf_buf zf)) rtype zf) (fun data =>
  at_line_feed (fun zf => Ret (zf, Ok (SEntry (EntryRecord (mkRR owner class ttl data))))))).

Definition scan_record (zf : Zonefile) : outcome (Zonefile * result ScannedEntry EntryError) :=
  scan_then (s_scan_name zf) (fun owner => scan_owner_record owner true).

Definition scan_at_record (zf : Zonefile) : outcome (Zonefile * result ScannedEntry EntryError) :=
  match zf_origin zf with
  | None => Ret (zf, Err missing_origin)
  | Some origin =>
      let! owner := chain_new oc (mkRel []) origin in
      match owner with Ok owner => scan_owner_record owner true zf | Err _ => Panic end
  end.

(** [self.scan_name()?.to_name()]. *)
Definition scan_flat_name (zf : Zonefile) : outcome (Zonefile * result Name EntryError) :=
  scan_then (s_scan_name zf) (fun name zf =>
  let! r := try_to_name (B:=list Z) name in
  match r with Ok octets => Ret (zf, Ok (mkName octets)) | Err _ => Panic end).

Definition scan_control (zf : Zonefile) : outcome (Zonefile * result ScannedEntry EntryError) :=
  scan_then (s_scan_string zf) (fun ctrl zf =>
  if eq_ignore_ascii_case ctrl (ascii_chars "$ORIGIN") then
    scan_then (scan_flat_name zf) (fun origin => at_line_feed (fun zf => Ret (zf, Ok (SOrigin origin))))
  else if eq_ignore_ascii_case ctrl (ascii_chars "$INCLUDE") then
    scan_then (s_scan_string zf) (fun path zf =>
    scan_then (if negb (is_line_feed (zf_buf zf))
               then scan_then (scan_flat_name zf) (fun origin => scan_ok (Some origin)) else Ret (zf, Ok None)) (fun origin =>
    at_line_feed (fun zf => Ret (zf, Ok (SEntry (EntryInclude path origin))))))
  else if eq_ignore_ascii_case ctrl (ascii_chars "$TTL") then
    scan_then (scan_uint oc 32 zf) (fun ttl => at_line_feed (fun zf => Ret (zf, Ok (STtl ttl))))
  else Ret (zf, Err unknown_control)).

Definition scan_entry (zf : Zonefile) : outcome (Zonefile * result ScannedEntry EntryError) :=
  scan_then (on_buf next_item zf) (fun _ zf =>
  match sb_cat (zf_buf zf) with
  | CatNone => Ret (zf, Ok SEof)
  | CatLineFeed => Ret (zf, Ok SEmpty)
  | CatUnquoted | CatQuoted =>
      if sb_has_space (zf_buf zf) then
        match zf_last_owner zf with
        | Some owner => scan_owner_record owner false zf
        | None => Ret (zf, Err missing_last_owner)
        end
      else if bool_decide (peek_symbol (zf_buf zf) = Some (Char 36)) then scan_control zf
      else scan_then (on_buf skip_at_token zf) (fun skipped zf => if skipped : bool then scan_at_record zf else scan_record zf)
  end).

(** The loop of [next_entry]; every entry it passes over has a line feed. *)
Fixpoint next_entry_loop (fuel : nat) (zf : Zonefile) : outcome (Zonefile * result (option ZoneEntry) ZoneFileError) :=
  match fuel with
  | O => Panic
  | S fuel' =>
      let! (zf, r) := scan_entry zf in
      match r with
      | Err e => Ret (zf, Err (sb_error (zf_buf zf) e))
      | Ok (SEntry entry) => Ret (zf, Ok (Some entry))
      | Ok (SOrigin origin) => next_entry_loop fuel' (zf_set_origin origin zf)
      | Ok (STtl ttl) => next_entry_loop fuel' (zf_set_ttl ttl zf)
      | Ok SEmpty => next_entry_loop fuel' zf
      | Ok SEof => Ret (zf, Ok None)
      end
  end.

Definition next_entry (zf : Zonefile) : outcome (Zonefile * result (option ZoneEntry) ZoneFileError) :=
  next_entry_loop (sb_fuel (zf_buf zf)) zf.

(** [Iterator::next] until the file ends or an error occurs. *)
Fixpoint read_entries (fuel : nat) (zf : Zonefile) : outcome (list ZoneEntry * Zonefile * option ZoneFileError) :=
  match fuel with
  | O => Panic
  | S fuel' =>
      let! (zf, r) := next_entry zf in
      match r with
      | Ok None => Ret ([], zf, None)
      | Err e => Ret ([], zf, Some e)
      | Ok (Some entry) => let! (entries, zf, e) := read_entries fuel' zf in Ret (entry :: entries, zf, e)
      end
  end.
End Entries.
