(* ===== verification/EntryTokens.v ===== *)
(** * The scanner of zone files reads tokens

    The methods of [EntryScanner] work in place on the buffer.  Here each is shown
    to do what its documentation says of the tokens that are left in the entry,
    [at_tokens]: it gives the value the symbols of the next token stand for and
    leaves the tokens behind it. *)

From S2P Require Import Prelude Octets Serial Symbol BaseCodec CharStr Label Traits Name NameBuilder Chain ParsedName Header Compressor MessageBuilder Message Record Scanner Iana IpText Ttl Layout Rdata Bitmap Txt Dnssec Nsec3 ZoneData ScanData SourceBuf Lex Inplace.
From stdpp Require Import strings.
#[local] Open Scope Z_scope.

(** ** Loops over the symbols of a token *)

(** The state behind a token. *)
Definition past (sb sb' : SourceBuf) (t : list Z) : Prop :=
  sb_ok sb' /\ sb_cat sb' = CatNone /\ sb_text sb' = t /\ sb_parens sb' = sb_parens sb /\ length (sb_buf sb') = length (sb_buf sb).

Section EachNext.
Context {A : Type} (op : A -> Symbol -> SourceBuf -> outcome (SourceBuf * result A EntryError)).
Context (P : A -> SourceBuf -> list Symbol -> Prop).
(** [P] holds between the symbols: [op] keeps it without touching the text that is
    left. *)
Hypothesis P_step : forall acc sb sb1 sym syms,
  moved sb sb1 -> (sb_start sb < sb_start sb1)%nat -> P acc sb (sym :: syms) ->
  exists acc' sb2, op acc sym sb1 = Ret (sb2, Ok acc') /\ keeps sb1 sb2 /\ P acc' sb2 syms.

Lemma each_next_token cat t syms t' fuel acc sb :
  Token cat t syms t' -> sb_ok sb -> sb_cat sb = cat -> sb_text sb = t -> (length t < fuel)%nat -> P acc sb syms ->
  exists acc' sb0 sb', each_next op fuel acc sb = Ret (sb', Ok acc') /\ past sb sb' t' /\ (sb_start sb <= sb_start sb0)%nat /\
    moved sb0 sb' /\ (cat = CatQuoted -> (sb_start sb0 < sb_start sb')%nat) /\ P acc' sb0 [].
Proof using P_step.
  intros H. revert fuel acc sb. induction H as [ch t Hw|t|cat t sym t1 syms t' Hl Hi Htok IH]; intros fuel acc sb Hok Ec Et Hf HP;
    (destruct fuel as [|fuel]; [lia|]); cbn [each_next].
  - destruct (next_symbol_end sb (ch :: t) Hok) as (sb' & -> & Hm & Ht & Hc); [rewrite Ec, Et; by constructor|].
    exists acc, sb, sb'. pose proof Hm as (Hb & Hs & Ho & Hp). unfold past. rewrite Hb. by split_and!.
  - destruct (next_symbol_end sb t Hok) as (sb' & -> & Hm & Ht & Hc); [rewrite Ec, Et; by constructor|].
    exists acc, sb, sb'. pose proof Hm as (Hb & Hs & Ho & Hp). unfold past. rewrite Hb. split_and!; try done.
    intros _. destruct (decide (sb_start sb' = sb_start sb)) as [E|]; [|lia]. exfalso.
    unfold sb_text in *. rewrite Hb, E in Ht. rewrite Ht in Et. by apply (f_equal length) in Et; cbn in Et; lia.
  - subst cat t. destruct (next_symbol_in sb sym t1 Hl Hi) as (sb1 & -> & Hm & Hlt & Ht & Hc).
    destruct (P_step acc sb sb1 sym syms Hm Hlt HP) as (acc' & sb2 & -> & Hk & HP'). cbn [scan_then].
    pose proof Hm as (Hb & Hs & Ho & Hp). pose proof Hk as (K1 & K2 & K3 & K4 & K5).
    destruct (IH fuel acc' sb2) as (a & sb0 & sb' & E & Hpast & H1 & H2 & H3 & H4); try done.
    + by eapply sb_ok_keeps.
    + by rewrite K4.
    + by rewrite K3.
    + pose proof (sb_text_length _ Hok). pose proof (sb_text_length _ Ho). rewrite Ht, Hb in *. lia.
    + exists a, sb0, sb'. destruct Hpast as (Q1 & Q2 & Q3 & Q4 & Q5). rewrite K2, Hb in Q5.
      split_and!; try done; [|lia]. unfold past. split_and!; try done. congruence.
Qed.
End EachNext.

(** A token has an end. *)
Lemma Token_end cat t syms t' : Token cat t syms t' -> cat = CatUnquoted -> Token CatUnquoted t' [] t'.
Proof. induction 1; intros E; try done; [by constructor|by apply IHToken]. Qed.

Lemma sb_fuel_text sb : sb_ok sb -> (length (sb_text sb) < sb_fuel sb)%nat.
Proof. intros H. pose proof (sb_text_length sb H). unfold sb_fuel. lia. Qed.

Lemma with_item_ok {A} (k : SourceBuf -> outcome (SourceBuf * result A EntryError)) sb cat syms toks rest :
  at_tokens sb ((cat, syms) :: toks) rest -> with_item k sb = k sb.
Proof. intros (_ & Ec & t & H & _). unfold with_item, require_token. rewrite Ec. by destruct cat; inversion H. Qed.

(** Behind a token: the next item is found, and the position moves if the token was
    a word. *)
Lemma past_next_item sb sb' cat t syms t' toks rest :
  Token cat t syms t' -> past sb sb' t' -> Lex (sb_parens sb) t' toks 0 (10 :: rest) ->
  exists sb2, next_item sb' = Ret (sb2, Ok ()) /\ at_tokens sb2 toks rest /\ sb_buf sb2 = sb_buf sb' /\ (sb_start sb' <= sb_start sb2)%nat /\
    (cat = CatUnquoted -> (sb_start sb' < sb_start sb2)%nat).
Proof.
  intros HT (Ho & Hc & Ht & Hp & _) HL. destruct (next_item_lex sb' toks rest) as (sb2 & E & Ha & Hb & Hle & Hlt); [by left|done|by rewrite Hp, Ht|].
  exists sb2. split_and!; try done. intros ->. apply Hlt. rewrite Ht. pose proof (Token_end _ _ _ _ HT eq_refl) as He. by inversion He.
Qed.

(** Scanning the symbols of a token: the closure sees them all. *)
Lemma scan_symbols_tokens {A} (op : A -> Symbol -> outcome (result A EntryError)) acc acc' sb cat syms toks rest :
  at_tokens sb ((cat, syms) :: toks) rest -> each_symbol op syms acc = Ret (Ok acc') ->
  exists sb', sb_scan_symbols op acc sb = Ret (sb', Ok acc') /\ at_tokens sb' toks rest /\ (sb_start sb <= sb_start sb')%nat.
Proof.
  intros Hat Hop. unfold sb_scan_symbols. rewrite (with_item_ok _ _ _ _ _ _ Hat). destruct Hat as (Hok & Ec & t & HT & _ & HL).
  destruct (each_next_token (fun acc sym sb => let! r := op acc sym in Ret (sb, r))
    (fun acc _ syms => each_symbol op syms acc = Ret (Ok acc'))) with cat (sb_text sb) syms t (sb_fuel sb) acc sb
    as (a & sb0 & sb1 & E & Hp & Hle & (_ & Hle' & _) & _ & HP); try done.
  - intros a s s1 sym ss _ _ Hs. cbn in Hs. destruct (op a sym) as [[a'|e]|]; try done. exists a', s1. by split_and!.
  - by apply sb_fuel_text.
  - rewrite E. cbn [scan_then]. injection HP as ->.
    destruct (past_next_item _ _ _ _ _ _ _ _ HT Hp HL) as (sb2 & E2 & Ha & _ & Hle2 & _). rewrite E2. cbn. exists sb2. split_and!; try done. lia.
Qed.

(** ** Writing into the free space *)

Lemma put_octet_keeps at_ o sb :
  (at_ < sb_start sb)%nat -> sb_ok sb ->
  exists sb', put_octet at_ o sb = Ret sb' /\ keeps sb sb' /\ sb_buf sb' = <[at_ := o]> (sb_buf sb).
Proof.
  intros Hlt Hok. unfold put_octet, sb_ok in *. destruct (Nat.ltb_spec at_ (length (sb_buf sb))); [|lia].
  eexists. split; [done|]. unfold keeps, sb_text. cbn. rewrite length_insert, drop_insert_lt by lia. done.
Qed.

Lemma put_octets_keeps at_ os sb :
  (at_ + length os <= sb_start sb)%nat -> sb_ok sb ->
  exists sb', put_octets at_ os sb = Ret sb' /\ keeps sb sb' /\ take (at_ + length os) (sb_buf sb') = take at_ (sb_buf sb) ++ os.
Proof.
  intros Hle Hok. unfold put_octets, sb_ok in *. destruct (Nat.leb_spec (at_ + length os) (length (sb_buf sb))); [|lia].
  assert (Hl : length (take at_ (sb_buf sb)) = at_) by (rewrite length_take; lia).
  eexists. split; [done|]. unfold keeps, sb_text. cbn. split_and!; try done.
  - rewrite !length_app, length_drop, Hl. lia.
  - rewrite app_assoc, drop_app, drop_drop. rewrite drop_ge by (rewrite length_app, Hl; lia). cbn. f_equal. rewrite length_app, Hl. lia.
  - rewrite app_assoc, take_app_length' by (rewrite length_app, Hl; lia). done.
Qed.

(** The octets the symbols stand for. *)
Definition stands (conv : Symbol -> result Z BadSymbol) (syms : list Symbol) (os : list Z) : Prop :=
  Forall2 (fun sym o => conv sym = Ok o) syms os.

Lemma write_symbols_token conv cat t syms t' fuel write sb os :
  Token cat t syms t' -> sb_ok sb -> sb_cat sb = cat -> sb_text sb = t -> (length t < fuel)%nat ->
  (write <= sb_start sb)%nat -> stands conv syms os ->
  exists sb', each_next (write_symbol conv) fuel write sb = Ret (sb', Ok (write + length os)%nat) /\ past sb sb' t' /\
    (write + length os <= sb_start sb')%nat /\ (cat = CatQuoted -> (write + length os < sb_start sb')%nat) /\
    take (write + length os) (sb_buf sb') = take write (sb_buf sb) ++ os.
Proof.
  intros HT Hok Ec Et Hf Hw Hs.
  destruct (each_next_token (write_symbol conv) (fun w s syms => (w + length syms = write + length os)%nat /\
    (w <= sb_start s)%nat /\ exists os', stands conv syms os' /\ take w (sb_buf s) ++ os' = take write (sb_buf sb) ++ os))
    with cat t syms t' fuel write sb as (w & sb0 & sb' & E & Hp & Hle & (Hb & Hm & _) & Hq & Hlen & Hle' & os' & Hos & Htk); try done.
  - intros w s s1 sym ss (Hb & H1 & H2 & H3) Hlt (Q1 & Q2 & os' & Q4 & Q5).
    inversion Q4 as [|? o ? os2 Ho Hos]; subst. unfold write_symbol. rewrite Ho.
    destruct (put_octet_keeps w o s1) as (s2 & -> & Hk & Hb2); [lia|done|]. exists (w + 1)%nat, s2. split_and!; try done.
    + cbn in Q1. lia.
    + destruct Hk as (-> & _). lia.
    + exists os2. split; [done|]. rewrite <- Q5, Hb2, Nat.add_1_r.
      rewrite (take_S_r _ w o) by (apply list_lookup_insert_eq; unfold sb_ok in *; lia).
      rewrite take_insert_ge, Hb by lia. by rewrite <- app_assoc.
  - split_and!; try done; [by rewrite (Forall2_length _ _ _ Hs)|]. by exists os.
  - inversion Hos; subst. cbn in Hlen. rewrite app_nil_r in Htk. assert (w = (write + length os)%nat) as -> by lia.
    exists sb'. rewrite Hb. split_and!; try done; [lia|]. intros Hcq. specialize (Hq Hcq). lia.
Qed.

Lemma split_to_ok at_ sb :
  (at_ <= sb_start sb)%nat -> sb_ok sb ->
  exists sb', split_to at_ sb = Ret (sb', take at_ (sb_buf sb)) /\ sb_text sb' = sb_text sb /\ sb_start sb' = (sb_start sb - at_)%nat /\
    sb_cat sb' = sb_cat sb /\ sb_parens sb' = sb_parens sb /\ sb_ok sb' /\ sb_buf sb' = drop at_ (sb_buf sb).
Proof.
  intros Hle Hok. unfold split_to, sb_ok in *. destruct (Nat.leb_spec at_ (sb_start sb)); [|lia].
  destruct (Nat.leb_spec at_ (length (sb_buf sb))); [|lia]. eexists. split; [done|]. unfold sb_text. cbn.
  rewrite drop_drop, length_drop. split_and!; try done; [|lia]. f_equal. lia.
Qed.

Lemma at_tokens_same sb sb' toks rest :
  sb_ok sb' -> sb_text sb' = sb_text sb -> sb_cat sb' = sb_cat sb -> sb_parens sb' = sb_parens sb ->
  at_tokens sb toks rest -> at_tokens sb' toks rest.
Proof. intros Ho Et Ec Ep (_ & Ht). split; [done|]. rewrite Et, Ec, Ep. done. Qed.

Lemma split_to_tokens at_ sb toks rest :
  (at_ <= sb_start sb)%nat -> at_tokens sb toks rest ->
  exists sb', split_to at_ sb = Ret (sb', take at_ (sb_buf sb)) /\ at_tokens sb' toks rest /\ sb_start sb' = (sb_start sb - at_)%nat /\
    sb_buf sb' = drop at_ (sb_buf sb).
Proof.
  intros Hle Ha. destruct (split_to_ok at_ sb Hle) as (sb' & E & Et & Es & Ec & Ep & Ho & Eb); [by destruct Ha|].
  exists sb'. split_and!; try done. by apply (at_tokens_same sb).
Qed.

Lemma take_written_tokens write sb sb' cat t syms t' toks rest :
  Token cat t syms t' -> past sb sb' t' -> Lex (sb_parens sb) t' toks 0 (10 :: rest) -> (write <= sb_start sb')%nat ->
  exists sb2, take_written write sb' = Ret (sb2, Ok (take write (sb_buf sb'))) /\ at_tokens sb2 toks rest /\
    (cat = CatUnquoted \/ (write < sb_start sb')%nat -> (0 < sb_start sb2)%nat).
Proof.
  intros HT Hp HL Hw. destruct (past_next_item _ _ _ _ _ _ _ _ HT Hp HL) as (sb2 & E & Ha & Hb & Hle & Hlt).
  unfold take_written. rewrite E. cbn [scan_then]. destruct (split_to_tokens write sb2 toks rest) as (sb3 & -> & Ha3 & Hs3 & _); [lia|done|].
  rewrite Hb. eexists. split; [done|]. split; [done|]. intros [Hu|?]; [specialize (Hlt Hu)|]; lia.
Qed.

(** Octets that stand for themselves in a token of the category. *)
Definition plain_octet (cat : ItemCat) (ch : Z) : bool :=
  match cat with
  | CatUnquoted => negb ((ch <? 0x21) || (0x7F <? ch) || (ch =? 34) || (ch =? 40) || (ch =? 41) || (ch =? 59) || (ch =? 92))
  | CatQuoted => negb ((ch =? 34) || (ch <? 0x21) || (0x7F <? ch) || (ch =? 92))
  | _ => false
  end.

Lemma lex_ascii ch t : ch <> 92 -> 0 <= ch < 128 -> lex_symbol (ch :: t) = Some (Char ch, t).
Proof.
  intros H1 H2. unfold lex_symbol, symbol_from_slice_index. cbn [lookup list_lookup].
  destruct (Z.eqb_spec ch 92); [done|]. destruct (Z.ltb_spec ch 128); [done|lia].
Qed.

Lemma plain_octet_lex cat ch t : plain_octet cat ch = true -> lex_symbol (ch :: t) = Some (Char ch, t).
Proof. intros H. apply lex_ascii; destruct cat; try done; cbn in H; apply negb_true_iff in H; breflect; lia. Qed.

Lemma sb_lookup sb : sb_buf sb !! sb_start sb = head (sb_text sb).
Proof. unfold sb_text. rewrite <- (Nat.add_0_r (sb_start sb)), <- lookup_drop, Nat.add_0_r. by destruct (drop _ _). Qed.

Lemma next_ascii_plain sb ch t :
  sb_text sb = ch :: t -> plain_octet (sb_cat sb) ch = true -> next_ascii_symbol sb = (sb_advance 1 sb, Some ch).
Proof.
  intros Et Hp. unfold next_ascii_symbol. rewrite sb_lookup, Et. cbn [head].
  unfold plain_octet in Hp. destruct (sb_cat sb); try done; apply negb_true_iff in Hp; cbn [bool_decide].
  - rewrite bool_decide_eq_true_2 by done. by rewrite Hp.
  - rewrite bool_decide_eq_false_2 by done. rewrite <- !orb_assoc in Hp. apply orb_false_iff in Hp as [-> Hp].
    rewrite <- !orb_assoc. by rewrite Hp.
Qed.

Lemma next_ascii_stop sb :
  (match sb_text sb with
   | ch :: _ => plain_octet (sb_cat sb) ch = false /\ (sb_cat sb = CatQuoted -> ch <> 34)
   | [] => True
   end) -> next_ascii_symbol sb = (sb, None).
Proof.
  intros H. unfold next_ascii_symbol. rewrite sb_lookup. destruct (sb_text sb) as [|ch t]; [by destruct (sb_cat sb)|]. cbn [head].
  destruct H as [Hp Hq]. destruct (sb_cat sb) eqn:Ec; try done; cbn in Hp; apply negb_false_iff in Hp; cbn [bool_decide].
  - rewrite bool_decide_eq_true_2 by done. by rewrite Hp.
  - rewrite bool_decide_eq_false_2 by done. specialize (Hq eq_refl). destruct (Z.eqb_spec ch 34); [done|]. cbn [orb] in Hp. by rewrite Hp.
Qed.

Lemma word_end_not_plain ch : word_start ch = false -> plain_octet CatUnquoted ch = false.
Proof.
  unfold word_start. rewrite !andb_false_iff, !negb_false_iff, !Z.eqb_eq. intros H. repeat destruct H as [H|H]; subst ch; done.
Qed.

(** Passing over the octets that stand for themselves. *)
Lemma skip_ascii_token cat t syms t' fuel count sb :
  Token cat t syms t' -> sb_ok sb -> sb_cat sb = cat -> sb_text sb = t -> (length t < fuel)%nat ->
  exists fs slow sb1, syms = map Char fs ++ slow /\ take (length fs) t = fs /\
    skip_ascii fuel count sb = Ret (sb1, (count + length fs)%nat) /\ sb_buf sb1 = sb_buf sb /\ sb_parens sb1 = sb_parens sb /\ sb_ok sb1 /\
    ((sb_cat sb1 = cat /\ Token cat (sb_text sb1) slow t' /\ sb_start sb1 = (sb_start sb + length fs)%nat) \/
     (cat = CatQuoted /\ slow = [] /\ past sb sb1 t' /\ sb_start sb1 = (sb_start sb + length fs + 1)%nat /\
      Forall (fun ch => plain_octet cat ch = true) fs)).
Proof.
  intros HT. revert fuel count sb. induction HT as [ch t Hw|t|cat t sym t1 syms t' Hl Hi Htok IH]; intros fuel count sb Hok Ec Et Hf;
    (destruct fuel as [|fuel]; [lia|]); cbn [skip_ascii].
  - exists [], [], sb. rewrite next_ascii_stop by (rewrite Et, Ec; split; [by apply word_end_not_plain|done]).
    rewrite Nat.add_0_r. split_and!; try done. left. rewrite Et. split_and!; first [done|by constructor|cbn; lia].
  - exists [], [], (sb_with_cat CatNone (sb_advance 1 sb)). unfold next_ascii_symbol. rewrite sb_lookup, Et, Ec. cbn.
    destruct (sb_text_cons _ _ _ Et) as (_ & Et' & Hok'). rewrite Nat.add_0_r. split_and!; try done. right. split_and!; first [done|lia|constructor].
  - destruct t as [|ch t]; [done|]. destruct (plain_octet cat ch) eqn:Hp.
    + rewrite (plain_octet_lex cat) in Hl by done. injection Hl as <- <-. rewrite (next_ascii_plain sb ch t) by (try done; by rewrite Ec).
      destruct (sb_text_cons _ _ _ Et) as (_ & Et' & Hok').
      destruct (IH fuel (S count) (sb_advance 1 sb)) as (fs & slow & sb1 & E1 & E2 & E3 & E4 & E5 & E6 & E7); try done; [cbn in Hf; lia|].
      exists (ch :: fs), slow, sb1. rewrite E3. cbn [map app length take]. rewrite <- E1, E2, Nat.add_succ_r. split_and!; try done.
      destruct E7 as [(F1 & F2 & F3)|(F1 & F2 & F3 & F4 & F5)]; [left|right]; split_and!; try done; first [by constructor|cbn in *; lia].
    + exists [], (sym :: syms), sb. rewrite next_ascii_stop.
      2:{ rewrite Et, Ec. split; [done|]. intros -> ->. by injection Hl as <- <-. }
      rewrite Nat.add_0_r. split_and!; try done. left. rewrite Et. split_and!; first [done|by econstructor|cbn; lia].
Qed.

(** ** Octets and strings *)

Lemma stands_app conv fs slow os : stands conv (map Char fs ++ slow) os -> Forall (fun ch => conv (Char ch) = Ok ch \/ exists e, conv (Char ch) = Err e) fs ->
  exists os', os = fs ++ os' /\ stands conv slow os'.
Proof.
  intros Hs Hf. revert os Hs. induction Hf as [|ch fs Hch _ IH]; intros os Hs; [by exists os|].
  inversion Hs as [|? o ? os2 Ho Hos]; subst. destruct (IH os2 Hos) as (os' & -> & H). exists os'. split; [|done].
  cbn. destruct Hch as [Hch|[e Hch]]; congruence.
Qed.

Lemma stands_octet_app fs slow os : stands symbol_into_octet (map Char fs ++ slow) os -> exists os', os = fs ++ os' /\ stands symbol_into_octet slow os'.
Proof.
  intros H. apply stands_app in H; [done|]. apply Forall_forall. intros ch _. cbn. case_match; [by left|right; by eexists].
Qed.

Lemma stands_ascii_app fs slow os : stands symbol_into_ascii (map Char fs ++ slow) os -> exists os', os = fs ++ os' /\ stands symbol_into_ascii slow os'.
Proof.
  intros H. apply stands_app in H; [done|]. apply Forall_forall. intros ch _. cbn. case_match; [by left|right; by eexists].
Qed.

(** A scanner that has cut off what is before the token. *)
Lemma trim_token sb cat syms toks rest :
  at_tokens sb ((cat, syms) :: toks) rest ->
  exists sb', trim_to (sb_start sb) sb = Ret sb' /\ at_tokens sb' ((cat, syms) :: toks) rest /\ sb_start sb' = 0%nat.
Proof.
  intros Ha. unfold trim_to. destruct (split_to_tokens (sb_start sb) sb _ _ ltac:(lia) Ha) as (sb' & -> & Ha' & Hs & _).
  exists sb'. split_and!; try done. lia.
Qed.

(** A token in quotes that has a symbol the first loop stops at. *)
Definition slow_quoted (cat : ItemCat) (syms : list Symbol) : Prop :=
  cat = CatQuoted -> Exists (fun sym => forall ch, sym = Char ch -> plain_octet CatQuoted ch = false) syms.

Lemma scan_octets_tokens sb cat syms toks rest os :
  at_tokens sb ((cat, syms) :: toks) rest -> slow_quoted cat syms -> stands symbol_into_octet syms os ->
  exists sb', sb_scan_octets sb = Ret (sb', Ok os) /\ at_tokens sb' toks rest /\ (0 < sb_start sb')%nat.
Proof.
  intros Hat Hq Hs. unfold sb_scan_octets. rewrite (with_item_ok _ _ _ _ _ _ Hat).
  destruct (trim_token _ _ _ _ _ Hat) as (sb1 & -> & (Hok & Ec & t & HT & _ & HL) & Hz). clear Hat.
  destruct (skip_ascii_token _ _ _ _ (sb_fuel sb1) 0 sb1 HT Hok Ec eq_refl) as (fs & slow & sb2 & -> & Et & -> & Eb & Ep & Hok2 & [(Ec2 & HT2 & Es2)|(-> & -> & _ & _ & Hf)]);
    [by apply sb_fuel_text| |].
  2:{ exfalso. specialize (Hq eq_refl). rewrite app_nil_r in Hq. apply Exists_exists in Hq as (sym & Hin & Hsym).
      apply list_elem_of_fmap in Hin as (ch & -> & Hin). rewrite Forall_forall in Hf. specialize (Hf _ Hin). cbn in Hf.
      specialize (Hsym ch eq_refl). cbn in Hsym. congruence. }
  apply stands_octet_app in Hs as (os' & -> & Hs).
  destruct (write_symbols_token symbol_into_octet _ _ _ _ (sb_fuel sb2) (sb_start sb2) sb2 os' HT2) as (sb3 & -> & Hp & Hle & Hlt & Htk);
    try done; [by apply sb_fuel_text|]. cbn [scan_then].
  destruct (take_written_tokens (sb_start sb2 + length os') sb2 sb3 _ _ _ _ toks rest HT2 Hp) as (sb4 & -> & Ha4 & H0); [by rewrite Ep|done|].
  exists sb4. split_and!; [|done|apply H0; destruct cat; [by inversion HT2|by left|right; by apply Hlt|by inversion HT2]]. rewrite Htk. repeat f_equal.
  rewrite Es2, Hz, Eb, Nat.add_0_l. unfold sb_text in Et. by rewrite Hz, drop_0 in Et.
Qed.

Lemma scan_ascii_str_tokens {T} (op : list Z -> result T EntryError) sb syms toks rest os x :
  at_tokens sb ((CatUnquoted, syms) :: toks) rest -> stands symbol_into_ascii syms os -> op os = Ok x ->
  exists sb', sb_scan_ascii_str op sb = Ret (sb', Ok x) /\ at_tokens sb' toks rest /\ (0 < sb_start sb')%nat.
Proof.
  intros Hat Hs Hop. unfold sb_scan_ascii_str. rewrite (with_item_ok _ _ _ _ _ _ Hat).
  destruct (trim_token _ _ _ _ _ Hat) as (sb1 & -> & (Hok & Ec & t & HT & _ & HL) & Hz). clear Hat.
  destruct (skip_ascii_token _ _ _ _ (sb_fuel sb1) 0 sb1 HT Hok Ec eq_refl) as (fs & slow & sb2 & -> & Et & -> & Eb & Ep & Hok2 & [(Ec2 & HT2 & Es2)|(? & _)]);
    [by apply sb_fuel_text| |done].
  apply stands_ascii_app in Hs as (os' & -> & Hs). rewrite bool_decide_eq_false_2 by (by rewrite Ec2).
  destruct (write_symbols_token symbol_into_ascii _ _ _ _ (sb_fuel sb2) (0 + length fs) sb2 os' HT2) as (sb3 & -> & Hp & Hle & _ & Htk);
    try done; [by apply sb_fuel_text|lia|]. cbn [scan_then].
  assert (sb_ok sb3) as Hok3 by apply Hp. destruct (Nat.leb_spec (0 + length fs + length os') (length (sb_buf sb3))); [|unfold sb_ok in *; lia].
  rewrite Htk, Eb. unfold sb_text in Et. rewrite Hz, drop_0 in Et. cbn [Nat.add]. rewrite Et, Hop.
  destruct (past_next_item _ _ _ _ _ _ toks rest HT2 Hp) as (sb4 & -> & Ha4 & _ & _ & H0); [by rewrite Ep|].
  exists sb4. split_and!; try done. specialize (H0 eq_refl). lia.
Qed.

Lemma Token_length cat t syms t' : Token cat t syms t' -> (length t' + length syms <= length t)%nat.
Proof.
  induction 1 as [| |cat t sym t1 syms t' Hl _ _ IH]; cbn; [lia..|].
  unfold lex_symbol in Hl. destruct (symbol_from_slice_index t 0) as [[[s n]|]|] eqn:E; try done. injection Hl as -> <-.
  apply symbol_from_slice_index_end in E. rewrite length_drop in IH. lia.
Qed.

Lemma past_start sb sb' cat syms t' : sb_ok sb -> Token cat (sb_text sb) syms t' -> past sb sb' t' -> (sb_start sb + length syms <= sb_start sb')%nat.
Proof.
  intros Hok HT (Ho & _ & Ht & _ & El). apply Token_length in HT. pose proof (sb_text_length _ Hok). pose proof (sb_text_length _ Ho).
  rewrite Ht in *. lia.
Qed.

Lemma Lex_length p t toks p' t' : Lex p t toks p' t' -> (length t' + length toks <= length t)%nat.
Proof.
  induction 1 as [|p t p1 t1 toks p' t' Hs _ IH|p t cat t1 syms t2 toks p' t' Hst HT _ _ IH]; [cbn; lia| |].
  - inversion Hs; subst; cbn in *; rewrite ?length_app; lia.
  - pose proof (Token_length _ _ _ _ HT). inversion Hst as [ch u Hw|u]; subst; cbn in *; [|lia].
    inversion HT as [? ? Hw'| |]; subst; [congruence|]. cbn in *. lia.
Qed.

Lemma at_tokens_length sb toks rest : at_tokens sb toks rest -> (length toks <= sb_fuel sb)%nat.
Proof.
  intros (Hok & Ht). unfold sb_fuel. destruct toks as [|[cat syms] toks]; [cbn; lia|]. destruct Ht as (_ & t & HT & _ & HL).
  apply Token_length in HT. apply Lex_length in HL. pose proof (sb_text_length _ Hok). cbn [length] in *. lia.
Qed.

(** ** Converted tokens *)

Section Converted.
Context {C : Type} `{ConvertSymbols C}.

(** What a converter has put out so far. *)
Definition output (st : C * nat * option (list Z)) (sb : SourceBuf) : list Z :=
  match st with (_, _, Some b) => b | (_, write, None) => take write (sb_buf sb) end.

Definition converting_ok (st : C * nat * option (list Z)) (sb : SourceBuf) : Prop :=
  match st with (_, write, None) => (write <= sb_start sb)%nat | _ => True end.

Lemma append_result_ok c data write builder c0 sb :
  sb_ok sb -> converting_ok (c0, write, builder) sb ->
  exists write' builder' sb', append_result c (Ok data) write builder sb = Ret (sb', Ok (c, write', builder')) /\ keeps sb sb' /\
    converting_ok (c, write', builder') sb' /\ output (c, write', builder') sb' = output (c0, write, builder) sb ++ default [] data.
Proof.
  intros Hok Hc. destruct data as [data|]; cbn [append_result default].
  2:{ exists write, builder, sb. rewrite app_nil_r. by split_and!. }
  unfold append_output. destruct builder as [b|].
  - exists write, (Some (b ++ data)), sb. by split_and!.
  - cbn in Hc. destruct (Nat.ltb_spec (sb_start sb) (write + length data)).
    + destruct (Nat.leb_spec write (length (sb_buf sb))); [|unfold sb_ok in *; lia].
      exists write, (Some (take write (sb_buf sb) ++ data)), sb. by split_and!.
    + destruct (put_octets_keeps write data sb) as (sb' & -> & Hk & Ht); [done..|].
      exists (write + length data)%nat, None, sb'. split_and!; try done. cbn. destruct Hk as (-> & _). lia.
Qed.

Lemma keeps_ok (st : C * nat * option (list Z)) sb sb' : moved sb sb' -> converting_ok st sb -> converting_ok st sb' /\ output st sb' = output st sb.
Proof. intros (Hb & Hs & _). destruct st as [[c w] [b|]]; cbn; [done|]. rewrite Hb. split; [lia|done]. Qed.

Lemma convert_one_token_tokens st sb cat syms toks rest c' out :
  at_tokens sb ((cat, syms) :: toks) rest -> converting_ok st sb ->
  convert_loop (B:=list Z) (map ESymbol syms) st.1.1 (output st sb) = Ret (Ok (c', out)) ->
  exists write' builder' sb', convert_one_token st sb = Ret (sb', Ok (c', write', builder')) /\ at_tokens sb' toks rest /\
    converting_ok (c', write', builder') sb' /\ output (c', write', builder') sb' = out /\ (sb_start sb + length syms <= sb_start sb')%nat /\
    (cat = CatUnquoted -> (sb_start sb + length syms < sb_start sb')%nat).
Proof.
  intros Hat Hst Hcv. unfold convert_one_token. rewrite (with_item_ok _ _ _ _ _ _ Hat). destruct Hat as (Hok & Ec & t & HT & _ & HL).
  destruct (each_next_token convert_step (fun st s syms => sb_ok s /\ converting_ok st s /\
    convert_loop (B:=list Z) (map ESymbol syms) st.1.1 (output st s) = Ret (Ok (c', out))))
    with cat (sb_text sb) syms t (sb_fuel sb) st sb as (st' & sb0 & sb1 & E & Hp & Hle & Hm & Hq & _ & Ho' & Hcv'); try done.
  - intros [[c w] b] s s1 sym ss Hm Hlt (Q1 & Q2 & Q3). cbn [map convert_loop fst] in Q3. cbn [convert_step].
    destruct (process_symbol c (ESymbol sym)) as [[c1 r]|]; [|done]. destruct r as [data|]; [|done].
    destruct (keeps_ok _ _ _ Hm Q2) as [Q2' Q4]. assert (sb_ok s1) as Hok1 by apply Hm.
    destruct (append_result_ok c1 data w b c s1 Hok1 Q2') as (w' & b' & s2 & -> & Hk & Hc2 & Ho2).
    exists (c1, w', b'), s2. split_and!; try done; [by eapply sb_ok_keeps|]. cbn [fst]. rewrite Ho2, Q4.
    destruct data as [data|]; cbn [append_data default] in *; [by cbn in Q3|by rewrite app_nil_r].
  - by apply sb_fuel_text.
  - rewrite E. cbn [scan_then]. cbn in Hcv'. injection Hcv' as E1 E2.
    destruct (past_next_item _ _ _ _ _ _ _ _ HT Hp HL) as (sb2 & -> & Ha & Hb2 & Hle2 & Hlt2). cbn [scan_then].
    destruct (keeps_ok _ _ _ Hm Ho') as [Ho1 E3]. destruct st' as [[c1 w1] b1]. cbn [fst] in E1. subst c1.
    exists w1, b1, sb2. split_and!; try done.
    + destruct b1; [done|]. cbn in *. lia.
    + rewrite <- E2, <- E3. destruct b1; cbn; [done|]. by rewrite Hb2.
    + pose proof (past_start _ _ _ _ _ Hok HT Hp). lia.
    + intros Hu. specialize (Hlt2 Hu). pose proof (past_start _ _ _ _ _ Hok HT Hp). lia.
Qed.

Lemma output_length c write sb : sb_ok sb -> converting_ok (c, write, None) sb -> length (output (c, write, None) sb) = write.
Proof. intros Hok Hc. cbn in *. rewrite length_take. unfold sb_ok in Hok. lia. Qed.

Lemma convert_finish_tokens c write builder sb toks rest c' data :
  at_tokens sb toks rest -> converting_ok (c, write, builder) sb -> process_tail c = Ret (c', Ok data) ->
  (length (output (c, write, builder) sb ++ default [] data) < sb_start sb)%nat ->
  exists sb', convert_finish (c, write, builder) sb = Ret (sb', Ok (output (c, write, builder) sb ++ default [] data)) /\
    at_tokens sb' toks rest /\ (0 < sb_start sb')%nat.
Proof.
  intros Hat Hc Et Hlen. unfold convert_finish. rewrite Et. assert (sb_ok sb) as Hok by apply Hat.
  destruct (append_result_ok c' data write builder c sb Hok Hc) as (w' & b' & sb1 & -> & Hk & Hc1 & Ho1). cbn [scan_then]. rewrite <- Ho1 in *.
  assert (sb_ok sb1) as Hok1 by by eapply sb_ok_keeps. destruct Hk as (K1 & K2 & K3 & K4 & K5).
  assert (Hat1 : at_tokens sb1 toks rest) by by apply (at_tokens_same sb).
  destruct b' as [b|].
  - exists sb1. split_and!; try done. lia.
  - rewrite output_length in Hlen by done. destruct (split_to_tokens w' sb1 toks rest) as (sb2 & -> & Hat2 & Hs2 & _); [cbn in Hc1; lia|done|].
    exists sb2. split_and!; try done. lia.
Qed.

(** The symbols of tokens, for a converter. *)
Definition toks_symbols (toks : list tok) : list EntrySymbol := concat (map (fun t => map ESymbol t.2) toks).

Lemma convert_token_tokens (c : C) sb syms toks rest out :
  at_tokens sb ((CatUnquoted, syms) :: toks) rest -> convert_symbols (B:=list Z) (map ESymbol syms) c = Ret (Ok out) ->
  (length out <= length syms)%nat ->
  exists sb', sb_convert_token c sb = Ret (sb', Ok out) /\ at_tokens sb' toks rest /\ (0 < sb_start sb')%nat.
Proof.
  intros Hat Hcv Hlen. unfold convert_symbols, convert_from in Hcv.
  destruct (convert_loop (B:=list Z) (map ESymbol syms) c builder_empty) as [[[c' res]|]|] eqn:El; try done.
  destruct (process_tail c') as [[c2 [data|]]|] eqn:Et; try done.
  assert (out = res ++ default [] data) as -> by (destruct data; cbn in Hcv; injection Hcv as <-; [done|by rewrite app_nil_r]).
  unfold sb_convert_token. destruct (convert_one_token_tokens (c, 0%nat, None) sb _ _ _ _ c' res Hat) as (w & b & sb1 & -> & Hat1 & Hc1 & Ho1 & _ & Hlt);
    [cbn; lia|done|]. cbn [scan_then]. specialize (Hlt eq_refl). rewrite <- Ho1 in *. apply (convert_finish_tokens c' w b sb1 toks rest c2); try done. lia.
Qed.

Lemma convert_loop_app_vec s1 s2 (c : C) (res : list Z) :
  convert_loop (s1 ++ s2) c res = match convert_loop s1 c res with Ret (Ok (c', res')) => convert_loop s2 c' res' | x => x end.
Proof. apply convert_loop_app. Qed.

Lemma convert_tokens_loop_tokens st sb toks rest c' out fuel :
  at_tokens sb toks rest -> toks <> [] -> Forall (fun t => t.1 = CatUnquoted) toks -> converting_ok st sb ->
  convert_loop (B:=list Z) (toks_symbols toks) st.1.1 (output st sb) = Ret (Ok (c', out)) -> (length toks <= fuel)%nat ->
  exists write' builder' sb', convert_tokens_loop fuel st sb = Ret (sb', Ok (c', write', builder')) /\ at_tokens sb' [] rest /\
    converting_ok (c', write', builder') sb' /\ output (c', write', builder') sb' = out /\
    (sb_start sb + length (toks_symbols toks) < sb_start sb')%nat.
Proof.
  revert st sb fuel. induction toks as [|[cat syms] toks IH]; intros st sb fuel Hat Hn Hu Hc Hcv Hf; [done|].
  destruct fuel as [|fuel]; [cbn in Hf; lia|]. cbn [convert_tokens_loop]. apply Forall_cons in Hu as [Hcat Hu]. cbn in Hcat. subst cat.
  unfold toks_symbols in Hcv. cbn [map concat snd] in Hcv. rewrite convert_loop_app_vec in Hcv.
  destruct (convert_loop (map ESymbol syms) st.1.1 (output st sb)) as [[[c1 out1]|]|] eqn:E1; try done.
  destruct (convert_one_token_tokens st sb _ _ _ _ c1 out1 Hat Hc E1) as (w & b & sb1 & -> & Hat1 & Hc1 & Ho1 & _ & Hlt). specialize (Hlt eq_refl).
  cbn [scan_then]. unfold toks_symbols. cbn [map concat snd]. rewrite length_app, length_map. fold (toks_symbols toks).
  destruct toks as [|t toks].
  - assert (is_line_feed sb1 = true) as -> by (unfold is_line_feed; destruct Hat1 as (_ & -> & _); done).
    injection Hcv as <- <-. exists w, b, sb1. split_and!; try done. cbn. lia.
  - assert (is_line_feed sb1 = false) as ->.
    { unfold is_line_feed. destruct t as [cat s]. destruct Hat1 as (_ & -> & _). apply Forall_inv in Hu. cbn in Hu. by subst cat. }
    destruct (IH (c1, w, b) sb1 fuel) as (w2 & b2 & sb2 & E2 & Hat2 & Hc2 & Ho2 & Hlt2); try done; [by rewrite Ho1|cbn in *; lia|].
    exists w2, b2, sb2. split_and!; try done. lia.
Qed.

Lemma convert_entry_tokens (c : C) sb toks rest out :
  at_tokens sb toks rest -> toks <> [] -> Forall (fun t => t.1 = CatUnquoted) toks ->
  convert_symbols (B:=list Z) (toks_symbols toks) c = Ret (Ok out) -> (length out <= length (toks_symbols toks))%nat ->
  exists sb', sb_convert_entry c sb = Ret (sb', Ok out) /\ at_tokens sb' [] rest /\ (0 < sb_start sb')%nat.
Proof.
  intros Hat Hn Hu Hcv Hlen. unfold convert_symbols, convert_from in Hcv.
  destruct (convert_loop (B:=list Z) (toks_symbols toks) c builder_empty) as [[[c' res]|]|] eqn:El; try done.
  destruct (process_tail c') as [[c2 [data|]]|] eqn:Et; try done.
  assert (out = res ++ default [] data) as -> by (destruct data; cbn in Hcv; injection Hcv as <-; [done|by rewrite app_nil_r]).
  unfold sb_convert_entry.
  destruct (convert_tokens_loop_tokens (c, 0%nat, None) sb toks rest c' res (sb_fuel sb)) as (w & b & sb1 & -> & Hat1 & Hc1 & Ho1 & Hlt);
    try done; [cbn; lia|by eapply at_tokens_length|]. cbn [scan_then]. rewrite <- Ho1 in *.
  apply (convert_finish_tokens c' w b sb1 [] rest c2); try done. lia.
Qed.
End Converted.

(** ** Names *)

(** The symbols of a label: none is a dot. *)
Definition label_syms (syms : list Symbol) (l : list Z) : Prop :=
  stands symbol_into_octet syms l /\ Forall (fun sym => sym <> Char 46) syms.

(** What is in the buffer when a label has been converted: what was there, the length
    and the octets. *)
Definition label_written (start write : nat) (os : list Z) (sb sb' : SourceBuf) : Prop :=
  take (write + length os) (sb_buf sb') =
  take start (sb_buf sb) ++ [Z.of_nat (write + length os - start - 1) mod 256] ++ drop (start + 1) (take write (sb_buf sb)) ++ os.

Lemma put_length_written start write sb :
  (start < write)%nat -> (write <= sb_start sb)%nat -> sb_ok sb ->
  exists sb', put_length start write sb = Ret sb' /\ keeps sb sb' /\ label_written start write [] sb sb'.
Proof.
  intros H1 H2 Hok. unfold put_length. destruct (put_octet_keeps start (Z.of_nat (write - start - 1) mod 256) sb) as (sb' & E & Hk & Hb); [lia|done|].
  exists sb'. split_and!; try done. unfold label_written, sb_ok in *. cbn [length]. rewrite Nat.add_0_r, Hb, insert_take_drop by lia.
  rewrite take_app, length_take, take_take. rewrite (Nat.min_l start (length _)), Nat.min_r by lia. f_equal. rewrite app_nil_r.
  destruct (write - start)%nat as [|k] eqn:Ek; [lia|]. cbn [firstn app]. f_equal.
  rewrite Nat.add_1_r, take_drop_commute. repeat f_equal. lia.
Qed.

(** The state inside a token. *)
Definition inside (cat : ItemCat) (sb sb' : SourceBuf) (syms : list Symbol) (t' : list Z) : Prop :=
  sb_ok sb' /\ sb_cat sb' = cat /\ Token cat (sb_text sb') syms t' /\ sb_parens sb' = sb_parens sb /\ length (sb_buf sb') = length (sb_buf sb).

Lemma label_loop_dot cat syms more t' os fuel start write latest sb :
  Token cat (sb_text sb) (syms ++ Char 46 :: more) t' -> sb_ok sb -> sb_cat sb = cat -> label_syms syms os -> (length syms < fuel)%nat ->
  (start < write <= sb_start sb)%nat -> (write + length os < latest)%nat ->
  exists sb', label_loop fuel start write latest sb = Ret (sb', Ok ((write + length os)%nat, Some true)) /\ inside cat sb sb' more t' /\
    (write + length os < sb_start sb')%nat /\ label_written start write os sb sb'.
Proof.
  revert os fuel write sb. induction syms as [|sym syms IH]; intros os fuel write sb HT Hok Ec [Hs Hd] Hf Hw Hl; (destruct fuel as [|fuel]; [cbn in Hf; lia|]);
    cbn [label_loop app] in *; inversion HT as [| |c u s u1 ss u' Hlex Hin HT1]; subst;
    destruct (next_symbol_in sb _ _ Hlex Hin) as (sb1 & -> & Hm & Hlt & Ht & Hc); pose proof Hm as (Hb & _ & Hok1 & Hp).
  - inversion Hs; subst. rewrite bool_decide_eq_true_2 by done.
    destruct (put_length_written start write sb1) as (sb2 & -> & Hk & Hwr); [lia|lia|done|]. pose proof Hk as (K1 & K2 & K3 & K4 & K5).
    exists sb2. cbn [length]. rewrite Nat.add_0_r. split_and!; try done.
    + unfold inside. rewrite K3, K4, K5, K2, Hc, Hb, Hp. split_and!; try done. by eapply sb_ok_keeps.
    + lia.
    + unfold label_written in *. by rewrite Hb in Hwr.
  - inversion Hs as [|? o ? os2 Ho Hos]; subst. apply Forall_cons in Hd as [Hd0 Hd]. rewrite bool_decide_eq_false_2 by done.
    unfold write_symbol. rewrite Ho. destruct (put_octet_keeps write o sb1) as (sb2 & -> & Hk & Hb2); [lia|done|].
    pose proof Hk as (K1 & K2 & K3 & K4 & K5). cbn [scan_then length] in *. destruct (Nat.leb_spec latest (write + 1)); [lia|].
    destruct (IH os2 fuel (write + 1)%nat sb2) as (sb3 & E & Hi & Hlt3 & Hwr); try done; [by rewrite K3|by eapply sb_ok_keeps|congruence|lia|lia|lia|].
    exists sb3. rewrite E. replace (write + S (length os2))%nat with (write + 1 + length os2)%nat by lia. split_and!; try done.
    + destruct Hi as (I1 & I2 & I3 & I4 & I5). unfold inside. split_and!; first [done|congruence].
    + unfold label_written in *. cbn [length]. replace (write + S (length os2))%nat with (write + 1 + length os2)%nat by lia.
      rewrite Hwr, Hb2, take_insert_ge, Hb by lia. f_equal. f_equal.
      rewrite (Nat.add_1_r write), (take_S_r _ write o) by (apply list_lookup_insert_eq; rewrite <- Hb; unfold sb_ok in *; lia).
      rewrite take_insert_ge by lia. rewrite drop_app_le by (rewrite length_take, <- Hb; unfold sb_ok in *; lia). by rewrite <- app_assoc.
Qed.

Lemma label_loop_end cat syms t' os fuel start write latest sb :
  Token cat (sb_text sb) syms t' -> sb_ok sb -> sb_cat sb = cat -> label_syms syms os -> (length syms < fuel)%nat ->
  (start < write <= sb_start sb)%nat -> (write + length os < latest)%nat ->
  exists sb', past sb sb' t' /\ (write + length os <= sb_start sb')%nat /\
    if (start + 1 <? write + length os)%nat
    then label_loop fuel start write latest sb = Ret (sb', Ok ((write + length os)%nat, Some false)) /\ label_written start write os sb sb'
    else label_loop fuel start write latest sb = Ret (sb', Ok (start, None)) /\ sb_buf sb' = sb_buf sb.
Proof.
  revert os fuel write sb. induction syms as [|sym syms IH]; intros os fuel write sb HT Hok Ec [Hs Hd] Hf Hw Hl; (destruct fuel as [|fuel]; [cbn in Hf; lia|]);
    cbn [label_loop].
  - inversion Hs; subst. destruct (next_symbol_end sb t' Hok HT) as (sb1 & -> & Hm & Ht & Hc). pose proof Hm as (Hb & Hle & Hok1 & Hp).
    cbn [length]. rewrite Nat.add_0_r. destruct (Nat.ltb_spec (start + 1) write).
    + destruct (put_length_written start write sb1) as (sb2 & -> & Hk & Hwr); [lia|lia|done|]. pose proof Hk as (K1 & K2 & K3 & K4 & K5).
      exists sb2. split_and!; try done; [|lia|unfold label_written in *; by rewrite Hb in Hwr].
      split_and!; [by eapply sb_ok_keeps|congruence..].
    + exists sb1. split_and!; try done; [|lia]. split_and!; try done. by rewrite Hb.
  - inversion HT as [| |c u s u1 ss u' Hlex Hin HT1]; subst.
    destruct (next_symbol_in sb _ _ Hlex Hin) as (sb1 & -> & Hm & Hlt & Ht & Hc). pose proof Hm as (Hb & _ & Hok1 & Hp).
    inversion Hs as [|? o ? os2 Ho Hos]; subst. apply Forall_cons in Hd as [Hd0 Hd]. rewrite bool_decide_eq_false_2 by done.
    unfold write_symbol. rewrite Ho. destruct (put_octet_keeps write o sb1) as (sb2 & -> & Hk & Hb2); [lia|done|].
    pose proof Hk as (K1 & K2 & K3 & K4 & K5). cbn [scan_then length] in *. destruct (Nat.leb_spec latest (write + 1)); [lia|].
    destruct (IH os2 fuel (write + 1)%nat sb2) as (sb3 & Hp3 & Hle3 & Hr); try done; [by rewrite K3|by eapply sb_ok_keeps|congruence|lia|lia|lia|].
    replace (write + S (length os2))%nat with (write + 1 + length os2)%nat by lia. exists sb3. split_and!; try done.
    { destruct Hp3 as (P1 & P2 & P3 & P4 & P5). split_and!; first [done|congruence]. }
    destruct (Nat.ltb_spec (start + 1) (write + 1 + length os2)); [|lia]. destruct Hr as [Hr Hwr]. split; [done|].
    unfold label_written in *. cbn [length]. replace (write + S (length os2))%nat with (write + 1 + length os2)%nat by lia.
    rewrite Hwr, Hb2, take_insert_ge, Hb by lia. f_equal. f_equal.
    rewrite (Nat.add_1_r write), (take_S_r _ write o) by (apply list_lookup_insert_eq; rewrite <- Hb; unfold sb_ok in *; lia).
    rewrite take_insert_ge by lia. rewrite drop_app_le by (rewrite length_take, <- Hb; unfold sb_ok in *; lia). by rewrite <- app_assoc.
Qed.

(** The octets of a label that are where they have to be. *)
Lemma label_in_place_token syms tl t' fuel start write latest sb os :
  Token CatUnquoted (sb_text sb) (syms ++ tl) t' -> (tl = [] \/ exists more, tl = Char 46 :: more) -> sb_ok sb -> sb_cat sb = CatUnquoted ->
  label_syms syms os -> (length syms < fuel)%nat -> (start < write)%nat -> write = sb_start sb -> (write + length os < latest)%nat ->
  (exists more sb', tl = Char 46 :: more /\ label_in_place fuel start write latest sb = Ret (sb', Ok ((write + length os)%nat, true)) /\
     inside CatUnquoted sb sb' more t' /\ (write + length os < sb_start sb')%nat /\ label_written start write os sb sb') \/
  (exists fs slow os' sb', syms = map Char fs ++ slow /\ os = fs ++ os' /\ label_in_place fuel start write latest sb = Ret (sb', Ok ((write + length fs)%nat, false)) /\
     inside CatUnquoted sb sb' (slow ++ tl) t' /\ (write + length fs)%nat = sb_start sb' /\ sb_buf sb' = sb_buf sb /\
     take (write + length fs) (sb_buf sb) = take write (sb_buf sb) ++ fs).
Proof.
  revert os fuel write sb. induction syms as [|sym syms IH]; intros os fuel write sb HT Htl Hok Ec [Hs Hd] Hf Hw He Hl; (destruct fuel as [|fuel]; [cbn in Hf; lia|]);
    cbn [label_in_place app] in *.
  - inversion Hs; subst. destruct Htl as [->|[more ->]].
    + right. exists [], [], [], sb. rewrite next_ascii_stop.
      2:{ rewrite Ec. inversion HT as [ch u Hch E1 E2| |]; subst. split; [by apply word_end_not_plain|done]. }
      cbn [length]. rewrite Nat.add_0_r. split_and!; try done. by rewrite app_nil_r.
    + inversion HT as [| |c u s u1 ss u' Hlex Hin HT1]; subst. destruct (sb_text sb) as [|ch u] eqn:Et; [done|].
      destruct (plain_octet CatUnquoted ch) eqn:Hpl.
      * rewrite (plain_octet_lex CatUnquoted) in Hlex by done. injection Hlex as -> ->. left. rewrite (next_ascii_plain sb 46 u1) by (by rewrite ?Ec).
        destruct (sb_text_cons _ _ _ Et) as (_ & Et1 & Hok1). cbn [Z.eqb Pos.eqb].
        destruct (put_length_written start (sb_start sb) (sb_advance 1 sb)) as (sb2 & -> & Hk & Hwr); [lia|cbn; lia|done|].
        pose proof Hk as (K1 & K2 & K3 & K4 & K5). exists more, sb2. cbn [length]. rewrite Nat.add_0_r. split_and!; try done.
        -- split_and!; [by eapply sb_ok_keeps|by rewrite K4|by rewrite K3, Et1|done|done].
        -- rewrite K1. cbn. lia.
      * right. exists [], [], [], sb. rewrite next_ascii_stop by (rewrite Et, Ec; done). cbn [length]. rewrite Nat.add_0_r.
        split_and!; try done; [|by rewrite app_nil_r]. split_and!; try done. by rewrite Et.
  - inversion HT as [| |c u s u1 ss u' Hlex Hin HT1]; subst. destruct (sb_text sb) as [|ch u] eqn:Et; [done|].
    destruct (plain_octet CatUnquoted ch) eqn:Hpl.
    + rewrite (plain_octet_lex CatUnquoted) in Hlex by done. injection Hlex as <- <-. rewrite (next_ascii_plain sb ch u) by (by rewrite ?Ec).
      destruct (sb_text_cons _ _ _ Et) as (_ & Et1 & Hok1). inversion Hs as [|? o ? os2 Ho Hos]; subst. apply Forall_cons in Hd as [Hd0 Hd].
      assert (o = ch) as -> by (cbn in Ho; case_match; congruence). destruct (Z.eqb_spec ch 46) as [->|_]; [done|].
      cbn [length] in *. destruct (Nat.leb_spec latest (sb_start sb + 1)); [lia|].
      assert (Htk : take (sb_start sb + 1) (sb_buf sb) = take (sb_start sb) (sb_buf sb) ++ [ch]).
      { rewrite Nat.add_1_r. apply take_S_r. rewrite sb_lookup, Et. done. }
      destruct (IH os2 fuel (sb_start sb + 1)%nat (sb_advance 1 sb)) as [(more & sb' & E1 & E2 & E3 & E4 & E5)|(fs & slow & os' & sb' & E1 & E2 & E3 & E4 & E5 & E6 & E7)];
        try done; [lia|lia|lia| |].
      * left. exists more, sb'. rewrite E2. replace (sb_start sb + S (length os2))%nat with (sb_start sb + 1 + length os2)%nat by lia.
        split_and!; try done. unfold label_written in *. cbn [length sb_buf sb_advance sb_with_start] in *.
        replace (sb_start sb + S (length os2))%nat with (sb_start sb + 1 + length os2)%nat by lia. rewrite E5, Htk. f_equal. f_equal.
        rewrite drop_app_le by (rewrite length_take; unfold sb_ok in *; lia). by rewrite <- app_assoc.
      * right. exists (ch :: fs), slow, os', sb'. cbn [map app length sb_buf sb_advance sb_with_start] in *. subst. rewrite E3.
        replace (sb_start sb + S (length fs))%nat with (sb_start sb + 1 + length fs)%nat by lia. split_and!; try done.
        rewrite E7, Htk. by rewrite <- app_assoc.
    + right. exists [], (sym :: syms), os, sb. rewrite next_ascii_stop by (rewrite Et, Ec; done). cbn [length]. rewrite Nat.add_0_r.
      split_and!; try done; [|by rewrite app_nil_r]. split_and!; try done. rewrite Et. by econstructor.
Qed.

Lemma label_written_wire start fs os sb sb' l :
  (start + 1 <= length (sb_buf sb))%nat -> l = fs ++ os -> (length l <= 63)%nat ->
  take (start + 1 + length fs) (sb_buf sb) = take (start + 1) (sb_buf sb) ++ fs ->
  label_written start (start + 1 + length fs) os sb sb' ->
  take (start + 1 + length l) (sb_buf sb') = take start (sb_buf sb) ++ label_wire l.
Proof.
  intros Hb -> Hl Htk Hw. unfold label_written in Hw. rewrite length_app, Nat.add_assoc, Hw, Htk. unfold label_wire. f_equal.
  rewrite drop_app_ge by (rewrite length_take; lia). rewrite length_take, Nat.min_l by lia. replace (start + 1 - (start + 1))%nat with 0%nat by lia.
  rewrite drop_0. cbn [app]. f_equal. unfold zlen. rewrite length_app in *. rewrite Z.mod_small by lia. f_equal. lia.
Qed.

Lemma label_syms_app fs slow l : label_syms (map Char fs ++ slow) l -> exists os, l = fs ++ os /\ label_syms slow os.
Proof. intros [Hs Hd]. apply stands_octet_app in Hs as (os & -> & Hs). exists os. apply Forall_app in Hd as [_ Hd]. done. Qed.

Lemma label_syms_length syms l : label_syms syms l -> length syms = length l.
Proof. intros [H _]. by eapply Forall2_length. Qed.

Lemma Token_fuel cat syms t' sb : Token cat (sb_text sb) syms t' -> sb_ok sb -> (length syms < sb_fuel sb)%nat.
Proof. intros H Hok. apply Token_length in H. pose proof (sb_text_length _ Hok). unfold sb_fuel. lia. Qed.

Lemma convert_label_dot syms more t' l start sb :
  Token CatUnquoted (sb_text sb) (syms ++ Char 46 :: more) t' -> sb_ok sb -> sb_cat sb = CatUnquoted -> label_syms syms l -> (length l <= 63)%nat ->
  (start + 1 <= sb_start sb)%nat ->
  exists sb', convert_label start sb = Ret (sb', Ok ((start + 1 + length l)%nat, Some true)) /\ inside CatUnquoted sb sb' more t' /\
    (start + 1 + length l < sb_start sb')%nat /\ take (start + 1 + length l) (sb_buf sb') = take start (sb_buf sb) ++ label_wire l.
Proof.
  intros HT Hok Ec Hs Hl Hst. pose proof (Token_fuel _ _ _ _ HT Hok) as Hf. rewrite length_app in Hf. unfold convert_label.
  assert (Hbuf : (start + 1 <= length (sb_buf sb))%nat) by (unfold sb_ok in Hok; lia).
  destruct (Nat.eqb_spec (start + 1) (sb_start sb)) as [He|He].
  - destruct (label_in_place_token syms (Char 46 :: more) t' (sb_fuel sb) start (start + 1) (start + 1 + 64) sb l)
      as [(more' & sb' & E1 & -> & E3 & E4 & E5)|(fs & slow & os & sb' & -> & -> & -> & Hi & E5 & E6 & E7)]; try done; try lia.
    + right. by eexists.
    + cbn [scan_then]. injection E1 as ->. exists sb'. split_and!; try done.
      apply (label_written_wire start [] l sb sb'); cbn [app length]; rewrite ?Nat.add_0_r, ?app_nil_r; done.
    + cbn [scan_then]. destruct Hi as (I1 & I2 & I3 & I4 & I5). apply label_syms_app in Hs as (os2 & E & Hs). apply app_inv_head in E as <-.
      rewrite length_app in *. pose proof (Token_fuel _ _ _ _ I3 I1) as Hf'. rewrite length_app in Hf'.
      destruct (label_loop_dot CatUnquoted slow more t' os (sb_fuel sb') start (start + 1 + length fs) (start + 1 + 64) sb') as (sb2 & -> & Hi2 & Hlt & Hwr);
        try done; try lia.
      exists sb2. rewrite Nat.add_assoc. split_and!; try done.
      * destruct Hi2 as (J1 & J2 & J3 & J4 & J5). split_and!; first [done|congruence].
      * rewrite <- Nat.add_assoc, <- length_app. apply (label_written_wire start fs os sb sb2); try done; [by rewrite length_app|].
        unfold label_written in *. by rewrite E6 in Hwr.
  - cbn [scan_then].
    destruct (label_loop_dot CatUnquoted syms more t' l (sb_fuel sb) start (start + 1) (start + 1 + 64) sb) as (sb2 & -> & Hi2 & Hlt & Hwr); try done; try lia.
    exists sb2. split_and!; try done. apply (label_written_wire start [] l sb sb2); cbn [app length]; rewrite ?Nat.add_0_r, ?app_nil_r; done.
Qed.

Lemma convert_label_end syms t' l start sb :
  Token CatUnquoted (sb_text sb) syms t' -> sb_ok sb -> sb_cat sb = CatUnquoted -> label_syms syms l -> (length l <= 63)%nat ->
  (start + 1 <= sb_start sb)%nat ->
  exists sb', past sb sb' t' /\ (start + 1 + length l <= sb_start sb')%nat /\
    match l with
    | [] => convert_label start sb = Ret (sb', Ok (start, None)) /\ sb_buf sb' = sb_buf sb
    | _ => convert_label start sb = Ret (sb', Ok ((start + 1 + length l)%nat, Some false)) /\
           take (start + 1 + length l) (sb_buf sb') = take start (sb_buf sb) ++ label_wire l
    end.
Proof.
  intros HT Hok Ec Hs Hl Hst. pose proof (Token_fuel _ _ _ _ HT Hok) as Hf. unfold convert_label. cbv zeta.
  assert (Hbuf : (start + 1 <= length (sb_buf sb))%nat) by (unfold sb_ok in Hok; lia).
  assert (Hslow : exists fs slow os sb1, l = fs ++ os /\
    (if (start + 1 =? sb_start sb)%nat then label_in_place (sb_fuel sb) start (start + 1) (start + 1 + 64) sb else Ret (sb, Ok ((start + 1)%nat, false))) =
      Ret (sb1, Ok ((start + 1 + length fs)%nat, false)) /\ label_syms slow os /\ inside CatUnquoted sb sb1 slow t' /\ sb_buf sb1 = sb_buf sb /\
    (start + 1 + length fs <= sb_start sb1)%nat /\ take (start + 1 + length fs) (sb_buf sb) = take (start + 1) (sb_buf sb) ++ fs).
  { destruct (Nat.eqb_spec (start + 1) (sb_start sb)) as [He|He].
    - rewrite <- (app_nil_r syms) in HT.
      destruct (label_in_place_token syms [] t' (sb_fuel sb) start (start + 1) (start + 1 + 64) sb l)
        as [(? & ? & ? & _)|(fs & slow & os & sb' & -> & -> & -> & Hi & E5 & E6 & E7)]; try done; try lia; [by left|].
      apply label_syms_app in Hs as (os2 & E & Hs). apply app_inv_head in E as <-. rewrite app_nil_r in Hi.
      exists fs, slow, os, sb'. split_and!; try done. lia.
    - exists [], syms, l, sb. cbn [length]. rewrite !Nat.add_0_r, app_nil_r. split_and!; try done. }
  destruct Hslow as (fs & slow & os & sb1 & -> & E0 & Hs1 & (I1 & I2 & I3 & I4 & I5) & E6 & E5 & E7).
  unfold EntryError in *. rewrite E0. cbn [scan_then]. rewrite length_app in *.
  destruct (label_loop_end CatUnquoted slow t' os (sb_fuel sb1) start (start + 1 + length fs) (start + 1 + 64) sb1) as (sb2 & Hp2 & Hle & Hr);
    try done; try lia; [by eapply Token_fuel|].
  exists sb2. split_and!; [destruct Hp2 as (P1 & P2 & P3 & P4 & P5); split_and!; first [done|congruence]|lia|].
  destruct (Nat.ltb_spec (start + 1) (start + 1 + length fs + length os)) as [Hlt|Hlt].
  - destruct Hr as [-> Hwr]. destruct (fs ++ os) as [|x l'] eqn:El; [apply app_eq_nil in El as [-> ->]; cbn in Hlt; lia|].
    rewrite <- El. split; [by rewrite Nat.add_assoc|]. rewrite <- length_app.
    apply (label_written_wire start fs os sb sb2); try done; [by rewrite length_app|]. unfold label_written in *. by rewrite E6 in Hwr.
  - destruct fs; [|cbn in Hlt; lia]. destruct os; [|cbn in Hlt; lia]. cbn [app]. destruct Hr as [-> ->]. done.
Qed.

(** The labels of a name that each end in a dot. *)
Inductive Dotted : list Symbol -> list (list Z) -> Prop :=
  | Dotted_nil : Dotted [] []
  | Dotted_label syms l more ls : label_syms syms l -> nonroot l -> Dotted more ls -> Dotted (syms ++ Char 46 :: more) (l :: ls).

Lemma Dotted_length syms ls : Dotted syms ls -> (length ls <= length syms)%nat.
Proof. induction 1; [done|]. rewrite length_app. cbn. lia. Qed.

Section ScanName.
Context (oc : bool) (origin : option Name).

(** The name for labels that end in dots and a last one that does not: without a last
    label the name is absolute. *)
Definition dotted_name (ls : list (list Z)) (l : list Z) (sb : SourceBuf) : outcome (SourceBuf * result ScannedDname EntryError) :=
  match l with
  | [] => scanned_name oc (mkRel (labels_wire ls)) name_root sb
  | _ => with_origin oc origin (mkRel (labels_wire (ls ++ [l]))) sb
  end.

Lemma name_loop_token pre ls lsyms l t' toks rest :
  Dotted pre ls -> label_syms lsyms l -> (length l <= 63)%nat -> forall before write sb fuel,
  Token CatUnquoted (sb_text sb) (pre ++ lsyms) t' -> sb_ok sb -> sb_cat sb = CatUnquoted -> Lex (sb_parens sb) t' toks 0 (10 :: rest) ->
  (write + 1 <= sb_start sb)%nat -> take write (sb_buf sb) = labels_wire before -> (length (labels_wire (before ++ ls)) <= 254)%nat ->
  before ++ ls ++ [l] <> [[]] -> (length ls < fuel)%nat ->
  exists sb2, name_loop oc origin fuel write sb = dotted_name (before ++ ls) l sb2 /\ at_tokens sb2 toks rest /\ (0 < sb_start sb2)%nat.
Proof.
  intros HD Hs Hl. induction HD as [|syms l0 more ls Hs0 Hn0 HD IH]; intros before write sb fuel HT Hok Ec HL Hw Htk H254 Hne Hf;
    (destruct fuel as [|fuel]; [cbn in Hf; lia|]); cbn [name_loop app] in *.
  - assert (write = length (labels_wire before)) as Hwl by (rewrite <- Htk, length_take; unfold sb_ok in Hok; lia).
    destruct (convert_label_end lsyms t' l write sb) as (sb1 & Hp & Hle & Hr); try done. rewrite app_nil_r in *.
    destruct l as [|x l].
    + destruct Hr as [-> Eb]. cbn [scan_then]. destruct (Nat.eqb_spec write 0) as [->|Hz].
      { destruct before; [done|]. by rewrite labels_wire_cons in Hwl. }
      destruct (take_written_tokens write sb sb1 _ _ _ _ toks rest HT Hp HL) as (sb2 & -> & Ha & H0); [lia|].
      exists sb2. cbn [scan_then dotted_name]. rewrite Eb, Htk. split_and!; try done. apply H0. by left.
    + destruct Hr as [-> Eb]. cbn [scan_then].
      destruct (take_written_tokens (write + 1 + length (x :: l)) sb sb1 _ _ _ _ toks rest HT Hp HL) as (sb2 & -> & Ha & H0); [lia|].
      exists sb2. cbn [scan_then dotted_name]. rewrite Eb, Htk. unfold labels_wire at 2. rewrite map_app, concat_app. cbn [map concat]. rewrite app_nil_r.
      split_and!; try done. apply H0. by left.
  - destruct Hn0 as [Hn1 _]. unfold LABEL_MAX_LEN in Hn1. rewrite <- app_assoc in HT. cbn [app] in HT.
    destruct (convert_label_dot syms (more ++ lsyms) t' l0 write sb) as (sb1 & -> & (I1 & I2 & I3 & I4 & I5) & Hlt & Htk1); try done; [lia|]. cbn [scan_then].
    assert (write = length (labels_wire before)) as Hwl by (rewrite <- Htk, length_take; unfold sb_ok in Hok; lia).
    destruct (Nat.eqb_spec (write + 1 + length l0) 1) as [He|_]; [lia|].
    assert (Htk2 : take (write + 1 + length l0) (sb_buf sb1) = labels_wire (before ++ [l0])).
    { rewrite Htk1, Htk. unfold labels_wire. rewrite map_app, concat_app. cbn [map concat]. by rewrite app_nil_r. }
    replace (before ++ l0 :: ls) with ((before ++ [l0]) ++ ls) in * by by rewrite <- app_assoc.
    destruct (Nat.ltb_spec 254 (write + 1 + length l0)) as [Hbad|_].
    { exfalso. apply (f_equal length) in Htk2. rewrite length_take in Htk2. unfold labels_wire in *. rewrite map_app, concat_app, length_app in H254.
      unfold sb_ok in I1. lia. }
    destruct (IH (before ++ [l0]) (write + 1 + length l0)%nat sb1 fuel) as (sb2 & -> & Ha & H0); try done; try (cbn in Hf; lia); try lia.
    + by rewrite I4.
    + intros Heq. apply (f_equal length) in Heq. rewrite !length_app in Heq. cbn in Heq. lia.
    + by exists sb2.
Qed.

Lemma name_root_token t' toks rest sb fuel :
  Token CatUnquoted (sb_text sb) [Char 46] t' -> sb_ok sb -> sb_cat sb = CatUnquoted -> Lex (sb_parens sb) t' toks 0 (10 :: rest) ->
  (1 <= sb_start sb)%nat -> (0 < fuel)%nat ->
  exists sb2, name_loop oc origin fuel 0 sb = scanned_name oc (mkRel []) name_root sb2 /\ at_tokens sb2 toks rest /\ (0 < sb_start sb2)%nat.
Proof.
  intros HT Hok Ec HL Hst Hf. destruct fuel as [|fuel]; [lia|]. cbn [name_loop].
  destruct (convert_label_dot [] [] t' [] 0 sb) as (sb1 & -> & (I1 & I2 & I3 & I4 & I5) & Hlt & Htk1); try done; [by split; constructor|cbn; lia|].
  cbn [scan_then length Nat.add Nat.eqb]. destruct (next_symbol_end sb1 t' I1) as (sb2 & -> & (M1 & M2 & M3 & M4) & Ht & Hc); [by rewrite I2|].
  destruct (past_next_item sb sb2 _ _ _ _ toks rest I3) as (sb3 & -> & Ha & Hb & Hle & Hlt3); [|done|].
  { split_and!; try done; congruence. }
  cbn [scan_then]. exists sb3. split_and!; [done..|]. specialize (Hlt3 eq_refl). lia.
Qed.

(** The symbols of an absolute name. *)
Definition absolute_syms (syms : list Symbol) (ls : list (list Z)) : Prop :=
  match ls with [] => syms = [Char 46] | _ => Dotted syms ls end.

Lemma scan_name_trim sb syms toks rest :
  at_tokens sb ((CatUnquoted, syms) :: toks) rest -> (0 < sb_start sb)%nat ->
  exists sb1, sb_scan_name oc origin sb = name_loop oc origin (sb_fuel sb1) 0 sb1 /\ at_tokens sb1 ((CatUnquoted, syms) :: toks) rest /\ sb_start sb1 = 1%nat.
Proof.
  intros Ha H0. unfold sb_scan_name. rewrite (with_item_ok _ _ _ _ _ _ Ha). destruct (Nat.ltb_spec 0 (sb_start sb)); [|lia].
  unfold trim_to. destruct (split_to_tokens (sb_start sb - 1) sb _ _ ltac:(lia) Ha) as (sb1 & -> & Ha1 & Hs & _). cbn [scan_then].
  exists sb1. split_and!; try done. lia.
Qed.

Lemma scan_name_tokens sb syms toks rest ls :
  at_tokens sb ((CatUnquoted, syms) :: toks) rest -> (0 < sb_start sb)%nat -> absolute_syms syms ls -> (length (labels_wire ls) <= 254)%nat ->
  exists sb', sb_scan_name oc origin sb = scanned_name oc (mkRel (labels_wire ls)) name_root sb' /\ at_tokens sb' toks rest /\ (0 < sb_start sb')%nat.
Proof.
  intros Ha H0 Hs Hl. destruct (scan_name_trim _ _ _ _ Ha H0) as (sb1 & -> & (Hok & Ec & t & HT & _ & HL) & Hst).
  destruct ls as [|l ls]; cbn [absolute_syms] in Hs.
  - subst syms. apply (name_root_token t); try done; [lia|]. unfold sb_fuel. lia.
  - pose proof (Dotted_length _ _ Hs). pose proof (Token_fuel _ _ _ _ HT Hok). rewrite <- (app_nil_r syms) in HT.
    destruct (name_loop_token syms (l :: ls) [] [] t toks rest Hs ltac:(by split; constructor) ltac:(cbn; lia) [] 0 sb1 (sb_fuel sb1))
      as (sb2 & -> & Ha2 & H2); try done; try lia; [|by exists sb2].
    intros Heq. apply (f_equal length) in Heq. cbn [app length] in Heq. rewrite length_app in Heq. cbn in Heq. lia.
Qed.
End ScanName.

(** ** Character strings *)

Lemma charstr_in_place_skip fuel count write latest sb sb' n :
  skip_ascii fuel count sb = Ret (sb', (count + n)%nat) -> (write + n <= latest)%nat -> charstr_in_place fuel write latest sb = Ret (sb', Ok (write + n)%nat).
Proof.
  revert count write sb n. induction fuel as [|fuel IH]; intros count write sb n; [done|]. cbn [skip_ascii charstr_in_place].
  assert (Hmono : forall f c s s' m, skip_ascii f c s = Ret (s', m) -> (c <= m)%nat).
  { clear. induction f as [|f IH]; intros c s s' m; [done|]. cbn. destruct (next_ascii_symbol s) as [s1 [ch|]]; [|by intros [= <- <-]].
    intros E%IH. lia. }
  destruct (next_ascii_symbol sb) as [sb1 [ch|]].
  - intros E Hn. pose proof (Hmono _ _ _ _ _ E). destruct (Nat.ltb_spec latest (write + 1)); [lia|].
    destruct n as [|n]; [lia|]. rewrite Nat.add_succ_r in E. rewrite (IH (S count) (write + 1)%nat sb1 n); [|done|lia]. do 3 f_equal. lia.
  - intros [= <- En] _. do 3 f_equal. lia.
Qed.

Lemma write_symbol_next conv write sym sb sb' w : write_symbol conv write sym sb = Ret (sb', Ok w) -> w = (write + 1)%nat.
Proof. unfold write_symbol. destruct (conv sym); [|done]. destruct (put_octet _ _ _); [|done]. by intros [= _ <-]. Qed.

Lemma each_write_mono conv fuel write sb sb' w : each_next (write_symbol conv) fuel write sb = Ret (sb', Ok w) -> (write <= w)%nat.
Proof.
  revert write sb. induction fuel as [|fuel IH]; intros write sb; [done|]. cbn. destruct (next_symbol sb) as [sb1 [[sym|]|e]]; [|by intros [= _ <-]|done].
  destruct (write_symbol conv write sym sb1) as [[sb2 [w2|e]]|] eqn:E; try done. cbn. apply write_symbol_next in E. intros H%IH. lia.
Qed.

Lemma each_charstr_step fuel write latest sb sb' w :
  each_next (write_symbol symbol_into_octet) fuel write sb = Ret (sb', Ok w) -> (w <= latest)%nat ->
  each_next (charstr_step latest) fuel write sb = Ret (sb', Ok w).
Proof.
  revert write sb. induction fuel as [|fuel IH]; intros write sb; [done|]. cbn [each_next]. destruct (next_symbol sb) as [sb1 [[sym|]|e]]; try done.
  unfold charstr_step. destruct (write_symbol symbol_into_octet write sym sb1) as [[sb2 [w2|e]]|] eqn:E; try done. cbn [scan_then]. intros H Hw.
  pose proof (each_write_mono _ _ _ _ _ _ H). destruct (Nat.ltb_spec latest w2); [lia|]. cbn [scan_then]. by apply IH.
Qed.

(** What the two loops of [convert_charstr] have written. *)
Lemma charstr_loops_token sb cat syms t' os start :
  sb_ok sb -> sb_cat sb = cat -> Token cat (sb_text sb) syms t' -> stands symbol_into_octet syms os -> (length os <= 255)%nat ->
  (start + 1 <= sb_start sb)%nat ->
  exists sb', scan_then (if (start + 1 =? sb_start sb)%nat then charstr_in_place (sb_fuel sb) (start + 1) (start + 1 + 255) sb else Ret (sb, Ok (start + 1)%nat))
      (fun write sb => each_next (charstr_step (start + 1 + 255)) (sb_fuel sb) write sb) = Ret (sb', Ok (start + 1 + length os)%nat) /\
    past sb sb' t' /\ (start + 1 + length os <= sb_start sb')%nat /\ (cat = CatQuoted -> (start + 1 + length os < sb_start sb')%nat) /\
    take (start + 1 + length os) (sb_buf sb') = take (start + 1) (sb_buf sb) ++ os.
Proof.
  intros Hok Ec HT Hs Hl Hst. destruct (Nat.eqb_spec (start + 1) (sb_start sb)) as [He|He].
  - destruct (skip_ascii_token _ _ _ _ (sb_fuel sb) 0 sb HT Hok Ec eq_refl) as (fs & slow & sb1 & -> & Et & E & Eb & Ep & Hok1 & Hcase); [by apply sb_fuel_text|].
    apply stands_octet_app in Hs as (os' & -> & Hs). rewrite length_app in *.
    rewrite (charstr_in_place_skip _ _ _ _ _ _ _ E) by lia. cbn [scan_then].
    assert (Htk : take (start + 1 + length fs) (sb_buf sb) = take (start + 1) (sb_buf sb) ++ fs).
    { rewrite He at 2. rewrite <- Et at 2. unfold sb_text. rewrite He. by rewrite take_take_drop. }
    destruct Hcase as [(Ec1 & HT1 & Es1)|(-> & -> & Hp & Es1 & _)].
    + destruct (write_symbols_token symbol_into_octet _ _ _ _ (sb_fuel sb1) (start + 1 + length fs) sb1 os' HT1) as (sb2 & E2 & Hp & Hle & Hlt & Htk2);
        try done; [by apply sb_fuel_text|lia|].
      rewrite (each_charstr_step _ _ _ _ _ _ E2) by lia. exists sb2. rewrite Nat.add_assoc. split_and!; try done.
      * destruct Hp as (P1 & P2 & P3 & P4 & P5). split_and!; try done; congruence.
      * by rewrite Htk2, Eb, Htk, <- app_assoc.
    + inversion Hs; subst os'. cbn [length]. rewrite Nat.add_0_r, app_nil_r.
      pose proof Hp as (_ & Pc & _). exists sb1. rewrite Eb. split_and!; try done; try lia.
      unfold sb_fuel. cbn [each_next]. unfold next_symbol, next_symbol_if. by rewrite Pc.
  - cbn [scan_then]. destruct (write_symbols_token symbol_into_octet _ _ _ _ (sb_fuel sb) (start + 1) sb os HT) as (sb2 & E2 & Hp & Hle & Hlt & Htk2);
      try done; [by apply sb_fuel_text|].
    rewrite (each_charstr_step _ _ _ _ _ _ E2) by lia. by exists sb2.
Qed.

Lemma scan_then_assoc {St A B C} (m : outcome (St * result A StrError)) (f : A -> St -> outcome (St * result B StrError))
    (g : B -> St -> outcome (St * result C StrError)) :
  scan_then (scan_then m f) g = scan_then m (fun a s => scan_then (f a s) g).
Proof. by destruct m as [[s [a|e]]|]. Qed.

Lemma convert_charstr_tokens sb cat syms toks rest os start :
  at_tokens sb ((cat, syms) :: toks) rest -> stands symbol_into_octet syms os -> (length os <= 255)%nat -> (start + 1 <= sb_start sb)%nat ->
  exists sb', convert_charstr start sb = Ret (sb', Ok (start + 1 + length os)%nat) /\ at_tokens sb' toks rest /\
    (start + 1 + length os < sb_start sb')%nat /\ take (start + 1 + length os) (sb_buf sb') = take start (sb_buf sb) ++ label_wire os.
Proof.
  intros (Hok & Ec & t & HT & _ & HL) Hs Hl Hst. unfold convert_charstr. cbv zeta.
  destruct (charstr_loops_token sb cat syms t os start) as (sb1 & E & Hp & Hle & Hlt & Htk); try done.
  rewrite <- scan_then_assoc. unfold EntryError in *. rewrite E. cbn [scan_then].
  destruct (past_next_item _ _ _ _ _ _ _ _ HT Hp HL) as (sb2 & -> & Ha & Hb & Hle2 & Hlt2). cbn [scan_then].
  assert (start + 1 + length os < sb_start sb2)%nat as Hst2.
  { destruct cat; [by inversion HT|specialize (Hlt2 eq_refl); lia|specialize (Hlt eq_refl); lia|by inversion HT]. }
  destruct (put_length_written start (start + 1 + length os) sb2) as (sb3 & -> & Hk & Hw); [lia|lia|by destruct Ha|].
  pose proof Hk as (K1 & K2 & K3 & K4 & K5). exists sb3. rewrite K1. split_and!; try done.
  - apply (at_tokens_same sb2); try done. apply (sb_ok_keeps _ _ Hk). by destruct Ha.
  - unfold label_written in Hw. cbn [length] in Hw. rewrite Nat.add_0_r, Hb, Htk, app_nil_r in Hw. rewrite Hw.
    assert (Hb1 : (start + 1 <= length (sb_buf sb))%nat) by (unfold sb_ok in *; lia).
    assert (take start (sb_buf sb1) = take start (sb_buf sb)) as ->.
    { apply (f_equal (take start)) in Htk. rewrite take_take, Nat.min_l in Htk by lia. rewrite Htk, take_app_le, take_take, Nat.min_l; [done|lia|].
      rewrite length_take. lia. }
    unfold label_wire. rewrite drop_app_ge by (rewrite length_take; lia). rewrite length_take, Nat.min_l by lia.
    replace (start + 1 - (start + 1))%nat with 0%nat by lia. rewrite drop_0. cbn [app]. f_equal. unfold zlen. rewrite Z.mod_small by lia. f_equal. lia.
Qed.

Lemma inplace_charstrs_tokens toks oss : Forall2 (fun (tk : tok) os => stands symbol_into_octet tk.2 os /\ (length os <= 255)%nat) toks oss ->
  toks <> [] -> forall sb rest fuel before write,
  at_tokens sb toks rest -> (length toks <= fuel)%nat -> (write + 1 <= sb_start sb)%nat -> take write (sb_buf sb) = labels_wire before ->
  exists sb' w, inplace_charstrs fuel write sb = Ret (sb', Ok w) /\ at_tokens sb' [] rest /\ (w < sb_start sb')%nat /\
    take w (sb_buf sb') = labels_wire (before ++ oss).
Proof.
  induction 1 as [|[cat syms] os toks oss [Hs Hl] HF IH]; [done|]. intros _ sb rest fuel before write Ha Hf Hw Htk.
  destruct fuel as [|fuel]; [cbn in Hf; lia|]. cbn [inplace_charstrs].
  destruct (convert_charstr_tokens sb cat syms toks rest os write Ha Hs Hl Hw) as (sb1 & -> & Ha1 & Hlt & Htk1). cbn [scan_then].
  rewrite Htk in Htk1. assert (Happ : labels_wire before ++ label_wire os = labels_wire (before ++ [os])).
  { unfold labels_wire. rewrite map_app, concat_app. cbn [map concat]. by rewrite app_nil_r. }
  rewrite Happ in Htk1. unfold is_line_feed. destruct toks as [|[cat2 syms2] toks].
  - pose proof Ha1 as (_ & -> & _). inversion HF; subst. eexists _, _. by split_and!.
  - assert (sb_cat sb1 <> CatLineFeed) as Hn.
    { destruct Ha1 as (_ & -> & t & HT & _). intros ->. by inversion HT. }
    rewrite bool_decide_eq_false_2 by done.
    destruct (IH ltac:(done) sb1 rest fuel (before ++ [os]) (write + 1 + length os)%nat) as (sb2 & w & -> & Ha2 & Hlt2 & Htk2); try done; [cbn in *; lia|lia|].
    exists sb2, w. rewrite <- app_assoc in Htk2. by split_and!.
Qed.

Lemma scan_charstr_entry_tokens sb toks rest oss :
  at_tokens sb toks rest -> (0 < sb_start sb)%nat -> toks <> [] ->
  Forall2 (fun (tk : tok) os => stands symbol_into_octet tk.2 os /\ (length os <= 255)%nat) toks oss ->
  exists sb', sb_scan_charstr_entry sb = Ret (sb', Ok (labels_wire oss)) /\ at_tokens sb' [] rest /\ (0 < sb_start sb')%nat.
Proof.
  intros Ha H0 Hne HF. unfold sb_scan_charstr_entry. destruct (Nat.ltb_spec 0 (sb_start sb)); [|lia].
  unfold trim_to. destruct (split_to_tokens (sb_start sb - 1) sb _ _ ltac:(lia) Ha) as (sb1 & -> & Ha1 & Hs & _).
  destruct (inplace_charstrs_tokens toks oss HF Hne sb1 rest (sb_fuel sb1) [] 0) as (sb2 & w & -> & Ha2 & Hlt & Htk); try done; [|lia|].
  - apply (at_tokens_length _ _ _ Ha1).
  - cbn [scan_then]. destruct (split_to_tokens w sb2 [] rest) as (sb3 & -> & Ha3 & Hs3 & _); [lia|done|].
    exists sb3. rewrite Htk. split_and!; try done. lia.
Qed.
