(* ===== verification/ZonefileFmt.v ===== *)
(** * Writing zone files ([src/src/base/zonefile_fmt.rs])

    [ZonefileFmt] writes a value as tokens and comments to a [FormatWriter]: the
    simple one puts them on a line, the multi-line one aligns the tokens of a block
    in parentheses and writes the comments.  The text goes into a string, which
    takes all that is written.  What the writers promise, [FormatWriterOk], is that
    the text reads as the tokens, however they are laid out. *)

From S2P Require Import Prelude Octets Serial Symbol BaseCodec CharStr Label Traits Name NameBuilder ParsedName Header Compressor MessageBuilder Message Record Scanner Iana IpText Ttl Layout Rdata Bitmap Txt Dnssec Nsec3 ZoneData SourceBuf Lex.
From stdpp Require Import strings.
#[local] Open Scope Z_scope.

(** ** Writers *)

(** What writes to a [Formatter]; displaying a value may panic. *)
Definition fmt_to (W : Type) : Type := W -> outcome W.

Definition fmt_then {W} (f g : fmt_to W) : fmt_to W := fun p => let! p := f p in g p.

Declare Scope fmt_scope.
Delimit Scope fmt_scope with fmt.
Notation "f ;; g" := (fmt_then f g) (at level 100, g at level 200, right associativity) : fmt_scope.
#[local] Open Scope fmt_scope.

Class FormatWriter (W : Type) := {
  fmt_token : list Z -> W -> W;
  begin_block : W -> W;
  end_block : W -> W;
  fmt_comment : list Z -> W -> W;
  fmt_newline : W -> W;
}.

Record SimpleWriter := mkSimple { sw_first : bool; sw_writer : list Z }.

Definition sw_new (writer : list Z) : SimpleWriter := mkSimple true writer.

Definition sw_fmt_token (args : list Z) (w : SimpleWriter) : SimpleWriter :=
  mkSimple false (sw_writer w ++ (if negb (sw_first w) then [32] else []) ++ args).

Definition sw_newline (w : SimpleWriter) : SimpleWriter := mkSimple true (sw_writer w ++ [10]).

#[export] Instance simple_writer : FormatWriter SimpleWriter := {|
  fmt_token := sw_fmt_token;
  begin_block w := w;
  end_block w := w;
  fmt_comment _ w := w;
  fmt_newline := sw_newline;
|}.

Record MultiLineWriter := mkMulti { mw_current_column : Z; mw_block_indent : option Z; mw_first : bool; mw_writer : list Z }.

Definition mw_new (writer : list Z) : MultiLineWriter := mkMulti 0 None true writer.

(** [fmt::Write::write_str] of the writer itself. *)
Definition mw_write_str (x : list Z) (w : MultiLineWriter) : MultiLineWriter :=
  mkMulti (mw_current_column w + zlen x) (mw_block_indent w) (mw_first w) (mw_writer w ++ x).

Definition mw_set_first (first : bool) (w : MultiLineWriter) : MultiLineWriter :=
  mkMulti (mw_current_column w) (mw_block_indent w) first (mw_writer w).

Definition mw_set_block_indent (indent : option Z) (w : MultiLineWriter) : MultiLineWriter :=
  mkMulti (mw_current_column w) indent (mw_first w) (mw_writer w).

Definition mw_fmt_token (args : list Z) (w : MultiLineWriter) : MultiLineWriter :=
  let w := if negb (mw_first w) then mw_write_str [32] w else w in
  mw_write_str args (mw_set_first false w).

Definition mw_begin_block (w : MultiLineWriter) : MultiLineWriter :=
  let w := mw_fmt_token [40] w in mw_set_block_indent (Some (mw_current_column w + 1)) w.

Definition mw_end_block (w : MultiLineWriter) : MultiLineWriter := mw_fmt_token [41] (mw_set_block_indent None w).

Definition mw_newline (w : MultiLineWriter) : MultiLineWriter :=
  let w := mkMulti 0 (mw_block_indent w) (mw_first w) (mw_writer w ++ [10]) in
  let w := match mw_block_indent w with Some x => Nat.iter (Z.to_nat x) (mw_write_str [32]) w | None => w end in
  mw_set_first true w.

Definition mw_fmt_comment (args : list Z) (w : MultiLineWriter) : MultiLineWriter :=
  match mw_block_indent w with
  | Some _ => mw_newline (mkMulti (mw_current_column w) (mw_block_indent w) (mw_first w) (mw_writer w ++ [9; 59; 32] ++ args))
  | None => w
  end.

#[export] Instance multi_line_writer : FormatWriter MultiLineWriter := {|
  fmt_token := mw_fmt_token;
  begin_block := mw_begin_block;
  end_block := mw_end_block;
  fmt_comment := mw_fmt_comment;
  fmt_newline := mw_newline;
|}.

(** ** Record data *)

Section Formatter.
Context {W : Type} `{FormatWriter W}.

Definition block (f : fmt_to W) : fmt_to W := fun p =>
  let! p := f (begin_block p) in Ret (end_block p).

Definition write_token (token : list Z) : fmt_to W := fun p => Ret (fmt_token token p).

(** A token whose display may panic. *)
Definition write_display (token : outcome (list Z)) : fmt_to W := fun p => let! token := token in write_token token p.

Definition write_comment (s : list Z) : fmt_to W := fun p => Ret (fmt_comment s p).
Definition comment (s : string) : fmt_to W := write_comment (ascii_chars s).

(** [int_enum_zonefile_fmt_decimal]. *)
Definition decimal_zonefile_fmt (table : Mnemonics) (name : string) (value : Z) : fmt_to W :=
  write_token (fmt_dec value);;
  match to_mnemonic_str table value with
  | Some mnemonic => write_comment (ascii_chars name ++ [58; 32] ++ mnemonic)
  | None => comment name
  end.

Definition secalg_show : Z -> fmt_to W := decimal_zonefile_fmt secalg_mnemonics "algorithm".
Definition digestalg_show : Z -> fmt_to W := decimal_zonefile_fmt digestalg_mnemonics "digest type".
Definition nsec3hash_show : Z -> fmt_to W := decimal_zonefile_fmt nsec3hash_mnemonics "hash algorithm".

(** [int_enum_zonefile_fmt_with_prefix]. *)
Definition prefix_zonefile_fmt (table : Mnemonics) (prefix : string) (value : Z) : fmt_to W :=
  match to_mnemonic_str table value with
  | Some m => write_token m
  | None => write_token (ascii_chars prefix ++ fmt_dec value)
  end.

Definition rtype_show : Z -> fmt_to W := prefix_zonefile_fmt rtype_mnemonics "TYPE".
Definition class_show : Z -> fmt_to W := prefix_zonefile_fmt class_mnemonics "CLASS".

(** [Display] of a serial number. *)
Definition serial_fmt (s : Serial) : list Z := fmt_dec (serial_into_int s).

Definition ttl_show (t : Ttl) : fmt_to W := write_token (fmt_dec (ttl_as_secs t)).

Definition pretty_comment (name : string) (t : Ttl) : fmt_to W :=
  write_comment (ascii_chars name ++ [32; 40] ++ ttl_pretty t ++ [41]).

Section Names.
Context {N I : Type} `{ToLabelIter N I}.

Definition name_token (n : N) : fmt_to W := write_display (fmt_with_dot n).

Definition name_data_show (d : NameData N) : fmt_to W := name_token (nd_name d).

Definition minfo_show (d : Minfo N) : fmt_to W := block (
  name_token (mi_rmailbx d);; comment "responsible mailbox";; name_token (mi_emailbx d);; comment "error mailbox").

Definition mx_show (d : Mx N) : fmt_to W := block (
  write_token (fmt_dec (mx_preference d));; comment "preference";; name_token (mx_exchange d)).

Definition soa_show (d : Soa N) : fmt_to W := block (
  name_token (soa_mname d);; comment "mname";; name_token (soa_rname d);; comment "rname";;
  write_token (serial_fmt (soa_serial d));; comment "serial";;
  ttl_show (soa_refresh d);; pretty_comment "refresh" (soa_refresh d);;
  ttl_show (soa_retry d);; pretty_comment "retry" (soa_retry d);;
  ttl_show (soa_expire d);; pretty_comment "expire" (soa_expire d);;
  ttl_show (soa_minimum d);; pretty_comment "minumum" (soa_minimum d)).

Definition srv_show (d : Srv N) : fmt_to W := block (
  write_token (fmt_dec (srv_priority d));; comment "priority";;
  write_token (fmt_dec (srv_weight d));; comment "weight";;
  write_token (fmt_dec (srv_port d));; comment "port";; name_token (srv_target d)).
End Names.

Definition a_show (d : A) : fmt_to W := write_token (ipv4_fmt (a_addr d)).
Definition aaaa_show (d : Aaaa) : fmt_to W := write_token (ipv6_fmt (aaaa_addr d)).

Definition hinfo_show (d : Hinfo) : fmt_to W := block (
  write_token (cs_fmt_quoted (hi_cpu d));; comment "cpu";; write_token (cs_fmt_quoted (hi_os d));; comment "os").

(** A token for each of a list: the body of a [for] loop. *)
Fixpoint each_token {T} (fmt : T -> list Z) (items : list T) : fmt_to W :=
  match items with
  | [] => fun p => Ret p
  | item :: items => write_token (fmt item);; each_token fmt items
  end.

Definition txt_show {P} `{OctetsParser P} `{!OctetsParserRef P} (d : Txt) : fmt_to W := block (fun p =>
  let! strs := txt_iter_charstrs (P:=P) d in each_token cs_fmt_quoted strs p).

Definition bitmap_show (types : RtypeBitmap) : fmt_to W := fun p =>
  let! types := bitmap_iter types in each_token rtype_fmt types p.

Definition salt_show (s : Nsec3Salt) : fmt_to W := block (
  (if bool_decide (salt_octets s = []) then write_token [45] else write_display (hex_display (salt_octets s)));;
  fun p => let! len := salt_len s in write_comment (ascii_chars "salt (length: " ++ fmt_dec len ++ [41]) p).

Definition flag_text (b : bool) (s : string) : list Z := if b then ascii_chars s else [].

Definition dnskey_show (oc : bool) (d : Dnskey) : fmt_to W := block (
  write_token (fmt_dec (dk_flags d));;
  write_comment (ascii_chars "flags:" ++ flag_text (dnskey_is_revoked d) " revoked" ++ flag_text (dnskey_is_secure_entry_point d) " sep" ++
    flag_text (dnskey_is_zone_key d) " zone_key" ++ flag_text (dk_flags d =? 0) " <none>");;
  write_token (fmt_dec (dk_protocol d));; comment "protocol";; secalg_show (dk_algorithm d);;
  write_display (b64_display (dk_public_key d));;
  fun p => let! tag := dnskey_key_tag oc d in write_comment (ascii_chars "key tag: " ++ fmt_dec tag) p).

Definition cdnskey_show (d : Cdnskey) : fmt_to W := block (
  write_token (fmt_dec (dk_flags d));; write_token (fmt_dec (dk_protocol d));; secalg_show (dk_algorithm d);;
  write_display (b64_display (dk_public_key d))).

(** [Ds] and [Cds]. *)
Definition digest_show (key_tag algorithm digest_type : Z) (digest : list Z) : fmt_to W := block (
  write_token (fmt_dec key_tag);; comment "key tag";; secalg_show algorithm;; digestalg_show digest_type;;
  write_display (hex_display digest)).

Definition ds_show (d : Ds) : fmt_to W := digest_show (ds_key_tag d) (ds_algorithm d) (ds_digest_type d) (ds_digest d).
Definition cds_show (d : Cds) : fmt_to W := digest_show (ds_key_tag d) (ds_algorithm d) (ds_digest_type d) (ds_digest d).

Definition timestamp_show (t : Timestamp) : fmt_to W := write_token (serial_fmt (ts_serial t)).

Definition rrsig_show {N I} `{ToLabelIter N I} (d : Rrsig N) : fmt_to W := block (
  rtype_show (pr_type_covered (rs_proto d));; secalg_show (pr_algorithm (rs_proto d));;
  write_token (fmt_dec (pr_labels (rs_proto d)));; comment "labels";;
  ttl_show (pr_original_ttl (rs_proto d));; comment "original ttl";;
  timestamp_show (pr_expiration (rs_proto d));; comment "expiration";;
  timestamp_show (pr_inception (rs_proto d));; comment "inception";;
  write_token (fmt_dec (pr_key_tag (rs_proto d)));; comment "key tag";;
  name_token (pr_signer_name (rs_proto d));; comment "signer name";;
  write_display (b64_display (rs_signature d))).

Definition nsec_show {N I} `{ToLabelIter N I} (d : Nsec N) : fmt_to W := block (
  name_token (ns_next_name d);; bitmap_show (ns_types d)).

Definition nsec3_show (d : Nsec3) : fmt_to W := block (
  nsec3hash_show (n3_hash_algorithm d);; write_token (fmt_dec (n3_flags d));;
  comment (if nsec3_opt_out d then "flags: opt-out" else "flags: <none>");;
  write_token (fmt_dec (n3_iterations d));; comment "iterations";; salt_show (n3_salt d);;
  write_display (b32_display (hash_octets (n3_next_owner d)));; bitmap_show (n3_types d)).

Definition nsec3param_show (d : Nsec3param) : fmt_to W := block (
  nsec3hash_show (np_hash_algorithm d);; write_token (fmt_dec (np_flags d));; comment "flags";;
  write_token (fmt_dec (np_iterations d));; comment "iterations";; salt_show (np_salt d)).

Definition scheme_text (s : Scheme) : string :=
  match s with SchemeReserved => "reserved" | SchemeSimple => "simple" | SchemeUnassigned _ => "unassigned" | SchemePrivate _ => "private" end.
Definition algorithm_text (a : Algorithm) : string :=
  match a with
  | AlgReserved => "reserved" | AlgSha384 => "SHA384" | AlgSha512 => "SHA512" | AlgUnassigned _ => "unassigned" | AlgPrivate _ => "private"
  end.

Definition zonemd_show (d : Zonemd) : fmt_to W := block (
  write_token (serial_fmt (zm_serial d));;
  write_token (fmt_dec (scheme_into_u8 (zm_scheme d)));; comment ("scheme (" ++ scheme_text (zm_scheme d) ++ ")");;
  write_token (fmt_dec (algorithm_into_u8 (zm_algo d)));; comment ("algorithm (" ++ algorithm_text (zm_algo d) ++ ")");;
  write_display (hex_display (zm_digest d))).

Definition unknown_show (d : UnknownRecordData) : fmt_to W := write_token (unknown_fmt d).

Section Zone.
Context {N I : Type} `{ToLabelIter N I} {P : Type} `{OctetsParser P} `{!OctetsParserRef P} (oc : bool).

Definition zone_show (d : ZoneRecordData N) : fmt_to W :=
  match d with
  | ZoneA d => a_show d
  | ZoneCname d | ZoneMb d | ZoneMd d | ZoneMf d | ZoneMg d | ZoneMr d | ZoneNs d | ZonePtr d | ZoneDname d => name_data_show d
  | ZoneHinfo d => hinfo_show d
  | ZoneMinfo d => minfo_show d
  | ZoneMx d => mx_show d
  | ZoneSoa d => soa_show d
  | ZoneTxt d => txt_show (P:=P) d
  | ZoneAaaa d => aaaa_show d
  | ZoneCdnskey d => cdnskey_show d
  | ZoneCds d => cds_show d
  | ZoneDnskey d => dnskey_show oc d
  | ZoneRrsig d => rrsig_show d
  | ZoneNsec d => nsec_show d
  | ZoneDs d => ds_show d
  | ZoneNsec3 d => nsec3_show d
  | ZoneNsec3param d => nsec3param_show d
  | ZoneSrv d => srv_show d
  | ZoneZonemd d => zonemd_show d
  | ZoneUnknown d => unknown_show d
  end.

(** [ZonefileFmt] of [Record]. *)
Definition record_show (r : ResourceRecord N (ZoneRecordData N)) : fmt_to W :=
  name_token (rr_owner r);; ttl_show (mkTtl (rr_ttl r));; class_show (rr_class r);; rtype_show (zone_rtype (rr_data r));; zone_show (rr_data r).
End Zone.
End Formatter.

(** [display_zonefile(pretty)] of a record. *)
Definition display_zonefile {N I} `{ToLabelIter N I} {P} `{OctetsParser P} `{!OctetsParserRef P} (oc pretty : bool)
    (r : ResourceRecord N (ZoneRecordData N)) : outcome (list Z) :=
  if pretty then let! w := record_show (P:=P) oc r (mw_new []) in Ret (mw_writer w)
  else let! w := record_show (P:=P) oc r (sw_new []) in Ret (sw_writer w).

(** ** What the writers promise *)

(** Text that ends a word. *)
Definition boundary (t : list Z) : Prop := match t with ch :: _ => word_start ch = false | [] => False end.

(** Text that reads as the tokens. *)
Definition Lexes (text : list Z) (toks : list tok) : Prop := forall p t, boundary t -> Lex p (text ++ t) toks p t.

(** What can be seen of a writer: the text written, whether the next token is written
    without a space before it, and, as a condition, the number of parentheses that
    are open in the text. *)
Class WriterView (W : Type) := {
  w_text : W -> list Z;
  w_first : W -> bool;
  w_depth : nat -> W -> Prop;
}.

Section Writes.
Context {W : Type} `{FormatWriter W} `{!WriterView W}.

(** Text that may come next. *)
Definition follows (w : W) (t : list Z) : Prop := w_first w = false -> boundary t.

Definition wrote (p p' : nat) (toks : list tok) (w w' : W) : Prop :=
  exists o, w_text w' = w_text w ++ o /\ forall t, follows w' t -> follows w (o ++ t) /\ Lex p (o ++ t) toks p' t.

Definition Writes (f : fmt_to W) (toks : list tok) : Prop :=
  forall p w, w_depth p w -> exists w', f w = Ret w' /\ w_depth p w' /\ wrote p p toks w w'.

Class FormatWriterOk : Prop := {
  write_token_ok text toks : Lexes text toks -> Writes (write_token text) toks;
  write_comment_ok s : Forall (fun ch => ch <> 10) s -> Writes (write_comment s) [];
  block_ok f toks : Writes f toks -> Writes (block f) toks;
  first_token_ok text w : w_first w = true -> w_text (fmt_token text w) = w_text w ++ text /\ forall p, w_depth p w -> w_depth p (fmt_token text w);
}.

Lemma wrote_trans p1 p2 p3 toks1 toks2 w1 w2 w3 : wrote p1 p2 toks1 w1 w2 -> wrote p2 p3 toks2 w2 w3 -> wrote p1 p3 (toks1 ++ toks2) w1 w3.
Proof.
  intros (o1 & E1 & H1) (o2 & E2 & H2). exists (o1 ++ o2). split; [by rewrite E2, E1, app_assoc|]. intros t Ht. rewrite <- app_assoc.
  destruct (H2 t Ht) as [F2 L2]. destruct (H1 _ F2) as [F1 L1]. split; [done|]. by eapply Lex_app.
Qed.

Lemma then_writes f g toks1 toks2 : Writes f toks1 -> Writes g toks2 -> Writes (fmt_then f g) (toks1 ++ toks2).
Proof.
  intros Hf Hg p w Hw. destruct (Hf p w Hw) as (w1 & E1 & D1 & W1). destruct (Hg p w1 D1) as (w2 & E2 & D2 & W2).
  exists w2. unfold fmt_then. rewrite E1. cbn. split_and!; [done|done|by eapply wrote_trans].
Qed.

Lemma done_writes : Writes (fun p => Ret p) [].
Proof. intros p w Hw. exists w. split_and!; [done..|]. exists []. rewrite app_nil_r. split; [done|]. intros t Ht. split; [done|constructor]. Qed.
End Writes.
Arguments FormatWriterOk W {H WriterView0}.

#[export] Instance simple_view : WriterView SimpleWriter := {| w_text := sw_writer; w_first := sw_first; w_depth _ _ := True |}.

#[export] Instance multi_view : WriterView MultiLineWriter := {|
  w_text := mw_writer; w_first := mw_first; w_depth p w := mw_block_indent w <> None -> (1 <= p)%nat
|}.

Lemma boundary_space t : boundary (32 :: t).
Proof. done. Qed.

Lemma Lex_space p t toks p' t' : Lex p t toks p' t' -> Lex p (32 :: t) toks p' t'.
Proof. intros HL. eapply Lex_skip; [constructor; by left|done]. Qed.

Lemma Lex_spaces n p t toks p' t' : Lex p t toks p' t' -> Lex p (replicate n 32 ++ t) toks p' t'.
Proof. intros HL. induction n; [done|]. by apply Lex_space. Qed.

#[export] Instance simple_writer_ok : FormatWriterOk SimpleWriter.
Proof.
  split.
  - intros text toks Hl p w Hw. eexists. split_and!; [done..|]. eexists. split; [cbn; reflexivity|]. intros t Ht.
    specialize (Ht eq_refl). unfold follows. cbn. destruct (sw_first w); cbn [negb app]; [by split; [|apply Hl]|].
    split; [intros _; apply boundary_space|]. rewrite <- ?app_assoc. by apply Lex_space, Hl.
  - intros s _. apply done_writes.
  - intros f toks Hf p w Hw. destruct (Hf p w Hw) as (w' & E & D & Hwr). exists w'. unfold block. cbn. rewrite E. done.
  - intros text w Hw. cbn in *. by rewrite Hw.
Qed.

Lemma iter_write_str n w :
  Nat.iter n (mw_write_str [32]) w = mkMulti (mw_current_column w + Z.of_nat n) (mw_block_indent w) (mw_first w) (mw_writer w ++ replicate n 32).
Proof.
  induction n as [|n IH]; [cbn; rewrite Z.add_0_r, app_nil_r; by destruct w|]. rewrite Nat.iter_succ, IH. unfold mw_write_str. cbn. f_equal.
  - unfold zlen. cbn. lia.
  - rewrite <- app_assoc. f_equal. rewrite <- replicate_cons_app. done.
Qed.

Lemma multi_token_wrote p p' text toks w :
  (forall t, boundary t -> Lex p (text ++ t) toks p' t) -> wrote p p' toks w (mw_fmt_token text w).
Proof.
  intros Hl. exists ((if negb (mw_first w) then [32] else []) ++ text). split; [unfold mw_fmt_token; destruct (mw_first w); cbn; by rewrite <- ?app_assoc|].
  intros t Ht. assert (boundary t) as Hb by (apply Ht; unfold mw_fmt_token; by destruct (mw_first w)). unfold follows. cbn.
  destruct (mw_first w); cbn [negb app]; [by split; [|apply Hl]|]. split; [intros _; apply boundary_space|]. rewrite <- ?app_assoc. by apply Lex_space, Hl.
Qed.

Lemma multi_token_block_indent text w : mw_block_indent (mw_fmt_token text w) = mw_block_indent w.
Proof. unfold mw_fmt_token. by destruct (mw_first w). Qed.

#[export] Instance multi_writer_ok : FormatWriterOk MultiLineWriter.
Proof.
  split.
  - intros text toks Hl p w Hw. eexists. split_and!; [done| |apply (multi_token_wrote p p text toks w), Hl].
    intros Hb. apply Hw. intros E. apply Hb. by rewrite <- E; apply multi_token_block_indent.
  - intros s Hs p w Hw. eexists. split; [done|]. cbn in *. unfold mw_fmt_comment. destruct (mw_block_indent w) as [x|] eqn:Ex.
    2:{ split; [by rewrite Ex|]. exists []. rewrite app_nil_r. split; [done|]. intros t Ht. split; [done|constructor]. }
    destruct p as [|p]; [by specialize (Hw ltac:(done)); lia|].
    unfold mw_newline. cbn [mw_block_indent]. rewrite iter_write_str. cbn. split; [lia|].
    exists ([9; 59; 32] ++ s ++ [10] ++ replicate (Z.to_nat x) 32). cbn. split; [by rewrite <- !app_assoc|]. intros t _. split; [done|].
    eapply Lex_skip; [constructor; right; by left|]. rewrite <- app_assoc. cbn [app].
    eapply Lex_skip; [apply (Skip_comment _ (32 :: s)); [by constructor|by right]|]. eapply Lex_skip; [apply Skip_line|]. apply Lex_spaces. constructor.
  - intros f toks Hf p w Hw. unfold block. cbn.
    destruct (Hf (S p) (mw_begin_block w)) as (w1 & E & D & Hwr); [intros _; lia|]. rewrite E. eexists. split; [done|]. split.
    { intros Hb. destruct Hb. apply multi_token_block_indent. }
    apply (wrote_trans p (S p) p [] toks w (mw_begin_block w)).
    { destruct (multi_token_wrote p (S p) [40] [] w) as (o & E1 & H1); [intros t _; eapply Lex_skip; [apply Skip_open|constructor]|]. by exists o. }
    rewrite <- (app_nil_r toks). apply (wrote_trans (S p) (S p) p toks [] _ w1); [done|].
    destruct (multi_token_wrote (S p) p [41] [] (mw_set_block_indent None w1)) as (o & E1 & H1); [intros t _; eapply Lex_skip; [apply Skip_close|constructor]|]. by exists o.
  - intros text w Hw. cbn in *. unfold mw_fmt_token. by rewrite Hw.
Qed.
