(* ===== verification/ZoneText.v ===== *)
(** * Records written to and read from zone files

    What [ZonefileFmt] writes for a record, by either writer, is read back by the
    scanner of zone files as the same record.  First the tokens the text stands
    for, then what the scanner makes of the tokens, type by type. *)

From S2P Require Import Prelude Octets Serial Symbol BaseCodec CharStr Label Traits Name NameBuilder Chain ParsedName Header Compressor MessageBuilder Message Record Scanner Iana IpText Ttl Layout Rdata Bitmap Txt Dnssec Nsec3 ZoneData ScanData SourceBuf Lex Inplace EntryTokens ZonefileFmt.
From stdpp Require Import strings.
#[local] Open Scope Z_scope.

(** ** Text as tokens *)

Definition ascii_symbol (sym : Symbol) : Prop := match sym with Char ch => 0 <= ch < 128 | _ => True end.

Lemma lex_symbol_fmt sym t : wf_symbol sym -> ascii_symbol sym -> lex_symbol (symbol_fmt sym ++ t) = Some (sym, t).
Proof.
  destruct sym as [ch|b|b]; cbn [wf_symbol ascii_symbol symbol_fmt app]; intros Hw Ha.
  - by apply lex_ascii.
  - destruct Hw as [Hb Hd]. unfold lex_symbol, symbol_from_slice_index, is_ascii_control. cbn.
    destruct (Z.ltb_spec b 0x20), (Z.eqb_spec b 0x7f); try lia. cbn. by rewrite Hd.
  - assert (is_ascii_control (48 + b / 100) = false /\ is_ascii_digit (48 + b / 100) = true /\ is_ascii_digit (48 + b / 10 mod 10) = true /\
      is_ascii_digit (48 + b mod 10) = true /\ (48 + b / 100 - 48) * 100 + (48 + b / 10 mod 10 - 48) * 10 + (48 + b mod 10 - 48) = b) as (H1 & H2 & H3 & H4 & H5)
      by (revert b Hw Ha; intros b Hw _; revert b Hw; by_octets).
    unfold lex_symbol, symbol_from_slice_index, next_digit_octet, fmt_03. cbn [app lookup list_lookup Nat.add]. cbn [Z.eqb Pos.eqb].
    rewrite H1, H2. cbn [negb]. rewrite H3. cbn [lookup list_lookup Nat.add]. rewrite H4, H5. unfold is_u8 in Hw. destruct (Z.ltb_spec 255 b); [lia|]. done.
Qed.

(** Symbols inside a token of the category. *)
Definition writable (cat : ItemCat) (sym : Symbol) : Prop := wf_symbol sym /\ ascii_symbol sym /\ in_token cat sym = true.

Lemma Token_fmt cat syms t t' : Forall (writable cat) syms -> Token cat t [] t' -> Token cat (concat (map symbol_fmt syms) ++ t) syms t'.
Proof.
  intros Hs HT. induction Hs as [|sym syms (H1 & H2 & H3) _ IH]; [done|]. cbn [map concat]. rewrite <- app_assoc.
  econstructor; [by apply lex_symbol_fmt|done|done].
Qed.

Lemma word_symbol_start sym t : writable CatUnquoted sym -> exists ch u, symbol_fmt sym ++ t = ch :: u /\ word_start ch = true.
Proof.
  intros (H1 & H2 & H3). destruct sym as [ch|b|b]; cbn; [|by eexists _, _..]. exists ch, t. split; [done|].
  cbn in H3. unfold word_start. rewrite !andb_true_iff, !negb_true_iff in *. tauto.
Qed.

Lemma word_lexes syms : syms <> [] -> syms <> [SimpleEscape 35] -> Forall (writable CatUnquoted) syms -> Lexes (concat (map symbol_fmt syms)) [(CatUnquoted, syms)].
Proof.
  intros Hn Hm Hs p t Ht. destruct t as [|ch t]; [done|].
  assert (HT : Token CatUnquoted (concat (map symbol_fmt syms) ++ ch :: t) syms (ch :: t)) by by apply Token_fmt; [|constructor].
  destruct Hs as [|sym syms Hsym Hs]; [done|]. cbn [map concat] in *. rewrite <- app_assoc in *.
  destruct (word_symbol_start sym (concat (map symbol_fmt syms) ++ ch :: t) Hsym) as (c & u & E & Hc). rewrite E in *.
  eapply Lex_tok; [by constructor|exact HT|by intros _ ?|constructor].
Qed.

Lemma quoted_lexes syms : Forall (writable CatQuoted) syms -> Lexes ([34] ++ concat (map symbol_fmt syms) ++ [34]) [(CatQuoted, syms)].
Proof.
  intros Hs p t _. cbn. rewrite <- app_assoc. eapply Lex_tok; [constructor|by apply Token_fmt; [|constructor]|done|constructor].
Qed.

(** Text of octets that stand for themselves. *)
Definition plain_char (ch : Z) : bool := plain_octet CatUnquoted ch && (ch <? 127).
Definition plain (text : list Z) : Prop := Forall (fun ch => plain_char ch = true) text.

Lemma plain_char_spec ch :
  plain_char ch = true <-> 33 <= ch <= 126 /\ ch <> 34 /\ ch <> 40 /\ ch <> 41 /\ ch <> 59 /\ ch <> 92.
Proof. unfold plain_char. cbn. rewrite andb_true_iff, negb_true_iff, !orb_false_iff, !Z.ltb_ge, Z.ltb_lt, !Z.eqb_neq. lia. Qed.

Lemma plain_writable ch : plain_char ch = true -> writable CatUnquoted (Char ch).
Proof.
  intros H%plain_char_spec. unfold writable. cbn. split_and!; lia.
Qed.

Lemma concat_chars text : concat (map symbol_fmt (map Char text)) = text.
Proof. induction text; cbn; [done|]. by f_equal. Qed.

Lemma plain_lexes text : text <> [] -> plain text -> Lexes text [(CatUnquoted, map Char text)].
Proof.
  intros Hn Hp. rewrite <- (concat_chars text) at 1. apply word_lexes; [by destruct text|by destruct text as [|? []]|]. apply Forall_map.
  eapply Forall_impl; [exact Hp|]. apply plain_writable.
Qed.

(** Several words on a line. *)
Lemma words_lexes text toks text' toks' : Lexes text toks -> Lexes text' toks' -> Lexes (text ++ 32 :: text') (toks ++ toks').
Proof.
  intros H1 H2 p t Ht. rewrite <- app_assoc. eapply Lex_app; [by apply H1|]. cbn. by apply Lex_space, H2.
Qed.

Definition word (text : list Z) : tok := (CatUnquoted, map Char text).

(** ** The parts of records as tokens *)

Lemma fmt_dec_plain v : 0 <= v < 2 ^ 128 -> fmt_dec v <> [] /\ plain (fmt_dec v).
Proof.
  intros Hv. destruct (fmt_dec_digits v Hv) as (Hn & Hd & _). split; [done|]. eapply Forall_impl; [exact Hd|]. cbn.
  unfold is_ascii_digit. intros ch Hch. apply plain_char_spec. breflect. lia.
Qed.

Lemma cs_fmt_quoted_lexes s : cs_wf s -> Lexes (cs_fmt_quoted s) [(CatQuoted, map symbol_quoted_from_octet (cs_octets s))].
Proof.
  intros Hs. unfold cs_fmt_quoted. rewrite <- (map_map symbol_quoted_from_octet symbol_fmt). apply quoted_lexes. apply Forall_map.
  assert (forall b, is_u8 b -> writable CatQuoted (symbol_quoted_from_octet b)) as Hq.
  { assert (forall b, is_u8 b -> wf_symbol (symbol_quoted_from_octet b) /\ in_token CatQuoted (symbol_quoted_from_octet b) = true) as Hw by by_octets.
    intros b Hb. destruct (Hw b Hb). split_and!; try done. unfold symbol_quoted_from_octet, is_printable. repeat case_match; try done. cbn. breflect. lia. }
  eapply Forall_impl; [apply Hs|exact Hq].
Qed.

Lemma quoted_octet_stands os : wf_octets os -> stands symbol_into_octet (map symbol_quoted_from_octet os) os.
Proof.
  assert (forall b, is_u8 b -> symbol_into_octet (symbol_quoted_from_octet b) = Ok b) as Hq by by_octets.
  induction 1; [constructor|]. constructor; [by apply Hq|done].
Qed.

(** *** Names *)

(** Octets the display of a label does not escape although they end a word. *)
Definition plain_label (l : list Z) : Prop := Forall (fun b => b <> 34 /\ b <> 40 /\ b <> 41 /\ b <> 59) l.

(** The labels of an absolute name whose text is read back. *)
Definition readable (n : Name) (ls : list (list Z)) : Prop := wf_abs n (ls ++ [[]]) /\ Forall plain_label ls.

(** What the scanner makes of an absolute name. *)
Definition scanned (n : Name) : ScannedDname := mkChain (mkRel (removelast (name_octets n))) name_root.

Definition name_symbols (ls : list (list Z)) : list Symbol :=
  match ls with [] => [Char 46] | _ => concat (map (fun l => map fmt_symbol l ++ [Char 46]) ls) end.

Lemma rest_symbols_dots l ls :
  map fmt_symbol l ++ rest_symbols ls ++ [Char 46] = concat (map (fun l => map fmt_symbol l ++ [Char 46]) (l :: ls)).
Proof.
  revert l. induction ls as [|m ls IH]; intros l; [cbn; by rewrite app_nil_r|]. cbn [map concat] in *. rewrite <- IH. unfold rest_symbols. cbn [map concat].
  rewrite <- !app_assoc. done.
Qed.

Lemma abs_labels_nonroot ls : abs_labels (ls ++ [[]]) -> Forall nonroot ls.
Proof. intros (ms & E & H). apply app_inj_tail in E as [-> _]. done. Qed.

Lemma readable_nonroot n ls : readable n ls -> Forall nonroot ls.
Proof. intros [(H & _) _]. by apply abs_labels_nonroot. Qed.

Lemma readable_text n ls : readable n ls -> fmt_with_dot n = Ret (concat (map symbol_fmt (name_symbols ls))).
Proof.
  intros [Hw _]. destruct ls as [|l ls].
  - destruct n as [o]. destruct Hw as (_ & E & _). cbn in E. subst o. done.
  - cbn [app] in Hw. rewrite (proj2 (name_fmt_symbols _ _ _ Hw)), rest_symbols_dots. done.
Qed.

Lemma fmt_symbol_writable b : is_u8 b -> b <> 34 /\ b <> 40 /\ b <> 41 /\ b <> 59 -> writable CatUnquoted (fmt_symbol b).
Proof.
  assert (forall b, is_u8 b -> wf_symbol (fmt_symbol b) /\ ((b =? 34) || (b =? 40) || (b =? 41) || (b =? 59) || in_token CatUnquoted (fmt_symbol b) = true))
    as Hw by by_octets.
  intros Hb (H1 & H2 & H3 & H4). destruct (Hw b Hb) as [Hs Hi].
  rewrite (proj2 (Z.eqb_neq _ _) H1), (proj2 (Z.eqb_neq _ _) H2), (proj2 (Z.eqb_neq _ _) H3), (proj2 (Z.eqb_neq _ _) H4) in Hi. cbn in Hi.
  split_and!; try done. unfold fmt_symbol, is_printable. repeat case_match; try done. cbn. breflect. lia.
Qed.

Lemma label_symbols_writable l : nonroot l -> plain_label l -> Forall (writable CatUnquoted) (map fmt_symbol l).
Proof.
  intros [_ Hw] Hp. apply Forall_map, Forall_forall. intros b Hb. apply fmt_symbol_writable; [by eapply Forall_forall in Hw|by eapply Forall_forall in Hp].
Qed.

Lemma name_symbols_writable ls : Forall nonroot ls -> Forall plain_label ls -> Forall (writable CatUnquoted) (name_symbols ls) /\ name_symbols ls <> [].
Proof.
  intros Hn Hp. assert (Forall (writable CatUnquoted) [Char 46]) as Hd by (constructor; [|constructor]; split_and!; done).
  destruct ls as [|l ls]; [done|]. unfold name_symbols. split; [|by intros [[_ ?]%app_eq_nil _]%app_eq_nil].
  apply Forall_concat, Forall_map. apply Forall_forall. intros m Hm. rewrite Forall_forall in Hn. rewrite Forall_forall in Hp.
  apply Forall_app. split; [|done]. apply label_symbols_writable; auto.
Qed.

Lemma label_symbols_stand l : nonroot l -> label_syms (map fmt_symbol l) l.
Proof.
  intros [_ Hw]. split; [|apply Forall_map; eapply Forall_impl; [exact Hw|]; intros b Hb; by apply fmt_symbol_spec].
  induction Hw as [|b l Hb _ IH]; [constructor|]. constructor; [by apply fmt_symbol_spec|done].
Qed.

Lemma name_symbols_absolute ls : Forall nonroot ls -> absolute_syms (name_symbols ls) ls.
Proof.
  intros Hn. destruct ls as [|l ls]; [done|]. unfold absolute_syms, name_symbols. induction Hn as [|m ms Hm _ IH]; [constructor|].
  cbn [map concat]. rewrite <- app_assoc. by constructor; [apply label_symbols_stand| |].
Qed.

Lemma name_symbols_unmarked ls : Forall (fun sym => sym <> SimpleEscape 35) (name_symbols ls).
Proof.
  assert (Forall (fun sym => sym <> SimpleEscape 35) [Char 46]) as Hd by by repeat constructor. destruct ls as [|l ls]; [done|]. unfold name_symbols.
  apply Forall_concat, Forall_map, Forall_forall. intros m _. apply Forall_app. split; [|done]. apply Forall_map, Forall_forall. intros b _.
  unfold fmt_symbol. case_match eqn:E; [|by case_match]. intros [= ->]. done.
Qed.

Lemma readable_lexes n ls : readable n ls -> Lexes (concat (map symbol_fmt (name_symbols ls))) [(CatUnquoted, name_symbols ls)].
Proof.
  intros Hr. destruct (name_symbols_writable ls) as [H1 H2]; [by eapply readable_nonroot|by apply Hr|]. apply word_lexes; [done| |done].
  intros E. pose proof (name_symbols_unmarked ls) as Hu. rewrite E in Hu. by inversion Hu.
Qed.

Lemma readable_scanned oc n ls sb :
  readable n ls -> scanned_name oc (mkRel (labels_wire ls)) name_root sb = Ret (sb, Ok (scanned n)) /\ (length (labels_wire ls) <= 254)%nat.
Proof.
  intros [(_ & E & Hl) _]. rewrite E, labels_wire_app, length_app in Hl. cbn in Hl. unfold NAME_MAX_LEN in Hl.
  assert (length (labels_wire ls) <= 254)%nat as Hlen by lia. split; [|done].
  unfold scanned, scanned_name, chain_new. rewrite E, labels_wire_app. cbn [labels_wire map concat]. unfold label_wire. cbn [app]. rewrite removelast_last.
  assert (compose_len (mkRel (labels_wire ls)) = Ret (zlen (labels_wire ls))) as ->.
  { cbn. unfold rel_compose_len, octets_compose_len. cbn [rel_octets]. unfold zlen. destruct (Z.ltb_spec (Z.of_nat (length (labels_wire ls))) (2 ^ 16)); [done|lia]. }
  change (compose_len name_root) with (Ret 1). cbv beta iota. unfold Chain.u16_add, zlen.
  destruct (Z.ltb_spec (Z.of_nat (length (labels_wire ls)) + 1) (2 ^ 16)); [|lia].
  destruct (Z.ltb_spec (Z.of_nat NAME_MAX_LEN) (Z.of_nat (length (labels_wire ls)) + 1)); [unfold NAME_MAX_LEN in *; lia|done].
Qed.

(** The name the scanner makes is the name that was written. *)
Lemma scanned_denotes n ls : readable n ls -> denotes (scanned n) (ls ++ [[]]).
Proof.
  intros Hr. pose proof (readable_nonroot _ _ Hr) as Hn. destruct Hr as [(Ha & E & Hl) _].
  rewrite E, labels_wire_app, length_app in Hl. cbn in Hl. unfold NAME_MAX_LEN in Hl.
  assert (scanned n = mkChain (mkRel (labels_wire ls)) name_root) as ->.
  { unfold scanned. rewrite E, labels_wire_app. cbn [labels_wire map concat]. unfold label_wire. cbn [app]. by rewrite removelast_last. }
  apply chain_denotes.
  - apply wf_rel_denotes. split_and!; [done|done|cbn; lia].
  - apply wf_abs_denotes. split_and!; [by exists []; split; [|constructor]|done|cbn; unfold NAME_MAX_LEN; lia].
  - unfold zlen. rewrite labels_wire_app, length_app. cbn. lia.
Qed.

(** *** Values *)

Section ShowTokens.
Context {W : Type} `{FormatWriter W} `{!WriterView W} `{!FormatWriterOk W}.

Lemma word_writes text : text <> [] -> plain text -> Writes (write_token text) [word text].
Proof. intros Hn Hp. by apply write_token_ok, plain_lexes. Qed.

Lemma dec_writes v : 0 <= v < 2 ^ 128 -> Writes (write_token (fmt_dec v)) [word (fmt_dec v)].
Proof. intros Hv. by apply word_writes; apply fmt_dec_plain. Qed.

Lemma display_writes (text : list Z) display : display = Ret text -> text <> [] -> plain text -> Writes (write_display display) [word text].
Proof. intros ->. apply word_writes. Qed.

Lemma name_writes n ls : readable n ls -> Writes (name_token n) [(CatUnquoted, name_symbols ls)].
Proof. intros Hr. unfold name_token. rewrite (readable_text _ _ Hr). apply write_token_ok. by eapply readable_lexes. Qed.

Lemma comment_writes (s : string) : Forall (fun ch => ch <> 10) (ascii_chars s) -> Writes (comment s) [].
Proof. apply write_comment_ok. Qed.
End ShowTokens.

(** *** Encoded octets *)

Lemma tbl_plain t i c : Forall (fun ch => plain_char ch = true) t -> tbl_get t i = Ret c -> plain_char c = true.
Proof.
  intros Ht. unfold tbl_get. destruct (t !! Z.to_nat i) eqn:E; [|done]. intros [= <-]. exact (Forall_lookup_1 _ _ _ _ Ht E).
Qed.

Lemma tbl_write_plain t idx cs : plain t -> tbl_write t idx = Ret cs -> plain cs /\ length cs = length idx.
Proof.
  intros Ht. revert cs. induction idx as [|i idx IH]; intros cs; cbn; [intros [= <-]; by split; [constructor|]|].
  destruct (tbl_get t i) as [c|] eqn:E; [|done]. destruct (tbl_write t idx) as [cs'|]; [|done]. intros [= <-].
  destruct (IH _ eq_refl) as [H1 H2]. split; [constructor; [exact (tbl_plain _ _ _ Ht E)|done]|cbn; lia].
Qed.

Lemma hex_display_plain s chars : wf_octets s -> hex_display s = Ret chars -> plain chars /\ (length s <= length chars)%nat.
Proof.
  intros Hs. revert chars. induction Hs as [|o s Ho _ IH]; intros chars; cbn; [intros [= <-]; by split; [constructor|]|].
  assert (forall o, is_u8 o -> match tbl_get HEX_ENCODE_ALPHABET o with
    | Ret cs => (1 <= length cs)%nat /\ Forall (fun ch => plain_char ch = true) cs | Panic => True end) as Ht.
  { intros o' Ho'. apply hex_entry in Ho' as H'. destruct H' as (hi & lo & E & Eh & El). rewrite E. split; [cbn; lia|].
    assert (forall c v, char_to_digit 16 c = Some v -> plain_char c = true) as Hc.
    { intros c v. unfold char_to_digit, is_ascii_digit. cbv zeta. intros Hcv. apply plain_char_spec.
      destruct ((48 <=? c) && (c <=? 57)) eqn:H1; [breflect; lia|]. destruct ((97 <=? c) && (c <=? 122)) eqn:H2; [breflect; lia|].
      destruct ((65 <=? c) && (c <=? 90)) eqn:H3; [breflect; lia|done]. }
    repeat constructor; by eapply Hc. }
  specialize (Ht o Ho). destruct (tbl_get HEX_ENCODE_ALPHABET o) as [cs|]; [|done]. destruct (hex_display s) as [rest|]; [|done]. intros [= <-].
  destruct (IH _ eq_refl) as [H1 H2], Ht as [H3 H4]. split; [by apply Forall_app|]. rewrite length_app. cbn. lia.
Qed.

Lemma b32_display_tokens s chars : b32_display s = Ret chars -> plain chars /\ (length s <= length chars)%nat.
Proof.
  intros E. apply tbl_write_plain in E as [H1 H2]; [|by_decide]. split; [done|]. rewrite H2. clear.
  assert (forall n s, (length s <= n)%nat -> (length s <= length (b32_indexes s))%nat) as Hn.
  { intros n. induction n as [|n IH]; intros [|c0 [|c1 [|c2 [|c3 [|c4 s']]]]] Hl; cbn in *; try lia. specialize (IH s'). lia. }
  by apply (Hn (length s)).
Qed.

Lemma b64_display_tokens s chars : b64_display s = Ret chars -> plain chars /\ (length s <= length chars)%nat.
Proof.
  revert chars. assert (plain B64_ENCODE_ALPHABET) as Ht by by_decide.
  assert (forall n s, (length s <= n)%nat -> forall chars, b64_display s = Ret chars -> plain chars /\ (length s <= length chars)%nat) as Hn; [|by apply (Hn (length s))].
  intros n. induction n as [|n IH]; intros [|c0 [|c1 [|c2 s']]] Hl chars; cbn [b64_display length] in *; try lia;
    try (intros [= <-]; split; [constructor|cbn; lia]);
    (destruct (tbl_write _ _) as [cs|] eqn:E; [|done]); apply (tbl_write_plain _ _ _ Ht) in E as [H1 H2].
  - intros [= <-]. rewrite length_app, H2. split; [apply Forall_app; split; [done|by_decide]|cbn; lia].
  - intros [= <-]. rewrite length_app, H2. split; [apply Forall_app; split; [done|by_decide]|cbn; lia].
  - destruct (b64_display s') as [rest|] eqn:E'; [|done]. intros [= <-]. destruct (IH s' ltac:(lia) rest E') as [H3 H4].
    rewrite length_app, H2. split; [by apply Forall_app|cbn; lia].
Qed.

(** Octets as they are displayed, and what the converter makes of the text. *)
Definition encodes {C} `{ConvertSymbols C} (display : outcome (list Z)) (c : C) (s chars : list Z) : Prop :=
  display = Ret chars /\ convert_symbols (B:=list Z) (map ESymbol (map Char chars)) c = Ret (Ok s) /\ plain chars /\ (length s <= length chars)%nat.

Lemma same_octets_ok a b s : same_octets a b -> a = Ret (Ok s) -> b = Ret (Ok s).
Proof. intros (r & r' & -> & -> & Hr) [= ->]. destruct r'; [by subst|done]. Qed.

Lemma chars_symbols chars : map ESymbol (map Char chars) = plain_symbols chars.
Proof. apply map_map. Qed.

Lemma hex_encodes s : wf_octets s -> exists chars, encodes (hex_display s) hex_converter_new s chars.
Proof.
  intros Hs. destruct (base16_roundtrip s Hs) as (chars & Ed & Eb & Eo). exists chars. destruct (hex_display_plain s chars Hs Ed). split_and!; try done.
  rewrite chars_symbols. eapply same_octets_ok; [apply hex_agrees|]. unfold hex_decode, hex_new. rewrite hex_loop_spec, as_ref_empty, Eb. by rewrite Eo.
Qed.

Lemma b32_encodes s : wf_octets s -> exists chars, encodes (b32_display s) b32_converter_new s chars.
Proof.
  intros Hs. destruct (base32_roundtrip (B:=list Z) s Hs) as (chars & Ed & Eb). exists chars. destruct (b32_display_tokens s chars Ed). split_and!; try done.
  rewrite chars_symbols. eapply same_octets_ok; [apply b32_agrees|done].
Qed.

Lemma b64_encodes s : wf_octets s -> exists chars, encodes (b64_display s) b64_converter_new s chars.
Proof.
  intros Hs. destruct (base64_roundtrip (B:=list Z) s Hs) as (chars & Ed & Eb). exists chars. destruct (b64_display_tokens s chars Ed). split_and!; try done.
  rewrite chars_symbols. eapply same_octets_ok; [apply b64_agrees|done].
Qed.

(** *** Names of numbers *)

Lemma mnemonic_plain table v m : Forall (fun e => plain e.2 /\ e.2 <> []) table -> to_mnemonic_str table v = Some m -> plain m /\ m <> [].
Proof. induction 1 as [|[x m'] table [Hm Hn] _ IH]; [done|]. cbn. destruct (x =? v); [intros [= <-]; done|done]. Qed.

Lemma prefix_fmt_plain table prefix v :
  Forall (fun e => plain e.2 /\ e.2 <> []) table -> plain prefix -> is_u16 v -> plain (prefix_fmt table prefix v) /\ prefix_fmt table prefix v <> [].
Proof.
  intros Ht Hp Hv. unfold prefix_fmt, is_u16 in *. destruct (to_mnemonic_str table v) eqn:E; [by eapply mnemonic_plain|].
  destruct (fmt_dec_plain v) as [H1 H2]; [lia|]. split; [by apply Forall_app|]. by intros [_ ?]%app_eq_nil.
Qed.

Lemma rtype_fmt_plain v : is_u16 v -> plain (rtype_fmt v) /\ rtype_fmt v <> [].
Proof. intros Hv. apply prefix_fmt_plain; [by_decide|by_decide|done]. Qed.

Lemma class_fmt_plain v : is_u16 v -> plain (class_fmt v) /\ class_fmt v <> [].
Proof. intros Hv. apply prefix_fmt_plain; [by_decide|by_decide|done]. Qed.

(** *** Addresses *)

Lemma join_plain sep parts : plain_char sep = true -> Forall plain parts -> plain (IpText.join sep parts).
Proof.
  intros Hs. induction 1 as [|p parts Hp Hps IH]; [constructor|]. cbn. destruct parts as [|q parts]; [done|].
  apply Forall_app. split; [done|]. by constructor.
Qed.

Lemma join_nonempty sep p parts : p <> [] -> IpText.join sep (p :: parts) <> [].
Proof. intros Hp. cbn. destruct parts; [done|]. by intros [? _]%app_eq_nil. Qed.

Lemma ipv4_fmt_plain addr : wf_octets addr -> addr <> [] -> plain (ipv4_fmt addr) /\ ipv4_fmt addr <> [].
Proof.
  intros Hw Hn. assert (forall o, is_u8 o -> fmt_dec o <> [] /\ plain (fmt_dec o)) as Hf by (unfold is_u8; intros o Ho; apply fmt_dec_plain; lia).
  split; [apply join_plain; [done|]; apply Forall_map; eapply Forall_impl; [exact Hw|]; intros o Ho; by apply Hf|].
  destruct Hw as [|o addr Ho _]; [done|]. apply join_nonempty. by apply Hf.
Qed.

Lemma hex_digits_plain fuel v : 0 <= v < 16 ^ Z.of_nat fuel -> plain (hex_digits fuel v).
Proof.
  assert (forall d, 0 <= d < 16 -> plain_char (lower_hex_digit d) = true) as Hd.
  { intros d Hd. apply plain_char_spec. unfold lower_hex_digit. case_match; lia. }
  revert v. induction fuel as [|fuel IH]; intros v Hv; [constructor|]. cbn [hex_digits].
  destruct (Z.ltb_spec v 16); [constructor; [apply Hd; lia|constructor]|].
  rewrite Nat2Z.inj_succ, Z.pow_succ_r in Hv by lia. apply Forall_app. split.
  - apply IH. split; [apply Z.div_pos; lia|apply Z.div_lt_upper_bound; lia].
  - constructor; [|constructor]. apply Hd, Z.mod_pos_bound. lia.
Qed.

Lemma segments_bound addr : wf_octets addr -> Forall (fun v => 0 <= v < 65536) (segments addr).
Proof.
  assert (forall n addr, (length addr <= n)%nat -> wf_octets addr -> Forall (fun v => 0 <= v < 65536) (segments addr)) as Hn; [|by apply (Hn (length addr))].
  intros n. induction n as [|n IH]; intros [|a [|b l]] Hl Hw; cbn in *; try constructor; try lia.
  - apply Forall_cons in Hw as [Ha Hw]. apply Forall_cons in Hw as [Hb Hw]. unfold is_u8 in *. lia.
  - apply IH; [lia|]. apply Forall_cons in Hw as [Ha Hw]. by apply Forall_cons in Hw as [Hb Hw].
Qed.

Lemma fmt_subslice_plain segs : Forall (fun v => 0 <= v < 65536) segs -> plain (fmt_subslice segs).
Proof. intros Hs. apply join_plain; [done|]. apply Forall_map. eapply Forall_impl; [exact Hs|]. intros v Hv. by apply hex_digits_plain. Qed.

Lemma hex_digits_nonempty fuel v : hex_digits (S fuel) v <> [].
Proof. cbn [hex_digits]. destruct (v <? 16); [done|]. by intros [_ ?]%app_eq_nil. Qed.

Lemma ipv6_fmt_plain addr : wf_octets addr -> length addr = 16%nat -> plain (ipv6_fmt addr) /\ ipv6_fmt addr <> [].
Proof.
  intros Hw Hl. pose proof (segments_bound addr Hw) as Hs. unfold ipv6_fmt. cbv zeta. case_bool_decide.
  - destruct (ipv4_fmt_plain (drop 12 addr)) as [H1 H2]; [by apply list.Forall_drop|intros E; apply (f_equal length) in E; rewrite length_drop, Hl in E; done|].
    split; [apply Forall_app; split; [by_decide|done]|done].
  - destruct (longest_loop _ _ _ _) as [start len]. case_match.
    + split; [|by intros [_ ?]%app_eq_nil]. apply Forall_app. split; [by apply fmt_subslice_plain, list.Forall_take|].
      apply Forall_app. split; [by_decide|by apply fmt_subslice_plain, list.Forall_drop].
    + split; [by apply fmt_subslice_plain|]. destruct addr as [|a [|b addr]]; try done. apply join_nonempty, hex_digits_nonempty.
Qed.

Lemma from_utf8_plain text : plain text -> from_utf8 text = Some text.
Proof.
  induction 1 as [|ch text Hch _ IH]; [done|]. apply plain_char_spec in Hch. cbn [from_utf8]. destruct (Z.ltb_spec ch 0x80); [|lia]. by rewrite IH.
Qed.
