(* ===== verification/ScanTokens.v ===== *)
(** * Scanning record data from the tokens of a zone file

    The [scan] functions of the record data types run on the scanner of zone files:
    from the tokens [ZonefileFmt] writes for a value each gives the value. *)

From S2P Require Import Prelude Octets Serial Symbol BaseCodec CharStr Label Traits Name NameBuilder Chain ParsedName Header Compressor MessageBuilder Message Record Scanner Iana IpText Ttl Layout Rdata Bitmap Txt Dnssec Nsec3 ZoneData ScanData SourceBuf Lex Inplace EntryTokens ZonefileFmt ZoneText.
From stdpp Require Import strings.
#[local] Open Scope Z_scope.

(** ** Scanning tokens *)

(** The tokens left in the entry; there is room for a length before the next one. *)
Definition zf_tokens (zf : Zonefile) (toks : list tok) (rest : list Z) : Prop :=
  at_tokens (zf_buf zf) toks rest /\ (0 < sb_start (zf_buf zf))%nat.

Definition same_file (zf zf' : Zonefile) : Prop := zf' = zf_with_buf (zf_buf zf') zf.

(** The function scans the tokens as the value. *)
Definition Scans {A} (f : Zonefile -> outcome (Zonefile * result A EntryError)) (toks : list tok) (a : A) : Prop :=
  forall zf more rest, zf_tokens zf (toks ++ more) rest ->
  exists zf', f zf = Ret (zf', Ok a) /\ zf_tokens zf' more rest /\ same_file zf zf'.

(** It scans them if they are the last ones of the entry. *)
Definition ScansLast {A} (f : Zonefile -> outcome (Zonefile * result A EntryError)) (toks : list tok) (a : A) : Prop :=
  forall zf rest, zf_tokens zf toks rest ->
  exists zf', f zf = Ret (zf', Ok a) /\ zf_tokens zf' [] rest /\ same_file zf zf'.

Lemma Scans_last {A} (f : Zonefile -> outcome (Zonefile * result A EntryError)) toks a : Scans f toks a -> ScansLast f toks a.
Proof. intros Hf zf rest Ht. apply Hf. by rewrite app_nil_r. Qed.

Lemma same_file_trans zf zf1 zf2 : same_file zf zf1 -> same_file zf1 zf2 -> same_file zf zf2.
Proof. unfold same_file. intros -> ->. done. Qed.

Lemma scan_then_last {A B} (f : Zonefile -> outcome (Zonefile * result A EntryError)) (g : A -> Zonefile -> outcome (Zonefile * result B EntryError)) toks1 toks2 a b :
  Scans f toks1 a -> ScansLast (g a) toks2 b -> ScansLast (fun zf => scan_then (f zf) g) (toks1 ++ toks2) b.
Proof.
  intros Hf Hg zf rest Ht. destruct (Hf _ _ _ Ht) as (zf1 & -> & Ht1 & S1). destruct (Hg _ _ Ht1) as (zf2 & E & Ht2 & S2).
  exists zf2. cbn. split_and!; [done|done|by eapply same_file_trans].
Qed.

Lemma scan_then_scans {A B} (f : Zonefile -> outcome (Zonefile * result A EntryError)) (g : A -> Zonefile -> outcome (Zonefile * result B EntryError)) toks1 toks2 a b :
  Scans f toks1 a -> Scans (g a) toks2 b -> Scans (fun zf => scan_then (f zf) g) (toks1 ++ toks2) b.
Proof.
  intros Hf Hg zf more rest Ht. rewrite <- app_assoc in Ht. destruct (Hf _ _ _ Ht) as (zf1 & -> & Ht1 & S1). destruct (Hg _ _ _ Ht1) as (zf2 & E & Ht2 & S2).
  exists zf2. cbn. split_and!; [done|done|by eapply same_file_trans].
Qed.

Lemma scan_then_end {A B} (f : Zonefile -> outcome (Zonefile * result A EntryError)) (g : A -> Zonefile -> outcome (Zonefile * result B EntryError)) toks a b :
  ScansLast f toks a -> (forall zf, g a zf = Ret (zf, Ok b)) -> ScansLast (fun zf => scan_then (f zf) g) toks b.
Proof. intros Hf Hg zf rest Ht. destruct (Hf _ _ Ht) as (zf1 & -> & Ht1 & S1). exists zf1. cbn. by rewrite Hg. Qed.

Lemma scans_ok {A} (a : A) : Scans (scan_ok a) [] a.
Proof. intros zf more rest Ht. exists zf. split_and!; [done|done|]. by destruct zf. Qed.

(** A method of the scanner that works on the buffer. *)
Lemma on_buf_scans {A} (f : SourceBuf -> outcome (SourceBuf * result A EntryError)) toks a :
  (forall sb more rest, at_tokens sb (toks ++ more) rest -> (0 < sb_start sb)%nat ->
   exists sb', f sb = Ret (sb', Ok a) /\ at_tokens sb' more rest /\ (0 < sb_start sb')%nat) -> Scans (on_buf f) toks a.
Proof.
  intros Hf zf more rest [Ha H0]. destruct (Hf _ _ _ Ha H0) as (sb' & E & Ha' & H0'). exists (zf_with_buf sb' zf). unfold on_buf. rewrite E. done.
Qed.

Lemma on_buf_last {A} (f : SourceBuf -> outcome (SourceBuf * result A EntryError)) toks a :
  (forall sb rest, at_tokens sb toks rest -> (0 < sb_start sb)%nat ->
   exists sb', f sb = Ret (sb', Ok a) /\ at_tokens sb' [] rest /\ (0 < sb_start sb')%nat) -> ScansLast (on_buf f) toks a.
Proof.
  intros Hf zf rest [Ha H0]. destruct (Hf _ _ Ha H0) as (sb' & E & Ha' & H0'). exists (zf_with_buf sb' zf). unfold on_buf. rewrite E. done.
Qed.

Lemma plain_stands text : plain text -> stands symbol_into_octet (map Char text) text /\ stands symbol_into_ascii (map Char text) text.
Proof.
  unfold stands. induction 1 as [|ch text Hch _ [IH1 IH2]]; [by split; constructor|]. cbn [map].
  apply plain_char_spec in Hch.
  split; (constructor; [|done]); cbn; case_match eqn:E; try done; breflect; lia.
Qed.

(** *** The marker of unknown data *)

Definition unmarked (toks : list tok) : Prop :=
  match toks with (CatUnquoted, sym :: _) :: _ => sym <> SimpleEscape 35 | _ => True end.

Lemma sb_symbol_lex sb sym t :
  lex_symbol (sb_text sb) = Some (sym, t) ->
  exists n, symbol_from_slice_index (sb_buf sb) (sb_start sb) = Ok (Some (sym, n)) /\ (sb_start sb < n <= length (sb_buf sb))%nat /\ drop n (sb_buf sb) = t.
Proof.
  intros Hl. destruct (symbol_at_lex _ _ _ Hl) as (n & E & Hn & Hd). exists n. split_and!; [|lia|lia|done].
  unfold symbol_at in E. destruct (symbol_from_slice_index _ _) as [[[sym' n']|]|]; try done. by injection E as <- <-.
Qed.

Lemma marker_absent sb toks rest : at_tokens sb toks rest -> unmarked toks -> skip_unknown_marker sb = Ret (sb, Ok false).
Proof.
  intros (Hok & Ha) Hu. unfold skip_unknown_marker. destruct toks as [|[cat syms] toks]; [by destruct Ha as (-> & _)|].
  destruct Ha as (Ec & t & HT & _). rewrite Ec. destruct cat; try done. rewrite bool_decide_eq_true_2 by done. cbn [negb].
  assert (exists sym u, lex_symbol (sb_text sb) = Some (sym, u) /\ sym <> SimpleEscape 35) as (sym & u & Hl & Hn).
  { inversion HT as [ch u Hw E1 E2| |c u sym u1 ss u' Hl Hin HT1]; subst.
    - exists (Char ch), u. split; [|done]. by apply lex_word_end.
    - by exists sym, u1. }
  destruct (sb_symbol_lex _ _ _ Hl) as (n & -> & _). by rewrite bool_decide_eq_false_2.
Qed.

Lemma Lex_blank p ch t toks p' t' : ch = 32 \/ ch = 9 \/ ch = 13 -> Lex p (ch :: t) toks p' (10 :: t') -> Lex p t toks p' (10 :: t').
Proof.
  intros Hch HL. inversion HL as [q u E1 E2 E3 E4|q u q1 u1 ts q' u' Hs HL1|q u cat u1 syms u2 ts q' u' Hst HT Hm HL1]; subst; [lia| |].
  - inversion Hs; subst; try lia. done.
  - inversion Hst as [c v Hw|v]; subst; [|lia]. destruct Hch as [->|[->| ->]]; done.
Qed.

Lemma marker_present sb toks rest :
  at_tokens sb ((CatUnquoted, [SimpleEscape 35]) :: toks) rest ->
  exists sb', skip_unknown_marker sb = Ret (sb', Ok true) /\ at_tokens sb' toks rest /\ (0 < sb_start sb')%nat.
Proof.
  intros (Hok & Ec & t & HT & Hm & HL). unfold skip_unknown_marker. rewrite Ec, bool_decide_eq_true_2 by done. cbn [negb].
  inversion HT as [| |c u sym u1 ss u' Hl Hin HT1]; subst. inversion HT1 as [ch u Hw E1 E2| |]; subst. specialize (Hm eq_refl eq_refl). cbn in Hm.
  destruct (sb_symbol_lex _ _ _ Hl) as (n & -> & Hn & Hd). rewrite bool_decide_eq_true_2 by done. cbn [negb].
  set (sb1 := sb_with_start n sb). assert (Ht1 : sb_text sb1 = ch :: u) by done.
  destruct (lex_word_end ch u Hw) as [Hl1 Hn1]. rewrite <- Ht1 in Hl1. destruct (sb_symbol_lex _ _ _ Hl1) as (m & Em & Hm1 & Hd1). cbn in Em. rewrite Em, Hn1.
  change (sb_start sb1) with n in Hm1. change (sb_buf sb1) with (sb_buf sb) in *.
  destruct (next_item_lex (sb_with_cat CatNone (sb_with_start m sb)) toks rest) as (sb2 & -> & Ha2 & Hb2 & Hs2 & _).
  - by left.
  - unfold sb_ok. cbn. lia.
  - unfold sb_text. cbn. rewrite Hd1. by eapply Lex_blank.
  - exists sb2. cbn in *. split_and!; [done|done|lia].
Qed.

(** The number of digits of a number. *)
Lemma dec_digits_length fuel k v : 0 <= v < 10 ^ Z.of_nat k -> (length (dec_digits fuel v) <= Nat.max 1 k)%nat.
Proof.
  revert k v. induction fuel as [|fuel IH]; intros k v Hv; cbn; [lia|]. destruct (Z.ltb_spec v 10); [cbn; lia|].
  destruct k as [|k]; [cbn in Hv; lia|]. rewrite Nat2Z.inj_succ, Z.pow_succ_r in Hv by lia. rewrite length_app. cbn [length].
  destruct k as [|k]; [cbn in Hv; lia|].
  specialize (IH (S k) (v / 10)). rewrite Nat.max_r in IH by lia. assert (0 <= v / 10 < 10 ^ Z.of_nat (S k)) as Hd.
  { split; [apply Z.div_pos; lia|apply Z.div_lt_upper_bound; lia]. }
  specialize (IH Hd). lia.
Qed.

Section ScanTokens.
Context (oc : bool) (unix_time : Z -> Z -> Z -> Z -> Z -> Z -> option Z).
#[local] Existing Instance entry_scanner | 0.
#[local] Instance scanner : Scanner Zonefile ScannedDname := entry_scanner oc.

Lemma scan_uint_scans w v : 8 <= w <= 128 -> 0 <= v < 2 ^ w -> Scans (scan_uint oc w) [word (fmt_dec v)] v.
Proof.
  intros Hw Hv. apply on_buf_scans. intros sb more rest Ha H0.
  destruct (scan_symbols_tokens (uint_step oc w) 0 v sb _ _ _ _ Ha) as (sb' & E & Ha' & Hle).
  - assert (2 ^ w <= 2 ^ 128) by (apply Z.pow_le_mono_r; lia). destruct (fmt_dec_digits v ltac:(lia)) as (_ & Hd & Ev).
    apply uint_loop; [lia|]. exists (fmt_dec v). split_and!; [done|done|done|lia].
  - exists sb'. split_and!; [exact E|done|lia].
Qed.

Lemma scan_octets_scans text : plain text -> Scans s_scan_octets [word text] text.
Proof.
  intros Hp. apply on_buf_scans. intros sb more rest Ha _. apply (scan_octets_tokens sb _ _ _ _ text Ha); [done|]. by apply plain_stands.
Qed.

Lemma scan_ascii_str_scans {T} (op : list Z -> result T EntryError) text x : plain text -> op text = Ok x -> Scans (s_scan_ascii_str op) [word text] x.
Proof.
  intros Hp Hop. apply on_buf_scans. intros sb more rest Ha _. apply (scan_ascii_str_tokens op sb _ _ _ text x Ha); [|done]. by apply plain_stands.
Qed.

Lemma scan_name_scans n ls origin zf more rest :
  readable n ls -> zf_tokens zf ((CatUnquoted, name_symbols ls) :: more) rest -> zf_origin zf = origin ->
  exists zf', s_scan_name zf = Ret (zf', Ok (scanned n)) /\ zf_tokens zf' more rest /\ same_file zf zf'.
Proof.
  intros Hr [Ha H0] <-. destruct (scan_name_tokens oc (zf_origin zf) (zf_buf zf) _ _ _ ls Ha H0) as (sb' & E & Ha' & H0').
  - apply name_symbols_absolute. by eapply readable_nonroot.
  - by apply (readable_scanned oc n ls (zf_buf zf)).
  - exists (zf_with_buf sb' zf). cbn. unfold on_buf. rewrite E, (proj1 (readable_scanned oc n ls sb' Hr)). done.
Qed.

Lemma name_scans n ls : readable n ls -> Scans s_scan_name [(CatUnquoted, name_symbols ls)] (scanned n).
Proof. intros Hr zf more rest Ht. by eapply scan_name_scans. Qed.

Lemma convert_token_scans {C} `{ConvertSymbols C} display (c : C) s chars : encodes display c s chars -> Scans (s_convert_token c) [word chars] s.
Proof.
  intros (_ & Hc & Hp & Hl). apply on_buf_scans. intros sb more rest Ha _. eapply convert_token_tokens; [exact Ha|done|]. by rewrite length_map.
Qed.

Lemma convert_entry_scans {C} `{ConvertSymbols C} display (c : C) s chars : encodes display c s chars -> ScansLast (s_convert_entry c) [word chars] s.
Proof.
  intros (_ & Hc & Hp & Hl). apply on_buf_last. intros sb rest Ha _. eapply convert_entry_tokens; [exact Ha|done|by constructor|..].
  - unfold toks_symbols. cbn. by rewrite app_nil_r.
  - unfold toks_symbols. cbn. rewrite app_nil_r, !length_map. done.
Qed.

(** *** Numbers with names *)

Lemma iana_scan_scans from_str expected text v : plain text -> from_str text = Some v -> Scans (iana_scan from_str expected) [word text] v.
Proof. intros Hp E. apply scan_ascii_str_scans; [done|]. by rewrite E. Qed.

Lemma decimal_scans expected v : is_u8 v -> Scans (iana_scan decimal_from_str expected) [word (fmt_dec v)] v.
Proof.
  intros Hv. unfold is_u8 in Hv. apply iana_scan_scans; [apply fmt_dec_plain; lia|]. apply parse_uint_fmt_dec; lia.
Qed.

Lemma rtype_scans v : is_u16 v -> Scans rtype_scan [word (rtype_fmt v)] v.
Proof. intros Hv. apply iana_scan_scans; [by apply rtype_fmt_plain|]. by apply rtype_text_roundtrip. Qed.

Lemma ttl_scans t : ttl_ok t -> Scans (ttl_scan oc) [word (fmt_dec (ttl_as_secs t))] t.
Proof.
  intros Ht. unfold ttl_scan. apply (scan_then_scans _ _ [_] [] (ttl_as_secs t)); [|by destruct t; apply scans_ok].
  apply (scan_uint_scans 32); [lia|exact Ht].
Qed.

Lemma serial_scans s : is_u32 (serial_into_int s) -> Scans (serial_scan oc) [word (serial_fmt s)] s.
Proof.
  intros Hs. unfold serial_scan. apply (scan_then_scans _ _ [_] [] (serial_into_int s)); [|by destruct s; apply scans_ok].
  apply (scan_uint_scans 32); [lia|exact Hs].
Qed.

Lemma time_steps ds buf : digits ds -> (length buf + length ds <= 14)%nat ->
  each_symbol time_step (map Char ds) buf = Ret (Ok (buf ++ map (fun d => d - 48) ds)).
Proof.
  intros Hd. revert buf. induction Hd as [|d ds Hd _ IH]; intros buf Hl; [cbn; by rewrite app_nil_r|]. cbn [map each_symbol length] in *.
  unfold time_step at 1. destruct (Nat.leb_spec 14 (length buf)); [lia|]. cbn [symbol_into_digit]. rewrite char_to_digit_10, Hd.
  rewrite IH by (rewrite length_app; cbn; lia). by rewrite <- app_assoc.
Qed.

Lemma from_buf_digits ds : from_buf (map (fun d => d - 48) ds) = dec_value ds.
Proof.
  unfold from_buf, dec_value, dec_value_from. generalize 0. induction ds as [|d ds IH]; intros acc; [done|]. cbn. apply IH.
Qed.

Lemma timestamp_scans t : is_u32 (serial_into_int (ts_serial t)) -> Scans (timestamp_scan unix_time) [word (serial_fmt (ts_serial t))] t.
Proof.
  intros Ht. unfold is_u32 in Ht. destruct t as [[v]]. cbn in Ht. unfold timestamp_scan, serial_fmt. change (serial_into_int _) with v.
  destruct (fmt_dec_digits v ltac:(lia)) as (_ & Hd & Ev). pose proof (dec_digits_length 40 10 v ltac:(lia)) as Hl.
  intros zf more rest [Ha H0]. destruct (scan_symbols_tokens time_step [] (map (fun d => d - 48) (fmt_dec v)) (zf_buf zf) _ _ _ _ Ha) as (sb' & E & Ha' & Hle).
  { apply time_steps; [done|]. unfold fmt_dec. cbn [length]. lia. }
  exists (zf_with_buf sb' zf). cbn [s_scan_symbols scanner entry_scanner]. unfold on_buf. rewrite E. cbn [scan_then]. unfold timestamp_of_digits.
  rewrite length_map, from_buf_digits, Ev. destruct (Nat.leb_spec (length (fmt_dec v)) 10); [|unfold fmt_dec in *; lia].
  destruct (Z.ltb_spec (2 ^ 32 - 1) v); [lia|]. split_and!; [done|split; [done|cbn; lia]|done].
Qed.
End ScanTokens.
