(* ===== verification/ZoneRoundtrip.v ===== *)
(** * Zone files: what is written is read back

    A record that [ZonefileFmt] can write faithfully, [readable_record], is read
    back from its text by the reader of zone files, whichever writer was used. *)

From S2P Require Import Prelude Octets Serial Symbol BaseCodec CharStr Label Traits Name NameBuilder Chain ParsedName Header Compressor MessageBuilder Message Record Scanner Iana IpText Ttl Layout Rdata Bitmap Txt Dnssec Nsec3 ZoneData ScanData SourceBuf Lex Inplace EntryTokens ZonefileFmt ZoneText ScanTokens.
From stdpp Require Import strings.
#[local] Open Scope Z_scope.

(** ** What can be read back *)

Definition readable_name (n : Name) : Prop := exists ls, readable n ls.

(** A bitmap as the builder makes it of its types. *)
Definition canonical_bitmap (b : RtypeBitmap) : Prop :=
  exists ts rb, bitmap_iter b = Ret ts /\ Forall is_u16 ts /\ rb_add_all (B:=list Z) ts rb_new = Ret (rb, true) /\ rb_finalize rb = Ret b.

(** A string whose display in quotes has a symbol the in-place reader stops at: a
    space, or an escape sequence, as which quotes, backslashes, control characters
    and octets from 127 on are displayed. *)
Definition stopping (s : CharStr) : Prop :=
  Exists (fun o => o <= 32 \/ o = 34 \/ o = 92 \/ 127 <= o) (cs_octets s).

Definition readable_data (d : ZoneRecordData Name) : Prop :=
  match d with
  | ZoneA d => a_ok d
  | ZoneAaaa d => aaaa_ok d
  | ZoneCname d | ZoneMb d | ZoneMd d | ZoneMf d | ZoneMg d | ZoneMr d | ZoneNs d | ZonePtr d | ZoneDname d => readable_name (nd_name d)
  | ZoneHinfo d => hinfo_ok d /\ stopping (hi_cpu d) /\ stopping (hi_os d)
  | ZoneMinfo d => readable_name (mi_rmailbx d) /\ readable_name (mi_emailbx d)
  | ZoneMx d => is_u16 (mx_preference d) /\ readable_name (mx_exchange d)
  | ZoneSoa d => readable_name (soa_mname d) /\ readable_name (soa_rname d) /\ is_u32 (serial_into_int (soa_serial d)) /\
      ttl_ok (soa_refresh d) /\ ttl_ok (soa_retry d) /\ ttl_ok (soa_expire d) /\ ttl_ok (soa_minimum d)
  | ZoneSrv d => is_u16 (srv_priority d) /\ is_u16 (srv_weight d) /\ is_u16 (srv_port d) /\ readable_name (srv_target d)
  | ZoneTxt d => exists strs, txt_is d strs
  | ZoneDnskey d | ZoneCdnskey d => dnskey_ok d /\ dk_public_key d <> []
  | ZoneDs d | ZoneCds d => ds_ok d /\ ds_digest d <> []
  | ZoneRrsig d =>
      let p := rs_proto d in
      is_u16 (pr_type_covered p) /\ is_u8 (pr_algorithm p) /\ is_u8 (pr_labels p) /\ ttl_ok (pr_original_ttl p) /\
      is_u32 (serial_into_int (ts_serial (pr_expiration p))) /\ is_u32 (serial_into_int (ts_serial (pr_inception p))) /\
      is_u16 (pr_key_tag p) /\ readable_name (pr_signer_name p) /\
      wf_octets (rs_signature d) /\ rs_signature d <> [] /\ 18 + zlen (name_octets (pr_signer_name p)) + zlen (rs_signature d) <= 65535
  | ZoneNsec d => readable_name (ns_next_name d) /\ canonical_bitmap (ns_types d)
  | ZoneNsec3 d =>
      is_u8 (n3_hash_algorithm d) /\ is_u8 (n3_flags d) /\ is_u16 (n3_iterations d) /\ counted_ok (salt_octets (n3_salt d)) /\
      wf_octets (hash_octets (n3_next_owner d)) /\ hash_octets (n3_next_owner d) <> [] /\ canonical_bitmap (n3_types d)
  | ZoneNsec3param d => nsec3param_ok d
  | ZoneZonemd d => zonemd_ok d
  | ZoneUnknown d => wf_octets (unknown_data d) /\ 0 < zlen (unknown_data d) < 2 ^ 16
  end.

(** ** Texts and their tokens *)

Lemma dec_digits_no_lf fuel v : 0 <= v -> Forall (fun ch => ch <> 10) (dec_digits fuel v).
Proof.
  revert v. induction fuel as [|fuel IH]; intros v Hv; cbn; [constructor|]. destruct (Z.ltb_spec v 10); [repeat constructor; lia|].
  apply Forall_app. split; [apply IH, Z.div_pos; lia|]. pose proof (Z.mod_pos_bound v 10). repeat constructor. lia.
Qed.

Lemma fmt_dec_no_lf v : 0 <= v -> Forall (fun ch => ch <> 10) (fmt_dec v).
Proof. apply dec_digits_no_lf. Qed.

Section Texts.
Context {W : Type} `{FormatWriter W} `{!WriterView W} `{!FormatWriterOk W}.
Context (oc : bool) (unix_time : Z -> Z -> Z -> Z -> Z -> Z -> option Z).
#[local] Existing Instance entry_scanner | 0.
#[local] Instance scanner : Scanner Zonefile ScannedDname := entry_scanner oc.

Lemma then_token (f g : fmt_to W) t toks : Writes f [t] -> Writes g toks -> Writes (fmt_then f g) (t :: toks).
Proof. apply (then_writes f g [t]). Qed.

Lemma then_comment (f g : fmt_to W) toks : Writes f [] -> Writes g toks -> Writes (fmt_then f g) toks.
Proof. apply (then_writes f g []). Qed.

Lemma then_done (f g : fmt_to W) toks : Writes f toks -> Writes g [] -> Writes (fmt_then f g) toks.
Proof. rewrite <- (app_nil_r toks) at 2. apply then_writes. Qed.

Lemma scan_token {A B} (f : Zonefile -> outcome (Zonefile * result A EntryError)) (g : A -> Zonefile -> outcome (Zonefile * result B EntryError)) t toks a b :
  Scans f [t] a -> ScansLast (g a) toks b -> ScansLast (fun zf => scan_then (f zf) g) (t :: toks) b.
Proof. apply (scan_then_last f g [t]). Qed.

Lemma scan_done {A} (a : A) : ScansLast (scan_ok a) [] a.
Proof. apply Scans_last, scans_ok. Qed.

Lemma comment_text_writes s : Forall (fun ch => ch <> 10) s -> Writes (W:=W) (write_comment s) [].
Proof. apply write_comment_ok. Qed.

Lemma pretty_loop_no_lf units first : Forall (fun u : Z * list Z => 0 <= u.1 /\ Forall (fun ch => ch <> 10) u.2) units ->
  Forall (fun ch => ch <> 10) (pretty_loop units first).
Proof.
  intros Hu. revert first. induction Hu as [|[n u] units [Hn Hc] _ IH]; intros first; cbn [pretty_loop]; [constructor|].
  cbn [fst snd] in *. destruct (n =? 0); [done|].
  assert (Forall (fun ch => ch <> 10) [32] /\ Forall (fun ch => ch <> 10) (if first then [32] else []) /\ Forall (fun ch => ch <> 10) (if 1 <? n then [115] else []))
    as (H1 & H2 & H3) by (split_and!; [|destruct first|destruct (1 <? n)]; by_decide).
  pose proof (fmt_dec_no_lf n Hn). pose proof (IH false). rewrite !Forall_app. done.
Qed.

Lemma pretty_no_lf t : ttl_ok t -> Forall (fun ch => ch <> 10) (ttl_pretty t).
Proof.
  intros Ht. unfold ttl_ok, is_u32 in Ht. apply pretty_loop_no_lf. unfold ttl_units, unit_names, ttl_as_days, ttl_as_hours, ttl_as_minutes, ttl_as_secs, as_u16.
  repeat constructor; try by_decide; cbn [fst]; first [apply Z.div_pos; [apply Z.mod_pos_bound; lia|lia]|apply Z.mod_pos_bound; lia].
Qed.

Lemma pretty_comment_writes name t : ttl_ok t -> Forall (fun ch => ch <> 10) (ascii_chars name) -> Writes (W:=W) (pretty_comment name t) [].
Proof.
  intros Ht Hn. apply write_comment_ok. apply Forall_app; split; [done|]. apply Forall_app; split; [by repeat constructor|].
  apply Forall_app; split; [by apply pretty_no_lf|by repeat constructor].
Qed.

Lemma decimal_show_writes table name v :
  is_u8 v -> Forall (fun ch => ch <> 10) (ascii_chars name) -> Forall (fun e => Forall (fun ch => ch <> 10) e.2) table ->
  Writes (W:=W) (decimal_zonefile_fmt table name v) [word (fmt_dec v)].
Proof.
  intros Hv Hn Ht. unfold decimal_zonefile_fmt, is_u8 in *. apply then_token; [apply dec_writes; lia|].
  assert (Hm : forall m, to_mnemonic_str table v = Some m -> Forall (fun ch => ch <> 10) m).
  { induction Ht as [|[x m'] table Hm' _ IH]; intros m; cbn; [done|]. destruct (x =? v); [by intros [= <-]|apply IH]. }
  destruct (to_mnemonic_str table v) as [m|]; apply write_comment_ok; [|done].
  apply Forall_app; split; [done|]. by repeat constructor; try done; apply Hm.
Qed.

Lemma ttl_show_writes t : ttl_ok t -> Writes (W:=W) (ttl_show t) [word (fmt_dec (ttl_as_secs t))].
Proof. unfold ttl_ok, is_u32. intros Ht. apply dec_writes. unfold ttl_as_secs. lia. Qed.

Lemma serial_writes s : is_u32 (serial_into_int s) -> Writes (W:=W) (write_token (serial_fmt s)) [word (serial_fmt s)].
Proof. unfold is_u32. intros Hs. apply dec_writes. lia. Qed.

Lemma rtype_show_writes v : is_u16 v -> Writes (W:=W) (rtype_show v) [word (rtype_fmt v)].
Proof.
  intros Hv. destruct (rtype_fmt_plain v Hv) as [Hp Hn]. pose proof (word_writes (W:=W) _ Hn Hp) as Hw.
  unfold rtype_show, prefix_zonefile_fmt, rtype_fmt, prefix_fmt in *. by destruct (to_mnemonic_str rtype_mnemonics v).
Qed.

Lemma class_show_writes v : is_u16 v -> Writes (W:=W) (class_show v) [word (class_fmt v)].
Proof.
  intros Hv. destruct (class_fmt_plain v Hv) as [Hp Hn]. pose proof (word_writes (W:=W) _ Hn Hp) as Hw.
  unfold class_show, prefix_zonefile_fmt, class_fmt, prefix_fmt in *. by destruct (to_mnemonic_str class_mnemonics v).
Qed.

Lemma encodes_writes {C} `{ConvertSymbols C} display (c : C) s chars :
  encodes display c s chars -> s <> [] -> Writes (W:=W) (write_display display) [word chars].
Proof. intros (-> & _ & Hp & Hl) Hn. apply word_writes; [|done]. destruct chars; [|done]. destruct s; [done|cbn in Hl; lia]. Qed.

(** ** Record data, type by type *)

(** A value that is written as tokens that are scanned as a value, all of the rest of
    the entry; the loop of the scan function takes at most [fuel] rounds. *)
Definition Round {A} (show : fmt_to W) (scan : nat -> Zonefile -> outcome (Zonefile * result A EntryError)) (a : A) : Prop :=
  exists toks, Writes show toks /\ unmarked toks /\ forall fuel, (length toks <= fuel)%nat -> ScansLast (scan fuel) toks a.

(** Writes the tokens and comments of a list. *)
Ltac write_step :=
  lazymatch goal with
  | |- Writes (ZonefileFmt.block _) _ => apply block_ok
  | |- Writes (fmt_then (comment _) _) _ => apply then_comment; [apply comment_writes; by_decide|]
  | |- Writes (fmt_then (pretty_comment _ _) _) _ => apply then_comment; [apply pretty_comment_writes; [done|by_decide]|]
  | |- Writes (comment _) _ => apply comment_writes; by_decide
  | |- Writes (pretty_comment _ _) _ => apply pretty_comment_writes; [done|by_decide]
  | |- Writes (fmt_then (name_token _) _) _ => eapply then_token; [by eapply name_writes|]
  | |- Writes (fmt_then (write_token (fmt_dec _)) _) _ => eapply then_token; [apply dec_writes; lia|]
  | |- Writes (fmt_then (write_token (serial_fmt _)) _) _ => eapply then_token; [by apply serial_writes|]
  | |- Writes (fmt_then (ttl_show _) _) _ => eapply then_token; [by apply ttl_show_writes|]
  | |- Writes (fmt_then (timestamp_show _) _) _ => eapply then_token; [by apply serial_writes|]
  | |- Writes (fmt_then (rtype_show _) _) _ => eapply then_token; [by apply rtype_show_writes|]
  | |- Writes (fmt_then (secalg_show _) _) _ => eapply then_token; [apply decimal_show_writes; [done|by_decide..]|]
  | |- Writes (fmt_then (digestalg_show _) _) _ => eapply then_token; [apply decimal_show_writes; [done|by_decide..]|]
  | |- Writes (fmt_then (nsec3hash_show _) _) _ => eapply then_token; [apply decimal_show_writes; [done|by_decide..]|]
  | |- Writes (name_token _) _ => by eapply name_writes
  | He : encodes ?d _ _ _ |- Writes (write_display ?d) _ => by apply (encodes_writes _ _ _ _ He)
  end.

(** Scans them. *)
Ltac scan_step :=
  lazymatch goal with
  | |- ScansLast (fun z => scan_then (s_scan_name z) _) _ _ => eapply scan_token; [by eapply name_scans|]
  | |- ScansLast (fun z => scan_then (scan_uint _ _ z) _) _ _ => eapply scan_token; [apply scan_uint_scans; lia|]
  | |- ScansLast (fun z => scan_then (ttl_scan _ z) _) _ _ => eapply scan_token; [by apply ttl_scans|]
  | |- ScansLast (fun z => scan_then (scan_then (scan_ttl _ z) _) _) _ _ => eapply (scan_token (ttl_scan oc)); [by apply ttl_scans|]
  | |- ScansLast (fun z => scan_then (serial_scan _ z) _) _ _ => eapply scan_token; [by apply serial_scans|]
  | |- ScansLast (fun z => scan_then (timestamp_scan _ z) _) _ _ => eapply scan_token; [by apply timestamp_scans|]
  | |- ScansLast (fun z => scan_then (rtype_scan z) _) _ _ => eapply scan_token; [by apply rtype_scans|]
  | |- ScansLast (fun z => scan_then (secalg_scan z) _) _ _ => eapply scan_token; [by apply decimal_scans|]
  | |- ScansLast (fun z => scan_then (digestalg_scan z) _) _ _ => eapply scan_token; [by apply decimal_scans|]
  | |- ScansLast (fun z => scan_then (nsec3hash_scan z) _) _ _ => eapply scan_token; [by apply decimal_scans|]
  | |- ScansLast (scan_ok _) _ _ => apply scan_done
  end; cbv beta.

Ltac ints := unfold is_u8, is_u16 in *.

Lemma name_unmarked ls toks : unmarked ((CatUnquoted, name_symbols ls) :: toks).
Proof. pose proof (name_symbols_unmarked ls) as Hu. unfold unmarked. destruct (name_symbols ls); [done|]. by inversion Hu. Qed.

Lemma name_data_round (d : NameData Name) : readable_name (nd_name d) -> Round (name_data_show d) (fun _ => name_data_scan) (mkNameData (scanned (nd_name d))).
Proof.
  intros [ls Hr]. exists [(CatUnquoted, name_symbols ls)]. unfold name_data_show, name_data_scan. split_and!; [write_step|apply name_unmarked|].
  intros _ _. repeat scan_step.
Qed.

Lemma minfo_round (d : Minfo Name) :
  readable_name (mi_rmailbx d) -> readable_name (mi_emailbx d) ->
  Round (minfo_show d) (fun _ => minfo_scan) (mkMinfo (scanned (mi_rmailbx d)) (scanned (mi_emailbx d))).
Proof.
  intros [l1 H1] [l2 H2]. exists [(CatUnquoted, name_symbols l1); (CatUnquoted, name_symbols l2)]. unfold minfo_show, minfo_scan.
  split_and!; [repeat write_step|apply name_unmarked|intros _ _; repeat scan_step].
Qed.

Lemma word_unmarked text toks : unmarked (word text :: toks).
Proof. by destruct text. Qed.

Lemma mx_round (d : Mx Name) :
  is_u16 (mx_preference d) -> readable_name (mx_exchange d) -> Round (mx_show d) (fun _ => mx_scan oc) (mkMx (mx_preference d) (scanned (mx_exchange d))).
Proof.
  intros H1 [ls H2]. exists [word (fmt_dec (mx_preference d)); (CatUnquoted, name_symbols ls)]. unfold mx_show, mx_scan. ints.
  split_and!; [repeat write_step|apply word_unmarked|intros _ _; repeat scan_step].
Qed.

Lemma soa_round (d : Soa Name) :
  readable_name (soa_mname d) -> readable_name (soa_rname d) -> is_u32 (serial_into_int (soa_serial d)) ->
  ttl_ok (soa_refresh d) -> ttl_ok (soa_retry d) -> ttl_ok (soa_expire d) -> ttl_ok (soa_minimum d) ->
  Round (soa_show d) (fun _ => soa_scan oc)
    (mkSoa (scanned (soa_mname d)) (scanned (soa_rname d)) (soa_serial d) (soa_refresh d) (soa_retry d) (soa_expire d) (soa_minimum d)).
Proof.
  intros [l1 H1] [l2 H2] H3 H4 H5 H6 H7. destruct d as [mname rname [serial] refresh retry expire minimum]. cbn [soa_mname soa_rname soa_serial soa_refresh soa_retry soa_expire soa_minimum] in *.
  assert (0 <= serial < 2 ^ 32) by done.
  exists [(CatUnquoted, name_symbols l1); (CatUnquoted, name_symbols l2); word (serial_fmt (mkSerial serial)); word (fmt_dec (ttl_as_secs refresh));
    word (fmt_dec (ttl_as_secs retry)); word (fmt_dec (ttl_as_secs expire)); word (fmt_dec (ttl_as_secs minimum))].
  unfold soa_show, soa_scan. cbn [soa_mname soa_rname soa_serial soa_refresh soa_retry soa_expire soa_minimum]. cbv zeta.
  split_and!; [repeat write_step|apply name_unmarked|intros _ _; change (serial_fmt (mkSerial serial)) with (fmt_dec serial); repeat scan_step].
Qed.

Lemma srv_round (d : Srv Name) :
  is_u16 (srv_priority d) -> is_u16 (srv_weight d) -> is_u16 (srv_port d) -> readable_name (srv_target d) ->
  Round (srv_show d) (fun _ => srv_scan oc) (mkSrv (srv_priority d) (srv_weight d) (srv_port d) (scanned (srv_target d))).
Proof.
  intros H1 H2 H3 [ls H4].
  exists [word (fmt_dec (srv_priority d)); word (fmt_dec (srv_weight d)); word (fmt_dec (srv_port d)); (CatUnquoted, name_symbols ls)].
  unfold srv_show, srv_scan. ints. split_and!; [repeat write_step|apply word_unmarked|intros _ _; repeat scan_step].
Qed.

Lemma dnskey_key_tag_nonneg d : dnskey_ok d -> exists tag, dnskey_key_tag oc d = Ret tag /\ 0 <= tag.
Proof.
  intros Hd. rewrite dnskey_key_tag_value by done. eexists. split; [done|]. destruct Hd as (_ & _ & _ & Hk & _).
  case_match; [|apply Z.mod_pos_bound; lia]. case_match; [|done]. apply Z.div_pos; [|lia]. apply from_be_bytes_nonneg; [by apply list.Forall_drop|done].
Qed.

Lemma convert_last {C A} `{ConvertSymbols C} display (c : C) bytes chars (g : list Z -> Zonefile -> outcome (Zonefile * result A EntryError)) a :
  encodes display c bytes chars -> (forall zf, g bytes zf = Ret (zf, Ok a)) ->
  ScansLast (fun zf => scan_then (s_convert_entry c zf) g) [word chars] a.
Proof. intros He Hg. by eapply scan_then_end; [eapply convert_entry_scans|]. Qed.

Lemma flag_text_no_lf b name : Forall (fun ch => ch <> 10) (ascii_chars name) -> Forall (fun ch => ch <> 10) (flag_text b name).
Proof. intros Hn. by destruct b; [|constructor]. Qed.

Lemma dnskey_round (d : Dnskey) : dnskey_ok d -> dk_public_key d <> [] -> Round (dnskey_show oc d) (fun _ => dnskey_scan oc) d.
Proof.
  intros Hd Hn. destruct (dnskey_key_tag_nonneg d Hd) as (tag & Et & Ht). destruct Hd as (H1 & H2 & H3 & H4 & H5).
  destruct (b64_encodes _ H4) as (chars & He).
  exists [word (fmt_dec (dk_flags d)); word (fmt_dec (dk_protocol d)); word (fmt_dec (dk_algorithm d)); word chars]. split_and!.
  - ints. apply block_ok, then_token; [apply dec_writes; lia|]. apply then_comment.
    { apply write_comment_ok. rewrite !Forall_app. split_and!; [by_decide|..]; apply flag_text_no_lf; by_decide. }
    write_step. write_step. write_step. apply then_done; [write_step|]. intros p w Hw. rewrite Et. apply write_comment_ok; [|done].
    apply Forall_app. split; [by_decide|by apply fmt_dec_no_lf].
  - apply word_unmarked.
  - intros _ _. unfold dnskey_scan, key_scan. ints. do 3 scan_step. eapply convert_last; [done|]. intros zf. unfold dnskey_new, long_data.
    destruct (Z.ltb_spec 65535 (4 + zlen (dk_public_key d))); [lia|]. by destruct d.
Qed.

Lemma cdnskey_round (d : Cdnskey) : dnskey_ok d -> dk_public_key d <> [] -> Round (cdnskey_show d) (fun _ => cdnskey_scan oc) d.
Proof.
  intros (H1 & H2 & H3 & H4 & H5) Hn. destruct (b64_encodes _ H4) as (chars & He).
  exists [word (fmt_dec (dk_flags d)); word (fmt_dec (dk_protocol d)); word (fmt_dec (dk_algorithm d)); word chars].
  unfold cdnskey_show, cdnskey_scan, key_scan. ints. split_and!; [repeat write_step|apply word_unmarked|]. intros _ _.
  do 3 scan_step. eapply convert_last; [done|]. intros zf. unfold cdnskey_new, dnskey_new, long_data.
  destruct (Z.ltb_spec 65535 (4 + zlen (dk_public_key d))); [lia|]. by destruct d.
Qed.

Lemma ds_round (d : Ds) : ds_ok d -> ds_digest d <> [] -> Round (ds_show d) (fun _ => ds_scan oc) d.
Proof.
  intros (H1 & H2 & H3 & H4 & H5) Hn. destruct (hex_encodes _ H4) as (chars & He).
  exists [word (fmt_dec (ds_key_tag d)); word (fmt_dec (ds_algorithm d)); word (fmt_dec (ds_digest_type d)); word chars].
  unfold ds_show, digest_show, ds_scan, digest_scan. ints. split_and!; [repeat write_step|apply word_unmarked|]. intros _ _.
  do 3 scan_step. eapply convert_last; [done|]. intros zf. unfold ds_new, long_data.
  destruct (Z.ltb_spec 65535 (4 + zlen (ds_digest d))); [lia|]. by destruct d.
Qed.

Lemma cds_round (d : Cds) : ds_ok d -> ds_digest d <> [] -> Round (cds_show d) (fun _ => cds_scan oc) d.
Proof. apply ds_round. Qed.

Lemma rrsig_round (d : Rrsig Name) : readable_data (ZoneRrsig d) -> Round (rrsig_show d) (fun _ => rrsig_scan oc unix_time)
  (let p := rs_proto d in mkRrsig (mkProtoRrsig (pr_type_covered p) (pr_algorithm p) (pr_labels p) (pr_original_ttl p) (pr_expiration p) (pr_inception p)
     (pr_key_tag p) (scanned (pr_signer_name p))) (rs_signature d)).
Proof.
  destruct d as [p sig]. cbn [readable_data rs_proto rs_signature]. intros (H1 & H2 & H3 & H4 & H5 & H6 & H7 & [ls H8] & H9 & H10 & H11).
  destruct (b64_encodes _ H9) as (chars & He).
  exists [word (rtype_fmt (pr_type_covered p)); word (fmt_dec (pr_algorithm p)); word (fmt_dec (pr_labels p)); word (fmt_dec (ttl_as_secs (pr_original_ttl p)));
    word (serial_fmt (ts_serial (pr_expiration p))); word (serial_fmt (ts_serial (pr_inception p))); word (fmt_dec (pr_key_tag p));
    (CatUnquoted, name_symbols ls); word chars].
  unfold rrsig_show, rrsig_scan. cbn [rs_proto rs_signature]. ints. split_and!; [repeat write_step|apply word_unmarked|]. intros _ _.
  do 8 scan_step. eapply convert_last; [done|]. intros zf. unfold rrsig_new, long_data. cbn [pr_signer_name].
  destruct (scanned_denotes _ _ H8) as (_ & -> & _). destruct H8 as [(_ & E & Hl) _]. rewrite <- E. unfold Rdata.u16_add, NAME_MAX_LEN, zlen in *.
  destruct (Z.ltb_spec (18 + Z.of_nat (length (name_octets (pr_signer_name p)))) (2 ^ 16)); [|lia].
  destruct (Z.ltb_spec 65535 (18 + Z.of_nat (length (name_octets (pr_signer_name p))) + Z.of_nat (length sig))); [lia|done].
Qed.

(** *** Addresses and strings *)

Lemma addr_round {T} (from_str : list Z -> option T) expected text (d : T) :
  plain text -> text <> [] -> from_str text = Some d -> Round (write_token text) (fun _ => addr_scan from_str expected) d.
Proof.
  intros Hp Hn Hd. exists [word text]. split_and!; [by apply word_writes|apply word_unmarked|]. intros _ _. unfold addr_scan.
  eapply scan_then_end; [by apply Scans_last, scan_octets_scans|]. intros zf. cbv beta. by rewrite from_utf8_plain, Hd.
Qed.

Lemma a_round (d : A) : a_ok d -> Round (a_show d) (fun _ => a_scan) d.
Proof.
  intros [Hl Hw]. destruct d as [addr]. cbn in Hl, Hw. destruct (ipv4_fmt_plain addr Hw) as [H1 H2]; [by intros ->|].
  apply addr_round; [done|done|]. by rewrite ipv4_text_roundtrip.
Qed.

Lemma aaaa_round (d : Aaaa) : aaaa_ok d -> Round (aaaa_show d) (fun _ => aaaa_scan) d.
Proof.
  intros [Hl Hw]. destruct d as [addr]. cbn in Hl, Hw. destruct (ipv6_fmt_plain addr Hw Hl) as [H1 H2].
  apply addr_round; [done|done|]. by rewrite ipv6_text_roundtrip.
Qed.

Definition quoted (s : CharStr) : tok := (CatQuoted, map symbol_quoted_from_octet (cs_octets s)).

Lemma quoted_writes s : cs_wf s -> Writes (W:=W) (write_token (cs_fmt_quoted s)) [quoted s].
Proof. intros Hs. apply write_token_ok. by apply cs_fmt_quoted_lexes. Qed.

Lemma charstr_scans s : cs_wf s -> stopping s -> Scans s_scan_charstr [quoted s] s.
Proof.
  intros Hs Hst. apply on_buf_scans. intros sb more rest Ha H0. unfold sb_scan_charstr.
  destruct (scan_octets_tokens sb _ _ _ _ (cs_octets s) Ha) as (sb' & -> & Ha' & H0').
  - intros _. apply Exists_exists in Hst as (o & Ho & Hp). apply Exists_exists. exists (symbol_quoted_from_octet o).
    split; [by apply list_elem_of_fmap_2|]. intros ch. unfold symbol_quoted_from_octet.
    repeat case_match; try done. intros [= <-]. unfold is_printable in *. breflect. assert (o = 32) as -> by lia. done.
  - apply quoted_octet_stands, Hs.
  - exists sb'. cbn [scan_then]. split_and!; try done. destruct s as [os]. destruct Hs as [Hl _]. unfold cs_from_octets, cs_check_slice, cs_len in *. cbn [cs_octets] in *.
    destruct (Nat.ltb_spec CHARSTR_MAX_LEN (length os)); [lia|done].
Qed.

Lemma hinfo_round (d : Hinfo) : hinfo_ok d -> stopping (hi_cpu d) -> stopping (hi_os d) -> Round (hinfo_show d) (fun _ => hinfo_scan) d.
Proof.
  intros [H1 H2] S1 S2. exists [quoted (hi_cpu d); quoted (hi_os d)]. unfold hinfo_show, hinfo_scan. split_and!; [|done|].
  - apply block_ok, then_token; [by apply quoted_writes|]. write_step. apply then_token; [by apply quoted_writes|]. write_step.
  - intros _ _. do 2 (eapply scan_token; [by apply charstr_scans|]; cbv beta). destruct d. apply scan_done.
Qed.

Lemma each_token_writes {T} (fmt : T -> list Z) (items : list T) (t : T -> tok) :
  Forall (fun item => Writes (W:=W) (write_token (fmt item)) [t item]) items -> Writes (W:=W) (each_token fmt items) (map t items).
Proof. induction 1; cbn; [apply done_writes|by apply then_token]. Qed.

Lemma txt_round {P} `{OctetsParserOk P} `{!OctetsParserRef P} `{!OctetsParserRefOk P} (d : Txt) strs : txt_is d strs -> Round (txt_show (P:=P) d) (fun _ => txt_scan) d.
Proof.
  intros (E & Hw & Hn & Hl). exists (map quoted strs). split_and!.
  - apply block_ok. intros p w Hp. rewrite (txt_iter_spec d strs E). apply each_token_writes; [|done].
    eapply Forall_impl; [exact Hw|]. apply quoted_writes.
  - by destruct strs.
  - intros _ _. unfold txt_scan. eapply (scan_then_end _ _ _ (txt_octets d)); [|by destruct d]. apply on_buf_last. intros sb rest Ha Hst.
    destruct (scan_charstr_entry_tokens sb (map quoted strs) rest (map cs_octets strs) Ha Hst) as (sb' & E' & Ha' & Hst').
    + by destruct strs.
    + clear -Hw. induction Hw as [|s strs [Hl Hs] _ IH]; constructor; [|done]. split; [by apply quoted_octet_stands|exact Hl].
    + exists sb'. rewrite E', E. split_and!; try done. unfold txt_wire, labels_wire. rewrite map_map. done.
Qed.

(** *** Bitmaps *)

Definition type_words (ts : list Z) : list tok := map (fun t => word (rtype_fmt t)) ts.

Lemma bitmap_loop_scans ts : forall (rb rb' : RtypeBitmapBuilder (list Z)) fuel,
  Forall is_u16 ts -> rb_add_all ts rb = Ret (rb', true) -> (length ts < fuel)%nat ->
  ScansLast (fun zf => bitmap_scan_loop fuel zf rb) (type_words ts) rb'.
Proof.
  induction ts as [|t ts IH]; intros rb rb' fuel Hts Hadd Hf zf rest Ht; (destruct fuel as [|fuel]; [lia|]); cbn [bitmap_scan_loop].
  - assert (s_continues zf = false) as ->.
    { destruct Ht as [(_ & Hc & _) _]. cbn. unfold zf_continues. by rewrite Hc. }
    injection Hadd as <-. exists zf. split_and!; [done|done|by destruct zf].
  - assert (s_continues zf = true) as ->.
    { destruct Ht as [(_ & Hc & _) _]. cbn. unfold zf_continues. by rewrite Hc. }
    apply Forall_cons in Hts as [Hu Hts]. cbn [rb_add_all] in Hadd. destruct (rb_add t rb) as [[rb1 ok]|] eqn:Er; [|done]. destruct ok; [|done].
    destruct (rtype_scans oc t Hu zf (type_words ts) rest Ht) as (zf1 & E1 & Ht1 & S1). unfold scanner. unfold ScanTokens.scanner in E1.
    rewrite E1. cbn [scan_then]. rewrite Er.
    destruct (IH rb1 rb' fuel Hts Hadd ltac:(cbn in Hf; lia) zf1 rest Ht1) as (zf2 & E2 & Ht2 & S2). exists zf2. split_and!; [done|done|].
    by eapply same_file_trans.
Qed.

Lemma bitmap_scans b ts rb fuel :
  Forall is_u16 ts -> rb_add_all (B:=list Z) ts rb_new = Ret (rb, true) -> rb_finalize rb = Ret b -> (length ts < fuel)%nat ->
  ScansLast (bitmap_scan (B:=list Z) fuel) (type_words ts) b.
Proof.
  intros Hts Hadd Hfin Hf. unfold bitmap_scan. eapply scan_then_end; [by apply bitmap_loop_scans|]. intros zf. cbv beta. by rewrite Hfin.
Qed.

Lemma bitmap_writes b ts : bitmap_iter b = Ret ts -> Forall is_u16 ts -> Writes (W:=W) (bitmap_show b) (type_words ts).
Proof.
  intros Hi Hts p w Hw. unfold bitmap_show. rewrite Hi. apply each_token_writes; [|done]. eapply Forall_impl; [exact Hts|].
  intros t Ht. by apply word_writes; apply rtype_fmt_plain.
Qed.

Lemma nsec_round (d : Nsec Name) :
  readable_name (ns_next_name d) -> canonical_bitmap (ns_types d) ->
  Round (nsec_show d) (fun fuel => nsec_scan (B:=list Z) fuel) (mkNsec (scanned (ns_next_name d)) (ns_types d)).
Proof.
  intros [ls Hr] (ts & rb & Hi & Hts & Hadd & Hfin). exists ((CatUnquoted, name_symbols ls) :: type_words ts). unfold nsec_show, nsec_scan. split_and!.
  - write_step. write_step. by apply bitmap_writes.
  - apply name_unmarked.
  - intros fuel Hf. unfold type_words in Hf. cbn [length] in Hf. rewrite length_map in Hf. scan_step.
    eapply scan_then_end; [by eapply bitmap_scans; try done; lia|done].
Qed.

(** *** NSEC3 *)

Lemma salt_encodes s : wf_octets (salt_octets s) -> exists chars, encodes (salt_fmt s) (None : SaltConverter) (salt_octets s) chars /\ chars <> [].
Proof.
  intros Hs. destruct (salt_text_roundtrip (B:=list Z) s Hs) as (chars & Ef & Es & Hc). exists chars.
  assert (Hsc : salt_scan (H:=iter_scanner (B:=list Z) true) [chars] = Ret ([], Ok s)) by (eapply same_value_iff; [by apply nsec3_text_agrees|done]).
  unfold salt_scan in Hsc. cbn [s_convert_token iter_scanner] in Hsc. unfold convert_token in Hsc. cbn [with_token] in Hsc. rewrite plain_token in Hsc by done.
  assert (plain chars /\ chars <> [] /\ (length (salt_octets s) <= length chars)%nat) as (Hp & Hn & Hl).
  { unfold salt_fmt in Ef. case_bool_decide as Hd; [injection Ef as <-; rewrite Hd; split_and!; [by_decide|done|cbn; lia]|].
    apply (hex_display_plain _ _ Hs) in Ef as [Hp Hl]. split_and!; [done| |done]. destruct chars; [|done]. destruct (salt_octets s); [done|cbn in Hl; lia]. }
  split; [|done]. split_and!; [done| |done|done].
  destruct (convert_symbols (B:=list Z) (map ESymbol (map Char chars)) (None : SaltConverter)) as [[o|e]|]; try done.
  cbn in Hsc. by injection Hsc as <-.
Qed.

Lemma salt_writes s chars : counted_ok (salt_octets s) -> encodes (salt_fmt s) (None : SaltConverter) (salt_octets s) chars -> chars <> [] ->
  Writes (W:=W) (salt_show s) [word chars].
Proof.
  intros [Hc _] (Ef & _ & Hp & _) Hn. apply block_ok, then_token.
  - unfold salt_fmt in Ef. case_bool_decide; [injection Ef as <-|]; [by apply word_writes|]. by apply display_writes.
  - intros p w Hw. unfold salt_len, len_u8. unfold cs_len, CHARSTR_MAX_LEN in Hc. cbn in Hc. unfold zlen.
    destruct (Z.ltb_spec (Z.of_nat (length (salt_octets s))) (2 ^ 8)); [|lia]. apply write_comment_ok; [|done].
    rewrite !Forall_app. split_and!; [by_decide|apply fmt_dec_no_lf; lia|by_decide].
Qed.

Lemma salt_scans s chars : encodes (salt_fmt s) (None : SaltConverter) (salt_octets s) chars -> Scans salt_scan [word chars] s.
Proof.
  intros He. unfold salt_scan. apply (scan_then_scans _ _ [_] [] (salt_octets s)); [by eapply convert_token_scans|]. destruct s. apply scans_ok.
Qed.

Lemma hash_scans h chars : encodes (b32_display (hash_octets h)) b32_converter_new (hash_octets h) chars -> Scans hash_scan [word chars] h.
Proof.
  intros He. unfold hash_scan. apply (scan_then_scans _ _ [_] [] (hash_octets h)); [by eapply convert_token_scans|]. destruct h. apply scans_ok.
Qed.

Lemma nsec3param_round (d : Nsec3param) : nsec3param_ok d -> Round (nsec3param_show d) (fun _ => nsec3param_scan oc) d.
Proof.
  intros (H1 & H2 & H3 & H4). destruct (salt_encodes (np_salt d)) as (chars & He & Hn); [apply H4|].
  exists [word (fmt_dec (np_hash_algorithm d)); word (fmt_dec (np_flags d)); word (fmt_dec (np_iterations d)); word chars].
  unfold nsec3param_show, nsec3param_scan. ints. split_and!; [repeat write_step; by apply salt_writes|apply word_unmarked|].
  intros _ _. do 3 scan_step. eapply scan_token; [by apply salt_scans|]. destruct d. apply scan_done.
Qed.

Lemma nsec3_round (d : Nsec3) : readable_data (ZoneNsec3 d) -> Round (nsec3_show d) (fun fuel => nsec3_scan (B:=list Z) oc fuel) d.
Proof.
  intros (H1 & H2 & H3 & H4 & H5 & H6 & ts & rb & Hi & Hts & Hadd & Hfin). destruct (salt_encodes (n3_salt d)) as (chars & He & Hn); [apply H4|].
  destruct (b32_encodes _ H5) as (hash & Hh).
  exists (word (fmt_dec (n3_hash_algorithm d)) :: word (fmt_dec (n3_flags d)) :: word (fmt_dec (n3_iterations d)) :: word chars :: word hash :: type_words ts).
  unfold nsec3_show, nsec3_scan. ints. split_and!.
  - write_step. write_step. write_step. apply then_comment; [by case_match; apply comment_writes; by_decide|]. write_step. write_step.
    apply then_token; [by apply salt_writes|]. apply then_token; [by apply (encodes_writes _ _ _ _ Hh)|]. by apply bitmap_writes.
  - apply word_unmarked.
  - intros fuel Hf. unfold type_words in Hf. cbn [length] in Hf. rewrite length_map in Hf. do 3 scan_step. eapply scan_token; [by apply salt_scans|]. cbv beta.
    eapply scan_token; [by apply hash_scans|]. cbv beta. eapply scan_then_end; [by eapply bitmap_scans; try done; lia|]. by destruct d.
Qed.

(** *** ZONEMD *)

Lemma scheme_u8 c : is_u8 c -> 0 <= scheme_into_u8 (scheme_from_u8 c) < 256 /\ scheme_from_u8 (scheme_into_u8 (scheme_from_u8 c)) = scheme_from_u8 c.
Proof. revert c. by_octets. Qed.

Lemma algorithm_u8 c : is_u8 c -> 0 <= algorithm_into_u8 (algorithm_from_u8 c) < 256 /\ algorithm_from_u8 (algorithm_into_u8 (algorithm_from_u8 c)) = algorithm_from_u8 c.
Proof. revert c. by_octets. Qed.

Lemma zonemd_round (d : Zonemd) : zonemd_ok d -> Round (zonemd_show d) (fun _ => zonemd_scan oc) d.
Proof.
  destruct d as [serial sch alg digest]. intros (H1 & (c & Hc & Ec) & (a & Ha & Ea) & H4 & H5 & H6). cbn in H1, Ec, Ea, H4, H5, H6.
  destruct (scheme_u8 c Hc) as [Hc1 Hc2], (algorithm_u8 a Ha) as [Ha1 Ha2]. rewrite <- Ec in *. rewrite <- Ea in *.
  destruct (hex_encodes _ H4) as (chars & He).
  exists [word (serial_fmt serial); word (fmt_dec (scheme_into_u8 sch)); word (fmt_dec (algorithm_into_u8 alg)); word chars].
  unfold zonemd_show, zonemd_scan. cbn [zm_serial zm_scheme zm_algo zm_digest]. split_and!; [|apply word_unmarked|].
  - repeat first [progress write_step|apply then_comment; [by destruct sch; apply comment_writes; by_decide|]|apply then_comment; [by destruct alg; apply comment_writes; by_decide|]].
    all: apply (encodes_writes _ _ _ _ He); intros ->; unfold DIGEST_MIN_LEN in *; cbn in *; lia.
  - intros _ _. do 3 scan_step. eapply convert_last; [done|]. intros zf. by rewrite Hc2, Ha2.
Qed.

(** *** Unknown data *)

Definition marker : tok := (CatUnquoted, [SimpleEscape 35]).

Lemma fmt_02x_word o : is_u8 o -> fmt_02x o <> [] /\ plain (fmt_02x o).
Proof.
  intros Ho. split; [done|]. assert (forall d, 0 <= d < 16 -> plain_char (lower_hex_digit d) = true) as Hd.
  { intros d Hd. apply plain_char_spec. unfold lower_hex_digit. case_match; lia. }
  unfold is_u8 in Ho. repeat constructor; apply Hd; [split; [apply Z.div_pos|apply Z.div_lt_upper_bound]; lia|apply Z.mod_pos_bound; lia].
Qed.

Lemma octet_words_lex data text toks : wf_octets data -> Lexes text toks ->
  Lexes (text ++ concat (map (fun ch => 32 :: fmt_02x ch) data)) (toks ++ map (fun ch => word (fmt_02x ch)) data).
Proof.
  intros Hd. revert text toks. induction Hd as [|o data Ho _ IH]; intros text toks Ht; cbn [map concat]; [by rewrite !app_nil_r|].
  replace (text ++ (32 :: fmt_02x o) ++ concat (map (fun ch => 32 :: fmt_02x ch) data)) with ((text ++ 32 :: fmt_02x o) ++ concat (map (fun ch => 32 :: fmt_02x ch) data))
    by (rewrite <- !app_assoc; done).
  replace (toks ++ word (fmt_02x o) :: map (fun ch => word (fmt_02x ch)) data) with ((toks ++ [word (fmt_02x o)]) ++ map (fun ch => word (fmt_02x ch)) data)
    by (rewrite <- app_assoc; done).
  apply IH. apply words_lexes; [done|]. by apply plain_lexes; apply fmt_02x_word.
Qed.

Lemma unknown_fmt_lexes d : wf_octets (unknown_data d) -> zlen (unknown_data d) < 2 ^ 16 ->
  Lexes (unknown_fmt d) (marker :: word (fmt_dec (zlen (unknown_data d))) :: map (fun ch => word (fmt_02x ch)) (unknown_data d)).
Proof.
  intros Hd Hl p t Ht. unfold unknown_fmt. change (UNKNOWN_MARKER ++ ?x) with (92 :: 35 :: x). cbn [app].
  assert (HL : Lexes (fmt_dec (zlen (unknown_data d)) ++ concat (map (fun ch => 32 :: fmt_02x ch) (unknown_data d)))
    ([word (fmt_dec (zlen (unknown_data d)))] ++ map (fun ch => word (fmt_02x ch)) (unknown_data d))).
  { apply octet_words_lex; [done|]. destruct (fmt_dec_plain (zlen (unknown_data d))) as [H1 H2]; [unfold zlen in *; lia|]. by apply plain_lexes. }
  eapply (Lex_tok _ _ CatUnquoted _ [SimpleEscape 35]); [by constructor| | |apply Lex_space; by apply HL].
  - eapply Token_symbol; [done|done|]. by constructor.
  - intros _ _. by left.
Qed.

Lemma unknown_round (d : UnknownRecordData) :
  wf_octets (unknown_data d) -> 0 < zlen (unknown_data d) < 2 ^ 16 ->
  exists toks, Writes (W:=W) (unknown_show d) (marker :: toks) /\ ScansLast (unknown_scan_without_marker oc (unknown_rtype d)) toks d.
Proof.
  intros Hd Hl. exists (word (fmt_dec (zlen (unknown_data d))) :: map (fun ch => word (fmt_02x ch)) (unknown_data d)).
  split; [apply write_token_ok; apply unknown_fmt_lexes; [done|lia]|]. unfold unknown_scan_without_marker. scan_step.
  assert (Hsym : toks_symbols (map (fun ch => word (fmt_02x ch)) (unknown_data d)) = plain_symbols (concat (map fmt_02x (unknown_data d)))).
  { unfold toks_symbols, plain_symbols. rewrite map_map. cbn [snd word]. rewrite concat_map, map_map. f_equal. }
  assert (Hlen : (length (unknown_data d) <= length (toks_symbols (map (fun ch => word (fmt_02x ch)) (unknown_data d))))%nat).
  { rewrite Hsym. unfold plain_symbols. rewrite length_map. clear. induction (unknown_data d); cbn in *; lia. }
  eapply scan_then_end.
  - apply on_buf_last. intros sb rest Ha H0. eapply convert_entry_tokens; [exact Ha|intros E; apply map_eq_nil in E; rewrite E in Hl; unfold zlen in Hl; cbn in Hl; lia|by apply Forall_map, Forall_forall| |exact Hlen].
    rewrite Hsym. destruct (fmt_02x_octets _ Hd) as [Hb Ho]. eapply same_octets_ok; [apply hex_agrees|].
    unfold hex_decode, hex_new. rewrite hex_loop_spec, as_ref_empty, Hb. by rewrite Ho.
  - intros zf. cbv beta. rewrite Z.eqb_refl. by destruct d.
Qed.
End Texts.
