(* ===== verification/ZoneEntries.v ===== *)
(** * Reading back a written zone file

    The record data of all types together, the records with owner, TTL and class,
    and a file of records. *)

From S2P Require Import Prelude Octets Serial Symbol BaseCodec CharStr Label Traits Name NameBuilder Chain ParsedName Header Compressor MessageBuilder Message Record Scanner Iana IpText Ttl Layout Rdata Bitmap Txt Dnssec Nsec3 ZoneData Flatten ScanData SourceBuf Lex Inplace EntryTokens ZonefileFmt ZoneText ScanTokens ZoneRoundtrip.
From stdpp Require Import strings.
#[local] Open Scope Z_scope.

(** A class is not taken for a record type. *)
Lemma class_not_rtype v : is_u16 v -> rtype_from_str (class_fmt v) = None.
Proof.
  intros _. unfold class_fmt, prefix_fmt. cbn [to_mnemonic_str class_mnemonics mn].
  destruct (1 =? v); [by vm_compute|]. destruct (3 =? v); [by vm_compute|]. destruct (4 =? v); [by vm_compute|].
  destruct (0xFE =? v); [by vm_compute|]. destruct (0xFF =? v); [by vm_compute|]. unfold rtype_from_str, prefix_from_str.
  destruct (from_mnemonic rtype_mnemonics _) as [x|] eqn:E.
  - exfalso. apply from_mnemonic_in in E as (m & Hin & Hm). apply eq_ignore_case_app in Hm.
    assert (Hall : Forall (fun e => eq_ignore_ascii_case (ascii_chars "CLASS") (take 5 e.2) = false) rtype_mnemonics) by by_decide.
    rewrite Forall_forall in Hall. specialize (Hall _ Hin). cbn [snd] in Hall. change (length (ascii_chars "CLASS")) with 5%nat in Hm. congruence.
  - case_match; [|done]. done.
Qed.

Section Entries.
Context {W : Type} `{FormatWriter W} `{!WriterView W} `{!FormatWriterOk W}.
Context {P : Type} `{OctetsParserOk P} `{!OctetsParserRef P} `{!OctetsParserRefOk P}.
Context (oc : bool) (unix_time : Z -> Z -> Z -> Z -> Z -> Z -> option Z).
#[local] Existing Instance entry_scanner | 0.
#[local] Instance scanner : Scanner Zonefile ScannedDname := entry_scanner oc.

(** ** Record data of all types *)

Lemma scan_arm_scans {D} (variant : D -> ZoneRecordData ScannedDname) (scan : Zonefile -> outcome (Zonefile * result D EntryError)) toks d :
  ScansLast scan toks d -> ScansLast (scan_arm variant scan) toks (variant d).
Proof. intros Hs zf rest Ht. destruct (Hs zf rest Ht) as (zf' & E & Ht' & S'). exists zf'. unfold scan_arm. by rewrite E. Qed.

Definition DataRound (d : ZoneRecordData Name) : Prop :=
  exists toks, Writes (zone_show (W:=W) (P:=P) oc d) toks /\
  forall fuel, (length toks <= fuel)%nat -> ScansLast (zone_scan (B:=list Z) oc unix_time fuel (zone_rtype d)) toks (zone_map scanned d).

Lemma known_round {D} (d : ZoneRecordData Name) (variant : D -> ZoneRecordData ScannedDname) (scan : nat -> Zonefile -> outcome (Zonefile * result D EntryError)) a :
  Round (zone_show (W:=W) (P:=P) oc d) scan a -> zone_map scanned d = variant a ->
  (forall fuel, zone_scan_known (B:=list Z) oc unix_time fuel (zone_rtype d) = scan_arm variant (scan fuel)) -> DataRound d.
Proof.
  intros (toks & Hw & Hu & Hs) Hm Hk. exists toks. split; [done|]. intros fuel Hf zf rest Ht. unfold zone_scan.
  cbn [s_scan_opt_unknown_marker scanner entry_scanner]. unfold on_buf. rewrite (marker_absent _ toks rest (proj1 Ht) Hu). cbn [scan_then].
  rewrite Hk, Hm. assert (zf_with_buf (zf_buf zf) zf = zf) as -> by by destruct zf. exact (scan_arm_scans variant _ _ _ (Hs fuel Hf) zf rest Ht).
Qed.

Lemma unknown_data_round (d : UnknownRecordData) : readable_data (ZoneUnknown d) -> DataRound (ZoneUnknown d).
Proof.
  intros [Hd Hl]. destruct (unknown_round (W:=W) oc d Hd Hl) as (toks & Hw & Hs). exists (marker :: toks). split; [done|]. intros fuel _ zf rest [Ha _].
  unfold zone_scan. destruct (marker_present _ _ _ Ha) as (sb' & E & Ha' & H0'). cbn [s_scan_opt_unknown_marker scanner entry_scanner]. unfold on_buf. rewrite E.
  cbn [scan_then]. destruct (scan_arm_scans ZoneUnknown _ _ _ Hs (zf_with_buf sb' zf) rest) as (zf2 & E2 & Ht2 & S2); [done|].
  exists zf2. split_and!; [exact E2|done|]. unfold same_file in *. rewrite S2. done.
Qed.

Lemma data_round d : readable_data d -> DataRound d.
Proof.
  destruct d; intros Hr; try (by eapply known_round; [by apply (name_data_round oc)|done|done]); try (by apply unknown_data_round); cbn [readable_data] in Hr.
  - by eapply known_round; [by apply (a_round oc)|done|done].
  - destruct Hr as (R1 & R2 & R3). by eapply known_round; [by apply (hinfo_round oc)|done|done].
  - destruct Hr. by eapply known_round; [by apply (minfo_round oc)|done|done].
  - destruct Hr. by eapply known_round; [by apply (mx_round oc)|done|done].
  - destruct Hr as (R1 & R2 & R3 & R4 & R5 & R6 & R7). by eapply known_round; [by apply (soa_round oc)|done|done].
  - destruct Hr as (strs & Hr). by eapply known_round; [by eapply (txt_round oc)|done|done].
  - by eapply known_round; [by apply (aaaa_round oc)|done|done].
  - destruct Hr. by eapply known_round; [by apply (cdnskey_round oc)|done|done].
  - destruct Hr. by eapply known_round; [by apply (cds_round oc)|done|done].
  - destruct Hr. by eapply known_round; [by apply (dnskey_round oc)|done|done].
  - by eapply known_round; [by apply (rrsig_round oc unix_time)|done|done].
  - destruct Hr. by eapply known_round; [by apply (nsec_round oc)|done|done].
  - destruct Hr. by eapply known_round; [by apply (ds_round oc)|done|done].
  - by eapply known_round; [by apply (nsec3_round oc)|done|done].
  - by eapply known_round; [by apply (nsec3param_round oc)|done|done].
  - destruct Hr as (R1 & R2 & R3 & R4). by eapply known_round; [by apply (srv_round oc)|done|done].
  - by eapply known_round; [by apply (zonemd_round oc)|done|done].
Qed.

(** ** Records *)

(** The owner name does not look like a control entry. *)
Definition owner_labels (n : Name) (ls : list (list Z)) : Prop :=
  readable n ls /\ match ls with (ch :: _) :: _ => ch <> 36 | _ => True end.

Definition readable_record (r : ResourceRecord Name (ZoneRecordData Name)) : Prop :=
  (exists ls, owner_labels (rr_owner r) ls) /\ is_u16 (rr_class r) /\ is_u32 (rr_ttl r) /\ is_u16 (zone_rtype (rr_data r)) /\ readable_data (rr_data r).

Definition scanned_record (r : ResourceRecord Name (ZoneRecordData Name)) : ScannedRecord :=
  mkRR (scanned (rr_owner r)) (rr_class r) (rr_ttl r) (zone_map scanned (rr_data r)).

Definition record_tokens (r : ResourceRecord Name (ZoneRecordData Name)) (ls : list (list Z)) (toks : list tok) : list tok :=
  (CatUnquoted, name_symbols ls) :: word (fmt_dec (rr_ttl r)) :: word (class_fmt (rr_class r)) :: word (rtype_fmt (zone_rtype (rr_data r))) :: toks.

Lemma record_writes r ls toks w :
  readable (rr_owner r) ls -> is_u16 (rr_class r) -> is_u32 (rr_ttl r) -> is_u16 (zone_rtype (rr_data r)) ->
  Writes (zone_show (W:=W) (P:=P) oc (rr_data r)) toks -> w_first w = true -> w_depth 0 w ->
  exists w' o, record_show (P:=P) oc r w = Ret w' /\ w_text w' = w_text w ++ concat (map symbol_fmt (name_symbols ls)) ++ o /\
    forall rest, Lex 0 (concat (map symbol_fmt (name_symbols ls)) ++ o ++ 10 :: rest) (record_tokens r ls toks) 0 (10 :: rest).
Proof.
  intros Ho Hc Ht Hr Hw Hf Hd. set (w1 := fmt_token (concat (map symbol_fmt (name_symbols ls))) w).
  destruct (first_token_ok (concat (map symbol_fmt (name_symbols ls))) w Hf) as [Et1 Hd1]. fold w1 in Et1, Hd1.
  set (tail := (ttl_show (mkTtl (rr_ttl r));; class_show (rr_class r);; rtype_show (zone_rtype (rr_data r));; zone_show (P:=P) oc (rr_data r))%fmt).
  assert (Htail : Writes (W:=W) tail (word (fmt_dec (rr_ttl r)) :: word (class_fmt (rr_class r)) :: word (rtype_fmt (zone_rtype (rr_data r))) :: toks)).
  { apply then_token; [by apply ttl_show_writes|]. apply then_token; [by apply class_show_writes|]. apply then_token; [by apply rtype_show_writes|done]. }
  assert (Hrec : Writes (W:=W) (record_show (P:=P) oc r) (record_tokens r ls toks)) by (apply then_token; [by apply name_writes|done]).
  destruct (Hrec 0%nat w Hd) as (w' & E & _ & o & Eo & HL). destruct (Htail 0%nat w1 (Hd1 _ Hd)) as (w2 & E2 & _ & o2 & Eo2 & _).
  assert (w2 = w') as ->.
  { unfold record_show, fmt_then at 1, name_token, write_display in E. rewrite (readable_text _ _ Ho) in E. unfold write_token at 1 in E. fold w1 tail in E.
    rewrite E2 in E. by injection E. }
  exists w', o2. rewrite Et1, Eo, <- app_assoc in Eo2. apply app_inv_head in Eo2 as ->. split_and!; [done|done|].
  intros rest. rewrite app_assoc. apply HL. by intros _.
Qed.

(** *** Reading a record *)

Lemma next_item_word sb ch u :
  sb_cat sb = CatNone \/ sb_cat sb = CatLineFeed -> sb_text sb = ch :: u -> word_start ch = true ->
  next_item sb = Ret (sb_with_cat CatUnquoted (sb_with_has_space false sb), Ok ()).
Proof.
  intros Hc Et Hw. assert (next_item sb = next_item_loop (S (length (sb_buf sb))) (sb_with_has_space false sb)) as -> by (unfold next_item; by destruct Hc as [-> | ->]).
  cbn [next_item_loop sb_buf sb_start sb_with_has_space]. rewrite (proj1 (sb_text_cons _ _ _ Et)). unfold word_start in Hw.
  repeat (apply andb_true_iff in Hw as [Hw ?]). repeat match goal with Hn : negb _ = true |- _ => apply negb_true_iff in Hn; rewrite Hn end. done.
Qed.

Lemma Lex_word p ch u cat syms toks p' t' :
  Lex p (ch :: u) ((cat, syms) :: toks) p' t' -> word_start ch = true ->
  cat = CatUnquoted /\ exists t2, Token CatUnquoted (ch :: u) syms t2 /\ marker_ends CatUnquoted syms t2 /\ Lex p t2 toks p' t'.
Proof.
  intros HL Hw. inversion HL as [|q v q1 v1 ts q' v' Hs HL1|q v c v1 ss v2 ts q' v' Hst HT Hm HL1]; subst.
  - exfalso. inversion Hs as [q ch' v Hch| | | |]; subst; try done. by destruct Hch as [->|[->| ->]].
  - inversion Hst; subst; [|done]. by eauto.
Qed.

(** The state between entries: the text that is left. *)
Definition between (zf : Zonefile) (text : list Z) : Prop :=
  let sb := zf_buf zf in
  sb_ok sb /\ sb_text sb = text /\ sb_parens sb = 0%nat /\ (sb_cat sb = CatNone \/ sb_cat sb = CatLineFeed) /\ (0 < sb_start sb)%nat.

Lemma scan_ctr_tokens (r : ResourceRecord Name (ZoneRecordData Name)) zf more rest :
  is_u16 (rr_class r) -> is_u32 (rr_ttl r) -> is_u16 (zone_rtype (rr_data r)) ->
  zf_tokens zf (word (fmt_dec (rr_ttl r)) :: word (class_fmt (rr_class r)) :: word (rtype_fmt (zone_rtype (rr_data r))) :: more) rest ->
  exists zf', scan_ctr oc zf = Ret (zf', Ok (Some (rr_class r), Some (rr_ttl r), zone_rtype (rr_data r))) /\ zf_tokens zf' more rest /\ same_file zf zf'.
Proof.
  intros Hc Ht Hr Hz. unfold is_u32 in Ht.
  destruct (scan_ascii_str_scans oc ctr_first (fmt_dec (rr_ttl r)) (CtrTtl (rr_ttl r)) (proj2 (fmt_dec_plain (rr_ttl r) ltac:(lia)))
    ltac:(unfold ctr_first; by rewrite parse_uint_fmt_dec by lia) zf _ rest Hz) as (zf1 & E1 & Hz1 & S1).
  destruct (scan_ascii_str_scans oc ctr_after_ttl (class_fmt (rr_class r)) (CtrClass (rr_class r)) (proj1 (class_fmt_plain _ Hc))
    ltac:(unfold ctr_after_ttl; by rewrite class_not_rtype, class_text_roundtrip) zf1 _ rest Hz1) as (zf2 & E2 & Hz2 & S2).
  destruct (scan_ascii_str_scans oc ctr_rtype (rtype_fmt (zone_rtype (rr_data r))) (zone_rtype (rr_data r)) (proj1 (rtype_fmt_plain _ Hr))
    ltac:(unfold ctr_rtype; by rewrite rtype_text_roundtrip) zf2 _ rest Hz2) as (zf3 & E3 & Hz3 & S3).
  exists zf3. unfold scan_ctr. unfold ScanTokens.scanner, Inplace.scanner in *. rewrite E1. cbn [scan_then]. rewrite E2. cbn [scan_then]. rewrite E3.
  split_and!; [done|done|]. eapply same_file_trans; [|done]. by eapply same_file_trans.
Qed.

Lemma scan_owner_record_tokens (r : ResourceRecord Name (ZoneRecordData Name)) owner zf toks rest :
  is_u16 (rr_class r) -> is_u32 (rr_ttl r) -> is_u16 (zone_rtype (rr_data r)) ->
  (forall fuel, (length toks <= fuel)%nat -> ScansLast (zone_scan (B:=list Z) oc unix_time fuel (zone_rtype (rr_data r))) toks (zone_map scanned (rr_data r))) ->
  zf_tokens zf (word (fmt_dec (rr_ttl r)) :: word (class_fmt (rr_class r)) :: word (rtype_fmt (zone_rtype (rr_data r))) :: toks) rest ->
  exists zf', scan_owner_record oc unix_time owner true zf =
    Ret (zf', Ok (SEntry (EntryRecord (mkRR owner (rr_class r) (rr_ttl r) (zone_map scanned (rr_data r)))))) /\ zf_tokens zf' [] rest.
Proof.
  intros Hc Ht Hr Hs Hz. destruct (scan_ctr_tokens r zf toks rest Hc Ht Hr Hz) as (zf1 & E1 & Hz1 & _).
  unfold scan_owner_record. rewrite E1. cbn [scan_then]. set (zf2 := zf_set_ttl (rr_ttl r) (zf_set_class (rr_class r) (zf_set_owner owner zf1))).
  destruct (Hs (sb_fuel (zf_buf zf2)) (at_tokens_length _ _ _ (proj1 Hz1)) zf2 rest Hz1) as (zf3 & E3 & Hz3 & _).
  unfold scanner, Inplace.scanner in *. rewrite E3. cbn [scan_then]. unfold at_line_feed, require_line_feed, is_line_feed.
  pose proof Hz3 as [(_ & -> & _) _]. rewrite bool_decide_eq_true_2 by done. by exists zf3.
Qed.

Lemma Token_first_symbols sb syms t : Forall (writable CatUnquoted) syms -> sb_text sb = concat (map symbol_fmt syms) ++ t -> sb_cat sb = CatUnquoted ->
  match syms with
  | sym :: syms' => peek_symbol sb = Some sym /\
      (sym = Char 64 -> match syms' with sym2 :: _ => exists n, symbol_at (sb_advance 1 sb) = Ok (sym2, n) /\ symbol_is_word_char sym2 = true | [] => True end)
  | [] => True
  end.
Proof.
  intros Hw Et Ec. destruct Hw as [|sym syms (W1 & W2 & W3) Hw]; [done|]. cbn [map concat] in Et. rewrite <- app_assoc in Et.
  pose proof (lex_symbol_fmt sym (concat (map symbol_fmt syms) ++ t) W1 W2) as Hl. rewrite <- Et in Hl. destruct (symbol_at_lex _ _ _ Hl) as (n & En & _).
  split; [unfold peek_symbol; rewrite Ec, En; cbn in W3; by rewrite W3|]. intros ->. destruct Hw as [|sym2 syms (V1 & V2 & V3) Hw]; [done|].
  cbn [symbol_fmt app] in Et. destruct (sb_text_cons _ _ _ Et) as (_ & Et1 & _). cbn [map concat] in Et1. rewrite <- app_assoc in Et1.
  pose proof (lex_symbol_fmt sym2 (concat (map symbol_fmt syms) ++ t) V1 V2) as Hl2. rewrite <- Et1 in Hl2. destruct (symbol_at_lex _ _ _ Hl2) as (n2 & En2 & _).
  by exists n2.
Qed.

Lemma name_symbols_head ls :
  Forall nonroot ls -> match ls with (ch :: _) :: _ => ch <> 36 | _ => True end ->
  exists sym syms, name_symbols ls = sym :: syms /\ sym <> Char 36 /\ (sym = Char 64 -> syms <> []).
Proof.
  intros Hn Hd. destruct Hn as [|l ls [[Hl _] _] Hn]; [by exists (Char 46), []|]. destruct l as [|ch l]; [cbn in Hl; lia|].
  eexists _, _. split; [done|]. split; [unfold fmt_symbol; repeat case_match; congruence|]. intros _. by intros [[_ ?]%app_eq_nil _]%app_eq_nil.
Qed.

(** The text of a record at the start of a line is read as the record. *)
Lemma scan_entry_record (r : ResourceRecord Name (ZoneRecordData Name)) ls toks o zf rest :
  owner_labels (rr_owner r) ls -> is_u16 (rr_class r) -> is_u32 (rr_ttl r) -> is_u16 (zone_rtype (rr_data r)) ->
  (forall fuel, (length toks <= fuel)%nat -> ScansLast (zone_scan (B:=list Z) oc unix_time fuel (zone_rtype (rr_data r))) toks (zone_map scanned (rr_data r))) ->
  Lex 0 (concat (map symbol_fmt (name_symbols ls)) ++ o ++ 10 :: rest) (record_tokens r ls toks) 0 (10 :: rest) ->
  between zf (concat (map symbol_fmt (name_symbols ls)) ++ o ++ 10 :: rest) ->
  exists zf', scan_entry oc unix_time zf = Ret (zf', Ok (SEntry (EntryRecord (scanned_record r)))) /\ between zf' rest.
Proof.
  intros [Ho Hd] Hc Ht Hr Hs HL (Hok & Et & Hp & Hcat & Hst). pose proof (readable_nonroot _ _ Ho) as Hn.
  destruct (name_symbols_writable ls Hn (proj2 Ho)) as [Hw _]. destruct (name_symbols_head ls Hn Hd) as (sym & syms & Es & Hs1 & Hs2).
  destruct (word_symbol_start sym (concat (map symbol_fmt syms) ++ o ++ 10 :: rest)) as (ch & u & Eu & Hch).
  { rewrite Es in Hw. by inversion Hw. }
  assert (Etext : concat (map symbol_fmt (name_symbols ls)) ++ o ++ 10 :: rest = ch :: u).
  { rewrite Es, <- Eu. cbn [map concat]. by rewrite <- app_assoc. }
  set (sb1 := sb_with_cat CatUnquoted (sb_with_has_space false (zf_buf zf))). set (zf1 := zf_with_buf sb1 zf).
  assert (Hz1 : zf_tokens zf1 (record_tokens r ls toks) rest).
  { split; [|done]. split; [done|]. split; [done|]. rewrite Etext in HL. destruct (Lex_word _ _ _ _ _ _ _ _ HL Hch) as (_ & t2 & HT & Hm & HL2).
    exists t2. change (sb_parens (zf_buf zf1)) with (sb_parens (zf_buf zf)). change (sb_text (zf_buf zf1)) with (sb_text (zf_buf zf)). by rewrite Hp, Et, Etext. }
  pose proof (Token_first_symbols sb1 (name_symbols ls) (o ++ 10 :: rest) Hw Et eq_refl) as Hfirst. rewrite Es in Hfirst. destruct Hfirst as [Hpk Hat].
  unfold scan_entry, on_buf at 1. rewrite (next_item_word _ ch u Hcat) by (done || by rewrite Et). cbn [scan_then]. fold sb1. fold zf1.
  change (sb_cat (zf_buf zf1)) with CatUnquoted. change (sb_has_space (zf_buf zf1)) with false. cbv iota.
  rewrite bool_decide_eq_false_2 by (change (zf_buf zf1) with sb1; rewrite Hpk; congruence).
  assert (Hsk : skip_at_token sb1 = Ret (sb1, Ok false)).
  { unfold skip_at_token. destruct (decide (sym = Char 64)) as [->|Hne]; [|by rewrite bool_decide_eq_false_2 by congruence].
    rewrite bool_decide_eq_true_2 by done. cbn [negb]. specialize (Hat eq_refl). destruct syms as [|sym2 syms]; [by specialize (Hs2 eq_refl)|].
    destruct Hat as (n & -> & Hwc). change (sb_cat sb1) with CatUnquoted. cbv zeta. by rewrite Hwc. }
  unfold on_buf. change (zf_buf zf1) with sb1. rewrite Hsk. cbn [scan_then]. assert (zf_with_buf sb1 zf1 = zf1) as -> by done.
  destruct (name_scans oc _ _ Ho zf1 _ rest Hz1) as (zf2 & E2 & Hz2 & _). unfold scan_record. unfold ScanTokens.scanner, Inplace.scanner in *. rewrite E2.
  cbn [scan_then]. destruct (scan_owner_record_tokens r (scanned (rr_owner r)) zf2 toks rest Hc Ht Hr Hs Hz2) as (zf3 & E3 & Hz3).
  exists zf3. split; [exact E3|]. destruct Hz3 as [(K1 & K2 & K3 & K4) K5]. split_and!; try done. by right.
Qed.
End Entries.

(** ** Files *)

Section Files.
Context {P : Type} `{OctetsParserOk P} `{!OctetsParserRef P} `{!OctetsParserRefOk P}.
Context (oc : bool) (unix_time : Z -> Z -> Z -> Z -> Z -> Z -> option Z).

(** The text of a record, as an entry of a file. *)
Lemma next_entry_record pretty r :
  readable_record r ->
  exists text, display_zonefile (P:=P) oc pretty r = Ret text /\
  forall zf rest, between zf (text ++ 10 :: rest) ->
    exists zf', next_entry oc unix_time zf = Ret (zf', Ok (Some (EntryRecord (scanned_record r)))) /\ between zf' rest.
Proof.
  intros ((ls & Ho) & Hc & Ht & Hr & Hd).
  assert (Hgo : exists text, display_zonefile (P:=P) oc pretty r = Ret text /\ exists toks o, text = concat (map symbol_fmt (name_symbols ls)) ++ o /\
    (forall fuel, (length toks <= fuel)%nat ->
       ScansLast (zone_scan (H:=entry_scanner oc) (B:=list Z) oc unix_time fuel (zone_rtype (rr_data r))) toks (zone_map scanned (rr_data r))) /\
    forall rest, Lex 0 (concat (map symbol_fmt (name_symbols ls)) ++ o ++ 10 :: rest) (record_tokens r ls toks) 0 (10 :: rest)).
  { unfold display_zonefile. destruct pretty.
    - destruct (data_round (W:=MultiLineWriter) (P:=P) oc unix_time _ Hd) as (toks & Hw & Hs).
      destruct (record_writes (W:=MultiLineWriter) (P:=P) oc r ls toks (mw_new []) (proj1 Ho) Hc Ht Hr Hw eq_refl) as (w' & o & -> & Eo & HL); [by intros []|].
      eexists. split; [done|]. by exists toks, o.
    - destruct (data_round (W:=SimpleWriter) (P:=P) oc unix_time _ Hd) as (toks & Hw & Hs).
      destruct (record_writes (W:=SimpleWriter) (P:=P) oc r ls toks (sw_new []) (proj1 Ho) Hc Ht Hr Hw eq_refl I) as (w' & o & -> & Eo & HL).
      eexists. split; [done|]. by exists toks, o. }
  destruct Hgo as (text & Et & toks & o & -> & Hs & HL). eexists. split; [exact Et|]. intros zf rest Hb. rewrite <- app_assoc in Hb.
  destruct (scan_entry_record oc unix_time r ls toks o zf rest Ho Hc Ht Hr Hs (HL rest) Hb) as (zf' & E & Hb').
  exists zf'. split; [|done]. unfold next_entry, sb_fuel. cbn [next_entry_loop]. by rewrite E.
Qed.

Lemma next_entry_end zf : between zf [] -> exists zf', next_entry oc unix_time zf = Ret (zf', Ok None).
Proof.
  intros (Hok & Et & Hp & Hc & _). unfold next_entry, sb_fuel. cbn [next_entry_loop]. unfold scan_entry, on_buf.
  assert (next_item (zf_buf zf) = Ret (sb_with_cat CatNone (sb_with_has_space false (zf_buf zf)), Ok ())) as ->.
  { assert (next_item (zf_buf zf) = next_item_loop (S (length (sb_buf (zf_buf zf)))) (sb_with_has_space false (zf_buf zf))) as ->
      by (unfold next_item; by destruct Hc as [-> | ->]).
    cbn [next_item_loop]. change (sb_buf (sb_with_has_space false (zf_buf zf))) with (sb_buf (zf_buf zf)).
    change (sb_start (sb_with_has_space false (zf_buf zf))) with (sb_start (zf_buf zf)). by rewrite sb_lookup, Et. }
  cbn. by eexists.
Qed.

(** Records written by [ZonefileFmt], each pretty or not and on a line of its own, are
    read from the file as the same records in the same order, and nothing else is:
    owner, TTL, class and data of every type, whatever the layout.  The records are
    those of [readable_record]: all fields are what their types promise; the labels
    of names have no quotes, parentheses and semicolons (which are displayed without
    an escape), and an owner does not start with a dollar sign; both strings of HINFO
    data have a space or an octet that is displayed with an escape; keys, signatures, digests, owner hashes and data of unknown types are
    not empty; and bitmaps of types are as the builder makes them.  (C2) *)
Theorem zonefile_roundtrip (records : list (bool * ResourceRecord Name (ZoneRecordData Name))) :
  Forall (fun pr => readable_record pr.2) records ->
  exists texts zf,
    Forall2 (fun pr text => display_zonefile (P:=P) oc pr.1 pr.2 = Ret text) records texts /\
    read_entries oc unix_time (S (length records)) (zf_from_slice (concat (map (fun text => text ++ [10]) texts))) =
      Ret (map (fun pr => EntryRecord (scanned_record pr.2)) records, zf, None).
Proof using All.
  intros Hr.
  assert (Hread : exists texts, Forall2 (fun pr text => display_zonefile (P:=P) oc pr.1 pr.2 = Ret text) records texts /\
    forall zf, between zf (concat (map (fun text => text ++ [10]) texts)) ->
      exists zf', read_entries oc unix_time (S (length records)) zf = Ret (map (fun pr => EntryRecord (scanned_record pr.2)) records, zf', None)).
  { induction Hr as [|[pretty r] records Hr _ (texts & Ht & IH)].
    - exists []. split; [constructor|]. intros zf Hb. destruct (next_entry_end zf Hb) as (zf' & E). exists zf'. cbn [read_entries length]. by rewrite E.
    - destruct (next_entry_record pretty r Hr) as (text & Et & Hn). exists (text :: texts). split; [by constructor|]. intros zf Hb.
      cbn [map concat] in Hb. rewrite <- app_assoc in Hb. destruct (Hn _ _ Hb) as (zf1 & E1 & Hb1). destruct (IH zf1 Hb1) as (zf2 & E2).
      exists zf2. change (S (length ((pretty, r) :: records))) with (S (S (length records))). remember (S (length records)) as fuel. cbn [read_entries]. by rewrite E1, E2. }
  destruct Hread as (texts & Ht & Hread). exists texts. destruct (Hread (zf_from_slice (concat (map (fun text => text ++ [10]) texts)))) as (zf & E).
  { split_and!; try done; [unfold sb_ok; cbn; lia|by left|cbn; lia]. }
  by exists zf.
Qed.
End Files.

(** ** A file *)

Definition ex_org : Name := mkName [3; 111; 114; 103; 0].
Definition ex_www : Name := mkName [3; 119; 119; 119; 3; 111; 114; 103; 0].

Lemma ex_org_readable : readable ex_org [[111; 114; 103]].
Proof. split; [split_and!; [exists [[111; 114; 103]]; split; [done|by_decide]|done|by_decide]|by_decide]. Qed.

Lemma ex_www_readable : readable ex_www [[119; 119; 119]; [111; 114; 103]].
Proof. split; [split_and!; [exists [[119; 119; 119]; [111; 114; 103]]; split; [done|by_decide]|done|by_decide]|by_decide]. Qed.

Definition ex_zone : list (bool * ResourceRecord Name (ZoneRecordData Name)) := [
  (true, mkRR ex_org 1 3600 (ZoneSoa (mkSoa ex_www ex_org (mkSerial 7) (mkTtl 86400) (mkTtl 7200) (mkTtl 3600) (mkTtl 60))));
  (false, mkRR ex_www 1 60 (ZoneA (mkA [192; 0; 2; 1])));
  (true, mkRR ex_org 1 60 (ZoneMx (mkMx 10 ex_www)));
  (true, mkRR ex_www 255 60 (ZoneUnknown (mkUnknown 65280 [1; 171])))].

Definition no_time (_ _ _ _ _ _ : Z) : option Z := None.

Lemma zonefile_roundtrip_witness :
  exists texts zf, Forall2 (fun pr text => display_zonefile (P:=slice_parser) true pr.1 pr.2 = Ret text) ex_zone texts /\
    read_entries true no_time 5 (zf_from_slice (concat (map (fun text => text ++ [10]) texts))) =
      Ret (map (fun pr => EntryRecord (scanned_record pr.2)) ex_zone, zf, None).
Proof.
  apply (zonefile_roundtrip (P:=slice_parser) true no_time ex_zone).
  repeat apply Forall_cons_2; [..|constructor]; (split; [|split_and!; [by_decide..|cbn [snd rr_data readable_data]]]).
  - exists [[111; 114; 103]]. split; [apply ex_org_readable|done].
  - split_and!; [by eexists; apply ex_www_readable|by eexists; apply ex_org_readable|by_decide..].
  - exists [[119; 119; 119]; [111; 114; 103]]. split; [apply ex_www_readable|done].
  - split; [done|by_decide].
  - exists [[111; 114; 103]]. split; [apply ex_org_readable|done].
  - split; [by_decide|by eexists; apply ex_www_readable].
  - exists [[119; 119; 119]; [111; 114; 103]]. split; [apply ex_www_readable|done].
  - split; [by_decide|done].
Defined.

(** ** Corners *)

Definition read_line (line : list Z) : outcome (result (option ZoneEntry) ZoneFileError) :=
  let! (_, r) := next_entry true no_time (zf_from_slice (line ++ [10])) in Ret r.

(** TXT without strings: [scan_charstr_entry] does not require a token. *)
Lemma txt_without_strings_panics : read_line (ascii_chars "a. 60 IN TXT") = Panic.
Proof. by vm_compute. Qed.

(** Two dots in a row are taken for an empty label, which becomes part of the name. *)
Lemma empty_label_accepted :
  read_line (ascii_chars "a..b. 60 IN A 192.0.2.1") =
    Ret (Ok (Some (EntryRecord (mkRR (mkChain (mkRel [1; 97; 0; 1; 98]) name_root) 1 60 (ZoneA (mkA [192; 0; 2; 1])))))).
Proof. by vm_compute. Qed.

(** The closing quote of a string without spaces and escapes is read as part of it. *)
Lemma quote_kept :
  read_line (ascii_chars "a. 60 IN HINFO " ++ [34; 120; 34; 32; 34; 121; 34]) =
    Ret (Ok (Some (EntryRecord (mkRR (mkChain (mkRel [1; 97]) name_root) 1 60 (ZoneHinfo (mkHinfo (mkCharStr [120; 34]) (mkCharStr [121; 34]))))))).
Proof. by vm_compute. Qed.

(** So HINFO data as it is written is not read back in general. *)
Lemma hinfo_not_read_back :
  let r := mkRR ex_org 1 60 (ZoneHinfo (mkHinfo (mkCharStr [120]) (mkCharStr [121]))) in
  exists text, display_zonefile (P:=slice_parser) true false r = Ret text /\ read_line text <> Ret (Ok (Some (EntryRecord (scanned_record r)))).
Proof. eexists. split; [by vm_compute|]. by vm_compute. Qed.

(** A name whose text is not read back: the semicolon starts a comment. *)
Lemma semicolon_not_escaped :
  let r := mkRR (mkName [3; 97; 59; 98; 0]) 1 60 (ZoneA (mkA [192; 0; 2; 1])) in
  exists text, display_zonefile (P:=slice_parser) true false r = Ret text /\ text = ascii_chars "a;b. 60 IN A 192.0.2.1" /\
    read_line text <> Ret (Ok (Some (EntryRecord (scanned_record r)))).
Proof. eexists. split; [by vm_compute|]. split; [by vm_compute|]. by vm_compute. Qed.

(** Unknown data without octets is written as text that is not accepted. *)
Lemma empty_unknown_not_read_back :
  let r := mkRR ex_org 1 60 (ZoneUnknown (mkUnknown 65280 [])) in
  exists text e, display_zonefile (P:=slice_parser) true false r = Ret text /\ read_line text = Ret (Err e) /\ zfe_err e = end_of_entry.
Proof. eexists _, _. split; [by vm_compute|]. split; by vm_compute. Qed.

(** The octet behind the marker of unknown data is skipped, whatever it is. *)
Lemma marker_swallows_paren : exists e, read_line (ascii_chars "a. 60 IN TYPE9 \#( 1 ff )") = Ret (Err e) /\ zfe_err e = unbalanced_parens.
Proof. eexists. split; by vm_compute. Qed.

(** A file whose last line has no line feed: an error, and the next call panics. *)
Lemma missing_line_feed :
  exists zf e, next_entry true no_time (zf_from_slice (ascii_chars "a. 60 IN A 192.0.2.1")) = Ret (zf, Err e) /\ zfe_err e = short_buf /\
    next_entry true no_time zf = Panic.
Proof. eexists _, _. split; [by vm_compute|]. split; by vm_compute. Qed.

(** An error that does not move the position: the iterator never ends. *)
Lemma unbalanced_forever :
  exists zf e, next_entry true no_time (zf_from_slice [41; 10]) = Ret (zf, Err e) /\ next_entry true no_time zf = Ret (zf, Err e).
Proof. eexists _, _. split; [vm_compute; reflexivity|]. vm_compute. reflexivity. Qed.

(** An overlong encoding of a space ends a word and starts one: the loop of
    [convert_entry] makes no progress, and no number of rounds is enough. *)
Lemma convert_entry_diverges fuel :
  convert_tokens_loop fuel (hex_converter_new, O, None) (mkSB [0; 0xC0; 0xA0; 10] 1 CatUnquoted false 0 1 1) = Panic.
Proof.
  assert (E : convert_one_token (hex_converter_new, O, None) (mkSB [0; 0xC0; 0xA0; 10] 1 CatUnquoted false 0 1 1) =
    Ret (mkSB [0; 0xC0; 0xA0; 10] 1 CatUnquoted false 0 1 1, Ok (hex_converter_new, O, None))) by (vm_compute; reflexivity).
  induction fuel as [|fuel IH]; [done|]. cbn [convert_tokens_loop]. rewrite E. cbn [scan_then is_line_feed sb_cat bool_decide]. exact IH.
Qed.
