(* ===== verification/Typed.v ===== *)
(** * Records with typed data

    Reading the records of a message as records of a type of data, in
    [src/base/record.rs] ([RecordHeader::parse_into_record],
    [ParsedRecord::to_record] and friends) and [src/base/message.rs]
    ([RecordIter], [AnyRecordIter], [canonical_name], [opt],
    [get_last_additional], [contains_answer]).

    What a type of data promises is the class [ParseDataOk]; the theorems about
    the iterators are for any such type. *)

From S2P Require Import Prelude Octets Serial Symbol CharStr Label Traits Name ParsedName Header Compressor MessageBuilder Message Record Scanner Ttl Opt Layout Rdata Bitmap Txt Dnssec Nsec3 ZoneData.
From stdpp Require Import strings.
#[local] Open Scope Z_scope.

(** ** From a parsed record to a record *)

Section ToRecord.
Context {P : Type} `{OctetsParser P} `{!OctetsParserSub P}.

(** The header is read, the data skipped. *)
Definition record_header_parse_and_skip (p : P) : outcome (result (RecordHeader ParsedName * P) ParseError) :=
  let!? (header, p) := record_header_parse_ref p in
  match p_advance p (Z.to_nat (rh_rdlen header)) with
  | Some p => Ret (Ok (header, p))
  | None => Ret (Err PShortInput)
  end.

Definition header_into_record {N D} (h : RecordHeader N) (data : D) : ResourceRecord N D :=
  mkRR (rh_owner h) (rh_class h) (rh_ttl h) data.

Context {D : Type}.

Definition parse_into_record `{!ParseRecordData D P} (h : RecordHeader ParsedName) (p : P)
    : outcome (result (option (ResourceRecord ParsedName D) * P) ParseError) :=
  let!? (parser, p) := Ret (short (p_parse_parser p (Z.to_nat (rh_rdlen h)))) in
  let!? (data, parser) := parse_rdata (rh_rtype h) parser in
  match data with
  | Some data =>
      if (0 <? p_remaining parser)%nat then Ret (Err (parse_form_error "trailing data in option"))
      else Ret (Ok (Some (header_into_record h data), p))
  | None => Ret (Ok (None, p))
  end.

Definition parse_into_any_record `{!ParseAnyRecordData D P} (h : RecordHeader ParsedName) (p : P)
    : outcome (result (ResourceRecord ParsedName D * P) ParseError) :=
  let!? (parser, p) := Ret (short (p_parse_parser p (Z.to_nat (rh_rdlen h)))) in
  let!? (data, parser) := parse_any_rdata (rh_rtype h) parser in
  if (0 <? p_remaining parser)%nat then Ret (Err (parse_form_error "trailing data in option"))
  else Ret (Ok (header_into_record h data, p)).

(** [to_record] and [into_record]; they differ in what they do with [self]. *)
Definition parsed_record_to_record `{!ParseRecordData D P} (r : ParsedRecord P)
    : outcome (result (option (ResourceRecord ParsedName D)) ParseError) :=
  let!? (res, _) := parse_into_record (pr_header r) (pr_data r) in Ret (Ok res).

Definition parsed_record_to_any_record `{!ParseAnyRecordData D P} (r : ParsedRecord P)
    : outcome (result (ResourceRecord ParsedName D) ParseError) :=
  let!? (res, _) := parse_into_any_record (pr_header r) (pr_data r) in Ret (Ok res).
End ToRecord.

(** ** Iterating *)

(** [RecordIter]. *)
Record RecordIter (P : Type) := mkRecordIter { ri_section : RecordSection P; ri_in_only : bool }.
Arguments mkRecordIter {P} ri_section ri_in_only.
Arguments ri_section {P} _.
Arguments ri_in_only {P} _.

Section Iterators.
Context {P : Type} `{OctetsParser P} `{!OctetsParserRef P} `{!OctetsParserSub P}.

Definition rs_limit_to (rs : RecordSection P) : RecordIter P := mkRecordIter rs false.
Definition rs_limit_to_in (rs : RecordSection P) : RecordIter P := mkRecordIter rs true.

Definition ri_unwrap (it : RecordIter P) : RecordSection P := ri_section it.
Definition ri_next_section (it : RecordIter P) : outcome (result (option (RecordSection P)) ParseError) :=
  rs_next_section (ri_section it).

Section OfData.
Context {D : Type} `{!ParseRecordData D P}.

(** The loop of [next]; every round takes a record off the section. *)
Fixpoint ri_next_loop (fuel : nat) (it : RecordIter P)
    : outcome (option (result (ResourceRecord ParsedName D) ParseError) * RecordIter P) :=
  match fuel with
  | O => Panic
  | S fuel' =>
      let! (item, section) := rs_next (ri_section it) in
      let it := mkRecordIter section (ri_in_only it) in
      match item with
      | Some (Ok record) =>
          if ri_in_only it && negb (rh_class (pr_header record) =? CLASS_IN) then ri_next_loop fuel' it
          else
            let! r := parsed_record_to_record record in
            match r with
            | Ok (Some record) => Ret (Some (Ok record), it)
            | Err err => Ret (Some (Err err), it)
            | Ok None => ri_next_loop fuel' it
            end
      | Some (Err err) => Ret (Some (Err err), it)
      | None => Ret (None, it)
      end
  end.

Definition ri_next : RecordIter P -> outcome (option (result (ResourceRecord ParsedName D) ParseError) * RecordIter P) :=
  ri_next_loop section_fuel.

(** The items of the iterator, as a [for] loop sees them. *)
Fixpoint ri_collect (fuel : nat) (it : RecordIter P) : outcome (list (result (ResourceRecord ParsedName D) ParseError)) :=
  match fuel with
  | O => Panic
  | S fuel' =>
      let! (item, it') := ri_next it in
      match item with Some a => let! l := ri_collect fuel' it' in Ret (a :: l) | None => Ret [] end
  end.

Definition msg_contains_answer (m : Message) : outcome bool :=
  let! answer := msg_answer m in
  match answer with
  | Err _ => Ret false
  | Ok answer => let! (item, _) := ri_next (rs_limit_to answer) in Ret (match item with Some _ => true | None => false end)
  end.

(** [get_last_additional]; the loop leaves one record. *)
Fixpoint last_additional_loop (fuel : nat) (section : RecordSection P) : outcome (option (RecordSection P)) :=
  match fuel with
  | O => Panic
  | S fuel' =>
      match rs_count section with
      | Err _ => Ret None
      | Ok count =>
          if count =? 0 then Ret None
          else if count =? 1 then Ret (Some section)
          else let! (_, section) := rs_next section in last_additional_loop fuel' section
      end
  end.

Definition msg_get_last_additional (m : Message) : outcome (option (ResourceRecord ParsedName D)) :=
  let! section := msg_additional m in
  match section with
  | Err _ => Ret None
  | Ok section =>
      let! section := last_additional_loop section_fuel section in
      match section with
      | None => Ret None
      | Some section =>
          let! record := parsed_record_parse (rs_parser section) in
          match record with
          | Err _ => Ret None
          | Ok (record, _) =>
              let! record := parsed_record_to_record record in
              match record with Ok (Some record) => Ret (Some record) | _ => Ret None end
          end
      end
  end.
End OfData.

(** [AnyRecordIter::next]. *)
Definition any_next {D} `{!ParseAnyRecordData D P} (section : RecordSection P)
    : outcome (option (result (ResourceRecord ParsedName D) ParseError) * RecordSection P) :=
  let! (item, section) := rs_next section in
  match item with
  | Some (Ok record) => let! r := parsed_record_to_any_record record in Ret (Some r, section)
  | Some (Err err) => Ret (Some (Err err), section)
  | None => Ret (None, section)
  end.
End Iterators.

(** ** The canonical name *)

Section CanonicalName.
Context {P : Type} `{OctetsParser P} `{!OctetsParserRef P} `{!OctetsParserSub P}.

#[export] Instance cname_parse : ParseRecordData (NameData ParsedName) P := parse_own RTYPE_CNAME name_data_parse.

(** One pass over the answers: the target of the first alias of [name]. *)
Fixpoint find_cname (fuel : nat) (answer : RecordIter P) (name : ParsedName) : outcome (option ParsedName) :=
  match fuel with
  | O => Panic
  | S fuel' =>
      let! (record, answer) := ri_next answer in
      match record with
      | None => Ret None
      | Some (Err _) => find_cname fuel' answer name
      | Some (Ok record) =>
          let! found := name_eq (rr_owner record) name in
          if found : bool then Ret (Some (nd_name (rr_data record))) else find_cname fuel' answer name
      end
  end.

Fixpoint cname_loop (steps : nat) (answer : RecordIter P) (name : ParsedName) : outcome (option ParsedName) :=
  match steps with
  | O => Ret None
  | S steps' =>
      let! found := find_cname section_fuel answer name in
      match found with
      | Some name => cname_loop steps' answer name
      | None => Ret (Some name)
      end
  end.

(** [ancount() + 1] is computed in [u16]; [oc] tells whether overflow is checked. *)
Definition msg_canonical_name (oc : bool) (m : Message) : outcome (option ParsedName) :=
  let! question := msg_first_question m in
  match question with
  | None => Ret None
  | Some question =>
      let! answer := msg_answer m in
      match answer with
      | Err _ => Ret None
      | Ok answer =>
          let! counts := msg_header_counts m in
          let! steps := (if ancount counts + 1 <? 2 ^ 16 then Ret (ancount counts + 1) else if oc then Panic else Ret 0) in
          cname_loop (Z.to_nat steps) (rs_limit_to answer) (qname question)
      end
  end.

#[export] Instance opt_data_parse : ParseRecordData Opt P := fun rtype p => ended (opt_parse_rdata rtype p).

Definition msg_opt (m : Message) : outcome (option OptRecord) :=
  let! section := msg_additional m in
  match section with
  | Err _ => Ret None
  | Ok section =>
      let! (item, _) := ri_next (rs_limit_to section) in
      Ret (match item with Some (Ok rr) => Some (or_from_record rr) | _ => None end)
  end.

Definition msg_opt_rcode (m : Message) : outcome Z :=
  let! opt := msg_opt m in
  let! header := msg_header m in
  Ret (match opt with Some opt => or_rcode header opt | None => opt_rcode_from_rcode (header_rcode header) end).
End CanonicalName.

(** ** What the data types promise *)

(** Of the record types it wants, a type of data finds the data that is laid out as
    [at_] says; it does not touch the others. *)
Class ParseDataOk (D X P : Type) `{OctetsParserOk P} `{!ParseRecordData D P}
    (wants : Z -> bool) (at_ : Z -> layout X) (is_ : D -> X -> Prop) : Prop := {
  data_wanted rtype : wants rtype = true ->
    Finds (P:=P) (parse_rdata rtype) (at_ rtype) (fun o x => exists d, o = Some d /\ is_ d x);
  data_unwanted rtype (p : P) : wants rtype = false -> parse_rdata rtype p = Ret (Ok (None, p))
}.

Section DataTypes.
Context {P : Type} `{OctetsParserOk P} `{!OctetsParserRef P} `{!OctetsParserRefOk P}.

(** A single type of record. *)
Lemma own_data_ok {D X} own (parse : P -> outcome (result (D * P) ParseError)) (at_ : layout X) is_ :
  Finds (P:=P) parse at_ is_ ->
  ParseDataOk D X P (ParseRecordData0 := parse_own own parse) (fun rtype => rtype =? own) (fun _ => at_) is_.
Proof.
  intros Hf. split; unfold parse_rdata, parse_own.
  - intros rtype ->. eapply Finds_impl; [|intros ? ? Hx; exact Hx|].
    2: { eapply (Finds_map parse Some (fun x => x) at_ is_); [done|]. intros d x Hd. by exists d. }
    intros s pos x e. split; [by intros (y & Hy & ->)|by exists x].
  - intros rtype p ->. done.
Qed.

#[export] Instance zone_data_types : ParseDataOk (ZoneRecordData ParsedName) (ZoneRecordData labels) P (fun _ => true) zone_at (zone_rel wf_parsed).
Proof. split; [|done]. intros rtype _. apply zone_finds. Qed.

#[export] Instance cname_data_types : ParseDataOk (NameData ParsedName) (NameData labels) P (fun rtype => rtype =? RTYPE_CNAME)
  (fun _ => name_data_at) (name_data_rel wf_parsed).
Proof. apply own_data_ok, name_data_finds. Qed.
End DataTypes.

(** ** The records of a section, with their data *)

(** A record and where it ends. *)
Definition trec : Type := arecord * nat.
Definition trec_at (s : list Z) (pos : nat) (t : trec) (e : nat) : Prop := record_at s pos t.1 e /\ t.2 = e.

(** The records of a section have ends. *)
Lemma items_ends s pos l e :
  items_at (record_at s) pos l e -> exists ts, map fst ts = l /\ items_at (trec_at s) pos ts e.
Proof.
  induction 1 as [pos|pos a e0 l e Ha Hi (ts & <- & Ht)]; [by exists []; split; [|constructor]|].
  exists ((a, e0) :: ts). split; [done|]. by eapply items_cons.
Qed.

Section TypedRecords.
Context {P : Type} `{OctetsParserOk P} `{!OctetsParserRef P} `{!OctetsParserRefOk P} `{!OctetsParserSub P} `{!OctetsParserSubOk P}.
Context {D X : Type} `{!ParseRecordData D P} (wants : Z -> bool) (at_ : Z -> layout X) (is_ : D -> X -> Prop) `{!ParseDataOk D X P wants at_ is_}.
Context (s : list Z) (Hs : wf_octets s).

(** The data of the record is [x], in the message up to the end of the record. *)
Definition data_of (t : trec) (x : X) : Prop :=
  at_ (ar_rtype t.1) (take t.2 s) (t.2 - length (ar_data t.1))%nat x t.2.

(** The record [r] is [t], with the data [x]. *)
Definition typed_is (r : ResourceRecord ParsedName D) (t : trec) (x : X) : Prop :=
  wf_parsed (rr_owner r) (ar_owner t.1) /\ rr_class r = ar_class t.1 /\ rr_ttl r = ar_ttl t.1 /\ is_ (rr_data r) x.

(** An item of the iterator: the record if there is data of its type, and an error
    otherwise. *)
Definition typed_item (item : result (ResourceRecord ParsedName D) ParseError) (t : trec) : Prop :=
  (forall x, data_of t x -> exists r, item = Ok r /\ typed_is r t x) /\
  (forall r, item = Ok r -> exists x, data_of t x /\ typed_is r t x).

Lemma to_record_spec (r : ParsedRecord P) (t : trec) :
  record_is r t.1 -> data_before s r t.1 t.2 ->
  exists res, parsed_record_to_record r = Ret res /\
    if wants (ar_rtype t.1)
    then exists item, res = match item with Ok r => Ok (Some r) | Err err => Err err end /\ typed_item item t
    else res = Ok None.
Proof using All.
  destruct t as [a e]; cbn [fst snd]. intros (Ho & Ht & Hc & Hl & Hn & Hd) [[Hp1 Hp2] Hpos].
  unfold parsed_record_to_record, parse_into_record. rewrite Hn. unfold zlen. rewrite Nat2Z.id.
  pose proof (f_equal length Hd) as Hlen. rewrite length_take, length_drop, Hp1 in Hlen. pose proof (p_bounds (pr_data r)) as Hb.
  destruct (p_parse_parser_ok (pr_data r) (length (ar_data a))) as (sub & p' & -> & Hm & S1 & S2 & S3).
  { unfold p_remaining. rewrite Hp1, Hp2 in *. lia. }
  cbn [short ok_or]. rewrite Ht. assert (Hv : visible sub = take e s) by (unfold visible; by rewrite S1, S2, Hp1, Hpos).
  destruct (wants (ar_rtype a)) eqn:Hw.
  - destruct (data_wanted _ Hw sub) as (res & -> & Hsd & Hcp); [by rewrite S1, Hp1|]. rewrite Hv, S3 in Hsd, Hcp.
    assert (Hst : (e - length (ar_data a))%nat = p_pos (pr_data r)) by lia.
    destruct res as [[o sub']|err].
    + destruct (Hsd o sub' eq_refl) as (x & e' & Hx & (d & -> & Hd') & M1 & M2 & M3). pose proof (p_bounds sub') as Hb'.
      assert (Hrem : (0 <? p_remaining sub')%nat = negb (bool_decide (e' = e))).
      { unfold p_remaining. rewrite M2, M3 in *. rewrite S2, Hpos in *. case_bool_decide; destruct (Nat.ltb_spec 0 (e - e')); cbn; done || lia. }
      rewrite Hrem. case_bool_decide as He; cbn [negb].
      * rewrite He in Hx. eexists; split; [done|]. exists (Ok (header_into_record (pr_header r) d)). split; [done|]. split.
        -- intros y Hy. unfold data_of in Hy; cbn [fst snd] in Hy. rewrite Hst in Hy.
           destruct (Hcp y e Hy) as (o & q & [= <- <-] & (d2 & [= <-] & Hy2) & _). by eexists; split; [done|].
        -- intros r0 [= <-]. exists x. split; [unfold data_of; cbn [fst snd]; by rewrite Hst|by split_and!].
      * eexists; split; [done|]. eexists (Err _). split; [done|]. split; [|done]. intros y Hy. unfold data_of in Hy; cbn [fst snd] in Hy. rewrite Hst in Hy.
        destruct (Hcp y e Hy) as (o & q & [= <- <-] & _ & _ & _ & M3'). congruence.
    + eexists; split; [done|]. exists (Err err). split; [done|]. split; [|done]. intros y Hy. unfold data_of in Hy; cbn [fst snd] in Hy.
      rewrite Hst in Hy. by destruct (Hcp y e Hy) as (o & q & ? & _).
  - rewrite data_unwanted by done. by eexists.
Qed.

(** The iterator stands before the records [l]. *)
Definition ri_before (it : RecordIter P) (l : list trec) : Prop :=
  parser_over s (rs_parser (ri_section it)) /\ rs_count (ri_section it) = Ok (zlen l) /\
  exists e, items_at (trec_at s) (p_pos (rs_parser (ri_section it))) l e.

(** The records the iterator is about. *)
Definition chosen (in_only : bool) (t : trec) : bool :=
  (negb in_only || (ar_class t.1 =? CLASS_IN)) && wants (ar_rtype t.1).

Lemma rs_next_typed it t l :
  ri_before it (t :: l) ->
  exists r rs, rs_next (ri_section it) = Ret (Some (Ok r), rs) /\ record_is r t.1 /\ data_before s r t.1 t.2 /\
    ri_before (mkRecordIter rs (ri_in_only it)) l.
Proof using Hs H0.
  intros (Hp & Hc & e & Hi). inversion Hi as [|? ? e0 ? ? [Hr He] Hi']; subst.
  destruct (parsed_record_data_at s Hs (rs_parser (ri_section it)) t.1 t.2 Hp Hr) as (r & p' & E & [Ha Hb] & Hp' & Hpos).
  unfold rs_next. rewrite Hc. destruct (Z.ltb_spec 0 (zlen (t :: l))); [|unfold zlen in *; simpl in *; lia]. rewrite E.
  eexists _, _. split_and!; [done|done|done|]. split_and!; [done| |].
  - cbn. f_equal. unfold zlen. simpl length. lia.
  - exists e. cbn. by rewrite Hpos.
Qed.

Lemma ri_next_spec fuel it l :
  ri_before it l -> (length l < fuel)%nat ->
  exists item it', ri_next_loop fuel it = Ret (item, it') /\ ri_in_only it' = ri_in_only it /\
    match item with
    | None => filter (chosen (ri_in_only it)) l = []
    | Some item => exists t l', filter (chosen (ri_in_only it)) l = t :: filter (chosen (ri_in_only it)) l' /\
        (length l' < length l)%nat /\ typed_item item t /\ ri_before it' l'
    end.
Proof using All.
  revert it l; induction fuel as [|fuel IH]; intros it l Hl Hf; [lia|]. cbn [ri_next_loop]. destruct l as [|t l].
  - destruct Hl as (Hp & Hc & e & Hi). unfold rs_next. rewrite Hc. by eexists None, _.
  - destruct (rs_next_typed it t l Hl) as (r & rs & -> & Hr & Hd & Hl'). cbn [ri_section ri_in_only].
    assert (Hskip : chosen (ri_in_only it) t = false ->
      exists item it', ri_next_loop fuel (mkRecordIter rs (ri_in_only it)) = Ret (item, it') /\ ri_in_only it' = ri_in_only it /\
        match item with
        | None => filter (chosen (ri_in_only it)) (t :: l) = []
        | Some item => exists t0 l', filter (chosen (ri_in_only it)) (t :: l) = t0 :: filter (chosen (ri_in_only it)) l' /\
            (length l' < length (t :: l))%nat /\ typed_item item t0 /\ ri_before it' l'
        end).
    { intros Ht. destruct (IH _ l Hl') as (item & it' & E & Ei & Hm); [simpl in Hf; lia|]. exists item, it'. split_and!; [done|done|].
      rewrite filter_cons_False by (by rewrite Ht; intros []). destruct item as [item|]; [|done].
      destruct Hm as (t0 & l' & Hfl & Hlen & Hm). exists t0, l'. split_and!; [done|simpl; lia|apply Hm|apply Hm]. }
    assert (Hcl : rh_class (pr_header r) = ar_class t.1) by apply Hr.
    destruct (ri_in_only it && negb (rh_class (pr_header r) =? CLASS_IN)) eqn:Hin.
    + apply Hskip. unfold chosen. rewrite <- Hcl. by destruct (ri_in_only it), (rh_class (pr_header r) =? CLASS_IN).
    + destruct (to_record_spec r t Hr Hd) as (res & -> & Hres). destruct (wants (ar_rtype t.1)) eqn:Hw.
      * destruct Hres as (item & -> & Hitem). exists (Some item), (mkRecordIter rs (ri_in_only it)).
        split_and!; [by destruct item|done|]. exists t, l. split_and!; [|simpl; lia|done|done].
        rewrite filter_cons_True; [done|]. unfold chosen. rewrite Hw, <- Hcl.
        by destruct (ri_in_only it), (rh_class (pr_header r) =? CLASS_IN).
      * rewrite Hres. apply Hskip. unfold chosen. rewrite Hw. apply andb_false_r.
Qed.

Lemma ri_collect_spec fuel it l :
  ri_before it l -> (length l < fuel)%nat -> (length l < section_fuel)%nat ->
  exists items, ri_collect fuel it = Ret items /\ Forall2 typed_item items (filter (chosen (ri_in_only it)) l).
Proof using All.
  revert it l; induction fuel as [|fuel IH]; intros it l Hl Hf Hsf; [lia|]. cbn [ri_collect]. unfold ri_next.
  destruct (ri_next_spec section_fuel it l Hl Hsf) as (item & it' & -> & Ei & Hm). destruct item as [item|].
  - destruct Hm as (t & l' & -> & Hlen & Ht & Hl'). destruct (IH it' l' Hl') as (items & -> & Hi); [lia|lia|].
    exists (item :: items). split; [done|]. rewrite Ei in Hi. by constructor.
  - exists []. split; [done|]. rewrite Hm. constructor.
Qed.
End TypedRecords.

(** ** Reading any octets *)

Section TypedSafety.
Context {P : Type} `{OctetsParserOk P} `{!OctetsParserRef P} `{!OctetsParserRefOk P} `{!OctetsParserSub P} `{!OctetsParserSubOk P}.
Context {D X : Type} `{!ParseRecordData D P} (wants : Z -> bool) (at_ : Z -> layout X) (is_ : D -> X -> Prop) `{!ParseDataOk D X P wants at_ is_}.
Context (s : list Z) (Hs : wf_octets s).

(** A record that was read has a name, and data that means something. *)
Definition rr_read (r : ResourceRecord ParsedName D) : Prop :=
  (exists ls, wf_parsed (rr_owner r) ls) /\ exists x, is_ (rr_data r) x.

Lemma record_header_owner (p : P) h d :
  parser_over s p -> record_header_parse_ref p = Ret (Ok (h, d)) -> parser_over s d /\ exists ls, wf_parsed (rh_owner h) ls.
Proof using Hs H0 OctetsParserRefOk0.
  intros Hp E. split; [destruct (record_header_safe s Hs p Hp) as (r & Er & Ho); rewrite E in Er; injection Er as <-; by eapply Ho|].
  unfold record_header_parse_ref in E. destruct (parsed_parse_spec p) as (r & Er & Hok & _); [by rewrite (proj1 Hp)|]. rewrite Er in E. cbn [ended] in E.
  destruct r as [[n p1]|e]; [|done]. destruct (Hok _ _ eq_refl) as (ls & e & _ & Hn & _).
  destruct (u16_parse p1) as [[t p2]|]; [|done]. destruct (u16_parse p2) as [[c p3]|]; [|done].
  destruct (u32_parse p3) as [[l p4]|]; [|done]. destruct (u16_parse p4) as [[rl p5]|]; [|done]. simplify_eq/=. by exists ls.
Qed.

Lemma parsed_record_read (p : P) r p' :
  parser_over s p -> parsed_record_parse p = Ret (Ok (r, p')) ->
  parser_over s (pr_data r) /\ exists ls, wf_parsed (rh_owner (pr_header r)) ls.
Proof using Hs H0 OctetsParserRefOk0.
  intros Hp E. unfold parsed_record_parse in E. destruct (record_header_safe s Hs p Hp) as (res & Er & _). rewrite Er in E.
  destruct res as [[h d]|e]; [|done]. apply record_header_owner in Er; [|done].
  destruct (p_advance d _); [|done]. by simplify_eq/=.
Qed.

Lemma to_record_safe (r : ParsedRecord P) ls :
  parser_over s (pr_data r) -> wf_parsed (rh_owner (pr_header r)) ls ->
  exists res, parsed_record_to_record r = Ret res /\ forall rec, res = Ok (Some rec) -> rr_read rec.
Proof using All.
  intros [Hp1 Hp2] Hn. unfold parsed_record_to_record, parse_into_record. set (n := Z.to_nat (rh_rdlen (pr_header r))).
  destruct (Nat.le_gt_cases n (p_remaining (pr_data r))) as [Hle|Hgt]; [|rewrite p_parse_parser_short by done; by eexists].
  destruct (p_parse_parser_ok (pr_data r) n Hle) as (sub & p' & -> & _ & S1 & _). cbn [short ok_or].
  destruct (wants (rh_rtype (pr_header r))) eqn:Hw; [|rewrite data_unwanted by done; by eexists].
  destruct (data_wanted _ Hw sub) as (res & -> & Hsd & _); [by rewrite S1, Hp1|]. destruct res as [[o sub']|err]; [|by eexists].
  destruct (Hsd o sub' eq_refl) as (x & e & _ & (d & -> & Hd) & _). destruct (0 <? p_remaining sub')%nat; [by eexists|].
  eexists; split; [done|]. intros rec [= <-]. split; [by exists ls|by exists x].
Qed.

Lemma rs_next_safe (rs : RecordSection P) :
  rs_over s rs -> exists item rs', rs_next rs = Ret (item, rs') /\ rs_over s rs' /\
    (forall r, item = Some (Ok r) -> parser_over s (pr_data r) /\ (exists ls, wf_parsed (rh_owner (pr_header r)) ls) /\
       exists n, rs_count rs = Ok n /\ 0 < n /\ rs_count rs' = Ok (n - 1)).
Proof using Hs H0 OctetsParserRefOk0.
  intros Ho0. pose proof Ho0 as [Hp Hc]. unfold rs_next. destruct (rs_count rs) as [n|err] eqn:En; [|by exists None, rs].
  destruct (Z.ltb_spec 0 n); [|by exists None, rs].
  destruct (parsed_record_safe s Hs _ Hp) as (r & Er & Ho). rewrite Er. destruct r as [[r p']|err].
  - eexists (Some (Ok r)), _. split_and!; [done|split; [by eapply Ho|]|].
    + cbn. intros m [= <-]. pose proof (Hc _ eq_refl). lia.
    + intros r' [= <-]. destruct (parsed_record_read _ _ _ Hp Er) as [? ?]. split_and!; [done|done|]. by exists n.
  - eexists (Some (Err err)), _. split_and!; [done|split; [done|done]|done].
Qed.

(** The rounds the iterator takes at most. *)
Definition rounds (it : RecordIter P) : Z := match rs_count (ri_section it) with Ok n => n | Err _ => 0 end.

Lemma ri_next_safe fuel it :
  rs_over s (ri_section it) -> rounds it < Z.of_nat fuel -> (0 < fuel)%nat ->
  exists item it', ri_next_loop fuel it = Ret (item, it') /\ rs_over s (ri_section it') /\
    (forall r, item = Some (Ok r) -> rr_read r).
Proof using All.
  revert it; induction fuel as [|fuel IH]; intros it Ho Hr Hf; [lia|]. cbn [ri_next_loop].
  destruct (rs_next_safe _ Ho) as (item & rs' & -> & Ho' & Hi). cbn [ri_in_only ri_section].
  destruct item as [[r|err]|]; [|by eexists (Some (Err err)), _|by eexists None, _].
  destruct (Hi r eq_refl) as (Hd & (ls & Hn) & n & En & Hpos & En').
  assert (Hagain : exists item it', ri_next_loop fuel (mkRecordIter rs' (ri_in_only it)) = Ret (item, it') /\ rs_over s (ri_section it') /\
    (forall r, item = Some (Ok r) -> rr_read r)).
  { unfold rounds in Hr. rewrite En in Hr. apply IH; [done| |lia]. unfold rounds; cbn [ri_section]. rewrite En'. lia. }
  case_match; [done|]. destruct (to_record_safe r ls Hd Hn) as (res & -> & Hres).
  destruct res as [[rec|]|err]; [|done|by eexists (Some (Err err)), _].
  eexists (Some (Ok rec)), _. split_and!; [done|done|]. intros ? [= <-]. by apply Hres.
Qed.
End TypedSafety.

(** ** Reading messages with typed data *)

(** [answer], [authority] and [additional] of a message. *)
Definition msg_section {P} `{OctetsParser P} `{!OctetsParserRef P} (k : RSection) (m : Message)
    : outcome (result (RecordSection P) ParseError) :=
  match k with Answer => msg_answer m | Authority => msg_authority m | Additional => msg_additional m end.

Definition section_of {A} (k : RSection) (an ns ar : A) : A := match k with Answer => an | Authority => ns | Additional => ar end.

Section Reading.
Context {P : Type} `{OctetsParserOk P} `{!OctetsParserRef P} `{!OctetsParserRefOk P} `{!OctetsParserSub P} `{!OctetsParserSubOk P}.

Lemma holds_section k s qs an ns ar :
  holds s qs an ns ar ->
  exists rs e, msg_section (P:=P) k (mkMessage s) = Ret (Ok rs) /\ rs_before s rs k (section_of k an ns ar) e.
Proof using H0 OctetsParserRefOk0.
  intros Hh. pose proof Hh as (Hl & Hs & _ & Ha & Hn & Hr & _).
  destruct (holds_question (P:=P) _ _ _ _ _ Hh) as (Hz & q & e1 & e2 & e3 & e4 & Eq & Bq & Ia & In & Ir).
  destruct (qs_answer_before _ _ _ _ _ _ Bq Hz Hl Ia Ha) as (answer & Ea & Ba).
  destruct (rs_next_section_before s Hs _ _ Authority _ _ _ _ Hl Ba eq_refl In Hn) as (authority & En & Bn).
  destruct (rs_next_section_before s Hs _ _ Additional _ _ _ _ Hl Bn eq_refl Ir Hr) as (additional & Er & Br).
  destruct k; unfold msg_section, msg_additional, msg_authority, msg_answer; rewrite Eq, Ea, ?En, ?Er; by eexists _, _.
Qed.

(** The iterator over such a section. *)
Lemma rs_before_typed s rs k l e in_only :
  rs_before s rs k l e ->
  exists ts, map fst ts = l /\ ri_before (P:=P) s (mkRecordIter rs in_only) ts /\ (length ts < section_fuel)%nat.
Proof.
  intros (Hp & Hk & Hc & Hi & Hl). apply items_ends in Hi as (ts & <- & Hi). exists ts. split_and!; [done| |].
  - split_and!; [done| |by exists e]. cbn. rewrite Hc. f_equal. unfold zlen. by rewrite length_map.
  - pose proof section_fuel_eq. unfold zlen in Hl. rewrite length_map in Hl. lia.
Qed.

(** For every type of record data that keeps its promise, the iterator over the
    records of a section that [limit_to] or [limit_to_in] give returns, for every
    record of the types the data type wants, and of class IN for the latter, in
    the order of the section: the record with its data if the data is laid out as
    the type says and fills the record, and an error if not.  It skips the
    others, and it ends.  (C11) *)
Theorem typed_records_correct {D X : Type} `{!ParseRecordData D P} (wants : Z -> bool) (at_ : Z -> layout X) (is_ : D -> X -> Prop)
    `{!ParseDataOk D X P wants at_ is_} k in_only s qs an ns ar :
  holds s qs an ns ar ->
  exists rs ts items, msg_section (P:=P) k (mkMessage s) = Ret (Ok rs) /\ map fst ts = section_of k an ns ar /\
    (exists pos e, items_at (trec_at s) pos ts e) /\
    ri_collect section_fuel (mkRecordIter rs in_only) = Ret items /\
    Forall2 (typed_item at_ is_ s) items (filter (chosen wants in_only) ts).
Proof using All.
  intros Hh. destruct (holds_section k _ _ _ _ _ Hh) as (rs & e & Es & Hb). destruct Hh as (_ & Hs & _).
  destruct (rs_before_typed _ _ _ _ _ in_only Hb) as (ts & Ets & Hri & Hlt).
  destruct (ri_collect_spec wants at_ is_ s Hs section_fuel _ _ Hri Hlt Hlt) as (items & Ei & Hi).
  exists rs, ts, items. split_and!; [done|done| |done|done]. destruct Hri as (_ & _ & e' & Hit). by eexists _, _.
Qed.
End Reading.

(** ** Messages with zone data, there and back *)

(** The data of a record without compression is where the record ends. *)
Lemma record_at_data s pos a e :
  (record_at s pos a e -> drop (e - length (ar_data a)) (take e s) = ar_data a /\ e <= length s)%nat.
Proof.
  intros [_ (e0 & _ & _ & Ht & ->)]. pose proof (f_equal length Ht) as Hl. rewrite length_take, length_drop in Hl.
  assert (Hle : (length (ar_data a) <= length (record_tail a))%nat) by (unfold record_tail; rewrite !length_app; lia).
  assert (Hz : (0 < length (record_tail a))%nat) by (unfold record_tail; rewrite !length_app, !length_to_be_bytes; lia).
  split; [|lia]. rewrite skipn_firstn_comm. replace (e0 + length (record_tail a) - (e0 + length (record_tail a) - length (ar_data a)))%nat
    with (length (ar_data a)) by lia.
  replace (e0 + length (record_tail a) - length (ar_data a))%nat with (e0 + (length (record_tail a) - length (ar_data a)))%nat by lia.
  rewrite <- drop_drop. set (n := length (ar_data a)) in *. set (m := length (record_tail a)) in *.
  replace (take n (drop (m - n) (drop e0 s))) with (drop (m - n) (take m (drop e0 s))).
  - rewrite Ht. unfold record_tail. rewrite !app_assoc. rewrite drop_app_length'; [done|]. subst n m. unfold record_tail. rewrite !length_app. lia.
  - rewrite skipn_firstn_comm. f_equal. lia.
Qed.

Lemma data_of_wire s pos a e x :
  record_at s pos a e -> zone_ok x -> ar_rtype a = zone_rtype x -> ar_data a = zone_wire x -> data_of zone_at s (a, e) x.
Proof.
  intros Hat Hx Ht Ew. destruct (record_at_data _ _ _ _ Hat) as [Hd Hle]. unfold data_of; cbn [fst snd]. rewrite Ht.
  pose proof (zone_lays x Hx (take e s) (e - length (ar_data a))%nat) as L. rewrite (length_take_le s e Hle) in L.
  apply L; [by rewrite <- Ew|lia].
Qed.

Section TypedRoundTrip.
Context {B : Type} `{OctetsBuilderOk B} `{!InfallibleBuilder B} `{!Composer B} `{!PlainComposer B}.
Context {N I : Type} `{ToLabelIter N I} `{!LabelIterOk I}.
Context {P : Type} `{OctetsParserOk P} `{!OctetsParserRef P} `{!OctetsParserRefOk P} `{!OctetsParserSub P} `{!OctetsParserSubOk P}.

Lemma all_chosen (ts : list trec) : filter (chosen (fun _ => true) false) ts = ts.
Proof. induction ts as [|t ts IH]; [done|]. by rewrite filter_cons_True, IH. Qed.

(** A record that was written and one that was read are the same. *)
Definition same_record (r : ResourceRecord N (ZoneRecordData N)) (r' : ResourceRecord ParsedName (ZoneRecordData ParsedName)) : Prop :=
  rr_class r' = rr_class r /\ rr_ttl r' = rr_ttl r /\
  (exists ls, name_ok (rr_owner r) ls /\ wf_parsed (rr_owner r') ls) /\
  (exists x, zone_is (rr_data r) x /\ zone_rel wf_parsed (rr_data r') x).

Lemma typed_item_same s (r : ResourceRecord N (ZoneRecordData N)) (t : trec) item pos e :
  record_stands (B:=B) zone_stands r t.1 -> trec_at s pos t e -> typed_item zone_at (zone_rel wf_parsed) s item t ->
  exists r', item = Ok r' /\ same_record r r'.
Proof.
  destruct t as [a e']. cbn [fst snd]. intros [(Hn & Ht & Hc & Hl & (x & Hx & Ew) & Hf) Hw] [Hat E] [Hcomp _]. cbn [fst snd] in *. subst e'.
  assert (Hdx : data_of zone_at s (a, e) x).
  { apply (data_of_wire s pos); [done|apply Hx| |done]. rewrite <- Ht. apply (zone_rel_rtype _ _ _ (proj1 Hx)). }
  destruct (Hcomp x Hdx) as (r' & -> & (Ho' & Hc' & Hl' & Hd')). exists r'. split; [done|]. cbn [fst] in *.
  split_and!; [congruence|congruence|by eexists|by exists x].
Qed.

Lemma typed_items_same s rs ts items pos e :
  Forall2 (record_stands (B:=B) zone_stands) rs (map fst ts) -> items_at (trec_at s) pos ts e ->
  Forall2 (typed_item zone_at (zone_rel wf_parsed) s) items ts ->
  exists rs', items = map Ok rs' /\ Forall2 same_record rs rs'.
Proof.
  intros Hr Hi. revert rs items Hr. induction Hi as [pos|pos t e0 ts e Ht Hi IH]; intros rs items Hr Hit.
  - apply Forall2_nil_inv_r in Hit as ->. apply Forall2_nil_inv_r in Hr as ->. by exists [].
  - apply Forall2_cons_inv_r in Hit as (item & items' & Hitem & Hit & ->). apply Forall2_cons_inv_r in Hr as (r & rs' & Hr & Hrs & ->).
    destruct (IH _ _ Hrs Hit) as (l & -> & Hl). destruct (typed_item_same s r t item pos e0 Hr Ht Hitem) as (r' & -> & Hsame).
    exists (r' :: l). split; [done|by constructor].
Qed.

(** A message built by pushing questions and records with any of the types of zone
    record data, onto a target that does not compress names, gives the same
    records with the same data back when it is read with [limit_to] as records
    with zone record data, section by section.  (C7) *)
Theorem typed_message_roundtrip target mb qs an ns ar qs' an' ns' ar' :
  mb_from_target target = Some mb ->
  Forall2 question_ok qs qs' -> Forall2 (record_stands (B:=B) zone_stands) an an' ->
  Forall2 (record_stands (B:=B) zone_stands) ns ns' -> Forall2 (record_stands (B:=B) zone_stands) ar ar' ->
  zlen qs' < 2 ^ 16 -> zlen an' < 2 ^ 16 -> zlen ns' < 2 ^ 16 -> zlen ar' < 2 ^ 16 ->
  12 + zlen (secs_wire (am_secs (am_of qs' an' ns' ar'))) < NO_LIMIT ->
  exists b calls, any_calls (B:=B) (build_calls (N:=N) qs an ns ar) (BMessage mb) = Ret (b, calls) /\ Forall (fun r => r = Ok ()) calls /\
    forall k, exists rs rs', msg_section (P:=P) k (mkMessage (mb_into_message (any_mb b))) = Ret (Ok rs) /\
      ri_collect section_fuel (rs_limit_to rs) = Ret (map Ok rs') /\ Forall2 same_record (section_of k an ns ar) rs'.
Proof using All.
  intros Hnew Hq Ha Hn Hr Cq Ca Cn Cr Hsize.
  destruct (message_built (B:=B) zone_stands target mb qs an ns ar qs' an' ns' ar') as (b & calls & Hc & Hcs & Hh); try done.
  exists b, calls. split_and!; [done|done|]. intros k. set (s := mb_into_message (any_mb b)) in *.
  destruct (holds_section (P:=P) k _ _ _ _ _ Hh) as (rs & e & Es & Hb). destruct Hh as (_ & Hs & _).
  destruct (rs_before_typed _ _ _ _ _ false Hb) as (ts & Ets & Hri & Hlt).
  destruct (ri_collect_spec (fun _ => true) zone_at (zone_rel wf_parsed) s Hs section_fuel _ _ Hri Hlt Hlt) as (items & Ei & Hi).
  cbn [ri_in_only] in Hi.
  rewrite all_chosen in Hi.
  assert (Hk : Forall2 (record_stands (B:=B) zone_stands) (section_of k an ns ar) (map fst ts)) by (rewrite Ets; by destruct k).
  destruct Hri as (_ & _ & e' & Hit). destruct (typed_items_same s _ _ _ _ _ Hk Hit Hi) as (rs' & -> & Hsame). by exists rs, rs'.
Qed.
End TypedRoundTrip.

(** ** Examples *)

(** A response to [a. A IN] that says that [a] is an alias of [b]. *)
Definition ex_alias : list Z :=
  [1; 2; 0x80; 0; 0; 1; 0; 1; 0; 0; 0; 0;
   1; 97; 0; 0; 1; 0; 1;
   0xC0; 12; 0; 5; 0; 1; 0; 0; 0; 9; 0; 3; 1; 98; 0].

Definition ex_aliases : list arecord := [mkArecord [[97]; []] 5 1 9 [1; 98; 0]].

Lemma ex_alias_holds : holds ex_alias ex_questions ex_aliases [] [].
Proof.
  assert (Hname : at_labels ex_alias 12 [[97]; []] 15).
  { apply at_label; [done|by_decide|done|]. by apply at_root. }
  split_and!; [by_decide|by_decide|done..|]. exists 19%nat, 34%nat, 34%nat, 34%nat. split_and!.
  - econstructor; [|constructor]. split; [split; by_decide|]. exists 15%nat. by split_and!; [|by_decide| |].
  - econstructor; [|constructor]. split; [split_and!; by_decide|]. exists 21%nat.
    split_and!; [|by_decide|done|done]. by apply (at_pointer _ 19 0xC0 12 _ 15); [done|lia|done|by_decide|].
  - constructor.
  - constructor.
Qed.

Lemma typed_records_correct_witness :
  exists rs items, msg_section (P:=lim_parser) Answer (mkMessage ex_alias) = Ret (Ok rs) /\
    ri_collect (D:=ZoneRecordData ParsedName) section_fuel (rs_limit_to_in rs) = Ret items /\ length items = 1%nat.
Proof.
  destruct (typed_records_correct (P:=lim_parser) (fun _ => true) zone_at (zone_rel wf_parsed) Answer true _ _ _ _ _ ex_alias_holds)
    as (rs & ts & items & H1 & H2 & _ & H3 & H4).
  exists rs, items. split_and!; [exact H1|exact H3|]. rewrite (Forall2_length _ _ _ H4).
  destruct ts as [|[a e] [|]]; try discriminate H2. injection H2 as ->. reflexivity.
Defined.

Definition ex_zone_rr : ResourceRecord Name (ZoneRecordData Name) := mkRR ex_ba 1 300 (ZoneMx (mkMx 10 ex_ba)).

Lemma ex_zone_rr_stands :
  record_stands (B:=list Z) zone_stands ex_zone_rr (mkArecord [[98]; [97]; []] 15 1 300 [0; 10; 1; 98; 1; 97; 0]).
Proof.
  split; [|by_decide]. split_and!; [apply ex_ba_ok|done..| |split_and!; by_decide]. exists (ZoneMx ex_mx). split; [|done].
  split; [|apply ex_mx_ok]. split; [reflexivity|apply ex_ba_ok].
Qed.

Lemma typed_message_roundtrip_witness :
  exists mb b calls rs rs', mb_from_target (B:=list Z) [] = Some mb /\
    any_calls (build_calls [ex_question] [ex_zone_rr] [] []) (BMessage mb) = Ret (b, calls) /\
    msg_section (P:=lim_parser) Answer (mkMessage (mb_into_message (any_mb b))) = Ret (Ok rs) /\
    ri_collect section_fuel (rs_limit_to rs) = Ret (map Ok rs') /\ Forall2 same_record [ex_zone_rr] rs'.
Proof.
  exists (mkMB (replicate 12 0) NO_LIMIT).
  destruct (typed_message_roundtrip (B:=list Z) (P:=lim_parser) [] (mkMB (replicate 12 0) NO_LIMIT)
    [ex_question] [ex_zone_rr] [] [] [mkQuestion [[98]; [97]; []] 1 1]
    [mkArecord [[98]; [97]; []] 15 1 300 [0; 10; 1; 98; 1; 97; 0]] [] []) as (b & calls & Hc & _ & Hr);
    [reflexivity|..|destruct (Hr Answer) as (rs & rs' & H1 & H2 & H3); exists b, calls, rs, rs'; split_and!;
      [reflexivity|exact Hc|exact H1|exact H2|exact H3]]; try by_decide.
  - constructor; [|constructor]. split_and!; [apply ex_ba_ok|done|done|split; by_decide].
  - constructor; [apply ex_zone_rr_stands|constructor].
  - constructor.
  - constructor.
Defined.
