(* ===== verification/Canonical.v ===== *)
(** * The canonical name

    [Message::canonical_name] in [src/base/message.rs] against a reference:
    following the aliases that the CNAME records of the answer section give.  The
    code bounds the number of steps by the number of records; that is enough,
    since a chain of aliases that ends uses every record at most once. *)

From S2P Require Import Prelude Octets Label Traits Name ParsedName Header MessageBuilder Message Record Layout Rdata ZoneData Typed.
From stdpp Require Import strings.
#[local] Open Scope Z_scope.

(** ** Following aliases *)

(** An alias and the name it stands for. *)
Definition alias : Type := labels * labels.

Section Follow.
Context (als : list alias).

(** The first alias with the name, up to case. *)
Definition alias_at (n : labels) : option (nat * alias) := list_find (fun a => canon a.1 = canon n) als.
Definition next_name (n : labels) : option labels := (fun x => x.2.2) <$> alias_at n.

Fixpoint follow (k : nat) (n : labels) : option labels :=
  match k with O => Some n | S k' => next_name n ≫= follow k' end.

(** The [k]th name is the last. *)
Definition ends_at (k : nat) (n m : labels) : Prop := follow k n = Some m /\ next_name m = None.

Lemma ends_at_S k n m : ends_at (S k) n m <-> exists n', next_name n = Some n' /\ ends_at k n' m.
Proof.
  unfold ends_at. simpl. destruct (next_name n) as [n'|]; simpl; [|split; [by intros []|by intros (? & ? & _)]]. split; [by exists n'|by intros (? & [= <-] & ?)].
Qed.

Lemma ends_at_unique k k' n m m' : ends_at k n m -> ends_at k' n m' -> k = k' /\ m = m'.
Proof.
  revert k' n; induction k as [|k IH]; intros [|k'] n.
  - by intros [[= ->] _] [[= ->] _].
  - intros [[= ->] E] (n' & E' & _)%ends_at_S. congruence.
  - intros (n' & E' & _)%ends_at_S [[= ->] E]. congruence.
  - intros (n' & E & Hk)%ends_at_S (n'' & E' & Hk')%ends_at_S. rewrite E in E'. injection E' as <-.
    destruct (IH _ _ Hk Hk') as [-> ->]. done.
Qed.

(** The places of the aliases used on the way to the end differ. *)
Lemma ends_at_places k n m :
  ends_at k n m -> exists l, length l = k /\ NoDup l /\
    forall i, i ∈ l -> exists (a : alias) j, als !! i = Some a /\ (j < k)%nat /\ ends_at j a.2 m.
Proof.
  revert n; induction k as [|k IH]; intros n.
  - intros _. exists []. split_and!; [done|constructor|]. by intros i ?%elem_of_nil.
  - intros (n' & Hn & Hk)%ends_at_S. destruct (IH _ Hk) as (l & Hl & Hd & Hi).
    unfold next_name in Hn. destruct (alias_at n) as [[i a]|] eqn:Ha; [|done]. injection Hn as <-.
    apply list_find_Some in Ha as (Ha & _). exists (i :: l). split_and!; [simpl; lia| |].
    + constructor; [|done]. intros (a' & j & Ea & Hj & He)%Hi. assert (a = a') as <- by congruence.
      destruct (ends_at_unique _ _ _ _ _ Hk He). lia.
    + intros i' [->|(a' & j & ? & ? & ?)%Hi]%elem_of_cons; [exists a, k; by split_and!; [|lia|]|exists a', j; by split_and!; [|lia|]].
Qed.

Lemma ends_at_bound k n m : ends_at k n m -> (k <= length als)%nat.
Proof.
  intros (l & <- & Hd & Hi)%ends_at_places. rewrite <- (length_seq (length als) 0). apply NoDup_incl_length; [by apply NoDup_ListNoDup|].
  intros i Hin%list_elem_of_In. apply in_seq. destruct (Hi i Hin) as (a & _ & Ha%lookup_lt_Some & _). lia.
Qed.

(** Either the chain ends or it can be followed forever. *)
Lemma follow_ends_or k n : is_Some (follow k n) \/ exists j m, (j < k)%nat /\ ends_at j n m.
Proof.
  revert n; induction k as [|k IH]; intros n; [by left; exists n|]. simpl. destruct (next_name n) as [n'|] eqn:E; simpl.
  - destruct (IH n') as [Hs|(j & m & Hj & He)]; [by left|]. right. exists (S j), m. split; [lia|]. apply ends_at_S. by exists n'.
  - right. exists 0%nat, n. split; [lia|by split].
Qed.
End Follow.

Lemma next_name_cons a als n :
  next_name (a :: als) n = if bool_decide (canon a.1 = canon n) then Some a.2 else next_name als n.
Proof.
  unfold next_name, alias_at. cbn [list_find]. rewrite decide_bool_decide. case_bool_decide; [done|].
  rewrite <- option_fmap_compose. by apply option_fmap_ext.
Qed.

(** ** The aliases of a message *)

Section Canonical.
Context {P : Type} `{OctetsParserOk P} `{!OctetsParserRef P} `{!OctetsParserRefOk P} `{!OctetsParserSub P} `{!OctetsParserSubOk P}.
Context (s : list Z) (Hs : wf_octets s).

Let wants : Z -> bool := fun rtype => rtype =? RTYPE_CNAME.
Let cname_at : Z -> layout (NameData labels) := fun _ => name_data_at.

(** The aliases that CNAME records give: those with a name as their data. *)
Inductive aliases_of : list trec -> list alias -> Prop :=
  | aliases_nil : aliases_of [] []
  | aliases_cons t l x als : data_of cname_at s t x -> aliases_of l als -> aliases_of (t :: l) ((ar_owner t.1, nd_name x) :: als)
  | aliases_skip t l als : (forall x, ~ data_of cname_at s t x) -> aliases_of l als -> aliases_of (t :: l) als.

Lemma aliases_of_items items l :
  Forall2 (typed_item cname_at (name_data_rel wf_parsed) s) items l -> exists als, aliases_of l als.
Proof.
  induction 1 as [|item t items l [Hc Hi] _ (als & IH)]; [exists []; constructor|]. destruct item as [r|err].
  - destruct (Hi r eq_refl) as (x & Hx & _). eexists. by econstructor.
  - exists als. constructor 3; [|done]. intros x Hx. by destruct (Hc x Hx) as (r & ? & _).
Qed.

Lemma aliases_of_length l als : aliases_of l als -> (length als <= length l)%nat.
Proof. induction 1; simpl; lia. Qed.

Lemma find_cname_spec fuel it l als name n :
  ri_before (P:=P) s it l -> ri_in_only it = false -> (length l < fuel)%nat -> (length l < section_fuel)%nat ->
  aliases_of (filter (chosen wants false) l) als -> wf_parsed name n ->
  exists r, find_cname fuel it name = Ret r /\ option_Forall2 wf_parsed r (next_name als n).
Proof using All.
  revert it l als; induction fuel as [|fuel IH]; intros it l als Hl Ho Hf Hsf Ha Hn; [lia|]. cbn [find_cname]. unfold ri_next.
  destruct (ri_next_spec wants cname_at (name_data_rel wf_parsed) s Hs section_fuel it l Hl Hsf) as (item & it' & -> & Ei & Hm).
  rewrite Ho in *. destruct item as [item|].
  - destruct Hm as (t & l' & Efl & Hlen & [Hc Hi] & Hl'). rewrite Efl in Ha.
    inversion Ha as [|? ? x als' Hx Ha'|? ? ? Hx Ha']; subst.
    + destruct (Hc x Hx) as (r & -> & Ho' & _ & _ & Hd).
      rewrite (parsed_eq _ _ _ _ Ho' Hn), next_name_cons; cbn [fst snd]. case_bool_decide as Hq.
      * eexists; split; [done|]. by constructor.
      * apply (IH it' l'); [done|done|lia|lia|done|done].
    + destruct item as [r|err]; [by destruct (Hi r eq_refl) as (x & Hx' & _); destruct (Hx x)|]. apply (IH it' l'); [done..|lia|lia|done|done].
  - rewrite Hm in Ha. inversion Ha; subst. eexists; split; [done|constructor].
Qed.

Lemma cname_loop_spec steps it l als name n :
  ri_before (P:=P) s it l -> ri_in_only it = false -> (length l < section_fuel)%nat ->
  aliases_of (filter (chosen wants false) l) als -> wf_parsed name n ->
  exists r, cname_loop steps it name = Ret r /\
    match r with
    | Some name => exists k m, ends_at als k n m /\ wf_parsed name m
    | None => forall k m, ends_at als k n m -> (steps <= k)%nat
    end.
Proof using All.
  intros Hl Ho Hf Ha. revert name n; induction steps as [|steps IH]; intros name n Hn; cbn [cname_loop].
  - eexists; split; [done|]. intros k m _; apply Nat.le_0_l.
  - destruct (find_cname_spec section_fuel it l als name n Hl Ho Hf Hf Ha Hn) as (r & -> & Hr).
    inversion Hr as [name' n' Hn' Er En|Er En]; subst.
    + destruct (IH name' n' Hn') as (r & -> & Hm). exists r. split; [done|]. destruct r as [r|].
      * destruct Hm as (k & m & He & Hw). exists (S k), m. split; [|done]. apply ends_at_S. by exists n'.
      * intros [|k] m He; [by destruct He as [[= ->] E]; rewrite E in En|]. apply ends_at_S in He as (n'' & E & He).
        rewrite E in En. injection En as ->. pose proof (Hm k m He). lia.
    + eexists; split; [done|]. exists 0%nat, n. done.
Qed.
End Canonical.

Section CanonicalName.
Context {P : Type} `{OctetsParserOk P} `{!OctetsParserRef P} `{!OctetsParserRefOk P} `{!OctetsParserSub P} `{!OctetsParserSubOk P}.

(** Records laid out at one place are the same. *)
Lemma trecs_same s pos ts e ts' e' :
  items_at (trec_at s) pos ts e -> items_at (trec_at s) pos ts' e' -> map fst ts = map fst ts' -> ts = ts'.
Proof.
  intros Hi. revert ts' e'. induction Hi as [pos|pos [a e0] e1 ts e [[_ Ha] Et] _ IH]; intros [|[a' e0'] ts'] e' Hi' Em; try done.
  cbn in Em. injection Em as <- Em. inversion Hi' as [|? ? e2 ? ? [[_ Ha'] Et'] Hi2 Ep El]; subst. cbn in *.
  pose proof (item_at_end _ _ _ _ _ _ _ Ha Ha' eq_refl) as Ee. subst. f_equal. by eapply IH.
Qed.

(** What the loop runs over. *)
Lemma canonical_start oc s qs ts ns ar q e1 e2 :
  holds s qs (map fst ts) ns ar -> items_at (question_at s) 12 qs e1 -> items_at (trec_at s) e1 ts e2 -> head qs = Some q ->
  exists rs name, ri_before (P:=P) s (rs_limit_to rs) ts /\ (length ts < section_fuel)%nat /\ wf_parsed name (qname q) /\
    msg_canonical_name (P:=P) oc (mkMessage s) =
      let! steps := (if zlen ts + 1 <? 2 ^ 16 then Ret (zlen ts + 1) else if oc then Panic else Ret 0) in
      cname_loop (Z.to_nat steps) (rs_limit_to rs) name.
Proof using H0 OctetsParserRefOk0 OctetsParserSubOk0.
  intros Hh Hiq Hit Hq. pose proof Hh as (Hl & Hs & Hqd & Ha & _ & _ & e1' & e2' & _ & _ & Hiq' & Hia & _).
  assert (e1' = e1) as -> by (by eapply questions_end).
  destruct (holds_first_question (P:=P) _ _ _ _ _ Hh) as (first & Ef & Hf). rewrite Hq in Hf.
  inversion Hf as [x ? (Hn & _) E1 E2|]; subst.
  destruct (question_start (P:=P) s qs e1 Hl Hs Hqd Hiq) as (Hz & qsec & Eq & Bq).
  destruct (qs_answer_before _ _ _ _ _ _ Bq Hz Hl Hia Ha) as (rs & Ea & Hb).
  pose proof (qs_answer_pos _ _ _ _ _ Bq Hz Ea) as Hpos.
  assert (Es : msg_answer (P:=P) (mkMessage s) = Ret (Ok rs)) by (unfold msg_answer; by rewrite Eq, Ea).
  destruct (rs_before_typed _ _ _ _ _ false Hb) as (ts' & Ets & Hri & Hlt).
  assert (ts' = ts) as -> by (pose proof Hri as (_ & _ & e & Hit'); cbn in Hit'; rewrite Hpos in Hit'; by eapply trecs_same).
  eexists rs, _. split_and!; [done..|].
  unfold msg_canonical_name. rewrite Ef, Es. unfold msg_header_counts, counts_for_message_slice. cbn [msg_octets].
  destruct (Nat.leb_spec 12 (length s)); [|lia]. fold (counts_of s). rewrite Ha. unfold zlen. by rewrite length_map.
Qed.

(** The alias a CNAME record of a message stands for: its owner and the name that
    its data is, possibly compressed. *)
Definition alias_in (s : list Z) (t : trec) (a : alias) : Prop :=
  exists x, data_of (fun _ => name_data_at) s t x /\ a = (ar_owner t.1, nd_name x).

Definition cname_records (ts : list trec) : list trec := filter (fun t => ar_rtype t.1 = 5) ts.

Lemma cname_records_chosen ts : cname_records ts = filter (chosen (fun rtype => rtype =? RTYPE_CNAME) false) ts.
Proof.
  unfold cname_records. apply list_filter_iff. intros t. unfold chosen. cbn. rewrite Is_true_true. symmetry. apply Z.eqb_eq.
Qed.

Lemma aliases_all s l als : Forall2 (alias_in s) l als -> aliases_of s l als.
Proof. induction 1 as [|t a l als (x & Hx & ->) _ IH]; [constructor|]. by constructor. Qed.

(** The canonical name of a message that holds the given questions and records (of
    which fewer than 65,535 are answers, [ts] with the places where they end), if
    all CNAME records of the answer section can be read, as the aliases [als]: it is
    the last name of the chain of aliases that starts with the name of the first
    question, aliases being compared without case and the first one that matches
    being taken.  There is none exactly if there is no question or the chain can be
    followed forever, so that bounding the number of steps by the number of answers
    loses nothing.  Nothing is claimed for a message with a CNAME record that cannot
    be read: the documentation promises no result then, and the code skips the
    record.  (C12) *)
Theorem canonical_name_correct oc s qs ts ns ar e1 e2 als :
  holds s qs (map fst ts) ns ar -> items_at (question_at s) 12 qs e1 -> items_at (trec_at s) e1 ts e2 ->
  zlen ts + 1 < 2 ^ 16 -> Forall2 (alias_in s) (cname_records ts) als ->
  exists r, msg_canonical_name (P:=P) oc (mkMessage s) = Ret r /\
  match head qs, r with
  | None, _ => r = None
  | Some q, Some name => exists k m, ends_at als k (qname q) m /\ wf_parsed name m
  | Some q, None => forall k, is_Some (follow als k (qname q))
  end.
Proof using H0 OctetsParserRefOk0 OctetsParserSubOk0.
  intros Hh Hiq Hit Hlen Hals. destruct (head qs) as [q|] eqn:Hq.
  - destruct (canonical_start oc s qs ts ns ar q e1 e2 Hh Hiq Hit Hq) as (rs & name & Hri & Hlt & Hn & ->).
    destruct (Z.ltb_spec (zlen ts + 1) (2 ^ 16)); [|lia].
    apply aliases_all in Hals. rewrite cname_records_chosen in Hals.
    destruct (cname_loop_spec (P:=P) s (proj1 (proj2 Hh)) (Z.to_nat (zlen ts + 1)) (rs_limit_to rs) ts als name (qname q)) as (r & -> & Hr); try done.
    exists r. split; [done|]. destruct r as [r|]; [done|].
    intros k. destruct (follow_ends_or als k (qname q)) as [|(j & m & _ & He)]; [done|]. exfalso.
    pose proof (Hr _ _ He). pose proof (ends_at_bound _ _ _ _ He).
    pose proof (Nat.le_trans _ _ _ (aliases_of_length _ _ _ Hals) (length_filter _ _)). unfold zlen, trec in *. lia.
  - destruct (holds_first_question (P:=P) _ _ _ _ _ Hh) as (first & Ef & Hf). rewrite Hq in Hf. inversion Hf; subst.
    unfold msg_canonical_name. rewrite Ef. by eexists.
Qed.

(** With 65,535 answers the number of steps overflows: a panic where overflow is
    checked, and no steps at all where it is not. *)
Theorem canonical_name_overflow s qs an ns ar q :
  holds s qs an ns ar -> head qs = Some q -> zlen an = 2 ^ 16 - 1 ->
  msg_canonical_name (P:=P) true (mkMessage s) = Panic /\ msg_canonical_name (P:=P) false (mkMessage s) = Ret None.
Proof using H0 OctetsParserRefOk0 OctetsParserSubOk0.
  intros Hh Hq Hlen. pose proof Hh as (_ & _ & _ & _ & _ & _ & e1 & e2 & _ & _ & Hiq & Hia & _).
  apply items_ends in Hia as (ts & <- & Hit). unfold zlen in Hlen. rewrite length_map in Hlen.
  split; [destruct (canonical_start true s qs ts ns ar q e1 e2 Hh Hiq Hit Hq) as (? & ? & _ & _ & _ & ->)
    |destruct (canonical_start false s qs ts ns ar q e1 e2 Hh Hiq Hit Hq) as (? & ? & _ & _ & _ & ->)]; unfold zlen; by rewrite Hlen.
Qed.
End CanonicalName.

(** ** Example *)

(** The question is for [a.], which is an alias of [b.]. *)
Lemma canonical_name_correct_witness :
  exists r, msg_canonical_name (P:=lim_parser) true (mkMessage ex_alias) = Ret r /\
    match r with Some name => wf_parsed name [[98]; []] | None => False end.
Proof.
  pose proof ex_alias_holds as Hh. pose proof Hh as (_ & _ & _ & _ & _ & _ & e1 & e2 & _ & _ & Hiq & Hia & _).
  assert (Hname : at_labels ex_alias 12 [[97]; []] 15).
  { apply at_label; [done|by_decide|done|]. by apply at_root. }
  assert (Hiq' : items_at (question_at ex_alias) 12 ex_questions 19).
  { econstructor; [|constructor]. split; [split; by_decide|]. exists 15%nat. by split_and!; [|by_decide| |]. }
  assert (Hit : items_at (trec_at ex_alias) 19 (map (fun a => (a, 34%nat)) ex_aliases) 34).
  { econstructor; [|constructor]. split; [|done]. split; [split_and!; by_decide|]. exists 21%nat.
    split_and!; [|by_decide|done|done]. by apply (at_pointer _ 19 0xC0 12 _ 15); [done|lia|done|by_decide|]. }
  destruct (canonical_name_correct (P:=lim_parser) true ex_alias ex_questions (map (fun a => (a, 34%nat)) ex_aliases) [] [] 19 34
    [([[97]; []], [[98]; []])] Hh Hiq' Hit) as (r & Hr & Hm); [by_decide| |].
  { constructor; [|constructor]. exists (mkNameData [[98]; []]). split; [|done].
    exists [[98]; []], 34%nat. split; [|done]. split; [|by_decide]. apply at_label; [done|by_decide|done|]. by apply at_root. }
  exists r. split; [exact Hr|]. destruct r as [name|].
  - destruct Hm as (k & m & He & Hw). cbn in He.
    destruct (ends_at_unique [([[97]; []], [[98]; []])] 1 k [[97]; []] [[98]; []] m) as [_ ->]; [by split|exact He|exact Hw].
  - cbn in Hm. destruct (Hm 2%nat) as [x Hx]. discriminate Hx.
Defined.
