(* ===== verification/Xfr.v ===== *)
(** * Interpreting zone transfers

    [src/net/xfr/protocol/]: the interpreter that turns the response messages of
    an AXFR or IXFR into a sequence of zone updates, and [ZoneUpdate] of
    [src/zonetree/types.rs].

    The interpreter is driven by its user: each response message gives an
    iterator over updates, which works on the state of the interpreter.  The
    relation [xfr_step] is the ways to drive it.  What it means is given by the
    grammar of transfers of RFC 5936 and RFC 1995, [transfer]. *)

From S2P Require Import Prelude Octets Serial Label Traits Name ParsedName Header Compressor MessageBuilder Message Record Ttl Layout Rdata ZoneData Typed.
From stdpp Require Import strings relations.
#[local] Open Scope Z_scope.

Definition RTYPE_IXFR : Z := 251.
Definition RTYPE_AXFR : Z := 252.
Definition OPCODE_QUERY : Z := 0.

(** ** Types *)

Inductive XfrType := Axfr | Ixfr.

Inductive IxfrUpdateMode := Deleting | Adding.

#[export] Instance xfr_type_eq_dec : EqDecision XfrType.
Proof. solve_decision. Defined.
#[export] Instance ixfr_mode_eq_dec : EqDecision IxfrUpdateMode.
Proof. solve_decision. Defined.

Definition toggle (m : IxfrUpdateMode) : IxfrUpdateMode := match m with Deleting => Adding | Adding => Deleting end.

Inductive XfrError := XfrParseError (err : ParseError) | NotValidXfrResponse | Malformed | XfrFinished.

(** [IterationError]. *)
Inductive IterationError := IterParseError (err : ParseError).

Inductive ZoneUpdate (R : Type) :=
  | DeleteAllRecords
  | DeleteRecord (r : R)
  | AddRecord (r : R)
  | BeginBatchDelete (r : R)
  | BeginBatchAdd (r : R)
  | Finished (r : R).
Arguments DeleteAllRecords {R}.
Arguments DeleteRecord {R} r.
Arguments AddRecord {R} r.
Arguments BeginBatchDelete {R} r.
Arguments BeginBatchAdd {R} r.
Arguments Finished {R} r.

(** [ParsedRecord] of the transfer protocol. *)
Definition XfrRecord : Type := ResourceRecord ParsedName (ZoneRecordData ParsedName).

Record RecordProcessor := mkRP {
  actual_xfr_type : XfrType; initial_soa : Soa ParsedName; current_soa : Soa ParsedName;
  ixfr_update_mode : IxfrUpdateMode; rr_count : Z; finished : bool }.

(** ** Processing a record *)

Definition rp_new (initial_xfr_type : XfrType) (initial_soa : Soa ParsedName) : RecordProcessor :=
  mkRP initial_xfr_type initial_soa initial_soa Deleting 0 false.

Definition soa_of (rec : XfrRecord) : option (Soa ParsedName) :=
  match rr_data rec with ZoneSoa soa => Some soa | _ => None end.

(** The match on the type of transfer, with [rr_count] already counted up.
    [debug] tells whether debug assertions are compiled in. *)
Definition process_update (debug : bool) (s : RecordProcessor) (rec : XfrRecord) (matches : bool)
    : outcome (RecordProcessor * ZoneUpdate XfrRecord) :=
  let soa := soa_of rec in
  match actual_xfr_type s with
  | Axfr => Ret (s, if matches then Finished rec else AddRecord rec)
  | Ixfr =>
      if rr_count s <? 2 then Panic
      else if rr_count s =? 2 then
        if matches then Ret (s, Finished rec)
        else match soa with
          | Some soa =>
              if debug && negb (bool_decide (ixfr_update_mode s = Deleting)) then Panic
              else Ret (mkRP (actual_xfr_type s) (initial_soa s) soa (ixfr_update_mode s) (rr_count s) (finished s), BeginBatchDelete rec)
          | None =>
              Ret (mkRP Axfr (initial_soa s) (current_soa s) (ixfr_update_mode s) (rr_count s) (finished s), AddRecord rec)
          end
      else match soa with
        | Some soa =>
            let mode := toggle (ixfr_update_mode s) in
            Ret (mkRP (actual_xfr_type s) (initial_soa s) soa mode (rr_count s) (finished s),
                 match mode with
                 | Deleting => if matches then Finished rec else BeginBatchDelete rec
                 | Adding => BeginBatchAdd rec
                 end)
        | None => Ret (s, match ixfr_update_mode s with Deleting => DeleteRecord rec | Adding => AddRecord rec end)
        end
  end.

Definition process_record (debug : bool) (s : RecordProcessor) (rec : XfrRecord)
    : outcome (RecordProcessor * ZoneUpdate XfrRecord) :=
  let s := mkRP (actual_xfr_type s) (initial_soa s) (current_soa s) (ixfr_update_mode s) (rr_count s + 1) (finished s) in
  let! matches := (match soa_of rec with Some soa => soa_eq soa (initial_soa s) | None => Ret false end) in
  let! (s, update) := process_update debug s rec matches in
  let fin := match update with Finished _ => true | _ => finished s end in
  Ret (mkRP (actual_xfr_type s) (initial_soa s) (current_soa s) (ixfr_update_mode s) (rr_count s) fin, update).

(** ** The interpreter *)

Section Interpreter.
Context {P : Type} `{OctetsParser P} `{!OctetsParserRef P} `{!OctetsParserSub P}.

Record Inner := mkInner { in_resp : Message; in_state : RecordProcessor }.

(** [XfrResponseInterpreter]. *)
Definition XfrResponseInterpreter : Type := option Inner.

Definition xfr_new : XfrResponseInterpreter := None.

Definition xfr_is_finished (i : XfrResponseInterpreter) : bool :=
  match i with Some inner => finished (in_state inner) | None => false end.

Definition check_response (i : XfrResponseInterpreter) (resp : Message) : outcome (result unit XfrError) :=
  let! header := msg_header resp in
  let! counts := msg_header_counts resp in
  let! error := msg_is_error resp in
  if error || negb (header_qr header) || negb (header_opcode header =? OPCODE_QUERY) || header_tc header
     || (ancount counts =? 0) || negb (nscount counts =? 0)
  then Ret (Err NotValidXfrResponse)
  else
    let first_message := match i with None => true | Some _ => false end in
    if (first_message && negb (qdcount counts =? 1)) || (negb first_message && (1 <? qdcount counts))
    then Ret (Err NotValidXfrResponse)
    else Ret (Ok ()).

Definition inner_new (resp : Message) : outcome (result Inner XfrError) :=
  let! answer := msg_answer (P:=P) resp in
  match answer with
  | Err err => Ret (Err (XfrParseError err))
  | Ok answer =>
      let records := rs_limit_to answer in
      let! qtype := msg_qtype (P:=P) resp in
      let! xfr_type :=
        (match qtype with
         | Some t => if t =? RTYPE_AXFR then Ret Axfr else if t =? RTYPE_IXFR then Ret Ixfr else Panic
         | None => Panic
         end) in
      let! (record, _) := ri_next (D:=ZoneRecordData ParsedName) records in
      match record with
      | Some (Ok record) =>
          match rr_data record with
          | ZoneSoa soa => Ret (Ok (mkInner resp (rp_new xfr_type soa)))
          | _ => Ret (Err NotValidXfrResponse)
          end
      | _ => Ret (Err Malformed)
      end
  end.

(** The iterator over updates is its record iterator: its state is that of the
    interpreter it borrows. *)
Definition XfrZoneUpdateIterator : Type := RecordIter P.

Definition xfr_iter_new (state : RecordProcessor) (resp : Message) : outcome (result XfrZoneUpdateIterator XfrError) :=
  let! answer := msg_answer (P:=P) resp in
  match answer with
  | Err err => Ret (Err (XfrParseError err))
  | Ok answer =>
      let iter := rs_limit_to answer in
      if rr_count state =? 0 then
        let! (item, iter) := ri_next (D:=ZoneRecordData ParsedName) iter in
        match item with Some (Ok _) => Ret (Ok iter) | _ => Ret (Err Malformed) end
      else Ret (Ok iter)
  end.

Definition interpret_response (i : XfrResponseInterpreter) (resp : Message)
    : outcome (XfrResponseInterpreter * result XfrZoneUpdateIterator XfrError) :=
  if xfr_is_finished i then Ret (i, Err XfrFinished)
  else
    let! checked := check_response i resp in
    match checked with
    | Err err => Ret (i, Err err)
    | Ok _ =>
        let! r := (match i with Some inner => Ret (Ok (mkInner resp (in_state inner))) | None => inner_new resp end) in
        match r with
        | Err err => Ret (i, Err err)
        | Ok inner => let! it := xfr_iter_new (in_state inner) (in_resp inner) in Ret (Some inner, it)
        end
    end.

(** [next] of the iterator. *)
Definition xfr_next (debug : bool) (state : RecordProcessor) (iter : XfrZoneUpdateIterator)
    : outcome (RecordProcessor * XfrZoneUpdateIterator * option (result (ZoneUpdate XfrRecord) IterationError)) :=
  let first := rr_count state =? 0 in
  let state := if first
    then mkRP (actual_xfr_type state) (initial_soa state) (current_soa state) (ixfr_update_mode state) 1 (finished state) else state in
  if first && bool_decide (actual_xfr_type state = Axfr) then Ret (state, iter, Some (Ok DeleteAllRecords))
  else
    let! (item, iter) := ri_next (D:=ZoneRecordData ParsedName) iter in
    match item with
    | None => Ret (state, iter, None)
    | Some (Ok record) => let! (state, update) := process_record debug state record in Ret (state, iter, Some (Ok update))
    | Some (Err err) => Ret (state, iter, Some (Err (IterParseError err)))
    end.
End Interpreter.

(** ** What a record is *)

(** A record with its name as labels. *)
Definition arr : Type := ResourceRecord labels (ZoneRecordData labels).

Definition rr_is (r : XfrRecord) (a : arr) : Prop :=
  wf_parsed (rr_owner r) (rr_owner a) /\ rr_class r = rr_class a /\ rr_ttl r = rr_ttl a /\ zone_rel wf_parsed (rr_data r) (rr_data a).

Definition update_is (u : ZoneUpdate XfrRecord) (v : ZoneUpdate arr) : Prop :=
  match u, v with
  | DeleteAllRecords, DeleteAllRecords => True
  | DeleteRecord r, DeleteRecord a | AddRecord r, AddRecord a | BeginBatchDelete r, BeginBatchDelete a
  | BeginBatchAdd r, BeginBatchAdd a | Finished r, Finished a => rr_is r a
  | _, _ => False
  end.

(** SOA data is the same if its names are up to case and all else is. *)
Definition same_soa (x y : Soa labels) : Prop :=
  canon (soa_mname x) = canon (soa_mname y) /\ canon (soa_rname x) = canon (soa_rname y) /\
  serial_int (soa_serial x) = serial_int (soa_serial y) /\ ttl_secs (soa_refresh x) = ttl_secs (soa_refresh y) /\
  ttl_secs (soa_retry x) = ttl_secs (soa_retry y) /\ ttl_secs (soa_expire x) = ttl_secs (soa_expire y) /\
  ttl_secs (soa_minimum x) = ttl_secs (soa_minimum y).

#[export] Instance same_soa_dec x y : Decision (same_soa x y).
Proof. unfold same_soa. apply _. Defined.

Definition asoa (a : arr) : option (Soa labels) := match rr_data a with ZoneSoa x => Some x | _ => None end.

(** The record is the SOA [x]. *)
Definition is_soa (x : Soa labels) (a : arr) : Prop := match asoa a with Some y => same_soa y x | None => False end.

#[export] Instance is_soa_dec x a : Decision (is_soa x a).
Proof. unfold is_soa. destruct (asoa a); apply _. Defined.

Lemma soa_eq_spec (a b : Soa ParsedName) x y :
  soa_rel wf_parsed a x -> soa_rel wf_parsed b y -> soa_eq a b = Ret (bool_decide (same_soa x y)).
Proof.
  intros (Hm & Hr & E1 & E2 & E3 & E4 & E5) (Hm' & Hr' & F1 & F2 & F3 & F4 & F5). unfold soa_eq.
  rewrite (parsed_eq _ _ _ _ Hm Hm'), (parsed_eq _ _ _ _ Hr Hr'), E1, E2, E3, E4, E5, F1, F2, F3, F4, F5.
  unfold and_then, same_soa.
  repeat match goal with |- context [?x =? ?y] => destruct (Z.eqb_spec x y) end;
    repeat case_bool_decide; cbn [andb]; first [done | tauto | f_equal; tauto].
Qed.

(** ** Processing records one after the other *)

Fixpoint process_all (debug : bool) (s : RecordProcessor) (rs : list XfrRecord)
    : outcome (RecordProcessor * list (ZoneUpdate XfrRecord)) :=
  match rs with
  | [] => Ret (s, [])
  | r :: rs =>
      let! (s, u) := process_record debug s r in
      let! (s, us) := process_all debug s rs in Ret (s, u :: us)
  end.

Lemma process_all_app debug s rs rs' :
  process_all debug s (rs ++ rs') =
  let! (s, us) := process_all debug s rs in let! (s, us') := process_all debug s rs' in Ret (s, us ++ us').
Proof.
  revert s; induction rs as [|r rs IH]; intros s; cbn [process_all app].
  - by destruct (process_all debug s rs') as [[s' us']|].
  - destruct (process_record debug s r) as [[s1 u]|]; [|done]. rewrite IH. destruct (process_all debug s1 rs) as [[s2 us]|]; [|done].
    by destruct (process_all debug s2 rs') as [[s3 us']|].
Qed.

Section Processing.
Context (debug : bool) (x0 : Soa labels).

(** The transfer is going on: no end was seen. *)
Definition going (t : XfrType) (s : RecordProcessor) : Prop :=
  actual_xfr_type s = t /\ soa_rel wf_parsed (initial_soa s) x0 /\ finished s = false.

(** Processing the records [l] in state [s] leads to a state [Q] and gives the
    updates [us]. *)
Definition processes (s : RecordProcessor) (l : list arr) (Q : RecordProcessor -> Prop) (us : list (ZoneUpdate arr)) : Prop :=
  forall rs, Forall2 rr_is rs l -> exists s' us', process_all debug s rs = Ret (s', us') /\ Forall2 update_is us' us /\ Q s'.

Lemma processes_nil s (Q : RecordProcessor -> Prop) : Q s -> processes s [] Q [].
Proof. intros HQ rs ->%Forall2_nil_inv_r. by eexists _, _. Qed.

Lemma processes_app s l l' (Q R : RecordProcessor -> Prop) us us' :
  processes s l Q us -> (forall s', Q s' -> processes s' l' R us') -> processes s (l ++ l') R (us ++ us').
Proof.
  intros Hl Hl' rs (rs1 & rs2 & F1 & F2 & ->)%Forall2_app_inv_r. rewrite process_all_app.
  destruct (Hl rs1 F1) as (s1 & u1 & -> & U1 & Q1). destruct (Hl' s1 Q1 rs2 F2) as (s2 & u2 & -> & U2 & R2).
  eexists _, _. split_and!; [done|by apply Forall2_app|done].
Qed.

Lemma processes_map {Q : RecordProcessor -> Prop} s l (f : arr -> ZoneUpdate arr) (ok : arr -> Prop) :
  (forall s a, Q s -> ok a -> processes s [a] Q [f a]) -> Q s -> Forall ok l -> processes s l Q (map f l).
Proof.
  intros Hstep HQ Hl. revert s HQ; induction Hl as [|a l Ha Hl IH]; intros s HQ; [by apply processes_nil|].
  apply (processes_app s [a] l Q Q [f a] (map f l)); auto.
Qed.

Lemma rr_is_soa r a : rr_is r a ->
  match soa_of r with Some soa => exists x, asoa a = Some x /\ soa_rel wf_parsed soa x | None => asoa a = None end.
Proof.
  intros (_ & _ & _ & Hd). unfold soa_of, asoa. destruct (rr_data r), (rr_data a); try done. by eexists.
Qed.

(** One record, whose update [process_update] tells. *)
Lemma processes_one s a (Q : RecordProcessor -> Prop) u :
  soa_rel wf_parsed (initial_soa s) x0 ->
  (forall r, rr_is r a -> exists s' u', update_is u' u /\
     process_update debug (mkRP (actual_xfr_type s) (initial_soa s) (current_soa s) (ixfr_update_mode s) (rr_count s + 1) (finished s))
       r (bool_decide (is_soa x0 a)) = Ret (s', u') /\
     Q (mkRP (actual_xfr_type s') (initial_soa s') (current_soa s') (ixfr_update_mode s') (rr_count s')
          (match u' with Finished _ => true | _ => finished s' end))) ->
  processes s [a] Q [u].
Proof.
  intros Hx Hu rs F. apply Forall2_cons_inv_r in F as (r & rs' & Hr & ->%Forall2_nil_inv_r & ->). cbn [process_all].
  unfold process_record. cbn [initial_soa]. pose proof (rr_is_soa r a Hr) as Hsoa.
  assert (Hm : match soa_of r with Some soa => soa_eq soa (initial_soa s) | None => Ret false end = Ret (bool_decide (is_soa x0 a))).
  { destruct (soa_of r) as [soa|].
    - destruct Hsoa as (x & Ex & Hsx). rewrite (soa_eq_spec _ _ _ _ Hsx Hx). f_equal. apply bool_decide_ext. unfold is_soa. by rewrite Ex.
    - rewrite bool_decide_eq_false_2; [done|]. unfold is_soa. rewrite Hsoa. tauto. }
  rewrite Hm. destruct (Hu r Hr) as (s' & u' & Hu' & -> & HQ). eexists _, _. split_and!; [done| |exact HQ]. by constructor.
Qed.

(** *** The steps of a transfer *)

Lemma axfr_step s a :
  going Axfr s -> processes s [a] (if bool_decide (is_soa x0 a) then fun s => finished s = true else going Axfr)
    [if bool_decide (is_soa x0 a) then Finished a else AddRecord a].
Proof.
  intros (Ht & Hi & Hf). apply processes_one; [done|]. intros r Hr. unfold process_update; cbn [actual_xfr_type]. rewrite Ht.
  case_bool_decide; eexists _, _; (split; [|split; [done|]]); done.
Qed.

Lemma axfr_add s a : going Axfr s -> ~ is_soa x0 a -> processes s [a] (going Axfr) [AddRecord a].
Proof. intros Hs Ha. pose proof (axfr_step s a Hs) as Hp. by rewrite bool_decide_eq_false_2 in Hp. Qed.

Lemma axfr_end s a : going Axfr s -> is_soa x0 a -> processes s [a] (fun s => finished s = true) [Finished a].
Proof. intros Hs Ha. pose proof (axfr_step s a Hs) as Hp. by rewrite bool_decide_eq_true_2 in Hp. Qed.

(** Between the SOA records of an incremental transfer. *)
Definition within (m : IxfrUpdateMode) (s : RecordProcessor) : Prop := going Ixfr s /\ ixfr_update_mode s = m /\ 2 <= rr_count s.

(** Where a difference sequence can start or the transfer can end. *)
Definition between (s : RecordProcessor) : Prop :=
  (going Ixfr s /\ ixfr_update_mode s = Deleting /\ rr_count s = 1) \/ within Adding s.

Ltac count_cases := repeat (match goal with |- context [?n <? 2] => destruct (Z.ltb_spec n 2) | |- context [?n =? 2] => destruct (Z.eqb_spec n 2) end; try lia).

Lemma ixfr_between s a :
  between s -> is_Some (asoa a) -> processes s [a] (if bool_decide (is_soa x0 a) then fun s => finished s = true else within Deleting)
    [if bool_decide (is_soa x0 a) then Finished a else BeginBatchDelete a].
Proof.
  intros Hb Hs. assert (Hg : going Ixfr s) by (by destruct Hb as [[? _]|[? _]]). destruct Hg as (Ht & Hi & Hf).
  apply processes_one; [done|]. intros r Hr. pose proof (rr_is_soa r a Hr) as Hsoa. unfold process_update; cbn [actual_xfr_type rr_count ixfr_update_mode].
  rewrite Ht. destruct (soa_of r) as [soa|]; [|rewrite Hsoa in Hs; by destruct Hs].
  destruct Hb as [(_ & Hm & Hc)|(_ & Hm & Hc)]; rewrite Hm; count_cases; cbn [toggle].
  - rewrite (bool_decide_eq_true_2 (Deleting = Deleting)), andb_false_r by done.
    case_bool_decide; eexists _, _; (split; [|split; [done|]]); [done|done|done|]. split_and!; [done|done|cbn; lia].
  - case_bool_decide; eexists _, _; (split; [|split; [done|]]); [done|done|done|]. split_and!; [done|done|cbn; lia].
Qed.

Lemma ixfr_old s a : between s -> is_Some (asoa a) -> ~ is_soa x0 a -> processes s [a] (within Deleting) [BeginBatchDelete a].
Proof. intros Hs Ha Hn. pose proof (ixfr_between s a Hs Ha) as Hp. by rewrite bool_decide_eq_false_2 in Hp. Qed.

Lemma ixfr_end s a : between s -> is_soa x0 a -> processes s [a] (fun s => finished s = true) [Finished a].
Proof.
  intros Hs Ha. assert (Hsome : is_Some (asoa a)) by (unfold is_soa in Ha; destruct (asoa a); [by eexists|done]).
  pose proof (ixfr_between s a Hs Hsome) as Hp. by rewrite bool_decide_eq_true_2 in Hp.
Qed.

Lemma ixfr_new s a : within Deleting s -> is_Some (asoa a) -> processes s [a] (within Adding) [BeginBatchAdd a].
Proof.
  intros ((Ht & Hi & Hf) & Hm & Hc) Hs. apply processes_one; [done|]. intros r Hr. pose proof (rr_is_soa r a Hr) as Hsoa.
  unfold process_update; cbn [actual_xfr_type rr_count ixfr_update_mode]. rewrite Ht, Hm.
  destruct (soa_of r) as [soa|]; [|rewrite Hsoa in Hs; by destruct Hs]. count_cases. cbn [toggle].
  eexists _, _; (split; [|split; [done|]]); [done|]. split_and!; [done|done|cbn; lia].
Qed.

Lemma ixfr_record s m a : within m s -> asoa a = None -> processes s [a] (within m) [match m with Deleting => DeleteRecord a | Adding => AddRecord a end].
Proof.
  intros ((Ht & Hi & Hf) & Hm & Hc) Hs. apply processes_one; [done|]. intros r Hr. pose proof (rr_is_soa r a Hr) as Hsoa.
  unfold process_update; cbn [actual_xfr_type rr_count ixfr_update_mode]. rewrite Ht, Hm.
  destruct (soa_of r) as [soa|]; [destruct Hsoa as (x & ? & _); congruence|]. count_cases.
  destruct m; eexists _, _; (split; [|split; [done|]]); try done; (split_and!; [done|done|cbn; lia]).
Qed.

(** The second record is no SOA: this is a full transfer. *)
Lemma ixfr_fallback s a :
  going Ixfr s -> rr_count s = 1 -> asoa a = None -> processes s [a] (going Axfr) [AddRecord a].
Proof.
  intros (Ht & Hi & Hf) Hc Hs. apply processes_one; [done|]. intros r Hr. pose proof (rr_is_soa r a Hr) as Hsoa.
  unfold process_update; cbn [actual_xfr_type rr_count]. rewrite Ht.
  destruct (soa_of r) as [soa|]; [destruct Hsoa as (x & ? & _); congruence|]. count_cases.
  rewrite bool_decide_eq_false_2 by (unfold is_soa; rewrite Hs; tauto). eexists _, _; (split; [|split; [done|]]); done.
Qed.
End Processing.

(** ** Transfers *)

(** One update of a zone: the old SOA, the records that go, the new SOA, the
    records that come. *)
Record difference := mkDiff { d_old : arr; d_deleted : list arr; d_new : arr; d_added : list arr }.

Definition diff_records (d : difference) : list arr := [d_old d] ++ d_deleted d ++ [d_new d] ++ d_added d.

Definition diff_updates (d : difference) : list (ZoneUpdate arr) :=
  [BeginBatchDelete (d_old d)] ++ map DeleteRecord (d_deleted d) ++ [BeginBatchAdd (d_new d)] ++ map AddRecord (d_added d).

Definition diff_ok (x0 : Soa labels) (d : difference) : Prop :=
  is_Some (asoa (d_old d)) /\ ~ is_soa x0 (d_old d) /\ Forall (fun a => asoa a = None) (d_deleted d) /\
  is_Some (asoa (d_new d)) /\ Forall (fun a => asoa a = None) (d_added d).

(** The record sequences of RFC 5936 and RFC 1995, without the SOA [x0] they start
    with, and the updates they stand for.  The answer to an IXFR question with the
    whole zone is not among them. *)
Inductive transfer (x0 : Soa labels) : XfrType -> list arr -> list (ZoneUpdate arr) -> Prop :=
  | transfer_full body fin :
      Forall (fun a => ~ is_soa x0 a) body -> is_soa x0 fin ->
      transfer x0 Axfr (body ++ [fin]) (DeleteAllRecords :: map AddRecord body ++ [Finished fin])
  | transfer_incremental diffs fin :
      Forall (diff_ok x0) diffs -> is_soa x0 fin ->
      transfer x0 Ixfr (concat (map diff_records diffs) ++ [fin]) (concat (map diff_updates diffs) ++ [Finished fin]).

Lemma full_processed debug x0 s body fin :
  going x0 Axfr s -> Forall (fun a => ~ is_soa x0 a) body -> is_soa x0 fin ->
  processes debug s (body ++ [fin]) (fun s => finished s = true) (map AddRecord body ++ [Finished fin]).
Proof.
  intros Hs Hb Hf. eapply processes_app; [apply (processes_map debug (Q:=going x0 Axfr) s body AddRecord (fun a => ~ is_soa x0 a)); [intros; by apply axfr_add|done|done]|].
  intros s' Hs'. by apply (axfr_end debug x0).
Qed.

Lemma diff_processed debug x0 s d :
  between x0 s -> diff_ok x0 d -> processes debug s (diff_records d) (within x0 Adding) (diff_updates d).
Proof.
  intros Hs (H1 & H2 & H3 & H4 & H5). unfold diff_records, diff_updates.
  eapply processes_app; [by apply (ixfr_old debug x0)|]. intros s1 Hs1.
  eapply processes_app; [apply (processes_map debug (Q:=within x0 Deleting) _ _ DeleteRecord (fun a => asoa a = None)); [intros; by apply (ixfr_record debug x0 _ Deleting)|done|done]|].
  intros s2 Hs2. eapply processes_app; [by apply (ixfr_new debug x0)|]. intros s3 Hs3.
  apply (processes_map debug (Q:=within x0 Adding) _ _ AddRecord (fun a => asoa a = None)); [intros; by apply (ixfr_record debug x0 _ Adding)|done|done].
Qed.

Lemma diffs_processed debug x0 s diffs fin :
  between x0 s -> Forall (diff_ok x0) diffs -> is_soa x0 fin ->
  processes debug s (concat (map diff_records diffs) ++ [fin]) (fun s => finished s = true) (concat (map diff_updates diffs) ++ [Finished fin]).
Proof.
  intros Hs Hd Hf. revert s Hs; induction Hd as [|d diffs Hok Hd IH]; intros s Hs; [by apply (ixfr_end debug x0)|].
  cbn [map concat]. rewrite <- !app_assoc. eapply processes_app; [by eapply diff_processed|]. intros s' Hs'. apply IH. by right.
Qed.

(** ** Driving the interpreter *)

Section Driving.
Context {P : Type} `{OctetsParser P} `{!OctetsParserRef P} `{!OctetsParserSub P}.
Context (debug : bool).

(** A [for] loop over the updates of a response. *)
Fixpoint xfr_drain (fuel : nat) (state : RecordProcessor) (iter : XfrZoneUpdateIterator (P:=P))
    : outcome (RecordProcessor * list (result (ZoneUpdate XfrRecord) IterationError)) :=
  match fuel with
  | O => Panic
  | S fuel' =>
      let! (state, iter, item) := xfr_next debug state iter in
      match item with
      | None => Ret (state, [])
      | Some item => let! (state, items) := xfr_drain fuel' state iter in Ret (state, item :: items)
      end
  end.

(** Interpreting a response and taking all its updates. *)
Definition xfr_feed (i : XfrResponseInterpreter) (resp : Message)
    : outcome (XfrResponseInterpreter * result (list (result (ZoneUpdate XfrRecord) IterationError)) XfrError) :=
  let! (i, r) := interpret_response (P:=P) i resp in
  match i, r with
  | Some inner, Ok it =>
      let! (state, items) := xfr_drain (S section_fuel) (in_state inner) it in
      Ret (Some (mkInner (in_resp inner) state), Ok items)
  | i, Ok _ => Ret (i, Ok [])
  | i, Err err => Ret (i, Err err)
  end.

(** All responses of a transfer, one after the other. *)
Fixpoint xfr_run (i : XfrResponseInterpreter) (resps : list Message)
    : outcome (XfrResponseInterpreter * result (list (result (ZoneUpdate XfrRecord) IterationError)) XfrError) :=
  match resps with
  | [] => Ret (i, Ok [])
  | resp :: resps =>
      let! (i, r) := xfr_feed i resp in
      match r with
      | Err err => Ret (i, Err err)
      | Ok items =>
          let! (i, r) := xfr_run i resps in
          Ret (i, match r with Ok items' => Ok (items ++ items') | Err err => Err err end)
      end
  end.

(** The records in the answer section of a response. *)
Definition xfr_reads (resp : Message) (rs : list XfrRecord) : Prop :=
  exists sec, msg_answer (P:=P) resp = Ret (Ok sec) /\ ri_collect section_fuel (rs_limit_to sec) = Ret (map Ok rs).

Lemma ri_collect_mono {D} `{!ParseRecordData D P} fuel fuel' it l :
  ri_collect (D:=D) fuel it = Ret l -> (fuel <= fuel')%nat -> ri_collect fuel' it = Ret l.
Proof.
  revert fuel' it l; induction fuel as [|fuel IH]; intros [|fuel'] it l E Hle; [done|done|lia|]. cbn [ri_collect] in *.
  destruct (ri_next it) as [[[a|] it']|]; [|done|done]. destruct (ri_collect fuel it') as [l'|] eqn:E'; [|done].
  by rewrite (IH fuel' it' l' E') by lia.
Qed.

Lemma process_record_counts s r s' u : process_record debug s r = Ret (s', u) -> rr_count s' = rr_count s + 1.
Proof.
  unfold process_record, process_update. cbn [actual_xfr_type rr_count]. intros E.
  destruct (match soa_of r with Some _ => _ | None => _ end) as [b|]; [|done].
  repeat (case_match; try done); by simplify_eq/=.
Qed.

Lemma xfr_drain_collect fuel s it rs :
  1 <= rr_count s -> ri_collect fuel it = Ret (map Ok rs) ->
  xfr_drain fuel s it = let! (s', us) := process_all debug s rs in Ret (s', map Ok us).
Proof.
  revert s it rs; induction fuel as [|fuel IH]; intros s it rs Hc E; [done|]. cbn [ri_collect xfr_drain] in *. unfold xfr_next.
  destruct (Z.eqb_spec (rr_count s) 0); [lia|]. cbn [andb].
  destruct (ri_next it) as [[[a|] it']|]; [| |done].
  - destruct (ri_collect fuel it') as [l|] eqn:E'; [|done]. destruct rs as [|r rs]; [done|]. injection E as -> ->. cbn [process_all].
    destruct (process_record debug s r) as [[s' u]|] eqn:Ep; [|done]. pose proof (process_record_counts _ _ _ _ Ep).
    rewrite (IH s' it' rs) by (done || lia). by destruct (process_all debug s' rs) as [[s'' us]|].
  - destruct rs; [done|done].
Qed.

(** Whether an update is the last. *)
Definition is_last {R} (u : ZoneUpdate R) : bool := match u with Finished _ => true | _ => false end.

Lemma process_all_finished s rs s' us :
  process_all debug s rs = Ret (s', us) -> finished s' = finished s || existsb is_last us.
Proof.
  revert s us; induction rs as [|r rs IH]; intros s us; cbn [process_all]; [intros [= <- <-]; by rewrite orb_false_r|].
  destruct (process_record debug s r) as [[s1 u]|] eqn:E; [|done]. destruct (process_all debug s1 rs) as [[s2 us']|] eqn:E'; [|done].
  intros [= <- <-]. rewrite (IH _ _ E'). cbn [existsb]. rewrite orb_assoc. f_equal. unfold process_record, process_update in E.
  cbn [actual_xfr_type rr_count] in E. destruct (match soa_of r with Some _ => _ | None => _ end) as [b|]; [|done].
  repeat (case_match; try done); simplify_eq/=; by rewrite ?orb_true_r, ?orb_false_r.
Qed.
End Driving.

(** ** Responses *)

(** The header of a response of a transfer, the first or a later one. *)
Definition response_header (first : bool) (s : list Z) : Prop :=
  exists h, msg_header (mkMessage s) = Ret h /\ header_rcode h = 0 /\ header_qr h = true /\ header_opcode h = OPCODE_QUERY /\
    header_tc h = false /\ nscount (counts_of s) = 0 /\ (if first then qdcount (counts_of s) = 1 else qdcount (counts_of s) <= 1).

(** A record, with its data, at a place of a message. *)
Definition zrec_at (s : list Z) (pos : nat) (a : arr) (e : nat) : Prop :=
  exists t, record_at s pos t e /\ ar_owner t = rr_owner a /\ ar_class t = rr_class a /\ ar_ttl t = rr_ttl a /\
    data_of zone_at s (t, e) (rr_data a).

(** A response with the questions [qs] and the records [recs] in its answer. *)
Definition response (first : bool) (s : list Z) (qs : list (Question labels)) (recs : list arr) : Prop :=
  (12 <= length s)%nat /\ wf_octets s /\ response_header first s /\
  qdcount (counts_of s) = zlen qs /\ ancount (counts_of s) = zlen recs /\ recs <> [] /\
  exists e1 e2, items_at (question_at s) 12 qs e1 /\ items_at (zrec_at s) e1 recs e2.

Definition later_response (s : list Z) (recs : list arr) : Prop := exists qs, response false s qs recs.

Definition xfr_rtype (t : XfrType) : Z := match t with Axfr => RTYPE_AXFR | Ixfr => RTYPE_IXFR end.

Lemma zrecs_at s pos recs e :
  items_at (zrec_at s) pos recs e -> exists ts : list trec, items_at (record_at s) pos (map fst ts) e /\ items_at (trec_at s) pos ts e /\
    Forall2 (fun t a => ar_owner t.1 = rr_owner a /\ ar_class t.1 = rr_class a /\ ar_ttl t.1 = rr_ttl a /\ data_of zone_at s t (rr_data a)) ts recs.
Proof.
  induction 1 as [pos|pos a e0 l e (t & Hat & Ho & Hc & Ht & Hd) Hi (ts & I1 & I2 & IH)].
  - exists []. split_and!; constructor.
  - exists ((t, e0) :: ts). split_and!; [by eapply items_cons|by eapply items_cons|by constructor].
Qed.

Section Responses.
Context {P : Type} `{OctetsParserOk P} `{!OctetsParserRef P} `{!OctetsParserRefOk P} `{!OctetsParserSub P} `{!OctetsParserSubOk P}.

Lemma response_reads first s qs recs :
  response first s qs recs -> exists rs, xfr_reads (P:=P) (mkMessage s) rs /\ Forall2 rr_is rs recs.
Proof using H0 OctetsParserRefOk0 OctetsParserSubOk0.
  intros (Hl & Hs & _ & Hq & Ha & _ & e1 & e2 & Iq & (ts & Ia & It & Hts)%zrecs_at).
  destruct (question_start (P:=P) s qs e1 Hl Hs Hq Iq) as (Hz & q & Eq & Bq).
  assert (Ha' : ancount (counts_of s) = zlen (map fst ts)).
  { rewrite Ha. unfold zlen. rewrite length_map. f_equal. symmetry. apply (Forall2_length _ _ _ Hts). }
  destruct (qs_answer_before _ _ _ _ _ _ Bq Hz Hl Ia Ha') as (rs & Er & (Hp & _ & Hc & Hi & Hlt)).
  assert (Hri : ri_before (P:=P) s (rs_limit_to rs) ts).
  { split_and!; [done| |]; [cbn; rewrite Hc; f_equal; unfold zlen; by rewrite length_map|].
    destruct (qs_before_counted _ _ _ _ Bq Hz) as (qs' & p & Ec & _ & Hp' & <-).
    exists e2. cbn. unfold qs_answer in Er. rewrite qs_drain_counted, Ec in Er. cbn [qs_count qs_parser fst snd] in Er.
    unfold rs_new in Er. destruct (counts_for_message_slice _); [|done]. by injection Er as <-. }
  assert (Hfu : (length ts < section_fuel)%nat) by (pose proof section_fuel_eq; unfold zlen, trec in *; rewrite length_map in Hlt; lia).
  destruct (ri_collect_spec (fun _ => true) zone_at (zone_rel wf_parsed) s Hs section_fuel _ _ Hri Hfu Hfu) as (items & Ei & Hi').
  cbn [ri_in_only rs_limit_to] in Hi'. rewrite all_chosen in Hi'.
  assert (Hrs : exists l, items = map Ok l /\ Forall2 rr_is l recs).
  { clear -Hi' Hts. revert recs Hts; induction Hi' as [|item t items ts [Hc _] _ IH]; intros recs Hts.
    - apply Forall2_nil_inv_l in Hts as ->. exists []. done.
    - apply Forall2_cons_inv_l in Hts as (a & recs' & (Ho & Hcl & Ht & Hd) & Hts & ->). destruct (IH _ Hts) as (l & -> & Hl).
      destruct (Hc _ Hd) as (r & -> & T1 & T2 & T3 & T4). exists (r :: l). split; [done|]. constructor; [|done]. split_and!; [by rewrite <- Ho|congruence|congruence|done]. }
  destruct Hrs as (l & -> & Hl'). exists l. split; [|done]. exists rs. split; [|done]. unfold msg_answer. by rewrite Eq.
Qed.

Lemma response_checked i first s qs recs :
  response first s qs recs -> (i = None <-> first = true) -> check_response i (mkMessage s) = Ret (Ok ()).
Proof.
  intros (Hl & _ & (h & Eh & Hrc & Hqr & Hop & Htc & Hns & Hqd) & _ & Han & Hne & _) Hi.
  unfold check_response, msg_is_error. rewrite Eh. unfold msg_header_counts, counts_for_message_slice. cbn [msg_octets].
  destruct (Nat.leb_spec 12 (length s)); [|lia]. fold (counts_of s). rewrite Hrc, Hqr, Hop, Htc, Hns, Han.
  assert ((zlen recs =? 0) = false) as -> by (apply Z.eqb_neq; destruct recs; [done|unfold zlen; simpl; lia]). rewrite !Z.eqb_refl. cbn [negb andb orb].
  destruct i as [i|].
  - destruct first; [discriminate (proj2 Hi eq_refl)|]. cbn [negb andb orb]. by destruct (Z.ltb_spec 1 (qdcount (counts_of s))); [lia|].
  - destruct Hi as [Hi _]. rewrite (Hi eq_refl) in Hqd. by rewrite Hqd.
Qed.

(** A later response adds its records. *)
Lemma feed_later debug inner s qs recs rs :
  response false s qs recs -> xfr_reads (P:=P) (mkMessage s) rs -> finished (in_state inner) = false -> 1 <= rr_count (in_state inner) ->
  xfr_feed (P:=P) debug (Some inner) (mkMessage s) =
  let! (s', us) := process_all debug (in_state inner) rs in Ret (Some (mkInner (mkMessage s) s'), Ok (map Ok us)).
Proof.
  intros Hr (sec & Ea & Ec) Hf Hc. unfold xfr_feed, interpret_response, xfr_is_finished. rewrite Hf.
  rewrite (response_checked (Some inner) false s qs recs Hr) by done. cbn [in_state in_resp]. unfold xfr_iter_new. rewrite Ea.
  destruct (Z.eqb_spec (rr_count (in_state inner)) 0); [lia|]. cbn [in_state in_resp].
  rewrite (xfr_drain_collect debug (S section_fuel) _ _ rs Hc) by (by apply (ri_collect_mono section_fuel); [|lia]).
  by destruct (process_all debug (in_state inner) rs) as [[s' us]|].
Qed.

(** The state when the second record is due. *)
Definition started (typ : XfrType) (soa : Soa ParsedName) : RecordProcessor := mkRP typ soa soa Deleting 1 false.

(** The updates before those of the records. *)
Definition opening {R} (typ : XfrType) : list (ZoneUpdate R) := match typ with Axfr => [DeleteAllRecords] | Ixfr => [] end.

Lemma xfr_drain_first debug typ soa it rs :
  ri_collect section_fuel it = Ret (map Ok rs) ->
  xfr_drain (P:=P) debug (S section_fuel) (rp_new typ soa) it =
  let! (s', us) := process_all debug (started typ soa) rs in Ret (s', map Ok (opening typ ++ us)).
Proof.
  intros Ec. destruct typ.
  - assert (xfr_drain (P:=P) debug (S section_fuel) (rp_new Axfr soa) it =
      let! (s', items) := xfr_drain debug section_fuel (started Axfr soa) it in Ret (s', Ok DeleteAllRecords :: items)) as -> by done.
    rewrite (xfr_drain_collect debug section_fuel (started Axfr soa) it rs) by (done || (cbn; lia)).
    by destruct (process_all debug (started Axfr soa) rs) as [[s' us]|].
  - assert (xfr_drain (P:=P) debug (S section_fuel) (rp_new Ixfr soa) it = xfr_drain debug (S section_fuel) (started Ixfr soa) it) as -> by done.
    by rewrite (xfr_drain_collect debug (S section_fuel) (started Ixfr soa) it rs) by ((cbn; lia) || by apply (ri_collect_mono section_fuel); [|lia]).
Qed.

Lemma feed_first debug typ s q a recs r rs x0 :
  response true s [q] (a :: recs) -> qtype q = xfr_rtype typ -> asoa a = Some x0 -> xfr_reads (P:=P) (mkMessage s) (r :: rs) -> rr_is r a ->
  exists soa, soa_rel wf_parsed soa x0 /\ xfr_feed (P:=P) debug None (mkMessage s) =
    let! (s', us) := process_all debug (started typ soa) rs in Ret (Some (mkInner (mkMessage s) s'), Ok (map Ok (opening typ ++ us))).
Proof using H0 OctetsParserRefOk0.
  intros Hr Hq Ha (sec & Ea & Ec) Hra. pose proof (rr_is_soa r a Hra) as Hsoa. unfold soa_of in Hsoa.
  destruct (rr_data r) eqn:Ed; try congruence. destruct Hsoa as (x & Ex & Hx). rewrite Ha in Ex. injection Ex as <-. exists d. split; [done|].
  unfold xfr_feed, interpret_response, xfr_is_finished. rewrite (response_checked None true s [q] _ Hr) by done.
  unfold inner_new. rewrite Ea. unfold msg_qtype. pose proof Hr as (Hl & Hs & _ & Hqd & _ & _ & e1 & e2 & Iq & _).
  destruct (question_start (P:=P) s [q] e1 Hl Hs Hqd Iq) as (_ & qq & Eq & Bq).
  destruct (first_question_before (P:=P) s qq [q] e1 Eq Bq) as (first & -> & Hf). inversion Hf as [x ? (_ & Hqt & _) E1 E2|]; subst. cbn [option_map].
  rewrite Hqt, Hq. assert ((if xfr_rtype typ =? RTYPE_AXFR then Ret Axfr else if xfr_rtype typ =? RTYPE_IXFR then Ret Ixfr else Panic) = Ret typ) as ->
    by (by destruct typ).
  destruct section_fuel as [|fuel] eqn:Ef; [pose proof section_fuel_eq; lia|]. cbn [ri_collect] in Ec.
  destruct (ri_next (rs_limit_to sec)) as [[[item|] it']|] eqn:En; [|done|done]. destruct (ri_collect fuel it') as [l|] eqn:Ec'; [|done].
  injection Ec as -> ->. rewrite Ed. cbn [in_state in_resp]. unfold xfr_iter_new. rewrite Ea, En. cbn [rr_count rp_new Z.eqb in_state in_resp].
  rewrite <- Ef. rewrite (xfr_drain_first debug typ d it' rs) by (apply (ri_collect_mono fuel); [done|lia]).
  by destruct (process_all debug (started typ d) rs) as [[s' us]|].
Qed.

(** No update but the last ends the transfer. *)
Definition only_last {R} (us : list (ZoneUpdate R)) : Prop :=
  forall us1 us2, us = us1 ++ us2 -> us2 <> [] -> existsb is_last us1 = false.

Lemma process_all_length debug s rs s' us : process_all debug s rs = Ret (s', us) -> length us = length rs /\ rr_count s' = rr_count s + zlen rs.
Proof.
  revert s us; induction rs as [|r rs IH]; intros s us; cbn [process_all]; [intros [= <- <-]; unfold zlen; simpl; split; [done|lia]|].
  destruct (process_record debug s r) as [[s1 u]|] eqn:E; [|done]. destruct (process_all debug s1 rs) as [[s2 us']|] eqn:E'; [|done].
  intros [= <- <-]. apply process_record_counts in E. destruct (IH _ _ E') as [Hl Hc]. unfold zlen in *. simpl. split; lia.
Qed.

Lemma run_later debug inner ss recss rss s' us :
  Forall2 later_response ss recss -> Forall2 (fun s rs => xfr_reads (P:=P) (mkMessage s) rs) ss rss -> Forall2 (Forall2 rr_is) rss recss ->
  (ss <> [] -> finished (in_state inner) = false) -> 1 <= rr_count (in_state inner) ->
  process_all debug (in_state inner) (concat rss) = Ret (s', us) -> only_last us ->
  exists m, xfr_run (P:=P) debug (Some inner) (map mkMessage ss) = Ret (Some (mkInner m s'), Ok (map Ok us)).
Proof.
  intros Hs. revert inner rss us; induction Hs as [|s recs ss recss [qs Hr] Hs IH]; intros inner rss us Hrd Hrec Hf Hc Hp Hlast.
  - apply Forall2_nil_inv_l in Hrd as ->. injection Hp as <- <-. exists (in_resp inner). by destruct inner.
  - apply Forall2_cons_inv_l in Hrd as (rs & rss' & Hrs & Hrd & ->). apply Forall2_cons in Hrec as [Hrec1 Hrec].
    cbn [concat] in Hp. rewrite process_all_app in Hp. cbn [map xfr_run].
    rewrite (feed_later debug inner s qs recs rs Hr Hrs) by (done || by apply Hf).
    destruct (process_all debug (in_state inner) rs) as [[s1 us1]|] eqn:E1; [|done].
    destruct (process_all debug s1 (concat rss')) as [[s2 us2]|] eqn:E2; [|done]. injection Hp as <- <-.
    destruct (process_all_length _ _ _ _ _ E1) as [L1 C1]. destruct (process_all_length _ _ _ _ _ E2) as [L2 _].
    destruct (IH (mkInner (mkMessage s) s1) rss' us2) as (m & ->); [done|done| |cbn; unfold zlen in C1; lia|done| |by exists m; rewrite map_app].
    + intros Hne. cbn [in_state]. rewrite (process_all_finished _ _ _ _ _ E1), (Hf ltac:(done)), (Hlast us1 us2 eq_refl); [done|].
      destruct Hs as [|? ? ? ? [qs' Hr'] _]; [done|]. apply Forall2_cons_inv_r in Hrec as (rs' & ? & Hrec' & _ & ->).
      destruct Hr' as (_ & _ & _ & _ & _ & Hne' & _). intros ->. destruct rs'; [by apply Forall2_nil_inv_l in Hrec'|done].
    + intros u1 u2 -> Hu. pose proof (Hlast (us1 ++ u1) u2 ltac:(by rewrite app_assoc) Hu) as Hx. rewrite existsb_app in Hx. by apply orb_false_iff in Hx as [_ Hx].
Qed.

Lemma ending_only_last {R} (pre : list (ZoneUpdate R)) u : existsb is_last pre = false -> only_last (pre ++ [u]).
Proof.
  intros Hp us1 us2 E Hne. destruct us2 as [|v us2 _] using rev_ind; [done|]. rewrite app_assoc in E. apply app_inj_tail in E as [-> _].
  rewrite existsb_app in Hp. by apply orb_false_iff in Hp as [? _].
Qed.

Lemma no_last_map {A R} (f : A -> ZoneUpdate R) l : (forall a, is_last (f a) = false) -> existsb is_last (map f l) = false.
Proof. intros Hf. induction l as [|a l IH]; [done|]. cbn. by rewrite Hf. Qed.

Lemma updates_last us us' : Forall2 update_is us us' -> existsb is_last us = existsb is_last us'.
Proof. induction 1 as [|u u' us us' Hu _ IH]; [done|]. cbn. rewrite IH. f_equal. by destruct u, u'. Qed.

(** What a transfer is processed to. *)
Lemma transfer_processed debug typ soa x0 l us :
  soa_rel wf_parsed soa x0 -> transfer x0 typ l us ->
  exists us', us = opening typ ++ us' /\ processes debug (started typ soa) l (fun s => finished s = true) us' /\
    exists pre u, us' = pre ++ [u] /\ existsb is_last pre = false.
Proof.
  intros Hx Ht. destruct Ht as [body fin Hb Hf|diffs fin Hd Hf]; eexists; (split; [reflexivity|]); split.
  - by apply (full_processed debug x0).
  - eexists _, _; split; [done|]. by apply no_last_map.
  - apply (diffs_processed debug x0); [by left|done|done].
  - eexists _, _; split; [done|]. induction diffs as [|d diffs IH]; [done|]. cbn [map concat]. rewrite existsb_app, IH by (by inversion Hd).
    unfold diff_updates. by rewrite !existsb_app, !no_last_map.
Qed.

(** A transfer, however its records are spread over responses, is interpreted as
    the updates it stands for, with no error: for a full transfer, the answer to an
    AXFR question, deleting all records and adding those between the two SOA
    records; for an incremental one, the differences in turn; and in either case the
    end, after which no response is taken any more.  Left out is the answer to an
    IXFR question with the full zone, which is not interpreted as such
    ([fallback_keeps_records]).  (C13) *)
Theorem xfr_transfer_correct debug typ s ss q a recs recss x0 us :
  response true s [q] (a :: recs) -> qtype q = xfr_rtype typ -> asoa a = Some x0 ->
  Forall2 later_response ss recss -> transfer x0 typ (recs ++ concat recss) us ->
  exists i us', xfr_run (P:=P) debug xfr_new (map mkMessage (s :: ss)) = Ret (i, Ok (map Ok us')) /\ Forall2 update_is us' us /\
    xfr_is_finished i = true /\ forall resp, interpret_response (P:=P) i resp = Ret (i, Err XfrFinished).
Proof using H0 OctetsParserRefOk0 OctetsParserSubOk0.
  intros Hr Hq Ha Hss Ht. destruct (response_reads true s [q] (a :: recs) Hr) as (rs0 & Hrd & Hrs).
  apply Forall2_cons_inv_r in Hrs as (r & rs & Hra & Hrs & ->).
  assert (Hall : exists rss, Forall2 (fun s rs => xfr_reads (P:=P) (mkMessage s) rs) ss rss /\ Forall2 (Forall2 rr_is) rss recss).
  { clear -Hss H0 OctetsParserRefOk0 OctetsParserSubOk0. induction Hss as [|s' recs' ss recss [qs Hr] _ (rss & I1 & I2)]; [by exists []|].
    destruct (response_reads false s' qs recs' Hr) as (rs & ? & ?). exists (rs :: rss). by split; constructor. }
  destruct Hall as (rss & Hrds & Hrss). destruct (feed_first debug typ s q a recs r rs x0 Hr Hq Ha Hrd Hra) as (soa & Hsoa & Hfeed).
  destruct (transfer_processed debug typ soa x0 _ us Hsoa Ht) as (us0 & -> & Hp & pre & u & -> & Hpre).
  assert (Hcat : Forall2 rr_is (rs ++ concat rss) (recs ++ concat recss)) by (apply Forall2_app; [done|clear -Hrss; induction Hrss; [constructor|by apply Forall2_app]]).
  destruct (Hp _ Hcat) as (s' & us' & Eall & Hus & Hfin). rewrite process_all_app in Eall.
  destruct (process_all debug (started typ soa) rs) as [[s1 us1]|] eqn:E1; [|done].
  destruct (process_all debug s1 (concat rss)) as [[s2 us2]|] eqn:E2; [|done]. injection Eall as <- <-.
  assert (Hlast : only_last (us1 ++ us2)).
  { pose proof Hus as (pre' & l' & F1 & F2 & E)%Forall2_app_inv_r. apply Forall2_cons_inv_r in F2 as (u' & ? & _ & ->%Forall2_nil_inv_r & ->).
    rewrite E. apply ending_only_last. by rewrite (updates_last _ _ F1). }
  destruct (process_all_length _ _ _ _ _ E1) as [L1 C1]. cbn in C1. unfold zlen in C1.
  destruct (run_later debug (mkInner (mkMessage s) s1) ss recss rss s2 us2) as (m & Hrun); [done|done|done| |cbn; lia|done| |].
  - intros Hne. cbn [in_state]. rewrite (process_all_finished _ _ _ _ _ E1). cbn [finished started orb]. apply (Hlast us1 us2 eq_refl).
    destruct (process_all_length _ _ _ _ _ E2) as [L2 _]. intros ->. destruct Hss as [|? ? ? ? [qs' Hr'] _]; [done|].
    apply Forall2_cons_inv_r in Hrss as (rs' & ? & Hrec' & _ & ->). destruct Hr' as (_ & _ & _ & _ & _ & Hne' & _).
    destruct rs'; [by apply Forall2_nil_inv_l in Hrec'|done].
  - intros u1 u2 -> Hu. pose proof (Hlast (us1 ++ u1) u2 ltac:(by rewrite app_assoc) Hu) as Hx'. rewrite existsb_app in Hx'. by apply orb_false_iff in Hx' as [_ ?].
  - exists (Some (mkInner m s2)), (opening typ ++ us1 ++ us2). cbn [map xfr_run]. unfold xfr_new. rewrite Hfeed, Hrun. split_and!.
    + by rewrite app_assoc, !map_app.
    + apply Forall2_app; [|done]. by destruct typ; repeat constructor.
    + done.
    + intros resp. unfold interpret_response, xfr_is_finished; cbn [in_state]. by rewrite Hfin.
Qed.

(** *** Any responses *)

(** The interpreter and the iterator that borrows its state. *)
Definition config : Type := XfrResponseInterpreter * option (XfrZoneUpdateIterator (P:=P)).

(** The ways to drive the interpreter: a response is interpreted, whether the
    iterator of the last one was exhausted or not, or the iterator is advanced. *)
Inductive xfr_step (debug : bool) : config -> config -> Prop :=
  | step_response i it s i' r :
      wf_octets s -> (12 <= length s)%nat -> interpret_response (P:=P) i (mkMessage s) = Ret (i', r) ->
      xfr_step debug (i, it) (i', match r with Ok it => Some it | Err _ => None end)
  | step_next inner it state it' item :
      xfr_next debug (in_state inner) it = Ret (state, it', item) ->
      xfr_step debug (Some inner, Some it) (Some (mkInner (in_resp inner) state), Some it').

Definition state_ok (s : RecordProcessor) : Prop :=
  (exists x0, soa_rel wf_parsed (initial_soa s) x0) /\ 0 <= rr_count s /\ (rr_count s <= 2 -> ixfr_update_mode s = Deleting).

Definition config_ok (c : config) : Prop :=
  match c with
  | (None, it) => it = None
  | (Some inner, it) =>
      state_ok (in_state inner) /\ wf_octets (msg_octets (in_resp inner)) /\
      forall it', it = Some it' -> rs_over (msg_octets (in_resp inner)) (ri_section it')
  end.

Lemma ri_next_zone s (it : RecordIter P) :
  wf_octets s -> rs_over s (ri_section it) ->
  exists item it', ri_next (D:=ZoneRecordData ParsedName) it = Ret (item, it') /\ rs_over s (ri_section it') /\
    (forall r, item = Some (Ok r) -> rr_read (zone_rel wf_parsed) r).
Proof using H0 OctetsParserRefOk0 OctetsParserSubOk0.
  intros Hs Ho. unfold ri_next. pose proof section_fuel_eq.
  apply (ri_next_safe (fun _ => true) zone_at (zone_rel wf_parsed) s Hs); [done| |lia].
  destruct Ho as [_ Hc]. unfold rounds. destruct (rs_count (ri_section it)) as [n|]; [|lia]. pose proof (Hc n eq_refl). lia.
Qed.

Lemma process_record_safe debug s r :
  state_ok s -> 1 <= rr_count s -> rr_read (zone_rel wf_parsed) r ->
  exists s' u, process_record debug s r = Ret (s', u) /\ state_ok s'.
Proof.
  intros ((x0 & Hx) & _ & Hm) Hc (_ & x & Hd). unfold process_record. cbn [initial_soa].
  assert (Hb : exists b, match soa_of r with Some soa => soa_eq soa (initial_soa s) | None => Ret false end = Ret b).
  { unfold soa_of. destruct (rr_data r); try by eexists. destruct x; try done. rewrite (soa_eq_spec _ _ _ _ Hd Hx). by eexists. }
  destruct Hb as (b & ->). unfold process_update, state_ok; cbn [actual_xfr_type rr_count ixfr_update_mode].
  destruct (actual_xfr_type s).
  - destruct b; (eexists _, _; split; [done|]); cbn; (split_and!; [by exists x0|lia|intros; first [done | apply Hm; lia]]).
  - destruct (Z.ltb_spec (rr_count s + 1) 2); [lia|]. destruct (Z.eqb_spec (rr_count s + 1) 2).
    + rewrite Hm, bool_decide_eq_true_2, andb_false_r by (done || lia).
      destruct b, (soa_of r); (eexists _, _; split; [done|]); cbn; (split_and!; [by exists x0|lia|intros; first [done | apply Hm; lia]]).
    + destruct (soa_of r); (eexists _, _; split; [done|]); cbn; (split_and!; [by exists x0|lia|lia]).
Qed.

Lemma xfr_next_safe debug s state it :
  wf_octets s -> state_ok state -> rs_over s (ri_section it) ->
  exists state' it' item, xfr_next (P:=P) debug state it = Ret (state', it', item) /\ state_ok state' /\ rs_over s (ri_section it').
Proof using H0 OctetsParserRefOk0 OctetsParserSubOk0.
  intros Hs Hst Ho. unfold xfr_next. pose proof Hst as (Hx & Hc & Hm).
  set (state1 := if rr_count state =? 0 then _ else state).
  assert (Hst1 : state_ok state1 /\ 1 <= rr_count state1).
  { subst state1. destruct (Z.eqb_spec (rr_count state) 0); [|split; [done|lia]].
    split; [|done]. split_and!; [done|done|intros; first [done | apply Hm; lia]]. }
  destruct Hst1 as [Hst1 Hc1]. destruct ((rr_count state =? 0) && _); [by eexists _, _, _|].
  destruct (ri_next_zone s it Hs Ho) as (item & it' & -> & Ho' & Hi). destruct item as [[r|err]|]; [|by eexists _, _, _..].
  destruct (process_record_safe debug state1 r Hst1 Hc1 (Hi r eq_refl)) as (s' & u & -> & Hs'). by eexists _, _, _.
Qed.

(** The type of the first question is one of a transfer. *)
Definition xfr_question (s : list Z) : Prop := exists typ, msg_qtype (P:=P) (mkMessage s) = Ret (Some (xfr_rtype typ)).

Lemma xfr_iter_new_safe s state :
  wf_octets s -> (12 <= length s)%nat ->
  exists r, xfr_iter_new (P:=P) state (mkMessage s) = Ret r /\ forall it, r = Ok it -> rs_over s (ri_section it).
Proof using H0 OctetsParserRefOk0 OctetsParserSubOk0.
  intros Hs Hl. unfold xfr_iter_new. destruct (msg_answer_safe (P:=P) s Hs Hl) as (r & -> & Hr).
  destruct r as [sec|err]; [|by eexists]. destruct (Hr _ eq_refl) as [Ho _]. destruct (rr_count state =? 0).
  - destruct (ri_next_zone s (rs_limit_to sec) Hs Ho) as (item & it' & -> & Ho' & _).
    destruct item as [[r|err]|]; (eexists; split; [done|]); [|done|done]. by intros it [= <-].
  - eexists; split; [done|]. by intros it [= <-].
Qed.

Lemma inner_new_safe s :
  wf_octets s -> (12 <= length s)%nat -> xfr_question s ->
  exists r, inner_new (P:=P) (mkMessage s) = Ret r.
Proof using H0 OctetsParserRefOk0 OctetsParserSubOk0.
  intros Hs Hl (typ & Hq). unfold inner_new. destruct (msg_answer_safe (P:=P) s Hs Hl) as (r & -> & Hr).
  destruct r as [sec|err]; [|by eexists]. destruct (Hr _ eq_refl) as [Ho _]. rewrite Hq.
  assert ((if xfr_rtype typ =? RTYPE_AXFR then Ret Axfr else if xfr_rtype typ =? RTYPE_IXFR then Ret Ixfr else Panic) = Ret typ) as -> by (by destruct typ).
  destruct (ri_next_zone s (rs_limit_to sec) Hs Ho) as (item & it' & -> & Ho' & _).
  destruct item as [[r|err]|]; [|by eexists..]. destruct (rr_data r); by eexists.
Qed.

Lemma inner_new_ok s inner :
  wf_octets s -> (12 <= length s)%nat -> inner_new (P:=P) (mkMessage s) = Ret (Ok inner) -> in_resp inner = mkMessage s /\ state_ok (in_state inner).
Proof using H0 OctetsParserRefOk0 OctetsParserSubOk0.
  intros Hs Hl. unfold inner_new. destruct (msg_answer_safe (P:=P) s Hs Hl) as (r & -> & Hr).
  destruct r as [sec|err]; [|done]. destruct (Hr _ eq_refl) as [Ho _]. destruct (msg_qtype _) as [qt|]; [|done].
  destruct (match qt with Some _ => _ | None => _ end) as [typ|]; [|done].
  destruct (ri_next_zone s (rs_limit_to sec) Hs Ho) as (item & it' & -> & Ho' & Hi).
  destruct item as [[r|err]|]; [|done|done]. destruct (Hi r eq_refl) as (_ & x & Hx).
  destruct (rr_data r); try done. intros [= <-]. split; [done|]. destruct x; try done. split_and!; [by eexists|done|done].
Qed.

Lemma check_response_safe i s : (12 <= length s)%nat -> exists r, check_response i (mkMessage s) = Ret r.
Proof.
  intros Hl. unfold check_response, msg_is_error, msg_header, msg_header_counts, header_for_message_slice, counts_for_message_slice. cbn [msg_octets].
  destruct (Nat.leb_spec 12 (length s)); [|lia]. destruct (Nat.leb_spec 4 (length s)); [|lia]. do 2 (case_match; [by eexists|]). by eexists.
Qed.

Lemma interpret_response_safe i s it :
  config_ok (i, it) -> wf_octets s -> (12 <= length s)%nat ->
  (i = None -> xfr_question s) -> exists r, interpret_response (P:=P) i (mkMessage s) = Ret r.
Proof using H0 OctetsParserRefOk0 OctetsParserSubOk0.
  intros Hc Hs Hl Hq. unfold interpret_response. destruct (xfr_is_finished i); [by eexists|].
  destruct (check_response_safe i s Hl) as (r & ->). destruct r as [_|err]; [|by eexists].
  assert (Hi : exists r, match i with Some inner => Ret (Ok (mkInner (mkMessage s) (in_state inner))) | None => inner_new (P:=P) (mkMessage s) end = Ret r /\
    forall inner, r = Ok inner -> in_resp inner = mkMessage s).
  { destruct i as [inner|]; [eexists; split; [done|]; by intros ? [= <-]|]. destruct (inner_new_safe s Hs Hl (Hq eq_refl)) as (r & Hr).
    exists r. split; [done|]. intros inner ->. by apply inner_new_ok in Hr as [? _]. }
  destruct Hi as (r & -> & Hr). destruct r as [inner|err]; [|by eexists]. rewrite (Hr _ eq_refl).
  destruct (xfr_iter_new_safe s (in_state inner) Hs Hl) as (r & -> & _). by eexists.
Qed.

Lemma config_ok_step debug c c' : config_ok c -> xfr_step debug c c' -> config_ok c'.
Proof using H0 OctetsParserRefOk0 OctetsParserSubOk0.
  intros Hc Hstep. destruct Hstep as [i it s i' r Hs Hl E|inner it state it' item E].
  - assert (Hkeep : config_ok (i, None)) by (destruct i; [destruct Hc as (? & ? & _); by split_and!|done]).
    unfold interpret_response in E. destruct (xfr_is_finished i); [simplify_eq; exact Hkeep|].
    destruct (check_response_safe i s Hl) as (ch & Ech). rewrite Ech in E. destruct ch as [[]|err]; [|simplify_eq; exact Hkeep].
    destruct (match i with Some _ => _ | None => _ end) as [[inner|err]|] eqn:Ei; [|simplify_eq; exact Hkeep|done].
    assert (Hin : in_resp inner = mkMessage s /\ state_ok (in_state inner)).
    { destruct i as [inner0|]; [injection Ei as <-; split; [done|apply Hc]|by apply inner_new_ok]. }
    destruct Hin as [Hresp Hst]. rewrite Hresp in E. destruct (xfr_iter_new_safe s (in_state inner) Hs Hl) as (r' & Er & Ho).
    rewrite Er in E. injection E as <- <-. split_and!; [done|by rewrite Hresp|]. rewrite Hresp. intros it'. destruct r'; [|done].
    intros [= <-]. by apply Ho.
  - destruct Hc as (Hst & Hw & Ho). destruct (xfr_next_safe debug _ _ it Hw Hst (Ho it eq_refl)) as (st & it0 & item0 & E' & Hst' & Ho').
    rewrite E in E'. injection E' as <- <- <-. split_and!; [done|done|]. by intros ? [= <-].
Qed.

Lemma config_ok_steps debug c c' : rtc (xfr_step debug) c c' -> config_ok c -> config_ok c'.
Proof using H0 OctetsParserRefOk0 OctetsParserSubOk0. induction 1; [done|]. intros Hc. eauto using config_ok_step. Qed.

(** However the interpreter is driven, with whatever octets as responses and
    whether iterators are exhausted or not, it does not panic: an iterator can
    always be advanced and a response always be interpreted, as long as the first
    response, whose question the caller is to check, asks for a transfer.  (C14) *)
Theorem xfr_interpreter_safe debug c :
  rtc (xfr_step debug) (xfr_new, None) c ->
  (forall s, wf_octets s -> (12 <= length s)%nat -> (c.1 = None -> xfr_question s) -> exists r, interpret_response (P:=P) c.1 (mkMessage s) = Ret r) /\
  (forall inner it, c = (Some inner, Some it) -> exists r, xfr_next debug (in_state inner) it = Ret r).
Proof using H0 OctetsParserRefOk0 OctetsParserSubOk0.
  intros Hc. assert (Hok : config_ok c) by (by eapply config_ok_steps).
  split.
  - intros s Hs Hl Hq. destruct c as [i it]. by apply (interpret_response_safe i s it).
  - intros inner it ->. destruct Hok as (Hst & Hw & Ho).
    destruct (xfr_next_safe debug _ _ it Hw Hst (Ho it eq_refl)) as (? & ? & ? & -> & _). by eexists.
Qed.

(** *** Where the interpreter does not do what is expected *)

(** A first response with another question makes the interpreter panic. *)
Lemma other_question_panics s q recs :
  response true s [q] recs -> qtype q <> RTYPE_AXFR -> qtype q <> RTYPE_IXFR -> interpret_response (P:=P) xfr_new (mkMessage s) = Panic.
Proof using H0 OctetsParserRefOk0 OctetsParserSubOk0.
  intros Hr Ha Hi. destruct (response_reads true s [q] recs Hr) as (rs & (sec & Ea & _) & _).
  unfold interpret_response, xfr_is_finished, xfr_new. rewrite (response_checked None true s [q] _ Hr) by done.
  unfold inner_new. rewrite Ea. unfold msg_qtype. pose proof Hr as (Hl & Hs & _ & Hqd & _ & _ & e1 & e2 & Iq & _).
  destruct (question_start (P:=P) s [q] e1 Hl Hs Hqd Iq) as (_ & qq & Eq & Bq).
  destruct (first_question_before (P:=P) s qq [q] e1 Eq Bq) as (first & -> & Hf). inversion Hf as [x ? (_ & Hqt & _) E1 E2|]; subst. cbn [option_map].
  rewrite Hqt. by destruct (Z.eqb_spec (qtype q) RTYPE_AXFR), (Z.eqb_spec (qtype q) RTYPE_IXFR).
Qed.

(** If the iterator of the first response was never advanced, that of the second
    one leaves out a record. *)
Lemma unused_iterator_loses_record m typ soa s qs recs r rs :
  response false s qs recs -> xfr_reads (P:=P) (mkMessage s) (r :: rs) ->
  exists i it, interpret_response (P:=P) (Some (mkInner m (rp_new typ soa))) (mkMessage s) = Ret (i, Ok it) /\
    ri_collect section_fuel it = Ret (map Ok rs).
Proof.
  intros Hr (sec & Ea & Ec). unfold interpret_response, xfr_is_finished. cbn [in_state rp_new finished].
  rewrite (response_checked (Some _) false s qs recs Hr) by done. cbn [in_state in_resp]. unfold xfr_iter_new. rewrite Ea.
  cbn [rr_count rp_new Z.eqb]. destruct section_fuel as [|fuel] eqn:Ef; [pose proof section_fuel_eq; lia|]. cbn [ri_collect] in Ec.
  destruct (ri_next (rs_limit_to sec)) as [[[item|] it']|] eqn:En; [|done|done]. destruct (ri_collect fuel it') as [l|] eqn:Ec'; [|done].
  injection Ec as -> ->. eexists _, it'. split; [done|]. apply (ri_collect_mono fuel); [done|lia].
Qed.
End Responses.

(** A full transfer in response to an IXFR question does not delete what is there. *)
Lemma fallback_keeps_records debug x0 soa a body fin :
  soa_rel wf_parsed soa x0 -> asoa a = None -> Forall (fun a => ~ is_soa x0 a) body -> is_soa x0 fin ->
  opening (R:=arr) Ixfr = [] /\
  processes debug (started Ixfr soa) ((a :: body) ++ [fin]) (fun s => finished s = true) (map AddRecord (a :: body) ++ [Finished fin]) /\
  DeleteAllRecords ∉ map AddRecord (a :: body) ++ [Finished fin].
Proof.
  intros Hx Ha Hb Hf. split_and!; [done| |].
  - apply (processes_app debug _ [a] (body ++ [fin]) (going x0 Axfr) _ [AddRecord a] (map AddRecord body ++ [Finished fin]));
      [by apply ixfr_fallback|]. intros s' Hs'. by apply (full_processed debug x0).
  - rewrite elem_of_app, list_elem_of_singleton, list_elem_of_fmap. by intros [(? & ? & _)|].
Qed.

(** Records after the last SOA are still updates. *)
Lemma records_after_end debug x0 soa fin a :
  soa_rel wf_parsed soa x0 -> is_soa x0 fin -> ~ is_soa x0 a ->
  processes debug (started Axfr soa) [fin; a] (fun s => finished s = true) [Finished fin; AddRecord a].
Proof.
  intros Hx Hf Ha. apply (processes_app debug _ [fin] [a] (fun s => actual_xfr_type s = Axfr /\ soa_rel wf_parsed (initial_soa s) x0 /\ finished s = true)
    _ [Finished fin] [AddRecord a]).
  - apply (processes_one debug x0); [done|]. intros r Hr. rewrite bool_decide_eq_true_2 by done. by eexists _, (Finished r).
  - intros s (Ht & Hi & Hfin). apply (processes_one debug x0); [done|]. intros r Hr. rewrite bool_decide_eq_false_2 by done.
    unfold process_update; cbn [actual_xfr_type]. rewrite Ht. by eexists _, (AddRecord r).
Qed.

(** ** Example *)

(** A full transfer of the zone [a] with one address record, in one response. *)
Definition ex_soa_wire : list Z := [1; 97; 0; 1; 97; 0; 0; 0; 0; 1; 0; 0; 0; 2; 0; 0; 0; 3; 0; 0; 0; 4; 0; 0; 0; 5].

Definition ex_axfr : list Z :=
  [1; 2; 0x80; 0; 0; 1; 0; 3; 0; 0; 0; 0;
   1; 97; 0; 0; 252; 0; 1] ++
  [0xC0; 12; 0; 6; 0; 1; 0; 0; 0; 9; 0; 26] ++ ex_soa_wire ++
  [0xC0; 12; 0; 1; 0; 1; 0; 0; 0; 9; 0; 4; 192; 0; 2; 1] ++
  [0xC0; 12; 0; 6; 0; 1; 0; 0; 0; 9; 0; 26] ++ ex_soa_wire.

Definition ex_soa : Soa labels := mkSoa [[97]; []] [[97]; []] (mkSerial 1) (mkTtl 2) (mkTtl 3) (mkTtl 4) (mkTtl 5).
Definition ex_soa_rr : arr := mkRR [[97]; []] 1 9 (ZoneSoa ex_soa).
Definition ex_a_rr : arr := mkRR [[97]; []] 1 9 (ZoneA (mkA [192; 0; 2; 1])).

Lemma ex_zrec pos x w :
  record_at ex_axfr pos (mkArecord [[97]; []] (zone_rtype x) 1 9 w) (pos + 12 + length w) -> zone_ok x -> w = zone_wire x ->
  zrec_at ex_axfr pos (mkRR [[97]; []] 1 9 x) (pos + 12 + length w).
Proof.
  intros Hat Hx Hw. exists (mkArecord [[97]; []] (zone_rtype x) 1 9 w). split_and!; [done..|]. by apply (data_of_wire _ pos).
Qed.

Lemma ex_axfr_response : response true ex_axfr [mkQuestion [[97]; []] 252 1] [ex_soa_rr; ex_a_rr; ex_soa_rr].
Proof.
  assert (Hname : at_labels ex_axfr 12 [[97]; []] 15).
  { apply at_label; [done|by_decide|done|]. by apply at_root. }
  assert (Hgood : name_good [[97]; []]) by (split; [exists [[97]]; split; [done|by_decide]|by_decide]).
  assert (Hsoa : zone_ok (ZoneSoa ex_soa)) by (split_and!; [exact Hgood|exact Hgood|by_decide..]).
  split_and!; [by_decide|by_decide| |done|done|done|].
  - eexists. split; [reflexivity|]. by split_and!.
  - exists 19%nat, 111%nat. split.
    + econstructor; [|constructor]. split; [split; by_decide|]. exists 15%nat. by split_and!; [|by_decide| |].
    + apply (items_cons _ 19 _ 57), (items_cons _ 57 _ 73), (items_cons _ 73 _ 111), items_nil.
      * apply (ex_zrec 19 (ZoneSoa ex_soa) ex_soa_wire); [|done|done]. split; [split_and!; by_decide|]. exists 21%nat.
        split_and!; [|by_decide|done|done]. by apply (at_pointer _ 19 0xC0 12 _ 15); [done|lia|done|by_decide|].
      * apply (ex_zrec 57 (ZoneA (mkA [192; 0; 2; 1])) [192; 0; 2; 1]); [|by_decide|done]. split; [split_and!; by_decide|]. exists 59%nat.
        split_and!; [|by_decide|done|done]. by apply (at_pointer _ 57 0xC0 12 _ 15); [done|lia|done|by_decide|].
      * apply (ex_zrec 73 (ZoneSoa ex_soa) ex_soa_wire); [|done|done]. split; [split_and!; by_decide|]. exists 75%nat.
        split_and!; [|by_decide|done|done]. by apply (at_pointer _ 73 0xC0 12 _ 15); [done|lia|done|by_decide|].
Qed.

Lemma xfr_transfer_correct_witness :
  exists i us, xfr_run (P:=lim_parser) true xfr_new (map mkMessage [ex_axfr]) = Ret (i, Ok (map Ok us)) /\
    Forall2 update_is us [DeleteAllRecords; AddRecord ex_a_rr; Finished ex_soa_rr].
Proof.
  destruct (xfr_transfer_correct (P:=lim_parser) true Axfr ex_axfr [] _ ex_soa_rr [ex_a_rr; ex_soa_rr] [] ex_soa
    [DeleteAllRecords; AddRecord ex_a_rr; Finished ex_soa_rr] ex_axfr_response) as (i & us & Hr & Hu & _).
  - reflexivity.
  - reflexivity.
  - constructor.
  - apply (transfer_full ex_soa [ex_a_rr] ex_soa_rr); [repeat constructor; intros []|by_decide].
  - exists i, us. split; [exact Hr|exact Hu].
Defined.

Lemma xfr_interpreter_safe_witness :
  exists r, interpret_response (P:=lim_parser) xfr_new (mkMessage ex_axfr) = Ret r.
Proof.
  destruct (xfr_interpreter_safe (P:=lim_parser) true (xfr_new, None) (rtc_refl _ _)) as [Hr _].
  apply Hr; [by_decide|by_decide|]. intros _. exists Axfr. by vm_compute.
Defined.
