(* ===== verification/HashMap.v ===== *)
(** * Hash maps

    [std::collections::HashMap] as the zone tree uses it: keys are compared with
    the key type's [Eq], which for labels ignores case.  The map is an association
    list; the order of iteration is that of the list, and nothing is said about
    which order that is. *)

From S2P Require Import Prelude.

(** What [Eq] promises. *)
Class EqOk {K : Type} (eqb : K -> K -> bool) : Prop := {
  eqb_refl a : eqb a a = true;
  eqb_sym a b : eqb a b = true -> eqb b a = true;
  eqb_trans a b c : eqb a b = true -> eqb b c = true -> eqb a c = true
}.

#[export] Instance Z_eq_ok : EqOk Z.eqb.
Proof. split; intros *; rewrite ?Z.eqb_eq; congruence. Qed.

Definition hmap (K V : Type) : Type := list (K * V).

Section HashMap.
Context {K V : Type} (eqb : K -> K -> bool).

(** [get]. *)
Fixpoint hm_get (k : K) (m : hmap K V) : option V :=
  match m with
  | [] => None
  | (k', v) :: m => if eqb k' k then Some v else hm_get k m
  end.

(** [entry(k).or_default()], with [f] done to the value. *)
Fixpoint hm_alter (default : V) (f : V -> V) (k : K) (m : hmap K V) : hmap K V :=
  match m with
  | [] => [(k, f default)]
  | (k', v) :: m => if eqb k' k then (k', f v) :: m else (k', v) :: hm_alter default f k m
  end.

(** [insert]. *)
Definition hm_insert (k : K) (v : V) : hmap K V -> hmap K V := hm_alter v (fun _ => v) k.

(** [remove]: the value that was there, and the map without it. *)
Fixpoint hm_remove (k : K) (m : hmap K V) : option V * hmap K V :=
  match m with
  | [] => (None, [])
  | (k', v) :: m => if eqb k' k then (Some v, m) else let (o, m) := hm_remove k m in (o, (k', v) :: m)
  end.

(** The keys differ. *)
Fixpoint hm_wf (m : hmap K V) : Prop :=
  match m with [] => True | (k, _) :: m => hm_get k m = None /\ hm_wf m end.

Context `{!EqOk eqb}.

Lemma eqb_same a b c : eqb a b = true -> eqb c a = eqb c b.
Proof using EqOk0. intros Hab. apply eq_bool_prop_intro. split; intros Hc%Is_true_true; apply Is_true_true; eauto using eqb_trans, eqb_sym. Qed.

(** Keys equal to the same key are equal to each other. *)
Lemma eqb_meet a b c : eqb a b = true -> eqb a c = eqb b c.
Proof using EqOk0. intros Hab. apply eq_bool_prop_intro. split; intros Hc%Is_true_true; apply Is_true_true; eauto using eqb_trans, eqb_sym. Qed.

Lemma hm_get_same k k' m : eqb k k' = true -> hm_get k m = hm_get k' m.
Proof using EqOk0. intros Hk. induction m as [|[k0 v] m IH]; [done|]. cbn [hm_get]. by rewrite (eqb_same _ _ _ Hk), IH. Qed.

Lemma hm_get_alter default f k k' m :
  hm_get k' (hm_alter default f k m) =
  if eqb k k' then Some (f (match hm_get k m with Some v => v | None => default end)) else hm_get k' m.
Proof using EqOk0.
  induction m as [|[k0 v] m IH]; cbn [hm_get hm_alter]; [done|]. destruct (eqb k0 k) eqn:E; cbn [hm_get].
  - by rewrite (eqb_meet _ _ _ E); destruct (eqb k k').
  - destruct (eqb k0 k') eqn:E'; [|done]. destruct (eqb k k') eqn:E''; [|done]. rewrite (eqb_same _ _ k0 E'') in E. congruence.
Qed.

Lemma hm_get_insert k k' v m : hm_get k' (hm_insert k v m) = if eqb k k' then Some v else hm_get k' m.
Proof using EqOk0. apply hm_get_alter. Qed.

Lemma hm_remove_fst k m : (hm_remove k m).1 = hm_get k m.
Proof. induction m as [|[k0 v] m IH]; [done|]. cbn. destruct (eqb k0 k); [done|]. by destruct (hm_remove k m). Qed.

Lemma hm_get_remove k k' m : hm_wf m -> hm_get k' (hm_remove k m).2 = if eqb k k' then None else hm_get k' m.
Proof using EqOk0.
  induction m as [|[k0 v] m IH]; cbn; [by destruct (eqb k k')|]. intros [H0 Hm]. destruct (eqb k0 k) eqn:E; cbn.
  - rewrite (eqb_meet _ _ _ E). destruct (eqb k k') eqn:E'; [|done].
    by rewrite <- (hm_get_same k0 k' m) by (by rewrite (eqb_meet _ _ _ E)).
  - destruct (hm_remove k m) as [o m'] eqn:Er. cbn in *. rewrite (IH Hm). destruct (eqb k0 k') eqn:E'; [|done].
    destruct (eqb k k') eqn:E''; [|done]. rewrite (eqb_same _ _ k0 E'') in E. congruence.
Qed.

Lemma hm_alter_wf default f k m : hm_wf m -> hm_wf (hm_alter default f k m).
Proof using EqOk0.
  induction m as [|[k0 v] m IH]; cbn; [done|]. intros [H0 Hm]. destruct (eqb k0 k) eqn:E; cbn; [done|].
  split; [|by apply IH]. rewrite hm_get_alter. destruct (eqb k k0) eqn:E'; [|done]. apply eqb_sym in E'. congruence.
Qed.

(** The entries of a map are what is found in it. *)
Lemma hm_get_entry k m v : hm_get k m = Some v -> exists k', (k', v) ∈ m /\ eqb k' k = true.
Proof. induction m as [|[k0 v0] m IH]; [done|]. cbn. destruct (eqb k0 k) eqn:E; [intros [= ->]; exists k0; split; [left|done]|]. intros (k' & Hin & Hk)%IH. exists k'. split; [by right|done]. Qed.

Lemma hm_entry_get k v m : hm_wf m -> (k, v) ∈ m -> hm_get k m = Some v.
Proof using EqOk0.
  induction m as [|[k0 v0] m IH]; [by intros _ ?%elem_of_nil|]. intros [H0 Hm] [[= -> ->]|Hin]%elem_of_cons; cbn; [by rewrite eqb_refl|].
  destruct (eqb k0 k) eqn:E; [|by apply IH]. rewrite (hm_get_same _ _ m E), (IH Hm Hin) in H0. done.
Qed.

Lemma hm_wf_unique k k' v v' m : hm_wf m -> (k, v) ∈ m -> (k', v') ∈ m -> eqb k k' = true -> (k, v) = (k', v').
Proof using EqOk0.
  induction m as [|[k0 v0] m IH]; [by intros _ ?%elem_of_nil|].
  intros [H0 Hm] [E|Hin]%elem_of_cons [E'|Hin']%elem_of_cons Hk; [congruence| | |by apply IH].
  - injection E as <- <-. by rewrite (hm_get_same _ _ m Hk), (hm_entry_get _ _ _ Hm Hin') in H0.
  - injection E' as <- <-. by rewrite <- (hm_get_same _ _ m Hk), (hm_entry_get _ _ _ Hm Hin) in H0.
Qed.

Lemma hm_alter_keys default f k m x : x ∈ map fst (hm_alter default f k m) -> x ∈ map fst m \/ x = k.
Proof.
  induction m as [|[k0 v] m IH]; cbn; [intros ?%list_elem_of_singleton; by right|]. destruct (eqb k0 k); cbn; [by left|].
  intros [->|H]%elem_of_cons; [by left; left|]. destruct (IH H) as [H'|]; [left; by right|by right].
Qed.
End HashMap.
