(* ===== verification/ZoneSet.v ===== *)
(** * The set of zones ([src/src/zonetree/tree.rs])

    [ZoneTree] keeps zones in a tree of labels, from the root down, for each
    class.  Here it is compared with the plain reading of it, a partial map from
    names to zones. *)

From S2P Require Import Prelude Octets Symbol Label Traits Name Header Message HashMap.
#[local] Open Scope Z_scope.

#[export] Instance label_eq_ok : EqOk label_eq.
Proof. split; intros *; rewrite ?label_eq_spec; congruence. Qed.

(** [iter_labels().rev()], as the labels it gives. *)
Fixpoint rev_labels_loop {I} `{LabelIter I} (fuel : nat) (it : I) : outcome (list (list Z)) :=
  match fuel with
  | O => Panic
  | S fuel' =>
      let! (l, it) := li_next_back it in
      match l with Some l => let! ls := rev_labels_loop fuel' it in Ret (l :: ls) | None => Ret [] end
  end.

Definition rev_labels {N I} `{ToLabelIter N I} (n : N) : outcome (list (list Z)) := rev_labels_loop name_fuel (iter_labels n).

Inductive ZoneTreeModificationError := ZoneExists | ZoneDoesNotExist.

#[local] Set Warnings "-register-all".

Section ZoneSet.
(** Zones are only handed around here. *)
Context {Zone : Type} (zone_class : Zone -> Z) (zone_apex_name : Zone -> Name).

(** ** Nodes *)

Inductive ZoneSetNode := mkZoneSetNode (zsn_zone : option Zone) (zsn_children : list (list Z * ZoneSetNode)).

Definition zsn_zone (n : ZoneSetNode) : option Zone := let (z, _) := n in z.
Definition zsn_children (n : ZoneSetNode) : hmap (list Z) ZoneSetNode := let (_, c) := n in c.

Definition zsn_default : ZoneSetNode := mkZoneSetNode None [].

Fixpoint zsn_get_zone (n : ZoneSetNode) (apex_name : list (list Z)) : option Zone :=
  match apex_name with
  | label :: apex_name => match hm_get label_eq label (zsn_children n) with Some n => zsn_get_zone n apex_name | None => None end
  | [] => zsn_zone n
  end.

Fixpoint zsn_find_zone (n : ZoneSetNode) (qname : list (list Z)) : option Zone :=
  match
    match qname with
    | label :: qname => match hm_get label_eq label (zsn_children n) with Some n => zsn_find_zone n qname | None => None end
    | [] => None
    end
  with
  | Some zone => Some zone
  | None => zsn_zone n
  end.

Fixpoint zsn_insert_zone (n : ZoneSetNode) (apex_name : list (list Z)) (zone : Zone)
    : ZoneSetNode * result unit ZoneTreeModificationError :=
  match apex_name with
  | label :: apex_name =>
      let child := match hm_get label_eq label (zsn_children n) with Some n => n | None => zsn_default end in
      let (child, r) := zsn_insert_zone child apex_name zone in
      (mkZoneSetNode (zsn_zone n) (hm_alter label_eq zsn_default (fun _ => child) label (zsn_children n)), r)
  | [] =>
      match zsn_zone n with
      | Some _ => (n, Err ZoneExists)
      | None => (mkZoneSetNode (Some zone) (zsn_children n), Ok ())
      end
  end.

Definition zsn_remove_zone (n : ZoneSetNode) (apex_name : list (list Z)) : ZoneSetNode * result unit ZoneTreeModificationError :=
  match apex_name with
  | label :: _ =>
      let (removed, children) := hm_remove label_eq label (zsn_children n) in
      match removed with
      | None => (n, Err ZoneDoesNotExist)
      | Some _ => (mkZoneSetNode (zsn_zone n) children, Ok ())
      end
  | [] => (mkZoneSetNode None (zsn_children n), Ok ())
  end.

(** ** Roots *)

Record Roots := mkRoots { in_ : ZoneSetNode; others : hmap Z ZoneSetNode }.

Definition roots_get (r : Roots) (class : Z) : option ZoneSetNode :=
  if class =? CLASS_IN then Some (in_ r) else hm_get Z.eqb class (others r).

(** [get_or_insert], with the node at hand changed to [n]. *)
Definition roots_put (r : Roots) (class : Z) (n : ZoneSetNode) : Roots :=
  if class =? CLASS_IN then mkRoots n (others r)
  else mkRoots (in_ r) (hm_alter Z.eqb zsn_default (fun _ => n) class (others r)).

(** ** The tree *)

Definition ZoneTree : Type := Roots.

Definition zt_new : ZoneTree := mkRoots zsn_default [].

Definition zt_get_zone {N I} `{ToLabelIter N I} (t : ZoneTree) (apex_name : N) (class : Z) : outcome (option Zone) :=
  match roots_get t class with
  | None => Ret None
  | Some n => let! labels := rev_labels apex_name in Ret (zsn_get_zone n labels)
  end.

Definition zt_find_zone {N I} `{ToLabelIter N I} (t : ZoneTree) (qname : N) (class : Z) : outcome (option Zone) :=
  match roots_get t class with
  | None => Ret None
  | Some n => let! labels := rev_labels qname in Ret (zsn_find_zone n labels)
  end.

Definition zt_insert_zone (t : ZoneTree) (zone : Zone) : outcome (ZoneTree * result unit ZoneTreeModificationError) :=
  let n := match roots_get t (zone_class zone) with Some n => n | None => zsn_default end in
  let! labels := rev_labels (zone_apex_name zone) in
  let (n, r) := zsn_insert_zone n labels zone in
  Ret (roots_put t (zone_class zone) n, r).

Definition zt_remove_zone {N I} `{ToLabelIter N I} (t : ZoneTree) (apex_name : N) (class : Z)
    : outcome (ZoneTree * result unit ZoneTreeModificationError) :=
  match roots_get t class with
  | Some n =>
      let! labels := rev_labels apex_name in
      let (n, r) := zsn_remove_zone n labels in Ret (roots_put t class n, r)
  | None => Ret (t, Err ZoneDoesNotExist)
  end.

(** ** Iterating *)

(** [NodesIter]; an iterator over the values of a map is the list of those left. *)
Record NodesIter := mkNodesIter { ni_root : option ZoneSetNode; ni_stack : list (list ZoneSetNode) }.

Definition ni_new (n : ZoneSetNode) : NodesIter := mkNodesIter (Some n) [].

(** The loop of [next_node]: empty iterators are taken off the stack, whose top is
    the head of the list. *)
Fixpoint next_node_loop (stack : list (list ZoneSetNode)) : option ZoneSetNode * list (list ZoneSetNode) :=
  match stack with
  | [] => (None, [])
  | [] :: stack => next_node_loop stack
  | (n :: iter) :: stack => (Some n, iter :: stack)
  end.

Definition next_node (it : NodesIter) : option ZoneSetNode * NodesIter :=
  match ni_root it with
  | Some n => (Some n, mkNodesIter None (ni_stack it))
  | None => let (n, stack) := next_node_loop (ni_stack it) in (n, mkNodesIter None stack)
  end.

Definition ni_next (it : NodesIter) : option ZoneSetNode * NodesIter :=
  let (n, it) := next_node it in
  match n with
  | None => (None, it)
  | Some n => (Some n, mkNodesIter (ni_root it) (map snd (zsn_children n) :: ni_stack it))
  end.

Record ZoneSetIter := mkZoneSetIter { zsi_roots : list ZoneSetNode; zsi_nodes : NodesIter }.

Definition zt_iter_zones (t : ZoneTree) : ZoneSetIter := mkZoneSetIter (map snd (others t)) (ni_new (in_ t)).

Fixpoint zsi_next (fuel : nat) (it : ZoneSetIter) : outcome (option Zone * ZoneSetIter) :=
  match fuel with
  | O => Panic
  | S fuel' =>
      let (n, nodes) := ni_next (zsi_nodes it) in
      match n with
      | Some n =>
          match zsn_zone n with
          | Some zone => Ret (Some zone, mkZoneSetIter (zsi_roots it) nodes)
          | None => zsi_next fuel' (mkZoneSetIter (zsi_roots it) nodes)
          end
      | None =>
          match zsi_roots it with
          | [] => Ret (None, mkZoneSetIter [] nodes)
          | root :: roots => zsi_next fuel' (mkZoneSetIter roots (ni_new root))
          end
      end
  end.
End ZoneSet.

Arguments ZoneSetNode : clear implicits.
Arguments Roots : clear implicits.
Arguments ZoneTree : clear implicits.

(** ** Paths *)

Lemma rev_labels_spec {N I} `{ToLabelIter N I} `{!LabelIterOk I} (n : N) ls :
  denotes n ls -> (length ls < name_fuel)%nat -> rev_labels n = Ret (rev ls).
Proof.
  intros (Hr & _) Hl. unfold rev_labels. revert Hr Hl. generalize (iter_labels n) as it. generalize name_fuel as fuel.
  intros fuel. revert ls; induction fuel as [|fuel IH]; intros ls it Hr Hl; [lia|]. cbn [rev_labels_loop].
  destruct ls as [|l ls _] using rev_ind.
  - by destruct (li_back_nil it Hr) as (it' & -> & _).
  - destruct (li_back_snoc it l ls Hr) as (it' & -> & Hr'). rewrite (IH ls it' Hr') by (rewrite length_app in Hl; simpl in Hl; lia).
    by rewrite rev_unit.
Qed.

Section Paths.
Context {Zone : Type}.

Lemma zsn_get_canon (n : ZoneSetNode Zone) p q : canon p = canon q -> zsn_get_zone n p = zsn_get_zone n q.
Proof.
  revert n q; induction p as [|l p IH]; intros n [|m q] E; try done. injection E as E1 E2. cbn [zsn_get_zone].
  rewrite (hm_get_same label_eq l m) by (by apply label_eq_spec). destruct (hm_get label_eq m (zsn_children n)); [by apply IH|done].
Qed.

Lemma zsn_get_default p : zsn_get_zone (zsn_default (Zone:=Zone)) p = None.
Proof. by destruct p. Qed.

(** Looking up after inserting. *)
Lemma zsn_get_insert (n : ZoneSetNode Zone) p q z :
  let (n', r) := zsn_insert_zone n p z in
  match zsn_get_zone n p with
  | Some _ => r = Err ZoneExists /\ zsn_get_zone n' q = zsn_get_zone n q
  | None => r = Ok () /\ zsn_get_zone n' q = if bool_decide (canon p = canon q) then Some z else zsn_get_zone n q
  end.
Proof.
  revert n q; induction p as [|l p IH]; intros n q; cbn [zsn_insert_zone].
  - cbn [zsn_get_zone]. destruct (zsn_zone n) eqn:E; [done|]. split; [done|]. destruct q; [done|]. by destruct n.
  - set (child := match hm_get _ _ _ with Some n => n | None => zsn_default end).
    assert (Hc : zsn_get_zone n (l :: p) = zsn_get_zone child p)
      by (cbn [zsn_get_zone]; subst child; destruct (hm_get _ _ _); [done|by rewrite zsn_get_default]).
    specialize (IH child). destruct (zsn_insert_zone child p z) as [child' r]. rewrite Hc.
    assert (Hq : forall m q, q = m :: tail q -> zsn_get_zone (mkZoneSetNode (zsn_zone n) (hm_alter label_eq zsn_default (fun _ => child') l (zsn_children n))) q =
      if label_eq l m then zsn_get_zone child' (tail q) else zsn_get_zone n q).
    { intros m q0 ->. cbn [zsn_get_zone zsn_children tail]. rewrite (hm_get_alter label_eq). by destruct (label_eq l m). }
    assert (Hn : forall m q, label_eq l m = true -> zsn_get_zone n (m :: q) = zsn_get_zone child q).
    { intros m q0 E. cbn [zsn_get_zone]. rewrite <- (hm_get_same label_eq l m _ E). subst child.
      destruct (hm_get _ _ _); [done|by rewrite zsn_get_default]. }
    destruct q as [|m q].
    { specialize (IH []). destruct (zsn_get_zone child p); destruct IH as [-> _]; (split; [done|]); by destruct n. }
    rewrite (Hq m (m :: q) eq_refl). cbn [tail]. specialize (IH q). destruct (label_eq l m) eqn:E.
    + rewrite (Hn m q E). destruct (zsn_get_zone child p); destruct IH as [-> ->]; (split; [done|]); [done|].
      apply label_eq_spec in E. rewrite (bool_decide_ext (canon (l :: p) = canon (m :: q)) (canon p = canon q)); [done|].
      cbn [map]. rewrite E. split; congruence.
    + destruct (zsn_get_zone child p); destruct IH as [-> _]; (split; [done|]); [done|].
      rewrite bool_decide_eq_false_2; [done|]. cbn. intros [= El _]. apply label_eq_spec in El. congruence.
Qed.

(** [find_zone] finds the last zone on the path. *)
Lemma zsn_find_spec (n : ZoneSetNode Zone) p :
  match zsn_find_zone n p with
  | Some z => exists k, (k <= length p)%nat /\ zsn_get_zone n (take k p) = Some z /\
      forall j, (k < j <= length p)%nat -> zsn_get_zone n (take j p) = None
  | None => forall k, zsn_get_zone n (take k p) = None
  end.
Proof.
  revert n; induction p as [|l p IH]; intros n; cbn [zsn_find_zone].
  - destruct (zsn_zone n) eqn:E; [exists 0%nat; split_and!; [done|done|simpl; lia]|]. intros k. by rewrite take_nil.
  - destruct (hm_get label_eq l (zsn_children n)) as [c|] eqn:Ec.
    + specialize (IH c). destruct (zsn_find_zone c p) as [z|].
      * destruct IH as (k & Hk & Hz & Hmax). exists (S k). cbn. rewrite Ec. split_and!; [lia|done|].
        intros [|j] Hj; [lia|]. cbn. rewrite Ec. apply Hmax. lia.
      * destruct (zsn_zone n) as [z|] eqn:Ez.
        -- exists 0%nat. cbn. split_and!; [lia|done|]. intros [|j] Hj; [lia|]. cbn. by rewrite Ec.
        -- intros [|k]; [done|]. cbn. by rewrite Ec.
    + destruct (zsn_zone n) as [z|] eqn:Ez.
      * exists 0%nat. cbn. split_and!; [lia|done|]. intros [|j] Hj; [lia|]. cbn. by rewrite Ec.
      * intros [|k]; [done|]. cbn. by rewrite Ec.
Qed.
End Paths.

(** ** The tree as a map *)

#[local] Abbreviation labels := (list (list Z)).

Section Map.
Context {Zone : Type} (zone_class : Zone -> Z) (zone_apex_name : Zone -> Name).

(** The zone in the class at the path. *)
Definition zt_at (t : ZoneTree Zone) (class : Z) (p : list (list Z)) : option Zone :=
  match roots_get t class with Some n => zsn_get_zone n p | None => None end.

Lemma roots_get_put (t : ZoneTree Zone) class class' n :
  roots_get (roots_put t class n) class' = if class =? class' then Some n else roots_get t class'.
Proof.
  unfold roots_get, roots_put. destruct (Z.eqb_spec class CLASS_IN) as [->|Hc]; cbn [in_ others].
  - destruct (Z.eqb_spec class' CLASS_IN) as [->|Hc']; [done|]. destruct (Z.eqb_spec CLASS_IN class'); [congruence|done].
  - destruct (Z.eqb_spec class' CLASS_IN) as [->|Hc']; [by destruct (Z.eqb_spec class CLASS_IN)|].
    rewrite (hm_get_alter Z.eqb). by destruct (class =? class').
Qed.

(** A zone with the labels of its apex. *)
Definition named (zl : Zone * labels) : Prop := denotes (zone_apex_name zl.1) zl.2 /\ (length zl.2 < name_fuel)%nat.

(** The first zone of the class with the name. *)
Definition holder (zs : list (Zone * labels)) (class : Z) (ls : labels) : option Zone :=
  (fun x => x.2.1) <$> list_find (fun zl => zone_class zl.1 = class /\ canon zl.2 = canon ls) zs.

(** Inserting zones one after the other. *)
Fixpoint insert_zones (zs : list Zone) (t : ZoneTree Zone) : outcome (ZoneTree Zone * list (result unit ZoneTreeModificationError)) :=
  match zs with
  | [] => Ret (t, [])
  | z :: zs =>
      let! (t, r) := zt_insert_zone zone_class zone_apex_name t z in
      let! (t, rs) := insert_zones zs t in Ret (t, r :: rs)
  end.

Lemma canon_rev (ls ms : labels) : canon (rev ls) = canon (rev ms) <-> canon ls = canon ms.
Proof. rewrite !map_rev. split; [|congruence]. intros E. by rewrite <- (rev_involutive (canon ls)), E, rev_involutive. Qed.

Lemma holder_canon zs class ls ms : canon ls = canon ms -> holder zs class ls = holder zs class ms.
Proof. intros E. unfold holder. by rewrite E. Qed.

Lemma zt_insert_spec t z ls :
  named (z, ls) -> exists t' r, zt_insert_zone zone_class zone_apex_name t z = Ret (t', r) /\
    match zt_at t (zone_class z) (rev ls) with
    | Some _ => r = Err ZoneExists /\ forall class p, zt_at t' class p = zt_at t class p
    | None => r = Ok () /\ forall class p, zt_at t' class p =
        if bool_decide (zone_class z = class /\ canon (rev ls) = canon p) then Some z else zt_at t class p
    end.
Proof.
  intros [Hd Hl]. cbn [fst snd] in *. unfold zt_insert_zone. rewrite (rev_labels_spec _ _ Hd Hl).
  set (n := match roots_get t (zone_class z) with Some n => n | None => zsn_default end).
  assert (Hn : forall p, zt_at t (zone_class z) p = zsn_get_zone n p).
  { intros p. unfold zt_at. subst n. destruct (roots_get t (zone_class z)); [done|by rewrite zsn_get_default]. }
  pose proof (fun q => zsn_get_insert n (rev ls) q z) as Hi. destruct (zsn_insert_zone n (rev ls) z) as [n' r].
  eexists _, _; split; [done|]. rewrite Hn.
  assert (Hat : forall class p, zt_at (roots_put t (zone_class z) n') class p = if zone_class z =? class then zsn_get_zone n' p else zt_at t class p).
  { intros class p. unfold zt_at. rewrite roots_get_put. by destruct (zone_class z =? class). }
  destruct (zsn_get_zone n (rev ls)); (split; [by apply (Hi [])|]); intros class p; rewrite Hat;
    (destruct (Z.eqb_spec (zone_class z) class) as [<-|Hc]; [|by rewrite ?bool_decide_eq_false_2 by tauto]).
  - by rewrite (proj2 (Hi p)), Hn.
  - rewrite (proj2 (Hi p)), Hn. repeat case_bool_decide; tauto.
Qed.

Lemma holder_snoc zs z ls class ls' :
  holder (zs ++ [(z, ls)]) class ls' =
  match holder zs class ls' with Some z => Some z | None => if bool_decide (zone_class z = class /\ canon ls = canon ls') then Some z else None end.
Proof.
  unfold holder. induction zs as [|[z0 l0] zs IH]; cbn.
  - rewrite decide_bool_decide. by case_bool_decide.
  - destruct (decide _); [done|]. rewrite <- !option_fmap_compose. cbn.
    destruct (list_find _ (zs ++ _)) as [[]|], (list_find _ zs) as [[]|]; cbn in *; congruence || done.
Qed.

(** Whether the zones could be inserted, [zs0] being there. *)
Fixpoint insert_results (zs0 zs : list (Zone * labels)) : list (result unit ZoneTreeModificationError) :=
  match zs with
  | [] => []
  | (z, ls) :: zs => match holder zs0 (zone_class z) ls with Some _ => Err ZoneExists | None => Ok () end :: insert_results (zs0 ++ [(z, ls)]) zs
  end.

Lemma insert_zones_at zs0 zs t :
  Forall named zs -> (forall class ls, zt_at t class (rev ls) = holder zs0 class ls) ->
  exists t', insert_zones (map fst zs) t = Ret (t', insert_results zs0 zs) /\ forall class ls, zt_at t' class (rev ls) = holder (zs0 ++ zs) class ls.
Proof.
  intros Hzs. revert zs0 t; induction Hzs as [|[z ls] zs Hz Hzs IH]; intros zs0 t Ht; cbn [map insert_zones fst insert_results].
  - eexists; split; [done|]. intros. by rewrite app_nil_r.
  - destruct (zt_insert_spec t z ls Hz) as (t' & r & -> & Hr). rewrite Ht in Hr.
    destruct (IH (zs0 ++ [(z, ls)]) t') as (t'' & -> & Hat).
    { intros class ls'. rewrite holder_snoc. destruct (holder zs0 (zone_class z) ls) eqn:E.
      - rewrite (proj2 Hr), Ht. destruct (holder zs0 class ls') eqn:E'; [done|]. case_bool_decide as Hx; [|done]. destruct Hx as [<- Hx].
        rewrite (holder_canon _ _ _ _ Hx) in E. congruence.
      - rewrite (proj2 Hr), Ht. rewrite (bool_decide_ext _ (zone_class z = class /\ canon ls = canon ls')) by (by rewrite canon_rev).
        destruct (holder zs0 class ls') eqn:E'; [|done]. case_bool_decide as Hx; [|done]. destruct Hx as [<- Hx].
        rewrite (holder_canon _ _ _ _ Hx) in E. congruence. }
    eexists; split; [by destruct (holder zs0 _ ls); destruct Hr as [-> _]|]. intros. rewrite <- app_assoc in Hat. apply Hat.
Qed.

(** The tree is a map from classes and names to zones: inserting fails exactly if
    there is a zone with the class and the name, up to case; [get_zone] gives the
    zone that was inserted, and [find_zone] the one whose name is the longest
    suffix of the name asked for.  (C18) *)
Theorem zone_tree_correct zs :
  Forall named zs ->
  exists t, insert_zones (map fst zs) (zt_new (Zone:=Zone)) = Ret (t, insert_results [] zs) /\
  forall N I (HI : LabelIter I) (HN : ToLabelIter N I) (HIok : LabelIterOk I) (n : N) ls class, denotes n ls -> (length ls < name_fuel)%nat ->
    zt_get_zone t n class = Ret (holder zs class ls) /\
    exists o, zt_find_zone t n class = Ret o /\
      match o with
      | Some z => exists k, (k <= length ls)%nat /\ holder zs class (drop k ls) = Some z /\ forall j, (j < k)%nat -> holder zs class (drop j ls) = None
      | None => forall k, (k <= length ls)%nat -> holder zs class (drop k ls) = None
      end.
Proof.
  intros Hzs. destruct (insert_zones_at [] zs (zt_new (Zone:=Zone)) Hzs) as (t & Ht & Hat).
  { intros class ls. unfold zt_at, roots_get, zt_new; cbn. destruct (class =? CLASS_IN); [apply zsn_get_default|done]. }
  exists t. split; [done|]. intros N I HI HN HIok n ls class Hd Hl. pose proof (rev_labels_spec n ls Hd Hl) as Hrev. split.
  - unfold zt_get_zone. rewrite <- Hat. unfold zt_at. destruct (roots_get t class); [by rewrite Hrev|done].
  - unfold zt_find_zone. unfold zt_at in Hat. cbn [app] in Hat. destruct (roots_get t class) as [nd|] eqn:E.
    + rewrite Hrev. eexists; split; [done|]. pose proof (zsn_find_spec nd (rev ls)) as Hf.
      assert (Hh : forall k, (k <= length ls)%nat -> zsn_get_zone nd (take (length ls - k) (rev ls)) = holder zs class (drop k ls)).
      { intros k Hk. rewrite <- Hat, E. f_equal. rewrite firstn_rev. do 2 f_equal. lia. }
      rewrite length_rev in Hf. destruct (zsn_find_zone nd (rev ls)) as [z|].
      * destruct Hf as (k & Hk & Hz & Hmax). exists (length ls - k)%nat. rewrite <- Hh by lia.
        replace (length ls - (length ls - k))%nat with k by lia. split_and!; [lia|done|]. intros j Hj. rewrite <- Hh by lia. apply Hmax. lia.
      * intros k Hk. rewrite <- Hh by lia. apply Hf.
    + exists None. split; [done|]. intros k _. by rewrite <- Hat, E.
Qed.

(** Removing a zone removes all zones of the class: the node that is taken off is
    the child for the first label from the right, the root. *)
Lemma remove_zone_removes_all (t t' : ZoneTree Zone) n ls class :
  hm_wf label_eq (zsn_children (match roots_get t class with Some n => n | None => zsn_default end)) ->
  wf_abs n ls -> zt_remove_zone t n class = Ret (t', Ok ()) ->
  forall m ms, wf_abs m ms -> zt_get_zone t' m class = Ret None.
Proof.
  intros Hwf Hn Hr m ms Hm. unfold zt_remove_zone in Hr. destruct (roots_get t class) as [nd|] eqn:E; [|done].
  rewrite (rev_labels_spec n ls (wf_abs_denotes _ _ Hn) (wf_abs_fuel _ _ Hn)) in Hr.
  destruct Hn as ((ls0 & -> & _) & _). rewrite rev_unit in Hr. cbn [zsn_remove_zone] in Hr.
  pose proof (hm_get_remove label_eq [] [] (zsn_children nd) Hwf) as Hg. destruct (hm_remove label_eq [] (zsn_children nd)) as [[c|] cs]; [|done].
  injection Hr as <-. unfold zt_get_zone. rewrite roots_get_put, Z.eqb_refl.
  rewrite (rev_labels_spec m ms (wf_abs_denotes _ _ Hm) (wf_abs_fuel _ _ Hm)). destruct Hm as ((ms0 & -> & _) & _).
  rewrite rev_unit. cbn [zsn_get_zone zsn_children]. cbn [snd] in Hg. by rewrite Hg.
Qed.
End Map.

(** ** Iterating gives the zones of all nodes *)

Section Iterating.
Context {Zone : Type}.

(** A node and all below it. *)
Fixpoint nodes_of (n : ZoneSetNode Zone) : list (ZoneSetNode Zone) :=
  match n with mkZoneSetNode _ children => n :: concat (map (fun c => nodes_of c.2) children) end.

Definition nodes_of_all (l : list (ZoneSetNode Zone)) : list (ZoneSetNode Zone) := concat (map nodes_of l).

Lemma nodes_of_eq n : nodes_of n = n :: nodes_of_all (map snd (zsn_children n)).
Proof. destruct n as [z c]. cbn. unfold nodes_of_all. by rewrite map_map. Qed.

(** What is left for an iterator. *)
Definition nodes_left (it : NodesIter (Zone:=Zone)) : list (ZoneSetNode Zone) :=
  match ni_root it with Some n => nodes_of n | None => [] end ++ concat (map nodes_of_all (ni_stack it)).

Lemma ni_next_spec it :
  match ni_next it with
  | (None, it') => nodes_left it = [] /\ nodes_left it' = []
  | (Some n, it') => nodes_left it = n :: nodes_left it'
  end.
Proof.
  unfold ni_next, next_node, nodes_left. destruct it as [[n|] st]; cbn [ni_root ni_stack]; [by rewrite nodes_of_eq|].
  induction st as [|[|n iter] st IH]; cbn [next_node_loop map concat]; [done|exact IH|].
  cbn. unfold nodes_of_all at 1. cbn. rewrite nodes_of_eq. cbn. by rewrite <- app_assoc.
Qed.

Definition all_left (it : ZoneSetIter (Zone:=Zone)) : list (ZoneSetNode Zone) := nodes_left (zsi_nodes it) ++ nodes_of_all (zsi_roots it).

Lemma zsi_next_spec fuel it :
  (length (all_left it) + length (zsi_roots it) < fuel)%nat ->
  exists o it', zsi_next fuel it = Ret (o, it') /\ (length (all_left it') <= length (all_left it))%nat /\ (length (zsi_roots it') <= length (zsi_roots it))%nat /\
    match o with
    | Some z => omap zsn_zone (all_left it) = z :: omap zsn_zone (all_left it')
    | None => omap zsn_zone (all_left it) = []
    end.
Proof.
  revert it; induction fuel as [|fuel IH]; intros it Hf; [lia|]. cbn [zsi_next]. unfold all_left in *.
  pose proof (ni_next_spec (zsi_nodes it)) as Hn. destruct (ni_next (zsi_nodes it)) as [[n|] nodes]; [|destruct Hn as [Hn Hn']]; rewrite Hn in *.
  - cbn [app length omap list_omap] in *. destruct (zsn_zone n) as [z|].
    + exists (Some z), (mkZoneSetIter (zsi_roots it) nodes). cbn [zsi_nodes zsi_roots]. split_and!; [done|lia|lia|done].
    + destruct (IH (mkZoneSetIter (zsi_roots it) nodes)) as (o & it' & -> & Hl & Hr & Ho); cbn [zsi_nodes zsi_roots] in *; [lia|].
      exists o, it'. split_and!; [done|lia|lia|done].
  - cbn [app] in *. destruct it as [roots nd]; cbn [zsi_roots zsi_nodes] in *. destruct roots as [|root roots].
    + exists None, (mkZoneSetIter [] nodes). cbn [zsi_nodes zsi_roots]. rewrite Hn'. by split_and!.
    + assert (Hroot : nodes_left (ni_new root) = nodes_of root) by (unfold nodes_left, ni_new; cbn; apply app_nil_r).
      assert (Hall : nodes_of_all (root :: roots) = nodes_of root ++ nodes_of_all roots) by done. rewrite Hall in *. cbn [length] in *.
      destruct (IH (mkZoneSetIter roots (ni_new root))) as (o & it' & -> & Hl & Hr & Ho); cbn [zsi_nodes zsi_roots] in *; rewrite Hroot in *; [lia|].
      exists o, it'. split_and!; [done|done|lia|done].
Qed.

Fixpoint zsi_collect (fuel : nat) (it : ZoneSetIter (Zone:=Zone)) : outcome (list Zone) :=
  match fuel with
  | O => Panic
  | S fuel' =>
      let! (o, it) := zsi_next fuel it in
      match o with Some z => let! l := zsi_collect fuel' it in Ret (z :: l) | None => Ret [] end
  end.

Lemma zsi_collect_spec fuel it :
  (length (all_left it) + length (zsi_roots it) + length (omap zsn_zone (all_left it)) < fuel)%nat ->
  zsi_collect fuel it = Ret (omap zsn_zone (all_left it)).
Proof.
  revert it; induction fuel as [|fuel IH]; intros it Hf; [lia|]. cbn [zsi_collect].
  destruct (zsi_next_spec (S fuel) it) as (o & it' & -> & Hl & Hr & Ho); [lia|]. destruct o as [z|]; rewrite Ho in *; [|done].
  cbn [length] in Hf. by rewrite (IH it') by lia.
Qed.

(** The iterator ends and gives the zones of all the nodes of the tree. *)
Lemma iter_zones_spec (t : ZoneTree Zone) :
  exists fuel, zsi_collect fuel (zt_iter_zones t) = Ret (omap zsn_zone (nodes_of (in_ t) ++ nodes_of_all (map snd (others t)))).
Proof.
  eexists. rewrite zsi_collect_spec; [|apply Nat.lt_succ_diag_r]. unfold all_left, zt_iter_zones, nodes_left; cbn. by rewrite app_nil_r.
Qed.
End Iterating.

(** ** Examples *)

(** Zones of class IN, by the name of their apex. *)
Lemma zone_tree_correct_witness :
  exists t, insert_zones (fun _ : Name => 1) (fun n => n) [ex_a; ex_ba; ex_A] zt_new = Ret (t, [Ok (); Ok (); Err ZoneExists]) /\
    zt_get_zone t ex_ba 1 = Ret (Some ex_ba).
Proof.
  assert (Hz : Forall (named (fun n : Name => n)) [(ex_a, [[97]; []]); (ex_ba, [[98]; [97]; []]); (ex_A, [[65]; []])]).
  { repeat constructor; try (apply wf_abs_denotes; first [apply ex_a_wf | apply ex_ba_wf | apply ex_A_wf]); by_decide. }
  destruct (zone_tree_correct (fun _ : Name => 1) (fun n => n) _ Hz) as (t & Ht & Hg). exists t. split; [exact Ht|].
  destruct (Hg Name _ _ _ _ ex_ba [[98]; [97]; []] 1) as [-> _]; [apply wf_abs_denotes, ex_ba_wf|by_decide|]. reflexivity.
Defined.

(** Removing one of two zones leaves none. *)
Lemma removing_a_loses_b :
  match insert_zones (fun _ : Name => 1) (fun n => n) [ex_a; mkName [1; 98; 0]] zt_new with
  | Ret (t, _) => match zt_remove_zone t ex_a 1 with Ret (t, r) => r = Ok () /\ zt_get_zone t (mkName [1; 98; 0]) 1 = Ret None | Panic => False end
  | Panic => False
  end.
Proof. by vm_compute. Qed.
