(* ===== verification/Versioned.v ===== *)
(** * Versioned values ([src/src/zonetree/in_memory/versioned.rs])

    An in-memory zone keeps, for everything in it, the values of all versions of
    the zone.  Versions are serial numbers and compared as such, so the order is
    that of the versions as long as they are less than 2^31 apart: all are in a
    window that starts at some version [base]. *)

From S2P Require Import Prelude Octets Serial.
From stdpp Require Import list sorting.
#[local] Open Scope Z_scope.

Definition Version : Type := Serial.

Definition version_next (v : Version) : outcome Version := serial_add v 1.
Definition version_default : Version := mkSerial 0.

(** [<=] of the derived [PartialOrd]. *)
Definition version_le (a b : Version) : bool := match serial_partial_cmp a b with Some Lt | Some Eq => true | _ => false end.

Section Versioned.
Context {T : Type}.

(** [Versioned]; the newest version is last. *)
Definition Versioned : Type := list (Version * option T).

Definition vnew : Versioned := [].

Definition vget (d : Versioned) (version : Version) : option T :=
  match list_find (fun item => version_le item.1 version = true) (reverse d) with
  | Some (_, (_, value)) => value
  | None => None
  end.

(** [data] without its last item. *)
Definition but_last (d : Versioned) : Versioned := take (length d - 1) d.

Definition vupdate (d : Versioned) (version : Version) (value : T) : Versioned :=
  match last d with
  | Some (v, _) => if bool_decide (v = version) then but_last d ++ [(v, Some value)] else d ++ [(version, Some value)]
  | None => d ++ [(version, Some value)]
  end.

Definition vrollback (d : Versioned) (version : Version) : Versioned :=
  if bool_decide (fst <$> last d = Some version) then but_last d else d.

Definition vremove (d : Versioned) (version : Version) : Versioned :=
  match last d with
  | Some (v, value) =>
      match value with
      | None => d
      | Some _ =>
          if bool_decide (v = version) then
            if (length d =? 1)%nat then but_last d else but_last d ++ [(v, None)]
          else d ++ [(version, None)]
      end
  | None => d
  end.

(** ** The order of versions *)

Context (base : Version).

(** How far a version is from the start of the window. *)
Definition age (v : Version) : Z := serial_distance base v.
Definition in_window (v : Version) : Prop := wf_serial v /\ age v < 2 ^ 31.

Lemma version_le_age a b : in_window a -> in_window b -> version_le a b = (age a <=? age b).
Proof.
  intros [Ha Wa] [Hb Wb]. unfold version_le. rewrite serial_partial_cmp_distance by done.
  assert (Hd : serial_distance a b = (age b - age a) mod 2 ^ 32).
  { unfold age, serial_distance. rewrite <- Zminus_mod. f_equal. lia. }
  assert (Ra : 0 <= age a) by (apply Z.mod_pos_bound; lia). assert (Rb : 0 <= age b) by (apply Z.mod_pos_bound; lia).
  rewrite Hd. destruct (Z.leb_spec (age a) (age b)).
  - rewrite Z.mod_small by lia. destruct (Z.eqb_spec (age b - age a) 0); [done|]. by destruct (Z.compare_spec (age b - age a) (2 ^ 31)); try lia.
  - rewrite <- (Z.mod_add _ 1), Z.mod_small by lia. destruct (Z.eqb_spec (age b - age a + 1 * 2 ^ 32) 0); [lia|].
    by destruct (Z.compare_spec (age b - age a + 1 * 2 ^ 32) (2 ^ 31)); try lia.
Qed.

(** ** What a reader sees *)

Lemma vget_nil w : vget [] w = None.
Proof. done. Qed.

Lemma vget_snoc d v o w : vget (d ++ [(v, o)]) w = if version_le v w then o else vget d w.
Proof.
  unfold vget. rewrite reverse_snoc. cbn [list_find]. rewrite decide_bool_decide. cbn [fst].
  destruct (version_le v w); [done|]. cbn.
  destruct (list_find _ (reverse d)) as [[i [v' o']]|]; done.
Qed.

Lemma but_last_snoc d x : but_last (d ++ [x]) = d.
Proof. unfold but_last. rewrite length_app. simpl. replace (length d + 1 - 1)%nat with (length d) by lia. by rewrite take_app_length. Qed.

(** The versions go up. *)
Definition vwf (d : Versioned) : Prop := Forall (fun i => in_window i.1) d /\ StronglySorted Z.lt (map (fun i => age i.1) d).

(** All versions are before [v]. *)
Definition before (v : Version) (d : Versioned) : Prop := Forall (fun i => age i.1 < age v) d.

(** At [v] and later, all of the past is seen. *)
Lemma vget_before v d w : vwf d -> before v d -> in_window v -> in_window w -> age v <= age w -> vget d w = vget d v.
Proof.
  intros [Hw _] Hb Hv Hin Hle. destruct d as [|[v' o] d _] using rev_ind; [done|]. rewrite !vget_snoc.
  apply Forall_app in Hw as [_ [Hv' _]%Forall_cons]. apply Forall_app in Hb as [_ [Hb' _]%Forall_cons]. cbn in *.
  rewrite !version_le_age by done. destruct (Z.leb_spec (age v') (age w)), (Z.leb_spec (age v') (age v)); try lia. done.
Qed.

(** ** A transaction *)

(** What can be done to the value in the version that is being made. *)
Inductive vop := VUpdate (value : T) | VRemove.

Definition vapply (v : Version) (d : Versioned) (op : vop) : Versioned :=
  match op with VUpdate x => vupdate d v x | VRemove => vremove d v end.

Definition vop_value (o : option T) (op : vop) : option T := match op with VUpdate x => Some x | VRemove => None end.

(** The state while version [v] is being made from [d]: untouched, or with an entry
    for [v]. *)
Definition pending (d : Versioned) (v : Version) (d' : Versioned) (o : option T) : Prop :=
  (d' = d /\ o = vget d v) \/ (d' = d ++ [(v, o)] /\ (d = [] -> o <> None)).

Lemma pending_apply d v d' o op :
  vwf d -> before v d -> in_window v -> pending d v d' o -> pending d v (vapply v d' op) (vop_value o op).
Proof.
  intros Hw Hb Hv Hp. assert (Hlast : forall v' o', last d = Some (v', o') -> v' <> v /\ vget d v = o').
  { intros v' o' El. apply last_Some in El as (d0 & ->). destruct Hw as [Hw _]. apply Forall_app in Hw as [_ [Hv' _]%Forall_cons].
    apply Forall_app in Hb as [_ [Hb' _]%Forall_cons]. cbn in *. split; [intros ->; lia|]. rewrite vget_snoc, version_le_age by done.
    by destruct (Z.leb_spec (age v') (age v)); [|lia]. }
  destruct Hp as [[-> ->]|[-> Ho]]; destruct op; cbn [vapply vop_value].
  - right. unfold vupdate. destruct (last d) as [[v' o']|] eqn:El; [|done]. destruct (Hlast _ _ eq_refl) as [Hne _].
    by rewrite bool_decide_eq_false_2.
  - unfold vremove. destruct (last d) as [[v' o']|] eqn:El; [|left; split; [done|]; by apply last_None in El as ->].
    destruct (Hlast _ _ eq_refl) as [Hne Hg]. destruct o' as [x|]; [|by left]. right. rewrite bool_decide_eq_false_2 by done.
    split; [done|]. by intros ->.
  - right. unfold vupdate. rewrite last_snoc, bool_decide_eq_true_2, but_last_snoc by done. done.
  - unfold vremove. rewrite last_snoc. destruct o as [x|]; [|by right]. rewrite bool_decide_eq_true_2, but_last_snoc, length_app by done. simpl.
    destruct (Nat.eqb_spec (length d + 1) 1) as [Hl|Hl].
    + left. split; [done|]. by destruct d; [|simpl in Hl; lia].
    + right. split; [done|]. by intros ->.
Qed.

(** Readers of earlier versions see what they saw. *)
Lemma pending_get d v d' o w : vwf d -> before v d -> in_window v -> pending d v d' o -> in_window w ->
  vget d' w = if age w <? age v then vget d w else o.
Proof.
  intros Hw Hb Hv [[-> ->]|[-> _]] Hin.
  - destruct (Z.ltb_spec (age w) (age v)); [done|]. by apply vget_before.
  - rewrite vget_snoc, version_le_age by done. destruct (Z.leb_spec (age v) (age w)), (Z.ltb_spec (age w) (age v)); done || lia.
Qed.

Lemma pending_rollback d v d' o : before v d -> pending d v d' o -> vrollback d' v = d.
Proof.
  intros Hb [[-> ->]|[-> _]]; unfold vrollback; [|by rewrite last_snoc, bool_decide_eq_true_2, but_last_snoc].
  rewrite bool_decide_eq_false_2; [done|]. destruct (last d) as [[v' o']|] eqn:El; [|done]. intros [= ->].
  apply last_Some in El as (d0 & ->). apply Forall_app in Hb as [_ [Hb' _]%Forall_cons]. cbn in Hb'. lia.
Qed.

(** The versions stay in order, up to the new one. *)
Lemma pending_wf d v d' o : vwf d -> before v d -> in_window v -> pending d v d' o -> vwf d' /\ Forall (fun i => age i.1 <= age v) d'.
Proof.
  intros Hw Hb Hv Hp. assert (Hle : Forall (fun i => age i.1 <= age v) d) by (eapply Forall_impl; [exact Hb|]; cbn; lia).
  destruct Hp as [[-> _]|[-> _]]; [done|]. split; [|apply Forall_app; split; [done|]; apply Forall_singleton; cbn; lia].
  destruct Hw as [Hin Hs]. split; [apply Forall_app; split; [done|by apply Forall_singleton]|]. rewrite map_app. cbn. clear -Hs Hb.
  induction d as [|i d IH]; [by repeat constructor|]. apply Forall_cons in Hb as [Hi Hb]. cbn in *. apply StronglySorted_cons in Hs as [Hall Hs].
  apply StronglySorted_cons. split; [|by apply IH]. apply Forall_app. split; [done|by apply Forall_singleton].
Qed.

(** Any sequence of updates and removals made for a new version changes nothing for
    the readers of earlier versions; for the new version and those after it, the
    last of them tells what is there; rolling back restores the data; and the
    versions stay in order.  (C19) *)
Theorem versioned_transaction_correct d v ops :
  vwf d -> before v d -> in_window v ->
  let d' := fold_left (vapply v) ops d in
  (forall w, in_window w -> vget d' w = if age w <? age v then vget d w else fold_left vop_value ops (vget d v)) /\
  vrollback d' v = d /\ vwf d' /\ Forall (fun i => age i.1 <= age v) d'.
Proof.
  intros Hw Hb Hv d'. assert (Hp : pending d v d' (fold_left vop_value ops (vget d v))).
  { subst d'. cut (forall d' o, pending d v d' o -> pending d v (fold_left (vapply v) ops d') (fold_left vop_value ops o)); [intros Hc; apply Hc; by left|].
    induction ops as [|op ops IH]; intros d' o Hp; [done|]. cbn [fold_left]. apply IH. by apply pending_apply. }
  split; [by intros w Hin; eapply pending_get|]. split; [by eapply pending_rollback|by eapply pending_wf].
Qed.
End Versioned.

Arguments Versioned : clear implicits.

Lemma versioned_transaction_correct_witness :
  vget (fold_left (vapply (mkSerial 2)) [VUpdate 30; VRemove; VUpdate 40] [(mkSerial 1, Some 10)]) (mkSerial 1) = Some 10 /\
  vrollback (fold_left (vapply (mkSerial 2)) [VUpdate 30; VRemove; VUpdate 40] [(mkSerial 1, Some 10)]) (mkSerial 2) = [(mkSerial 1, Some 10)].
Proof.
  destruct (versioned_transaction_correct (mkSerial 0) [(mkSerial 1, Some 10)] (mkSerial 2) [VUpdate 30; VRemove; VUpdate 40]) as (Hg & Hr & _).
  - split; [repeat constructor; by vm_compute|by repeat constructor].
  - repeat constructor.
  - split; by vm_compute.
  - split; [|exact Hr]. rewrite Hg; [reflexivity|]. split; by vm_compute.
Defined.
