(* ===== verification/ZoneStore.v ===== *)
(** * In-memory zones

    The nodes of an in-memory zone and queries against it:
    [src/src/zonetree/in_memory/nodes.rs], [read.rs] and [builder.rs], with the
    data types of [src/src/zonetree/types.rs] and [answer.rs] they use.  A zone is
    a tree of labels below its apex; all that is in a node is versioned.

    Locks and reference counts are left out: there is one writer at a time, and
    what it writes has a version no reader asks for. *)

From S2P Require Import Prelude Octets Serial Symbol Label Traits Name ParsedName Header Compressor MessageBuilder Message Record Ttl Layout Rdata Bitmap Txt Dnssec Nsec3 ZoneData HashMap ZoneSet Versioned.
From stdpp Require Import list.
#[local] Open Scope Z_scope.
#[local] Set Warnings "-register-all".

(** ** Records and record sets ([types.rs]) *)

Definition StoredName : Type := Name.
Definition StoredRecordData : Type := ZoneRecordData Name.
Definition StoredRecord : Type := ResourceRecord Name StoredRecordData.

Record SharedRr := mkSharedRr { srr_ttl : Z; srr_data : StoredRecordData }.

Definition shared_rr_from_record (r : StoredRecord) : SharedRr := mkSharedRr (rr_ttl r) (rr_data r).

Record Rrset := mkRrset { rrset_rtype : Z; rrset_ttl : Z; rrset_data : list StoredRecordData }.

Definition rrset_new (rtype ttl : Z) : Rrset := mkRrset rtype ttl [].
Definition rrset_is_empty (r : Rrset) : bool := match rrset_data r with [] => true | _ => false end.

Definition rrset_first (r : Rrset) : option SharedRr :=
  match rrset_data r with [] => None | d :: _ => Some (mkSharedRr (rrset_ttl r) d) end.

Definition rrset_limit_ttl (r : Rrset) (ttl : Z) : Rrset := if ttl <? rrset_ttl r then mkRrset (rrset_rtype r) ttl (rrset_data r) else r.

(** [assert_eq!] on the record types. *)
Definition rrset_push_data (r : Rrset) (data : StoredRecordData) : outcome Rrset :=
  if zone_rtype data =? rrset_rtype r then Ret (mkRrset (rrset_rtype r) (rrset_ttl r) (rrset_data r ++ [data])) else Panic.

Definition rrset_push_record (r : Rrset) (rec : StoredRecord) : outcome Rrset :=
  rrset_push_data (rrset_limit_ttl r (rr_ttl rec)) (rr_data rec).

Definition rrset_from_record (rec : StoredRecord) : Rrset := mkRrset (zone_rtype (rr_data rec)) (rr_ttl rec) [rr_data rec].

(** [SharedRrset], a record set behind a reference that is only read. *)
Definition SharedRrset : Type := Rrset.

Record ZoneCut := mkZoneCut { cut_name : StoredName; cut_ns : SharedRrset; cut_ds : option SharedRrset; cut_glue : list StoredRecord }.

Inductive Special := Cut (cut : ZoneCut) | Cname (cname : SharedRr) | NxDomain.

(** ** Nodes ([nodes.rs]) *)

(** [NodeRrsets]: a [NodeRrset] is a versioned record set. *)
Definition NodeRrsets : Type := hmap Z (Versioned SharedRrset).

Definition nrs_is_empty (m : NodeRrsets) (version : Version) : bool :=
  forallb (fun x => match vget x.2 version with Some _ => false | None => true end) m.

Definition nrs_get (m : NodeRrsets) (rtype : Z) (version : Version) : option SharedRrset :=
  match hm_get Z.eqb rtype m with Some d => vget d version | None => None end.

Definition nrs_remove_rtype (m : NodeRrsets) (rtype : Z) (version : Version) : NodeRrsets :=
  hm_alter Z.eqb vnew (fun d => vremove d version) rtype m.

Definition nrs_update (m : NodeRrsets) (rrset : SharedRrset) (version : Version) : NodeRrsets :=
  if rrset_is_empty rrset then nrs_remove_rtype m (rrset_rtype rrset) version
  else hm_alter Z.eqb vnew (fun d => vupdate d version rrset) (rrset_rtype rrset) m.

Definition nrs_rollback (m : NodeRrsets) (version : Version) : NodeRrsets := map (fun x => (x.1, vrollback x.2 version)) m.
Definition nrs_remove_all (m : NodeRrsets) (version : Version) : NodeRrsets := map (fun x => (x.1, vremove x.2 version)) m.

Inductive ZoneNode := mkZoneNode (rrsets : NodeRrsets) (special : Versioned (option Special)) (children : list (list Z * ZoneNode)).

Definition zn_rrsets (n : ZoneNode) : NodeRrsets := let (r, _, _) := n in r.
Definition zn_special (n : ZoneNode) : Versioned (option Special) := let (_, s, _) := n in s.
Definition zn_children (n : ZoneNode) : hmap (list Z) ZoneNode := let (_, _, c) := n in c.

Definition zn_default : ZoneNode := mkZoneNode [] vnew [].

(** [with_special] with the identity for its operation. *)
Definition zn_with_special (n : ZoneNode) (version : Version) : option Special :=
  match vget (zn_special n) version with Some s => s | None => None end.

Definition zn_is_nx_domain (n : ZoneNode) (version : Version) : bool :=
  match zn_with_special n version with Some NxDomain => true | _ => false end.

Definition zn_update_special (n : ZoneNode) (version : Version) (special : option Special) : ZoneNode :=
  mkZoneNode (zn_rrsets n) (vupdate (zn_special n) version special) (zn_children n).

Definition zn_set_rrsets (n : ZoneNode) (r : NodeRrsets) : ZoneNode := mkZoneNode r (zn_special n) (zn_children n).

Fixpoint zn_rollback (version : Version) (n : ZoneNode) : ZoneNode :=
  match n with
  | mkZoneNode r s c => mkZoneNode (nrs_rollback r version) (vrollback s version) (map (fun x => (x.1, zn_rollback version x.2)) c)
  end.

Fixpoint zn_remove_all (version : Version) (n : ZoneNode) : ZoneNode :=
  match n with
  | mkZoneNode r s c => mkZoneNode (nrs_remove_all r version) (vremove s version) (map (fun x => (x.1, zn_remove_all version x.2)) c)
  end.

(** [NodeChildren]. *)
Definition NodeChildren : Type := hmap (list Z) ZoneNode.

Definition nc_with (c : NodeChildren) (label : list Z) : option ZoneNode := hm_get label_eq label c.

(** [with_or_default]: whether the child was created, and the children with [f] done
    to it. *)
Definition nc_with_or_default (c : NodeChildren) (label : list Z) (f : ZoneNode -> ZoneNode) : bool * NodeChildren :=
  (match nc_with c label with Some _ => false | None => true end, hm_alter label_eq zn_default f label c).

Definition nc_rollback (c : NodeChildren) (version : Version) : NodeChildren := map (fun x => (x.1, zn_rollback version x.2)) c.
Definition nc_remove_all (c : NodeChildren) (version : Version) : NodeChildren := map (fun x => (x.1, zn_remove_all version x.2)) c.

Record ZoneApex := mkZoneApex { za_apex_name : StoredName; za_class : Z; za_rrsets : NodeRrsets; za_children : NodeChildren }.

Definition za_new (apex_name : StoredName) (class : Z) : ZoneApex := mkZoneApex apex_name class [] [].

Definition za_get_soa (a : ZoneApex) (version : Version) : option SharedRr :=
  match nrs_get (za_rrsets a) RTYPE_SOA version with Some rrset => rrset_first rrset | None => None end.

Definition za_rollback (a : ZoneApex) (version : Version) : ZoneApex :=
  mkZoneApex (za_apex_name a) (za_class a) (nrs_rollback (za_rrsets a) version) (nc_rollback (za_children a) version).

Definition za_remove_all (a : ZoneApex) (version : Version) : ZoneApex :=
  mkZoneApex (za_apex_name a) (za_class a) (nrs_remove_all (za_rrsets a) version) (nc_remove_all (za_children a) version).

(** [OutOfZone]. *)
Inductive OutOfZone := OutOfZoneErr.

(** The loop of [rel_name_rev_iter]: the labels of the base from the right, compared
    with those of the name. *)
Fixpoint rel_rev_loop (base qname : list (list Z)) : result (list (list Z)) OutOfZone :=
  match base with
  | [] => Ok qname
  | apex_label :: base =>
      match qname with
      | label :: qname => if label_eq apex_label label then rel_rev_loop base qname else Err OutOfZoneErr
      | [] => Err OutOfZoneErr
      end
  end.

Definition rel_name_rev_iter {N I} `{ToLabelIter N I} (base : StoredName) (qname : N) : outcome (result (list (list Z)) OutOfZone) :=
  let! q := rev_labels qname in
  let! b := rev_labels base in
  Ret (rel_rev_loop b q).

Definition za_prepare_name {N I} `{ToLabelIter N I} (a : ZoneApex) (qname : N) : outcome (result (list (list Z)) OutOfZone) :=
  rel_name_rev_iter (za_apex_name a) qname.

(** ** Answers ([answer.rs]) *)

Definition RCODE_NOERROR : Z := 0.
Definition RCODE_NXDOMAIN : Z := 3.

Inductive AnswerContent := AnswerData (rrset : SharedRrset) | AnswerCname (cname : SharedRr) | AnswerNoData.

Record AnswerAdditional := mkAdditional { required : list StoredRecord; discardable : list StoredRecord }.

Record AnswerAuthority := mkAuthority {
  aa_owner : StoredName; aa_soa : option SharedRr; aa_ns : option SharedRrset; aa_ds : option SharedRrset }.

(** [Answer]. *)
Record ZAnswer := mkAnswer {
  ans_rcode : Z; ans_content : AnswerContent; ans_additional : option AnswerAdditional; ans_authority : option AnswerAuthority;
  ans_authoritative : bool }.

Definition answer_new (rcode : Z) : ZAnswer := mkAnswer rcode AnswerNoData None None false.
Definition answer_with_authority (rcode : Z) (authority : AnswerAuthority) : ZAnswer := mkAnswer rcode AnswerNoData None (Some authority) false.

Definition answer_set_content (a : ZAnswer) (c : AnswerContent) : ZAnswer :=
  mkAnswer (ans_rcode a) c (ans_additional a) (ans_authority a) (ans_authoritative a).
Definition answer_add_cname (a : ZAnswer) (cname : SharedRr) : ZAnswer := answer_set_content a (AnswerCname cname).
Definition answer_add_answer (a : ZAnswer) (rrset : SharedRrset) : ZAnswer := answer_set_content a (AnswerData rrset).
Definition answer_set_additional (a : ZAnswer) (x : AnswerAdditional) : ZAnswer :=
  mkAnswer (ans_rcode a) (ans_content a) (Some x) (ans_authority a) (ans_authoritative a).
Definition answer_set_authority (a : ZAnswer) (x : AnswerAuthority) : ZAnswer :=
  mkAnswer (ans_rcode a) (ans_content a) (ans_additional a) (Some x) (ans_authoritative a).
Definition answer_set_authoritative (a : ZAnswer) (b : bool) : ZAnswer :=
  mkAnswer (ans_rcode a) (ans_content a) (ans_additional a) (ans_authority a) b.

(** ** Queries ([read.rs]) *)

Record NodeAnswer := mkNodeAnswer { na_answer : ZAnswer; na_add_soa : bool; na_authoritative : bool }.

Definition na_data (rrset : SharedRrset) : NodeAnswer := mkNodeAnswer (answer_add_answer (answer_new RCODE_NOERROR) rrset) false true.
Definition na_no_data : NodeAnswer := mkNodeAnswer (answer_new RCODE_NOERROR) true true.
Definition na_cname (rr : SharedRr) : NodeAnswer := mkNodeAnswer (answer_add_cname (answer_new RCODE_NOERROR) rr) false true.
Definition na_nx_domain : NodeAnswer := mkNodeAnswer (answer_new RCODE_NXDOMAIN) true true.
Definition na_authority (authority : AnswerAuthority) (additional : AnswerAdditional) : NodeAnswer :=
  mkNodeAnswer (answer_set_additional (answer_with_authority RCODE_NOERROR authority) additional) false false.

Definition RTYPE_ANY : Z := 255.
Definition LABEL_WILDCARD : list Z := [42].

Section Reading.
(** The order in which a map is iterated over. *)
Context (order : NodeRrsets -> NodeRrsets) (version : Version).

Definition na_into_answer (na : NodeAnswer) (apex : ZoneApex) : ZAnswer :=
  let answer := if na_add_soa na then
      match za_get_soa apex version with
      | Some soa => answer_set_authority (na_answer na) (mkAuthority (za_apex_name apex) (Some soa) None None)
      | None => na_answer na
      end
    else na_answer na in
  answer_set_authoritative answer (na_authoritative na).

(** For ANY, the first record set the map's iterator gives. *)
Definition query_rrsets (rrsets : NodeRrsets) (qtype : Z) : NodeAnswer :=
  if qtype =? RTYPE_ANY then
    match order rrsets with
    | (_, d) :: _ => match vget d version with Some rrset => na_data rrset | None => na_no_data end
    | [] => na_no_data
    end
  else match nrs_get rrsets qtype version with Some rrset => na_data rrset | None => na_no_data end.

Definition referral (cut : ZoneCut) : NodeAnswer :=
  na_authority (mkAuthority (cut_name cut) None (Some (cut_ns cut)) (cut_ds cut)) (mkAdditional (cut_glue cut) []).

Definition query_at_cut (cut : ZoneCut) (qtype : Z) : NodeAnswer :=
  if qtype =? RTYPE_DS then match cut_ds cut with Some rrset => na_data rrset | None => na_no_data end
  else referral cut.

Definition query_node_here_but_not_below (node : ZoneNode) (qtype : Z) : NodeAnswer :=
  match zn_with_special node version with
  | Some (Cut cut) => query_at_cut cut qtype
  | Some (Cname cname) => na_cname cname
  | Some NxDomain => na_nx_domain
  | None => query_rrsets (zn_rrsets node) qtype
  end.

(** [query_node] and [query_children], which call each other, without walking; the
    name is what is left of it, from the right. *)
Fixpoint query_children (children : NodeChildren) (label : list Z) (qname : list (list Z)) (qtype : Z) : NodeAnswer :=
  match nc_with children label with
  | Some node =>
      match qname with
      | [] => query_node_here_but_not_below node qtype
      | label :: qname =>
          match zn_with_special node version with
          | Some (Cut cut) => referral cut
          | Some NxDomain => na_nx_domain
          | Some (Cname _) | None => query_children (zn_children node) label qname qtype
          end
      end
  | None =>
      match nc_with children LABEL_WILDCARD with
      | Some node => query_node_here_but_not_below node qtype
      | None => na_nx_domain
      end
  end.

Definition zone_query (apex : ZoneApex) (qname : Name) (qtype : Z) : outcome (result ZAnswer OutOfZone) :=
  let! q := za_prepare_name apex qname in
  match q with
  | Err err => Ret (Err err)
  | Ok q =>
      let answer := match q with
        | label :: q => query_children (za_children apex) label q qtype
        | [] => query_rrsets (za_rrsets apex) qtype
        end in
      Ret (Ok (na_into_answer answer apex))
  end.
End Reading.


(** ** The plain reading of a query *)

(** What is at the paths below the apex: whether there is a node, with its special
    function, and the record types it has an entry for, with the record set. *)
Record zview := mkView {
  zv_special : list (list Z) -> option (option Special);
  zv_entry : list (list Z) -> Z -> option (option SharedRrset) }.

(** A query goes on below the node. *)
Definition zv_passes (v : zview) (p : list (list Z)) : bool :=
  match zv_special v p with Some None | Some (Some (Cname _)) => true | _ => false end.

(** It goes on below all nodes above the path. *)
Definition reached (v : zview) (q : list (list Z)) : Prop :=
  forall k, (0 < k < length q)%nat -> zv_passes v (take k q) = true.

(** The record sets of a node; for ANY, one of those there are. *)
Inductive at_types (v : zview) (p : list (list Z)) (qtype : Z) : NodeAnswer -> Prop :=
  | types_data rrset : qtype <> RTYPE_ANY -> zv_entry v p qtype = Some (Some rrset) -> at_types v p qtype (na_data rrset)
  | types_none : qtype <> RTYPE_ANY -> (forall rrset, zv_entry v p qtype <> Some (Some rrset)) -> at_types v p qtype na_no_data
  | types_any t rrset : qtype = RTYPE_ANY -> zv_entry v p t = Some (Some rrset) -> at_types v p qtype (na_data rrset)
  | types_any_none : qtype = RTYPE_ANY -> (forall t rrset, zv_entry v p t <> Some (Some rrset)) -> at_types v p qtype na_no_data.

(** The answer if the name of a node is asked for. *)
Inductive at_node (v : zview) (p : list (list Z)) (qtype : Z) : NodeAnswer -> Prop :=
  | node_cut cut : zv_special v p = Some (Some (Cut cut)) -> qtype <> RTYPE_DS -> at_node v p qtype (referral cut)
  | node_cut_ds cut ds : zv_special v p = Some (Some (Cut cut)) -> qtype = RTYPE_DS -> cut_ds cut = Some ds -> at_node v p qtype (na_data ds)
  | node_cut_no_ds cut : zv_special v p = Some (Some (Cut cut)) -> qtype = RTYPE_DS -> cut_ds cut = None -> at_node v p qtype na_no_data
  | node_cname cname : zv_special v p = Some (Some (Cname cname)) -> at_node v p qtype (na_cname cname)
  | node_nx : zv_special v p = Some (Some NxDomain) -> at_node v p qtype na_nx_domain
  | node_types a : zv_special v p = Some None -> at_types v p qtype a -> at_node v p qtype a.

(** The answer for a path below the apex: from the first node on the way that is a
    zone cut or marked as not existing, from the node of the name, or from the
    wildcard below the last node there is. *)
Inductive resolves (v : zview) (q : list (list Z)) (qtype : Z) : NodeAnswer -> Prop :=
  | res_apex a : q = [] -> at_types v [] qtype a -> resolves v q qtype a
  | res_referral k cut : (0 < k < length q)%nat -> reached v (take k q) ->
      zv_special v (take k q) = Some (Some (Cut cut)) -> resolves v q qtype (referral cut)
  | res_nx_above k : (0 < k < length q)%nat -> reached v (take k q) ->
      zv_special v (take k q) = Some (Some NxDomain) -> resolves v q qtype na_nx_domain
  | res_node a : q <> [] -> reached v q -> at_node v q qtype a -> resolves v q qtype a
  | res_wildcard k a : (k < length q)%nat -> reached v (take (S k) q) -> zv_special v (take (S k) q) = None ->
      at_node v (take k q ++ [LABEL_WILDCARD]) qtype a -> resolves v q qtype a
  | res_nothing k : (k < length q)%nat -> reached v (take (S k) q) -> zv_special v (take (S k) q) = None ->
      zv_special v (take k q ++ [LABEL_WILDCARD]) = None -> resolves v q qtype na_nx_domain.

(** ** What is in a zone *)

Fixpoint node_at (n : ZoneNode) (p : list (list Z)) : option ZoneNode :=
  match p with
  | [] => Some n
  | l :: p => match nc_with (zn_children n) l with Some n => node_at n p | None => None end
  end.

Definition node_view (version : Version) (n : ZoneNode) : zview :=
  mkView (fun p => (fun n => zn_with_special n version) <$> node_at n p)
    (fun p t => n ← node_at n p; (fun d => vget d version) <$> hm_get Z.eqb t (zn_rrsets n)).

(** The apex as a node. *)
Definition apex_node (a : ZoneApex) : ZoneNode := mkZoneNode (za_rrsets a) vnew (za_children a).
Definition apex_view (version : Version) (a : ZoneApex) : zview := node_view version (apex_node a).

(** A view from one label further down. *)
Definition zv_below (l : list Z) (v : zview) : zview := mkView (fun p => zv_special v (l :: p)) (fun p => zv_entry v (l :: p)).

Lemma reached_cons v l q : q <> [] -> zv_passes v [l] = true -> reached (zv_below l v) q -> reached v (l :: q).
Proof.
  intros Hq Hl Hr k Hk. destruct k as [|[|k]]; [lia|done|]. cbn [take]. specialize (Hr (S k)). cbn in Hk. apply Hr. lia.
Qed.

Lemma reached_one v l : reached v [l].
Proof. intros k Hk. cbn in Hk. lia. Qed.
#[local] Hint Resolve reached_one : core.

Lemma at_types_below l v p qtype a : at_types (zv_below l v) p qtype a -> at_types v (l :: p) qtype a.
Proof. destruct 1; [by apply types_data|by apply types_none|by apply (types_any v _ qtype t)|by apply types_any_none]. Qed.

Lemma at_node_below l v p qtype a : at_node (zv_below l v) p qtype a -> at_node v (l :: p) qtype a.
Proof.
  destruct 1; [by apply node_cut|by apply (node_cut_ds v _ qtype cut)|by apply (node_cut_no_ds v _ qtype cut)|by apply node_cname|by apply node_nx|].
  apply node_types; [done|by apply at_types_below].
Qed.

(** Below a node that a query passes. *)
Lemma resolves_below v l q qtype a : q <> [] -> zv_passes v [l] = true -> resolves (zv_below l v) q qtype a -> resolves v (l :: q) qtype a.
Proof.
  intros Hq Hl Hr. assert (Hcons : forall k, (0 < k <= length q)%nat -> reached (zv_below l v) (take k q) -> reached v (take (S k) (l :: q))).
  { intros k Hk H. cbn [take]. apply reached_cons; [|done|done]. destruct q, k; done || (cbn in *; lia). }
  destruct Hr as [a0 H1|k cut H1 H2 H3|k H1 H2 H3|a0 H1 H2 H3|k a0 H1 H2 H3 H4|k H1 H2 H3 H4].
  - done.
  - eapply (res_referral _ _ _ (S k)); [cbn; lia|apply Hcons; [lia|done]|exact H3].
  - eapply (res_nx_above _ _ _ (S k)); [cbn; lia|apply Hcons; [lia|done]|exact H3].
  - apply res_node; [done|by apply reached_cons|by apply at_node_below].
  - eapply (res_wildcard _ _ _ (S k)); [cbn; lia|apply Hcons; [lia|done]|exact H3|]. cbn [take app]. by apply at_node_below.
  - eapply (res_nothing _ _ _ (S k)); [cbn; lia|apply Hcons; [lia|done]|exact H3|exact H4].
Qed.

(** ** Queries are answered as specified *)

(** No type is left without records where there were some. *)
Definition filled (v : zview) : Prop := forall p t, zv_entry v p t <> Some None.

(** A query for ANY looks at one type only, so that it is answered as specified only
    then. *)
Definition answerable (v : zview) (qtype : Z) : Prop := qtype <> RTYPE_ANY \/ filled v.

Lemma answerable_below l v qtype : answerable v qtype -> answerable (zv_below l v) qtype.
Proof. intros [Hq|Hf]; [by left|right]. intros p t. apply Hf. Qed.

Section Queries.
Context (order : NodeRrsets -> NodeRrsets) (order_perm : forall m, order m ≡ₚ m) (version : Version).

Lemma hm_get_elem (m : NodeRrsets) t d : hm_wf Z.eqb m -> (t, d) ∈ m -> hm_get Z.eqb t m = Some d.
Proof.
  induction m as [|[k e] m IH]; [by intros _ ?%elem_of_nil|]. intros [Hk Hm] [[= -> ->]|Hin]%elem_of_cons; cbn; [by rewrite Z.eqb_refl|].
  destruct (Z.eqb_spec k t) as [->|]; [|by apply IH]. rewrite (IH Hm Hin) in Hk. done.
Qed.

(** All maps of record sets below a node have one entry for a type. *)
Definition zn_wf (n : ZoneNode) : Prop := forall p m, node_at n p = Some m -> hm_wf Z.eqb (zn_rrsets m).

Lemma zn_wf_child n l m : zn_wf n -> nc_with (zn_children n) l = Some m -> zn_wf m.
Proof. intros Hn Hl p m' Hp. apply (Hn (l :: p)). cbn. by rewrite Hl. Qed.

Lemma query_rrsets_types n qtype : zn_wf n -> answerable (node_view version n) qtype -> at_types (node_view version n) [] qtype (query_rrsets order version (zn_rrsets n) qtype).
Proof using order_perm.
  intros Hn Hany. specialize (Hn [] n eq_refl). unfold query_rrsets. destruct (Z.eqb_spec qtype RTYPE_ANY) as [->|Hq].
  - pose proof (order_perm (zn_rrsets n)) as Hp. destruct (order (zn_rrsets n)) as [|[t d] m].
    + apply Permutation_nil_l in Hp. apply types_any_none; [done|]. intros t rrset. cbn. by rewrite <- Hp.
    + assert (Ht : hm_get Z.eqb t (zn_rrsets n) = Some d) by (apply hm_get_elem; [done|]; rewrite <- Hp; left).
      destruct (vget d version) as [rrset|] eqn:Ed.
      * apply (types_any _ _ _ t); [done|]. cbn. rewrite Ht. cbn. by rewrite Ed.
      * destruct Hany as [?|Hf]; [done|]. destruct (Hf [] t). cbn. rewrite Ht. cbn. by rewrite Ed.
  - unfold nrs_get. assert (He : zv_entry (node_view version n) [] qtype = (fun d => vget d version) <$> hm_get Z.eqb qtype (zn_rrsets n)) by done.
    destruct (hm_get Z.eqb qtype (zn_rrsets n)) as [d|]; [cbn [fmap option_fmap option_map] in He; destruct (vget d version) as [rrset|]|].
    + by apply types_data.
    + apply types_none; [done|]. intros r. by rewrite He.
    + apply types_none; [done|]. intros r. by rewrite He.
Qed.

Lemma query_here n qtype : zn_wf n -> answerable (node_view version n) qtype -> at_node (node_view version n) [] qtype (query_node_here_but_not_below order version n qtype).
Proof using order_perm.
  intros Hn Hany. unfold query_node_here_but_not_below.
  assert (He : zv_special (node_view version n) [] = Some (zn_with_special n version)) by done.
  destruct (zn_with_special n version) as [[cut|cname|]|].
  - unfold query_at_cut. destruct (Z.eqb_spec qtype RTYPE_DS); [|by apply node_cut].
    destruct (cut_ds cut) eqn:Ed; [by apply (node_cut_ds _ _ _ cut)|by apply (node_cut_no_ds _ _ _ cut)].
  - by apply node_cname.
  - by apply node_nx.
  - apply node_types; [done|]. by apply query_rrsets_types.
Qed.

Lemma node_view_below n l m : nc_with (zn_children n) l = Some m -> zv_below l (node_view version n) = node_view version m.
Proof. intros Hl. unfold zv_below, node_view. cbn. by rewrite Hl. Qed.

Lemma query_at_child n l m qtype : zn_wf n -> answerable (node_view version n) qtype -> nc_with (zn_children n) l = Some m ->
  at_node (node_view version n) [l] qtype (query_node_here_but_not_below order version m qtype).
Proof using order_perm.
  intros Hn Hany Hl. apply at_node_below. apply (answerable_below l) in Hany. rewrite (node_view_below n l m Hl) in *.
  apply query_here; [|done]. by eapply zn_wf_child.
Qed.

Lemma query_children_resolves n l q qtype :
  zn_wf n -> answerable (node_view version n) qtype ->
  resolves (node_view version n) (l :: q) qtype (query_children order version (zn_children n) l q qtype).
Proof using order_perm.
  revert n l; induction q as [|l' q IH]; intros n l Hn Hany; cbn [query_children]; destruct (nc_with (zn_children n) l) as [m|] eqn:El.
  - apply res_node; [done|done|]. by apply query_at_child.
  - assert (Hs : zv_special (node_view version n) [l] = None) by (cbn; by rewrite El).
    destruct (nc_with (zn_children n) LABEL_WILDCARD) as [w|] eqn:Ew.
    + apply (res_wildcard _ _ _ 0); [cbn; lia|apply reached_one|exact Hs|]. by apply query_at_child.
    + apply (res_nothing _ _ _ 0); [cbn; lia|apply reached_one|exact Hs|]. cbn. by rewrite Ew.
  - assert (Hs : zv_special (node_view version n) [l] = Some (zn_with_special m version)) by (cbn; by rewrite El).
    assert (Hgo : zv_passes (node_view version n) [l] = true -> resolves (node_view version n) (l :: l' :: q) qtype (query_children order version (zn_children m) l' q qtype)).
    { intros Hp. apply resolves_below; [done|done|]. apply (answerable_below l) in Hany. rewrite (node_view_below n l m El) in *.
      apply IH; [|done]. by eapply zn_wf_child. }
    unfold zv_passes in Hgo. rewrite Hs in Hgo. destruct (zn_with_special m version) as [[cut|cname|]|].
    + by apply (res_referral _ _ _ 1); [cbn; lia|apply reached_one|].
    + by apply Hgo.
    + by apply (res_nx_above _ _ _ 1); [cbn; lia|apply reached_one|].
    + by apply Hgo.
  - assert (Hs : zv_special (node_view version n) [l] = None) by (cbn; by rewrite El).
    destruct (nc_with (zn_children n) LABEL_WILDCARD) as [w|] eqn:Ew.
    + apply (res_wildcard _ _ _ 0); [cbn; lia|apply reached_one|exact Hs|]. by apply query_at_child.
    + apply (res_nothing _ _ _ 0); [cbn; lia|apply reached_one|exact Hs|]. cbn. by rewrite Ew.
Qed.
End Queries.

(** ** There is one answer *)

Section Unique.
Context (v : zview) (qtype : Z) (not_any : qtype <> RTYPE_ANY).

Lemma at_types_unique p a b : at_types v p qtype a -> at_types v p qtype b -> a = b.
Proof using not_any. destruct 1, 1; congruence. Qed.

Lemma at_node_unique p a b : at_node v p qtype a -> at_node v p qtype b -> a = b.
Proof using not_any. destruct 1, 1; try congruence. by eapply at_types_unique. Qed.

(** The answer if the query ends at the [k]th label. *)
Definition answer_at (q : list (list Z)) (k : nat) (a : NodeAnswer) : Prop :=
  match zv_special v (take k q) with
  | None => match zv_special v (take (pred k) q ++ [LABEL_WILDCARD]) with
            | None => a = na_nx_domain
            | Some _ => at_node v (take (pred k) q ++ [LABEL_WILDCARD]) qtype a
            end
  | Some s => if (k =? length q)%nat then at_node v q qtype a
              else match s with Some (Cut cut) => a = referral cut | Some NxDomain => a = na_nx_domain | _ => False end
  end.

Lemma answer_at_unique q k a b : answer_at q k a -> answer_at q k b -> a = b.
Proof using not_any.
  unfold answer_at. destruct (zv_special v (take k q)) as [s|]; [destruct (k =? length q)%nat|].
  - apply at_node_unique.
  - destruct s as [[]|]; congruence || done.
  - destruct (zv_special v _); [apply at_node_unique|congruence].
Qed.

Lemma at_node_special p a : at_node v p qtype a -> zv_special v p <> None.
Proof. destruct 1; congruence. Qed.

(** Where the query ends. *)
Definition stops_at (q : list (list Z)) (k : nat) : Prop :=
  (0 < k <= length q)%nat /\ reached v (take k q) /\ ((k < length q)%nat -> zv_passes v (take k q) = false).

Lemma stops_at_unique q j k : stops_at q j -> stops_at q k -> j = k.
Proof.
  enough (H : forall j k, stops_at q j -> stops_at q k -> (j < k)%nat -> False).
  { intros Hj Hk. destruct (Nat.lt_total j k) as [|[|]]; [exfalso; eauto|done|exfalso; eauto]. }
  intros j0 k0 (Hj & _ & Hj') (Hk & Hr & _) Hlt. specialize (Hr j0). rewrite length_take, take_take, (Nat.min_l j0 k0), Hj' in Hr by lia.
  apply diff_false_true, Hr. lia.
Qed.

Lemma resolves_stops q a : resolves v q qtype a -> q <> [] -> exists k, stops_at q k /\ answer_at q k a.
Proof.
  unfold stops_at, answer_at. intros [a0 H1|k cut H1 H2 H3|k H1 H2 H3|a0 H1 H2 H3|k a0 H1 H2 H3 H4|k H1 H2 H3 H4] Hq; [done|..].
  - exists k. rewrite H3. unfold zv_passes. rewrite H3. split_and!; [lia|lia|done|done|]. by destruct (Nat.eqb_spec k (length q)); [lia|].
  - exists k. rewrite H3. unfold zv_passes. rewrite H3. split_and!; [lia|lia|done|done|]. by destruct (Nat.eqb_spec k (length q)); [lia|].
  - exists (length q). rewrite take_ge by lia. split_and!; [destruct q; done || (simpl; lia)|done|done|lia|]. rewrite Nat.eqb_refl.
    pose proof (at_node_special _ _ H3). by destruct (zv_special v q).
  - exists (S k). rewrite H3. unfold zv_passes. rewrite H3. split_and!; [lia|lia|done|done|]. cbn [pred].
    pose proof (at_node_special _ _ H4). by destruct (zv_special v (take k q ++ _)).
  - exists (S k). rewrite H3. unfold zv_passes. rewrite H3. split_and!; [lia|lia|done|done|]. cbn [pred]. by rewrite H4.
Qed.

Lemma resolves_unique q a b : resolves v q qtype a -> resolves v q qtype b -> a = b.
Proof using not_any.
  intros Ha Hb. destruct (decide (q = [])) as [->|Hq].
  - destruct Ha as [a0 _ Ha| | |? []|k ? Hk|k Hk], Hb as [b0 _ Hb| | |? []|j ? Hj|j Hj]; try done; try (simpl in *; lia). by eapply at_types_unique.
  - destruct (resolves_stops q a Ha Hq) as (k & Hk & Hak), (resolves_stops q b Hb Hq) as (j & Hj & Hbj).
    rewrite (stops_at_unique q j k Hj Hk) in Hbj. by eapply answer_at_unique.
Qed.
End Unique.
