(* ===== verification/ZoneBuilder.v ===== *)
(** * Building in-memory zones ([src/src/zonetree/in_memory/builder.rs])

    [ZoneBuilder] puts record sets, zone cuts and aliases into a new zone.  What was
    inserted, in the order it was, is the whole of what queries are answered
    from. *)

From S2P Require Import Prelude Octets Serial Symbol Label Traits Name Header Compressor MessageBuilder Message Record Layout Rdata Txt ZoneData HashMap ZoneSet Versioned ZoneStore.
From stdpp Require Import list.
#[local] Open Scope Z_scope.

Inductive ZoneCutError := ZoneCut_OutOfZone | ZoneCutAtApex.
Inductive CnameError := Cname_OutOfZone | CnameAtApex.

(** [ToName::to_bytes]; the builder cannot fail. *)
Definition to_bytes {N I} `{ToLabelIter N I} (n : N) : outcome StoredName :=
  let! r := try_to_name (B:=list Z) n in
  match r with Ok s => Ret (mkName s) | Err _ => Panic end.

Definition zn_set_children (n : ZoneNode) (c : NodeChildren) : ZoneNode := mkZoneNode (zn_rrsets n) (zn_special n) c.

(** ** The builder *)

Definition ZoneBuilder : Type := ZoneApex.

Definition zb_new (apex_name : StoredName) (class : Z) : ZoneBuilder := za_new apex_name class.

(** The node for a name below a node, created if it is not there, with [f] done to
    it. *)
Fixpoint zn_at (f : ZoneNode -> ZoneNode) (n : ZoneNode) (name : list (list Z)) : ZoneNode :=
  match name with
  | [] => f n
  | label :: name => zn_set_children n (nc_with_or_default (zn_children n) label (fun n => zn_at f n name)).2
  end.

(** [get_node], with [f] done to the node; nothing for the apex. *)
Definition zb_get_node (zb : ZoneBuilder) (name : list (list Z)) (f : ZoneNode -> ZoneNode) : option ZoneBuilder :=
  match name with
  | [] => None
  | label :: name =>
      Some (mkZoneApex (za_apex_name zb) (za_class zb) (za_rrsets zb) (nc_with_or_default (za_children zb) label (fun n => zn_at f n name)).2)
  end.

Definition zb_insert_rrset {N I} `{ToLabelIter N I} (zb : ZoneBuilder) (name : N) (rrset : SharedRrset)
    : outcome (ZoneBuilder * result unit OutOfZone) :=
  let! p := za_prepare_name zb name in
  match p with
  | Err err => Ret (zb, Err err)
  | Ok p =>
      match zb_get_node zb p (fun node => zn_set_rrsets node (nrs_update (zn_rrsets node) rrset version_default)) with
      | Some zb => Ret (zb, Ok ())
      | None => Ret (mkZoneApex (za_apex_name zb) (za_class zb) (nrs_update (za_rrsets zb) rrset version_default) (za_children zb), Ok ())
      end
  end.

Definition zb_insert_zone_cut {N I} `{ToLabelIter N I} (zb : ZoneBuilder) (name : N) (ns : SharedRrset) (ds : option SharedRrset) (glue : list StoredRecord)
    : outcome (ZoneBuilder * result unit ZoneCutError) :=
  let! p := za_prepare_name zb name in
  match p with
  | Err OutOfZoneErr => Ret (zb, Err ZoneCut_OutOfZone)
  | Ok p =>
      let! bytes := to_bytes name in
      match zb_get_node zb p (fun node => zn_update_special node version_default (Some (Cut (mkZoneCut bytes ns ds glue)))) with
      | Some zb => Ret (zb, Ok ())
      | None => Ret (zb, Err ZoneCutAtApex)
      end
  end.

Definition zb_insert_cname {N I} `{ToLabelIter N I} (zb : ZoneBuilder) (name : N) (cname : SharedRr)
    : outcome (ZoneBuilder * result unit CnameError) :=
  let! p := za_prepare_name zb name in
  match p with
  | Err OutOfZoneErr => Ret (zb, Err Cname_OutOfZone)
  | Ok p =>
      match zb_get_node zb p (fun node => zn_update_special node version_default (Some (Cname cname))) with
      | Some zb => Ret (zb, Ok ())
      | None => Ret (zb, Err CnameAtApex)
      end
  end.

(** ** What is in the nodes *)

(** A node without its children. *)
Definition zn_content (n : ZoneNode) : NodeRrsets * Versioned (option Special) := (zn_rrsets n, zn_special n).
Definition content_at (n : ZoneNode) (p : list (list Z)) : option (NodeRrsets * Versioned (option Special)) := zn_content <$> node_at n p.

Definition content_special (version : Version) (c : NodeRrsets * Versioned (option Special)) : option Special :=
  match vget c.2 version with Some s => s | None => None end.

Lemma node_view_special version n p : zv_special (node_view version n) p = content_special version <$> content_at n p.
Proof. cbn. unfold content_at. rewrite <- option_fmap_compose. done. Qed.

Lemma node_view_entry version n p t :
  zv_entry (node_view version n) p t = c ← content_at n p; (fun d => vget d version) <$> hm_get Z.eqb t c.1.
Proof. cbn. unfold content_at. by destruct (node_at n p). Qed.

(** A change of a node that leaves its children alone. *)
Definition here_only (f : ZoneNode -> ZoneNode) : Prop := forall n c, f (zn_set_children n c) = zn_set_children (f n) c.

Lemma here_only_children f n : here_only f -> zn_children (f n) = zn_children n.
Proof. intros Hf. specialize (Hf n (zn_children n)). destruct n as [r s c]. change (zn_set_children _ _) with (mkZoneNode r s c) in Hf at 1. by rewrite Hf. Qed.

Lemma node_at_default p : node_at zn_default p = match p with [] => Some zn_default | _ => None end.
Proof. by destruct p. Qed.

(** The contents after a change at a path: nodes on the way are there now. *)
Lemma content_at_alter f n p q : here_only f ->
  content_at (zn_at f n p) q =
  if bool_decide (canon p = canon q) then Some (zn_content (f (default zn_default (node_at n q))))
  else if bool_decide (canon q `prefix_of` canon p) then Some (zn_content (default zn_default (node_at n q)))
  else content_at n q.
Proof.
  intros Hf. unfold content_at. revert n q; induction p as [|l p IH]; intros n q; cbn [zn_at].
  - destruct q as [|m q]; [done|]. rewrite !bool_decide_eq_false_2; [|intros H%prefix_nil_inv; done|done].
    cbn [node_at]. by rewrite here_only_children.
  - destruct q as [|m q].
    + rewrite bool_decide_eq_false_2 by done. rewrite bool_decide_eq_true_2 by apply prefix_nil. done.
    + cbn [node_at zn_children zn_set_children nc_with_or_default snd]. unfold nc_with in *. rewrite (hm_get_alter label_eq).
      destruct (label_eq l m) eqn:E.
      * rewrite (hm_get_same label_eq l m _ E), IH. apply label_eq_spec in E. set (o := hm_get label_eq m (zn_children n)).
        rewrite (bool_decide_ext (canon (l :: p) = canon (m :: q)) (canon p = canon q)) by (cbn; rewrite E; split; congruence).
        rewrite (bool_decide_ext (canon (m :: q) `prefix_of` canon (l :: p)) (canon q `prefix_of` canon p)).
        2: { cbn [map]. rewrite E. split; [by intros ?%prefix_cons_inv_2|by apply prefix_cons]. }
        destruct o as [c|]; [done|]. rewrite node_at_default. destruct q as [|m' q]; cbn [default]; [|done].
        rewrite (bool_decide_eq_true_2 (canon [] `prefix_of` canon p)) by apply prefix_nil. by case_bool_decide.
      * assert (Hne : label_make_canonical l <> label_make_canonical m) by (intros H; apply label_eq_spec in H; congruence).
        rewrite !bool_decide_eq_false_2; [done| |].
        -- cbn [map]. intros H%prefix_cons_inv_1. by apply Hne.
        -- cbn [map]. intros [= H _]. by apply Hne.
Qed.

Lemma set_rrsets_here g : here_only (fun n => zn_set_rrsets n (g (zn_rrsets n))).
Proof. by intros [] c. Qed.

Lemma update_special_here v s : here_only (fun n => zn_update_special n v s).
Proof. by intros [] c. Qed.

Lemma apex_get_node zb p f zb' : zb_get_node zb p f = Some zb' -> apex_node zb' = zn_at f (apex_node zb) p /\ za_apex_name zb' = za_apex_name zb.
Proof. destruct p; [done|]. by intros [= <-]. Qed.

(** ** The abstract zone *)

Inductive zone_item := ItemRrset (rrset : SharedRrset) | ItemSpecial (special : Special).

Definition zv_empty : zview := mkView (fun p => match p with [] => Some None | _ => None end) (fun _ _ => None).

(** What inserting something at a path does: the path and those above it exist, and
    at the path itself the record set of the type, or the special function, is the
    new one. *)
Definition zv_insert (v : zview) (pi : list (list Z) * zone_item) : zview :=
  mkView
    (fun q =>
       if bool_decide (canon q `prefix_of` canon pi.1) then
         Some (match pi.2 with
               | ItemSpecial s => if bool_decide (canon pi.1 = canon q) then Some s else default None (zv_special v q)
               | ItemRrset _ => default None (zv_special v q)
               end)
       else zv_special v q)
    (fun q t =>
       match pi.2 with
       | ItemRrset rrset =>
           if bool_decide (canon pi.1 = canon q /\ rrset_rtype rrset = t) then Some (if rrset_is_empty rrset then None else Some rrset)
           else zv_entry v q t
       | ItemSpecial _ => zv_entry v q t
       end).

(** Views with the same contents. *)
Definition view_eq (v w : zview) : Prop := (forall p, zv_special v p = zv_special w p) /\ (forall p t, zv_entry v p t = zv_entry w p t).

#[export] Instance view_eq_equivalence : Equivalence view_eq.
Proof.
  split; [by intros v|intros v w [H1 H2]; split; by intros|intros u v w [H1 H2] [H3 H4]; split; intros; [by rewrite H1|by rewrite H2]].
Qed.

#[export] Instance zv_insert_proper : Proper (view_eq ==> eq ==> view_eq) zv_insert.
Proof. intros v w [H1 H2] pi ? <-. split; intros; cbn; [by rewrite H1|]. by destruct pi.2; rewrite H2. Qed.

#[export] Instance at_types_proper : Proper (view_eq ==> eq ==> eq ==> eq ==> impl) at_types.
Proof.
  intros v w [_ He] p ? <- qtype ? <- a ? <- Ha. destruct Ha as [r Hq Hr|Hq Hr|t r Hq Hr|Hq Hr].
  - apply types_data; [done|by rewrite <- He].
  - apply types_none; [done|]. intros r. by rewrite <- He.
  - apply (types_any w p qtype t); [done|by rewrite <- He].
  - apply types_any_none; [done|]. intros t r. rewrite <- He. apply Hr.
Qed.

#[export] Instance at_node_proper : Proper (view_eq ==> eq ==> eq ==> eq ==> impl) at_node.
Proof.
  intros v w Hv p ? <- qtype ? <- a ? <- Ha. pose proof (proj1 Hv p) as Hs.
  destruct Ha; rewrite Hs in *; [by apply node_cut|by apply (node_cut_ds w p qtype cut)|by apply (node_cut_no_ds w p qtype cut)|by apply node_cname|by apply node_nx|].
  apply node_types; [done|by rewrite <- Hv].
Qed.

Lemma reached_proper v w q : view_eq v w -> reached v q -> reached w q.
Proof. intros [Hs _] Hr k Hk. unfold zv_passes. rewrite <- Hs. by apply Hr. Qed.

#[export] Instance resolves_proper : Proper (view_eq ==> eq ==> eq ==> eq ==> impl) resolves.
Proof.
  intros v w Hv q ? <- qtype ? <- a ? <- Ha. pose proof (proj1 Hv) as Hs. pose proof (fun q => reached_proper v w q Hv) as Hr.
  destruct Ha as [a0 H1 H2|k cut H1 H2 H3|k H1 H2 H3|a0 H1 H2 H3|k a0 H1 H2 H3 H4|k H1 H2 H3 H4]; rewrite ?Hs in *.
  - apply res_apex; [done|by rewrite <- Hv].
  - by apply (res_referral w q qtype k); auto.
  - by apply (res_nx_above w q qtype k); auto.
  - apply res_node; [done|by auto|by rewrite <- Hv].
  - apply (res_wildcard w q qtype k); [done|by auto|done|by rewrite <- Hv].
  - by apply (res_nothing w q qtype k); auto.
Qed.

(** ** The builder keeps the abstract zone *)

(** Nothing is newer than the version. *)
Definition upto {T} (v : Version) (d : Versioned T) : Prop := forall v' o, last d = Some (v', o) -> version_le v' v = true.

Lemma version_le_refl v : version_le v v = true.
Proof. unfold version_le, serial_partial_cmp. by rewrite Z.compare_refl. Qed.

Lemma vget_update {T} (d : Versioned T) v x : vget (vupdate d v x) v = Some x.
Proof.
  unfold vupdate. destruct (last d) as [[v' o]|]; [case_bool_decide as E; [subst|]|]; by rewrite vget_snoc, version_le_refl.
Qed.

Lemma vget_remove {T} (d : Versioned T) v : upto v d -> vget (vremove d v) v = None.
Proof.
  intros Hu. unfold vremove. destruct (last d) as [[v' [x|]]|] eqn:El.
  - case_bool_decide as E; [subst|by rewrite vget_snoc, version_le_refl]. destruct (Nat.eqb_spec (length d) 1) as [Hl|_].
    + unfold but_last. by rewrite Hl.
    + by rewrite vget_snoc, version_le_refl.
  - pose proof (Hu _ _ El) as Hv. apply last_Some in El as (d0 & ->). by rewrite vget_snoc, Hv.
  - by apply last_None in El as ->.
Qed.

Lemma upto_update {T} (d : Versioned T) v x : upto v (vupdate d v x).
Proof.
  unfold upto, vupdate. destruct (last d) as [[v0 o0]|]; [case_bool_decide; subst|]; intros v' o; rewrite last_snoc; intros [= <- <-]; apply version_le_refl.
Qed.

Lemma upto_remove {T} (d : Versioned T) v : upto v d -> upto v (vremove d v).
Proof.
  intros Hu. unfold vremove. destruct (last d) as [[v0 [x|]]|] eqn:El; [|done|done].
  case_bool_decide; [subst; destruct (Nat.eqb_spec (length d) 1) as [Hl|_]|]; intros v' o.
  - unfold but_last. rewrite Hl. done.
  - rewrite last_snoc. intros [= <- <-]. apply version_le_refl.
  - rewrite last_snoc. intros [= <- <-]. apply version_le_refl.
Qed.

Lemma upto_nil {T} v : upto (T:=T) v [].
Proof. by intros v' o. Qed.

(** The record sets of a node: one entry for a type, none newer than the version. *)
Definition rrsets_upto (v : Version) (m : NodeRrsets) : Prop := hm_wf Z.eqb m /\ forall t d, hm_get Z.eqb t m = Some d -> upto v d.

Lemma nrs_update_get m rrset v t : rrsets_upto v m ->
  (fun d => vget d v) <$> hm_get Z.eqb t (nrs_update m rrset v) =
  if rrset_rtype rrset =? t then Some (if rrset_is_empty rrset then None else Some rrset) else (fun d => vget d v) <$> hm_get Z.eqb t m.
Proof.
  intros [_ Hu]. unfold nrs_update, nrs_remove_rtype. destruct (rrset_is_empty rrset); rewrite (hm_get_alter Z.eqb);
    (destruct (Z.eqb_spec (rrset_rtype rrset) t) as [<-|]; [|done]); cbn.
  - rewrite vget_remove; [done|]. destruct (hm_get Z.eqb _ m) eqn:E; [by eapply Hu|apply upto_nil].
  - by rewrite vget_update.
Qed.

Lemma nrs_update_upto m rrset v : rrsets_upto v m -> rrsets_upto v (nrs_update m rrset v).
Proof.
  intros [Hw Hu]. unfold nrs_update, nrs_remove_rtype. destruct (rrset_is_empty rrset); (split; [by apply hm_alter_wf; [apply _|]|]); intros t d;
    rewrite (hm_get_alter Z.eqb); (destruct (rrset_rtype rrset =? t); [|by apply Hu]); intros [= <-].
  - apply upto_remove. destruct (hm_get Z.eqb _ m) eqn:E; [by eapply Hu|apply upto_nil].
  - apply upto_update.
Qed.

Definition zn_upto (v : Version) (n : ZoneNode) : Prop := forall p c, content_at n p = Some c -> rrsets_upto v c.1.

Lemma default_upto v n p : zn_upto v n -> rrsets_upto v (zn_rrsets (default zn_default (node_at n p))).
Proof.
  intros Hn. specialize (Hn p). unfold content_at in Hn. destruct (node_at n p) as [m|]; [exact (Hn _ eq_refl)|]. split; [done|]. by intros t d.
Qed.

Definition put_rrset (v : Version) (rrset : SharedRrset) (n : ZoneNode) : ZoneNode := zn_set_rrsets n (nrs_update (zn_rrsets n) rrset v).
Definition put_special (v : Version) (s : option Special) (n : ZoneNode) : ZoneNode := zn_update_special n v s.

Lemma put_rrset_here v rrset : here_only (put_rrset v rrset).
Proof. by intros [] c. Qed.

Lemma put_special_here v s : here_only (put_special v s).
Proof. by intros [] c. Qed.

Lemma default_special v n p : content_special v (zn_content (default zn_default (node_at n p))) = default None (zv_special (node_view v n) p).
Proof. rewrite node_view_special. unfold content_at. by destruct (node_at n p). Qed.

Lemma default_entry v n p t :
  (fun d => vget d v) <$> hm_get Z.eqb t (zn_rrsets (default zn_default (node_at n p))) = zv_entry (node_view v n) p t.
Proof. rewrite node_view_entry. unfold content_at. by destruct (node_at n p). Qed.

Lemma canon_prefix p q : canon p = canon q -> canon q `prefix_of` canon p.
Proof. by intros ->. Qed.

Lemma put_rrset_view v rrset n p : zn_upto v n ->
  view_eq (node_view v (zn_at (put_rrset v rrset) n p)) (zv_insert (node_view v n) (p, ItemRrset rrset)) /\ zn_upto v (zn_at (put_rrset v rrset) n p).
Proof.
  intros Hn. split; [split|].
  - intros q. rewrite node_view_special, content_at_alter by apply put_rrset_here. cbn [zv_insert zv_special fst snd].
    case_bool_decide as E; [rewrite bool_decide_eq_true_2 by (by apply canon_prefix)|case_bool_decide]; cbn [fmap option_fmap option_map].
    + f_equal. change (content_special v (zn_content (put_rrset v rrset ?m))) with (content_special v (zn_content m)). apply default_special.
    + f_equal. apply default_special.
    + by rewrite node_view_special.
  - intros q t. rewrite node_view_entry, content_at_alter by apply put_rrset_here. cbn [zv_insert zv_entry fst snd].
    case_bool_decide as E; [|rewrite (bool_decide_eq_false_2 (_ /\ _)) by (intros [? ?]; done); case_bool_decide].
    + cbn. rewrite nrs_update_get by (by apply default_upto). rewrite default_entry.
      destruct (Z.eqb_spec (rrset_rtype rrset) t); [by rewrite bool_decide_eq_true_2|by rewrite bool_decide_eq_false_2 by (intros [? ?]; done)].
    + apply default_entry.
    + by rewrite <- node_view_entry.
  - intros q c. rewrite content_at_alter by apply put_rrset_here. case_bool_decide; [|case_bool_decide; [|apply Hn]]; intros [= <-]; cbn.
    + by apply nrs_update_upto, default_upto.
    + by apply default_upto.
Qed.

Lemma put_special_view v s n p : zn_upto v n ->
  view_eq (node_view v (zn_at (put_special v (Some s)) n p)) (zv_insert (node_view v n) (p, ItemSpecial s)) /\ zn_upto v (zn_at (put_special v (Some s)) n p).
Proof.
  intros Hn. split; [split|].
  - intros q. rewrite node_view_special, content_at_alter by apply put_special_here. cbn [zv_insert zv_special fst snd].
    case_bool_decide as E; [rewrite bool_decide_eq_true_2 by (by apply canon_prefix)|case_bool_decide]; cbn [fmap option_fmap option_map].
    + unfold content_special. cbn. by rewrite vget_update.
    + f_equal. apply default_special.
    + by rewrite node_view_special.
  - intros q t. rewrite node_view_entry, content_at_alter by apply put_special_here. cbn [zv_insert zv_entry fst snd].
    case_bool_decide as E; [|case_bool_decide]; [apply default_entry..|]. by rewrite <- node_view_entry.
  - intros q c. rewrite content_at_alter by apply put_special_here. case_bool_decide; [|case_bool_decide; [|apply Hn]]; intros [= <-]; cbn; by apply default_upto.
Qed.

(** ** Runs of the builder *)

(** The insertions, and the errors they can fail with. *)
Inductive zb_op :=
  | InsertRrset (name : Name) (rrset : SharedRrset)
  | InsertCut (name : Name) (ns : SharedRrset) (ds : option SharedRrset) (glue : list StoredRecord)
  | InsertCname (name : Name) (cname : SharedRr).

Inductive zb_error := RrsetError (err : OutOfZone) | CutError (err : ZoneCutError) | AliasError (err : CnameError).

Definition map_error {T E F} (f : E -> F) (r : result T E) : result T F := match r with Ok x => Ok x | Err e => Err (f e) end.

Definition zb_apply (zb : ZoneBuilder) (op : zb_op) : outcome (ZoneBuilder * result unit zb_error) :=
  match op with
  | InsertRrset name rrset => let! (zb, r) := zb_insert_rrset zb name rrset in Ret (zb, map_error RrsetError r)
  | InsertCut name ns ds glue => let! (zb, r) := zb_insert_zone_cut zb name ns ds glue in Ret (zb, map_error CutError r)
  | InsertCname name cname => let! (zb, r) := zb_insert_cname zb name cname in Ret (zb, map_error AliasError r)
  end.

Fixpoint zb_run (zb : ZoneBuilder) (ops : list zb_op) : outcome (ZoneBuilder * list (result unit zb_error)) :=
  match ops with
  | [] => Ret (zb, [])
  | op :: ops => let! (zb, r) := zb_apply zb op in let! (zb, rs) := zb_run zb ops in Ret (zb, r :: rs)
  end.

Definition zb_op_name (op : zb_op) : Name := match op with InsertRrset n _ | InsertCut n _ _ _ | InsertCname n _ => n end.

(** The path below the apex of a name with the given labels, from the top. *)
Definition path_below (apex ls : list (list Z)) : option (list (list Z)) :=
  if bool_decide (canon (rev apex) `prefix_of` canon (rev ls)) then Some (drop (length apex) (rev ls)) else None.

Lemma rel_rev_loop_spec base q :
  rel_rev_loop base q = if bool_decide (canon base `prefix_of` canon q) then Ok (drop (length base) q) else Err OutOfZoneErr.
Proof.
  revert q; induction base as [|b base IH]; intros q; cbn [rel_rev_loop].
  - by rewrite bool_decide_eq_true_2 by apply prefix_nil.
  - destruct q as [|l q]; [rewrite bool_decide_eq_false_2; [done|]; by intros ?%prefix_nil_inv|]. destruct (label_eq b l) eqn:E.
    + apply label_eq_spec in E. rewrite IH. cbn [map length drop]. apply eq_trans with (if bool_decide (canon base `prefix_of` canon q) then Ok (drop (length base) q) else Err OutOfZoneErr); [done|].
      rewrite (bool_decide_ext (label_make_canonical b :: canon base `prefix_of` label_make_canonical l :: canon q) (canon base `prefix_of` canon q)); [done|].
      rewrite E. split; [by intros ?%prefix_cons_inv_2|by apply prefix_cons].
    + rewrite bool_decide_eq_false_2; [done|]. cbn [map]. intros H%prefix_cons_inv_1. assert (label_eq b l = true) by (by apply label_eq_spec). congruence.
Qed.

Lemma prepare_name_spec a n als ls : wf_abs (za_apex_name a) als -> wf_abs n ls ->
  za_prepare_name a n = Ret (match path_below als ls with Some p => Ok p | None => Err OutOfZoneErr end).
Proof.
  intros Ha Hn. unfold za_prepare_name, rel_name_rev_iter.
  rewrite (rev_labels_spec n ls (wf_abs_denotes _ _ Hn) (wf_abs_fuel _ _ Hn)), (rev_labels_spec (N:=StoredName) (za_apex_name a) als (wf_abs_denotes _ _ Ha) (wf_abs_fuel _ _ Ha)).
  rewrite rel_rev_loop_spec, length_rev. unfold path_below. by case_bool_decide.
Qed.

(** What an insertion puts into the abstract zone, or why it fails. *)
Definition zb_item (als : list (list Z)) (op : zb_op) (ls : list (list Z)) : result (list (list Z) * zone_item) zb_error :=
  match op, path_below als ls with
  | InsertRrset _ rrset, Some p => Ok (p, ItemRrset rrset)
  | InsertRrset _ _, None => Err (RrsetError OutOfZoneErr)
  | InsertCut _ _ _ _, None => Err (CutError ZoneCut_OutOfZone)
  | InsertCut _ _ _ _, Some [] => Err (CutError ZoneCutAtApex)
  | InsertCut name ns ds glue, Some p => Ok (p, ItemSpecial (Cut (mkZoneCut name ns ds glue)))
  | InsertCname _ _, None => Err (AliasError Cname_OutOfZone)
  | InsertCname _ _, Some [] => Err (AliasError CnameAtApex)
  | InsertCname _ cname, Some p => Ok (p, ItemSpecial (Cname cname))
  end.

Definition succeeded {T E} (r : result T E) : result unit E := match r with Ok _ => Ok () | Err e => Err e end.
Definition view_after {E} (v : zview) (r : result (list (list Z) * zone_item) E) : zview := match r with Ok i => zv_insert v i | Err _ => v end.

#[export] Instance view_after_proper E : Proper (view_eq ==> eq ==> view_eq) (view_after (E:=E)).
Proof. intros v w Hv r ? <-. destruct r; cbn; [by apply zv_insert_proper|done]. Qed.

Lemma to_bytes_name n ls : wf_abs n ls -> to_bytes n = Ret n.
Proof.
  intros Hn. unfold to_bytes. rewrite (proj1 (to_name_correct (B:=list Z) n ls (wf_abs_denotes _ _ Hn) (wf_abs_fuel _ _ Hn) (abs_labels_good _ (proj1 Hn)))).
  destruct Hn as (_ & Hw & _). by destruct n; cbn in *; subst.
Qed.

Lemma zb_apply_spec zb op als ls : wf_abs (za_apex_name zb) als -> wf_abs (zb_op_name op) ls -> zn_upto version_default (apex_node zb) ->
  exists zb', zb_apply zb op = Ret (zb', succeeded (zb_item als op ls)) /\ za_apex_name zb' = za_apex_name zb /\ zn_upto version_default (apex_node zb') /\
    view_eq (apex_view version_default zb') (view_after (apex_view version_default zb) (zb_item als op ls)).
Proof.
  intros Ha Hn Hu. assert (Hkeep : view_eq (apex_view version_default zb) (apex_view version_default zb)) by done.
  destruct op as [name rrset|name ns ds glue|name cname]; cbn [zb_apply zb_item zb_op_name] in *;
    unfold zb_insert_rrset, zb_insert_zone_cut, zb_insert_cname; rewrite (prepare_name_spec zb _ als ls Ha Hn);
    (destruct (path_below als ls) as [p|]; [|by exists zb]).
  - destruct (put_rrset_view version_default rrset (apex_node zb) p Hu) as [Hv Hu']. destruct p as [|l p].
    + eexists; split; [done|]. split; [done|]. split; [exact Hu'|exact Hv].
    + eexists; split; [done|]. split; [done|]. split; [exact Hu'|exact Hv].
  - rewrite (to_bytes_name name ls Hn). destruct p as [|l p]; [by exists zb|]. set (s := Cut _).
    destruct (put_special_view version_default s (apex_node zb) (l :: p) Hu) as [Hv Hu'].
    eexists; split; [done|]. split; [done|]. split; [exact Hu'|exact Hv].
  - destruct p as [|l p]; [by exists zb|]. destruct (put_special_view version_default (Cname cname) (apex_node zb) (l :: p) Hu) as [Hv Hu'].
    eexists; split; [done|]. split; [done|]. split; [exact Hu'|exact Hv].
Qed.

Lemma zb_run_spec ops lss zb als v : wf_abs (za_apex_name zb) als -> Forall2 (fun op ls => wf_abs (zb_op_name op) ls) ops lss ->
  zn_upto version_default (apex_node zb) -> view_eq (apex_view version_default zb) v ->
  let items := zip_with (zb_item als) ops lss in
  exists zb', zb_run zb ops = Ret (zb', map succeeded items) /\ za_apex_name zb' = za_apex_name zb /\ zn_upto version_default (apex_node zb') /\
    view_eq (apex_view version_default zb') (fold_left view_after items v).
Proof.
  intros Ha Hops. revert zb v Ha. induction Hops as [|op ls ops lss Hop Hops IH]; intros zb v Ha Hu Hv; [by exists zb|].
  cbn [zip_with map fold_left zb_run]. destruct (zb_apply_spec zb op als ls Ha Hop Hu) as (zb1 & -> & Hn1 & Hu1 & Hv1).
  destruct (IH zb1 (view_after v (zb_item als op ls))) as (zb2 & -> & Hn2 & Hu2 & Hv2); [by rewrite Hn1|done|by rewrite Hv1, Hv|].
  exists zb2. split; [done|]. split; [congruence|done].
Qed.

(** The answer with the SOA record of the zone. *)
Definition view_answer (apex_name : Name) (v : zview) (a : NodeAnswer) : ZAnswer :=
  answer_set_authoritative
    (if na_add_soa a then
       match zv_entry v [] RTYPE_SOA with
       | Some (Some (mkRrset _ ttl (d :: _))) => answer_set_authority (na_answer a) (mkAuthority apex_name (Some (mkSharedRr ttl d)) None None)
       | _ => na_answer a
       end
     else na_answer a) (na_authoritative a).

Lemma into_answer_view version a apex v : view_eq (apex_view version apex) v ->
  na_into_answer version a apex = view_answer (za_apex_name apex) v a.
Proof.
  intros [_ He]. unfold na_into_answer, view_answer. destruct (na_add_soa a); [|done]. unfold za_get_soa, nrs_get, rrset_first.
  rewrite <- He. cbn. destruct (hm_get Z.eqb RTYPE_SOA (za_rrsets apex)) as [d|]; [|done]. cbn. destruct (vget d version) as [[t ttl [|x data]]|]; done.
Qed.

(** A query to a zone, for any zone whose maps have one entry for each key. *)
Lemma zone_query_spec order version a qname qtype als qls :
  (forall m, order m ≡ₚ m) -> wf_abs (za_apex_name a) als -> wf_abs qname qls -> zn_wf (apex_node a) ->
  answerable (apex_view version a) qtype ->
  exists r, zone_query order version a qname qtype = Ret r /\
  match path_below als qls with
  | None => r = Err OutOfZoneErr
  | Some q => exists na, r = Ok (na_into_answer version na a) /\ resolves (apex_view version a) q qtype na
  end.
Proof.
  intros Ho Ha Hq Hw Hany. unfold zone_query. rewrite (prepare_name_spec a qname als qls Ha Hq).
  destruct (path_below als qls) as [[|l q]|]; (eexists; split; [done|]); [| |done]; (eexists; split; [done|]).
  - apply res_apex; [done|]. by apply (query_rrsets_types order Ho version (apex_node a)).
  - by apply (query_children_resolves order Ho version (apex_node a)).
Qed.

Lemma zn_upto_wf v n : zn_upto v n -> zn_wf n.
Proof. intros Hn p m Hp. apply (Hn p (zn_content m)). unfold content_at. by rewrite Hp. Qed.

Lemma zv_insert_filled v pi :
  filled v -> match pi.2 with ItemRrset rrset => rrset_is_empty rrset = false | ItemSpecial _ => True end -> filled (zv_insert v pi).
Proof.
  intros Hf Hi p t. cbn. destruct pi as [q [rrset|s]]; cbn in *; [|apply Hf]. rewrite Hi. case_bool_decide; [done|apply Hf].
Qed.

Definition nonempty_op (op : zb_op) : Prop := match op with InsertRrset _ rrset => rrset_is_empty rrset = false | _ => True end.

Lemma items_filled als ops lss v : Forall nonempty_op ops -> filled v -> filled (fold_left view_after (zip_with (zb_item als) ops lss) v).
Proof.
  intros Hops. revert lss v. induction Hops as [|op ops Hop _ IH]; intros [|ls lss] v Hf; try done. cbn. apply IH.
  destruct op; cbn in *; destruct (path_below als ls) as [[|l p]|]; cbn; try done; by apply zv_insert_filled.
Qed.

(** The answers of a zone that was built from any sequence of insertions are those of
    the abstract zone the insertions give; an insertion fails exactly if the name is
    not in the zone, or is the apex and the insertion is that of a zone cut or an
    alias, and then changes nothing; a query fails exactly if the name is not in the
    zone.  Except for ANY there is one answer.  For ANY it is one of the record sets
    there are, and NODATA if there are none; this is claimed for zones into which no
    empty record sets are inserted, since the entry that these leave can hide the
    others from the query ([any_misses_types]).  (C15) *)
Theorem zone_builder_correct order apex_name class als ops lss :
  (forall m, order m ≡ₚ m) -> wf_abs apex_name als -> Forall2 (fun op ls => wf_abs (zb_op_name op) ls) ops lss ->
  let items := zip_with (zb_item als) ops lss in
  let v := fold_left view_after items zv_empty in
  exists zb, zb_run (zb_new apex_name class) ops = Ret (zb, map succeeded items) /\
  forall qname qls qtype, wf_abs qname qls -> qtype <> RTYPE_ANY \/ Forall nonempty_op ops ->
    exists r, zone_query order version_default zb qname qtype = Ret r /\
    match path_below als qls with
    | None => r = Err OutOfZoneErr
    | Some q => exists a, r = Ok (view_answer apex_name v a) /\ resolves v q qtype a /\ (qtype <> RTYPE_ANY -> forall b, resolves v q qtype b -> b = a)
    end.
Proof.
  intros Ho Ha Hops items v. destruct (zb_run_spec ops lss (zb_new apex_name class) als zv_empty Ha Hops) as (zb & Hrun & Hname & Hu & Hv).
  { intros p c. unfold content_at. cbn. destruct p; [|done]. intros [= <-]. split; [done|]. by intros t d. }
  { split; [by intros []|by intros [] t]. }
  exists zb. split; [exact Hrun|]. intros qname qls qtype Hq Hne. cbn [zb_new za_new za_apex_name] in Hname.
  assert (Hany : answerable (apex_view version_default zb) qtype).
  { destruct Hne as [?|Hne]; [by left|right]. intros p t. rewrite (proj2 Hv). by apply items_filled. }
  destruct (zone_query_spec order version_default zb qname qtype als qls Ho) as (r & Hr & Hm); [by rewrite Hname|done|by eapply zn_upto_wf|done|].
  exists r. split; [done|]. destruct (path_below als qls) as [q|]; [|done]. destruct Hm as (a & -> & Hres). exists a.
  rewrite (into_answer_view _ _ _ _ Hv), Hname. rewrite Hv in Hres. split_and!; [done|done|]. intros Hna b Hb. by apply (resolves_unique v qtype Hna q).
Qed.

(** ** Examples *)

(** The zone [a.] with address records at [b.a.]. *)
Definition ex_rrset : SharedRrset := mkRrset RTYPE_A 300 [ZoneA (mkA [192; 0; 2; 1])].
Definition ex_txt_rrset : SharedRrset := mkRrset RTYPE_TXT 300 [ZoneUnknown (mkUnknown RTYPE_TXT [0])].

Definition ex_order (m : NodeRrsets) : NodeRrsets := m.

Lemma zone_builder_correct_witness :
  exists zb, zb_run (zb_new ex_a 1) [InsertRrset ex_ba ex_rrset] = Ret (zb, [Ok ()]) /\
    zone_query ex_order version_default zb ex_ba RTYPE_A = Ret (Ok (answer_set_authoritative (na_answer (na_data ex_rrset)) true)).
Proof.
  destruct (zone_builder_correct ex_order ex_a 1 [[97]; []] [InsertRrset ex_ba ex_rrset] [[[98]; [97]; []]]) as (zb & Hrun & Hq).
  - done.
  - apply ex_a_wf.
  - constructor; [apply ex_ba_wf|constructor].
  - exists zb. split; [exact Hrun|]. destruct (Hq ex_ba _ RTYPE_A ex_ba_wf) as (r & -> & a & -> & _ & Hb); [left; by_decide|].
    rewrite <- (Hb ltac:(by_decide) (na_data ex_rrset)); [reflexivity|]. apply res_node; [done|intros k Hk; cbn in Hk; lia|].
    apply node_types; [reflexivity|]. apply types_data; [by_decide|reflexivity].
Defined.

(** An entry that is left for a type without records can hide the other types from a
    query for ANY. *)
Lemma any_misses_types :
  let ops := [InsertRrset ex_ba ex_rrset; InsertRrset ex_ba (rrset_new RTYPE_A 300); InsertRrset ex_ba ex_txt_rrset] in
  match zb_run (zb_new ex_a 1) ops with
  | Ret (zb, _) =>
      zone_query ex_order version_default zb ex_ba RTYPE_TXT = Ret (Ok (answer_set_authoritative (na_answer (na_data ex_txt_rrset)) true)) /\
      zone_query ex_order version_default zb ex_ba RTYPE_ANY = Ret (Ok (answer_set_authoritative (answer_new RCODE_NOERROR) true))
  | Panic => False
  end.
Proof. by vm_compute. Qed.
