(* ===== verification/ParsedZone.v ===== *)
(** * Zones from parsed zone files ([src/src/zonetree/parsed.rs])

    The records of a zone file are sorted into those of names with regular record
    sets, of zone cuts, aliases and records that are out of zone; what does not go
    together is refused.  The builder of a zone is filled from them. *)

From S2P Require Import Prelude Octets Serial Symbol Label Traits Name NameBuilder Chain ParsedName Header Compressor MessageBuilder Message Record Scanner Iana Ttl Layout Rdata Bitmap Txt Dnssec Nsec3 ZoneData Flatten SourceBuf Inplace HashMap ZoneSet Versioned ZoneStore ZoneBuilder.
From stdpp Require Import list sorting.
#[local] Open Scope Z_scope.

(** ** Errors ([error.rs]) *)

Inductive ContextError := MissingNs | InvalidZonecut (err : ZoneCutError) | InvalidCname (err : CnameError) | ContextOutOfZone (rtype : Z).

Inductive RecordError :=
  | ClassMismatch (record : StoredRecord) (class : Z)
  | IllegalZoneCut (record : StoredRecord) (rtype : Z)
  | IllegalRecord (record : StoredRecord) (rtype : Z)
  | IllegalCname (record : StoredRecord) (rtype : Z)
  | MultipleCnames (record : StoredRecord)
  | MalformedRecord (err : ZoneFileError)
  | InvalidRecord (err : ContextError)
  | MissingSoa (record : StoredRecord).

Definition record_error_owner (e : RecordError) : option StoredName :=
  match e with
  | ClassMismatch rec _ | IllegalZoneCut rec _ | IllegalRecord rec _ | IllegalCname rec _ | MultipleCnames rec | MissingSoa rec => Some (rr_owner rec)
  | MalformedRecord _ | InvalidRecord _ => None
  end.

Definition ZoneErrors (T : Type) : Type := list (StoredName * T).

Definition add_error {T} (name : StoredName) (error : T) (errors : ZoneErrors T) : ZoneErrors T := errors ++ [(name, error)].

(** [errors.unwrap()], with a value for the good case. *)
Definition errors_unwrap {T A} (errors : ZoneErrors T) (a : A) : result A (ZoneErrors T) := match errors with [] => Ok a | _ => Err errors end.

(** ** Owners *)

(** [BTreeMap<StoredName, Content>], as a map that is sorted when it is iterated
    over; names are the same key if they are equal as names ([name_key_ord]). *)
Definition Owners (Content : Type) : Type := hmap StoredName Content.

Definition name_key_eq (a b : StoredName) : bool := match name_eq a b with Ret e => e | Panic => false end.
Definition name_key_cmp (a b : StoredName) : comparison := match name_cmp a b with Ret c => c | Panic => Eq end.

Section Owners.
Context {Content : Type}.

Definition owners_get (m : Owners Content) (name : StoredName) : option Content := hm_get name_key_eq name m.
Definition owners_contains (m : Owners Content) (name : StoredName) : bool := match owners_get m name with Some _ => true | None => false end.

Definition owners_insert (m : Owners Content) (name : StoredName) (content : Content) : Owners Content * bool :=
  match owners_get m name with Some _ => (m, false) | None => (hm_insert name_key_eq name content m, true) end.

(** [entry(name)], which is [or_default], with [f] done to the content. *)
Definition owners_entry (default : Content) (m : Owners Content) (name : StoredName) (f : Content -> outcome Content) : outcome (Owners Content) :=
  let! content := f (match owners_get m name with Some c => c | None => default end) in
  Ret (hm_insert name_key_eq name content m).

Definition owners_into_iter : Owners Content -> list (StoredName * Content) := merge_sort (fun a b => name_key_cmp a.1 b.1 <> Gt).
End Owners.

(** ** Records of a name *)

Definition Normal : Type := hmap Z Rrset.

Definition normal_insert (record : StoredRecord) (n : Normal) : outcome Normal :=
  let rtype := zone_rtype (rr_data record) in
  match hm_get Z.eqb rtype n with
  | Some rrset => let! rrset := rrset_push_record rrset record in Ret (hm_insert Z.eqb rtype rrset n)
  | None => Ret (hm_insert Z.eqb rtype (rrset_from_record record) n)
  end.

Record ParsedCut := mkParsedCut { pc_ns : option Rrset; pc_ds : option Rrset }.

(** [ns.push_record(record)] or [Some(record.into())]. *)
Definition add_to (rrset : option Rrset) (record : StoredRecord) : outcome (option Rrset) :=
  match rrset with
  | Some rrset => let! rrset := rrset_push_record rrset record in Ret (Some rrset)
  | None => Ret (Some (rrset_from_record record))
  end.

Definition cut_insert (record : StoredRecord) (c : ParsedCut) : outcome ParsedCut :=
  let rtype := zone_rtype (rr_data record) in
  if rtype =? RTYPE_NS then let! ns := add_to (pc_ns c) record in Ret (mkParsedCut ns (pc_ds c))
  else if rtype =? RTYPE_DS then let! ds := add_to (pc_ds c) record in Ret (mkParsedCut (pc_ns c) ds)
  else Panic.

Definition cut_sample_rtype (c : ParsedCut) : option Z := rrset_rtype <$> (match pc_ds c with Some ds => Some ds | None => pc_ns c end).

(** ** Parsed zone files *)

(** [Zonefile] of [parsed.rs]. *)
Record ParsedZonefile := mkParsedZonefile {
  pz_origin : option StoredName; pz_class : option Z;
  pz_normal : Owners Normal; pz_zone_cuts : Owners ParsedCut; pz_cnames : Owners SharedRr; pz_out_of_zone : Owners Normal }.

Definition pz_default : ParsedZonefile := mkParsedZonefile None None [] [] [] [].
Definition pz_new (apex : StoredName) (class : Z) : ParsedZonefile := mkParsedZonefile (Some apex) (Some class) [] [] [] [].
Definition pz_set_origin (origin : StoredName) (z : ParsedZonefile) : ParsedZonefile :=
  mkParsedZonefile (Some origin) (pz_class z) (pz_normal z) (pz_zone_cuts z) (pz_cnames z) (pz_out_of_zone z).

Definition pz_with_normal (m : Owners Normal) (z : ParsedZonefile) : ParsedZonefile :=
  mkParsedZonefile (pz_origin z) (pz_class z) m (pz_zone_cuts z) (pz_cnames z) (pz_out_of_zone z).
Definition pz_with_cuts (m : Owners ParsedCut) (z : ParsedZonefile) : ParsedZonefile :=
  mkParsedZonefile (pz_origin z) (pz_class z) (pz_normal z) m (pz_cnames z) (pz_out_of_zone z).
Definition pz_with_cnames (m : Owners SharedRr) (z : ParsedZonefile) : ParsedZonefile :=
  mkParsedZonefile (pz_origin z) (pz_class z) (pz_normal z) (pz_zone_cuts z) m (pz_out_of_zone z).
Definition pz_with_out_of_zone (m : Owners Normal) (z : ParsedZonefile) : ParsedZonefile :=
  mkParsedZonefile (pz_origin z) (pz_class z) (pz_normal z) (pz_zone_cuts z) (pz_cnames z) m.

Section Parsed.
(** The order in which the record sets of a name are iterated over. *)
Context (order : Normal -> Normal).

Definition normal_sample_rtype (n : Normal) : option Z := match order n with (rtype, _) :: _ => Some rtype | [] => None end.
Definition normal_first_non_glue (n : Normal) : option (Z * Rrset) := snd <$> list_find (fun x => rtype_is_glue x.1 = false) (order n).

(** [.unwrap()]. *)
Definition opt_unwrap {A} (o : option A) : outcome A := match o with Some a => Ret a | None => Panic end.

(** The class and origin if the first record has to tell them. *)
Definition pz_take_soa (record : StoredRecord) (z : ParsedZonefile) : result ParsedZonefile RecordError :=
  match pz_origin z with
  | Some _ => Ok z
  | None =>
      if negb (zone_rtype (rr_data record) =? RTYPE_SOA) then Err (MissingSoa record)
      else Ok (mkParsedZonefile (Some (rr_owner record)) (Some (rr_class record)) (pz_normal z) (pz_zone_cuts z) (pz_cnames z) (pz_out_of_zone z))
  end.

Definition insert_cut_record (record : StoredRecord) (z : ParsedZonefile) : outcome (ParsedZonefile * result unit RecordError) :=
  let incompatible := match owners_get (pz_normal z) (rr_owner record) with Some n => normal_first_non_glue n | None => None end in
  match incompatible with
  | Some (rtype, _) => Ret (z, Err (IllegalZoneCut record rtype))
  | None =>
      if owners_contains (pz_cnames z) (rr_owner record) then Ret (z, Err (IllegalZoneCut record RTYPE_CNAME))
      else let! m := owners_entry (mkParsedCut None None) (pz_zone_cuts z) (rr_owner record) (cut_insert record) in
           Ret (pz_with_cuts m z, Ok ())
  end.

Definition insert_cname_record (record : StoredRecord) (z : ParsedZonefile) : outcome (ParsedZonefile * result unit RecordError) :=
  match owners_get (pz_normal z) (rr_owner record) with
  | Some n => let! rtype := opt_unwrap (normal_sample_rtype n) in Ret (z, Err (IllegalCname record rtype))
  | None =>
      match owners_get (pz_zone_cuts z) (rr_owner record) with
      | Some cut => let! rtype := opt_unwrap (cut_sample_rtype cut) in Ret (z, Err (IllegalCname record rtype))
      | None =>
          if owners_contains (pz_cnames z) (rr_owner record) then Ret (z, Err (MultipleCnames record))
          else Ret (pz_with_cnames (owners_insert (pz_cnames z) (rr_owner record) (shared_rr_from_record record)).1 z, Ok ())
      end
  end.

Definition insert_normal_record (record : StoredRecord) (z : ParsedZonefile) : outcome (ParsedZonefile * result unit RecordError) :=
  let incompatible := if rtype_is_glue (zone_rtype (rr_data record)) then None else owners_get (pz_zone_cuts z) (rr_owner record) in
  match incompatible with
  | Some cut => let! rtype := opt_unwrap (cut_sample_rtype cut) in Ret (z, Err (IllegalRecord record rtype))
  | None =>
      if owners_contains (pz_cnames z) (rr_owner record) then Ret (z, Err (IllegalRecord record RTYPE_CNAME))
      else let! m := owners_entry [] (pz_normal z) (rr_owner record) (normal_insert record) in Ret (pz_with_normal m z, Ok ())
  end.

Definition pz_insert (record : StoredRecord) (z : ParsedZonefile) : outcome (ParsedZonefile * result unit RecordError) :=
  match pz_take_soa record z with
  | Err e => Ret (z, Err e)
  | Ok z =>
      let! zone_apex := opt_unwrap (pz_origin z) in
      let! zone_class := opt_unwrap (pz_class z) in
      if negb (rr_class record =? zone_class) then Ret (z, Err (ClassMismatch record zone_class))
      else
        let! in_zone := ends_with (rr_owner record) zone_apex in
        if negb in_zone then
          let! m := owners_entry [] (pz_out_of_zone z) (rr_owner record) (normal_insert record) in Ret (pz_with_out_of_zone m z, Ok ())
        else
          let rtype := zone_rtype (rr_data record) in
          let! at_apex := name_eq (rr_owner record) zone_apex in
          if ((rtype =? RTYPE_NS) || (rtype =? RTYPE_DS)) && negb at_apex then insert_cut_record record z
          else if rtype =? RTYPE_CNAME then insert_cname_record record z
          else insert_normal_record record z
  end.

(** ** The builder of the zone *)

Definition collect_glue (m : Owners Normal) (name : StoredName) : list StoredRecord :=
  match owners_get m name with
  | Some normal =>
      concat (map (fun x => map (mkRR name CLASS_IN (rrset_ttl x.2)) (rrset_data x.2)) (filter (fun x => rtype_is_glue x.1 = true) (order normal)))
  | None => []
  end.

Definition cut_glue_of (m : Owners Normal) (ns : Rrset) : list StoredRecord :=
  concat (map (fun rdata => match rdata with ZoneNs ns => collect_glue m (nd_name ns) | _ => [] end) (rrset_data ns)).

(** A state of the loops: the builder and the errors so far. *)
Definition Building : Type := ZoneBuilder * ZoneErrors ContextError.

Definition build_cut (normal : Owners Normal) (x : StoredName * ParsedCut) (s : Building) : outcome Building :=
  let '(builder, errors) := s in
  match pc_ns x.2 with
  | None => Ret (builder, add_error x.1 MissingNs errors)
  | Some ns =>
      let! (builder, r) := zb_insert_zone_cut builder x.1 ns (pc_ds x.2) (cut_glue_of normal ns) in
      Ret (builder, match r with Ok _ => errors | Err err => add_error x.1 (InvalidZonecut err) errors end)
  end.

Definition build_cname (x : StoredName * SharedRr) (s : Building) : outcome Building :=
  let '(builder, errors) := s in
  let! (builder, r) := zb_insert_cname builder x.1 x.2 in
  Ret (builder, match r with Ok _ => errors | Err err => add_error x.1 (InvalidCname err) errors end).

Definition build_rrset (name : StoredName) (x : Z * Rrset) (s : Building) : outcome Building :=
  let '(builder, errors) := s in
  let! (builder, r) := zb_insert_rrset builder name x.2 in
  Ret (builder, match r with Ok _ => errors | Err _ => add_error name (ContextOutOfZone x.1) errors end).

(** [for x in l { .. }]. *)
Fixpoint each {A S} (f : A -> S -> outcome S) (l : list A) (s : S) : outcome S :=
  match l with [] => Ret s | x :: l => let! s := f x s in each f l s end.

Definition build_normal (x : StoredName * Normal) : Building -> outcome Building := each (build_rrset x.1) (order x.2).

Definition report_out_of_zone (x : StoredName * Normal) (s : Building) : outcome Building :=
  Ret (s.1, fold_left (fun errors y => add_error x.1 (ContextOutOfZone y.1) errors) (order x.2) s.2).

(** [TryFrom<Zonefile> for ZoneBuilder]. *)
Definition zb_try_from (z : ParsedZonefile) : outcome (result ZoneBuilder (ZoneErrors ContextError)) :=
  let! origin := opt_unwrap (pz_origin z) in
  let! class := opt_unwrap (pz_class z) in
  let! s := each (build_cut (pz_normal z)) (owners_into_iter (pz_zone_cuts z)) (zb_new origin class, []) in
  let! s := each build_cname (owners_into_iter (pz_cnames z)) s in
  let! s := each build_normal (owners_into_iter (pz_normal z)) s in
  let! s := each report_out_of_zone (owners_into_iter (pz_out_of_zone z)) s in
  Ret (errors_unwrap s.2 s.1).

(** ** From the text *)

Section Text.
Context (oc : bool) (unix_time : Z -> Z -> Z -> Z -> Z -> Z -> option Z).

(** The loop over the entries, which may take any number of rounds. *)
Fixpoint read_zone_loop (fuel : nat) (source : Zonefile) (z : ParsedZonefile) (errors : ZoneErrors RecordError)
    : outcome (ParsedZonefile * ZoneErrors RecordError) :=
  match fuel with
  | O => Panic
  | S fuel' =>
      let! (source, res) := next_entry oc unix_time source in
      match res with
      | Ok None => Ret (z, errors)
      | Ok (Some (EntryRecord r)) =>
          let! stored_rec := infallible (record_flatten r) in
          let! (z, r) := pz_insert stored_rec z in
          read_zone_loop fuel' source z (match r with Ok _ => errors | Err err => add_error (rr_owner stored_rec) err errors end)
      | Ok (Some (EntryInclude _ _)) => read_zone_loop fuel' source z errors
      | Err err => read_zone_loop fuel' source z (add_error (match record_error_owner (MalformedRecord err) with Some name => name | None => name_root end) (MalformedRecord err) errors)
      end
  end.

(** [TryFrom<inplace::Zonefile> for Zonefile]. *)
Definition pz_try_from (fuel : nat) (source : Zonefile) : outcome (result ParsedZonefile (ZoneErrors RecordError)) :=
  let! (z, errors) := read_zone_loop fuel source pz_default [] in Ret (errors_unwrap errors z).
End Text.
End Parsed.

(** ** Names as keys *)

Lemma name_key_eq_flat (a b : StoredName) : name_key_eq a b = eq_ignore_ascii_case (name_octets a) (name_octets b).
Proof. done. Qed.

#[export] Instance name_key_eq_ok : EqOk name_key_eq.
Proof. split; intros *; rewrite !name_key_eq_flat, ?eq_ignore_ascii_case_spec; congruence. Qed.

(** The order of names and their equality say the same of two keys. *)
Lemma name_key_ord a b als bls : wf_abs a als -> wf_abs b bls -> name_key_cmp a b = Eq <-> name_key_eq a b = true.
Proof.
  intros Ha Hb. unfold name_key_cmp, name_key_eq.
  rewrite (name_cmp_spec a b als bls), (name_eq_spec a b als bls); eauto using wf_abs_denotes, wf_abs_fuel;
    [|by apply abs_labels_good, Ha|by apply abs_labels_good, Hb].
  unfold reverse. rewrite rev_labels_cmp_eq, bool_decide_eq_true, <- !rev_alt. apply canon_rev.
Qed.

(** ** What a zone file holds *)

(** The record set that records of one name and type make, in their order; the TTL is
    the least. *)
Definition collect (rs : list StoredRecord) : option Rrset :=
  match rs with
  | [] => None
  | r :: rs' => Some (mkRrset (zone_rtype (rr_data r)) (fold_left Z.min (map rr_ttl rs') (rr_ttl r)) (map rr_data rs))
  end.

(** The labels in the octets of a name. *)
Fixpoint split_labels (fuel : nat) (octets : list Z) : list (list Z) :=
  match fuel, octets with
  | S fuel, n :: octets => take (Z.to_nat n) octets :: split_labels fuel (drop (Z.to_nat n) octets)
  | _, _ => []
  end.
Definition labels_of (name : StoredName) : list (list Z) := split_labels (length (name_octets name)) (name_octets name).

Lemma split_labels_wire fuel ls : (length (labels_wire ls) <= fuel)%nat -> split_labels fuel (labels_wire ls) = ls.
Proof.
  revert fuel. induction ls as [|l ls IH]; intros fuel Hf; [by destruct fuel|]. cbn [labels_wire map concat label_wire app] in *. destruct fuel as [|fuel]; [cbn in Hf; lia|].
  cbn [split_labels]. unfold zlen. rewrite Nat2Z.id, take_app_length, drop_app_length, IH; [done|]. cbn in Hf. rewrite length_app in Hf. unfold labels_wire. lia.
Qed.

Lemma labels_of_spec name ls : wf_abs name ls -> labels_of name = ls.
Proof. intros (_ & Hw & _). unfold labels_of. rewrite Hw. by apply split_labels_wire. Qed.

(** The addresses of hosts. *)
Definition address_type (rtype : Z) : bool := bool_decide (rtype = RTYPE_A \/ rtype = RTYPE_AAAA).

Lemma rtype_is_glue_address t : rtype_is_glue t = address_type t.
Proof.
  unfold rtype_is_glue, address_type. apply eq_bool_prop_intro. rewrite bool_decide_spec, Is_true_true, orb_true_iff, !Z.eqb_eq. done.
Qed.

Inductive rkind := KOut | KCut | KCname | KNormal.

#[export] Instance rkind_eq_dec : EqDecision rkind.
Proof. solve_decision. Defined.

Section Kinds.
Context (apex : StoredName).

(** The path of a name below the apex, from the top. *)
Definition path_of (name : StoredName) : option (list (list Z)) := path_below (labels_of apex) (labels_of name).

Definition kind (r : StoredRecord) : rkind :=
  let rtype := zone_rtype (rr_data r) in
  match path_of (rr_owner r) with
  | None => KOut
  | Some p =>
      if ((rtype =? RTYPE_NS) || (rtype =? RTYPE_DS)) && negb (bool_decide (p = [])) then KCut
      else if rtype =? RTYPE_CNAME then KCname else KNormal
  end.

(** Whether a record cannot be next to another one of the same name: zone cut records
    next to others than addresses, aliases next to anything. *)
Definition conflict (r old : StoredRecord) : bool :=
  match kind r, kind old with
  | KCut, KNormal => negb (address_type (zone_rtype (rr_data old)))
  | KNormal, KCut => negb (address_type (zone_rtype (rr_data r)))
  | KCut, KCname | KNormal, KCname | KCname, KNormal | KCname, KCut | KCname, KCname => true
  | _, _ => false
  end.

Definition admits (class : Z) (acc : list StoredRecord) (r : StoredRecord) : bool :=
  (rr_class r =? class) && forallb (fun old => negb (name_key_eq (rr_owner old) (rr_owner r) && conflict r old)) acc.

(** The records that are taken. *)
Definition accept (class : Z) (acc : list StoredRecord) (r : StoredRecord) : list StoredRecord := if admits class acc r then acc ++ [r] else acc.

(** Those of a kind, a name and a type. *)
Definition select (k : rkind) (name : StoredName) (rtype : Z) (acc : list StoredRecord) : list StoredRecord :=
  filter (fun r => kind r = k /\ name_key_eq (rr_owner r) name = true /\ zone_rtype (rr_data r) = rtype) acc.

Definition cut_content (name : StoredName) (acc : list StoredRecord) : option ParsedCut :=
  match collect (select KCut name RTYPE_NS acc), collect (select KCut name RTYPE_DS acc) with
  | None, None => None
  | ns, ds => Some (mkParsedCut ns ds)
  end.

Definition cname_content (name : StoredName) (acc : list StoredRecord) : option SharedRr :=
  shared_rr_from_record <$> head (select KCname name RTYPE_CNAME acc).

(** A map of record sets holds the records of a kind. *)
Definition holds_sets (k : rkind) (m : Owners Normal) (acc : list StoredRecord) : Prop :=
  hm_wf name_key_eq m /\
  (forall name rtype, (n ← owners_get m name; hm_get Z.eqb rtype n) = collect (select k name rtype acc)) /\
  (forall name n, owners_get m name = Some n -> n <> [] /\ hm_wf Z.eqb n).

Definition holds {C} (content : StoredName -> option C) (m : Owners C) : Prop :=
  hm_wf name_key_eq m /\ forall name, owners_get m name = content name.

Record pz_is (z : ParsedZonefile) (class : Z) (acc : list StoredRecord) : Prop := {
  is_origin : pz_origin z = Some apex;
  is_class : pz_class z = Some class;
  is_normal : holds_sets KNormal (pz_normal z) acc;
  is_out : holds_sets KOut (pz_out_of_zone z) acc;
  is_cuts : holds (fun name => cut_content name acc) (pz_zone_cuts z);
  is_cnames : holds (fun name => cname_content name acc) (pz_cnames z);
}.

Lemma select_snoc k name t acc (r : StoredRecord) :
  select k name t (acc ++ [r]) = select k name t acc ++
    (if decide (kind r = k /\ name_key_eq (rr_owner r) name = true /\ zone_rtype (rr_data r) = t) then [r] else []).
Proof. unfold select. rewrite filter_app. f_equal. Qed.

Lemma select_other k name t acc (r : StoredRecord) : kind r <> k -> select k name t (acc ++ [r]) = select k name t acc.
Proof. intros Hk. rewrite select_snoc, decide_False by (by intros []). apply app_nil_r. Qed.

Lemma select_same k n n' t acc : name_key_eq n n' = true -> select k n t acc = select k n' t acc.
Proof.
  intros Hn. unfold select. apply list_filter_iff. intros r. by rewrite (eqb_same _ _ _ _ Hn).
Qed.

(** One record more. *)
Lemma collect_push rs (r : StoredRecord) rrset : collect rs = Some rrset -> rrset_rtype rrset = zone_rtype (rr_data r) ->
  exists rrset', rrset_push_record rrset r = Ret rrset' /\ collect (rs ++ [r]) = Some rrset'.
Proof.
  destruct rs as [|x rs]; [done|]. cbn [collect app]. intros [= <-] Ht. cbn [rrset_rtype] in Ht. unfold rrset_push_record, rrset_push_data, rrset_limit_ttl. cbn [rrset_ttl].
  set (m := fold_left _ _ _).
  assert (He : forall ttl, (if ttl <? m then mkRrset (zone_rtype (rr_data x)) ttl (map rr_data (x :: rs)) else mkRrset (zone_rtype (rr_data x)) m (map rr_data (x :: rs))) =
    mkRrset (zone_rtype (rr_data x)) (Z.min m ttl) (map rr_data (x :: rs))).
  { intros ttl. destruct (Z.ltb_spec ttl m); f_equal; lia. }
  cbn [rrset_rtype rrset_data]. rewrite He. cbn [rrset_rtype rrset_data rrset_ttl]. rewrite Ht, Z.eqb_refl. eexists; split; [done|].
  rewrite map_app, fold_left_app. cbn [map fold_left]. rewrite map_app. cbn [map app]. by subst m.
Qed.

Lemma collect_rtype rs rrset t : collect rs = Some rrset -> Forall (fun r => zone_rtype (rr_data r) = t) rs -> rrset_rtype rrset = t.
Proof. destruct rs; [done|]. intros [= <-] H. by inversion H. Qed.

Lemma select_rtypes k name t acc : Forall (fun r => zone_rtype (rr_data r) = t) (select k name t acc).
Proof. apply Forall_forall. intros r Hr. apply list_elem_of_filter in Hr. tauto. Qed.

Lemma select_collect_rtype k name t acc rrset : collect (select k name t acc) = Some rrset -> rrset_rtype rrset = t.
Proof. intros H. eapply collect_rtype; [exact H|apply select_rtypes]. Qed.
End Kinds.

(** ** Inserting records *)

Lemma path_of_spec apex name als ls : wf_abs apex als -> wf_abs name ls -> path_of apex name = path_below als ls.
Proof.
  intros Ha Hn. unfold path_of. by rewrite (labels_of_spec _ _ Ha), (labels_of_spec _ _ Hn).
Qed.

Lemma path_below_suffix als ls : is_Some (path_below als ls) <-> canon als `suffix_of` canon ls.
Proof.
  unfold path_below. case_bool_decide as E.
  - split; [intros _|by eexists]. destruct E as [k E]. exists (rev k). rewrite !map_rev in E. apply (f_equal (rev (A:=_))) in E.
    by rewrite rev_app_distr, !rev_involutive in E.
  - split; [by intros [? ?]|]. intros [k E']. exfalso. apply E. exists (rev k). by rewrite !map_rev, E', rev_app_distr.
Qed.

Lemma path_below_apex als ls p : path_below als ls = Some p -> p = [] <-> canon ls = canon als.
Proof.
  unfold path_below. case_bool_decide as E; [|done]. intros [= <-]. destruct E as [k E]. rewrite !map_rev in E.
  pose proof (f_equal length E) as El. rewrite length_app, !length_rev, !length_map in El. split.
  - intros Hd. apply (f_equal length) in Hd. rewrite length_drop, length_rev in Hd. cbn in Hd. destruct k; [|cbn in El; lia].
    rewrite app_nil_r in E. by rewrite <- (rev_involutive (canon ls)), E, rev_involutive.
  - intros Hc. apply (f_equal length) in Hc. rewrite !length_map in Hc. apply nil_length_inv. rewrite length_drop, length_rev. lia.
Qed.

Section Inserting.
Context (order : Normal -> Normal) (order_perm : forall n, order n ≡ₚ n).
Context (apex : StoredName) (als : list (list Z)) (apex_wf : wf_abs apex als).

Lemma in_zone_spec (name : Name) ls : wf_abs name ls -> ends_with name apex = Ret (match path_of apex name with Some _ => true | None => false end).
Proof using apex_wf.
  intros Hn. rewrite (proj2 (starts_ends_with_correct name apex ls als (wf_abs_denotes _ _ Hn) (wf_abs_denotes _ _ apex_wf) (wf_abs_fuel _ _ Hn) (wf_abs_fuel _ _ apex_wf))).
  rewrite (path_of_spec apex name als ls apex_wf Hn). f_equal. apply eq_bool_prop_intro. rewrite bool_decide_spec, <- path_below_suffix.
  destruct (path_below als ls); cbn; split; try done; by intros [? ?].
Qed.

Lemma at_apex_spec (name : Name) ls p : wf_abs name ls -> path_of apex name = Some p -> name_eq name apex = Ret (bool_decide (p = [])).
Proof using apex_wf.
  intros Hn Hp. rewrite (path_of_spec apex name als ls apex_wf Hn) in Hp.
  rewrite (name_eq_spec name apex ls als (wf_abs_denotes _ _ Hn) (wf_abs_denotes _ _ apex_wf) (wf_abs_fuel _ _ Hn) (wf_abs_fuel _ _ apex_wf));
    [|by apply abs_labels_good, Hn|by apply abs_labels_good, apex_wf].
  f_equal. apply bool_decide_ext. symmetry. by apply path_below_apex.
Qed.

(** *** What is found under a name *)

Definition none_of (P : StoredRecord -> Prop) (acc : list StoredRecord) : Prop := forall r, r ∈ acc -> ~ P r.

Lemma collect_none rs : collect rs = None <-> rs = [].
Proof. by destruct rs. Qed.

Lemma select_none k name t acc : collect (select apex k name t acc) = None <->
  none_of (fun r => kind apex r = k /\ name_key_eq (rr_owner r) name = true /\ zone_rtype (rr_data r) = t) acc.
Proof.
  rewrite collect_none. unfold none_of. split.
  - intros E r Hr Hp. assert (Hin : r ∈ select apex k name t acc) by (by apply list_elem_of_filter). rewrite E in Hin. by apply elem_of_nil in Hin.
  - intros H. destruct (select apex k name t acc) as [|r rs] eqn:E; [done|]. assert (Hin : r ∈ select apex k name t acc) by (rewrite E; left).
    apply list_elem_of_filter in Hin as [Hp Hin]. by destruct (H r Hin).
Qed.

Lemma sets_none k m acc name : holds_sets apex k m acc ->
  owners_get m name = None <-> none_of (fun r => kind apex r = k /\ name_key_eq (rr_owner r) name = true) acc.
Proof.
  intros (_ & Hg & Hne). split.
  - intros E r Hr [Hk Hn]. assert (H : collect (select apex k name (zone_rtype (rr_data r)) acc) = None) by (rewrite <- Hg, E; done).
    by apply select_none in H; destruct (H r Hr).
  - intros H. destruct (owners_get m name) as [n|] eqn:E; [|done]. exfalso. destruct (Hne _ _ E) as [Hn Hw]. destruct n as [|[t rrset] n]; [done|].
    specialize (Hg name t). rewrite E in Hg. cbn in Hg. rewrite Z.eqb_refl in Hg. symmetry in Hg.
    assert (Hs : collect (select apex k name t acc) = None) by (apply select_none; intros r Hr (? & ? & ?); by apply (H r Hr)). congruence.
Qed.

Lemma non_glue_none m acc name : holds_sets apex KNormal m acc ->
  (match owners_get m name with Some n => normal_first_non_glue order n | None => None end) = None <->
  none_of (fun r => kind apex r = KNormal /\ name_key_eq (rr_owner r) name = true /\ address_type (zone_rtype (rr_data r)) = false) acc.
Proof using order_perm.
  intros Hm. pose proof Hm as (_ & Hg & Hne). destruct (owners_get m name) as [n|] eqn:E.
  - destruct (Hne _ _ E) as [_ Hw]. unfold normal_first_non_glue. rewrite fmap_None, list_find_None. split.
    + intros Hall r Hr (Hk & Hn & Hf). specialize (Hg name (zone_rtype (rr_data r))). rewrite E in Hg. cbn in Hg.
      destruct (hm_get Z.eqb _ n) as [rrset|] eqn:Eg.
      * apply hm_get_entry in Eg as (t & Hin & Ht). apply Z.eqb_eq in Ht as ->. rewrite Forall_forall in Hall.
        apply (Hall (zone_rtype (rr_data r), rrset)); [by rewrite order_perm|]. cbn [fst]. by rewrite rtype_is_glue_address.
      * symmetry in Hg. apply select_none in Hg. by apply (Hg r Hr).
    + intros H. apply Forall_forall. intros [t rrset] Hin Hf. cbn [fst] in Hf. rewrite rtype_is_glue_address in Hf. rewrite order_perm in Hin. apply (hm_entry_get Z.eqb) in Hin; [|done].
      specialize (Hg name t). rewrite E in Hg. cbn in Hg. rewrite Hin in Hg. symmetry in Hg.
      assert (Hs : collect (select apex KNormal name t acc) = None) by (apply select_none; intros r Hr (? & ? & <-); by apply (H r Hr)). congruence.
  - split; [|done]. intros _ r Hr (Hk & Hn & _). apply (sets_none KNormal m acc name Hm) in E. by apply (E r Hr).
Qed.

Lemma kind_cut_rtype (r : StoredRecord) : kind apex r = KCut -> zone_rtype (rr_data r) = RTYPE_NS \/ zone_rtype (rr_data r) = RTYPE_DS.
Proof.
  unfold kind. destruct (path_of apex (rr_owner r)); [|done].
  destruct (Z.eqb_spec (zone_rtype (rr_data r)) RTYPE_NS); [by left|]. destruct (Z.eqb_spec (zone_rtype (rr_data r)) RTYPE_DS); [by right|].
  cbn. by destruct (zone_rtype (rr_data r) =? RTYPE_CNAME).
Qed.

Lemma kind_cname_rtype (r : StoredRecord) : kind apex r = KCname -> zone_rtype (rr_data r) = RTYPE_CNAME.
Proof.
  unfold kind. destruct (path_of apex (rr_owner r)); [|done]. case_match; [done|]. by destruct (Z.eqb_spec (zone_rtype (rr_data r)) RTYPE_CNAME).
Qed.

Lemma cut_none name acc : cut_content apex name acc = None <-> none_of (fun r => kind apex r = KCut /\ name_key_eq (rr_owner r) name = true) acc.
Proof.
  unfold cut_content. pose proof (select_none KCut name RTYPE_NS acc) as H1. pose proof (select_none KCut name RTYPE_DS acc) as H2. split.
  - intros E r Hr [Hk Hn]. destruct (collect (select apex KCut name RTYPE_NS acc)); [done|]. destruct (collect (select apex KCut name RTYPE_DS acc)); [done|].
    destruct (kind_cut_rtype r Hk); [by apply (proj1 H1 eq_refl r Hr)|by apply (proj1 H2 eq_refl r Hr)].
  - intros H. rewrite (proj2 H1), (proj2 H2); [done| |]; intros r Hr (? & ? & ?); by apply (H r Hr).
Qed.

Lemma cname_none name acc : cname_content apex name acc = None <-> none_of (fun r => kind apex r = KCname /\ name_key_eq (rr_owner r) name = true) acc.
Proof.
  unfold cname_content. rewrite fmap_None. pose proof (select_none KCname name RTYPE_CNAME acc) as H. rewrite collect_none in H.
  assert (Hh : head (select apex KCname name RTYPE_CNAME acc) = None <-> select apex KCname name RTYPE_CNAME acc = []) by (by destruct (select apex KCname name RTYPE_CNAME acc)).
  rewrite Hh, H. split; intros Hx r Hr; specialize (Hx r Hr); [|tauto]. intros [Hk Hn]. apply Hx. split_and!; [done|done|by apply kind_cname_rtype].
Qed.

Lemma cut_sample name acc c : cut_content apex name acc = Some c -> is_Some (cut_sample_rtype c).
Proof.
  unfold cut_content, cut_sample_rtype. destruct (collect (select apex KCut name RTYPE_NS acc)), (collect (select apex KCut name RTYPE_DS acc)); try done; intros [= <-]; by eexists.
Qed.
(** *** One record more *)

Lemma sets_insert k m acc (r : StoredRecord) : holds_sets apex k m acc -> kind apex r = k ->
  exists m', owners_entry [] m (rr_owner r) (normal_insert r) = Ret m' /\ holds_sets apex k m' (acc ++ [r]).
Proof.
  intros (Hw & Hg & Hne) Hk. set (t := zone_rtype (rr_data r)).
  set (n := match owners_get m (rr_owner r) with Some n => n | None => [] end).
  assert (Hn : hm_wf Z.eqb n) by (subst n; destruct (owners_get m (rr_owner r)) eqn:E; [by apply (Hne _ _ E)|done]).
  assert (Hold : forall t', hm_get Z.eqb t' n = collect (select apex k (rr_owner r) t' acc)).
  { intros t'. rewrite <- Hg. subst n. by destruct (owners_get m (rr_owner r)). }
  assert (Hins : exists rrset', normal_insert r n = Ret (hm_insert Z.eqb t rrset' n) /\ collect (select apex k (rr_owner r) t acc ++ [r]) = Some rrset').
  { unfold normal_insert. fold t. rewrite Hold. destruct (collect (select apex k (rr_owner r) t acc)) as [rrset|] eqn:E.
    - destruct (collect_push _ r rrset E) as (rrset' & -> & E'); [by eapply select_collect_rtype|]. by exists rrset'.
    - apply collect_none in E as ->. by eexists. }
  destruct Hins as (rrset' & Hins & Hc).
  assert (owners_entry [] m (rr_owner r) (normal_insert r) = let! c := normal_insert r n in Ret (hm_insert name_key_eq (rr_owner r) c m)) as -> by done.
  rewrite Hins. eexists; split; [done|]. split_and!.
  - by apply hm_alter_wf; [apply _|].
  - intros name t'. unfold owners_get. rewrite (hm_get_insert name_key_eq). rewrite select_snoc. destruct (name_key_eq (rr_owner r) name) eqn:En.
    + cbn [mbind option_bind]. rewrite (hm_get_insert Z.eqb), <- (select_same apex k _ _ t' acc En). destruct (Z.eqb_spec t t') as [<-|Ht].
      * by rewrite decide_True by done.
      * rewrite decide_False by (by intros (_ & _ & ?)). by rewrite app_nil_r, Hold.
    + rewrite decide_False by (by intros (_ & ? & _)). rewrite app_nil_r. apply Hg.
  - intros name n'. unfold owners_get. rewrite (hm_get_insert name_key_eq). destruct (name_key_eq (rr_owner r) name).
    + intros [= <-]. split; [|by apply hm_alter_wf; [apply _|]]. intros E. pose proof (hm_get_insert Z.eqb t t rrset' n) as H. by rewrite E, Z.eqb_refl in H.
    + apply Hne.
Qed.

Lemma sets_other k m acc (r : StoredRecord) : holds_sets apex k m acc -> kind apex r <> k -> holds_sets apex k m (acc ++ [r]).
Proof. intros (Hw & Hg & Hne) Hk. split_and!; [done| |done]. intros name t. by rewrite select_other. Qed.

Lemma add_to_spec k name t acc (r : StoredRecord) : zone_rtype (rr_data r) = t -> kind apex r = k -> name_key_eq (rr_owner r) name = true ->
  add_to (collect (select apex k name t acc)) r = Ret (collect (select apex k name t (acc ++ [r]))).
Proof.
  intros Ht Hk Hn. rewrite select_snoc, decide_True by done. unfold add_to. destruct (collect (select apex k name t acc)) as [rrset|] eqn:E.
  - destruct (collect_push _ r rrset E) as (rrset' & -> & E'); [by erewrite select_collect_rtype|]. by rewrite <- E'.
  - by apply collect_none in E as ->.
Qed.

(** The content of a cut, also if there is none. *)
Definition cut_or_default (name : StoredName) (acc : list StoredRecord) : ParsedCut :=
  mkParsedCut (collect (select apex KCut name RTYPE_NS acc)) (collect (select apex KCut name RTYPE_DS acc)).

Lemma cut_content_default name acc : (match cut_content apex name acc with Some c => c | None => mkParsedCut None None end) = cut_or_default name acc.
Proof. unfold cut_content, cut_or_default. by destruct (collect (select apex KCut name RTYPE_NS acc)), (collect (select apex KCut name RTYPE_DS acc)). Qed.

Lemma cut_content_same n n' acc : name_key_eq n n' = true -> cut_content apex n acc = cut_content apex n' acc.
Proof. intros Hn. unfold cut_content. by rewrite !(select_same apex KCut n n' _ acc Hn). Qed.

Lemma cut_insert_spec acc (r : StoredRecord) : kind apex r = KCut ->
  cut_insert r (cut_or_default (rr_owner r) acc) = Ret (cut_or_default (rr_owner r) (acc ++ [r])) /\
  cut_content apex (rr_owner r) (acc ++ [r]) = Some (cut_or_default (rr_owner r) (acc ++ [r])).
Proof.
  intros Hk. assert (Hn : name_key_eq (rr_owner r) (rr_owner r) = true) by apply HashMap.eqb_refl.
  assert (Hskip : forall t, zone_rtype (rr_data r) <> t -> select apex KCut (rr_owner r) t (acc ++ [r]) = select apex KCut (rr_owner r) t acc).
  { intros t Ht. rewrite select_snoc, decide_False by (by intros (_ & _ & ?)). apply app_nil_r. }
  assert (Hsome : collect (select apex KCut (rr_owner r) (zone_rtype (rr_data r)) (acc ++ [r])) <> None).
  { rewrite collect_none, select_snoc, decide_True by done. by destruct (select apex KCut (rr_owner r) _ acc). }
  unfold cut_insert, cut_or_default, cut_content. cbn [pc_ns pc_ds]. destruct (kind_cut_rtype r Hk) as [Ht|Ht]; rewrite Ht in *.
  - rewrite Z.eqb_refl, (add_to_spec _ _ RTYPE_NS) by done. rewrite (Hskip RTYPE_DS) by done. split; [done|].
    by destruct (collect (select apex KCut (rr_owner r) RTYPE_NS (acc ++ [r]))).
  - change (RTYPE_DS =? RTYPE_NS) with false. rewrite Z.eqb_refl, (add_to_spec _ _ RTYPE_DS) by done. rewrite (Hskip RTYPE_NS) by done. split; [done|].
    destruct (collect (select apex KCut (rr_owner r) RTYPE_NS acc)); [done|]. by destruct (collect (select apex KCut (rr_owner r) RTYPE_DS (acc ++ [r]))).
Qed.

Lemma cut_content_other name acc (r : StoredRecord) : kind apex r <> KCut \/ name_key_eq (rr_owner r) name = false ->
  cut_content apex name (acc ++ [r]) = cut_content apex name acc.
Proof.
  intros H. unfold cut_content. rewrite !select_snoc, !decide_False, !app_nil_r; [done|..]; destruct H; intros (? & ? & ?); congruence.
Qed.

Lemma cuts_insert m acc (r : StoredRecord) : holds (fun name => cut_content apex name acc) m -> kind apex r = KCut ->
  exists m', owners_entry (mkParsedCut None None) m (rr_owner r) (cut_insert r) = Ret m' /\ holds (fun name => cut_content apex name (acc ++ [r])) m'.
Proof.
  intros [Hw Hg] Hk. unfold owners_entry. rewrite Hg, cut_content_default. destruct (cut_insert_spec acc r Hk) as [-> Hc]. eexists; split; [done|]. split.
  - by apply hm_alter_wf; [apply _|].
  - intros name. unfold owners_get. rewrite (hm_get_insert name_key_eq). destruct (name_key_eq (rr_owner r) name) eqn:En.
    + by rewrite <- (cut_content_same _ _ _ En).
    + rewrite cut_content_other by (by right). apply Hg.
Qed.

Lemma cname_content_other name acc (r : StoredRecord) : kind apex r <> KCname \/ name_key_eq (rr_owner r) name = false ->
  cname_content apex name (acc ++ [r]) = cname_content apex name acc.
Proof.
  intros H. unfold cname_content. rewrite select_snoc, decide_False, app_nil_r; [done|]. destruct H; intros (? & ? & ?); congruence.
Qed.

Lemma cnames_insert m acc (r : StoredRecord) : holds (fun name => cname_content apex name acc) m -> kind apex r = KCname -> owners_get m (rr_owner r) = None ->
  holds (fun name => cname_content apex name (acc ++ [r])) (owners_insert m (rr_owner r) (shared_rr_from_record r)).1.
Proof.
  intros [Hw Hg] Hk Hn. unfold owners_insert. rewrite Hn. cbn [fst]. split; [by apply hm_alter_wf; [apply _|]|]. intros name. unfold owners_get.
  rewrite (hm_get_insert name_key_eq). destruct (name_key_eq (rr_owner r) name) eqn:En.
  - rewrite Hg in Hn. unfold cname_content in *. rewrite <- (select_same apex KCname _ _ RTYPE_CNAME _ En), select_snoc.
    rewrite decide_True by (split_and!; [done|apply HashMap.eqb_refl|by eapply kind_cname_rtype]). by destruct (select apex KCname (rr_owner r) RTYPE_CNAME acc).
  - rewrite cname_content_other by (by right). apply Hg.
Qed.
(** *** The verdict on a record *)

Lemma admits_spec class acc (r : StoredRecord) : rr_class r = class ->
  admits apex class acc r = true <-> none_of (fun old => name_key_eq (rr_owner old) (rr_owner r) = true /\ conflict apex r old = true) acc.
Proof.
  intros Hc. unfold admits, none_of. rewrite Hc, Z.eqb_refl. cbn [andb]. rewrite forallb_forall. setoid_rewrite <- list_elem_of_In.
  split; intros H old Hold; specialize (H old Hold); cbv beta in *.
  - intros [H1 H2]. apply negb_true_iff, andb_false_iff in H as [H|H]; [exact (eq_true_false_abs _ H1 H)|exact (eq_true_false_abs _ H2 H)].
  - apply negb_true_iff, not_true_is_false. intros [H1 H2]%andb_prop. by apply H.
Qed.

(** A record that is refused leaves everything as it is; one that is accepted is in
    its place. *)
Definition verdict (z : ParsedZonefile) (class : Z) (acc : list StoredRecord) (r : StoredRecord) (o : outcome (ParsedZonefile * result unit RecordError)) : Prop :=
  exists z' res, o = Ret (z', res) /\ (match res with Ok _ => true | Err _ => false end) = admits apex class acc r /\
    pz_is apex z' class (accept apex class acc r).

Lemma refused z class acc (r : StoredRecord) e : pz_is apex z class acc -> admits apex class acc r <> true -> verdict z class acc r (Ret (z, Err e)).
Proof. intros Hz Ha. apply not_true_is_false in Ha. exists z, (Err e). unfold accept. rewrite Ha. done. Qed.

Lemma accepted z z' class acc (r : StoredRecord) : admits apex class acc r = true -> pz_is apex z' class (acc ++ [r]) -> verdict z class acc r (Ret (z', Ok ())).
Proof. intros Ha Hz. exists z', (Ok ()). unfold accept. rewrite Ha. done. Qed.

Lemma cut_verdict z class acc (r : StoredRecord) : pz_is apex z class acc -> rr_class r = class -> kind apex r = KCut -> verdict z class acc r (insert_cut_record order r z).
Proof using order_perm.
  intros Hz Hc Hk. pose proof (admits_spec class acc r Hc) as Ha. unfold conflict in Ha. rewrite Hk in Ha. unfold insert_cut_record.
  pose proof (non_glue_none (pz_normal z) acc (rr_owner r) (is_normal _ _ _ _ Hz)) as Hg. destruct (match owners_get (pz_normal z) (rr_owner r) with Some n => _ | None => _ end) as [[t rrset]|].
  { apply refused; [done|]. rewrite Ha. intros H. assert (Some (t, rrset) = None) by (apply Hg; intros old Hold (H1 & H2 & H3); apply (H old Hold); by rewrite H1, H3). done. }
  pose proof (cname_none (rr_owner r) acc) as Hcn. unfold owners_contains. rewrite (proj2 (is_cnames _ _ _ _ Hz)). destruct (cname_content apex (rr_owner r) acc) as [c|].
  { apply refused; [done|]. rewrite Ha. intros H. assert (Some c = None) by (apply Hcn; intros old Hold (H1 & H2); apply (H old Hold); by rewrite H1). done. }
  destruct (cuts_insert (pz_zone_cuts z) acc r (is_cuts _ _ _ _ Hz) Hk) as (m' & -> & Hm'). apply accepted.
  - apply Ha. intros old Hold [H1 H2]. destruct (kind apex old) eqn:Eo; try done; [by apply (proj1 Hcn eq_refl old Hold)|].
    apply (proj1 Hg eq_refl old Hold). split_and!; [done|done|]. by destruct (address_type _).
  - destruct Hz as [H1 H2 H3 H4 H5 H6]. split; try done; [by apply sets_other; [|congruence]..|]. split; [apply H6|]. intros name.
    rewrite cname_content_other by (left; congruence). apply H6.
Qed.

Lemma cname_verdict z class acc (r : StoredRecord) : pz_is apex z class acc -> rr_class r = class -> kind apex r = KCname -> verdict z class acc r (insert_cname_record order r z).
Proof using order_perm.
  intros Hz Hc Hk. pose proof (admits_spec class acc r Hc) as Ha. unfold conflict in Ha. rewrite Hk in Ha. unfold insert_cname_record.
  pose proof (sets_none KNormal (pz_normal z) acc (rr_owner r) (is_normal _ _ _ _ Hz)) as Hn. destruct (owners_get (pz_normal z) (rr_owner r)) as [n|] eqn:En.
  { destruct (proj2 (proj2 (is_normal _ _ _ _ Hz)) _ _ En) as [Hne _]. unfold normal_sample_rtype.
    pose proof (order_perm n) as Hp. destruct (order n) as [|[t x] n']; [by apply Permutation_nil_l in Hp|]. apply refused; [done|]. rewrite Ha. intros H.
    assert (Some n = None) by (apply Hn; intros old Hold (H1 & H2); apply (H old Hold); by rewrite H1). done. }
  pose proof (cut_none (rr_owner r) acc) as Hct. rewrite (proj2 (is_cuts _ _ _ _ Hz)). destruct (cut_content apex (rr_owner r) acc) as [c|] eqn:Ec.
  { destruct (cut_sample _ _ _ Ec) as [t ->]. apply refused; [done|]. rewrite Ha. intros H.
    assert (Some c = None) by (apply Hct; intros old Hold (H1 & H2); apply (H old Hold); by rewrite H1). done. }
  pose proof (cname_none (rr_owner r) acc) as Hcn. unfold owners_contains.
  pose proof (proj2 (is_cnames _ _ _ _ Hz) (rr_owner r)) as Eg. rewrite Eg. destruct (cname_content apex (rr_owner r) acc) as [c|].
  { apply refused; [done|]. rewrite Ha. intros H. assert (Some c = None) by (apply Hcn; intros old Hold (H1 & H2); apply (H old Hold); by rewrite H1). done. }
  apply accepted.
  - apply Ha. intros old Hold [H1 H2]. destruct (kind apex old) eqn:Eo; [done|by apply (proj1 Hct eq_refl old Hold)|by apply (proj1 Hcn eq_refl old Hold)|].
    by apply (proj1 Hn eq_refl old Hold).
  - pose proof (cnames_insert (pz_cnames z) acc r (is_cnames _ _ _ _ Hz) Hk Eg) as H6'.
    destruct Hz as [H1 H2 H3 H4 H5 H6]. split; try done; [by apply sets_other; [|congruence]..|]. split; [apply H5|]. intros name.
    rewrite cut_content_other by (left; congruence). apply H5.
Qed.

Lemma normal_verdict z class acc (r : StoredRecord) : pz_is apex z class acc -> rr_class r = class -> kind apex r = KNormal -> verdict z class acc r (insert_normal_record r z).
Proof.
  intros Hz Hc Hk. pose proof (admits_spec class acc r Hc) as Ha. unfold conflict in Ha. rewrite Hk in Ha. unfold insert_normal_record. rewrite rtype_is_glue_address.
  pose proof (cut_none (rr_owner r) acc) as Hct. rewrite (proj2 (is_cuts _ _ _ _ Hz)).
  assert (Hglue : (if address_type (zone_rtype (rr_data r)) then None else cut_content apex (rr_owner r) acc) = None \/
    address_type (zone_rtype (rr_data r)) = false /\ exists c, cut_content apex (rr_owner r) acc = Some c).
  { destruct (address_type _); [by left|]. destruct (cut_content apex (rr_owner r) acc) as [c|]; [right; split; [done|by exists c]|by left]. }
  destruct Hglue as [Hglue|(Hg & c & Ec)].
  2: { rewrite Hg, Ec. destruct (cut_sample _ _ _ Ec) as [t ->]. apply refused; [done|]. rewrite Ha, Ec in *. intros H.
       assert (Some c = None) by (apply Hct; intros old Hold (H1 & H2); apply (H old Hold); by rewrite H1, Hg). done. }
  rewrite Hglue. pose proof (cname_none (rr_owner r) acc) as Hcn. unfold owners_contains. rewrite (proj2 (is_cnames _ _ _ _ Hz)).
  destruct (cname_content apex (rr_owner r) acc) as [c|].
  { apply refused; [done|]. rewrite Ha. intros H. assert (Some c = None) by (apply Hcn; intros old Hold (H1 & H2); apply (H old Hold); by rewrite H1). done. }
  destruct (sets_insert KNormal (pz_normal z) acc r (is_normal _ _ _ _ Hz) Hk) as (m' & -> & Hm'). apply accepted.
  - apply Ha. intros old Hold [H1 H2]. destruct (kind apex old) eqn:Eo; [done| |by apply (proj1 Hcn eq_refl old Hold)|done].
    destruct (address_type (zone_rtype (rr_data r))); [done|]. by apply (proj1 Hct Hglue old Hold).
  - destruct Hz as [H1 H2 H3 H4 H5 H6]. split; try done; [by apply sets_other; [|congruence]|split; [apply H5|]|split; [apply H6|]]; intros name.
    + rewrite cut_content_other by (left; congruence). apply H5.
    + rewrite cname_content_other by (left; congruence). apply H6.
Qed.

Lemma out_verdict z class acc (r : StoredRecord) : pz_is apex z class acc -> rr_class r = class -> kind apex r = KOut ->
  verdict z class acc r (let! m := owners_entry [] (pz_out_of_zone z) (rr_owner r) (normal_insert r) in Ret (pz_with_out_of_zone m z, Ok ())).
Proof.
  intros Hz Hc Hk. pose proof (admits_spec class acc r Hc) as Ha. unfold conflict in Ha. rewrite Hk in Ha.
  destruct (sets_insert KOut (pz_out_of_zone z) acc r (is_out _ _ _ _ Hz) Hk) as (m' & -> & Hm'). apply accepted.
  - apply Ha. by intros old Hold [_ ?].
  - destruct Hz as [H1 H2 H3 H4 H5 H6]. split; try done; [by apply sets_other; [|congruence]|split; [apply H5|]|split; [apply H6|]]; intros name.
    + rewrite cut_content_other by (left; congruence). apply H5.
    + rewrite cname_content_other by (left; congruence). apply H6.
Qed.

Lemma pz_insert_step z class acc (r : StoredRecord) ls : pz_is apex z class acc -> wf_abs (rr_owner r) ls -> verdict z class acc r (pz_insert order r z).
Proof using order_perm apex_wf.
  intros Hz Hr. pose proof (is_origin _ _ _ _ Hz) as Eo. pose proof (is_class _ _ _ _ Hz) as Ec.
  unfold pz_insert. assert (pz_take_soa r z = Ok z) as -> by (unfold pz_take_soa; by rewrite Eo). rewrite Eo, Ec. cbn [opt_unwrap].
  destruct (Z.eqb_spec (rr_class r) class) as [Hc|Hc]; cbn [negb].
  2: { apply refused; [done|]. unfold admits. by rewrite (proj2 (Z.eqb_neq _ _) Hc). }
  rewrite (in_zone_spec _ _ Hr). destruct (path_of apex (rr_owner r)) as [p|] eqn:Ep; cbn [negb].
  2: { apply out_verdict; [done|done|]. unfold kind. by rewrite Ep. }
  rewrite (at_apex_spec _ _ _ Hr Ep). assert (Hk : kind apex r = kind apex r) by done. unfold kind in Hk at 2. rewrite Ep in Hk.
  destruct (_ && _); [by apply cut_verdict|]. destruct (_ =? RTYPE_CNAME); [by apply cname_verdict|by apply normal_verdict].
Qed.
End Inserting.

(** ** Runs *)

Section Runs.
Context (order : Normal -> Normal) (order_perm : forall n, order n ≡ₚ n).

Fixpoint pz_run (z : ParsedZonefile) (records : list StoredRecord) : outcome (ParsedZonefile * list (result unit RecordError)) :=
  match records with
  | [] => Ret (z, [])
  | r :: records => let! (z, res) := pz_insert order r z in let! (z, rs) := pz_run z records in Ret (z, res :: rs)
  end.

(** The verdicts on a sequence of records. *)
Fixpoint verdicts (apex : StoredName) (class : Z) (acc records : list StoredRecord) : list bool :=
  match records with
  | [] => []
  | r :: records => admits apex class acc r :: verdicts apex class (accept apex class acc r) records
  end.

Definition is_ok {A E} (r : result A E) : bool := match r with Ok _ => true | Err _ => false end.

Lemma pz_run_spec apex als class records z acc : wf_abs apex als -> Forall (fun r => exists ls, wf_abs (rr_owner r) ls) records -> pz_is apex z class acc ->
  exists z' rs, pz_run z records = Ret (z', rs) /\ map is_ok rs = verdicts apex class acc records /\
    pz_is apex z' class (fold_left (accept apex class) records acc).
Proof using order_perm.
  intros Ha Hr. revert z acc. induction Hr as [|r records (ls & Hr) _ IH]; intros z acc Hz; cbn [pz_run]; [by exists z, []|].
  destruct (pz_insert_step order order_perm apex als Ha z class acc r ls Hz Hr) as (z1 & res & -> & Hres & Hz1).
  destruct (IH z1 _ Hz1) as (z2 & rs & -> & Hrs & Hz2). exists z2, (res :: rs). split; [done|]. split; [|done]. cbn. by rewrite Hrs, <- Hres.
Qed.

Lemma pz_new_is apex class : pz_is apex (pz_new apex class) class [].
Proof. by repeat split. Qed.

(** Records that are inserted into a new zone file are accepted exactly if they have
    the class of the zone and do not conflict with a record accepted before: zone cut
    records and other than glue, aliases and anything else.  What the zone file then
    holds under a name are the accepted records of that name, in the order they were
    inserted, sorted into record sets with the least TTL, zone cuts, aliases and
    records out of zone. *)
Theorem parsed_insert_correct apex als class records :
  wf_abs apex als -> Forall (fun r => exists ls, wf_abs (rr_owner r) ls) records ->
  exists z rs, pz_run (pz_new apex class) records = Ret (z, rs) /\ map is_ok rs = verdicts apex class [] records /\
    pz_is apex z class (fold_left (accept apex class) records []).
Proof using order_perm. intros Ha Hr. eapply pz_run_spec; [done|done|apply pz_new_is]. Qed.

(** The keys of the maps are names of inserted records. *)
Definition keys_of (z : ParsedZonefile) (names : list StoredName) : Prop :=
  (forall k, k ∈ map fst (pz_normal z) -> k ∈ names) /\ (forall k, k ∈ map fst (pz_zone_cuts z) -> k ∈ names) /\
  (forall k, k ∈ map fst (pz_cnames z) -> k ∈ names) /\ (forall k, k ∈ map fst (pz_out_of_zone z) -> k ∈ names).

Lemma entry_keys {C} (d : C) m name f m' (names : list StoredName) : owners_entry d m name f = Ret m' -> name ∈ names ->
  (forall k, k ∈ map fst m -> k ∈ names) -> forall k, k ∈ map fst m' -> k ∈ names.
Proof.
  unfold owners_entry. destruct (f _) as [c|]; [|done]. intros [= <-] Hn Hm k Hk. destruct (hm_alter_keys name_key_eq c (fun _ => c) name m k Hk) as [H| ->]; auto.
Qed.

Lemma pz_insert_keys (r : StoredRecord) z z' res (names : list StoredName) : pz_insert order r z = Ret (z', res) -> rr_owner r ∈ names -> keys_of z names -> keys_of z' names.
Proof.
  intros E Hr (H1 & H2 & H3 & H4). unfold pz_insert in E. destruct (pz_take_soa r z) as [z0|] eqn:Et; [|by simplify_eq].
  assert (Hz : keys_of z0 names).
  { unfold pz_take_soa in Et. destruct (pz_origin z); [by simplify_eq|]. destruct (negb _); by simplify_eq. }
  clear z H1 H2 H3 H4 Et. pose proof Hz as (H1 & H2 & H3 & H4).
  destruct (opt_unwrap (pz_origin z0)); [|done]. destruct (opt_unwrap (pz_class z0)); [|done]. destruct (negb _); [by simplify_eq|].
  destruct (ends_with _ _) as [iz|]; [|done]. destruct (negb iz).
  { destruct (owners_entry _ _ _ _) as [m|] eqn:Em; [|done]. simplify_eq. split_and!; [done..|]. by eapply entry_keys. }
  destruct (name_eq _ _) as [aa|]; [|done]. destruct (_ && _); [|destruct (_ =? RTYPE_CNAME)].
  - unfold insert_cut_record in E. destruct (match owners_get _ _ with Some _ => _ | None => _ end) as [[]|]; [by simplify_eq|].
    destruct (owners_contains _ _); [by simplify_eq|]. destruct (owners_entry _ _ _ _) as [m|] eqn:Em; [|done]. simplify_eq. split_and!; try done. by eapply entry_keys.
  - unfold insert_cname_record in E. destruct (owners_get _ _) as [n|]; [destruct (opt_unwrap _); by simplify_eq|].
    destruct (owners_get (pz_zone_cuts z0) _) as [c|]; [destruct (opt_unwrap _); by simplify_eq|]. destruct (owners_contains _ _); [by simplify_eq|]. simplify_eq.
    split_and!; try done. cbn [pz_cnames pz_with_cnames]. unfold owners_insert. destruct (owners_get _ _); [done|]. cbn [fst]. intros k Hk.
    destruct (hm_alter_keys _ _ _ _ _ _ Hk) as [H| ->]; auto.
  - unfold insert_normal_record in E. destruct (if rtype_is_glue _ then _ else _) as [c|]; [destruct (opt_unwrap _); by simplify_eq|].
    destruct (owners_contains _ _); [by simplify_eq|]. destruct (owners_entry _ _ _ _) as [m|] eqn:Em; [|done]. simplify_eq. split_and!; try done. by eapply entry_keys.
Qed.

Lemma pz_run_keys records z z' rs (names : list StoredName) : pz_run z records = Ret (z', rs) -> Forall (fun r => rr_owner r ∈ names) records -> keys_of z names -> keys_of z' names.
Proof.
  intros E Hr. revert z rs E. induction Hr as [|r records Hr _ IH]; intros z rs E Hz; cbn [pz_run] in E; [by simplify_eq|].
  destruct (pz_insert order r z) as [[z1 res]|] eqn:E1; [|done]. destruct (pz_run z1 records) as [[z2 rs']|] eqn:E2; [|done]. simplify_eq.
  eapply IH; [done|]. by eapply pz_insert_keys.
Qed.
End Runs.

(** ** Corners *)

(** An origin without a class makes the next insertion panic. *)
Lemma origin_without_class_panics order origin record : pz_insert order record (pz_set_origin origin pz_default) = Panic.
Proof. done. Qed.

(** The glue of a zone of another class is of class IN. *)
Lemma glue_class_in order m name : Forall (fun r => rr_class r = CLASS_IN) (collect_glue order m name).
Proof.
  unfold collect_glue. destruct (owners_get m name) as [n|]; [|done]. apply Forall_concat, Forall_forall. intros l (x & -> & _)%list_elem_of_fmap.
  apply Forall_forall. by intros r (d & -> & _)%list_elem_of_fmap.
Qed.
