(* ===== verification/ZoneFromFile.v ===== *)
(** * The zone of a zone file

    The zone that is built from a parsed zone file ([src/src/zonetree/parsed.rs])
    answers queries from the records that were inserted, and the text of the records
    is a zone file from which they are inserted. *)

From S2P Require Import Prelude Octets Serial Symbol CharStr Label Traits Name NameBuilder Chain ParsedName Header Compressor MessageBuilder Message Record Scanner Iana Ttl Layout Rdata Bitmap Txt Dnssec Nsec3 ZoneData Flatten SourceBuf Lex Inplace ZonefileFmt ZoneText ZoneRoundtrip ZoneEntries HashMap ZoneSet Versioned ZoneStore ZoneBuilder ParsedZone.
From stdpp Require Import list sorting.
#[local] Open Scope Z_scope.

(** ** Sequences of insertions *)

Lemma entry_absent items v q t :
  (forall p r, (p, ItemRrset r) ∈ items -> canon p = canon q -> rrset_rtype r <> t) -> zv_entry (fold_left zv_insert items v) q t = zv_entry v q t.
Proof.
  induction items as [|[p i] items IH] using rev_ind; intros H; [done|]. rewrite fold_left_app. cbn [fold_left]. cbn [zv_insert zv_entry fst snd].
  rewrite IH by (intros p' r' Hin; apply (H p' r'), elem_of_app; by left). destruct i as [r|s]; [|done].
  rewrite bool_decide_eq_false_2; [done|]. intros [E1 E2]. apply (H p r); [apply elem_of_app; right; left|done|done].
Qed.

Lemma entry_present items v q t p r : (p, ItemRrset r) ∈ items -> canon p = canon q -> rrset_rtype r = t -> rrset_is_empty r = false ->
  (forall p' r', (p', ItemRrset r') ∈ items -> canon p' = canon q -> rrset_rtype r' = t -> r' = r) ->
  zv_entry (fold_left zv_insert items v) q t = Some (Some r).
Proof.
  intros Hin Hp Ht He. induction items as [|[p0 i] items IH] using rev_ind; intros Hu; [by apply elem_of_nil in Hin|].
  rewrite fold_left_app. cbn [fold_left zv_insert zv_entry fst snd]. destruct i as [r0|s].
  - case_bool_decide as E.
    + assert (r0 = r) as -> by (apply (Hu p0); [apply elem_of_app; right; left|tauto|tauto]). by rewrite He.
    + apply IH; [|intros p' r' Hin'; apply Hu, elem_of_app; by left]. apply elem_of_app in Hin as [Hin|Hin]; [done|]. apply list_elem_of_singleton in Hin. simplify_eq. by destruct E.
  - apply IH; [|intros p' r' Hin'; apply Hu, elem_of_app; by left]. apply elem_of_app in Hin as [Hin|Hin]; [done|]. by apply list_elem_of_singleton in Hin.
Qed.

(** Something was inserted at the path or below. *)
Definition item_below (q : list (list Z)) (items : list (list (list Z) * zone_item)) : bool :=
  existsb (fun i => bool_decide (canon q `prefix_of` canon i.1)) items.

Lemma special_absent items v q : (forall p s, (p, ItemSpecial s) ∈ items -> canon p <> canon q) ->
  zv_special (fold_left zv_insert items v) q = if item_below q items then Some (default None (zv_special v q)) else zv_special v q.
Proof.
  induction items as [|[p i] items IH] using rev_ind; intros H; [done|]. rewrite fold_left_app. cbn [fold_left zv_insert zv_special fst snd].
  rewrite IH by (intros p' r' Hin; apply (H p' r'), elem_of_app; by left). unfold item_below. rewrite existsb_app. cbn [existsb fst]. rewrite orb_false_r.
  set (b := existsb _ items). case_bool_decide as E.
  - rewrite orb_true_r. destruct i as [r|s]; [by destruct b|]. rewrite bool_decide_eq_false_2; [by destruct b|]. apply (H p s). apply elem_of_app; right; left.
  - by rewrite orb_false_r.
Qed.

Lemma special_present items v q p s : (p, ItemSpecial s) ∈ items -> canon p = canon q ->
  (forall p' s', (p', ItemSpecial s') ∈ items -> canon p' = canon q -> s' = s) -> zv_special (fold_left zv_insert items v) q = Some (Some s).
Proof.
  intros Hin Hp. induction items as [|[p0 i] items IH] using rev_ind; intros Hu; [by apply elem_of_nil in Hin|].
  rewrite fold_left_app. cbn [fold_left zv_insert zv_special fst snd].
  assert (Hrec : (p, ItemSpecial s) ∈ items -> zv_special (fold_left zv_insert items v) q = Some (Some s)).
  { intros Hin'. apply IH; [done|]. intros p' s' H. apply Hu, elem_of_app. by left. }
  destruct i as [r0|s0].
  - rewrite Hrec; [by case_bool_decide|]. apply elem_of_app in Hin as [Hin|Hin]; [done|]. by apply list_elem_of_singleton in Hin.
  - destruct (decide (canon p0 = canon q)) as [E|E].
    + assert (s0 = s) as -> by (apply (Hu p0); [apply elem_of_app; right; left|done]). rewrite bool_decide_eq_true_2 by (by apply canon_prefix).
      by rewrite bool_decide_eq_true_2 by done.
    + rewrite (bool_decide_eq_false_2 (canon p0 = canon q)) by done.
      rewrite Hrec; [by case_bool_decide|]. apply elem_of_app in Hin as [Hin|Hin]; [done|]. apply list_elem_of_singleton in Hin. simplify_eq.
Qed.

(** ** The zone that records describe *)

Section ZoneOf.
Context (apex : StoredName) (acc : list StoredRecord).

Definition on_path (q : list (list Z)) (name : StoredName) : bool :=
  match path_of apex name with Some p => bool_decide (canon p = canon q) | None => false end.

Definition below_path (q : list (list Z)) (name : StoredName) : bool :=
  match path_of apex name with Some p => bool_decide (canon q `prefix_of` canon p) | None => false end.

(** The records of a kind and a type at a path. *)
Definition at_path (k : rkind) (q : list (list Z)) (rtype : Z) : list StoredRecord :=
  filter (fun r => kind apex r = k /\ on_path q (rr_owner r) = true /\ zone_rtype (rr_data r) = rtype) acc.

(** The addresses of a name server, as far as they are in the zone. *)
Definition glue_at (name : StoredName) : list StoredRecord :=
  concat (map (fun t => match collect (select apex KNormal name t acc) with
                        | Some rrset => map (mkRR name CLASS_IN (rrset_ttl rrset)) (rrset_data rrset)
                        | None => []
                        end) [RTYPE_A; RTYPE_AAAA]).

Definition glue_of (ns : Rrset) : list StoredRecord :=
  concat (map (fun rdata => match rdata with ZoneNs ns => glue_at (nd_name ns) | _ => [] end) (rrset_data ns)).

(** The special function of a path. *)
Definition special_at (q : list (list Z)) (s : Special) : Prop :=
  match s with
  | Cut cut => on_path q (cut_name cut) = true /\ collect (at_path KCut q RTYPE_NS) = Some (cut_ns cut) /\
      cut_ds cut = collect (at_path KCut q RTYPE_DS) /\ cut_glue cut ≡ₚ glue_of (cut_ns cut)
  | Cname cname => shared_rr_from_record <$> head (at_path KCname q RTYPE_CNAME) = Some cname
  | NxDomain => False
  end.

(** The contents of the zone: record sets; the function of names with zone cut or
    alias records; the other names that exist, which are the apex and those with
    records at them or below. *)
Record zone_of (v : zview) : Prop := {
  zo_entry q t : zv_entry v q t = Some <$> collect (at_path KNormal q t);
  zo_special q r : r ∈ acc -> kind apex r = KCut \/ kind apex r = KCname -> on_path q (rr_owner r) = true ->
    exists s, zv_special v q = Some (Some s) /\ special_at q s;
  zo_plain q : (forall r, r ∈ acc -> kind apex r = KCut \/ kind apex r = KCname -> on_path q (rr_owner r) = false) ->
    zv_special v q = if bool_decide (q = []) || existsb (fun r => below_path q (rr_owner r)) acc then Some None else None;
}.

(** What is wrong with the records of a name: they are out of zone, those of a zone cut
    are without name servers, or there is an alias at the apex. *)
Definition flaw (name : StoredName) (e : ContextError) : Prop :=
  match e with
  | ContextOutOfZone rtype => exists r, r ∈ acc /\ kind apex r = KOut /\ name_key_eq (rr_owner r) name = true /\ zone_rtype (rr_data r) = rtype
  | MissingNs => (exists r, r ∈ acc /\ kind apex r = KCut /\ name_key_eq (rr_owner r) name = true) /\
      forall r, r ∈ acc -> kind apex r = KCut -> name_key_eq (rr_owner r) name = true -> zone_rtype (rr_data r) <> RTYPE_NS
  | InvalidCname CnameAtApex => exists r, r ∈ acc /\ kind apex r = KCname /\ name_key_eq (rr_owner r) name = true /\ path_of apex (rr_owner r) = Some []
  | _ => False
  end.

(** What the zone file has to be for a zone: nothing is out of zone, every zone cut
    has name servers, and there is no alias at the apex. *)
Definition sound : Prop :=
  (forall r, r ∈ acc -> kind apex r <> KOut) /\
  (forall r, r ∈ acc -> kind apex r = KCut -> exists ns, ns ∈ acc /\ kind apex ns = KCut /\ name_key_eq (rr_owner ns) (rr_owner r) = true /\ zone_rtype (rr_data ns) = RTYPE_NS) /\
  (forall r, r ∈ acc -> kind apex r = KCname -> path_of apex (rr_owner r) <> Some []).
End ZoneOf.

(** ** Names and paths *)

Section Paths.
Context (apex : StoredName) (als : list (list Z)) (apex_wf : wf_abs apex als).

Definition name_wf (n : StoredName) : Prop := exists ls, wf_abs n ls.

Lemma path_of_same a b p q : name_wf a -> name_wf b -> path_of apex a = Some p -> path_of apex b = Some q -> name_key_eq a b = true <-> canon p = canon q.
Proof using apex_wf.
  intros [ls Ha] [ms Hb]. rewrite (path_of_spec apex a als ls apex_wf Ha), (path_of_spec apex b als ms apex_wf Hb). intros Hp Hq.
  unfold name_key_eq. rewrite (name_eq_spec a b ls ms); eauto using wf_abs_denotes, wf_abs_fuel; [|by apply abs_labels_good, Ha|by apply abs_labels_good, Hb].
  rewrite bool_decide_eq_true. unfold path_below in *. case_bool_decide as E1; [|done]. case_bool_decide as E2; [|done]. simplify_eq.
  rewrite <- canon_rev. destruct E1 as [k1 E1], E2 as [k2 E2]. rewrite <- !skipn_map, E1, E2. rewrite !drop_app_length'; [|by rewrite length_map, length_rev..].
  split; [apply app_inv_head|by intros ->].
Qed.

Lemma path_of_key a b p : name_wf a -> name_wf b -> name_key_eq a b = true -> path_of apex a = Some p -> exists q, path_of apex b = Some q /\ canon p = canon q.
Proof using apex_wf.
  intros Ha Hb Hab Hp. assert (exists q, path_of apex b = Some q) as [q Hq].
  { destruct Ha as [ls Ha], Hb as [ms Hb]. rewrite (path_of_spec apex a als ls apex_wf Ha) in Hp. rewrite (path_of_spec apex b als ms apex_wf Hb).
    apply path_below_suffix. assert (Hs : is_Some (path_below als ls)) by (by exists p). apply path_below_suffix in Hs.
    unfold name_key_eq in Hab. rewrite (name_eq_spec a b ls ms) in Hab; eauto using wf_abs_denotes, wf_abs_fuel; [|by apply abs_labels_good, Ha|by apply abs_labels_good, Hb].
    apply bool_decide_eq_true in Hab. by rewrite <- Hab. }
  exists q. split; [done|]. by apply (path_of_same a b).
Qed.

Lemma on_path_iff q name : on_path apex q name = true <-> exists p, path_of apex name = Some p /\ canon p = canon q.
Proof.
  unfold on_path. destruct (path_of apex name) as [p|]; [rewrite bool_decide_eq_true; split; [by exists p|by intros (? & [= ->] & ?)]|by split; [|intros (? & ? & ?)]].
Qed.

Lemma select_at_path acc k name p q t : Forall (fun r => name_wf (rr_owner r)) acc -> name_wf name -> path_of apex name = Some p -> canon p = canon q ->
  select apex k name t acc = at_path apex acc k q t.
Proof using apex_wf.
  intros Hacc Hn Hp Hq. unfold select, at_path. rewrite Forall_forall in Hacc.
  assert (Hiff : forall r, r ∈ acc -> name_key_eq (rr_owner r) name = true <-> on_path apex q (rr_owner r) = true).
  { intros r Hr. rewrite on_path_iff. split.
    - intros E. destruct (path_of_key name (rr_owner r) p Hn (Hacc r Hr)) as (p' & Hp' & Hc); [by apply eqb_sym|done|]. exists p'. split; [done|congruence].
    - intros (p' & Hp' & Hc). apply (path_of_same (rr_owner r) name p' p); [by apply Hacc|done..|congruence]. }
  clear Hacc. induction acc as [|r acc IH]; [done|]. rewrite !filter_cons. rewrite IH by (intros x Hx; apply Hiff; by right).
  specialize (Hiff r ltac:(left)). destruct (decide _) as [H1|H1], (decide _) as [H2|H2]; [done|exfalso; tauto..|done].
Qed.
End Paths.

Lemma concat_map_nil {A B} (l : list A) : concat (map (fun _ => []) l) = @nil B.
Proof. by induction l. Qed.

Lemma concat_map_single {A B} (f : A -> B) (l : list A) : concat (map (fun x => [f x]) l) = map f l.
Proof. induction l as [|x l IH]; [done|]. cbn. by rewrite IH. Qed.

(** ** Filling the builder *)

Section Building.
Context (order : Normal -> Normal) (order_perm : forall n, order n ≡ₚ n).
Context (apex : StoredName) (als : list (list Z)) (apex_wf : wf_abs apex als).

(** The builder has the contents of the view. *)
Definition builds (zb : ZoneBuilder) (v : zview) : Prop :=
  za_apex_name zb = apex /\ zn_upto version_default (apex_node zb) /\ view_eq (apex_view version_default zb) v.

Lemma op_step zb v op p : builds zb v -> name_wf (zb_op_name op) -> path_of apex (zb_op_name op) = Some p ->
  exists zb', zb_apply zb op = Ret (zb', match op, p with InsertCut _ _ _ _, [] => Err (CutError ZoneCutAtApex) | InsertCname _ _, [] => Err (AliasError CnameAtApex) | _, _ => Ok () end) /\
    builds zb' (match op, p with
      | InsertRrset _ rrset, _ => zv_insert v (p, ItemRrset rrset)
      | InsertCut name ns ds glue, _ :: _ => zv_insert v (p, ItemSpecial (Cut (mkZoneCut name ns ds glue)))
      | InsertCname _ cname, _ :: _ => zv_insert v (p, ItemSpecial (Cname cname))
      | _, [] => v
      end).
Proof using apex_wf.
  intros (Ha & Hu & Hv) [ls Hn] Hp. rewrite (path_of_spec apex _ als ls apex_wf Hn) in Hp.
  destruct (zb_apply_spec zb op als ls) as (zb' & E & Ha' & Hu' & Hv'); [by rewrite Ha|done|done|]. exists zb'. unfold zb_item in *. rewrite Hp in *.
  split; [by destruct op, p|]. split; [congruence|]. split; [done|]. rewrite Hv'. destruct op, p; cbn [view_after]; by rewrite ?Hv.
Qed.

Definition cut_items (normal : Owners Normal) (x : StoredName * ParsedCut) : list (list (list Z) * zone_item) :=
  match pc_ns x.2, path_of apex x.1 with
  | Some ns, Some p => [(p, ItemSpecial (Cut (mkZoneCut x.1 ns (pc_ds x.2) (cut_glue_of order normal ns))))]
  | _, _ => []
  end.
Definition cut_errors (x : StoredName * ParsedCut) : ZoneErrors ContextError := match pc_ns x.2 with None => [(x.1, MissingNs)] | Some _ => [] end.

Definition cname_items (x : StoredName * SharedRr) : list (list (list Z) * zone_item) :=
  match path_of apex x.1 with Some (l :: p) => [(l :: p, ItemSpecial (Cname x.2))] | _ => [] end.
Definition cname_errors (x : StoredName * SharedRr) : ZoneErrors ContextError :=
  match path_of apex x.1 with Some [] => [(x.1, InvalidCname CnameAtApex)] | _ => [] end.

Definition normal_items (x : StoredName * Normal) : list (list (list Z) * zone_item) :=
  match path_of apex x.1 with Some p => map (fun y => (p, ItemRrset y.2)) (order x.2) | None => [] end.

Definition out_errors (x : StoredName * Normal) : ZoneErrors ContextError := map (fun y => (x.1, ContextOutOfZone y.1)) (order x.2).

(** What one round of a loop does. *)
Definition round {A} (f : A -> Building -> outcome Building) (items : A -> list (list (list Z) * zone_item)) (errors : A -> ZoneErrors ContextError) (x : A) : Prop :=
  forall zb v errs, builds zb v -> exists zb', f x (zb, errs) = Ret (zb', errs ++ errors x) /\ builds zb' (fold_left zv_insert (items x) v).

Lemma each_rounds {A} (f : A -> Building -> outcome Building) items errors l zb v errs : Forall (round f items errors) l -> builds zb v ->
  exists zb', each f l (zb, errs) = Ret (zb', errs ++ concat (map errors l)) /\ builds zb' (fold_left zv_insert (concat (map items l)) v).
Proof.
  intros Hl. revert zb v errs. induction Hl as [|x l Hx _ IH]; intros zb v errs Hb; cbn [each map concat].
  - exists zb. by rewrite app_nil_r.
  - destruct (Hx zb v errs Hb) as (zb1 & -> & Hb1). destruct (IH zb1 _ (errs ++ errors x) Hb1) as (zb2 & E & Hb2). exists zb2.
    rewrite app_assoc, fold_left_app. split; [exact E|done].
Qed.

Lemma cut_round normal x p : name_wf x.1 -> path_of apex x.1 = Some p -> p <> [] -> round (build_cut order normal) (cut_items normal) cut_errors x.
Proof using apex_wf.
  intros Hn Hp Hne zb v errs Hb. unfold build_cut, cut_items, cut_errors. rewrite Hp. destruct (pc_ns x.2) as [ns|]; [|by exists zb].
  destruct (op_step zb v (InsertCut x.1 ns (pc_ds x.2) (cut_glue_of order normal ns)) p Hb Hn Hp) as (zb' & E & Hb'). exists zb'.
  destruct p as [|l p]; [done|]. cbn [zb_apply] in E. destruct (zb_insert_zone_cut _ _ _ _ _) as [[zb0 [[]|err]]|]; simplify_eq. by rewrite app_nil_r.
Qed.

Lemma cname_round x p : name_wf x.1 -> path_of apex x.1 = Some p -> round build_cname cname_items cname_errors x.
Proof using apex_wf.
  intros Hn Hp zb v errs Hb. unfold build_cname, cname_items, cname_errors. rewrite Hp.
  destruct (op_step zb v (InsertCname x.1 x.2) p Hb Hn Hp) as (zb' & E & Hb'). exists zb'. cbn [zb_apply] in E.
  destruct (zb_insert_cname _ _ _) as [[zb0 [[]|err]]|]; destruct p as [|l p]; simplify_eq; [by rewrite app_nil_r|done].
Qed.

Lemma normal_round x p : name_wf x.1 -> path_of apex x.1 = Some p -> round (build_normal order) normal_items (fun _ => []) x.
Proof using apex_wf.
  intros Hn Hp zb v errs Hb. unfold build_normal, normal_items. rewrite Hp.
  destruct (each_rounds (build_rrset x.1) (fun y => [(p, ItemRrset y.2)]) (fun _ => []) (order x.2) zb v errs) as (zb' & E & Hb'); [|done|].
  - apply Forall_forall. intros y _ zb0 v0 errs0 Hb0. unfold build_rrset. destruct (op_step zb0 v0 (InsertRrset x.1 y.2) p Hb0 Hn Hp) as (zb' & E & Hb').
    exists zb'. cbn [zb_apply] in E. destruct (zb_insert_rrset _ _ _) as [[zb1 [[]|err]]|]; simplify_eq. by rewrite app_nil_r.
  - exists zb'. unfold ZoneErrors in E. rewrite concat_map_nil in E. rewrite concat_map_single in Hb'. done.
Qed.

Lemma out_round x : round (report_out_of_zone order) (fun _ => []) out_errors x.
Proof.
  intros zb v errs Hb. unfold report_out_of_zone, out_errors. exists zb. split; [|done]. cbn [fst snd]. f_equal. f_equal.
  revert errs. induction (order x.2) as [|y l IH]; intros errs; cbn; [by rewrite app_nil_r|]. rewrite IH. unfold add_error. by rewrite <- app_assoc.
Qed.
End Building.

(** ** The items of a parsed zone file *)

Lemma rtype_is_glue_spec t : rtype_is_glue t = true <-> t ∈ [RTYPE_A; RTYPE_AAAA].
Proof.
  unfold rtype_is_glue. rewrite orb_true_iff, !Z.eqb_eq, !elem_of_cons, elem_of_nil. unfold RTYPE_A, RTYPE_AAAA. tauto.
Qed.

Lemma hm_wf_NoDup {V} (m : hmap Z V) : hm_wf Z.eqb m -> NoDup m.
Proof.
  induction m as [|[k v] m IH]; [constructor|]. intros [Hk Hm]. constructor; [|by apply IH]. intros Hin. apply (hm_entry_get Z.eqb) in Hin; [|done]. congruence.
Qed.

Lemma glue_entries (n : Normal) : hm_wf Z.eqb n ->
  filter (fun x => rtype_is_glue x.1 = true) n ≡ₚ omap (fun t => (fun r => (t, r)) <$> hm_get Z.eqb t n) [RTYPE_A; RTYPE_AAAA].
Proof.
  intros Hn. apply NoDup_Permutation.
  - by apply NoDup_filter, hm_wf_NoDup.
  - cbn. destruct (hm_get Z.eqb RTYPE_A n), (hm_get Z.eqb RTYPE_AAAA n); cbn; [|apply NoDup_singleton..|constructor].
    constructor; [by intros ?%list_elem_of_singleton|apply NoDup_singleton].
  - intros [t r]. rewrite list_elem_of_filter, list_elem_of_omap. cbn [fst]. rewrite rtype_is_glue_spec. split.
    + intros [Ht Hin]. exists t. split; [done|]. by rewrite (hm_entry_get Z.eqb t r n Hn Hin).
    + intros (t' & Ht & E). destruct (hm_get Z.eqb t' n) as [r'|] eqn:Eg; cbn in E; [|done]. injection E as -> ->. split; [done|].
      apply hm_get_entry in Eg as (k & Hin & Hk). by apply Z.eqb_eq in Hk as ->.
Qed.

Lemma concat_map_permut {A B} (f : A -> list B) l l' : l ≡ₚ l' -> concat (map f l) ≡ₚ concat (map f l').
Proof. intros H. rewrite <- !flat_map_concat_map. by apply Permutation_flat_map. Qed.

Section Filled.
Context (order : Normal -> Normal) (order_perm : forall n, order n ≡ₚ n).
Context (apex : StoredName) (als : list (list Z)) (apex_wf : wf_abs apex als).
Context (z : ParsedZonefile) (class : Z) (acc : list StoredRecord) (names : list StoredName).
Context (z_is : pz_is apex z class acc) (z_keys : keys_of z names) (names_wf : Forall name_wf names) (acc_wf : Forall (fun r => name_wf (rr_owner r)) acc).

(** Zone cut records and aliases are not at the same name. *)
Definition consistent : Prop := forall a b, a ∈ acc -> b ∈ acc -> name_key_eq (rr_owner a) (rr_owner b) = true -> kind apex a = KCut -> kind apex b <> KCname.

Context (acc_consistent : consistent).

Lemma collect_glue_spec name : collect_glue order (pz_normal z) name ≡ₚ glue_at apex acc name.
Proof using order_perm z_is.
  destruct z_is as [_ _ (Hw & Hg & Hne) _ _ _]. unfold collect_glue, glue_at. destruct (owners_get (pz_normal z) name) as [n|] eqn:En.
  - destruct (Hne _ _ En) as [_ Hn]. rewrite order_perm, glue_entries by done. cbn. specialize (Hg name). rewrite En in Hg. cbn in Hg. rewrite <- !Hg.
    by destruct (hm_get Z.eqb RTYPE_A n), (hm_get Z.eqb RTYPE_AAAA n).
  - specialize (Hg name). rewrite En in Hg. cbn in Hg. cbn. by rewrite <- !Hg.
Qed.

Lemma cut_glue_spec ns : cut_glue_of order (pz_normal z) ns ≡ₚ glue_of apex acc ns.
Proof using order_perm z_is.
  unfold cut_glue_of, glue_of. induction (rrset_data ns) as [|d ds IH]; [done|]. cbn [map concat]. rewrite IH. apply Permutation_app_tail. destruct d; try done. apply collect_glue_spec.
Qed.

Lemma acc_name r : r ∈ acc -> name_wf (rr_owner r).
Proof using acc_wf. intros Hr. rewrite Forall_forall in acc_wf. by apply acc_wf. Qed.

Lemma key_wf {C} (m : Owners C) k c : (forall k, k ∈ map fst m -> k ∈ names) -> (k, c) ∈ m -> name_wf k.
Proof using names_wf. intros Hm Hin. rewrite Forall_forall in names_wf. apply names_wf, Hm. apply list_elem_of_fmap. by exists (k, c). Qed.

Lemma kind_path r k : kind apex r = k -> k <> KOut -> is_Some (path_of apex (rr_owner r)).
Proof. unfold kind. intros <-. by destruct (path_of apex (rr_owner r)). Qed.

(** A name that records in the zone have is in the zone. *)
Lemma select_path k name t r rs : k <> KOut -> name_wf name -> select apex k name t acc = r :: rs ->
  r ∈ acc /\ kind apex r = k /\ exists p, path_of apex name = Some p /\ on_path apex p (rr_owner r) = true.
Proof using apex_wf acc_wf.
  intros Hk Hn E. assert (Hin : r ∈ select apex k name t acc) by (rewrite E; left). apply list_elem_of_filter in Hin as [(Hr & He & _) Hin].
  split; [done|]. split; [done|]. destruct (kind_path r k Hr Hk) as [p0 Hp0].
  destruct (path_of_key apex als apex_wf (rr_owner r) name p0 (acc_name r Hin) Hn He Hp0) as (p & Hp & Hc). exists p. split; [done|]. apply on_path_iff. by exists p0.
Qed.

Lemma into_iter_elem {C} (m : Owners C) x : x ∈ owners_into_iter m <-> x ∈ m.
Proof. unfold owners_into_iter. by rewrite merge_sort_Permutation. Qed.

Lemma normal_entry k n : (k, n) ∈ pz_normal z -> name_wf k /\ (exists p, path_of apex k = Some p) /\
  forall t rrset, (t, rrset) ∈ n <-> collect (select apex KNormal k t acc) = Some rrset.
Proof using apex_wf acc_wf z_is z_keys names_wf.
  intros Hin. destruct z_is as [_ _ (Hw & Hg & Hne) _ _ _]. pose proof (key_wf (pz_normal z) k n (proj1 z_keys) Hin) as Hk.
  pose proof (hm_entry_get name_key_eq k n _ Hw Hin) as Eg. change (owners_get (pz_normal z) k = Some n) in Eg. destruct (Hne _ _ Eg) as [Hn Hnw].
  assert (Hall : forall t, hm_get Z.eqb t n = collect (select apex KNormal k t acc)) by (intros t; rewrite <- Hg, Eg; done).
  split; [done|]. split.
  - destruct n as [|[t rrset] n]; [done|]. specialize (Hall t). cbn in Hall. rewrite Z.eqb_refl in Hall. destruct (select apex KNormal k t acc) as [|r rs] eqn:Es; [done|].
    destruct (select_path KNormal k t r rs) as (_ & _ & p & Hp & _); [done..|]. by exists p.
  - intros t rrset. rewrite <- Hall. split; [by apply (hm_entry_get Z.eqb)|]. intros (t' & Ht & E)%hm_get_entry. by apply Z.eqb_eq in E as ->.
Qed.

Lemma cut_entry k c : (k, c) ∈ pz_zone_cuts z -> name_wf k /\ (exists l p, path_of apex k = Some (l :: p)) /\ c = cut_or_default apex k acc.
Proof using apex_wf acc_wf z_is z_keys names_wf.
  intros Hin. destruct z_is as [_ _ _ _ [Hw Hg] _]. pose proof (key_wf (pz_zone_cuts z) k c (proj1 (proj2 z_keys)) Hin) as Hk.
  pose proof (hm_entry_get name_key_eq k c _ Hw Hin) as Eg. change (owners_get (pz_zone_cuts z) k = Some c) in Eg. rewrite Hg in Eg.
  split; [done|]. split; [|by rewrite <- (cut_content_default apex), Eg].
  assert (exists t r rs, select apex KCut k t acc = r :: rs) as (t & r & rs & Es).
  { unfold cut_content in Eg. destruct (select apex KCut k RTYPE_NS acc) as [|r rs] eqn:E1; [|by eexists _, _, _].
    destruct (select apex KCut k RTYPE_DS acc) as [|r rs] eqn:E2; [done|by eexists _, _, _]. }
  destruct (select_path KCut k t r rs) as (_ & Hr & p & Hp & Ho); [done..|]. destruct p as [|l p]; [|by exists l, p]. exfalso.
  apply on_path_iff in Ho as (p0 & Hp0 & Hc). destruct p0; [|done]. unfold kind in Hr. rewrite Hp0 in Hr. rewrite bool_decide_eq_true_2, andb_false_r in Hr by done. by destruct (_ =? _).
Qed.

Lemma cname_entry k c : (k, c) ∈ pz_cnames z -> name_wf k /\ (exists p, path_of apex k = Some p) /\ cname_content apex k acc = Some c.
Proof using apex_wf acc_wf z_is z_keys names_wf.
  intros Hin. destruct z_is as [_ _ _ _ _ [Hw Hg]]. pose proof (key_wf (pz_cnames z) k c (proj1 (proj2 (proj2 z_keys))) Hin) as Hk.
  pose proof (hm_entry_get name_key_eq k c _ Hw Hin) as Eg. change (owners_get (pz_cnames z) k = Some c) in Eg. rewrite Hg in Eg. split; [done|]. split; [|done].
  unfold cname_content in Eg. destruct (select apex KCname k RTYPE_CNAME acc) as [|r rs] eqn:Es; [done|].
  destruct (select_path KCname k RTYPE_CNAME r rs) as (_ & _ & p & Hp & _); [done..|]. by exists p.
Qed.
(** *** The items *)

Definition items : list (list (list Z) * zone_item) :=
  concat (map (cut_items order apex (pz_normal z)) (owners_into_iter (pz_zone_cuts z))) ++
  concat (map (cname_items apex) (owners_into_iter (pz_cnames z))) ++ concat (map (normal_items order apex) (owners_into_iter (pz_normal z))).

Lemma in_concat_map {A B} (f : A -> list B) (l : list A) y : y ∈ concat (map f l) <-> exists x, x ∈ l /\ y ∈ f x.
Proof. rewrite <- flat_map_concat_map, list_elem_of_In, in_flat_map. by setoid_rewrite list_elem_of_In. Qed.

Lemma at_path_canon k p q t : canon p = canon q -> at_path apex acc k p t = at_path apex acc k q t.
Proof. intros E. unfold at_path, on_path. apply list_filter_iff. intros r. by rewrite E. Qed.

Lemma at_path_elem k q t r : r ∈ at_path apex acc k q t <-> r ∈ acc /\ kind apex r = k /\ on_path apex q (rr_owner r) = true /\ zone_rtype (rr_data r) = t.
Proof. unfold at_path. rewrite list_elem_of_filter. tauto. Qed.

(** A non-empty selection at a path is that of a name with the path. *)
Lemma at_path_owner k q t r : k <> KOut -> r ∈ at_path apex acc k q t ->
  r ∈ acc /\ kind apex r = k /\ on_path apex q (rr_owner r) = true /\ forall t', select apex k (rr_owner r) t' acc = at_path apex acc k q t'.
Proof using apex_wf acc_wf.
  intros Hk (Hin & Hr & Ho & _)%at_path_elem. split_and!; [done..|]. intros t'. apply on_path_iff in Ho as (p & Hp & Hc).
  apply (select_at_path apex als apex_wf acc k (rr_owner r) p q); [done|by apply acc_name|done|done].
Qed.

Lemma rrset_item p r : (p, ItemRrset r) ∈ items ->
  collect (at_path apex acc KNormal p (rrset_rtype r)) = Some r /\ exists x, x ∈ acc /\ on_path apex p (rr_owner x) = true.
Proof using order_perm apex_wf acc_wf z_is z_keys names_wf.
  unfold items. rewrite !elem_of_app, !in_concat_map. intros [([k c] & _ & H)|[([k c] & _ & H)|([k n] & Hin & H)]].
  - unfold cut_items in H. destruct (pc_ns _); [|by apply elem_of_nil in H]. destruct (path_of _ _); [|by apply elem_of_nil in H]. by apply list_elem_of_singleton in H.
  - unfold cname_items in H. destruct (path_of _ _) as [[|]|]; [by apply elem_of_nil in H| |by apply elem_of_nil in H]. by apply list_elem_of_singleton in H.
  - rewrite into_iter_elem in Hin. destruct (normal_entry k n Hin) as (Hk & [p0 Hp0] & Hn). unfold normal_items in H. cbn [fst snd] in H. rewrite Hp0 in H.
    apply list_elem_of_fmap in H as ([t r0] & E & Ht). injection E as <- <-. rewrite order_perm in Ht. apply Hn in Ht.
    pose proof (select_collect_rtype apex KNormal k t acc r Ht) as Hr. cbn [snd]. rewrite Hr.
    pose proof (select_at_path apex als apex_wf acc KNormal k p p t acc_wf Hk Hp0 eq_refl) as Es. rewrite <- Es. split; [done|].
    destruct (select apex KNormal k t acc) as [|x xs] eqn:E; [done|]. destruct (select_path KNormal k t x xs) as (Hx & _ & p' & Hp' & Ho); [done..|].
    exists x. split; [done|]. by simplify_eq.
Qed.

Lemma rrset_item_conv q t r : collect (at_path apex acc KNormal q t) = Some r -> exists p, canon p = canon q /\ (p, ItemRrset r) ∈ items.
Proof using order_perm apex_wf acc_wf z_is z_keys names_wf.
  intros Hc. assert (exists x, x ∈ at_path apex acc KNormal q t) as [x Hx] by (destruct (at_path apex acc KNormal q t) as [|x xs]; [done|exists x; left]).
  destruct (at_path_owner KNormal q t x) as (Hin & Hk & Ho & Es); [done..|]. rewrite <- (Es t) in Hc.
  pose proof z_is as [_ _ (Hw & Hg & Hne) _ _ _]. rewrite <- Hg in Hc. destruct (owners_get (pz_normal z) (rr_owner x)) as [n|] eqn:En; [|done]. cbn in Hc.
  apply hm_get_entry in En as (k & Hkn & Hkx). apply on_path_iff in Ho as (p0 & Hp0 & Hc0). destruct (normal_entry k n Hkn) as (Hkw & _ & _).
  destruct (path_of_key apex als apex_wf (rr_owner x) k p0) as (p & Hp & Hcp); [by apply acc_name|done|by apply eqb_sym|done|].
  exists p. split; [congruence|]. unfold items. rewrite !elem_of_app. right. right. apply in_concat_map. exists (k, n). rewrite into_iter_elem. split; [done|].
  unfold normal_items. cbn [fst snd]. rewrite Hp. apply hm_get_entry in Hc as (t' & Ht & E). apply Z.eqb_eq in E as ->.
  apply list_elem_of_fmap. exists (t, r). split; [done|]. by rewrite order_perm.
Qed.

(** The kind of the records behind a special function. *)
Definition special_kind (s : Special) : rkind := match s with Cut _ => KCut | _ => KCname end.

Lemma special_item p s : (p, ItemSpecial s) ∈ items ->
  special_at apex acc p s /\ exists x, x ∈ acc /\ kind apex x = special_kind s /\ on_path apex p (rr_owner x) = true.
Proof using order_perm apex_wf acc_wf z_is z_keys names_wf.
  unfold items. rewrite !elem_of_app, !in_concat_map. intros [([k c] & Hin & H)|[([k c] & Hin & H)|([k n] & _ & H)]].
  - rewrite into_iter_elem in Hin. destruct (cut_entry k c Hin) as (Hk & (l & p0 & Hp0) & ->). unfold cut_items in H. cbn [fst snd pc_ns pc_ds cut_or_default] in H. rewrite Hp0 in H.
    destruct (collect (select apex KCut k RTYPE_NS acc)) as [ns|] eqn:Ens; [|by apply elem_of_nil in H]. apply list_elem_of_singleton in H. injection H as -> ->.
    cbn [special_at special_kind cut_name cut_ns cut_ds cut_glue].
    rewrite <- !(select_at_path apex als apex_wf acc KCut k (l :: p0) (l :: p0) _ acc_wf Hk Hp0 eq_refl). split_and!; [|done|done|apply cut_glue_spec|].
    + apply on_path_iff. by exists (l :: p0).
    + destruct (select apex KCut k RTYPE_NS acc) as [|x xs] eqn:E; [done|]. destruct (select_path KCut k RTYPE_NS x xs) as (Hx & Hkx & p' & Hp' & Ho); [done..|].
      exists x. split_and!; [done..|]. by simplify_eq.
  - rewrite into_iter_elem in Hin. destruct (cname_entry k c Hin) as (Hk & [p0 Hp0] & Hc). unfold cname_items in H. cbn [fst snd] in H. rewrite Hp0 in H.
    destruct p0 as [|l p0]; [by apply elem_of_nil in H|]. apply list_elem_of_singleton in H. injection H as -> ->. cbn [special_at special_kind].
    rewrite <- (select_at_path apex als apex_wf acc KCname k (l :: p0) (l :: p0) _ acc_wf Hk Hp0 eq_refl). split; [exact Hc|]. unfold cname_content in Hc.
    destruct (select apex KCname k RTYPE_CNAME acc) as [|x xs] eqn:E; [done|]. destruct (select_path KCname k RTYPE_CNAME x xs) as (Hx & Hkx & p' & Hp' & Ho); [done..|].
    exists x. split_and!; [done..|]. by simplify_eq.
  - unfold normal_items in H. destruct (path_of _ _); [|by apply elem_of_nil in H]. by apply list_elem_of_fmap in H as (y & ? & _).
Qed.

Lemma same_owner a b p q : a ∈ acc -> b ∈ acc -> on_path apex p (rr_owner a) = true -> on_path apex q (rr_owner b) = true -> canon p = canon q ->
  name_key_eq (rr_owner a) (rr_owner b) = true.
Proof using apex_wf acc_wf.
  intros Ha Hb (pa & Ea & Hpa)%on_path_iff (pb & Eb & Hpb)%on_path_iff Hc.
  apply (path_of_same apex als apex_wf (rr_owner a) (rr_owner b) pa pb); [by apply acc_name..|done|done|congruence].
Qed.

(** At a path there is one special function. *)
Lemma special_items_unique p p' s s' : (p, ItemSpecial s) ∈ items -> (p', ItemSpecial s') ∈ items -> canon p = canon p' -> s = s'.
Proof using order_perm apex_wf acc_wf z_is z_keys names_wf acc_consistent.
  intros H H' Hc. destruct (special_item p s H) as (_ & x & Hx & Hkx & Hox). destruct (special_item p' s' H') as (_ & x' & Hx' & Hkx' & Hox').
  assert (Hkey : forall k k', name_wf k -> name_wf k' -> path_of apex k = Some p -> path_of apex k' = Some p' -> name_key_eq k k' = true).
  { intros k k' Hk Hk' Hp Hp'. by apply (path_of_same apex als apex_wf k k' p p'). }
  assert (Hsame : special_kind s = special_kind s').
  { pose proof (same_owner x x' p p' Hx Hx' Hox Hox' Hc) as He. destruct s, s'; cbn in *; try done; exfalso;
      first [exact (acc_consistent x x' Hx Hx' He Hkx Hkx')|exact (acc_consistent x' x Hx' Hx (eqb_sym _ _ He) Hkx' Hkx)]. }
  clear Hx Hkx Hox Hx' Hkx' Hox'. unfold items in H, H'. rewrite !elem_of_app, !in_concat_map in H, H'.
  assert (Hnormal : forall (p : list (list Z)) s, ~ (exists x, x ∈ owners_into_iter (pz_normal z) /\ (p, ItemSpecial s) ∈ normal_items order apex x)).
  { intros p0 s0 ([k n] & _ & Hin). unfold normal_items in Hin. destruct (path_of _ _); [|by apply elem_of_nil in Hin]. by apply list_elem_of_fmap in Hin as (y & ? & _). }
  assert (Hcut : forall p s, (exists x, x ∈ owners_into_iter (pz_zone_cuts z) /\ (p, ItemSpecial s) ∈ cut_items order apex (pz_normal z) x) ->
    exists k c ns, (k, c) ∈ pz_zone_cuts z /\ path_of apex k = Some p /\ pc_ns c = Some ns /\ s = Cut (mkZoneCut k ns (pc_ds c) (cut_glue_of order (pz_normal z) ns))).
  { intros p0 s0 ([k c] & Hin & Hi). rewrite into_iter_elem in Hin. unfold cut_items in Hi. cbn [fst snd] in Hi. destruct (pc_ns c) as [ns|] eqn:En; [|by apply elem_of_nil in Hi].
    destruct (path_of apex k) as [pk|] eqn:Ek; [|by apply elem_of_nil in Hi]. apply list_elem_of_singleton in Hi. simplify_eq. by exists k, c, ns. }
  assert (Hcname : forall p s, (exists x, x ∈ owners_into_iter (pz_cnames z) /\ (p, ItemSpecial s) ∈ cname_items apex x) ->
    exists k c, (k, c) ∈ pz_cnames z /\ path_of apex k = Some p /\ s = Cname c).
  { intros p0 s0 ([k c] & Hin & Hi). rewrite into_iter_elem in Hin. unfold cname_items in Hi. cbn [fst snd] in Hi.
    destruct (path_of apex k) as [[|l pk]|] eqn:Ek; [by apply elem_of_nil in Hi| |by apply elem_of_nil in Hi]. apply list_elem_of_singleton in Hi. simplify_eq. by exists k, c. }
  destruct z_is as [_ _ _ _ [Hwc _] [Hwn _]].
  destruct H as [H|[H|H]]; [| |by apply Hnormal in H]; (destruct H' as [H'|[H'|H']]; [| |by apply Hnormal in H']).
  - apply Hcut in H as (k & c & ns & Hin & Hp & Hns & ->). apply Hcut in H' as (k' & c' & ns' & Hin' & Hp' & Hns' & ->).
    pose proof (hm_wf_unique name_key_eq k k' c c' _ Hwc Hin Hin') as E.
    rewrite Hkey in E; [|by eapply key_wf; [apply (proj1 (proj2 z_keys))|]..|done|done]. specialize (E eq_refl). by simplify_eq.
  - apply Hcut in H as (k & c & ns & Hin & Hp & Hns & ->). by apply Hcname in H' as (k' & c' & Hin' & Hp' & ->).
  - apply Hcut in H' as (k & c & ns & Hin & Hp & Hns & ->). by apply Hcname in H as (k' & c' & Hin' & Hp' & ->).
  - apply Hcname in H as (k & c & Hin & Hp & ->). apply Hcname in H' as (k' & c' & Hin' & Hp' & ->).
    pose proof (hm_wf_unique name_key_eq k k' c c' _ Hwn Hin Hin') as E.
    rewrite Hkey in E; [|by eapply key_wf; [apply (proj1 (proj2 (proj2 z_keys)))|]..|done|done]. specialize (E eq_refl). by simplify_eq.
Qed.

Lemma cut_item_of r : r ∈ acc -> kind apex r = KCut -> exists k c, (k, c) ∈ pz_zone_cuts z /\ name_key_eq k (rr_owner r) = true.
Proof using z_is.
  intros Hr Hk. destruct z_is as [_ _ _ _ [_ Hg] _]. specialize (Hg (rr_owner r)). destruct (cut_content apex (rr_owner r) acc) as [c|] eqn:E.
  - apply hm_get_entry in Hg as (k & Hin & He). by exists k, c.
  - apply (cut_none apex) in E. exfalso. apply (E r Hr). split; [done|apply HashMap.eqb_refl].
Qed.

Lemma cname_item_of r : r ∈ acc -> kind apex r = KCname -> exists k c, (k, c) ∈ pz_cnames z /\ name_key_eq k (rr_owner r) = true.
Proof using z_is.
  intros Hr Hk. destruct z_is as [_ _ _ _ _ [_ Hg]]. specialize (Hg (rr_owner r)). destruct (cname_content apex (rr_owner r) acc) as [c|] eqn:E.
  - apply hm_get_entry in Hg as (k & Hin & He). by exists k, c.
  - apply (cname_none apex) in E. exfalso. apply (E r Hr). split; [done|apply HashMap.eqb_refl].
Qed.

(** Zone cut records and aliases are behind special functions. *)
Lemma special_item_conv q r : sound apex acc -> r ∈ acc -> kind apex r = KCut \/ kind apex r = KCname -> on_path apex q (rr_owner r) = true ->
  exists p s, canon p = canon q /\ (p, ItemSpecial s) ∈ items.
Proof using order_perm apex_wf acc_wf z_is z_keys names_wf.
  intros (_ & Hns & Hca) Hr Hk (p0 & Hp0 & Hc0)%on_path_iff. assert (Hpath : forall k, name_wf k -> name_key_eq k (rr_owner r) = true -> exists p, path_of apex k = Some p /\ canon p = canon q).
  { intros k Hkw He. destruct (path_of_key apex als apex_wf (rr_owner r) k p0) as (p & Hp & Hcp); [by apply acc_name|done|by apply eqb_sym|done|]. exists p. split; [done|congruence]. }
  unfold items. setoid_rewrite elem_of_app. setoid_rewrite elem_of_app. setoid_rewrite in_concat_map. destruct Hk as [Hk|Hk].
  - destruct (cut_item_of r Hr Hk) as (k & c & Hin & He). destruct (cut_entry k c Hin) as (Hkw & _ & ->). destruct (Hpath k Hkw He) as (p & Hp & Hcp).
    destruct (Hns r Hr Hk) as (x & Hx & Hkx & Hex & Htx). destruct (collect (select apex KCut k RTYPE_NS acc)) as [ns|] eqn:Ens.
    + eexists p, _. split; [done|]. left. exists (k, cut_or_default apex k acc). rewrite into_iter_elem. split; [done|].
      unfold cut_items. cbn [fst snd pc_ns cut_or_default]. rewrite Ens, Hp. left.
    + apply select_none in Ens. exfalso. apply (Ens x Hx). split_and!; [done| |done]. eapply eqb_trans; [done|]. by apply eqb_sym.
  - destruct (cname_item_of r Hr Hk) as (k & c & Hin & He). destruct (cname_entry k c Hin) as (Hkw & _ & _). destruct (Hpath k Hkw He) as (p & Hp & Hcp).
    eexists p, _. split; [done|]. right. left. exists (k, c). rewrite into_iter_elem. split; [done|]. unfold cname_items. cbn [fst snd]. rewrite Hp.
    destruct p as [|l p]; [|left]. exfalso. apply (Hca r Hr Hk). rewrite Hp0. f_equal. rewrite <- Hc0 in Hcp. by destruct p0.
Qed.

Lemma item_below_spec q : sound apex acc -> item_below q items = existsb (fun r => below_path apex q (rr_owner r)) acc.
Proof using order_perm apex_wf acc_wf z_is z_keys names_wf.
  intros Hs. apply eq_bool_prop_intro. rewrite !Is_true_true. unfold item_below. rewrite !existsb_exists. setoid_rewrite <- list_elem_of_In. split.
  - intros ([p i] & Hin & Hp). apply bool_decide_eq_true in Hp. cbn [fst] in Hp.
    assert (exists x, x ∈ acc /\ on_path apex p (rr_owner x) = true) as (x & Hx & (px & Hpx & Hc)%on_path_iff).
    { destruct i as [r|s]; [by apply (rrset_item p r)|]. destruct (special_item p s Hin) as (_ & x & ? & _ & ?). by exists x. }
    exists x. split; [done|]. unfold below_path. rewrite Hpx. apply bool_decide_eq_true. by rewrite Hc.
  - intros (x & Hx & Hb). unfold below_path in Hb. destruct (path_of apex (rr_owner x)) as [p|] eqn:Ep; [|done]. apply bool_decide_eq_true in Hb.
    assert (Ho : on_path apex p (rr_owner x) = true) by (apply on_path_iff; by exists p).
    assert (exists p' i, canon p' = canon p /\ (p', i) ∈ items) as (p' & i & Hc & Hin); [|exists (p', i); split; [done|]; apply bool_decide_eq_true; cbn [fst]; by rewrite Hc].
    destruct (kind apex x) eqn:Ek.
    + by destruct (proj1 Hs x Hx).
    + destruct (special_item_conv p x Hs Hx) as (p' & s & ? & ?); [by left|done|by eexists _, _].
    + destruct (special_item_conv p x Hs Hx) as (p' & s & ? & ?); [by right|done|by eexists _, _].
    + destruct (collect (at_path apex acc KNormal p (zone_rtype (rr_data x)))) as [r|] eqn:Er.
      * apply rrset_item_conv in Er as (p' & ? & ?). by eexists _, _.
      * apply collect_none in Er. assert (Hin : x ∈ at_path apex acc KNormal p (zone_rtype (rr_data x))) by (by apply at_path_elem). rewrite Er in Hin. by apply elem_of_nil in Hin.
Qed.

(** The items make the zone that the records describe. *)
Lemma items_zone : sound apex acc -> zone_of apex acc (fold_left zv_insert items zv_empty).
Proof using order_perm apex_wf acc_wf z_is z_keys names_wf acc_consistent.
  intros Hs. split.
  - intros q t. destruct (collect (at_path apex acc KNormal q t)) as [r|] eqn:Er; cbn [fmap option_fmap option_map].
    + destruct (rrset_item_conv q t r Er) as (p & Hc & Hin). pose proof (rrset_item p r Hin) as [Hr _].
      assert (Ht : rrset_rtype r = t) by (eapply collect_rtype; [exact Er|]; apply Forall_forall; by intros x (_ & _ & _ & ?)%at_path_elem).
      eapply entry_present; [done..| |].
      * destruct (at_path apex acc KNormal q t); [done|]. simpl in Er. by injection Er as <-.
      * intros p' r' Hin' Hc' Ht'. pose proof (rrset_item p' r' Hin') as [Hr' _]. rewrite Ht' in Hr'. rewrite (at_path_canon _ _ _ _ Hc'), Er in Hr'. congruence.
    + rewrite entry_absent; [done|]. intros p r Hin Hc Ht. pose proof (rrset_item p r Hin) as [Hr _]. rewrite Ht, (at_path_canon _ _ _ _ Hc) in Hr. congruence.
  - intros q r Hr Hk Ho. destruct (special_item_conv q r Hs Hr Hk Ho) as (p & s & Hc & Hin). exists s. split.
    + eapply special_present; [done|done|]. intros p' s' Hin' Hc'. eapply special_items_unique; [done|done|congruence].
    + destruct (special_item p s Hin) as [Hsp _]. unfold special_at, on_path in *. destruct s; [|by rewrite ?(at_path_canon _ _ _ _ Hc) in Hsp|done]. by rewrite Hc, !(at_path_canon _ _ _ _ Hc) in Hsp.
  - intros q Hq. rewrite special_absent.
    + rewrite item_below_spec by done. destruct q as [|l q]; cbn; by destruct (existsb _ _).
    + intros p s Hin Hc. destruct (special_item p s Hin) as (_ & x & Hx & Hk & (px & Hpx & Hcx)%on_path_iff).
      assert (on_path apex q (rr_owner x) = true) by (apply on_path_iff; exists px; split; [done|congruence]).
      rewrite Hq in *; [done|done|]. destruct s; [by left|by right|by right].
Qed.

Lemma no_flaw_sound : (forall name e, ~ flaw apex acc name e) -> sound apex acc.
Proof.
  intros H. assert (Hrefl : forall r : StoredRecord, name_key_eq (rr_owner r) (rr_owner r) = true) by (intros; apply HashMap.eqb_refl). split_and!.
  - intros r Hr Hk. apply (H (rr_owner r) (ContextOutOfZone (zone_rtype (rr_data r)))). by exists r.
  - intros r Hr Hk. destruct (select apex KCut (rr_owner r) RTYPE_NS acc) as [|x xs] eqn:E.
    + exfalso. apply (H (rr_owner r) MissingNs). split; [by exists r|]. intros x Hx Hkx Hex Htx. apply collect_none, select_none in E. by apply (E x Hx).
    + assert (Hx : x ∈ select apex KCut (rr_owner r) RTYPE_NS acc) by (rewrite E; left). apply list_elem_of_filter in Hx as [(? & ? & ?) ?]. by exists x.
  - intros r Hr Hk Hp. apply (H (rr_owner r) (InvalidCname CnameAtApex)). by exists r.
Qed.

(** *** The errors *)

Definition all_errors : ZoneErrors ContextError :=
  concat (map cut_errors (owners_into_iter (pz_zone_cuts z))) ++ concat (map (cname_errors apex) (owners_into_iter (pz_cnames z))) ++
  concat (map (out_errors order) (owners_into_iter (pz_out_of_zone z))).

Lemma cut_errors_spec name e : (exists k, name_key_eq k name = true /\ (k, e) ∈ concat (map cut_errors (owners_into_iter (pz_zone_cuts z)))) <-> e = MissingNs /\ flaw apex acc name e.
Proof using apex_wf acc_wf z_is z_keys names_wf.
  setoid_rewrite in_concat_map. split.
  - intros (k0 & Hk0 & [k c] & Hin & He). rewrite into_iter_elem in Hin. destruct (cut_entry k c Hin) as (Hkw & _ & Hc). unfold cut_errors in He. cbn [fst snd] in He.
    destruct (pc_ns c) eqn:Ens; [by apply elem_of_nil in He|]. apply list_elem_of_singleton in He. injection He as -> ->. split; [done|].
    rewrite Hc in Ens. cbn in Ens. rewrite (select_same apex _ _ _ _ _ Hk0) in Ens. apply select_none in Ens. split; [|intros r Hr ? ? ?; by apply (Ens r Hr)].
    destruct z_is as [_ _ _ _ [Hw Hg] _]. pose proof (hm_entry_get name_key_eq k c _ Hw Hin) as Eg. change (owners_get (pz_zone_cuts z) k = Some c) in Eg. rewrite Hg, (cut_content_same apex k name acc Hk0) in Eg.
    unfold cut_content in Eg. rewrite (proj2 (select_none apex KCut name RTYPE_NS acc) Ens) in Eg. destruct (select apex KCut name RTYPE_DS acc) as [|x xs] eqn:E; [done|].
    assert (Hx : x ∈ select apex KCut name RTYPE_DS acc) by (rewrite E; left). apply list_elem_of_filter in Hx as [(? & ? & ?) ?]. by exists x.
  - intros [-> [(r & Hr & Hk & Hn) Hno]]. destruct (cut_item_of r Hr Hk) as (k & c & Hin & He). destruct (cut_entry k c Hin) as (Hkw & _ & Hc).
    assert (Hkn : name_key_eq k name = true) by (by eapply eqb_trans). exists k. split; [done|]. exists (k, c). rewrite into_iter_elem. split; [done|].
    unfold cut_errors. cbn [fst snd]. rewrite Hc. cbn [pc_ns cut_or_default]. rewrite (select_same apex _ _ _ _ _ Hkn).
    rewrite (proj2 (select_none apex KCut name RTYPE_NS acc)); [left|]. intros x Hx (? & ? & ?). by apply (Hno x).
Qed.

Lemma cname_errors_spec name e :
  (exists k, name_key_eq k name = true /\ (k, e) ∈ concat (map (cname_errors apex) (owners_into_iter (pz_cnames z)))) <-> e = InvalidCname CnameAtApex /\ flaw apex acc name e.
Proof using apex_wf acc_wf z_is z_keys names_wf.
  setoid_rewrite in_concat_map. split.
  - intros (k0 & Hk0 & [k c] & Hin & He). rewrite into_iter_elem in Hin. destruct (cname_entry k c Hin) as (Hkw & _ & Hc). unfold cname_errors in He. cbn [fst snd] in He.
    destruct (path_of apex k) as [[|]|] eqn:Ep; [|by apply elem_of_nil in He..]. apply list_elem_of_singleton in He. injection He as -> ->. split; [done|].
    unfold cname_content in Hc. destruct (select apex KCname k RTYPE_CNAME acc) as [|x xs] eqn:E; [done|].
    destruct (select_path KCname k RTYPE_CNAME x xs) as (Hx & Hkx & p & Hp & (px & Hpx & Hcx)%on_path_iff); [done..|]. simplify_eq. exists x. split_and!; [done|done| |by destruct px].
    assert (Hin' : x ∈ select apex KCname k RTYPE_CNAME acc) by (rewrite E; left). apply list_elem_of_filter in Hin' as [(_ & ? & _) _]. by eapply eqb_trans.
  - intros [-> (r & Hr & Hk & Hn & Hp)]. destruct (cname_item_of r Hr Hk) as (k & c & Hin & He). destruct (cname_entry k c Hin) as (Hkw & _ & _).
    destruct (path_of_key apex als apex_wf (rr_owner r) k []) as (p & Ep & Hcp); [by apply acc_name|done|by apply eqb_sym|done|].
    exists k. split; [by eapply eqb_trans|]. exists (k, c). rewrite into_iter_elem. split; [done|]. unfold cname_errors. cbn [fst snd]. rewrite Ep. destruct p; [left|done].
Qed.

Lemma out_errors_spec name e :
  (exists k, name_key_eq k name = true /\ (k, e) ∈ concat (map (out_errors order) (owners_into_iter (pz_out_of_zone z)))) <-> (exists t, e = ContextOutOfZone t) /\ flaw apex acc name e.
Proof using order_perm z_is.
  setoid_rewrite in_concat_map. destruct z_is as [_ _ _ (Hw & Hg & Hne) _ _]. split.
  - intros (k0 & Hk0 & [k n] & Hin & He). rewrite into_iter_elem in Hin. apply list_elem_of_fmap in He as ([t rrset] & E & Ht). injection E as -> ->. rewrite order_perm in Ht. cbn [snd] in Ht.
    split; [by exists t|]. pose proof (hm_entry_get name_key_eq k n _ Hw Hin) as Eg. change (owners_get (pz_out_of_zone z) k = Some n) in Eg.
    destruct (Hne _ _ Eg) as [_ Hnw]. specialize (Hg k t). rewrite Eg in Hg. cbn in Hg. rewrite (hm_entry_get Z.eqb t rrset n Hnw Ht) in Hg.
    destruct (select apex KOut k t acc) as [|x xs] eqn:E; [done|]. assert (Hx : x ∈ select apex KOut k t acc) by (rewrite E; left).
    apply list_elem_of_filter in Hx as [(? & ? & ?) ?]. exists x. split_and!; [done|done|by eapply eqb_trans|done].
  - intros [[t ->] (r & Hr & Hk & Hn & Ht)]. specialize (Hg (rr_owner r) t). destruct (collect (select apex KOut (rr_owner r) t acc)) as [rrset|] eqn:E.
    + destruct (owners_get (pz_out_of_zone z) (rr_owner r)) as [n|] eqn:Eg; [|done]. cbn in Hg. apply hm_get_entry in Eg as (k & Hin & He). apply hm_get_entry in Hg as (t' & Hin' & Ht').
      apply Z.eqb_eq in Ht' as ->. exists k. split; [by eapply eqb_trans|]. exists (k, n). rewrite into_iter_elem. split; [done|]. apply list_elem_of_fmap. exists (t, rrset). split; [done|]. by rewrite order_perm.
    + apply select_none in E. exfalso. apply (E r Hr). split_and!; [done|apply HashMap.eqb_refl|done].
Qed.

Lemma all_errors_spec name e : (exists k, name_key_eq k name = true /\ (k, e) ∈ all_errors) <-> flaw apex acc name e.
Proof using order_perm apex_wf acc_wf z_is z_keys names_wf.
  pose proof (cut_errors_spec name e) as H1. pose proof (cname_errors_spec name e) as H2. pose proof (out_errors_spec name e) as H3.
  unfold all_errors. setoid_rewrite elem_of_app. setoid_rewrite elem_of_app. split.
  - intros (k & Hk & [H|[H|H]]); [apply H1|apply H2|apply H3]; by exists k.
  - intros Hf. assert (Hc : (e = MissingNs /\ flaw apex acc name e) \/ (e = InvalidCname CnameAtApex /\ flaw apex acc name e) \/ ((exists t, e = ContextOutOfZone t) /\ flaw apex acc name e)).
    { destruct e as [|err|[]|t]; cbn in Hf; [by left|done|done|by right; left|by right; right; split; [exists t|]]. }
    destruct Hc as [Hc|[Hc|Hc]]; [apply H1 in Hc as (k & ? & ?)|apply H2 in Hc as (k & ? & ?)|apply H3 in Hc as (k & ? & ?)]; exists k; auto.
Qed.

(** The builder gets what the records describe, if nothing is wrong with them. *)
Lemma zb_try_from_spec : exists r, zb_try_from order z = Ret r /\
  match r with
  | Ok zb => (forall name e, ~ flaw apex acc name e) /\ exists v, zone_of apex acc v /\ builds apex zb v
  | Err errors => errors <> [] /\ forall name e, (exists k, name_key_eq k name = true /\ (k, e) ∈ errors) <-> flaw apex acc name e
  end.
Proof using order_perm apex_wf acc_wf z_is z_keys names_wf acc_consistent.
  unfold zb_try_from. rewrite (is_origin _ _ _ _ z_is), (is_class _ _ _ _ z_is). cbn [opt_unwrap].
  assert (H0 : builds apex (zb_new apex class) zv_empty).
  { split; [done|]. split; [|split; [by intros []|by intros [] t]]. intros p c. unfold content_at. cbn. destruct p; [|done]. intros [= <-]. split; [done|]. by intros t d. }
  assert (Hr1 : Forall (round apex (build_cut order (pz_normal z)) (cut_items order apex (pz_normal z)) cut_errors) (owners_into_iter (pz_zone_cuts z))).
  { apply Forall_forall. intros [k c] Hin. rewrite into_iter_elem in Hin. destruct (cut_entry k c Hin) as (Hk & (l & p & Hp) & _). by eapply cut_round. }
  assert (Hr2 : Forall (round apex build_cname (cname_items apex) (cname_errors apex)) (owners_into_iter (pz_cnames z))).
  { apply Forall_forall. intros [k c] Hin. rewrite into_iter_elem in Hin. destruct (cname_entry k c Hin) as (Hk & (p & Hp) & _). by eapply cname_round. }
  assert (Hr3 : Forall (round apex (build_normal order) (normal_items order apex) (fun _ => [])) (owners_into_iter (pz_normal z))).
  { apply Forall_forall. intros [k n] Hin. rewrite into_iter_elem in Hin. destruct (normal_entry k n Hin) as (Hk & (p & Hp) & _). by eapply normal_round. }
  assert (Hr4 : Forall (round apex (report_out_of_zone order) (fun _ => []) (out_errors order)) (owners_into_iter (pz_out_of_zone z))).
  { apply Forall_forall. intros x _. apply out_round. }
  set (es1 := concat (map cut_errors (owners_into_iter (pz_zone_cuts z)))). set (es2 := concat (map (cname_errors apex) (owners_into_iter (pz_cnames z)))).
  destruct (each_rounds _ _ _ _ _ _ _ [] Hr1 H0) as (zb1 & E1 & H1). unfold Building, ZoneErrors in *. rewrite E1. fold es1.
  destruct (each_rounds _ _ _ _ _ _ _ es1 Hr2 H1) as (zb2 & E2 & H2). unfold Building, ZoneErrors in *. rewrite app_nil_l, E2. fold es2.
  destruct (each_rounds _ _ _ _ _ _ _ (es1 ++ es2) Hr3 H2) as (zb3 & E3 & H3). unfold Building, ZoneErrors in *. rewrite E3, concat_map_nil, app_nil_r.
  destruct (each_rounds _ _ _ _ _ _ _ (es1 ++ es2) Hr4 H3) as (zb4 & E4 & H4). unfold Building, ZoneErrors in *. rewrite E4. clear E1 E2 E3 E4.
  cbn [fst snd]. rewrite concat_map_nil in H4. cbn [fold_left] in H4. rewrite <- !fold_left_app in H4. rewrite <- app_assoc.
  change (es1 ++ es2 ++ _) with all_errors. eexists; split; [done|].
  destruct all_errors as [|e es] eqn:E; cbn [errors_unwrap].
  - assert (Hno : forall name e, ~ flaw apex acc name e).
    { intros name e (k & _ & Hin)%all_errors_spec. rewrite E in Hin. by apply elem_of_nil in Hin. }
    split; [done|]. eexists. split; [apply items_zone, no_flaw_sound, Hno|]. exact H4.
  - split; [done|]. intros name e'. rewrite <- E. apply all_errors_spec.
Qed.
End Filled.

(** ** The records that are taken *)

Lemma accept_elem apex class records acc r : r ∈ fold_left (accept apex class) records acc -> r ∈ acc \/ r ∈ records.
Proof.
  revert acc. induction records as [|x records IH]; intros acc; cbn [fold_left]; [by left|]. intros [H|H]%IH; [|by right; right]. unfold accept in H.
  destruct (admits _ _ _ _); [|by left]. apply elem_of_app in H as [H|H]; [by left|]. apply list_elem_of_singleton in H as ->. right; left.
Qed.

Lemma conflict_sym apex a b : conflict apex a b = conflict apex b a.
Proof. unfold conflict. by destruct (kind apex a), (kind apex b). Qed.

Lemma accept_consistent apex class records acc : consistent apex acc -> consistent apex (fold_left (accept apex class) records acc).
Proof.
  revert acc. induction records as [|x records IH]; intros acc Hacc; cbn [fold_left]; [done|]. apply IH. unfold accept. destruct (admits apex class acc x) eqn:Ea; [|done].
  unfold admits in Ea. apply andb_prop in Ea as [_ Ea]. rewrite forallb_forall in Ea. setoid_rewrite <- list_elem_of_In in Ea.
  intros a b Ha Hb He Hka Hkb. apply elem_of_app in Ha as [Ha|Ha]; apply elem_of_app in Hb as [Hb|Hb].
  - by apply (Hacc a b Ha Hb He Hka).
  - apply list_elem_of_singleton in Hb as ->. specialize (Ea a Ha). apply negb_true_iff, andb_false_iff in Ea as [Ea|Ea]; [exact (eq_true_false_abs _ He Ea)|]. unfold conflict in Ea. by rewrite Hka, Hkb in Ea.
  - apply list_elem_of_singleton in Ha as ->. specialize (Ea b Hb). apply eqb_sym in He. apply negb_true_iff, andb_false_iff in Ea as [Ea|Ea]; [exact (eq_true_false_abs _ He Ea)|]. unfold conflict in Ea. by rewrite Hka, Hkb in Ea.
  - apply list_elem_of_singleton in Ha as ->. apply list_elem_of_singleton in Hb as ->. congruence.
Qed.


(** ** Example *)

(** The zone [a.] with a delegation of [b.a.] to a name server of the same name, its
    address, and an alias that cannot be there. *)
Definition ex_records : list StoredRecord :=
  [mkRR ex_ba CLASS_IN 300 (ZoneNs (mkNameData ex_ba)); mkRR ex_ba CLASS_IN 200 (ZoneA (mkA [192; 0; 2; 1])); mkRR ex_ba CLASS_IN 300 (ZoneCname (mkNameData ex_a))].

Definition ex_sets (n : Normal) : Normal := n.

Definition ex_zone : outcome (result ZoneBuilder (ZoneErrors ContextError)) :=
  match pz_run ex_sets (pz_new ex_a CLASS_IN) ex_records with Ret (z, _) => zb_try_from ex_sets z | Panic => Panic end.

