(* ===== verification/ZoneWrite.v ===== *)
(** * Changing in-memory zones ([src/src/zonetree/in_memory/write.rs])

    A writer makes a new version of a zone while readers go on with the versions
    they have; committing makes the new version the current one, dropping the
    writer takes the changes back.  A node under change is known by its path, which
    stays its path since nodes are never taken out.  Differences can be recorded
    along the way. *)

From S2P Require Import Prelude Octets Serial Symbol Label Traits Name NameBuilder Header Compressor MessageBuilder Message Record Ttl Layout Rdata Txt ZoneData HashMap ZoneSet Versioned ZoneStore ZoneBuilder.
From stdpp Require Import list.
#[local] Open Scope Z_scope.

(** ** Equality of stored data *)

(** The derived [PartialEq] of [Rrset]; equality of vectors. *)
Fixpoint data_eq (a b : list StoredRecordData) : outcome bool :=
  match a, b with
  | [], [] => Ret true
  | x :: a, y :: b => let! e := zone_eq x y in if e : bool then data_eq a b else Ret false
  | _, _ => Ret false
  end.

Definition rrset_eq (a b : Rrset) : outcome bool :=
  if (rrset_rtype a =? rrset_rtype b) && (rrset_ttl a =? rrset_ttl b) && (length (rrset_data a) =? length (rrset_data b))%nat
  then data_eq (rrset_data a) (rrset_data b) else Ret false.

(** The derived [PartialEq] of [SharedRr]. *)
Definition shared_rr_eq (a b : SharedRr) : outcome bool :=
  if srr_ttl a =? srr_ttl b then zone_eq (srr_data a) (srr_data b) else Ret false.

(** [contains] of a slice. *)
Fixpoint data_contains (l : list StoredRecordData) (x : StoredRecordData) : outcome bool :=
  match l with
  | [] => Ret false
  | y :: l => let! e := zone_eq y x in if e : bool then Ret true else data_contains l x
  end.

(** Those of [l] that [m] does not contain, pushed to a record set. *)
Fixpoint push_missing (m l : list StoredRecordData) (r : Rrset) : outcome Rrset :=
  match l with
  | [] => Ret r
  | x :: l =>
      let! c := data_contains m x in
      let! r := if c : bool then Ret r else rrset_push_data r x in
      push_missing m l r
  end.

(** ** Differences ([types.rs]) *)

(** Names are equal as keys if they are equal as names. *)
Definition diff_key_eq (a b : StoredName * Z) : bool :=
  match name_eq a.1 b.1 with Ret e => e && (a.2 =? b.2) | Panic => false end.

Definition DiffMap : Type := hmap (StoredName * Z) SharedRrset.

Record InMemoryZoneDiffBuilder := mkDiffBuilder { db_added : DiffMap; db_removed : DiffMap }.

Definition db_new : InMemoryZoneDiffBuilder := mkDiffBuilder [] [].
Definition db_add (d : InMemoryZoneDiffBuilder) (owner : StoredName) (rtype : Z) (rrset : SharedRrset) : InMemoryZoneDiffBuilder :=
  mkDiffBuilder (hm_insert diff_key_eq (owner, rtype) rrset (db_added d)) (db_removed d).
Definition db_remove (d : InMemoryZoneDiffBuilder) (owner : StoredName) (rtype : Z) (rrset : SharedRrset) : InMemoryZoneDiffBuilder :=
  mkDiffBuilder (db_added d) (hm_insert diff_key_eq (owner, rtype) rrset (db_removed d)).

Inductive ZoneDiffError := MissingStartSoa | MissingEndSoa | InvalidSerialRange.

Record InMemoryZoneDiff := mkDiff { diff_start : Serial; diff_end : Serial; diff_added : DiffMap; diff_removed : DiffMap }.

(** [find_map] over the entries. *)
Fixpoint find_soa_serial (m : DiffMap) : option Serial :=
  match m with
  | [] => None
  | ((_, rtype), rrset) :: m =>
      if rtype =? RTYPE_SOA then
        match rrset_data rrset with ZoneSoa soa :: _ => Some (soa_serial soa) | _ => find_soa_serial m end
      else find_soa_serial m
  end.

Section Writing.
(** The order in which a map of differences is iterated over, and whether arithmetic
    is checked for overflow. *)
Context (diff_order : DiffMap -> DiffMap) (oc : bool).

Definition diff_new (added removed : DiffMap) : result InMemoryZoneDiff ZoneDiffError :=
  match find_soa_serial (diff_order removed) with
  | None => Err MissingStartSoa
  | Some start_serial =>
      match find_soa_serial (diff_order added) with
      | None => Err MissingEndSoa
      | Some end_serial =>
          if bool_decide (start_serial = end_serial) || bool_decide (serial_partial_cmp end_serial start_serial = Some Lt)
          then Err InvalidSerialRange else Ok (mkDiff start_serial end_serial added removed)
      end
  end.

Definition db_build (d : InMemoryZoneDiffBuilder) : result InMemoryZoneDiff ZoneDiffError := diff_new (db_added d) (db_removed d).

(** ** Published versions *)

(** A marker is counted by the references to it; here it is a number. *)
Definition VersionMarker : Type := nat.

Record ZoneVersions := mkZoneVersions { zvs_current : Version * VersionMarker; zvs_all : list (Version * VersionMarker); zvs_fresh : VersionMarker }.

Definition zvs_default : ZoneVersions := mkZoneVersions (version_default, 0%nat) [(version_default, 0%nat)] 1%nat.

Definition update_current (s : ZoneVersions) (version : Version) : VersionMarker * ZoneVersions :=
  (zvs_fresh s, mkZoneVersions (version, zvs_fresh s) (zvs_all s) (S (zvs_fresh s))).

Definition push_version (s : ZoneVersions) (version : Version) (marker : VersionMarker) : ZoneVersions :=
  mkZoneVersions (zvs_current s) (zvs_all s ++ [(version, marker)]) (zvs_fresh s).

(** [clean_versions]: [alive] says which markers are still referred to. *)
Fixpoint clean_loop (alive : VersionMarker -> bool) (max_version : option Version) (all : list (Version * VersionMarker))
    : option Version * list (Version * VersionMarker) :=
  match all with
  | [] => (max_version, [])
  | item :: all =>
      if alive item.2 then let (m, all) := clean_loop alive max_version all in (m, item :: all)
      else
        let max_version := match max_version with
          | Some old => if bool_decide (serial_partial_cmp item.1 old = Some Gt) then Some item.1 else Some old
          | None => Some item.1
          end in
        clean_loop alive max_version all
  end.

Definition clean_versions (alive : VersionMarker -> bool) (s : ZoneVersions) : option Version * ZoneVersions :=
  let (m, all) := clean_loop alive None (zvs_all s) in (m, mkZoneVersions (zvs_current s) all (zvs_fresh s)).

(** ** The writer *)

(** [WriteZone], with the zone and the published versions it shares with the readers
    and the diff builders it shares with its nodes. *)
Record WriteZone := mkWriteZone {
  wz_apex : ZoneApex; wz_versions : ZoneVersions; wz_new_version : Version;
  wz_builders : list InMemoryZoneDiffBuilder; wz_diff : option nat; wz_dirty : bool }.

(** [ZoneApex::write]; the lock makes it the only writer. *)
Definition za_write (apex : ZoneApex) (versions : ZoneVersions) : outcome WriteZone :=
  let! version := version_next (zvs_current versions).1 in
  Ret (mkWriteZone apex versions version [] None false).

Definition wz_set_apex (z : WriteZone) (apex : ZoneApex) : WriteZone :=
  mkWriteZone apex (wz_versions z) (wz_new_version z) (wz_builders z) (wz_diff z) (wz_dirty z).
Definition wz_set_builders (z : WriteZone) (b : list InMemoryZoneDiffBuilder) : WriteZone :=
  mkWriteZone (wz_apex z) (wz_versions z) (wz_new_version z) b (wz_diff z) (wz_dirty z).

Definition last_published_version (z : WriteZone) : Version := (zvs_current (wz_versions z)).1.

(** [WriteNode]: the new version as it was when the zone was opened, the path, and
    the owner name with the builder, if differences are recorded. *)
Record WriteNode := mkWriteNode { wn_version : Version; wn_path : list (list Z); wn_diff : option (StoredName * nat) }.

(** [open], with [WriteNode::new_apex]. *)
Definition wz_open (z : WriteZone) (create_diff : bool) : WriteZone * WriteNode :=
  let id := length (wz_builders z) in
  if create_diff then
    (mkWriteZone (wz_apex z) (wz_versions z) (wz_new_version z) (wz_builders z ++ [db_new]) (Some id) true,
     mkWriteNode (wz_new_version z) [] (Some (za_apex_name (wz_apex z), id)))
  else
    (mkWriteZone (wz_apex z) (wz_versions z) (wz_new_version z) (wz_builders z) None true, mkWriteNode (wz_new_version z) [] None).

(** The zone with [f] done to a node. *)
Definition za_at (a : ZoneApex) (p : list (list Z)) (f : ZoneNode -> ZoneNode) : ZoneApex :=
  let n := zn_at f (apex_node a) p in mkZoneApex (za_apex_name a) (za_class a) (zn_rrsets n) (zn_children n).

Definition wz_at (z : WriteZone) (p : list (list Z)) (f : ZoneNode -> ZoneNode) : WriteZone := wz_set_apex z (za_at (wz_apex z) p f).

(** The node of a path. *)
Definition wz_node (z : WriteZone) (p : list (list Z)) : ZoneNode := default zn_default (node_at (apex_node (wz_apex z)) p).

(** Something recorded in a builder. *)
Definition record_diff (z : WriteZone) (id : nat) (f : InMemoryZoneDiffBuilder -> InMemoryZoneDiffBuilder) : WriteZone :=
  wz_set_builders z (alter f id (wz_builders z)).

Definition check_nx_domain (z : WriteZone) (n : WriteNode) : WriteZone :=
  match wn_path n with
  | [] => z
  | p =>
      let node := wz_node z p in
      let opt_new_nxdomain := match zn_with_special node (wn_version n) with
        | Some NxDomain => if negb (nrs_is_empty (zn_rrsets node) (wn_version n)) then Some false else None
        | None => if nrs_is_empty (zn_rrsets node) (wn_version n) then Some true else None
        | _ => None
        end in
      match opt_new_nxdomain with
      | Some true => wz_at z p (fun node => zn_update_special node (wn_version n) (Some NxDomain))
      | Some false => wz_at z p (fun node => zn_update_special node (wn_version n) None)
      | None => z
      end
  end.

Definition make_regular (z : WriteZone) (n : WriteNode) : WriteZone :=
  match wn_path n with
  | [] => z
  | p => check_nx_domain (wz_at z p (fun node => zn_update_special node (wn_version n) None)) n
  end.

(** The name of a child; both results are unwrapped. *)
Definition child_owner (label : list Z) (owner : StoredName) : outcome StoredName :=
  let! (builder, r) := nb_append_label (B:=list Z) oc label nb_new in
  match r with
  | Err _ => Panic
  | Ok _ => let! r := nb_append_origin oc owner builder in match r with Ok n => Ret n | Err _ => Panic end
  end.

Definition update_child (z : WriteZone) (n : WriteNode) (label : list Z) : outcome (WriteZone * WriteNode) :=
  let p := wn_path n ++ [label] in
  let created := match nc_with (zn_children (wz_node z (wn_path n))) label with Some _ => false | None => true end in
  let z := wz_at z p (fun node => node) in
  let! diff := match wn_diff n with
    | Some (owner, diff) => let! new_owner := child_owner label owner in Ret (Some (new_owner, diff))
    | None => Ret None
    end in
  let node := mkWriteNode (wn_version n) p diff in
  Ret (if created : bool then make_regular z node else z, node).

(** The record set that the change is compared with. *)
Definition current_rrset (rrsets : NodeRrsets) (published : Version) (new_rrset : SharedRrset) : outcome (option SharedRrset) :=
  match nrs_get rrsets (rrset_rtype new_rrset) published with
  | Some current_rrset =>
      let! e := rrset_eq new_rrset current_rrset in
      Ret (if negb e && negb (rrset_is_empty current_rrset) then Some current_rrset else None)
  | None => Ret None
  end.

Definition diff_update (z : WriteZone) (rrsets : NodeRrsets) (new_rrset : SharedRrset) (owner : StoredName) (diff : nat) : outcome WriteZone :=
  let rtype := rrset_rtype new_rrset in
  let! current := current_rrset rrsets (last_published_version z) new_rrset in
  match current, negb (rrset_is_empty new_rrset) with
  | Some current, true =>
      let! removed_rrs := push_missing (rrset_data new_rrset) (rrset_data current) (rrset_new rtype (rrset_ttl new_rrset)) in
      let z := if rrset_is_empty removed_rrs then z else record_diff z diff (fun d => db_remove d owner rtype removed_rrs) in
      let! added_rrs := push_missing (rrset_data current) (rrset_data new_rrset) (rrset_new rtype (rrset_ttl new_rrset)) in
      Ret (if rrset_is_empty added_rrs then z else record_diff z diff (fun d => db_add d owner rtype added_rrs))
  | Some current, false => Ret (record_diff z diff (fun d => db_remove d owner rtype current))
  | None, true => Ret (record_diff z diff (fun d => db_add d owner rtype new_rrset))
  | None, false => Ret z
  end.

Definition update_rrset (z : WriteZone) (n : WriteNode) (new_rrset : SharedRrset) : outcome WriteZone :=
  let rrsets := zn_rrsets (wz_node z (wn_path n)) in
  let! z := match wn_diff n with Some (owner, diff) => diff_update z rrsets new_rrset owner diff | None => Ret z end in
  let z := wz_at z (wn_path n) (fun node => zn_set_rrsets node (nrs_update (zn_rrsets node) new_rrset (wn_version n))) in
  Ret (check_nx_domain z n).

Definition get_rrset (z : WriteZone) (n : WriteNode) (rtype : Z) : option SharedRrset :=
  nrs_get (zn_rrsets (wz_node z (wn_path n))) rtype (wn_version n).

Definition remove_rrset (z : WriteZone) (n : WriteNode) (rtype : Z) : WriteZone :=
  let rrsets := zn_rrsets (wz_node z (wn_path n)) in
  let z := match wn_diff n with
    | Some (owner, diff) =>
        match nrs_get rrsets rtype (last_published_version z) with
        | Some removed => record_diff z diff (fun d => db_remove d owner rtype removed)
        | None => z
        end
    | None => z
    end in
  let z := wz_at z (wn_path n) (fun node => zn_set_rrsets node (nrs_remove_rtype (zn_rrsets node) rtype (wn_version n))) in
  check_nx_domain z n.

Inductive WriteApexError := NotAllowed.

Definition make_zone_cut (z : WriteZone) (n : WriteNode) (cut : ZoneCut) : WriteZone * result unit WriteApexError :=
  match wn_path n with
  | [] => (z, Err NotAllowed)
  | p => (wz_at z p (fun node => zn_update_special node (wn_version n) (Some (Cut cut))), Ok ())
  end.

Definition make_cname (z : WriteZone) (n : WriteNode) (cname : SharedRr) : WriteZone * result unit WriteApexError :=
  match wn_path n with
  | [] => (z, Err NotAllowed)
  | p => (wz_at z p (fun node => zn_update_special node (wn_version n) (Some (Cname cname))), Ok ())
  end.

Definition remove_all (z : WriteZone) (n : WriteNode) : WriteZone :=
  match wn_path n with
  | [] => wz_set_apex z (za_remove_all (wz_apex z) (wn_version n))
  | p => wz_at z p (zn_remove_all (wn_version n))
  end.

(** ** Committing *)

Definition soa_rrset (ttl : Z) (data : StoredRecordData) : outcome Rrset := rrset_push_data (rrset_new RTYPE_SOA ttl) data.

(** [bump_soa_serial]; another kind of record is [unreachable!()]. *)
Definition bump_soa_serial (z : WriteZone) (old_soa_rr : SharedRr) : outcome WriteZone :=
  match srr_data old_soa_rr with
  | ZoneSoa old_soa =>
      let! new_soa_serial := serial_add (soa_serial old_soa) 1 in
      let new_soa_data := mkSoa (soa_mname old_soa) (soa_rname old_soa) new_soa_serial (soa_refresh old_soa) (soa_retry old_soa)
        (soa_expire old_soa) (soa_minimum old_soa) in
      let! new_soa_rrset := soa_rrset (srr_ttl old_soa_rr) (ZoneSoa new_soa_data) in
      Ret (wz_at z [] (fun node => zn_set_rrsets node (nrs_update (zn_rrsets node) new_soa_rrset (wz_new_version z))))
  | _ => Panic
  end.

(** [add_soa_remove_diff_entry] and [add_soa_add_diff_entry]. *)
Definition add_soa_diff_entry (f : InMemoryZoneDiffBuilder -> StoredName -> Z -> SharedRrset -> InMemoryZoneDiffBuilder)
    (apex_name : StoredName) (soa_rr : option SharedRr) (diff : InMemoryZoneDiffBuilder) : outcome (InMemoryZoneDiffBuilder * option Serial) :=
  match soa_rr with
  | Some soa_rr =>
      match srr_data soa_rr with
      | ZoneSoa soa => let! rrset := soa_rrset (srr_ttl soa_rr) (srr_data soa_rr) in Ret (f diff apex_name RTYPE_SOA rrset, Some (soa_serial soa))
      | _ => Panic
      end
  | None => Ret (diff, None)
  end.

Definition publish_new_zone_version (z : WriteZone) : outcome WriteZone :=
  let (marker, s) := update_current (wz_versions z) (wz_new_version z) in
  let s := push_version s (wz_new_version z) marker in
  let! next := version_next (wz_new_version z) in
  Ret (mkWriteZone (wz_apex z) s next (wz_builders z) (wz_diff z) false).

(** [new_soa_rr.is_none() || new_soa_rr == old_soa_rr]. *)
Definition soa_unchanged (new_soa_rr : option SharedRr) (old_soa_rr : SharedRr) : outcome bool :=
  match new_soa_rr with None => Ret true | Some new_soa_rr => shared_rr_eq new_soa_rr old_soa_rr end.

(** [commit]; [nodes] is the number of nodes with the diff that are still there:
    unwrapping the reference to the diff panics then. *)
Definition wz_commit (z : WriteZone) (bump : bool) (nodes : nat) : outcome (WriteZone * option InMemoryZoneDiff) :=
  let old_soa_rr := za_get_soa (wz_apex z) (last_published_version z) in
  let! z := match old_soa_rr with
    | Some old =>
        if bump then
          let! unchanged := soa_unchanged (za_get_soa (wz_apex z) (wz_new_version z)) old in
          if unchanged : bool then bump_soa_serial z old else Ret z
        else Ret z
    | None => Ret z
    end in
  let new_soa_rr := za_get_soa (wz_apex z) (wz_new_version z) in
  let diff := wz_diff z in
  let z := mkWriteZone (wz_apex z) (wz_versions z) (wz_new_version z) (wz_builders z) None (wz_dirty z) in
  let! out_diff := match diff, new_soa_rr with
    | Some id, Some new =>
        match nodes, wz_builders z !! id with
        | O, Some diff =>
            let! (diff, old_serial) := add_soa_diff_entry db_remove (za_apex_name (wz_apex z)) old_soa_rr diff in
            let! (diff, new_serial) := add_soa_diff_entry db_add (za_apex_name (wz_apex z)) (Some new) diff in
            Ret (match old_serial, new_serial with
                 | Some _, Some _ => match db_build diff with Ok d => Some d | Err _ => None end
                 | _, _ => None
                 end)
        | _, _ => Panic
        end
    | _, _ => Ret None
    end in
  let! z := publish_new_zone_version z in
  Ret (z, out_diff).

(** Dropping the writer. *)
Definition wz_drop (z : WriteZone) : ZoneApex * ZoneVersions :=
  (if wz_dirty z then za_rollback (wz_apex z) (wz_new_version z) else wz_apex z, wz_versions z).
End Writing.

(** ** The contents of a changed tree *)

Lemma content_at_canon n p q : canon p = canon q -> content_at n p = content_at n q.
Proof.
  unfold content_at. revert n q; induction p as [|l p IH]; intros n [|m q] E; try done. injection E as E1 E2. cbn [node_at]. unfold nc_with.
  rewrite (hm_get_same label_eq l m) by (by apply label_eq_spec). destruct (hm_get label_eq m (zn_children n)); [by apply IH|done].
Qed.

Lemma content_at_take n p k c : content_at n p = Some c -> is_Some (content_at n (take k p)).
Proof.
  unfold content_at. revert n k; induction p as [|l p IH]; intros n [|k]; cbn; try done. destruct (nc_with (zn_children n) l); [apply IH|done].
Qed.

Lemma content_at_prefix n p q : canon q `prefix_of` canon p -> is_Some (content_at n p) -> is_Some (content_at n q).
Proof.
  intros [r Hr] [c Hc]. destruct (content_at_take n p (length q) c Hc) as [c' Hc']. exists c'. rewrite <- Hc'. apply content_at_canon.
  rewrite <- firstn_map. rewrite Hr, take_app_length'; [done|]. by rewrite length_map.
Qed.

(** A change at a node that is there changes nothing else. *)
Lemma content_at_alter_there f n p q : here_only f -> is_Some (content_at n p) ->
  content_at (zn_at f n p) q = if bool_decide (canon p = canon q) then (fun m => zn_content (f m)) <$> node_at n q else content_at n q.
Proof.
  intros Hf Hp. rewrite content_at_alter by done. case_bool_decide as E.
  - assert (Hq : is_Some (content_at n q)) by (eapply content_at_prefix; [|done]; by apply canon_prefix).
    unfold content_at in Hq. by destruct (node_at n q); [|destruct Hq].
  - case_bool_decide as E'; [|done]. pose proof (content_at_prefix n p q E' Hp) as Hq. unfold content_at in *. by destruct (node_at n q); [|destruct Hq].
Qed.

Lemma hm_get_map {V W} (f : V -> W) (m : hmap Z V) t : hm_get Z.eqb t (map (fun x => (x.1, f x.2)) m) = f <$> hm_get Z.eqb t m.
Proof. induction m as [|[k v] m IH]; [done|]. cbn. by destruct (k =? t). Qed.

Lemma hm_wf_map {V W} (f : V -> W) (m : hmap Z V) : hm_wf Z.eqb m -> hm_wf Z.eqb (map (fun x => (x.1, f x.2)) m).
Proof.
  induction m as [|[t d] m IH]; [done|]. intros [Ht Hm]. cbn [map hm_wf fst snd]. split; [|by apply IH]. by rewrite hm_get_map, Ht.
Qed.

Lemma nc_with_map (g : ZoneNode -> ZoneNode) (m : NodeChildren) l : nc_with (map (fun x => (x.1, g x.2)) m) l = g <$> nc_with m l.
Proof. unfold nc_with. induction m as [|[k v] m IH]; [done|]. cbn [map hm_get fst snd]. by destruct (label_eq k l). Qed.

(** Changes of a whole subtree. *)
Definition content_remove_all (v : Version) (c : NodeRrsets * Versioned (option Special)) := (nrs_remove_all c.1 v, vremove c.2 v).
Definition content_rollback (v : Version) (c : NodeRrsets * Versioned (option Special)) := (nrs_rollback c.1 v, vrollback c.2 v).

Lemma content_at_remove_all v n q : content_at (zn_remove_all v n) q = content_remove_all v <$> content_at n q.
Proof.
  unfold content_at. revert n; induction q as [|l q IH]; intros [r s c]; [done|]. cbn [node_at zn_remove_all zn_children].
  rewrite (nc_with_map (zn_remove_all v)). destruct (nc_with c l); [apply IH|done].
Qed.

Lemma content_at_rollback v n q : content_at (zn_rollback v n) q = content_rollback v <$> content_at n q.
Proof.
  unfold content_at. revert n; induction q as [|l q IH]; intros [r s c]; [done|]. cbn [node_at zn_rollback zn_children].
  rewrite (nc_with_map (zn_rollback v)). destruct (nc_with c l); [apply IH|done].
Qed.

Lemma content_at_subtree v n p q : is_Some (content_at n p) ->
  content_at (zn_at (zn_remove_all v) n p) q =
  if bool_decide (canon p `prefix_of` canon q) then content_remove_all v <$> content_at n q else content_at n q.
Proof.
  revert n q; induction p as [|l p IH]; intros n q Hp; cbn [zn_at].
  - rewrite bool_decide_eq_true_2 by apply prefix_nil. apply content_at_remove_all.
  - destruct q as [|m q].
    + rewrite bool_decide_eq_false_2; [done|]. by intros ?%prefix_nil_inv.
    + unfold content_at in *. cbn [node_at] in *. cbn [zn_children zn_set_children nc_with_or_default snd]. unfold nc_with in *. rewrite (hm_get_alter label_eq).
      destruct (hm_get label_eq l (zn_children n)) as [c|] eqn:Ec; [|by destruct Hp]. specialize (IH c q Hp). destruct (label_eq l m) eqn:E.
      * rewrite <- (hm_get_same label_eq l m _ E), Ec, IH. apply label_eq_spec in E.
        rewrite (bool_decide_ext (canon (l :: p) `prefix_of` canon (m :: q)) (canon p `prefix_of` canon q)); [done|].
        cbn [map]. rewrite E. split; [by intros ?%prefix_cons_inv_2|by apply prefix_cons].
      * rewrite bool_decide_eq_false_2; [done|]. cbn [map]. intros H%prefix_cons_inv_1.
        assert (label_eq l m = true) by (by apply label_eq_spec). congruence.
Qed.

(** ** Making a version *)

Section Transaction.
(** Versions are in the window that starts at [base]; [v] is being made. *)
Context (base v : Version) (v_in : in_window base v).

(** Everything in a zone is older than [v]. *)
Definition versions_before {T} (d : Versioned T) : Prop := vwf base d /\ before base v d.

Definition content_before (c : NodeRrsets * Versioned (option Special)) : Prop :=
  hm_wf Z.eqb c.1 /\ (forall t d, hm_get Z.eqb t c.1 = Some d -> versions_before d) /\ versions_before c.2.

Definition zone_before (n : ZoneNode) : Prop := forall p c, content_at n p = Some c -> content_before c.

(** What became of the contents of a node. *)
Definition content_evolves (c0 c : NodeRrsets * Versioned (option Special)) : Prop :=
  hm_wf Z.eqb c.1 /\
  (forall t, is_Some (hm_get Z.eqb t c0.1) -> is_Some (hm_get Z.eqb t c.1)) /\
  (forall t d, hm_get Z.eqb t c.1 = Some d -> exists o, pending (default [] (hm_get Z.eqb t c0.1)) v d o) /\
  (exists o, pending c0.2 v c.2 o).

Definition start_content (n0 : ZoneNode) (p : list (list Z)) : NodeRrsets * Versioned (option Special) := default ([], []) (content_at n0 p).

(** What became of the zone: no node is gone. *)
Definition evolves (n0 n : ZoneNode) : Prop :=
  (forall p, is_Some (content_at n0 p) -> is_Some (content_at n p)) /\
  (forall p c, content_at n p = Some c -> content_evolves (start_content n0 p) c).

Lemma nil_before {T} : versions_before (T:=T) [].
Proof. split; [split; constructor|constructor]. Qed.

Lemma pending_refl {T} (d : Versioned T) : exists o, pending d v d o.
Proof. exists (vget d v). by left. Qed.

Lemma start_before n0 p : zone_before n0 -> content_before (start_content n0 p).
Proof.
  intros H0. unfold start_content. destruct (content_at n0 p) as [c|] eqn:E; [by eapply H0|]. split_and!; [done|by intros t d|apply nil_before].
Qed.

Lemma evolves_refl n0 : zone_before n0 -> evolves n0 n0.
Proof.
  intros H0. split; [done|]. intros p c Hc. destruct (H0 p c Hc) as (Hw & _ & _). unfold start_content. rewrite Hc. simpl.
  split_and!; [done|done|intros t d ->; apply pending_refl|apply pending_refl].
Qed.

Lemma evolves_default n0 n p : zone_before n0 -> evolves n0 n -> content_evolves (start_content n0 p) (zn_content (default zn_default (node_at n p))).
Proof.
  intros H0 [Hm He]. unfold content_at in *. destruct (node_at n p) as [m|] eqn:E; [apply He; by rewrite E|].
  assert (Hs : start_content n0 p = ([], [])).
  { unfold start_content, content_at. destruct (node_at n0 p) eqn:E0; [|done]. destruct (Hm p) as [c Hc]; [by rewrite E0|]. by rewrite E in Hc. }
  rewrite Hs. split_and!; [done|by intros t []|by intros t d|apply pending_refl].
Qed.

(** A change at a node keeps this if it does so for the node's contents. *)
Lemma evolves_at f n0 n p : zone_before n0 -> here_only f ->
  (forall c0 m, content_before c0 -> content_evolves c0 (zn_content m) -> content_evolves c0 (zn_content (f m))) ->
  evolves n0 n -> evolves n0 (zn_at f n p).
Proof.
  intros H0 Hh Hf He. split.
  - intros q Hq. apply (proj1 He) in Hq. rewrite content_at_alter by done. case_bool_decide; [done|]. by case_bool_decide.
  - intros q c. rewrite content_at_alter by done. pose proof (evolves_default n0 n q H0 He) as Hd.
    case_bool_decide; [|case_bool_decide; [|by apply He]]; intros [= <-]; [|done]. apply Hf; [by apply start_before|done].
Qed.

Lemma entry_before c0 t : content_before c0 -> versions_before (default [] (hm_get Z.eqb t c0.1)).
Proof. intros (_ & Hb & _). destruct (hm_get Z.eqb t c0.1) eqn:E; [by eapply Hb|apply nil_before]. Qed.

Lemma pending_op {T} (d d' : Versioned T) o op : versions_before d -> pending d v d' o -> exists o', pending d v (vapply v d' op) o'.
Proof using v_in. intros [Hw Hb] Hp. eexists. by eapply pending_apply. Qed.

(** A change of the entry for one type. *)
Lemma content_evolves_alter c0 m op t : content_before c0 -> content_evolves c0 (zn_content m) ->
  content_evolves c0 (zn_content (zn_set_rrsets m (hm_alter Z.eqb vnew (fun d => vapply v d op) t (zn_rrsets m)))).
Proof using v_in.
  intros H0 (Hw & Hk & He & Hs). split_and!; [by apply (hm_alter_wf Z.eqb)| | |done]; cbn [zn_content zn_set_rrsets zn_rrsets fst] in *.
  - intros t' Ht. rewrite (hm_get_alter Z.eqb). destruct (t =? t'); [done|by apply Hk].
  - intros t' d. rewrite (hm_get_alter Z.eqb). destruct (Z.eqb_spec t t') as [<-|]; [|by apply He]. intros [= <-].
    destruct (hm_get Z.eqb t (zn_rrsets m)) as [d|] eqn:E.
    + destruct (He t d E) as [o Ho]. by eapply pending_op; [apply entry_before|].
    + assert (Hn : hm_get Z.eqb t c0.1 = None) by (destruct (hm_get Z.eqb t c0.1) eqn:E0; [|done]; destruct (Hk t) as [? ?]; [by rewrite E0|congruence]).
      rewrite Hn. cbn [default]. apply (pending_op [] [] None); [apply nil_before|by left].
Qed.

Lemma put_rrset_evolves rrset c0 m : content_before c0 -> content_evolves c0 (zn_content m) -> content_evolves c0 (zn_content (put_rrset v rrset m)).
Proof using v_in.
  intros H0 He. unfold put_rrset, nrs_update, nrs_remove_rtype. destruct (rrset_is_empty rrset).
  - by apply (content_evolves_alter c0 m VRemove).
  - by apply (content_evolves_alter c0 m (VUpdate rrset)).
Qed.

Lemma put_special_evolves s c0 m : content_before c0 -> content_evolves c0 (zn_content m) -> content_evolves c0 (zn_content (put_special v s m)).
Proof using v_in.
  intros (_ & _ & H0) (Hw & Hk & He & [o Hs]). split_and!; [done..|]. cbn. by apply (pending_op _ _ o (VUpdate s)).
Qed.

Lemma remove_all_evolves c0 c : content_before c0 -> content_evolves c0 c -> content_evolves c0 (content_remove_all v c).
Proof using v_in.
  intros H0 (Hw & Hk & He & [o Hs]). unfold content_remove_all, nrs_remove_all. split_and!; cbn [fst snd].
  - by apply (hm_wf_map (fun d => vremove d v)).
  - intros t Ht. apply Hk in Ht as [d Hd]. rewrite (hm_get_map (fun d => vremove d v)), Hd. done.
  - intros t d. rewrite (hm_get_map (fun d => vremove d v)). destruct (hm_get Z.eqb t c.1) as [d'|] eqn:E; [|done]. intros [= <-]. destruct (He t d' E) as [o' Ho'].
    by apply (pending_op _ _ o' VRemove); [apply entry_before|].
  - destruct H0 as (_ & _ & H0). by apply (pending_op _ _ o VRemove).
Qed.

(** What readers of earlier versions get: nodes they knew are as they were, and a
    new node has nothing in it. *)
Definition quiet (v0 v1 : zview) : Prop :=
  (forall p, match zv_special v0 p with
             | Some s => zv_special v1 p = Some s
             | None => zv_special v1 p = None \/ zv_special v1 p = Some None
             end) /\
  (forall p t, mjoin (zv_entry v1 p t) = mjoin (zv_entry v0 p t)).

Lemma mjoin_vget (o : option (Versioned SharedRrset)) w : mjoin ((fun d => vget d w) <$> o) = vget (default [] o) w.
Proof. by destruct o. Qed.

Lemma start_special n0 p w : default None (zv_special (node_view w n0) p) = content_special w (start_content n0 p).
Proof. rewrite node_view_special. unfold start_content. by destruct (content_at n0 p). Qed.

Lemma start_entry n0 p t w : mjoin (zv_entry (node_view w n0) p t) = vget (default [] (hm_get Z.eqb t (start_content n0 p).1)) w.
Proof. rewrite node_view_entry. unfold start_content. destruct (content_at n0 p) as [c|]; [|done]. apply mjoin_vget. Qed.

(** A tree is quiet if its contents have the same values. *)
Lemma quiet_intro n0 n w :
  (forall p, is_Some (content_at n0 p) -> is_Some (content_at n p)) ->
  (forall p c, content_at n p = Some c ->
     content_special w c = content_special w (start_content n0 p) /\
     forall t, vget (default [] (hm_get Z.eqb t c.1)) w = vget (default [] (hm_get Z.eqb t (start_content n0 p).1)) w) ->
  quiet (node_view w n0) (node_view w n).
Proof.
  intros Hm Hc. split.
  - intros p. specialize (Hm p). specialize (Hc p). pose proof (start_special n0 p w) as Hs. rewrite !node_view_special in *. unfold start_content in *.
    destruct (content_at n0 p) as [c0|]; [destruct (content_at n p) as [c|]; [|by destruct Hm]|destruct (content_at n p) as [c|]; [|by left]].
    + simpl. f_equal. by apply Hc.
    + right. simpl. f_equal. destruct (Hc _ eq_refl) as [-> _]. done.
  - intros p t. rewrite !start_entry. specialize (Hc p). specialize (Hm p). unfold start_content at 1. destruct (content_at n p) as [c|] eqn:E.
    + by apply (Hc c eq_refl).
    + unfold start_content. destruct (content_at n0 p) as [c0|]; [by destruct Hm|done].
Qed.

Lemma evolves_entry n0 n p c t : zone_before n0 -> evolves n0 n -> content_at n p = Some c ->
  exists o, pending (default [] (hm_get Z.eqb t (start_content n0 p).1)) v (default [] (hm_get Z.eqb t c.1)) o.
Proof.
  intros H0 He Hc. destruct (proj2 He p c Hc) as (_ & Hk & Hp & _). destruct (hm_get Z.eqb t c.1) as [d|] eqn:E; [by apply Hp|].
  destruct (hm_get Z.eqb t (start_content n0 p).1) eqn:E0; [destruct (Hk t) as [? ?]; [by rewrite E0|congruence]|]. apply pending_refl.
Qed.

Lemma evolves_old n0 n w : zone_before n0 -> evolves n0 n -> in_window base w -> age base w < age base v -> quiet (node_view w n0) (node_view w n).
Proof using v_in.
  intros H0 He Hw Hlt. assert (Hg : forall T (d d' : Versioned T) o, versions_before d -> pending d v d' o -> vget d' w = vget d w).
  { intros T d d' o [Hd Hb] Hp. rewrite (pending_get base d v d' o w) by done. by destruct (Z.ltb_spec (age base w) (age base v)); [|lia]. }
  apply quiet_intro; [apply He|]. intros p c Hc. pose proof (start_before n0 p H0) as Hs. split.
  - destruct (proj2 He p c Hc) as (_ & _ & _ & o & Ho). unfold content_special. destruct Hs as (_ & _ & Hs). by rewrite (Hg _ _ _ _ Hs Ho).
  - intros t. destruct (evolves_entry n0 n p c t H0 He Hc) as [o Ho]. by apply (Hg _ _ _ o); [apply entry_before|].
Qed.

(** Rolling back takes all of it back. *)
Lemma evolves_rollback n0 n w : zone_before n0 -> evolves n0 n -> quiet (node_view w n0) (node_view w (zn_rollback v n)).
Proof.
  intros H0 He. apply quiet_intro.
  - intros p Hp. rewrite content_at_rollback. apply He in Hp as [c ->]. done.
  - intros p c. rewrite content_at_rollback. destruct (content_at n p) as [c'|] eqn:Hc; [|done]. intros [= <-].
    pose proof (start_before n0 p H0) as Hs. split.
    + destruct (proj2 He p c' Hc) as (_ & _ & _ & o & Ho). destruct Hs as (_ & _ & _ & Hb). unfold content_special, content_rollback. cbn [snd].
      by rewrite (pending_rollback base _ _ _ _ Hb Ho).
    + intros t. destruct (evolves_entry n0 n p c' t H0 He Hc) as [o Ho]. destruct (entry_before _ t Hs) as [_ Hb].
      rewrite <- (pending_rollback base _ _ _ _ Hb Ho). unfold content_rollback, nrs_rollback. cbn [fst]. rewrite (hm_get_map (fun d => vrollback d v)).
      by destruct (hm_get Z.eqb t c'.1).
Qed.

Lemma pending_upto {T} (d d' : Versioned T) o : versions_before d -> pending d v d' o -> upto v d'.
Proof using v_in.
  intros [Hd Hb] Hp. destruct (pending_wf base d v d' o Hd Hb v_in Hp) as [[Hin _] Hle]. intros v' o' Hl.
  apply last_Some in Hl as (d1 & ->). apply Forall_app in Hin as [_ [Hv' _]%Forall_cons]. apply Forall_app in Hle as [_ [Hle _]%Forall_cons].
  cbn in *. rewrite (version_le_age base) by done. by apply Z.leb_le.
Qed.

Lemma evolves_upto n0 n : zone_before n0 -> evolves n0 n -> zn_upto v n.
Proof using v_in.
  intros H0 He p c Hc. destruct (proj2 He p c Hc) as (Hw & _ & Hp & _). split; [done|]. intros t d Hd. destruct (Hp t d Hd) as [o Ho].
  by eapply pending_upto; [apply entry_before, start_before|].
Qed.
End Transaction.

(** The next version starts from what the last one made. *)
Lemma evolves_next base v v' n0 n : in_window base v -> age base v < age base v' -> zone_before base v n0 -> evolves v n0 n -> zone_before base v' n.
Proof.
  intros Hv Hlt H0 He p c Hc. assert (Hg : forall T (d d' : Versioned T) o, versions_before base v d -> pending d v d' o -> versions_before base v' d').
  { intros T d d' o [Hd Hb] Hp. destruct (pending_wf base d v d' o Hd Hb Hv Hp) as [Hw Hle]. split; [done|]. eapply Forall_impl; [exact Hle|]. cbn. lia. }
  destruct (proj2 He p c Hc) as (Hw & _ & Hp & [o Ho]). pose proof (start_before base v n0 p H0) as Hs. split_and!; [done| |by destruct Hs as (_ & _ & ?); eapply Hg].
  intros t d Hd. destruct (Hp t d Hd) as [o' Ho']. by eapply Hg; [apply entry_before|].
Qed.

(** ** What the calls do to the version being made *)

Definition zv_put_special (v : zview) (p : list (list Z)) (s : option Special) : zview :=
  mkView (fun q => if bool_decide (canon p = canon q) then Some s else zv_special v q) (zv_entry v).

Definition zv_put_entry (v : zview) (p : list (list Z)) (t : Z) (o : option SharedRrset) : zview :=
  mkView (zv_special v) (fun q u => if bool_decide (canon p = canon q /\ t = u) then Some o else zv_entry v q u).

Definition zv_remove_all (v : zview) (p : list (list Z)) : zview :=
  mkView (fun q => if bool_decide (canon p `prefix_of` canon q) then (fun _ => None) <$> zv_special v q else zv_special v q)
    (fun q t => if bool_decide (canon p `prefix_of` canon q) then (fun _ => None) <$> zv_entry v q t else zv_entry v q t).

Definition has_data (v : zview) (p : list (list Z)) : Prop := exists t rrset, zv_entry v p t = Some (Some rrset).

(** The check whether a node is to be marked as not existing. *)
Inductive nx_checked (v : zview) (p : list (list Z)) (v' : zview) : Prop :=
  | nx_apex : p = [] -> view_eq v' v -> nx_checked v p v'
  | nx_clear : p <> [] -> zv_special v p = Some (Some NxDomain) -> has_data v p -> view_eq v' (zv_put_special v p None) -> nx_checked v p v'
  | nx_set : p <> [] -> zv_special v p = Some None -> ~ has_data v p -> view_eq v' (zv_put_special v p (Some NxDomain)) -> nx_checked v p v'
  | nx_keep s : p <> [] -> zv_special v p = Some s -> (s = Some NxDomain -> ~ has_data v p) -> (s = None -> has_data v p) ->
      view_eq v' v -> nx_checked v p v'.

(** The calls to a node. *)
Inductive wcall :=
  | WChild (label : list Z) | WUpdate (rrset : SharedRrset) | WRemove (rtype : Z) | WRegular
  | WCut (cut : ZoneCut) | WCname (cname : SharedRr) | WRemoveAll.

(** Nothing changes at a path. *)
Definition same_at (v v' : zview) (q : list (list Z)) : Prop :=
  zv_special v' q = zv_special v q /\ forall t, zv_entry v' q t = zv_entry v q t.

(** A node gets a special function; its record sets are to be lost, whether they
    are is left open. *)
Definition becomes (v : zview) (p : list (list Z)) (s : Special) (v' : zview) : Prop :=
  forall q, if bool_decide (canon p = canon q) then zv_special v' q = Some (Some s) else same_at v v' q.

(** Nothing at and below a path has records, refers elsewhere or is an alias; whether
    the names exist is left open. *)
Definition removes (v : zview) (p : list (list Z)) (v' : zview) : Prop :=
  forall q, if bool_decide (canon p `prefix_of` canon q)
    then ~ has_data v' q /\ match zv_special v' q with Some (Some (Cut _)) | Some (Some (Cname _)) => False | _ => True end
    else same_at v v' q.

(** A call to the node at a path. *)
Inductive wview_step (v : zview) (p : list (list Z)) (v' : zview) : wcall -> Prop :=
  | ws_child_there label : zv_special v (p ++ [label]) <> None -> view_eq v' v -> wview_step v p v' (WChild label)
  | ws_child_new label : zv_special v (p ++ [label]) = None -> view_eq v' (zv_put_special v (p ++ [label]) (Some NxDomain)) ->
      wview_step v p v' (WChild label)
  | ws_update rrset : nx_checked (zv_put_entry v p (rrset_rtype rrset) (if rrset_is_empty rrset then None else Some rrset)) p v' ->
      wview_step v p v' (WUpdate rrset)
  | ws_remove t : nx_checked (zv_put_entry v p t None) p v' -> wview_step v p v' (WRemove t)
  | ws_regular : p <> [] -> nx_checked (zv_put_special v p None) p v' -> wview_step v p v' WRegular
  | ws_cut cut : p <> [] -> becomes v p (Cut cut) v' -> wview_step v p v' (WCut cut)
  | ws_cname cname : p <> [] -> becomes v p (Cname cname) v' -> wview_step v p v' (WCname cname)
  | ws_apex call : p = [] -> match call with WRegular | WCut _ | WCname _ => True | _ => False end -> view_eq v' v -> wview_step v p v' call
  | ws_remove_all : removes v p v' -> wview_step v p v' WRemoveAll.

Lemma put_special_becomes v p s v' : view_eq v' (zv_put_special v p (Some s)) -> becomes v p s v'.
Proof.
  intros [Hs He] q. case_bool_decide as Hq; [by rewrite Hs; cbn; rewrite bool_decide_eq_true_2|].
  split; [by rewrite Hs; cbn; rewrite bool_decide_eq_false_2|done].
Qed.

Lemma remove_all_removes v p v' : view_eq v' (zv_remove_all v p) -> removes v p v'.
Proof.
  intros [Hs He] q. case_bool_decide as Hq.
  - split.
    + intros (t & rrset & E). rewrite He in E. cbn in E. rewrite bool_decide_eq_true_2 in E by done. by destruct (zv_entry v q t).
    + rewrite Hs. cbn. rewrite bool_decide_eq_true_2 by done. by destruct (zv_special v q).
  - split; [by rewrite Hs; cbn; rewrite bool_decide_eq_false_2|]. intros t. by rewrite He; cbn; rewrite bool_decide_eq_false_2.
Qed.

(** A sequence of calls, to nodes that were asked for before; the first node is the
    apex. *)
Inductive wtrace : list (list (list Z)) -> zview -> list (nat * wcall) -> zview -> Prop :=
  | wt_nil ps v v' : view_eq v' v -> wtrace ps v [] v'
  | wt_call ps h p call v v1 calls v' : ps !! h = Some p -> wview_step v p v1 call ->
      wtrace (ps ++ match call with WChild label => [p ++ [label]] | _ => [] end) v1 calls v' ->
      wtrace ps v ((h, call) :: calls) v'
  | wt_none ps h call v calls v' : ps !! h = None -> wtrace ps v calls v' -> wtrace ps v ((h, call) :: calls) v'.

Section Calls.
Context (oc : bool).

Definition wz_call (z : WriteZone) (n : WriteNode) (call : wcall) : outcome (WriteZone * list WriteNode) :=
  match call with
  | WChild label => let! (z, n) := update_child oc z n label in Ret (z, [n])
  | WUpdate rrset => let! z := update_rrset z n rrset in Ret (z, [])
  | WRemove rtype => Ret (remove_rrset z n rtype, [])
  | WRegular => Ret (make_regular z n, [])
  | WCut cut => let (z, _) := make_zone_cut z n cut in Ret (z, [])
  | WCname cname => let (z, _) := make_cname z n cname in Ret (z, [])
  | WRemoveAll => Ret (remove_all z n, [])
  end.

Fixpoint wz_run (z : WriteZone) (nodes : list WriteNode) (calls : list (nat * wcall)) : outcome (WriteZone * list WriteNode) :=
  match calls with
  | [] => Ret (z, nodes)
  | (h, call) :: calls =>
      match nodes !! h with
      | Some n => let! (z, new) := wz_call z n call in wz_run z (nodes ++ new) calls
      | None => wz_run z nodes calls
      end
  end.
End Calls.

(** ** The calls do what they are to do *)

Section CallSpecs.
Context (base v : Version) (v_in : in_window base v) (n0 : ZoneNode) (n0_before : zone_before base v n0).

Lemma put_special_there s n p : is_Some (content_at n p) ->
  view_eq (node_view v (zn_at (put_special v s) n p)) (zv_put_special (node_view v n) p s).
Proof.
  intros Hp. split.
  - intros q. rewrite node_view_special, content_at_alter_there by (done || apply put_special_here). cbn [zv_put_special zv_special].
    case_bool_decide as E; [|by rewrite node_view_special]. assert (Hq : is_Some (content_at n q)) by (eapply content_at_prefix; [|done]; by apply canon_prefix).
    unfold content_at in Hq. destruct (node_at n q); [|by destruct Hq]. simpl. unfold content_special. simpl. by rewrite vget_update.
  - intros q t. rewrite node_view_entry, content_at_alter_there by (done || apply put_special_here). cbn [zv_put_special zv_entry].
    case_bool_decide as E; [|by rewrite node_view_entry]. rewrite node_view_entry. unfold content_at. by destruct (node_at n q).
Qed.

Lemma put_rrset_there rrset n p : zn_upto v n -> is_Some (content_at n p) ->
  view_eq (node_view v (zn_at (put_rrset v rrset) n p))
    (zv_put_entry (node_view v n) p (rrset_rtype rrset) (if rrset_is_empty rrset then None else Some rrset)).
Proof.
  intros Hu Hp. destruct (put_rrset_view v rrset n p Hu) as [Hv _]. rewrite Hv. split; [|done]. intros q. cbn [zv_insert zv_put_entry zv_special fst snd].
  case_bool_decide as E; [|done]. pose proof (content_at_prefix n p q E Hp) as [c Hc]. by rewrite node_view_special, Hc.
Qed.

Lemma forallb_false_elem {A} (f : A -> bool) l : forallb f l = false <-> exists x, x ∈ l /\ f x = false.
Proof.
  induction l as [|x l IH]; cbn; [by split; [|intros (x & ?%elem_of_nil & _)]|]. rewrite andb_false_iff, IH. split.
  - intros [E|(y & Hy & E)]; [exists x; split; [left|done]|exists y; split; [by right|done]].
  - intros (y & [->|Hy]%elem_of_cons & E); [by left|right; by exists y].
Qed.

Lemma hm_get_in {V} (m : hmap Z V) t d : hm_get Z.eqb t m = Some d -> (t, d) ∈ m.
Proof.
  induction m as [|[k e] m IH]; [done|]. cbn. destruct (Z.eqb_spec k t) as [->|]; [intros [= ->]; left|intros H; right; by apply IH].
Qed.

Lemma has_data_empty n p m : zn_upto v n -> node_at n p = Some m -> nrs_is_empty (zn_rrsets m) v = false <-> has_data (node_view v n) p.
Proof.
  intros Hu Hm. assert (Hw : hm_wf Z.eqb (zn_rrsets m)) by (apply (Hu p (zn_content m)); unfold content_at; by rewrite Hm).
  unfold nrs_is_empty, has_data. rewrite forallb_false_elem. setoid_rewrite node_view_entry. unfold content_at. rewrite Hm. split.
  - intros ([t d] & Hin & E). cbn [snd] in E. destruct (vget d v) as [rrset|] eqn:Ed; [|done]. exists t, rrset. simpl.
    rewrite (hm_get_elem _ t d Hw Hin). simpl. by rewrite Ed.
  - intros (t & rrset & E). simpl in E. destruct (hm_get Z.eqb t (zn_rrsets m)) as [d|] eqn:Ed; [|done]. simpl in E. injection E as E.
    exists (t, d). cbn [snd]. rewrite E. split; [|done]. by apply hm_get_in.
Qed.

Definition tree (z : WriteZone) : ZoneNode := apex_node (wz_apex z).
Definition new_view (z : WriteZone) : zview := node_view v (tree z).

(** A node in use: made for this version, without a diff, and there. *)
Definition handle (z : WriteZone) (n : WriteNode) : Prop := wn_version n = v /\ wn_diff n = None /\ is_Some (content_at (tree z) (wn_path n)).

(** A writer after another: the zone has changed as it may, and no node is gone. *)
Definition follows (z z' : WriteZone) : Prop :=
  evolves v n0 (tree z') /\ (forall q, is_Some (content_at (tree z) q) -> is_Some (content_at (tree z') q)) /\
  (za_apex_name (wz_apex z'), wz_versions z', wz_new_version z', wz_builders z', wz_diff z', wz_dirty z') =
  (za_apex_name (wz_apex z), wz_versions z, wz_new_version z, wz_builders z, wz_diff z, wz_dirty z).

Lemma follows_trans z z1 z2 : follows z z1 -> follows z1 z2 -> follows z z2.
Proof. intros (_ & H1 & E1) (H2 & H3 & E2). split_and!; [done|by auto|congruence]. Qed.

Lemma follows_refl z : evolves v n0 (tree z) -> follows z z.
Proof. done. Qed.

Lemma tree_at z p f : p <> [] \/ (forall n, zn_special (f n) = zn_special n) -> tree (wz_at z p f) = zn_at f (tree z) p.
Proof.
  intros Hp. unfold tree, wz_at, za_at, apex_node. cbn. destruct p as [|l p]; [|done]. destruct Hp as [|Hf]; [done|]. cbn [zn_at].
  specialize (Hf (mkZoneNode (za_rrsets (wz_apex z)) vnew (za_children (wz_apex z)))). cbn in Hf. destruct (f _) as [r s c]. cbn in *. by subst.
Qed.

Lemma follows_at z p f : evolves v n0 (tree z) -> here_only f ->
  (forall c0 m, content_before base v c0 -> content_evolves v c0 (zn_content m) -> content_evolves v c0 (zn_content (f m))) ->
  p <> [] \/ (forall n, zn_special (f n) = zn_special n) -> follows z (wz_at z p f).
Proof using n0_before.
  intros He Hh Hf Hp. unfold follows. rewrite (tree_at z p f Hp). split; [by apply (evolves_at base)|]. split; [|done].
  intros q Hq. rewrite content_at_alter by done. case_bool_decide; [done|]. by case_bool_decide.
Qed.

Lemma put_special_step z p s : evolves v n0 (tree z) -> is_Some (content_at (tree z) p) -> p <> [] ->
  follows z (wz_at z p (put_special v s)) /\ view_eq (new_view (wz_at z p (put_special v s))) (zv_put_special (new_view z) p s).
Proof using v_in n0_before.
  intros He Hp Hne. split.
  - apply follows_at; [done|apply put_special_here| |by left]. intros. by apply (put_special_evolves base v v_in).
  - unfold new_view. rewrite tree_at by (by left). by apply put_special_there.
Qed.

Lemma put_rrset_step z p rrset : evolves v n0 (tree z) -> is_Some (content_at (tree z) p) ->
  follows z (wz_at z p (put_rrset v rrset)) /\
  view_eq (new_view (wz_at z p (put_rrset v rrset))) (zv_put_entry (new_view z) p (rrset_rtype rrset) (if rrset_is_empty rrset then None else Some rrset)).
Proof using v_in n0_before.
  intros He Hp. split.
  - apply follows_at; [done|apply put_rrset_here| |by right]. intros. by apply (put_rrset_evolves base v v_in).
  - unfold new_view. rewrite tree_at by (by right). apply put_rrset_there; [|done]. by apply (evolves_upto base v v_in n0).
Qed.

Lemma handle_follows z z' n : handle z n -> follows z z' -> handle z' n.
Proof. intros (H1 & H2 & H3) (_ & Hk & _). split_and!; [done|done|by apply Hk]. Qed.

Lemma nx_checked_proper u u' p w : view_eq u u' -> nx_checked u p w -> nx_checked u' p w.
Proof.
  intros Hu Hc. assert (Hd : has_data u p <-> has_data u' p) by (unfold has_data; by setoid_rewrite (proj2 Hu)).
  assert (Hputs : forall s, view_eq (zv_put_special u p s) (zv_put_special u' p s)) by (intros s; split; intros; cbn; [by rewrite (proj1 Hu)|apply Hu]).
  destruct Hc as [H1 H2|H1 H2 H3 H4|H1 H2 H3 H4|s H1 H2 H3 H4 H5]; rewrite ?(proj1 Hu) in *; rewrite ?Hd in *.
  - apply nx_apex; [done|by rewrite H2].
  - apply nx_clear; [done..|]. by rewrite H4.
  - apply nx_set; [done..|]. by rewrite H4.
  - apply (nx_keep u' p w s); [done..|]. by rewrite H5.
Qed.

Lemma check_nx_domain_step z n : evolves v n0 (tree z) -> handle z n ->
  follows z (check_nx_domain z n) /\ nx_checked (new_view z) (wn_path n) (new_view (check_nx_domain z n)).
Proof using v_in n0_before.
  intros He (Hv & _ & Hp). unfold check_nx_domain. rewrite Hv. destruct (wn_path n) as [|l p0] eqn:Ep; [by split; [apply follows_refl|apply nx_apex]|].
  set (p := l :: p0) in *. assert (Hne : p <> []) by done. pose proof (evolves_upto base v v_in n0 _ n0_before He) as Hu.
  unfold wz_node. change (apex_node (wz_apex z)) with (tree z). destruct (node_at (tree z) p) as [m|] eqn:Em; [|unfold content_at in Hp; rewrite Em in Hp; by destruct Hp].
  assert (Hs : zv_special (new_view z) p = Some (zn_with_special m v)) by (unfold new_view; rewrite node_view_special; unfold content_at; by rewrite Em).
  pose proof (has_data_empty (tree z) p m Hu Em) as Hd. fold (new_view z) in Hd. cbn [default].
  destruct (put_special_step z p None He Hp Hne) as [Hf1 Hv1], (put_special_step z p (Some NxDomain) He Hp Hne) as [Hf2 Hv2].
  assert (Hno : nrs_is_empty (zn_rrsets m) v = true -> ~ has_data (new_view z) p) by (intros E H%Hd; congruence).
  unfold from_option, id. destruct (zn_with_special m v) as [[cut|cname|]|].
  - split; [by apply follows_refl|]. by apply (nx_keep _ _ _ (Some (Cut cut))).
  - split; [by apply follows_refl|]. by apply (nx_keep _ _ _ (Some (Cname cname))).
  - destruct (nrs_is_empty (zn_rrsets m) v); cbn [negb].
    + split; [by apply follows_refl|]. apply (nx_keep _ _ _ (Some NxDomain)); [done|done|by auto|done|done].
    + split; [exact Hf1|]. apply nx_clear; [done|done|by apply Hd|exact Hv1].
  - destruct (nrs_is_empty (zn_rrsets m) v).
    + split; [exact Hf2|]. apply nx_set; [done|done|by auto|exact Hv2].
    + split; [by apply follows_refl|]. apply (nx_keep _ _ _ None); [done|done|done|intros _; by apply Hd|done].
Qed.

Lemma nc_with_child n p l : is_Some (content_at n p) ->
  nc_with (zn_children (default zn_default (node_at n p))) l = node_at n (p ++ [l]).
Proof.
  unfold content_at. revert n; induction p as [|m p IH]; intros n Hp; cbn [app node_at].
  - simpl. by destruct (nc_with (zn_children n) l).
  - cbn [node_at] in Hp. destruct (nc_with (zn_children n) m); [by apply IH|by destruct Hp].
Qed.

(** Looking for a child that is there changes nothing. *)
Lemma touch_there n p : is_Some (content_at n p) -> view_eq (node_view v (zn_at (fun m => m) n p)) (node_view v n).
Proof.
  intros Hp. assert (Hc : forall q, content_at (zn_at (fun m => m) n p) q = content_at n q) by (intros q; rewrite content_at_alter_there by done; by case_bool_decide).
  split; intros; [by rewrite !node_view_special, Hc|by rewrite !node_view_entry, Hc].
Qed.

Lemma touch_new n p l : is_Some (content_at n p) -> content_at n (p ++ [l]) = None ->
  content_at (zn_at (fun m => m) n (p ++ [l])) (p ++ [l]) = Some ([], []) /\
  forall q, canon (p ++ [l]) <> canon q -> content_at (zn_at (fun m => m) n (p ++ [l])) q = content_at n q.
Proof.
  intros Hp Hn. split.
  - rewrite content_at_alter by done. rewrite bool_decide_eq_true_2 by done. unfold content_at in Hn. by destruct (node_at n (p ++ [l])).
  - intros q Hq. rewrite content_at_alter by done. rewrite bool_decide_eq_false_2 by done. case_bool_decide as E; [|done].
    assert (Hpre : canon q `prefix_of` canon p).
    { rewrite map_app in E. cbn [map] in E. destruct E as [r E]. destruct r as [|x r _] using rev_ind.
      - rewrite app_nil_r in E. destruct Hq. by rewrite map_app.
      - rewrite app_assoc in E. apply app_inj_tail in E as [E _]. rewrite E. by apply prefix_app_r. }
    destruct (content_at_prefix n p q Hpre Hp) as [c Hc]. unfold content_at in *. destruct (node_at n q); [|done]. done.
Qed.

Lemma update_child_step oc z n l : evolves v n0 (tree z) -> handle z n ->
  exists z' n', update_child oc z n l = Ret (z', n') /\ follows z z' /\ wview_step (new_view z) (wn_path n) (new_view z') (WChild l) /\
    wn_path n' = wn_path n ++ [l] /\ handle z' n'.
Proof using v_in n0_before.
  intros He (Hv & Hd & Hp). unfold update_child. rewrite Hd. set (p := wn_path n ++ [l]). set (z1 := wz_at z p (fun node => node)).
  assert (Hne : p <> []) by (subst p; by destruct (wn_path n)). assert (Htree : tree z1 = zn_at (fun m => m) (tree z) p) by (apply tree_at; by left).
  assert (Hf1 : follows z z1) by (apply follows_at; [done|by intros [] ?|by intros|by left]).
  assert (Hp1 : is_Some (content_at (tree z1) p)) by (rewrite Htree, content_at_alter by done; by rewrite bool_decide_eq_true_2).
  unfold wz_node. change (apex_node (wz_apex z)) with (tree z). rewrite (nc_with_child _ _ l Hp). fold p.
  set (n' := mkWriteNode (wn_version n) p None). assert (Hn' : handle z1 n') by done. destruct (node_at (tree z) p) as [m|] eqn:Em.
  - exists z1, n'. split_and!; [done|done| |done|done]. assert (Hm : is_Some (content_at (tree z) p)) by (unfold content_at; by rewrite Em).
    apply ws_child_there; [fold p; unfold new_view; rewrite node_view_special; destruct Hm as [c ->]; done|]. unfold new_view. rewrite Htree. by apply touch_there.
  - assert (Hm : content_at (tree z) p = None) by (unfold content_at; by rewrite Em). destruct (touch_new (tree z) (wn_path n) l Hp Hm) as [Hat Hother]. fold p in Hat, Hother.
    rewrite <- Htree in Hat, Hother. exists (make_regular z1 n'), n'.
    destruct (put_special_step z1 p None (proj1 Hf1) Hp1 Hne) as [Hf2 Hv2]. set (z2 := wz_at z1 p (put_special v None)) in *.
    assert (Hr : make_regular z1 n' = check_nx_domain z2 n').
    { unfold make_regular. cbn [n' wn_path wn_version]. destruct p eqn:Ep; [done|]. by rewrite Hv. }
    assert (Hn2 : handle z2 n') by (by apply (handle_follows z1)). rewrite Hr.
    destruct (check_nx_domain_step z2 n' (proj1 Hf2) Hn2) as [Hf3 Hc]. split_and!; [done|by eapply follows_trans; [|eapply follows_trans]| |done|by apply (handle_follows z2)].
    cbn [n' wn_path] in Hc. apply (nx_checked_proper _ _ _ _ Hv2) in Hc.
    assert (Hs2 : zv_special (zv_put_special (new_view z1) p None) p = Some None) by (cbn; by rewrite bool_decide_eq_true_2).
    assert (Hnd : ~ has_data (zv_put_special (new_view z1) p None) p).
    { intros (t & r & E). cbn [zv_put_special zv_entry] in E. unfold new_view in E. rewrite node_view_entry, Hat in E. done. }
    apply ws_child_new; [fold p; unfold new_view; by rewrite node_view_special, Hm|]. fold p.
    destruct Hc as [?|? H2|? H2 H3 H4|s ? H2 H3 H4]; [done|congruence| |exfalso; apply Hnd, H4; congruence].
    rewrite H4. split.
    + intros q. cbn [zv_put_special zv_special]. case_bool_decide; [done|]. unfold new_view. rewrite !node_view_special. f_equal. by apply Hother.
    + intros q t. cbn [zv_put_special zv_entry]. unfold new_view. rewrite !node_view_entry. destruct (decide (canon p = canon q)) as [E|E].
      * rewrite <- !(content_at_canon _ p q E), Hat, Hm. done.
      * by rewrite Hother.
Qed.

Lemma tree_remove_all z n : wn_version n = v -> tree (remove_all z n) = zn_at (zn_remove_all v) (tree z) (wn_path n).
Proof. intros Hv. unfold remove_all. rewrite Hv. destruct (wn_path n) as [|l p]; [done|]. apply tree_at. by left. Qed.

Lemma removed_entry (o : option (Versioned SharedRrset)) : (forall d, o = Some d -> upto v d) ->
  (fun d => vget d v) <$> ((fun d => vremove d v) <$> o) = (fun _ => None) <$> ((fun d => vget d v) <$> o).
Proof. destruct o as [d|]; [|done]. intros Hu. simpl. by rewrite vget_remove by (by apply Hu). Qed.

Lemma remove_all_step z n : evolves v n0 (tree z) -> handle z n ->
  follows z (remove_all z n) /\ wview_step (new_view z) (wn_path n) (new_view (remove_all z n)) WRemoveAll.
Proof using v_in n0_before.
  intros He (Hv & _ & Hp). pose proof (tree_remove_all z n Hv) as Ht.
  assert (Hc : forall q, content_at (tree (remove_all z n)) q =
    if bool_decide (canon (wn_path n) `prefix_of` canon q) then content_remove_all v <$> content_at (tree z) q else content_at (tree z) q).
  { intros q. rewrite Ht. by apply content_at_subtree. }
  assert (Hkeep : forall q, is_Some (content_at (tree z) q) -> is_Some (content_at (tree (remove_all z n)) q)).
  { intros q [c Hq]. rewrite Hc, Hq. by case_bool_decide. }
  split; [split_and!; [split| |]|].
  - intros q Hq. by apply Hkeep, He.
  - intros q c. rewrite Hc. case_bool_decide; [|by apply He]. destruct (content_at (tree z) q) as [c'|] eqn:E; [|done]. intros [= <-].
    apply (remove_all_evolves base v v_in); [by apply start_before|by apply He].
  - exact Hkeep.
  - unfold remove_all. by destruct (wn_path n).
  - apply ws_remove_all, remove_all_removes. unfold new_view. split.
    + intros q. cbn [zv_remove_all zv_special]. rewrite !node_view_special, Hc. case_bool_decide; [|done].
      destruct (content_at (tree z) q) as [c|] eqn:E; [|done]. simpl. unfold content_special, content_remove_all. cbn [snd].
      destruct (proj2 He q c E) as (_ & _ & _ & o & Ho). destruct (start_before base v n0 q n0_before) as (_ & _ & Hs).
      by rewrite (vget_remove c.2 v) by (by eapply (pending_upto base v v_in)).
    + intros q t. cbn [zv_remove_all zv_entry]. rewrite !node_view_entry, Hc. case_bool_decide; [|done].
      destruct (content_at (tree z) q) as [c|] eqn:E; [|done]. simpl. unfold nrs_remove_all. rewrite (hm_get_map (fun d => vremove d v)).
      pose proof (evolves_upto base v v_in n0 _ n0_before He q c E) as [_ Hu]. apply removed_entry. by apply Hu.
Qed.

Lemma update_rrset_step z n rrset : evolves v n0 (tree z) -> handle z n ->
  exists z', update_rrset z n rrset = Ret z' /\ follows z z' /\ wview_step (new_view z) (wn_path n) (new_view z') (WUpdate rrset).
Proof using v_in n0_before.
  intros He Hn. pose proof Hn as (Hv & Hd & Hp). unfold update_rrset. rewrite Hd, Hv. destruct (put_rrset_step z (wn_path n) rrset He Hp) as [Hf Hw].
  eexists; split; [done|]. destruct (check_nx_domain_step _ n (proj1 Hf) (handle_follows _ _ _ Hn Hf)) as [Hf2 Hc].
  split; [by eapply follows_trans|]. apply ws_update. by eapply nx_checked_proper.
Qed.

Lemma remove_rrset_step z n t : evolves v n0 (tree z) -> handle z n ->
  follows z (remove_rrset z n t) /\ wview_step (new_view z) (wn_path n) (new_view (remove_rrset z n t)) (WRemove t).
Proof using v_in n0_before.
  intros He Hn. pose proof Hn as (Hv & Hd & Hp). unfold remove_rrset. rewrite Hd, Hv.
  destruct (put_rrset_step z (wn_path n) (rrset_new t 0) He Hp) as [Hf Hw].
  destruct (check_nx_domain_step _ n (proj1 Hf) (handle_follows _ _ _ Hn Hf)) as [Hf2 Hc].
  split; [by eapply follows_trans|]. apply ws_remove. by eapply nx_checked_proper.
Qed.

Lemma make_regular_step z n : evolves v n0 (tree z) -> handle z n ->
  follows z (make_regular z n) /\ wview_step (new_view z) (wn_path n) (new_view (make_regular z n)) WRegular.
Proof using v_in n0_before.
  intros He Hn. pose proof Hn as (Hv & Hd & Hp). unfold make_regular. rewrite Hv. destruct (wn_path n) as [|l p] eqn:Ep.
  - split; [by apply follows_refl|]. by apply ws_apex.
  - destruct (put_special_step z (l :: p) None He Hp) as [Hf Hw]; [done|].
    destruct (check_nx_domain_step _ n (proj1 Hf) (handle_follows _ _ _ Hn Hf)) as [Hf2 Hc]. rewrite Ep in Hc.
    split; [by eapply follows_trans|]. apply ws_regular; [done|]. by eapply nx_checked_proper.
Qed.

(** All calls. *)
Lemma wz_call_step oc z n call : evolves v n0 (tree z) -> handle z n ->
  exists z' new, wz_call oc z n call = Ret (z', new) /\ follows z z' /\ wview_step (new_view z) (wn_path n) (new_view z') call /\
    map wn_path new = match call with WChild l => [wn_path n ++ [l]] | _ => [] end /\ Forall (handle z') new.
Proof using v_in n0_before.
  intros He Hn. pose proof Hn as (Hv & Hd & Hp). destruct call as [l|rrset|t| |cut|cname|]; cbn [wz_call].
  - destruct (update_child_step oc z n l He Hn) as (z' & n' & -> & Hf & Hs & Hpn & Hh). eexists _, _; split_and!; [done|done|done|by cbn; rewrite Hpn|by constructor].
  - destruct (update_rrset_step z n rrset He Hn) as (z' & -> & Hf & Hs). by eexists _, [].
  - destruct (remove_rrset_step z n t He Hn) as [Hf Hs]. by eexists _, [].
  - destruct (make_regular_step z n He Hn) as [Hf Hs]. by eexists _, [].
  - unfold make_zone_cut. rewrite Hv. destruct (wn_path n) as [|l p] eqn:Ep.
    + eexists _, []; split_and!; [done|by apply follows_refl|by apply ws_apex|done|done].
    + destruct (put_special_step z (l :: p) (Some (Cut cut)) He Hp) as [Hf Hw]; [done|]. eexists _, []; split_and!; [done|done|by apply ws_cut, put_special_becomes|done|done].
  - unfold make_cname. rewrite Hv. destruct (wn_path n) as [|l p] eqn:Ep.
    + eexists _, []; split_and!; [done|by apply follows_refl|by apply ws_apex|done|done].
    + destruct (put_special_step z (l :: p) (Some (Cname cname)) He Hp) as [Hf Hw]; [done|]. eexists _, []; split_and!; [done|done|by apply ws_cname, put_special_becomes|done|done].
  - destruct (remove_all_step z n He Hn) as [Hf Hs]. by eexists _, [].
Qed.

Lemma wz_run_trace oc calls z nodes : evolves v n0 (tree z) -> Forall (handle z) nodes ->
  exists z' nodes', wz_run oc z nodes calls = Ret (z', nodes') /\ follows z z' /\ wtrace (map wn_path nodes) (new_view z) calls (new_view z').
Proof using v_in n0_before.
  revert z nodes; induction calls as [|[h call] calls IH]; intros z nodes He Hn; cbn [wz_run].
  - eexists _, _; split_and!; [done|by apply follows_refl|by apply wt_nil].
  - destruct (nodes !! h) as [n|] eqn:Eh.
    + pose proof (Forall_lookup_1 _ _ _ _ Hn Eh) as Hh. destruct (wz_call_step oc z n call He Hh) as (z1 & new & -> & Hf & Hs & Hp & Hnew).
      destruct (IH z1 (nodes ++ new) (proj1 Hf)) as (z' & nodes' & -> & Hf' & Ht).
      { apply Forall_app. split; [|done]. eapply Forall_impl; [exact Hn|]. intros x Hx. by eapply handle_follows. }
      eexists _, _; split_and!; [done|by eapply follows_trans|]. eapply wt_call; [|exact Hs|]; [by rewrite list_lookup_fmap, Eh|]. by rewrite map_app, Hp in Ht.
    + destruct (IH z nodes He Hn) as (z' & nodes' & -> & Hf' & Ht). eexists _, _; split_and!; [done|done|]. apply wt_none; [by rewrite list_lookup_fmap, Eh|done].
Qed.
End CallSpecs.

(** ** Readers of earlier versions *)

Lemma quiet_types v0 v1 p qtype a : quiet v0 v1 -> qtype <> RTYPE_ANY -> at_types v0 p qtype a -> at_types v1 p qtype a.
Proof.
  intros [_ He] Hq Ha. specialize (He p qtype). destruct Ha as [r _ Hr|_ Hr| |]; [| |done|done].
  - apply types_data; [done|]. rewrite Hr in He. destruct (zv_entry v1 p qtype) as [[]|]; cbn in He; congruence.
  - apply types_none; [done|]. intros r E. rewrite E in He. cbn in He. apply (Hr r). destruct (zv_entry v0 p qtype) as [[]|]; cbn in He; congruence.
Qed.

Lemma quiet_node v0 v1 p qtype a : quiet v0 v1 -> qtype <> RTYPE_ANY -> at_node v0 p qtype a -> at_node v1 p qtype a.
Proof.
  intros Hv Hq Ha. pose proof (proj1 Hv p) as Hs. destruct Ha as [cut E|cut ds E|cut E|cname E|E|a E Ha]; rewrite E in Hs.
  - by apply node_cut.
  - by apply (node_cut_ds v1 p qtype cut).
  - by apply (node_cut_no_ds v1 p qtype cut).
  - by apply node_cname.
  - by apply node_nx.
  - apply node_types; [done|by eapply quiet_types].
Qed.

Lemma quiet_reached v0 v1 q : quiet v0 v1 -> reached v0 q -> reached v1 q.
Proof.
  intros [Hs _] Hr k Hk. specialize (Hs (take k q)). specialize (Hr k Hk). unfold zv_passes in *. by destruct (zv_special v0 (take k q)) as [s|]; [rewrite Hs|].
Qed.

(** For a name that was there the answer is the same. *)
Lemma quiet_resolves v0 v1 q qtype a : quiet v0 v1 -> qtype <> RTYPE_ANY ->
  (forall k, (0 < k <= length q)%nat -> zv_special v0 (take k q) <> None) -> resolves v0 q qtype a -> resolves v1 q qtype a.
Proof.
  intros Hv Hq Hex Ha. pose proof (fun q => quiet_reached v0 v1 q Hv) as Hr.
  destruct Ha as [a0 H1 H2|k cut H1 H2 H3|k H1 H2 H3|a0 H1 H2 H3|k a0 H1 H2 H3 H4|k H1 H2 H3 H4].
  - apply res_apex; [done|by eapply quiet_types].
  - pose proof (proj1 Hv (take k q)) as Hs. rewrite H3 in Hs. by apply (res_referral v1 q qtype k); auto.
  - pose proof (proj1 Hv (take k q)) as Hs. rewrite H3 in Hs. by apply (res_nx_above v1 q qtype k); auto.
  - apply res_node; [done|by auto|by eapply quiet_node].
  - exfalso. apply (Hex (S k)); [lia|done].
  - exfalso. apply (Hex (S k)); [lia|done].
Qed.

Lemma quiet_into_answer w a apex apex' : quiet (apex_view w apex) (apex_view w apex') -> za_apex_name apex' = za_apex_name apex ->
  na_into_answer w a apex' = na_into_answer w a apex.
Proof.
  intros [_ He] Hn. rewrite !(into_answer_view w a _ (apex_view w _)) by done. unfold view_answer. rewrite Hn. specialize (He [] RTYPE_SOA).
  destruct (na_add_soa a); [|done]. f_equal. unfold apex_view in *. set (e' := zv_entry (node_view w (apex_node apex')) [] RTYPE_SOA) in *.
  set (e := zv_entry (node_view w (apex_node apex)) [] RTYPE_SOA) in *. destruct e' as [[[t ttl d]|]|], e as [[[t' ttl' d']|]|]; cbn in He; simplify_eq; done.
Qed.

Lemma quiet_query order w apex apex' qname qls qtype als q :
  (forall m, order m ≡ₚ m) -> zn_wf (apex_node apex) -> zn_wf (apex_node apex') -> za_apex_name apex' = za_apex_name apex ->
  quiet (apex_view w apex) (apex_view w apex') -> wf_abs (za_apex_name apex) als -> wf_abs qname qls -> path_below als qls = Some q ->
  qtype <> RTYPE_ANY -> is_Some (content_at (apex_node apex) q) -> zone_query order w apex' qname qtype = zone_query order w apex qname qtype.
Proof.
  intros Ho Hw Hw' Hn Hv Ha Hq Hp Hany [c Hc]. destruct (zone_query_spec order w apex qname qtype als qls Ho Ha Hq Hw (or_introl Hany)) as (r & -> & Hr).
  destruct (zone_query_spec order w apex' qname qtype als qls Ho) as (r' & -> & Hr'); [by rewrite Hn|done|done|by left|]. rewrite Hp in Hr, Hr'.
  destruct Hr as (a & -> & Hr), Hr' as (a' & -> & Hr'). rewrite (quiet_into_answer w a' apex apex') by done.
  rewrite (resolves_unique (apex_view w apex') qtype Hany q a' a); [done|done|]. eapply quiet_resolves; [done|done| |done].
  intros k _ E. unfold apex_view in E. rewrite node_view_special in E. destruct (content_at_take (apex_node apex) q k c Hc) as [c' Hc']. by rewrite Hc' in E.
Qed.

(** ** A transaction *)

Lemma vrollback_new {T} v : vrollback (vnew (T:=T)) v = vnew.
Proof. unfold vrollback. by rewrite bool_decide_eq_false_2. Qed.

Lemma tree_rollback a v : apex_node (za_rollback a v) = zn_rollback v (apex_node a).
Proof. unfold apex_node. cbn. by rewrite vrollback_new. Qed.

Lemma zone_before_wf base v n : zone_before base v n -> zn_wf n.
Proof. intros Hn p m Hp. apply (Hn p (zn_content m)). unfold content_at. by rewrite Hp. Qed.

Lemma zn_wf_rollback v n : zn_wf n -> zn_wf (zn_rollback v n).
Proof.
  intros Hn p m Hp. assert (Hc : content_at (zn_rollback v n) p = Some (zn_content m)) by (unfold content_at; by rewrite Hp).
  rewrite content_at_rollback in Hc. unfold content_at in Hc. destruct (node_at n p) as [m0|] eqn:E; [|done]. injection Hc as Hr _. rewrite <- Hr.
  unfold nrs_rollback. apply (hm_wf_map (fun d => vrollback d v)). by apply (Hn p).
Qed.

(** A writer's transaction, opened without keeping a diff, for any calls to any
    nodes.  Readers of all earlier versions get, for the names that were there and
    all types but ANY, the answers they got before.  The version being made goes
    through the abstract steps of the calls: a node is added, a record set is
    replaced or removed and the node marked as existing or not accordingly, a node
    is made regular, a zone cut or an alias, or all at and below a node is removed;
    which records a zone cut or alias still has besides, and whether removed names
    exist, is left open.  Dropping the writer restores what all readers see of these
    names; and committing without a new serial makes the new version the current
    one, from which the next transaction can start.  All versions are within a
    window of 2^31, in which serial numbers are ordered.  (C16) *)
Theorem zone_write_correct base order diff_order oc apex versions v calls :
  (forall m, order m ≡ₚ m) -> version_next (zvs_current versions).1 = Ret v -> in_window base v -> zone_before base v (apex_node apex) ->
  exists z0 z1 root z2 nodes z3, za_write apex versions = Ret z0 /\ wz_open z0 false = (z1, root) /\ wz_run oc z1 [root] calls = Ret (z2, nodes) /\
    wtrace [[]] (apex_view v apex) calls (apex_view v (wz_apex z2)) /\
    (forall qname qls als q qtype, wf_abs (za_apex_name apex) als -> wf_abs qname qls -> path_below als qls = Some q -> qtype <> RTYPE_ANY ->
       is_Some (node_at (apex_node apex) q) ->
       (forall w, in_window base w -> age base w < age base v ->
          zone_query order w (wz_apex z2) qname qtype = zone_query order w apex qname qtype) /\
       (forall w, zone_query order w (wz_drop z2).1 qname qtype = zone_query order w apex qname qtype)) /\
    (wz_drop z2).2 = versions /\
    wz_commit diff_order z2 false 0 = Ret (z3, None) /\ wz_drop z3 = (wz_apex z2, wz_versions z3) /\ (zvs_current (wz_versions z3)).1 = v /\
    forall v', age base v < age base v' -> zone_before base v' (apex_node (wz_drop z3).1).
Proof.
  intros Ho Hnext Hv H0. unfold za_write. rewrite Hnext. set (z0 := mkWriteZone apex versions v [] None false).
  set (z1 := mkWriteZone apex versions v [] None true). set (root := mkWriteNode v [] None).
  destruct (wz_run_trace base v Hv (apex_node apex) H0 oc calls z1 [root]) as (z2 & nodes & Hrun & Hf & Ht).
  { by apply evolves_refl with base. }
  { by repeat constructor. }
  destruct Hf as (He & _ & [= Hn2 Hz1 Hz2 Hz3 Hz4 Hz5]). destruct (version_next v) as [v2|] eqn:Ev2; [|done].
  set (s3 := push_version (update_current versions v).2 v (zvs_fresh versions)).
  exists z0, z1, root, z2, nodes, (mkWriteZone (wz_apex z2) s3 v2 [] None false). do 3 (split; [done|]). split; [exact Ht|].
  split; [|split_and!].
  - intros qname qls als q qtype Ha Hq Hp Hany [m Hm]. assert (Hc : is_Some (content_at (apex_node apex) q)) by (unfold content_at; by rewrite Hm).
    pose proof (zone_before_wf base v _ H0) as Hw0. split.
    + intros w Hw Hlt. apply (quiet_query order w apex (wz_apex z2) qname qls qtype als q); try done.
      * by apply (zn_upto_wf v), (evolves_upto base v Hv (apex_node apex)).
      * by apply (evolves_old base v Hv).
    + intros w. unfold wz_drop. rewrite Hz5, Hz2. cbn [wz_dirty z1 fst].
      apply (quiet_query order w apex (za_rollback (wz_apex z2) v) qname qls qtype als q); try done.
      * rewrite tree_rollback. by apply zn_wf_rollback, (zn_upto_wf v), (evolves_upto base v Hv (apex_node apex)).
      * unfold apex_view. rewrite tree_rollback. by apply (evolves_rollback base v).
  - by unfold wz_drop.
  - unfold wz_commit. destruct (za_get_soa (wz_apex z2) (last_published_version z2)); rewrite Hz4; unfold publish_new_zone_version;
      cbn [wz_versions wz_new_version wz_builders wz_apex wz_diff]; rewrite Hz1, Hz2, Hz3; cbn [update_current wz_new_version z1]; by rewrite Ev2.
  - done.
  - done.
  - intros v' Hlt. by apply (evolves_next base v v' (apex_node apex)).
Qed.

(** ** Examples *)

(** The zone [a.] with address records at the apex, and its first transaction. *)
Definition ex_zone : ZoneApex := mkZoneApex ex_a 1 [(RTYPE_A, [(version_default, Some ex_rrset)])] [].
Definition ex_ttl_rrset : SharedRrset := mkRrset RTYPE_A 600 [ZoneA (mkA [192; 0; 2; 1])].

Lemma zone_write_correct_witness :
  exists z0 z1 root z2 nodes, za_write ex_zone zvs_default = Ret z0 /\ wz_open z0 false = (z1, root) /\
    wz_run true z1 [root] [(0%nat, WUpdate ex_txt_rrset); (0%nat, WChild [98]); (1%nat, WUpdate ex_rrset); (0%nat, WRemove RTYPE_A)] = Ret (z2, nodes) /\
    zone_query ex_order version_default (wz_apex z2) ex_A RTYPE_A = Ret (Ok (answer_set_authoritative (na_answer (na_data ex_rrset)) true)).
Proof.
  destruct (zone_write_correct version_default ex_order (fun m => m) true ex_zone zvs_default (mkSerial 1)
    [(0%nat, WUpdate ex_txt_rrset); (0%nat, WChild [98]); (1%nat, WUpdate ex_rrset); (0%nat, WRemove RTYPE_A)])
    as (z0 & z1 & root & z2 & nodes & z3 & Hz0 & Hz1 & Hrun & _ & Hq & _).
  - done.
  - reflexivity.
  - split; by vm_compute.
  - intros p c. destruct p; [|done]. intros [= <-]. split_and!; [done| |split; [split; constructor|constructor]].
    intros t d. cbn [hm_get zn_content fst apex_node za_rrsets ex_zone zn_rrsets]. destruct (RTYPE_A =? t); [|by intros]. intros [= <-].
    split; [split; repeat constructor; by vm_compute|repeat constructor].
  - exists z0, z1, root, z2, nodes. split; [exact Hz0|]. split; [exact Hz1|]. split; [exact Hrun|].
    destruct (Hq ex_A [[65]; []] [[97]; []] [] RTYPE_A) as [-> _]; [apply ex_a_wf|apply ex_A_wf|reflexivity|by_decide|done|split; by vm_compute|by_decide|].
    by vm_compute.
Defined.

(** What a run gives, for the examples: the writer after the calls, and the answers
    to a query before, during and after, and after a rollback. *)
Definition ex_run (create_diff : bool) (calls : list (nat * wcall)) : outcome WriteZone :=
  let! z := za_write ex_zone zvs_default in
  let (z, root) := wz_open z create_diff in
  let! (z, _) := wz_run true z [root] calls in Ret z.

Definition ex_rcode (w : Z) (a : ZoneApex) (qname : Name) (qtype : Z) : option (Z * bool) :=
  match zone_query ex_order (mkSerial w) a qname qtype with
  | Ret (Ok ans) => Some (ans_rcode ans, match ans_content ans with AnswerNoData => false | _ => true end)
  | _ => None
  end.

(** A name that is added shows up for the readers of earlier versions, as a name
    without records instead of one that does not exist; that stays so when the
    transaction is rolled back. *)
Lemma new_name_leaks :
  match ex_run false [(0%nat, WChild [98]); (1%nat, WUpdate ex_rrset)] with
  | Ret z => ex_rcode 0 ex_zone ex_ba RTYPE_A = Some (RCODE_NXDOMAIN, false) /\
             ex_rcode 0 (wz_apex z) ex_ba RTYPE_A = Some (RCODE_NOERROR, false) /\
             ex_rcode 0 (wz_drop z).1 ex_ba RTYPE_A = Some (RCODE_NOERROR, false)
  | Panic => False
  end.
Proof. by vm_compute. Qed.

(** A name that is added below names that have no records themselves is not found:
    the names above it are marked as not existing. *)
Lemma name_below_empty_lost :
  match ex_run false [(0%nat, WChild [98]); (1%nat, WChild [99]); (2%nat, WUpdate ex_rrset)] with
  | Ret z => ex_rcode 1 (wz_apex z) (mkName [1; 99; 1; 98; 1; 97; 0]) RTYPE_A = Some (RCODE_NXDOMAIN, false)
  | Panic => False
  end.
Proof. by vm_compute. Qed.

(** After all has been removed the names are still there, without records. *)
Lemma removed_name_exists :
  match ex_run false [(0%nat, WChild [98]); (1%nat, WUpdate ex_rrset); (0%nat, WRemoveAll)] with
  | Ret z => ex_rcode 1 (wz_apex z) ex_ba RTYPE_A = Some (RCODE_NOERROR, false)
  | Panic => False
  end.
Proof. by vm_compute. Qed.

(** Making a node a zone cut keeps the records, which come back when it is made a
    regular node. *)
Lemma cut_keeps_records :
  match ex_run false [(0%nat, WChild [98]); (1%nat, WUpdate ex_rrset); (1%nat, WCut (mkZoneCut ex_ba ex_txt_rrset None [])); (1%nat, WRegular)] with
  | Ret z => ex_rcode 1 (wz_apex z) ex_ba RTYPE_A = Some (RCODE_NOERROR, true)
  | Panic => False
  end.
Proof. by vm_compute. Qed.

(** The differences: putting in what is there counts as an addition, a change of the
    TTL is not seen, what was added and taken out again stays, and removing all is
    not recorded. *)
Lemma diff_unchanged_is_added :
  (let! z := ex_run true [(0%nat, WUpdate ex_rrset)] in Ret (wz_builders z)) = Ret [mkDiffBuilder [((ex_a, RTYPE_A), ex_rrset)] []].
Proof. by vm_compute. Qed.

Lemma diff_misses_ttl : (let! z := ex_run true [(0%nat, WUpdate ex_ttl_rrset)] in Ret (wz_builders z)) = Ret [db_new].
Proof. by vm_compute. Qed.

Lemma diff_keeps_addition :
  (let! z := ex_run true [(0%nat, WUpdate ex_txt_rrset); (0%nat, WRemove RTYPE_TXT)] in Ret (wz_builders z)) =
  Ret [mkDiffBuilder [((ex_a, RTYPE_TXT), ex_txt_rrset)] []].
Proof. by vm_compute. Qed.

Lemma diff_misses_remove_all : (let! z := ex_run true [(0%nat, WRemoveAll)] in Ret (wz_builders z)) = Ret [db_new].
Proof. by vm_compute. Qed.
