(* ===== verification/Answer.v ===== *)
(** * Responses

    Turning the answer to a query into a response message:
    [MessageBuilder::start_answer] and [start_error] of
    [src/src/base/message_builder.rs] and [Answer::to_message] of
    [src/src/zonetree/answer.rs], which put the message parser, the message
    builder and the zones together. *)

From S2P Require Import Prelude Octets Serial Symbol Label Traits Name ParsedName Header Compressor MessageBuilder Message Record Ttl Layout Rdata Txt ZoneData Typed HashMap ZoneSet Versioned ZoneStore ZoneBuilder.
#[local] Open Scope Z_scope.

Section Responding.
Context {B : Type} `{OctetsBuilder B} `{!Composer B}.
Context {P : Type} `{OctetsParser P} `{!OctetsParserRef P}.

Definition RCODE_SERVFAIL : Z := 2.

(** The header fields that are taken from the request. *)
Definition response_header (request : Header) (rcode : Z) (header : Header) : Header :=
  set_rcode (set_rd (set_opcode (set_qr (set_id header (header_id request)) true) (header_opcode request)) (header_rd request)) rcode.

(** [for item in msg.question().flatten() { builder.push(item)?; }]. *)
Fixpoint push_questions (fuel : nat) (questions : QuestionSection P) (builder : QuestionBuilder B) : outcome (QuestionBuilder B * result unit PushError) :=
  match fuel with
  | O => Panic
  | S fuel' =>
      let! (item, questions) := qs_next questions in
      match item with
      | None => Ret (builder, Ok ())
      | Some (Err _) => push_questions fuel' questions builder
      | Some (Ok q) =>
          let! (builder, r) := qb_push (question_compose q) builder in
          match r with Err err => Ret (builder, Err err) | Ok _ => push_questions fuel' questions builder end
      end
  end.

Definition start_answer (mb : MessageBuilder B) (msg : Message) (rcode : Z) : outcome (result (AnswerBuilder B) PushError) :=
  let! request := msg_header msg in
  let! mb := mb_header_mut (response_header request rcode) mb in
  let! questions := msg_question msg in
  let! (builder, r) := push_questions section_fuel questions (mb_question mb) in
  match r with Err err => Ret (Err err) | Ok _ => Ret (Ok (qb_answer builder)) end.

Definition start_error (mb : MessageBuilder B) (msg : Message) (rcode : Z) : outcome (AnswerBuilder B) :=
  let! request := msg_header msg in
  let! mb := mb_header_mut (response_header request rcode) mb in
  let! questions := msg_question msg in
  let! (builder, r) := push_questions section_fuel questions (mb_question mb) in
  match r with
  | Err _ => let! mb := mb_header_mut (fun h => set_rcode h RCODE_SERVFAIL) (qb_builder builder) in Ret (qb_answer (mkQB mb))
  | Ok _ => Ret (qb_answer builder)
  end.

(** [for item in .. { builder.push(item).unwrap(); }]. *)
Fixpoint push_all {T} (push : pusher B -> T -> outcome (T * result unit PushError)) (items : list (pusher B)) (builder : T) : outcome T :=
  match items with
  | [] => Ret builder
  | item :: items =>
      let! (builder, r) := push item builder in
      match r with Err _ => Panic | Ok _ => push_all push items builder end
  end.

(** [for item in .. { if builder.push(item).is_err() { break; } }]. *)
Fixpoint push_some {T} (push : pusher B -> T -> outcome (T * result unit PushError)) (items : list (pusher B)) (builder : T) : outcome T :=
  match items with
  | [] => Ret builder
  | item :: items =>
      let! (builder, r) := push item builder in
      match r with Err _ => Ret builder | Ok _ => push_some push items builder end
  end.

(** The records of a record set, and those of the sections. *)
Definition rrset_records {N} (owner : N) (class : Z) (rrset : SharedRrset) : list (ResourceRecord N StoredRecordData) :=
  map (mkRR owner class (rrset_ttl rrset)) (rrset_data rrset).

Definition answer_records {N} (qname : N) (qclass : Z) (content : AnswerContent) : list (ResourceRecord N StoredRecordData) :=
  match content with
  | AnswerData answer => rrset_records qname qclass answer
  | AnswerCname cname => [mkRR qname qclass (srr_ttl cname) (srr_data cname)]
  | AnswerNoData => []
  end.

Definition authority_records (qclass : Z) (authority : option AnswerAuthority) : list StoredRecord :=
  match authority with
  | None => []
  | Some a =>
      match aa_soa a with Some soa => [mkRR (aa_owner a) qclass (srr_ttl soa) (srr_data soa)] | None => [] end ++
      match aa_ns a with Some ns => rrset_records (aa_owner a) qclass ns | None => [] end ++
      match aa_ds a with Some ds => rrset_records (aa_owner a) qclass ds | None => [] end
  end.

Definition to_message (a : ZAnswer) (message : Message) (mb : MessageBuilder B) : outcome (AdditionalBuilder B) :=
  let! question := msg_sole_question (P:=P) message in
  match question with
  | Err _ => Panic
  | Ok question =>
      let! builder := start_answer mb message (ans_rcode a) in
      match builder with
      | Err _ => Panic
      | Ok builder =>
          let! builder := if ans_authoritative a
            then let! mb := mb_header_mut (fun h => set_aa h true) (ab_builder builder) in Ret (mkAB mb (ab_start builder))
            else Ret builder in
          let! builder := push_all ab_push (map record_compose (answer_records (qname question) (qclass question) (ans_content a))) builder in
          let! builder := push_all nsb_push (map record_compose (authority_records (qclass question) (ans_authority a))) (ab_authority builder) in
          let builder := nsb_additional builder in
          match ans_additional a with
          | None => Ret builder
          | Some additional =>
              let! builder := push_all arb_push (map record_compose (required additional)) builder in
              push_some arb_push (map record_compose (discardable additional)) builder
          end
      end
  end.
End Responding.

(** ** Building a response *)

Section Building.
Context {B : Type} `{OctetsBuilderOk B}.

Lemma mb_header_rep (f : Header -> Header) (mb : MessageBuilder B) m :
  mb_rep mb m -> header_wf (f (am_header m)) ->
  exists mb', mb_header_mut f mb = Ret mb' /\ mb_rep mb' (mkAmsg (f (am_header m)) (am_limit m) (am_secs m)).
Proof.
  intros [Hwf Hp] Hf. destruct (mb_header_mut_parts f _ _ _ _ _ Hp) as (mb' & -> & Hp'); [destruct (am_header m); apply Hf|].
  exists mb'. split; [done|]. split; [|by destruct (am_header m)]. destruct Hwf as (_ & ? & ?). by split_and!.
Qed.

(** Pushes that all succeed, with one of the section builders. *)
Lemma push_all_calls {T} (W : T -> any_builder B) (push : pusher B -> T -> outcome (T * result unit PushError)) items x b rs :
  (forall p x, any_push p (W x) = let! (x, r) := push p x in Ret (W x, r)) ->
  any_calls (map CPush items) (W x) = Ret (b, rs) -> Forall (fun r => r = Ok ()) rs ->
  exists x', b = W x' /\ push_all push items x = Ret x' /\ push_some push items x = Ret x'.
Proof.
  intros Hp. revert x rs; induction items as [|item items IH]; intros x rs; cbn [map any_calls push_all push_some].
  - intros [= <- <-] _. by exists x.
  - cbn [any_call]. rewrite Hp. destruct (push item x) as [[x1 r]|]; [|done]. destruct (any_calls (map CPush items) (W x1)) as [[b2 rs2]|] eqn:E; [|done].
    intros [= -> <-] Hrs. apply Forall_uncons in Hrs as [-> Hrs]. by apply (IH x1 rs2).
Qed.

Lemma push_all_app {T} (push : pusher B -> T -> outcome (T * result unit PushError)) items items' x :
  push_all push (items ++ items') x = let! x := push_all push items x in push_all push items' x.
Proof. revert x; induction items as [|item items IH]; intros x; [done|]. cbn. destruct (push item x) as [[x1 []]|]; [apply IH|done|done]. Qed.
End Building.

Section Response.
Context {B : Type} `{OctetsBuilderOk B} `{!InfallibleBuilder B} `{!Composer B} `{!PlainComposer B}.
Context {P : Type} `{OctetsParserOk P} `{!OctetsParserRef P} `{!OctetsParserRefOk P} `{!OctetsParserSub P} `{!OctetsParserSubOk P}.

Lemma question_is_ok (a : Question ParsedName) q : question_is a q -> question_fits q -> (length (labels_wire (qname q)) <= 255)%nat -> question_ok a q.
Proof. intros (Hn & Ht & Hc) Hf Hl. split; [split; [by apply parsed_denotes|split; [by eapply wf_parsed_abs|done]]|]. split; [done|]. by split. Qed.

(** The questions of the request are pushed. *)
Lemma push_questions_rep fuel s qs l e (qb : QuestionBuilder B) m sec :
  qs_before (P:=P) s qs l e -> Forall question_good l -> (length l < fuel)%nat -> any_rep (BQuestion qb) m -> am_secs m = [sec] -> am_limit m = NO_LIMIT ->
  zlen (am_wire m) + zlen (concat (map question_wire l)) < NO_LIMIT -> zlen sec + zlen l < 2 ^ 16 ->
  exists qb', push_questions fuel qs qb = Ret (qb', Ok ()) /\ any_rep (BQuestion qb') (am_with m [sec ++ map question_wire l]).
Proof using All.
  revert qs qb m sec l. induction fuel as [|fuel IH]; intros qs qb m sec l Hq Hg Hf Hr Hs Hlim Hfit Hc; [lia|]. cbn [push_questions].
  destruct l as [|q l].
  - rewrite (qs_next_end _ _ _ Hq). exists qb. split; [done|]. cbn. rewrite app_nil_r, <- Hs. by destruct m.
  - destruct (qs_next_item _ _ _ _ _ Hq) as (a & qs' & -> & Ha & Hq'). apply Forall_uncons in Hg as [(Hga & Hgl & Hgf) Hg].
    pose proof (question_is_ok a q Ha Hgf Hgl) as Hok. cbn [map concat] in Hfit. unfold zlen in Hfit, Hc. rewrite length_app in Hfit. cbn [length] in Hc, Hf.
    destruct (any_push_ok (BQuestion qb) m [] sec (question_compose a) (question_wire q)) as (b1 & Eb & Hr1);
      [done|done|by apply question_compose_spec|by eapply question_compose_total|done|unfold zlen; lia|unfold zlen; lia|].
    cbn [any_call any_push] in Eb. destruct (qb_push (question_compose a) qb) as [[qb1 r]|]; [|done]. injection Eb as <- ->.
    destruct (IH qs' qb1 (am_with m ([] ++ [sec ++ [question_wire q]])) (sec ++ [question_wire q]) l Hq' Hg) as (qb2 & -> & Hr2); [lia|exact Hr1|done|done| |unfold zlen; rewrite length_app; cbn; lia|].
    { rewrite (am_wire_snoc m [] sec); [unfold zlen; lia|apply Hr|done]. }
    exists qb2. split; [done|]. by rewrite <- app_assoc in Hr2.
Qed.

(** The header of a response. *)
Definition response_view (request : header_view) (rcode : Z) (aa : bool) : header_view :=
  Header.mkView (v_id request) true (v_opcode request) aa false (v_rd request) false false false false rcode.

Definition header_of (s : list Z) : Header := mkHeader (take 4 s).

Lemma header_of_wf s : (12 <= length s)%nat -> wf_octets s -> header_wf (header_of s).
Proof. intros Hl Hs. split; [cbn; rewrite length_take; lia|by apply Forall_take]. Qed.

Lemma header_fields h : header_wf h -> is_u16 (header_id h) /\ 0 <= header_opcode h < 16.
Proof.
  intros Hw. destruct (header_wf_octets _ Hw) as (a & b & c & d & -> & Ha & Hb & Hc & Hd). unfold is_u8, is_u16 in *. split; [cbn; lia|].
  unfold header_opcode. cbn. pose proof (Z.land_nonneg (Z.shiftr c 3) 15) as Hnn. split; [apply Hnn; lia|].
  change 15 with (Z.ones 4). rewrite Z.land_ones by lia. apply Z.mod_pos_bound. lia.
Qed.

Lemma response_header_spec request rcode : header_wf request -> 0 <= rcode < 16 ->
  header_wf (response_header request rcode header_new) /\ view (response_header request rcode header_new) = response_view (view request) rcode false.
Proof.
  intros Hw Hr. destruct (header_fields request Hw) as [Hid Hop]. unfold response_header.
  assert (H0' : header_wf header_new) by (split; [done|by repeat constructor]).
  destruct (apply_set_spec header_new (SetId (header_id request)) H0' Hid) as [W1 V1]. cbn [apply_set] in *.
  destruct (apply_set_spec _ (SetQr true) W1 I) as [W2 V2]. cbn [apply_set] in *.
  destruct (apply_set_spec _ (SetOpcode (header_opcode request)) W2 Hop) as [W3 V3]. cbn [apply_set] in *.
  destruct (apply_set_spec _ (SetRd (header_rd request)) W3 I) as [W4 V4]. cbn [apply_set] in *.
  destruct (apply_set_spec _ (SetRcode rcode) W4 Hr) as [W5 V5]. cbn [apply_set] in *.
  split; [done|]. rewrite V5, V4, V3, V2, V1. reflexivity.
Qed.

Lemma start_answer_rep target mb s qs an ns ar rcode :
  mb_from_target (B:=B) target = Some mb -> holds s qs an ns ar -> Forall question_good qs -> 0 <= rcode < 16 ->
  12 + zlen (concat (map question_wire qs)) < NO_LIMIT ->
  exists ab, start_answer (P:=P) mb (mkMessage s) rcode = Ret (Ok ab) /\
    any_rep (BAnswer ab) (mkAmsg (response_header (header_of s) rcode header_new) NO_LIMIT [map question_wire qs; []]).
Proof using All.
  intros Hnew Hh Hg Hrc Hfit. pose proof Hh as (Hl & Hs & _). pose proof (header_of_wf s Hl Hs) as Hw.
  destruct (response_header_spec (header_of s) rcode Hw Hrc) as [Hwf _].
  pose proof (from_target_rep _ _ Hnew) as R0. destruct (mb_header_rep (response_header (header_of s) rcode) mb _ (proj1 R0) Hwf) as (mb1 & Emb & Rmb).
  assert (R1 : any_rep (BMessage mb1) (mkAmsg (response_header (header_of s) rcode header_new) NO_LIMIT [])) by (split; [exact Rmb|done]).
  destruct (any_go_rep 1 _ _ R1) as (b2 & Eb2 & R2); [lia|]. cbn [any_go] in Eb2. injection Eb2 as <-.
  destruct (holds_question (P:=P) _ _ _ _ _ Hh) as (Hz & q & e1 & _ & _ & _ & Eq & Bq & _).
  assert (Hlen : zlen (am_wire (mkAmsg (response_header (header_of s) rcode header_new) NO_LIMIT [[]])) = 12).
  { rewrite am_wire_zlen by apply R2. done. }
  set (m1 := mkAmsg (response_header (header_of s) rcode header_new) NO_LIMIT [[]]) in *.
  destruct (push_questions_rep section_fuel s q qs e1 (mb_question mb1) m1 [] Bq Hg) as (qb & Eqb & R3); [|exact R2|done|done|lia|done|].
  { pose proof section_fuel_eq. unfold zlen in Hz. lia. }
  destruct (any_go_rep 2 _ _ R3) as (b4 & Eb4 & R4); [lia|]. cbn [any_go] in Eb4. injection Eb4 as <-.
  exists (qb_answer qb). split; [|exact R4]. unfold start_answer, msg_header, header_for_message_slice. cbn [msg_octets].
  destruct (Nat.leb_spec 4 (length s)); [|lia]. fold (header_of s). rewrite Emb. rewrite Eq. by rewrite Eqb.
Qed.

Lemma questions_at_good s qs pos e : wf_octets s -> items_at (question_at s) pos qs e -> Forall question_good qs.
Proof using H2 OctetsParserRefOk0.
  intros Hs Hi. induction Hi as [|? q ? ? ? [Hf Hq] Hi IH]; [constructor|]. constructor; [|done]. destruct Hq as (mid & Hat & Hlen & _).
  split_and!; [by eapply at_labels_abs|done|done].
Qed.

#[local] Abbreviation stored_stands := (record_stands (B:=B) (D:=StoredRecordData) (zone_stands (N:=Name))).

Lemma name_ok_unique {N I : Type} `{ToLabelIter N I} `{!LabelIterOk I} (n : N) ls ms : name_ok n ls -> name_ok n ms -> ls = ms.
Proof.
  intros Hl Hm. pose proof (collect_loop_spec name_fuel _ _ (proj1 (proj1 Hl)) (name_ok_fuel _ _ Hl)) as E1.
  pose proof (collect_loop_spec name_fuel _ _ (proj1 (proj1 Hm)) (name_ok_fuel _ _ Hm)) as E2. congruence.
Qed.

Lemma record_stands_owner {N I M J : Type} `{ToLabelIter N I} `{!LabelIterOk I} `{ToLabelIter M J} `{!LabelIterOk J}
    (n : N) (pn : M) ls class (ttl : Z) (d : StoredRecordData) a :
  name_ok n ls -> name_ok pn ls -> stored_stands (mkRR n class ttl d) a -> stored_stands (mkRR pn class ttl d) a.
Proof.
  intros Hn Hpn [[Ho Hr] Hw]. split; [|done]. split; [|done]. by rewrite <- (name_ok_unique n ls (ar_owner a) Hn Ho).
Qed.

Lemma answer_records_owner (n : Name) (pn : ParsedName) ls class content an' :
  name_ok n ls -> name_ok pn ls -> Forall2 stored_stands (answer_records n class content) an' ->
  Forall2 stored_stands (answer_records pn class content) an'.
Proof.
  intros Hn Hpn. assert (Hmap : forall ttl data l, Forall2 stored_stands (map (mkRR n class ttl) data) l ->
    Forall2 stored_stands (map (mkRR pn class ttl) data) l).
  { intros ttl data; induction data as [|d data IH]; intros l Hf; cbn [map] in *; [by apply Forall2_nil_inv_l in Hf as ->|].
    apply Forall2_cons_inv_l in Hf as (a & an2 & Ha & Hf & ->). constructor; [by eapply (record_stands_owner n pn)|by apply IH]. }
  destruct content as [rrset|cname|]; cbn [answer_records]; [apply Hmap|apply (Hmap (srr_ttl cname) [srr_data cname])|apply (Hmap 0 [])].
Qed.

Lemma view_aa h : header_wf h -> header_wf (set_aa h true) /\ view (set_aa h true) = view_set (SetAa true) (view h).
Proof. intros Hw. by apply (apply_set_spec h (SetAa true)). Qed.

(** The records of the additional section. *)
Definition additional_records (additional : option AnswerAdditional) : list StoredRecord :=
  match additional with Some x => required x ++ discardable x | None => [] end.

Lemma into_rep {T} (W : T -> any_builder B) x m : any_rep (W x) m -> mb_into_message (any_mb (W x)) = am_wire m.
Proof. intros Hr. unfold mb_into_message. by rewrite freeze_as_ref, (mb_rep_wire _ _ (proj1 Hr)). Qed.

(** More items for the last section. *)
Lemma push_section {T} (W : T -> any_builder B) push (items : list (pusher B)) ss x m pre sec :
  (forall p x, any_push p (W x) = let! (x, r) := push p x in Ret (W x, r)) ->
  Forall2 (fun push s => Appends push s /\ Succeeds push) items ss -> any_rep (W x) m -> am_secs m = pre ++ [sec] -> am_limit m = NO_LIMIT ->
  12 + zlen (secs_wire (pre ++ [sec ++ ss])) < NO_LIMIT -> zlen (sec ++ ss) < 2 ^ 16 ->
  exists x', push_all push items x = Ret x' /\ push_some push items x = Ret x' /\ any_rep (W x') (am_with m (pre ++ [sec ++ ss])).
Proof using H0.
  intros HW Hp Hr Hs Hlim Hfit Hc. rewrite secs_wire_zlen_snoc, concat_app in Hfit. unfold zlen in Hfit, Hc. rewrite length_app in Hc, Hfit.
  destruct (any_pushes items ss (W x) m pre sec Hp Hr Hs Hlim) as (b & rs & Ec & Hrs & Hr'); [|unfold zlen; lia|].
  { rewrite am_wire_zlen by apply Hr. rewrite Hs, secs_wire_zlen_snoc. unfold zlen in *. lia. }
  destruct (push_all_calls W push items x b rs HW Ec Hrs) as (x' & -> & E1 & E2). by exists x'.
Qed.

(** The question of the request. *)
Lemma sole_question_spec s q an ns ar : holds s [q] an ns ar ->
  exists pq, msg_sole_question (P:=P) (mkMessage s) = Ret (Ok pq) /\ question_is pq q /\ question_good q.
Proof using H2 OctetsParserRefOk0.
  intros Hh. pose proof Hh as (Hl & Hs & Hq & _ & _ & _ & e1 & _ & _ & _ & Iq & _).
  destruct (holds_question (P:=P) _ _ _ _ _ Hh) as (_ & qs & e & _ & _ & _ & Eq & Bq & _). destruct (qs_next_item _ _ _ _ _ Bq) as (pq & qs' & En & Hpq & _).
  exists pq. split_and!; [|done|by pose proof (questions_at_good s _ _ _ Hs Iq) as Hg; apply Forall_uncons in Hg as [? _]].
  unfold msg_sole_question, msg_header_counts, counts_for_message_slice. cbn [msg_octets]. destruct (Nat.leb_spec 12 (length s)); [|lia].
  fold (counts_of s). rewrite Hq. cbn [Z.eqb zlen length Z.of_nat]. rewrite Eq, En. done.
Qed.

Lemma set_aa_rep ab m : any_rep (BAnswer ab) m ->
  exists mb, mb_header_mut (fun h => set_aa h true) (ab_builder ab) = Ret mb /\
    any_rep (BAnswer (mkAB mb (ab_start ab))) (mkAmsg (set_aa (am_header m) true) (am_limit m) (am_secs m)).
Proof using H0.
  intros Hr. destruct (mb_header_rep (fun h => set_aa h true) (ab_builder ab) m (proj1 Hr)) as (mb & Emb & Rmb); [apply view_aa, Hr|].
  exists mb. split; [done|]. exact (any_rep_same (BAnswer ab) m mb _ _ Hr Rmb).
Qed.

(** What is read from the sections. *)
Lemma holds_typed r qs an ns ar answers authorities additionals : holds r qs an ns ar ->
  Forall2 stored_stands answers an -> Forall2 stored_stands authorities ns -> Forall2 stored_stands additionals ar ->
  forall k, exists rs rs', msg_section (P:=P) k (mkMessage r) = Ret (Ok rs) /\
    ri_collect section_fuel (rs_limit_to rs) = Ret (map Ok rs') /\ Forall2 (same_record (N:=Name)) (section_of k answers authorities additionals) rs'.
Proof using All.
  intros Hh Ha Hn Hr k. destruct (holds_section (P:=P) k _ _ _ _ _ Hh) as (rs & e & Es & Hb). destruct Hh as (_ & Hs & _).
  destruct (rs_before_typed _ _ _ _ _ false Hb) as (ts & Ets & Hri & Hlt).
  destruct (ri_collect_spec (fun _ => true) zone_at (zone_rel wf_parsed) r Hs section_fuel _ _ Hri Hlt Hlt) as (items & Ei & Hi).
  cbn [ri_in_only] in Hi. rewrite all_chosen in Hi.
  assert (Hk : Forall2 (record_stands (B:=B) zone_stands) (section_of k answers authorities additionals) (map fst ts)) by (rewrite Ets; by destruct k).
  destruct Hri as (_ & _ & e' & Hit). destruct (typed_items_same r _ _ _ _ _ Hk Hit Hi) as (rs' & -> & Hsame). by exists rs, rs'.
Qed.

(** The additional section. *)
Lemma push_additional_rep (additional : option AnswerAdditional) arb m pre ar' :
  Forall2 stored_stands (additional_records additional) ar' -> any_rep (BAdditional arb) m -> am_secs m = pre ++ [[]] -> am_limit m = NO_LIMIT ->
  12 + zlen (secs_wire (pre ++ [map record_wire ar'])) < NO_LIMIT -> zlen ar' < 2 ^ 16 ->
  exists arb', match additional with
    | None => Ret arb
    | Some x => let! arb := push_all arb_push (map record_compose (required x)) arb in push_some arb_push (map record_compose (discardable x)) arb
    end = Ret arb' /\ any_rep (BAdditional arb') (am_with m (pre ++ [map record_wire ar'])).
Proof using All.
  intros Har Hr Hs Hlim Hfit Hc. destruct additional as [x|]; cbn [additional_records] in Har.
  - apply Forall2_app_inv_l in Har as (ar1 & ar2 & H3 & H4 & ->). rewrite map_app in *. pose proof (secs_wire_zlen_snoc pre) as Hz.
    rewrite Hz, concat_app in Hfit. unfold zlen in Hfit, Hc, Hz. rewrite !length_app in Hfit, Hc.
    destruct (push_section BAdditional arb_push (map record_compose (required x)) (map record_wire ar1) arb m pre []) as (arb1 & -> & _ & R1);
      [done|by apply (record_pushes (P:=P) zone_stands)|done|done|done|cbn [app]; unfold zlen; rewrite Hz; lia|unfold zlen; cbn [app]; rewrite length_map; lia|].
    destruct (push_section BAdditional arb_push (map record_compose (discardable x)) (map record_wire ar2) arb1 (am_with m (pre ++ [[] ++ map record_wire ar1])) pre (map record_wire ar1)) as (arb2 & _ & -> & R2);
      [done|by apply (record_pushes (P:=P) zone_stands)|exact R1|done|done|unfold zlen; rewrite Hz, concat_app, length_app; lia|unfold zlen; rewrite length_app, !length_map; lia|].
    by exists arb2.
  - apply Forall2_nil_inv_l in Har as ->. exists arb. split; [done|]. cbn [map]. rewrite <- Hs. by destruct m.
Qed.

(** A request with one question is answered with a message that has the question and
    what the answer says in its sections, the request's ID, opcode and RD flag, the
    QR flag, the answer's response code, and no other flag unless it is AA; of that
    flag nothing is claimed, since the documentation of [set_authoritative] and of
    [to_message] disagree on it.  Reading the message gives these records back.  This
    is for a target that does not compress names and on which appending never fails,
    no push limit, and at most 65535 records in a section.  (C17) *)
Theorem to_message_correct target mb s q an ns ar a (n : Name) an' ns' ar' :
  mb_from_target (B:=B) target = Some mb -> holds s [q] an ns ar -> name_ok n (qname q) -> 0 <= ans_rcode a < 16 ->
  let answers := answer_records n (qclass q) (ans_content a) in
  let authorities := authority_records (qclass q) (ans_authority a) in
  let additionals := additional_records (ans_additional a) in
  Forall2 stored_stands answers an' -> Forall2 stored_stands authorities ns' -> Forall2 stored_stands additionals ar' ->
  zlen an' < 2 ^ 16 -> zlen ns' < 2 ^ 16 -> zlen ar' < 2 ^ 16 ->
  12 + zlen (secs_wire (am_secs (am_of [q] an' ns' ar'))) < NO_LIMIT ->
  exists arb, to_message (P:=P) a (mkMessage s) mb = Ret arb /\
    let r := mb_into_message (arb_builder arb) in
    holds r [q] an' ns' ar' /\ (exists aa, view (header_of r) = response_view (view (header_of s)) (ans_rcode a) aa) /\
    forall k, exists rs rs', msg_section (P:=P) k (mkMessage r) = Ret (Ok rs) /\
      ri_collect section_fuel (rs_limit_to rs) = Ret (map Ok rs') /\ Forall2 same_record (section_of k answers authorities additionals) rs'.
Proof using All.
  intros Hnew Hh Hn Hrc answers authorities additionals Ha Hns Har Ca Cn Cr Hsize.
  destruct (sole_question_spec _ _ _ _ _ Hh) as (pq & Epq & Hpq & Hg). pose proof (question_is_ok pq q Hpq (proj2 (proj2 Hg)) (proj1 (proj2 Hg))) as [Hpn _].
  pose proof (answer_records_owner n (qname pq) _ _ _ _ Hn Hpn Ha) as Ha'. assert (Hcl : qclass pq = qclass q) by apply Hpq. rewrite <- Hcl in Ha' at 1.
  unfold am_of in Hsize. cbn [am_secs] in Hsize. rewrite secs_wire_zlen_four in Hsize.
  assert (Hpos : forall s : list Z, 0 <= zlen s) by (intros; unfold zlen; lia).
  pose proof (Hpos (concat (map record_wire an'))). pose proof (Hpos (concat (map record_wire ns'))). pose proof (Hpos (concat (map record_wire ar'))).
  destruct (start_answer_rep target mb s [q] an ns ar (ans_rcode a) Hnew Hh) as (ab0 & Eab & R0); [by constructor|done|lia|].
  destruct (response_header_spec (header_of s) (ans_rcode a)) as [Hwf Hview]; [by apply header_of_wf; apply Hh|done|].
  set (h0 := response_header (header_of s) (ans_rcode a) header_new) in *. set (h := if ans_authoritative a then set_aa h0 true else h0).
  set (qw := map question_wire [q]) in *. set (aw := map record_wire an') in *. set (nw := map record_wire ns') in *.
  assert (R1 : exists ab1, (if ans_authoritative a then let! mb := mb_header_mut (fun h => set_aa h true) (ab_builder ab0) in Ret (mkAB mb (ab_start ab0)) else Ret ab0) = Ret ab1 /\
    any_rep (BAnswer ab1) (mkAmsg h NO_LIMIT [qw; []])).
  { subst h. destruct (ans_authoritative a); [|by exists ab0]. destruct (set_aa_rep ab0 _ R0) as (mb1 & -> & R1). by eexists. }
  destruct R1 as (ab1 & Eaa & R1).
  assert (Hz2 : zlen (secs_wire [qw; aw]) = zlen (concat qw) + zlen (concat aw)) by (unfold secs_wire, zlen; simpl; rewrite !concat_app, !length_app; simpl; lia).
  assert (Hz3 : zlen (secs_wire [qw; aw; nw]) = zlen (concat qw) + zlen (concat aw) + zlen (concat nw)) by (unfold secs_wire, zlen; simpl; rewrite !concat_app, !length_app; simpl; lia).
  destruct (push_section BAnswer ab_push _ aw ab1 _ [qw] [] ltac:(done) (record_pushes (P:=P) zone_stands _ _ Ha') R1) as (ab2 & Eans & _ & R2);
    [done|done|cbn [app]; lia|subst aw; unfold zlen in *; cbn [app]; by rewrite length_map|].
  destruct (any_go_rep 3 _ _ R2) as (b3 & Eb3 & R3); [lia|]. injection Eb3 as <-.
  destruct (push_section BAuthority nsb_push _ nw (ab_authority ab2) _ [qw; aw] [] ltac:(done) (record_pushes (P:=P) zone_stands _ _ Hns) R3) as (nsb & Ens & _ & R4);
    [done|done|cbn [app]; lia|subst nw; unfold zlen in *; cbn [app]; by rewrite length_map|].
  destruct (any_go_rep 4 _ _ R4) as (b5 & Eb5 & R5); [lia|]. injection Eb5 as <-.
  destruct (push_additional_rep (ans_additional a) (nsb_additional nsb) _ [qw; aw; nw] ar' Har R5) as (arb & Earb & R6); [done|done|cbn [app]; rewrite secs_wire_zlen_four; lia|done|].
  exists arb. split.
  { subst answers authorities additionals. unfold to_message, StoredRecord, StoredRecordData in *. rewrite Epq, Eab, Eaa, Eans, Hcl. by rewrite Ens, Earb. }
  pose proof (into_rep BAdditional arb _ R6) as Er. cbn [any_mb] in Er. cbv zeta. rewrite Er.
  assert (Hhr : holds (am_wire (am_full h NO_LIMIT [q] an' ns' ar')) [q] an' ns' ar').
  { apply am_full_holds; [by constructor|exact (records_good (B:=B) zone_stands _ _ Ha)|exact (records_good (B:=B) zone_stands _ _ Hns)|exact (records_good (B:=B) zone_stands _ _ Har)|apply R6]. }
  split; [exact Hhr|]. split; [exists (ans_authoritative a)|by eapply holds_typed].
  assert (Hhd : header_of (am_wire (am_full h NO_LIMIT [q] an' ns' ar')) = h).
  { destruct (header_wf_octets h) as (x0 & x1 & x2 & x3 & -> & _); [apply R6|]. done. }
  change (view (header_of (am_wire (am_full h NO_LIMIT [q] an' ns' ar'))) = response_view (view (header_of s)) (ans_rcode a) (ans_authoritative a)).
  rewrite Hhd. subst h. destruct (ans_authoritative a); [|done]. destruct (view_aa h0 Hwf) as [_ ->]. by rewrite Hview.
Qed.
End Response.

(** ** Examples *)

(** A request for the addresses of [a.]. *)
Definition ex_request : list Z := [1; 2; 1; 0; 0; 1; 0; 0; 0; 0; 0; 0; 1; 97; 0; 0; 1; 0; 1].
Definition ex_request_question : Question (list (list Z)) := mkQuestion [[97]; []] 1 1.
Definition ex_answer : ZAnswer := answer_set_authoritative (na_answer (na_data ex_rrset)) true.
Definition ex_answer_record : arecord := mkArecord [[97]; []] 1 1 300 [192; 0; 2; 1].

Lemma ex_request_holds : holds ex_request [ex_request_question] [] [] [].
Proof.
  assert (Hname : at_labels ex_request 12 [[97]; []] 15).
  { apply at_label; [done|by_decide|done|]. by apply at_root. }
  split_and!; [by_decide|by_decide|done..|]. exists 19%nat, 19%nat, 19%nat, 19%nat. split_and!; [|constructor..].
  econstructor; [|constructor]. split; [split; by_decide|]. exists 15%nat. by split_and!; [|by_decide| |].
Qed.

Lemma ex_a_ok : name_ok ex_a [[97]; []].
Proof. split_and!; [apply wf_abs_denotes, ex_a_wf|apply ex_a_wf|by_decide]. Qed.

Lemma ex_answer_stands : record_stands (B:=list Z) (D:=StoredRecordData) zone_stands (mkRR ex_a 1 300 (ZoneA (mkA [192; 0; 2; 1]))) ex_answer_record.
Proof.
  split; [|by_decide]. split_and!; [apply ex_a_ok|done..| |split_and!; by_decide]. exists (ZoneA (mkA [192; 0; 2; 1])). split; [|done].
  split; [reflexivity|]. by_decide.
Qed.

Lemma to_message_correct_witness :
  exists arb, to_message (B:=list Z) (P:=lim_parser) ex_answer (mkMessage ex_request) (mkMB (replicate 12 0) NO_LIMIT) = Ret arb /\
    holds (mb_into_message (arb_builder arb)) [ex_request_question] [ex_answer_record] [] [].
Proof.
  destruct (to_message_correct (B:=list Z) (P:=lim_parser) [] (mkMB (replicate 12 0) NO_LIMIT) ex_request ex_request_question [] [] [] ex_answer ex_a
    [ex_answer_record] [] []) as (arb & Hm & Hh & _); [reflexivity|apply ex_request_holds|apply ex_a_ok|by_decide|..|by exists arb]; try by_decide.
  - constructor; [apply ex_answer_stands|constructor].
  - constructor.
  - constructor.
Defined.

(** An authoritative answer gives a message with the AA flag. *)
Lemma response_has_aa :
  match to_message (B:=list Z) (P:=lim_parser) ex_answer (mkMessage ex_request) (mkMB (replicate 12 0) NO_LIMIT) with
  | Ret arb => header_aa (header_of (mb_into_message (arb_builder arb))) = true
  | Panic => False
  end.
Proof. by vm_compute. Qed.

(** An answer that does not fit panics. *)
Lemma long_answer_panics :
  to_message (B:=list Z) (P:=lim_parser) ex_answer (mkMessage ex_request) (mkMB (replicate 12 0) 30) = Panic.
Proof. by vm_compute. Qed.
